(* ===== verification/_CoqProject ===== *)
-Q . S2P
Prelude.v
MachineInt.v
ZigZag.v
FloatBits.v
Leb128.v
Endian.v
VarInt.v
BinaryStream.v
StreamState.v
Snappy.v
Zlib.v
Framing.v
GamePacket.v
Text.v
Packets.v
Batch.v
Framer.v
Versioned.v
VersionedCodec.v
LoginPacket.v
PayloadReader.v
Nbt.v
NbtFile.v
PalettedStorage.v
SubChunk.v
SubChunkState.v
SubChunkCodec.v
Encryption.v
VersionedReader.v
ClientSession.v
ClientLink.v
ProtoDefData.v
FloatText.v
FloatRoundtrip.v
ProtoDefJson.v
JsonRoundtrip.v
ProtoDefText.v
ProtoDefStream.v
ProtoDefNbt.v
NbtEqual.v
ProtoDefEncoder.v
ProtoDefDecoder.v
ProtoDefPackets.v
ProtoDefSchema.v
ProtoDefTypes.v
ProtoDefEncodes.v
ProtoDefDecodes.v
ProtoDefRoundtrip.v
NetworkClient.v
ClientSample.v
ClientSteps.v
ClientSafety.v
ClientWire.v
ClientJoin.v
BedrockServer.v
ServerSample.v
ServerIsolation.v
ServerWire.v
BiomeSection.v
XxHash64.v
WorldIterators.v
ChunkColumn.v
ColumnState.v
ColumnCodec.v
ColumnRoundtrip.v
PayloadParser.v
LevelChunk.v
SubChunkPacket.v
ColumnBiomes.v
World.v
WorldKeys.v
WorldState.v
WorldInvariant.v
WorldUnload.v
WorldCache.v
WorldBlocks.v
LegacyChunk.v
LegacyState.v
Legacy014.v
Legacy10.v
