(* ===== verification/Prelude.v ===== *)
(** * Verification library for bedrock-protocol-cpp

    A shallow embedding of the library under src/src and src/include/bedrock:
    the codecs from bytes to packets, NBT, the data of the world, the versioned
    protocol with its schema interpreter, and the sessions of a client and a
    server that talk through them.  Every definition is executable and follows
    the C++ function it is named after, guard by guard.

    ** How the program fits together

    A datagram payload is an MCPE envelope: 0xfe, an optional compression byte,
    and a block of length-prefixed packets, compressed with raw deflate or
    Snappy and, after the login, encrypted.  There are two stacks.  The
    hand-written one (GamePacketCodec.cpp, BatchCodec.cpp, BedrockPacketIO.cpp,
    BedrockFramer.cpp, PacketPayloadReader.cpp, PacketFactory.cpp,
    PacketDispatcher.cpp) knows a few packets of one version.  The versioned one
    (ProtocolDefinition.hpp, VersionedPacketCodec.hpp, VersionedBatchCodec.hpp,
    VersionedMcpeCodec.cpp, LoginPacket.cpp, VersionedPayloadReader.hpp) works
    from generated tables; the payloads of its packets are written and read by
    the ProtoDef interpreter (ProtoDefEncoder.hpp, ProtoDefDecoder.hpp) from the
    text of schemas.  VersionedClientSession.hpp, BedrockNetworkClient.cpp and
    BedrockServer.hpp put sessions on top: negotiation of the compression, the
    encryption handshake (BedrockEncryption.cpp), the built-in answers, queues,
    events, closing.  The payloads of chunk packets become columns of block
    sections and biomes, kept by a world that loads and saves them
    (BedrockChunk.cpp, BedrockSubChunkPacket.cpp, BedrockLegacyChunk.cpp), with
    NBT (BedrockNbt.cpp, BedrockNbtFile.cpp) for what blocks carry.

    ** Files

    Foundations:
    - Prelude.v: exceptions, results, the state-and-exception monad [M], loops,
      vectors with the accesses that C++ leaves undefined, relations between the
      states before and after that computations keep.
    - MachineInt.v, ZigZag.v, FloatBits.v, Leb128.v, Endian.v: fixed-width
      integers, zigzag, float and double bit patterns, the LEB128 loops of all
      readers and writers against one reference codec, byte orders.
      [ByteSource] (Leb128.v) is the interface a varint reader needs.
    - Text.v, FloatText.v: numbers in strings, as std::stoi, std::to_string,
      strtod and an ostream of precision 17 convert them.  FloatRoundtrip.v:
      the text of a finite double is read back bit for bit, over the real
      numbers of the Standard Library.

    Streams and codecs:
    - VarInt.v: util/VarInt.cpp, util/BinaryStream.cpp.  BinaryStream.v: class
      BinaryStream, owned and viewed; [reads], [appends] and [steps] are the
      parsing, writing and safety judgements of its clients.  StreamState.v: the
      same judgements ([preads], [psafe]) for an object filled from a stream.
    - Snappy.v: SnappyCodec.cpp.  Zlib.v: the deflate and inflate loops over an
      abstract [zlib] with the laws [ZlibLaws].
    - Framing.v: the frame loops that three framers share, over [LengthCodec].
      GamePacket.v, Packets.v, Batch.v, Framer.v, PayloadReader.v: the
      hand-written stack.
    - Nbt.v, NbtFile.v, NbtEqual.v: the NBT codec; files and level.dat; equality
      and simplification.
    - Encryption.v: BedrockEncryption.cpp over an abstract [crypto] with the laws
      [CryptoLaws], and the encrypted channel of a session.

    The versioned protocol:
    - Versioned.v, VersionedCodec.v: packets, batches and MCPE payloads of a
      version, and their properties.  LoginPacket.v, VersionedReader.v: the login
      packet and the hand-written readers.
    - ProtoDefData.v: values, fields and the interface [PacketCodecs].
      ProtoDefJson.v, ProtoDefText.v, ProtoDefStream.v, ProtoDefNbt.v: JSON, the
      scanning of schema text, the bytes, NBT inside packets.  JsonRoundtrip.v:
      what is printed as JSON is parsed back.  ProtoDefEncoder.v,
      ProtoDefDecoder.v, ProtoDefPackets.v: the interpreter and the packet
      codecs, which are an instance of [PacketCodecs].
    - ProtoDefSchema.v, ProtoDefTypes.v, ProtoDefEncodes.v, ProtoDefDecodes.v,
      ProtoDefRoundtrip.v: schemas as trees and as types with reference bytes
      [enc] and reference fields [flds]; the interpreter, which works on text,
      is proved to compute them.

    Sessions:
    - ClientSession.v: class VersionedClientSession.
    - ClientLink.v: how the network client puts batches on the wire and takes
      them off.  NetworkClient.v: the client around it.  ClientSteps.v,
      ClientSafety.v, ClientWire.v, ClientJoin.v: what its runs keep, what they
      put on the wire, the order of its events.  ClientSample.v: concrete
      surroundings for witnesses.
    - BedrockServer.v: class BedrockServer and the part of RakNetServer.cpp that
      feeds it.  ServerIsolation.v: its tables, and what one player can do to
      the others.  ServerWire.v: the client's link and the server's session
      talking to each other.  ServerSample.v: surroundings for witnesses.

    The world:
    - PalettedStorage.v, SubChunk.v, SubChunkState.v, SubChunkCodec.v: block
      sections.  BiomeSection.v: biome sections.  XxHash64.v: the hash of blobs.
    - ChunkColumn.v, ColumnState.v, ColumnCodec.v, ColumnRoundtrip.v,
      ColumnBiomes.v: columns.
    - PayloadParser.v, LevelChunk.v, SubChunkPacket.v: the chunk packets.
    - World.v, WorldKeys.v, WorldState.v, WorldInvariant.v, WorldUnload.v,
      WorldCache.v, WorldBlocks.v: class BedrockWorld.
    - LegacyChunk.v, LegacyState.v, Legacy014.v, Legacy10.v: legacy chunks.
    - WorldIterators.v: walks over block positions.

    ** Modelling choices

    - An exception class is a constructor of [exn] with its message.  An access
      or overflow that C++ leaves undefined yields [UndefinedBehaviour]; a loop
      that runs out of its bound yields [OutOfFuel].  No handler of the model
      catches either, and [safe], [runs_safe], [steps] and [psafe] exclude both:
      the safety theorems are memory safety and termination at once.
    - Integers are [Z] with every conversion and wrap-around written out;
      std::string is a Rocq string; float and double are bit patterns.
    - Member functions are computations on the object ([M S A]); when an
      exception leaves one, the object stays as far as it got.
    - A std::unordered_map whose order cannot be seen is a [gmap]; where the
      order shows, it is an entry list or an order that is a parameter.
    - Callbacks and listeners are the caller's code.  Those of the world, the
      client session and the dispatcher are computations on an environment or on
      the object and its environment; the listeners of the network client and of
      the server are computations on the client or server itself and may call
      any operation.  The sessions of the server are shared objects in a heap,
      since a listener may replace the session that an operation still holds.
    - What leaves the model is recorded in order: [wire_] and [events_] of client
      and server.
    - Locks make the operations of client and server atomic steps; threads are
      the interleavings of these steps, over which [reachable] and the runs of
      ClientWire.v quantify.
    - zlib, OpenSSL, JSON web tokens, the generated tables and schemas, clocks
      and the native transport are parameters.  zlib and the cipher have the
      documented laws [ZlibLaws] and [CryptoLaws], with the instances
      [stored_zlib] and [toy_crypto].
    - Running out of memory or stack (the JSON parser recurses as deep as its
      text) and container size limits are not modelled.

    ** Bounds

    Varint loops take five (ten) groups, the code's shift bound.  [zlib_fuel]
    covers every call that makes progress ([ZlibLaws] makes them progress).
    Batch loops take one turn per input byte.  [payload_fuel] is the depth limit
    plus two, because the reader checks the depth first; the loop over the
    children of a compound is bounded by the bytes that are left.  The JSON
    parser's fuel is the length of the text, which every turn shortens.  The
    interpreter's fuel is the nesting of a schema and is a parameter; the round
    trip holds for every fuel above the nesting of the type.  [layer_fuel] is one
    turn per missing layer.  [encode] allows 255 layers, all that the eight-bit
    counter can pass; [subchunk_encode_diverges] shows that no fuel is enough
    for 256.

    ** What the theorems show

    - Sessions: over any run, a client's wire is that of its link
      ([wire_decodes]); link and link deliver every batch in every phase
      ([link_conversation]), and so do client and server session, but for what
      the server compresses before the negotiation ([server_conversation]); a
      closed client stays closed, a spawn follows a join; the server's tables
      agree, and no payload of one endpoint reaches another player
      ([server_tables], [server_isolation]).
    - The interpreter: encoding and strict decoding of a packet by a schema of
      containers, options, arrays, switches, mappers and numbers compute
      reference definitions that know nothing of text; bytes left over are an
      error; JSON text, with its doubles, NBT values and integers round trip.
    - The world: operations on the maps, a write-back cache refining a plain map
      of columns, nothing saved is lost, put-off unloads happen, blocks addressed
      by world coordinates.
    - Round trips: NBT, Snappy, envelopes and batches of every version and mode,
      login packets, sections, columns, chunk packets, legacy chunks.
    - Safety on arbitrary bytes: NBT, Snappy, links, columns, JSON; more in the
      files of the single codecs.
    - Divergences from the intent, each a theorem or a computed example next to
      the definition it is about: among them a payload that ends the server's
      process, a join without a login, one-entry palettes of a negative state,
      sections of 256 layers, biomes that cannot be read back, unloads stranded
      by a handler that throws, schema switches misread by the encoder, a walk
      that returns one position too far.

    ** Not modelled

    - RakNet (vendored) and the native halves of RakNetClient and RakNetServer;
      sockets, threads, locks, timers and HTTP.
    - The connect lifecycle of the network client between its threads,
      authentication, token verification and key derivation (parameters), and
      its tracking of the world, which hands packets to the world codecs.
    - The relay, which joins a server and a client of this library by threads
      and queues; the server's advertisement; the registration of listeners.
    - The generated tables and schemas: data, and a parameter here.
    - What only reads or diagnoses: raycasts (floating point), block lookups in
      a registry, the sub-chunk scanners, the feature registry, the tools. *)

From stdpp Require Export base list list_numbers gmap strings pretty numbers.
From Stdlib Require Export ZArith Lia.

#[global] Open Scope Z_scope.

(** ** Exceptions and results

    One constructor per exception class of the sources that the modelled code
    throws, carrying the [what()] string.  Two constructors are not exceptions
    of the program: the model yields [UndefinedBehaviour] where the C++ code
    would access a container out of range, so that memory safety can be
    stated, and [OutOfFuel] where a bounded loop of the model is cut short, so
    that termination can be stated.  Both are "stuck": no handler catches
    them, and the safety theorems exclude them. *)

Inductive exn : Type :=
| BinaryStreamError (msg : string)
| BedrockFramerError (msg : string)
| SnappyCodecError (msg : string)
| BedrockNbtError (msg : string)
| BedrockEncryptionError (msg : string)
| BedrockChunkError (msg : string)
| BedrockSubChunkPacketError (msg : string)
| LoginPacketError (msg : string)
| PacketPayloadReaderError (msg : string)
| UnhandledError (msg : string)
| RuntimeError (msg : string)
| OutOfRange (msg : string)
| InvalidArgument (msg : string)
| UndefinedBehaviour (what : string)
| OutOfFuel.

#[export] Instance exn_eq_dec : EqDecision exn.
Proof. solve_decision. Defined.

Inductive result (A : Type) : Type :=
| Ok (a : A)
| Throw (e : exn).
Arguments Ok {A} a.
Arguments Throw {A} e.

#[export] Instance result_eq_dec `{EqDecision A} : EqDecision (result A).
Proof. solve_decision. Defined.

Definition is_stuck (e : exn) : bool :=
  match e with UndefinedBehaviour _ | OutOfFuel => true | _ => false end.

(** [what()] of a caught [std::exception]. *)
Definition what (e : exn) : string :=
  match e with
  | BinaryStreamError m | BedrockFramerError m | SnappyCodecError m
  | BedrockNbtError m | BedrockEncryptionError m | BedrockChunkError m
  | BedrockSubChunkPacketError m | LoginPacketError m
  | PacketPayloadReaderError m | UnhandledError m | RuntimeError m | OutOfRange m
  | InvalidArgument m | UndefinedBehaviour m => m
  | OutOfFuel => ""
  end.

(** A result that is neither undefined behaviour nor a truncated loop. *)
Definition safe {A} (r : result A) : Prop :=
  match r with Ok _ => True | Throw e => is_stuck e = false end.

Definition rbind {A B} (r : result A) (k : A -> result B) : result B :=
  match r with Ok a => k a | Throw e => Throw e end.

(** [try r catch (const std::exception& e) { h e }]; undefined behaviour is
    not catchable. *)
Definition rcatch {A} (r : result A) (h : exn -> result A) : result A :=
  match r with
  | Ok a => Ok a
  | Throw e => if is_stuck e then Throw e else h e
  end.

(** ** The state and exception monad

    A C++ function that mutates an object or a by-reference argument of type
    [S] and may throw.  The state reached when an exception leaves the
    function is kept, because callers that catch can observe it. *)
Definition M (S A : Type) : Type := S -> result A * S.

Definition ret {S A} (a : A) : M S A := fun s => (Ok a, s).
Definition raise {S A} (e : exn) : M S A := fun s => (Throw e, s).
Definition bind {S A B} (m : M S A) (k : A -> M S B) : M S B :=
  fun s => match m s with
           | (Ok a, s') => k a s'
           | (Throw e, s') => (Throw e, s')
           end.
Definition get_st {S} : M S S := fun s => (Ok s, s).
Definition put_st {S} (s : S) : M S unit := fun _ => (Ok tt, s).
Definition lift {S A} (r : result A) : M S A := fun s => (r, s).
Definition catch {S A} (m : M S A) (h : exn -> M S A) : M S A :=
  fun s => match m s with
           | (Ok a, s') => (Ok a, s')
           | (Throw e, s') => if is_stuck e then (Throw e, s') else h e s'
           end.
(** Runs a computation on a component of a larger state. *)
Definition zoom {S T A} (get : S -> T) (set : T -> S -> S) (m : M T A) : M S A :=
  fun s => match m (get s) with (r, t) => (r, set t s) end.

Declare Scope cpp_scope.
Delimit Scope cpp_scope with cpp.
Notation "'let!' x ':=' r 'in' k" := (rbind r (fun x => k))
  (at level 10, x pattern, r at level 100, k at level 200) : cpp_scope.
Notation "'let*' x ':=' m 'in' k" := (bind m (fun x => k))
  (at level 10, x pattern, m at level 100, k at level 200) : cpp_scope.
Notation "m ;;; k" := (bind m (fun _ => k))
  (at level 199, right associativity) : cpp_scope.
#[global] Open Scope cpp_scope.

Lemma bind_ok {S A B} (m : M S A) (k : A -> M S B) s a s' :
  m s = (Ok a, s') -> bind m k s = k a s'.
Proof. intros H. unfold bind. by rewrite H. Qed.

Lemma bind_throw {S A B} (m : M S A) (k : A -> M S B) s e s' :
  m s = (Throw e, s') -> bind m k s = (Throw e, s').
Proof. intros H. unfold bind. by rewrite H. Qed.

(** The equations of the primitive steps. *)
Lemma bind_lift {S A B} (a : A) (k : A -> M S B) s : bind (lift (Ok a)) k s = k a s.
Proof. done. Qed.
Lemma bind_ret {S A B} (a : A) (k : A -> M S B) s : bind (ret a) k s = k a s.
Proof. done. Qed.
Lemma bind_get {S B} (k : S -> M S B) s : bind get_st k s = k s s.
Proof. done. Qed.
Lemma bind_put {S B} (t : S) (k : unit -> M S B) s : bind (put_st t) k s = k tt t.
Proof. done. Qed.

Lemma bind_inv_ok {S A B} (m : M S A) (k : A -> M S B) s b s'' :
  bind m k s = (Ok b, s'') ->
  exists a s', m s = (Ok a, s') /\ k a s' = (Ok b, s'').
Proof.
  unfold bind. destruct (m s) as [[a|e] s'] eqn:E; [eauto|discriminate].
Qed.

Lemma bind_assoc {S A B C} (m : M S A) (f : A -> M S B) (g : B -> M S C) s :
  bind (bind m f) g s = bind m (fun a => bind (f a) g) s.
Proof. unfold bind. by destruct (m s) as [[a|e] s']. Qed.

Lemma rbind_inv_ok {A B} (r : result A) (k : A -> result B) b :
  rbind r k = Ok b -> exists a, r = Ok a /\ k a = Ok b.
Proof. destruct r; simpl; [eauto|discriminate]. Qed.

(** ** Safe runs

    [runs_safe m s Q]: started in [s], [m] either returns with [Q] or throws
    an exception of the program; it is never stuck. *)
Definition runs_safe {S A} (m : M S A) (s : S) (Q : A -> S -> Prop) : Prop :=
  match m s with
  | (Ok a, s') => Q a s'
  | (Throw e, _) => is_stuck e = false
  end.

Lemma runs_safe_bind {S A B} (m : M S A) (k : A -> M S B) s R Q :
  runs_safe m s R -> (forall a s', R a s' -> runs_safe (k a) s' Q) ->
  runs_safe (bind m k) s Q.
Proof.
  unfold runs_safe, bind. destruct (m s) as [[a|e] s']; [|done].
  intros HR Hk. by apply Hk.
Qed.

Lemma runs_safe_ret {S A} (a : A) (s : S) (Q : A -> S -> Prop) :
  Q a s -> runs_safe (ret a) s Q.
Proof. done. Qed.

Lemma runs_safe_raise {S A} e (s : S) (Q : A -> S -> Prop) :
  is_stuck e = false -> runs_safe (raise e) s Q.
Proof. done. Qed.

Lemma runs_safe_get {S} (s : S) (Q : S -> S -> Prop) : Q s s -> runs_safe get_st s Q.
Proof. done. Qed.

Lemma runs_safe_put {S} (s s' : S) (Q : unit -> S -> Prop) :
  Q tt s' -> runs_safe (put_st s') s Q.
Proof. done. Qed.

Lemma runs_safe_lift {S A} (r : result A) (s : S) (Q : A -> S -> Prop) :
  safe r -> (forall a, r = Ok a -> Q a s) -> runs_safe (lift r) s Q.
Proof. unfold runs_safe, lift. destruct r as [a|e]; simpl; auto. Qed.

Lemma runs_safe_mono {S A} (m : M S A) s (R Q : A -> S -> Prop) :
  runs_safe m s R -> (forall a s', R a s' -> Q a s') -> runs_safe m s Q.
Proof. unfold runs_safe. destruct (m s) as [[a|e] s']; auto. Qed.

Lemma runs_safe_safe {S A} (m : M S A) s Q : runs_safe m s Q -> safe (fst (m s)).
Proof. unfold runs_safe. by destruct (m s) as [[a|e] s']. Qed.

(** A range-based [for] loop. *)
Fixpoint for_each {S A} (l : list A) (body : A -> M S unit) : M S unit :=
  match l with
  | [] => ret tt
  | x :: l' => body x ;;; for_each l' body
  end.

(** The object a computation leaves behind, for value-returning callers. *)
Definition exec {S} (m : M S unit) (s : S) : result S :=
  match m s with (Ok _, s') => Ok s' | (Throw e, _) => Throw e end.

Lemma for_each_app {S A} (l k : list A) (body : A -> M S unit) s :
  for_each (l ++ k) body s = (for_each l body ;;; for_each k body) s.
Proof.
  revert s. induction l as [|x l IH]; intros s; [done|]. cbn [app for_each].
  rewrite bind_assoc. unfold bind. destruct (body x s) as [[a|e] s']; [apply IH|done].
Qed.

Lemma for_each_bind {S A B} (l : list A) (f : A -> list B) (body : B -> M S unit) s :
  for_each (l ≫= f) body s = for_each l (fun x => for_each (f x) body) s.
Proof.
  revert s. induction l as [|x l IH]; intros s; [done|].
  rewrite bind_cons, for_each_app. cbn [for_each]. unfold bind.
  destruct (for_each (f x) body s) as [[a|e] s']; [apply IH|done].
Qed.

Lemma for_each_fmap {S A B} (l : list A) (f : A -> B) (body : B -> M S unit) s :
  for_each (f <$> l) body s = for_each l (fun x => body (f x)) s.
Proof.
  revert s. induction l as [|x l IH]; intros s; [done|]. cbn [fmap list_fmap for_each].
  unfold bind. destruct (body (f x) s) as [[a|e] s']; [apply IH|done].
Qed.

Lemma for_each_ext {S A} (l : list A) (f g : A -> M S unit) s :
  (forall x s, x ∈ l -> f x s = g x s) -> for_each l f s = for_each l g s.
Proof.
  revert s. induction l as [|x l IH]; intros s H; [done|]. cbn [for_each]. unfold bind.
  rewrite H by (by left). destruct (g x s) as [[a|e] s']; [|done].
  apply IH. intros y t Hy. apply H. by right.
Qed.

(** A loop whose body always returns, with an invariant indexed by what is
    left to do. *)
Lemma for_each_ok {S A} (body : A -> M S unit) (I : list A -> S -> Prop) l s :
  (forall x l' s, I (x :: l') s -> exists s', body x s = (Ok tt, s') /\ I l' s') ->
  I l s -> exists s', for_each l body s = (Ok tt, s') /\ I [] s'.
Proof.
  intros Hb. revert s. induction l as [|x l IH]; intros s Hs; [by exists s|].
  destruct (Hb x l s Hs) as (s1 & E1 & H1). destruct (IH s1 H1) as (s2 & E2 & H2).
  exists s2. split; [|done]. cbn [for_each]. by rewrite (bind_ok _ _ _ _ _ E1).
Qed.

(** The same for bodies that may throw. *)
Lemma for_each_runs_safe {S A} (body : A -> M S unit) (I : list A -> S -> Prop) l s :
  (forall x l' s, I (x :: l') s -> runs_safe (body x) s (fun _ s' => I l' s')) ->
  I l s -> runs_safe (for_each l body) s (fun _ s' => I [] s').
Proof.
  intros Hb. revert s. induction l as [|x l IH]; intros s Hs; [done|]. cbn [for_each].
  eapply runs_safe_bind; [by apply Hb|]. cbv beta. intros [] s' Hs'. by apply IH.
Qed.

(** ** Both ways out

    [ends m s Q X]: [m] started in [s] returns with [Q] or throws with [X] on
    the state it leaves.  [X] is [False] for code that cannot throw, an
    invariant for what survives an exception, [True] for returns only. *)
Definition ends {S A} (m : M S A) (s : S) (Q : A -> S -> Prop) (X : S -> Prop) : Prop :=
  match m s with (Ok a, s') => Q a s' | (Throw _, s') => X s' end.

Lemma ends_bind {S A B} (m : M S A) (k : A -> M S B) s R Q (X : S -> Prop) :
  ends m s R X -> (forall a s', R a s' -> ends (k a) s' Q X) -> ends (bind m k) s Q X.
Proof. unfold ends, bind. destruct (m s) as [[a|e] s']; [|done]. intros HR Hk. by apply Hk. Qed.

Lemma ends_ret {S A} (a : A) (s : S) (Q : A -> S -> Prop) X : Q a s -> ends (ret a) s Q X.
Proof. done. Qed.

Lemma ends_lift {S A} (r : result A) (s : S) (Q : A -> S -> Prop) (X : S -> Prop) :
  (forall a, r = Ok a -> Q a s) -> ((forall a, r <> Ok a) -> X s) -> ends (lift r) s Q X.
Proof. unfold ends, lift. destruct r; naive_solver. Qed.

Lemma ends_mono {S A} (m : M S A) s (R Q : A -> S -> Prop) (Y X : S -> Prop) :
  ends m s R Y -> (forall a s', R a s' -> Q a s') -> (forall s', Y s' -> X s') -> ends m s Q X.
Proof. unfold ends. destruct (m s) as [[a|e] s']; auto. Qed.

Lemma ends_for_each {S A} (l : list A) (body : A -> M S unit) (J : list A -> S -> Prop) X s :
  (forall x l' s, J (x :: l') s -> ends (body x) s (fun _ s' => J l' s') X) ->
  J l s -> ends (for_each l body) s (fun _ s' => J [] s') X.
Proof.
  intros Hb. revert s. induction l as [|x l IH]; intros s Hs; [done|]. cbn [for_each].
  eapply ends_bind; [by apply Hb|]. cbv beta. intros [] s' Hs'. by apply IH.
Qed.

(** Splits a successful monadic run into the runs of its parts. *)
Ltac minv H :=
  let a := fresh "x" in let s := fresh "s" in
  let H1 := fresh "H" in let H2 := fresh "H" in
  apply bind_inv_ok in H; destruct H as (a & s & H1 & H2).

(** ** Containers *)

Abbreviation bytes := (list Z).

Definition size {A} (l : list A) : Z := Z.of_nat (length l).

(** [v[i]] on a vector: out of range is undefined behaviour. *)
Definition vec_at {A} (l : list A) (i : Z) : result A :=
  if i <? 0 then Throw (UndefinedBehaviour "operator[]")
  else match l !! Z.to_nat i with
       | Some x => Ok x
       | None => Throw (UndefinedBehaviour "operator[]")
       end.

(** The range [begin() + i .. begin() + j) of a vector. *)
Definition vec_range {A} (l : list A) (i j : Z) : result (list A) :=
  if (0 <=? i) && (i <=? j) && (j <=? size l)
  then Ok (take (Z.to_nat (j - i)) (drop (Z.to_nat i) l))
  else Throw (UndefinedBehaviour "iterator range").

(** [v[i] = x]. *)
Definition vec_set {A} (l : list A) (i : Z) (x : A) : result (list A) :=
  if (0 <=? i) && (i <? size l) then Ok (<[Z.to_nat i := x]> l)
  else Throw (UndefinedBehaviour "operator[] =").

(** [std::copy_n(src.begin(), src.size(), dst.begin() + i)]. *)
Definition vec_blit {A} (dst : list A) (i : Z) (src : list A) : result (list A) :=
  if (0 <=? i) && (i + size src <=? size dst)
  then Ok (take (Z.to_nat i) dst ++ src ++ drop (Z.to_nat (i + size src)) dst)
  else Throw (UndefinedBehaviour "copy_n").

Lemma size_nonneg {A} (l : list A) : 0 <= size l.
Proof. unfold size. lia. Qed.

Lemma size_app {A} (l k : list A) : size (l ++ k) = size l + size k.
Proof. unfold size. rewrite length_app. lia. Qed.

Lemma size_cons {A} (x : A) l : size (x :: l) = size l + 1.
Proof. unfold size. simpl. lia. Qed.

Lemma size_nil {A} : size (@nil A) = 0.
Proof. done. Qed.

Lemma size_length {A} (l : list A) n : size l = n -> length l = Z.to_nat n.
Proof. unfold size. lia. Qed.

Lemma size_zero_inv {A} (l : list A) : size l = 0 -> l = [].
Proof. destruct l; [done|rewrite size_cons; pose proof (size_nonneg l); lia]. Qed.

Lemma vec_at_app {A} (l : list A) x r : vec_at (l ++ x :: r) (size l) = Ok x.
Proof.
  unfold vec_at, size. rewrite (proj2 (Z.ltb_ge _ _)) by lia.
  rewrite Nat2Z.id, list_lookup_middle by done. done.
Qed.

Lemma vec_at_app_off {A} (l : list A) k x r i :
  i = size l + size k -> vec_at (l ++ k ++ x :: r) i = Ok x.
Proof.
  intros ->. rewrite app_assoc, <-size_app. apply vec_at_app.
Qed.

Lemma vec_at_ok {A} (l : list A) i :
  0 <= i < size l -> exists x, vec_at l i = Ok x /\ l !! Z.to_nat i = Some x.
Proof.
  intros Hi. unfold vec_at. rewrite (proj2 (Z.ltb_ge _ _)) by lia.
  destruct (lookup_lt_is_Some_2 l (Z.to_nat i)) as [x Hx];
    [unfold size in Hi; lia|].
  rewrite Hx. eauto.
Qed.

Lemma vec_at_lookup {A} (l : list A) i x :
  0 <= i -> l !! Z.to_nat i = Some x -> vec_at l i = Ok x.
Proof.
  intros Hi Hx. unfold vec_at. rewrite (proj2 (Z.ltb_ge _ _)) by lia.
  by rewrite Hx.
Qed.

Lemma vec_at_inv {A} (l : list A) i x :
  vec_at l i = Ok x -> 0 <= i < size l /\ l !! Z.to_nat i = Some x.
Proof.
  unfold vec_at. destruct (Z.ltb_spec i 0); [discriminate|].
  destruct (l !! Z.to_nat i) eqn:E; intros [= ->].
  split; [|done]. apply lookup_lt_Some in E. unfold size. lia.
Qed.

Lemma vec_at_safe {A} (l : list A) i : 0 <= i < size l -> safe (vec_at l i).
Proof. intros Hi. by destruct (vec_at_ok l i Hi) as (x & -> & _). Qed.

Lemma vec_range_ok {A} (l : list A) i j :
  0 <= i <= j -> j <= size l ->
  vec_range l i j = Ok (take (Z.to_nat (j - i)) (drop (Z.to_nat i) l)).
Proof.
  intros Hi Hj. unfold vec_range.
  rewrite !(proj2 (Z.leb_le _ _)) by lia. done.
Qed.

Lemma vec_range_app {A} (l m r : list A) i j :
  i = size l -> j = size l + size m -> vec_range (l ++ m ++ r) i j = Ok m.
Proof.
  intros -> ->. pose proof (size_nonneg l). pose proof (size_nonneg m).
  pose proof (size_nonneg r).
  rewrite vec_range_ok by (rewrite ?size_app; lia).
  f_equal. unfold size.
  rewrite Nat2Z.id, drop_app_length.
  replace (Z.to_nat _) with (length m) by lia.
  by rewrite take_app_length.
Qed.

(** The tail [begin() + i .. end()). *)
Lemma vec_range_tail {A} (l r : list A) i j :
  i = size l -> j = size (l ++ r) -> vec_range (l ++ r) i j = Ok r.
Proof.
  intros -> ->. rewrite <-(app_nil_r r) at 1.
  rewrite vec_range_app; [done|done|by rewrite size_app].
Qed.

Lemma vec_range_cons {A} (x : A) l : vec_range (x :: l) 1 (size (x :: l)) = Ok l.
Proof. by apply (vec_range_tail [x] l). Qed.

Lemma vec_set_app {A} (l : list A) x y r :
  vec_set (l ++ x :: r) (size l) y = Ok (l ++ y :: r).
Proof.
  unfold vec_set. pose proof (size_nonneg l). pose proof (size_nonneg r).
  rewrite size_app, size_cons.
  rewrite (proj2 (Z.leb_le _ _)), (proj2 (Z.ltb_lt _ _)) by lia. cbn [andb].
  unfold size. rewrite Nat2Z.id, insert_app_r_alt by lia.
  by rewrite Nat.sub_diag.
Qed.

Lemma vec_blit_app {A} (l m r k : list A) :
  size k = size m -> vec_blit (l ++ m ++ r) (size l) k = Ok (l ++ k ++ r).
Proof.
  intros Hk. unfold vec_blit. pose proof (size_nonneg l). pose proof (size_nonneg r).
  rewrite !size_app, Hk.
  rewrite !(proj2 (Z.leb_le _ _)) by lia. cbn [andb].
  unfold size in *. rewrite Nat2Z.id, take_app_length.
  rewrite (app_assoc l m r). replace (Z.to_nat _) with (length (l ++ m)).
  - by rewrite drop_app_length.
  - rewrite length_app. lia.
Qed.

Lemma rbind_safe {A B} (r : result A) (k : A -> result B) :
  safe r -> (forall a, safe (k a)) -> safe (rbind r k).
Proof. destruct r; [intros _ H; apply H|done]. Qed.

Lemma rcatch_safe {A} (r : result A) h : safe r -> (forall e, safe (h e)) -> safe (rcatch r h).
Proof. destruct r as [a|e]; simpl; [done|]. intros ->. auto. Qed.

Lemma Forall_both {A} (P Q : A -> Prop) l :
  Forall P l -> Forall Q l -> Forall (fun x => P x /\ Q x) l.
Proof. induction 1; intros H'; [constructor|]. apply Forall_cons_1 in H' as []. by constructor; auto. Qed.

Lemma foldr_and_Forall {A} (P : A -> Prop) l :
  foldr (fun x Q => P x /\ Q) True l -> Forall P l.
Proof. induction l as [|x l IH]; cbn; [constructor|]. intros [? ?]. constructor; auto. Qed.

(** ** Relations that computations keep

    A relation between the states before and after that the primitive steps of a
    program keep is kept by every operation built from them, exceptions
    included. *)

Section Keeps.
Context {S : Type} (R : S -> S -> Prop) `{!PreOrder R}.

Definition keeps {A} (m : M S A) : Prop := forall s, R s (snd (m s)).

Lemma keeps_ret {A} (a : A) : keeps (ret a).
Proof. intros s. by cbn. Qed.
Lemma keeps_raise {A} e : keeps (raise (A := A) e).
Proof. intros s. by cbn. Qed.
Lemma keeps_lift {A} (r : result A) : keeps (lift r).
Proof. intros s. by cbn. Qed.
Lemma keeps_bind {A B} (m : M S A) (k : A -> M S B) : keeps m -> (forall a, keeps (k a)) -> keeps (bind m k).
Proof.
  intros Hm Hk s. unfold bind. specialize (Hm s). destruct (m s) as [[a|e] s']; [|done].
  etransitivity; [exact Hm|apply Hk].
Qed.
Lemma keeps_get {B} (k : S -> M S B) : (forall s, keeps (k s)) -> keeps (bind get_st k).
Proof. intros Hk s. apply Hk. Qed.
Lemma keeps_if {A} (b : bool) (m n : M S A) : keeps m -> keeps n -> keeps (if b then m else n).
Proof. by destruct b. Qed.
Lemma keeps_for_each {A} (l : list A) (f : A -> M S unit) : (forall a, keeps (f a)) -> keeps (for_each l f).
Proof.
  intros Hf. induction l as [|a l IH]; [apply keeps_ret|]. cbn [for_each]. by apply keeps_bind.
Qed.
Lemma keeps_zoom {A X} (get : S -> X) (set : X -> S -> S) (m : M X A) :
  (forall s x, R s (set x s)) -> keeps (zoom get set m).
Proof. intros Hs s. unfold zoom. destruct (m (get s)) as [r x]. apply Hs. Qed.
Lemma keeps_catch {A} (m : M S A) (h : exn -> M S A) : keeps m -> (forall e, keeps (h e)) -> keeps (catch m h).
Proof.
  intros Hm Hh s. unfold catch. specialize (Hm s). destruct (m s) as [[a|e] s']; [done|]. cbn [snd] in Hm.
  destruct (is_stuck e); [done|]. etransitivity; [exact Hm|apply Hh].
Qed.
End Keeps.

Create HintDb keeps.
#[export] Hint Resolve keeps_ret keeps_raise keeps_lift : keeps.
#[export] Hint Extern 0 (PreOrder _) => apply _ : keeps.

(** One step of the structure of a computation. *)
Ltac keep1 :=
  match goal with
  | |- keeps _ (bind get_st _) => apply keeps_get; intros ?
  | |- keeps _ (bind _ _) => apply keeps_bind; [apply _| |intros ?]
  | |- keeps _ (if _ then _ else _) => apply keeps_if
  | |- keeps _ (for_each _ _) => apply keeps_for_each; [apply _|intros ?]
  | |- keeps _ (catch _ _) => apply keeps_catch; [apply _| |intros ?]
  | |- keeps _ (match ?x with _ => _ end) => destruct x
  | _ => solve [eauto with keeps]
  end.
Ltac keep := repeat (first [solve [eauto with keeps] | keep1]).
