(* ===== verification/MachineInt.v ===== *)
(** * Fixed-width integers

    C++ integers are kept as [Z]; the conversions and wrap-around of the
    standard integer types are written out.  The second half relates the bit
    operations of the sources to arithmetic, for the proofs of every codec. *)

From S2P Require Import Prelude.

(** ** Conversions *)

Definition to_u8 (z : Z) : Z := z mod 2 ^ 8.
Definition to_u16 (z : Z) : Z := z mod 2 ^ 16.
Definition to_u32 (z : Z) : Z := z mod 2 ^ 32.
Definition to_u64 (z : Z) : Z := z mod 2 ^ 64.

(** Conversion to a signed type of width [w] (two's complement). *)
Definition to_signed (w z : Z) : Z :=
  let m := z mod 2 ^ w in if m <? 2 ^ (w - 1) then m else m - 2 ^ w.
Definition to_i8 : Z -> Z := to_signed 8.
Definition to_i16 : Z -> Z := to_signed 16.
Definition to_i32 : Z -> Z := to_signed 32.
Definition to_i64 : Z -> Z := to_signed 64.

Definition is_u (w z : Z) : Prop := 0 <= z < 2 ^ w.
Definition is_s (w z : Z) : Prop := - 2 ^ (w - 1) <= z < 2 ^ (w - 1).
Abbreviation is_u8 := (is_u 8).
Abbreviation is_bytes l := (Forall (is_u 8) l).

#[export] Instance is_u_dec w z : Decision (is_u w z).
Proof. unfold is_u. apply _. Defined.
#[export] Instance is_s_dec w z : Decision (is_s w z).
Proof. unfold is_s. apply _. Defined.

(** Left rotation of a 64-bit word, [std::rotl]. *)
Definition rotl64 (x r : Z) : Z :=
  Z.lor (to_u64 (Z.shiftl x r)) (Z.shiftr x (64 - r)).

(** ** Arithmetic of the bit operations *)

Lemma pow2_pos n : 0 <= n -> 0 < 2 ^ n.
Proof. intros. by apply Z.pow_pos_nonneg. Qed.

Lemma shiftr_div x n : 0 <= n -> Z.shiftr x n = x / 2 ^ n.
Proof. apply Z.shiftr_div_pow2. Qed.

Lemma shiftl_mul x n : 0 <= n -> Z.shiftl x n = x * 2 ^ n.
Proof. apply Z.shiftl_mul_pow2. Qed.

Lemma land_ones_mod x n : 0 <= n -> Z.land x (2 ^ n - 1) = x mod 2 ^ n.
Proof.
  intros. rewrite <-Z.land_ones by done. by rewrite Z.ones_equiv, <-Z.sub_1_r.
Qed.

Lemma land_127 x : Z.land x 0x7f = x mod 128.
Proof. apply (land_ones_mod x 7). lia. Qed.
Lemma land_255 x : Z.land x 0xff = x mod 256.
Proof. apply (land_ones_mod x 8). lia. Qed.
Lemma land_15 x : Z.land x 0x0f = x mod 16.
Proof. apply (land_ones_mod x 4). lia. Qed.
Lemma land_3 x : Z.land x 3 = x mod 4.
Proof. apply (land_ones_mod x 2). lia. Qed.
Lemma land_7 x : Z.land x 7 = x mod 8.
Proof. apply (land_ones_mod x 3). lia. Qed.
Lemma land_1 x : Z.land x 1 = x mod 2.
Proof. apply (land_ones_mod x 1). lia. Qed.
Lemma land_1023 x : Z.land x 0x3ff = x mod 1024.
Proof. apply (land_ones_mod x 10). lia. Qed.

(** Bits at and above [n] of a number below [2 ^ n] are clear. *)
Lemma testbit_high x n i : 0 <= x < 2 ^ n -> n <= i -> Z.testbit x i = false.
Proof.
  intros Hx Hi. destruct (decide (0 <= n)) as [Hn|Hn].
  - rewrite <-(Z.mod_small x (2 ^ n)) by done.
    apply Z.mod_pow2_bits_high. lia.
  - rewrite (Z.pow_neg_r 2 n) in Hx by lia. lia.
Qed.

(** Disjoint [lor] is addition. *)
Lemma lor_shiftl_add x y n :
  0 <= n -> 0 <= x < 2 ^ n -> Z.lor x (Z.shiftl y n) = x + y * 2 ^ n.
Proof.
  intros Hn Hx. rewrite <-Z.shiftl_mul_pow2 by done.
  symmetry. rewrite <-Z.lxor_lor.
  - apply Z.add_nocarry_lxor.
    apply Z.bits_inj'. intros i Hi.
    rewrite Z.land_spec, Z.shiftl_spec, Z.bits_0 by done.
    destruct (decide (i < n)).
    + rewrite (Z.testbit_neg_r y) by lia. by rewrite andb_false_r.
    + by rewrite (testbit_high x n i) by lia.
  - apply Z.bits_inj'. intros i Hi.
    rewrite Z.land_spec, Z.shiftl_spec, Z.bits_0 by done.
    destruct (decide (i < n)).
    + rewrite (Z.testbit_neg_r y) by lia. by rewrite andb_false_r.
    + by rewrite (testbit_high x n i) by lia.
Qed.

Lemma lor_mul_add x y n :
  0 <= n -> 0 <= x < 2 ^ n -> Z.lor x (y * 2 ^ n) = x + y * 2 ^ n.
Proof.
  intros Hn Hx. pose proof (lor_shiftl_add x y n Hn Hx) as E.
  by rewrite Z.shiftl_mul_pow2 in E.
Qed.

Lemma lor_128 x : 0 <= x < 128 -> Z.lor x 0x80 = x + 128.
Proof. intros. by apply (lor_mul_add x 1 7). Qed.

Lemma land_high_zero x n m :
  0 <= n -> 0 <= x < 2 ^ n -> Z.land x (Z.shiftl m n) = 0.
Proof.
  intros Hn Hx. apply Z.bits_inj'. intros i Hi.
  rewrite Z.land_spec, Z.shiftl_spec, Z.bits_0 by done.
  destruct (decide (i < n)).
  - rewrite (Z.testbit_neg_r m) by lia. by rewrite andb_false_r.
  - by rewrite (testbit_high x n i) by lia.
Qed.

(** The continuation bit of a byte. *)
Lemma land_128 x : 0 <= x < 256 -> (Z.land x 0x80 =? 0) = (x <? 128).
Proof.
  intros Hx. destruct (Z.ltb_spec x 128).
  - change 0x80 with (Z.shiftl 1 7). rewrite (land_high_zero x 7 1) by lia. done.
  - apply Z.eqb_neq. intros H0.
    assert (Z.testbit x 7 = true) as Hb.
    { apply Z.testbit_true; [lia|]. change (2 ^ 7) with 128.
      replace (x / 128) with 1; [done|].
      apply (Z.div_unique x 128 1 (x - 128)); lia. }
    assert (Z.testbit (Z.land x 128) 7 = true) as Hc.
    { rewrite Z.land_spec, Hb. done. }
    rewrite H0 in Hc. done.
Qed.

(** [v & ~0x7f] on an unsigned of width [w]. *)
Lemma land_not_127 w v :
  7 <= w -> 0 <= v < 2 ^ w ->
  (Z.land v ((Z.lnot 0x7f) mod 2 ^ w) =? 0) = (v <? 128).
Proof.
  intros Hw Hv. rewrite <-Z.land_ones, Z.land_assoc by lia.
  replace (Z.land (Z.land v (Z.lnot 127)) (Z.ones w)) with (Z.ldiff v (Z.ones 7)).
  2:{ apply Z.bits_inj'. intros i Hi.
      rewrite Z.ldiff_spec, !Z.land_spec, Z.lnot_spec by done.
      change 127 with (Z.ones 7).
      destruct (decide (i < w)).
      - rewrite (Z.ones_spec_low w) by lia. by rewrite andb_true_r.
      - rewrite (testbit_high v w i) by lia. by rewrite !andb_false_l. }
  rewrite Z.ldiff_ones_r, shiftl_mul, shiftr_div by lia.
  change (2 ^ 7) with 128. change (2 ^ 7) with 128 in *.
  destruct (Z.ltb_spec v 128).
  - rewrite Z.div_small by lia. done.
  - apply Z.eqb_neq. pose proof (Z.div_le_mono 128 v 128). 
    change (128 / 128) with 1 in *. lia.
Qed.

(** A mask that is not at the bottom. *)
Lemma land_field x n s :
  0 <= n -> 0 <= s -> Z.land x (Z.shiftl (2 ^ n - 1) s) = ((x / 2 ^ s) mod 2 ^ n) * 2 ^ s.
Proof.
  intros Hn Hs. rewrite <-shiftl_mul, <-shiftr_div, <-land_ones_mod by done.
  apply Z.bits_inj'. intros i Hi.
  rewrite Z.land_spec, !Z.shiftl_spec, Z.land_spec by done.
  destruct (decide (i < s)).
  - rewrite (Z.testbit_neg_r (2 ^ n - 1)), !andb_false_r by lia. done.
  - rewrite Z.shiftr_spec by lia. by replace (i - s + s) with i by lia.
Qed.

(** Complementing a [w]-bit number. *)
Lemma lxor_ones w x : 0 <= w -> 0 <= x < 2 ^ w -> Z.lxor x (2 ^ w - 1) = 2 ^ w - 1 - x.
Proof.
  intros Hw Hx.
  assert (Z.lxor x (2 ^ w - 1) + x = 2 ^ w - 1) as E; [|lia].
  rewrite Z.add_nocarry_lxor.
  - rewrite (Z.lxor_comm _ x), <-Z.lxor_assoc, Z.lxor_nilpotent, Z.lxor_0_l. done.
  - apply Z.bits_inj'. intros i Hi.
    rewrite Z.land_spec, Z.lxor_spec, Z.bits_0.
    rewrite Z.sub_1_r, <-Z.ones_equiv.
    destruct (decide (i < w)).
    + rewrite Z.ones_spec_low by lia. by destruct (Z.testbit x i).
    + by rewrite (testbit_high x w i), andb_false_r by lia.
Qed.

(** ** Ranges *)

Lemma to_u_range w z : 0 <= w -> is_u w (z mod 2 ^ w).
Proof. intros. apply Z.mod_pos_bound. by apply pow2_pos. Qed.

Lemma to_u8_id z : is_u 8 z -> to_u8 z = z.
Proof. apply Z.mod_small. Qed.
Lemma to_u16_id z : is_u 16 z -> to_u16 z = z.
Proof. apply Z.mod_small. Qed.
Lemma to_u32_id z : is_u 32 z -> to_u32 z = z.
Proof. apply Z.mod_small. Qed.
Lemma to_u64_id z : is_u 64 z -> to_u64 z = z.
Proof. apply Z.mod_small. Qed.

Lemma to_signed_range w z : 0 < w -> is_s w (to_signed w z).
Proof.
  intros Hw. unfold to_signed, is_s.
  pose proof (Z.mod_pos_bound z (2 ^ w) (pow2_pos w ltac:(lia))).
  assert (2 ^ w = 2 * 2 ^ (w - 1)).
  { rewrite <-(Z.pow_succ_r 2 (w - 1)) by lia. f_equal. lia. }
  destruct (Z.ltb_spec (z mod 2 ^ w) (2 ^ (w - 1))); lia.
Qed.

(** Reinterpreting a signed number as unsigned and back. *)
Lemma to_signed_mod w z : 0 < w -> is_s w z -> to_signed w (z mod 2 ^ w) = z.
Proof.
  intros Hw Hz. unfold to_signed, is_s in *.
  assert (2 ^ w = 2 * 2 ^ (w - 1)) as E.
  { rewrite <-(Z.pow_succ_r 2 (w - 1)) by lia. f_equal. lia. }
  pose proof (pow2_pos (w - 1) ltac:(lia)).
  rewrite Z.mod_mod by lia.
  destruct (decide (0 <= z)).
  - rewrite Z.mod_small by lia.
    destruct (Z.ltb_spec z (2 ^ (w - 1))); lia.
  - rewrite <-(Z.mod_add z 1) by lia. rewrite Z.mod_small by lia.
    destruct (Z.ltb_spec (z + 1 * 2 ^ w) (2 ^ (w - 1))); lia.
Qed.

Lemma mod_to_signed w z : 0 < w -> (to_signed w z) mod 2 ^ w = z mod 2 ^ w.
Proof.
  intros Hw. unfold to_signed. pose proof (pow2_pos w ltac:(lia)).
  destruct (Z.ltb_spec (z mod 2 ^ w) (2 ^ (w - 1))).
  - by rewrite Z.mod_mod by lia.
  - rewrite <-(Z.mod_add _ 1) by lia.
    replace (z mod 2 ^ w - 2 ^ w + 1 * 2 ^ w) with (z mod 2 ^ w) by lia.
    by rewrite Z.mod_mod by lia.
Qed.

Lemma is_bytes_app l k : is_bytes (l ++ k) <-> is_bytes l /\ is_bytes k.
Proof. apply Forall_app. Qed.

Lemma is_u_weaken v w z : v <= w -> is_u v z -> is_u w z.
Proof.
  unfold is_u. intros Hvw Hz. destruct (decide (0 <= v)).
  - pose proof (Z.pow_le_mono_r 2 v w ltac:(lia) Hvw). lia.
  - rewrite (Z.pow_neg_r 2 v) in Hz by lia. lia.
Qed.

(** A result that, if it is a vector, is one of bytes. *)
Definition byte_result (r : result bytes) : Prop :=
  match r with Ok l => is_bytes l | Throw e => is_stuck e = false end.

Lemma byte_result_safe r : byte_result r -> safe r.
Proof. by destruct r. Qed.

(** [value >> i*8] pushed as a byte. *)
Lemma to_u8_range z : is_u 8 (to_u8 z).
Proof. by apply to_u_range. Qed.

Create HintDb machine_int.
#[export] Hint Resolve to_u_range to_u8_range size_nonneg pow2_pos : machine_int.
Create Rewrite HintDb bits.
#[export] Hint Rewrite land_127 land_255 land_15 land_3 land_7 land_1 land_1023
  : bits.

(** Rewrites the masks and shifts of a goal into [mod], [/] and [*]. *)
Ltac bits_arith :=
  autorewrite with bits;
  rewrite ?shiftr_div, ?shiftl_mul by lia;
  change (2 ^ 1) with 2 in *; change (2 ^ 2) with 4 in *;
  change (2 ^ 3) with 8 in *; change (2 ^ 4) with 16 in *;
  change (2 ^ 5) with 32 in *; change (2 ^ 7) with 128 in *;
  change (2 ^ 8) with 256 in *; change (2 ^ 16) with 65536 in *;
  change (2 ^ 24) with 16777216 in *; change (2 ^ 31) with 2147483648 in *;
  change (2 ^ 32) with 4294967296 in *.

(** ** Strings as bytes

    [std::string] is a sequence of [char]; the model uses Rocq strings and the
    byte list they stand for. *)
Definition byte_of_ascii (c : Ascii.ascii) : Z := Z.of_N (Ascii.N_of_ascii c).
Definition ascii_of_byte (b : Z) : Ascii.ascii := Ascii.ascii_of_N (Z.to_N b).
Definition bytes_of_string (s : string) : bytes :=
  map byte_of_ascii (String.list_ascii_of_string s).
Definition string_of_bytes (l : bytes) : string :=
  String.string_of_list_ascii (map ascii_of_byte l).

Lemma byte_of_ascii_of_byte b : is_u 8 b -> byte_of_ascii (ascii_of_byte b) = b.
Proof.
  unfold is_u, byte_of_ascii, ascii_of_byte. change (2 ^ 8) with 256. intros Hb.
  rewrite Ascii.N_ascii_embedding by lia. lia.
Qed.

Lemma ascii_of_byte_of_ascii c : ascii_of_byte (byte_of_ascii c) = c.
Proof.
  unfold byte_of_ascii, ascii_of_byte. rewrite N2Z.id.
  apply Ascii.ascii_N_embedding.
Qed.

Lemma string_bytes_string s : string_of_bytes (bytes_of_string s) = s.
Proof.
  unfold string_of_bytes, bytes_of_string. rewrite map_map.
  rewrite (map_ext _ id) by apply ascii_of_byte_of_ascii.
  rewrite map_id. apply String.string_of_list_ascii_of_string.
Qed.

Lemma bytes_string_bytes l : is_bytes l -> bytes_of_string (string_of_bytes l) = l.
Proof.
  intros Hl. unfold string_of_bytes, bytes_of_string.
  rewrite String.list_ascii_of_string_of_list_ascii, map_map.
  induction Hl as [|b l Hb Hl IH]; [done|]. simpl.
  by rewrite byte_of_ascii_of_byte, IH.
Qed.

Lemma bytes_of_string_bytes s : is_bytes (bytes_of_string s).
Proof.
  unfold bytes_of_string. apply Forall_map. apply Forall_forall.
  intros c _. unfold compose, byte_of_ascii, is_u. change (2 ^ 8) with 256.
  pose proof (Ascii.N_ascii_bounded c). lia.
Qed.

#[export] Hint Resolve bytes_of_string_bytes : machine_int.
