(* ===== verification/ZigZag.v ===== *)
(** * Zigzag integers

    The sources write the zigzag mapping in two ways (an arithmetic shift, or
    the negation of the sign bit) and undo it in two ways; all of them compute
    [zigzag] and [unzigzag]. *)

From S2P Require Import Prelude MachineInt.

Definition zigzag (v : Z) : Z := if 0 <=? v then 2 * v else - 2 * v - 1.
Definition unzigzag (u : Z) : Z := if Z.even u then u / 2 else - (u / 2) - 1.

(** [(uintW(v) << 1) ^ uintW(v >> (W - 1))] *)
Definition zigzag_shift (w v : Z) : Z :=
  Z.lxor ((Z.shiftl (v mod 2 ^ w) 1) mod 2 ^ w) ((Z.shiftr v (w - 1)) mod 2 ^ w).

(** [bits = bit_cast<uintW>(v); (bits << 1u) ^ (0u - (bits >> (W - 1)))] *)
Definition zigzag_neg (w v : Z) : Z :=
  let bits := v mod 2 ^ w in
  Z.lxor ((Z.shiftl bits 1) mod 2 ^ w) ((0 - Z.shiftr bits (w - 1)) mod 2 ^ w).

(** [(raw >> 1) ^ (~(raw & 1) + 1)] converted to [intW]. *)
Definition unzigzag_not (w raw : Z) : Z :=
  to_signed w (Z.lxor (Z.shiftr raw 1) (((Z.lnot (Z.land raw 1)) mod 2 ^ w + 1) mod 2 ^ w)).

(** [bit_cast<intW>((raw >> 1u) ^ (0u - (raw & 1u)))] *)
Definition unzigzag_neg (w raw : Z) : Z :=
  to_signed w (Z.lxor (Z.shiftr raw 1) ((0 - Z.land raw 1) mod 2 ^ w)).

Lemma zigzag_range w v : 0 < w -> is_s w v -> is_u w (zigzag v).
Proof.
  intros Hw. unfold is_s, is_u, zigzag.
  assert (2 ^ w = 2 * 2 ^ (w - 1)).
  { rewrite <-(Z.pow_succ_r 2 (w - 1)) by lia. f_equal. lia. }
  destruct (Z.leb_spec 0 v); lia.
Qed.

Lemma unzigzag_zigzag v : unzigzag (zigzag v) = v.
Proof.
  unfold unzigzag, zigzag. destruct (Z.leb_spec 0 v).
  - rewrite Z.even_mul. cbn [Z.even orb]. rewrite Z.mul_comm. by apply Z.div_mul.
  - replace (-2 * v - 1) with (1 + 2 * (- v - 1)) by lia.
    rewrite Z.even_add_mul_2. cbn [Z.even].
    rewrite (Z.mul_comm 2), Z.div_add by lia. change (1 / 2) with 0. lia.
Qed.

Lemma zigzag_unzigzag u : 0 <= u -> zigzag (unzigzag u) = u.
Proof.
  intros Hu. unfold unzigzag, zigzag. pose proof (Z.div_mod u 2 ltac:(lia)) as E.
  rewrite Zmod_even in E. assert (0 <= u / 2) by (apply Z.div_pos; lia).
  destruct (Z.even u).
  - rewrite (proj2 (Z.leb_le _ _)) by lia. lia.
  - rewrite (proj2 (Z.leb_gt _ _)) by lia. lia.
Qed.

(** The masks: all ones for a negative number. *)
Lemma zigzag_mask w v m :
  0 < w -> is_s w v -> m = (if 0 <=? v then 0 else 2 ^ w - 1) ->
  Z.lxor ((Z.shiftl (v mod 2 ^ w) 1) mod 2 ^ w) m = zigzag v.
Proof.
  intros Hw Hv ->. unfold is_s in Hv. unfold zigzag.
  assert (2 ^ w = 2 * 2 ^ (w - 1)) as E.
  { rewrite <-(Z.pow_succ_r 2 (w - 1)) by lia. f_equal. lia. }
  pose proof (pow2_pos (w - 1) ltac:(lia)).
  rewrite shiftl_mul, Z.mul_mod_idemp_l by lia. change (2 ^ 1) with 2.
  destruct (Z.leb_spec 0 v).
  - rewrite Z.lxor_0_r, Z.mod_small by lia. lia.
  - replace ((v * 2) mod 2 ^ w) with (v * 2 + 2 ^ w)
      by (apply (Z.mod_unique _ _ (-1)); lia).
    rewrite lxor_ones by lia. lia.
Qed.

Lemma zigzag_shift_ok w v : 0 < w -> is_s w v -> zigzag_shift w v = zigzag v.
Proof.
  intros Hw Hv. apply zigzag_mask; [done|done|]. unfold is_s in Hv.
  rewrite shiftr_div by lia. pose proof (pow2_pos (w - 1) ltac:(lia)).
  pose proof (pow2_pos w ltac:(lia)).
  destruct (Z.leb_spec 0 v).
  - by rewrite Z.div_small by lia.
  - replace (v / 2 ^ (w - 1)) with (-1) by (apply (Z.div_unique _ _ _ (v + 2 ^ (w - 1))); lia).
    symmetry. apply (Z.mod_unique _ _ (-1)); lia.
Qed.

Lemma zigzag_neg_ok w v : 0 < w -> is_s w v -> zigzag_neg w v = zigzag v.
Proof.
  intros Hw Hv. apply zigzag_mask; [done|done|]. unfold is_s in Hv.
  assert (2 ^ w = 2 * 2 ^ (w - 1)) as E.
  { rewrite <-(Z.pow_succ_r 2 (w - 1)) by lia. f_equal. lia. }
  rewrite shiftr_div by lia. pose proof (pow2_pos (w - 1) ltac:(lia)).
  destruct (Z.leb_spec 0 v).
  - by rewrite (Z.mod_small v), Z.div_small by lia.
  - replace (v mod 2 ^ w) with (v + 2 ^ w) by (apply (Z.mod_unique _ _ (-1)); lia).
    replace ((v + 2 ^ w) / 2 ^ (w - 1)) with 1
      by (apply (Z.div_unique _ _ _ (v + 2 ^ (w - 1))); lia).
    symmetry. apply (Z.mod_unique _ _ (-1)); lia.
Qed.

Lemma unzigzag_mask w u m :
  0 < w -> is_u w u -> m = (if Z.even u then 0 else 2 ^ w - 1) ->
  to_signed w (Z.lxor (Z.shiftr u 1) m) = unzigzag u.
Proof.
  intros Hw Hu ->. unfold is_u in Hu. unfold unzigzag.
  assert (2 ^ w = 2 * 2 ^ (w - 1)) as E.
  { rewrite <-(Z.pow_succ_r 2 (w - 1)) by lia. f_equal. lia. }
  pose proof (pow2_pos (w - 1) ltac:(lia)).
  rewrite shiftr_div by lia. change (2 ^ 1) with 2.
  assert (0 <= u / 2 < 2 ^ (w - 1)) as Hh.
  { split; [apply Z.div_pos; lia|]. apply Z.div_lt_upper_bound; lia. }
  destruct (Z.even u).
  - rewrite Z.lxor_0_r. unfold to_signed. rewrite Z.mod_small by lia.
    by rewrite (proj2 (Z.ltb_lt _ _)) by lia.
  - rewrite lxor_ones by lia. unfold to_signed. rewrite Z.mod_small by lia.
    rewrite (proj2 (Z.ltb_ge _ _)) by lia. lia.
Qed.

Lemma unzigzag_not_ok w u : 1 < w -> is_u w u -> unzigzag_not w u = unzigzag u.
Proof.
  intros Hw Hu. apply unzigzag_mask; [lia|done|]. rewrite land_1, Zmod_even.
  pose proof (Z.pow_le_mono_r 2 2 w ltac:(lia) ltac:(lia)) as H4. change (2 ^ 2) with 4 in H4.
  destruct (Z.even u).
  - change (Z.lnot 0) with (-1).
    replace (-1 mod 2 ^ w) with (2 ^ w - 1) by (apply (Z.mod_unique _ _ (-1)); lia).
    replace (2 ^ w - 1 + 1) with (2 ^ w) by lia. by rewrite Z.mod_same by lia.
  - change (Z.lnot 1) with (-2).
    replace (-2 mod 2 ^ w) with (2 ^ w - 2) by (apply (Z.mod_unique _ _ (-1)); lia).
    rewrite Z.mod_small by lia. lia.
Qed.

Lemma unzigzag_neg_ok w u : 0 < w -> is_u w u -> unzigzag_neg w u = unzigzag u.
Proof.
  intros Hw Hu. apply unzigzag_mask; [lia|done|]. rewrite land_1, Zmod_even.
  pose proof (Z.pow_le_mono_r 2 1 w ltac:(lia) ltac:(lia)) as H2. change (2 ^ 1) with 2 in H2.
  destruct (Z.even u); [done|].
  symmetry. apply (Z.mod_unique _ _ (-1)); lia.
Qed.
