(* ===== verification/FloatBits.v ===== *)
(** * [float] and [double] as bit patterns

    The sources move floating-point values through [memcpy]; only NBT converts
    between the two widths.  [f64_of_f32] is the exact widening conversion and
    [f32_of_f64] the narrowing one in the default rounding mode (to nearest,
    ties to even); both quiet signalling NaNs, as the hardware does. *)

From S2P Require Import Prelude MachineInt.

(** [m / 2 ^ d] rounded to nearest, ties to even. *)
Definition round_even (m d : Z) : Z :=
  let q := m / 2 ^ d in
  let r := m mod 2 ^ d in
  if 2 * r <? 2 ^ d then q
  else if 2 * r >? 2 ^ d then q + 1
  else if Z.even q then q else q + 1.

Definition f64_of_f32 (b : Z) : Z :=
  let s := b / 2 ^ 31 in
  let e := (b / 2 ^ 23) mod 2 ^ 8 in
  let m := b mod 2 ^ 23 in
  let body :=
    if e =? 255 then
      2047 * 2 ^ 52 +
        (if m =? 0 then 0 else Z.lor m (2 ^ 22) * 2 ^ 29)
    else if e =? 0 then
      if m =? 0 then 0
      else let k := Z.log2 m in (k + 874) * 2 ^ 52 + (m - 2 ^ k) * 2 ^ (52 - k)
    else (e + 896) * 2 ^ 52 + m * 2 ^ 29 in
  s * 2 ^ 63 + body.

Definition f32_of_f64 (b : Z) : Z :=
  let s := b / 2 ^ 63 in
  let e := (b / 2 ^ 52) mod 2 ^ 11 in
  let m := b mod 2 ^ 52 in
  let inf := 255 * 2 ^ 23 in
  let body :=
    if e =? 2047 then
      if m =? 0 then inf else inf + Z.lor (m / 2 ^ 29) (2 ^ 22)
    else
      let mant := if e =? 0 then m else 2 ^ 52 + m in
      let ex := Z.max e 1 - 1075 in
      (* weight of the last bit of the result *)
      let t := Z.max (-149) (ex + Z.log2 mant - 23) in
      let bits := (t + 149) * 2 ^ 23 + round_even mant (t - ex) in
      Z.min inf bits in
  s * 2 ^ 31 + body.

(** [a == b] on doubles. *)
Definition f64_is_nan (b : Z) : bool :=
  ((b / 2 ^ 52) mod 2 ^ 11 =? 2047) && negb (b mod 2 ^ 52 =? 0).
Definition f64_eqb (a b : Z) : bool :=
  negb (f64_is_nan a) && negb (f64_is_nan b) &&
  ((a =? b) || ((a mod 2 ^ 63 =? 0) && (b mod 2 ^ 63 =? 0))).

(** A double that a [float] can hold. *)
Definition is_float (d : Z) : Prop := f64_of_f32 (f32_of_f64 d) = d.

Lemma round_even_exact q d : 0 <= d -> round_even (q * 2 ^ d) d = q.
Proof.
  intros Hd. unfold round_even. pose proof (pow2_pos d Hd).
  rewrite Z.div_mul, Z.mod_mul by lia. by rewrite (proj2 (Z.ltb_lt _ _)) by lia.
Qed.

(** The fields of a composed double. *)
Lemma fields64 s e m :
  0 <= e < 2 ^ 11 -> 0 <= m < 2 ^ 52 ->
  let b := s * 2 ^ 63 + (e * 2 ^ 52 + m) in
  b / 2 ^ 63 = s /\ (b / 2 ^ 52) mod 2 ^ 11 = e /\ b mod 2 ^ 52 = m.
Proof.
  intros He Hm b. unfold b. change (2 ^ 63) with (2 ^ 11 * 2 ^ 52). split_and!.
  - symmetry. apply (Z.div_unique _ _ _ (e * 2 ^ 52 + m)); nia.
  - replace (_ / 2 ^ 52) with (s * 2 ^ 11 + e) by (apply (Z.div_unique _ _ _ m); lia).
    rewrite Z.add_comm, Z.mod_add by lia. by apply Z.mod_small.
  - replace (s * (2 ^ 11 * 2 ^ 52) + (e * 2 ^ 52 + m)) with (m + (s * 2 ^ 11 + e) * 2 ^ 52) by ring.
    rewrite Z.mod_add by lia. by apply Z.mod_small.
Qed.

Lemma log2_range m k : 0 <= k -> 2 ^ k <= m < 2 * 2 ^ k -> Z.log2 m = k.
Proof.
  intros Hk Hm. apply Z.log2_unique; [done|]. rewrite Z.pow_succ_r by done. lia.
Qed.

Lemma lor_quiet_bound m : 0 <= m < 2 ^ 23 -> 2 ^ 22 <= Z.lor m (2 ^ 22) < 2 ^ 23.
Proof.
  intros Hm. assert (0 <= Z.lor m (2 ^ 22)) as H0 by (apply Z.lor_nonneg; lia).
  split.
  - pose proof (Z.land_nonneg m (2 ^ 22)) as _.
    assert (Z.testbit (Z.lor m (2 ^ 22)) 22 = true) as Hb.
    { rewrite Z.lor_spec, Z.pow2_bits_true by lia. apply orb_true_r. }
    destruct (Z.le_gt_cases (2 ^ 22) (Z.lor m (2 ^ 22))) as [|Hlt]; [done|].
    rewrite (testbit_high _ 22 22) in Hb by lia. done.
  - destruct (decide (Z.lor m (2 ^ 22) = 0)) as [->|Hne]; [done|].
    apply Z.log2_lt_pow2; [lia|]. rewrite Z.log2_lor by lia.
    apply Z.max_lub_lt; [|by rewrite Z.log2_pow2].
    destruct (decide (m = 0)) as [->|]; [done|]. apply Z.log2_lt_pow2; lia.
Qed.

(** The four kinds of [float]: NaN and infinity, zero, subnormal, normal. *)
Lemma narrow_special s q :
  0 <= q < 2 ^ 23 ->
  f32_of_f64 (s * 2 ^ 63 + (2047 * 2 ^ 52 + q * 2 ^ 29)) =
  s * 2 ^ 31 + (255 * 2 ^ 23 + if q =? 0 then 0 else Z.lor q (2 ^ 22)).
Proof.
  intros Hq. unfold f32_of_f64.
  destruct (fields64 s 2047 (q * 2 ^ 29)) as (-> & -> & ->); [lia|lia|].
  rewrite Z.eqb_refl, Z.div_mul by lia.
  destruct (Z.eqb_spec q 0) as [->|]; [by rewrite Z.eqb_refl, Z.add_0_r|].
  by rewrite (proj2 (Z.eqb_neq (_ * _) 0)) by lia.
Qed.

Lemma narrow_zero s : f32_of_f64 (s * 2 ^ 63 + 0) = s * 2 ^ 31.
Proof.
  unfold f32_of_f64. pose proof (fields64 s 0 0 ltac:(lia) ltac:(lia)) as (H1 & H2 & H3).
  change (0 * 2 ^ 52 + 0) with 0 in H1, H2, H3. rewrite H1, H2, H3.
  rewrite (proj2 (Z.eqb_neq 0 2047)) by lia. rewrite Z.eqb_refl.
  rewrite (Z.max_r 0 1), (Z.max_l (-149)) by (vm_compute; congruence).
  assert (round_even 0 (-149 - (1 - 1075)) = 0) as ->.
  { change (round_even (0 * 2 ^ (-149 - (1 - 1075))) (-149 - (1 - 1075)) = 0).
    by apply round_even_exact. }
  lia.
Qed.

Lemma narrow_finite s e q d :
  0 < e < 2047 -> 0 <= q < 2 ^ 52 -> 29 <= d <= 52 ->
  e - 1075 + d = Z.max (-149) (e - 1075 + 29) ->
  (2 ^ 52 + q) mod 2 ^ d = 0 ->
  f32_of_f64 (s * 2 ^ 63 + (e * 2 ^ 52 + q)) =
  s * 2 ^ 31 + Z.min (255 * 2 ^ 23)
    ((e - 1075 + d + 149) * 2 ^ 23 + (2 ^ 52 + q) / 2 ^ d).
Proof.
  intros He Hq Hd Ht Hm. unfold f32_of_f64.
  destruct (fields64 s e q) as (-> & -> & ->); [lia|done|].
  rewrite (proj2 (Z.eqb_neq e 2047)), (proj2 (Z.eqb_neq e 0)) by lia.
  rewrite (log2_range (2 ^ 52 + q) 52), (Z.max_l e 1) by lia.
  replace (e - 1075 + 52 - 23) with (e - 1075 + 29) by lia. rewrite <-Ht.
  replace (e - 1075 + d - (e - 1075)) with d by lia.
  assert (round_even (2 ^ 52 + q) d = (2 ^ 52 + q) / 2 ^ d) as ->; [|done].
  pose proof (Z.div_mod (2 ^ 52 + q) (2 ^ d)) as E. rewrite Hm, Z.add_0_r, Z.mul_comm in E.
  pose proof (pow2_pos d ltac:(lia)). rewrite E at 1 by lia. by apply round_even_exact; lia.
Qed.

Lemma narrow_normal s e m :
  0 < e < 255 -> 0 <= m < 2 ^ 23 ->
  f32_of_f64 (s * 2 ^ 63 + ((e + 896) * 2 ^ 52 + m * 2 ^ 29)) =
  s * 2 ^ 31 + (e * 2 ^ 23 + m).
Proof.
  intros He Hm.
  assert (2 ^ 52 + m * 2 ^ 29 = (2 ^ 23 + m) * 2 ^ 29) as E by lia.
  rewrite (narrow_finite _ _ _ 29); [|lia|lia|lia|lia|].
  - rewrite E, Z.div_mul by lia. lia.
  - rewrite E. apply Z.mod_mul. lia.
Qed.

Lemma narrow_subnormal s m k :
  0 <= k < 23 -> 2 ^ k <= m < 2 * 2 ^ k -> m < 2 ^ 23 ->
  f32_of_f64 (s * 2 ^ 63 + ((k + 874) * 2 ^ 52 + (m - 2 ^ k) * 2 ^ (52 - k))) =
  s * 2 ^ 31 + m.
Proof.
  intros Hk Hm Hm23.
  assert (2 ^ 52 = 2 ^ k * 2 ^ (52 - k)) as E52.
  { rewrite <-Z.pow_add_r by lia. f_equal. lia. }
  pose proof (pow2_pos (52 - k) ltac:(lia)) as Hp.
  assert (2 ^ 52 + (m - 2 ^ k) * 2 ^ (52 - k) = m * 2 ^ (52 - k)) as E by (rewrite E52; ring).
  rewrite (narrow_finite _ _ _ (52 - k)); [|lia| |lia|lia|].
  - rewrite E, Z.div_mul by lia. lia.
  - split; [nia|]. rewrite E52 at 1. nia.
  - rewrite E. apply Z.mod_mul. lia.
Qed.

(** A [float] with the quiet bit set if it is a NaN. *)
Definition quieted (b : Z) : Z :=
  let m := b mod 2 ^ 23 in
  if ((b / 2 ^ 23) mod 2 ^ 8 =? 255) && negb (m =? 0)
  then b - m + Z.lor m (2 ^ 22) else b.

Lemma f32_split b :
  is_u 32 b ->
  b = b / 2 ^ 31 * 2 ^ 31 + ((b / 2 ^ 23) mod 2 ^ 8 * 2 ^ 23 + b mod 2 ^ 23).
Proof.
  intros Hb. pose proof (Z.div_mod b (2 ^ 23) ltac:(lia)).
  pose proof (Z.div_mod (b / 2 ^ 23) (2 ^ 8) ltac:(lia)) as H1.
  rewrite Z.div_div in H1 by lia. change (2 ^ 23 * 2 ^ 8) with (2 ^ 31) in H1. lia.
Qed.

(** Narrowing undoes widening, up to quieting a signalling NaN. *)
Lemma f32_of_f64_of_f32 b : is_u 32 b -> f32_of_f64 (f64_of_f32 b) = quieted b.
Proof.
  intros Hb. pose proof (f32_split b Hb) as Eb. unfold f64_of_f32, quieted.
  set (s := b / 2 ^ 31) in *. set (e := (b / 2 ^ 23) mod 2 ^ 8) in *. set (m := b mod 2 ^ 23) in *.
  assert (0 <= e < 256) as He by (apply Z.mod_pos_bound; lia).
  assert (0 <= m < 2 ^ 23) as Hm by (apply Z.mod_pos_bound; lia). clearbody s e m.
  destruct (Z.eqb_spec e 255) as [E|E]; cbn [andb].
  - pose proof (lor_quiet_bound m Hm). destruct (Z.eqb_spec m 0) as [Em|Em]; cbn [negb].
    + pose proof (narrow_special s 0 ltac:(lia)) as N.
      rewrite Z.mul_0_l, Z.eqb_refl in N. rewrite N. lia.
    + rewrite narrow_special by lia. rewrite (proj2 (Z.eqb_neq _ 0)) by lia.
      rewrite <-Z.lor_assoc, Z.lor_diag. lia.
  - destruct (Z.eqb_spec e 0) as [E0|E0]; [|rewrite narrow_normal by lia; lia].
    destruct (Z.eqb_spec m 0) as [Em|Em]; [rewrite narrow_zero; lia|].
    destruct (Z.log2_spec m) as [Hk1 Hk2]; [lia|].
    rewrite Z.pow_succ_r in Hk2 by apply Z.log2_nonneg.
    rewrite narrow_subnormal; [lia| |lia|lia].
    split; [apply Z.log2_nonneg|]. apply Z.log2_lt_pow2; lia.
Qed.

Lemma quieted_range b : is_u 32 b -> is_u 32 (quieted b).
Proof.
  intros Hb. pose proof (f32_split b Hb) as Eb. unfold quieted, is_u in *.
  pose proof (Z.mod_pos_bound b (2 ^ 23) ltac:(lia)) as Hm.
  pose proof (lor_quiet_bound _ Hm). pose proof (Z.div_pos b (2 ^ 31) ltac:(lia) ltac:(lia)).
  pose proof (Z.mod_pos_bound (b / 2 ^ 23) (2 ^ 8) ltac:(lia)).
  assert (b / 2 ^ 31 < 2) by (apply Z.div_lt_upper_bound; lia).
  destruct (_ && _); lia.
Qed.

(** Widening sees only the quieted pattern: every widened [float] is a double
    that survives narrowing and widening. *)
Lemma f64_of_quieted b : is_u 32 b -> f64_of_f32 (quieted b) = f64_of_f32 b.
Proof.
  intros Hb. unfold quieted. destruct (_ && _) eqn:E; [|done].
  apply andb_prop in E as [E1 E2]. pose proof (f32_split b Hb) as Eb.
  set (m := b mod 2 ^ 23) in *. set (s := b / 2 ^ 31) in *.
  assert (0 <= m < 2 ^ 23) as Hm by (apply Z.mod_pos_bound; lia).
  pose proof (lor_quiet_bound _ Hm) as Hq. apply Z.eqb_eq in E1. rewrite E1 in Eb.
  set (m' := Z.lor m (2 ^ 22)) in *.
  assert (b - m + m' = s * 2 ^ 31 + (255 * 2 ^ 23 + m')) as Eb' by lia.
  unfold f64_of_f32. rewrite E1. fold m s. rewrite Eb'.
  replace ((s * 2 ^ 31 + (255 * 2 ^ 23 + m')) / 2 ^ 31) with s
    by (apply (Z.div_unique _ _ _ (255 * 2 ^ 23 + m')); lia).
  replace ((s * 2 ^ 31 + (255 * 2 ^ 23 + m')) / 2 ^ 23) with (255 + s * 2 ^ 8)
    by (apply (Z.div_unique _ _ _ m'); lia).
  replace ((s * 2 ^ 31 + (255 * 2 ^ 23 + m')) mod 2 ^ 23) with m'
    by (apply (Z.mod_unique _ _ (s * 2 ^ 8 + 255)); lia).
  rewrite Z.mod_add by lia. change (255 mod 2 ^ 8) with 255. rewrite Z.eqb_refl.
  apply negb_true_iff in E2. rewrite E2, (proj2 (Z.eqb_neq m' 0)) by lia.
  unfold m'. by rewrite <-Z.lor_assoc, Z.lor_diag.
Qed.

Lemma is_float_widened b : is_u 32 b -> is_float (f64_of_f32 b).
Proof. intros Hb. unfold is_float. by rewrite f32_of_f64_of_f32, f64_of_quieted. Qed.
