(* ===== verification/Leb128.v ===== *)
(** * Variable-length integers: reference codec and byte sources

    The repository holds eight copies of the LEB128 reader and six of the
    writer.  This file states once what they compute ([leb_encode],
    [leb_decode]), the interface a reader needs from the place its bytes come
    from ([ByteSource]), and the loop the readers share ([varint_loop]). *)

From S2P Require Import Prelude MachineInt.

(** ** Reference codec *)

(** At most [n] groups of seven bits, least significant first. *)
Fixpoint leb_encode (n : nat) (v : Z) : bytes :=
  match n with
  | O => []
  | S n' => if v <? 128 then [v] else (v mod 128 + 128) :: leb_encode n' (v / 128)
  end.

(** Outcome of decoding, with the number of bytes consumed. *)
Inductive leb_result : Type :=
| LebValue (v k : Z)
| LebShort (k : Z)   (* the input ended inside the number *)
| LebLong (k : Z).   (* [n] groups were read and all had the continuation bit *)

Definition leb_cons (low : Z) (r : leb_result) : leb_result :=
  match r with
  | LebValue v k => LebValue (low + 128 * v) (k + 1)
  | LebShort k => LebShort (k + 1)
  | LebLong k => LebLong (k + 1)
  end.

Fixpoint leb_decode (n : nat) (l : bytes) : leb_result :=
  match n with
  | O => LebLong 0
  | S n' =>
      match l with
      | [] => LebShort 0
      | b :: l' =>
          if b <? 128 then LebValue b 1
          else leb_cons (b mod 128) (leb_decode n' l')
      end
  end.

Lemma pow2_7S n : 2 ^ (7 * Z.of_nat (S n)) = 128 * 2 ^ (7 * Z.of_nat n).
Proof.
  replace (7 * Z.of_nat (S n)) with (7 + 7 * Z.of_nat n) by lia.
  by rewrite Z.pow_add_r by lia.
Qed.

Lemma leb_encode_bytes n v : 0 <= v -> is_bytes (leb_encode n v).
Proof.
  revert v. induction n as [|n IH]; intros v Hv; simpl; [constructor|].
  destruct (Z.ltb_spec v 128).
  - constructor; [unfold is_u; lia|constructor].
  - constructor; [|apply IH; by apply Z.div_pos].
    pose proof (Z.mod_pos_bound v 128 ltac:(lia)).
    change (2 ^ 8) with 256. unfold is_u. lia.
Qed.

Lemma leb_encode_length n v : (length (leb_encode n v) <= n)%nat.
Proof.
  revert v. induction n as [|n IH]; intros v; simpl; [lia|].
  destruct (v <? 128); simpl; [lia|]. pose proof (IH (v / 128)). lia.
Qed.

Lemma leb_encode_nonempty n v : leb_encode (S n) v <> [].
Proof. simpl. by destruct (v <? 128). Qed.

(** Enough groups: more of them do not change the encoding. *)
Lemma leb_encode_enough n m v :
  0 <= v < 2 ^ (7 * Z.of_nat (S n)) -> leb_encode (S n + m) v = leb_encode (S n) v.
Proof.
  revert v. induction n as [|n IH]; intros v Hv.
  - simpl. rewrite (proj2 (Z.ltb_lt _ _)) by (simpl in Hv; lia). done.
  - change (S (S n) + m)%nat with (S (S n + m)). cbn [leb_encode].
    destruct (Z.ltb_spec v 128); [done|]. f_equal. apply IH.
    rewrite pow2_7S in Hv. split; [apply Z.div_pos; lia|].
    apply Z.div_lt_upper_bound; lia.
Qed.

Lemma leb_decode_encode n v r :
  0 <= v < 2 ^ (7 * Z.of_nat (S n)) ->
  leb_decode (S n) (leb_encode (S n) v ++ r) = LebValue v (size (leb_encode (S n) v)).
Proof.
  revert v. induction n as [|n IH]; intros v Hv.
  { change (7 * Z.of_nat 1) with 7 in Hv. change (2 ^ 7) with 128 in Hv.
    cbn [leb_encode]. rewrite (proj2 (Z.ltb_lt _ _)) by lia.
    cbn [app leb_decode]. by rewrite (proj2 (Z.ltb_lt _ _)) by lia. }
  rewrite pow2_7S in Hv.
  remember (S n) as m eqn:Em. cbn [leb_encode].
  destruct (Z.ltb_spec v 128).
  - cbn [app leb_decode]. rewrite (proj2 (Z.ltb_lt _ _)) by lia. done.
  - cbn [app leb_decode].
    pose proof (Z.mod_pos_bound v 128 ltac:(lia)).
    rewrite (proj2 (Z.ltb_ge _ _)) by lia.
    rewrite IH.
    + cbn [leb_cons]. rewrite size_cons.
      replace (v mod 128 + 128) with (v mod 128 + 1 * 128) by lia.
      rewrite Z.mod_add, Z.mod_mod by lia.
      f_equal. pose proof (Z.div_mod v 128). lia.
    + split; [apply Z.div_pos; lia|]. apply Z.div_lt_upper_bound; lia.
Qed.

Lemma leb_decode_value_bound n l v k :
  is_bytes l -> leb_decode n l = LebValue v k ->
  0 <= v < 2 ^ (7 * Z.of_nat n) /\ 1 <= k <= size l /\ k <= Z.of_nat n.
Proof.
  revert l v k. induction n as [|n IH]; intros l v k Hl E; [done|].
  rewrite pow2_7S. destruct l as [|b l]; [done|]. cbn [leb_decode] in E.
  apply Forall_cons_1 in Hl as [Hb Hl]. unfold is_u in Hb. rewrite size_cons.
  pose proof (size_nonneg l). pose proof (pow2_pos (7 * Z.of_nat n) ltac:(lia)).
  destruct (Z.ltb_spec b 128).
  - injection E as <- <-. nia.
  - destruct (leb_decode n l) as [v' k'| |] eqn:E'; try done.
    injection E as <- <-. destruct (IH _ _ _ Hl E') as (? & ? & ?).
    pose proof (Z.mod_pos_bound b 128 ltac:(lia)). nia.
Qed.

(** A successful decoding depends only on the bytes it consumed. *)
Lemma leb_decode_app n l r v k :
  leb_decode n l = LebValue v k -> leb_decode n (l ++ r) = LebValue v k.
Proof.
  revert l v k. induction n as [|n IH]; intros l v k E; [done|].
  destruct l as [|b l]; [done|]. cbn [app leb_decode] in *.
  destruct (b <? 128); [done|].
  destruct (leb_decode n l) as [v' k'| |] eqn:E'; try done.
  by rewrite (IH _ _ _ E').
Qed.

(** ** Byte sources

    What a varint reader needs from the object its bytes come from: [fetch]
    takes the next byte and advances, or throws [eof] and leaves the state. *)
Class ByteSource {S} (fetch : M S Z) (valid : S -> Prop) (rest : S -> bytes)
    (skip : Z -> S -> S) (eof : exn) : Prop := {
  skip_zero : forall s, skip 0 s = s;
  skip_skip : forall s m n, skip m (skip n s) = skip (n + m) s;
  fetch_some : forall s b l,
    valid s -> rest s = b :: l ->
    fetch s = (Ok b, skip 1 s) /\ valid (skip 1 s) /\ rest (skip 1 s) = l;
  fetch_none : forall s,
    valid s -> rest s = [] -> fetch s = (Throw eof, s)
}.

(** The loop [for (int shift = 0; shift <= last; shift += 7)] of the readers,
    on a [w]-bit accumulator. *)
Fixpoint varint_loop {S} (fetch : M S Z) (w : Z) (tooBig : exn)
    (shifts : list Z) (result : Z) : M S Z :=
  match shifts with
  | [] => raise tooBig
  | shift :: shifts' =>
      let* byte := fetch in
      let result := Z.lor result ((Z.shiftl (Z.land byte 0x7f) shift) mod 2 ^ w) in
      if Z.land byte 0x80 =? 0 then ret result
      else varint_loop fetch w tooBig shifts' result
  end.

(** Shifts of the 32-bit and 64-bit loops. *)
Definition shifts32 : list Z := [0; 7; 14; 21; 28].
Definition shifts64 : list Z := [0; 7; 14; 21; 28; 35; 42; 49; 56; 63].

Fixpoint shifts_from (n : nat) (sh : Z) : list Z :=
  match n with O => [] | S n' => sh :: shifts_from n' (sh + 7) end.

(** What every reader returns, in terms of the reference decoder. *)
Definition leb_outcome {S} (w : Z) (skip : Z -> S -> S) (eof tooBig : exn)
    (r : leb_result) (s : S) : result Z * S :=
  match r with
  | LebValue v k => (Ok (v mod 2 ^ w), skip k s)
  | LebShort k => (Throw eof, skip k s)
  | LebLong k => (Throw tooBig, skip k s)
  end.

Lemma lor_group result b sh w :
  0 <= sh <= w -> 0 <= result < 2 ^ sh ->
  Z.lor result ((b * 2 ^ sh) mod 2 ^ w) = (result + b * 2 ^ sh) mod 2 ^ w.
Proof.
  intros Hsh Hr.
  assert (2 ^ w = 2 ^ (w - sh) * 2 ^ sh) as Ew.
  { rewrite <-Z.pow_add_r by lia. f_equal. lia. }
  pose proof (pow2_pos sh ltac:(lia)). pose proof (pow2_pos (w - sh) ltac:(lia)).
  rewrite Ew. rewrite Z.mul_mod_distr_r by lia.
  rewrite lor_mul_add by lia.
  rewrite (Z.mod_eq (result + b * 2 ^ sh)) by lia.
  replace ((result + b * 2 ^ sh) / (2 ^ (w - sh) * 2 ^ sh)) with (b / 2 ^ (w - sh)).
  - rewrite (Z.mod_eq b) by lia. nia.
  - rewrite (Z.mul_comm (2 ^ (w - sh))), <-Z.div_div by lia.
    f_equal. rewrite Z.div_add by lia. rewrite Z.div_small by lia. lia.
Qed.

Section Loop.
Context {S : Type} {fetch : M S Z} {valid : S -> Prop} {rest : S -> bytes}
  {skip : Z -> S -> S} {eof : exn} `{!ByteSource fetch valid rest skip eof}.

Lemma varint_loop_leb w tooBig n : forall sh result s,
  0 <= sh -> sh + 7 * Z.of_nat n < w + 7 -> 0 <= result < 2 ^ sh ->
  valid s -> is_bytes (rest s) ->
  varint_loop fetch w tooBig (shifts_from n sh) result s =
  match leb_decode n (rest s) with
  | LebValue v k => (Ok ((result + v * 2 ^ sh) mod 2 ^ w), skip k s)
  | LebShort k => (Throw eof, skip k s)
  | LebLong k => (Throw tooBig, skip k s)
  end.
Proof.
  induction n as [|n IH]; intros sh result s Hsh Hn Hr Hs Hb.
  { cbn. by rewrite skip_zero. }
  cbn [shifts_from varint_loop leb_decode].
  destruct (rest s) as [|b l] eqn:Er.
  { rewrite (bind_throw _ _ _ _ _ (fetch_none s Hs Er)). by rewrite skip_zero. }
  destruct (fetch_some s b l Hs Er) as (Ef & Hs' & Er').
  rewrite (bind_ok _ _ _ _ _ Ef).
  apply Forall_cons_1 in Hb as [Hb Hl]. unfold is_u in Hb.
  change (2 ^ 8) with 256 in Hb.
  rewrite land_127, shiftl_mul by lia.
  rewrite land_128 by lia. rewrite lor_group by lia.
  destruct (Z.ltb_spec b 128).
  - unfold ret. by rewrite (Z.mod_small b 128) by lia.
  - assert (n = O \/ sh + 7 <= w) as [->|Hw] by lia.
    { done. }
    pose proof (Z.mod_pos_bound b 128 ltac:(lia)).
    assert (2 ^ (sh + 7) = 128 * 2 ^ sh) as E7.
    { rewrite Z.pow_add_r by lia. change (2 ^ 7) with 128. lia. }
    assert (2 ^ (sh + 7) <= 2 ^ w) by (apply Z.pow_le_mono_r; lia).
    rewrite (Z.mod_small (result + _)) by nia.
    rewrite IH; [|lia|lia|nia|done|by rewrite Er'].
    rewrite Er'. destruct (leb_decode n l) as [v k|k|k]; cbn [leb_cons];
      rewrite skip_skip, (Z.add_comm 1); [|done|done].
    rewrite E7.
    by replace (result + b mod 128 * 2 ^ sh + v * (128 * 2 ^ sh))
      with (result + (b mod 128 + 128 * v) * 2 ^ sh) by ring.
Qed.

(** The 32-bit reader loop computes the reference decoder. *)
Lemma varint_loop_32 tooBig s :
  valid s -> is_bytes (rest s) ->
  varint_loop fetch 32 tooBig shifts32 0 s =
  leb_outcome 32 skip eof tooBig (leb_decode 5 (rest s)) s.
Proof.
  intros. change shifts32 with (shifts_from 5 0).
  rewrite varint_loop_leb by (done || lia).
  destruct (leb_decode 5 (rest s)); cbn [leb_outcome]; [|done|done].
  rewrite Z.mul_1_r. done.
Qed.

Lemma varint_loop_64 tooBig s :
  valid s -> is_bytes (rest s) ->
  varint_loop fetch 64 tooBig shifts64 0 s =
  leb_outcome 64 skip eof tooBig (leb_decode 10 (rest s)) s.
Proof.
  intros. change shifts64 with (shifts_from 10 0).
  rewrite varint_loop_leb by (done || lia).
  destruct (leb_decode 10 (rest s)); cbn [leb_outcome]; [|done|done].
  rewrite Z.mul_1_r. done.
Qed.
End Loop.

(** ** Offsets into a vector

    The readers of the form [f(data, size_t& offset)]: the state is the
    offset.  [fetch_at data eof] is [if (offset >= data.size()) throw eof;
    byte = data[offset++];]. *)
Definition fetch_at (data : bytes) (eof : exn) : M Z Z :=
  let* offset := get_st in
  if offset >=? size data then raise eof
  else
    let* byte := lift (vec_at data offset) in
    put_st (offset + 1) ;;; ret byte.

Definition offset_valid (data : bytes) (off : Z) : Prop := 0 <= off <= size data.
Definition offset_rest (data : bytes) (off : Z) : bytes := drop (Z.to_nat off) data.
Definition offset_skip (k : Z) (off : Z) : Z := off + k.

Lemma offset_rest_split data off :
  offset_valid data off ->
  exists pre, data = pre ++ offset_rest data off /\ size pre = off.
Proof.
  intros [H1 H2]. exists (take (Z.to_nat off) data).
  split; [symmetry; apply take_drop|].
  unfold size in *. rewrite length_take. lia.
Qed.

Lemma offset_rest_app pre r : offset_rest (pre ++ r) (size pre) = r.
Proof. unfold offset_rest, size. by rewrite Nat2Z.id, drop_app_length. Qed.

#[export] Instance offset_source data eof :
  ByteSource (fetch_at data eof) (offset_valid data) (offset_rest data)
    offset_skip eof.
Proof.
  split.
  - intros s. unfold offset_skip. lia.
  - intros s m n. unfold offset_skip. lia.
  - intros off b l Hv Er.
    destruct (offset_rest_split _ _ Hv) as (pre & Ed & Hp).
    assert (size data = off + size l + 1) as Hsz.
    { rewrite Ed, Er, size_app, size_cons. lia. }
    pose proof (size_nonneg l).
    assert (vec_at data off = Ok b) as Eat.
    { rewrite Ed, Er, <-Hp. apply vec_at_app. }
    assert (offset_rest data (off + 1) = l) as Er'.
    { unfold offset_rest in *. destruct Hv.
      replace (Z.to_nat (off + 1)) with (Z.to_nat off + 1)%nat by lia.
      rewrite <-drop_drop, Er. done. }
    unfold fetch_at, offset_skip, offset_valid, bind, get_st, lift, put_st, ret.
    destruct (Z.geb_spec off (size data)); [lia|].
    rewrite Eat. destruct Hv. by split_and!; try lia.
  - intros off Hv Er.
    destruct (offset_rest_split _ _ Hv) as (pre & Ed & Hp).
    assert (size data = off) as Hsz.
    { rewrite Ed, Er, size_app, size_nil. lia. }
    unfold fetch_at, bind, get_st, raise.
    destruct (Z.geb_spec off (size data)); [done|lia].
Qed.

(** ** The three writer loops

    The sources append to a vector; [fuel] bounds the number of groups (5 for
    32-bit and 10 for 64-bit values; [write_*_leb] show it is never short). *)

(** [do { byte = v & 0x7f; v >>= 7; if (v != 0) byte |= 0x80; push } while (v != 0)] *)
Fixpoint write_do_while (fuel : nat) (out : bytes) (value : Z) : bytes :=
  match fuel with
  | O => out
  | S fuel' =>
      let byte := Z.land value 0x7f in
      let value := Z.shiftr value 7 in
      let byte := if negb (value =? 0) then Z.lor byte 0x80 else byte in
      let out := out ++ [byte] in
      if negb (value =? 0) then write_do_while fuel' out value else out
  end.

(** [while (true) { if ((v & ~0x7f) == 0) { push v; return; } push (v & 0x7f) | 0x80; v >>= 7; }] *)
Fixpoint write_mask_loop (fuel : nat) (w : Z) (out : bytes) (v : Z) : bytes :=
  match fuel with
  | O => out
  | S fuel' =>
      if Z.land v ((Z.lnot 0x7f) mod 2 ^ w) =? 0 then out ++ [to_u8 v]
      else write_mask_loop fuel' w (out ++ [to_u8 (Z.lor (Z.land v 0x7f) 0x80)])
             (Z.shiftr v 7)
  end.

(** [while (v >= 0x80) { push (v & 0x7f) | 0x80; v >>= 7; } push v] *)
Fixpoint write_while (fuel : nat) (out : bytes) (value : Z) : bytes :=
  match fuel with
  | O => out
  | S fuel' =>
      if value >=? 0x80 then
        write_while fuel' (out ++ [to_u8 (Z.lor (Z.land value 0x7f) 0x80)])
          (Z.shiftr value 7)
      else out ++ [to_u8 value]
  end.

Lemma leb_group v : 0 <= v -> Z.lor (v mod 128) 0x80 = v mod 128 + 128.
Proof. intros. apply lor_128. by apply Z.mod_pos_bound. Qed.

Lemma to_u8_group v : 0 <= v -> to_u8 (v mod 128 + 128) = v mod 128 + 128.
Proof.
  intros. apply to_u8_id. pose proof (Z.mod_pos_bound v 128 ltac:(lia)).
  unfold is_u. change (2 ^ 8) with 256. lia.
Qed.

Lemma write_do_while_leb n out v :
  0 <= v < 2 ^ (7 * Z.of_nat (S n)) ->
  write_do_while (S n) out v = out ++ leb_encode (S n) v.
Proof.
  revert out v. induction n as [|n IH]; intros out v Hv.
  - change (2 ^ (7 * Z.of_nat 1)) with 128 in Hv. cbn.
    rewrite land_127, shiftr_div by lia. change (2 ^ 7) with 128.
    rewrite Z.div_small, Z.mod_small by lia. cbn.
    by rewrite (proj2 (Z.ltb_lt _ _)) by lia.
  - rewrite pow2_7S in Hv. remember (S n) as m eqn:Em.
    cbn [write_do_while leb_encode].
    rewrite land_127, shiftr_div by lia. change (2 ^ 7) with 128.
    destruct (Z.ltb_spec v 128).
    + rewrite Z.div_small, Z.mod_small by lia. done.
    + assert (1 <= v / 128) by (apply Z.div_le_lower_bound; lia).
      rewrite (proj2 (Z.eqb_neq _ _)) by lia. cbn [negb].
      rewrite IH by (split; [lia|apply Z.div_lt_upper_bound; lia]).
      rewrite leb_group by lia. by rewrite <-app_assoc.
Qed.

Lemma write_mask_loop_leb n w out v :
  7 <= w -> 0 <= v < 2 ^ w -> 0 <= v < 2 ^ (7 * Z.of_nat (S n)) ->
  write_mask_loop (S n) w out v = out ++ leb_encode (S n) v.
Proof.
  intros Hw. revert out v. induction n as [|n IH]; intros out v Hvw Hv.
  - change (2 ^ (7 * Z.of_nat 1)) with 128 in Hv. cbn [write_mask_loop leb_encode].
    rewrite land_not_127 by done.
    rewrite (proj2 (Z.ltb_lt _ _)) by lia.
    rewrite to_u8_id; [done|]. unfold is_u. change (2 ^ 8) with 256. lia.
  - rewrite pow2_7S in Hv. remember (S n) as m eqn:Em.
    cbn [write_mask_loop leb_encode].
    rewrite land_not_127 by done.
    destruct (Z.ltb_spec v 128).
    + rewrite to_u8_id; [done|]. unfold is_u. change (2 ^ 8) with 256. lia.
    + rewrite land_127, shiftr_div by lia. change (2 ^ 7) with 128.
      pose proof (Z.div_lt v 128 ltac:(lia) ltac:(lia)).
      assert (1 <= v / 128) by (apply Z.div_le_lower_bound; lia).
      rewrite IH; [|lia|split; [lia|apply Z.div_lt_upper_bound; lia]].
      rewrite leb_group, to_u8_group by lia. by rewrite <-app_assoc.
Qed.

Lemma write_while_leb n out v :
  0 <= v < 2 ^ (7 * Z.of_nat (S n)) ->
  write_while (S n) out v = out ++ leb_encode (S n) v.
Proof.
  revert out v. induction n as [|n IH]; intros out v Hv.
  - change (2 ^ (7 * Z.of_nat 1)) with 128 in Hv. cbn [write_while leb_encode].
    destruct (Z.geb_spec v 128); [lia|]. rewrite (proj2 (Z.ltb_lt _ _)) by lia.
    rewrite to_u8_id; [done|]. unfold is_u. change (2 ^ 8) with 256. lia.
  - rewrite pow2_7S in Hv. remember (S n) as m eqn:Em.
    cbn [write_while leb_encode].
    destruct (Z.geb_spec v 128); [|].
    + rewrite (proj2 (Z.ltb_ge _ _)) by lia.
      rewrite land_127, shiftr_div by lia. change (2 ^ 7) with 128.
      assert (1 <= v / 128) by (apply Z.div_le_lower_bound; lia).
      rewrite IH by (split; [lia|apply Z.div_lt_upper_bound; lia]).
      rewrite leb_group, to_u8_group by lia. by rewrite <-app_assoc.
    + rewrite (proj2 (Z.ltb_lt _ _)) by lia.
      rewrite to_u8_id; [done|]. unfold is_u. change (2 ^ 8) with 256. lia.
Qed.

(** A 32-bit value fits five groups, a 64-bit value ten. *)
Lemma u32_fits_5 v : is_u 32 v -> 0 <= v < 2 ^ (7 * Z.of_nat 5).
Proof. unfold is_u. change (2 ^ (7 * Z.of_nat 5)) with (2 ^ 32 * 8). lia. Qed.
Lemma u64_fits_10 v : is_u 64 v -> 0 <= v < 2 ^ (7 * Z.of_nat 10).
Proof. unfold is_u. change (2 ^ (7 * Z.of_nat 10)) with (2 ^ 64 * 64). lia. Qed.

#[export] Hint Resolve u32_fits_5 u64_fits_10 : machine_int.

(** Reading back what a writer appended, wherever it stands in the input. *)
Lemma leb_outcome_encode_32 {S} (skip : Z -> S -> S) eof tooBig v r s :
  is_u 32 v ->
  leb_outcome 32 skip eof tooBig (leb_decode 5 (leb_encode 5 v ++ r)) s =
  (Ok v, skip (size (leb_encode 5 v)) s).
Proof.
  intros Hv. rewrite leb_decode_encode by by apply u32_fits_5.
  cbn [leb_outcome]. by rewrite Z.mod_small by done.
Qed.

Lemma leb_outcome_encode_64 {S} (skip : Z -> S -> S) eof tooBig v r s :
  is_u 64 v ->
  leb_outcome 64 skip eof tooBig (leb_decode 10 (leb_encode 10 v ++ r)) s =
  (Ok v, skip (size (leb_encode 10 v)) s).
Proof.
  intros Hv. rewrite leb_decode_encode by by apply u64_fits_10.
  cbn [leb_outcome]. by rewrite Z.mod_small by done.
Qed.

(** ** Parsers on a byte source

    [consumes m k a]: wherever the bytes [k] stand next in the input, [m]
    returns [a] and leaves the source just after them. *)
Section Consumes.
Context {S : Type} {fetch : M S Z} {valid : S -> Prop} {rest : S -> bytes}
  {skip : Z -> S -> S} {eof : exn} `{HS : !ByteSource fetch valid rest skip eof}.

Definition consumes {A} (m : M S A) (k : bytes) (a : A) : Prop :=
  forall s r, valid s -> is_bytes (rest s) -> rest s = k ++ r ->
    m s = (Ok a, skip (size k) s).

Lemma skip_rest k s r :
  valid s -> rest s = k ++ r -> valid (skip (size k) s) /\ rest (skip (size k) s) = r.
Proof.
  revert s. induction k as [|b k IH]; intros s Hs Hr.
  - rewrite size_nil, skip_zero. done.
  - destruct (fetch_some s b (k ++ r) Hs Hr) as (_ & Hs' & Hr').
    rewrite size_cons, Z.add_comm, <-skip_skip. by apply IH.
Qed.

Lemma consumes_ret {A} (a : A) : consumes (ret a) [] a.
Proof. intros s r _ _ _. by rewrite size_nil, skip_zero. Qed.

Lemma consumes_bind {A B} (m : M S A) (f : A -> M S B) k1 k2 a b :
  consumes m k1 a -> consumes (f a) k2 b -> consumes (bind m f) (k1 ++ k2) b.
Proof.
  intros H1 H2 s r Hs Hb Hr. rewrite <-app_assoc in Hr.
  rewrite (bind_ok _ _ _ _ _ (H1 s _ Hs Hb Hr)).
  destruct (skip_rest k1 s (k2 ++ r) Hs Hr) as [Hs' Hr'].
  rewrite (H2 _ r Hs'); [by rewrite skip_skip, size_app| |done].
  rewrite Hr'. rewrite Hr in Hb. by apply Forall_app in Hb as [_ Hb].
Qed.

Lemma consumes_bind_ret {A B} (m : M S A) (g : A -> B) k a :
  consumes m k a -> consumes (let* x := m in ret (g x)) k (g a).
Proof.
  intros H. rewrite <-(app_nil_r k).
  eapply consumes_bind; [done|]. apply consumes_ret.
Qed.

Lemma consumes_varint_32 tooBig v :
  is_u 32 v -> consumes (varint_loop fetch 32 tooBig shifts32 0) (leb_encode 5 v) v.
Proof.
  intros Hv s r Hs Hb Hr. rewrite varint_loop_32 by done. rewrite Hr.
  by apply leb_outcome_encode_32.
Qed.

Lemma consumes_varint_64 tooBig v :
  is_u 64 v -> consumes (varint_loop fetch 64 tooBig shifts64 0) (leb_encode 10 v) v.
Proof.
  intros Hv s r Hs Hb Hr. rewrite varint_loop_64 by done. rewrite Hr.
  by apply leb_outcome_encode_64.
Qed.
End Consumes.
Arguments consumes {S} valid rest skip {A} m k a.
