(* ===== verification/Endian.v ===== *)
(** * Little- and big-endian integers in vectors

    Reference codecs ([le_encode], [le_decode]) and the load/store expressions
    that the readers and writers of the repository spell out byte by byte. *)

From S2P Require Import Prelude MachineInt.

Fixpoint le_encode (n : nat) (v : Z) : bytes :=
  match n with O => [] | S n' => v mod 256 :: le_encode n' (v / 256) end.

Fixpoint le_decode (l : bytes) : Z :=
  match l with [] => 0 | b :: l' => b + 256 * le_decode l' end.

Lemma pow2_8S n : 2 ^ (8 * Z.of_nat (S n)) = 256 * 2 ^ (8 * Z.of_nat n).
Proof.
  replace (8 * Z.of_nat (S n)) with (8 + 8 * Z.of_nat n) by lia.
  by rewrite Z.pow_add_r by lia.
Qed.

Lemma le_encode_length n v : length (le_encode n v) = n.
Proof. revert v. induction n; intros; simpl; auto. Qed.

Lemma le_encode_size n v : size (le_encode n v) = Z.of_nat n.
Proof. unfold size. by rewrite le_encode_length. Qed.

Lemma le_encode_bytes n v : is_bytes (le_encode n v).
Proof.
  revert v. induction n as [|n IH]; intros v; simpl; constructor; [|apply IH].
  apply (to_u_range 8). lia.
Qed.

Lemma le_decode_bound l : is_bytes l -> 0 <= le_decode l < 2 ^ (8 * size l).
Proof.
  induction l as [|b l IH]; intros Hl; [done|].
  apply Forall_cons_1 in Hl as [Hb Hl]. specialize (IH Hl).
  unfold size in *. cbn [length le_decode]. rewrite pow2_8S.
  unfold is_u in Hb. change (2 ^ 8) with 256 in Hb. lia.
Qed.

Lemma le_decode_encode n v : le_decode (le_encode n v) = v mod 2 ^ (8 * Z.of_nat n).
Proof.
  revert v. induction n as [|n IH]; intros v; cbn [le_encode le_decode].
  - change (2 ^ (8 * Z.of_nat 0)) with 1. by rewrite Z.mod_1_r.
  - rewrite IH, pow2_8S. pose proof (pow2_pos (8 * Z.of_nat n) ltac:(lia)).
    by rewrite Z.rem_mul_r by lia.
Qed.

Lemma le_encode_decode l : is_bytes l -> le_encode (length l) (le_decode l) = l.
Proof.
  induction l as [|b l IH]; intros Hl; [done|].
  apply Forall_cons_1 in Hl as [Hb Hl]. unfold is_u in Hb. change (2 ^ 8) with 256 in Hb.
  cbn [length le_encode le_decode].
  rewrite (Z.mul_comm 256), Z.mod_add, Z.div_add, Z.mod_small, Z.div_small by lia.
  rewrite Z.add_0_l. by rewrite IH.
Qed.

(** ** Loads *)

(** [uint16_t(data[o]) | uint16_t(data[o+1] << 8)] *)
Definition load_le16 (data : bytes) (o : Z) : result Z :=
  let! b0 := vec_at data o in
  let! b1 := vec_at data (o + 1) in
  Ok (Z.lor b0 (to_u16 (Z.shiftl b1 8))).

(** [uint32_t(data[o]) | uint32_t(data[o+1]) << 8 | ... << 16 | ... << 24] *)
Definition load_le32 (data : bytes) (o : Z) : result Z :=
  let! b0 := vec_at data o in
  let! b1 := vec_at data (o + 1) in
  let! b2 := vec_at data (o + 2) in
  let! b3 := vec_at data (o + 3) in
  Ok (Z.lor (Z.lor (Z.lor b0 (to_u32 (Z.shiftl b1 8)))
        (to_u32 (Z.shiftl b2 16))) (to_u32 (Z.shiftl b3 24))).

Definition load_be32 (data : bytes) (o : Z) : result Z :=
  let! b0 := vec_at data o in
  let! b1 := vec_at data (o + 1) in
  let! b2 := vec_at data (o + 2) in
  let! b3 := vec_at data (o + 3) in
  Ok (Z.lor (Z.lor (Z.lor (to_u32 (Z.shiftl b0 24)) (to_u32 (Z.shiftl b1 16)))
        (to_u32 (Z.shiftl b2 8))) b3).

(** [for (i = 0; i < 8; i++) v |= uint64_t(data[o + i]) << (8 * i)] *)
Fixpoint load_le64_loop (data : bytes) (o : Z) (idxs : list Z) (v : Z) : result Z :=
  match idxs with
  | [] => Ok v
  | i :: idxs' =>
      let! b := vec_at data (o + i) in
      load_le64_loop data o idxs' (Z.lor v (to_u64 (Z.shiftl b (8 * i))))
  end.
Definition load_le64 (data : bytes) (o : Z) : result Z :=
  load_le64_loop data o [0; 1; 2; 3; 4; 5; 6; 7] 0.

(** [k] bytes stand at offset [o]. *)
Definition stands_at (data k : bytes) (o : Z) : Prop :=
  exists pre post, data = pre ++ k ++ post /\ size pre = o.

Lemma stands_at_vec data k o i x :
  stands_at data k o -> k !! i = Some x -> vec_at data (o + Z.of_nat i) = Ok x.
Proof.
  intros (pre & post & -> & <-) Hi. apply vec_at_lookup; [unfold size; lia|].
  unfold size. replace (Z.to_nat _) with (length pre + i)%nat by lia.
  rewrite lookup_app_r by lia. replace (_ - _)%nat with i by lia.
  rewrite lookup_app_l; [done|]. by eapply lookup_lt_Some.
Qed.

Lemma stands_at_split data o n :
  0 <= o -> o + n <= size data -> 0 <= n ->
  exists k, size k = n /\ stands_at data k o.
Proof.
  intros Ho Hs Hn. exists (take (Z.to_nat n) (drop (Z.to_nat o) data)).
  split.
  - unfold size in *. rewrite length_take, length_drop. lia.
  - exists (take (Z.to_nat o) data), (drop (Z.to_nat n) (drop (Z.to_nat o) data)).
    rewrite !take_drop. split; [done|]. unfold size in *. rewrite length_take. lia.
Qed.

Lemma stands_at_bytes data k o : is_bytes data -> stands_at data k o -> is_bytes k.
Proof. intros Hd (pre & post & -> & _). rewrite !Forall_app in Hd. tauto. Qed.

Lemma shiftl_small w b s :
  0 <= s -> 0 <= b < 256 -> s + 8 <= w -> (Z.shiftl b s) mod 2 ^ w = b * 2 ^ s.
Proof.
  intros Hs Hb Hw. rewrite shiftl_mul by lia. apply Z.mod_small.
  pose proof (pow2_pos s Hs). split; [nia|].
  assert (256 * 2 ^ s <= 2 ^ w).
  { replace (256 * 2 ^ s) with (2 ^ (s + 8)).
    - apply Z.pow_le_mono_r; lia.
    - rewrite Z.pow_add_r by lia. change (2 ^ 8) with 256. lia. }
  nia.
Qed.

Ltac split_bytes4 H :=
  repeat (apply Forall_cons_1 in H as [? H]); unfold is_u in *;
  change (2 ^ 8) with 256 in *.

Lemma lor_le16 b0 b1 :
  is_bytes [b0; b1] -> Z.lor b0 (to_u16 (Z.shiftl b1 8)) = le_decode [b0; b1].
Proof.
  intros H. split_bytes4 H. unfold to_u16. rewrite shiftl_small by lia.
  rewrite lor_mul_add by lia. cbn [le_decode]. change (2 ^ 8) with 256. lia.
Qed.

Lemma lor_le32 b0 b1 b2 b3 :
  is_bytes [b0; b1; b2; b3] ->
  Z.lor (Z.lor (Z.lor b0 (to_u32 (Z.shiftl b1 8)))
        (to_u32 (Z.shiftl b2 16))) (to_u32 (Z.shiftl b3 24))
  = le_decode [b0; b1; b2; b3].
Proof.
  intros H. split_bytes4 H. unfold to_u32. rewrite !shiftl_small by lia.
  rewrite (lor_mul_add b0 b1 8) by lia. rewrite (lor_mul_add _ b2 16) by lia.
  rewrite (lor_mul_add _ b3 24) by lia. cbn [le_decode].
  change (2 ^ 8) with 256. change (2 ^ 16) with (256 * 256).
  change (2 ^ 24) with (256 * 256 * 256). lia.
Qed.

Lemma lor_be32 b0 b1 b2 b3 :
  is_bytes [b0; b1; b2; b3] ->
  Z.lor (Z.lor (Z.lor (to_u32 (Z.shiftl b0 24)) (to_u32 (Z.shiftl b1 16)))
        (to_u32 (Z.shiftl b2 8))) b3
  = le_decode [b3; b2; b1; b0].
Proof.
  intros H.
  rewrite (Z.lor_comm _ b3), (Z.lor_comm _ (to_u32 (Z.shiftl b2 8))).
  rewrite (Z.lor_comm (to_u32 (Z.shiftl b0 24))), !Z.lor_assoc.
  apply lor_le32. split_bytes4 H.
  repeat constructor; unfold is_u; change (2 ^ 8) with 256; lia.
Qed.

Section Loads.
Context (data : bytes).

Ltac at_ H i :=
  match type of H with stands_at _ _ ?o =>
    let E := fresh "E" in
    pose proof (stands_at_vec _ _ o i _ H eq_refl) as E;
    let z := eval compute in (Z.of_nat i) in
    change (Z.of_nat i) with z in E; rewrite ?Z.add_0_r in E;
    rewrite E; clear E; cbn [rbind]
  end.

Lemma load_le16_ok o k :
  is_bytes k -> stands_at data k o -> size k = 2 -> load_le16 data o = Ok (le_decode k).
Proof.
  intros Hb H Hk. apply size_length in Hk.
  destruct k as [|b0 [|b1 [|? ?]]]; try done. unfold load_le16.
  at_ H 0%nat. at_ H 1%nat. by rewrite lor_le16.
Qed.

Lemma load_le32_ok o k :
  is_bytes k -> stands_at data k o -> size k = 4 -> load_le32 data o = Ok (le_decode k).
Proof.
  intros Hb H Hk. apply size_length in Hk.
  destruct k as [|b0 [|b1 [|b2 [|b3 [|? ?]]]]]; try done. unfold load_le32.
  at_ H 0%nat. at_ H 1%nat. at_ H 2%nat. at_ H 3%nat. by rewrite lor_le32.
Qed.

Lemma load_be32_ok o k :
  is_bytes k -> stands_at data k o -> size k = 4 -> load_be32 data o = Ok (le_decode (reverse k)).
Proof.
  intros Hb H Hk. apply size_length in Hk.
  destruct k as [|b0 [|b1 [|b2 [|b3 [|? ?]]]]]; try done. unfold load_be32.
  at_ H 0%nat. at_ H 1%nat. at_ H 2%nat. at_ H 3%nat. by rewrite lor_be32.
Qed.

Lemma load_le64_ok o k :
  is_bytes k -> stands_at data k o -> size k = 8 -> load_le64 data o = Ok (le_decode k).
Proof.
  intros Hb H Hk. apply size_length in Hk.
  destruct k as [|b0 [|b1 [|b2 [|b3 [|b4 [|b5 [|b6 [|b7 [|? ?]]]]]]]]]; try done.
  unfold load_le64. cbn [load_le64_loop]. rewrite Z.add_0_r.
  at_ H 0%nat. at_ H 1%nat. at_ H 2%nat. at_ H 3%nat.
  at_ H 4%nat. at_ H 5%nat. at_ H 6%nat. at_ H 7%nat.
  split_bytes4 Hb. unfold to_u64. rewrite !shiftl_small by lia.
  rewrite Z.lor_0_l. change (b0 * 2 ^ (8 * 0)) with (b0 * 1). rewrite Z.mul_1_r.
  rewrite (lor_mul_add b0 b1 (8 * 1)), (lor_mul_add _ b2 (8 * 2)) by lia.
  rewrite (lor_mul_add _ b3 (8 * 3)), (lor_mul_add _ b4 (8 * 4)) by lia.
  rewrite (lor_mul_add _ b5 (8 * 5)), (lor_mul_add _ b6 (8 * 6)) by lia.
  rewrite (lor_mul_add _ b7 (8 * 7)) by lia.
  f_equal. cbn [le_decode]. simpl Z.pow. lia.
Qed.
End Loads.

(** ** Stores *)

Lemma store_byte v s : 0 <= s -> to_u8 (Z.land (Z.shiftr v s) 0xff) = (v / 2 ^ s) mod 256.
Proof.
  intros. rewrite land_255, shiftr_div by lia. unfold to_u8. change (2 ^ 8) with 256.
  by rewrite Z.mod_mod by lia.
Qed.

Lemma store_byte0 v : to_u8 (Z.land v 0xff) = v mod 256.
Proof. rewrite land_255. unfold to_u8. change (2 ^ 8) with 256. by rewrite Z.mod_mod. Qed.

Definition store_le16 (v : Z) : bytes :=
  [to_u8 (Z.land v 0xff); to_u8 (Z.land (Z.shiftr v 8) 0xff)].
Definition store_le32 (v : Z) : bytes :=
  [to_u8 (Z.land v 0xff); to_u8 (Z.land (Z.shiftr v 8) 0xff);
   to_u8 (Z.land (Z.shiftr v 16) 0xff); to_u8 (Z.land (Z.shiftr v 24) 0xff)].
Definition store_be32 (v : Z) : bytes :=
  [to_u8 (Z.land (Z.shiftr v 24) 0xff); to_u8 (Z.land (Z.shiftr v 16) 0xff);
   to_u8 (Z.land (Z.shiftr v 8) 0xff); to_u8 (Z.land v 0xff)].
Definition store_le64 (v : Z) : bytes :=
  map (fun i => to_u8 (Z.land (Z.shiftr v (8 * i)) 0xff)) [0; 1; 2; 3; 4; 5; 6; 7].

Lemma store_le16_encode v : store_le16 v = le_encode 2 v.
Proof. unfold store_le16. rewrite store_byte0, store_byte by lia. done. Qed.

Lemma store_le32_encode v : store_le32 v = le_encode 4 v.
Proof.
  unfold store_le32. rewrite store_byte0, !store_byte by lia. cbn [le_encode].
  rewrite !Z.div_div by lia. done.
Qed.

Lemma store_be32_encode v : store_be32 v = reverse (le_encode 4 v).
Proof. rewrite <-store_le32_encode. done. Qed.

Lemma store_le64_encode v : store_le64 v = le_encode 8 v.
Proof.
  unfold store_le64. cbn [map le_encode]. rewrite !store_byte by lia.
  rewrite !Z.div_div by lia. change (2 ^ (8 * 0)) with 1. rewrite Z.div_1_r. done.
Qed.

Lemma stands_at_app pre k post : stands_at (pre ++ k ++ post) k (size pre).
Proof. by exists pre, post. Qed.
