(* ===== verification/VarInt.v ===== *)
(** * src/src/util: VarInt and the small binary reader and writer

    [VarInt] models src/src/util/VarInt.cpp, [BinaryStreamReader] and
    [BinaryStreamWriter] model src/src/util/BinaryStream.cpp.  Readers run in
    the state monad over the by-reference [offset]; writers return the grown
    vector. *)

From S2P Require Import Prelude MachineInt Leb128 Endian.

Module VarInt.
Definition eofInt : exn := RuntimeError "readUnsignedVarInt: unexpected end".
Definition tooLargeInt : exn := RuntimeError "readUnsignedVarInt: varint too large".
Definition eofLong : exn := RuntimeError "readUnsignedVarLong: unexpected end".
Definition tooLargeLong : exn := RuntimeError "readUnsignedVarLong: varlong too large".

Definition readUnsignedVarInt (data : bytes) : M Z Z :=
  varint_loop (fetch_at data eofInt) 32 tooLargeInt shifts32 0.

Definition readUnsignedVarLong (data : bytes) : M Z Z :=
  varint_loop (fetch_at data eofLong) 64 tooLargeLong shifts64 0.

Definition writeUnsignedVarInt (out : bytes) (value : Z) : bytes :=
  write_do_while 5 out value.

Definition writeUnsignedVarLong (out : bytes) (value : Z) : bytes :=
  write_do_while 10 out value.

Definition writeBe32 (out : bytes) (value : Z) : bytes := out ++ store_be32 value.

Definition writeLe16 (out : bytes) (value : Z) : bytes := out ++ store_le16 value.

(** The readers are the reference decoder. *)
Lemma readUnsignedVarInt_leb data off :
  is_bytes data -> offset_valid data off ->
  readUnsignedVarInt data off =
  leb_outcome 32 offset_skip eofInt tooLargeInt
    (leb_decode 5 (offset_rest data off)) off.
Proof.
  intros Hd Hv. apply varint_loop_32; [done|].
  by apply Forall_drop.
Qed.

Lemma readUnsignedVarLong_leb data off :
  is_bytes data -> offset_valid data off ->
  readUnsignedVarLong data off =
  leb_outcome 64 offset_skip eofLong tooLargeLong
    (leb_decode 10 (offset_rest data off)) off.
Proof.
  intros Hd Hv. apply varint_loop_64; [done|].
  by apply Forall_drop.
Qed.

Lemma writeUnsignedVarInt_leb out v :
  is_u 32 v -> writeUnsignedVarInt out v = out ++ leb_encode 5 v.
Proof. intros. apply write_do_while_leb. by apply u32_fits_5. Qed.

Lemma writeUnsignedVarLong_leb out v :
  is_u 64 v -> writeUnsignedVarLong out v = out ++ leb_encode 10 v.
Proof. intros. apply write_do_while_leb. by apply u64_fits_10. Qed.

(** A varint standing at [size pre] is read back. *)
Lemma readUnsignedVarInt_at pre post v :
  is_u 32 v -> is_bytes pre -> is_bytes post ->
  readUnsignedVarInt (pre ++ leb_encode 5 v ++ post) (size pre) =
  (Ok v, size pre + size (leb_encode 5 v)).
Proof.
  intros Hv Hpre Hpost.
  rewrite readUnsignedVarInt_leb.
  - rewrite offset_rest_app. by apply leb_outcome_encode_32.
  - rewrite !is_bytes_app. split_and!; [done| |done].
    apply leb_encode_bytes. apply Hv.
  - unfold offset_valid. rewrite !size_app.
    pose proof (size_nonneg pre). pose proof (size_nonneg post).
    pose proof (size_nonneg (leb_encode 5 v)). lia.
Qed.

Lemma readUnsignedVarLong_at pre post v :
  is_u 64 v -> is_bytes pre -> is_bytes post ->
  readUnsignedVarLong (pre ++ leb_encode 10 v ++ post) (size pre) =
  (Ok v, size pre + size (leb_encode 10 v)).
Proof.
  intros Hv Hpre Hpost.
  rewrite readUnsignedVarLong_leb.
  - rewrite offset_rest_app. by apply leb_outcome_encode_64.
  - rewrite !is_bytes_app. split_and!; [done| |done].
    apply leb_encode_bytes. apply Hv.
  - unfold offset_valid. rewrite !size_app.
    pose proof (size_nonneg pre). pose proof (size_nonneg post).
    pose proof (size_nonneg (leb_encode 10 v)). lia.
Qed.
End VarInt.

(** ** BinaryStreamReader

    The reader keeps a reference to the vector [data] and an offset. *)
Module BinaryStreamReader.
Section Reader.
Context (data : bytes).

Definition eof : M Z bool :=
  let* offset := get_st in ret (offset >=? size data).

Definition offset : M Z Z := get_st.

Definition remaining_at (offset : Z) : Z :=
  if offset >=? size data then 0 else size data - offset.
Definition remaining : M Z Z :=
  let* offset := get_st in ret (remaining_at offset).

(** [if (remaining() < n) throw; v = load; offset_ += n; return v;] *)
Definition take_n {A} (n : Z) (msg : string) (load : Z -> result A) : M Z A :=
  let* offset := get_st in
  if remaining_at offset <? n then raise (RuntimeError msg)
  else
    let* v := lift (load offset) in
    put_st (offset + n) ;;; ret v.

Definition readU8 : M Z Z :=
  take_n 1 "BinaryStreamReader::readU8: unexpected end" (vec_at data).

Definition readLe16 : M Z Z :=
  take_n 2 "BinaryStreamReader::readLe16: unexpected end" (load_le16 data).

Definition readLe32 : M Z Z :=
  take_n 4 "BinaryStreamReader::readLe32: unexpected end" (load_le32 data).

Definition readBe32 : M Z Z :=
  take_n 4 "BinaryStreamReader::readBe32: unexpected end" (load_be32 data).

Definition readBytes (count : Z) : M Z bytes :=
  take_n count "BinaryStreamReader::readBytes: unexpected end"
    (fun offset => vec_range data offset (offset + count)).
End Reader.
End BinaryStreamReader.

(** ** BinaryStreamWriter *)
Module BinaryStreamWriter.
Definition writeU8 (data : bytes) (value : Z) : bytes := data ++ [value].
Definition writeLe16 (data : bytes) (value : Z) : bytes := data ++ store_le16 value.
Definition writeLe32 (data : bytes) (value : Z) : bytes := data ++ store_le32 value.
Definition writeBe32 (data : bytes) (value : Z) : bytes := data ++ store_be32 value.
Definition writeBytes (data : bytes) (b : bytes) : bytes := data ++ b.
(** [std::move(data_)]: the contents leave the writer, which is left empty. *)
Definition take (data : bytes) : bytes * bytes := (data, []).
End BinaryStreamWriter.
