(* ===== verification/BinaryStream.v ===== *)
(** * BinaryStream (src/src/BinaryStream.cpp)

    A growable byte buffer with a read offset.  The stream owns [data_] or
    reads through [view_], a pointer to a vector of the caller (modelled by
    that vector's contents, which the class requires to outlive the stream);
    the first write copies the viewed bytes.  [float] and [double] are their
    IEEE bit patterns, as [memcpy] transfers them. *)

From S2P Require Import Prelude MachineInt Leb128 Endian.

Record BinaryStream := mkBinaryStream {
  data_ : bytes;
  view_ : option bytes;
  offset_ : Z
}.

Definition set_data (d : bytes) (s : BinaryStream) : BinaryStream :=
  mkBinaryStream d (view_ s) (offset_ s).
Definition set_offset (o : Z) (s : BinaryStream) : BinaryStream :=
  mkBinaryStream (data_ s) (view_ s) o.

(** ** Construction *)

Definition empty_stream : BinaryStream := mkBinaryStream [] None 0.

Definition from_data (data : bytes) : BinaryStream := mkBinaryStream data None 0.

Definition view (data : bytes) (offset : Z) : result BinaryStream :=
  if offset >? size data then Throw (BinaryStreamError "view offset out of range")
  else Ok (mkBinaryStream [] (Some data) offset).

(** ** Buffers *)

Definition readableBuffer (s : BinaryStream) : bytes :=
  match view_ s with Some v => v | None => data_ s end.

Definition writableBuffer (s : BinaryStream) : BinaryStream :=
  match view_ s with
  | Some v => mkBinaryStream v None (offset_ s)
  | None => s
  end.

Definition offset (s : BinaryStream) : Z := offset_ s.

Definition remaining (s : BinaryStream) : Z :=
  let data := readableBuffer s in
  if offset_ s >? size data then 0 else size data - offset_ s.

Definition eof (s : BinaryStream) : bool := offset_ s >=? size (readableBuffer s).

Definition reset : M BinaryStream unit :=
  let* s := get_st in put_st (set_offset 0 s).

Definition seek (pos : Z) : M BinaryStream unit :=
  let* s := get_st in
  if pos >? size (readableBuffer s) then raise (BinaryStreamError "seek out of range")
  else put_st (set_offset pos s).

Definition notEnough : exn := BinaryStreamError "not enough bytes in BinaryStream".

Definition require (len : Z) : M BinaryStream unit :=
  let* s := get_st in
  if remaining s <? len then raise notEnough else ret tt.

(** ** Reads *)

(** [require(n); v = load(readableBuffer(), offset_); offset_ += n; return v;] *)
Definition read_n {A} (n : Z) (load : bytes -> Z -> result A) : M BinaryStream A :=
  require n ;;;
  let* s := get_st in
  let* v := lift (load (readableBuffer s) (offset_ s)) in
  put_st (set_offset (offset_ s + n) s) ;;;
  ret v.

Definition readU8 : M BinaryStream Z := read_n 1 vec_at.
Definition readI8 : M BinaryStream Z := let* v := readU8 in ret (to_i8 v).
Definition readU16LE : M BinaryStream Z := read_n 2 load_le16.
Definition readI16LE : M BinaryStream Z := let* v := readU16LE in ret (to_i16 v).
Definition readU32LE : M BinaryStream Z := read_n 4 load_le32.
Definition readI32LE : M BinaryStream Z := let* v := readU32LE in ret (to_i32 v).
Definition readU64LE : M BinaryStream Z := read_n 8 load_le64.
Definition readI64LE : M BinaryStream Z := let* v := readU64LE in ret (to_i64 v).
Definition readFloatLE : M BinaryStream Z := readU32LE.
Definition readDoubleLE : M BinaryStream Z := readU64LE.

Definition varUIntTooBig : exn := BinaryStreamError "VarUInt too big".
Definition varULongTooBig : exn := BinaryStreamError "VarULong too big".

Definition readVarUInt : M BinaryStream Z :=
  varint_loop readU8 32 varUIntTooBig shifts32 0.
Definition readVarInt : M BinaryStream Z := let* v := readVarUInt in ret (to_i32 v).
Definition readVarULong : M BinaryStream Z :=
  varint_loop readU8 64 varULongTooBig shifts64 0.
Definition readVarLong : M BinaryStream Z := let* v := readVarULong in ret (to_i64 v).

Definition readString : M BinaryStream string :=
  let* len := readVarUInt in
  let* s := get_st in
  if len >? remaining s then
    raise (BinaryStreamError "string length exceeds remaining buffer")
  else if len =? 0 then ret ""%string
  else
    let* b := lift (vec_range (readableBuffer s) (offset_ s) (offset_ s + len)) in
    put_st (set_offset (offset_ s + len) s) ;;;
    ret (string_of_bytes b).

Definition readBytes (len : Z) : M BinaryStream bytes :=
  read_n len (fun data o => vec_range data o (o + len)).

(** ** Writes *)

Definition writeBytes (b : bytes) : M BinaryStream unit :=
  let* s := get_st in
  let target := writableBuffer s in
  put_st (set_data (data_ target ++ b) target).

Definition writeU8 (v : Z) : M BinaryStream unit := writeBytes [v].
Definition writeI8 (v : Z) : M BinaryStream unit := writeU8 (to_u8 v).
Definition writeU16LE (v : Z) : M BinaryStream unit := writeBytes (store_le16 v).
Definition writeI16LE (v : Z) : M BinaryStream unit := writeU16LE (to_u16 v).
Definition writeU32LE (v : Z) : M BinaryStream unit := writeBytes (store_le32 v).
Definition writeI32LE (v : Z) : M BinaryStream unit := writeU32LE (to_u32 v).
Definition writeU64LE (v : Z) : M BinaryStream unit := writeBytes (store_le64 v).
Definition writeI64LE (v : Z) : M BinaryStream unit := writeU64LE (to_u64 v).
Definition writeFloatLE (v : Z) : M BinaryStream unit := writeU32LE v.
Definition writeDoubleLE (v : Z) : M BinaryStream unit := writeU64LE v.

(** The loop of the two writers, one [writeU8] per group. *)
Fixpoint write_var_loop (fuel : nat) (w v : Z) : M BinaryStream unit :=
  match fuel with
  | O => ret tt
  | S fuel' =>
      if Z.land v ((Z.lnot 0x7f) mod 2 ^ w) =? 0 then writeU8 (to_u8 v)
      else
        writeU8 (to_u8 (Z.lor (Z.land v 0x7f) 0x80)) ;;;
        write_var_loop fuel' w (Z.shiftr v 7)
  end.

Definition writeVarUInt (v : Z) : M BinaryStream unit := write_var_loop 5 32 v.
Definition writeVarInt (v : Z) : M BinaryStream unit := writeVarUInt (to_u32 v).
Definition writeVarULong (v : Z) : M BinaryStream unit := write_var_loop 10 64 v.
Definition writeVarLong (v : Z) : M BinaryStream unit := writeVarULong (to_u64 v).

Definition writeString (str : string) : M BinaryStream unit :=
  let b := bytes_of_string str in
  if size b >? 2 ^ 32 - 1 then raise (BinaryStreamError "string too large")
  else writeVarUInt (to_u32 (size b)) ;;; writeBytes b.

(** ** The stream as a byte source *)

Definition valid (s : BinaryStream) : Prop := 0 <= offset_ s <= size (readableBuffer s).
Definition rest (s : BinaryStream) : bytes := drop (Z.to_nat (offset_ s)) (readableBuffer s).
Definition skip (k : Z) (s : BinaryStream) : BinaryStream := set_offset (offset_ s + k) s.

Lemma readable_skip k s : readableBuffer (skip k s) = readableBuffer s.
Proof. done. Qed.

(** A stream over [k ++ r] that has read [k]. *)
Lemma rest_after k r : rest (skip (size k) (from_data (k ++ r))) = r.
Proof.
  unfold rest, skip. cbn [set_offset offset_ from_data readableBuffer view_ data_].
  rewrite Z.add_0_l. unfold size. rewrite Nat2Z.id. by rewrite drop_app_length.
Qed.

Lemma remaining_rest s : valid s -> remaining s = size (rest s).
Proof.
  unfold valid, remaining, rest. intros Hs.
  rewrite Z.gtb_ltb. rewrite (proj2 (Z.ltb_ge _ _)) by lia.
  unfold size in *. rewrite length_drop. lia.
Qed.

Lemma rest_split s :
  valid s -> exists pre, readableBuffer s = pre ++ rest s /\ size pre = offset_ s.
Proof. intros Hs. by apply offset_rest_split. Qed.

(** A read of [n] bytes that has them succeeds; otherwise it throws and the
    stream is unchanged. *)
Lemma read_n_ok {A} n (load : bytes -> Z -> result A) s k r a :
  valid s -> rest s = k ++ r -> size k = n ->
  (stands_at (readableBuffer s) k (offset_ s) ->
   load (readableBuffer s) (offset_ s) = Ok a) ->
  read_n n load s = (Ok a, skip n s).
Proof.
  intros Hs Hr Hk Hload. unfold read_n, require, bind, get_st, raise, ret, lift, put_st.
  rewrite remaining_rest by done. rewrite Hr, size_app.
  pose proof (size_nonneg r).
  rewrite (proj2 (Z.ltb_ge _ _)) by lia.
  rewrite Hload; [done|].
  destruct (rest_split s Hs) as (pre & Hd & Hp). rewrite Hr in Hd.
  by exists pre, r.
Qed.

Lemma read_n_short {A} n (load : bytes -> Z -> result A) s :
  valid s -> size (rest s) < n -> read_n n load s = (Throw notEnough, s).
Proof.
  intros Hs Hn. unfold read_n, require, bind, get_st, raise, ret.
  rewrite remaining_rest by done. by rewrite (proj2 (Z.ltb_lt _ _)) by lia.
Qed.

Lemma stands_at_hd data b k o : stands_at data (b :: k) o -> vec_at data o = Ok b.
Proof. intros (pre & post & -> & <-). apply vec_at_app. Qed.

Lemma stands_at_range data k o :
  stands_at data k o -> vec_range data o (o + size k) = Ok k.
Proof. intros (pre & post & -> & <-). by apply vec_range_app. Qed.

#[export] Instance stream_source : ByteSource readU8 valid rest skip notEnough.
Proof.
  split.
  - intros [d v o]. unfold skip, set_offset. cbn. f_equal. lia.
  - intros [d v o] m n. unfold skip, set_offset. cbn. f_equal. lia.
  - intros s b l Hs Hr.
    destruct (rest_split s Hs) as (pre & Hd & Hp).
    assert (valid (skip 1 s)) as Hv.
    { unfold valid. rewrite readable_skip, Hd, Hr, size_app, size_cons.
      unfold valid in Hs. cbn. pose proof (size_nonneg l). lia. }
    split_and!; [|done|].
    + eapply (read_n_ok 1 vec_at s [b] l); [done|done|done|].
      apply stands_at_hd.
    + unfold rest in *. rewrite readable_skip. unfold skip, set_offset. cbn.
      unfold valid in Hs.
      replace (Z.to_nat (offset_ s + 1)) with (Z.to_nat (offset_ s) + 1)%nat by lia.
      by rewrite <-drop_drop, Hr.
  - intros s Hs Hr. apply read_n_short; [done|]. rewrite Hr, size_nil. lia.
Qed.

Abbreviation reads := (consumes valid rest skip).

Section Reads.

Lemma reads_U8 b : reads readU8 [b] b.
Proof. intros s r Hs _ Hr. by destruct (fetch_some s b r Hs Hr). Qed.

Lemma reads_n {A} n (load : bytes -> Z -> result A) k a :
  size k = n ->
  (forall data o, is_bytes k -> stands_at data k o -> load data o = Ok a) ->
  reads (read_n n load) k a.
Proof.
  intros Hk Hl s r Hs Hb Hr. subst n. eapply read_n_ok; [done..|].
  intros Hst. apply Hl; [|done]. rewrite Hr in Hb. by apply Forall_app in Hb as [? _].
Qed.

Lemma reads_le (n : nat) (load : bytes -> Z -> result Z) v :
  (forall data o k, is_bytes k -> stands_at data k o -> size k = Z.of_nat n ->
    load data o = Ok (le_decode k)) ->
  is_u (8 * Z.of_nat n) v -> reads (read_n (Z.of_nat n) load) (le_encode n v) v.
Proof.
  intros Hload Hv. apply reads_n; [apply le_encode_size|].
  intros data o Hb Hst. rewrite (Hload data o _ Hb Hst (le_encode_size _ _)).
  rewrite le_decode_encode. by rewrite Z.mod_small.
Qed.

Lemma reads_U16LE v : is_u 16 v -> reads readU16LE (le_encode 2 v) v.
Proof. apply (reads_le 2). intros. by apply load_le16_ok. Qed.
Lemma reads_U32LE v : is_u 32 v -> reads readU32LE (le_encode 4 v) v.
Proof. apply (reads_le 4). intros. by apply load_le32_ok. Qed.
Lemma reads_U64LE v : is_u 64 v -> reads readU64LE (le_encode 8 v) v.
Proof. apply (reads_le 8). intros. by apply load_le64_ok. Qed.

(** Signed reads: the two's complement bytes of [v] read back as [v]. *)
Lemma reads_signed w (m : M BinaryStream Z) k v :
  0 < w -> is_s w v -> reads m k (v mod 2 ^ w) ->
  reads (let* u := m in ret (to_signed w u)) k v.
Proof.
  intros Hw Hv Hm. pose proof (consumes_bind_ret m (to_signed w) k _ Hm) as H.
  by rewrite to_signed_mod in H.
Qed.

Lemma reads_I8 v : is_s 8 v -> reads readI8 [to_u8 v] v.
Proof. intros. apply reads_signed; [lia|done|apply reads_U8]. Qed.
Lemma reads_I16LE v : is_s 16 v -> reads readI16LE (le_encode 2 (to_u16 v)) v.
Proof.
  intros. apply reads_signed; [lia|done|]. apply reads_U16LE. by apply to_u_range.
Qed.
Lemma reads_I32LE v : is_s 32 v -> reads readI32LE (le_encode 4 (to_u32 v)) v.
Proof.
  intros. apply reads_signed; [lia|done|]. apply reads_U32LE. by apply to_u_range.
Qed.
Lemma reads_I64LE v : is_s 64 v -> reads readI64LE (le_encode 8 (to_u64 v)) v.
Proof.
  intros. apply reads_signed; [lia|done|]. apply reads_U64LE. by apply to_u_range.
Qed.

Lemma reads_VarUInt v : is_u 32 v -> reads readVarUInt (leb_encode 5 v) v.
Proof. apply consumes_varint_32. Qed.
Lemma reads_VarULong v : is_u 64 v -> reads readVarULong (leb_encode 10 v) v.
Proof. apply consumes_varint_64. Qed.

Lemma reads_bytes k : reads (readBytes (size k)) k k.
Proof. apply reads_n; [done|]. intros data o _. apply stands_at_range. Qed.

Lemma reads_string str :
  is_u 32 (size (bytes_of_string str)) ->
  reads readString
    (leb_encode 5 (size (bytes_of_string str)) ++ bytes_of_string str) str.
Proof.
  intros Hsz. eapply consumes_bind; [by apply reads_VarUInt|].
  intros s r Hs _ Hr. set (b := bytes_of_string str) in *.
  unfold bind, get_st, lift, put_st, ret, raise.
  rewrite remaining_rest, Hr, size_app by done. pose proof (size_nonneg r).
  rewrite Z.gtb_ltb. rewrite (proj2 (Z.ltb_ge _ _)) by lia.
  destruct (Z.eqb_spec (size b) 0) as [E|E].
  - assert (str = ""%string) as Estr.
    { rewrite <-(string_bytes_string str). fold b. by rewrite (size_zero_inv _ E). }
    rewrite E, Estr. by rewrite (skip_zero s).
  - destruct (rest_split s Hs) as (pre & Hd & Hp). rewrite Hr in Hd.
    rewrite (stands_at_range _ b); [|by exists pre, r].
    unfold b. by rewrite string_bytes_string.
Qed.

End Reads.

(** ** Writes append *)

Definition append (k : bytes) (s : BinaryStream) : BinaryStream :=
  set_data (data_ (writableBuffer s) ++ k) (writableBuffer s).

Definition appends {A} (m : M BinaryStream A) (k : bytes) (a : A) : Prop :=
  forall s, m s = (Ok a, append k s).

Lemma append_append k1 k2 s : append k2 (append k1 s) = append (k1 ++ k2) s.
Proof.
  destruct s as [d [v|] o]; unfold append, set_data; cbn; by rewrite app_assoc.
Qed.

Lemma readable_append k s : readableBuffer (append k s) = readableBuffer s ++ k.
Proof. by destruct s as [d [v|] o]. Qed.

Lemma appends_bind {A B} (m : M BinaryStream A) (f : A -> M BinaryStream B) k1 k2 a b :
  appends m k1 a -> appends (f a) k2 b -> appends (bind m f) (k1 ++ k2) b.
Proof.
  intros H1 H2 s. rewrite (bind_ok _ _ _ _ _ (H1 s)), (H2 _).
  by rewrite append_append.
Qed.

Lemma appends_bytes k : appends (writeBytes k) k tt.
Proof. done. Qed.
Lemma appends_U8 v : appends (writeU8 v) [v] tt.
Proof. done. Qed.
Lemma appends_U16LE v : appends (writeU16LE v) (le_encode 2 v) tt.
Proof. rewrite <-store_le16_encode. done. Qed.
Lemma appends_U32LE v : appends (writeU32LE v) (le_encode 4 v) tt.
Proof. rewrite <-store_le32_encode. done. Qed.
Lemma appends_U64LE v : appends (writeU64LE v) (le_encode 8 v) tt.
Proof. rewrite <-store_le64_encode. done. Qed.

Lemma appends_var_loop n w v :
  7 <= w -> 0 <= v < 2 ^ w -> 0 <= v < 2 ^ (7 * Z.of_nat (S n)) ->
  appends (write_var_loop (S n) w v) (leb_encode (S n) v) tt.
Proof.
  intros Hw. revert v. induction n as [|n IH]; intros v Hvw Hv.
  - change (2 ^ (7 * Z.of_nat 1)) with 128 in Hv. cbn [write_var_loop leb_encode].
    rewrite land_not_127 by done. rewrite (proj2 (Z.ltb_lt _ _)) by lia.
    rewrite to_u8_id; [done|]. unfold is_u. change (2 ^ 8) with 256. lia.
  - rewrite pow2_7S in Hv. remember (S n) as m eqn:Em.
    cbn [write_var_loop leb_encode]. rewrite land_not_127 by done.
    destruct (Z.ltb_spec v 128).
    + rewrite to_u8_id; [done|]. unfold is_u. change (2 ^ 8) with 256. lia.
    + rewrite land_127, shiftr_div by lia. change (2 ^ 7) with 128.
      rewrite leb_group, to_u8_group by lia.
      pose proof (Z.div_lt v 128 ltac:(lia) ltac:(lia)).
      assert (1 <= v / 128) by (apply Z.div_le_lower_bound; lia).
      apply (appends_bind _ _ [_] _ tt tt); [done|].
      apply IH; [lia|]. split; [lia|]. apply Z.div_lt_upper_bound; lia.
Qed.

Lemma appends_VarUInt v : is_u 32 v -> appends (writeVarUInt v) (leb_encode 5 v) tt.
Proof. intros. apply appends_var_loop; [lia|done|by apply u32_fits_5]. Qed.
Lemma appends_VarULong v : is_u 64 v -> appends (writeVarULong v) (leb_encode 10 v) tt.
Proof. intros. apply appends_var_loop; [lia|done|by apply u64_fits_10]. Qed.

Lemma appends_string str :
  is_u 32 (size (bytes_of_string str)) ->
  appends (writeString str)
    (leb_encode 5 (size (bytes_of_string str)) ++ bytes_of_string str) tt.
Proof.
  intros Hsz s. unfold writeString. unfold is_u in Hsz.
  rewrite Z.gtb_ltb, (proj2 (Z.ltb_ge _ _)) by lia.
  rewrite to_u32_id by done.
  apply (appends_bind _ _ _ _ tt tt); [by apply appends_VarUInt|done].
Qed.

(** The same for a stream that owns its buffer, where a computation that
    writes nothing changes nothing. *)
Definition oappends {A} (m : M BinaryStream A) (k : bytes) (a : A) : Prop :=
  forall s, view_ s = None -> m s = (Ok a, append k s).

Lemma append_owned k s : view_ s = None -> view_ (append k s) = None.
Proof. by destruct s as [d [v|] o]. Qed.

Lemma append_nil s : view_ s = None -> append [] s = s.
Proof. destruct s as [d [v|] o]; [done|]. intros _. unfold append, set_data. cbn. by rewrite app_nil_r. Qed.

Lemma oappends_appends {A} (m : M BinaryStream A) k a : appends m k a -> oappends m k a.
Proof. intros H s _. apply H. Qed.

Lemma oappends_bind {A B} (m : M BinaryStream A) (f : A -> M BinaryStream B) k1 k2 a b :
  oappends m k1 a -> oappends (f a) k2 b -> oappends (bind m f) (k1 ++ k2) b.
Proof.
  intros H1 H2 s Hs. rewrite (bind_ok _ _ _ _ _ (H1 s Hs)), H2 by by apply append_owned.
  by rewrite append_append.
Qed.

Lemma oappends_ret {A} (a : A) : oappends (ret a) [] a.
Proof. intros s Hs. by rewrite append_nil. Qed.

Lemma oappends_for_each {A} (l : list A) (body : A -> M BinaryStream unit) (enc : A -> bytes) :
  (forall x, x ∈ l -> oappends (body x) (enc x) tt) -> oappends (for_each l body) (l ≫= enc) tt.
Proof.
  induction l as [|x l IH]; intros H; [apply oappends_ret|]. rewrite bind_cons. cbn [for_each].
  eapply oappends_bind; [apply H; by left|]. apply IH. intros y Hy. apply H. by right.
Qed.

(** ** Reads of arbitrary input

    [steps n m]: on a valid stream, [m] never leaves the buffer, does not
    touch the buffer's contents, and only moves forward: by at least [n] bytes
    if it returns.  It throws only the program's exceptions. *)
Definition advances (n : Z) (s s' : BinaryStream) : Prop :=
  readableBuffer s' = readableBuffer s /\ offset_ s + n <= offset_ s' /\ valid s'.

Definition steps {A} (n : Z) (m : M BinaryStream A) : Prop :=
  forall s, valid s ->
  match m s with
  | (Ok _, s') => advances n s s'
  | (Throw e, s') => is_stuck e = false /\ advances 0 s s'
  end.

Lemma advances_refl s : valid s -> advances 0 s s.
Proof. intros Hs. split_and!; [done|lia|done]. Qed.

Lemma advances_trans m n s s' s'' :
  advances m s s' -> advances n s' s'' -> advances (m + n) s s''.
Proof. intros (E1 & ? & ?) (E2 & ? & ?). split_and!; [congruence|lia|done]. Qed.

Lemma advances_weaken m n s s' : n <= m -> advances m s s' -> advances n s s'.
Proof. intros ? (? & ? & ?). split_and!; [done|lia|done]. Qed.

Lemma steps_bind {A B} m n (f : M BinaryStream A) (k : A -> M BinaryStream B) :
  0 <= m -> steps m f -> (forall a, steps n (k a)) -> steps (m + n) (bind f k).
Proof.
  intros Hm Hf Hk s Hs. specialize (Hf s Hs). unfold bind.
  destruct (f s) as [[a|e] s']; [|done].
  pose proof Hf as (_ & _ & Hs'). specialize (Hk a s' Hs').
  destruct (k a s') as [[b|e] s'']; [by eapply advances_trans|].
  destruct Hk as [He Hk]. split; [done|].
  apply (advances_weaken (m + 0)); [lia|]. by eapply advances_trans.
Qed.

Lemma steps_weaken {A} m n (f : M BinaryStream A) : n <= m -> steps m f -> steps n f.
Proof.
  intros Hn Hf s Hs. specialize (Hf s Hs).
  destruct (f s) as [[a|e] s']; [by eapply advances_weaken|done].
Qed.

Lemma steps_ret {A} (a : A) : steps 0 (ret a).
Proof. intros s Hs. by apply advances_refl. Qed.

Lemma steps_raise {A} n e : is_stuck e = false -> steps n (raise e : M BinaryStream A).
Proof. intros He s Hs. split; [done|]. by apply advances_refl. Qed.

Lemma steps_get {A} n (k : BinaryStream -> M BinaryStream A) :
  (forall s, valid s -> match k s s with
    | (Ok _, s') => advances n s s'
    | (Throw e, s') => is_stuck e = false /\ advances 0 s s'
    end) -> steps n (let* s := get_st in k s).
Proof. intros Hk s Hs. by apply Hk. Qed.

Lemma steps_read_n {A} n (load : bytes -> Z -> result A) :
  0 <= n ->
  (forall data o, 0 <= o -> o + n <= size data -> exists a, load data o = Ok a) ->
  steps n (read_n n load).
Proof.
  intros Hn Hl s Hs. unfold read_n, require, bind, get_st, raise, ret, lift, put_st.
  rewrite remaining_rest by done. unfold valid in Hs.
  assert (size (rest s) = size (readableBuffer s) - offset_ s) as Hr.
  { unfold rest, size in *. rewrite length_drop. lia. }
  destruct (Z.ltb_spec (size (rest s)) n); [split; [done|by apply advances_refl]|].
  destruct (Hl (readableBuffer s) (offset_ s)) as (a & ->); [lia|lia|].
  split_and!; [done|cbn; lia|]. unfold valid, set_offset. cbn.
  change (readableBuffer _) with (readableBuffer s). lia.
Qed.

Ltac vec_at_all :=
  repeat match goal with
  | |- context [vec_at ?d ?o] =>
      let b := fresh "b" in
      destruct (vec_at_ok d o) as (b & -> & _); [lia|]; cbn [rbind]
  end.

Lemma steps_readU8 : steps 1 readU8.
Proof. apply steps_read_n; [lia|]. intros. vec_at_all. eauto. Qed.
Lemma steps_readI8 : steps 1 readI8.
Proof. apply (steps_bind 1 0); [lia|apply steps_readU8|intros; apply steps_ret]. Qed.
Lemma steps_readU16LE : steps 2 readU16LE.
Proof. apply steps_read_n; [lia|]. intros. unfold load_le16. vec_at_all. eauto. Qed.
Lemma steps_readI16LE : steps 2 readI16LE.
Proof. apply (steps_bind 2 0); [lia|apply steps_readU16LE|intros; apply steps_ret]. Qed.
Lemma steps_readU32LE : steps 4 readU32LE.
Proof. apply steps_read_n; [lia|]. intros. unfold load_le32. vec_at_all. eauto. Qed.
Lemma steps_readI32LE : steps 4 readI32LE.
Proof. apply (steps_bind 4 0); [lia|apply steps_readU32LE|intros; apply steps_ret]. Qed.
Lemma steps_readU64LE : steps 8 readU64LE.
Proof.
  apply steps_read_n; [lia|]. intros. unfold load_le64. cbn [load_le64_loop].
  vec_at_all. eauto.
Qed.
Lemma steps_readI64LE : steps 8 readI64LE.
Proof. apply (steps_bind 8 0); [lia|apply steps_readU64LE|intros; apply steps_ret]. Qed.

Lemma steps_varint w tooBig shifts v :
  is_stuck tooBig = false -> steps 0 (varint_loop readU8 w tooBig shifts v).
Proof.
  intros Ht. revert v. induction shifts as [|sh shifts IH]; intros v; [by apply steps_raise|].
  cbn [varint_loop]. apply (steps_weaken (1 + 0)); [lia|].
  apply steps_bind; [lia|apply steps_readU8|]. intros b.
  destruct (_ =? 0); [apply steps_ret|apply IH].
Qed.

Lemma steps_readVarUInt : steps 0 readVarUInt.
Proof. by apply steps_varint. Qed.
Lemma steps_readVarULong : steps 0 readVarULong.
Proof. by apply steps_varint. Qed.
Lemma steps_readVarInt : steps 0 readVarInt.
Proof. apply (steps_bind 0 0); [lia|apply steps_readVarUInt|intros; apply steps_ret]. Qed.
Lemma steps_readVarLong : steps 0 readVarLong.
Proof. apply (steps_bind 0 0); [lia|apply steps_readVarULong|intros; apply steps_ret]. Qed.

(** A varint takes at least one byte. *)
Lemma steps_readVarUInt1 : steps 1 readVarUInt.
Proof.
  unfold readVarUInt. change shifts32 with (0 :: [7; 14; 21; 28]).
  generalize [7; 14; 21; 28] as l. intros l. cbn [varint_loop].
  apply (steps_bind 1 0); [lia|apply steps_readU8|]. intros b.
  destruct (_ =? 0); [apply steps_ret|by apply (steps_varint 32)].
Qed.

Lemma steps_readBytes n : 0 <= n -> steps n (readBytes n).
Proof.
  intros Hn. apply steps_read_n; [done|]. intros data o Ho Hs.
  rewrite vec_range_ok by lia. eauto.
Qed.

(** A varint read from any stream is not negative. *)
Lemma varint_nonneg {S} (fetch : M S Z) w tooBig shifts v s n s' :
  0 <= v -> 0 <= w ->
  varint_loop fetch w tooBig shifts v s = (Ok n, s') -> 0 <= n.
Proof.
  intros Hv Hw. revert v s Hv. induction shifts as [|sh shifts IH]; intros v s Hv E; [done|].
  cbn [varint_loop] in E. minv E.
  assert (0 <= Z.lor v (Z.shiftl (Z.land x 127) sh mod 2 ^ w)) as Hlor.
  { apply Z.lor_nonneg. split; [done|]. apply Z.mod_pos_bound. by apply pow2_pos. }
  destruct (_ =? 0); [|by eapply IH]. injection H0 as <- <-. done.
Qed.

Lemma steps_readString : steps 0 readString.
Proof.
  intros s Hs. unfold readString. pose proof (steps_readVarUInt s Hs) as H.
  unfold bind at 1. destruct (readVarUInt s) as [[n|e] s'] eqn:E; [|done].
  apply varint_nonneg in E; [|lia|lia]. destruct H as (Hb & Ho & Hs').
  unfold bind, get_st, raise, ret, lift, put_st.
  rewrite remaining_rest by done. unfold valid in Hs'.
  assert (size (rest s') = size (readableBuffer s') - offset_ s') as Hr.
  { unfold rest, size in *. rewrite length_drop. lia. }
  destruct (Z.gtb_spec n (size (rest s'))); [split_and!; by (done || lia)|].
  destruct (Z.eqb_spec n 0); [split_and!; by (done || lia)|].
  rewrite vec_range_ok by lia. unfold advances, valid, set_offset. cbn.
  change (readableBuffer (mkBinaryStream _ _ _)) with (readableBuffer s').
  split_and!; (done || lia).
Qed.

Create HintDb steps.
#[export] Hint Resolve steps_readU8 steps_readI8 steps_readU16LE steps_readI16LE
  steps_readU32LE steps_readI32LE steps_readU64LE steps_readI64LE steps_readVarUInt
  steps_readVarInt steps_readVarULong steps_readVarLong steps_readString : steps.

(** ** Properties *)

(** Every read of a [BinaryStream], on any buffer contents, stays inside
    the buffer, leaves the bytes alone and only moves the offset forward,
    whether it returns or throws. *)
Theorem stream_reads_step n :
  0 <= n ->
  steps 1 readU8 /\ steps 1 readI8 /\ steps 2 readU16LE /\ steps 2 readI16LE /\
  steps 4 readU32LE /\ steps 4 readI32LE /\ steps 8 readU64LE /\ steps 8 readI64LE /\
  steps 4 readFloatLE /\ steps 8 readDoubleLE /\ steps 0 readVarUInt /\ steps 0 readVarInt /\
  steps 0 readVarULong /\ steps 0 readVarLong /\ steps 0 readString /\ steps n (readBytes n).
Proof. intros. split_and!; auto using steps_readBytes with steps; apply steps_readU32LE || apply steps_readU64LE. Qed.

Lemma stream_reads_step_witness : steps 3 (readBytes 3).
Proof. apply (stream_reads_step 3). lia. Defined.

(** The varint readers are the LEB128 decoder on the bytes that are left,
    for every input: same value modulo the word size, same number of bytes
    consumed, an exception exactly when the input ends early or five (ten)
    groups all continue. *)
Theorem stream_varint_decodes s :
  valid s -> is_bytes (rest s) ->
  readVarUInt s = leb_outcome 32 skip notEnough varUIntTooBig (leb_decode 5 (rest s)) s /\
  readVarULong s = leb_outcome 64 skip notEnough varULongTooBig (leb_decode 10 (rest s)) s.
Proof.
  intros Hs Hb. split.
  - exact (varint_loop_32 varUIntTooBig s Hs Hb).
  - exact (varint_loop_64 varULongTooBig s Hs Hb).
Qed.

Lemma stream_varint_decodes_witness :
  readVarUInt (from_data [255; 255; 255; 255; 127; 9]) =
    (Ok (2 ^ 32 - 1), mkBinaryStream [255; 255; 255; 255; 127; 9] None 5).
Proof.
  refine (eq_trans (proj1 (stream_varint_decodes
    (from_data [255; 255; 255; 255; 127; 9]) _ _)) _).
  - by split.
  - by apply (bool_decide_unpack _).
  - by vm_compute.
Defined.

(** The values of a message, in the order they are written. *)
Inductive item : Type :=
| IU8 (v : Z) | IU16 (v : Z) | IU32 (v : Z) | IU64 (v : Z)
| II8 (v : Z) | II16 (v : Z) | II32 (v : Z) | II64 (v : Z)
| IVarUInt (v : Z) | IVarInt (v : Z) | IVarULong (v : Z) | IVarLong (v : Z)
| IString (s : string) | IBytes (b : bytes).

Definition item_ok (i : item) : Prop :=
  match i with
  | IU8 v => is_u 8 v | IU16 v => is_u 16 v | IU32 v => is_u 32 v | IU64 v => is_u 64 v
  | II8 v => is_s 8 v | II16 v => is_s 16 v | II32 v => is_s 32 v | II64 v => is_s 64 v
  | IVarUInt v => is_u 32 v | IVarInt v => is_s 32 v
  | IVarULong v => is_u 64 v | IVarLong v => is_s 64 v
  | IString s => is_u 32 (size (bytes_of_string s))
  | IBytes b => is_bytes b
  end.

#[export] Instance item_ok_dec i : Decision (item_ok i).
Proof. destruct i; simpl; apply _. Defined.

Definition write_item (i : item) : M BinaryStream unit :=
  match i with
  | IU8 v => writeU8 v | IU16 v => writeU16LE v | IU32 v => writeU32LE v | IU64 v => writeU64LE v
  | II8 v => writeI8 v | II16 v => writeI16LE v | II32 v => writeI32LE v | II64 v => writeI64LE v
  | IVarUInt v => writeVarUInt v | IVarInt v => writeVarInt v
  | IVarULong v => writeVarULong v | IVarLong v => writeVarLong v
  | IString s => writeString s | IBytes b => writeBytes b
  end.

(** Reads an item of the same kind (and, for raw bytes, the same length). *)
Definition read_item (i : item) : M BinaryStream item :=
  match i with
  | IU8 _ => let* v := readU8 in ret (IU8 v)
  | IU16 _ => let* v := readU16LE in ret (IU16 v)
  | IU32 _ => let* v := readU32LE in ret (IU32 v)
  | IU64 _ => let* v := readU64LE in ret (IU64 v)
  | II8 _ => let* v := readI8 in ret (II8 v)
  | II16 _ => let* v := readI16LE in ret (II16 v)
  | II32 _ => let* v := readI32LE in ret (II32 v)
  | II64 _ => let* v := readI64LE in ret (II64 v)
  | IVarUInt _ => let* v := readVarUInt in ret (IVarUInt v)
  | IVarInt _ => let* v := readVarInt in ret (IVarInt v)
  | IVarULong _ => let* v := readVarULong in ret (IVarULong v)
  | IVarLong _ => let* v := readVarLong in ret (IVarLong v)
  | IString _ => let* s := readString in ret (IString s)
  | IBytes b => let* b := readBytes (size b) in ret (IBytes b)
  end.

Fixpoint write_items (items : list item) : M BinaryStream unit :=
  match items with [] => ret tt | i :: items' => write_item i ;;; write_items items' end.

Fixpoint read_items (items : list item) : M BinaryStream (list item) :=
  match items with
  | [] => ret []
  | i :: items' => let* j := read_item i in let* js := read_items items' in ret (j :: js)
  end.

Definition item_bytes (i : item) : bytes :=
  match i with
  | IU8 v => [v] | IU16 v => le_encode 2 v | IU32 v => le_encode 4 v | IU64 v => le_encode 8 v
  | II8 v => [to_u8 v] | II16 v => le_encode 2 (to_u16 v)
  | II32 v => le_encode 4 (to_u32 v) | II64 v => le_encode 8 (to_u64 v)
  | IVarUInt v => leb_encode 5 v | IVarInt v => leb_encode 5 (to_u32 v)
  | IVarULong v => leb_encode 10 v | IVarLong v => leb_encode 10 (to_u64 v)
  | IString s => leb_encode 5 (size (bytes_of_string s)) ++ bytes_of_string s
  | IBytes b => b
  end.

Lemma item_writes i : item_ok i -> appends (write_item i) (item_bytes i) tt.
Proof.
  destruct i; cbn [item_ok write_item item_bytes]; intros Hi.
  - apply appends_U8.
  - apply appends_U16LE.
  - apply appends_U32LE.
  - apply appends_U64LE.
  - apply appends_U8.
  - apply appends_U16LE.
  - apply appends_U32LE.
  - apply appends_U64LE.
  - by apply appends_VarUInt.
  - apply appends_VarUInt. by apply to_u_range.
  - by apply appends_VarULong.
  - apply appends_VarULong. by apply to_u_range.
  - by apply appends_string.
  - apply appends_bytes.
Qed.

Lemma item_reads i : item_ok i -> reads (read_item i) (item_bytes i) i.
Proof.
  destruct i; cbn [item_ok read_item item_bytes]; intros Hi.
  - apply (consumes_bind_ret _ IU8), reads_U8.
  - by apply (consumes_bind_ret _ IU16), reads_U16LE.
  - by apply (consumes_bind_ret _ IU32), reads_U32LE.
  - by apply (consumes_bind_ret _ IU64), reads_U64LE.
  - by apply (consumes_bind_ret _ II8), reads_I8.
  - by apply (consumes_bind_ret _ II16), reads_I16LE.
  - by apply (consumes_bind_ret _ II32), reads_I32LE.
  - by apply (consumes_bind_ret _ II64), reads_I64LE.
  - by apply (consumes_bind_ret _ IVarUInt), reads_VarUInt.
  - apply (consumes_bind_ret _ IVarInt), reads_signed; [lia|done|].
    apply reads_VarUInt. by apply to_u_range.
  - by apply (consumes_bind_ret _ IVarULong), reads_VarULong.
  - apply (consumes_bind_ret _ IVarLong), reads_signed; [lia|done|].
    apply reads_VarULong. by apply to_u_range.
  - by apply (consumes_bind_ret _ IString), reads_string.
  - apply (consumes_bind_ret _ IBytes), reads_bytes.
Qed.

Lemma item_bytes_ok i : item_ok i -> is_bytes (item_bytes i).
Proof.
  destruct i; cbn [item_ok item_bytes]; intros Hi;
    try apply le_encode_bytes; try done.
  all: try (constructor; [|constructor]; by (done || apply to_u_range)).
  all: try (apply leb_encode_bytes; by (apply Hi || apply to_u_range)).
  rewrite is_bytes_app. split; [apply leb_encode_bytes, Hi|apply bytes_of_string_bytes].
Qed.

Lemma items_write items s :
  Forall item_ok items -> view_ s = None ->
  write_items items s = (Ok tt, append (concat (map item_bytes items)) s).
Proof.
  intros Hi. revert s. induction Hi as [|i items Hi _ IH]; intros s Hs; cbn [write_items map concat].
  - destruct s as [d v o]. cbn in Hs. subst v. unfold append, set_data. cbn.
    by rewrite app_nil_r.
  - rewrite (bind_ok _ _ _ _ _ (item_writes i Hi s)), IH, append_append; [done|].
    destruct s as [d v o]. cbn in Hs. by subst v.
Qed.

Lemma items_read items :
  Forall item_ok items -> reads (read_items items) (concat (map item_bytes items)) items.
Proof.
  induction 1 as [|i items Hi _ IH]; cbn [read_items map concat]; [apply consumes_ret|].
  eapply consumes_bind; [by apply item_reads|].
  by apply (consumes_bind_ret _ (cons i)).
Qed.

Lemma items_bytes_ok items : Forall item_ok items -> is_bytes (concat (map item_bytes items)).
Proof.
  induction 1 as [|i items Hi _ IH]; cbn [map concat]; [constructor|].
  rewrite is_bytes_app. split; [by apply item_bytes_ok|done].
Qed.

(** Any sequence of values written to an empty stream is read back, in
    order, by the matching sequence of reads from its start, and the reads end
    exactly at the end of the buffer. *)
Theorem stream_roundtrip items :
  Forall item_ok items ->
  exists s, write_items items empty_stream = (Ok tt, s) /\ offset s = 0 /\
    exists s', read_items items s = (Ok items, s') /\ eof s' = true.
Proof.
  intros Hi. set (k := concat (map item_bytes items)).
  exists (append k empty_stream). split; [by apply items_write|]. split; [done|].
  exists (skip (size k) (append k empty_stream)). split.
  - apply (items_read items Hi _ []).
    + unfold valid, append, set_data. cbn. split; [lia|apply size_nonneg].
    + by apply items_bytes_ok.
    + by rewrite app_nil_r.
  - apply Z.geb_le. change (size k <= 0 + size k). lia.
Qed.

Definition items_example : list item :=
  [IVarInt (-5); IString "ab"; II64 (-(2 ^ 63)); IBytes [9; 8]; IVarULong (2 ^ 64 - 1)].

Lemma stream_roundtrip_witness :
  exists s, write_items items_example empty_stream = (Ok tt, s) /\ offset s = 0 /\
    exists s', read_items items_example s = (Ok items_example, s') /\ eof s' = true.
Proof. apply stream_roundtrip. by apply (bool_decide_unpack _). Defined.

(** ** Views

    Abstract specification of a stream: its contents and its position.  A
    stream that views a vector and one that owns a copy of it are the same
    abstract stream, and no operation tells them apart. *)
Definition owned (s : BinaryStream) : BinaryStream :=
  mkBinaryStream (readableBuffer s) None (offset_ s).

Definition transparent {A} (m : M BinaryStream A) : Prop :=
  forall s, fst (m s) = fst (m (owned s)) /\ owned (snd (m s)) = owned (snd (m (owned s))).

Lemma owned_idem s : owned (owned s) = owned s.
Proof. done. Qed.

Lemma transparent_bind {A B} (m : M BinaryStream A) (k : A -> M BinaryStream B) :
  transparent m -> (forall a, transparent (k a)) -> transparent (bind m k).
Proof.
  intros Hm Hk s. destruct (Hm s) as [H1 H2]. unfold bind.
  destruct (m s) as [r t], (m (owned s)) as [r' t']. cbn in H1, H2. subst r'.
  destruct r as [a|e]; [|done]. destruct (Hk a t) as [H3 H4], (Hk a t') as [H5 H6].
  rewrite H3, H5, H4, H6, H2. done.
Qed.

Lemma transparent_ret {A} (a : A) : transparent (ret a).
Proof. done. Qed.
Lemma transparent_raise {A} e : transparent (raise e : M BinaryStream A).
Proof. done. Qed.

Lemma transparent_read_n {A} n (load : bytes -> Z -> result A) : transparent (read_n n load).
Proof.
  intros s. unfold read_n, require, bind, get_st, raise, ret, lift, put_st, remaining.
  change (readableBuffer (owned s)) with (readableBuffer s).
  change (offset_ (owned s)) with (offset_ s).
  destruct (_ <? n); [done|]. by destruct (load _ _).
Qed.

Lemma transparent_varint w tooBig shifts v : transparent (varint_loop readU8 w tooBig shifts v).
Proof.
  revert v. induction shifts as [|sh shifts IH]; intros v; [apply transparent_raise|].
  cbn [varint_loop]. apply transparent_bind; [apply transparent_read_n|]. intros b.
  destruct (_ =? 0); [apply transparent_ret|apply IH].
Qed.

Lemma transparent_readString : transparent readString.
Proof.
  apply transparent_bind; [apply transparent_varint|]. intros n s.
  unfold bind, get_st, raise, ret, lift, put_st, remaining.
  change (readableBuffer (owned s)) with (readableBuffer s).
  change (offset_ (owned s)) with (offset_ s).
  destruct (n >? _); [done|]. destruct (n =? 0); [done|]. by destruct (vec_range _ _ _).
Qed.

Lemma transparent_writeBytes b : transparent (writeBytes b).
Proof. intros [d [v|] o]; done. Qed.

Lemma transparent_writeVar fuel w v : transparent (write_var_loop fuel w v).
Proof.
  revert v. induction fuel as [|fuel IH]; intros v; [apply transparent_ret|].
  cbn [write_var_loop]. destruct (_ =? 0); [apply transparent_writeBytes|].
  apply transparent_bind; [apply transparent_writeBytes|]. intros _. apply IH.
Qed.

Lemma transparent_writeString str : transparent (writeString str).
Proof.
  unfold writeString. destruct (_ >? _); [apply transparent_raise|].
  apply transparent_bind; [apply transparent_writeVar|]. intros _. apply transparent_writeBytes.
Qed.

Lemma transparent_read_item i : transparent (read_item i).
Proof.
  destruct i; (apply transparent_bind; [|intros; apply transparent_ret]).
  all: try apply transparent_read_n; try apply transparent_varint;
    try apply transparent_readString.
  all: apply transparent_bind; [|intros; apply transparent_ret].
  all: first [apply transparent_read_n | apply transparent_varint].
Qed.

Lemma transparent_write_item i : transparent (write_item i).
Proof.
  destruct i; first [apply transparent_writeBytes | apply transparent_writeVar
    | apply transparent_writeString].
Qed.

(** Refinement of views: starting from a view of a vector or from a copy
    of it, every sequence of writes and reads returns the same values and
    leaves the same contents and offset. *)
Theorem view_refines_copy ws rs data o s :
  view data o = Ok s ->
  let run := write_items ws ;;; read_items rs in
  let s' := mkBinaryStream data None o in
  fst (run s) = fst (run s') /\ owned (snd (run s)) = owned (snd (run s')).
Proof.
  intros Hv run s'. unfold view in Hv. destruct (o >? size data); [done|].
  injection Hv as <-.
  assert (transparent run) as Ht.
  { apply transparent_bind; [|intros _].
    - induction ws as [|i ws IH]; cbn [write_items]; [apply transparent_ret|].
      apply transparent_bind; [apply transparent_write_item|]. intros _. apply IH.
    - induction rs as [|i rs IH]; cbn [read_items]; [apply transparent_ret|].
      apply transparent_bind; [apply transparent_read_item|]. intros j.
      apply transparent_bind; [apply IH|]. intros js. apply transparent_ret. }
  exact (Ht (mkBinaryStream [] (Some data) o)).
Qed.

Lemma view_refines_copy_witness :
  let run := write_items [IU8 7] ;;; read_items [IU16 0; IU8 0] in
  let s := mkBinaryStream [] (Some [1; 2; 3]) 1 in
  let s' := mkBinaryStream [1; 2; 3] None 1 in
  fst (run s) = fst (run s') /\ owned (snd (run s)) = owned (snd (run s')).
Proof. exact (view_refines_copy [IU8 7] [IU16 0; IU8 0] [1; 2; 3] 1 _ eq_refl). Defined.
