(* ===== verification/StreamState.v ===== *)
(** * Objects read from a stream

    A member function that fills an object from a [BinaryStream&] runs on the
    pair of the object and the stream: an exception leaves both as far as they
    got.  [preads] is the rule-based account of a successful parse, [psafe] of
    a parse of arbitrary bytes. *)

From S2P Require Import Prelude MachineInt Leb128 Endian BinaryStream.

Section Pair.
Context {T : Type}.

Definition on_object {A} (m : M T A) : M (T * BinaryStream) A :=
  zoom fst (fun t p => (t, p.2)) m.
Definition on_stream {A} (m : M BinaryStream A) : M (T * BinaryStream) A :=
  zoom snd (fun s p => (p.1, s)) m.

(** Where [k] stands next, [m] takes the object [t] to [t'] and returns [a]. *)
Definition preads {A} (m : M (T * BinaryStream) A) (k : bytes) (t : T) (a : A) (t' : T) : Prop :=
  forall s r, valid s -> is_bytes (rest s) -> rest s = k ++ r ->
    m (t, s) = (Ok a, (t', skip (size k) s)).

Lemma preads_bind {A B} (m : M _ A) (f : A -> M _ B) k1 k2 t a t1 b t2 :
  preads m k1 t a t1 -> preads (f a) k2 t1 b t2 -> preads (bind m f) (k1 ++ k2) t b t2.
Proof.
  intros H1 H2 s r Hs Hb Hr. rewrite <-app_assoc in Hr.
  rewrite (bind_ok _ _ _ _ _ (H1 s _ Hs Hb Hr)).
  destruct (skip_rest (HS := stream_source) k1 s (k2 ++ r) Hs Hr) as [Hs' Hr'].
  rewrite (H2 _ r Hs'); [|rewrite Hr'|done].
  - rewrite size_app. by rewrite (skip_skip s).
  - rewrite Hr in Hb. by apply Forall_app in Hb as [_ Hb].
Qed.

Lemma preads_ret {A} (a : A) t : preads (ret a) [] t a t.
Proof. intros s r _ _ _. by rewrite size_nil, (skip_zero s). Qed.

Lemma preads_stream {A} (m : M _ A) k a t : reads m k a -> preads (on_stream m) k t a t.
Proof. intros H s r Hs Hb Hr. unfold on_stream, zoom. cbn [fst snd]. by rewrite (H s r Hs Hb Hr). Qed.

Lemma preads_object {A} (m : M T A) t a t' : m t = (Ok a, t') -> preads (on_object m) [] t a t'.
Proof.
  intros H s r _ _ _. unfold on_object, zoom. cbn [fst snd]. rewrite H.
  by rewrite size_nil, (skip_zero s).
Qed.

Lemma preads_lift {A} (r : result A) a t : r = Ok a -> preads (lift r) [] t a t.
Proof. intros -> s r' _ _ _. by rewrite size_nil, (skip_zero s). Qed.

(** A step that consumes nothing. *)
Lemma preads_bind0 {A B} (m : M _ A) (f : A -> M _ B) k t a t1 b t2 :
  preads m [] t a t1 -> preads (f a) k t1 b t2 -> preads (bind m f) k t b t2.
Proof. apply (preads_bind m f [] k). Qed.

(** The same, inside a program that is being run. *)
Lemma preads_next {A B} (m : M _ A) (f : A -> M _ B) k t a t1 s r :
  preads m k t a t1 -> valid s -> is_bytes (rest s) -> rest s = k ++ r ->
  exists s', bind m f (t, s) = f a (t1, s') /\ valid s' /\ is_bytes (rest s') /\ rest s' = r.
Proof.
  intros H Hs Hb Hr. rewrite (bind_ok _ _ _ _ _ (H s r Hs Hb Hr)). exists (skip (size k) s).
  destruct (skip_rest (HS := stream_source) k s r Hs Hr) as [Hs' Hr']. split_and!; [done|done| |done].
  rewrite Hr'. rewrite Hr in Hb. by apply Forall_app in Hb as [_ Hb].
Qed.

(** A parse of everything that is left. *)
Definition pends {A} (m : M (T * BinaryStream) A) (k : bytes) (t : T) (a : A) (t' : T) : Prop :=
  forall s, valid s -> is_bytes (rest s) -> rest s = k -> exists s', m (t, s) = (Ok a, (t', s')).

Lemma pends_bind {A B} (m : M _ A) (f : A -> M _ B) k1 k2 t a t1 b t2 :
  preads m k1 t a t1 -> pends (f a) k2 t1 b t2 -> pends (bind m f) (k1 ++ k2) t b t2.
Proof.
  intros H1 H2 s Hs Hb Hr. destruct (preads_next m f k1 t a t1 s k2 H1 Hs Hb Hr) as (s' & -> & Hs' & Hb' & Hr').
  by apply H2.
Qed.

(** Arbitrary input: from an object with [P], the parse throws an exception of
    the program or returns with [Q]; the stream stays valid and its bytes are
    not touched. *)
Definition psafe {A} (m : M (T * BinaryStream) A) (P : T -> Prop) (Q : A -> T -> Prop) : Prop :=
  forall t s, P t -> valid s -> is_bytes (readableBuffer s) ->
    runs_safe m (t, s) (fun a p => Q a p.1 /\ valid p.2 /\ readableBuffer p.2 = readableBuffer s).

Lemma psafe_bind {A B} (m : M _ A) (f : A -> M _ B) P R Q :
  psafe m P R -> (forall a, psafe (f a) (R a) Q) -> psafe (bind m f) P Q.
Proof.
  intros H1 H2 t s Ht Hs Hb. eapply runs_safe_bind; [by apply H1|].
  intros a [t1 s1] (HR & Hs1 & Hb1). cbn [fst snd] in *.
  eapply runs_safe_mono; [apply (H2 a); [done|done|by rewrite Hb1]|].
  intros b [t2 s2] (? & ? & Hb2). cbn [fst snd] in *. split_and!; [done..|congruence].
Qed.

Lemma psafe_ret {A} (a : A) (P : T -> Prop) (Q : A -> T -> Prop) :
  (forall t, P t -> Q a t) -> psafe (ret a) P Q.
Proof. intros H t s Ht Hs _. apply runs_safe_ret. cbn. auto. Qed.

Lemma psafe_raise {A} e P (Q : A -> T -> Prop) : is_stuck e = false -> psafe (raise e) P Q.
Proof. intros H t s _ _ _. done. Qed.

Lemma psafe_stream {A} (m : M _ A) n P (Q : A -> T -> Prop) :
  0 <= n -> steps n m ->
  (forall t s a s', P t -> valid s -> is_bytes (readableBuffer s) -> m s = (Ok a, s') -> Q a t) ->
  psafe (on_stream m) P Q.
Proof.
  intros Hn Hm HQ t s Ht Hs Hb. unfold runs_safe, on_stream, zoom. cbn [fst snd].
  specialize (Hm s Hs). destruct (m s) as [[a|e] s'] eqn:E; [|by destruct Hm].
  destruct Hm as (? & ? & ?). cbn [fst snd]. split_and!; [by eapply HQ|done..].
Qed.

Lemma psafe_object {A} (m : M T A) P (Q : A -> T -> Prop) :
  (forall t, P t -> runs_safe m t Q) -> psafe (on_object m) P Q.
Proof.
  intros H t s Ht Hs Hb. specialize (H t Ht). unfold runs_safe, on_object, zoom in *.
  cbn [fst snd]. by destruct (m t) as [[a|e] t'].
Qed.

Lemma psafe_lift {A} (r : result A) P (Q : A -> T -> Prop) :
  safe r -> (forall a t, r = Ok a -> P t -> Q a t) -> psafe (lift r) P Q.
Proof.
  intros Hr HQ t s Ht Hs _. unfold runs_safe, lift. destruct r as [a|e]; cbn; [auto|done].
Qed.

Lemma psafe_lift_bind {A B} (a : A) (f : A -> M _ B) P Q : psafe (f a) P Q -> psafe (bind (lift (Ok a)) f) P Q.
Proof. intros H. exact H. Qed.

(** Reading the object. *)
Definition get_object : M (T * BinaryStream) T := on_object get_st.

Lemma preads_get t : preads get_object [] t t t.
Proof. by apply preads_object. Qed.

Lemma psafe_get (P : T -> Prop) : psafe get_object P (fun a t => a = t /\ P t).
Proof. apply psafe_object. intros t Ht. by apply runs_safe_get. Qed.

Lemma psafe_weaken {A} (m : M _ A) (P P' : T -> Prop) (Q Q' : A -> T -> Prop) :
  psafe m P Q -> (forall t, P' t -> P t) -> (forall a t, Q a t -> Q' a t) -> psafe m P' Q'.
Proof.
  intros H HP HQ t s Ht Hs Hb. eapply runs_safe_mono; [apply H; auto|].
  intros a p (? & ?). auto.
Qed.

Lemma psafe_for_each {A} (l : list A) (body : A -> M _ unit) (J : list A -> T -> Prop) :
  (forall x l', psafe (body x) (J (x :: l')) (fun _ => J l')) ->
  psafe (for_each l body) (J l) (fun _ => J []).
Proof.
  intros H. induction l as [|x l IH]; [by apply psafe_ret|]. cbn [for_each].
  eapply psafe_bind; [apply H|]. by intros [].
Qed.

(** A loop that reads the encoding of its items, with an invariant indexed by
    the items that are left. *)
Lemma preads_for_each {A} (enc : A -> bytes) (body : A -> M (T * BinaryStream) unit)
    (I : list A -> T -> Prop) l t :
  (forall x l' t, I (x :: l') t -> exists t', preads (body x) (enc x) t tt t' /\ I l' t') ->
  I l t -> exists t', preads (for_each l body) (l ≫= enc) t tt t' /\ I [] t'.
Proof.
  intros Hb. revert t. induction l as [|x l IH]; intros t Ht; [exists t; split; [apply preads_ret|done]|].
  destruct (Hb x l t Ht) as (t1 & E1 & H1). destruct (IH t1 H1) as (t2 & E2 & H2).
  exists t2. split; [|done]. rewrite bind_cons. cbn [for_each]. by eapply preads_bind.
Qed.

(** [pmoves n m P Q]: as [psafe], and a parse that returns has read [n] bytes
    at least. *)
Definition pmoves {A} (n : Z) (m : M (T * BinaryStream) A) (P : T -> Prop) (Q : A -> T -> Prop) : Prop :=
  forall t s, P t -> valid s -> is_bytes (readableBuffer s) ->
    runs_safe m (t, s) (fun a p => Q a p.1 /\ advances n s p.2).

Lemma pmoves_psafe {A} n (m : M _ A) P Q : pmoves n m P Q -> psafe m P Q.
Proof.
  intros H t s Ht Hs Hb. eapply runs_safe_mono; [by apply H|].
  by intros a p (? & ? & _ & ?).
Qed.

Lemma pmoves_bind {A B} m n (f : M _ A) (k : A -> M _ B) P R Q :
  pmoves m f P R -> (forall a, pmoves n (k a) (R a) Q) -> pmoves (m + n) (bind f k) P Q.
Proof.
  intros H1 H2 t s Ht Hs Hb. eapply runs_safe_bind; [by apply H1|].
  intros a [t1 s1] (HR & Hadv). cbn [fst snd] in *. pose proof Hadv as (Hb1 & _ & Hs1).
  eapply runs_safe_mono; [apply (H2 a); [done|done|by rewrite Hb1]|].
  intros b [t2 s2] (? & ?). split; [done|]. by eapply advances_trans.
Qed.

Lemma pmoves_weaken {A} m n (f : M _ A) P Q : n <= m -> pmoves m f P Q -> pmoves n f P Q.
Proof.
  intros Hn H t s Ht Hs Hb. eapply runs_safe_mono; [by apply H|].
  intros a p (? & ?). split; [done|]. by eapply advances_weaken.
Qed.

Lemma pmoves_stream {A} (m : M _ A) n P (Q : A -> T -> Prop) :
  steps n m ->
  (forall t s a s', P t -> valid s -> is_bytes (readableBuffer s) -> m s = (Ok a, s') -> Q a t) ->
  pmoves n (on_stream m) P Q.
Proof.
  intros Hm HQ t s Ht Hs Hb. unfold runs_safe, on_stream, zoom. cbn [fst snd].
  specialize (Hm s Hs). destruct (m s) as [[a|e] s'] eqn:E; [|by destruct Hm].
  split; [by eapply HQ|done].
Qed.

Lemma pmoves_object {A} (m : M T A) P (Q : A -> T -> Prop) :
  (forall t, P t -> runs_safe m t Q) -> pmoves 0 (on_object m) P Q.
Proof.
  intros H t s Ht Hs Hb. specialize (H t Ht). unfold runs_safe, on_object, zoom in *.
  cbn [fst snd]. destruct (m t) as [[a|e] t']; [|done]. split; [done|by apply advances_refl].
Qed.

(** [for (i = 0; i < n; ++i) body;] where every turn reads: the bytes that are
    left bound the number of turns. *)
Fixpoint times_loop (fuel : nat) (n : Z) (body : M (T * BinaryStream) unit) : M (T * BinaryStream) unit :=
  if n <=? 0 then ret tt
  else match fuel with
       | O => raise OutOfFuel
       | S fuel' => body ;;; times_loop fuel' (n - 1) body
       end.

Definition read_times (n : Z) (body : M (T * BinaryStream) unit) : M (T * BinaryStream) unit :=
  fun p => times_loop (Z.to_nat (remaining p.2 + 1)) n body p.

(** A turn that reads leaves one turn less to go. *)
Lemma advances_fuel s s' fuel :
  valid s -> advances 1 s s' -> size (rest s) < Z.of_nat (S fuel) -> size (rest s') < Z.of_nat fuel.
Proof.
  intros Hs (Hr & Ho & Hv) Hf. unfold rest, valid, size in *. rewrite length_drop in *. rewrite Hr in *. lia.
Qed.

(** An invariant that counts the turns to go. *)
Lemma times_loop_counted body (P : Z -> T -> Prop) :
  (forall k, 0 < k -> pmoves 1 body (P k) (fun _ => P (k - 1))) -> forall fuel n t s,
  0 <= n -> P n t -> valid s -> is_bytes (readableBuffer s) -> size (rest s) < Z.of_nat fuel ->
  runs_safe (times_loop fuel n body) (t, s)
    (fun _ p => P 0 p.1 /\ valid p.2 /\ readableBuffer p.2 = readableBuffer s).
Proof.
  intros Hbody. induction fuel as [|fuel IH]; intros n t s Hn Ht Hs Hb Hf; cbn [times_loop].
  - pose proof (size_nonneg (rest s)). lia.
  - destruct (Z.leb_spec n 0); [assert (n = 0) as -> by lia; by apply runs_safe_ret|].
    eapply runs_safe_bind; [by apply (Hbody n)|]. cbv beta. intros [] [t1 s1] (Ht1 & Hadv). pose proof Hadv as (Hr & Ho & Hv1).
    cbn [fst snd] in *. eapply runs_safe_mono; [apply (IH (n - 1)); [lia|done|done|by rewrite Hr|]|].
    + by apply (advances_fuel s).
    + intros _ p (? & ? & ?). split_and!; congruence || done.
Qed.

Lemma read_times_counted n body (P : Z -> T -> Prop) :
  0 <= n -> (forall k, 0 < k -> pmoves 1 body (P k) (fun _ => P (k - 1))) ->
  psafe (read_times n body) (P n) (fun _ => P 0).
Proof.
  intros Hn Hbody t s Ht Hs Hb. unfold read_times, runs_safe. cbn [snd].
  apply (times_loop_counted body P Hbody); [done..|]. rewrite remaining_rest by done.
  pose proof (size_nonneg (rest s)). lia.
Qed.

Lemma read_times_psafe n body P : pmoves 1 body P (fun _ => P) -> psafe (read_times n body) P (fun _ => P).
Proof.
  intros Hbody. destruct (Z.le_gt_cases 0 n) as [Hn|Hn]; [by apply (read_times_counted n body (fun _ => P))|].
  intros t s Ht Hs Hb. unfold read_times, runs_safe. destruct (Z.to_nat _); cbn [times_loop];
    by rewrite (proj2 (Z.leb_le n 0)) by lia.
Qed.

(** Reading the items that [enc] encodes. *)
Lemma read_times_preads {A} (enc : A -> bytes) (step : T -> A -> T) body l : forall t,
  (forall x t, x ∈ l -> preads body (enc x) t tt (step t x) /\ 1 <= size (enc x)) ->
  preads (read_times (size l) body) (l ≫= enc) t tt (foldl step t l).
Proof.
  intros t Hx s r Hs Hb Hr. unfold read_times. cbn [snd].
  assert (size l <= size (l ≫= enc)) as Hlen.
  { clear -Hx t. induction l as [|x l IH]; [done|]. rewrite bind_cons, size_app, size_cons.
    destruct (Hx x t ltac:(by left)). rewrite Z.add_comm. apply Z.add_le_mono; [done|].
    apply IH. intros y u Hy. apply Hx. by right. }
  assert (size l <= Z.of_nat (Z.to_nat (remaining s + 1))) as Hf.
  { rewrite remaining_rest by done. rewrite Hr, size_app. pose proof (size_nonneg r).
    pose proof (size_nonneg (l ≫= enc)). lia. }
  clear Hlen. revert Hf. generalize (Z.to_nat (remaining s + 1)) as fuel. intros fuel Hf.
  revert l t Hx s r Hs Hb Hr Hf. induction fuel as [|fuel IH]; intros l t Hx s r Hs Hb Hr Hf.
  { pose proof (size_nonneg l). assert (l = []) as -> by (apply size_zero_inv; lia).
    cbn [times_loop size length Z.of_nat Z.leb Z.compare mbind list_bind foldl]. by rewrite size_nil, (skip_zero s). }
  destruct l as [|x l]; [cbn [times_loop size length Z.of_nat Z.leb Z.compare mbind list_bind foldl]; by rewrite size_nil, (skip_zero s)|].
  cbn [times_loop]. rewrite size_cons in *. pose proof (size_nonneg l).
  rewrite (proj2 (Z.leb_gt _ _)) by lia. replace (size l + 1 - 1) with (size l) by lia.
  rewrite bind_cons in *. destruct (Hx x t ltac:(by left)) as [Hbody _].
  rewrite <-app_assoc in Hr. rewrite (bind_ok _ _ _ _ _ (Hbody s _ Hs Hb Hr)).
  destruct (skip_rest (HS := stream_source) (enc x) s _ Hs Hr) as [Hs' Hr'].
  rewrite (IH l (step t x)) with (r := r); [|intros y u Hy; apply Hx; by right|done| |done|lia].
  - by rewrite size_app, (skip_skip s).
  - rewrite Hr'. rewrite Hr in Hb. by apply Forall_app in Hb as [_ Hb].
Qed.

(** [forwards n m]: when [m] returns, it has read [n] bytes at least; no claim
    about the exceptions.  A parse that is [psafe] and goes forwards is bounded
    by the bytes that are left. *)
Definition forwards {A} (n : Z) (m : M (T * BinaryStream) A) : Prop :=
  forall t s a t' s', valid s -> is_bytes (readableBuffer s) -> m (t, s) = (Ok a, (t', s')) ->
    advances n s s'.

Lemma forwards_pmoves {A} n (m : M _ A) P Q : psafe m P Q -> forwards n m -> pmoves n m P Q.
Proof.
  intros Hp Hf t s Ht Hs Hb. specialize (Hp t s Ht Hs Hb). unfold runs_safe in *.
  destruct (m (t, s)) as [[a|e] [t' s']] eqn:E; [|done]. destruct Hp as [HQ _].
  split; [done|]. by eapply Hf.
Qed.

Lemma forwards_bind {A B} m n (f : M _ A) (k : A -> M _ B) :
  forwards m f -> (forall a, forwards n (k a)) -> forwards (m + n) (bind f k).
Proof.
  intros Hf Hk t s b t' s' Hs Hb E. unfold bind in E. destruct (f (t, s)) as [[a|e] [t1 s1]] eqn:E1; [|done].
  pose proof (Hf _ _ _ _ _ Hs Hb E1) as H1. pose proof H1 as (Hb1 & _ & Hs1).
  eapply advances_trans; [exact H1|]. eapply Hk; [done|by rewrite Hb1|exact E].
Qed.

Lemma forwards_weaken {A} m n (f : M _ A) : n <= m -> forwards m f -> forwards n f.
Proof. intros Hn H t s a t' s' Hs Hb E. eapply advances_weaken; [exact Hn|by eapply H]. Qed.

(** The first part reads, whatever follows. *)
Lemma forwards_first {A B} n (f : M _ A) (k : A -> M _ B) :
  forwards n f -> (forall a, forwards 0 (k a)) -> forwards n (bind f k).
Proof. intros Hf Hk. rewrite <-(Z.add_0_r n). by apply forwards_bind. Qed.
Lemma forwards_then {A B} n (f : M _ A) (k : A -> M _ B) :
  forwards 0 f -> (forall a, forwards n (k a)) -> forwards n (bind f k).
Proof. apply forwards_bind. Qed.

Lemma forwards_ret {A} (a : A) : forwards 0 (ret a).
Proof. intros t s b t' s' Hs _ [= _ _ <-]. by apply advances_refl. Qed.
Lemma forwards_raise {A} n e : forwards n (raise e : M _ A).
Proof. by intros t s b t' s' _ _ E. Qed.
Lemma forwards_lift {A} (r : result A) : forwards 0 (lift r).
Proof. intros t s b t' s' Hs _ E. unfold lift in E. injection E as _ _ <-. by apply advances_refl. Qed.
Lemma forwards_object {A} (m : M T A) : forwards 0 (on_object m).
Proof.
  intros t s b t' s' Hs _ E. unfold on_object, zoom in E. cbn [fst snd] in E.
  destruct (m t). injection E as _ _ <-. by apply advances_refl.
Qed.
Lemma forwards_stream {A} n (m : M _ A) : steps n m -> forwards n (on_stream m).
Proof.
  intros H t s b t' s' Hs _ E. unfold on_stream, zoom in E. cbn [fst snd] in E.
  specialize (H s Hs). destruct (m s) as [r s1]. injection E as -> _ <-. exact H.
Qed.
Lemma forwards_stream0 {A} n (m : M _ A) : steps n m -> 0 <= n -> forwards 0 (on_stream m).
Proof. intros H Hn. eapply forwards_weaken; [exact Hn|by apply forwards_stream]. Qed.
Lemma forwards_for_each {A} (l : list A) (body : A -> M _ unit) :
  (forall x, forwards 0 (body x)) -> forwards 0 (for_each l body).
Proof.
  intros H. induction l as [|x l IH]; [apply forwards_ret|]. cbn [for_each].
  by apply forwards_first.
Qed.
Lemma forwards_catch_raise {A} n (m : M _ A) g : forwards n m -> forwards n (catch m (fun e => raise (g e))).
Proof.
  intros H t s a t' s' Hs Hb E. unfold catch in E. destruct (m (t, s)) as [[b|e] [t1 s1]] eqn:E1; [|by destruct (is_stuck e)].
  injection E as -> <- <-. by eapply H.
Qed.

End Pair.

Create HintDb forwards.
#[export] Hint Resolve forwards_ret forwards_raise forwards_lift forwards_object : forwards.
#[export] Hint Resolve forwards_for_each forwards_catch_raise : forwards.

(** Splits a parse into its steps; what is left are the reads. *)
Ltac forwards_tac :=
  repeat lazymatch goal with
  | |- forwards 0 (bind _ _) => apply forwards_first; [|intros ?]
  | |- forwards 0 (for_each _ _) => apply forwards_for_each; intros ?
  | |- forwards 0 (if ?b then _ else _) => destruct b
  | |- forwards 0 (match ?x with _ => _ end) => destruct x
  | |- forwards 0 (on_stream _) => first [solve [eauto with forwards] | eapply forwards_stream0; [solve [eauto with forwards]|lia]
      | match goal with |- context [if ?b then _ else _] => destruct b end]
  | |- forwards 0 (get_object) => apply forwards_object
  | |- forwards 0 _ => first [solve [eauto with forwards] | progress cbv zeta]
  end.

(** A member of the object reads from the stream. *)
Section Field.
Context {T U : Type} (get : T -> U) (set : U -> T -> T).

Definition on_field {A} (m : M (U * BinaryStream) A) : M (T * BinaryStream) A :=
  zoom (fun p => (get p.1, p.2)) (fun q p => (set q.1 p.1, q.2)) m.

Lemma preads_field {A} (m : M _ A) k t a u :
  preads m k (get t) a u -> preads (on_field m) k t a (set u t).
Proof. intros H s r Hs Hb Hr. unfold on_field, zoom. cbn [fst snd]. by rewrite (H s r Hs Hb Hr). Qed.

Lemma psafe_field {A} (m : M _ A) (P : T -> Prop) (Q : A -> T -> Prop) P' Q' :
  psafe m P' Q' -> (forall t, P t -> P' (get t)) -> (forall a u t, P t -> Q' a u -> Q a (set u t)) ->
  psafe (on_field m) P Q.
Proof.
  intros H HP HQ t s Ht Hs Hb. specialize (H (get t) s (HP t Ht) Hs Hb).
  unfold on_field, zoom, runs_safe in *. cbn [fst snd]. destruct (m (get t, s)) as [[a|e] [u s']]; [|done].
  destruct H as (? & ? & ?). cbn [fst snd] in *. split_and!; [by apply HQ|done..].
Qed.
End Field.

(** A local object filled from the stream: an exception loses it. *)
Section Local.
Context {T U : Type} (u : U) (m : M (U * BinaryStream) unit).

Definition on_local : M (T * BinaryStream) U :=
  fun p => match m (u, p.2) with
           | (Ok _, (u', s)) => (Ok u', (p.1, s))
           | (Throw e, (_, s)) => (Throw e, (p.1, s))
           end.

Lemma preads_local k t u' : preads m k u tt u' -> preads on_local k t u' t.
Proof. intros H s r Hs Hb Hr. unfold on_local. cbn [fst snd]. by rewrite (H s r Hs Hb Hr). Qed.

Lemma pmoves_local n (P : T -> Prop) (P' Q' : U -> Prop) :
  pmoves n m P' (fun _ => Q') -> P' u -> pmoves n on_local P (fun u' t => P t /\ Q' u').
Proof.
  intros H Hu t s Ht Hs Hb. specialize (H u s Hu Hs Hb). unfold on_local, runs_safe in *. cbn [fst snd].
  destruct (m (u, s)) as [[a|e] [u' s']]; [|done]. cbn [fst snd] in *. by destruct H.
Qed.

Lemma psafe_local (P : T -> Prop) (P' Q' : U -> Prop) :
  psafe m P' (fun _ => Q') -> P' u -> psafe on_local P (fun u' t => P t /\ Q' u').
Proof.
  intros H Hu t s Ht Hs Hb. specialize (H u s Hu Hs Hb). unfold on_local, runs_safe in *. cbn [fst snd].
  destruct (m (u, s)) as [[a|e] [u' s']]; [|done]. cbn [fst snd] in *. by destruct H as (? & ? & ?).
Qed.

Lemma forwards_local n : forwards n m -> forwards n on_local.
Proof.
  intros H t s a t' s' Hs Hb E. unfold on_local in E. cbn [fst snd] in E.
  destruct (m (u, s)) as [[[]|e] [u' s1]] eqn:Em; [|done]. injection E as _ _ <-. by eapply H.
Qed.
End Local.

(** A little-endian word read from bytes is a number of its width. *)
Lemma read_word_range n (load : bytes -> Z -> result Z) s v s' :
  0 <= n -> (forall data k o, is_bytes k -> stands_at data k o -> size k = n -> load data o = Ok (le_decode k)) ->
  valid s -> is_bytes (readableBuffer s) -> read_n n load s = (Ok v, s') -> is_u (8 * n) v.
Proof.
  intros Hn Hload Hs Hb E. destruct (decide (size (rest s) < n)) as [Hr|Hr]; [by rewrite read_n_short in E|].
  set (k := take (Z.to_nat n) (rest s)).
  assert (is_bytes k) as Hk by by apply Forall_take, Forall_drop.
  assert (size k = n) as Hsz by (unfold k, size in *; rewrite length_take; lia).
  rewrite (read_n_ok n load s k (drop (Z.to_nat n) (rest s)) (le_decode k)) in E;
    [|done|unfold k; by rewrite take_drop|done|intros Hst; by apply Hload].
  injection E as <- _. pose proof (le_decode_bound _ Hk) as Hd. unfold is_u. by rewrite Hsz in Hd.
Qed.

Lemma readU16LE_range s v s' :
  valid s -> is_bytes (readableBuffer s) -> readU16LE s = (Ok v, s') -> is_u 16 v.
Proof. apply (read_word_range 2); [lia|]. intros. by apply load_le16_ok. Qed.
Lemma readU32LE_range s v s' :
  valid s -> is_bytes (readableBuffer s) -> readU32LE s = (Ok v, s') -> is_u 32 v.
Proof. apply (read_word_range 4); [lia|]. intros. by apply load_le32_ok. Qed.
Lemma readU64LE_range s v s' :
  valid s -> is_bytes (readableBuffer s) -> readU64LE s = (Ok v, s') -> is_u 64 v.
Proof. apply (read_word_range 8); [lia|]. intros. by apply load_le64_ok. Qed.

Lemma readVarUInt_range s v s' :
  valid s -> is_bytes (readableBuffer s) -> readVarUInt s = (Ok v, s') -> is_u 32 v.
Proof.
  intros Hs Hb E. assert (is_bytes (rest s)) as Hr by by apply Forall_drop.
  unfold readVarUInt in E. rewrite varint_loop_32 in E by done. unfold leb_outcome in E.
  destruct (leb_decode 5 (rest s)); [|done|done]. injection E as <- _. by apply Z.mod_pos_bound.
Qed.

Lemma readU8_range s v s' :
  valid s -> is_bytes (readableBuffer s) -> readU8 s = (Ok v, s') -> is_u 8 v.
Proof.
  intros Hs Hb E. assert (is_bytes (rest s)) as Hr by by apply Forall_drop.
  destruct (rest s) as [|b l] eqn:Er.
  - rewrite (fetch_none s Hs Er) in E. done.
  - destruct (fetch_some s b l Hs Er) as [E' _]. rewrite E' in E. injection E as <- _.
    by apply Forall_cons_1 in Hr as [? _].
Qed.

Lemma readBytes_is_bytes n s k s' :
  0 <= n -> valid s -> is_bytes (readableBuffer s) -> readBytes n s = (Ok k, s') -> is_bytes k.
Proof.
  intros Hn Hs Hb E. assert (is_bytes (rest s)) as Hr by by apply Forall_drop.
  destruct (decide (size (rest s) < n)) as [Hlt|Hge].
  { unfold readBytes in E. by rewrite read_n_short in E. }
  assert (n = size (take (Z.to_nat n) (rest s))) as Hsz by (unfold size in *; rewrite length_take; lia).
  rewrite Hsz in E. rewrite (reads_bytes _ s (drop (Z.to_nat n) (rest s)) Hs) in E; [|done|by rewrite take_drop].
  injection E as <- _. by apply Forall_take.
Qed.
