(* ===== verification/Snappy.v ===== *)
(** * SnappyCodec (src/src/protocol/SnappyCodec.cpp)

    The raw Snappy block format: a hash-chain LZ77 compressor over 64 KiB
    fragments and the checked decompressor.  The hash table, a vector of
    [HASH_SIZE] entries initialised to [NO_POSITION], is a finite map whose
    absent keys hold [NO_POSITION]; [hashSequence_range] shows that every key
    used is an index of the vector. *)

From S2P Require Import Prelude MachineInt Leb128 Endian.

Definition SNAPPY_FRAGMENT_SIZE : Z := 65536.
Definition HASH_BITS : Z := 15.
Definition HASH_SIZE : Z := 2 ^ HASH_BITS.
Definition HASH_MULTIPLIER : Z := 0x1e35a7bd.
Definition NO_POSITION : Z := 2 ^ 64 - 1.

Definition load32 (input : bytes) (offset : Z) : result Z := load_le32 input offset.

Definition hashSequence (sequence : Z) : Z :=
  Z.shiftr (to_u32 (sequence * HASH_MULTIPLIER)) (32 - HASH_BITS).

(** ** Length prefix *)

Definition writeVarUInt32 (output : bytes) (value : Z) : bytes := write_while 5 output value.

Definition lengthTruncated : exn := SnappyCodecError "snappy uncompressed length is truncated".
Definition lengthInvalid : exn := SnappyCodecError "snappy uncompressed length is invalid".

Fixpoint readVarUInt32_loop (input : bytes) (shifts : list Z) (value : Z) : M Z Z :=
  match shifts with
  | [] => raise lengthInvalid
  | shift :: shifts' =>
      let* byte := fetch_at input lengthTruncated in
      if (shift =? 28) && negb (Z.land byte 0xf0 =? 0) then raise lengthInvalid
      else
        let value := Z.lor value (to_u32 (Z.shiftl (Z.land byte 0x7f) shift)) in
        if Z.land byte 0x80 =? 0 then ret value
        else readVarUInt32_loop input shifts' value
  end.

Definition readVarUInt32 (input : bytes) : M Z Z :=
  if size input =? 0 then
    raise (SnappyCodecError "snappy block is missing the uncompressed length")
  else readVarUInt32_loop input shifts32 0.

(** ** Emitting elements *)

(** [do { ++lengthBytes; remaining >>= 8; } while (remaining != 0);] *)
Fixpoint literal_length_bytes (fuel : nat) (lengthBytes remaining : Z) : Z :=
  match fuel with
  | O => lengthBytes
  | S fuel' =>
      let lengthBytes := lengthBytes + 1 in
      let remaining := Z.shiftr remaining 8 in
      if negb (remaining =? 0) then literal_length_bytes fuel' lengthBytes remaining
      else lengthBytes
  end.

Definition emitLiteral (output input : bytes) (offset length : Z) : result bytes :=
  if length =? 0 then Ok output
  else
    let lengthMinusOne := to_u32 (length - 1) in
    let output :=
      if length <=? 60 then output ++ [to_u8 (Z.shiftl lengthMinusOne 2)]
      else
        let lengthBytes := literal_length_bytes 4 0 lengthMinusOne in
        output ++ [to_u8 (Z.shiftl (59 + lengthBytes) 2)]
          ++ map (fun i => to_u8 (Z.shiftr lengthMinusOne (8 * i))) (seqZ 0 lengthBytes) in
    let! body := vec_range input offset (offset + length) in
    Ok (output ++ body).

Definition emitCopyOne (output : bytes) (offset length : Z) : bytes :=
  output ++ [to_u8 (Z.lor (Z.lor 0x01 (to_u32 (Z.shiftl (to_u32 (length - 4)) 2)))
                      (to_u32 (Z.shiftl (Z.shiftr offset 8) 5)));
             to_u8 offset].

Definition emitCopyTwo (output : bytes) (offset length : Z) : bytes :=
  output ++ [to_u8 (Z.lor (to_u32 (Z.shiftl (to_u32 (length - 1)) 2)) 0x02);
             to_u8 offset; to_u8 (Z.shiftr offset 8)].

(** [while (length >= 68) { emitCopyTwo(output, offset, 64); length -= 64; }] *)
Fixpoint emitCopy_loop (fuel : nat) (output : bytes) (offset length : Z) : bytes * Z :=
  match fuel with
  | O => (output, length)
  | S fuel' =>
      if length >=? 68 then
        emitCopy_loop fuel' (emitCopyTwo output offset 64) offset (length - 64)
      else (output, length)
  end.

Definition emitCopy (output : bytes) (offset length : Z) : bytes :=
  let '(output, length) := emitCopy_loop (Z.to_nat (length / 64)) output offset length in
  let '(output, length) :=
    if length >? 64 then (emitCopyTwo output offset 60, length - 60)
    else (output, length) in
  let finalLength := to_u32 length in
  if (offset <? 2048) && (finalLength >=? 4) && (finalLength <=? 11) then
    emitCopyOne output offset finalLength
  else emitCopyTwo output offset finalLength.

(** ** Compressing a fragment *)

Definition table_get (table : gmap Z Z) (hash : Z) : Z := default NO_POSITION (table !! hash).

(** Extends a match; [matchLength] starts at 4. *)
Fixpoint match_loop (fuel : nat) (input : bytes) (candidate position fragmentEnd matchLength : Z)
    : result Z :=
  match fuel with
  | O => Throw OutOfFuel
  | S fuel' =>
      if position + matchLength <? fragmentEnd then
        let! a := vec_at input (candidate + matchLength) in
        let! b := vec_at input (position + matchLength) in
        if a =? b then match_loop fuel' input candidate position fragmentEnd (matchLength + 1)
        else Ok matchLength
      else Ok matchLength
  end.

Section Fragment.
Context (input : bytes) (fragmentBegin fragmentEnd : Z).

Definition lastSequence : Z := fragmentEnd - 4.

(** One turn of the scan returns the pending literal start and the output. *)
Fixpoint fragment_loop (fuel : nat) (table : gmap Z Z) (nextLiteral position : Z)
    (output : bytes) : result (Z * bytes) :=
  match fuel with
  | O => Throw OutOfFuel
  | S fuel' =>
      if position <=? lastSequence then
        let! sequence := load32 input position in
        let hash := hashSequence sequence in
        let candidate := table_get table hash in
        let table := <[hash := position]> table in
        let! differs :=
          if candidate =? NO_POSITION then Ok true
          else if candidate <? fragmentBegin then Ok true
          else
            let! a := load32 input candidate in
            let! b := load32 input position in
            Ok (negb (a =? b)) in
        if (differs : bool) then
          fragment_loop fuel' table nextLiteral (position + 1) output
        else
          let! output := emitLiteral output input nextLiteral (position - nextLiteral) in
          let! matchLength :=
            match_loop (Z.to_nat (fragmentEnd - position)) input candidate position
              fragmentEnd 4 in
          let output := emitCopy output (to_u32 (position - candidate)) matchLength in
          let position := position + matchLength in
          let nextLiteral := position in
          if position >? lastSequence then Ok (nextLiteral, output)
          else
            let previous := position - 1 in
            let! before := load32 input previous in
            let table := <[hashSequence before := previous]> table in
            fragment_loop fuel' table nextLiteral position output
      else Ok (nextLiteral, output)
  end.

Definition compressFragment (output : bytes) : result bytes :=
  let fragmentLength := fragmentEnd - fragmentBegin in
  if fragmentLength <? 4 then emitLiteral output input fragmentBegin fragmentLength
  else
    let! (nextLiteral, output) :=
      fragment_loop (Z.to_nat fragmentLength) ∅ fragmentBegin fragmentBegin output in
    emitLiteral output input nextLiteral (fragmentEnd - nextLiteral).
End Fragment.

Fixpoint compress_loop (fuel : nat) (input : bytes) (fragmentBegin : Z) (output : bytes)
    : result bytes :=
  match fuel with
  | O => Throw OutOfFuel
  | S fuel' =>
      if fragmentBegin <? size input then
        let fragmentLength := Z.min SNAPPY_FRAGMENT_SIZE (size input - fragmentBegin) in
        let fragmentEnd := fragmentBegin + fragmentLength in
        let! output := compressFragment input fragmentBegin fragmentEnd output in
        compress_loop fuel' input fragmentEnd output
      else Ok output
  end.

Definition compress (input : bytes) : result bytes :=
  if size input >? 2 ^ 32 - 1 then
    Throw (SnappyCodecError "snappy input exceeds the 32-bit block limit")
  else
    let output := writeVarUInt32 [] (to_u32 (size input)) in
    compress_loop (S (S (Z.to_nat (size input / SNAPPY_FRAGMENT_SIZE)))) input 0 output.

(** ** Decompression *)

Fixpoint readLittleEndian_loop (input : bytes) (i byteCount : nat) (value : Z) : M Z Z :=
  match byteCount with
  | O => ret value
  | S n =>
      let* offset := get_st in
      let* b := lift (vec_at input offset) in
      put_st (offset + 1) ;;;
      readLittleEndian_loop input (S i) n
        (Z.lor value (to_u32 (Z.shiftl b (8 * Z.of_nat i))))
  end.

Definition readLittleEndian (input : bytes) (byteCount : nat) (truncatedMessage : string)
    : M Z Z :=
  let* offset := get_st in
  if Z.of_nat byteCount >? size input - offset then
    raise (SnappyCodecError truncatedMessage)
  else readLittleEndian_loop input 0 byteCount 0.

(** [output[outputOffset] = output[outputOffset - copyOffset]; ++outputOffset;] *)
Fixpoint copy_loop (n : nat) (output : bytes) (outputOffset copyOffset : Z)
    : result (bytes * Z) :=
  match n with
  | O => Ok (output, outputOffset)
  | S n' =>
      let! b := vec_at output (outputOffset - copyOffset) in
      let! output := vec_set output outputOffset b in
      copy_loop n' output (outputOffset + 1) copyOffset
  end.

(** The literal branch: length, bounds checks, copy. *)
Definition decode_literal (input : bytes) (tag : Z) (output : bytes) (outputOffset : Z)
    : M Z (bytes * Z) :=
  let encodedLength := Z.shiftr tag 2 in
  let* literalLength :=
    if encodedLength <? 60 then ret (encodedLength + 1)
    else
      let lengthBytes := encodedLength - 59 in
      let* lengthMinusOne :=
        readLittleEndian input (Z.to_nat lengthBytes) "snappy literal length is truncated" in
      ret (lengthMinusOne + 1) in
  let* inputOffset := get_st in
  if literalLength >? size input - inputOffset then
    raise (SnappyCodecError "snappy literal is truncated")
  else if literalLength >? size output - outputOffset then
    raise (SnappyCodecError "snappy literal exceeds the declared size")
  else
    let* body := lift (vec_range input inputOffset (inputOffset + literalLength)) in
    let* output := lift (vec_blit output outputOffset body) in
    put_st (inputOffset + literalLength) ;;;
    ret (output, outputOffset + literalLength).

(** Length and offset of the three copy elements. *)
Definition decode_copy_header (input : bytes) (tag type : Z) : M Z (Z * Z) :=
  if type =? 1 then
    let copyLength := 4 + Z.land (Z.shiftr tag 2) 0x07 in
    let* offsetLow := readLittleEndian input 1 "snappy copy-1 offset is truncated" in
    ret (copyLength, Z.lor (to_u32 (Z.shiftl (Z.land tag 0xe0) 3)) offsetLow)
  else if type =? 2 then
    let* copyOffset := readLittleEndian input 2 "snappy copy-2 offset is truncated" in
    ret (1 + Z.shiftr tag 2, copyOffset)
  else
    let* copyOffset := readLittleEndian input 4 "snappy copy-4 offset is truncated" in
    ret (1 + Z.shiftr tag 2, copyOffset).

Definition decode_copy (input : bytes) (tag type : Z) (output : bytes) (outputOffset : Z)
    : M Z (bytes * Z) :=
  let* (copyLength, copyOffset) := decode_copy_header input tag type in
  if (copyOffset =? 0) || (copyOffset >? outputOffset) then
    raise (SnappyCodecError "snappy copy offset is invalid")
  else if copyLength >? size output - outputOffset then
    raise (SnappyCodecError "snappy copy exceeds the declared size")
  else lift (copy_loop (Z.to_nat copyLength) output outputOffset copyOffset).

Fixpoint decompress_loop (fuel : nat) (input output : bytes) (outputOffset : Z)
    : M Z (bytes * Z) :=
  match fuel with
  | O => raise OutOfFuel
  | S fuel' =>
      let* inputOffset := get_st in
      if (inputOffset <? size input) && (outputOffset <? size output) then
        let* tag := lift (vec_at input inputOffset) in
        put_st (inputOffset + 1) ;;;
        let type := Z.land tag 0x03 in
        let* (output, outputOffset) :=
          if type =? 0 then decode_literal input tag output outputOffset
          else decode_copy input tag type output outputOffset in
        decompress_loop fuel' input output outputOffset
      else ret (output, outputOffset)
  end.

Definition decompress_m (input : bytes) : M Z bytes :=
  let* declaredLength := readVarUInt32 input in
  let* (output, outputOffset) :=
    decompress_loop (S (length input)) input (replicate (Z.to_nat declaredLength) 0) 0 in
  let* inputOffset := get_st in
  if negb (outputOffset =? size output) then
    raise (SnappyCodecError "snappy block ended before the declared size")
  else if negb (inputOffset =? size input) then
    raise (SnappyCodecError "snappy block has trailing data")
  else ret output.

Definition decompress (input : bytes) : result bytes := fst (decompress_m input 0).

(** ** Specification of the element stream

    [lz_extend w d n] appends [n] bytes to [w], each equal to the byte [d]
    places before it (overlapping copies repeat).  [decodes e w w']: the
    elements encoded by [e] extend the decoded prefix [w] to [w']. *)

Fixpoint lz_extend (w : bytes) (d : Z) (n : nat) : bytes :=
  match n with
  | O => w
  | S n' =>
      match w !! Z.to_nat (size w - d) with
      | Some b => lz_extend (w ++ [b]) d n'
      | None => w
      end
  end.

Inductive literal_header : bytes -> Z -> Prop :=
| header_short n : 1 <= n <= 60 -> literal_header [4 * (n - 1)] n
| header_long n k :
    (1 <= k <= 4)%nat -> 1 <= n -> n - 1 < 2 ^ (8 * Z.of_nat k) ->
    literal_header (4 * (59 + Z.of_nat k) :: le_encode k (n - 1)) n.

Inductive copy_header : bytes -> Z -> Z -> Prop :=
| header_copy1 d n : 1 <= d < 2048 -> 4 <= n <= 11 ->
    copy_header [1 + 4 * (n - 4) + 32 * (d / 256); d mod 256] d n
| header_copy2 d n : 1 <= d < 65536 -> 1 <= n <= 64 ->
    copy_header (4 * (n - 1) + 2 :: le_encode 2 d) d n.

Inductive decodes : bytes -> bytes -> bytes -> Prop :=
| decodes_nil w : decodes [] w w
| decodes_literal h body e w w' :
    literal_header h (size body) -> decodes e (w ++ body) w' ->
    decodes (h ++ body ++ e) w w'
| decodes_copy h d n e w w' :
    copy_header h d n -> d <= size w -> decodes e (lz_extend w d (Z.to_nat n)) w' ->
    decodes (h ++ e) w w'.

Lemma decodes_app e1 e2 w1 w2 w3 :
  decodes e1 w1 w2 -> decodes e2 w2 w3 -> decodes (e1 ++ e2) w1 w3.
Proof.
  intros H1 H2. induction H1; [done| |].
  - rewrite <-!app_assoc. by apply decodes_literal; [|apply IHdecodes].
  - rewrite <-app_assoc. by eapply decodes_copy; [..|apply IHdecodes].
Qed.

Lemma decodes_one_literal h body w :
  literal_header h (size body) -> decodes (h ++ body) w (w ++ body).
Proof.
  intros Hh. rewrite <-(app_nil_r body) at 1. apply decodes_literal; [done|constructor].
Qed.

Lemma decodes_one_copy h d n w :
  copy_header h d n -> d <= size w -> decodes h w (lz_extend w d (Z.to_nat n)).
Proof.
  intros Hh Hd. rewrite <-(app_nil_r h). eapply decodes_copy; [done|done|constructor].
Qed.

Lemma lz_extend_size w d n :
  1 <= d <= size w -> size (lz_extend w d n) = size w + Z.of_nat n.
Proof.
  revert w. induction n as [|n IH]; intros w Hd; simpl; [lia|].
  destruct (lookup_lt_is_Some_2 w (Z.to_nat (size w - d))) as [b Hb].
  { unfold size in *. lia. }
  rewrite Hb, IH; rewrite size_app; change (size [b]) with 1; lia.
Qed.

Lemma lz_extend_add w d m n :
  1 <= d <= size w -> lz_extend (lz_extend w d m) d n = lz_extend w d (m + n).
Proof.
  revert w. induction m as [|m IH]; intros w Hd; [done|]. simpl.
  destruct (lookup_lt_is_Some_2 w (Z.to_nat (size w - d))) as [b Hb].
  { unfold size in *. lia. }
  rewrite Hb. apply IH. rewrite size_app. change (size [b]) with 1. lia.
Qed.

Lemma decodes_size e w w' : decodes e w w' -> size w <= size w'.
Proof.
  induction 1 as [|h body e w w' Hh H IH|h d n e w w' Hh Hd H IH].
  - lia.
  - rewrite size_app in IH. pose proof (size_nonneg body). lia.
  - assert (1 <= d) by (destruct Hh; lia).
    rewrite lz_extend_size in IH by lia. lia.
Qed.

(** A match inside [input] is reproduced by a copy. *)
Lemma lz_extend_match (input : bytes) p d n :
  1 <= d <= Z.of_nat p -> (p + n <= length input)%nat ->
  (forall i, (i < n)%nat -> input !! (p + i - Z.to_nat d)%nat = input !! (p + i)%nat) ->
  lz_extend (take p input) d n = take (p + n) input.
Proof.
  revert p. induction n as [|n IH]; intros p Hd Hlen Hm; simpl.
  { by rewrite Nat.add_0_r. }
  assert (size (take p input) = Z.of_nat p) as Hsz.
  { unfold size. rewrite length_take. lia. }
  rewrite Hsz. replace (Z.to_nat (Z.of_nat p - d)) with (p - Z.to_nat d)%nat by lia.
  rewrite lookup_take_lt by lia.
  pose proof (Hm 0%nat ltac:(lia)) as H0. rewrite Nat.add_0_r in H0. rewrite H0.
  destruct (lookup_lt_is_Some_2 input p ltac:(lia)) as [b Hb]. rewrite Hb.
  rewrite <-(take_S_r _ _ _ Hb). rewrite IH; [f_equal; lia|lia|lia|].
  intros i Hi. pose proof (Hm (S i) ltac:(lia)) as E.
  replace (S p + i)%nat with (p + S i)%nat by lia. done.
Qed.

(** ** The decompressor follows the specification *)

Lemma readLittleEndian_loop_ok input l : forall i value off,
  stands_at input l off -> is_bytes l -> (i + length l <= 4)%nat ->
  0 <= value < 2 ^ (8 * Z.of_nat i) ->
  readLittleEndian_loop input i (length l) value off =
  (Ok (value + le_decode l * 2 ^ (8 * Z.of_nat i)), off + size l).
Proof.
  induction l as [|b l IH]; intros i value off Hst Hl Hi Hv.
  - cbn [length readLittleEndian_loop le_decode]. unfold ret.
    change (size []) with 0. f_equal; [f_equal|]; lia.
  - cbn [length readLittleEndian_loop le_decode] in *.
    apply Forall_cons_1 in Hl as [Hb Hl]. unfold is_u in Hb. change (2 ^ 8) with 256 in Hb.
    unfold bind, get_st, lift, put_st.
    assert (vec_at input off = Ok b) as ->.
    { destruct Hst as (pre & post & -> & <-). apply vec_at_app. }
    unfold to_u32. rewrite shiftl_small by lia.
    rewrite lor_mul_add by lia.
    pose proof (pow2_pos (8 * Z.of_nat i) ltac:(lia)).
    pose proof (pow2_8S i) as E.
    rewrite IH; [| |done|lia|rewrite E; nia].
    + rewrite size_cons, E. f_equal; [f_equal; ring|lia].
    + destruct Hst as (pre & post & -> & <-). exists (pre ++ [b]), post.
      rewrite <-app_assoc, size_app. done.
Qed.

Lemma readLittleEndian_ok input k v off msg :
  (k <= 4)%nat -> 0 <= v < 2 ^ (8 * Z.of_nat k) -> stands_at input (le_encode k v) off ->
  readLittleEndian input k msg off = (Ok v, off + Z.of_nat k).
Proof.
  intros Hk Hv Hst. unfold readLittleEndian, bind, get_st.
  rewrite Z.gtb_ltb, (proj2 (Z.ltb_ge _ _)).
  2:{ destruct Hst as (pre & post & -> & <-).
      rewrite !size_app, le_encode_size. pose proof (size_nonneg post). lia. }
  pose proof (readLittleEndian_loop_ok input (le_encode k v) 0 0 off Hst
    (le_encode_bytes _ _)) as E.
  rewrite le_encode_length, le_encode_size, le_decode_encode in E.
  rewrite E by (cbn; lia). rewrite Z.mod_small by done.
  change (2 ^ (8 * Z.of_nat 0)) with 1. by rewrite Z.mul_1_r.
Qed.

Lemma stands_at_skip data h k o :
  stands_at data (h ++ k) o -> stands_at data k (o + size h).
Proof.
  intros (pre & post & -> & <-). exists (pre ++ h), post.
  by rewrite <-!app_assoc, size_app.
Qed.

Lemma stands_at_take data h k o : stands_at data (h ++ k) o -> stands_at data h o.
Proof.
  intros (pre & post & -> & <-). exists pre, (k ++ post). by rewrite <-app_assoc.
Qed.

Lemma stands_at_bound data k o : stands_at data k o -> 0 <= o /\ o + size k <= size data.
Proof.
  intros (pre & post & -> & <-). rewrite !size_app.
  pose proof (size_nonneg pre). pose proof (size_nonneg post). lia.
Qed.

(** The literal branch copies [body] behind [w]. *)
Lemma decode_literal_body input tag w junk body o :
  Z.shiftr tag 2 + 1 = size body -> Z.shiftr tag 2 < 60 ->
  stands_at input body o -> size body <= size junk ->
  decode_literal input tag (w ++ junk) (size w) o =
  (Ok ((w ++ body) ++ drop (length body) junk, size w + size body), o + size body).
Proof.
  intros Ht H60 Hst Hj. unfold decode_literal.
  rewrite (proj2 (Z.ltb_lt _ _)) by done. unfold bind, ret, get_st, raise, lift, put_st.
  rewrite Ht. pose proof (stands_at_bound _ _ _ Hst) as [Ho Hb].
  rewrite !Z.gtb_ltb, !(proj2 (Z.ltb_ge _ _)) by (rewrite ?size_app; lia).
  assert (vec_range input o (o + size body) = Ok body) as ->.
  { destruct Hst as (pre & post & -> & <-). by apply vec_range_app. }
  rewrite <-(take_drop (length body) junk) at 1.
  rewrite vec_blit_app; [by rewrite app_assoc|].
  unfold size in *. rewrite length_take. lia.
Qed.

Lemma decode_literal_long input tag k w junk body o :
  tag = 4 * (59 + Z.of_nat k) -> (1 <= k <= 4)%nat -> 1 <= size body ->
  size body - 1 < 2 ^ (8 * Z.of_nat k) ->
  stands_at input (le_encode k (size body - 1) ++ body) o -> size body <= size junk ->
  decode_literal input tag (w ++ junk) (size w) o =
  (Ok ((w ++ body) ++ drop (length body) junk, size w + size body),
   o + Z.of_nat k + size body).
Proof.
  intros Ht Hk Hn Hn2 Hst Hj. unfold decode_literal.
  rewrite shiftr_div by lia. change (2 ^ 2) with 4.
  assert (tag / 4 = 59 + Z.of_nat k) as ->.
  { rewrite Ht, Z.mul_comm. apply Z.div_mul. lia. }
  rewrite (proj2 (Z.ltb_ge _ _)) by lia.
  replace (Z.to_nat (59 + Z.of_nat k - 59)) with k by lia.
  pose proof (readLittleEndian_ok input k (size body - 1) o
    "snappy literal length is truncated" ltac:(lia) ltac:(lia) (stands_at_take _ _ _ _ Hst)) as E.
  unfold bind, ret, get_st, raise, lift, put_st. rewrite E.
  apply stands_at_skip in Hst. rewrite le_encode_size in Hst.
  pose proof (stands_at_bound _ _ _ Hst) as [Ho Hb].
  replace (size body - 1 + 1) with (size body) by lia.
  rewrite !Z.gtb_ltb, !(proj2 (Z.ltb_ge _ _)) by (rewrite ?size_app; lia).
  assert (vec_range input (o + Z.of_nat k) (o + Z.of_nat k + size body) = Ok body) as ->.
  { destruct Hst as (pre & post & -> & <-). by apply vec_range_app. }
  rewrite <-(take_drop (length body) junk) at 1.
  rewrite vec_blit_app; [by rewrite app_assoc|].
  unfold size in *. rewrite length_take. lia.
Qed.

Lemma copy_loop_ok n : forall w junk d,
  1 <= d <= size w -> Z.of_nat n <= size junk ->
  copy_loop n (w ++ junk) (size w) d =
  Ok (lz_extend w d n ++ drop n junk, size w + Z.of_nat n).
Proof.
  induction n as [|n IH]; intros w junk d Hd Hj.
  { cbn. f_equal. f_equal. lia. }
  destruct junk as [|j junk]; [rewrite size_nil in Hj; lia|].
  rewrite size_cons in Hj. cbn [copy_loop lz_extend drop].
  destruct (lookup_lt_is_Some_2 w (Z.to_nat (size w - d))) as [b Hb].
  { unfold size in *. lia. }
  rewrite (vec_at_lookup _ _ b); [|lia|].
  2:{ rewrite lookup_app_l; [done|]. unfold size in *. lia. }
  cbn [rbind]. rewrite vec_set_app. cbn [rbind]. rewrite Hb.
  replace (w ++ b :: junk) with ((w ++ [b]) ++ junk) by by rewrite <-app_assoc.
  replace (size w + 1) with (size (w ++ [b])) by by rewrite size_app.
  rewrite IH; rewrite ?size_app; change (size [b]) with 1; [|lia|lia].
  f_equal. f_equal. lia.
Qed.

Lemma mod_div_le2 d : 0 <= d < 65536 -> le_encode 2 d = [d mod 256; d / 256].
Proof.
  intros. cbn [le_encode]. rewrite (Z.mod_small (d / 256)); [done|].
  split; [apply Z.div_pos; lia|apply Z.div_lt_upper_bound; lia].
Qed.

Lemma decode_copy_header_ok input h d n tag ks o :
  copy_header h d n -> h = tag :: ks -> stands_at input ks o ->
  0 <= tag < 256 /\ tag mod 4 <> 0 /\
  decode_copy_header input tag (tag mod 4) o = (Ok (n, d), o + size ks).
Proof.
  intros Hh Ehh Hst. destruct Hh as [d n Hd Hn|d n Hd Hn]; injection Ehh as Htag <-.
  - assert (0 <= d / 256 < 8).
    { split; [apply Z.div_pos; lia|apply Z.div_lt_upper_bound; lia]. }
    assert (tag mod 4 = 1) as Em.
    { rewrite <-Htag. replace (1 + _ + _) with (1 + ((n - 4) + 8 * (d / 256)) * 4) by lia.
      by rewrite Z.mod_add. }
    assert (tag / 4 = (n - 4) + (d / 256) * 8) as Ed.
    { rewrite <-Htag. symmetry. apply (Z.div_unique _ _ _ 1); lia. }
    split_and!; [lia|lia|lia|]. unfold decode_copy_header. rewrite Em. cbn [Z.eqb Pos.eqb].
    rewrite shiftr_div by lia. change (2 ^ 2) with 4.
    rewrite Ed, land_7, Z.mod_add, Z.mod_small by lia.
    change [d mod 256] with (le_encode 1 d) in Hst.
    pose proof (Z.mod_pos_bound d 256 ltac:(lia)).
    assert (le_encode 1 d = le_encode 1 (d mod 256)) as E1.
    { cbn. by rewrite Z.mod_mod. }
    rewrite E1 in Hst.
    unfold bind, ret. rewrite (readLittleEndian_ok input 1 (d mod 256) o) by (done || lia).
    f_equal. f_equal. f_equal; [lia|].
    change 0xe0 with (Z.shiftl (2 ^ 3 - 1) 5). rewrite land_field by lia.
    change (2 ^ 5) with 32. change (2 ^ 3) with 8.
    assert (tag / 32 = d / 256) as ->.
    { rewrite <-Htag. symmetry. apply (Z.div_unique _ _ _ (1 + 4 * (n - 4))); lia. }
    rewrite (Z.mod_small (d / 256)) by lia.
    rewrite shiftl_mul by lia. change (2 ^ 3) with 8.
    rewrite to_u32_id by (unfold is_u; change (2 ^ 32) with 4294967296; lia).
    replace (d / 256 * 32 * 8) with (d / 256 * 2 ^ 8) by (change (2 ^ 8) with 256; lia).
    rewrite Z.lor_comm, lor_mul_add by lia. change (2 ^ 8) with 256.
    pose proof (Z.div_mod d 256). lia.
  - assert (tag mod 4 = 2) as Em.
    { rewrite <-Htag. replace (4 * (n - 1) + 2) with (2 + (n - 1) * 4) by lia.
      by rewrite Z.mod_add. }
    assert (tag / 4 = n - 1) as Ed.
    { rewrite <-Htag. symmetry. apply (Z.div_unique _ _ _ 2); lia. }
    split_and!; [lia|lia|lia|]. unfold decode_copy_header. rewrite Em. cbn [Z.eqb Pos.eqb].
    rewrite shiftr_div by lia. change (2 ^ 2) with 4. rewrite Ed.
    unfold bind, ret. change 2%nat with 2%nat.
    rewrite (readLittleEndian_ok input 2 d o) by (done || (cbn; lia)).
    f_equal. f_equal. f_equal. lia.
Qed.

Lemma decompress_loop_step fuel input output oo o tag :
  o < size input -> oo < size output -> vec_at input o = Ok tag ->
  decompress_loop (S fuel) input output oo o =
  match (if Z.land tag 0x03 =? 0 then decode_literal input tag output oo
         else decode_copy input tag (Z.land tag 0x03) output oo) (o + 1) with
  | (Ok (output', oo'), o') => decompress_loop fuel input output' oo' o'
  | (Throw e, o') => (Throw e, o')
  end.
Proof.
  intros Ho Hoo Hat. cbn [decompress_loop].
  unfold bind at 1, get_st. rewrite (proj2 (Z.ltb_lt o _)), (proj2 (Z.ltb_lt oo _)) by done.
  cbn [andb]. unfold bind at 1, lift. rewrite Hat.
  unfold bind, put_st.
  by destruct (Z.land tag 3 =? 0);
    [destruct (decode_literal _ _ _ _ _) as [[[? ?]|?] ?]
    |destruct (decode_copy _ _ _ _ _ _) as [[[? ?]|?] ?]].
Qed.

Lemma decompress_literal_step fuel input h w body junk o :
  literal_header h (size body) -> stands_at input (h ++ body) o ->
  size body <= size junk ->
  decompress_loop (S fuel) input (w ++ junk) (size w) o =
  decompress_loop fuel input ((w ++ body) ++ drop (length body) junk)
    (size (w ++ body)) (o + size h + size body).
Proof.
  intros Hh Hst Hj. pose proof (stands_at_bound _ _ _ Hst) as [Ho Hb].
  rewrite size_app in Hb.
  assert (1 <= size body /\ 1 <= size h /\ exists tag ks, h = tag :: ks) as (Hn & Hh1 & tag & ks & Eh).
  { destruct Hh; rewrite ?size_cons, ?size_nil; split_and!; try lia; eauto.
    pose proof (size_nonneg (le_encode k (n - 1))). lia. }
  rewrite (decompress_loop_step _ _ _ _ _ tag); rewrite ?size_app; [|lia|lia|].
  2:{ subst h. destruct Hst as (pre & post & -> & <-). apply vec_at_app. }
  assert (stands_at input (ks ++ body) (o + 1)) as Hst'.
  { subst h. apply (stands_at_skip input [tag] (ks ++ body)) in Hst. done. }
  rewrite land_3. remember (size body) as n eqn:En.
  destruct Hh as [n Hn'|n k Hk Hn1 Hn2]; injection Eh as Htag <-.
  - assert (tag mod 4 = 0) as -> by (rewrite <-Htag, Z.mul_comm; by apply Z.mod_mul).
    cbn [Z.eqb].
    assert (Z.shiftr tag 2 = n - 1) as Es.
    { rewrite shiftr_div by lia. change (2 ^ 2) with 4.
      rewrite <-Htag, Z.mul_comm. by apply Z.div_mul. }
    rewrite (decode_literal_body input tag w junk body (o + 1)) by (done || lia).
    rewrite <-En. by change (size [_]) with 1.
  - assert (tag mod 4 = 0) as -> by (rewrite <-Htag, Z.mul_comm; by apply Z.mod_mul).
    cbn [Z.eqb]. rewrite En in Hst', Hn2.
    rewrite (decode_literal_long input tag k w junk body (o + 1)) by (done || lia).
    rewrite size_cons, le_encode_size, <-En.
    by replace (o + 1 + Z.of_nat k + n) with (o + (Z.of_nat k + 1) + n) by lia.
Qed.

Lemma decompress_copy_step fuel input h d n w junk o :
  copy_header h d n -> stands_at input h o -> d <= size w -> n <= size junk ->
  decompress_loop (S fuel) input (w ++ junk) (size w) o =
  decompress_loop fuel input (lz_extend w d (Z.to_nat n) ++ drop (Z.to_nat n) junk)
    (size (lz_extend w d (Z.to_nat n))) (o + size h).
Proof.
  intros Hh Hst Hd Hn. pose proof (stands_at_bound _ _ _ Hst) as [Ho Hb].
  assert (1 <= d /\ 1 <= n /\ exists tag ks, h = tag :: ks) as (Hd1 & Hn1 & tag & ks & Eh).
  { destruct Hh; split_and!; try lia; eauto. }
  assert (1 <= size h) by (subst h; rewrite size_cons; pose proof (size_nonneg ks); lia).
  rewrite (decompress_loop_step _ _ _ _ _ tag); rewrite ?size_app; [|lia|lia|].
  2:{ subst h. destruct Hst as (pre & post & -> & <-). apply vec_at_app. }
  assert (stands_at input ks (o + 1)) as Hst'.
  { subst h. apply (stands_at_skip input [tag] ks) in Hst. done. }
  destruct (decode_copy_header_ok _ _ _ _ _ _ _ Hh Eh Hst') as (Ht & Hm & E).
  rewrite land_3. rewrite (proj2 (Z.eqb_neq _ _)) by done.
  unfold decode_copy. rewrite (bind_ok _ _ _ _ _ E).
  rewrite (proj2 (Z.eqb_neq d 0)) by lia. cbn [orb].
  rewrite !Z.gtb_ltb, !(proj2 (Z.ltb_ge _ _)) by (rewrite ?size_app; lia).
  unfold lift. rewrite copy_loop_ok by lia.
  rewrite lz_extend_size, Z2Nat.id by lia.
  rewrite Eh, size_cons. by replace (o + 1 + size ks) with (o + (size ks + 1)) by lia.
Qed.

Lemma decompress_loop_ok input e w w' :
  decodes e w w' -> forall fuel junk o,
  (length e < fuel)%nat -> stands_at input e o -> o + size e = size input ->
  size w' - size w = size junk ->
  decompress_loop fuel input (w ++ junk) (size w) o = (Ok (w', size w'), size input).
Proof.
  induction 1 as [w|h body e w w' Hh H IH|h d n e w w' Hh Hd H IH];
    intros fuel junk o Hf Hst Ho Hj; (destruct fuel as [|fuel]; [lia|]).
  - assert (junk = []) as -> by (apply size_zero_inv; lia). rewrite app_nil_r.
    cbn [decompress_loop]. unfold bind, get_st, ret.
    rewrite size_nil in Ho. rewrite (proj2 (Z.ltb_ge o _)) by lia. cbn [andb].
    do 2 f_equal. lia.
  - pose proof (decodes_size _ _ _ H) as Hsz. rewrite size_app in Hsz.
    rewrite app_assoc in Hst. rewrite (decompress_literal_step _ _ h _ body);
      [|done|by apply stands_at_take in Hst|lia].
    rewrite !size_app in Ho.
    assert (1 <= length h)%nat by (destruct Hh; simpl; lia).
    rewrite !length_app in Hf.
    apply IH; [lia| |lia|].
    + apply stands_at_skip in Hst. by rewrite size_app, Z.add_assoc in Hst.
    + rewrite size_app. unfold size in *. rewrite length_drop. lia.
  - assert (1 <= d /\ 1 <= n) as [Hd1 Hn1] by (destruct Hh; lia).
    assert (1 <= length h)%nat by (destruct Hh; simpl; lia).
    pose proof (decodes_size _ _ _ H) as Hsz. rewrite lz_extend_size in Hsz by lia.
    rewrite (decompress_copy_step _ _ h d n);
      [|done|by apply stands_at_take in Hst|done|lia].
    rewrite !size_app in Ho. rewrite !length_app in Hf.
    apply IH; [lia|by apply stands_at_skip in Hst|lia|].
    rewrite lz_extend_size by lia. unfold size in *. rewrite length_drop. lia.
Qed.

(** ** The emitters produce elements of the specification *)

Lemma literal_length_bytes_ok fuel : forall acc r,
  0 <= r < 2 ^ (8 * Z.of_nat (S fuel)) ->
  exists k, (1 <= k <= S fuel)%nat /\
    literal_length_bytes (S fuel) acc r = acc + Z.of_nat k /\ r < 2 ^ (8 * Z.of_nat k).
Proof.
  induction fuel as [|fuel IH]; intros acc r Hr.
  - exists 1%nat. split; [lia|]. cbn [literal_length_bytes].
    change (2 ^ (8 * Z.of_nat 1)) with 256 in *.
    rewrite shiftr_div by lia. change (2 ^ 8) with 256.
    rewrite Z.div_small by lia. cbn. split; lia.
  - rewrite pow2_8S in Hr. remember (S fuel) as m eqn:Em. cbn [literal_length_bytes].
    rewrite shiftr_div by lia. change (2 ^ 8) with 256.
    destruct (Z.eqb_spec (r / 256) 0) as [E|E]; cbn [negb].
    + exists 1%nat. split_and!; [lia|lia|lia|]. change (2 ^ (8 * Z.of_nat 1)) with 256.
      apply Z.div_small_iff in E; lia.
    + destruct (IH (acc + 1) (r / 256)) as (k & Hk & -> & Hb).
      { split; [apply Z.div_pos; lia|apply Z.div_lt_upper_bound; lia]. }
      exists (S k). rewrite pow2_8S. split_and!; [lia|lia|lia|].
      pose proof (Z.div_mod r 256). pose proof (Z.mod_pos_bound r 256). lia.
Qed.

Lemma map_shift_le_encode k v s :
  0 <= s -> map (fun i => to_u8 (Z.shiftr v (8 * i))) (seqZ s (Z.of_nat k)) =
  le_encode k (v / 2 ^ (8 * s)).
Proof.
  revert s. induction k as [|k IH]; intros s Hs; [done|].
  rewrite seqZ_cons by lia. cbn [map le_encode].
  replace (Z.pred (Z.of_nat (S k))) with (Z.of_nat k) by lia.
  rewrite IH by lia. rewrite shiftr_div by lia. f_equal. f_equal.
  rewrite Z.div_div by lia. f_equal.
  replace (8 * Z.succ s) with (8 * s + 8) by lia. by rewrite Z.pow_add_r by lia.
Qed.

Lemma take_slice (input : bytes) off n :
  0 <= off -> 0 <= n ->
  take (Z.to_nat off) input ++ take (Z.to_nat n) (drop (Z.to_nat off) input) =
  take (Z.to_nat (off + n)) input.
Proof.
  intros. rewrite Z2Nat.inj_add by lia. by rewrite take_take_drop.
Qed.

Lemma emitLiteral_ok output input off n :
  0 <= off -> 0 <= n -> off + n <= size input -> n < 2 ^ 32 ->
  exists e, emitLiteral output input off n = Ok (output ++ e) /\
    decodes e (take (Z.to_nat off) input) (take (Z.to_nat (off + n)) input).
Proof.
  intros Ho Hn Hs H32. unfold emitLiteral.
  destruct (Z.eqb_spec n 0) as [->|Hn0].
  { exists []. rewrite app_nil_r, Z.add_0_r. split; [done|constructor]. }
  rewrite to_u32_id by (unfold is_u; lia).
  rewrite vec_range_ok by lia. cbn [rbind]. replace (off + n - off) with n by lia.
  set (body := take (Z.to_nat n) (drop (Z.to_nat off) input)).
  assert (size body = n) as Hbody.
  { unfold body, size in *. rewrite length_take, length_drop. lia. }
  rewrite <-take_slice by lia. fold body.
  destruct (Z.leb_spec n 60).
  - exists ([4 * (n - 1)] ++ body). split.
    + rewrite <-app_assoc. do 4 f_equal. rewrite shiftl_mul by lia.
      change (2 ^ 2) with 4. rewrite to_u8_id; [lia|].
      unfold is_u. change (2 ^ 8) with 256. lia.
    + apply decodes_one_literal. rewrite Hbody. apply header_short. lia.
  - destruct (literal_length_bytes_ok 3 0 (n - 1)) as (k & Hk & -> & Hb).
    { change (8 * Z.of_nat 4) with 32. lia. }
    rewrite Z.add_0_l, map_shift_le_encode by lia.
    change (2 ^ (8 * 0)) with 1. rewrite Z.div_1_r.
    exists ((4 * (59 + Z.of_nat k) :: le_encode k (n - 1)) ++ body). split.
    + rewrite <-app_assoc. cbn [app]. do 3 f_equal. rewrite shiftl_mul by lia.
      change (2 ^ 2) with 4. rewrite to_u8_id; [lia|].
      unfold is_u. change (2 ^ 8) with 256. lia.
    + apply decodes_one_literal. rewrite Hbody. apply header_long; lia.
Qed.

Lemma emitCopyOne_ok output d n :
  1 <= d < 2048 -> 4 <= n <= 11 ->
  emitCopyOne output d n = output ++ [1 + 4 * (n - 4) + 32 * (d / 256); d mod 256].
Proof.
  intros Hd Hn. unfold emitCopyOne.
  assert (0 <= d / 256 < 8).
  { split; [apply Z.div_pos; lia|apply Z.div_lt_upper_bound; lia]. }
  rewrite (to_u32_id (n - 4)) by (unfold is_u; change (2 ^ 32) with 4294967296; lia).
  rewrite (shiftr_div d 8) by lia. change (2 ^ 8) with 256.
  rewrite !shiftl_mul by lia.
  rewrite !to_u32_id
    by (unfold is_u; change (2 ^ 32) with 4294967296; change (2 ^ 2) with 4;
        change (2 ^ 5) with 32; lia).
  rewrite (lor_mul_add 1 (n - 4) 2) by lia. change (2 ^ 2) with 4.
  rewrite lor_mul_add by (change (2 ^ 5) with 32; lia). change (2 ^ 5) with 32.
  do 2 f_equal. rewrite to_u8_id; [lia|]. unfold is_u. change (2 ^ 8) with 256. lia.
Qed.

Lemma emitCopyTwo_ok output d n :
  1 <= d < 65536 -> 1 <= n <= 64 ->
  emitCopyTwo output d n = output ++ (4 * (n - 1) + 2 :: le_encode 2 d).
Proof.
  intros Hd Hn. unfold emitCopyTwo.
  rewrite (to_u32_id (n - 1)) by (unfold is_u; change (2 ^ 32) with 4294967296; lia).
  rewrite shiftl_mul, shiftr_div by lia. change (2 ^ 8) with 256.
  rewrite to_u32_id
    by (unfold is_u; change (2 ^ 32) with 4294967296; change (2 ^ 2) with 4; lia).
  rewrite Z.lor_comm, lor_mul_add by (change (2 ^ 2) with 4; lia).
  change (2 ^ 2) with 4. f_equal. f_equal.
  rewrite to_u8_id; [lia|]. unfold is_u. change (2 ^ 8) with 256. lia.
Qed.

Lemma emitCopy_loop_ok fuel : forall output d n w,
  1 <= d < 65536 -> d <= size w -> 4 <= n -> n / 64 <= Z.of_nat fuel ->
  exists e n', emitCopy_loop fuel output d n = (output ++ e, n') /\
    4 <= n' < 68 /\ n' <= n /\ decodes e w (lz_extend w d (Z.to_nat (n - n'))).
Proof.
  induction fuel as [|fuel IH]; intros output d n w Hd Hw Hn Hf.
  - exists [], n. rewrite app_nil_r, Z.sub_diag. split_and!; [done|lia| |lia|constructor].
    pose proof (Z.div_mod n 64). pose proof (Z.mod_pos_bound n 64). lia.
  - cbn [emitCopy_loop]. destruct (Z.geb_spec n 68) as [Hge|Hlt].
    + rewrite emitCopyTwo_ok by lia.
      set (h := 4 * (64 - 1) + 2 :: le_encode 2 d).
      assert (copy_header h d 64) as Hh by (apply header_copy2; lia).
      set (w1 := lz_extend w d (Z.to_nat 64)).
      assert (size w1 = size w + 64) as Hw1.
      { unfold w1. rewrite lz_extend_size; lia. }
      destruct (IH (output ++ h) d (n - 64) w1) as (e & n' & E & Hn' & Hle & Hdec);
        [done|lia|lia| |].
      { replace (n - 64) with (n + (-1) * 64) by lia. rewrite Z.div_add by lia. lia. }
      exists (h ++ e), n'. rewrite E, app_assoc. split_and!; [done|lia|lia|lia|].
      eapply decodes_copy; [done|done|]. fold w1.
      replace (lz_extend w d (Z.to_nat (n - n')))
        with (lz_extend w1 d (Z.to_nat (n - 64 - n'))); [done|].
      unfold w1. rewrite lz_extend_add by lia. f_equal. lia.
    + exists [], n. rewrite app_nil_r, Z.sub_diag. split_and!; [done|lia|lia|lia|constructor].
Qed.

Lemma emit_last_copy output d n w :
  1 <= d < 65536 -> d <= size w -> 1 <= n <= 64 ->
  exists e, (if (d <? 2048) && (to_u32 n >=? 4) && (to_u32 n <=? 11)
             then emitCopyOne output d (to_u32 n) else emitCopyTwo output d (to_u32 n))
            = output ++ e /\ decodes e w (lz_extend w d (Z.to_nat n)).
Proof.
  intros Hd Hw Hn.
  rewrite to_u32_id by (unfold is_u; change (2 ^ 32) with 4294967296; lia).
  destruct ((d <? 2048) && (n >=? 4) && (n <=? 11)) eqn:E.
  - apply andb_prop in E as [E E3]. apply andb_prop in E as [E1 E2].
    rewrite Z.geb_le in E2. apply Z.ltb_lt in E1. apply Z.leb_le in E3.
    rewrite emitCopyOne_ok by lia. eexists. split; [done|].
    apply decodes_one_copy; [apply header_copy1; lia|done].
  - rewrite emitCopyTwo_ok by lia. eexists. split; [done|].
    apply decodes_one_copy; [apply header_copy2; lia|done].
Qed.

Lemma emitCopy_ok output d n w :
  1 <= d < 65536 -> d <= size w -> 4 <= n ->
  exists e, emitCopy output d n = output ++ e /\
    decodes e w (lz_extend w d (Z.to_nat n)).
Proof.
  intros Hd Hw Hn. unfold emitCopy.
  destruct (emitCopy_loop_ok (Z.to_nat (n / 64)) output d n w)
    as (e & n' & -> & Hn' & Hle & Hdec); [done|done|done| |].
  { rewrite Z2Nat.id; [lia|]. apply Z.div_pos; lia. }
  set (w1 := lz_extend w d (Z.to_nat (n - n'))) in *.
  assert (size w1 = size w + (n - n')) as Hw1.
  { unfold w1. rewrite lz_extend_size; lia. }
  destruct (Z.gtb_spec n' 64).
  - rewrite emitCopyTwo_ok by lia.
    set (h := 4 * (60 - 1) + 2 :: le_encode 2 d).
    assert (copy_header h d 60) as Hh by (apply header_copy2; lia).
    set (w2 := lz_extend w1 d (Z.to_nat 60)).
    assert (size w2 = size w1 + 60) as Hw2.
    { unfold w2. rewrite lz_extend_size; lia. }
    destruct (emit_last_copy ((output ++ e) ++ h) d (n' - 60) w2) as (e2 & -> & H2);
      [done|lia|lia|].
    exists (e ++ h ++ e2). rewrite !app_assoc. split; [done|]. rewrite <-app_assoc.
    eapply decodes_app; [exact Hdec|]. eapply decodes_copy; [done|lia|]. fold w2.
    replace (lz_extend w d (Z.to_nat n)) with (lz_extend w2 d (Z.to_nat (n' - 60))); [done|].
    unfold w2, w1. rewrite !lz_extend_add by (unfold w1 in *; lia). f_equal. lia.
  - destruct (emit_last_copy (output ++ e) d n' w1) as (e2 & -> & H2); [done|lia|lia|].
    exists (e ++ e2). rewrite app_assoc. split; [done|].
    eapply decodes_app; [exact Hdec|].
    replace (lz_extend w d (Z.to_nat n)) with (lz_extend w1 d (Z.to_nat n')); [done|].
    unfold w1. rewrite lz_extend_add by lia. f_equal. lia.
Qed.

(** ** The scan finds only true matches *)

Lemma hashSequence_range sequence : 0 <= hashSequence sequence < HASH_SIZE.
Proof.
  unfold hashSequence. rewrite shiftr_div by done.
  pose proof (to_u_range 32 (sequence * HASH_MULTIPLIER) ltac:(lia)) as [H1 H2].
  fold (to_u32 (sequence * HASH_MULTIPLIER)) in *.
  split; [apply Z.div_pos; [lia|done]|].
  apply Z.div_lt_upper_bound; [done|]. exact H2.
Qed.

Lemma load32_total input o :
  is_bytes input -> 0 <= o -> o + 4 <= size input ->
  exists k, load32 input o = Ok (le_decode k) /\ stands_at input k o /\ size k = 4 /\
    is_bytes k.
Proof.
  intros Hb Ho Hs. destruct (stands_at_split input o 4) as (k & Hk & Hst); [lia..|].
  exists k. pose proof (stands_at_bytes _ _ _ Hb Hst). split_and!; [|done..].
  by apply load_le32_ok.
Qed.

Lemma stands_at_lookup data k o i :
  stands_at data k o -> (i < length k)%nat -> data !! (Z.to_nat o + i)%nat = k !! i.
Proof.
  intros (pre & post & -> & <-) Hi. unfold size. rewrite Nat2Z.id.
  rewrite lookup_app_r by lia. replace (_ - _)%nat with i by lia.
  by rewrite lookup_app_l.
Qed.

(** Equal 32-bit loads mean equal bytes. *)
Lemma load32_eq_bytes input a b x :
  is_bytes input -> 0 <= a -> a + 4 <= size input -> 0 <= b -> b + 4 <= size input ->
  load32 input a = Ok x -> load32 input b = Ok x ->
  forall i, (i < 4)%nat -> input !! (Z.to_nat a + i)%nat = input !! (Z.to_nat b + i)%nat.
Proof.
  intros Hin Ha Has Hb Hbs Ea Eb i Hi.
  destruct (load32_total input a) as (ka & Ela & Hsta & Hka & Hba); [done..|].
  destruct (load32_total input b) as (kb & Elb & Hstb & Hkb & Hbb); [done..|].
  apply size_length in Hka, Hkb.
  rewrite (stands_at_lookup _ ka), (stands_at_lookup _ kb) by (done || lia).
  f_equal. rewrite <-(le_encode_decode ka), <-(le_encode_decode kb) by done.
  rewrite Hka, Hkb. congruence.
Qed.

Lemma match_loop_ok input c p fe fuel : forall ml,
  0 <= c < p -> 0 <= ml -> p + ml <= fe -> fe <= size input ->
  fe - p - ml < Z.of_nat fuel ->
  exists m, match_loop fuel input c p fe ml = Ok m /\ ml <= m /\ p + m <= fe /\
    forall i, ml <= Z.of_nat i < m ->
      input !! (Z.to_nat c + i)%nat = input !! (Z.to_nat p + i)%nat.
Proof.
  induction fuel as [|fuel IH]; intros ml Hc Hml Hp Hfe Hf; [lia|].
  cbn [match_loop]. destruct (Z.ltb_spec (p + ml) fe).
  2:{ exists ml. split_and!; [done|lia|lia|]. intros i Hi. lia. }
  destruct (vec_at_ok input (c + ml)) as (a & Ea & Eal); [lia|].
  destruct (vec_at_ok input (p + ml)) as (b & Eb & Ebl); [lia|].
  rewrite Ea, Eb. cbn [rbind]. destruct (Z.eqb_spec a b) as [->|].
  2:{ exists ml. split_and!; [done|lia|lia|]. intros i Hi. lia. }
  destruct (IH (ml + 1)) as (m & Em & Hm1 & Hm2 & Hm3); [lia..|].
  exists m. split_and!; [done|lia|lia|]. intros i Hi.
  destruct (decide (Z.of_nat i = ml)) as [E|E].
  - replace (Z.to_nat c + i)%nat with (Z.to_nat (c + ml)) by lia.
    replace (Z.to_nat p + i)%nat with (Z.to_nat (p + ml)) by lia. congruence.
  - apply Hm3. lia.
Qed.

Section ScanProof.
Context (input : bytes) (fb fe : Z).
Context (Hin : is_bytes input) (Hfb : 0 <= fb) (Hfe : fe <= size input)
  (Hlen : fe - fb <= SNAPPY_FRAGMENT_SIZE) (H4 : 4 <= fe - fb)
  (H32 : size input < 2 ^ 32).

(** Every table entry is an earlier position of the fragment. *)
Definition table_ok (table : gmap Z Z) (position : Z) : Prop :=
  forall h v, table !! h = Some v -> fb <= v < position.

Lemma table_ok_insert table h v position position' :
  table_ok table position -> fb <= v < position' -> position <= position' ->
  table_ok (<[h := v]> table) position'.
Proof.
  intros Ht Hv Hp h' v' E. apply lookup_insert_Some in E as [[-> <-]|[_ E]]; [done|].
  specialize (Ht _ _ E). lia.
Qed.

Lemma fragment_loop_ok fuel : forall table nl p output,
  table_ok table p -> fb <= nl <= p -> p <= fe ->
  Z.max 0 (lastSequence fe - p + 1) < Z.of_nat fuel ->
  exists nl' e, fragment_loop input fb fe fuel table nl p output = Ok (nl', output ++ e) /\
    nl <= nl' <= fe /\
    decodes e (take (Z.to_nat nl) input) (take (Z.to_nat nl') input).
Proof.
  unfold lastSequence.
  induction fuel as [|fuel IH]; intros table nl p output Ht Hnl Hp Hf.
  { exists nl, []. exfalso. lia. }
  cbn [fragment_loop]. unfold lastSequence.
  destruct (Z.leb_spec p (fe - 4)).
  2:{ exists nl, []. rewrite app_nil_r. split_and!; [done|lia|lia|constructor]. }
  destruct (load32_total input p) as (kp & Ep & _); [done|lia|lia|].
  rewrite Ep. cbn [rbind].
  set (hash := hashSequence (le_decode kp)).
  set (candidate := table_get table hash).
  assert (table_ok (<[hash:=p]> table) (p + 1)) as Ht'.
  { eapply table_ok_insert; [done|lia|lia]. }
  set (table' := <[hash:=p]> table) in *.
  assert (forall r, exists nl' e,
    fragment_loop input fb fe fuel table' nl (p + 1) r = Ok (nl', r ++ e) /\
    nl <= nl' <= fe /\
    decodes e (take (Z.to_nat nl) input) (take (Z.to_nat nl') input)) as Hnext.
  { intros r. apply IH; [done|lia|lia|lia]. }
  destruct (Z.eqb_spec candidate NO_POSITION) as [|Hcand]; [apply Hnext|].
  destruct (Z.ltb_spec candidate fb); [apply Hnext|].
  assert (fb <= candidate < p) as Hcp.
  { unfold candidate, table_get in *. destruct (table !! hash) as [v|] eqn:E.
    - cbn in *. by apply (Ht hash).
    - done. }
  destruct (load32_total input candidate) as (kc & Ec & _); [done|lia|lia|].
  rewrite Ec. cbn [rbind].
  destruct (Z.eqb_spec (le_decode kc) (le_decode kp)) as [Eeq|]; cbn [negb]; [|apply Hnext].
  rewrite Eeq in Ec.
  destruct (emitLiteral_ok output input nl (p - nl)) as (e1 & -> & Hd1); [lia..|].
  cbn [rbind]. replace (nl + (p - nl)) with p in Hd1 by lia.
  destruct (match_loop_ok input candidate p fe (Z.to_nat (fe - p)) 4)
    as (m & -> & Hm4 & Hme & Hmatch); [lia..|].
  cbn [rbind]. unfold SNAPPY_FRAGMENT_SIZE in *.
  rewrite to_u32_id by (unfold is_u; lia).
  assert (size (take (Z.to_nat p) input) = p) as Hsz.
  { unfold size in *. rewrite length_take. lia. }
  destruct (emitCopy_ok (output ++ e1) (p - candidate) m (take (Z.to_nat p) input))
    as (e2 & -> & Hd2); [lia|lia|lia|].
  rewrite (lz_extend_match input) in Hd2; [|lia|unfold size in *; lia|].
  2:{ intros i Hi.
      replace (Z.to_nat p + i - Z.to_nat (p - candidate))%nat with (Z.to_nat candidate + i)%nat by lia.
      destruct (decide (i < 4)%nat).
      - apply (load32_eq_bytes input candidate p (le_decode kp)); (done || lia).
      - apply Hmatch. lia. }
  rewrite <-Z2Nat.inj_add in Hd2 by lia.
  pose proof (decodes_app _ _ _ _ _ Hd1 Hd2) as Hd.
  destruct (Z.gtb_spec (p + m) (fe - 4)).
  { exists (p + m), (e1 ++ e2). rewrite app_assoc. split_and!; [done|lia|lia|done]. }
  destruct (load32_total input (p + m - 1)) as (kb & -> & _); [done|lia|lia|].
  cbn [rbind]. set (tb := <[_ := p + m - 1]> table').
  assert (table_ok tb (p + m)) as Htb by (eapply table_ok_insert; [done|lia|lia]).
  destruct (IH tb (p + m) (p + m) ((output ++ e1) ++ e2)) as (nl' & e3 & -> & Hnl' & Hd3);
    [done|lia|lia|lia|].
  exists nl', ((e1 ++ e2) ++ e3). rewrite !app_assoc. split_and!; [done|lia|lia|].
  eapply decodes_app; [exact Hd|exact Hd3].
Qed.

End ScanProof.

Lemma compressFragment_ok input fb fe output :
  is_bytes input -> size input < 2 ^ 32 -> 0 <= fb <= fe -> fe <= size input ->
  fe - fb <= SNAPPY_FRAGMENT_SIZE ->
  exists e, compressFragment input fb fe output = Ok (output ++ e) /\
    decodes e (take (Z.to_nat fb) input) (take (Z.to_nat fe) input).
Proof.
  intros Hin H32 Hfb Hfe Hlen. unfold compressFragment. unfold SNAPPY_FRAGMENT_SIZE in *.
  destruct (Z.ltb_spec (fe - fb) 4).
  { destruct (emitLiteral_ok output input fb (fe - fb)) as (e & -> & Hd); [lia..|].
    exists e. split; [done|]. by replace (fb + (fe - fb)) with fe in Hd by lia. }
  destruct (fragment_loop_ok input fb fe Hin ltac:(lia) Hfe ltac:(done) ltac:(lia) H32
    (Z.to_nat (fe - fb)) ∅ fb fb output) as (nl & e1 & -> & Hnl & Hd1).
  - intros h v E. by rewrite lookup_empty in E.
  - lia.
  - lia.
  - unfold lastSequence. lia.
  - cbn [rbind].
    destruct (emitLiteral_ok (output ++ e1) input nl (fe - nl)) as (e2 & -> & Hd2); [lia..|].
    replace (nl + (fe - nl)) with fe in Hd2 by lia.
    exists (e1 ++ e2). rewrite app_assoc. split; [done|].
    by eapply decodes_app.
Qed.

Lemma compress_loop_ok input : is_bytes input -> size input < 2 ^ 32 ->
  forall fuel fb output, 0 <= fb <= size input ->
  (size input - fb) / SNAPPY_FRAGMENT_SIZE + 1 < Z.of_nat fuel ->
  exists e, compress_loop fuel input fb output = Ok (output ++ e) /\
    decodes e (take (Z.to_nat fb) input) input.
Proof.
  intros Hin H32. unfold SNAPPY_FRAGMENT_SIZE.
  induction fuel as [|fuel IH]; intros fb output Hfb Hf.
  { pose proof (Z.div_pos (size input - fb) 65536). lia. }
  cbn [compress_loop]. unfold SNAPPY_FRAGMENT_SIZE.
  destruct (Z.ltb_spec fb (size input)).
  2:{ exists []. rewrite app_nil_r. split; [done|].
      rewrite take_ge; [constructor|]. unfold size in *. lia. }
  set (fe := fb + Z.min 65536 (size input - fb)).
  destruct (compressFragment_ok input fb fe output) as (e1 & -> & Hd1); [done|done|lia|lia|
    unfold SNAPPY_FRAGMENT_SIZE; lia|].
  cbn [rbind].
  destruct (decide (65536 <= size input - fb)).
  - assert (fe = fb + 65536) as -> by lia.
    destruct (IH (fb + 65536) (output ++ e1)) as (e2 & -> & Hd2); [lia| |].
    { replace (size input - (fb + 65536)) with (size input - fb + (-1) * 65536) by lia.
      rewrite Z.div_add by lia. lia. }
    exists (e1 ++ e2). rewrite app_assoc. split; [done|]. by eapply decodes_app.
  - assert (fe = size input) as E by lia. clearbody fe. subst fe.
    exists e1. assert (take (Z.to_nat (size input)) input = input) as Et.
    { apply take_ge. unfold size. lia. }
    rewrite Et in Hd1. split; [|done].
    destruct fuel as [|fuel].
    { pose proof (Z.div_pos (size input - fb) 65536). lia. }
    cbn [compress_loop]. by rewrite Z.ltb_irrefl.
Qed.

(** ** The length prefix *)

Lemma land_f0_small v : 0 <= v < 16 -> Z.land v 0xf0 = 0.
Proof.
  intros. change 0xf0 with (Z.shiftl (2 ^ 4 - 1) 4). rewrite land_field by lia.
  change (2 ^ 4) with 16. by rewrite Z.div_small by lia.
Qed.

Lemma readVarUInt32_loop_ok input r n : forall v acc off,
  let sh := 35 - 7 * Z.of_nat (S n) in
  (n <= 4)%nat -> 0 <= v < 2 ^ (7 * Z.of_nat (S n) - 3) -> 0 <= acc < 2 ^ sh ->
  offset_valid input off -> offset_rest input off = leb_encode (S n) v ++ r ->
  readVarUInt32_loop input (shifts_from (S n) sh) acc off =
  (Ok (acc + v * 2 ^ sh), off + size (leb_encode (S n) v)).
Proof.
  induction n as [|n IH]; intros v acc off sh Hn Hv Ha Hoff Hr.
  - change (2 ^ (7 * Z.of_nat 1 - 3)) with 16 in Hv. cbn [leb_encode] in *.
    rewrite (proj2 (Z.ltb_lt v 128)) in * by lia.
    cbn [shifts_from readVarUInt32_loop].
    destruct (fetch_some (eof := lengthTruncated) off v r Hoff Hr) as (Ef & _ & _).
    rewrite (bind_ok _ _ _ _ _ Ef), land_f0_small by lia.
    rewrite andb_false_r, land_127, Z.mod_small by lia.
    assert (sh = 28) as -> by lia. rewrite shiftl_mul by lia.
    rewrite land_128 by lia. rewrite (proj2 (Z.ltb_lt v 128)) by lia.
    unfold to_u32. rewrite lor_group by lia.
    rewrite Z.mod_small; [done|].
    change (2 ^ 28) with 268435456 in *. change (2 ^ 32) with 4294967296. lia.
  - remember (S n) as m eqn:Em. cbn [shifts_from readVarUInt32_loop leb_encode] in *.
    assert (sh < 28) as Hsh by lia. assert (0 <= sh) as Hsh0 by lia.
    assert (2 ^ (7 * Z.of_nat (S m) - 3) = 2 ^ (32 - sh)) as Ew by (f_equal; lia).
    destruct (Z.ltb_spec v 128) as [Hlt|Hge].
    + destruct (fetch_some (eof := lengthTruncated) off v r Hoff Hr) as (Ef & _ & _).
      rewrite (bind_ok _ _ _ _ _ Ef). rewrite (proj2 (Z.eqb_neq sh 28)) by lia.
      cbn [andb]. rewrite land_127, Z.mod_small, shiftl_mul, land_128 by lia.
      rewrite (proj2 (Z.ltb_lt v 128)) by lia.
      unfold to_u32. rewrite lor_group by lia. unfold ret. f_equal. f_equal.
      apply Z.mod_small. rewrite Ew in Hv.
      replace 32 with (32 - sh + sh) by lia. rewrite Z.pow_add_r by lia. nia.
    + set (b := v mod 128 + 128) in *.
      pose proof (Z.mod_pos_bound v 128 ltac:(lia)) as Hmod.
      destruct (fetch_some (eof := lengthTruncated) off b _ Hoff Hr) as (Ef & Hv1 & Hr1).
      rewrite (bind_ok _ _ _ _ _ Ef). rewrite (proj2 (Z.eqb_neq sh 28)) by lia.
      cbn [andb]. rewrite land_127, shiftl_mul, land_128 by lia.
      rewrite (proj2 (Z.ltb_ge b 128)) by lia.
      assert (b mod 128 = v mod 128) as ->.
      { unfold b. replace (v mod 128 + 128) with (v mod 128 + 1 * 128) by lia.
        by rewrite Z.mod_add, Z.mod_mod. }
      unfold to_u32. rewrite lor_group by lia.
      assert (2 ^ (sh + 7) = 128 * 2 ^ sh) as E7.
      { rewrite Z.pow_add_r by lia. change (2 ^ 7) with 128. lia. }
      assert (2 ^ (sh + 7) <= 2 ^ 32) by (apply Z.pow_le_mono_r; lia).
      rewrite Z.mod_small by nia.
      assert (sh + 7 = 35 - 7 * Z.of_nat m) as Es by lia. rewrite Es in *.
      assert (0 <= v / 128 < 2 ^ (7 * Z.of_nat m - 3)) as Hvd.
      { split; [apply Z.div_pos; lia|]. apply Z.div_lt_upper_bound; [lia|].
        replace (128 * 2 ^ (7 * Z.of_nat m - 3)) with (2 ^ (7 * Z.of_nat (S m) - 3)); [lia|].
        replace (7 * Z.of_nat (S m) - 3) with (7 + (7 * Z.of_nat m - 3)) by lia.
        rewrite Z.pow_add_r by lia. done. }
      rewrite Em in *. rewrite (IH (v / 128)); [|lia|done|nia|done|done].
      rewrite size_cons. unfold offset_skip. rewrite E7. f_equal; [|lia].
      f_equal. pose proof (Z.div_mod v 128 ltac:(lia)). nia.
Qed.

Lemma readVarUInt32_ok v r :
  is_u 32 v ->
  readVarUInt32 (leb_encode 5 v ++ r) 0 = (Ok v, size (leb_encode 5 v)).
Proof.
  intros Hv. unfold readVarUInt32.
  assert (1 <= size (leb_encode 5 v)) as H1.
  { pose proof (leb_encode_nonempty 4 v). unfold size.
    destruct (leb_encode 5 v); [done|]. simpl length. lia. }
  rewrite size_app. pose proof (size_nonneg r).
  rewrite (proj2 (Z.eqb_neq _ _)) by lia.
  change shifts32 with (shifts_from 5 (35 - 7 * Z.of_nat 5)).
  rewrite (readVarUInt32_loop_ok _ r 4 v 0 0); [|lia|exact Hv|done| |done].
  - change (2 ^ (35 - 7 * Z.of_nat 5)) with 1. by rewrite Z.mul_1_r.
  - split; [lia|]. rewrite size_app. lia.
Qed.

(** ** Round trip *)

Lemma compress_decodes input :
  is_bytes input -> size input < 2 ^ 32 ->
  exists e, compress input = Ok (leb_encode 5 (size input) ++ e) /\ decodes e [] input.
Proof.
  intros Hin H32. unfold compress. pose proof (size_nonneg input).
  rewrite Z.gtb_ltb, (proj2 (Z.ltb_ge _ _)) by lia.
  rewrite to_u32_id by (unfold is_u; lia).
  unfold writeVarUInt32. rewrite write_while_leb by (apply u32_fits_5; unfold is_u; lia).
  destruct (compress_loop_ok input Hin H32
    (S (S (Z.to_nat (size input / SNAPPY_FRAGMENT_SIZE)))) 0
    ([] ++ leb_encode 5 (size input))) as (e & -> & Hd).
  - lia.
  - rewrite Z.sub_0_r. pose proof (Z.div_pos (size input) SNAPPY_FRAGMENT_SIZE). 
    unfold SNAPPY_FRAGMENT_SIZE in *. lia.
  - by exists e.
Qed.

(** ** Safety of the decompressor on arbitrary input *)

Lemma to_u32_nonneg z : 0 <= to_u32 z.
Proof. apply (to_u_range 32). lia. Qed.

Lemma readVarUInt32_loop_safe input shifts : forall value off,
  offset_valid input off -> 0 <= value ->
  runs_safe (readVarUInt32_loop input shifts value) off
    (fun v off' => 0 <= v /\ offset_valid input off').
Proof.
  induction shifts as [|sh shifts IH]; intros value off Hoff Hval; [done|].
  cbn [readVarUInt32_loop]. apply (runs_safe_bind _ _ _ (fun _ o => offset_valid input o)).
  - unfold runs_safe.
    destruct (offset_rest input off) as [|b l] eqn:Er.
    + by rewrite (fetch_none (eof := lengthTruncated) off Hoff Er).
    + destruct (fetch_some (eof := lengthTruncated) off b l Hoff Er) as (-> & Hv & _). done.
  - intros b o Ho. destruct (_ && _); [done|].
    assert (0 <= Z.lor value (to_u32 (Z.shiftl (Z.land b 127) sh))).
    { apply Z.lor_nonneg. split; [done|apply to_u32_nonneg]. }
    destruct (_ =? 0); [done|]. by apply IH.
Qed.

Lemma readLittleEndian_loop_safe input n : forall i value o,
  0 <= o -> o + Z.of_nat n <= size input -> 0 <= value ->
  runs_safe (readLittleEndian_loop input i n value) o
    (fun v o' => 0 <= v /\ o' = o + Z.of_nat n).
Proof.
  induction n as [|n IH]; intros i value o Ho Hs Hv.
  { cbn. unfold runs_safe, ret. lia. }
  cbn [readLittleEndian_loop]. unfold runs_safe, bind, get_st, lift, put_st.
  destruct (vec_at_ok input o) as (b & -> & _); [lia|].
  eapply runs_safe_mono; [apply (IH (S i) _ (o + 1)); [lia|lia|]|].
  - apply Z.lor_nonneg. split; [done|apply to_u32_nonneg].
  - intros v o' [H1 H2]. lia.
Qed.

Lemma readLittleEndian_safe input n msg o :
  offset_valid input o ->
  runs_safe (readLittleEndian input n msg) o
    (fun v o' => 0 <= v /\ offset_valid input o' /\ o <= o').
Proof.
  intros [Ho Hs]. unfold readLittleEndian.
  eapply runs_safe_bind; [by apply (runs_safe_get _ (fun a s => a = o /\ s = o))|].
  intros a s [-> ->]. destruct (Z.gtb_spec (Z.of_nat n) (size input - o)); [done|].
  eapply runs_safe_mono; [apply readLittleEndian_loop_safe; lia|].
  intros v o' [Hv ->]. unfold offset_valid. lia.
Qed.

(** What one element leaves: offsets inside their vectors, the output vector
    of the same size, made of bytes. *)
Definition decode_post (input output : bytes) (o : Z) (r : bytes * Z) (o' : Z) : Prop :=
  offset_valid input o' /\ o <= o' /\ size (fst r) = size output /\
  0 <= snd r <= size output /\
  (is_bytes input -> is_bytes output -> is_bytes (fst r)).

Lemma vec_blit_bytes (dst src : bytes) i r :
  vec_blit dst i src = Ok r -> is_bytes dst -> is_bytes src -> is_bytes r.
Proof.
  unfold vec_blit. destruct (_ && _); [|done]. intros [= <-] Hd Hs.
  rewrite !is_bytes_app. split_and!; [by apply Forall_take|done|by apply Forall_drop].
Qed.

Lemma vec_blit_size (dst src : bytes) i r :
  vec_blit dst i src = Ok r -> size r = size dst.
Proof.
  unfold vec_blit. destruct (_ && _) eqn:E; [|done]. intros [= <-].
  apply andb_prop in E as [E1 E2]. apply Z.leb_le in E1, E2.
  unfold size in *. rewrite !length_app, length_take, length_drop. lia.
Qed.

Lemma decode_literal_safe input tag output oo o :
  0 <= tag -> offset_valid input o -> 0 <= oo <= size output ->
  runs_safe (decode_literal input tag output oo) o (decode_post input output o).
Proof.
  intros Ht Ho Hoo. unfold decode_literal. rewrite shiftr_div by lia. change (2 ^ 2) with 4.
  assert (0 <= tag / 4) by (apply Z.div_pos; lia).
  apply (runs_safe_bind _ _ _ (fun n o' => 0 <= n /\ offset_valid input o' /\ o <= o')).
  { destruct (tag / 4 <? 60).
    - apply runs_safe_ret. split_and!; [lia|done|lia].
    - eapply runs_safe_bind; [by apply readLittleEndian_safe|].
      intros a o' (? & ? & ?). apply runs_safe_ret. split_and!; [lia|done|done]. }
  intros n o' (Hn & [Ho1 Ho2] & Hle).
  unfold runs_safe, bind, get_st, raise, lift, put_st, ret.
  destruct (Z.gtb_spec n (size input - o')); [done|].
  destruct (Z.gtb_spec n (size output - oo)); [done|].
  rewrite vec_range_ok by lia.
  destruct (vec_blit output oo _) as [output'|e] eqn:E.
  - pose proof (vec_blit_size _ _ _ _ E). unfold decode_post, offset_valid. cbn [fst snd].
    split_and!; [lia..|]. intros Hi Hout. eapply vec_blit_bytes; [done|done|].
    by apply Forall_take, Forall_drop.
  - exfalso. unfold vec_blit in E. unfold size in *.
    rewrite length_take, length_drop in E.
    destruct (Z.leb_spec 0 oo); [|lia].
    by rewrite (proj2 (Z.leb_le _ _)) in E by lia.
Qed.

Lemma copy_loop_safe n : forall output oo d,
  1 <= d <= oo -> oo + Z.of_nat n <= size output ->
  exists output', copy_loop n output oo d = Ok (output', oo + Z.of_nat n) /\
    size output' = size output /\ (is_bytes output -> is_bytes output').
Proof.
  induction n as [|n IH]; intros output oo d Hd Hs.
  { exists output. cbn. split_and!; [do 2 f_equal; lia|done|done]. }
  cbn [copy_loop]. destruct (vec_at_ok output (oo - d)) as (b & -> & Hl); [lia|].
  cbn [rbind]. unfold vec_set.
  rewrite (proj2 (Z.leb_le 0 oo)), (proj2 (Z.ltb_lt oo _)) by lia. cbn [andb rbind].
  assert (size (<[Z.to_nat oo := b]> output) = size output) as Hsz.
  { unfold size. by rewrite length_insert. }
  destruct (IH (<[Z.to_nat oo := b]> output) (oo + 1) d) as (out' & -> & Hsz' & Hb'); [lia|lia|].
  exists out'. split_and!; [do 2 f_equal; lia|lia|].
  intros Hb. apply Hb'. apply Forall_insert; [done|].
  by eapply Forall_lookup_1 in Hl; [|exact Hb].
Qed.

Lemma decode_copy_header_safe input tag type o :
  0 <= tag -> offset_valid input o ->
  runs_safe (decode_copy_header input tag type) o
    (fun r o' => 0 <= fst r /\ 0 <= snd r /\ offset_valid input o' /\ o <= o').
Proof.
  intros Ht Ho. unfold decode_copy_header. rewrite shiftr_div by lia. change (2 ^ 2) with 4.
  assert (0 <= tag / 4) by (apply Z.div_pos; lia).
  repeat destruct (_ =? _);
    (eapply runs_safe_bind; [by apply readLittleEndian_safe|]);
    intros v o' (Hv & Ho' & Hle); apply runs_safe_ret; cbn [fst snd]; split_and!; try done.
  - rewrite land_7. pose proof (Z.mod_pos_bound (tag / 4) 8). lia.
  - apply Z.lor_nonneg. split; [apply to_u32_nonneg|done].
  - lia.
  - lia.
Qed.

Lemma decode_copy_safe input tag type output oo o :
  0 <= tag -> offset_valid input o -> 0 <= oo <= size output ->
  runs_safe (decode_copy input tag type output oo) o (decode_post input output o).
Proof.
  intros Ht Ho Hoo. unfold decode_copy.
  eapply runs_safe_bind; [by apply decode_copy_header_safe|].
  intros [n d] o' (Hn & Hd & Ho' & Hle). cbn [fst snd] in *.
  destruct (Z.eqb_spec d 0); [done|]. destruct (Z.gtb_spec d oo); [done|]. cbn [orb].
  destruct (Z.gtb_spec n (size output - oo)); [done|].
  destruct (copy_loop_safe (Z.to_nat n) output oo d) as (out' & -> & Hsz & Hb); [lia|lia|].
  unfold runs_safe, lift, decode_post. cbn [fst snd]. split_and!; (lia || auto).
Qed.

Lemma decompress_loop_safe input : is_bytes input -> forall fuel output oo o,
  offset_valid input o -> 0 <= oo <= size output -> size input - o < Z.of_nat fuel ->
  runs_safe (decompress_loop fuel input output oo) o (decode_post input output o).
Proof.
  intros Hin. induction fuel as [|fuel IH]; intros output oo o Ho Hoo Hf.
  { destruct Ho. lia. }
  destruct (decide (o < size input /\ oo < size output)) as [[H1 H2]|Hno].
  - destruct (vec_at_ok input o) as (tag & Eat & Hl); [destruct Ho; lia|].
    assert (0 <= tag) as Htag.
    { eapply Forall_lookup_1 in Hl; [|exact Hin]. apply Hl. }
    unfold runs_safe. rewrite (decompress_loop_step _ _ _ _ _ tag) by done.
    assert (offset_valid input (o + 1)) as Ho1 by (destruct Ho; split; lia).
    assert (runs_safe (if Z.land tag 3 =? 0 then decode_literal input tag output oo
         else decode_copy input tag (Z.land tag 3) output oo) (o + 1)
         (decode_post input output (o + 1))) as Hstep.
    { destruct (_ =? 0); [by apply decode_literal_safe|by apply decode_copy_safe]. }
    unfold runs_safe in Hstep.
    destruct ((if Z.land tag 3 =? 0 then decode_literal input tag output oo
         else decode_copy input tag (Z.land tag 3) output oo) (o + 1))
      as [[[out' oo']|e] o']; [|done].
    destruct Hstep as (Ho' & Hle & Hsz & Hoo' & Hb). cbn [fst snd] in *.
    eapply runs_safe_mono; [apply (IH out' oo' o'); [done|lia|lia]|].
    intros r o'' (? & ? & ? & ? & ?). unfold decode_post. rewrite Hsz in *.
    split_and!; (lia || auto).
  - cbn [decompress_loop]. unfold runs_safe, bind, get_st, ret.
    destruct ((o <? size input) && (oo <? size output)) eqn:E.
    + apply andb_prop in E as [E1 E2]. apply Z.ltb_lt in E1, E2. tauto.
    + unfold decode_post. cbn [fst snd]. split_and!; (done || lia).
Qed.

(** Decompression of any input: safe, and a returned block consists of as many
    bytes as the length prefix declares. *)
Lemma decompress_any input :
  is_bytes input ->
  safe (decompress input) /\
  forall out, decompress input = Ok out -> is_bytes out /\
    exists off, readVarUInt32 input 0 = (Ok (size out), off).
Proof.
  intros Hin. assert (offset_valid input 0) as H0.
  { split; [lia|apply size_nonneg]. }
  assert (runs_safe (readVarUInt32 input) 0 (fun v o => 0 <= v /\ offset_valid input o)) as Hlen.
  { unfold readVarUInt32. destruct (_ =? 0); [done|]. by apply readVarUInt32_loop_safe. }
  unfold decompress, decompress_m, runs_safe in *. unfold bind.
  destruct (readVarUInt32 input 0) as [[n|e] o] eqn:En; [|split; done].
  destruct Hlen as [Hn Ho].
  pose proof (decompress_loop_safe input Hin (S (length input))
    (replicate (Z.to_nat n) 0) 0 o Ho) as Hloop.
  assert (size (replicate (Z.to_nat n) 0) = n) as Hrep.
  { unfold size. rewrite length_replicate. lia. }
  unfold runs_safe in Hloop. destruct Ho as [Ho1 Ho2].
  specialize (Hloop ltac:(lia) ltac:(unfold size in *; lia)).
  destruct (decompress_loop _ _ _ _ _) as [[[out oo]|e] o']; [|split; done].
  destruct Hloop as (_ & _ & Hsz & _ & Hb). cbn [fst snd] in *.
  unfold get_st. cbn.
  destruct (oo =? size out); [|split; done]. destruct (o' =? size input); [|split; done].
  split; [done|]. intros out' [= <-]. split; [|exists o; by rewrite Hsz, Hrep].
  apply Hb; [done|]. apply Forall_replicate. unfold is_u. lia.
Qed.

Lemma decompress_compress input :
  is_bytes input -> size input < 2 ^ 32 ->
  exists block, compress input = Ok block /\ decompress block = Ok input.
Proof.
  intros Hin H32. destruct (compress_decodes input Hin H32) as (e & Ec & Hd).
  exists (leb_encode 5 (size input) ++ e). split; [done|].
  pose proof (size_nonneg input).
  unfold decompress, decompress_m.
  rewrite (bind_ok _ _ _ _ _ (readVarUInt32_ok (size input) e ltac:(unfold is_u; lia))).
  set (k := leb_encode 5 (size input)).
  pose proof (decompress_loop_ok (k ++ e) e [] input Hd
    (S (length (k ++ e))) (replicate (Z.to_nat (size input)) 0) (size k)) as E.
  rewrite app_nil_l in E. change (size []) with 0 in E.
  rewrite (bind_ok _ _ _ _ _ (E ltac:(rewrite length_app; lia)
    ltac:(exists k, []; by rewrite app_nil_r) ltac:(by rewrite size_app)
    ltac:(unfold size; rewrite length_replicate; lia))).
  unfold bind, get_st, ret. by rewrite !Z.eqb_refl.
Qed.

(** C20: the decompressor is memory safe and terminates on every input, however
    malformed: it returns a block or throws one of its own errors; a returned
    block consists of as many bytes as the length prefix declares. *)
Theorem snappy_decompress_safe input :
  is_bytes input ->
  safe (decompress input) /\
  forall out, decompress input = Ok out -> is_bytes out /\
    exists off, readVarUInt32 input 0 = (Ok (size out), off).
Proof. apply decompress_any. Qed.

Lemma snappy_decompress_safe_witness :
  safe (decompress [3; 200; 1]) /\
  forall out, decompress [3; 200; 1] = Ok out -> is_bytes out /\
    exists off, readVarUInt32 [3; 200; 1] 0 = (Ok (size out), off).
Proof. apply snappy_decompress_safe. by apply (bool_decide_unpack _). Defined.

(** C19: for every input of fewer than 2^32 bytes, [SnappyCodec::compress]
    succeeds and [SnappyCodec::decompress] gives back exactly that input. *)
Theorem snappy_roundtrip input :
  is_bytes input -> size input < 2 ^ 32 ->
  exists block, compress input = Ok block /\ decompress block = Ok input.
Proof. apply decompress_compress. Qed.

Lemma snappy_roundtrip_witness :
  exists block, compress [7; 7; 7; 7; 7; 7; 7; 7; 9] = Ok block /\
    decompress block = Ok [7; 7; 7; 7; 7; 7; 7; 7; 9].
Proof.
  apply (snappy_roundtrip [7; 7; 7; 7; 7; 7; 7; 7; 9]).
  - by apply (bool_decide_unpack _).
  - reflexivity.
Defined.
