(* ===== verification/Zlib.v ===== *)
(** * The zlib interface and the loops that drive it

    zlib is not part of the repository: it is a record of the calls the
    sources make ([zlib]) and a class of documented laws ([ZlibLaws]).  The
    [deflate]/[inflate] loops around it are the repository's code
    (BatchCodec.cpp, BedrockFramer.cpp, VersionedMcpeCodec.cpp). *)

From S2P Require Import Prelude MachineInt.

Definition Z_OK : Z := 0.
Definition Z_STREAM_END : Z := 1.
Definition Z_BUF_ERROR : Z := -5.
Definition Z_DEFAULT_COMPRESSION : Z := -1.

(** A stream after [next_in]/[avail_in] have been set.  [deflate st n] and
    [inflate st n] are one call with [avail_out = n]: the return code, the
    bytes written to [next_out], and the stream. *)
Record zlib := mkZlib {
  zstream : Type;
  deflateInit2 : Z -> bytes -> option zstream;
  deflate : zstream -> Z -> Z * bytes * zstream;
  inflateInit2 : bytes -> option zstream;
  inflate : zstream -> Z -> Z * bytes * zstream;
  avail_in : zstream -> Z
}.

(** [stream.avail_in = static_cast<uInt>(input.size())]. *)
Definition zlib_input (input : bytes) : bytes :=
  take (Z.to_nat (to_u32 (size input))) input.

(** Documented behaviour: [deflate] with [Z_FINISH] hands out the compressed
    stream piece by piece, [Z_OK] meaning that the output buffer was filled;
    [inflate] of a complete raw stream hands out the plain bytes likewise.
    [raw s x]: [s] is a raw deflate stream of [x].  On any input, a call of
    [inflate] that makes no progress returns an error, so that only
    [i_left] more calls with a buffer of at least 1032 bytes can return [Z_OK],
    and it outputs bytes. *)
Class ZlibLaws (z : zlib) := {
  raw : bytes -> bytes -> Prop;
  d_pending : zstream z -> bytes;
  i_pending : zstream z -> bytes;
  i_valid : zstream z -> Prop;
  raw_ratio : forall s x, raw s x -> size x <= 1032 * size s;
  deflateInit2_ok : forall level x, -1 <= level <= 9 ->
    exists st, deflateInit2 z level x = Some st /\ raw (d_pending st) x /\
      size (d_pending st) <= 2 * size x + 64;
  deflate_step : forall st n ret out st', 0 < n ->
    deflate z st n = (ret, out, st') ->
    out ++ d_pending st' = d_pending st /\
    ((ret = Z_STREAM_END /\ d_pending st' = []) \/ (ret = Z_OK /\ size out = n));
  inflateInit2_ok : forall s x, raw s x ->
    exists st, inflateInit2 z s = Some st /\ i_valid st /\ i_pending st = x;
  inflate_step : forall st n ret out st', 0 < n -> i_valid st ->
    inflate z st n = (ret, out, st') ->
    i_valid st' /\ out ++ i_pending st' = i_pending st /\
    ((ret = Z_STREAM_END /\ i_pending st' = []) \/ (ret = Z_OK /\ size out = n));
  i_left : zstream z -> nat;
  i_bytes : zstream z -> Prop;
  inflateInit2_left : forall s st, inflateInit2 z s = Some st ->
    (i_left st <= length s + 2)%nat /\ (is_bytes s -> i_bytes st);
  inflate_left : forall st n ret out st', 1032 <= n ->
    inflate z st n = (ret, out, st') ->
    (ret = Z_OK -> (i_left st' < i_left st)%nat) /\
    (i_bytes st -> is_bytes out /\ i_bytes st')
}.

Section Loops.
Context (z : zlib).

(** [do { next_out = buffer; ret = deflate(&stream, Z_FINISH); if (ret != Z_OK
    && ret != Z_STREAM_END) throw fail; out += produced; } while (ret != Z_STREAM_END)] *)
Fixpoint deflate_loop (fuel : nat) (chunk : Z) (fail : exn) (st : zstream z) (out : bytes)
    : result bytes :=
  match fuel with
  | O => Throw OutOfFuel
  | S fuel' =>
      let '(r, produced, st) := deflate z st chunk in
      if negb (r =? Z_OK) && negb (r =? Z_STREAM_END) then Throw fail
      else
        let out := out ++ produced in
        if negb (r =? Z_STREAM_END) then deflate_loop fuel' chunk fail st out
        else Ok out
  end.

(** The same loop around [inflate(&stream, Z_NO_FLUSH)]. *)
Fixpoint inflate_loop (fuel : nat) (chunk : Z) (fail : exn) (st : zstream z) (out : bytes)
    : result bytes :=
  match fuel with
  | O => Throw OutOfFuel
  | S fuel' =>
      let '(r, produced, st) := inflate z st chunk in
      if negb (r =? Z_OK) && negb (r =? Z_STREAM_END) then Throw fail
      else
        let out := out ++ produced in
        if negb (r =? Z_STREAM_END) then inflate_loop fuel' chunk fail st out
        else Ok out
  end.

(** The loop of VersionedMcpeCodec::inflateRaw: the produced bytes are kept
    first, and a call that returns [Z_OK] with neither input left nor output
    produced is an error. *)
Fixpoint inflate_loop_checked (fuel : nat) (chunk : Z) (fail incomplete : exn)
    (st : zstream z) (out : bytes) : result bytes :=
  match fuel with
  | O => Throw OutOfFuel
  | S fuel' =>
      let '(r, produced, st) := inflate z st chunk in
      let out := out ++ produced in
      if r =? Z_STREAM_END then Ok out
      else if negb (r =? Z_OK) then Throw fail
      else if (avail_in z st =? 0) && (size produced =? 0) then Throw incomplete
      else inflate_loop_checked fuel' chunk fail incomplete st out
  end.

(** One buffer per call is enough: see [deflate_loop_ok] and [inflate_loop_ok]. *)
Definition zlib_fuel (input : bytes) : nat := Z.to_nat (2 * size input + 66).

Context `{!ZlibLaws z}.

Lemma deflate_loop_ok chunk fail fuel : forall st out,
  0 < chunk -> size (d_pending st) < Z.of_nat fuel ->
  deflate_loop fuel chunk fail st out = Ok (out ++ d_pending st).
Proof.
  induction fuel as [|fuel IH]; intros st out Hc Hf.
  { pose proof (size_nonneg (d_pending st)). lia. }
  cbn [deflate_loop]. destruct (deflate z st chunk) as [[r produced] st'] eqn:E.
  destruct (deflate_step _ _ _ _ _ Hc E) as (Ho & [[-> Hnil]|[-> Hsz]]); cbn.
  - rewrite Hnil, app_nil_r in Ho. by rewrite Ho.
  - rewrite <-Ho, size_app in Hf. rewrite IH by lia. by rewrite <-Ho, app_assoc.
Qed.

Lemma inflate_loop_ok chunk fail fuel : forall st out,
  0 < chunk -> i_valid st -> size (i_pending st) < chunk * Z.of_nat fuel ->
  inflate_loop fuel chunk fail st out = Ok (out ++ i_pending st).
Proof.
  induction fuel as [|fuel IH]; intros st out Hc Hv Hf.
  { pose proof (size_nonneg (i_pending st)). lia. }
  cbn [inflate_loop]. destruct (inflate z st chunk) as [[r produced] st'] eqn:E.
  destruct (inflate_step _ _ _ _ _ Hc Hv E) as (Hv' & Ho & [[-> Hnil]|[-> Hsz]]); cbn.
  - rewrite Hnil, app_nil_r in Ho. by rewrite Ho.
  - rewrite <-Ho, size_app in Hf. rewrite IH by (done || lia).
    by rewrite <-Ho, app_assoc.
Qed.

Lemma inflate_loop_checked_ok chunk fail incomplete fuel : forall st out,
  0 < chunk -> i_valid st -> size (i_pending st) < chunk * Z.of_nat fuel ->
  inflate_loop_checked fuel chunk fail incomplete st out = Ok (out ++ i_pending st).
Proof.
  induction fuel as [|fuel IH]; intros st out Hc Hv Hf.
  { pose proof (size_nonneg (i_pending st)). lia. }
  cbn [inflate_loop_checked]. destruct (inflate z st chunk) as [[r produced] st'] eqn:E.
  destruct (inflate_step _ _ _ _ _ Hc Hv E) as (Hv' & Ho & [[-> Hnil]|[-> Hsz]]); cbn.
  - rewrite Hnil, app_nil_r in Ho. by rewrite Ho.
  - rewrite (proj2 (Z.eqb_neq (size produced) 0)), andb_false_r by lia.
    rewrite <-Ho, size_app in Hf. rewrite IH by (done || lia).
    by rewrite <-Ho, app_assoc.
Qed.

Lemma deflate_loop_fuel chunk fail fuel fuel' : forall st out r,
  deflate_loop fuel chunk fail st out = Ok r -> (fuel <= fuel')%nat ->
  deflate_loop fuel' chunk fail st out = Ok r.
Proof.
  revert fuel'. induction fuel as [|fuel IH]; intros fuel' st out r E Hf; [done|].
  destruct fuel' as [|fuel']; [lia|]. cbn [deflate_loop] in *.
  destruct (deflate z st chunk) as [[c produced] st'].
  destruct (_ && _); [done|]. destruct (negb _); [|done].
  apply IH; [done|lia].
Qed.

(** On any input the loops end: with the plain bytes or with their error. *)
Lemma inflate_loop_any chunk fail fuel : forall st out,
  1032 <= chunk -> (i_left st < fuel)%nat ->
  inflate_loop fuel chunk fail st out = Throw fail \/
  exists out', inflate_loop fuel chunk fail st out = Ok out' /\
    (i_bytes st -> is_bytes out -> is_bytes out').
Proof.
  induction fuel as [|fuel IH]; intros st out Hc Hf; [lia|].
  cbn [inflate_loop]. destruct (inflate z st chunk) as [[r produced] st'] eqn:E.
  destruct (inflate_left _ _ _ _ _ Hc E) as (Hl & Hb).
  destruct (Z.eqb_spec r Z_STREAM_END) as [->|].
  - right. eexists. split; [reflexivity|]. intros Hst ?.
    destruct (Hb Hst). by rewrite is_bytes_app.
  - destruct (Z.eqb_spec r Z_OK) as [->|]; [|by left]. cbn.
    destruct (IH st' (out ++ produced)) as [->|(out' & -> & Ho)]; [done| |by left|].
    + specialize (Hl eq_refl). lia.
    + right. exists out'. split; [done|]. intros Hst Hout.
      destruct (Hb Hst). apply Ho; [done|]. by rewrite is_bytes_app.
Qed.

Lemma inflate_loop_checked_any chunk fail incomplete fuel : forall st out,
  1032 <= chunk -> (i_left st < fuel)%nat ->
  (exists e, inflate_loop_checked fuel chunk fail incomplete st out = Throw e /\
     (e = fail \/ e = incomplete)) \/
  exists out', inflate_loop_checked fuel chunk fail incomplete st out = Ok out' /\
    (i_bytes st -> is_bytes out -> is_bytes out').
Proof.
  induction fuel as [|fuel IH]; intros st out Hc Hf; [lia|].
  cbn [inflate_loop_checked]. destruct (inflate z st chunk) as [[r produced] st'] eqn:E.
  destruct (inflate_left _ _ _ _ _ Hc E) as (Hl & Hb).
  destruct (Z.eqb_spec r Z_STREAM_END) as [->|].
  - right. eexists. split; [reflexivity|]. intros Hst ?.
    destruct (Hb Hst). by rewrite is_bytes_app.
  - destruct (Z.eqb_spec r Z_OK) as [->|]; [|left; by eauto]. cbn [negb].
    destruct (_ && _); [left; by eauto|].
    destruct (IH st' (out ++ produced)) as [(e & -> & He)|(out' & -> & Ho)];
      [done| |left; by eauto|].
    + specialize (Hl eq_refl). lia.
    + right. exists out'. split; [done|]. intros Hst Hout.
      destruct (Hb Hst). apply Ho; [done|]. by rewrite is_bytes_app.
Qed.

Lemma zlib_fuel_left s st :
  inflateInit2 z (zlib_input s) = Some st -> (i_left st < zlib_fuel s)%nat.
Proof.
  intros E. destruct (inflateInit2_left _ _ E) as [Hl _].
  unfold zlib_input in Hl. rewrite length_take in Hl. unfold zlib_fuel, size. lia.
Qed.

Lemma zlib_input_id input : size input < 2 ^ 32 -> zlib_input input = input.
Proof.
  intros. unfold zlib_input. pose proof (size_nonneg input).
  rewrite to_u32_id by (unfold is_u; lia). apply take_ge. unfold size. lia.
Qed.

(** A whole compression run yields a raw stream of its input. *)
Lemma deflate_run level chunk fail x :
  -1 <= level <= 9 -> 0 < chunk ->
  exists st s, deflateInit2 z level x = Some st /\ raw s x /\ size s <= 2 * size x + 64 /\
    deflate_loop (zlib_fuel x) chunk fail st [] = Ok s.
Proof.
  intros Hl Hc. destruct (deflateInit2_ok level x Hl) as (st & Hst & Hraw & Hsz).
  exists st, (d_pending st). split_and!; [done|done|done|].
  rewrite deflate_loop_ok; [done|done|]. unfold zlib_fuel.
  pose proof (size_nonneg x). lia.
Qed.

(** A whole decompression run of a raw stream yields the plain bytes. *)
Lemma inflate_run chunk fail s x :
  1032 <= chunk -> raw s x ->
  exists st, inflateInit2 z s = Some st /\
    inflate_loop (zlib_fuel s) chunk fail st [] = Ok x /\
    forall incomplete, inflate_loop_checked (zlib_fuel s) chunk fail incomplete st [] = Ok x.
Proof.
  intros Hc Hraw. destruct (inflateInit2_ok s x Hraw) as (st & Hst & Hv & Hp).
  pose proof (raw_ratio s x Hraw). pose proof (size_nonneg s).
  assert (size (i_pending st) < chunk * Z.of_nat (zlib_fuel s)) as Hf.
  { rewrite Hp. unfold zlib_fuel. rewrite Z2Nat.id by lia. nia. }
  exists st. split_and!; [done| |intros incomplete].
  - rewrite inflate_loop_ok by (done || lia). by rewrite Hp.
  - rewrite inflate_loop_checked_ok by (done || lia). by rewrite Hp.
Qed.
End Loops.

(** ** A concrete instance, for the witnesses

    "Compression" that stores its input: enough to satisfy the laws. *)
Definition stored_step (st : bytes) (n : Z) : Z * bytes * bytes :=
  if size st <=? n then (Z_STREAM_END, st, [])
  else (Z_OK, take (Z.to_nat n) st, drop (Z.to_nat n) st).

Definition stored_zlib : zlib :=
  mkZlib bytes (fun _ x => Some x) stored_step (fun s => Some s) stored_step size.

Lemma stored_step_ok st n r out st' :
  0 < n -> stored_step st n = (r, out, st') ->
  out ++ st' = st /\
  ((r = Z_STREAM_END /\ st' = []) \/ (r = Z_OK /\ size out = n)).
Proof.
  intros Hn. unfold stored_step. destruct (Z.leb_spec (size st) n); intros [= <- <- <-].
  - rewrite app_nil_r. split; [done|]. by left.
  - rewrite take_drop. split; [done|]. right. split; [done|].
    unfold size in *. rewrite length_take. lia.
Qed.

#[export] Instance stored_zlib_laws : ZlibLaws stored_zlib.
Proof.
  refine {| raw := fun s x => s = x; d_pending := fun st : zstream stored_zlib => st;
            i_pending := fun st : zstream stored_zlib => st; i_valid := fun _ => True;
            i_left := fun st : zstream stored_zlib => length st;
            i_bytes := fun st : zstream stored_zlib => is_bytes st |}.
  - intros s x ->. pose proof (size_nonneg x). lia.
  - intros level x _. exists x. pose proof (size_nonneg x). split_and!; [done|done|lia].
  - intros st n r out st'. apply stored_step_ok.
  - intros s x ->. by exists x.
  - intros st n r out st' Hn _ E. split; [done|]. by apply stored_step_ok.
  - intros s st [= ->]. split; [lia|done].
  - intros st n r out st' Hn E. destruct (stored_step_ok st n r out st' ltac:(lia) E) as [<- Hr].
    split; [|by rewrite Forall_app].
    intros ->. destruct Hr as [[? _]|[_ Hr]]; [done|].
    rewrite length_app. unfold size in Hr. lia.
Defined.
