(* ===== verification/Framing.v ===== *)
(** * Length-prefixed batches

    Three classes frame game packets the same way (GamePacketCodec,
    BedrockFramer, VersionedBatchCodec): each packet is preceded by its size
    as a varint.  They differ in the varint implementation they call and in
    what they reject.  The loops are stated once, over the interface
    [LengthCodec] that each varint implementation discharges. *)

From S2P Require Import Prelude MachineInt Leb128.

(** What a batch codec needs from a varint implementation. *)
Class LengthCodec (readLen : bytes -> M Z Z) (writeLen : bytes -> Z -> bytes)
    (eof tooBig : exn) : Prop := {
  write_len : forall out v, is_u 32 v -> writeLen out v = out ++ leb_encode 5 v;
  read_len : forall data off, is_bytes data -> offset_valid data off ->
    readLen data off =
    leb_outcome 32 offset_skip eof tooBig (leb_decode 5 (offset_rest data off)) off;
  length_errors : is_stuck eof = false /\ is_stuck tooBig = false
}.

(** The bytes of a batch. *)
Definition frame1 (p : bytes) : bytes := leb_encode 5 (size p) ++ p.
Definition frames (ps : list bytes) : bytes := concat (map frame1 ps).

Definition small (p : bytes) : Prop := size p < 2 ^ 32.

Section Framing.
Context (readLen : bytes -> M Z Z) (writeLen : bytes -> Z -> bytes).
Context {P : Type} (decode : bytes -> result P).

(** [for (packet : packets) { check; writeLen(out, packet.size()); out += packet; }] *)
Fixpoint frame_loop (check : bytes -> option exn) (packets : list bytes) (out : bytes)
    : result bytes :=
  match packets with
  | [] => Ok out
  | packet :: packets' =>
      match check packet with
      | Some e => Throw e
      | None =>
          frame_loop check packets' (writeLen out (to_u32 (size packet)) ++ packet)
      end
  end.

(** [while (offset < data.size()) { n = readLen; check n; if (offset + n >
    size) throw; packets += decode(data[offset .. offset + n)); offset += n; }] *)
Fixpoint unframe_loop (fuel : nat) (check : Z -> option exn) (tooLong : exn)
    (data : bytes) (packets : list P) : M Z (list P) :=
  match fuel with
  | O => raise OutOfFuel
  | S fuel' =>
      let* offset := get_st in
      if offset <? size data then
        let* packetSize := readLen data in
        match check packetSize with
        | Some e => raise e
        | None =>
            let* offset := get_st in
            if offset + packetSize >? size data then raise tooLong
            else
              let* full := lift (vec_range data offset (offset + packetSize)) in
              put_st (offset + packetSize) ;;;
              let* p := lift (decode full) in
              unframe_loop fuel' check tooLong data (packets ++ [p])
        end
      else ret packets
  end.

Context {eof tooBig : exn} `{HC : !LengthCodec readLen writeLen eof tooBig}.

Lemma frame_loop_ok check packets out :
  Forall small packets -> Forall (fun p => check p = None) packets ->
  frame_loop check packets out = Ok (out ++ frames packets).
Proof.
  intros Hs. revert out.
  induction Hs as [|p ps Hp Hs IH]; intros out Hc; cbn [frame_loop].
  - unfold frames. cbn. by rewrite app_nil_r.
  - apply Forall_cons_1 in Hc as [-> Hc]. unfold small in Hp.
    pose proof (size_nonneg p).
    rewrite to_u32_id, write_len by (unfold is_u; lia).
    rewrite IH by done. unfold frames. cbn [map concat]. unfold frame1 at 2.
    by rewrite <-!app_assoc.
Qed.

Lemma frame_loop_throws check packets e out :
  (exists p, p ∈ packets /\ check p = Some e) -> (forall p e', check p = Some e' -> e' = e) ->
  frame_loop check packets out = Throw e.
Proof.
  intros (p & Hp & Hc) Heq. revert out. induction packets as [|q qs IH]; intros out.
  { by apply not_elem_of_nil in Hp. }
  cbn [frame_loop]. destruct (check q) as [e'|] eqn:E.
  { by rewrite (Heq _ _ E). }
  apply IH. apply elem_of_cons in Hp as [->|Hp]; [congruence|done].
Qed.

Lemma frames_bytes ps : Forall (fun p => is_bytes p) ps -> is_bytes (frames ps).
Proof.
  induction 1 as [|p ps Hp _ IH]; [constructor|].
  unfold frames in *. cbn [map concat]. unfold frame1 at 1.
  rewrite !is_bytes_app. split_and!; [|done|done].
  apply leb_encode_bytes. apply size_nonneg.
Qed.

(** The frame at an offset, and where the next one starts. *)
Lemma frame_at data pre p rest : data = pre ++ frame1 p ++ rest -> is_bytes data -> small p ->
  exists next, readLen data (size pre) = (Ok (size p), next) /\
    vec_range data next (next + size p) = Ok p /\ next + size p = size (pre ++ frame1 p) /\
    size pre < next + size p <= size data.
Proof.
  intros E Hd Hs. unfold small in Hs. pose proof (size_nonneg p). set (k := leb_encode 5 (size p)).
  unfold frame1 in *. fold k in E |- *.
  assert (1 <= size k) as Hk.
  { pose proof (leb_encode_nonempty 4 (size p)). unfold size, k.
    destruct (leb_encode 5 (size p)); [done|]. simpl length. lia. }
  assert (size data = size pre + size k + size p + size rest) as Esz by (rewrite E, !size_app; lia).
  pose proof (size_nonneg rest). pose proof (size_nonneg pre).
  exists (size pre + size k). split_and!.
  - rewrite read_len; [|done|split; lia]. rewrite E at 1. rewrite <-app_assoc, offset_rest_app.
    apply leb_outcome_encode_32. unfold is_u. lia.
  - rewrite E, <-app_assoc, app_assoc. apply vec_range_app; by rewrite size_app.
  - rewrite !size_app. lia.
  - lia.
  - lia.
Qed.

(** Decoding a batch gives the decoded packets, in order. *)
Lemma unframe_loop_ok check tooLong : forall ps ds pre acc fuel data,
  data = pre ++ frames ps ->
  Forall2 (fun p d => decode p = Ok d) ps ds ->
  Forall (fun p => is_bytes p) ps -> is_bytes pre ->
  Forall small ps -> Forall (fun p => check (size p) = None) ps ->
  (length ps < fuel)%nat ->
  unframe_loop fuel check tooLong data acc (size pre) = (Ok (acc ++ ds), size data).
Proof.
  intros ps ds pre acc fuel data Edata Hd. revert pre acc fuel data Edata.
  induction Hd as [|p d ps ds Hd Hds IH]; intros pre acc fuel data Edata Hb Hpre Hs Hc Hf;
    (destruct fuel as [|fuel]; [simpl in Hf; lia|]); cbn [unframe_loop].
  - unfold bind, get_st, ret. subst data. unfold frames. cbn [map concat].
    rewrite !app_nil_r, Z.ltb_irrefl. done.
  - apply Forall_cons_1 in Hb as [Hbp Hb]. apply Forall_cons_1 in Hs as [Hsp Hs].
    apply Forall_cons_1 in Hc as [Hcp Hc].
    unfold frames in Edata. cbn [map concat] in Edata. fold (frames ps) in Edata.
    assert (is_bytes (frame1 p)) as Hfb.
    { unfold frame1. rewrite is_bytes_app. split; [apply leb_encode_bytes, size_nonneg|done]. }
    assert (is_bytes data) as Hdb by (rewrite Edata, !is_bytes_app; split_and!; [done..|by apply frames_bytes]).
    destruct (frame_at data pre p (frames ps) Edata Hdb Hsp) as (next & Er & Ev & En & Hlt).
    unfold bind at 1, get_st. rewrite (proj2 (Z.ltb_lt _ _)) by (pose proof (size_nonneg p); lia).
    rewrite (bind_ok _ _ _ _ _ Er), Hcp. unfold bind at 1.
    rewrite Z.gtb_ltb, (proj2 (Z.ltb_ge _ _)) by lia.
    unfold lift, bind, put_st. rewrite Ev, Hd, En.
    rewrite IH; [by rewrite <-app_assoc|by rewrite Edata, <-!app_assoc|done|
      |done|done|simpl in Hf; lia].
    by rewrite !is_bytes_app.
Qed.

Lemma frames_length_bound ps : (length ps <= length (frames ps))%nat.
Proof.
  induction ps as [|p ps IH]; [simpl; lia|]. unfold frames in *. cbn [map concat length].
  rewrite length_app. unfold frame1 at 1. rewrite length_app.
  pose proof (leb_encode_nonempty 4 (size p)).
  destruct (leb_encode 5 (size p)); [done|]. cbn [length]. lia.
Qed.

(** On any bytes at all, decoding a batch terminates without leaving the
    buffer. *)
Lemma unframe_loop_safe check tooLong data : is_bytes data ->
  is_stuck tooLong = false ->
  (forall n e, check n = Some e -> is_stuck e = false) ->
  (forall p, is_bytes p -> safe (decode p)) ->
  forall fuel acc off, offset_valid data off -> size data - off < Z.of_nat fuel ->
  runs_safe (unframe_loop fuel check tooLong data acc) off
    (fun _ off' => off' = size data).
Proof.
  intros Hd Hl Hck Hdec. destruct length_errors as [He1 He2].
  induction fuel as [|fuel IH]; intros acc off Hoff Hf.
  { destruct Hoff. lia. }
  cbn [unframe_loop]. unfold runs_safe, bind at 1, get_st.
  destruct (Z.ltb_spec off (size data)); [|unfold ret; destruct Hoff; lia].
  unfold bind at 1. rewrite read_len by done.
  assert (is_bytes (offset_rest data off)) as Hrb by by apply Forall_drop.
  destruct (leb_decode 5 (offset_rest data off)) as [v k|k|k] eqn:El; [|done|done].
  destruct (leb_decode_value_bound _ _ _ _ Hrb El) as (Hv & Hk & _).
  assert (size (offset_rest data off) = size data - off) as Esz.
  { destruct Hoff. unfold offset_rest, size in *. rewrite length_drop. lia. }
  cbn [leb_outcome]. unfold offset_skip.
  set (n := v mod 2 ^ 32). assert (0 <= n) as Hn by (by apply Z.mod_pos_bound).
  destruct (check n) as [e|] eqn:Ec; [by apply (Hck n)|].
  unfold bind at 1. destruct (Z.gtb_spec (off + k + n) (size data)); [done|].
  destruct Hoff. unfold bind, lift. rewrite vec_range_ok by lia.
  cbn. assert (is_bytes (take (Z.to_nat (off + k + n - (off + k)))
    (drop (Z.to_nat (off + k)) data))) as Hpb.
  { by apply Forall_take, Forall_drop. }
  specialize (Hdec _ Hpb). destruct (decode _) as [d|e]; [|done].
  apply IH; [split; lia|lia].
Qed.
End Framing.

(** The packets of a small batch are small. *)
Lemma frames_small ps : size (frames ps) < 2 ^ 32 -> Forall small ps.
Proof.
  unfold frames. induction ps as [|p ps IH]; intros H; [constructor|].
  cbn [map concat] in H. unfold frame1 at 1 in H. rewrite !size_app in H.
  pose proof (size_nonneg (leb_encode 5 (size p))). pose proof (size_nonneg p).
  pose proof (size_nonneg (concat (map frame1 ps))).
  constructor; [unfold small; lia|apply IH; lia].
Qed.
