(* ===== verification/GamePacket.v ===== *)
(** * Game packets (src/src/protocol/GamePacketCodec.cpp, PacketRegistry.cpp)

    The packet structure, its header word, and the length-prefixed batches of
    [GamePacketCodec].  Property numbers refer to the list of properties of
    the development. *)

From S2P Require Import Prelude MachineInt Leb128 Endian VarInt Framing.

(** ** GamePacket.hpp *)

Inductive PacketId : Type :=
| Login | PlayStatus | ServerToClientHandshake | ClientToServerHandshake
| ResourcePacksInfo | ResourcePackStack | ResourcePackClientResponse
| Text | StartGame | LevelChunk | RequestChunkRadius | ChunkRadiusUpdated
| SetLocalPlayerAsInitialized | ClientCacheBlobStatus | ClientCacheStatus
| RequestNetworkSettings.

Definition id_of (p : PacketId) : Z :=
  match p with
  | Login => 1 | PlayStatus => 2 | ServerToClientHandshake => 3
  | ClientToServerHandshake => 4 | ResourcePacksInfo => 6 | ResourcePackStack => 7
  | ResourcePackClientResponse => 8 | Text => 9 | StartGame => 11 | LevelChunk => 58
  | RequestChunkRadius => 69 | ChunkRadiusUpdated => 70
  | SetLocalPlayerAsInitialized => 113 | ClientCacheBlobStatus => 121
  | ClientCacheStatus => 129 | RequestNetworkSettings => 193
  end.

Record GamePacket := mkGamePacket {
  packetId : Z;
  senderSubId : Z;
  targetSubId : Z;
  name : string;
  payload : bytes;
  fullPacket : bytes
}.

#[export] Instance GamePacket_eq_dec : EqDecision GamePacket.
Proof. solve_decision. Defined.

(** [struct DecodedBatch { std::vector<GamePacket> packets; }] *)
Abbreviation DecodedBatch := (list GamePacket).

(** [std::to_string] of an unsigned number. *)
Definition to_string (n : Z) : string := pretty (Z.to_N n).

Module PacketRegistry.
Definition nameOf (packetId : Z) : string :=
  if packetId =? 145 then "creative_content"
  else if packetId =? 162 then "item_registry"
  else "packet_" +:+ to_string packetId.
End PacketRegistry.

Module GamePacketCodec.

Definition makeHeader (packetId senderSubId targetSubId : Z) : Z :=
  Z.lor (Z.lor (Z.land packetId 0x3ff)
    (to_u32 (Z.shiftl (Z.land senderSubId 0x03) 10)))
    (to_u32 (Z.shiftl (Z.land targetSubId 0x03) 12)).

Definition decodePacket (fullPacket : bytes) : result GamePacket :=
  match VarInt.readUnsignedVarInt fullPacket 0 with
  | (Throw e, _) => Throw e
  | (Ok header, offset) =>
      let id := Z.land header 0x3ff in
      let! payload :=
        if offset <? size fullPacket
        then vec_range fullPacket offset (size fullPacket) else Ok [] in
      Ok (mkGamePacket id
            (to_u8 (Z.land (Z.shiftr header 10) 0x03))
            (to_u8 (Z.land (Z.shiftr header 12) 0x03))
            (PacketRegistry.nameOf id) payload fullPacket)
  end.

Definition zero_size : exn := RuntimeError "GamePacketCodec::decodeBatch: zero packet size".
Definition outside_batch : exn :=
  RuntimeError "GamePacketCodec::decodeBatch: packet size outside batch".

Definition decodeBatch (framedPackets : bytes) : result DecodedBatch :=
  fst (unframe_loop VarInt.readUnsignedVarInt decodePacket (S (length framedPackets))
         (fun packetSize => if packetSize =? 0 then Some zero_size else None)
         outside_batch framedPackets [] 0).

Definition encodePacket (packetId : Z) (payload : bytes) (senderSubId targetSubId : Z)
    : bytes :=
  let header := makeHeader packetId senderSubId targetSubId in
  VarInt.writeUnsignedVarInt [] header ++ payload.

Definition encodeBatchFromFullPackets (fullPackets : list bytes) : result bytes :=
  frame_loop VarInt.writeUnsignedVarInt (fun _ => None) fullPackets [].

(** The loop of [encodeBatch] that collects the full packets. *)
Fixpoint collect_full (packets : list GamePacket) (fullPackets : list bytes) : list bytes :=
  match packets with
  | [] => fullPackets
  | packet :: packets' =>
      collect_full packets'
        (fullPackets ++
          [if negb (bool_decide (fullPacket packet = [])) then fullPacket packet
           else encodePacket (packetId packet) (payload packet)
                  (senderSubId packet) (targetSubId packet)])
  end.

Definition encodeBatch (packets : list GamePacket) : result bytes :=
  encodeBatchFromFullPackets (collect_full packets []).

(** ** Properties *)

#[export] Instance varint_length_codec :
  LengthCodec VarInt.readUnsignedVarInt VarInt.writeUnsignedVarInt
    VarInt.eofInt VarInt.tooLargeInt.
Proof.
  split; [apply VarInt.writeUnsignedVarInt_leb|apply VarInt.readUnsignedVarInt_leb|done].
Qed.

Lemma makeHeader_arith id s t :
  makeHeader id s t = id mod 1024 + (s mod 4) * 1024 + (t mod 4) * 4096.
Proof.
  unfold makeHeader. rewrite land_1023, !land_3. unfold to_u32.
  pose proof (Z.mod_pos_bound id 1024 ltac:(lia)).
  pose proof (Z.mod_pos_bound s 4 ltac:(lia)).
  pose proof (Z.mod_pos_bound t 4 ltac:(lia)).
  rewrite !shiftl_small by lia.
  rewrite (lor_mul_add _ _ 10) by (change (2 ^ 10) with 1024; lia).
  rewrite lor_mul_add by (change (2 ^ 10) with 1024; change (2 ^ 12) with 4096; lia).
  change (2 ^ 10) with 1024. change (2 ^ 12) with 4096. lia.
Qed.

Lemma makeHeader_range id s t : is_u 14 (makeHeader id s t).
Proof.
  rewrite makeHeader_arith. unfold is_u. change (2 ^ 14) with 16384.
  pose proof (Z.mod_pos_bound id 1024 ltac:(lia)).
  pose proof (Z.mod_pos_bound s 4 ltac:(lia)).
  pose proof (Z.mod_pos_bound t 4 ltac:(lia)). lia.
Qed.

Lemma makeHeader_u32 id s t : is_u 32 (makeHeader id s t).
Proof. eapply is_u_weaken; [|apply makeHeader_range]. lia. Qed.

(** The fields of a header word. *)
Lemma header_fields id s t :
  let h := makeHeader id s t in
  Z.land h 0x3ff = id mod 1024 /\
  to_u8 (Z.land (Z.shiftr h 10) 0x03) = s mod 4 /\
  to_u8 (Z.land (Z.shiftr h 12) 0x03) = t mod 4.
Proof.
  intros h. unfold h. rewrite makeHeader_arith, land_1023, !land_3, !shiftr_div by lia.
  pose proof (Z.mod_pos_bound id 1024 ltac:(lia)).
  pose proof (Z.mod_pos_bound s 4 ltac:(lia)).
  pose proof (Z.mod_pos_bound t 4 ltac:(lia)).
  set (x := id mod 1024) in *. set (y := s mod 4) in *. set (w := t mod 4) in *.
  change (2 ^ 10) with 1024. change (2 ^ 12) with 4096.
  replace ((x + y * 1024 + w * 4096) mod 1024) with x
    by (apply (Z.mod_unique _ _ (y + 4 * w)); lia).
  replace ((x + y * 1024 + w * 4096) / 1024) with (y + 4 * w)
    by (apply (Z.div_unique _ _ _ x); lia).
  replace ((x + y * 1024 + w * 4096) / 4096) with w
    by (apply (Z.div_unique _ _ _ (x + y * 1024)); lia).
  replace ((y + 4 * w) mod 4) with y by (apply (Z.mod_unique _ _ w); lia).
  rewrite (Z.mod_small w) by lia.
  split_and!; [done| |]; apply to_u8_id; unfold is_u; change (2 ^ 8) with 256; lia.
Qed.

Lemma encodePacket_leb id p s t :
  encodePacket id p s t = leb_encode 5 (makeHeader id s t) ++ p.
Proof.
  unfold encodePacket. by rewrite VarInt.writeUnsignedVarInt_leb by apply makeHeader_u32.
Qed.

(** What a decoded packet looks like. *)
Definition decoded (id s t : Z) (p : bytes) : GamePacket :=
  mkGamePacket (id mod 1024) (s mod 4) (t mod 4)
    (PacketRegistry.nameOf (id mod 1024)) p (encodePacket id p s t).

Lemma decode_encode id p s t :
  is_bytes p -> decodePacket (encodePacket id p s t) = Ok (decoded id s t p).
Proof.
  intros Hp. unfold decodePacket, decoded. rewrite encodePacket_leb.
  pose proof (VarInt.readUnsignedVarInt_at [] p (makeHeader id s t)
    (makeHeader_u32 _ _ _) ltac:(constructor) Hp) as E.
  rewrite size_nil in E. rewrite app_nil_l in E. rewrite E.
  destruct (header_fields id s t) as (-> & -> & ->).
  set (k := leb_encode 5 _). cbn [rbind].
  rewrite size_app, Z.add_0_l. pose proof (size_nonneg p).
  destruct (Z.ltb_spec (size k) (size k + size p)).
  - rewrite <-size_app. by rewrite vec_range_tail.
  - rewrite (size_zero_inv p) by lia. done.
Qed.

(** On any bytes, decoding a packet is safe and keeps them as [fullPacket]. *)
Lemma decodePacket_shape d :
  is_bytes d ->
  match decodePacket d with
  | Ok p => is_u 10 (packetId p) /\ is_u 2 (senderSubId p) /\ is_u 2 (targetSubId p) /\
      name p = PacketRegistry.nameOf (packetId p) /\ fullPacket p = d /\
      exists header, d = header ++ payload p /\ 1 <= size header <= 5
  | Throw e => e = VarInt.eofInt \/ e = VarInt.tooLargeInt
  end.
Proof.
  intros Hd. unfold decodePacket. pose proof (size_nonneg d).
  rewrite VarInt.readUnsignedVarInt_leb by (done || split; lia).
  unfold offset_rest. rewrite drop_0.
  destruct (leb_decode 5 d) as [v k|k|k] eqn:E; cbn [leb_outcome]; [|by left|by right].
  destruct (leb_decode_value_bound _ _ _ _ Hd E) as (_ & Hk & Hk5).
  unfold offset_skip. rewrite Z.add_0_l. set (h := v mod 2 ^ 32).
  assert (forall (o : result bytes) p, o = Ok p -> d = take (Z.to_nat k) d ++ p ->
    match (let! payload := o in
      Ok (mkGamePacket (Z.land h 0x3ff) (to_u8 (Z.land (Z.shiftr h 10) 0x03))
            (to_u8 (Z.land (Z.shiftr h 12) 0x03))
            (PacketRegistry.nameOf (Z.land h 0x3ff)) payload d)) with
    | Ok p => is_u 10 (packetId p) /\ is_u 2 (senderSubId p) /\ is_u 2 (targetSubId p) /\
      name p = PacketRegistry.nameOf (packetId p) /\ fullPacket p = d /\
      exists header, d = header ++ payload p /\ 1 <= size header <= 5
    | Throw e => e = VarInt.eofInt \/ e = VarInt.tooLargeInt
    end) as H5.
  { intros o p -> Hd'. cbn [rbind packetId senderSubId targetSubId name fullPacket payload].
    rewrite land_1023, !land_3. unfold to_u8.
    assert (forall z, is_u 2 ((z mod 4) mod 2 ^ 8)).
    { intros z. pose proof (Z.mod_pos_bound z 4 ltac:(lia)).
      rewrite Z.mod_small by (change (2 ^ 8) with 256; lia). unfold is_u. lia. }
    split_and!; [apply Z.mod_pos_bound; lia|done|done|done|done|].
    exists (take (Z.to_nat k) d). split; [done|].
    unfold size in *. rewrite length_take. lia. }
  destruct (Z.ltb_spec k (size d)).
  - eapply H5; [apply vec_range_ok; lia|].
    rewrite (take_ge (drop _ _)); [by rewrite take_drop|].
    rewrite length_drop. unfold size in *. lia.
  - eapply H5; [done|]. rewrite app_nil_r. symmetry. apply take_ge.
    unfold size in *. lia.
Qed.

Lemma decodePacket_safe d : is_bytes d -> safe (decodePacket d).
Proof.
  intros Hd. pose proof (decodePacket_shape d Hd) as H.
  destruct (decodePacket d) as [p|e]; [done|]. by destruct H as [-> | ->].
Qed.

Lemma decodeBatch_runs_safe d : is_bytes d -> safe (decodeBatch d).
Proof.
  intros Hd. unfold decodeBatch. eapply runs_safe_safe, unframe_loop_safe;
    [apply _|done|done| |by apply decodePacket_safe|split; [lia|apply size_nonneg]|unfold size; lia].
  intros n e. destruct (n =? 0); [intros [= <-]|]; done.
Qed.

Lemma encodeBatchFromFullPackets_frames ps :
  Forall small ps -> encodeBatchFromFullPackets ps = Ok (frames ps).
Proof.
  intros Hs. unfold encodeBatchFromFullPackets.
  rewrite (frame_loop_ok _ _ (HC := varint_length_codec)); [done|done|]. by apply Forall_forall.
Qed.

Lemma decodeBatch_frames ps ds :
  Forall2 (fun p d => decodePacket p = Ok d) ps ds ->
  Forall (fun p => is_bytes p) ps -> Forall small ps -> Forall (fun p => p <> []) ps ->
  decodeBatch (frames ps) = Ok ds.
Proof.
  intros Hd Hb Hs Hne. unfold decodeBatch.
  rewrite (unframe_loop_ok _ _ _ (HC := varint_length_codec) _ _ ps ds []);
    [done|done|done|done|constructor|done| |].
  - eapply Forall_impl; [|exact Hne]. intros p Hp. cbn.
    destruct (Z.eqb_spec (size p) 0) as [E|]; [|done].
    by apply size_zero_inv in E.
  - pose proof (frames_length_bound ps). lia.
Qed.

Definition wire (p : GamePacket) : bytes :=
  if negb (bool_decide (fullPacket p = [])) then fullPacket p
  else encodePacket (packetId p) (payload p) (senderSubId p) (targetSubId p).

Lemma collect_full_wire ps acc : collect_full ps acc = acc ++ map wire ps.
Proof.
  revert acc. induction ps as [|p ps IH]; intros acc; cbn [collect_full map].
  - by rewrite app_nil_r.
  - rewrite IH. by rewrite <-app_assoc.
Qed.

(** A packet the codec can carry: identifiers in range, and either no cached
    wire bytes or the ones its fields encode to. *)
Definition packet_ok (p : GamePacket) : Prop :=
  is_u 10 (packetId p) /\ is_u 2 (senderSubId p) /\ is_u 2 (targetSubId p) /\
  name p = PacketRegistry.nameOf (packetId p) /\ is_bytes (payload p) /\
  size (payload p) < 2 ^ 31 /\
  (fullPacket p = [] \/
   fullPacket p = encodePacket (packetId p) (payload p) (senderSubId p) (targetSubId p)).

#[export] Instance packet_ok_dec p : Decision (packet_ok p).
Proof. unfold packet_ok. apply _. Defined.

Definition with_full (p : GamePacket) : GamePacket :=
  mkGamePacket (packetId p) (senderSubId p) (targetSubId p) (name p) (payload p)
    (encodePacket (packetId p) (payload p) (senderSubId p) (targetSubId p)).

Lemma wire_ok p : packet_ok p ->
  wire p = fullPacket (with_full p) /\ decodePacket (wire p) = Ok (with_full p) /\
  is_bytes (wire p) /\ small (wire p) /\ wire p <> [].
Proof.
  intros (Hi & Hs & Ht & Hn & Hb & Hsz & Hf).
  assert (wire p = fullPacket (with_full p)) as E.
  { unfold wire. destruct Hf as [->|Hf]; [done|].
    case_bool_decide as E; [done|]. exact Hf. }
  rewrite E. cbn [fullPacket with_full]. split_and!; [done| | | |].
  - rewrite decode_encode by done. unfold decoded, with_full. rewrite Hn.
    unfold is_u in Hi, Hs, Ht. by rewrite !Z.mod_small by lia.
  - rewrite encodePacket_leb, is_bytes_app. split; [|done].
    apply leb_encode_bytes, makeHeader_u32.
  - rewrite encodePacket_leb. unfold small. rewrite size_app.
    pose proof (leb_encode_length 5 (makeHeader (packetId p) (senderSubId p) (targetSubId p))).
    unfold size in *. lia.
  - rewrite encodePacket_leb. intros [H _]%app_nil. by apply leb_encode_nonempty in H.
Qed.

(** [decodePacket] inverts [encodePacket]: the header keeps ten bits of
    the packet id and two bits of each sub-client id, the name comes from the
    registry, and the payload and the full packet are returned unchanged. *)
Theorem packet_roundtrip id p s t :
  is_bytes p ->
  decodePacket (encodePacket id p s t) =
  Ok (mkGamePacket (id mod 1024) (s mod 4) (t mod 4)
        (PacketRegistry.nameOf (id mod 1024)) p (encodePacket id p s t)).
Proof. apply decode_encode. Qed.

Lemma packet_roundtrip_witness :
  decodePacket (encodePacket 1023 [1; 2; 255] 5 2) =
  Ok (mkGamePacket 1023 1 2 "packet_1023" [1; 2; 255] [255; 79; 1; 2; 255]).
Proof. rewrite packet_roundtrip by by apply (bool_decide_unpack _). vm_compute. done. Defined.

(** [decodeBatch] inverts [encodeBatch] on any list of packets the codec
    can carry: every packet comes back, in order, with its wire bytes filled
    in. *)
Theorem batch_roundtrip ps :
  Forall packet_ok ps ->
  exists framed, encodeBatch ps = Ok framed /\ decodeBatch framed = Ok (map with_full ps).
Proof.
  intros Hok. assert (Forall (fun p => wire p = fullPacket (with_full p) /\
    decodePacket (wire p) = Ok (with_full p) /\
    is_bytes (wire p) /\ small (wire p) /\ wire p <> []) ps) as H.
  { eapply Forall_impl; [|exact Hok]. apply wire_ok. }
  exists (frames (map wire ps)). unfold encodeBatch. rewrite collect_full_wire, app_nil_l.
  assert (Forall small (map wire ps)) as Hsm.
  { apply Forall_map. eapply Forall_impl; [|exact H]. by intros p (_ & _ & _ & ? & _). }
  split; [by apply encodeBatchFromFullPackets_frames|].
  apply decodeBatch_frames; [|apply Forall_map|done|apply Forall_map].
  - clear -H. induction H as [|p ps (_ & Hd & _) _ IH]; by constructor.
  - eapply Forall_impl; [|exact H]. by intros p (_ & _ & ? & _).
  - eapply Forall_impl; [|exact H]. by intros p (_ & _ & _ & _ & ?).
Qed.

Definition batch_example : list GamePacket :=
  [mkGamePacket 9 0 0 "packet_9" [3; 1; 65] [];
   mkGamePacket 145 1 3 "creative_content" [] [145; 105]].

Lemma batch_roundtrip_witness :
  exists framed, encodeBatch batch_example = Ok framed /\
    decodeBatch framed = Ok (map with_full batch_example).
Proof.
  apply batch_roundtrip. by apply (bool_decide_unpack _).
Defined.

(** [decodePacket] accepts arbitrary bytes without leaving the buffer; what
    it returns has its identifiers in range, and its payload is exactly what
    follows a header of one to five bytes. *)
Theorem decodePacket_any d :
  is_bytes d ->
  match decodePacket d with
  | Ok p => is_u 10 (packetId p) /\ is_u 2 (senderSubId p) /\ is_u 2 (targetSubId p) /\
      name p = PacketRegistry.nameOf (packetId p) /\ fullPacket p = d /\
      exists header, d = header ++ payload p /\ 1 <= size header <= 5
  | Throw e => e = VarInt.eofInt \/ e = VarInt.tooLargeInt
  end.
Proof. apply decodePacket_shape. Qed.

Lemma decodePacket_any_witness :
  decodePacket [141; 8; 7] = Ok (mkGamePacket 13 1 0 "packet_13" [7] [141; 8; 7]) /\
  match decodePacket [141; 8; 7] with
  | Ok p => is_u 10 (packetId p) /\ is_u 2 (senderSubId p) /\ is_u 2 (targetSubId p) /\
      name p = PacketRegistry.nameOf (packetId p) /\ fullPacket p = [141; 8; 7] /\
      exists header, [141; 8; 7] = header ++ payload p /\ 1 <= size header <= 5
  | Throw e => e = VarInt.eofInt \/ e = VarInt.tooLargeInt
  end.
Proof.
  split; [by vm_compute|]. apply (decodePacket_any [141; 8; 7]).
  by apply (bool_decide_unpack _).
Defined.
End GamePacketCodec.
