(* ===== verification/Text.v ===== *)
(** * Numbers and characters in strings

    [std::stoi] and [std::string::find] as the sources use them, and the
    decimal strings of [std::to_string]. *)

From S2P Require Import Prelude MachineInt GamePacket.

Definition is_digit (c : Ascii.ascii) : bool :=
  let b := byte_of_ascii c in (48 <=? b) && (b <=? 57).
Definition is_space (c : Ascii.ascii) : bool :=
  let b := byte_of_ascii c in (b =? 32) || ((9 <=? b) && (b <=? 13)).

Fixpoint skip_space (l : list Ascii.ascii) : list Ascii.ascii :=
  match l with c :: l' => if is_space c then skip_space l' else l | [] => [] end.

(** The value of the leading digits, and whether there was one. *)
Fixpoint digits (l : list Ascii.ascii) (acc : Z) (some : bool) : Z * bool :=
  match l with
  | c :: l' => if is_digit c then digits l' (acc * 10 + (byte_of_ascii c - 48)) true else (acc, some)
  | [] => (acc, some)
  end.

Definition stoi (s : string) : result Z :=
  let l := skip_space (String.list_ascii_of_string s) in
  let (neg, l) := match l with
                  | c :: l' => if byte_of_ascii c =? 45 then (true, l')
                               else if byte_of_ascii c =? 43 then (false, l') else (false, l)
                  | [] => (false, l)
                  end in
  let (v, some) := digits l 0 false in
  let v := if neg then - v else v in
  if negb some then Throw (InvalidArgument "stoi")
  else if bool_decide (is_s 32 v) then Ok v else Throw (OutOfRange "stoi").

(** A minus sign, and the number that the digits make. *)
Definition number_of (s : string) : option (bool * Z) :=
  let l := skip_space (String.list_ascii_of_string s) in
  let (neg, l) := match l with
                  | c :: l' => if byte_of_ascii c =? 45 then (true, l')
                               else if byte_of_ascii c =? 43 then (false, l') else (false, l)
                  | [] => (false, l)
                  end in
  let (v, some) := digits l 0 false in
  if some then Some (neg, v) else None.

(** [std::stoul] takes a minus sign modulo 2^64. *)
Definition stoul (s : string) : result Z :=
  match number_of s with
  | None => Throw (InvalidArgument "stoul")
  | Some (neg, v) =>
      if v <? 2 ^ 64 then Ok (if neg : bool then to_u64 (- v) else v) else Throw (OutOfRange "stoul")
  end.

(** [std::string::rfind] of a character. *)
Fixpoint rfind_char (c : Ascii.ascii) (s : string) : option nat :=
  match s with
  | EmptyString => None
  | String d s' =>
      match rfind_char c s' with
      | Some i => Some (S i)
      | None => if decide (d = c) then Some O else None
      end
  end.

(** [std::string::find] of a character. *)
Fixpoint find_char (c : Ascii.ascii) (s : string) : option nat :=
  match s with
  | EmptyString => None
  | String d s' => if decide (d = c) then Some O else S <$> find_char c s'
  end.

(** ** Decimal strings *)

Lemma pretty_char_digit n : (n < 10)%N ->
  is_digit (pretty_N_char n) = true /\ byte_of_ascii (pretty_N_char n) = 48 + Z.of_N n.
Proof.
  intros Hn. destruct n as [|p]; [done|].
  do 4 (destruct p as [p|p|]; try (exfalso; lia); try by split).
Qed.

Lemma digits_go n : forall s b,
  digits (String.list_ascii_of_string (pretty_N_go n s)) 0 b =
  digits (String.list_ascii_of_string s) (Z.of_N n) (b || (0 <? n)%N).
Proof.
  induction (N.lt_wf_0 n) as [n _ IH]. intros s b.
  destruct (N.eq_dec n 0) as [->|Hn].
  { rewrite pretty_N_go_0. by rewrite orb_false_r. }
  rewrite pretty_N_go_step, IH by (lia || (apply N.div_lt; lia)). cbn [String.list_ascii_of_string digits].
  destruct (pretty_char_digit (n `mod` 10)) as [-> ->]; [by apply N.mod_lt|].
  replace (0 <? n)%N with true by (symmetry; apply N.ltb_lt; lia). rewrite orb_true_r. f_equal.
  pose proof (N.div_mod n 10 ltac:(lia)). lia.
Qed.

Lemma digits_pretty (n : N) :
  digits (String.list_ascii_of_string (pretty n)) 0 false = (Z.of_N n, true).
Proof.
  unfold pretty, pretty_N. case_decide as Hn; [by subst|].
  rewrite digits_go. cbn. f_equal. apply N.ltb_lt. lia.
Qed.

(** A number starts with a digit. *)
Lemma pretty_first (n : N) : exists c s, pretty n = String c s /\ is_digit c = true.
Proof.
  assert (forall (n : N) c s, is_digit c = true ->
    exists c' s', pretty_N_go n (String c s) = String c' s' /\ is_digit c' = true) as H.
  { intros m. induction (N.lt_wf_0 m) as [m _ IH]. intros c s Hc.
    destruct (N.eq_dec m 0) as [->|Hm]; [rewrite pretty_N_go_0; eauto|].
    rewrite pretty_N_go_step by lia. apply IH; [apply N.div_lt; lia|].
    apply pretty_char_digit. by apply N.mod_lt. }
  unfold pretty, pretty_N. case_decide as Hn; [by eexists _, _|].
  rewrite pretty_N_go_step by lia. apply H. apply pretty_char_digit. by apply N.mod_lt.
Qed.

Lemma find_char_cons c d s : d <> c -> find_char c (String d s) = S <$> find_char c s.
Proof. intros H. cbn. by rewrite decide_False. Qed.

Lemma find_char_go c n : is_digit c = false -> forall s,
  find_char c s = None -> find_char c (pretty_N_go n s) = None.
Proof.
  intros Hc. induction (N.lt_wf_0 n) as [n _ IH]. intros s Hs.
  destruct (N.eq_dec n 0) as [->|Hn]; [by rewrite pretty_N_go_0|].
  rewrite pretty_N_go_step by lia. apply IH; [apply N.div_lt; lia|]. cbn.
  rewrite decide_False; [by rewrite Hs|]. intros <-.
  destruct (pretty_char_digit (n `mod` 10)) as [E _]; [by apply N.mod_lt|]. congruence.
Qed.

Lemma find_char_pretty c (n : N) : is_digit c = false -> find_char c (pretty n) = None.
Proof. intros Hc. unfold pretty, pretty_N. case_decide; [cbn; rewrite decide_False; [done|by intros <-]|by apply find_char_go]. Qed.

(** [std::stoi] reads back what [std::to_string] writes. *)
Lemma stoi_unsigned v : 0 <= v -> is_s 32 v -> stoi (to_string v) = Ok v.
Proof.
  intros H0 Hv. unfold to_string, stoi.
  destruct (pretty_first (Z.to_N v)) as (c & s & E & Hc).
  assert (is_space c = false /\ (byte_of_ascii c =? 45) = false /\ (byte_of_ascii c =? 43) = false)
    as (Hs & H45 & H43) by (unfold is_digit, is_space in *; lia).
  pose proof (digits_pretty (Z.to_N v)) as Hd. rewrite E in Hd |- *.
  cbn [String.list_ascii_of_string] in Hd |- *. cbn [skip_space]. rewrite Hs, H45, H43, Hd. cbn [negb].
  replace (Z.of_N (Z.to_N v)) with v by lia. by rewrite bool_decide_true.
Qed.

Lemma stoi_safe s : safe (stoi s).
Proof.
  unfold stoi. destruct (skip_space _) as [|c l]; [done|].
  destruct (byte_of_ascii c =? 45); [|destruct (byte_of_ascii c =? 43)]; cbn iota;
    destruct (digits _ 0 false) as [v []]; cbn; by try case_bool_decide.
Qed.

(** ** Splitting at a character *)

Lemma app_cons d s r : String d s +:+ r = String d (s +:+ r).
Proof. done. Qed.
Lemma app_empty r : "" +:+ r = r.
Proof. done. Qed.

Lemma app_empty_r s : s +:+ "" = s.
Proof. induction s as [|c s IH]; [done|]. by rewrite app_cons, IH. Qed.

Lemma find_char_here c s : find_char c (String c s) = Some O.
Proof. cbn. by rewrite decide_True. Qed.

Lemma find_char_app c s r : find_char c s = None ->
  find_char c (s +:+ String c r) = Some (String.length s).
Proof.
  induction s as [|d s IH]; [intros _; apply find_char_here|]. rewrite app_cons.
  destruct (decide (d = c)) as [->|Hd]; [by rewrite find_char_here|]. rewrite !find_char_cons by done.
  destruct (find_char c s); [done|]. intros _. by rewrite IH.
Qed.

Lemma substring_prefix s r : String.substring 0 (String.length s) (s +:+ r) = s.
Proof.
  induction s as [|d s IH]; [by destruct r|]. rewrite app_cons. cbn [String.length String.substring].
  by rewrite IH.
Qed.

Lemma substring_all s : String.substring 0 (String.length s) s = s.
Proof. induction s as [|d s IH]; cbn; [done|by rewrite IH]. Qed.

Lemma substring_suffix s r n : n = String.length r ->
  String.substring (String.length s) n (s +:+ r) = r.
Proof. intros ->. induction s as [|d s IH]; [apply substring_all|exact IH]. Qed.

Lemma length_append s r : String.length (s +:+ r) = (String.length s + String.length r)%nat.
Proof. induction s as [|d s IH]; [done|]. rewrite app_cons. cbn [String.length]. by rewrite IH. Qed.

Lemma append_assoc s r t : (s +:+ r) +:+ t = s +:+ (r +:+ t).
Proof. induction s as [|d s IH]; [done|]. by rewrite !app_cons, IH. Qed.

Lemma split_inj c s1 : forall s2 r1 r2,
  s1 +:+ String c r1 = s2 +:+ String c r2 -> find_char c s1 = None -> find_char c s2 = None ->
  s1 = s2 /\ r1 = r2.
Proof.
  induction s1 as [|d1 s1 IH]; intros [|d2 s2] r1 r2; rewrite ?app_cons, ?app_empty.
  - by intros [= ->].
  - intros [= <- _] _. by rewrite find_char_here.
  - intros [= -> _]. by rewrite find_char_here.
  - intros [= <- Er]. destruct (decide (d1 = c)) as [->|Hd]; [by rewrite find_char_here|].
    rewrite !find_char_cons by done.
    destruct (find_char c s1) eqn:E1; [done|]. destruct (find_char c s2) eqn:E2; [done|].
    intros _ _. by destruct (IH s2 r1 r2 Er eq_refl E2) as [-> ->].
Qed.

(** ** Version strings *)

(** A version of three numbers. *)
Definition version_string (major minor patch : Z) : string :=
  to_string major +:+ String (Ascii.ascii_of_nat 46)
    (to_string minor +:+ String (Ascii.ascii_of_nat 46) (to_string patch)).

(** The order of such versions. *)
Definition version_ge (a b c major minor patch : Z) : Prop :=
  major < a \/ a = major /\ (minor < b \/ b = minor /\ patch <= c).

Lemma to_string_nonempty v : to_string v <> "".
Proof. unfold to_string. by destruct (pretty_first (Z.to_N v)) as (c & s & -> & _). Qed.

(** Every character of a number is a digit. *)
Lemma pretty_digits (n : N) : Forall (fun c => is_digit c = true) (String.list_ascii_of_string (pretty n)).
Proof.
  assert (forall n s, Forall (fun c => is_digit c = true) (String.list_ascii_of_string s) ->
    Forall (fun c => is_digit c = true) (String.list_ascii_of_string (pretty_N_go n s))) as H.
  { intros m. induction (N.lt_wf_0 m) as [m _ IH]. intros s Hs. destruct (N.eq_dec m 0) as [->|Hm]; [by rewrite pretty_N_go_0|].
    rewrite pretty_N_go_step by lia. apply IH; [apply N.div_lt; lia|]. cbn. constructor; [|done].
    apply pretty_char_digit. by apply N.mod_lt. }
  unfold pretty, pretty_N. case_decide; [by repeat constructor|]. by apply H.
Qed.

Lemma list_ascii_app s r : String.list_ascii_of_string (s +:+ r) =
  String.list_ascii_of_string s ++ String.list_ascii_of_string r.
Proof. induction s as [|c s IH]; [done|]. rewrite app_cons. cbn. by rewrite IH. Qed.
