(* ===== verification/Packets.v ===== *)
(** * Packet factory and dispatcher

    [PacketFactory] models src/src/protocol/PacketFactory.cpp and
    [PacketDispatcher] models src/src/protocol/PacketDispatcher.cpp. *)

From S2P Require Import Prelude MachineInt Leb128 Endian VarInt ZigZag Framing GamePacket.

Module PacketFactory.

Inductive ResourcePackResponseStatus : Type :=
| Refused | SendPacks | HaveAllPacks | Completed.

Definition status_byte (s : ResourcePackResponseStatus) : Z :=
  match s with Refused => 1 | SendPacks => 2 | HaveAllPacks => 3 | Completed => 4 end.

Definition encode (id : PacketId) (payload : bytes) : bytes :=
  GamePacketCodec.encodePacket (id_of id) payload 0 0.

Definition networkSettingsRequest (protocolVersion : Z) : bytes :=
  encode RequestNetworkSettings (VarInt.writeBe32 [] protocolVersion).

Definition requestNetworkSettings (protocolVersion : Z) : bytes :=
  networkSettingsRequest protocolVersion.

Definition clientToServerHandshake : bytes := encode ClientToServerHandshake [].

Definition resourcePackClientResponse (status : ResourcePackResponseStatus) : bytes :=
  encode ResourcePackClientResponse (VarInt.writeLe16 ([] ++ [status_byte status]) 0).

Definition resourcePackClientResponseHaveAllPacks : bytes :=
  resourcePackClientResponse HaveAllPacks.
Definition resourcePackClientResponseCompleted : bytes :=
  resourcePackClientResponse Completed.

Definition clientCacheStatus (enabled : bool) : bytes :=
  encode ClientCacheStatus [if enabled then 1 else 0].

Definition requestChunkRadius (radius : Z) : bytes :=
  let out := [] ++ [to_u8 (id_of RequestChunkRadius)] in
  let encodedRadius :=
    Z.lxor (to_u32 (Z.shiftl (to_u32 radius) 1)) (to_u32 (Z.shiftr radius 31)) in
  write_while 5 out encodedRadius ++ [0x00].

Definition setLocalPlayerInitializedMinusOne : bytes :=
  encode SetLocalPlayerAsInitialized
    [0xff; 0xff; 0xff; 0xff; 0xff; 0xff; 0xff; 0xff; 0x7f].

Definition setLocalPlayerAsInitializedMinusOne : bytes := setLocalPlayerInitializedMinusOne.

Definition setLocalPlayerInitialized (runtimeEntityId : Z) : bytes :=
  if runtimeEntityId =? 2 ^ 64 - 1 then setLocalPlayerInitializedMinusOne
  else encode SetLocalPlayerAsInitialized (VarInt.writeUnsignedVarLong [] runtimeEntityId).

Definition setLocalPlayerAsInitialized (runtimeEntityId : Z) : bytes :=
  setLocalPlayerInitialized runtimeEntityId.

(** ** Properties *)

(** The packet a server decodes from the bytes of [encode]. *)
Definition sent (id : PacketId) (payload : bytes) : GamePacket :=
  mkGamePacket (id_of id) 0 0 (PacketRegistry.nameOf (id_of id)) payload (encode id payload).

Lemma decode_sent id p :
  is_bytes p -> GamePacketCodec.decodePacket (encode id p) = Ok (sent id p).
Proof.
  intros Hp. unfold encode. rewrite GamePacketCodec.decode_encode by done.
  unfold GamePacketCodec.decoded, sent, encode. by destruct id.
Qed.

Lemma encode_size_bound id p : size (encode id p) <= 5 + size p.
Proof.
  unfold encode. rewrite GamePacketCodec.encodePacket_leb, size_app.
  pose proof (leb_encode_length 5 (GamePacketCodec.makeHeader (id_of id) 0 0)).
  unfold size. lia.
Qed.

Lemma requestChunkRadius_encode radius :
  is_s 32 radius ->
  requestChunkRadius radius =
  encode RequestChunkRadius (leb_encode 5 (zigzag radius) ++ [0]).
Proof.
  intros Hr. unfold requestChunkRadius.
  change (Z.lxor _ _) with (zigzag_shift 32 radius).
  rewrite zigzag_shift_ok by (done || lia).
  pose proof (zigzag_range 32 radius ltac:(lia) Hr).
  rewrite write_while_leb by by apply u32_fits_5.
  unfold encode. rewrite GamePacketCodec.encodePacket_leb.
  change (leb_encode 5 (GamePacketCodec.makeHeader _ _ _)) with [69].
  by rewrite <-app_assoc.
Qed.

(** The fixed packets: every one of them decodes to the packet id and the
    payload layout of the protocol. *)
Lemma fixed_packets version status enabled :
  GamePacketCodec.decodePacket (networkSettingsRequest version) =
    Ok (sent RequestNetworkSettings (reverse (le_encode 4 version))) /\
  GamePacketCodec.decodePacket clientToServerHandshake = Ok (sent ClientToServerHandshake []) /\
  GamePacketCodec.decodePacket (resourcePackClientResponse status) =
    Ok (sent ResourcePackClientResponse [status_byte status; 0; 0]) /\
  GamePacketCodec.decodePacket (clientCacheStatus enabled) =
    Ok (sent ClientCacheStatus [if enabled then 1 else 0]).
Proof.
  split_and!.
  - unfold networkSettingsRequest, VarInt.writeBe32. rewrite store_be32_encode, app_nil_l.
    apply decode_sent. apply Forall_reverse, le_encode_bytes.
  - by apply decode_sent.
  - unfold resourcePackClientResponse, VarInt.writeLe16. rewrite store_le16_encode.
    change (([] ++ [status_byte status]) ++ le_encode 2 0) with [status_byte status; 0; 0].
    apply decode_sent. by destruct status; apply (bool_decide_unpack _).
  - apply decode_sent. by destruct enabled; apply (bool_decide_unpack _).
Qed.

(** The chunk radius request decodes to packet 69 whose payload is the
    zigzag varint of the radius, which reads back as the radius for every
    32-bit value, followed by a zero byte. *)
Theorem requestChunkRadius_decodes radius :
  is_s 32 radius ->
  exists k, GamePacketCodec.decodePacket (requestChunkRadius radius) =
      Ok (sent RequestChunkRadius (k ++ [0])) /\
    exists raw, VarInt.readUnsignedVarInt (k ++ [0]) 0 = (Ok raw, size k) /\
      unzigzag raw = radius.
Proof.
  intros Hr. pose proof (zigzag_range 32 radius ltac:(lia) Hr) as Hz.
  exists (leb_encode 5 (zigzag radius)). split.
  - rewrite requestChunkRadius_encode by done. apply decode_sent.
    rewrite is_bytes_app. split; [|by apply (bool_decide_unpack _)].
    apply leb_encode_bytes, Hz.
  - exists (zigzag radius). split; [|apply unzigzag_zigzag].
    apply (VarInt.readUnsignedVarInt_at [] [0]); [done|constructor|].
    by apply (bool_decide_unpack _).
Qed.

Lemma requestChunkRadius_decodes_witness :
  requestChunkRadius (-300) = [69; 215; 4; 0] /\
  exists k, GamePacketCodec.decodePacket (requestChunkRadius (-300)) =
      Ok (sent RequestChunkRadius (k ++ [0])) /\
    exists raw, VarInt.readUnsignedVarInt (k ++ [0]) 0 = (Ok raw, size k) /\
      unzigzag raw = -300.
Proof.
  split; [by vm_compute|]. apply requestChunkRadius_decodes.
  by apply (bool_decide_unpack _).
Defined.

(** [setLocalPlayerInitialized] sends the entity id as a 64-bit varint
    that reads back unchanged, except for the id 2^64 - 1 ("minus one"): its
    nine-byte payload reads back as 2^63 - 1. *)
Theorem setLocalPlayerInitialized_id id :
  is_u 64 id ->
  exists p, GamePacketCodec.decodePacket (setLocalPlayerInitialized id) =
      Ok (sent SetLocalPlayerAsInitialized p) /\
    VarInt.readUnsignedVarLong p 0 =
      (Ok (if id =? 2 ^ 64 - 1 then 2 ^ 63 - 1 else id), size p).
Proof.
  intros Hid. unfold setLocalPlayerInitialized. destruct (Z.eqb_spec id (2 ^ 64 - 1)).
  - exists [255; 255; 255; 255; 255; 255; 255; 255; 127]. by split; vm_compute.
  - exists (leb_encode 10 id).
    rewrite VarInt.writeUnsignedVarLong_leb, app_nil_l by done. split.
    + apply decode_sent. apply leb_encode_bytes, Hid.
    + pose proof (VarInt.readUnsignedVarLong_at [] [] id Hid
        ltac:(constructor) ltac:(constructor)) as E.
      rewrite app_nil_l, app_nil_r in E. by rewrite size_nil in E.
Qed.

Lemma setLocalPlayerInitialized_id_witness :
  exists p, GamePacketCodec.decodePacket (setLocalPlayerInitialized (2 ^ 64 - 1)) =
      Ok (sent SetLocalPlayerAsInitialized p) /\
    VarInt.readUnsignedVarLong p 0 = (Ok (2 ^ 63 - 1), size p).
Proof.
  apply (setLocalPlayerInitialized_id (2 ^ 64 - 1)). by apply (bool_decide_unpack _).
Defined.
End PacketFactory.

(** ** PacketDispatcher

    Handlers are the program's clients: a handler is a function of the event
    that acts on a world [W] and may throw.  They are not given the
    dispatcher, whose tables do not change during a dispatch. *)
Module PacketDispatcher.

(** [struct PacketEvent { GamePacket packet; ... }] *)
Record PacketEvent := mkPacketEvent { packet : GamePacket }.
Definition event_packetId (e : PacketEvent) : Z := packetId (packet e).
Definition event_name (e : PacketEvent) : string := name (packet e).
Definition event_payload (e : PacketEvent) : bytes := payload (packet e).
Definition event_payloadSize (e : PacketEvent) : Z := size (payload (packet e)).
Definition event_is_name (e : PacketEvent) (expectedName : string) : bool :=
  bool_decide (name (packet e) = expectedName).
Definition event_is_id (e : PacketEvent) (expectedId : Z) : bool :=
  packetId (packet e) =? expectedId.

Section Dispatcher.
Context {W : Type}.

Definition Handler : Type := PacketEvent -> M W unit.

Record PacketDispatcher := mkDispatcher {
  byName_ : gmap string (list Handler);
  byId_ : gmap Z (list Handler);
  any_ : list Handler
}.

Definition empty_dispatcher : PacketDispatcher := mkDispatcher ∅ ∅ [].

(** [map[key].push_back(handler)]: [operator[]] creates a missing entry. *)
Definition push_back {K} `{Countable K} (m : gmap K (list Handler)) (key : K) (h : Handler)
    : gmap K (list Handler) :=
  <[key := default [] (m !! key) ++ [h]]> m.

Definition on (packetName : string) (handler : Handler) (d : PacketDispatcher)
    : PacketDispatcher :=
  mkDispatcher (push_back (byName_ d) packetName handler) (byId_ d) (any_ d).

Definition onId (packetId : Z) (handler : Handler) (d : PacketDispatcher)
    : PacketDispatcher :=
  mkDispatcher (byName_ d) (push_back (byId_ d) packetId handler) (any_ d).

Definition onAny (handler : Handler) (d : PacketDispatcher) : PacketDispatcher :=
  mkDispatcher (byName_ d) (byId_ d) (any_ d ++ [handler]).

Fixpoint call_all (handlers : list Handler) (event : PacketEvent) : M W unit :=
  match handlers with
  | [] => ret tt
  | handler :: handlers' => handler event ;;; call_all handlers' event
  end.

Definition dispatch (d : PacketDispatcher) (packet : GamePacket) : M W unit :=
  let event := mkPacketEvent packet in
  call_all (any_ d) event ;;;
  match byName_ d !! name packet with
  | Some handlers => call_all handlers event
  | None => ret tt
  end ;;;
  match byId_ d !! packetId packet with
  | Some handlers => call_all handlers event
  | None => ret tt
  end.

Fixpoint dispatch_packets (d : PacketDispatcher) (packets : list GamePacket) : M W unit :=
  match packets with
  | [] => ret tt
  | packet :: packets' => dispatch d packet ;;; dispatch_packets d packets'
  end.

Definition dispatch_batch (d : PacketDispatcher) (batch : DecodedBatch) : M W unit :=
  dispatch_packets d batch.

Definition clear (d : PacketDispatcher) : PacketDispatcher := mkDispatcher ∅ ∅ [].

(** ** Properties *)

(** Specification: the registrations so far, oldest first. *)
Inductive registration : Type :=
| RegName (n : string) (h : Handler)
| RegId (i : Z) (h : Handler)
| RegAny (h : Handler).

Definition register (r : registration) (d : PacketDispatcher) : PacketDispatcher :=
  match r with
  | RegName n h => on n h d
  | RegId i h => onId i h d
  | RegAny h => onAny h d
  end.

Definition register_all (rs : list registration) (d : PacketDispatcher) : PacketDispatcher :=
  foldl (fun d r => register r d) d rs.

Definition any_handlers (rs : list registration) : list Handler :=
  omap (fun r => match r with RegAny h => Some h | _ => None end) rs.
Definition name_handlers (n : string) (rs : list registration) : list Handler :=
  omap (fun r => match r with RegName n' h => if bool_decide (n' = n) then Some h else None
                 | _ => None end) rs.
Definition id_handlers (i : Z) (rs : list registration) : list Handler :=
  omap (fun r => match r with RegId i' h => if bool_decide (i' = i) then Some h else None
                 | _ => None end) rs.

(** The tables hold exactly the registrations, in order. *)
Definition represents (d : PacketDispatcher) (rs : list registration) : Prop :=
  any_ d = any_handlers rs /\
  (forall n, default [] (byName_ d !! n) = name_handlers n rs) /\
  (forall i, default [] (byId_ d !! i) = id_handlers i rs).

Lemma push_back_default {K} `{Countable K} (m : gmap K (list Handler)) key h k :
  default [] (push_back m key h !! k) =
  default [] (m !! k) ++ (if bool_decide (key = k) then [h] else []).
Proof.
  unfold push_back. case_bool_decide as E.
  - subst. by rewrite lookup_insert_eq.
  - by rewrite lookup_insert_ne, app_nil_r.
Qed.

Lemma represents_register d rs r :
  represents d rs -> represents (register r d) (rs ++ [r]).
Proof.
  intros (Ha & Hn & Hi). unfold represents, any_handlers, name_handlers, id_handlers.
  setoid_rewrite omap_app. destruct r as [n h|i h|h]; cbn [register on onId onAny any_ byName_ byId_].
  - split_and!; [by rewrite Ha, app_nil_r| |intros j; by rewrite Hi, app_nil_r].
    intros m. rewrite push_back_default, Hn. f_equal. cbn. by case_bool_decide.
  - split_and!; [by rewrite Ha, app_nil_r|intros m; by rewrite Hn, app_nil_r|].
    intros j. rewrite push_back_default, Hi. f_equal. cbn. by case_bool_decide.
  - split_and!; [by rewrite Ha|intros m; by rewrite Hn, app_nil_r|
      intros j; by rewrite Hi, app_nil_r].
Qed.

Lemma represents_all rs d rs0 :
  represents d rs0 -> represents (register_all rs d) (rs0 ++ rs).
Proof.
  revert d rs0. induction rs as [|r rs IH]; intros d rs0 Hd; cbn.
  - by rewrite app_nil_r.
  - change (r :: rs) with ([r] ++ rs). rewrite app_assoc. apply IH. by apply represents_register.
Qed.

Lemma call_all_app hs ks e w :
  call_all (hs ++ ks) e w = (call_all hs e ;;; call_all ks e) w.
Proof.
  revert w. induction hs as [|h hs IH]; intros w; cbn [app call_all]; [done|].
  rewrite bind_assoc. unfold bind at 1 2. destruct (h e w) as [[[]|x] w']; [|done].
  apply IH.
Qed.

(** A dispatched packet reaches the catch-all handlers, then the handlers
    registered for its name, then the handlers registered for its id, each
    group in registration order and no other handler; the first exception
    stops the rest. *)
Theorem dispatch_order rs packet w :
  dispatch (register_all rs empty_dispatcher) packet w =
  call_all (any_handlers rs ++ name_handlers (name packet) rs
            ++ id_handlers (packetId packet) rs) (mkPacketEvent packet) w.
Proof.
  assert (represents empty_dispatcher []) as H0.
  { split_and!; [done| |]; intros k; cbn; by rewrite lookup_empty. }
  destruct (represents_all rs _ _ H0) as (Ha & Hn & Hi). rewrite app_nil_l in *.
  set (d := register_all rs empty_dispatcher) in *. unfold dispatch.
  assert (forall K `{Countable K} (m : gmap K (list Handler)) k,
    match m !! k with Some hs => call_all hs (mkPacketEvent packet) | None => ret tt end
    = call_all (default [] (m !! k)) (mkPacketEvent packet)) as Hd.
  { intros K ? ? m k. by destruct (m !! k). }
  rewrite !Hd, Ha, Hn, Hi, !call_all_app. unfold bind at 1 3.
  destruct (call_all _ _ w) as [[[]|x] w']; [|done]. by rewrite call_all_app.
Qed.

End Dispatcher.
End PacketDispatcher.
