(* ===== verification/Batch.v ===== *)
(** * Compressed batches (src/src/protocol/BatchCodec.cpp, BedrockPacketIO.cpp)

    The MCPE payload is 0xfe, a compression byte, and the framed packets.
    zlib is a parameter (see Zlib.v); Snappy is the repository's own codec. *)

From S2P Require Import Prelude MachineInt Leb128 Framing GamePacket Packets Snappy Zlib.

Module BatchCodec.

Inductive CompressionMode : Type :=
| AlwaysDeflate | Threshold | Never | AlwaysSnappy | SnappyThreshold.

Definition BUFFER : Z := 16384.

Section WithZlib.
Context (z : zlib).

Definition encodeFramedBatch (fullPackets : list bytes) : result bytes :=
  GamePacketCodec.encodeBatchFromFullPackets fullPackets.

Definition decodeFramedBatch (framedPackets : bytes) : result DecodedBatch :=
  GamePacketCodec.decodeBatch framedPackets.

Definition deflateRaw (input : bytes) : result bytes :=
  match deflateInit2 z Z_DEFAULT_COMPRESSION (zlib_input input) with
  | None => Throw (RuntimeError "BatchCodec::deflateRaw: deflateInit2 failed")
  | Some stream =>
      deflate_loop z (zlib_fuel input) BUFFER
        (RuntimeError "BatchCodec::deflateRaw: deflate failed") stream []
  end.

Definition inflateRaw (input : bytes) : result bytes :=
  match inflateInit2 z (zlib_input input) with
  | None => Throw (RuntimeError "BatchCodec::inflateRaw: inflateInit2 failed")
  | Some stream =>
      inflate_loop z (zlib_fuel input) BUFFER
        (RuntimeError "BatchCodec::inflateRaw: inflate failed") stream []
  end.

(** The switch of [encodeCompressionPacket]: [(useDeflate, useSnappy)]. *)
Definition choose (mode : CompressionMode) (n threshold : Z) : bool * bool :=
  match mode with
  | AlwaysDeflate => (true, false)
  | Threshold => (n >=? threshold, false)
  | Never => (false, false)
  | AlwaysSnappy => (false, true)
  | SnappyThreshold => (false, n >=? threshold)
  end.

Definition encodeCompressionPacket (framedPackets : bytes) (mode : CompressionMode)
    (threshold : Z) : result bytes :=
  let '(useDeflate, useSnappy) := choose mode (size framedPackets) threshold in
  if useDeflate then
    let! compressed := deflateRaw framedPackets in Ok (0x00 :: compressed)
  else if useSnappy then
    let! compressed := compress framedPackets in Ok (0x01 :: compressed)
  else Ok (0xff :: framedPackets).

(** The state is the object [compressionHeaderOut] points to, [None] for a
    null pointer. *)
Definition decodeCompressionPacket (compressionPacket : bytes) : M (option Z) bytes :=
  if bool_decide (compressionPacket = []) then
    raise (RuntimeError "BatchCodec::decodeCompressionPacket: empty packet")
  else
    let* header := lift (vec_at compressionPacket 0) in
    let* out := get_st in
    match out with Some _ => put_st (Some header) | None => ret tt end ;;;
    let* body := lift (vec_range compressionPacket 1 (size compressionPacket)) in
    if header =? 0x00 then lift (inflateRaw body)
    else if header =? 0xff then ret body
    else if header =? 0x01 then lift (decompress body)
    else raise (RuntimeError ("BatchCodec::decodeCompressionPacket: unknown compression header "
                  +:+ to_string header)).

Definition wrapMcpe (compressionPacket : bytes) : bytes := 0xfe :: compressionPacket.

Definition unwrapMcpe (mcpePayload : bytes) : result bytes :=
  if bool_decide (mcpePayload = []) then
    Throw (RuntimeError "BatchCodec::unwrapMcpe: empty payload")
  else
    let! b0 := vec_at mcpePayload 0 in
    if negb (b0 =? 0xfe) then
      Throw (RuntimeError "BatchCodec::unwrapMcpe: missing 0xfe header")
    else vec_range mcpePayload 1 (size mcpePayload).

End WithZlib.

(** ** Properties *)
Section Proofs.
Context (z : zlib) `{HZ : !ZlibLaws z}.

Lemma unwrap_wrap p : unwrapMcpe (wrapMcpe p) = Ok p.
Proof. apply vec_range_cons. Qed.

Lemma deflateRaw_inflateRaw x :
  exists c, deflateRaw z x = Ok c /\
    (size c < 2 ^ 32 -> inflateRaw z c = Ok (zlib_input x)).
Proof.
  unfold deflateRaw, inflateRaw.
  destruct (deflate_run z Z_DEFAULT_COMPRESSION BUFFER
    (RuntimeError "BatchCodec::deflateRaw: deflate failed") (zlib_input x))
    as (st & s & -> & Hraw & Hsz & Hd); [done|done|].
  exists s. split.
  - eapply deflate_loop_fuel; [exact Hd|]. unfold zlib_fuel, zlib_input, size.
    rewrite length_take. lia.
  - intros Hc. rewrite zlib_input_id by done.
    destruct (inflate_run z BUFFER (RuntimeError "BatchCodec::inflateRaw: inflate failed")
      s (zlib_input x)) as (st' & -> & Hi & _); done.
Qed.

Lemma deflateRaw_small x :
  size x < 2 ^ 30 -> exists c, deflateRaw z x = Ok c /\ inflateRaw z c = Ok x.
Proof.
  intros Hx. unfold deflateRaw, inflateRaw. rewrite (zlib_input_id x) by lia.
  destruct (deflate_run z Z_DEFAULT_COMPRESSION BUFFER
    (RuntimeError "BatchCodec::deflateRaw: deflate failed") x)
    as (st & s & -> & Hraw & Hsz & Hd); [done|done|].
  exists s. split; [done|]. rewrite zlib_input_id by lia.
  by destruct (inflate_run z BUFFER (RuntimeError "BatchCodec::inflateRaw: inflate failed")
    s x) as (st' & -> & Hi & _).
Qed.

Lemma inflateRaw_any x : is_bytes x -> byte_result (inflateRaw z x).
Proof.
  intros Hx. unfold inflateRaw. destruct (inflateInit2 z (zlib_input x)) as [st|] eqn:E; [|done].
  destruct (inflate_loop_any z BUFFER
    (RuntimeError "BatchCodec::inflateRaw: inflate failed") (zlib_fuel x) st [])
    as [->|(out & -> & Hb)]; [done|by apply zlib_fuel_left|done|].
  destruct (inflateInit2_left _ _ E) as [_ Hi]. apply Hb; [|constructor]. apply Hi. by apply Forall_take.
Qed.

(** What [decodeCompressionPacket] returns, by the compression byte. *)
Definition decode_body (header : Z) (body : bytes) : result bytes :=
  if header =? 0x00 then inflateRaw z body
  else if header =? 0xff then Ok body
  else if header =? 0x01 then decompress body
  else Throw (RuntimeError ("BatchCodec::decodeCompressionPacket: unknown compression header "
                +:+ to_string header)).

Lemma decodeCompressionPacket_cons h body out :
  fst (decodeCompressionPacket z (h :: body) out) = decode_body h body /\
  snd (decodeCompressionPacket z (h :: body) out) = const h <$> out.
Proof.
  unfold decodeCompressionPacket, decode_body, bind, lift, get_st.
  rewrite vec_range_cons. change (vec_at (h :: body) 0) with (Ok h).
  case_bool_decide; [done|].
  by destruct out, (h =? 0), (h =? 255), (h =? 1).
Qed.

Lemma decode_body_any h body : is_bytes body -> byte_result (decode_body h body).
Proof.
  intros Hb. unfold decode_body.
  destruct (h =? 0); [by apply inflateRaw_any|]. destruct (h =? 255); [done|].
  destruct (h =? 1); [|done]. destruct (decompress_any body Hb) as [Hs Hd].
  destruct (decompress body) as [l|e]; [|done]. by destruct (Hd l eq_refl).
Qed.

(** The compression byte of each mode, and that it is decoded. *)
Definition mode_byte (mode : CompressionMode) (n threshold : Z) : Z :=
  match mode with
  | AlwaysDeflate => 0x00
  | Threshold => if threshold <=? n then 0x00 else 0xff
  | Never => 0xff
  | AlwaysSnappy => 0x01
  | SnappyThreshold => if threshold <=? n then 0x01 else 0xff
  end.

Lemma encode_decode_body framed mode threshold :
  is_bytes framed -> size framed < 2 ^ 30 ->
  exists body,
    encodeCompressionPacket z framed mode threshold =
      Ok (mode_byte mode (size framed) threshold :: body) /\
    decode_body (mode_byte mode (size framed) threshold) body = Ok framed.
Proof.
  intros Hb Hsz. unfold encodeCompressionPacket.
  destruct (deflateRaw_small framed) as (d & Hd & Hi); [done|].
  destruct (decompress_compress framed Hb) as (c & Hc & Hu); [lia|].
  destruct mode; cbn [choose mode_byte]; rewrite ?Z.geb_leb;
    try destruct (threshold <=? size framed); rewrite ?Hd, ?Hc; cbn [rbind]; eauto.
Qed.

(** In every compression mode a batch below 2^30 bytes is carried by a
    packet that starts with the byte of the mode (deflate, snappy or none, by
    the size threshold) and decodes to the same bytes; the decoder reports
    that byte through its optional out-parameter. *)
Theorem compression_roundtrip framed mode threshold out :
  is_bytes framed -> size framed < 2 ^ 30 ->
  exists body,
    encodeCompressionPacket z framed mode threshold =
      Ok (mode_byte mode (size framed) threshold :: body) /\
    decodeCompressionPacket z (mode_byte mode (size framed) threshold :: body) out =
      (Ok framed, const (mode_byte mode (size framed) threshold) <$> out).
Proof.
  intros Hb Hsz. destruct (encode_decode_body framed mode threshold Hb Hsz) as (body & He & Hd).
  exists body. split; [done|].
  destruct (decodeCompressionPacket_cons (mode_byte mode (size framed) threshold) body out)
    as [H1 H2].
  rewrite Hd in H1. destruct (decodeCompressionPacket _ _ _). by cbn in *; subst.
Qed.

(** Zlib is given the size of its input as a 32-bit number: deflating and
    inflating returns the input's first [size mod 2^32] bytes, which is the
    whole input exactly when it is below 4 GiB. *)
Theorem deflateRaw_truncates x :
  (exists c, deflateRaw z x = Ok c /\
     (size c < 2 ^ 32 ->
      inflateRaw z c = Ok (take (Z.to_nat (size x mod 2 ^ 32)) x))) /\
  (take (Z.to_nat (size x mod 2 ^ 32)) x = x <-> size x < 2 ^ 32).
Proof.
  split; [apply deflateRaw_inflateRaw|]. pose proof (size_nonneg x).
  pose proof (Z.mod_pos_bound (size x) (2 ^ 32) ltac:(lia)).
  split; intros E.
  - apply (f_equal length) in E. rewrite length_take in E. unfold size in *. lia.
  - rewrite Z.mod_small by lia. apply take_ge. unfold size. lia.
Qed.
End Proofs.

Lemma compression_roundtrip_witness :
  exists body,
    encodeCompressionPacket stored_zlib [5; 6; 7] SnappyThreshold 3 = Ok (1 :: body) /\
    decodeCompressionPacket stored_zlib (1 :: body) (Some 9) = (Ok [5; 6; 7], Some 1).
Proof.
  apply (compression_roundtrip stored_zlib [5; 6; 7] SnappyThreshold 3 (Some 9)).
  - by apply (bool_decide_unpack _).
  - reflexivity.
Defined.

Lemma deflateRaw_truncates_witness :
  (exists c, deflateRaw stored_zlib [1; 2] = Ok c /\
     (size c < 2 ^ 32 -> inflateRaw stored_zlib c = Ok [1; 2])) /\
  (take (Z.to_nat (size [1; 2] mod 2 ^ 32)) [1; 2] = [1; 2] <-> size [1; 2] < 2 ^ 32).
Proof. exact (deflateRaw_truncates stored_zlib [1; 2]). Defined.
End BatchCodec.

Module BedrockPacketIO.
Import BatchCodec.

Section WithZlib.
Context (z : zlib).

Definition makeMcpeBatch (fullPackets : list bytes) (compressionMode : CompressionMode)
    (compressionThreshold : Z) : result bytes :=
  let! framed := encodeFramedBatch fullPackets in
  let! compressionPacket :=
    encodeCompressionPacket z framed compressionMode compressionThreshold in
  Ok (wrapMcpe compressionPacket).

(** The default arguments of [makeMcpeBatch]. *)
Definition makeMcpeBatch_default (fullPackets : list bytes) : result bytes :=
  makeMcpeBatch fullPackets AlwaysDeflate 256.

Definition decodeUnencryptedMcpe (mcpePayload : bytes) : result DecodedBatch :=
  let! compressionPacket := unwrapMcpe mcpePayload in
  let! framed := fst (decodeCompressionPacket z compressionPacket None) in
  decodeFramedBatch framed.

Definition makeClientToServerHandshakeMcpe : result bytes :=
  makeMcpeBatch_default [PacketFactory.clientToServerHandshake].

Definition makeResourcePackHaveAllPacksMcpe : result bytes :=
  makeMcpeBatch_default [PacketFactory.resourcePackClientResponse PacketFactory.HaveAllPacks].

Definition makeResourcePackCompletedMcpe : result bytes :=
  makeMcpeBatch_default [PacketFactory.resourcePackClientResponse PacketFactory.Completed].

Definition makeClientCacheStatusMcpe (enabled : bool) : result bytes :=
  makeMcpeBatch_default [PacketFactory.clientCacheStatus enabled].

Definition makeRequestChunkRadiusMcpe (radius : Z) : result bytes :=
  makeMcpeBatch_default [PacketFactory.requestChunkRadius radius].

Definition makeSetLocalPlayerInitializedMcpe : result bytes :=
  makeMcpeBatch_default [PacketFactory.setLocalPlayerInitializedMinusOne].

Definition makePostStartGameInitPackets (chunkRadius : Z) (clientCacheEnabled : bool)
    : list bytes :=
  [PacketFactory.clientCacheStatus clientCacheEnabled;
   PacketFactory.requestChunkRadius chunkRadius;
   PacketFactory.setLocalPlayerInitializedMinusOne].

Definition makePostStartGameInitMcpe (chunkRadius : Z) (clientCacheEnabled : bool)
    : result bytes :=
  makeMcpeBatch_default (makePostStartGameInitPackets chunkRadius clientCacheEnabled).

Definition describePacket (packet : GamePacket) : string :=
  "packetId=" +:+ to_string (packetId packet) +:+ " name=" +:+ name packet
  +:+ " payload=" +:+ to_string (size (payload packet)).
End WithZlib.

Section Proofs.
Context (z : zlib) `{HZ : !ZlibLaws z}.

(** A list of full packets that one MCPE payload can carry. *)
Definition sendable (ps : list bytes) (ds : list GamePacket) : Prop :=
  Forall2 (fun p d => GamePacketCodec.decodePacket p = Ok d) ps ds /\
  Forall (fun p => is_bytes p) ps /\ Forall (fun p => p <> []) ps /\
  size (frames ps) < 2 ^ 30.

Lemma mcpe_roundtrip_lemma ps ds mode threshold :
  sendable ps ds ->
  exists payload, makeMcpeBatch z ps mode threshold = Ok payload /\
    decodeUnencryptedMcpe z payload = Ok ds.
Proof.
  intros (Hd & Hb & Hne & Hsz). pose proof (frames_small ps ltac:(lia)) as Hsm.
  destruct (encode_decode_body z (frames ps) mode threshold) as (body & He & Hdb);
    [by apply frames_bytes|done|].
  set (h := mode_byte mode (size (frames ps)) threshold) in *.
  exists (wrapMcpe (h :: body)). unfold makeMcpeBatch, decodeUnencryptedMcpe, encodeFramedBatch.
  rewrite GamePacketCodec.encodeBatchFromFullPackets_frames by done. cbn [rbind].
  rewrite He. split; [done|]. rewrite unwrap_wrap. cbn [rbind].
  destruct (decodeCompressionPacket_cons z h body None) as [-> _]. rewrite Hdb. cbn [rbind].
  by apply GamePacketCodec.decodeBatch_frames.
Qed.

(** Packets built by the factory can be sent. *)
Lemma encode_sendable (l : list (PacketId * bytes)) :
  Forall (fun x => is_bytes (snd x)) l ->
  foldr Z.add 0 (map (fun x => 10 + size (snd x)) l) < 2 ^ 30 ->
  sendable (map (fun x => PacketFactory.encode (fst x) (snd x)) l)
    (map (fun x => PacketFactory.sent (fst x) (snd x)) l).
Proof.
  intros Hb Hsz. split_and!.
  - induction Hb as [|x l Hx _ IH]; constructor; [by apply PacketFactory.decode_sent|].
    apply IH. cbn [map foldr] in Hsz. pose proof (size_nonneg (snd x)). lia.
  - apply Forall_map. eapply Forall_impl; [|exact Hb]. intros x Hx.
    unfold compose, PacketFactory.encode. rewrite GamePacketCodec.encodePacket_leb, is_bytes_app.
    split; [apply leb_encode_bytes, GamePacketCodec.makeHeader_u32|done].
  - apply Forall_map, Forall_forall. intros x _.
    unfold compose, PacketFactory.encode.
    rewrite GamePacketCodec.encodePacket_leb. intros [H _]%app_nil.
    by apply leb_encode_nonempty in H.
  - eapply Z.le_lt_trans; [|exact Hsz]. clear. unfold frames.
    induction l as [|x l IH]; [done|]. cbn [map concat foldr].
    rewrite size_app. unfold frame1 at 1. rewrite size_app.
    pose proof (leb_encode_length 5 (size (PacketFactory.encode (fst x) (snd x)))).
    pose proof (PacketFactory.encode_size_bound (fst x) (snd x)).
    unfold size in *. lia.
Qed.

(** C34: any list of full packets survives the whole MCPE envelope in every
    compression mode: framing, compression and the 0xfe header are undone by
    [decodeUnencryptedMcpe], which returns the packets in order. *)
Theorem mcpe_roundtrip ps ds mode threshold :
  sendable ps ds ->
  exists payload, makeMcpeBatch z ps mode threshold = Ok payload /\
    decodeUnencryptedMcpe z payload = Ok ds.
Proof. apply mcpe_roundtrip_lemma. Qed.

(** [decodeUnencryptedMcpe] is safe on any bytes from the network: with
    zlib as documented it ends, stays inside its buffers, and either returns
    the packets or throws one of the program's exceptions. *)
Theorem mcpe_decode_safe payload :
  is_bytes payload -> safe (decodeUnencryptedMcpe z payload).
Proof.
  intros Hb. unfold decodeUnencryptedMcpe, unwrapMcpe.
  destruct payload as [|b0 p]; [done|]. apply Forall_cons_1 in Hb as [_ Hb].
  case_bool_decide; [done|]. change (vec_at (b0 :: p) 0) with (Ok b0). cbn [rbind].
  destruct (negb (b0 =? 254)); [done|]. rewrite vec_range_cons. cbn [rbind].
  destruct p as [|h body]; [done|]. apply Forall_cons_1 in Hb as [_ Hb].
  destruct (decodeCompressionPacket_cons z h body None) as [-> _].
  pose proof (decode_body_any z h body Hb) as Hd.
  destruct (decode_body z h body) as [framed|e]; [|done].
  by apply GamePacketCodec.decodeBatch_runs_safe.
Qed.

(** The post-StartGame payload decodes to its three packets
    (client_cache_status, request_chunk_radius,
    set_local_player_as_initialized), for every radius. *)
Theorem postStartGame_packets radius enabled :
  is_s 32 radius ->
  exists payload, makePostStartGameInitMcpe z radius enabled = Ok payload /\
    decodeUnencryptedMcpe z payload =
    Ok [PacketFactory.sent ClientCacheStatus [if enabled then 1 else 0];
        PacketFactory.sent RequestChunkRadius (leb_encode 5 (ZigZag.zigzag radius) ++ [0]);
        PacketFactory.sent SetLocalPlayerAsInitialized
          [255; 255; 255; 255; 255; 255; 255; 255; 127]].
Proof.
  intros Hr. apply mcpe_roundtrip_lemma.
  pose proof (ZigZag.zigzag_range 32 radius ltac:(lia) Hr) as Hz.
  pose proof (leb_encode_length 5 (ZigZag.zigzag radius)).
  unfold makePostStartGameInitPackets. rewrite PacketFactory.requestChunkRadius_encode by done.
  apply (encode_sendable [(ClientCacheStatus, _); (RequestChunkRadius, _);
    (SetLocalPlayerAsInitialized, _)]).
  - apply Forall_cons_2; [|apply Forall_cons_2; [|apply Forall_cons_2; [|constructor]]];
      cbn [snd].
    + by destruct enabled; apply (bool_decide_unpack _).
    + rewrite is_bytes_app. split; [apply leb_encode_bytes, Hz|by apply (bool_decide_unpack _)].
    + by apply (bool_decide_unpack _).
  - cbn [map foldr snd]. unfold size. rewrite length_app. cbn [length]. lia.
Qed.
End Proofs.

Lemma mcpe_roundtrip_witness :
  exists payload, makeMcpeBatch stored_zlib [[9; 1]; [4]] Threshold 2 = Ok payload /\
    decodeUnencryptedMcpe stored_zlib payload =
    Ok [mkGamePacket 9 0 0 "packet_9" [1] [9; 1]; mkGamePacket 4 0 0 "packet_4" [] [4]].
Proof.
  apply (mcpe_roundtrip stored_zlib).
  refine (conj _ (conj _ (conj _ _))); [by repeat constructor|by apply (bool_decide_unpack _)
    |by apply (bool_decide_unpack _)|reflexivity].
Defined.

Lemma mcpe_decode_safe_witness :
  safe (decodeUnencryptedMcpe stored_zlib [254; 1; 200]).
Proof. apply (mcpe_decode_safe stored_zlib). by apply (bool_decide_unpack _). Defined.

Lemma postStartGame_packets_witness :
  exists payload, makePostStartGameInitMcpe stored_zlib 20 false = Ok payload /\
    decodeUnencryptedMcpe stored_zlib payload =
    Ok [PacketFactory.sent ClientCacheStatus [0];
        PacketFactory.sent RequestChunkRadius [40; 0];
        PacketFactory.sent SetLocalPlayerAsInitialized
          [255; 255; 255; 255; 255; 255; 255; 255; 127]].
Proof.
  apply (postStartGame_packets stored_zlib 20 false). by apply (bool_decide_unpack _).
Defined.
End BedrockPacketIO.
