(* ===== verification/Framer.v ===== *)
(** * BedrockFramer (src/src/BedrockFramer.cpp)

    The batch codec of the hand-written client: like [BatchCodec] it frames,
    compresses and prefixes 0xfe, but the compression byte is optional (older
    protocols), in which case the decoder guesses. *)

From S2P Require Import Prelude MachineInt Leb128 Framing Snappy Zlib.

Module BedrockFramer.

Record BedrockFramerSettings := mkSettings {
  compressionReady : bool;
  compressorInHeader : bool;
  compressionThreshold : Z;
  compressionAlgorithm : Z
}.

(** Member initialisers. *)
Definition default_settings : BedrockFramerSettings := mkSettings false true 256 0.

Definition BATCH_HEADER : Z := 0xfe.
Definition COMPRESSION_DEFLATE : Z := 0x00.
Definition COMPRESSION_SNAPPY : Z := 0x01.
Definition COMPRESSION_NONE : Z := 0xff.
Definition TEMP : Z := 32768.

(** [catch (const SnappyCodecError& error)]. *)
Definition rethrow_snappy (r : result bytes) : result bytes :=
  match r with
  | Throw (SnappyCodecError msg) => Throw (BedrockFramerError msg)
  | _ => r
  end.

Definition compressSnappy (input : bytes) : result bytes := rethrow_snappy (compress input).
Definition decompressSnappy (input : bytes) : result bytes := rethrow_snappy (decompress input).

Definition writeVarUInt (out : bytes) (v : Z) : bytes := write_mask_loop 5 32 out v.

Definition readOutOfRange : exn := BedrockFramerError "readVarUInt out of range".
Definition varUIntTooBig : exn := BedrockFramerError "VarUInt too big".
Definition readVarUInt (data : bytes) : M Z Z :=
  varint_loop (fetch_at data readOutOfRange) 32 varUIntTooBig shifts32 0.

Definition framePackets (packets : list bytes) : result bytes :=
  frame_loop writeVarUInt
    (fun packet => if size packet >? 2 ^ 32 - 1
                   then Some (BedrockFramerError "packet too large") else None)
    packets [].

Definition unframePackets (framed : bytes) : result (list bytes) :=
  fst (unframe_loop readVarUInt (fun p => Ok p) (S (length framed)) (fun _ => None)
         (BedrockFramerError "framed packet length exceeds buffer") framed [] 0).

Section WithZlib.
Context (z : zlib).

Definition deflateRaw (input : bytes) : result bytes :=
  if bool_decide (input = []) then Ok []
  else
    match deflateInit2 z Z_DEFAULT_COMPRESSION (zlib_input input) with
    | None => Throw (BedrockFramerError "deflateInit2 failed")
    | Some zs =>
        deflate_loop z (zlib_fuel input) TEMP (BedrockFramerError "deflate failed") zs []
    end.

Definition inflateRaw (input : bytes) : result bytes :=
  if bool_decide (input = []) then Ok []
  else
    match inflateInit2 z (zlib_input input) with
    | None => Throw (BedrockFramerError "inflateInit2 failed")
    | Some zs =>
        inflate_loop z (zlib_fuel input) TEMP (BedrockFramerError "inflate failed") zs []
    end.

Definition unknownAlgorithm : exn := BedrockFramerError "unknown compression algorithm".

Definition encodeBatch (packets : list bytes) (settings : BedrockFramerSettings)
    : result bytes :=
  let! framed := framePackets packets in
  let out := [BATCH_HEADER] in
  if negb (compressionReady settings) then Ok (out ++ framed)
  else
    let shouldCompress := size framed >? compressionThreshold settings in
    if negb (compressorInHeader settings) then
      if shouldCompress then
        if compressionAlgorithm settings =? 0 then
          let! compressed := deflateRaw framed in Ok (out ++ compressed)
        else if compressionAlgorithm settings =? 1 then
          let! compressed := compressSnappy framed in Ok (out ++ compressed)
        else Throw unknownAlgorithm
      else Ok (out ++ framed)
    else if negb shouldCompress then Ok ((out ++ [COMPRESSION_NONE]) ++ framed)
    else if compressionAlgorithm settings =? 0 then
      let out := out ++ [COMPRESSION_DEFLATE] in
      let! compressed := deflateRaw framed in Ok (out ++ compressed)
    else if compressionAlgorithm settings =? 1 then
      let out := out ++ [COMPRESSION_SNAPPY] in
      let! compressed := compressSnappy framed in Ok (out ++ compressed)
    else Throw unknownAlgorithm.

(** The body of the [try] block of [decodeBatch]. *)
Definition decompress_guess (settings : BedrockFramerSettings) (body : bytes) : result bytes :=
  if compressionAlgorithm settings =? 0 then inflateRaw body
  else if compressionAlgorithm settings =? 1 then decompressSnappy body
  else Throw unknownAlgorithm.

Definition decodeBatch (batch : bytes) (settings : BedrockFramerSettings)
    : result (list bytes) :=
  if bool_decide (batch = []) then Throw (BedrockFramerError "empty batch")
  else
    let! b0 := vec_at batch 0 in
    if negb (b0 =? BATCH_HEADER) then Throw (BedrockFramerError "bad batch header")
    else
      let off := 1 in
      if negb (compressionReady settings) then
        let! framed := vec_range batch off (size batch) in unframePackets framed
      else if negb (compressorInHeader settings) then
        let! body := vec_range batch off (size batch) in
        let! framed := rcatch (decompress_guess settings body) (fun _ => Ok body) in
        unframePackets framed
      else if off >=? size batch then Throw (BedrockFramerError "missing compression header")
      else
        let! compressionHeader := vec_at batch off in
        let off := off + 1 in
        if compressionHeader =? COMPRESSION_NONE then
          let! framed := vec_range batch off (size batch) in unframePackets framed
        else if compressionHeader =? COMPRESSION_DEFLATE then
          let! compressed := vec_range batch off (size batch) in
          let! framed := inflateRaw compressed in unframePackets framed
        else if compressionHeader =? COMPRESSION_SNAPPY then
          let! compressed := vec_range batch off (size batch) in
          let! framed := decompressSnappy compressed in unframePackets framed
        else Throw (BedrockFramerError "unknown compression header").

End WithZlib.

(** ** Properties *)

#[export] Instance framer_length_codec :
  LengthCodec readVarUInt writeVarUInt readOutOfRange varUIntTooBig.
Proof.
  split; [| |done].
  - intros out v Hv. apply (write_mask_loop_leb 4); [lia|done|by apply u32_fits_5].
  - intros data off Hd Hv. apply varint_loop_32; [done|]. by apply Forall_drop.
Qed.

Lemma framePackets_frames ps : Forall small ps -> framePackets ps = Ok (frames ps).
Proof.
  intros Hs. unfold framePackets.
  rewrite (frame_loop_ok _ _ (HC := framer_length_codec)); [done|done|].
  eapply Forall_impl; [|exact Hs]. unfold small. intros p Hp.
  by destruct (Z.gtb_spec (size p) (2 ^ 32 - 1)); [lia|].
Qed.

Lemma unframePackets_frames ps :
  Forall small ps -> Forall (fun p => is_bytes p) ps -> unframePackets (frames ps) = Ok ps.
Proof.
  intros Hs Hb. unfold unframePackets.
  rewrite (unframe_loop_ok _ _ _ (HC := framer_length_codec) _ _ ps ps []);
    [done|done| |done|constructor|done|by apply Forall_forall|].
  - by apply Forall_Forall2_diag, Forall_forall.
  - pose proof (frames_length_bound ps). lia.
Qed.

Lemma unframePackets_safe d : is_bytes d -> safe (unframePackets d).
Proof.
  intros Hd. unfold unframePackets. eapply runs_safe_safe, unframe_loop_safe;
    [apply _|done|done|done|done|split; [lia|apply size_nonneg]|unfold size; lia].
Qed.

Section Proofs.
Context (z : zlib) `{HZ : !ZlibLaws z}.

Lemma vec_range_1 {A} (x : A) l : vec_range (x :: l) 1 (size (x :: l)) = Ok l.
Proof. by apply (vec_range_tail [x] l). Qed.
Lemma vec_range_2 {A} (x y : A) l : vec_range (x :: y :: l) 2 (size (x :: y :: l)) = Ok l.
Proof. by apply (vec_range_tail [x; y] l). Qed.

Lemma framer_deflateRaw_small x :
  size x < 2 ^ 30 -> exists c, deflateRaw z x = Ok c /\ (x <> [] -> inflateRaw z c = Ok x).
Proof.
  intros Hx. unfold deflateRaw, inflateRaw. case_bool_decide as Hne; [by exists []|].
  rewrite (zlib_input_id x) by lia.
  destruct (deflate_run z Z_DEFAULT_COMPRESSION TEMP (BedrockFramerError "deflate failed") x)
    as (st & s & -> & Hraw & Hsz & Hd); [done|done|].
  exists s. split; [done|]. intros _. rewrite zlib_input_id by lia.
  case_bool_decide as Hs.
  - pose proof (raw_ratio s x Hraw) as Hr. subst s.
    change (size []) with 0 in Hr.
    pose proof (size_nonneg x). by rewrite (size_zero_inv x) in Hne by lia.
  - by destruct (inflate_run z TEMP (BedrockFramerError "inflate failed") s x)
      as (st' & -> & Hi & _).
Qed.

Lemma framer_inflateRaw_any x : is_bytes x -> byte_result (inflateRaw z x).
Proof.
  intros Hx. unfold inflateRaw. case_bool_decide; [constructor|].
  destruct (inflateInit2 z (zlib_input x)) as [st|] eqn:E; [|done].
  destruct (inflate_loop_any z TEMP (BedrockFramerError "inflate failed") (zlib_fuel x) st [])
    as [->|(out & -> & Hb)]; [done|by apply zlib_fuel_left|done|].
  destruct (inflateInit2_left _ _ E) as [_ Hi]. apply Hb; [|constructor].
  apply Hi. by apply Forall_take.
Qed.

Lemma decompressSnappy_any x : is_bytes x -> byte_result (decompressSnappy x).
Proof.
  intros Hx. unfold decompressSnappy. destruct (decompress_any x Hx) as [Hs Hd].
  destruct (decompress x) as [l|e]; [by destruct (Hd l eq_refl)|]. by destruct e.
Qed.

Lemma snappy_small x :
  is_bytes x -> size x < 2 ^ 30 ->
  exists c, compressSnappy x = Ok c /\ decompressSnappy c = Ok x.
Proof.
  intros Hb Hx. unfold compressSnappy, decompressSnappy.
  destruct (decompress_compress x Hb) as (c & -> & Hc); [lia|].
  exists c. by rewrite Hc.
Qed.

(** [decodeBatch] by cases of the settings. *)
Lemma decodeBatch_plain p inheader thr alg :
  decodeBatch z (BATCH_HEADER :: p) (mkSettings false inheader thr alg) = unframePackets p.
Proof. unfold decodeBatch. case_bool_decide; [done|]. by rewrite vec_range_1. Qed.

Lemma decodeBatch_guess p thr alg :
  decodeBatch z (BATCH_HEADER :: p) (mkSettings true false thr alg) =
  rbind (rcatch (decompress_guess z (mkSettings true false thr alg) p) (fun _ => Ok p))
    unframePackets.
Proof. unfold decodeBatch. case_bool_decide; [done|]. by rewrite vec_range_1. Qed.

Definition decode_header (h : Z) (q : bytes) : result (list bytes) :=
  if h =? COMPRESSION_NONE then unframePackets q
  else if h =? COMPRESSION_DEFLATE then rbind (inflateRaw z q) unframePackets
  else if h =? COMPRESSION_SNAPPY then rbind (decompressSnappy q) unframePackets
  else Throw (BedrockFramerError "unknown compression header").

Lemma decodeBatch_header h q thr alg :
  decodeBatch z (BATCH_HEADER :: h :: q) (mkSettings true true thr alg) = decode_header h q.
Proof.
  unfold decodeBatch. case_bool_decide; [done|].
  destruct (Z.geb_spec 1 (size (BATCH_HEADER :: h :: q))) as [Hx|_].
  { rewrite !size_cons in Hx. pose proof (size_nonneg q). lia. }
  change (vec_at (BATCH_HEADER :: h :: q) 1) with (Ok h).
  cbn [rbind negb compressionReady compressorInHeader].
  change (1 + 1) with 2. rewrite vec_range_2. done.
Qed.

(** When the wire format determines how to decode: the compression byte is
    present, or there is no compression yet, or the batch was compressed, or
    its plain bytes are not themselves a valid compressed block. *)
Definition decodable (settings : BedrockFramerSettings) (framed : bytes) : Prop :=
  compressionReady settings = false \/ compressorInHeader settings = true \/
  compressionThreshold settings < size framed \/
  exists e, decompress_guess z settings framed = Throw e /\ is_stuck e = false.

(** [BedrockFramer::decodeBatch] inverts [encodeBatch], under every
    setting that names a known algorithm, whenever the wire format determines
    how to decode; the packets may be empty. *)
Theorem framer_roundtrip ps settings :
  Forall (fun p => is_bytes p) ps -> size (frames ps) < 2 ^ 30 -> Forall small ps ->
  0 <= compressionThreshold settings ->
  compressionAlgorithm settings = 0 \/ compressionAlgorithm settings = 1 ->
  decodable settings (frames ps) ->
  exists batch, encodeBatch z ps settings = Ok batch /\
    decodeBatch z batch settings = Ok ps.
Proof.
  intros Hb Hsz Hsm Hth Halg Hdec. unfold encodeBatch.
  rewrite framePackets_frames by done. cbn [rbind].
  pose proof (unframePackets_frames ps Hsm Hb) as Hun.
  assert (is_bytes (frames ps)) as Hfb by by apply frames_bytes.
  set (f := frames ps) in *.
  destruct (framer_deflateRaw_small f Hsz) as (d & Hd & Hdi).
  destruct (snappy_small f Hfb Hsz) as (s & Hs & Hsi).
  unfold decodable in Hdec.
  destruct settings as [ready inheader thr alg]. cbn [compressionReady compressorInHeader
    compressionThreshold compressionAlgorithm] in *.
  destruct ready; cbn [negb]; [|by eexists; split; [reflexivity|]; cbn [app]; rewrite decodeBatch_plain].
  destruct (Z.gtb_spec (size f) thr) as [Hc|Hc].
  - assert (f <> []) as Hne by (intros E; rewrite E in Hc; change (size []) with 0 in Hc; lia).
    specialize (Hdi Hne).
    destruct inheader; cbn [negb]; destruct Halg as [-> | ->]; cbn [Z.eqb Pos.eqb];
      rewrite ?Hd, ?Hs; (eexists; split; [reflexivity|]); cbn [app];
      rewrite ?decodeBatch_header, ?decodeBatch_guess; unfold decompress_guess; cbn;
      rewrite ?Hdi, ?Hsi; done.
  - destruct inheader; cbn [negb]; (eexists; split; [reflexivity|]); cbn [app].
    + by rewrite decodeBatch_header.
    + rewrite decodeBatch_guess. destruct Hdec as [?|[?|[?|(e & -> & He)]]]; [done|done|lia|].
      cbn [rcatch]. by rewrite He.
Qed.

Lemma decompress_guess_any settings p :
  is_bytes p -> byte_result (decompress_guess z settings p).
Proof.
  intros Hb. unfold decompress_guess. destruct (_ =? 0); [by apply framer_inflateRaw_any|].
  destruct (_ =? 1); [by apply decompressSnappy_any|done].
Qed.

Lemma unframe_result_safe r : byte_result r -> safe (rbind r unframePackets).
Proof. destruct r as [l|e]; intros Hr; [by apply unframePackets_safe|done]. Qed.

(** [BedrockFramer::decodeBatch] is safe on any bytes and under any
    settings. *)
Theorem framer_decode_safe batch settings :
  is_bytes batch -> safe (decodeBatch z batch settings).
Proof.
  intros Hb. destruct batch as [|b0 p]; [done|]. apply Forall_cons_1 in Hb as [_ Hb].
  destruct (decide (b0 = BATCH_HEADER)) as [->|Hne].
  2:{ unfold decodeBatch. case_bool_decide; [done|].
      change (vec_at (b0 :: p) 0) with (Ok b0). cbn [rbind].
      by rewrite (proj2 (Z.eqb_neq _ _) Hne). }
  destruct settings as [[] [] thr alg].
  - destruct p as [|h q]; [done|]. rewrite decodeBatch_header.
    apply Forall_cons_1 in Hb as [_ Hb]. unfold decode_header.
    destruct (_ =? _); [by apply unframePackets_safe|].
    destruct (_ =? _); [by apply unframe_result_safe, framer_inflateRaw_any|].
    destruct (_ =? _); [by apply unframe_result_safe, decompressSnappy_any|done].
  - rewrite decodeBatch_guess. apply unframe_result_safe.
    pose proof (decompress_guess_any (mkSettings true false thr alg) p Hb) as Hg.
    destruct (decompress_guess _ _ p) as [l|e]; [done|]. cbn in *. by rewrite Hg.
  - rewrite decodeBatch_plain. by apply unframePackets_safe.
  - rewrite decodeBatch_plain. by apply unframePackets_safe.
Qed.
End Proofs.

(** Snappy, compression byte absent: the settings of an older protocol. *)
Definition legacy_snappy : BedrockFramerSettings := mkSettings true false 256 1.

(** Without a compression byte the decoder cannot tell a plain batch from
    a compressed one: the one-packet batch [00 04 0e 01 00] is sent
    uncompressed, but its framed bytes are a valid Snappy block and another
    packet is received. *)
Theorem framer_headerless_ambiguous z :
  encodeBatch z [[0; 4; 14; 1; 0]] legacy_snappy = Ok [254; 5; 0; 4; 14; 1; 0] /\
  decodeBatch z [254; 5; 0; 4; 14; 1; 0] legacy_snappy = Ok [[4; 4; 4; 4]].
Proof. by split; vm_compute. Qed.

Lemma framer_roundtrip_witness :
  exists batch, encodeBatch stored_zlib [[1; 2]; []] (mkSettings true true 0 1) = Ok batch /\
    decodeBatch stored_zlib batch (mkSettings true true 0 1) = Ok [[1; 2]; []].
Proof.
  apply (framer_roundtrip stored_zlib [[1; 2]; []] (mkSettings true true 0 1)).
  - by apply (bool_decide_unpack _).
  - reflexivity.
  - by repeat constructor.
  - by apply (bool_decide_unpack _).
  - by right.
  - by right; left.
Defined.

Lemma framer_decode_safe_witness :
  safe (decodeBatch stored_zlib [254; 0; 3] (mkSettings true true 0 1)).
Proof. apply (framer_decode_safe stored_zlib). by apply (bool_decide_unpack _). Defined.
End BedrockFramer.
