(* ===== verification/Versioned.v ===== *)
(** * The versioned protocol (src/include/bedrock/protocol: ProtocolDefinition.hpp,
      VersionedPacketCodec.hpp, VersionedBatchCodec.hpp; src/src/protocol/VersionedMcpeCodec.cpp)

    Packets, batches and MCPE payloads of a protocol version.  The generated
    packet tables are a parameter: [info] is the table of one version, [get]
    looks one up. *)

From S2P Require Import Prelude MachineInt Leb128 Framing GamePacket Text Snappy Zlib.

(** ** Protocol tables (GeneratedProtocolRegistry.hpp, Options.hpp) *)

Module ProtocolDefinition.

Record ProtocolPacketInfo := mkPacketInfo {
  id : Z;
  packet_info_name : string;
  paramsType : option string
}.

Record ProtocolVersionInfo := mkVersionInfo {
  minecraftVersion : string;
  protocolVersion : Z;
  packets : list ProtocolPacketInfo
}.

Record BedrockVersionEntry := mkVersionEntry {
  entry_version : string;
  entry_protocol : Z
}.

Definition VERSION_ENTRIES : list BedrockVersionEntry :=
  [mkVersionEntry "1.26.20" 975; mkVersionEntry "1.26.10" 944; mkVersionEntry "1.26.0" 924;
   mkVersionEntry "1.21.130" 898; mkVersionEntry "1.21.124" 860; mkVersionEntry "1.21.120" 859;
   mkVersionEntry "1.21.111" 844; mkVersionEntry "1.21.100" 827; mkVersionEntry "1.21.93" 819;
   mkVersionEntry "1.21.90" 818; mkVersionEntry "1.21.80" 800; mkVersionEntry "1.21.70" 786;
   mkVersionEntry "1.21.60" 776; mkVersionEntry "1.21.50" 766; mkVersionEntry "1.21.42" 748;
   mkVersionEntry "1.21.30" 729; mkVersionEntry "1.21.20" 712; mkVersionEntry "1.21.2" 686;
   mkVersionEntry "1.21.0" 685; mkVersionEntry "1.20.80" 671; mkVersionEntry "1.20.71" 662;
   mkVersionEntry "1.20.61" 649; mkVersionEntry "1.20.50" 630; mkVersionEntry "1.20.40" 622;
   mkVersionEntry "1.20.30" 618; mkVersionEntry "1.20.15" 594; mkVersionEntry "1.20.10" 594;
   mkVersionEntry "1.20.0" 589; mkVersionEntry "1.19.80" 582; mkVersionEntry "1.19.70" 575;
   mkVersionEntry "1.19.63" 568; mkVersionEntry "1.19.62" 567; mkVersionEntry "1.19.60" 567;
   mkVersionEntry "1.19.50" 560; mkVersionEntry "1.19.40" 557; mkVersionEntry "1.19.30" 554;
   mkVersionEntry "1.19.21" 545; mkVersionEntry "1.19.20" 544; mkVersionEntry "1.19.10" 534;
   mkVersionEntry "1.19.1" 527; mkVersionEntry "1.18.30" 503; mkVersionEntry "1.18.11" 486;
   mkVersionEntry "1.18.0" 475; mkVersionEntry "1.17.40" 471; mkVersionEntry "1.17.30" 465;
   mkVersionEntry "1.17.10" 448; mkVersionEntry "1.17.0" 440; mkVersionEntry "1.16.220" 431;
   mkVersionEntry "1.16.210" 428; mkVersionEntry "1.16.201" 422].

(** [for (entry : entries) if (...) return &entry; return nullptr;] *)
Fixpoint find_first {A} (p : A -> bool) (l : list A) : option A :=
  match l with
  | [] => None
  | x :: l' => if p x then Some x else find_first p l'
  end.

Definition findVersion (minecraftVersion : string) : option BedrockVersionEntry :=
  find_first (fun e => bool_decide (entry_version e = minecraftVersion)) VERSION_ENTRIES.

Definition protocolVersionFor (minecraftVersion : string) : result Z :=
  match findVersion minecraftVersion with
  | None => Throw (RuntimeError ("Unknown version: " +:+ minecraftVersion))
  | Some entry => Ok (entry_protocol entry)
  end.
Definition validateVersion (minecraftVersion : string) : result Z :=
  match findVersion minecraftVersion with
  | None => Throw (RuntimeError ("Unsupported version " +:+ minecraftVersion))
  | Some entry => Ok (entry_protocol entry)
  end.
Definition supportedVersionNames : list string := entry_version <$> VERSION_ENTRIES.

Definition packetById (packetId : Z) (info : ProtocolVersionInfo) : option ProtocolPacketInfo :=
  find_first (fun p => id p =? packetId) (packets info).
Definition packetByName (packetName : string) (info : ProtocolVersionInfo) : option ProtocolPacketInfo :=
  find_first (fun p => bool_decide (packetName = packet_info_name p)) (packets info).

Definition hasPacket (packetId : Z) info : bool := bool_decide (is_Some (packetById packetId info)).
Definition hasPacket_name (packetName : string) info : bool :=
  bool_decide (is_Some (packetByName packetName info)).
Definition packetCount info : Z := size (packets info).

Definition packetName (packetId : Z) info : string :=
  match packetById packetId info with
  | None => "unknown_" +:+ to_string packetId
  | Some packet => packet_info_name packet
  end.

Definition packetId (packetName : string) info : result Z :=
  match packetByName packetName info with
  | None => Throw (RuntimeError ("unknown packet name for version " +:+ minecraftVersion info +:+ ": " +:+ packetName))
  | Some packet => Ok (id packet)
  end.

Definition packetParamsType (packetId : Z) info : string :=
  match packetById packetId info with
  | None => ""
  | Some packet => match paramsType packet with Some t => t | None => "" end
  end.
Definition packetParamsType_name (packetName : string) info : string :=
  match packetByName packetName info with
  | None => ""
  | Some packet => match paramsType packet with Some t => t | None => "" end
  end.

(** [get] is [GeneratedProtocolRegistry::get]. *)
Definition forVersion (get : string -> option ProtocolVersionInfo) (minecraftVersion : string)
    : result ProtocolVersionInfo :=
  let unsupported := Throw (RuntimeError ("unsupported protocol version: " +:+ minecraftVersion)) in
  match findVersion minecraftVersion with
  | None => unsupported
  | Some _ => match get minecraftVersion with None => unsupported | Some info => Ok info end
  end.

Definition supportsVersion (get : string -> option ProtocolVersionInfo) (minecraftVersion : string) : bool :=
  bool_decide (is_Some (findVersion minecraftVersion)) && bool_decide (is_Some (get minecraftVersion)).

End ProtocolDefinition.

Abbreviation ProtocolVersionInfo := ProtocolDefinition.ProtocolVersionInfo.

(** ** Packets *)

Module VersionedPacketCodec.

Record VersionedGamePacket := mkVersioned {
  packet_id : Z;
  packet_name : string;
  params_type : string;
  fullPacket : bytes;
  payload : bytes
}.

Definition eof : exn := RuntimeError "unexpected end while reading varuint".
Definition tooLarge : exn := RuntimeError "varuint too large".

Definition writeVarUInt (out : bytes) (value : Z) : bytes := write_do_while 5 out value.
Definition readVarUInt (data : bytes) : M Z Z :=
  varint_loop (fetch_at data eof) 32 tooLarge shifts32 0.

Definition decodeFullPacket (definition : ProtocolVersionInfo) (full : bytes) : result VersionedGamePacket :=
  match readVarUInt full 0 with
  | (Throw e, _) => Throw e
  | (Ok packetId, offset) =>
      if offset >? size full then Throw (RuntimeError "packet id offset overflow")
      else
        let! payload := vec_range full offset (size full) in
        Ok (mkVersioned packetId (ProtocolDefinition.packetName packetId definition)
              (ProtocolDefinition.packetParamsType packetId definition) full payload)
  end.

Definition encodeFullPacketById (packetId : Z) (payload : bytes) : bytes :=
  writeVarUInt [] packetId ++ payload.

Definition encodeFullPacketByName (definition : ProtocolVersionInfo) (packetName : string) (payload : bytes)
    : result bytes :=
  let! packetId := ProtocolDefinition.packetId packetName definition in
  Ok (encodeFullPacketById packetId payload).

Definition makePacketById (definition : ProtocolVersionInfo) (packetId : Z) (payload : bytes) : VersionedGamePacket :=
  mkVersioned packetId (ProtocolDefinition.packetName packetId definition)
    (ProtocolDefinition.packetParamsType packetId definition)
    (encodeFullPacketById packetId payload) payload.

Definition makePacketByName (definition : ProtocolVersionInfo) (packetName : string) (payload : bytes)
    : result VersionedGamePacket :=
  let! packetId := ProtocolDefinition.packetId packetName definition in
  Ok (mkVersioned packetId packetName (ProtocolDefinition.packetParamsType_name packetName definition)
        (encodeFullPacketById packetId payload) payload).

(** [for (item : packets) made.push_back(makePacketByName(item.first, item.second))] *)
Fixpoint make_packets (definition : ProtocolVersionInfo) (items : list (string * bytes))
    : result (list VersionedGamePacket) :=
  match items with
  | [] => Ok []
  | item :: items' =>
      let! p := makePacketByName definition item.1 item.2 in
      let! made := make_packets definition items' in
      Ok (p :: made)
  end.

End VersionedPacketCodec.

Import VersionedPacketCodec.

(** ** Batches *)

Module VersionedBatchCodec.

Abbreviation VersionedPacketBatch := (list VersionedGamePacket).

Definition empty_packet : exn := RuntimeError "framed batch contains empty packet".
Definition exceeds : exn := RuntimeError "framed batch packet exceeds buffer size".

Definition decodeFramedBatch (definition : ProtocolVersionInfo) (framedBatch : bytes)
    : result VersionedPacketBatch :=
  fst (unframe_loop readVarUInt (decodeFullPacket definition) (S (length framedBatch))
         (fun packetSize => if packetSize =? 0 then Some empty_packet else None)
         exceeds framedBatch [] 0).

Definition not_empty (message : string) (full : bytes) : option exn :=
  if bool_decide (full = []) then Some (RuntimeError message) else None.

Definition encodeFramedBatch (packets : list VersionedGamePacket) : result bytes :=
  frame_loop writeVarUInt (not_empty "cannot encode packet with empty fullPacket") (fullPacket <$> packets) [].

Definition encodeFramedBatchFromFullPackets (fullPackets : list bytes) : result bytes :=
  frame_loop writeVarUInt (not_empty "cannot encode empty full packet") fullPackets [].

Definition encodeFramedBatchByNames (definition : ProtocolVersionInfo) (packets : list (string * bytes))
    : result bytes :=
  let! made := make_packets definition packets in encodeFramedBatch made.

End VersionedBatchCodec.

(** ** MCPE payloads *)

Module VersionedMcpeCodec.
Import VersionedBatchCodec.

Inductive VersionedMcpeCompression := DeflateRaw | Snappy | Automatic | Uncompressed.

#[export] Instance compression_eq_dec : EqDecision VersionedMcpeCompression.
Proof. solve_decision. Defined.

(** The underlying values. *)
Definition compression_byte (c : VersionedMcpeCompression) : Z :=
  match c with DeflateRaw => 0x00 | Snappy => 0x01 | Automatic => 0xfe | Uncompressed => 0xff end.

Record VersionedMcpePayload := mkMcpePayload {
  compressionHeader : Z;
  compressionPacket : bytes;
  framedBatch : bytes;
  batch : list VersionedGamePacket
}.

(** The batch codec is determined by its definition. *)
Record VersionedMcpeCodec := mkMcpeCodec {
  definition : ProtocolVersionInfo;
  compressorInPacketHeader_ : bool
}.

(** *** Versions *)

(** [current.empty() ? 0 : std::stoi(current)]. *)
Definition part (current : string) : result Z :=
  if bool_decide (current = "") then Ok 0 else stoi current.

(** [for (char c : version)]: the parts and the digits of the last one. *)
Fixpoint version_loop (version : list Ascii.ascii) (parts : list Z) (current : string)
    : result (list Z * string) :=
  match version with
  | [] => Ok (parts, current)
  | c :: version' =>
      if byte_of_ascii c =? 46 then
        let! p := part current in version_loop version' (parts ++ [p]) ""
      else if is_digit c then version_loop version' parts (current +:+ String c "")
      else version_loop version' parts current
  end.

Definition versionAtLeast (version : string) (major minor patch : Z) : result bool :=
  let! (parts, current) := version_loop (String.list_ascii_of_string version) [] "" in
  let! p := part current in
  let parts := parts ++ [p] in
  let parts := parts ++ replicate (3 - length parts) 0 in
  let! p0 := vec_at parts 0 in
  let! p1 := vec_at parts 1 in
  let! p2 := vec_at parts 2 in
  Ok (if negb (p0 =? major) then p0 >? major
      else if negb (p1 =? minor) then p1 >? minor
      else p2 >=? patch).

Definition make (definition : ProtocolVersionInfo) : result VersionedMcpeCodec :=
  let! header := versionAtLeast (ProtocolDefinition.minecraftVersion definition) 1 20 61 in
  Ok (mkMcpeCodec definition header).

Definition forVersion (get : string -> option ProtocolVersionInfo) (minecraftVersion : string)
    : result VersionedMcpeCodec :=
  let! info := ProtocolDefinition.forVersion get minecraftVersion in make info.

(** *** Compression *)

Definition BUFFER : Z := 32768.

Section WithZlib.
Context (z : zlib).

Definition deflateRaw (input : bytes) (compressionLevel : Z) : result bytes :=
  match deflateInit2 z compressionLevel (zlib_input input) with
  | None => Throw (RuntimeError "deflateInit2 failed")
  | Some stream => deflate_loop z (zlib_fuel input) BUFFER (RuntimeError "deflate failed") stream []
  end.

Definition inflateRaw (input : bytes) : result bytes :=
  match inflateInit2 z (zlib_input input) with
  | None => Throw (RuntimeError "inflateInit2 failed")
  | Some stream =>
      inflate_loop_checked z (zlib_fuel input) BUFFER (RuntimeError "inflate failed")
        (RuntimeError "incomplete deflate stream") stream []
  end.

Definition chooseCompression (compressionAlgorithm : string) (shouldCompress : bool)
    : result VersionedMcpeCompression :=
  if bool_decide (compressionAlgorithm = "none") then Ok Uncompressed
  else if bool_decide (compressionAlgorithm = "deflate") then
    Ok (if shouldCompress then DeflateRaw else Uncompressed)
  else if bool_decide (compressionAlgorithm = "snappy") then
    Ok (if shouldCompress then Snappy else Uncompressed)
  else Throw (RuntimeError ("Unknown compression algorithm: " +:+ compressionAlgorithm)).

Section Codec.
Context (codec : VersionedMcpeCodec).

Definition decode_batch (header : Z) (compressionPacket framed : bytes) : result VersionedMcpePayload :=
  let! batch := decodeFramedBatch (definition codec) framed in
  Ok (mkMcpePayload header compressionPacket framed batch).

(** The decompression of a headerless packet, inside the [try]. *)
Definition legacy_decompress (compressionPacket : bytes) (legacyCompressionAlgorithm : string)
    : result (Z * bytes) :=
  if bool_decide (legacyCompressionAlgorithm = "snappy") then
    let! framed := decompress compressionPacket in Ok (compression_byte Snappy, framed)
  else if bool_decide (legacyCompressionAlgorithm = "deflate") then
    let! framed := inflateRaw compressionPacket in Ok (compression_byte DeflateRaw, framed)
  else Throw (RuntimeError "unknown legacy compression algorithm").

Definition decodeCompressionPacket_with (packet : bytes) (legacyCompressionAlgorithm : string)
    : result VersionedMcpePayload :=
  if bool_decide (packet = []) then Throw (RuntimeError "empty compression packet")
  else if negb (compressorInPacketHeader_ codec) then
    if bool_decide (legacyCompressionAlgorithm = "none") then
      decode_batch (compression_byte Uncompressed) packet packet
    else
      match legacy_decompress packet legacyCompressionAlgorithm with
      | Ok (header, framed) => decode_batch header packet framed
      | Throw e =>
          if is_stuck e then Throw e else decode_batch (compression_byte Uncompressed) packet packet
      end
  else
    let! header := vec_at packet 0 in
    let! body := vec_range packet 1 (size packet) in
    let! framed :=
      if header =? compression_byte Uncompressed then Ok body
      else if header =? compression_byte DeflateRaw then inflateRaw body
      else if header =? compression_byte Snappy then decompress body
      else Throw (RuntimeError ("Unknown compression type " +:+ to_string header)) in
    decode_batch header packet framed.

Definition decodeCompressionPacket (packet : bytes) : result VersionedMcpePayload :=
  decodeCompressionPacket_with packet "deflate".

(** [mcpePayload] without the 0xfe byte. *)
Definition strip_prefix (mcpePayload : bytes) : result bytes :=
  if bool_decide (mcpePayload = []) then Throw (RuntimeError "empty mcpe payload")
  else
    let! b := vec_at mcpePayload 0 in
    if negb (b =? 0xfe) then Throw (RuntimeError "mcpe payload missing 0xfe prefix")
    else vec_range mcpePayload 1 (size mcpePayload).

Definition decodeMcpePayload_with (mcpePayload : bytes) (legacyCompressionAlgorithm : string)
    : result VersionedMcpePayload :=
  let! packet := strip_prefix mcpePayload in
  if size mcpePayload <? 2 then Throw (RuntimeError "mcpe payload missing compression header")
  else decodeCompressionPacket_with packet legacyCompressionAlgorithm.

Definition decodeMcpePayload (mcpePayload : bytes) : result VersionedMcpePayload :=
  decodeMcpePayload_with mcpePayload "deflate".

Definition decodeEncryptedCompressionPacket (packet : bytes) : result VersionedMcpePayload :=
  if compressorInPacketHeader_ codec then decodeCompressionPacket packet
  else if bool_decide (packet = []) then Throw (RuntimeError "empty encrypted compression packet")
  else
    let! framed := inflateRaw packet in
    decode_batch (compression_byte DeflateRaw) packet framed.

Definition decodeUncompressedCompressionPacket (packet : bytes) : result VersionedMcpePayload :=
  decode_batch (compression_byte Uncompressed) packet packet.

Definition decodeUncompressedMcpePayload (mcpePayload : bytes) : result VersionedMcpePayload :=
  let! packet := strip_prefix mcpePayload in decodeUncompressedCompressionPacket packet.

(** The private [encodeFramedBatch]. *)
Definition encode_framed (framed : bytes) (compression : VersionedMcpeCompression) (compressionLevel : Z)
    : result bytes :=
  let! compressed :=
    match compression with
    | Automatic => Throw (RuntimeError "unsupported compression mode")
    | Uncompressed => Ok framed
    | DeflateRaw => deflateRaw framed compressionLevel
    | Snappy => compress framed
    end in
  Ok (if compressorInPacketHeader_ codec then compression_byte compression :: compressed else compressed).

Definition encodeCompressionPacket (packets : list VersionedGamePacket)
    (compression : VersionedMcpeCompression) (compressionLevel : Z) : result bytes :=
  let! framed := encodeFramedBatch packets in encode_framed framed compression compressionLevel.

Definition encodeCompressionPacket_threshold (packets : list VersionedGamePacket)
    (compressionAlgorithm : string) (compressionLevel compressionThreshold : Z) : result bytes :=
  let! framed := encodeFramedBatch packets in
  let! compression := chooseCompression compressionAlgorithm (size framed >? compressionThreshold) in
  encode_framed framed compression compressionLevel.

Definition encodeEncryptedCompressionPacket (packets : list VersionedGamePacket) (compressionLevel : Z)
    : result bytes :=
  let! framed := encodeFramedBatch packets in
  let! compressed := deflateRaw framed compressionLevel in
  Ok (if negb (compressorInPacketHeader_ codec) then compressed else compression_byte DeflateRaw :: compressed).

Definition encodeMcpePayload (packets : list VersionedGamePacket)
    (compression : VersionedMcpeCompression) (compressionLevel : Z) : result bytes :=
  let! packet := encodeCompressionPacket packets compression compressionLevel in Ok (0xfe :: packet).

Definition encodeMcpePayload_threshold (packets : list VersionedGamePacket)
    (compressionAlgorithm : string) (compressionLevel compressionThreshold : Z) : result bytes :=
  let! packet := encodeCompressionPacket_threshold packets compressionAlgorithm compressionLevel compressionThreshold in
  Ok (0xfe :: packet).

Definition encodeCompressionPacketByNames (packets : list (string * bytes))
    (compression : VersionedMcpeCompression) (compressionLevel : Z) : result bytes :=
  let! made := make_packets (definition codec) packets in
  encodeCompressionPacket made compression compressionLevel.

Definition encodeCompressionPacketByNames_threshold (packets : list (string * bytes))
    (compressionAlgorithm : string) (compressionLevel compressionThreshold : Z) : result bytes :=
  let! made := make_packets (definition codec) packets in
  encodeCompressionPacket_threshold made compressionAlgorithm compressionLevel compressionThreshold.

Definition encodeMcpePayloadByNames (packets : list (string * bytes))
    (compression : VersionedMcpeCompression) (compressionLevel : Z) : result bytes :=
  let! packet := encodeCompressionPacketByNames packets compression compressionLevel in Ok (0xfe :: packet).

Definition encodeMcpePayloadByNames_threshold (packets : list (string * bytes))
    (compressionAlgorithm : string) (compressionLevel compressionThreshold : Z) : result bytes :=
  let! packet := encodeCompressionPacketByNames_threshold packets compressionAlgorithm compressionLevel compressionThreshold in
  Ok (0xfe :: packet).

End Codec.
End WithZlib.
End VersionedMcpeCodec.
