(* ===== verification/VersionedCodec.v ===== *)
(** * The versioned codec: properties

    Packets by name, batches and MCPE payloads of a version, with and without
    the compression byte, encrypted and below the threshold; safety of the
    decoders; the comparison of versions. *)

From S2P Require Import Prelude MachineInt Leb128 Framing GamePacket Text Snappy Zlib Versioned.
Import VersionedPacketCodec.
Import VersionedBatchCodec VersionedMcpeCodec.

(** ** Packets and batches *)

#[export] Instance versioned_length_codec : LengthCodec readVarUInt writeVarUInt eof tooLarge.
Proof.
  split; [| |done].
  - intros out v Hv. apply write_do_while_leb. by apply u32_fits_5.
  - intros data off Hd Hv. apply varint_loop_32; [done|]. by apply Forall_drop.
Qed.

(** What [decodeFullPacket] makes of an id and a payload. *)
Definition decoded (d : ProtocolVersionInfo) (id : Z) (payload : bytes) : VersionedGamePacket :=
  makePacketById d id payload.

Lemma full_packet_leb id k : is_u 32 id -> encodeFullPacketById id k = leb_encode 5 id ++ k.
Proof. intros Hi. unfold encodeFullPacketById. by rewrite (write_len [] id Hi). Qed.

Lemma decode_full d id k : is_u 32 id -> is_bytes k ->
  decodeFullPacket d (encodeFullPacketById id k) = Ok (decoded d id k).
Proof.
  intros Hi Hk. unfold decodeFullPacket, decoded, makePacketById. rewrite full_packet_leb by done.
  assert (is_bytes (leb_encode 5 id)) as Hl by by apply leb_encode_bytes, Hi.
  pose proof (size_nonneg (leb_encode 5 id)). pose proof (size_nonneg k).
  rewrite read_len; [|by rewrite is_bytes_app|split; [lia|apply size_nonneg]].
  change (offset_rest (leb_encode 5 id ++ k) 0) with (leb_encode 5 id ++ k).
  rewrite leb_outcome_encode_32 by done. unfold offset_skip. rewrite Z.add_0_l.
  rewrite size_app, Z.gtb_ltb, (proj2 (Z.ltb_ge _ _)) by lia.
  rewrite <-size_app, vec_range_tail by done. done.
Qed.

(** A packet as the codec makes them. *)
Record packet_ok (d : ProtocolVersionInfo) (p : VersionedGamePacket) : Prop := mkPacketOk {
  po_made : p = decoded d (packet_id p) (payload p);
  po_id : is_u 32 (packet_id p);
  po_payload : is_bytes (payload p)
}.

Lemma packet_ok_full d p : packet_ok d p ->
  fullPacket p = leb_encode 5 (packet_id p) ++ payload p /\ is_bytes (fullPacket p) /\
  fullPacket p <> [] /\ decodeFullPacket d (fullPacket p) = Ok p.
Proof.
  intros [Hm Hi Hp]. pose proof (decode_full d _ _ Hi Hp) as Hd.
  assert (fullPacket p = encodeFullPacketById (packet_id p) (payload p)) as E by by rewrite Hm.
  rewrite <-E, <-Hm in Hd. rewrite full_packet_leb in E by done. split; [done|]. rewrite E.
  split; [rewrite is_bytes_app; split; [by apply leb_encode_bytes, Hi|done]|]. rewrite <-E. split; [|done].
  rewrite E. intros [H _]%app_nil. by apply leb_encode_nonempty in H.
Qed.

(** The framed batch of some packets. *)
Definition framed_of (ps : list VersionedGamePacket) : bytes := frames (fullPacket <$> ps).

Lemma encode_batch d ps : Forall (packet_ok d) ps -> size (framed_of ps) < 2 ^ 32 ->
  encodeFramedBatch ps = Ok (framed_of ps).
Proof.
  intros Hok Hs. unfold encodeFramedBatch.
  rewrite (frame_loop_ok _ _ (HC := versioned_length_codec)); [done|by apply frames_small|].
  apply Forall_fmap. eapply Forall_impl; [|exact Hok]. intros p Hp. unfold compose, not_empty.
  destruct (packet_ok_full d p Hp) as (_ & _ & Hne & _). by rewrite bool_decide_false.
Qed.

Lemma framed_bytes d ps : Forall (packet_ok d) ps -> is_bytes (framed_of ps).
Proof.
  intros Hok. apply frames_bytes, Forall_fmap. eapply Forall_impl; [|exact Hok].
  intros p Hp. by apply (packet_ok_full d p Hp).
Qed.

Lemma decode_batch_frames d ps : Forall (packet_ok d) ps -> size (framed_of ps) < 2 ^ 32 ->
  decodeFramedBatch d (framed_of ps) = Ok ps.
Proof.
  intros Hok Hs. unfold decodeFramedBatch.
  assert (Forall2 (fun k p => decodeFullPacket d k = Ok p) (fullPacket <$> ps) ps) as H2.
  { clear Hs. induction Hok as [|p ps Hp _ IH]; constructor; [|done]. by apply (packet_ok_full d p Hp). }
  rewrite (unframe_loop_ok _ _ _ (HC := versioned_length_codec) _ _ (fullPacket <$> ps) ps []).
  - done.
  - done.
  - done.
  - apply Forall_fmap. eapply Forall_impl; [|exact Hok]. intros p Hp. by apply (packet_ok_full d p Hp).
  - constructor.
  - by apply frames_small.
  - apply Forall_fmap. eapply Forall_impl; [|exact Hok]. intros p Hp. unfold compose.
    destruct (packet_ok_full d p Hp) as (_ & _ & Hne & _). destruct (Z.eqb_spec (size (fullPacket p)) 0) as [E|]; [|done].
    by apply size_zero_inv in E.
  - pose proof (frames_length_bound (fullPacket <$> ps)). unfold framed_of. lia.
Qed.

Lemma framed_nonempty ps : ps <> [] -> framed_of ps <> [].
Proof.
  intros Hne E. pose proof (frames_length_bound (fullPacket <$> ps)) as H. unfold framed_of in E. rewrite E in H.
  rewrite length_fmap in H. destruct ps; [done|]. cbn in H. lia.
Qed.

Lemma decodeFullPacket_safe d k : is_bytes k -> safe (decodeFullPacket d k).
Proof.
  intros Hk. unfold decodeFullPacket. pose proof (size_nonneg k).
  rewrite read_len by (done || split; lia). change (offset_rest k 0) with k.
  destruct (leb_decode 5 k) as [v n|n|n] eqn:E; cbn [leb_outcome]; [|done|done].
  destruct (leb_decode_value_bound _ _ _ _ Hk E) as (_ & Hn & _). unfold offset_skip. rewrite Z.add_0_l.
  destruct (Z.gtb_spec n (size k)); [done|]. by rewrite vec_range_ok by lia.
Qed.

Lemma decodeFramedBatch_safe d k : is_bytes k -> safe (decodeFramedBatch d k).
Proof.
  intros Hk. unfold decodeFramedBatch. eapply runs_safe_safe, unframe_loop_safe;
    [apply versioned_length_codec|done|done| |by apply decodeFullPacket_safe|split; [lia|apply size_nonneg]|unfold size; lia].
  intros n e. destruct (n =? 0); [intros [= <-]|]; done.
Qed.

(** ** Compression *)

Section Mcpe.
Context (z : zlib) `{HZ : !ZlibLaws z}.

Lemma versioned_deflate x level :
  size x < 2 ^ 30 -> -1 <= level <= 9 ->
  exists c, deflateRaw z x level = Ok c /\ size c <= 2 * size x + 64 /\ inflateRaw z c = Ok x /\ (x <> [] -> c <> []).
Proof.
  intros Hx Hl. unfold deflateRaw, inflateRaw. rewrite (zlib_input_id x) by lia.
  destruct (deflate_run z level BUFFER (RuntimeError "deflate failed") x)
    as (st & s & -> & Hraw & Hsz & Hd); [done|done|].
  exists s. split; [done|]. split; [done|]. rewrite zlib_input_id by lia.
  destruct (inflate_run z BUFFER (RuntimeError "inflate failed") s x) as (st' & -> & _ & Hi); [done|done|].
  split; [apply Hi|]. intros Hne ->. pose proof (raw_ratio [] x Hraw) as Hr. apply Hne, size_zero_inv.
  pose proof (size_nonneg x). change (size (@nil Z)) with 0 in Hr. lia.
Qed.

Lemma versioned_inflate_any x : is_bytes x -> byte_result (inflateRaw z x).
Proof.
  intros Hx. unfold inflateRaw. destruct (inflateInit2 z (zlib_input x)) as [st|] eqn:E; [|done].
  destruct (inflate_loop_checked_any z BUFFER (RuntimeError "inflate failed") (RuntimeError "incomplete deflate stream")
    (zlib_fuel x) st []) as [(e & -> & [-> | ->])|(out & -> & Hb)]; [done|by apply zlib_fuel_left|done|done|].
  destruct (inflateInit2_left _ _ E) as [_ Hi]. apply Hb; [|constructor]. apply Hi. by apply Forall_take.
Qed.

Lemma snappy_any x : is_bytes x -> byte_result (decompress x).
Proof. intros Hx. destruct (decompress_any x Hx) as [Hs Hd]. destruct (decompress x) as [l|e]; [|done]. by apply (Hd l). Qed.

(** What a compression mode makes of the framed bytes, and how it is undone. *)
Definition undo (c : VersionedMcpeCompression) (k : bytes) : result bytes :=
  match c with
  | DeflateRaw => inflateRaw z k
  | Snappy => decompress k
  | _ => Ok k
  end.

Lemma encode_framed_ok codec framed c level :
  is_bytes framed -> size framed < 2 ^ 30 -> -1 <= level <= 9 -> c <> Automatic ->
  exists k, encode_framed z codec framed c level =
      Ok (if compressorInPacketHeader_ codec then compression_byte c :: k else k) /\
    undo c k = Ok framed /\ (framed <> [] -> k <> []).
Proof.
  intros Hb Hs Hl Hc. unfold encode_framed. destruct c; [| |done|].
  - destruct (versioned_deflate framed level Hs Hl) as (k & -> & _ & Hi & Hne). by exists k.
  - destruct (decompress_compress framed Hb ltac:(lia)) as (k & -> & Hk). exists k. split; [done|].
    split; [done|]. intros Hne ->. cbn in Hk. by vm_compute in Hk.
  - by exists framed.
Qed.

Lemma decode_modern_body codec c k framed alg :
  compressorInPacketHeader_ codec = true -> c <> Automatic -> undo c k = Ok framed ->
  decodeCompressionPacket_with z codec (compression_byte c :: k) alg =
    decode_batch codec (compression_byte c) (compression_byte c :: k) framed.
Proof.
  intros Hh Hc Hu. unfold decodeCompressionPacket_with. rewrite Hh. cbn [negb].
  rewrite bool_decide_false by done. change (vec_at (compression_byte c :: k) 0) with (Ok (compression_byte c)).
  cbn [rbind]. rewrite vec_range_cons.
  cbn [rbind]. destruct c; cbn in Hu |- *; [by rewrite Hu|by rewrite Hu|done|]. by injection Hu as ->.
Qed.

(** The name of the algorithm that a mode stands for. *)
Definition algorithm_of (c : VersionedMcpeCompression) : string :=
  match c with DeflateRaw => "deflate" | Snappy => "snappy" | _ => "none" end.

Lemma decode_legacy_body codec c k framed :
  compressorInPacketHeader_ codec = false -> c <> Automatic -> undo c k = Ok framed -> k <> [] ->
  decodeCompressionPacket_with z codec k (algorithm_of c) = decode_batch codec (compression_byte c) k framed.
Proof.
  intros Hh Hc Hu Hk. unfold decodeCompressionPacket_with, legacy_decompress. rewrite Hh. cbn [negb].
  rewrite bool_decide_false by done.
  destruct c; cbn in Hu |- *; [by rewrite Hu|by rewrite Hu|done|]. by injection Hu as ->.
Qed.

(** A packet that the receiver's decompressor rejects is taken as it is. *)
Lemma decode_legacy_reject codec c packet e :
  compressorInPacketHeader_ codec = false -> c <> Automatic -> c <> Uncompressed -> packet <> [] ->
  undo c packet = Throw e -> is_stuck e = false ->
  decodeCompressionPacket_with z codec packet (algorithm_of c) =
    decode_batch codec (compression_byte Uncompressed) packet packet.
Proof.
  intros Hh Ha Hu Hne He Hst. unfold decodeCompressionPacket_with, legacy_decompress. rewrite Hh. cbn [negb].
  rewrite bool_decide_false by done. destruct c; [| |done|done]; cbn [undo algorithm_of] in *;
    rewrite He; cbn [rbind]; rewrite bool_decide_false by done;
    repeat first [rewrite bool_decide_true by done | rewrite bool_decide_false by done]; by rewrite Hst.
Qed.

Lemma decode_batch_ok codec header k ps :
  Forall (packet_ok (definition codec)) ps -> size (framed_of ps) < 2 ^ 32 ->
  decode_batch codec header k (framed_of ps) = Ok (mkMcpePayload header k (framed_of ps) ps).
Proof. intros Hok Hs. unfold decode_batch. by rewrite decode_batch_frames. Qed.

(** Packets that fit a payload. *)
Definition sendable (codec : VersionedMcpeCodec) (ps : list VersionedGamePacket) : Prop :=
  Forall (packet_ok (definition codec)) ps /\ size (framed_of ps) < 2 ^ 30 /\ ps <> [].

(** Every compression mode of every version, on the level below the prefix. *)
Lemma versioned_compression codec ps c level :
  sendable codec ps -> -1 <= level <= 9 -> c <> Automatic ->
  exists packet, encodeCompressionPacket z codec ps c level = Ok packet /\ packet <> [] /\
    forall alg, compressorInPacketHeader_ codec = true \/ alg = algorithm_of c ->
      decodeCompressionPacket_with z codec packet alg =
        Ok (mkMcpePayload (compression_byte c) packet (framed_of ps) ps).
Proof.
  intros (Hok & Hs & Hne) Hl Hc. pose proof (framed_bytes _ _ Hok) as Hb. unfold encodeCompressionPacket.
  rewrite (encode_batch _ _ Hok) by lia. cbn [rbind].
  destruct (encode_framed_ok codec (framed_of ps) c level Hb Hs Hl Hc) as (k & -> & Hu & Hk).
  specialize (Hk (framed_nonempty ps Hne)). eexists. split; [done|].
  destruct (compressorInPacketHeader_ codec) eqn:Hh.
  - split; [done|]. intros alg _. rewrite (decode_modern_body codec c k (framed_of ps)) by done.
    apply decode_batch_ok; [done|lia].
  - split; [done|]. intros alg [| ->]; [done|]. rewrite (decode_legacy_body codec c k (framed_of ps)) by done.
    apply decode_batch_ok; [done|lia].
Qed.

Lemma strip_mcpe packet : strip_prefix (0xfe :: packet) = Ok packet.
Proof. apply vec_range_cons. Qed.

Lemma decode_mcpe codec packet alg : packet <> [] ->
  decodeMcpePayload_with z codec (0xfe :: packet) alg = decodeCompressionPacket_with z codec packet alg.
Proof.
  intros Hne. unfold decodeMcpePayload_with. rewrite strip_mcpe. cbn [rbind].
  destruct (Z.ltb_spec (size (0xfe :: packet)) 2) as [H|]; [|done]. rewrite size_cons in H.
  exfalso. apply Hne, size_zero_inv. pose proof (size_nonneg packet). lia.
Qed.

(** ** Packets by name *)

(** A generated table: the ids and the names are all different. *)
Record table_ok (d : ProtocolVersionInfo) : Prop := mkTableOk {
  tk_ids : base.NoDup (ProtocolDefinition.id <$> ProtocolDefinition.packets d);
  tk_names : base.NoDup (ProtocolDefinition.packet_info_name <$> ProtocolDefinition.packets d);
  tk_range : Forall (fun p => is_u 32 (ProtocolDefinition.id p)) (ProtocolDefinition.packets d)
}.

Lemma find_first_some {A} (f : A -> bool) l x : ProtocolDefinition.find_first f l = Some x -> x ∈ l /\ f x = true.
Proof.
  induction l as [|y l IH]; [done|]. cbn. destruct (f y) eqn:E.
  - intros [= <-]. split; [by left|done].
  - intros H. destruct (IH H) as [H1 H2]. split; [by right|done].
Qed.

Lemma find_first_key {A B} `{EqDecision B} (key : A -> B) (f : A -> bool) l x :
  (forall y, f y = true <-> key y = key x) -> base.NoDup (key <$> l) -> x ∈ l ->
  ProtocolDefinition.find_first f l = Some x.
Proof.
  intros Hf. induction l as [|y l IH]; [intros _ H; by apply not_elem_of_nil in H|].
  rewrite fmap_cons. intros [Hy Hl]%list.NoDup_cons [->|Hx]%elem_of_cons; cbn; [by rewrite (proj2 (Hf y) eq_refl)|].
  destruct (f y) eqn:E; [|by apply IH]. exfalso. apply Hy. rewrite (proj1 (Hf y) E). by apply list_elem_of_fmap_2.
Qed.

(** The entry under a name is the entry under its id. *)
Lemma name_id d p : table_ok d -> p ∈ ProtocolDefinition.packets d ->
  ProtocolDefinition.packetByName (ProtocolDefinition.packet_info_name p) d = Some p /\
  ProtocolDefinition.packetById (ProtocolDefinition.id p) d = Some p.
Proof.
  intros [Hi Hn _] Hp. split.
  - apply (find_first_key ProtocolDefinition.packet_info_name); [|done|done].
    intros y. rewrite bool_decide_eq_true. split; congruence.
  - apply (find_first_key ProtocolDefinition.id); [|done|done]. intros y. apply Z.eqb_eq.
Qed.

Definition known (d : ProtocolVersionInfo) (item : string * bytes) : Prop :=
  (exists p, p ∈ ProtocolDefinition.packets d /\ ProtocolDefinition.packet_info_name p = item.1) /\ is_bytes item.2.

Lemma make_by_name d name k : table_ok d -> known d (name, k) ->
  exists p, makePacketByName d name k = Ok p /\ packet_ok d p /\ packet_name p = name /\ payload p = k.
Proof.
  intros Ht [(e & He & Hn) Hk]. cbn [fst snd] in *. destruct (name_id d e Ht He) as [Hbn Hbi].
  rewrite Hn in Hbn. unfold makePacketByName, ProtocolDefinition.packetId, ProtocolDefinition.packetParamsType_name.
  rewrite Hbn. cbn [rbind]. eexists. split; [done|]. split; [|done].
  split; cbn [packet_id payload]; [|apply (proj1 (Forall_forall _ _) (tk_range d Ht)); by apply list_elem_of_In|done].
  unfold decoded, makePacketById, ProtocolDefinition.packetName, ProtocolDefinition.packetParamsType.
  by rewrite Hbi, Hn.
Qed.

Lemma make_packets_ok d items : table_ok d -> Forall (known d) items ->
  exists ps, make_packets d items = Ok ps /\ Forall (packet_ok d) ps /\
    (fun p => (packet_name p, payload p)) <$> ps = items.
Proof.
  intros Ht. induction 1 as [|[name k] items Hk _ (ps & IH1 & IH2 & IH3)]; [by exists []|].
  destruct (make_by_name d name k Ht Hk) as (p & E & Hp & Hn & Hpl). exists (p :: ps). cbn [make_packets fst snd].
  rewrite E. cbn [rbind]. rewrite IH1. split; [done|]. split; [by constructor|].
  rewrite fmap_cons, IH3. by rewrite Hn, Hpl.
Qed.

(** The size of a batch, by the payloads. *)
Definition total (items : list (string * bytes)) : Z := foldr Z.add 0 (map (fun i => 10 + size i.2) items).

Lemma framed_size d ps : Forall (packet_ok d) ps ->
  size (framed_of ps) <= total ((fun p => (packet_name p, payload p)) <$> ps).
Proof.
  unfold framed_of, frames, total. induction 1 as [|p ps Hp _ IH]; [done|].
  rewrite !fmap_cons. cbn [map concat foldr fst snd]. rewrite size_app. unfold frame1 at 1. rewrite size_app.
  destruct (packet_ok_full d p Hp) as (E & _). pose proof (leb_encode_length 5 (size (fullPacket p))).
  pose proof (leb_encode_length 5 (packet_id p)). apply (f_equal size) in E. rewrite size_app in E.
  apply Z.add_le_mono; [|exact IH]. unfold size in *. lia.
Qed.

(** C26: packets given by name and payload survive the MCPE payload of their
    version: on a version with the compression byte every mode is undone
    whatever algorithm the receiver is set to; on an older version the
    receiver must be set to the algorithm that was used.  The decoded batch
    has the same names and payloads, in order. *)
Theorem versioned_by_names codec items c level :
  table_ok (definition codec) -> Forall (known (definition codec)) items -> items <> [] ->
  total items < 2 ^ 30 -> -1 <= level <= 9 -> c <> Automatic ->
  exists data, encodeMcpePayloadByNames z codec items c level = Ok data /\
    forall alg, compressorInPacketHeader_ codec = true \/ alg = algorithm_of c ->
    exists out, decodeMcpePayload_with z codec data alg = Ok out /\
      compressionHeader out = compression_byte c /\
      (fun p => (packet_name p, payload p)) <$> batch out = items.
Proof.
  intros Ht Hk Hne Hs Hl Hc. destruct (make_packets_ok _ items Ht Hk) as (ps & Em & Hok & Hitems).
  assert (sendable codec ps) as Hsend.
  { split; [done|]. split; [|intros ->; by rewrite <-Hitems in Hne].
    pose proof (framed_size _ ps Hok) as Hf. rewrite Hitems in Hf. lia. }
  destruct (versioned_compression codec ps c level Hsend Hl Hc) as (packet & Ee & Hpne & Hd).
  exists (0xfe :: packet). unfold encodeMcpePayloadByNames, encodeCompressionPacketByNames. rewrite Em. cbn [rbind].
  rewrite Ee. split; [done|]. intros alg Ha. rewrite decode_mcpe, (Hd alg Ha) by done. by eexists.
Qed.

(** ** Thresholds and encryption *)

Lemma choose_algorithm c b : c <> Automatic ->
  chooseCompression (algorithm_of c) b = Ok (if b then c else Uncompressed).
Proof. by destruct c, b. Qed.

(** With an algorithm and a threshold a batch above the threshold is
    compressed and one below is sent plain.  Both are decoded as the packets
    on a version with the compression byte, and a compressed one also on an
    older version; there a plain one is decoded as the packets when the
    receiver's decompressor rejects it. *)
Theorem versioned_threshold codec ps c level threshold :
  sendable codec ps -> -1 <= level <= 9 -> c <> Automatic ->
  let sent := if size (framed_of ps) >? threshold then c else Uncompressed in
  exists packet, encodeCompressionPacket_threshold z codec ps (algorithm_of c) level threshold = Ok packet /\
    (compressorInPacketHeader_ codec = true \/ sent = c ->
     decodeCompressionPacket_with z codec packet (algorithm_of c) =
       Ok (mkMcpePayload (compression_byte sent) packet (framed_of ps) ps)) /\
    (compressorInPacketHeader_ codec = false -> sent <> c -> packet = framed_of ps /\
     forall e, undo c packet = Throw e -> is_stuck e = false ->
     decodeCompressionPacket_with z codec packet (algorithm_of c) =
       Ok (mkMcpePayload (compression_byte Uncompressed) packet (framed_of ps) ps)).
Proof.
  intros Hsend Hl Hc sent. pose proof Hsend as (Hok & Hs & Hne).
  assert (sent <> Automatic) as Hsa by (unfold sent; by destruct (_ >? _)).
  destruct (versioned_compression codec ps sent level Hsend Hl Hsa) as (packet & Ee & Hpne & Hd).
  exists packet. unfold encodeCompressionPacket_threshold. unfold encodeCompressionPacket in Ee.
  rewrite (encode_batch _ _ Hok) in Ee |- * by lia. cbn [rbind] in Ee |- *.
  rewrite choose_algorithm by done. cbn [rbind]. split; [exact Ee|]. split.
  - intros H. apply Hd. destruct H as [H|H]; [by left|right; by rewrite H].
  - intros Hh Hsc. assert (sent = Uncompressed) as Es by (unfold sent in *; by destruct (_ >? _)).
    rewrite Es in Ee. unfold encode_framed in Ee. cbn [rbind] in Ee. rewrite Hh in Ee. injection Ee as Ep.
    split; [done|]. intros e He Hst. rewrite (decode_legacy_reject codec c packet e) by (done || by rewrite <-Es).
    rewrite <-Ep at 2. apply decode_batch_ok; [done|lia].
Qed.

(** The encrypted batch, its size and, with a compression byte, its first byte. *)
Lemma encrypted_packet codec ps level :
  sendable codec ps -> -1 <= level <= 9 ->
  exists packet, encodeEncryptedCompressionPacket z codec ps level = Ok packet /\
    size packet <= 2 * size (framed_of ps) + 65 /\
    (compressorInPacketHeader_ codec = true -> exists k, packet = 0 :: k) /\
    decodeEncryptedCompressionPacket z codec packet =
      Ok (mkMcpePayload (compression_byte DeflateRaw) packet (framed_of ps) ps).
Proof.
  intros (Hok & Hs & Hne) Hl. unfold encodeEncryptedCompressionPacket, decodeEncryptedCompressionPacket.
  rewrite (encode_batch _ _ Hok) by lia. cbn [rbind].
  destruct (versioned_deflate (framed_of ps) level Hs Hl) as (k & -> & Hsz & Hi & Hk). cbn [rbind].
  specialize (Hk (framed_nonempty ps Hne)). eexists. split; [done|].
  destruct (compressorInPacketHeader_ codec) eqn:Hh; cbn [negb].
  - split; [rewrite size_cons; lia|]. split; [by exists k|].
    unfold decodeCompressionPacket. rewrite (decode_modern_body codec DeflateRaw k (framed_of ps)) by done.
    apply decode_batch_ok; [done|lia].
  - split; [lia|]. split; [done|].
    rewrite bool_decide_false, Hi by done. cbn [rbind]. apply decode_batch_ok; [done|lia].
Qed.

(** An encrypted batch is always deflated and is decoded as its packets on
    every version. *)
Theorem versioned_encrypted codec ps level :
  sendable codec ps -> -1 <= level <= 9 ->
  exists packet, encodeEncryptedCompressionPacket z codec ps level = Ok packet /\
    decodeEncryptedCompressionPacket z codec packet =
      Ok (mkMcpePayload (compression_byte DeflateRaw) packet (framed_of ps) ps).
Proof.
  intros Hs Hl. destruct (encrypted_packet codec ps level Hs Hl) as (packet & E & _ & _ & D). by exists packet.
Qed.

(** ** Arbitrary payloads *)

Lemma decode_batch_safe codec header k framed : is_bytes framed -> safe (decode_batch codec header k framed).
Proof.
  intros Hb. unfold decode_batch. pose proof (decodeFramedBatch_safe (definition codec) framed Hb).
  by destruct (decodeFramedBatch _ framed).
Qed.

Lemma bytes_then {A} (r : result bytes) (f : bytes -> result A) :
  byte_result r -> (forall k, is_bytes k -> safe (f k)) -> safe (rbind r f).
Proof. intros Hr Hf. destruct r as [k|e]; [by apply Hf|done]. Qed.

Lemma compression_packet_safe codec packet alg : is_bytes packet ->
  safe (decodeCompressionPacket_with z codec packet alg).
Proof.
  intros Hb. unfold decodeCompressionPacket_with. case_bool_decide as Hne; [done|].
  destruct (compressorInPacketHeader_ codec); cbn [negb].
  - destruct packet as [|h body]; [done|]. change (vec_at (h :: body) 0) with (Ok h). cbn [rbind].
    rewrite vec_range_cons. cbn [rbind]. apply Forall_cons_1 in Hb as [_ Hb].
    apply bytes_then; [|intros k Hk; by apply decode_batch_safe].
    destruct (h =? _); [done|]. destruct (h =? _); [by apply versioned_inflate_any|].
    destruct (h =? _); [by apply snappy_any|done].
  - case_bool_decide; [by apply decode_batch_safe|]. unfold legacy_decompress. case_bool_decide.
    { pose proof (snappy_any packet Hb) as Hs. destruct (decompress packet) as [k|e]; cbn in *;
        [by apply decode_batch_safe|rewrite Hs; by apply decode_batch_safe]. }
    case_bool_decide; [|by apply decode_batch_safe].
    pose proof (versioned_inflate_any packet Hb) as Hs. destruct (inflateRaw z packet) as [k|e]; cbn in *;
      [by apply decode_batch_safe|rewrite Hs; by apply decode_batch_safe].
Qed.

Lemma strip_any data : is_bytes data -> byte_result (strip_prefix data).
Proof.
  intros Hb. unfold strip_prefix. destruct data as [|b data]; [done|]. case_bool_decide; [done|].
  change (vec_at (b :: data) 0) with (Ok b). cbn [rbind]. destruct (negb _); [done|].
  rewrite vec_range_cons. by apply Forall_cons_1 in Hb as [_ Hb].
Qed.

Lemma versioned_mcpe_safe codec data alg : is_bytes data -> safe (decodeMcpePayload_with z codec data alg).
Proof.
  intros Hb. apply bytes_then; [by apply strip_any|]. intros k Hk. destruct (_ <? _); [done|by apply compression_packet_safe].
Qed.

Lemma versioned_encrypted_safe codec data : is_bytes data -> safe (decodeEncryptedCompressionPacket z codec data).
Proof.
  intros Hb. unfold decodeEncryptedCompressionPacket. destruct (compressorInPacketHeader_ codec); [by apply compression_packet_safe|].
  case_bool_decide; [done|]. apply bytes_then; [by apply versioned_inflate_any|]. intros k Hk. by apply decode_batch_safe.
Qed.

Lemma versioned_uncompressed_safe codec data : is_bytes data -> safe (decodeUncompressedMcpePayload codec data).
Proof. intros Hb. apply bytes_then; [by apply strip_any|]. intros k Hk. by apply decode_batch_safe. Qed.

(** Every decoder of the versioned codec is safe on any bytes, for every
    version, table and algorithm string: it ends, stays inside its buffers,
    and returns packets or throws an exception of the program. *)
Theorem versioned_decode_safe codec data alg : is_bytes data ->
  safe (decodeMcpePayload_with z codec data alg) /\
  safe (decodeCompressionPacket_with z codec data alg) /\
  safe (decodeEncryptedCompressionPacket z codec data) /\
  safe (decodeUncompressedMcpePayload codec data).
Proof.
  intros Hb. split; [by apply versioned_mcpe_safe|]. split; [by apply compression_packet_safe|].
  split; [by apply versioned_encrypted_safe|by apply versioned_uncompressed_safe].
Qed.
End Mcpe.

(** ** Versions *)

Lemma version_digits l parts rest : Forall (fun c => is_digit c = true) l -> forall current,
  version_loop (l ++ rest) parts current = version_loop rest parts (current +:+ String.string_of_list_ascii l).
Proof.
  induction 1 as [|c l Hc _ IH]; intros current; cbn [app version_loop String.string_of_list_ascii].
  - by rewrite app_empty_r.
  - assert ((byte_of_ascii c =? 46) = false) as -> by (unfold is_digit in Hc; lia). rewrite Hc, IH.
    by rewrite append_assoc.
Qed.

Lemma version_number v parts rest : version_loop (String.list_ascii_of_string (to_string v) ++ rest) parts "" =
  version_loop rest parts (to_string v).
Proof.
  rewrite version_digits by apply pretty_digits. by rewrite String.string_of_list_ascii_of_string.
Qed.

Lemma part_number v : 0 <= v -> is_s 32 v -> part (to_string v) = Ok v.
Proof. intros H0 Hv. unfold part. rewrite bool_decide_false by apply to_string_nonempty. by apply stoi_unsigned. Qed.

Lemma version_dot v parts rest : 0 <= v -> is_s 32 v ->
  version_loop (String.list_ascii_of_string (to_string v) ++ Ascii.ascii_of_nat 46 :: rest) parts "" =
  version_loop rest (parts ++ [v]) "".
Proof.
  intros H0 Hv. rewrite version_number. cbn [version_loop].
  change (byte_of_ascii (Ascii.ascii_of_nat 46) =? 46) with true. cbn iota. by rewrite part_number.
Qed.

Lemma version_at_least_ok a b c major minor patch :
  0 <= a -> is_s 32 a -> 0 <= b -> is_s 32 b -> 0 <= c -> is_s 32 c ->
  exists r, versionAtLeast (version_string a b c) major minor patch = Ok r /\
    (r = true <-> version_ge a b c major minor patch).
Proof.
  intros Ha Ha' Hb Hb' Hc Hc'. unfold versionAtLeast, version_string.
  rewrite !list_ascii_app. cbn [String.list_ascii_of_string]. rewrite list_ascii_app. cbn [String.list_ascii_of_string].
  rewrite !version_dot by done. rewrite <-(app_nil_r (String.list_ascii_of_string (to_string c))), version_number.
  cbn [version_loop rbind]. rewrite part_number by done. cbn [rbind]. eexists. split; [done|].
  unfold version_ge. destruct (Z.eqb_spec a major), (Z.eqb_spec b minor); cbn [negb]; split; intros H; lia.
Qed.

(** A version string of three numbers passes [versionAtLeast] exactly when
    it is not before the given version; of the versions that the program
    supports, the codec puts the compression byte into the packet for those
    from 1.20.61 on. *)
Theorem version_at_least a b c major minor patch :
  0 <= a -> is_s 32 a -> 0 <= b -> is_s 32 b -> 0 <= c -> is_s 32 c ->
  (exists r, versionAtLeast (version_string a b c) major minor patch = Ok r /\
    (r = true <-> version_ge a b c major minor patch)) /\
  (fun e => versionAtLeast (ProtocolDefinition.entry_version e) 1 20 61) <$> ProtocolDefinition.VERSION_ENTRIES =
    replicate 22 (Ok true) ++ replicate 28 (Ok false).
Proof. intros. split; [by apply version_at_least_ok|]. by vm_compute. Qed.

Lemma version_at_least_witness : exists r, versionAtLeast "1.21.0" 1 20 61 = Ok r /\ (r = true <-> True).
Proof.
  destruct (version_at_least 1 21 0 1 20 61) as [(r & E & H) _];
    [lia|by apply (bool_decide_unpack _)|lia|by apply (bool_decide_unpack _)|lia|by apply (bool_decide_unpack _)|].
  exists r. split; [exact E|]. rewrite H. unfold version_ge. lia.
Defined.

(** ** Witnesses *)

Definition sample_table (version : string) : ProtocolVersionInfo :=
  ProtocolDefinition.mkVersionInfo version 748
    [ProtocolDefinition.mkPacketInfo 1 "login" (Some "packet_login");
     ProtocolDefinition.mkPacketInfo 193 "request_network_settings" None].

Lemma sample_table_ok version : table_ok (sample_table version).
Proof. split; by apply (bool_decide_unpack _). Qed.

Definition sample_items : list (string * bytes) := [("request_network_settings", [0; 0; 2; 236]); ("login", [])].

Lemma sample_known version : Forall (known (sample_table version)) sample_items.
Proof.
  repeat apply Forall_cons_2; [| |constructor]; (split; [|by apply (bool_decide_unpack _)]).
  - exists (ProtocolDefinition.mkPacketInfo 193 "request_network_settings" None). split; [|done]. right. by left.
  - exists (ProtocolDefinition.mkPacketInfo 1 "login" (Some "packet_login")). split; [|done]. by left.
Qed.

Lemma versioned_by_names_witness :
  exists data, encodeMcpePayloadByNames stored_zlib (mkMcpeCodec (sample_table "1.19.1") false) sample_items Snappy 7 = Ok data /\
    exists out, decodeMcpePayload_with stored_zlib (mkMcpeCodec (sample_table "1.19.1") false) data "snappy" = Ok out /\
      compressionHeader out = 1 /\ (fun p => (packet_name p, payload p)) <$> batch out = sample_items.
Proof.
  destruct (versioned_by_names stored_zlib (mkMcpeCodec (sample_table "1.19.1") false) sample_items Snappy 7)
    as (data & E & H); [apply sample_table_ok|apply sample_known|discriminate|reflexivity|lia|discriminate|].
  exists data. split; [exact E|]. exact (H "snappy" (or_intror eq_refl)).
Defined.

Lemma sample_sendable header :
  sendable (mkMcpeCodec (sample_table "1.19.1") header) [decoded (sample_table "1.19.1") 1 [7; 8]].
Proof.
  split; [|split; [reflexivity|discriminate]]. apply Forall_cons_2; [|constructor].
  split; [reflexivity|by apply (bool_decide_unpack _)..].
Qed.

Lemma versioned_threshold_witness :
  exists packet, encodeCompressionPacket_threshold stored_zlib (mkMcpeCodec (sample_table "1.19.1") false)
      [decoded (sample_table "1.19.1") 1 [7; 8]] "snappy" 7 256 = Ok packet /\
    decodeCompressionPacket_with stored_zlib (mkMcpeCodec (sample_table "1.19.1") false) packet "snappy" =
      Ok (mkMcpePayload 255 packet [3; 1; 7; 8] [decoded (sample_table "1.19.1") 1 [7; 8]]).
Proof.
  destruct (versioned_threshold stored_zlib (mkMcpeCodec (sample_table "1.19.1") false)
    [decoded (sample_table "1.19.1") 1 [7; 8]] Snappy 7 256 (sample_sendable false) ltac:(lia) ltac:(discriminate))
    as (packet & E & _ & H). exists packet. split; [exact E|].
  destruct (H eq_refl ltac:(discriminate)) as [-> Hd].
  assert (exists e, decompress [3; 1; 7; 8] = Throw e /\ is_stuck e = false) as (e & He & Hs)
    by (eexists; split; vm_compute; reflexivity).
  exact (Hd e He Hs).
Defined.

Lemma versioned_encrypted_witness :
  exists packet, encodeEncryptedCompressionPacket stored_zlib (mkMcpeCodec (sample_table "1.19.1") true)
      [decoded (sample_table "1.19.1") 1 [7; 8]] 7 = Ok packet /\
    decodeEncryptedCompressionPacket stored_zlib (mkMcpeCodec (sample_table "1.19.1") true) packet =
      Ok (mkMcpePayload 0 packet [3; 1; 7; 8] [decoded (sample_table "1.19.1") 1 [7; 8]]).
Proof.
  exact (versioned_encrypted stored_zlib (mkMcpeCodec (sample_table "1.19.1") true)
    [decoded (sample_table "1.19.1") 1 [7; 8]] 7 (sample_sendable true) ltac:(lia)).
Defined.

Lemma versioned_decode_safe_witness :
  safe (decodeMcpePayload_with stored_zlib (mkMcpeCodec (sample_table "1.19.1") false) [254; 2; 1] "snappy").
Proof.
  apply (versioned_decode_safe stored_zlib (mkMcpeCodec (sample_table "1.19.1") false) [254; 2; 1] "snappy").
  by apply (bool_decide_unpack _).
Defined.
