(* ===== verification/LoginPacket.v ===== *)
(** * Login packets (src/src/LoginPacket.cpp)

    The login packet: a header word, the protocol version as a big-endian
    number, and the two token strings in a block with its length. *)

From S2P Require Import Prelude MachineInt Leb128 Endian Framing.

Module LoginPacketCodec.

Record LoginPacketData := mkLogin {
  protocolVersion : Z;
  identity : string;
  client : string
}.

Definition PACKET_ID_LOGIN : Z := 1.

Definition writeVarUInt (out : bytes) (v : Z) : bytes := write_mask_loop 5 32 out v.

Definition outOfRange : exn := LoginPacketError "readVarUInt out of range".
Definition tooBig : exn := LoginPacketError "VarUInt too big".
Definition readVarUInt (data : bytes) : M Z Z :=
  varint_loop (fetch_at data outOfRange) 32 tooBig shifts32 0.

Definition writeU32LE (out : bytes) (v : Z) : bytes := out ++ store_le32 v.
Definition writeU32BE (out : bytes) (v : Z) : bytes := out ++ store_be32 v.

Definition readU32LE (data : bytes) : M Z Z :=
  let* off := get_st in
  if off + 4 >? size data then raise (LoginPacketError "readU32LE out of range")
  else let* v := lift (load_le32 data off) in put_st (off + 4) ;;; ret v.

Definition readU32BE (data : bytes) : M Z Z :=
  let* off := get_st in
  if off + 4 >? size data then raise (LoginPacketError "readU32BE out of range")
  else let* v := lift (load_be32 data off) in put_st (off + 4) ;;; ret v.

Definition writeStringU32LE (out : bytes) (s : string) : result bytes :=
  let b := bytes_of_string s in
  if size b >? 2 ^ 32 - 1 then Throw (LoginPacketError "string too large")
  else Ok (writeU32LE out (to_u32 (size b)) ++ b).

Definition readStringU32LE (data : bytes) : M Z string :=
  let* len := readU32LE data in
  let* off := get_st in
  if off + len >? size data then raise (LoginPacketError "string length exceeds buffer")
  else
    let* s := lift (vec_range data off (off + len)) in
    put_st (off + len) ;;; ret (string_of_bytes s).

Definition encode (protocolVersion : Z) (identity client : string) : result bytes :=
  let! tokensPayload := writeStringU32LE [] identity in
  let! tokensPayload := writeStringU32LE tokensPayload client in
  let out := writeVarUInt [] PACKET_ID_LOGIN in
  let out := writeU32BE out protocolVersion in
  let out := writeVarUInt out (to_u32 (size tokensPayload)) in
  Ok (out ++ tokensPayload).

Definition decode_login (packet : bytes) : M Z LoginPacketData :=
  let* header := readVarUInt packet in
  let packetId := Z.land header 0x3ff in
  if negb (packetId =? PACKET_ID_LOGIN) then raise (LoginPacketError "not a LoginPacket")
  else
    let* protocolVersion := readU32BE packet in
    let* payloadLen := readVarUInt packet in
    let* off := get_st in
    if off + payloadLen >? size packet then
      raise (LoginPacketError "login payload length exceeds packet size")
    else
      let payloadEnd := off + payloadLen in
      let* identity := readStringU32LE packet in
      let* client := readStringU32LE packet in
      let* off := get_st in
      if negb (off =? payloadEnd) then raise (LoginPacketError "login payload has trailing bytes")
      else if negb (off =? size packet) then raise (LoginPacketError "packet has trailing bytes")
      else ret (mkLogin protocolVersion identity client).

Definition decode (packet : bytes) : result LoginPacketData := fst (decode_login packet 0).

End LoginPacketCodec.

Import LoginPacketCodec.

#[export] Instance login_length_codec : LengthCodec readVarUInt writeVarUInt outOfRange tooBig.
Proof.
  split; [| |done].
  - intros out v Hv. apply (write_mask_loop_leb 4); [lia|done|by apply u32_fits_5].
  - intros data off Hd Hv. apply varint_loop_32; [done|]. by apply Forall_drop.
Qed.

(** ** The encoding *)

Definition string_size (s : string) : Z := size (bytes_of_string s).

Definition enc_string (s : string) : bytes := le_encode 4 (string_size s) ++ bytes_of_string s.

Definition enc_login (d : LoginPacketData) : bytes :=
  leb_encode 5 PACKET_ID_LOGIN ++ reverse (le_encode 4 (protocolVersion d)) ++
  leb_encode 5 (size (enc_string (identity d) ++ enc_string (client d))) ++
  enc_string (identity d) ++ enc_string (client d).

(** What the block of tokens, with its 32-bit length, can carry. *)
Definition login_ok (d : LoginPacketData) : Prop :=
  is_u 32 (protocolVersion d) /\ string_size (identity d) + string_size (client d) + 8 < 2 ^ 32.

Lemma string_size_nonneg s : 0 <= string_size s.
Proof. apply size_nonneg. Qed.

Lemma enc_string_size s : size (enc_string s) = 4 + string_size s.
Proof. unfold enc_string. by rewrite size_app, le_encode_size. Qed.

Lemma write_string out s : string_size s < 2 ^ 32 -> writeStringU32LE out s = Ok (out ++ enc_string s).
Proof.
  intros Hs. unfold writeStringU32LE, writeU32LE, enc_string. fold (string_size s).
  pose proof (string_size_nonneg s). rewrite Z.gtb_ltb, (proj2 (Z.ltb_ge _ _)) by lia.
  rewrite to_u32_id by (unfold is_u; lia). by rewrite store_le32_encode, <-app_assoc.
Qed.

Lemma encode_login d : login_ok d -> encode (protocolVersion d) (identity d) (client d) = Ok (enc_login d).
Proof.
  intros [Hv Hs]. pose proof (string_size_nonneg (identity d)). pose proof (string_size_nonneg (client d)).
  unfold encode. rewrite (write_string []) by lia. cbn [rbind].
  rewrite write_string by lia. cbn [rbind app].
  assert (is_u 32 (size (enc_string (identity d) ++ enc_string (client d)))) as Hu.
  { rewrite size_app, !enc_string_size. unfold is_u. lia. }
  rewrite to_u32_id by done. unfold writeU32BE, enc_login.
  rewrite (write_len [] PACKET_ID_LOGIN) by by apply (bool_decide_unpack _).
  rewrite write_len, store_be32_encode, <-!app_assoc by done. done.
Qed.

(** ** The decoder on encodings *)

Section Reading.
Context (d : bytes).

Abbreviation parses := (consumes (offset_valid d) (offset_rest d) offset_skip).

Lemma login_parses_varuint v : is_u 32 v -> parses (readVarUInt d) (leb_encode 5 v) v.
Proof. apply consumes_varint_32. Qed.

Lemma login_stands o k r : offset_valid d o -> offset_rest d o = k ++ r -> stands_at d k o.
Proof.
  intros Ho Hr. destruct (offset_rest_split d o Ho) as (pre & Hd & Hp). exists pre, r. by rewrite <-Hr.
Qed.

Lemma stands_inside o k : stands_at d k o -> (o + size k >? size d) = false.
Proof.
  intros (pre & r & -> & <-). rewrite !size_app. pose proof (size_nonneg r). lia.
Qed.

Lemma parses_u32le v : is_u 32 v -> parses (readU32LE d) (le_encode 4 v) v.
Proof.
  intros Hv s r Hs Hb Hr. pose proof (login_stands s _ r Hs Hr) as Hst. unfold readU32LE. rewrite bind_get.
  pose proof (stands_inside _ _ Hst) as Hin. rewrite le_encode_size in Hin. change (Z.of_nat 4) with 4 in Hin.
  rewrite Hin, (load_le32_ok d s (le_encode 4 v)); [|apply le_encode_bytes|done|apply le_encode_size].
  rewrite le_decode_encode, Z.mod_small by done. by rewrite le_encode_size.
Qed.

Lemma parses_u32be v : is_u 32 v -> parses (readU32BE d) (reverse (le_encode 4 v)) v.
Proof.
  intros Hv s r Hs Hb Hr. pose proof (login_stands s _ r Hs Hr) as Hst. unfold readU32BE. rewrite bind_get.
  assert (size (reverse (le_encode 4 v)) = 4) as Hsz by (unfold size; rewrite length_reverse; apply le_encode_size).
  pose proof (stands_inside _ _ Hst) as Hin. rewrite Hsz in *.
  rewrite Hin, (load_be32_ok d s (reverse (le_encode 4 v))); [|by apply Forall_reverse, le_encode_bytes|done|done].
  rewrite reverse_involutive, le_decode_encode, Z.mod_small by done. done.
Qed.

Lemma parses_string s : string_size s < 2 ^ 32 -> parses (readStringU32LE d) (enc_string s) s.
Proof.
  intros Hs. pose proof (string_size_nonneg s). unfold readStringU32LE, enc_string.
  eapply (consumes_bind (HS := offset_source d outOfRange)); [apply parses_u32le; unfold is_u; lia|].
  intros o r Ho Hb Hr. rewrite bind_get. pose proof (login_stands o _ r Ho Hr) as Hst.
  unfold string_size. rewrite (stands_inside o (bytes_of_string s) Hst).
  assert (vec_range d o (o + size (bytes_of_string s)) = Ok (bytes_of_string s)) as ->.
  { destruct Hst as (pre & post & -> & <-). by rewrite vec_range_app. }
  unfold bind, lift, put_st, ret. by rewrite string_bytes_string.
Qed.
(** One step of the decoder: the state is the offset. *)
Lemma parses_next {A B} (m : M Z A) (f : A -> M Z B) k a o r res :
  parses m k a -> is_bytes d -> offset_valid d o -> offset_rest d o = k ++ r ->
  (offset_valid d (o + size k) -> offset_rest d (o + size k) = r -> fst (f a (o + size k)) = res) ->
  fst (bind m f o) = res.
Proof.
  intros Hm Hb Ho Hr Hf. rewrite (bind_ok _ _ _ _ _ (Hm o r Ho ltac:(by apply Forall_drop) Hr)).
  destruct (skip_rest (HS := offset_source d outOfRange) k o r Ho Hr) as [Hv Hn]. by apply Hf.
Qed.
End Reading.

Lemma reverse_encode_bytes v : is_bytes (reverse (le_encode 4 v)).
Proof. by apply Forall_reverse, le_encode_bytes. Qed.

Lemma login_string_bytes s : is_bytes (enc_string s).
Proof. unfold enc_string. rewrite is_bytes_app. split; [apply le_encode_bytes|apply bytes_of_string_bytes]. Qed.

Lemma enc_login_bytes d : is_bytes (enc_login d).
Proof.
  unfold enc_login. rewrite !is_bytes_app. split_and!; try apply login_string_bytes; try apply reverse_encode_bytes.
  - by apply leb_encode_bytes.
  - apply leb_encode_bytes, size_nonneg.
Qed.

Lemma decode_enc d : login_ok d -> decode (enc_login d) = Ok d.
Proof.
  intros [Hv Hs]. pose proof (string_size_nonneg (identity d)) as Hi0. pose proof (string_size_nonneg (client d)) as Hc0.
  pose proof (enc_login_bytes d) as Hb. unfold decode.
  set (k := enc_string (identity d) ++ enc_string (client d)).
  assert (is_u 32 (size k)) as Hu by (unfold k, is_u; rewrite size_app, !enc_string_size; lia).
  assert (enc_login d = leb_encode 5 1 ++ reverse (le_encode 4 (protocolVersion d)) ++ leb_encode 5 (size k) ++ k) as Ee
    by reflexivity.
  set (e := enc_login d) in *. assert (offset_valid e 0) as Hv0 by (split; [lia|apply size_nonneg]).
  assert (offset_rest e 0 = e) as Hr0 by reflexivity. rewrite Ee in Hr0 at 2.
  unfold decode_login.
  eapply parses_next; [exact (login_parses_varuint e 1 (conj (Z.le_0_1) eq_refl))|done|exact Hv0|exact Hr0|].
  intros Hv1 Hr1. change (negb (Z.land 1 1023 =? PACKET_ID_LOGIN)) with false. cbv iota.
  eapply parses_next; [exact (parses_u32be e (protocolVersion d) Hv)|done|exact Hv1|exact Hr1|]. intros Hv2 Hr2.
  eapply parses_next; [exact (login_parses_varuint e (size k) Hu)|done|exact Hv2|exact Hr2|]. intros Hv3 Hr3.
  set (o := 0 + _ + _ + _) in *. assert (o + size k = size e) as Hend.
  { unfold o. rewrite Ee, !size_app. lia. }
  rewrite bind_get, Hend, Z.gtb_ltb, Z.ltb_irrefl. unfold k in Hr3. clearbody o.
  eapply parses_next; [apply (parses_string e (identity d)); lia|done|exact Hv3|exact Hr3|]. intros Hv4 Hr4.
  rewrite <-(app_nil_r (enc_string (client d))) in Hr4.
  eapply parses_next; [apply (parses_string e (client d)); lia|done|exact Hv4|exact Hr4|]. intros Hv5 Hr5.
  rewrite bind_get. assert (o + size (enc_string (identity d)) + size (enc_string (client d)) = size e) as ->.
  { rewrite <-Hend. unfold k. rewrite size_app. lia. }
  rewrite Z.eqb_refl. by destruct d.
Qed.

(** ** Arbitrary packets *)

Definition moves (data : bytes) (n : Z) {A} (Q : A -> Prop) (o : Z) (v : A) (o' : Z) : Prop :=
  Q v /\ o' = o + n /\ offset_valid data o'.

Lemma four_at data o : is_bytes data -> 0 <= o -> o + 4 <= size data ->
  exists k, is_bytes k /\ stands_at data k o /\ size k = 4.
Proof.
  intros Hb Ho Hs. exists (take 4 (drop (Z.to_nat o) data)). split; [by apply Forall_take, Forall_drop|].
  split; [|unfold size in *; rewrite length_take, length_drop; lia].
  exists (take (Z.to_nat o) data), (drop 4 (drop (Z.to_nat o) data)).
  rewrite take_drop, take_drop. split; [done|]. unfold size in *. rewrite length_take. lia.
Qed.

Lemma read_u32_safe data msg (load : bytes -> Z -> result Z) f o :
  (forall i k, is_bytes k -> stands_at data k i -> size k = 4 -> load data i = Ok (f k) /\ is_u 32 (f k)) ->
  is_bytes data -> offset_valid data o ->
  runs_safe (let* off := get_st in
    if off + 4 >? size data then raise (LoginPacketError msg)
    else let* v := lift (load data off) in put_st (off + 4) ;;; ret v) o
    (moves data 4 (is_u 32) o).
Proof.
  intros Hl Hb [Ho Ho']. unfold runs_safe. rewrite bind_get. destruct (Z.gtb_spec (o + 4) (size data)); [done|].
  destruct (four_at data o Hb Ho) as (k & Hk & Hst & H4); [lia|].
  destruct (Hl o k Hk Hst H4) as [-> Hv]. cbn. split; [done|]. split; [done|]. unfold offset_valid. lia.
Qed.

Lemma u32_of_4 k : is_bytes k -> size k = 4 -> is_u 32 (le_decode k).
Proof. intros Hk H4. pose proof (le_decode_bound k Hk) as Hr. by rewrite H4 in Hr. Qed.

Lemma u32le_safe data o : is_bytes data -> offset_valid data o ->
  runs_safe (readU32LE data) o (moves data 4 (is_u 32) o).
Proof.
  apply (read_u32_safe data _ load_le32 le_decode). intros i k Hk Hst H4.
  split; [by apply load_le32_ok|by apply u32_of_4].
Qed.

Lemma u32be_safe data o : is_bytes data -> offset_valid data o ->
  runs_safe (readU32BE data) o (moves data 4 (is_u 32) o).
Proof.
  apply (read_u32_safe data _ load_be32 (fun k => le_decode (reverse k))). intros i k Hk Hst H4.
  split; [by apply load_be32_ok|]. apply u32_of_4; [by apply Forall_reverse|].
  unfold size in *. by rewrite length_reverse.
Qed.

Lemma login_varuint_safe data o : is_bytes data -> offset_valid data o ->
  runs_safe (readVarUInt data) o (fun v o' => is_u 32 v /\ offset_valid data o').
Proof.
  intros Hb Ho. unfold runs_safe. rewrite read_len by done.
  assert (is_bytes (offset_rest data o)) as Hr by by apply Forall_drop.
  destruct (leb_decode 5 (offset_rest data o)) as [v n|n|n] eqn:E; cbn [leb_outcome]; [|done|done].
  destruct (leb_decode_value_bound _ _ _ _ Hr E) as (_ & Hn & _).
  split; [by apply Z.mod_pos_bound|]. destruct Ho. unfold offset_skip, offset_valid.
  assert (size (offset_rest data o) = size data - o) by (unfold offset_rest, size in *; rewrite length_drop; lia). lia.
Qed.

Lemma login_string_safe data o : is_bytes data -> offset_valid data o ->
  runs_safe (readStringU32LE data) o (fun s o' => o' = o + 4 + string_size s /\ offset_valid data o').
Proof.
  intros Hb Ho. unfold readStringU32LE. eapply runs_safe_bind; [by apply u32le_safe|].
  intros len o1 ([Hl _] & -> & Hv). unfold runs_safe. rewrite bind_get. destruct Hv as [Hv Hv'].
  destruct (Z.gtb_spec (o + 4 + len) (size data)); [done|]. rewrite vec_range_ok by lia.
  unfold bind, lift, put_st, ret. split; [|unfold offset_valid; lia].
  unfold string_size. rewrite bytes_string_bytes by by apply Forall_take, Forall_drop.
  unfold size in *. rewrite length_take, length_drop. lia.
Qed.

Lemma decode_login_safe data : is_bytes data -> runs_safe (decode_login data) 0 (fun d _ => login_ok d).
Proof.
  intros Hb. unfold decode_login. eapply runs_safe_bind; [apply login_varuint_safe; [done|split; [lia|apply size_nonneg]]|].
  intros header o1 [_ Hv1]. case_match; [done|].
  eapply runs_safe_bind; [by apply u32be_safe|]. intros version o2 (Hver & -> & Hv2).
  eapply runs_safe_bind; [by apply login_varuint_safe|]. intros len o3 [[Hl0 Hl] Hv3].
  eapply runs_safe_bind; [by apply runs_safe_get with (Q := fun s s' => s = o3 /\ s' = o3)|]. intros ? ? [-> ->].
  case_match; [done|].
  eapply runs_safe_bind; [by apply login_string_safe|]. intros i o4 [-> Hv4].
  eapply runs_safe_bind; [by apply login_string_safe|]. intros c o5 [-> Hv5].
  unfold runs_safe. rewrite bind_get.
  destruct (Z.eqb_spec (o3 + 4 + string_size i + 4 + string_size c) (o3 + len)); [|done].
  cbn [negb]. destruct (_ =? size data); [|done]. cbn [negb]. split; [done|]. cbn [identity client]. lia.
Qed.

(** C33: what [encode] writes for a version and two tokens whose block fits the
    32-bit length, [decode] reads back unchanged. *)
Theorem login_roundtrip d : login_ok d ->
  exists packet, encode (protocolVersion d) (identity d) (client d) = Ok packet /\ is_bytes packet /\
    decode packet = Ok d.
Proof. intros Hd. exists (enc_login d). eauto using encode_login, enc_login_bytes, decode_enc. Qed.

(** A token of the wire, as the client writes it. *)
Definition sample_login : LoginPacketData := mkLogin 594 "{chain}" "jwt".

Lemma login_roundtrip_witness : exists packet,
  encode 594 "{chain}" "jwt" = Ok packet /\ is_bytes packet /\ decode packet = Ok sample_login.
Proof. apply (login_roundtrip sample_login). split; vm_compute; by split. Defined.

(** Whatever the bytes of a packet, [decode] throws a [LoginPacketError] of
    its own (it never reads outside the packet), or it returns a packet that
    [encode] accepts and whose encoding decodes to the same packet. *)
Theorem login_decode_safe data : is_bytes data ->
  match decode data with
  | Ok d => login_ok d /\ exists packet,
      encode (protocolVersion d) (identity d) (client d) = Ok packet /\ decode packet = Ok d
  | Throw e => is_stuck e = false
  end.
Proof.
  intros Hb. pose proof (decode_login_safe data Hb) as Hs. unfold runs_safe, decode in *.
  destruct (decode_login data 0) as [[d|e] o]; cbn [fst]; [|done]. split; [done|].
  exists (enc_login d). split; [by apply encode_login|by apply decode_enc].
Qed.

(** Four bytes of header on a packet that ends inside its first token. *)
Lemma login_decode_safe_witness :
  match decode [1; 0; 0; 2; 82; 8; 9; 0; 0; 0] with
  | Ok d => login_ok d /\ exists packet,
      encode (protocolVersion d) (identity d) (client d) = Ok packet /\ decode packet = Ok d
  | Throw e => is_stuck e = false
  end.
Proof. apply (login_decode_safe [1; 0; 0; 2; 82; 8; 9; 0; 0; 0]). by apply (bool_decide_unpack _). Defined.
