(* ===== verification/PayloadReader.v ===== *)
(** * PacketPayloadReader (src/src/protocol/PacketPayloadReader.cpp)

    Hand-written readers of four packets, from a [GamePacket] or from raw
    bytes.  [float] fields are their IEEE bit patterns. *)

From S2P Require Import Prelude MachineInt Leb128 Endian ZigZag GamePacket.

Module PacketPayloadReader.

Record PlayStatusPacket := mkPlayStatus { status : Z }.

Record PayloadTextPacket := mkText {
  type_ : Z;
  needsTranslation : bool;
  message : string;
  sourceName : string;
  parameters : list string;
  xuid : string;
  platformChatId : string;
  filteredMessage : string
}.

Record LevelChunkPacket := mkLevelChunk {
  chunkX : Z;
  chunkZ : Z;
  dimension : Z;
  subChunkCount : Z;
  cacheEnabled : bool;
  dataSize : Z;
  data : bytes
}.

Record StartGamePacket := mkStartGame {
  entityUniqueId : Z;
  runtimeEntityId : Z;
  playerGameMode : Z;
  gameMode : Z;
  positionX : Z;
  positionY : Z;
  positionZ : Z;
  x : Z;
  y : Z;
  z : Z;
  rotationX : Z;
  rotationY : Z
}.

#[export] Instance LevelChunk_eq_dec : EqDecision LevelChunkPacket.
Proof. solve_decision. Defined.

(** ** class Reader: a reference to the payload and an offset *)
Section Reader.
Context (data_ : bytes).

Definition remaining_at (offset_ : Z) : Z := size data_ - offset_.
Definition remaining : M Z Z := let* offset_ := get_st in ret (remaining_at offset_).
Definition offset : M Z Z := get_st.
Definition eof : M Z bool := let* offset_ := get_st in ret (offset_ >=? size data_).

Definition not_enough (what : string) : exn :=
  PacketPayloadReaderError ("not enough bytes for " +:+ what).

Definition require (len : Z) (what : string) : M Z unit :=
  let* offset_ := get_st in
  if len >? remaining_at offset_ then raise (not_enough what) else ret tt.

Definition u8 : M Z Z :=
  require 1 "u8" ;;;
  let* offset_ := get_st in
  let* b := lift (vec_at data_ offset_) in
  put_st (offset_ + 1) ;;; ret b.

Definition boolean : M Z bool := let* b := u8 in ret (negb (b =? 0)).

Definition le32 (what : string) : M Z Z :=
  require 4 what ;;;
  let* offset_ := get_st in
  let* v := lift (load_le32 data_ offset_) in
  put_st (offset_ + 4) ;;; ret v.

Definition i32le : M Z Z := let* v := le32 "i32le" in ret (to_i32 v).
Definition f32le : M Z Z := le32 "f32le".

Definition uvarintTooLong : exn := PacketPayloadReaderError "uvarint too long".
Definition uvarlongTooLong : exn := PacketPayloadReaderError "uvarlong too long".

Definition uvarint : M Z Z := varint_loop u8 32 uvarintTooLong shifts32 0.
Definition svarint : M Z Z := let* raw := uvarint in ret (unzigzag_not 32 raw).
Definition uvarlong : M Z Z := varint_loop u8 64 uvarlongTooLong shifts64 0.
Definition svarlong : M Z Z := let* raw := uvarlong in ret (unzigzag_not 64 raw).

(** [require(len); copy; offset_ += len]. *)
Definition take_bytes (len : Z) (what : string) : M Z bytes :=
  require len what ;;;
  let* offset_ := get_st in
  let* out := lift (vec_range data_ offset_ (offset_ + len)) in
  put_st (offset_ + len) ;;; ret out.

Definition string_ : M Z string :=
  let* len := uvarint in
  let* out := take_bytes len "string" in
  ret (string_of_bytes out).

Definition bytes_ (len : Z) : M Z bytes := take_bytes len "bytes".

(** [try { r.string() } catch (...) { return out; }] *)
Definition try_string : M Z (option string) :=
  catch (let* s := string_ in ret (Some s)) (fun _ => ret None).

(** [for (uint32_t i = 0; i < count; ++i) parameters.push_back(r.string());] *)
Fixpoint read_strings (n : nat) (parameters : list string) : M Z (list string) :=
  match n with
  | O => ret parameters
  | S n' => let* s := string_ in read_strings n' (parameters ++ [s])
  end.

Definition readPlayStatus_body : M Z PlayStatusPacket :=
  let* status := i32le in ret (mkPlayStatus status).

(** The optional trailing strings of a text packet. *)
Definition readText_tail (out : PayloadTextPacket) : M Z PayloadTextPacket :=
  let* done := eof in
  let* s := (if negb done then try_string else ret (Some ""%string)) in
  match s with
  | None => ret out
  | Some xuid =>
      let out := mkText (type_ out) (needsTranslation out) (message out) (sourceName out)
                   (parameters out) xuid "" "" in
      let* done := eof in
      let* s := (if negb done then try_string else ret (Some ""%string)) in
      match s with
      | None => ret out
      | Some chat =>
          let out := mkText (type_ out) (needsTranslation out) (message out)
                       (sourceName out) (parameters out) xuid chat "" in
          let* done := eof in
          let* s := (if negb done then try_string else ret (Some ""%string)) in
          match s with
          | None => ret out
          | Some filtered =>
              ret (mkText (type_ out) (needsTranslation out) (message out)
                     (sourceName out) (parameters out) xuid chat filtered)
          end
      end
  end.

Definition readText_body : M Z PayloadTextPacket :=
  let* type := u8 in
  let* needs := boolean in
  let* source :=
    (if (type =? 1) || (type =? 7) || (type =? 8) then string_ else ret ""%string) in
  let* msg := string_ in
  let* params :=
    (if (type =? 2) || (type =? 3) || (type =? 4) then
       let* count := uvarint in read_strings (Z.to_nat count) []
     else ret []) in
  readText_tail (mkText type needs msg source params "" "" "").

Definition sizeTooLarge : exn :=
  PacketPayloadReaderError "level_chunk dataSize is larger than remaining payload".

Definition readLevelChunk_body : M Z LevelChunkPacket :=
  let* chunkX := svarint in
  let* chunkZ := svarint in
  let* dimension := svarint in
  let* subChunkCount := uvarint in
  let* cacheEnabled := boolean in
  let* dataSize := uvarint in
  let* rest := remaining in
  if dataSize >? rest then raise sizeTooLarge
  else
    let* data := bytes_ dataSize in
    ret (mkLevelChunk chunkX chunkZ dimension subChunkCount cacheEnabled dataSize data).

Definition readStartGame_body : M Z StartGamePacket :=
  let* entityUniqueId := svarlong in
  let* runtimeEntityId := uvarlong in
  let* playerGameMode := svarint in
  let* px := f32le in
  let* py := f32le in
  let* pz := f32le in
  let* rx := f32le in
  let* ry := f32le in
  ret (mkStartGame entityUniqueId runtimeEntityId playerGameMode playerGameMode
         px py pz px py pz rx ry).
End Reader.

Definition payloadFromPacketOrPayload (packetOrPayload : bytes) (packetId : Z)
    : result bytes :=
  match packetOrPayload with
  | [] => Ok []
  | b :: _ =>
      if b =? to_u8 packetId then vec_range packetOrPayload 1 (size packetOrPayload)
      else Ok packetOrPayload
  end.

Definition payloadFromGamePacket (packet : GamePacket) : bytes := payload packet.

(** [auto payload = payloadFromPacketOrPayload(...); Reader r(payload); ...] *)
Definition read_with {A} (packetId : Z) (body : bytes -> M Z A) (packetOrPayload : bytes)
    : result A :=
  let! payload := payloadFromPacketOrPayload packetOrPayload packetId in
  fst (body payload 0).

Definition readPlayStatus : bytes -> result PlayStatusPacket := read_with 2 readPlayStatus_body.
Definition readText : bytes -> result PayloadTextPacket := read_with 9 readText_body.
Definition readLevelChunk : bytes -> result LevelChunkPacket := read_with 58 readLevelChunk_body.
Definition readStartGame : bytes -> result StartGamePacket := read_with 11 readStartGame_body.

Definition readPlayStatus_packet (packet : GamePacket) : result PlayStatusPacket :=
  readPlayStatus (payloadFromGamePacket packet).
Definition readText_packet (packet : GamePacket) : result PayloadTextPacket :=
  readText (payloadFromGamePacket packet).
Definition readLevelChunk_packet (packet : GamePacket) : result LevelChunkPacket :=
  readLevelChunk (payloadFromGamePacket packet).
Definition readStartGame_packet (packet : GamePacket) : result StartGamePacket :=
  readStartGame (payloadFromGamePacket packet).

(** ** The reader as a byte source *)
Section ReaderProofs.
Context (d : bytes).

Lemma u8_fetch o : u8 d o = fetch_at d (not_enough "u8") o.
Proof.
  unfold u8, fetch_at, require, remaining_at, bind, get_st, raise, ret.
  destruct (Z.gtb_spec 1 (size d - o)), (Z.geb_spec o (size d)); (lia || done).
Qed.

#[export] Instance reader_source :
  ByteSource (u8 d) (offset_valid d) (offset_rest d) offset_skip (not_enough "u8").
Proof.
  pose proof (offset_source d (not_enough "u8")) as [H0 H1 H2 H3]. split; [done|done| |].
  - intros s b l Hs Hr. rewrite u8_fetch. by apply H2.
  - intros s Hs Hr. rewrite u8_fetch. by apply H3.
Qed.

Lemma rest_size o : offset_valid d o -> size (offset_rest d o) = size d - o.
Proof. intros []. unfold offset_rest, size in *. rewrite length_drop. lia. Qed.

Lemma rest_stands o k r : offset_valid d o -> offset_rest d o = k ++ r -> stands_at d k o.
Proof.
  intros Ho Hr. destruct (offset_rest_split d o Ho) as (pre & Hd & Hp).
  exists pre, r. by rewrite <-Hr.
Qed.

Abbreviation parses := (consumes (offset_valid d) (offset_rest d) offset_skip).

Lemma parses_boolean b : parses (boolean d) [if b : bool then 1 else 0] b.
Proof.
  intros s r Hs _ Hr. destruct (fetch_some s _ r Hs Hr) as (E & _).
  unfold boolean. rewrite (bind_ok _ _ _ _ _ E). by destruct b.
Qed.

Lemma parses_uvarint v : is_u 32 v -> parses (uvarint d) (leb_encode 5 v) v.
Proof. apply consumes_varint_32. Qed.
Lemma parses_uvarlong v : is_u 64 v -> parses (uvarlong d) (leb_encode 10 v) v.
Proof. apply consumes_varint_64. Qed.

Lemma parses_svarint v : is_s 32 v -> parses (svarint d) (leb_encode 5 (zigzag v)) v.
Proof.
  intros Hv. pose proof (zigzag_range 32 v ltac:(lia) Hv) as Hz.
  pose proof (consumes_bind_ret (uvarint d) (unzigzag_not 32) _ _ (parses_uvarint _ Hz)) as H.
  by rewrite unzigzag_not_ok, unzigzag_zigzag in H by (done || lia).
Qed.

Lemma parses_svarlong v : is_s 64 v -> parses (svarlong d) (leb_encode 10 (zigzag v)) v.
Proof.
  intros Hv. pose proof (zigzag_range 64 v ltac:(lia) Hv) as Hz.
  pose proof (consumes_bind_ret (uvarlong d) (unzigzag_not 64) _ _ (parses_uvarlong _ Hz)) as H.
  by rewrite unzigzag_not_ok, unzigzag_zigzag in H by (done || lia).
Qed.

Lemma require_ok o n what :
  n <= size (offset_rest d o) -> offset_valid d o -> require d n what o = (Ok tt, o).
Proof.
  intros Hn Ho. unfold require, remaining_at, bind, get_st, raise, ret.
  rewrite rest_size in Hn by done. by destruct (Z.gtb_spec n (size d - o)); [lia|].
Qed.

Lemma parses_le32 what v : is_u 32 v -> parses (le32 d what) (le_encode 4 v) v.
Proof.
  intros Hv s r Hs Hb Hr. unfold le32.
  pose proof (size_nonneg r) as Hr0. pose proof (le_encode_size 4 v) as H4.
  rewrite (bind_ok _ _ _ _ _ (require_ok s 4 what
    ltac:(rewrite Hr, size_app; lia) Hs)).
  unfold bind, get_st, lift, put_st, ret.
  rewrite (load_le32_ok d s (le_encode 4 v)).
  - by rewrite le_decode_encode, Z.mod_small.
  - apply le_encode_bytes.
  - by eapply rest_stands.
  - done.
Qed.

Lemma parses_take k what : parses (take_bytes d (size k) what) k k.
Proof.
  intros s r Hs Hb Hr. unfold take_bytes. pose proof (size_nonneg r) as Hr0.
  rewrite (bind_ok _ _ _ _ _ (require_ok s (size k) what
    ltac:(rewrite Hr, size_app; lia) Hs)).
  unfold bind, get_st, lift, put_st, ret.
  destruct (rest_stands s k r Hs Hr) as (pre & post & -> & <-).
  by rewrite vec_range_app.
Qed.

(** *** Safety of the primitive reads *)

Abbreviation steps m := (forall o, offset_valid d o -> runs_safe m o (fun _ => offset_valid d)).

Lemma u8_safe : steps (u8 d).
Proof.
  intros o Ho. unfold u8, require, remaining_at, runs_safe, bind, get_st, raise, ret, lift.
  destruct Ho. destruct (Z.gtb_spec 1 (size d - o)); [done|].
  destruct (vec_at_ok d o) as (b & -> & _); [lia|]. cbn. split; lia.
Qed.

Lemma varint_safe w tooBig shifts : is_stuck tooBig = false -> 0 <= w ->
  forall v o, 0 <= v -> offset_valid d o ->
  runs_safe (varint_loop (u8 d) w tooBig shifts v) o
    (fun v o => 0 <= v /\ offset_valid d o).
Proof.
  intros Ht Hw. induction shifts as [|sh shifts IH]; intros v o Hv Ho; [done|].
  cbn [varint_loop]. eapply runs_safe_bind; [by apply u8_safe|].
  intros b o' Ho'.
  assert (0 <= Z.lor v (Z.shiftl (Z.land b 127) sh mod 2 ^ w)) as Hlor.
  { apply Z.lor_nonneg. split; [done|]. apply Z.mod_pos_bound. by apply pow2_pos. }
  destruct (_ =? 0); [by split|]. by apply IH.
Qed.

Lemma uvarint_safe o : offset_valid d o ->
  runs_safe (uvarint d) o (fun v o => 0 <= v /\ offset_valid d o).
Proof. intros Ho. by apply varint_safe. Qed.
Lemma uvarlong_safe o : offset_valid d o ->
  runs_safe (uvarlong d) o (fun v o => 0 <= v /\ offset_valid d o).
Proof. intros Ho. by apply varint_safe. Qed.

Lemma le32_safe what : steps (le32 d what).
Proof.
  intros o Ho. unfold le32, require, remaining_at, runs_safe, bind, get_st, raise, ret, lift.
  destruct Ho. destruct (Z.gtb_spec 4 (size d - o)); [done|].
  unfold load_le32.
  destruct (vec_at_ok d o) as (b0 & -> & _); [lia|].
  destruct (vec_at_ok d (o + 1)) as (b1 & -> & _); [lia|].
  destruct (vec_at_ok d (o + 2)) as (b2 & -> & _); [lia|].
  destruct (vec_at_ok d (o + 3)) as (b3 & -> & _); [lia|]. cbn. split; lia.
Qed.

Lemma take_safe n what : 0 <= n -> steps (take_bytes d n what).
Proof.
  intros Hn o Ho.
  unfold take_bytes, require, remaining_at, runs_safe, bind, get_st, raise, ret, lift.
  destruct Ho. destruct (Z.gtb_spec n (size d - o)); [done|].
  rewrite vec_range_ok by lia. cbn. split; lia.
Qed.

Lemma svarint_safe : steps (svarint d).
Proof.
  intros o Ho. eapply runs_safe_bind; [by apply uvarint_safe|]. by intros v o' [_ ?].
Qed.
Lemma svarlong_safe : steps (svarlong d).
Proof.
  intros o Ho. eapply runs_safe_bind; [by apply uvarlong_safe|]. by intros v o' [_ ?].
Qed.
Lemma boolean_safe : steps (boolean d).
Proof. intros o Ho. eapply runs_safe_bind; [by apply u8_safe|]. done. Qed.
Lemma i32le_safe : steps (i32le d).
Proof. intros o Ho. eapply runs_safe_bind; [by apply le32_safe|]. done. Qed.
Lemma string_safe : steps (string_ d).
Proof.
  intros o Ho. eapply runs_safe_bind; [by apply uvarint_safe|]. intros n o' [Hn Ho'].
  eapply runs_safe_bind; [by apply take_safe|]. done.
Qed.
Lemma eof_safe : steps (eof d).
Proof. done. Qed.
Lemma remaining_safe : steps (remaining d).
Proof. done. Qed.
Lemma ret_safe {A} (a : A) : steps (ret a : M Z A).
Proof. done. Qed.
Lemma if_safe {A} (b : bool) (m k : M Z A) : steps m -> steps k -> steps (if b then m else k).
Proof. by destruct b. Qed.

(** [string_] that throws leaves a valid offset too, for the handlers. *)
Lemma uvarint_valid o : offset_valid d o -> offset_valid d (snd (uvarint d o)).
Proof.
  unfold uvarint. generalize 0 as v, shifts32 as l. intros v l. revert v o.
  induction l as [|sh l IH]; intros v o Ho; [done|]. cbn [varint_loop].
  unfold bind at 1. pose proof (u8_safe o Ho) as H8. unfold runs_safe in H8.
  assert (offset_valid d (snd (u8 d o))) as Hv8.
  { unfold u8, require, bind, get_st, raise, ret, lift, put_st.
    destruct (1 >? remaining_at d o) eqn:E; [done|].
    destruct (vec_at d o) as [b|e] eqn:Ea; [|done].
    apply vec_at_inv in Ea as [[] _]. cbn. split; lia. }
  destruct (u8 d o) as [[b|e] o']; [|done]. cbn [snd] in *.
  destruct (_ =? 0); [done|]. by apply IH.
Qed.

Lemma try_string_safe : steps (try_string d).
Proof.
  intros o Ho. unfold try_string, runs_safe, catch.
  assert (offset_valid d (snd ((let* s := string_ d in ret (Some s)) o))) as Hv.
  { pose proof (uvarint_valid o Ho) as Hu. unfold string_, bind, ret.
    destruct (uvarint d o) as [[n|e] o']; [|done]. cbn [snd] in *.
    unfold take_bytes, require, bind, get_st, raise, ret, lift, put_st.
    destruct (n >? remaining_at d o'); [done|].
    unfold vec_range. destruct (_ && _) eqn:E; [|done]. cbn.
    apply andb_prop in E as [[E1 E2]%andb_prop E3].
    apply Z.leb_le in E1, E2, E3. split; lia. }
  assert (runs_safe (let* s := string_ d in ret (Some s)) o (fun _ => offset_valid d)) as Hs.
  { eapply runs_safe_bind; [by apply string_safe|]. done. }
  unfold runs_safe in Hs.
  destruct ((let* s := string_ d in ret (Some s)) o) as [[a|e] o']; [done|]. by rewrite Hs.
Qed.

Lemma read_strings_safe n : forall ps, steps (read_strings d n ps).
Proof.
  induction n as [|n IH]; intros ps o Ho; [done|]. cbn [read_strings].
  eapply runs_safe_bind; [by apply string_safe|]. intros s o' Ho'. by apply IH.
Qed.
End ReaderProofs.

Create HintDb reader.
#[export] Hint Resolve remaining_safe u8_safe boolean_safe svarint_safe svarlong_safe le32_safe i32le_safe
  string_safe eof_safe try_string_safe read_strings_safe ret_safe if_safe : reader.

Ltac read_step :=
  eapply runs_safe_bind;
  [first [solve [eauto with reader] | apply uvarint_safe; assumption
         | apply uvarlong_safe; assumption]|];
  intros; cbv beta in *; match goal with H : _ /\ _ |- _ => destruct H | _ => idtac end.

Section BodySafety.
Context (d : bytes) (o : Z) (Ho : offset_valid d o).

Lemma readPlayStatus_safe : runs_safe (readPlayStatus_body d) o (fun _ _ => True).
Proof. unfold readPlayStatus_body. by read_step. Qed.

Lemma readText_tail_safe out : forall o, offset_valid d o ->
  runs_safe (readText_tail d out) o (fun _ _ => True).
Proof.
  intros o' Ho'. unfold readText_tail.
  do 2 read_step. match goal with |- context [match ?s with _ => _ end] => destruct s end; [|done].
  do 2 read_step. match goal with |- context [match ?s with _ => _ end] => destruct s end; [|done].
  do 2 read_step. match goal with |- context [match ?s with _ => _ end] => destruct s end; done.
Qed.

Lemma readText_safe : runs_safe (readText_body d) o (fun _ _ => True).
Proof.
  unfold readText_body. do 4 read_step.
  apply (runs_safe_bind _ _ _ (fun _ s => offset_valid d s));
    [|by intros; apply readText_tail_safe].
  destruct (_ || _); [|by apply runs_safe_ret].
  read_step. by apply read_strings_safe.
Qed.

Lemma readLevelChunk_safe : runs_safe (readLevelChunk_body d) o (fun _ _ => True).
Proof.
  unfold readLevelChunk_body. do 6 read_step.
  read_step. destruct (_ >? _); [done|].
  eapply runs_safe_bind; [by apply take_safe|]. done.
Qed.

Lemma readStartGame_safe : runs_safe (readStartGame_body d) o (fun _ _ => True).
Proof. unfold readStartGame_body, f32le. do 8 read_step. done. Qed.
End BodySafety.

(** The four packet readers are safe on any bytes: they return a packet or
    throw one of the program's exceptions, without reading past the payload. *)
Theorem payload_readers_safe d :
  safe (readPlayStatus d) /\ safe (readText d) /\ safe (readLevelChunk d) /\
  safe (readStartGame d).
Proof.
  assert (forall A id (body : bytes -> M Z A),
    (forall p, runs_safe (body p) 0 (fun _ _ => True)) -> safe (read_with id body d)) as H.
  { intros A id body Hb. unfold read_with, payloadFromPacketOrPayload.
    destruct d as [|b p]; [eapply runs_safe_safe, Hb|].
    destruct (_ =? _); [|eapply runs_safe_safe, Hb].
    rewrite (vec_range_tail [b] p) by done. eapply runs_safe_safe, Hb. }
  assert (forall p, offset_valid p 0) as H0 by (intros p; split; [lia|apply size_nonneg]).
  split_and!; apply H; intros p.
  - by apply readPlayStatus_safe.
  - by apply readText_safe.
  - by apply readLevelChunk_safe.
  - by apply readStartGame_safe.
Qed.

(** ** The level chunk layout

    Specification: the bytes of a level chunk's payload. *)
Definition level_chunk_bytes (c : LevelChunkPacket) : bytes :=
  leb_encode 5 (zigzag (chunkX c)) ++ leb_encode 5 (zigzag (chunkZ c)) ++
  leb_encode 5 (zigzag (dimension c)) ++ leb_encode 5 (subChunkCount c) ++
  [if cacheEnabled c then 1 else 0] ++ leb_encode 5 (dataSize c) ++ data c.

Definition level_chunk_ok (c : LevelChunkPacket) : Prop :=
  is_s 32 (chunkX c) /\ is_s 32 (chunkZ c) /\ is_s 32 (dimension c) /\
  is_u 32 (subChunkCount c) /\ is_u 32 (dataSize c) /\ dataSize c = size (data c) /\
  is_bytes (data c).

#[export] Instance level_chunk_ok_dec c : Decision (level_chunk_ok c).
Proof. unfold level_chunk_ok. apply _. Defined.

Lemma consumes_remaining {B} d (k : Z -> M Z B) body b :
  (forall n, size body <= n ->
    consumes (offset_valid d) (offset_rest d) offset_skip (k n) body b) ->
  consumes (offset_valid d) (offset_rest d) offset_skip (let* n := remaining d in k n) body b.
Proof.
  intros Hk s r Hs Hb Hr. unfold remaining, bind, get_st, ret.
  apply (Hk (remaining_at d s)) with r; [|done|done|done].
  unfold remaining_at. rewrite <-rest_size, Hr, size_app by done.
  pose proof (size_nonneg r). lia.
Qed.

Lemma level_chunk_bytes_ok c : level_chunk_ok c -> is_bytes (level_chunk_bytes c).
Proof.
  intros (H1 & H2 & H3 & H4 & H5 & H6 & H7). unfold level_chunk_bytes.
  pose proof (zigzag_range 32 _ ltac:(lia) H1) as [? _].
  pose proof (zigzag_range 32 _ ltac:(lia) H2) as [? _].
  pose proof (zigzag_range 32 _ ltac:(lia) H3) as [? _].
  destruct H4, H5.
  rewrite !is_bytes_app. split_and!; try by apply leb_encode_bytes.
  - by destruct (cacheEnabled c); apply (bool_decide_unpack _).
  - done.
Qed.

Lemma level_chunk_body c :
  level_chunk_ok c ->
  fst (readLevelChunk_body (level_chunk_bytes c) 0) = Ok c.
Proof.
  intros Hc. pose proof (level_chunk_bytes_ok c Hc) as Hb.
  destruct Hc as (H1 & H2 & H3 & H4 & H5 & H6 & H7).
  set (d := level_chunk_bytes c).
  assert (consumes (offset_valid d) (offset_rest d) offset_skip (readLevelChunk_body d) d c) as H.
  { unfold readLevelChunk_body. unfold d at 6. unfold level_chunk_bytes.
    do 3 (eapply consumes_bind; [by apply parses_svarint|]).
    eapply consumes_bind; [by apply parses_uvarint|].
    eapply consumes_bind; [by apply parses_boolean|].
    eapply consumes_bind; [by apply parses_uvarint|].
    apply consumes_remaining. intros n Hn. rewrite Z.gtb_ltb, (proj2 (Z.ltb_ge _ _)) by lia.
    rewrite <-(app_nil_r (data c)). eapply consumes_bind.
    - unfold bytes_. rewrite H6. apply parses_take.
    - destruct c. apply consumes_ret. }
  rewrite (H 0 []); [done| | |].
  - split; [lia|apply size_nonneg].
  - unfold offset_rest. by rewrite drop_0.
  - unfold offset_rest. by rewrite drop_0, app_nil_r.
Qed.

Lemma leb_first_byte v b l :
  0 <= v -> b < 128 -> leb_encode 5 v = b :: l -> v = b.
Proof.
  intros Hv Hb. cbn [leb_encode]. destruct (Z.ltb_spec v 128); intros [= <- _]; [done|].
  pose proof (Z.mod_pos_bound v 128 ltac:(lia)). lia.
Qed.

(** The level chunk reader inverts the packet layout, with the packet id
    in front for every chunk, and without it for every chunk whose X
    coordinate is not 29. *)
Theorem levelChunk_roundtrip c :
  level_chunk_ok c ->
  readLevelChunk (58 :: level_chunk_bytes c) = Ok c /\
  (chunkX c <> 29 -> readLevelChunk (level_chunk_bytes c) = Ok c).
Proof.
  intros Hc. pose proof (level_chunk_body c Hc) as Hbody.
  unfold readLevelChunk, read_with, payloadFromPacketOrPayload. split.
  { rewrite Z.eqb_refl, (vec_range_tail [58] (level_chunk_bytes c)) by done. exact Hbody. }
  intros H29. destruct Hc as (Hx & _).
  destruct (level_chunk_bytes c) as [|b l] eqn:E; [exact Hbody|].
  destruct (Z.eqb_spec b (to_u8 58)) as [->|]; [|exact Hbody].
  exfalso. unfold level_chunk_bytes in E.
  pose proof (leb_encode_nonempty 4 (zigzag (chunkX c))) as Hne.
  destruct (leb_encode 5 (zigzag (chunkX c))) as [|b' l'] eqn:El; [done|].
  injection E as -> _. change (to_u8 58) with 58 in El.
  apply leb_first_byte in El; [|apply zigzag_range with 32; done|done].
  apply H29. by rewrite <-(unzigzag_zigzag (chunkX c)), El.
Qed.

Definition chunk_30 : LevelChunkPacket := mkLevelChunk 30 (-7) 0 24 false 3 [8; 0; 255].

Lemma levelChunk_roundtrip_witness :
  readLevelChunk (58 :: level_chunk_bytes chunk_30) = Ok chunk_30 /\
  (chunkX chunk_30 <> 29 -> readLevelChunk (level_chunk_bytes chunk_30) = Ok chunk_30).
Proof. apply (levelChunk_roundtrip chunk_30). by apply (bool_decide_unpack _). Defined.

(** A well-formed chunk at X = 29. *)
Definition chunk_29 : LevelChunkPacket := mkLevelChunk 29 5 0 4 false 2 [1; 7].
Definition packet_29 : GamePacket :=
  mkGamePacket 58 0 0 (PacketRegistry.nameOf 58) (level_chunk_bytes chunk_29)
    (58 :: level_chunk_bytes chunk_29).

(** A decoded level chunk packet at X = 29 is misread: its payload starts
    with the zigzag byte 58, which the reader takes for the packet id and
    drops, shifting every field; no exception is thrown. *)
Theorem levelChunk_29_misread :
  level_chunk_ok chunk_29 /\
  GamePacketCodec.decodePacket (58 :: level_chunk_bytes chunk_29) = Ok packet_29 /\
  readLevelChunk_packet packet_29 = Ok (mkLevelChunk 5 0 2 0 true 1 [7]).
Proof.
  split_and!; [by apply (bool_decide_unpack _)|by vm_compute|by vm_compute].
Qed.

(** A decoded play_status packet whose status is 2 (mod 256) is rejected
    or misread for the same reason; its status is read little-endian, so a
    big-endian status [s] below 256 is returned as [s * 2 ^ 24]. *)
Theorem playStatus_values s :
  0 <= s < 256 ->
  readPlayStatus [0; 0; 0; s] = Ok (mkPlayStatus (to_i32 (s * 2 ^ 24))) /\
  (s <> 2 -> readPlayStatus [s; 0; 0; 0] = Ok (mkPlayStatus s)) /\
  readPlayStatus [2; 0; 0; 0] = Throw (not_enough "i32le").
Proof.
  intros Hs. assert (forall b0 b3, is_bytes [b0; 0; 0; b3] ->
    fst (readPlayStatus_body [b0; 0; 0; b3] 0) =
    Ok (mkPlayStatus (to_i32 (b0 + b3 * 2 ^ 24)))) as H.
  { intros b0 b3 Hb. unfold readPlayStatus_body, i32le, le32.
    unfold require, bind, get_st, lift, put_st, ret.
    change (4 >? remaining_at [b0; 0; 0; b3] 0) with false. cbv beta iota.
    rewrite (load_le32_ok [b0; 0; 0; b3] 0 [b0; 0; 0; b3] Hb); [|by exists [], []|done].
    cbn [fst]. do 3 f_equal. cbn [le_decode]. change (2 ^ 24) with 16777216. lia. }
  assert (is_bytes [0; 0; 0; s] /\ is_bytes [s; 0; 0; 0]) as [Hb1 Hb2].
  { unfold is_u. change (2 ^ 8) with 256. split; repeat constructor; lia. }
  split_and!.
  - unfold readPlayStatus, read_with. cbn [payloadFromPacketOrPayload].
    change (0 =? to_u8 2) with false. cbn [rbind]. by rewrite H.
  - intros H2. unfold readPlayStatus, read_with. cbn [payloadFromPacketOrPayload].
    change (to_u8 2) with 2. rewrite (proj2 (Z.eqb_neq s 2)) by done. cbn [rbind].
    rewrite H by done. rewrite Z.mul_0_l, Z.add_0_r. unfold to_i32, to_signed.
    change (2 ^ 32) with 4294967296. change (2 ^ (32 - 1)) with 2147483648.
    rewrite Z.mod_small by lia. by rewrite (proj2 (Z.ltb_lt _ _)) by lia.
  - by vm_compute.
Qed.

Lemma playStatus_values_witness :
  readPlayStatus [0; 0; 0; 3] = Ok (mkPlayStatus (to_i32 (3 * 2 ^ 24))) /\
  (3 <> 2 -> readPlayStatus [3; 0; 0; 0] = Ok (mkPlayStatus 3)) /\
  readPlayStatus [2; 0; 0; 0] = Throw (not_enough "i32le").
Proof. apply (playStatus_values 3). lia. Defined.
End PacketPayloadReader.
