(* ===== verification/Nbt.v ===== *)
(** * NBT (src/src/nbt/BedrockNbt.cpp)

    Values, the recursive reader and writer, and the codec.  Floating-point
    fields are double bit patterns.  The reader recurses at most to
    [maxDepth], which bounds its fuel; the loop over the children of a
    compound is bounded by the bytes of the stream, one of which every child
    consumes. *)

From S2P Require Import Prelude MachineInt Leb128 Endian ZigZag FloatBits BinaryStream GamePacket.

Inductive NbtTagType : Type :=
| TagEnd | TagByte | TagShort | TagInt | TagLong | TagFloat | TagDouble
| TagByteArray | TagString | TagList | TagCompound | TagIntArray | TagLongArray.

#[export] Instance NbtTagType_eq_dec : EqDecision NbtTagType.
Proof. solve_decision. Defined.

Definition tag_byte (t : NbtTagType) : Z :=
  match t with
  | TagEnd => 0 | TagByte => 1 | TagShort => 2 | TagInt => 3 | TagLong => 4
  | TagFloat => 5 | TagDouble => 6 | TagByteArray => 7 | TagString => 8 | TagList => 9
  | TagCompound => 10 | TagIntArray => 11 | TagLongArray => 12
  end.

(** [static_cast<NbtTagType>(raw)], for [raw <= 12]. *)
Definition all_tags : list NbtTagType :=
  [TagEnd; TagByte; TagShort; TagInt; TagLong; TagFloat; TagDouble; TagByteArray;
   TagString; TagList; TagCompound; TagIntArray; TagLongArray].

(** [struct NbtValue], with every field; a compound child is a name and a
    value ([NbtNamedValue]). *)
Inductive NbtValue : Type :=
| mkNbt (type : NbtTagType) (integerValue floatingValue : Z) (stringValue : string)
    (byteArrayValue : bytes) (listElementType : NbtTagType) (listValue : list NbtValue)
    (compoundValue : list (string * NbtValue)) (intArrayValue longArrayValue : list Z).

Section NbtInd.
Context (P : NbtValue -> Prop)
  (H : forall t i f s ba et lv cv ia la, Forall P lv -> Forall (fun c => P (snd c)) cv ->
     P (mkNbt t i f s ba et lv cv ia la)).

(** Induction over nested values. *)
Fixpoint nbt_induction (v : NbtValue) : P v :=
  match v with
  | mkNbt t i f s ba et lv cv ia la =>
      H t i f s ba et lv cv ia la
        ((fix all (l : list NbtValue) : Forall P l :=
            match l with
            | [] => Forall_nil_2 P
            | x :: l' => Forall_cons_2 P x l' (nbt_induction x) (all l')
            end) lv)
        ((fix all (l : list (string * NbtValue)) : Forall (fun c => P (snd c)) l :=
            match l with
            | [] => Forall_nil_2 _
            | x :: l' => Forall_cons_2 _ x l' (nbt_induction (snd x)) (all l')
            end) cv)
  end.
End NbtInd.

Definition type (v : NbtValue) : NbtTagType := match v with mkNbt t _ _ _ _ _ _ _ _ _ => t end.
Definition integerValue (v : NbtValue) : Z := match v with mkNbt _ i _ _ _ _ _ _ _ _ => i end.
Definition stringValue (v : NbtValue) : string := match v with mkNbt _ _ _ s _ _ _ _ _ _ => s end.
Definition compoundValue (v : NbtValue) : list (string * NbtValue) :=
  match v with mkNbt _ _ _ _ _ _ _ cv _ _ => cv end.

(** ** Construction and lookup *)

Definition nbt_end : NbtValue := mkNbt TagEnd 0 0 "" [] TagEnd [] [] [] [].
Definition nbt_integer (t : NbtTagType) (v : Z) : NbtValue :=
  mkNbt t v 0 "" [] TagEnd [] [] [] [].
Definition nbt_byte : Z -> NbtValue := nbt_integer TagByte.
Definition nbt_short : Z -> NbtValue := nbt_integer TagShort.
Definition nbt_int : Z -> NbtValue := nbt_integer TagInt.
Definition nbt_long : Z -> NbtValue := nbt_integer TagLong.
(** [floating] takes a [float], [doubleFloating] a [double]. *)
Definition nbt_floating (value : Z) : NbtValue :=
  mkNbt TagFloat 0 (f64_of_f32 value) "" [] TagEnd [] [] [] [].
Definition nbt_double (value : Z) : NbtValue :=
  mkNbt TagDouble 0 value "" [] TagEnd [] [] [] [].
Definition nbt_byteArray (value : bytes) : NbtValue :=
  mkNbt TagByteArray 0 0 "" value TagEnd [] [] [] [].
Definition nbt_string (value : string) : NbtValue :=
  mkNbt TagString 0 0 value [] TagEnd [] [] [] [].
Definition nbt_list (elementType : NbtTagType) (value : list NbtValue) : NbtValue :=
  mkNbt TagList 0 0 "" [] elementType value [] [] [].
Definition nbt_compound (value : list (string * NbtValue)) : NbtValue :=
  mkNbt TagCompound 0 0 "" [] TagEnd [] value [] [].
Definition nbt_intArray (value : list Z) : NbtValue :=
  mkNbt TagIntArray 0 0 "" [] TagEnd [] [] value [].
Definition nbt_longArray (value : list Z) : NbtValue :=
  mkNbt TagLongArray 0 0 "" [] TagEnd [] [] [] value.

(** [find] on the children: the first child of that name. *)
Fixpoint find_child (name : string) (cv : list (string * NbtValue)) : option NbtValue :=
  match cv with
  | [] => None
  | (n, v) :: cv' => if String.eqb n name then Some v else find_child name cv'
  end.

Definition find (v : NbtValue) (name : string) : option NbtValue :=
  if negb (bool_decide (type v = TagCompound)) then None
  else find_child name (compoundValue v).

(** The loop of [set] over the children, and the [push_back] after it. *)
Fixpoint set_child (name : string) (value : NbtValue) (cv : list (string * NbtValue))
    : list (string * NbtValue) :=
  match cv with
  | [] => [(name, value)]
  | (n, v) :: cv' =>
      if String.eqb n name then (n, value) :: cv' else (n, v) :: set_child name value cv'
  end.

Definition set (name : string) (value : NbtValue) : M NbtValue unit :=
  let* this := get_st in
  match this with
  | mkNbt t i f s ba et lv cv ia la =>
      if negb (bool_decide (t = TagCompound)) then
        raise (BedrockNbtError "NbtValue::set requires a compound value")
      else put_st (mkNbt t i f s ba et lv (set_child name value cv) ia la)
  end.

Record NbtDocument := mkDocument { doc_name : string; root : NbtValue }.

Inductive BedrockNbtEncoding : Type := LittleEndian | LittleVarInt.

#[export] Instance encoding_eq_dec : EqDecision BedrockNbtEncoding.
Proof. solve_decision. Defined.

Record BedrockNbtLimits := mkLimits {
  maxDepth : Z;
  maxStringBytes : Z;
  maxCollectionLength : Z;
  maxTotalValues : Z
}.

Definition default_limits : BedrockNbtLimits :=
  mkLimits 64 (16 * 1024 * 1024) (16 * 1024 * 1024) (32 * 1024 * 1024).

(** ** The codec

    [ReadContext] and [WriteContext]: the stream and the count of values. *)
Record Context_ := mkContext { stream : BinaryStream; totalValues : Z }.

Definition on_stream {A} (m : M BinaryStream A) : M Context_ A :=
  zoom stream (fun s c => mkContext s (totalValues c)) m.

Definition checkedTagType (raw : Z) : result NbtTagType :=
  if raw >? tag_byte TagLongArray then
    Throw (BedrockNbtError ("unsupported NBT tag type: " +:+ to_string raw))
  else match all_tags !! Z.to_nat raw with
       | Some t => Ok t
       | None => Throw (UndefinedBehaviour "enum")
       end.

Definition decodeZigZag32 : Z -> Z := unzigzag_neg 32.
Definition decodeZigZag64 : Z -> Z := unzigzag_neg 64.
Definition encodeZigZag32 : Z -> Z := zigzag_neg 32.
Definition encodeZigZag64 : Z -> Z := zigzag_neg 64.

Section Codec.
Context (encoding : BedrockNbtEncoding) (limits : BedrockNbtLimits).

Definition accountValue : M Context_ unit :=
  let* c := get_st in
  if totalValues c =? maxTotalValues limits then
    raise (BedrockNbtError "NBT value count exceeds configured limit")
  else put_st (mkContext (stream c) (totalValues c + 1)).

Definition checkDepth (depth : Z) : M Context_ unit :=
  if depth >? maxDepth limits then
    raise (BedrockNbtError "NBT nesting depth exceeds configured limit")
  else ret tt.

Definition readInt32 : M Context_ Z :=
  match encoding with
  | LittleVarInt => let* v := on_stream readVarUInt in ret (decodeZigZag32 v)
  | LittleEndian => on_stream readI32LE
  end.

Definition readInt64 : M Context_ Z :=
  match encoding with
  | LittleVarInt => let* v := on_stream readVarULong in ret (decodeZigZag64 v)
  | LittleEndian => on_stream readI64LE
  end.

Definition writeInt32 (value : Z) : M Context_ unit :=
  match encoding with
  | LittleVarInt => on_stream (writeVarUInt (encodeZigZag32 value))
  | LittleEndian => on_stream (writeI32LE value)
  end.

Definition writeInt64 (value : Z) : M Context_ unit :=
  match encoding with
  | LittleVarInt => on_stream (writeVarULong (encodeZigZag64 value))
  | LittleEndian => on_stream (writeI64LE value)
  end.

(** The overload on [int32_t], for reading. *)
Definition checkedCollectionLength_read (value : Z) : result Z :=
  if value <? 0 then Throw (BedrockNbtError "negative NBT collection length")
  else
    let length := value in
    if length >? maxCollectionLength limits then
      Throw (BedrockNbtError "NBT collection length exceeds configured limit")
    else Ok length.

(** The overload on [size_t], for writing. *)
Definition checkedCollectionLength_write (value : Z) : result Z :=
  if (value >? maxCollectionLength limits) || (value >? 2 ^ 31 - 1) then
    Throw (BedrockNbtError "NBT collection is too large to encode")
  else Ok value.

(** [value.find('\0') != npos] *)
Definition has_null (s : bytes) : bool := existsb (Z.eqb 0) s.

Definition nullName : exn := BedrockNbtError "NBT tag name contains an embedded null byte".

Definition readString (tagName : bool) : M Context_ string :=
  let* length :=
    match encoding with
    | LittleVarInt => on_stream readVarUInt
    | LittleEndian => on_stream readU16LE
    end in
  if length >? maxStringBytes limits then
    raise (BedrockNbtError "NBT string length exceeds configured limit")
  else
    let* c := get_st in
    if length >? remaining (stream c) then
      raise (BedrockNbtError "NBT string length exceeds remaining input")
    else
      let* bytes := on_stream (readBytes length) in
      if tagName && has_null bytes then raise nullName
      else ret (string_of_bytes bytes).

Definition writeString (value : string) (tagName : bool) : M Context_ unit :=
  let b := bytes_of_string value in
  if size b >? maxStringBytes limits then
    raise (BedrockNbtError "NBT string length exceeds configured limit")
  else if tagName && has_null b then raise nullName
  else
    match encoding with
    | LittleVarInt =>
        if size b >? 2 ^ 32 - 1 then
          raise (BedrockNbtError "NBT string is too large to encode")
        else on_stream (writeVarUInt (to_u32 (size b)))
    | LittleEndian =>
        if size b >? 2 ^ 16 - 1 then
          raise (BedrockNbtError "little-endian NBT string exceeds uint16 length")
        else on_stream (writeU16LE (to_u16 (size b)))
    end ;;;
    on_stream (writeBytes b).

(** [for (i = 0; i < length; ++i) out.push_back(m())] *)
Fixpoint read_array {A} (m : M Context_ A) (n : nat) (acc : list A) : M Context_ (list A) :=
  match n with
  | O => ret acc
  | S n' => let* x := m in read_array m n' (acc ++ [x])
  end.

(** The [while (true)] over the children of a compound. *)
Fixpoint read_children (readPayload : NbtTagType -> M Context_ NbtValue) (fuel : nat)
    (acc : list (string * NbtValue)) : M Context_ (list (string * NbtValue)) :=
  match fuel with
  | O => raise OutOfFuel
  | S fuel' =>
      let* raw := on_stream readU8 in
      let* childType := lift (checkedTagType raw) in
      if bool_decide (childType = TagEnd) then ret acc
      else
        let* childName := readString true in
        let* value := readPayload childType in
        read_children readPayload fuel' (acc ++ [(childName, value)])
  end.

Definition read_length : M Context_ Z :=
  let* n := readInt32 in lift (checkedCollectionLength_read n).

Fixpoint readPayload (fuel : nat) (t : NbtTagType) (depth : Z) : M Context_ NbtValue :=
  match fuel with
  | O => raise OutOfFuel
  | S fuel' =>
      checkDepth depth ;;;
      accountValue ;;;
      match t with
      | TagEnd => ret nbt_end
      | TagByte => let* v := on_stream readI8 in ret (nbt_byte v)
      | TagShort => let* v := on_stream readI16LE in ret (nbt_short v)
      | TagInt => let* v := readInt32 in ret (nbt_int v)
      | TagLong => let* v := readInt64 in ret (nbt_long v)
      | TagFloat => let* v := on_stream readFloatLE in ret (nbt_floating v)
      | TagDouble => let* v := on_stream readDoubleLE in ret (nbt_double v)
      | TagByteArray =>
          let* length := read_length in
          let* c := get_st in
          if length >? remaining (stream c) then
            raise (BedrockNbtError "NBT byte array exceeds remaining input")
          else
            let* b := on_stream (readBytes length) in ret (nbt_byteArray b)
      | TagString => let* s := readString false in ret (nbt_string s)
      | TagList =>
          let* raw := on_stream readU8 in
          let* et := lift (checkedTagType raw) in
          let* length := read_length in
          if bool_decide (et = TagEnd) && negb (length =? 0) then
            raise (BedrockNbtError "non-empty NBT list cannot use TAG_End elements")
          else
            let* items := read_array (readPayload fuel' et (depth + 1)) (Z.to_nat length) [] in
            ret (nbt_list et items)
      | TagCompound =>
          let* c := get_st in
          let* children :=
            read_children (fun ct => readPayload fuel' ct (depth + 1))
              (S (length (readableBuffer (stream c)))) [] in
          ret (nbt_compound children)
      | TagIntArray =>
          let* length := read_length in
          let* c := get_st in
          if length >? remaining (stream c) / 4 then
            raise (BedrockNbtError "NBT int array exceeds remaining input")
          else
            let* l := read_array (on_stream readI32LE) (Z.to_nat length) [] in
            ret (nbt_intArray l)
      | TagLongArray =>
          let* length := read_length in
          let* c := get_st in
          if length >? remaining (stream c) / 8 then
            raise (BedrockNbtError "NBT long array exceeds remaining input")
          else
            let* l := read_array (on_stream readI64LE) (Z.to_nat length) [] in
            ret (nbt_longArray l)
      end
  end.

(** [checkedInteger<intW_t>(value, tagName)] *)
Definition checkedInteger (w : Z) (v : Z) (tagName : string) : result Z :=
  if (v <? - 2 ^ (w - 1)) || (v >? 2 ^ (w - 1) - 1) then
    Throw (BedrockNbtError ("NBT " +:+ tagName +:+ " value is out of range"))
  else Ok v.

Fixpoint write_array (write : Z -> M BinaryStream unit) (l : list Z) : M Context_ unit :=
  match l with
  | [] => ret tt
  | x :: l' => on_stream (write x) ;;; write_array write l'
  end.

Definition write_length (n : Z) : M Context_ unit :=
  let* n := lift (checkedCollectionLength_write n) in writeInt32 n.

(** The loops of [writePayload] over the items of a list and the children of
    a compound; [wp] is the recursive call. *)
Definition write_list (wp : NbtValue -> M Context_ unit) (et : NbtTagType)
    : list NbtValue -> M Context_ unit :=
  fix go items :=
    match items with
    | [] => ret tt
    | item :: items' =>
        if negb (bool_decide (type item = et)) then
          raise (BedrockNbtError "NBT list item type does not match its element type")
        else wp item ;;; go items'
    end.

Definition write_children (wp : NbtValue -> M Context_ unit)
    : list (string * NbtValue) -> M Context_ unit :=
  fix go children :=
    match children with
    | [] => ret tt
    | child :: children' =>
        if bool_decide (type (snd child) = TagEnd) then
          raise (BedrockNbtError "NBT compound cannot contain a named TAG_End")
        else
          on_stream (writeU8 (tag_byte (type (snd child)))) ;;;
          writeString (fst child) true ;;;
          wp (snd child) ;;;
          go children'
    end.

Fixpoint writePayload (value : NbtValue) (depth : Z) : M Context_ unit :=
  match value with
  | mkNbt t i f s ba et lv cv ia la =>
      checkDepth depth ;;;
      accountValue ;;;
      match t with
      | TagEnd => ret tt
      | TagByte => let* v := lift (checkedInteger 8 i "byte") in on_stream (writeI8 v)
      | TagShort => let* v := lift (checkedInteger 16 i "short") in on_stream (writeI16LE v)
      | TagInt => let* v := lift (checkedInteger 32 i "int") in writeInt32 v
      | TagLong => writeInt64 i
      | TagFloat => on_stream (writeFloatLE (f32_of_f64 f))
      | TagDouble => on_stream (writeDoubleLE f)
      | TagByteArray => write_length (size ba) ;;; on_stream (writeBytes ba)
      | TagString => writeString s false
      | TagList =>
          if bool_decide (et = TagEnd) && negb (bool_decide (lv = [])) then
            raise (BedrockNbtError "non-empty NBT list cannot use TAG_End elements")
          else
            on_stream (writeU8 (tag_byte et)) ;;;
            write_length (size lv) ;;;
            write_list (fun item => writePayload item (depth + 1)) et lv
      | TagCompound =>
          if size cv >? maxCollectionLength limits then
            raise (BedrockNbtError "NBT compound length exceeds configured limit")
          else
            write_children (fun v => writePayload v (depth + 1)) cv ;;;
            on_stream (writeU8 (tag_byte TagEnd))
      | TagIntArray => write_length (size ia) ;;; write_array writeI32LE ia
      | TagLongArray => write_length (size la) ;;; write_array writeI64LE la
      end
  end.

(** Depths [0 .. maxDepth] are read; one more call throws. *)
Definition payload_fuel : nat := Z.to_nat (maxDepth limits + 2).

(** A member of [BedrockNbtCodec]: a fresh context around the stream. *)
Definition with_context {A} (m : M Context_ A) : M BinaryStream A :=
  fun s => match m (mkContext s 0) with (r, c) => (r, stream c) end.

Definition read : M BinaryStream NbtDocument :=
  with_context (
    let* raw := on_stream readU8 in
    let* t := lift (checkedTagType raw) in
    if bool_decide (t = TagEnd) then ret (mkDocument "" nbt_end)
    else
      let* name := readString true in
      let* root := readPayload payload_fuel t 0 in
      ret (mkDocument name root)).

Definition write (document : NbtDocument) : M BinaryStream unit :=
  with_context (
    on_stream (writeU8 (tag_byte (type (root document)))) ;;;
    if bool_decide (type (root document) = TagEnd) then ret tt
    else writeString (doc_name document) true ;;; writePayload (root document) 0).

Definition readUnnamed : M BinaryStream NbtValue :=
  with_context (
    let* raw := on_stream readU8 in
    let* t := lift (checkedTagType raw) in
    readPayload payload_fuel t 0).

Definition writeUnnamed (value : NbtValue) : M BinaryStream unit :=
  with_context (
    on_stream (writeU8 (tag_byte (type value))) ;;; writePayload value 0).

End Codec.


(** ** Specification: the bytes of a value *)
Section Spec.
Context (encoding : BedrockNbtEncoding) (limits : BedrockNbtLimits).

Definition enc_int32 (v : Z) : bytes :=
  match encoding with
  | LittleVarInt => leb_encode 5 (zigzag v)
  | LittleEndian => le_encode 4 (to_u32 v)
  end.

Definition enc_int64 (v : Z) : bytes :=
  match encoding with
  | LittleVarInt => leb_encode 10 (zigzag v)
  | LittleEndian => le_encode 8 (to_u64 v)
  end.

Definition enc_string (s : string) : bytes :=
  let b := bytes_of_string s in
  match encoding with
  | LittleVarInt => leb_encode 5 (size b)
  | LittleEndian => le_encode 2 (size b)
  end ++ b.

Definition string_ok (s : string) (tagName : bool) : Prop :=
  let b := bytes_of_string s in
  size b <= maxStringBytes limits /\
  size b < match encoding with LittleVarInt => 2 ^ 32 | LittleEndian => 2 ^ 16 end /\
  tagName && has_null b = false.

Definition length_ok (n : Z) : Prop := n <= maxCollectionLength limits /\ n < 2 ^ 31.

Fixpoint enc_value (v : NbtValue) : bytes :=
  match v with
  | mkNbt t i f s ba et lv cv ia la =>
      match t with
      | TagEnd => []
      | TagByte => [to_u8 i]
      | TagShort => le_encode 2 (to_u16 i)
      | TagInt => enc_int32 i
      | TagLong => enc_int64 i
      | TagFloat => le_encode 4 (f32_of_f64 f)
      | TagDouble => le_encode 8 f
      | TagByteArray => enc_int32 (size ba) ++ ba
      | TagString => enc_string s
      | TagList => [tag_byte et] ++ enc_int32 (size lv) ++ concat (map enc_value lv)
      | TagCompound =>
          concat (map (fun c => [tag_byte (type (snd c))] ++ enc_string (fst c)
                                ++ enc_value (snd c)) cv) ++ [tag_byte TagEnd]
      | TagIntArray =>
          enc_int32 (size ia) ++ concat (map (fun x => le_encode 4 (to_u32 x)) ia)
      | TagLongArray =>
          enc_int32 (size la) ++ concat (map (fun x => le_encode 8 (to_u64 x)) la)
      end
  end.

(** The number of values a value accounts for. *)
Fixpoint count (v : NbtValue) : Z :=
  match v with
  | mkNbt t _ _ _ _ _ lv cv _ _ =>
      1 + match t with
          | TagList => foldr (fun x n => count x + n) 0 lv
          | TagCompound => foldr (fun c n => count (snd c) + n) 0 cv
          | _ => 0
          end
  end.

(** A value the format can carry at nesting depth [d]: within the limits, the
    fields its type does not use at their defaults, numbers in range, lists
    homogeneous, children named without null bytes. *)
Fixpoint nbt_ok (d : Z) (v : NbtValue) : Prop :=
  match v with
  | mkNbt t i f s ba et lv cv ia la =>
      d <= maxDepth limits /\
      match t with
      | TagEnd => v = nbt_end
      | TagByte => v = nbt_byte i /\ is_s 8 i
      | TagShort => v = nbt_short i /\ is_s 16 i
      | TagInt => v = nbt_int i /\ is_s 32 i
      | TagLong => v = nbt_long i /\ is_s 64 i
      | TagFloat => v = mkNbt TagFloat 0 f "" [] TagEnd [] [] [] [] /\
                    is_u 32 (f32_of_f64 f) /\ is_float f
      | TagDouble => v = nbt_double f /\ is_u 64 f
      | TagByteArray => v = nbt_byteArray ba /\ is_bytes ba /\ length_ok (size ba)
      | TagString => v = nbt_string s /\ string_ok s false
      | TagList => v = nbt_list et lv /\ (et = TagEnd -> lv = []) /\ length_ok (size lv) /\
                   foldr (fun x P => (type x = et /\ nbt_ok (d + 1) x) /\ P) True lv
      | TagCompound =>
          v = nbt_compound cv /\ size cv <= maxCollectionLength limits /\
          foldr (fun c P => (type (snd c) <> TagEnd /\ string_ok (fst c) true /\
                             nbt_ok (d + 1) (snd c)) /\ P) True cv
      | TagIntArray => v = nbt_intArray ia /\ Forall (is_s 32) ia /\ length_ok (size ia)
      | TagLongArray => v = nbt_longArray la /\ Forall (is_s 64) la /\ length_ok (size la)
      end
  end.

Lemma count_pos v : 1 <= count v.
Proof.
  induction v as [t i f s ba et lv cv ia la Hl Hc] using nbt_induction.
  assert (0 <= foldr (fun x n => count x + n) 0 lv).
  { clear -Hl. induction Hl; cbn [foldr]; lia. }
  assert (0 <= foldr (fun (c : string * NbtValue) n => count (snd c) + n) 0 cv).
  { clear -Hc. induction Hc; cbn [foldr]; lia. }
  cbn [count]. destruct t; lia.
Qed.

Lemma counts_nonneg {A} (g : A -> NbtValue) l : 0 <= foldr (fun x n => count (g x) + n) 0 l.
Proof.
  induction l as [|x l IH]; cbn [foldr]; [lia|]. pose proof (count_pos (g x)). lia.
Qed.

Lemma enc_int32_bytes v : is_s 32 v -> is_bytes (enc_int32 v).
Proof.
  intros Hv. unfold enc_int32. destruct encoding; [apply le_encode_bytes|].
  apply leb_encode_bytes. apply zigzag_range with 32; [lia|done].
Qed.

Lemma enc_int32_nonempty v : 1 <= size (enc_int32 v).
Proof.
  unfold enc_int32. destruct encoding; [by rewrite le_encode_size|].
  pose proof (leb_encode_nonempty 4 (zigzag v)). unfold size.
  destruct (leb_encode 5 (zigzag v)); [done|]. simpl length. lia.
Qed.

Lemma length_ok_s32 n : 0 <= n -> length_ok n -> is_s 32 n.
Proof. intros ? [_ ?]. unfold is_s. change (32 - 1) with 31. lia. Qed.

Lemma tag_byte_range t : 0 <= tag_byte t <= 12.
Proof. by destruct t. Qed.

Lemma checked_tag t : checkedTagType (tag_byte t) = Ok t.
Proof. by destruct t. Qed.

Lemma tag_byte_bytes t : is_bytes [tag_byte t].
Proof.
  constructor; [|constructor]. pose proof (tag_byte_range t). unfold is_u.
  change (2 ^ 8) with 256. lia.
Qed.

Lemma enc_string_bytes s : is_bytes (enc_string s).
Proof.
  unfold enc_string. rewrite is_bytes_app. split; [|apply bytes_of_string_bytes].
  destruct encoding; [apply le_encode_bytes|apply leb_encode_bytes, size_nonneg].
Qed.

Lemma concat_bytes {A} (f : A -> bytes) l :
  Forall (fun x => is_bytes (f x)) l -> is_bytes (concat (map f l)).
Proof.
  induction 1 as [|x l Hx _ IH]; cbn; [constructor|]. by rewrite is_bytes_app.
Qed.

Lemma enc_value_bytes v d : nbt_ok d v -> is_bytes (enc_value v).
Proof.
  revert d. induction v as [t i f s ba et lv cv ia la Hl Hc] using nbt_induction.
  intros d. cbn [nbt_ok enc_value]. intros [_ Hv].
  destruct t; rewrite ?is_bytes_app; try apply le_encode_bytes.
  - constructor.
  - constructor; [by apply to_u_range|constructor].
  - apply enc_int32_bytes, Hv.
  - unfold enc_int64. destruct Hv as [_ Hv]. destruct encoding; [apply le_encode_bytes|].
    apply leb_encode_bytes. by apply zigzag_range with 64.
  - destruct Hv as (_ & Hb & Hn). split; [|done].
    apply enc_int32_bytes, length_ok_s32; [apply size_nonneg|done].
  - apply enc_string_bytes.
  - destruct Hv as (_ & _ & Hn & Hall). split; [apply tag_byte_bytes|]. split.
    { apply enc_int32_bytes, length_ok_s32; [apply size_nonneg|done]. }
    apply concat_bytes. apply foldr_and_Forall in Hall.
    eapply Forall_impl; [|apply (Forall_both _ _ _ Hl Hall)].
    intros x [Hx [_ Hok]]. by eapply Hx.
  - destruct Hv as (_ & _ & Hall). split; [|apply tag_byte_bytes].
    apply concat_bytes. apply foldr_and_Forall in Hall.
    eapply Forall_impl; [|apply (Forall_both _ _ _ Hc Hall)].
    intros x [Hx (_ & _ & Hok)]. rewrite !is_bytes_app.
    split_and!; [apply tag_byte_bytes|apply enc_string_bytes|by eapply Hx].
  - destruct Hv as (_ & _ & Hn). split.
    { apply enc_int32_bytes, length_ok_s32; [apply size_nonneg|done]. }
    apply concat_bytes, Forall_forall. intros x _. apply le_encode_bytes.
  - destruct Hv as (_ & _ & Hn). split.
    { apply enc_int32_bytes, length_ok_s32; [apply size_nonneg|done]. }
    apply concat_bytes, Forall_forall. intros x _. apply le_encode_bytes.
Qed.
End Spec.

(** ** Writing *)
Section WriteProofs.
Context (encoding : BedrockNbtEncoding) (limits : BedrockNbtLimits).

(** [m] appends [k] to the stream it owns and accounts for [n] values. *)
Definition cwrites (m : M Context_ unit) (k : bytes) (n : Z) : Prop :=
  forall c, view_ (stream c) = None -> 0 <= totalValues c ->
    totalValues c + n <= maxTotalValues limits ->
    m c = (Ok tt, mkContext (append k (stream c)) (totalValues c + n)).

Lemma append_view k s : view_ s = None -> view_ (append k s) = None.
Proof. destruct s as [d [v|] o]; cbn; congruence. Qed.

Lemma cwrites_bind m1 m2 k1 k2 n1 n2 :
  0 <= n1 -> 0 <= n2 -> cwrites m1 k1 n1 -> cwrites m2 k2 n2 ->
  cwrites (m1 ;;; m2) (k1 ++ k2) (n1 + n2).
Proof.
  intros Hn1 Hn2 H1 H2 c Hv Hc Hmax. rewrite (bind_ok _ _ _ _ _ (H1 c Hv Hc ltac:(lia))).
  rewrite H2; cbn [stream totalValues]; [|by apply append_view|lia|lia].
  by rewrite append_append, Z.add_assoc.
Qed.

Lemma cwrites_step m1 m2 k1 k2 n :
  0 <= n -> cwrites m1 k1 0 -> cwrites m2 k2 n -> cwrites (m1 ;;; m2) (k1 ++ k2) n.
Proof. intros Hn. by apply (cwrites_bind m1 m2 k1 k2 0 n). Qed.

Lemma cwrites_ret : cwrites (ret tt) [] 0.
Proof. intros [s n] Hv _ _. cbn. by rewrite append_nil, Z.add_0_r. Qed.

Lemma cwrites_stream m k : appends m k tt -> cwrites (on_stream m) k 0.
Proof. intros H [s n] _ _ _. unfold on_stream, zoom. cbn. by rewrite H, Z.add_0_r. Qed.

Lemma cwrites_lift {A} (r : result A) a f k n :
  r = Ok a -> cwrites (f a) k n -> cwrites (let* x := lift r in f x) k n.
Proof. intros -> H c. apply H. Qed.

(** [checkDepth; accountValue; m]. *)
Lemma cwrites_account d m k n :
  d <= maxDepth limits -> 0 <= n -> cwrites m k n ->
  cwrites (checkDepth limits d ;;; accountValue limits ;;; m) k (1 + n).
Proof.
  intros Hd Hn H [s t] Hv Hc Hmax. cbn [stream totalValues] in *.
  unfold checkDepth, accountValue, bind at 1 2 3, get_st, put_st, ret.
  destruct (Z.gtb_spec d (maxDepth limits)); [lia|]. cbn [totalValues stream].
  rewrite (proj2 (Z.eqb_neq t (maxTotalValues limits))) by lia.
  rewrite H; cbn [stream totalValues]; [by rewrite Z.add_assoc|done|lia|lia].
Qed.

Lemma cwrites_int32 v : is_s 32 v -> cwrites (writeInt32 encoding v) (enc_int32 encoding v) 0.
Proof.
  intros Hv. unfold writeInt32, enc_int32. destruct encoding; apply cwrites_stream.
  - apply appends_U32LE.
  - unfold encodeZigZag32. rewrite zigzag_neg_ok by (done || lia).
    apply appends_VarUInt, zigzag_range; [lia|done].
Qed.

Lemma cwrites_int64 v : is_s 64 v -> cwrites (writeInt64 encoding v) (enc_int64 encoding v) 0.
Proof.
  intros Hv. unfold writeInt64, enc_int64. destruct encoding; apply cwrites_stream.
  - apply appends_U64LE.
  - unfold encodeZigZag64. rewrite zigzag_neg_ok by (done || lia).
    apply appends_VarULong, zigzag_range; [lia|done].
Qed.

Lemma cwrites_length n :
  0 <= n -> length_ok limits n -> cwrites (write_length encoding limits n) (enc_int32 encoding n) 0.
Proof.
  intros Hn Hok. unfold write_length. apply (cwrites_lift _ n).
  - unfold checkedCollectionLength_write. destruct Hok.
    destruct (Z.gtb_spec n (maxCollectionLength limits)); [lia|].
    destruct (Z.gtb_spec n (2 ^ 31 - 1)); [lia|done].
  - apply cwrites_int32. by apply length_ok_s32 with limits.
Qed.

Lemma cwrites_string s b :
  string_ok encoding limits s b -> cwrites (writeString encoding limits s b) (enc_string encoding s) 0.
Proof.
  intros (H1 & H2 & H3). unfold writeString, enc_string. pose proof (size_nonneg (bytes_of_string s)).
  destruct (Z.gtb_spec (size (bytes_of_string s)) (maxStringBytes limits)); [lia|]. rewrite H3.
  apply (cwrites_step _ _ _ _ 0); [lia| |by apply cwrites_stream].
  destruct encoding.
  - destruct (Z.gtb_spec (size (bytes_of_string s)) (2 ^ 16 - 1)); [lia|].
    apply cwrites_stream. rewrite to_u16_id by (unfold is_u; lia). apply appends_U16LE.
  - destruct (Z.gtb_spec (size (bytes_of_string s)) (2 ^ 32 - 1)); [lia|].
    apply cwrites_stream. rewrite to_u32_id by (unfold is_u; lia).
    apply appends_VarUInt. unfold is_u. lia.
Qed.

Lemma cwrites_integer w v name f k :
  is_s w v -> cwrites (f v) k 0 ->
  cwrites (let* v := lift (checkedInteger w v name) in f v) k 0.
Proof.
  intros Hv H. apply (cwrites_lift _ v); [|done]. unfold checkedInteger. unfold is_s in Hv.
  rewrite (proj2 (Z.ltb_ge _ _)) by lia.
  by destruct (Z.gtb_spec v (2 ^ (w - 1) - 1)); [lia|].
Qed.

Lemma cwrites_array f (e : Z -> bytes) l :
  (forall x, appends (f x) (e x) tt) -> cwrites (write_array f l) (concat (map e l)) 0.
Proof.
  intros H. induction l as [|x l IH]; cbn [write_array map concat]; [apply cwrites_ret|].
  apply (cwrites_step _ _ _ _ 0); [lia|by apply cwrites_stream|done].
Qed.

Lemma cwrites_list wp et lv :
  Forall (fun x => type x = et /\ cwrites (wp x) (enc_value encoding x) (count x)) lv ->
  cwrites (write_list wp et lv) (concat (map (enc_value encoding) lv))
    (foldr (fun x n => count x + n) 0 lv).
Proof.
  induction 1 as [|x lv [Ht Hx] _ IH]; [apply cwrites_ret|]. cbn [map concat foldr write_list].
  rewrite bool_decide_eq_true_2 by done. cbn [negb].
  apply cwrites_bind; [pose proof (count_pos x); lia| |done|done].
  apply (counts_nonneg id).
Qed.

Definition enc_child (c : string * NbtValue) : bytes :=
  [tag_byte (type (snd c))] ++ enc_string encoding (fst c) ++ enc_value encoding (snd c).

Lemma cwrites_children wp cv :
  Forall (fun c => type (snd c) <> TagEnd /\ string_ok encoding limits (fst c) true /\
    cwrites (wp (snd c)) (enc_value encoding (snd c)) (count (snd c))) cv ->
  cwrites (write_children encoding limits wp cv) (concat (map enc_child cv))
    (foldr (fun c n => count (snd c) + n) 0 cv).
Proof.
  induction 1 as [|x cv (Ht & Hs & Hx) _ IH]; [apply cwrites_ret|].
  cbn [map concat foldr write_children].
  rewrite bool_decide_eq_false_2 by done. unfold enc_child at 1. rewrite <-!app_assoc.
  pose proof (count_pos (snd x)). pose proof (counts_nonneg snd cv).
  apply (cwrites_step _ _ [_] _); [lia|by apply cwrites_stream|].
  apply (cwrites_step _ _ _ _); [lia|by apply cwrites_string|].
  apply cwrites_bind; [lia|lia|done|done].
Qed.

(** Writing a well-formed value appends its encoding. *)
Lemma writePayload_ok v d :
  nbt_ok encoding limits d v ->
  cwrites (writePayload encoding limits v d) (enc_value encoding v) (count v).
Proof.
  revert d. induction v as [t i f s ba et lv cv ia la Hl Hc] using nbt_induction.
  intros d. cbn [nbt_ok]. intros [Hd Hv]. cbn [writePayload enc_value count].
  destruct t; (apply cwrites_account; [done| |]); try lia.
  - apply cwrites_ret.
  - apply cwrites_integer; [apply Hv|]. by apply cwrites_stream.
  - apply cwrites_integer; [apply Hv|]. apply cwrites_stream, appends_U16LE.
  - apply cwrites_integer; [apply Hv|]. apply cwrites_int32, Hv.
  - apply cwrites_int64, Hv.
  - apply cwrites_stream, appends_U32LE.
  - apply cwrites_stream, appends_U64LE.
  - apply (cwrites_step _ _ _ _ 0); [lia| |by apply cwrites_stream].
    apply cwrites_length; [apply size_nonneg|apply Hv].
  - apply cwrites_string, Hv.
  - apply (counts_nonneg id).
  - destruct Hv as (_ & He & Hn & Hall). apply foldr_and_Forall in Hall.
    assert (bool_decide (et = TagEnd) && negb (bool_decide (lv = [])) = false) as ->.
    { case_bool_decide; [|done]. by rewrite bool_decide_eq_true_2 by auto. }
    apply (cwrites_step _ _ [_] _); [ |by apply cwrites_stream|].
    { apply (counts_nonneg id). }
    apply (cwrites_step _ _ _ _); [ |apply cwrites_length; [apply size_nonneg|done]|].
    { apply (counts_nonneg id). }
    apply cwrites_list. eapply Forall_impl; [|apply (Forall_both _ _ _ Hl Hall)].
    intros x [Hx [Ht Hok]]. auto.
  - apply (counts_nonneg snd).
  - destruct Hv as (_ & Hn & Hall). apply foldr_and_Forall in Hall.
    destruct (Z.gtb_spec (size cv) (maxCollectionLength limits)); [lia|].
    replace (foldr _ 0 cv) with (foldr (fun (c : string * NbtValue) n => count (snd c) + n) 0 cv + 0) by lia.
    apply cwrites_bind; [|lia| |by apply cwrites_stream].
    { apply (counts_nonneg snd). }
    apply cwrites_children. eapply Forall_impl; [|apply (Forall_both _ _ _ Hc Hall)].
    intros x [Hx (Ht & Hs & Hok)]. auto.
  - apply (cwrites_step _ _ _ _ 0); [lia| |apply cwrites_array; intros; apply appends_U32LE].
    apply cwrites_length; [apply size_nonneg|apply Hv].
  - apply (cwrites_step _ _ _ _ 0); [lia| |apply cwrites_array; intros; apply appends_U64LE].
    apply cwrites_length; [apply size_nonneg|apply Hv].
Qed.
End WriteProofs.

(** ** Reading *)
Section ReadProofs.
Context (encoding : BedrockNbtEncoding) (limits : BedrockNbtLimits).

(** Where [k] stands next in the input, [m] returns [a], consumes [k] and
    accounts for [n] values. *)
Definition creads {A} (m : M Context_ A) (k : bytes) (n : Z) (a : A) : Prop :=
  forall c r, valid (stream c) -> is_bytes (rest (stream c)) -> rest (stream c) = k ++ r ->
    0 <= totalValues c -> totalValues c + n <= maxTotalValues limits ->
    m c = (Ok a, mkContext (skip (size k) (stream c)) (totalValues c + n)).

Lemma creads_bind {A B} (m : M Context_ A) (f : A -> M Context_ B) k1 k2 n1 n2 a b :
  0 <= n1 -> 0 <= n2 -> creads m k1 n1 a -> creads (f a) k2 n2 b ->
  creads (bind m f) (k1 ++ k2) (n1 + n2) b.
Proof.
  intros Hn1 Hn2 H1 H2 c r Hs Hb Hr Hc Hmax. rewrite <-app_assoc in Hr.
  rewrite (bind_ok _ _ _ _ _ (H1 c _ Hs Hb Hr Hc ltac:(lia))).
  destruct (skip_rest k1 (stream c) (k2 ++ r) Hs Hr) as [Hs' Hr'].
  rewrite (H2 _ r); cbn [stream totalValues]; [|done| |done|lia|lia].
  - by rewrite skip_skip, size_app, Z.add_assoc.
  - rewrite Hr'. rewrite Hr in Hb. by apply Forall_app in Hb as [_ Hb].
Qed.

Lemma creads_step {A B} (m : M Context_ A) (f : A -> M Context_ B) k1 k2 n a b :
  0 <= n -> creads m k1 0 a -> creads (f a) k2 n b -> creads (bind m f) (k1 ++ k2) n b.
Proof. intros Hn. by apply (creads_bind m f k1 k2 0 n). Qed.

Lemma creads_ret {A} (a : A) : creads (ret a) [] 0 a.
Proof.
  intros [s t] r _ _ _ _ _. unfold ret. cbn [stream totalValues].
  by rewrite size_nil, skip_zero, Z.add_0_r.
Qed.

Lemma creads_bind_ret {A B} (m : M Context_ A) (g : A -> B) k n a :
  0 <= n -> creads m k n a -> creads (let* x := m in ret (g x)) k n (g a).
Proof.
  intros Hn H. rewrite <-(app_nil_r k), <-(Z.add_0_r n).
  by apply (creads_bind m (fun x => ret (g x)) _ _ _ _ a); [| |done|apply creads_ret].
Qed.

Lemma creads_stream {A} (m : M BinaryStream A) k a : reads m k a -> creads (on_stream m) k 0 a.
Proof.
  intros H [s t] r Hs Hb Hr _ _. unfold on_stream, zoom. cbn [stream totalValues] in *.
  by rewrite (H s r Hs Hb Hr), Z.add_0_r.
Qed.

Lemma creads_lift {A B} (x : result A) (a : A) (f : A -> M Context_ B) k n b :
  x = Ok a -> creads (f a) k n b -> creads (let* y := lift x in f y) k n b.
Proof. intros -> H c. apply H. Qed.

Lemma creads_get {B} (f : Context_ -> M Context_ B) k n b :
  (forall c, size k <= remaining (stream c) <= size (readableBuffer (stream c)) ->
     creads (f c) k n b) ->
  creads (let* c := get_st in f c) k n b.
Proof.
  intros H c r Hs Hb Hr Hc Hmax. apply (H c) with r; [|done..].
  assert (size (rest (stream c)) <= size (readableBuffer (stream c))).
  { unfold rest, size. rewrite length_drop. lia. }
  split; [|by rewrite remaining_rest].
  rewrite remaining_rest, Hr, size_app by done. pose proof (size_nonneg r). lia.
Qed.

Lemma creads_account {A} d (m : M Context_ A) k n a :
  d <= maxDepth limits -> 0 <= n -> creads m k n a ->
  creads (checkDepth limits d ;;; accountValue limits ;;; m) k (1 + n) a.
Proof.
  intros Hd Hn H [s t] r Hs Hb Hr Hc Hmax. cbn [stream totalValues] in *.
  unfold checkDepth, accountValue, bind at 1 2 3, get_st, put_st, ret.
  destruct (Z.gtb_spec d (maxDepth limits)); [lia|]. cbn [totalValues stream].
  rewrite (proj2 (Z.eqb_neq t (maxTotalValues limits))) by lia.
  rewrite (H _ r); cbn [stream totalValues]; [by rewrite Z.add_assoc|done..|lia|lia].
Qed.

Lemma creads_int32 v : is_s 32 v -> creads (readInt32 encoding) (enc_int32 encoding v) 0 v.
Proof.
  intros Hv. unfold readInt32, enc_int32. destruct encoding.
  - by apply creads_stream, reads_I32LE.
  - pose proof (zigzag_range 32 v ltac:(lia) Hv) as Hz.
    assert (decodeZigZag32 (zigzag v) = v) as E.
    { unfold decodeZigZag32. rewrite unzigzag_neg_ok by (done || lia). apply unzigzag_zigzag. }
    rewrite <-E at 2. apply creads_bind_ret; [done|]. by apply creads_stream, reads_VarUInt.
Qed.

Lemma creads_int64 v : is_s 64 v -> creads (readInt64 encoding) (enc_int64 encoding v) 0 v.
Proof.
  intros Hv. unfold readInt64, enc_int64. destruct encoding.
  - by apply creads_stream, reads_I64LE.
  - pose proof (zigzag_range 64 v ltac:(lia) Hv) as Hz.
    assert (decodeZigZag64 (zigzag v) = v) as E.
    { unfold decodeZigZag64. rewrite unzigzag_neg_ok by (done || lia). apply unzigzag_zigzag. }
    rewrite <-E at 2. apply creads_bind_ret; [done|]. by apply creads_stream, reads_VarULong.
Qed.

Lemma creads_length {B} (f : Z -> M Context_ B) n k m b :
  0 <= n -> 0 <= m -> length_ok limits n -> creads (f n) k m b ->
  creads (let* x := read_length encoding limits in f x) (enc_int32 encoding n ++ k) m b.
Proof.
  intros Hn Hm Hok H. apply (creads_step _ _ _ _ _ n); [done| |done].
  rewrite <-(app_nil_r (enc_int32 encoding n)).
  apply (creads_step _ _ _ _ _ n); [done|apply creads_int32; by apply length_ok_s32 with limits|].
  unfold checkedCollectionLength_read. destruct Hok.
  rewrite (proj2 (Z.ltb_ge _ _)) by lia.
  destruct (Z.gtb_spec n (maxCollectionLength limits)); [lia|]. intros c. apply creads_ret.
Qed.

Lemma creads_string s b :
  string_ok encoding limits s b ->
  creads (readString encoding limits b) (enc_string encoding s) 0 s.
Proof.
  intros (H1 & H2 & H3). unfold readString, enc_string.
  set (k := bytes_of_string s) in *. pose proof (size_nonneg k).
  apply (creads_step _ _ _ _ _ (size k)); [done| |].
  - destruct encoding; apply creads_stream; [apply reads_U16LE|apply reads_VarUInt];
      unfold is_u; lia.
  - destruct (Z.gtb_spec (size k) (maxStringBytes limits)); [lia|].
    apply creads_get. intros c Hc.
    destruct (Z.gtb_spec (size k) (remaining (stream c))); [lia|].
    rewrite <-(app_nil_r k).
    apply (creads_step _ _ _ _ _ k); [done|rewrite app_nil_r; apply creads_stream, reads_bytes|].
    rewrite H3. unfold k. rewrite string_bytes_string. apply creads_ret.
Qed.

Lemma creads_array {A} (m : M Context_ A) (e : A -> bytes) (n : A -> Z) l acc :
  Forall (fun x => 0 <= n x /\ creads m (e x) (n x) x) l ->
  creads (read_array m (length l) acc) (concat (map e l)) (foldr (fun x s => n x + s) 0 l)
    (acc ++ l).
Proof.
  intros Hl. revert acc. induction Hl as [|x l [Hn Hx] Hl IH]; intros acc;
    cbn [read_array length map concat foldr].
  - rewrite app_nil_r. apply creads_ret.
  - apply (creads_bind _ _ _ _ _ _ x); [done| |done|].
    + clear -Hl. induction Hl as [|y l [? _] _ IH]; cbn [foldr]; lia.
    + rewrite (cons_middle x acc l), app_assoc. apply IH.
Qed.

(** The children of a compound. *)
Lemma creads_children rp cv : forall fuel acc,
  (length cv < fuel)%nat ->
  Forall (fun c => type (snd c) <> TagEnd /\ string_ok encoding limits (fst c) true /\
    creads (rp (type (snd c))) (enc_value encoding (snd c)) (count (snd c)) (snd c)) cv ->
  creads (read_children encoding limits rp fuel acc)
    (concat (map (enc_child encoding) cv) ++ [tag_byte TagEnd])
    (foldr (fun c n => count (snd c) + n) 0 cv) (acc ++ cv).
Proof.
  induction cv as [|[name v] cv IH]; intros fuel acc Hf Hall;
    (destruct fuel as [|fuel]; [simpl in Hf; lia|]); cbn [read_children map concat foldr].
  - rewrite app_nil_r. apply (creads_step _ _ [_] [] 0 (tag_byte TagEnd)); [done| |].
    + apply creads_stream, reads_U8.
    + apply (creads_lift _ TagEnd); [apply checked_tag|]. apply creads_ret.
  - apply Forall_cons_1 in Hall as [(Ht & Hs & Hv) Hall]. cbn [fst snd] in *.
    pose proof (count_pos v). pose proof (counts_nonneg snd cv).
    unfold enc_child at 1. cbn [fst snd]. rewrite <-!app_assoc.
    apply (creads_step _ _ [_] _ _ (tag_byte (type v))); [lia|apply creads_stream, reads_U8|].
    apply (creads_lift _ (type v)); [apply checked_tag|].
    rewrite bool_decide_eq_false_2 by done.
    apply (creads_step _ _ _ _ _ name); [lia|by apply creads_string|].
    apply (creads_bind _ _ _ _ _ _ v); [lia|lia|done|].
    rewrite (cons_middle _ acc cv), app_assoc. apply IH; [simpl in Hf; lia|done].
Qed.

Lemma children_length cv :
  (length cv <= length (concat (map (enc_child encoding) cv)))%nat.
Proof.
  induction cv as [|c cv IH]; cbn [map concat length]; [lia|].
  rewrite length_app. unfold enc_child at 1. simpl. lia.
Qed.

(** Arrays of [w]-byte integers, with the check against the remaining input. *)
Lemma creads_fixed_array {B} (m : M BinaryStream Z) (e : Z -> bytes) w l e1 (g : list Z -> B) :
  0 < w ->
  Forall (fun x => size (e x) = w /\ reads m (e x) x) l ->
  creads (let* c := get_st in
    if size l >? remaining (stream c) / w then raise e1
    else let* l := read_array (on_stream m) (Z.to_nat (size l)) [] in ret (g l))
    (concat (map e l)) 0 (g l).
Proof.
  intros Hw Hl. apply creads_get. intros c Hrem.
  assert (size (concat (map e l)) = w * size l) as Hsz.
  { clear -Hl. induction Hl as [|x l [Hx _] _ IH]; cbn [map concat].
    - change (0 = w * 0). lia.
    - rewrite size_app, size_cons, IH, Hx. lia. }
  destruct (Z.gtb_spec (size l) (remaining (stream c) / w)) as [Hgt|_].
  { assert (size l <= remaining (stream c) / w) by (apply Z.div_le_lower_bound; lia). lia. }
  apply creads_bind_ret; [done|]. unfold size. rewrite Nat2Z.id.
  replace 0 with (foldr (fun (x : Z) s => 0 + s) 0 l) by (clear; by induction l).
  apply (creads_array _ e (fun _ => 0) l []).
  eapply Forall_impl; [|exact Hl]. intros x [_ Hx]. split; [done|]. by apply creads_stream.
Qed.

(** Reading back a well-formed value. *)
Lemma readPayload_ok v : forall d fuel,
  nbt_ok encoding limits d v -> maxDepth limits + 2 <= d + Z.of_nat fuel ->
  creads (readPayload encoding limits fuel (type v) d) (enc_value encoding v) (count v) v.
Proof.
  induction v as [t i f s ba et lv cv ia la Hl Hc] using nbt_induction.
  intros d fuel. cbn [nbt_ok type]. intros [Hd Hv] Hf.
  destruct fuel as [|fuel]; [lia|]. cbn [readPayload enc_value count].
  destruct t; (apply creads_account; [done|try lia|]);
    try match type of Hv with _ /\ _ => destruct Hv as [-> Hv] end.
  - rewrite Hv. apply creads_ret.
  - by apply (creads_bind_ret _ nbt_byte), creads_stream, reads_I8.
  - by apply (creads_bind_ret _ nbt_short), creads_stream, reads_I16LE.
  - by apply (creads_bind_ret _ nbt_int), creads_int32.
  - by apply (creads_bind_ret _ nbt_long), creads_int64.
  - destruct Hv as [Hu Hfl].
    assert (mkNbt TagFloat 0 f "" [] TagEnd [] [] [] [] = nbt_floating (f32_of_f64 f)) as ->
      by (unfold nbt_floating; by rewrite Hfl).
    by apply (creads_bind_ret _ nbt_floating), creads_stream, reads_U32LE.
  - by apply (creads_bind_ret _ nbt_double), creads_stream, reads_U64LE.
  - destruct Hv as [Hb Hn]. apply creads_length; [apply size_nonneg|done|done|].
    apply creads_get. intros c Hrem.
    destruct (Z.gtb_spec (size ba) (remaining (stream c))); [lia|].
    by apply (creads_bind_ret _ nbt_byteArray), creads_stream, reads_bytes.
  - by apply (creads_bind_ret _ nbt_string), creads_string.
  - apply (counts_nonneg id).
  - destruct Hv as (He & Hn & Hall). apply foldr_and_Forall in Hall.
    pose proof (counts_nonneg id lv) as H0. unfold id in H0.
    apply (creads_step _ _ [_] _ _ (tag_byte et)); [done|apply creads_stream, reads_U8|].
    apply (creads_lift _ et); [apply checked_tag|].
    apply creads_length; [apply size_nonneg|done|done|].
    assert (bool_decide (et = TagEnd) && negb (size lv =? 0) = false) as ->.
    { case_bool_decide; [|done]. by rewrite He. }
    apply (creads_bind_ret _ (nbt_list et)); [done|].
    unfold size. rewrite Nat2Z.id.
    apply (creads_array _ (enc_value encoding) count lv []).
    eapply Forall_impl; [|apply (Forall_both _ _ _ Hl Hall)].
    intros x [Hx [<- Hok]]. split; [pose proof (count_pos x); lia|]. apply Hx; [done|lia].
  - apply (counts_nonneg snd).
  - destruct Hv as (Hn & Hall). apply foldr_and_Forall in Hall.
    pose proof (counts_nonneg snd cv) as H0.
    apply creads_get. intros c Hrem. apply (creads_bind_ret _ nbt_compound); [done|].
    apply (creads_children _ cv _ []).
    + pose proof (children_length cv) as Hlen. rewrite size_app in Hrem.
      unfold enc_child in Hlen. unfold size in Hrem. lia.
    + eapply Forall_impl; [|apply (Forall_both _ _ _ Hc Hall)].
      intros x [Hx (Ht & Hs & Hok)]. split_and!; [done|done|]. apply Hx; [done|lia].
  - destruct Hv as [Hb Hn]. apply creads_length; [apply size_nonneg|done|done|].
    apply creads_fixed_array; [done|]. eapply Forall_impl; [|exact Hb].
    intros x Hx. split; [apply le_encode_size|by apply reads_I32LE].
  - destruct Hv as [Hb Hn]. apply creads_length; [apply size_nonneg|done|done|].
    apply creads_fixed_array; [done|]. eapply Forall_impl; [|exact Hb].
    intros x Hx. split; [apply le_encode_size|by apply reads_I64LE].
Qed.
End ReadProofs.

(** ** Reading arbitrary input *)
Section SafeProofs.
Context (encoding : BedrockNbtEncoding) (limits : BedrockNbtLimits).

(** [steps], on a context whose buffer holds bytes. *)
Definition cvalid (c : Context_) : Prop :=
  valid (stream c) /\ is_bytes (readableBuffer (stream c)).

Definition csteps {A} (n : Z) (m : M Context_ A) : Prop :=
  forall c, cvalid c ->
  match m c with
  | (Ok _, c') => advances n (stream c) (stream c')
  | (Throw e, c') => is_stuck e = false /\ advances 0 (stream c) (stream c')
  end.

Lemma advances_cvalid n c c' : cvalid c -> advances n (stream c) (stream c') -> cvalid c'.
Proof. intros [_ Hb] (E & _ & Hs). split; [done|by rewrite E]. Qed.

Lemma csteps_stream {A} n (m : M BinaryStream A) : steps n m -> csteps n (on_stream m).
Proof.
  intros H [s t] [Hs _]. specialize (H s Hs). unfold on_stream, zoom. cbn [stream] in *.
  by destruct (m s) as [[a|e] s'].
Qed.

(** Sequencing; [Q] is what is known of the first result. *)
Lemma csteps_bind_post {A B} m n (Q : A -> Prop) (f : M Context_ A) (k : A -> M Context_ B) :
  0 <= m -> csteps m f -> (forall c a c', cvalid c -> f c = (Ok a, c') -> Q a) ->
  (forall a, Q a -> csteps n (k a)) -> csteps (m + n) (bind f k).
Proof.
  intros Hm Hf HQ Hk c Hc. pose proof (Hf c Hc) as Hfc. unfold bind.
  destruct (f c) as [[a|e] c'] eqn:E; [|done].
  specialize (Hk a (HQ _ _ _ Hc E) c' (advances_cvalid _ _ _ Hc Hfc)).
  destruct (k a c') as [[b|e] c'']; [by eapply advances_trans|].
  destruct Hk as [He Hk]. split; [done|].
  apply (advances_weaken (m + 0)); [lia|]. by eapply advances_trans.
Qed.

Lemma csteps_bind {A B} m n (f : M Context_ A) (k : A -> M Context_ B) :
  0 <= m -> csteps m f -> (forall a, csteps n (k a)) -> csteps (m + n) (bind f k).
Proof. intros Hm Hf Hk. by apply (csteps_bind_post m n (fun _ => True)). Qed.

(** The common case: no lower bound on progress. *)
Lemma csteps_bind0 {A B} (f : M Context_ A) (k : A -> M Context_ B) :
  csteps 0 f -> (forall a, csteps 0 (k a)) -> csteps 0 (bind f k).
Proof. by apply (csteps_bind 0 0). Qed.

Lemma csteps_weaken {A} m n (f : M Context_ A) : n <= m -> csteps m f -> csteps n f.
Proof.
  intros Hn Hf c Hs. specialize (Hf c Hs).
  destruct (f c) as [[a|e] c']; [by eapply advances_weaken|done].
Qed.

Lemma csteps_ret {A} (a : A) : csteps 0 (ret a).
Proof. intros c [Hs _]. by apply advances_refl. Qed.

Lemma csteps_raise {A} n e : is_stuck e = false -> csteps n (raise e : M Context_ A).
Proof. intros He c [Hs _]. split; [done|]. by apply advances_refl. Qed.

Lemma csteps_lift {A} (r : result A) : safe r -> csteps 0 (lift r).
Proof.
  intros Hr c [Hs _]. unfold lift. destruct r as [a|e]; [by apply advances_refl|].
  split; [done|by apply advances_refl].
Qed.

Lemma csteps_get {A} n (k : Context_ -> M Context_ A) :
  (forall c, csteps n (k c)) -> csteps n (let* c := get_st in k c).
Proof. intros Hk c Hs. by apply Hk. Qed.

Lemma csteps_if {A} n (b : bool) (m1 m2 : M Context_ A) :
  csteps n m1 -> csteps n m2 -> csteps n (if b then m1 else m2).
Proof. by destruct b. Qed.

Lemma csteps_account : csteps 0 (accountValue limits).
Proof.
  intros c [Hs _]. unfold accountValue, bind, get_st, put_st, raise.
  destruct (_ =? _); [split; [done|]|]; by apply advances_refl.
Qed.

Lemma csteps_read {A} n (m : M BinaryStream A) : 0 <= n -> steps n m -> csteps 0 (on_stream m).
Proof. intros Hn Hm. apply (csteps_weaken n); [done|]. by apply csteps_stream. Qed.

Lemma csteps_int32 : csteps 0 (readInt32 encoding).
Proof.
  unfold readInt32. destruct encoding.
  - apply (csteps_read 4); [done|]. auto with steps.
  - apply csteps_bind0; [apply csteps_stream; auto with steps|intros; apply csteps_ret].
Qed.

Lemma csteps_int64 : csteps 0 (readInt64 encoding).
Proof.
  unfold readInt64. destruct encoding.
  - apply (csteps_read 8); [done|]. auto with steps.
  - apply csteps_bind0; [apply csteps_stream; auto with steps|intros; apply csteps_ret].
Qed.

Lemma checkedTagType_safe raw : safe (checkedTagType raw).
Proof.
  unfold checkedTagType. destruct (Z.gtb_spec raw (tag_byte TagLongArray)) as [|H]; [done|].
  destruct (lookup_lt_is_Some_2 all_tags (Z.to_nat raw)) as [t ->]; [|done].
  cbn in *. lia.
Qed.

(** A length that was checked is not negative. *)
Lemma csteps_length {B} (k : Z -> M Context_ B) :
  (forall n, 0 <= n -> csteps 0 (k n)) -> csteps 0 (let* n := read_length encoding limits in k n).
Proof.
  intros Hk. apply (csteps_bind_post 0 0 (fun n => 0 <= n)); [done| | |done].
  - apply csteps_bind0; [apply csteps_int32|]. intros n. apply csteps_lift.
    unfold checkedCollectionLength_read. destruct (n <? 0); [done|]. by destruct (_ >? _).
  - intros c n c' _ E. unfold read_length in E. minv E. unfold lift in H0.
    injection H0 as H0 _. unfold checkedCollectionLength_read in H0.
    destruct (Z.ltb_spec x 0); [done|]. destruct (_ >? _); [done|]. by injection H0 as <-.
Qed.

Definition read_string_length : M Context_ Z :=
  match encoding with
  | LittleVarInt => on_stream readVarUInt
  | LittleEndian => on_stream readU16LE
  end.

Lemma readU16LE_nonneg s n s' :
  valid s -> is_bytes (readableBuffer s) -> readU16LE s = (Ok n, s') -> 0 <= n.
Proof.
  intros Hs Hb E.
  unfold readU16LE, read_n, require, load_le16, bind, get_st, lift, put_st, ret, raise in E.
  destruct (remaining s <? 2); [done|].
  destruct (vec_at (readableBuffer s) (offset_ s)) as [b0|e] eqn:H0; [|done]. cbn [rbind] in E.
  destruct (vec_at (readableBuffer s) (offset_ s + 1)) as [b1|e] eqn:H1; [|done].
  injection E as <- _. apply vec_at_inv in H0 as [_ H0].
  eapply Forall_lookup_1 in H0; [|exact Hb]. destruct H0.
  apply Z.lor_nonneg. split; [done|]. by apply (to_u_range 16).
Qed.

Lemma csteps_string b : csteps 0 (readString encoding limits b).
Proof.
  change (readString encoding limits b) with
    (let* n := read_string_length in
     if n >? maxStringBytes limits then
       raise (BedrockNbtError "NBT string length exceeds configured limit")
     else let* c := get_st in
       if n >? remaining (stream c) then
         raise (BedrockNbtError "NBT string length exceeds remaining input")
       else let* bytes := on_stream (readBytes n) in
         if b && has_null bytes then raise nullName else ret (string_of_bytes bytes)).
  apply (csteps_bind_post 0 0 (fun n => 0 <= n)); [done| | |].
  - unfold read_string_length.
    destruct encoding; [apply (csteps_read 2); [done|]|apply csteps_stream]; auto with steps.
  - intros [s t] n [s' t'] [Hs Hb] E. unfold read_string_length, on_stream, zoom in E.
    destruct encoding; cbn -[readU16LE readVarUInt] in *.
    + destruct (readU16LE s) as [r s1] eqn:Er. injection E as -> -> _.
      by eapply readU16LE_nonneg.
    + destruct (readVarUInt s) as [r s1] eqn:Er. injection E as -> -> _.
      by eapply varint_nonneg in Er; [|lia|lia].
  - intros n Hn. apply csteps_if; [by apply csteps_raise|]. apply csteps_get. intros c0.
    apply csteps_if; [by apply csteps_raise|]. apply csteps_bind0.
    + by apply (csteps_read n), steps_readBytes.
    + intros l. apply csteps_if; [by apply csteps_raise|apply csteps_ret].
Qed.

Lemma csteps_array {A} (m : M Context_ A) n acc : csteps 0 m -> csteps 0 (read_array m n acc).
Proof.
  intros Hm. revert acc. induction n as [|n IH]; intros acc; [apply csteps_ret|].
  cbn [read_array]. apply csteps_bind0; [done|]. intros x. apply IH.
Qed.

(** The children loop ends: every child consumes at least its tag byte. *)
Lemma csteps_children rp : (forall t, csteps 0 (rp t)) ->
  forall fuel acc c, cvalid c ->
  size (readableBuffer (stream c)) - offset_ (stream c) < Z.of_nat fuel ->
  match read_children encoding limits rp fuel acc c with
  | (Ok _, c') => advances 0 (stream c) (stream c')
  | (Throw e, c') => is_stuck e = false /\ advances 0 (stream c) (stream c')
  end.
Proof.
  intros Hrp. induction fuel as [|fuel IH]; intros acc c Hc Hf.
  { destruct Hc as [[]]. lia. }
  cbn [read_children]. pose proof (csteps_stream 1 readU8 steps_readU8 c Hc) as H1.
  unfold bind at 1. destruct (on_stream readU8 c) as [[raw|e] c1]; [|done].
  pose proof (advances_cvalid _ _ _ Hc H1) as Hc1.
  assert (forall k : NbtTagType -> M Context_ (list (string * NbtValue)),
    (forall t, match k t c1 with
      | (Ok _, c') => advances 0 (stream c1) (stream c')
      | (Throw e, c') => is_stuck e = false /\ advances 0 (stream c1) (stream c')
      end) ->
    match (let* t := lift (checkedTagType raw) in k t) c1 with
    | (Ok _, c') => advances 0 (stream c) (stream c')
    | (Throw e, c') => is_stuck e = false /\ advances 0 (stream c) (stream c')
    end) as Hstep.
  { intros k Hk. unfold bind, lift. pose proof (checkedTagType_safe raw) as Ht.
    destruct (checkedTagType raw) as [t|e].
    - specialize (Hk t). destruct (k t c1) as [[b|e] c2].
      + eapply advances_weaken; [|by eapply advances_trans]. lia.
      + destruct Hk as [He Hk]. split; [done|].
        eapply advances_weaken; [|by eapply advances_trans]. lia.
    - split; [done|]. by eapply advances_weaken; [|exact H1]. }
  apply Hstep. intros t. case_bool_decide as Et; [apply advances_refl, Hc1|].
  pose proof (csteps_string true c1 Hc1) as H2. unfold bind at 1.
  destruct (readString encoding limits true c1) as [[name|e] c2]; [|done].
  pose proof (advances_cvalid _ _ _ Hc1 H2) as Hc2.
  specialize (Hrp t c2 Hc2). unfold bind at 1.
  destruct (rp t c2) as [[v|e] c3];
    [|destruct Hrp as [He Hrp]; split; [done|]; by apply (advances_trans 0 0 _ (stream c2))].
  pose proof (advances_cvalid _ _ _ Hc2 Hrp) as Hc3.
  pose proof (advances_trans 0 0 _ _ _ H2 Hrp) as H3.
  destruct H1 as (E1 & Ho1 & _). pose proof H3 as (E3 & Ho3 & _).
  specialize (IH (acc ++ [(name, v)]) c3 Hc3 ltac:(rewrite E3, E1; lia)).
  destruct (read_children encoding limits rp fuel _ c3) as [[l|e] c4].
  - by apply (advances_trans 0 0 _ (stream c3)).
  - destruct IH as [He IH]. split; [done|]. by apply (advances_trans 0 0 _ (stream c3)).
Qed.

Lemma csteps_read_ret {A B} n (m : M BinaryStream A) (g : A -> B) :
  0 <= n -> steps n m -> csteps 0 (let* x := on_stream m in ret (g x)).
Proof.
  intros Hn Hm. apply csteps_bind0; [by apply (csteps_read n)|]. intros x. apply csteps_ret.
Qed.

(** The checked reads of arrays. *)
Lemma csteps_checked {A} (b : Context_ -> bool) e (m : M Context_ A) :
  is_stuck e = false -> csteps 0 m ->
  csteps 0 (let* c := get_st in if b c then raise e else m).
Proof. intros He Hm. apply csteps_get. intros c. apply csteps_if; [by apply csteps_raise|done]. Qed.

Lemma csteps_depth {A} d (m : M Context_ A) :
  (d <= maxDepth limits -> csteps 0 m) -> csteps 0 (checkDepth limits d ;;; m).
Proof.
  intros Hm c Hc. unfold checkDepth, bind.
  destruct (Z.gtb_spec d (maxDepth limits)).
  - split; [done|apply advances_refl, Hc].
  - by apply Hm.
Qed.

Lemma readPayload_safe fuel : forall t d,
  0 <= d <= maxDepth limits + 1 -> maxDepth limits + 2 <= d + Z.of_nat fuel ->
  csteps 0 (readPayload encoding limits fuel t d).
Proof.
  induction fuel as [|fuel IH]; intros t d Hd Hf; [lia|]. cbn [readPayload].
  apply csteps_depth. intros Hle.
  apply csteps_bind0; [apply csteps_account|]. intros _.
  assert (forall t, csteps 0 (readPayload encoding limits fuel t (d + 1))) as Hrec.
  { intros t'. apply IH; lia. }
  destruct t.
  - apply csteps_ret.
  - apply (csteps_read_ret 1); [done|]. auto with steps.
  - apply (csteps_read_ret 2); [done|]. auto with steps.
  - apply csteps_bind0; [apply csteps_int32|intros; apply csteps_ret].
  - apply csteps_bind0; [apply csteps_int64|intros; apply csteps_ret].
  - apply (csteps_read_ret 4); [done|apply steps_readU32LE].
  - apply (csteps_read_ret 8); [done|apply steps_readU64LE].
  - apply csteps_length. intros n Hn. apply csteps_checked; [done|].
    by apply (csteps_read_ret n), steps_readBytes.
  - apply csteps_bind0; [apply csteps_string|intros; apply csteps_ret].
  - apply csteps_bind0; [by apply (csteps_read 1), steps_readU8|]. intros raw.
    apply csteps_bind0; [apply csteps_lift, checkedTagType_safe|]. intros et.
    apply csteps_length. intros n Hn. apply csteps_if; [by apply csteps_raise|].
    apply csteps_bind0; [by apply csteps_array|intros; apply csteps_ret].
  - intros c Hc. unfold bind at 1, get_st. unfold bind.
    pose proof (csteps_children _ Hrec (S (length (readableBuffer (stream c)))) [] c Hc) as H.
    destruct Hc as [[Hv _] _]. specialize (H ltac:(unfold size; lia)).
    by destruct (read_children _ _ _ _ _ c) as [[l|e] c'].
  - apply csteps_length. intros n Hn. apply csteps_checked; [done|].
    apply csteps_bind0; [|intros; apply csteps_ret].
    apply csteps_array, (csteps_read 4); [done|apply steps_readI32LE].
  - apply csteps_length. intros n Hn. apply csteps_checked; [done|].
    apply csteps_bind0; [|intros; apply csteps_ret].
    apply csteps_array, (csteps_read 8); [done|apply steps_readI64LE].
Qed.

(** A member of the codec, on a stream. *)
Definition stream_advances {A} (n : Z) (m : M BinaryStream A) : Prop :=
  forall s, valid s -> is_bytes (readableBuffer s) ->
  match m s with
  | (Ok _, s') => advances n s s'
  | (Throw e, s') => is_stuck e = false /\ advances 0 s s'
  end.
Definition stream_steps {A} (m : M BinaryStream A) : Prop := stream_advances 0 m.

Lemma with_context_steps {A} n (m : M Context_ A) : csteps n m -> stream_advances n (with_context m).
Proof.
  intros H s Hs Hb. specialize (H (mkContext s 0) (conj Hs Hb)). unfold with_context.
  by destruct (m (mkContext s 0)) as [[a|e] [s' t']].
Qed.

Lemma payload_fuel_enough d : 0 <= d -> maxDepth limits + 2 <= d + Z.of_nat (payload_fuel limits).
Proof. intros. unfold payload_fuel. lia. Qed.

Lemma read_csteps {A} (k : NbtTagType -> M Context_ A) :
  (forall t, csteps 0 (k t)) ->
  csteps 1 (let* raw := on_stream readU8 in let* t := lift (checkedTagType raw) in k t).
Proof.
  intros Hk. apply (csteps_bind 1 0); [lia|by apply csteps_stream, steps_readU8|]. intros raw.
  apply csteps_bind0; [apply csteps_lift, checkedTagType_safe|done].
Qed.
End SafeProofs.

(** ** Properties *)

(** A document the codec can carry. *)
Definition document_ok (encoding : BedrockNbtEncoding) (limits : BedrockNbtLimits)
    (doc : NbtDocument) : Prop :=
  match type (root doc) with
  | TagEnd => doc = mkDocument "" nbt_end
  | _ => string_ok encoding limits (doc_name doc) true /\
         nbt_ok encoding limits 0 (root doc) /\ count (root doc) <= maxTotalValues limits
  end.

Definition enc_document (encoding : BedrockNbtEncoding) (doc : NbtDocument) : bytes :=
  match type (root doc) with
  | TagEnd => [0]
  | t => [tag_byte t] ++ enc_string encoding (doc_name doc) ++ enc_value encoding (root doc)
  end.

Lemma write_document encoding limits doc s :
  document_ok encoding limits doc -> view_ s = None ->
  write encoding limits doc s = (Ok tt, append (enc_document encoding doc) s).
Proof.
  intros Hok Hs. unfold write, with_context, document_ok, enc_document in *.
  destruct (bool_decide (type (root doc) = TagEnd)) eqn:Et.
  { apply bool_decide_eq_true in Et. rewrite Et in *. by destruct s as [d [v|] o]. }
  apply bool_decide_eq_false in Et.
  assert (string_ok encoding limits (doc_name doc) true /\
    nbt_ok encoding limits 0 (root doc) /\ count (root doc) <= maxTotalValues limits)
    as (Hn & Hv & Hc) by by destruct (type (root doc)).
  pose proof (count_pos (root doc)).
  assert (cwrites limits (on_stream (writeU8 (tag_byte (type (root doc)))) ;;;
    writeString encoding limits (doc_name doc) true ;;;
    writePayload encoding limits (root doc) 0)
    ([tag_byte (type (root doc))] ++ enc_string encoding (doc_name doc) ++
     enc_value encoding (root doc)) (count (root doc))) as H0.
  { apply cwrites_step; [lia|by apply cwrites_stream|].
    apply cwrites_step; [lia|by apply cwrites_string|by apply writePayload_ok]. }
  rewrite (H0 (mkContext s 0)); [|done|done|done]. by destruct (type (root doc)).
Qed.

Lemma read_document encoding limits doc :
  0 <= maxTotalValues limits -> document_ok encoding limits doc ->
  reads (read encoding limits) (enc_document encoding doc) doc.
Proof.
  intros Hmax Hok s r Hs Hb Hr. unfold read, with_context, document_ok, enc_document in *.
  destruct (decide (type (root doc) = TagEnd)) as [Et|Et].
  { rewrite Et in *. subst doc.
    assert (creads limits (let* raw := on_stream readU8 in
      let* t := lift (checkedTagType raw) in
      if bool_decide (t = TagEnd) then ret (mkDocument "" nbt_end)
      else let* name := readString encoding limits true in
        let* root := readPayload encoding limits (payload_fuel limits) t 0 in
        ret (mkDocument name root)) ([0] ++ []) 0 (mkDocument "" nbt_end)) as H0.
    { apply (creads_step _ _ _ _ _ _ 0); [done|apply creads_stream, reads_U8|].
      apply (creads_lift _ _ TagEnd); [done|]. apply creads_ret. }
    by rewrite (H0 (mkContext s 0) r). }
  assert (string_ok encoding limits (doc_name doc) true /\
    nbt_ok encoding limits 0 (root doc) /\ count (root doc) <= maxTotalValues limits)
    as (Hn & Hv & Hc) by by destruct (type (root doc)).
  pose proof (count_pos (root doc)).
  assert (creads limits (let* raw := on_stream readU8 in
      let* t := lift (checkedTagType raw) in
      if bool_decide (t = TagEnd) then ret (mkDocument "" nbt_end)
      else let* name := readString encoding limits true in
        let* root := readPayload encoding limits (payload_fuel limits) t 0 in
        ret (mkDocument name root))
    ([tag_byte (type (root doc))] ++ enc_string encoding (doc_name doc) ++
     enc_value encoding (root doc)) (count (root doc)) doc) as H0.
  { apply (creads_step _ _ _ _ _ _ (tag_byte (type (root doc))));
      [lia|apply creads_stream, reads_U8|].
    apply (creads_lift _ _ (type (root doc))); [apply checked_tag|].
    rewrite bool_decide_eq_false_2 by done.
    apply (creads_step _ _ _ _ _ _ (doc_name doc)); [lia|by apply creads_string|].
    destruct doc as [name v]. cbn [doc_name root] in *.
    apply (creads_bind_ret _ _ (mkDocument name)); [lia|].
    apply readPayload_ok; [done|]. by apply payload_fuel_enough. }
  assert (rest s = ([tag_byte (type (root doc))] ++ enc_string encoding (doc_name doc) ++
     enc_value encoding (root doc)) ++ r) as Hr'.
  { rewrite Hr. by destruct (type (root doc)). }
  rewrite (H0 (mkContext s 0) r Hs Hb Hr' ltac:(done) ltac:(done)). cbn [stream].
  by destruct (type (root doc)).
Qed.

(** C7: the NBT codec round-trips: a document within the limits is written by
    appending a fixed encoding, and wherever that encoding stands in a stream
    it is read back as the same document, with the offset just behind it.
    Both encodings. *)
Theorem nbt_roundtrip encoding limits doc :
  0 <= maxTotalValues limits -> document_ok encoding limits doc ->
  exists k,
    (forall s, view_ s = None -> write encoding limits doc s = (Ok tt, append k s)) /\
    (forall s r, valid s -> is_bytes (rest s) -> rest s = k ++ r ->
       read encoding limits s = (Ok doc, skip (size k) s)).
Proof.
  intros Hmax Hok. exists (enc_document encoding doc). split.
  - intros s Hs. by apply write_document.
  - by apply read_document.
Qed.

(** Discharges [nbt_ok] on a concrete value. *)
Ltac nbt_check :=
  repeat (cbn [nbt_ok foldr fst snd nbt_compound nbt_list nbt_short nbt_int nbt_floating
            nbt_string nbt_longArray nbt_integer type];
    match goal with
    | |- _ /\ _ => split
    | |- True => exact I
    | |- _ <> TagEnd => discriminate
    | |- is_float _ => vm_compute; reflexivity
    | |- length_ok _ _ => split
    | |- string_ok _ _ _ _ => split
    | |- TagInt = TagEnd -> _ => discriminate
    | |- _ = _ => vm_compute; reflexivity
    | |- is_u _ _ => apply (bool_decide_unpack _); vm_compute; exact I
    | |- is_s _ _ => apply (bool_decide_unpack _); vm_compute; exact I
    | |- Forall _ _ => apply (bool_decide_unpack _); vm_compute; exact I
    | |- _ <= _ => vm_compute; discriminate
    | |- _ < _ => vm_compute; reflexivity
    end).

Definition nbt_example : NbtDocument :=
  mkDocument "root" (nbt_compound
    [("id", nbt_short (-2)); ("f", nbt_floating 1078530011);
     ("list", nbt_list TagInt [nbt_int 300; nbt_int (-1)]);
     ("s", nbt_string "hi"); ("a", nbt_longArray [2 ^ 40; -1])]).

Lemma nbt_roundtrip_witness :
  exists k,
    (forall s, view_ s = None ->
       write LittleVarInt default_limits nbt_example s = (Ok tt, append k s)) /\
    (forall s r, valid s -> is_bytes (rest s) -> rest s = k ++ r ->
       read LittleVarInt default_limits s = (Ok nbt_example, skip (size k) s)).
Proof.
  apply nbt_roundtrip; [by vm_compute|].
  cbn [document_ok root doc_name nbt_example type nbt_compound]. by nbt_check.
Defined.

(** Every value takes a byte at least. *)
Lemma read_advances encoding limits :
  0 <= maxDepth limits ->
  stream_advances 1 (read encoding limits) /\ stream_advances 1 (readUnnamed encoding limits).
Proof.
  intros Hd. split; apply with_context_steps, read_csteps; intros t.
  - apply csteps_if; [apply csteps_ret|].
    apply csteps_bind0; [apply csteps_string|]. intros name.
    apply csteps_bind0; [|intros; apply csteps_ret].
    apply readPayload_safe; [lia|by apply payload_fuel_enough].
  - apply readPayload_safe; [lia|by apply payload_fuel_enough].
Qed.

Lemma stream_advances_steps {A} (m : M BinaryStream A) : stream_advances 1 m -> stream_steps m.
Proof.
  intros H s Hs Hb. specialize (H s Hs Hb). destruct (m s) as [[a|e] s']; [|done].
  by eapply advances_weaken; [|done].
Qed.

Lemma read_safe encoding limits :
  0 <= maxDepth limits ->
  stream_steps (read encoding limits) /\ stream_steps (readUnnamed encoding limits).
Proof. intros Hd. split; by apply stream_advances_steps, read_advances. Qed.

(** C8: reading NBT from any bytes, named or not, in either encoding and
    under any limits, ends without leaving the buffer or changing it: a value
    or one of the program's exceptions. *)
Theorem nbt_read_safe encoding limits :
  0 <= maxDepth limits ->
  stream_steps (read encoding limits) /\ stream_steps (readUnnamed encoding limits).
Proof. apply read_safe. Qed.

Lemma nbt_read_safe_witness :
  stream_steps (read LittleEndian default_limits) /\
  stream_steps (readUnnamed LittleEndian default_limits).
Proof. by apply (nbt_read_safe LittleEndian default_limits). Defined.

(** [set] then [find]: on a compound, the field that was set is found with
    its new value and every other field is unchanged; on any other value
    [set] throws and leaves it as it was. *)
Theorem nbt_set_find v name value :
  (type v = TagCompound ->
   exists v', set name value v = (Ok tt, v') /\ find v' name = Some value /\
     (forall other, other <> name -> find v' other = find v other) /\
     length (compoundValue v') =
       (length (compoundValue v) + match find v name with Some _ => 0 | None => 1 end)%nat) /\
  (type v <> TagCompound ->
   set name value v =
     (Throw (BedrockNbtError "NbtValue::set requires a compound value"), v)).
Proof.
  destruct v as [t i f s ba et lv cv ia la]. cbn [type compoundValue]. split.
  - intros ->. eexists. split; [reflexivity|]. unfold find. cbn [type compoundValue].
    rewrite bool_decide_eq_true_2 by done. cbn [negb].
    induction cv as [|[n w] cv (IH1 & IH2 & IH3)]; cbn [set_child find_child].
    + rewrite String.eqb_refl. split_and!; [done| |done].
      intros other Hne. by rewrite (proj2 (String.eqb_neq _ _)) by congruence.
    + destruct (String.eqb_spec n name) as [->|Hn]; cbn [find_child].
      * rewrite String.eqb_refl. split_and!; [done| |simpl; lia].
        intros other Hne. by rewrite (proj2 (String.eqb_neq _ _)) by congruence.
      * rewrite (proj2 (String.eqb_neq n name)) by done. split_and!; [done| |simpl; lia].
        intros other Hne. destruct (String.eqb n other); [done|by apply IH2].
  - intros Ht. unfold set, bind, get_st, raise. by rewrite bool_decide_eq_false_2.
Qed.
