(* ===== verification/NbtFile.v ===== *)
(** * NBT files (src/src/nbt/BedrockNbtFile.cpp)

    Whole-buffer parsing and writing, the detection of the encoding, and the
    eight-byte header of level.dat. *)

From S2P Require Import Prelude MachineInt Leb128 Endian BinaryStream GamePacket Nbt.

Record BedrockNbtMetadata := mkMetadata {
  md_buffer : bytes;
  startOffset : Z;
  md_size : Z
}.

Record BedrockLevelDatHeader := mkHeader { version : Z; payloadLength : Z }.

Record BedrockNbtParseResult := mkParse {
  parsed : NbtDocument;
  encoding : BedrockNbtEncoding;
  metadata : BedrockNbtMetadata;
  levelHeader : option BedrockLevelDatHeader
}.

Definition readLevelHeader (data : bytes) : result BedrockLevelDatHeader :=
  if size data <? 8 then Throw (BedrockNbtError "Bedrock level.dat header is truncated")
  else
    let! v := load_le32 data 0 in
    let! n := load_le32 data 4 in
    Ok (mkHeader v n).

Definition verifyDetectedPayload (r : BedrockNbtParseResult) : result unit :=
  let md := metadata r in
  let consumed := startOffset md + md_size md in
  if consumed >? size (md_buffer md) then
    Throw (BedrockNbtError "NBT parser reported an invalid consumed size")
  else
    let trailing : result unit :=
      Throw (BedrockNbtError
        ("unexpected trailing bytes after detected NBT root at byte " +:+ to_string (md_size md))) in
    if consumed <? size (md_buffer md) then
      let! b := vec_at (md_buffer md) consumed in
      if negb (b =? tag_byte TagCompound) then trailing else Ok tt
    else Ok tt.

Definition writeUncompressed (document : NbtDocument) (encoding : BedrockNbtEncoding)
    (limits : BedrockNbtLimits) : result bytes :=
  match write encoding limits document empty_stream with
  | (Ok _, stream) => Ok (data_ (writableBuffer stream))
  | (Throw e, _) => Throw e
  end.

Definition hasBedrockLevelHeader (data : bytes) : result bool :=
  if size data >=? 4 then
    let! b1 := vec_at data 1 in
    if negb (b1 =? 0) then Ok false
    else
      let! b2 := vec_at data 2 in
      if negb (b2 =? 0) then Ok false
      else let! b3 := vec_at data 3 in Ok (b3 =? 0)
  else Ok false.

(** The handlers of [parseAs]: [BedrockNbtError] is rethrown. *)
Definition parse_error (e : exn) : exn :=
  match e with
  | BinaryStreamError m => BedrockNbtError ("failed to parse NBT: " +:+ m)
  | _ => e
  end.

Definition parseAs (data : bytes) (encoding : BedrockNbtEncoding) (start : Z)
    (limits : BedrockNbtLimits) : result BedrockNbtParseResult :=
  if start >? size data then Throw (BedrockNbtError "NBT start offset exceeds input size")
  else
    match seek start (from_data data) with
    | (Throw e, _) => Throw e
    | (Ok _, stream) =>
        match read encoding limits stream with
        | (Throw e, _) => Throw (parse_error e)
        | (Ok parsed, stream) =>
            Ok (mkParse parsed encoding
                  (mkMetadata (data_ (writableBuffer stream)) start (offset stream - start))
                  None)
        end
    end.

Definition parseUncompressed (data : bytes) (encoding : BedrockNbtEncoding)
    (limits : BedrockNbtLimits) : result NbtDocument :=
  let! r := parseAs data encoding 0 limits in Ok (parsed r).

Definition with_header (r : BedrockNbtParseResult) (h : BedrockLevelDatHeader)
    : BedrockNbtParseResult :=
  mkParse (parsed r) (encoding r) (metadata r) (Some h).

(** [catch (const BedrockNbtError& error)] only. *)
Definition catch_nbt {A} (r : result A) (h : string -> result A) : result A :=
  match r with Throw (BedrockNbtError m) => h m | _ => r end.

(** The body of the two detection attempts of [parse]. *)
Definition parse_detect (data : bytes) (encoding : BedrockNbtEncoding)
    (limits : BedrockNbtLimits) : result BedrockNbtParseResult :=
  let! r := parseAs data encoding 0 limits in
  let! _ := verifyDetectedPayload r in
  Ok r.

Definition parse (data : bytes) (enc : option BedrockNbtEncoding) (limits : BedrockNbtLimits)
    : result BedrockNbtParseResult :=
  match enc with
  | Some enc => parseAs data enc 0 limits
  | None =>
      let! has_header := (if size data >=? 8 then hasBedrockLevelHeader data else Ok false) in
      if has_header : bool then
        let! header := readLevelHeader data in
        let! r := parseAs data LittleEndian 8 limits in
        Ok (with_header r header)
      else
        catch_nbt (parse_detect data LittleEndian limits) (fun littleError =>
          catch_nbt (parse_detect data LittleVarInt limits) (fun varIntError =>
            Throw (BedrockNbtError
              ("unable to detect Bedrock NBT encoding (little-endian: " +:+ littleError
               +:+ "; little-varint: " +:+ varIntError +:+ ")"))))
  end.

Definition parseLevelDat (data : bytes) (limits : BedrockNbtLimits)
    : result BedrockNbtParseResult :=
  let! h := hasBedrockLevelHeader data in
  if negb h then Throw (BedrockNbtError "input does not have a Bedrock level.dat header")
  else
    let! header := readLevelHeader data in
    let actualPayloadLength := size data - 8 in
    if negb (payloadLength header =? actualPayloadLength) then
      Throw (BedrockNbtError
        ("Bedrock level.dat payload length mismatch: header declares "
         +:+ to_string (payloadLength header) +:+ ", input contains "
         +:+ to_string actualPayloadLength))
    else
      let! r := parseAs data LittleEndian 8 limits in
      if negb (md_size (metadata r) =? actualPayloadLength) then
        Throw (BedrockNbtError "Bedrock level.dat contains trailing bytes after its NBT root")
      else Ok (with_header r header).

Definition writeLevelDat (document : NbtDocument) (version : Z) (limits : BedrockNbtLimits)
    : result bytes :=
  let! payload := writeUncompressed document LittleEndian limits in
  if size payload >? 2 ^ 32 - 1 then
    Throw (BedrockNbtError "Bedrock level.dat NBT payload exceeds uint32 length")
  else
    match (writeU32LE version ;;; writeU32LE (to_u32 (size payload)) ;;; writeBytes payload)
            empty_stream with
    | (Ok _, stream) => Ok (data_ (writableBuffer stream))
    | (Throw e, _) => Throw e
    end.

(** ** Properties *)

Lemma writeUncompressed_ok doc enc limits :
  document_ok enc limits doc -> writeUncompressed doc enc limits = Ok (enc_document enc doc).
Proof. intros H. unfold writeUncompressed. by rewrite write_document. Qed.

Lemma enc_document_bytes enc limits doc :
  document_ok enc limits doc -> is_bytes (enc_document enc doc).
Proof.
  intros Hok. unfold document_ok, enc_document in *.
  assert (forall t, type (root doc) = t -> t <> TagEnd ->
    is_bytes ([tag_byte t] ++ enc_string enc (doc_name doc) ++ enc_value enc (root doc))) as H.
  { intros t Ht Hne.
    assert (nbt_ok enc limits 0 (root doc)) as Hv by (rewrite Ht in Hok; destruct t; try done; by destruct Hok as (_ & ? & _)).
    rewrite !is_bytes_app. split_and!; [apply tag_byte_bytes|apply enc_string_bytes|].
    by eapply enc_value_bytes. }
  destruct (type (root doc)) eqn:E; try by apply H.
  by apply (bool_decide_unpack _).
Qed.

(** [parseAs] of a document that stands at the start offset. *)
Lemma parseAs_at pre post doc enc limits :
  0 <= maxTotalValues limits -> document_ok enc limits doc ->
  is_bytes pre -> is_bytes post ->
  let data := pre ++ enc_document enc doc ++ post in
  parseAs data enc (size pre) limits =
  Ok (mkParse doc enc (mkMetadata data (size pre) (size (enc_document enc doc))) None).
Proof.
  intros Hmax Hok Hpre Hpost data. unfold parseAs.
  pose proof (size_nonneg pre) as Hp. pose proof (size_nonneg post) as Hq.
  pose proof (size_nonneg (enc_document enc doc)) as Hd.
  assert (size data = size pre + size (enc_document enc doc) + size post) as Hsz.
  { unfold data. rewrite !size_app. lia. }
  destruct (Z.gtb_spec (size pre) (size data)); [lia|].
  unfold seek, bind, get_st, put_st. change (readableBuffer (from_data data)) with data.
  destruct (Z.gtb_spec (size pre) (size data)); [lia|].
  change (set_offset (size pre) (from_data data)) with (mkBinaryStream data None (size pre)).
  pose proof (read_document enc limits doc Hmax Hok (mkBinaryStream data None (size pre)) post) as R.
  assert (rest (mkBinaryStream data None (size pre)) = enc_document enc doc ++ post) as Hr
    by apply offset_rest_app.
  rewrite R; [|by split|rewrite Hr, is_bytes_app; split; [by eapply enc_document_bytes|done]|done].
  unfold skip, set_offset, offset. cbn [offset_ writableBuffer view_ data_].
  do 3 f_equal. lia.
Qed.

(** An NBT buffer parsed in the encoding it was written in gives the
    document back, wherever it starts and whatever follows; the metadata
    reports where it ended. *)
Theorem nbt_parse_roundtrip pre post doc enc limits :
  0 <= maxTotalValues limits -> document_ok enc limits doc -> is_bytes pre -> is_bytes post ->
  exists k, writeUncompressed doc enc limits = Ok k /\
    parseAs (pre ++ k ++ post) enc (size pre) limits =
    Ok (mkParse doc enc (mkMetadata (pre ++ k ++ post) (size pre) (size k)) None).
Proof.
  intros Hmax Hok Hpre Hpost. exists (enc_document enc doc).
  split; [by apply writeUncompressed_ok|]. by apply parseAs_at.
Qed.

Definition small_doc : NbtDocument := mkDocument "r" (nbt_compound [("x", nbt_int 7)]).

Lemma small_doc_ok enc : document_ok enc default_limits small_doc.
Proof. destruct enc; cbn [document_ok root doc_name small_doc type nbt_compound]; by nbt_check. Qed.

Lemma nbt_parse_roundtrip_witness :
  exists k, writeUncompressed small_doc LittleVarInt default_limits = Ok k /\
    parseAs ([1; 2] ++ k ++ [3]) LittleVarInt (size [1; 2]) default_limits =
    Ok (mkParse small_doc LittleVarInt
          (mkMetadata ([1; 2] ++ k ++ [3]) (size [1; 2]) (size k)) None).
Proof.
  apply nbt_parse_roundtrip; [by vm_compute|apply small_doc_ok| |];
    by apply (bool_decide_unpack _).
Defined.

Lemma writeLevelDat_ok doc v limits :
  document_ok LittleEndian limits doc -> size (enc_document LittleEndian doc) < 2 ^ 32 ->
  writeLevelDat doc v limits =
  Ok ((le_encode 4 v ++ le_encode 4 (size (enc_document LittleEndian doc)))
      ++ enc_document LittleEndian doc).
Proof.
  intros Hok Hsz. unfold writeLevelDat. rewrite writeUncompressed_ok by done. cbn [rbind].
  set (k := enc_document LittleEndian doc) in *. pose proof (size_nonneg k).
  destruct (Z.gtb_spec (size k) (2 ^ 32 - 1)); [lia|].
  rewrite to_u32_id by (unfold is_u; lia).
  assert (appends (writeU32LE v ;;; writeU32LE (size k) ;;; writeBytes k)
    (le_encode 4 v ++ le_encode 4 (size k) ++ k) tt) as ->.
  { eapply appends_bind; [apply appends_U32LE|].
    eapply appends_bind; [apply appends_U32LE|apply appends_bytes]. }
  cbn [append set_data data_ writableBuffer empty_stream view_ app]. by rewrite app_assoc.
Qed.

Lemma size_zero_bytes v : is_u 32 v -> exists b0 b1 b2 b3, le_encode 4 v = [b0; b1; b2; b3] /\
  ((b1 =? 0) && (b2 =? 0) && (b3 =? 0) = (v <? 256)).
Proof.
  intros Hv. exists (v mod 256), (v / 256 mod 256), (v / 256 / 256 mod 256),
    (v / 256 / 256 / 256 mod 256). split; [done|]. unfold is_u in Hv.
  rewrite !Z.div_div by lia. change (256 * 256) with 65536. change (65536 * 256) with 16777216.
  change (2 ^ 32) with 4294967296 in Hv.
  pose proof (Z.div_mod v 256 ltac:(lia)). pose proof (Z.mod_pos_bound v 256 ltac:(lia)).
  pose proof (Z.div_mod v 65536 ltac:(lia)). pose proof (Z.mod_pos_bound v 65536 ltac:(lia)).
  pose proof (Z.div_mod v 16777216 ltac:(lia)). pose proof (Z.mod_pos_bound v 16777216 ltac:(lia)).
  pose proof (Z.div_mod (v / 256) 256 ltac:(lia)) as E1. rewrite Z.div_div in E1 by lia.
  change (256 * 256) with 65536 in E1.
  pose proof (Z.mod_pos_bound (v / 256) 256 ltac:(lia)).
  pose proof (Z.div_mod (v / 65536) 256 ltac:(lia)) as E2. rewrite Z.div_div in E2 by lia.
  change (65536 * 256) with 16777216 in E2.
  pose proof (Z.mod_pos_bound (v / 65536) 256 ltac:(lia)).
  rewrite (Z.mod_small (v / 16777216)) by lia.
  destruct (Z.ltb_spec v 256).
  - replace (v / 256) with 0 in * by lia. replace (v / 65536) with 0 in * by lia.
    by replace (v / 16777216) with 0 in * by lia.
  - destruct (Z.eqb_spec ((v / 256) mod 256) 0); [|done].
    destruct (Z.eqb_spec ((v / 65536) mod 256) 0); [|done].
    destruct (Z.eqb_spec (v / 16777216) 0); [lia|done].
Qed.

(** A level.dat written with a version below 256 is parsed back to the
    same document, version and length; with a larger version the file is
    written without complaint but cannot be parsed, because the header is
    recognised by the three zero bytes after the first. *)
Theorem levelDat_roundtrip doc v limits :
  0 <= maxTotalValues limits -> document_ok LittleEndian limits doc ->
  size (enc_document LittleEndian doc) < 2 ^ 32 -> is_u 32 v ->
  exists data, writeLevelDat doc v limits = Ok data /\
    parseLevelDat data limits =
    if v <? 256
    then Ok (mkParse doc LittleEndian (mkMetadata data 8 (size data - 8))
               (Some (mkHeader v (size data - 8))))
    else Throw (BedrockNbtError "input does not have a Bedrock level.dat header").
Proof.
  intros Hmax Hok Hsz Hv. set (k := enc_document LittleEndian doc) in *.
  pose proof (size_nonneg k) as Hk. set (h := le_encode 4 v ++ le_encode 4 (size k)).
  exists (h ++ k). split; [by apply writeLevelDat_ok|].
  assert (size h = 8) as Hh by done.
  assert (size (h ++ k) = 8 + size k) as Hs by (rewrite size_app; lia).
  assert (hasBedrockLevelHeader (h ++ k) = Ok (v <? 256)) as Hhas.
  { unfold hasBedrockLevelHeader. destruct (Z.geb_spec (size (h ++ k)) 4); [|lia].
    unfold h. destruct (size_zero_bytes v Hv) as (b0 & b1 & b2 & b3 & -> & <-).
    cbn [app].
    assert (forall l, vec_at (b0 :: b1 :: b2 :: b3 :: l) 1 = Ok b1) as -> by done.
    assert (forall l, vec_at (b0 :: b1 :: b2 :: b3 :: l) 2 = Ok b2) as -> by done.
    assert (forall l, vec_at (b0 :: b1 :: b2 :: b3 :: l) 3 = Ok b3) as -> by done.
    cbn [rbind]. by destruct (b1 =? 0), (b2 =? 0). }
  unfold parseLevelDat. rewrite Hhas. cbn [rbind].
  destruct (v <? 256); cbn [negb]; [|done].
  assert (readLevelHeader (h ++ k) = Ok (mkHeader v (size k))) as ->.
  { unfold readLevelHeader. destruct (Z.ltb_spec (size (h ++ k)) 8); [lia|].
    rewrite (load_le32_ok _ 0 (le_encode 4 v)); [|apply le_encode_bytes| |done].
    2:{ exists [], (le_encode 4 (size k) ++ k). unfold h. by rewrite <-app_assoc. }
    cbn [rbind].
    rewrite (load_le32_ok _ 4 (le_encode 4 (size k))); [|apply le_encode_bytes| |done].
    2:{ exists (le_encode 4 v), k. unfold h. by rewrite <-app_assoc. }
    rewrite !le_decode_encode. unfold is_u in Hv.
    by rewrite (Z.mod_small v), (Z.mod_small (size k)) by lia. }
  cbn [rbind payloadLength]. rewrite Hs.
  replace (8 + size k - 8) with (size k) by lia. rewrite Z.eqb_refl. cbn [negb].
  pose proof (parseAs_at h [] doc LittleEndian limits Hmax Hok
    ltac:(unfold h; rewrite is_bytes_app; split; apply le_encode_bytes) ltac:(constructor)) as E.
  cbv zeta in E. rewrite app_nil_r, Hh in E. fold k in E. rewrite E. cbn [rbind metadata md_size].
  by rewrite Z.eqb_refl.
Qed.

Lemma levelDat_roundtrip_witness :
  exists data, writeLevelDat small_doc 300 default_limits = Ok data /\
    parseLevelDat data default_limits =
    Throw (BedrockNbtError "input does not have a Bedrock level.dat header").
Proof.
  apply (levelDat_roundtrip small_doc 300 default_limits);
    [by vm_compute|apply small_doc_ok|reflexivity|by apply (bool_decide_unpack _)].
Defined.
