(* ===== verification/PalettedStorage.v ===== *)
(** * Paletted storages (src/src/world/BedrockChunk.cpp, PalettedStorage)

    4096 palette indices packed into 32-bit words.  [cell] is the abstract
    view: the index stored for a block, whatever the packing; every operation
    is characterised by what it does to the cells. *)

From S2P Require Import Prelude MachineInt Leb128 Endian BinaryStream StreamState.

(** ** Bit fields of a 32-bit word *)

Definition u32_not (x : Z) : Z := Z.lnot x mod 2 ^ 32.
Definition field (w off mask : Z) : Z := Z.land (Z.shiftr w off) mask.
Definition set_field (w off mask v : Z) : Z :=
  Z.lor (Z.land w (u32_not (to_u32 (Z.shiftl mask off))))
        (to_u32 (Z.shiftl (Z.land v mask) off)).

Lemma ones_testbit b n : 0 <= b -> 0 <= n -> Z.testbit (2 ^ b - 1) n = (n <? b).
Proof.
  intros Hb Hn. rewrite Z.sub_1_r, <-Z.ones_equiv.
  destruct (Z.ltb_spec n b); [by rewrite Z.ones_spec_low by lia|by rewrite Z.ones_spec_high by lia].
Qed.

Lemma to_u32_testbit x n : 0 <= n -> Z.testbit (to_u32 x) n = (n <? 32) && Z.testbit x n.
Proof.
  intros Hn. unfold to_u32. destruct (Z.ltb_spec n 32).
  - by rewrite Z.mod_pow2_bits_low by lia.
  - by rewrite Z.mod_pow2_bits_high by lia.
Qed.

Lemma set_field_testbit w off b v n :
  0 <= b -> 0 <= off -> off + b <= 32 -> is_u 32 w -> 0 <= n ->
  Z.testbit (set_field w off (2 ^ b - 1) v) n =
  if (off <=? n) && (n <? off + b) then Z.testbit v (n - off) else Z.testbit w n.
Proof.
  intros Hb Hoff Hfit Hw Hn. unfold set_field, u32_not.
  rewrite Z.lor_spec, Z.land_spec. change (Z.lnot ?x mod 2 ^ 32) with (to_u32 (Z.lnot x)).
  rewrite !to_u32_testbit, Z.lnot_spec, to_u32_testbit, !Z.shiftl_spec, Z.land_spec by done.
  destruct (Z.leb_spec off n).
  - rewrite !ones_testbit by lia. destruct (Z.ltb_spec (n - off) b), (Z.ltb_spec n (off + b));
      try lia; cbn [andb negb].
    + rewrite (proj2 (Z.ltb_lt n 32)) by lia. cbn [andb negb].
      by rewrite !andb_false_r, andb_true_r.
    + rewrite !andb_false_r. cbn [negb]. rewrite andb_true_r, orb_false_r.
      destruct (Z.ltb_spec n 32); [by rewrite andb_true_r|].
      by rewrite (testbit_high w 32 n).
  - rewrite (Z.testbit_neg_r (2 ^ b - 1)) by lia. cbn [andb].
    rewrite (proj2 (Z.ltb_lt n 32)) by lia. rewrite !andb_false_r. cbn [negb andb].
    by rewrite andb_true_r, orb_false_r.
Qed.

Lemma field_testbit w off b n :
  0 <= b -> 0 <= off -> 0 <= n ->
  Z.testbit (field w off (2 ^ b - 1)) n = Z.testbit w (n + off) && (n <? b).
Proof.
  intros. unfold field. rewrite Z.land_spec, Z.shiftr_spec by done. by rewrite ones_testbit.
Qed.

Lemma field_set_same w off b v :
  0 <= b -> 0 <= off -> off + b <= 32 -> is_u 32 w ->
  field (set_field w off (2 ^ b - 1) v) off (2 ^ b - 1) = Z.land v (2 ^ b - 1).
Proof.
  intros. apply Z.bits_inj'. intros n Hn.
  rewrite field_testbit, set_field_testbit, Z.land_spec, ones_testbit by (done || lia).
  destruct (Z.ltb_spec n b); [|by rewrite !andb_false_r].
  rewrite (proj2 (Z.leb_le _ _)), (proj2 (Z.ltb_lt _ _)) by lia. cbn [andb].
  by replace (n + off - off) with n by lia.
Qed.

Lemma field_set_other w off off' b v :
  0 <= b -> 0 <= off -> off + b <= 32 -> is_u 32 w -> 0 <= off' ->
  off' + b <= off \/ off + b <= off' ->
  field (set_field w off (2 ^ b - 1) v) off' (2 ^ b - 1) = field w off' (2 ^ b - 1).
Proof.
  intros. apply Z.bits_inj'. intros n Hn.
  rewrite !field_testbit, set_field_testbit by (done || lia).
  destruct (Z.ltb_spec n b); [|by rewrite !andb_false_r].
  by destruct (Z.leb_spec off (n + off')), (Z.ltb_spec (n + off') (off + b)); try lia.
Qed.

Lemma land_u32 x y : is_u 32 x -> 0 <= y -> is_u 32 (Z.land x y).
Proof.
  intros Hx Hy. unfold is_u in *. split; [apply Z.land_nonneg; lia|].
  rewrite <-(Z.mod_small x (2 ^ 32)), <-Z.land_ones, <-Z.land_assoc, (Z.land_comm _ y),
    Z.land_assoc, Z.land_ones by lia. by apply Z.mod_pos_bound.
Qed.

Lemma lor_u32 x y : is_u 32 x -> is_u 32 y -> is_u 32 (Z.lor x y).
Proof.
  intros Hx Hy. unfold is_u in *. split; [apply Z.lor_nonneg; lia|].
  rewrite <-(Z.mod_small x (2 ^ 32)), <-(Z.mod_small y (2 ^ 32)), <-!Z.land_ones, <-Z.land_lor_distr_l,
    Z.land_ones by lia. by apply Z.mod_pos_bound.
Qed.

Lemma set_field_u32 w off mask v : is_u 32 w -> is_u 32 (set_field w off mask v).
Proof.
  intros Hw. apply lor_u32; [|by apply to_u_range]. apply land_u32; [done|].
  by apply Z.mod_pos_bound.
Qed.

Lemma field_range w off b : 0 <= b -> 0 <= field w off (2 ^ b - 1) < 2 ^ b.
Proof. intros. unfold field. rewrite land_ones_mod by done. apply Z.mod_pos_bound. by apply pow2_pos. Qed.

Module PalettedStorage.

Definition StorageSize : Z := 4096.

Definition checkedBitsPerBlock (bitsPerBlock : Z) : result Z :=
  if bitsPerBlock >? 32 then Throw (BedrockChunkError "bitsPerBlock must be <= 32")
  else Ok (if bitsPerBlock =? 0 then 1 else bitsPerBlock).

Record PalettedStorage := mkStorage {
  bitsPerBlock_ : Z;
  blocksPerWord_ : Z;
  wordsCount_ : Z;
  mask_ : Z;
  words_ : list Z
}.

Definition make (bits : Z) : result PalettedStorage :=
  let! bitsPerBlock := checkedBitsPerBlock bits in
  let blocksPerWord := 32 / bitsPerBlock in
  let wordsCount := (StorageSize + blocksPerWord - 1) / blocksPerWord in
  let mask := if bitsPerBlock >=? 32 then 0xffffffff
              else to_u32 (to_u32 (Z.shiftl 1 bitsPerBlock) - 1) in
  Ok (mkStorage bitsPerBlock blocksPerWord wordsCount mask
        (replicate (Z.to_nat wordsCount) 0)).

Definition bitsPerBlock (s : PalettedStorage) : Z := bitsPerBlock_ s.

Definition set_words (w : list Z) (s : PalettedStorage) : PalettedStorage :=
  mkStorage (bitsPerBlock_ s) (blocksPerWord_ s) (wordsCount_ s) (mask_ s) w.

(** [words()] through the mutable reference. *)
Definition on_words {A} (m : M (list Z) A) : M PalettedStorage A := zoom words_ set_words m.

Definition storageIndex (x y z blocksPerWord bitsPerBlock : Z) : Z * Z :=
  let x := Z.land x 0x0f in
  let y := Z.land y 0x0f in
  let z := Z.land z 0x0f in
  let blockIndex := Z.lor (Z.lor (Z.shiftl x 8) (Z.shiftl z 4)) y in
  (blockIndex / blocksPerWord, to_u8 ((blockIndex mod blocksPerWord) * bitsPerBlock)).

Definition get (x y z : Z) (s : PalettedStorage) : result Z :=
  let '(wordIndex, offset) := storageIndex x y z (blocksPerWord_ s) (bitsPerBlock_ s) in
  if wordIndex >=? size (words_ s) then
    Throw (BedrockChunkError "PalettedStorage get out of range")
  else
    let! w := vec_at (words_ s) wordIndex in
    Ok (Z.land (Z.shiftr w offset) (mask_ s)).

Definition set (x y z value : Z) : M PalettedStorage unit :=
  let* s := get_st in
  let '(wordIndex, offset) := storageIndex x y z (blocksPerWord_ s) (bitsPerBlock_ s) in
  if wordIndex >=? size (words_ s) then
    raise (BedrockChunkError "PalettedStorage set out of range")
  else
    let* w := lift (vec_at (words_ s) wordIndex) in
    let w := Z.land w (u32_not (to_u32 (Z.shiftl (mask_ s) offset))) in
    let w := Z.lor w (to_u32 (Z.shiftl (Z.land value (mask_ s)) offset)) in
    let* words := lift (vec_set (words_ s) wordIndex w) in
    put_st (set_words words s).

(** [for x in 0..15, y in 0..15, z in 0..15]. *)
Definition for_xyz {S} (body : Z -> Z -> Z -> M S unit) : M S unit :=
  for_each (seqZ 0 16) (fun x => for_each (seqZ 0 16) (fun y => for_each (seqZ 0 16) (fun z =>
    body x y z))).

Definition resize (newBitsPerBlock : Z) (s : PalettedStorage) : result PalettedStorage :=
  let! next := make newBitsPerBlock in
  exec (for_xyz (fun x y z => let* v := lift (get x y z s) in set x y z v)) next.

Definition read_word (i : Z) : M (PalettedStorage * BinaryStream) unit :=
  let* word := on_stream readU32LE in
  on_object (on_words (
    let* words := get_st in
    let* words := lift (vec_set words i word) in
    put_st words)).

Definition read : M (PalettedStorage * BinaryStream) unit :=
  let* s := get_object in
  for_each (seqZ 0 (size (words_ s))) read_word.

Definition write (s : PalettedStorage) : M BinaryStream unit :=
  for_each (words_ s) (fun word => writeU32LE word).

(** ** Invariant and cells *)

Record wf (s : PalettedStorage) : Prop := mkWf {
  wf_bits : 1 <= bitsPerBlock_ s <= 32;
  wf_bpw : blocksPerWord_ s = 32 / bitsPerBlock_ s;
  wf_count : wordsCount_ s = (StorageSize + blocksPerWord_ s - 1) / blocksPerWord_ s;
  wf_mask : mask_ s = 2 ^ bitsPerBlock_ s - 1;
  wf_size : size (words_ s) = wordsCount_ s;
  wf_words : Forall (is_u 32) (words_ s)
}.

(** The palette index of block [i] ([0 <= i < 4096]). *)
Definition cell (s : PalettedStorage) (i : Z) : Z :=
  field (nth (Z.to_nat (i / blocksPerWord_ s)) (words_ s) 0)
    ((i mod blocksPerWord_ s) * bitsPerBlock_ s) (mask_ s).

(** The number of a block in the storage. *)
Definition block_index (x y z : Z) : Z := (x mod 16) * 256 + (z mod 16) * 16 + y mod 16.

Lemma block_index_range x y z : 0 <= block_index x y z < StorageSize.
Proof.
  unfold block_index, StorageSize. pose proof (Z.mod_pos_bound x 16 ltac:(lia)).
  pose proof (Z.mod_pos_bound y 16 ltac:(lia)). pose proof (Z.mod_pos_bound z 16 ltac:(lia)). lia.
Qed.

Lemma block_index_inj x y z x' y' z' :
  block_index x y z = block_index x' y' z' <->
  x mod 16 = x' mod 16 /\ y mod 16 = y' mod 16 /\ z mod 16 = z' mod 16.
Proof.
  unfold block_index. pose proof (Z.mod_pos_bound x 16 ltac:(lia)).
  pose proof (Z.mod_pos_bound y 16 ltac:(lia)). pose proof (Z.mod_pos_bound z 16 ltac:(lia)).
  pose proof (Z.mod_pos_bound x' 16 ltac:(lia)).
  pose proof (Z.mod_pos_bound y' 16 ltac:(lia)). pose proof (Z.mod_pos_bound z' 16 ltac:(lia)). lia.
Qed.

Lemma block_index_bits x y z :
  Z.lor (Z.lor (Z.shiftl (Z.land x 0x0f) 8) (Z.shiftl (Z.land z 0x0f) 4)) (Z.land y 0x0f) =
  block_index x y z.
Proof.
  rewrite !land_15. unfold block_index.
  pose proof (Z.mod_pos_bound x 16 ltac:(lia)).
  pose proof (Z.mod_pos_bound y 16 ltac:(lia)). pose proof (Z.mod_pos_bound z 16 ltac:(lia)).
  rewrite Z.lor_comm, (Z.lor_comm (Z.shiftl _ 8)), Z.lor_assoc.
  rewrite (lor_shiftl_add (y mod 16) (z mod 16) 4) by lia. change (2 ^ 4) with 16.
  rewrite (lor_shiftl_add _ (x mod 16) 8) by lia. change (2 ^ 8) with 256. lia.
Qed.

Section Wf.
Context (s : PalettedStorage) (Hs : wf s).

Lemma bpw_bounds : 1 <= blocksPerWord_ s <= 32 /\ blocksPerWord_ s * bitsPerBlock_ s <= 32.
Proof.
  destruct Hs as [Hb Hw _ _ _ _]. rewrite Hw.
  pose proof (Z.mul_div_le 32 (bitsPerBlock_ s) ltac:(lia)).
  assert (1 <= 32 / bitsPerBlock_ s) by (apply Z.div_le_lower_bound; lia).
  assert (32 / bitsPerBlock_ s <= 32) by (apply Z.div_le_upper_bound; lia). lia.
Qed.

Lemma slot_bounds i :
  0 <= i < StorageSize ->
  0 <= i / blocksPerWord_ s < size (words_ s) /\
  0 <= (i mod blocksPerWord_ s) * bitsPerBlock_ s /\
  (i mod blocksPerWord_ s) * bitsPerBlock_ s + bitsPerBlock_ s <= 32.
Proof.
  intros Hi. destruct bpw_bounds as [H1 H2]. destruct Hs as [Hb _ Hc _ Hsz _].
  pose proof (Z.mod_pos_bound i (blocksPerWord_ s) ltac:(lia)). rewrite Hsz, Hc.
  split_and!; [apply Z.div_pos; lia| |nia|nia].
  apply Z.div_lt_upper_bound; [lia|].
  pose proof (Z.div_mod (StorageSize + blocksPerWord_ s - 1) (blocksPerWord_ s) ltac:(lia)).
  pose proof (Z.mod_pos_bound (StorageSize + blocksPerWord_ s - 1) (blocksPerWord_ s) ltac:(lia)). lia.
Qed.

Lemma storageIndex_ok x y z :
  storageIndex x y z (blocksPerWord_ s) (bitsPerBlock_ s) =
  (block_index x y z / blocksPerWord_ s,
   (block_index x y z mod blocksPerWord_ s) * bitsPerBlock_ s).
Proof.
  unfold storageIndex. rewrite block_index_bits. f_equal.
  destruct (slot_bounds _ (block_index_range x y z)) as (_ & ? & ?).
  pose proof (wf_bits _ Hs).
  apply to_u8_id. unfold is_u. change (2 ^ 8) with 256. lia.
Qed.

Lemma words_nth_ok j : 0 <= j < size (words_ s) ->
  vec_at (words_ s) j = Ok (nth (Z.to_nat j) (words_ s) 0) /\
  is_u 32 (nth (Z.to_nat j) (words_ s) 0).
Proof.
  intros Hj. destruct (vec_at_ok (words_ s) j Hj) as (w & -> & Hw).
  rewrite (nth_lookup_Some _ _ _ _ Hw). split; [done|].
  by eapply Forall_lookup_1; [apply (wf_words _ Hs)|].
Qed.

Lemma get_ok x y z : get x y z s = Ok (cell s (block_index x y z)).
Proof.
  unfold get. rewrite storageIndex_ok.
  destruct (slot_bounds _ (block_index_range x y z)) as (Hw & _ & _).
  destruct (Z.geb_spec (block_index x y z / blocksPerWord_ s) (size (words_ s))); [lia|].
  by destruct (words_nth_ok _ Hw) as [-> _].
Qed.

Lemma cell_range i : 0 <= cell s i < 2 ^ bitsPerBlock_ s.
Proof.
  unfold cell. rewrite (wf_mask _ Hs). apply field_range. pose proof (wf_bits _ Hs). lia.
Qed.

(** What [set] does to the cells. *)
Lemma set_ok x y z v :
  exists s', set x y z v s = (Ok tt, s') /\ wf s' /\ bitsPerBlock_ s' = bitsPerBlock_ s /\
    forall i, 0 <= i < StorageSize ->
      cell s' i = if i =? block_index x y z then Z.land v (mask_ s) else cell s i.
Proof.
  unfold set, bind, get_st, lift, put_st, raise. rewrite storageIndex_ok.
  set (b := block_index x y z). pose proof (block_index_range x y z) as Hb. fold b in Hb.
  destruct (slot_bounds b Hb) as (Hw & Ho & Hf).
  destruct (Z.geb_spec (b / blocksPerWord_ s) (size (words_ s))); [lia|].
  destruct (words_nth_ok _ Hw) as [-> Hw32]. cbn [rbind].
  set (j := b / blocksPerWord_ s) in *. set (off := (b mod blocksPerWord_ s) * bitsPerBlock_ s) in *.
  set (w := nth (Z.to_nat j) (words_ s) 0) in *.
  change (Z.lor _ _) with (set_field w off (mask_ s) v). unfold vec_set.
  rewrite (proj2 (Z.leb_le _ _)), (proj2 (Z.ltb_lt _ _)) by lia. cbn [andb].
  set (s' := set_words _ s). exists s'. split; [done|].
  assert (forall k, 0 <= k < size (words_ s) ->
    nth (Z.to_nat k) (words_ s') 0 =
    if k =? j then set_field w off (mask_ s) v else nth (Z.to_nat k) (words_ s) 0) as Hnth.
  { intros k Hk. unfold s'. cbn [words_ set_words]. rewrite !nth_lookup.
    unfold size in *. destruct (Z.eqb_spec k j) as [->|Hne].
    - by rewrite list_lookup_insert_eq by lia.
    - by rewrite list_lookup_insert_ne by lia. }
  pose proof (wf_bits _ Hs) as Hbits. destruct bpw_bounds as [Hbpw _].
  split_and!; [|done|].
  - destruct Hs as [? ? ? Hm Hsz Hall]. split; try done; unfold s'; cbn [words_ set_words].
    + unfold size in *. by rewrite length_insert.
    + apply Forall_insert; [done|]. rewrite Hm in *. by apply set_field_u32.
  - intros i Hi. destruct (slot_bounds i Hi) as (Hwi & Hoi & Hfi). unfold cell.
    change (blocksPerWord_ s') with (blocksPerWord_ s).
    change (bitsPerBlock_ s') with (bitsPerBlock_ s). change (mask_ s') with (mask_ s).
    rewrite Hnth by done. rewrite (wf_mask _ Hs).
    pose proof (Z.div_mod i (blocksPerWord_ s) ltac:(lia)) as Ei.
    pose proof (Z.div_mod b (blocksPerWord_ s) ltac:(lia)) as Eb.
    destruct (Z.eqb_spec i b) as [->|Hne].
    + rewrite Z.eqb_refl. apply field_set_same; [lia|done|lia|done].
    + destruct (Z.eqb_spec (i / blocksPerWord_ s) j) as [Ej|]; [|done].
      rewrite field_set_other; [by rewrite Ej|lia|done|lia|done|done|].
      assert (i mod blocksPerWord_ s <> b mod blocksPerWord_ s) by (intros E; apply Hne; unfold j in Ej; rewrite Ei, Eb, Ej, E; done).
      unfold off. nia.
Qed.

End Wf.

(** ** Construction *)

Lemma make_ok b :
  0 <= b <= 32 -> exists s, make b = Ok s /\ wf s /\ bitsPerBlock_ s = Z.max 1 b /\
    forall i, cell s i = 0.
Proof.
  intros Hb. unfold make, checkedBitsPerBlock. destruct (Z.gtb_spec b 32); [lia|]. cbn [rbind].
  eexists. split; [done|].
  set (b' := if b =? 0 then 1 else b).
  assert (b' = Z.max 1 b) as Hb' by (unfold b'; destruct (Z.eqb_spec b 0); lia).
  assert (1 <= 32 / b') by (apply Z.div_le_lower_bound; lia).
  assert (0 <= (StorageSize + 32 / b' - 1) / (32 / b')) by (apply Z.div_pos; unfold StorageSize; lia).
  split_and!; [|done|].
  - split; cbn [bitsPerBlock_ blocksPerWord_ wordsCount_ mask_ words_]; try done; [lia| | |].
    + destruct (Z.geb_spec b' 32) as [|Hlt].
      * by replace b' with 32 by lia.
      * assert (2 ^ 0 <= 2 ^ b' < 2 ^ 32) as Hp
          by (split; [apply Z.pow_le_mono_r|apply Z.pow_lt_mono_r]; lia).
        change (2 ^ 0) with 1 in Hp. rewrite shiftl_mul, Z.mul_1_l by lia.
        rewrite (to_u32_id (2 ^ b')) by (unfold is_u; lia). apply to_u32_id. unfold is_u. lia.
    + unfold size. rewrite length_replicate. lia.
    + by apply Forall_replicate.
  - intros i. unfold cell. cbn [words_]. rewrite nth_lookup.
    destruct (replicate _ 0 !! _) as [w|] eqn:E; cbn [default];
      [apply lookup_replicate_1 in E as [-> _]|]; unfold field; by rewrite Z.shiftr_0_l.
Qed.

Lemma make_throws b :
  32 < b -> make b = Throw (BedrockChunkError "bitsPerBlock must be <= 32").
Proof. intros. unfold make, checkedBitsPerBlock. by destruct (Z.gtb_spec b 32); [|lia]. Qed.

Lemma make_safe b : 0 <= b -> safe (make b).
Proof.
  intros Hb. destruct (decide (b <= 32)).
  - by destruct (make_ok b) as (s & -> & _).
  - by rewrite make_throws by lia.
Qed.

(** ** The loops over all the blocks *)

Definition all_xyz : list (Z * Z * Z) :=
  x ← seqZ 0 16; y ← seqZ 0 16; (fun z => (x, y, z)) <$> seqZ 0 16.

Lemma for_xyz_flat {S} (body : Z -> Z -> Z -> M S unit) s :
  for_xyz body s = for_each all_xyz (fun p => body p.1.1 p.1.2 p.2) s.
Proof.
  unfold for_xyz, all_xyz. rewrite for_each_bind. apply for_each_ext. intros x t _.
  rewrite for_each_bind. apply for_each_ext. intros y u _. by rewrite for_each_fmap.
Qed.

Definition index_of (p : Z * Z * Z) : Z := block_index p.1.1 p.1.2 p.2.

Lemma all_xyz_covers i : 0 <= i < StorageSize -> exists p, p ∈ all_xyz /\ index_of p = i.
Proof.
  unfold StorageSize. intros Hi. exists (i / 256, i mod 16, i / 16 mod 16). split.
  - unfold all_xyz. pose proof (Z.mod_pos_bound i 16 ltac:(lia)).
    pose proof (Z.mod_pos_bound (i / 16) 16 ltac:(lia)).
    assert (0 <= i / 256 < 16) by (split; [apply Z.div_pos|apply Z.div_lt_upper_bound]; lia).
    apply list_elem_of_bind. exists (i / 256). split; [|apply elem_of_seqZ; lia].
    apply list_elem_of_bind. exists (i mod 16). split; [|apply elem_of_seqZ; lia].
    apply list_elem_of_fmap. exists (i / 16 mod 16). split; [done|]. apply elem_of_seqZ. lia.
  - unfold index_of, block_index. cbn [fst snd]. rewrite !Z.mod_mod by lia.
    assert (i / 256 < 16) by (apply Z.div_lt_upper_bound; lia).
    rewrite (Z.mod_small (i / 256)) by (split; [apply Z.div_pos|]; lia).
    pose proof (Z.div_mod i 16 ltac:(lia)). pose proof (Z.div_mod (i / 16) 16 ltac:(lia)) as E.
    rewrite Z.div_div in E by lia. change (16 * 16) with 256 in E. lia.
Qed.

(** A loop that sets every block sets every cell. *)
Lemma for_xyz_cells (body : Z -> Z -> Z -> M PalettedStorage unit) (g : Z -> Z) s :
  wf s ->
  (forall x y z t, body x y z t = set x y z (g (block_index x y z)) t) ->
  exists s', for_xyz body s = (Ok tt, s') /\ wf s' /\ bitsPerBlock_ s' = bitsPerBlock_ s /\
    forall i, 0 <= i < StorageSize -> cell s' i = Z.land (g i) (2 ^ bitsPerBlock_ s - 1).
Proof.
  intros Hs Hbody. rewrite for_xyz_flat.
  set (J := fun (l : list (Z * Z * Z)) (t : PalettedStorage) =>
    wf t /\ bitsPerBlock_ t = bitsPerBlock_ s /\
    exists done_, all_xyz = done_ ++ l /\
      forall p, p ∈ done_ -> cell t (index_of p) = Z.land (g (index_of p)) (2 ^ bitsPerBlock_ s - 1)).
  destruct (for_each_ok (fun p : Z * Z * Z => body p.1.1 p.1.2 p.2) J all_xyz s)
    as (s' & E & Hw & Hb & d & Hd & Hc).
  - intros p l t (Ht & Hbt & d & Hd & Hc). rewrite Hbody.
    destruct (set_ok t Ht p.1.1 p.1.2 p.2 (g (index_of p))) as (t' & E & Ht' & Hb' & Hc').
    exists t'. split; [done|]. split_and!; [done|congruence|].
    exists (d ++ [p]). split; [by rewrite Hd, <-app_assoc|].
    intros q Hq. rewrite Hc' by apply block_index_range.
    destruct (Z.eqb_spec (index_of q) (block_index p.1.1 p.1.2 p.2)) as [Eq|Hne].
    + rewrite (wf_mask _ Ht), Hbt. by rewrite Eq.
    + apply elem_of_app in Hq as [Hq|Hq]; [by apply Hc|].
      apply list_elem_of_singleton in Hq as ->. done.
  - split_and!; [done|done|]. exists []. split; [done|]. intros p Hp. by apply not_elem_of_nil in Hp.
  - exists s'. split_and!; [done|done|done|]. intros i Hi.
    destruct (all_xyz_covers i Hi) as (p & Hp & <-). apply Hc. by rewrite Hd, app_nil_r in Hp.
Qed.

Lemma resize_cells b s :
  wf s -> 0 <= b <= 32 ->
  exists s', resize b s = Ok s' /\ wf s' /\ bitsPerBlock_ s' = Z.max 1 b /\
    forall i, 0 <= i < StorageSize -> cell s' i = Z.land (cell s i) (2 ^ Z.max 1 b - 1).
Proof.
  intros Hs Hb. unfold resize. destruct (make_ok b Hb) as (n & -> & Hn & Hnb & _). cbn [rbind].
  destruct (for_xyz_cells (fun x y z => let* v := lift (get x y z s) in set x y z v)
    (cell s) n Hn) as (s' & E & Hs' & Hb' & Hc).
  { intros x y z t. unfold bind, lift. by rewrite get_ok. }
  exists s'. unfold exec. rewrite E. split_and!; [done|done|congruence|]. by rewrite <-Hnb.
Qed.

Lemma land_fits v b : 0 <= b -> 0 <= v < 2 ^ b -> Z.land v (2 ^ b - 1) = v.
Proof. intros. rewrite land_ones_mod by done. by apply Z.mod_small. Qed.

(** Growing keeps every cell. *)
Lemma resize_grow b s :
  wf s -> bitsPerBlock_ s <= b <= 32 ->
  exists s', resize b s = Ok s' /\ wf s' /\ bitsPerBlock_ s' = b /\
    forall i, 0 <= i < StorageSize -> cell s' i = cell s i.
Proof.
  intros Hs Hb. pose proof (wf_bits _ Hs).
  destruct (resize_cells b s Hs ltac:(lia)) as (s' & E & Hs' & Hb' & Hc).
  rewrite Z.max_r in * by lia. exists s'. split_and!; [done..|].
  intros i Hi. rewrite Hc by done. apply land_fits; [lia|].
  pose proof (cell_range s Hs i). pose proof (Z.pow_le_mono_r 2 _ b ltac:(lia) (proj1 Hb)). lia.
Qed.

(** ** Serialised form *)

Definition enc_words (ws : list Z) : bytes := ws ≫= le_encode 4.

Lemma enc_words_size ws : size (enc_words ws) = 4 * size ws.
Proof.
  induction ws as [|w ws IH]; [done|]. unfold enc_words in *. rewrite bind_cons, size_app, size_cons, IH.
  rewrite le_encode_size. lia.
Qed.

Lemma enc_words_bytes ws : is_bytes (enc_words ws).
Proof.
  induction ws as [|w ws IH]; [constructor|]. unfold enc_words in *. rewrite bind_cons.
  apply is_bytes_app. split; [apply le_encode_bytes|done].
Qed.

Lemma write_appends s : oappends (write s) (enc_words (words_ s)) tt.
Proof. apply oappends_for_each. intros w _. apply oappends_appends, appends_U32LE. Qed.

Lemma set_words_same s : set_words (words_ s) s = s.
Proof. by destruct s. Qed.

Lemma read_words_ok ws : forall pre junk s,
  words_ s = pre ++ junk -> size junk = size ws -> Forall (is_u 32) ws ->
  preads (for_each (seqZ (size pre) (size ws)) read_word) (enc_words ws) s tt
    (set_words (pre ++ ws) s).
Proof.
  induction ws as [|w ws IH]; intros pre junk s Hj Hsz Hws.
  - apply size_zero_inv in Hsz as ->. cbn [seqZ for_each]. rewrite <-Hj, set_words_same.
    apply preads_ret.
  - destruct junk as [|j junk]; [pose proof (size_nonneg ws); rewrite size_cons, size_nil in Hsz; lia|].
    rewrite !size_cons in *. pose proof (size_nonneg ws).
    apply Forall_cons_1 in Hws as [Hw Hws].
    rewrite seqZ_cons by lia. cbn [for_each]. unfold enc_words. rewrite bind_cons.
    eapply (preads_bind _ _ _ _ _ _ (set_words (pre ++ w :: junk) s)).
    + unfold read_word. rewrite <-(app_nil_r (le_encode 4 w)).
      eapply preads_bind; [apply preads_stream; by apply reads_U32LE|].
      apply preads_object. unfold on_words, zoom, bind, get_st, lift, put_st.
      by rewrite Hj, vec_set_app.
    + replace (Z.succ (size pre)) with (size (pre ++ [w])) by (rewrite size_app, size_cons, size_nil; lia).
      replace (Z.pred (size ws + 1)) with (size ws) by lia.
      replace (set_words (pre ++ w :: ws) s)
        with (set_words ((pre ++ [w]) ++ ws) (set_words (pre ++ w :: junk) s))
        by (by rewrite <-app_assoc).
      apply IH with junk; [by rewrite <-app_assoc|lia|done].
Qed.

Lemma read_preads s ws :
  size ws = size (words_ s) -> Forall (is_u 32) ws ->
  preads read (enc_words ws) s tt (set_words ws s).
Proof.
  intros Hsz Hws. eapply preads_bind0; [apply preads_get|]. rewrite <-Hsz.
  by apply (read_words_ok ws [] (words_ s) s).
Qed.

Lemma wf_set_words s ws :
  wf s -> size ws = size (words_ s) -> Forall (is_u 32) ws -> wf (set_words ws s).
Proof. intros [] Hsz Hws. split; cbn [set_words bitsPerBlock_ blocksPerWord_ wordsCount_ mask_ words_]; congruence || done. Qed.

Lemma read_psafe b :
  psafe read (fun s => wf s /\ bitsPerBlock_ s = b) (fun _ s => wf s /\ bitsPerBlock_ s = b).
Proof.
  eapply psafe_bind; [apply psafe_get|]. cbv beta. intros s0.
  set (n := size (words_ s0)).
  apply (psafe_weaken _
    (fun s => (wf s /\ bitsPerBlock_ s = b /\ size (words_ s) = n) /\ Forall (fun i => 0 <= i < n) (seqZ 0 n))
    _ (fun _ s => (wf s /\ bitsPerBlock_ s = b /\ size (words_ s) = n) /\ Forall (fun i => 0 <= i < n) [])).
  2:{ intros s (-> & ? & ?). split; [done|]. apply Forall_forall. intros i Hi%list_elem_of_In%elem_of_seqZ. lia. }
  2:{ intros a s [(? & ? & _) _]. done. }
  apply (psafe_for_each _ _ (fun l s => (wf s /\ bitsPerBlock_ s = b /\ size (words_ s) = n) /\
    Forall (fun i => 0 <= i < n) l)).
  intros i l. unfold read_word.
  eapply (psafe_bind _ _ _ (fun w s => is_u 32 w /\ (wf s /\ bitsPerBlock_ s = b /\ size (words_ s) = n) /\
    0 <= i < n /\ Forall (fun i => 0 <= i < n) l)).
  - apply (psafe_stream _ 4); [lia|apply steps_readU32LE|].
    intros t s v s' (? & Hi) Hs Hb E. apply Forall_cons_1 in Hi as [? ?].
    split; [by eapply readU32LE_range|done].
  - intros w. apply psafe_object. intros s (Hw & (Hs & Hb & Hn) & Hi & Hl).
    unfold runs_safe, on_words, zoom, bind, get_st, lift, put_st, vec_set. rewrite Hn.
    rewrite (proj2 (Z.leb_le _ _)), (proj2 (Z.ltb_lt _ _)) by lia. cbn [andb].
    assert (size (<[Z.to_nat i:=w]> (words_ s)) = size (words_ s)) as E
      by (unfold size; by rewrite length_insert).
    split_and!; [|done|by rewrite <-Hn|done].
    apply wf_set_words; [done|done|]. apply Forall_insert; [apply (wf_words _ Hs)|done].
Qed.

Lemma read_psafe_wf : psafe read wf (fun _ => wf).
Proof.
  intros t s Ht Hs Hb. eapply runs_safe_mono; [by apply (read_psafe (bitsPerBlock_ t))|].
  by intros a p ((? & _) & ?).
Qed.

(** ** Properties *)

(** A storage is an array of 4096 cells of [bitsPerBlock] bits, addressed
    by the low four bits of each coordinate: [set] changes exactly the
    addressed cell (to the value's low bits) and [get] returns it, for every
    number of bits per block from 1 to 32. *)
Theorem storage_set_get s x y z v :
  wf s -> exists s', set x y z v s = (Ok tt, s') /\ wf s' /\
    forall x' y' z', get x' y' z' s' =
      if decide (x' mod 16 = x mod 16 /\ y' mod 16 = y mod 16 /\ z' mod 16 = z mod 16)
      then Ok (v mod 2 ^ bitsPerBlock_ s) else get x' y' z' s.
Proof.
  intros Hs. destruct (set_ok s Hs x y z v) as (s' & E & Hs' & Hb & Hc).
  exists s'. split_and!; [done|done|]. intros x' y' z'.
  rewrite !get_ok, Hc by (done || apply block_index_range).
  pose proof (wf_bits _ Hs). rewrite (wf_mask _ Hs), land_ones_mod by lia.
  destruct (Z.eqb_spec (block_index x' y' z') (block_index x y z)) as [Ei|Ei];
    rewrite block_index_inj in Ei; by case_decide.
Qed.

Lemma storage_set_get_witness :
  exists s s', make 5 = Ok s /\ set 1 2 3 77 s = (Ok tt, s') /\ get 17 2 3 s' = Ok 13.
Proof.
  destruct (make_ok 5 ltac:(lia)) as (s & E & Hs & Hb & _).
  destruct (storage_set_get s 1 2 3 77 Hs) as (s' & E' & _ & Hg).
  exists s, s'. split; [exact E|]. split; [exact E'|]. rewrite Hg, Hb. reflexivity.
Defined.

(** Resizing a storage to [b] bits (0 counting as 1) keeps the low [b]
    bits of every cell: nothing is lost when the width grows. *)
Theorem storage_resize s b :
  wf s -> 0 <= b <= 32 ->
  exists s', resize b s = Ok s' /\ wf s' /\ bitsPerBlock_ s' = Z.max 1 b /\
    (forall x y z v, get x y z s = Ok v -> get x y z s' = Ok (v mod 2 ^ Z.max 1 b)) /\
    (bitsPerBlock_ s <= b -> forall x y z, get x y z s' = get x y z s).
Proof.
  intros Hs Hb. destruct (resize_cells b s Hs Hb) as (s' & E & Hs' & Hb' & Hc).
  exists s'. split_and!; [done..| |].
  - intros x y z v. rewrite !get_ok, Hc by (done || apply block_index_range). intros [= <-].
    by rewrite land_ones_mod by lia.
  - intros Hle x y z. rewrite !get_ok, Hc by (done || apply block_index_range).
    pose proof (wf_bits _ Hs). rewrite Z.max_r by lia. rewrite land_fits; [done|lia|].
    pose proof (cell_range s Hs (block_index x y z)).
    pose proof (Z.pow_le_mono_r 2 _ b ltac:(lia) Hle). lia.
Qed.

Lemma storage_resize_witness :
  exists s s', make 4 = Ok s /\ resize 7 s = Ok s' /\ get 3 3 3 s' = get 3 3 3 s.
Proof.
  destruct (make_ok 4 ltac:(lia)) as (s & E & Hs & Hb & _).
  destruct (storage_resize s 7 Hs ltac:(lia)) as (s' & E' & _ & _ & _ & Hg).
  exists s, s'. split; [exact E|]. split; [exact E'|]. apply Hg. rewrite Hb. cbn. lia.
Defined.

End PalettedStorage.
