(* ===== verification/SubChunk.v ===== *)
(** * Sub-chunks (src/src/world/BedrockChunk.cpp, BedrockSubChunk)

    A 16x16x16 section of the world: per layer a palette of block states and
    a [PalettedStorage] of indices into it, with the number of uses of each
    palette entry.  Decoding runs on the pair of the object and the stream. *)

From S2P Require Import Prelude MachineInt ZigZag Leb128 Endian BinaryStream GamePacket Nbt PalettedStorage StreamState.

Module BedrockSubChunk.

Inductive ChunkStorageType := LocalPersistence | NetworkPersistence | Runtime.

#[export] Instance storage_type_eq_dec : EqDecision ChunkStorageType.
Proof. solve_decision. Defined.

Definition persistenceNbtEncoding (format : ChunkStorageType) : BedrockNbtEncoding :=
  match format with LocalPersistence => LittleEndian | _ => LittleVarInt end.

Record BedrockBlockState := mkBlockState {
  stateId : Z;
  name : string;
  count : Z;
  states : NbtValue;
  version : Z;
  hasPersistentData : bool
}.

Record BedrockBlockStateDescriptor := mkDescriptor {
  d_name : string;
  d_states : NbtValue;
  d_version : Z
}.

(** The callbacks: empty [std::function]s are [None]. *)
Definition BedrockBlockStateResolver : Type :=
  option (string -> NbtValue -> Z -> result (option Z)).
Definition BedrockBlockStateProvider : Type :=
  option (Z -> result (option BedrockBlockStateDescriptor)).

Record BedrockSubChunk := mkSubChunk {
  y_ : Z;
  subChunkVersion_ : Z;
  airStateId_ : Z;
  palettes_ : list (list BedrockBlockState);
  blocks_ : list PalettedStorage.PalettedStorage;
  blockLight_ : PalettedStorage.PalettedStorage;
  skyLight_ : PalettedStorage.PalettedStorage
}.

(** ** Field updates *)

Definition set_palettes p s :=
  mkSubChunk (y_ s) (subChunkVersion_ s) (airStateId_ s) p (blocks_ s) (blockLight_ s) (skyLight_ s).
Definition set_blocks b s :=
  mkSubChunk (y_ s) (subChunkVersion_ s) (airStateId_ s) (palettes_ s) b (blockLight_ s) (skyLight_ s).
Definition set_version v s :=
  mkSubChunk (y_ s) v (airStateId_ s) (palettes_ s) (blocks_ s) (blockLight_ s) (skyLight_ s).
Definition set_y y s :=
  mkSubChunk y (subChunkVersion_ s) (airStateId_ s) (palettes_ s) (blocks_ s) (blockLight_ s) (skyLight_ s).
Definition set_air a s :=
  mkSubChunk (y_ s) (subChunkVersion_ s) a (palettes_ s) (blocks_ s) (blockLight_ s) (skyLight_ s).
Definition set_blockLight l s :=
  mkSubChunk (y_ s) (subChunkVersion_ s) (airStateId_ s) (palettes_ s) (blocks_ s) l (skyLight_ s).
Definition set_skyLight l s :=
  mkSubChunk (y_ s) (subChunkVersion_ s) (airStateId_ s) (palettes_ s) (blocks_ s) (blockLight_ s) l.
Definition set_count (c : Z) (e : BedrockBlockState) : BedrockBlockState :=
  mkBlockState (stateId e) (name e) c (states e) (version e) (hasPersistentData e).

(** [palettes_[layer]] and [blocks_[layer]] as references. *)
Definition palette_at (layer : Z) : M BedrockSubChunk (list BedrockBlockState) :=
  let* s := get_st in lift (vec_at (palettes_ s) layer).
Definition put_palette (layer : Z) (p : list BedrockBlockState) : M BedrockSubChunk unit :=
  let* s := get_st in
  let* ps := lift (vec_set (palettes_ s) layer p) in
  put_st (set_palettes ps s).
Definition block_at (layer : Z) : M BedrockSubChunk PalettedStorage.PalettedStorage :=
  let* s := get_st in lift (vec_at (blocks_ s) layer).
Definition put_block (layer : Z) (b : PalettedStorage.PalettedStorage) : M BedrockSubChunk unit :=
  let* s := get_st in
  let* bs := lift (vec_set (blocks_ s) layer b) in
  put_st (set_blocks bs s).

(** [container[i].f(...)] for a member function that may throw half-way. *)
Definition at_index {S T A} (proj : S -> list T) (upd : list T -> S -> S) (i : Z) (m : M T A)
    : M S A :=
  fun s =>
    match vec_at (proj s) i with
    | Throw e => (Throw e, s)
    | Ok t =>
        match m t with
        | (r, t') =>
            match vec_set (proj s) i t' with
            | Ok l => (r, upd l s)
            | Throw e => (Throw e, s)
            end
        end
    end.

Definition on_palette {A} (layer : Z) (m : M (list BedrockBlockState) A) : M BedrockSubChunk A :=
  at_index palettes_ set_palettes layer m.
Definition on_block {A} (layer : Z) (m : M PalettedStorage.PalettedStorage A)
    : M BedrockSubChunk A :=
  at_index blocks_ set_blocks layer m.

(** [blocks_[layer].read(stream)]. *)
Definition on_block_stream {A} (layer : Z)
    (m : M (PalettedStorage.PalettedStorage * BinaryStream) A)
    : M (BedrockSubChunk * BinaryStream) A :=
  fun p =>
    match vec_at (blocks_ p.1) layer with
    | Throw e => (Throw e, p)
    | Ok b =>
        match m (b, p.2) with
        | (r, (b', str)) =>
            match vec_set (blocks_ p.1) layer b' with
            | Ok l => (r, (set_blocks l p.1, str))
            | Throw e => (Throw e, p)
            end
        end
    end.

(** ** Palette bookkeeping *)

Fixpoint neededBits_loop (fuel : nat) (bits value : Z) : Z :=
  match fuel with
  | O => bits
  | S fuel' =>
      if value =? 0 then bits else neededBits_loop fuel' (to_u8 (bits + 1)) (Z.shiftr value 1)
  end.

Definition neededBits (value : Z) : Z :=
  if value =? 0 then 0 else neededBits_loop 32 0 value.

Definition incrementPalette (s : PalettedStorage.PalettedStorage)
    : M (list BedrockBlockState) unit :=
  for_each (seqZ 0 PalettedStorage.StorageSize) (fun i =>
    let wordIndex := i / PalettedStorage.blocksPerWord_ s in
    let offset :=
      to_u8 ((i mod PalettedStorage.blocksPerWord_ s) * PalettedStorage.bitsPerBlock_ s) in
    let* w := lift (vec_at (PalettedStorage.words_ s) wordIndex) in
    let paletteIndex := Z.land (Z.shiftr w offset) (PalettedStorage.mask_ s) in
    let* palette := get_st in
    if paletteIndex >=? size palette then
      raise (BedrockChunkError "paletted storage index exceeds palette size")
    else
      let* e := lift (vec_at palette paletteIndex) in
      let* palette := lift (vec_set palette paletteIndex (set_count (to_u32 (count e + 1)) e)) in
      put_st palette).

Definition air_name (id air : Z) : string := if id =? air then "minecraft:air" else "".

Definition push_layer (bits : Z) : M BedrockSubChunk unit :=
  (let* s := get_st in put_st (set_palettes (palettes_ s ++ [[]]) s)) ;;;
  let* storage := lift (PalettedStorage.make bits) in
  let* s := get_st in
  put_st (set_blocks (blocks_ s ++ [storage]) s).

(** [while (palettes_.size() <= layer) { body }]. *)
Fixpoint while_short (fuel : nat) (layer : Z) (body : M BedrockSubChunk unit)
    : M BedrockSubChunk unit :=
  let* s := get_st in
  if size (palettes_ s) <=? layer then
    match fuel with
    | O => raise OutOfFuel
    | S fuel' => body ;;; while_short fuel' layer body
    end
  else ret tt.

Definition layer_fuel (layer : Z) : nat := Z.to_nat (layer + 1).

Definition addToPalette (layer id cnt : Z) : M BedrockSubChunk unit :=
  while_short (layer_fuel layer) layer (push_layer 4) ;;;
  let* s := get_st in
  let* palette := palette_at layer in
  let palette := palette ++
    [mkBlockState id (air_name id (airStateId_ s)) cnt (nbt_compound []) 0 false] in
  put_palette layer palette ;;;
  let minBits := neededBits (to_u32 (size palette - 1)) in
  let* block := block_at layer in
  if minBits >? PalettedStorage.bitsPerBlock block then
    let* block := lift (PalettedStorage.resize minBits block) in
    put_block layer block
  else ret tt.

Definition ensureLayer (layer : Z) : M BedrockSubChunk unit :=
  while_short (layer_fuel layer) layer (
    push_layer 4 ;;;
    let* s := get_st in
    addToPalette (to_u8 (size (palettes_ s) - 1)) (airStateId_ s) PalettedStorage.StorageSize).

(** ** Construction *)

Definition make (y subChunkVersion : Z) : result BedrockSubChunk :=
  let! light := PalettedStorage.make 4 in
  Ok (mkSubChunk y subChunkVersion 0 [] [] light light).

Definition createAir (y airStateId : Z) : result BedrockSubChunk :=
  let! out := make y 9 in
  exec (
    (let* s := get_st in put_st (set_air airStateId s)) ;;;
    ensureLayer 0 ;;;
    put_palette 0 [] ;;;
    let* storage := lift (PalettedStorage.make 1) in
    put_block 0 storage ;;;
    let* palette := palette_at 0 in
    put_palette 0 (palette ++
      [mkBlockState airStateId "minecraft:air" PalettedStorage.StorageSize (nbt_compound []) 0 false]))
    out.

(** ** Block states *)

Definition layerCount (s : BedrockSubChunk) : Z := size (blocks_ s).
Definition hasLayer (layer : Z) (s : BedrockSubChunk) : bool := layer <? size (blocks_ s).

Definition getBlockStateId (layer x y z : Z) (s : BedrockSubChunk) : result Z :=
  if layer >=? size (blocks_ s) then Ok (airStateId_ s)
  else
    let! block := vec_at (blocks_ s) layer in
    let! paletteIndex := PalettedStorage.get x y z block in
    let! palette := vec_at (palettes_ s) layer in
    if paletteIndex >=? size palette then
      Throw (BedrockChunkError "subchunk palette index out of range")
    else
      let! entry := vec_at palette paletteIndex in
      Ok (stateId entry).

(** The first palette entry with the given state. *)
Fixpoint find_state (id : Z) (i : Z) (palette : list BedrockBlockState) : option Z :=
  match palette with
  | [] => None
  | e :: palette' => if stateId e =? id then Some i else find_state id (i + 1) palette'
  end.

Definition setBlockStateId (layer x y z id : Z) : M BedrockSubChunk unit :=
  ensureLayer layer ;;;
  let* block := block_at layer in
  let* currentIndex := lift (PalettedStorage.get x y z block) in
  let* palette := palette_at layer in
  let* current := lift (vec_at palette currentIndex) in
  if stateId current =? id then ret tt
  else
    let* palette := lift (if count current >? 0
      then vec_set palette currentIndex (set_count (count current - 1) current)
      else Ok palette) in
    put_palette layer palette ;;;
    match find_state id 0 palette with
    | Some i =>
        let* entry := lift (vec_at palette i) in
        let* palette := lift (vec_set palette i
          (set_count (to_u32 (Z.max (count entry) 0 + 1)) entry)) in
        put_palette layer palette ;;;
        on_block layer (PalettedStorage.set x y z i)
    | None =>
        addToPalette layer id 1 ;;;
        let* palette := palette_at layer in
        on_block layer (PalettedStorage.set x y z (to_u32 (size palette - 1)))
    end.

Definition getBlockLight (x y z : Z) (s : BedrockSubChunk) : result Z :=
  let! v := PalettedStorage.get x y z (blockLight_ s) in Ok (to_u8 v).
Definition setBlockLight (x y z value : Z) : M BedrockSubChunk unit :=
  zoom blockLight_ set_blockLight (PalettedStorage.set x y z (Z.land value 0x0f)).
Definition getSkyLight (x y z : Z) (s : BedrockSubChunk) : result Z :=
  let! v := PalettedStorage.get x y z (skyLight_ s) in Ok (to_u8 v).
Definition setSkyLight (x y z value : Z) : M BedrockSubChunk unit :=
  zoom skyLight_ set_skyLight (PalettedStorage.set x y z (Z.land value 0x0f)).

Definition getPaletteEntry (layer x y z : Z) (s : BedrockSubChunk) : result BedrockBlockState :=
  if layer >=? size (blocks_ s) then Throw (BedrockChunkError "palette layer out of range")
  else
    let! block := vec_at (blocks_ s) layer in
    let! paletteIndex := PalettedStorage.get x y z block in
    let! palette := vec_at (palettes_ s) layer in
    if paletteIndex >=? size palette then
      Throw (BedrockChunkError "subchunk palette index out of range")
    else vec_at palette paletteIndex.

Definition palette (layer : Z) (s : BedrockSubChunk) : result (list BedrockBlockState) :=
  if layer >=? size (palettes_ s) then Throw (BedrockChunkError "palette layer out of range")
  else vec_at (palettes_ s) layer.

Definition setPaletteEntryDescriptor (layer paletteIndex : Z)
    (descriptor : BedrockBlockStateDescriptor) : M BedrockSubChunk unit :=
  let* s := get_st in
  let outOfRange := BedrockChunkError "palette entry out of range" in
  if layer >=? size (palettes_ s) then raise outOfRange
  else
    let* palette := palette_at layer in
    if paletteIndex >=? size palette then raise outOfRange
    else if bool_decide (d_name descriptor = "") then
      raise (BedrockChunkError "persistent block-state name must not be empty")
    else if bool_decide (type (d_states descriptor) <> TagCompound) then
      raise (BedrockChunkError "persistent block-state states must be an NBT compound")
    else
      let* entry := lift (vec_at palette paletteIndex) in
      let* palette := lift (vec_set palette paletteIndex
        (mkBlockState (stateId entry) (d_name descriptor) (count entry) (d_states descriptor)
           (d_version descriptor) true)) in
      put_palette layer palette.

(** ** Compaction *)

Definition compactedPalette (layer : Z) (s : BedrockSubChunk) : result (list BedrockBlockState) :=
  if layer >=? size (palettes_ s) then Ok []
  else
    let! p := vec_at (palettes_ s) layer in
    Ok (filter (fun e => 0 < count e) p).

Definition getPalette (layer : Z) (s : BedrockSubChunk) : result (list BedrockBlockState) :=
  compactedPalette layer s.

Definition isCompactable (layer : Z) (s : BedrockSubChunk) : result bool :=
  if layer >=? size (palettes_ s) then Ok false
  else
    let! p := vec_at (palettes_ s) layer in
    let used := size (filter (fun e => 0 < count e) p) in
    Ok (to_u32 used <? size p).

(** The new palette and the map from old to new indices. *)
Fixpoint compact_loop (old newPalette : list BedrockBlockState) (remap : list Z)
    : list BedrockBlockState * list Z :=
  match old with
  | [] => (newPalette, remap)
  | e :: old' =>
      let newPalette := if count e >? 0 then newPalette ++ [e] else newPalette in
      let r := to_u32 (if size newPalette =? 0 then 0 else size newPalette - 1) in
      compact_loop old' newPalette (remap ++ [r])
  end.

Definition compact (layer : Z) : M BedrockSubChunk unit :=
  let* s := get_st in
  let* c := lift (isCompactable layer s) in
  if negb c then ret tt
  else
    let* old := palette_at layer in
    let '(newPalette, remap) := compact_loop old [] [] in
    let* newStorage := lift (PalettedStorage.make
      (Z.max 1 (neededBits (to_u32 (size newPalette - 1))))) in
    let* block := block_at layer in
    let* newStorage := lift (exec (PalettedStorage.for_xyz (fun x y z =>
      let* oldIndex := lift (PalettedStorage.get x y z block) in
      let* v := lift (if oldIndex <? size remap then vec_at remap oldIndex else Ok 0) in
      PalettedStorage.set x y z v)) newStorage) in
    put_palette layer newPalette ;;;
    put_block layer newStorage.

(** ** Decoding *)

(** [std::to_string] of a signed number. *)
Definition to_string_signed (z : Z) : string :=
  if z <? 0 then "-" +:+ to_string (- z) else to_string z.

Definition readZigZagVarInt : M BinaryStream Z :=
  let* value := readVarUInt in ret (unzigzag_neg 32 value).
Definition readRuntimeSingleStateId : M BinaryStream Z :=
  let* value := readVarUInt in ret (to_i32 (Z.shiftr value 1)).
Definition writeZigZagVarInt (value : Z) : M BinaryStream unit :=
  writeVarUInt (zigzag_shift 32 value).

(** One entry of a runtime palette. *)
Definition read_runtime_entry (layer : Z) : M (BedrockSubChunk * BinaryStream) unit :=
  let* id := on_stream readZigZagVarInt in
  let* s := get_object in
  on_object (on_palette layer (let* p := get_st in
    put_st (p ++ [mkBlockState id (air_name id (airStateId_ s)) 0 (nbt_compound []) 0 false]))).

(** The checks and fields of one persistent palette entry. *)
Definition persistent_entry (air : Z) (resolver : BedrockBlockStateResolver)
    (document : NbtDocument) : result BedrockBlockState :=
  if bool_decide (type (root document) <> TagCompound) then
    Throw (BedrockChunkError "persistent block-state NBT root must be a compound")
  else
    let nameTag := Nbt.find (root document) "name" in
    let statesTag := Nbt.find (root document) "states" in
    let versionTag := Nbt.find (root document) "version" in
    match nameTag with
    | None => Throw (BedrockChunkError "persistent block-state NBT is missing string name")
    | Some nameTag =>
        if bool_decide (type nameTag <> TagString) then
          Throw (BedrockChunkError "persistent block-state NBT is missing string name")
        else if match statesTag with
                | Some t => bool_decide (type t <> TagCompound)
                | None => false
                end then
          Throw (BedrockChunkError "persistent block-state states must be an NBT compound")
        else
          match versionTag with
          | None => Throw (BedrockChunkError "persistent block-state NBT is missing int version")
          | Some versionTag =>
              if bool_decide (type versionTag <> TagInt)
                 || (integerValue versionTag <? - 2 ^ 31)
                 || (integerValue versionTag >? 2 ^ 31 - 1) then
                Throw (BedrockChunkError "persistent block-state NBT is missing int version")
              else
                let states := match statesTag with None => nbt_compound [] | Some t => t end in
                let version := to_i32 (integerValue versionTag) in
                let! resolved := match resolver with
                                 | None => Ok None
                                 | Some f => f (stringValue nameTag) states version
                                 end in
                let id := match resolved with Some id => id | None => air end in
                Ok (mkBlockState id (stringValue nameTag) 0 states version true)
          end
    end.

Definition read_persistent_entry (layer : Z) (format : ChunkStorageType)
    (resolver : BedrockBlockStateResolver) (i : Z) : M (BedrockSubChunk * BinaryStream) unit :=
  let* document := catch
    (on_stream (Nbt.read (persistenceNbtEncoding format) default_limits))
    (fun error => raise (BedrockChunkError
      ("invalid persistent block-state NBT at palette index " +:+ to_string i +:+ ": "
       +:+ what error))) in
  let* s := get_object in
  let* entry := lift (persistent_entry (airStateId_ s) resolver document) in
  on_object (on_palette layer (let* p := get_st in put_st (p ++ [entry]))).

Definition loadPalettedBlocks (layer bitsPerBlock : Z) (format : ChunkStorageType)
    (resolver : BedrockBlockStateResolver) : M (BedrockSubChunk * BinaryStream) unit :=
  if bool_decide (format = Runtime) && (bitsPerBlock =? 0) then
    on_object (
      while_short (layer_fuel layer) layer (push_layer 1) ;;;
      put_palette layer [] ;;;
      let* storage := lift (PalettedStorage.make 1) in
      put_block layer storage) ;;;
    let* id := on_stream readRuntimeSingleStateId in
    on_object (addToPalette layer id PalettedStorage.StorageSize)
  else
    on_object (
      while_short (layer_fuel layer) layer (push_layer (Z.max 1 bitsPerBlock)) ;;;
      let* storage := lift (PalettedStorage.make (Z.max 1 bitsPerBlock)) in
      put_block layer storage) ;;;
    on_block_stream layer PalettedStorage.read ;;;
    let* paletteSizeValue := on_stream (if bool_decide (format = LocalPersistence)
                                        then readU32LE else readZigZagVarInt) in
    if (paletteSizeValue <? 1) || (paletteSizeValue >? PalettedStorage.StorageSize) then
      raise (BedrockChunkError
        ("invalid subchunk palette size: " +:+ to_string_signed paletteSizeValue))
    else
      let paletteSize := to_u32 paletteSizeValue in
      if (bitsPerBlock <? 32) && (paletteSize >? to_u32 (Z.shiftl 1 (Z.max 1 bitsPerBlock))) then
        raise (BedrockChunkError "subchunk palette does not fit bitsPerBlock")
      else
        on_object (put_palette layer []) ;;;
        for_each (seqZ 0 paletteSize) (fun i =>
          if bool_decide (format = Runtime) then read_runtime_entry layer
          else read_persistent_entry layer format resolver i) ;;;
        on_object (let* block := block_at layer in on_palette layer (incrementPalette block)).

(** The header: the version and the number of layers. *)
Definition read_header : M (BedrockSubChunk * BinaryStream) Z :=
  let* version := on_stream readU8 in
  on_object (let* s := get_st in put_st (set_version version s)) ;;;
  if version =? 1 then
    on_object (let* s := get_st in put_st (set_version 8 s)) ;;;
    ret 1
  else if (version =? 8) || (version =? 9) then
    let* storageCount := on_stream readU8 in
    (if version >=? 9 then
      let* y := on_stream readU8 in
      on_object (let* s := get_st in put_st (set_y (to_i8 y) s))
    else ret tt) ;;;
    ret storageCount
  else raise (BedrockChunkError ("unsupported sub chunk version: " +:+ to_string version)).

Definition read_layer (format : ChunkStorageType) (resolver : BedrockBlockStateResolver)
    (layer : Z) : M (BedrockSubChunk * BinaryStream) unit :=
  let* paletteType := on_stream readU8 in
  let runtimeIds := negb (Z.land paletteType 1 =? 0) in
  if negb runtimeIds && bool_decide (format = Runtime) then
    raise (BedrockChunkError "expected runtime palette while decoding subchunk")
  else
    let bitsPerBlock := to_u8 (Z.shiftr paletteType 1) in
    loadPalettedBlocks layer bitsPerBlock format resolver.

Definition decodeFrom (format : ChunkStorageType) (airStateId : Z)
    (resolver : BedrockBlockStateResolver) : M (BedrockSubChunk * BinaryStream) unit :=
  on_object (let* s := get_st in put_st (set_blocks [] (set_palettes [] (set_air airStateId s)))) ;;;
  let* storageCount := read_header in
  if (storageCount =? 0) || (storageCount >? 2) then
    raise (BedrockChunkError ("expected storage count 1 or 2, got " +:+ to_string storageCount))
  else for_each (seqZ 0 storageCount) (read_layer format resolver).

Definition decode (format : ChunkStorageType) (data : bytes) (airStateId : Z)
    (resolver : BedrockBlockStateResolver) : result BedrockSubChunk :=
  let! sub := make 0 9 in
  match decodeFrom format airStateId resolver (sub, from_data data) with
  | (Ok _, (sub, _)) => Ok sub
  | (Throw e, _) => Throw e
  end.

(** ** Encoding *)

Definition persistent_descriptor (provider : BedrockBlockStateProvider) (block : BedrockBlockState)
    : result BedrockBlockStateDescriptor :=
  if hasPersistentData block then Ok (mkDescriptor (name block) (states block) (version block))
  else
    match provider with
    | Some f =>
        let! supplied := f (stateId block) in
        match supplied with
        | Some d => Ok d
        | None => Throw (BedrockChunkError
            ("no persistent descriptor for block state " +:+ to_string_signed (stateId block)))
        end
    | None => Throw (BedrockChunkError
        ("persistent subchunk encoding requires block-state descriptors; missing state "
         +:+ to_string_signed (stateId block)))
    end.

Definition write_persistent_entry (format : ChunkStorageType)
    (provider : BedrockBlockStateProvider) (block : BedrockBlockState) : M BinaryStream unit :=
  let* descriptor := lift (persistent_descriptor provider block) in
  if bool_decide (d_name descriptor = "") then
    raise (BedrockChunkError "persistent block-state name must not be empty")
  else if bool_decide (type (d_states descriptor) <> TagCompound) then
    raise (BedrockChunkError "persistent block-state states must be an NBT compound")
  else
    Nbt.write (persistenceNbtEncoding format) default_limits
      (mkDocument "" (nbt_compound [("name", nbt_string (d_name descriptor));
        ("states", d_states descriptor); ("version", nbt_int (d_version descriptor))])).

Definition writeStorage (s : BedrockSubChunk) (layer : Z) (format : ChunkStorageType)
    (provider : BedrockBlockStateProvider) : M BinaryStream unit :=
  if (layer >=? size (blocks_ s)) || (layer >=? size (palettes_ s)) then
    raise (BedrockChunkError "writeStorage layer out of range")
  else
    let* p := lift (vec_at (palettes_ s) layer) in
    if (size p =? 0) || (size p >? PalettedStorage.StorageSize) then
      raise (BedrockChunkError "invalid palette size while encoding subchunk")
    else if bool_decide (format = Runtime) && (size p =? 1) then
      writeU8 1 ;;;
      let* e := lift (vec_at p 0) in
      writeZigZagVarInt (stateId e)
    else
      let* block := lift (vec_at (blocks_ s) layer) in
      let paletteType := to_u8 (Z.shiftl (PalettedStorage.bitsPerBlock block) 1) in
      let paletteType := if bool_decide (format = Runtime) then Z.lor paletteType 1
                         else paletteType in
      writeU8 paletteType ;;;
      PalettedStorage.write block ;;;
      (if bool_decide (format = LocalPersistence) then writeU32LE (to_u32 (size p))
       else writeZigZagVarInt (to_i32 (size p))) ;;;
      if bool_decide (format = Runtime) then
        for_each p (fun block => writeZigZagVarInt (stateId block))
      else for_each p (write_persistent_entry format provider).

(** The loop over the layers: its counter is a [uint8_t]. *)
Fixpoint encode_loop (fuel : nat) (layer : Z) (copy : BedrockSubChunk) (format : ChunkStorageType)
    (compactStorage : bool) (provider : BedrockBlockStateProvider) : M BinaryStream unit :=
  if layer <? size (blocks_ copy) then
    match fuel with
    | O => raise OutOfFuel
    | S fuel' =>
        let* copy := lift (if compactStorage then exec (compact layer) copy else Ok copy) in
        writeStorage copy layer format provider ;;;
        encode_loop fuel' (to_u8 (layer + 1)) copy format compactStorage provider
    end
  else ret tt.

Definition encodeTo (fuel : nat) (format : ChunkStorageType) (compactStorage : bool)
    (provider : BedrockBlockStateProvider) (s : BedrockSubChunk) : M BinaryStream unit :=
  writeU8 (subChunkVersion_ s) ;;;
  writeU8 (to_u8 (size (blocks_ s))) ;;;
  (if subChunkVersion_ s >=? 9 then writeU8 (to_u8 (y_ s)) else ret tt) ;;;
  encode_loop fuel 0 s format compactStorage provider.

(** The fuel counts layers: 255 are all that the eight-bit counter can pass. *)
Definition encode (format : ChunkStorageType) (compactStorage : bool)
    (provider : BedrockBlockStateProvider) (s : BedrockSubChunk) : result bytes :=
  match encodeTo 255 format compactStorage provider s empty_stream with
  | (Ok _, stream) => Ok (readableBuffer stream)
  | (Throw e, _) => Throw e
  end.

End BedrockSubChunk.
