(* ===== verification/SubChunkState.v ===== *)
(** * Sub-chunks: the invariant and the block operations

    [sub_ok] says that every stored index names a palette entry and that every
    entry's count is the number of blocks that use it; [state_at] is the
    abstract view, a block state for each layer and block.  The operations of
    SubChunk.v keep the one and are described by the other. *)

From S2P Require Import Prelude MachineInt BinaryStream Nbt PalettedStorage SubChunk.
Import BedrockSubChunk.

Abbreviation Storage := PalettedStorage.PalettedStorage.
Abbreviation cell := PalettedStorage.cell.
Abbreviation block_index := PalettedStorage.block_index.

(** ** Counting uses *)

Definition all_blocks : list Z := seqZ 0 PalettedStorage.StorageSize.

Definition occurrences (f : Z -> Z) (l : list Z) (p : Z) : Z := size (filter (fun i => f i = p) l).

Definition uses (st : Storage) (p : Z) : Z := occurrences (cell st) all_blocks p.

Lemma elem_all_blocks i : i ∈ all_blocks <-> 0 <= i < 4096.
Proof. unfold all_blocks, PalettedStorage.StorageSize. rewrite elem_of_seqZ. lia. Qed.

Lemma occurrences_ext f g l p :
  (forall i, i ∈ l -> f i = g i) -> occurrences f l p = occurrences g l p.
Proof.
  intros H. unfold occurrences. f_equal. induction l as [|i l IH]; [done|].
  rewrite !filter_cons, (H i) by by left. rewrite IH; [done|]. intros j Hj. apply H. by right.
Qed.

Lemma occurrences_app f l k p : occurrences f (l ++ k) p = occurrences f l p + occurrences f k p.
Proof. unfold occurrences. by rewrite list.filter_app, size_app. Qed.

Lemma occurrences_one f i p : occurrences f [i] p = if decide (f i = p) then 1 else 0.
Proof. unfold occurrences. rewrite filter_cons, filter_nil. by case_decide. Qed.

Lemma all_blocks_split j :
  0 <= j < 4096 -> all_blocks = seqZ 0 j ++ [j] ++ seqZ (j + 1) (4095 - j).
Proof.
  intros Hj. unfold all_blocks, PalettedStorage.StorageSize.
  replace 4096 with (j + (4096 - j)) at 1 by lia. rewrite seqZ_app by lia.
  rewrite (seqZ_cons (0 + j)) by lia. cbn [app].
  replace (0 + j) with j by lia. replace (Z.succ j) with (j + 1) by lia.
  by replace (Z.pred (4096 - j)) with (4095 - j) by lia.
Qed.

(** One cell changes. *)
Lemma uses_set st st' j v p :
  0 <= j < 4096 ->
  (forall i, 0 <= i < 4096 -> cell st' i = if i =? j then v else cell st i) ->
  uses st' p = uses st p - (if decide (cell st j = p) then 1 else 0)
               + (if decide (v = p) then 1 else 0).
Proof.
  intros Hj Hc. unfold uses. rewrite (all_blocks_split j) by done.
  rewrite !occurrences_app, !occurrences_one.
  rewrite (occurrences_ext (cell st') (cell st) (seqZ 0 j)).
  2:{ intros i Hi%elem_of_seqZ. rewrite Hc by lia. by destruct (Z.eqb_spec i j); [lia|]. }
  rewrite (occurrences_ext (cell st') (cell st) (seqZ (j + 1) _)).
  2:{ intros i Hi%elem_of_seqZ. rewrite Hc by lia. by destruct (Z.eqb_spec i j); [lia|]. }
  rewrite (Hc j), Z.eqb_refl by lia. lia.
Qed.

Lemma uses_ext st st' p :
  (forall i, 0 <= i < 4096 -> cell st' i = cell st i) -> uses st' p = uses st p.
Proof. intros H. apply occurrences_ext. intros i Hi. by apply H, elem_all_blocks. Qed.

Lemma uses_bounds st p : 0 <= uses st p <= 4096.
Proof.
  split; [apply size_nonneg|]. unfold uses, occurrences.
  pose proof (length_filter (fun i => cell st i = p) all_blocks) as H.
  unfold size. assert (length all_blocks = 4096%nat) as E by done. lia.
Qed.

Lemma uses_pos st i : 0 <= i < 4096 -> 1 <= uses st (cell st i).
Proof.
  intros Hi. unfold uses, occurrences.
  assert (i ∈ filter (fun j => cell st j = cell st i) all_blocks) as H.
  { apply list_elem_of_filter. split; [done|]. by apply elem_all_blocks. }
  destruct (filter _ _) as [|x l]; [by apply not_elem_of_nil in H|].
  rewrite size_cons. pose proof (size_nonneg l). lia.
Qed.

Lemma uses_pos_inv st p : 0 < uses st p -> exists i, 0 <= i < 4096 /\ cell st i = p.
Proof.
  unfold uses, occurrences. intros H.
  destruct (filter (fun i => cell st i = p) all_blocks) as [|x l] eqn:E; [done|].
  assert (x ∈ filter (fun i => cell st i = p) all_blocks) as Hx by (rewrite E; by left).
  apply list_elem_of_filter in Hx as [? ?]. exists x. split; [by apply elem_all_blocks|done].
Qed.

Lemma uses_const st v p :
  (forall i, 0 <= i < 4096 -> cell st i = v) -> uses st p = if decide (v = p) then 4096 else 0.
Proof.
  intros H. unfold uses.
  rewrite (occurrences_ext _ (fun _ => v)) by (intros i Hi; by apply H, elem_all_blocks).
  case_decide as E.
  - assert (forall l, occurrences (fun _ => v) l p = size l) as ->; [|done].
    intros l. unfold occurrences. induction l as [|i l IH]; [done|].
    rewrite filter_cons, decide_True by done. by rewrite !size_cons, IH.
  - assert (forall l, occurrences (fun _ => v) l p = 0) as ->; [|done].
    intros l. unfold occurrences. induction l as [|i l IH]; [done|].
    by rewrite filter_cons, decide_False by done.
Qed.

(** ** The invariant *)

Record layer_wf (pal : list BedrockBlockState) (st : Storage) : Prop := mkLayerWf {
  lw_wf : PalettedStorage.wf st;
  lw_cells : forall i, 0 <= i < 4096 -> cell st i < size pal;
  lw_fits : size pal <= 2 ^ PalettedStorage.bitsPerBlock_ st
}.

Definition counts_ok (pal : list BedrockBlockState) (st : Storage) : Prop :=
  forall p e, pal !! p = Some e -> count e = uses st (Z.of_nat p).

Definition layer_ok pal st : Prop := layer_wf pal st /\ counts_ok pal st.

Record sub_ok (s : BedrockSubChunk) : Prop := mkSubOk {
  so_layers : Forall2 layer_ok (palettes_ s) (blocks_ s);
  so_count : size (palettes_ s) <= 256;
  so_blockLight : PalettedStorage.wf (blockLight_ s) /\ PalettedStorage.bitsPerBlock_ (blockLight_ s) = 4;
  so_skyLight : PalettedStorage.wf (skyLight_ s) /\ PalettedStorage.bitsPerBlock_ (skyLight_ s) = 4
}.

(** ** The abstract view *)

Definition entry_id (pal : list BedrockBlockState) (st : Storage) (i : Z) : Z :=
  match pal !! Z.to_nat (cell st i) with Some e => stateId e | None => 0 end.

Definition state_at (s : BedrockSubChunk) (layer i : Z) : Z :=
  match palettes_ s !! Z.to_nat layer, blocks_ s !! Z.to_nat layer with
  | Some pal, Some st => entry_id pal st i
  | _, _ => airStateId_ s
  end.

Lemma layers_size s : sub_ok s -> size (blocks_ s) = size (palettes_ s).
Proof. intros Hs. unfold size. by rewrite (Forall2_length (so_layers _ Hs)). Qed.

Lemma layer_lookup s layer :
  sub_ok s -> 0 <= layer < size (palettes_ s) ->
  exists pal st, palettes_ s !! Z.to_nat layer = Some pal /\
    blocks_ s !! Z.to_nat layer = Some st /\ layer_ok pal st.
Proof.
  intros Hs Hl. destruct (lookup_lt_is_Some_2 (palettes_ s) (Z.to_nat layer)) as [pal Hp];
    [unfold size in Hl; lia|].
  destruct (Forall2_lookup_l _ _ _ _ _ (so_layers _ Hs) Hp) as (st & Hst & ?). by exists pal, st.
Qed.

Lemma layer_entry pal st i :
  layer_wf pal st -> 0 <= i < 4096 ->
  exists e, vec_at pal (cell st i) = Ok e /\ pal !! Z.to_nat (cell st i) = Some e /\
    entry_id pal st i = stateId e.
Proof.
  intros Hl Hi. pose proof (lw_cells _ _ Hl i Hi).
  pose proof (PalettedStorage.cell_range st (lw_wf _ _ Hl) i).
  destruct (vec_at_ok pal (cell st i)) as (e & He & Hl'); [lia|].
  exists e. unfold entry_id. by rewrite Hl'.
Qed.

Lemma index_range x y z : 0 <= block_index x y z < 4096.
Proof. apply PalettedStorage.block_index_range. Qed.

Lemma getBlockStateId_ok s layer x y z :
  sub_ok s -> 0 <= layer ->
  getBlockStateId layer x y z s = Ok (state_at s layer (block_index x y z)).
Proof.
  intros Hs Hl. unfold getBlockStateId, state_at. rewrite (layers_size s Hs).
  destruct (Z.geb_spec layer (size (palettes_ s))).
  - rewrite (lookup_ge_None_2 (palettes_ s)) by (unfold size in *; lia). done.
  - destruct (layer_lookup s layer Hs ltac:(lia)) as (pal & st & Hp & Hst & Hok).
    rewrite (vec_at_lookup _ _ _ Hl Hst), (vec_at_lookup _ _ _ Hl Hp), Hp, Hst. cbn [rbind].
    rewrite PalettedStorage.get_ok by apply Hok. cbn [rbind].
    destruct (layer_entry pal st _ (proj1 Hok) (index_range x y z)) as (e & -> & _ & ->).
    pose proof (lw_cells _ _ (proj1 Hok) _ (index_range x y z)).
    by destruct (Z.geb_spec (cell st (block_index x y z)) (size pal)); [lia|].
Qed.

(** ** Replacing a layer *)

Definition set_layer (layer : Z) pal st (s : BedrockSubChunk) : BedrockSubChunk :=
  set_blocks (<[Z.to_nat layer := st]> (blocks_ s))
    (set_palettes (<[Z.to_nat layer := pal]> (palettes_ s)) s).

Lemma set_layer_ok layer pal st s :
  sub_ok s -> layer_ok pal st -> sub_ok (set_layer layer pal st s).
Proof.
  intros [H1 H2 H3 H4] Hl. split; cbn [set_layer set_blocks set_palettes palettes_ blocks_]; try done.
  - by apply Forall2_insert.
  - unfold size in *. by rewrite length_insert.
Qed.

Lemma state_at_set_layer layer pal st s l i :
  sub_ok s -> 0 <= layer < size (palettes_ s) -> 0 <= l ->
  state_at (set_layer layer pal st s) l i = if l =? layer then entry_id pal st i else state_at s l i.
Proof.
  intros Hs Hl Hl0. pose proof (layers_size s Hs). unfold state_at, size in *.
  cbn [set_layer set_blocks set_palettes palettes_ blocks_ airStateId_].
  destruct (Z.eqb_spec l layer) as [->|Hne].
  - by rewrite !list_lookup_insert_eq by lia.
  - by rewrite !list_lookup_insert_ne by lia.
Qed.

Lemma size_snoc {A} (l : list A) x : size (l ++ [x]) = size l + 1.
Proof. by rewrite size_app, size_cons, size_nil. Qed.

Lemma size_insert {A} (l : list A) i x : size (<[i := x]> l) = size l.
Proof. unfold size. by rewrite length_insert. Qed.

Lemma vec_set_ok {A} (l : list A) i x : 0 <= i < size l -> vec_set l i x = Ok (<[Z.to_nat i := x]> l).
Proof.
  intros Hi. unfold vec_set. by rewrite (proj2 (Z.leb_le _ _)), (proj2 (Z.ltb_lt _ _)) by lia.
Qed.

Lemma put_palette_ok layer pal s :
  0 <= layer < size (palettes_ s) ->
  put_palette layer pal s = (Ok tt, set_palettes (<[Z.to_nat layer := pal]> (palettes_ s)) s).
Proof. intros Hl. unfold put_palette, bind, get_st, lift, put_st. by rewrite vec_set_ok. Qed.

Lemma put_block_ok layer st s :
  0 <= layer < size (blocks_ s) ->
  put_block layer st s = (Ok tt, set_blocks (<[Z.to_nat layer := st]> (blocks_ s)) s).
Proof. intros Hl. unfold put_block, bind, get_st, lift, put_st. by rewrite vec_set_ok. Qed.

Lemma palette_at_ok layer pal s :
  0 <= layer -> palettes_ s !! Z.to_nat layer = Some pal -> palette_at layer s = (Ok pal, s).
Proof. intros ? H. unfold palette_at, bind, get_st, lift. by rewrite (vec_at_lookup _ _ _ ltac:(done) H). Qed.

Lemma block_at_ok layer st s :
  0 <= layer -> blocks_ s !! Z.to_nat layer = Some st -> block_at layer s = (Ok st, s).
Proof. intros ? H. unfold block_at, bind, get_st, lift. by rewrite (vec_at_lookup _ _ _ ltac:(done) H). Qed.

Lemma on_block_ok layer m st st' s :
  0 <= layer -> blocks_ s !! Z.to_nat layer = Some st -> m st = (Ok tt, st') ->
  on_block layer m s = (Ok tt, set_blocks (<[Z.to_nat layer := st']> (blocks_ s)) s).
Proof.
  intros Hl H Hm. unfold on_block, at_index. rewrite (vec_at_lookup _ _ _ Hl H), Hm.
  apply lookup_lt_Some in H. by rewrite vec_set_ok by (unfold size; lia).
Qed.

(** ** Bits *)

Lemma neededBits_loop_ok fuel bits v :
  0 < v < 2 ^ Z.of_nat fuel -> 0 <= bits -> bits + Z.log2 v + 1 < 256 ->
  neededBits_loop fuel bits v = bits + Z.log2 v + 1.
Proof.
  revert bits v. induction fuel as [|fuel IH]; intros bits v Hv Hb Hlt.
  { change (2 ^ Z.of_nat 0) with 1 in Hv. lia. }
  cbn [neededBits_loop]. rewrite (proj2 (Z.eqb_neq v 0)) by lia.
  pose proof (Z.log2_nonneg v).
  rewrite to_u8_id by (unfold is_u; change (2 ^ 8) with 256; lia).
  rewrite shiftr_div by lia. change (2 ^ 1) with 2.
  destruct (decide (v = 1)) as [->|Hne].
  { change (1 / 2) with 0. change (Z.log2 1) with 0. destruct fuel; cbn [neededBits_loop Z.eqb]; lia. }
  rewrite Nat2Z.inj_succ, Z.pow_succ_r in Hv by lia.
  assert (0 < v / 2) by (apply Z.div_str_pos; lia).
  assert (v / 2 < 2 ^ Z.of_nat fuel) by (apply Z.div_lt_upper_bound; lia).
  assert (Z.log2 v = Z.log2 (v / 2) + 1) as E.
  { rewrite <-Z.div2_div in *. destruct (Z.even v) eqn:Ev.
    - rewrite (Z.div2_odd v) at 1. rewrite <-Z.negb_even, Ev. cbn [Z.b2z negb]. rewrite Z.add_0_r.
      rewrite Z.log2_double by lia. lia.
    - rewrite (Z.div2_odd v) at 1. rewrite <-Z.negb_even, Ev. cbn [Z.b2z negb].
      rewrite Z.log2_succ_double by lia. lia. }
  rewrite IH by lia. lia.
Qed.

Lemma neededBits_ok n :
  0 <= n < 2 ^ 32 -> 0 <= neededBits n <= 32 /\ n < 2 ^ neededBits n.
Proof.
  intros Hn. unfold neededBits. destruct (Z.eqb_spec n 0) as [->|]; [done|].
  assert (Z.log2 n < 32) by (apply Z.log2_lt_pow2; lia). pose proof (Z.log2_nonneg n).
  rewrite (neededBits_loop_ok 32) by (change (Z.of_nat 32) with 32; lia).
  split; [lia|]. pose proof (Z.log2_spec n ltac:(lia)).
  replace (0 + Z.log2 n + 1) with (Z.succ (Z.log2 n)) by lia. lia.
Qed.

(** ** New layers and new palette entries *)

(** [addToPalette] on a layer that exists: one more entry, in a storage that is
    wide enough to name it, with the same cells. *)
Lemma addToPalette_ok layer id cnt pal st s :
  0 <= layer < size (palettes_ s) -> size (blocks_ s) = size (palettes_ s) ->
  palettes_ s !! Z.to_nat layer = Some pal -> blocks_ s !! Z.to_nat layer = Some st ->
  PalettedStorage.wf st -> size pal < 2 ^ 32 -> size pal <= 2 ^ PalettedStorage.bitsPerBlock_ st ->
  exists st' e,
    addToPalette layer id cnt s = (Ok tt, set_layer layer (pal ++ [e]) st' s) /\
    e = mkBlockState id (air_name id (airStateId_ s)) cnt (nbt_compound []) 0 false /\
    PalettedStorage.wf st' /\ size (pal ++ [e]) <= 2 ^ PalettedStorage.bitsPerBlock_ st' /\
    forall i, 0 <= i < 4096 -> cell st' i = cell st i.
Proof.
  intros Hl Hsz Hp Hst Hwf Hroom Hfits. unfold addToPalette.
  set (e := mkBlockState id _ cnt _ _ _).
  assert (forall k, while_short (layer_fuel layer) layer k s = (Ok tt, s)) as Hw.
  { intros k. assert ((size (palettes_ s) <=? layer) = false) as E by (apply Z.leb_gt; lia).
    destruct (layer_fuel layer); cbn [while_short]; unfold bind, get_st; by rewrite E. }
  rewrite (bind_ok _ _ _ _ _ (Hw _)), (bind_ok get_st _ _ s s) by done.
  rewrite (bind_ok _ _ _ _ _ (palette_at_ok layer pal s ltac:(lia) Hp)).
  rewrite (bind_ok _ _ _ _ _ (put_palette_ok layer _ s Hl)).
  rewrite (bind_ok _ _ _ st _ (block_at_ok layer st (set_palettes _ s) ltac:(lia) Hst)).
  fold e. pose proof (size_nonneg pal).
  assert (size (pal ++ [e]) = size pal + 1) as Es by (rewrite size_app, size_cons, size_nil; lia).
  rewrite Es. replace (size pal + 1 - 1) with (size pal) by lia.
  rewrite to_u32_id by (unfold is_u; lia).
  destruct (neededBits_ok (size pal) ltac:(lia)) as [Hn1 Hn2].
  unfold PalettedStorage.bitsPerBlock. pose proof (PalettedStorage.wf_bits _ Hwf).
  destruct (Z.gtb_spec (neededBits (size pal)) (PalettedStorage.bitsPerBlock_ st)) as [Hgt|Hle].
  - destruct (PalettedStorage.resize_grow (neededBits (size pal)) st Hwf ltac:(lia))
      as (st' & E & Hw' & Hb' & Hc').
    exists st', e. rewrite E. split; [|split_and!; [done|done|rewrite Hb'; lia|done]].
    unfold lift at 1. rewrite (bind_ok _ _ _ st' (set_palettes (<[Z.to_nat layer:=pal ++ [e]]> (palettes_ s)) s)) by done.
    by rewrite put_block_ok by (cbn [set_palettes blocks_]; lia).
  - exists st, e. split; [|split_and!; [done|done| |done]].
    + unfold ret, set_layer. do 2 f_equal. unfold set_blocks, set_palettes. f_equal. cbn.
      by rewrite list_insert_id.
    + pose proof (Z.pow_le_mono_r 2 _ _ ltac:(lia) Hle). lia.
Qed.

Lemma insert_last {A} (l : list A) x y n : n = length l -> <[n := x]> (l ++ [y]) = l ++ [x].
Proof. intros ->. by rewrite insert_app_r_alt, Nat.sub_diag by lia. Qed.

(** The layer that [ensureLayer] adds: one entry, used by every block. *)
Lemma air_layer_ok st id nm :
  PalettedStorage.wf st -> (forall i, 0 <= i < 4096 -> cell st i = 0) ->
  layer_ok [mkBlockState id nm 4096 (nbt_compound []) 0 false] st /\
  (forall i, 0 <= i < 4096 -> entry_id [mkBlockState id nm 4096 (nbt_compound []) 0 false] st i = id).
Proof.
  intros Hst Hc. split.
  - pose proof (PalettedStorage.wf_bits _ Hst). split; [split|].
    + done.
    + intros i Hi. rewrite Hc by done. done.
    + pose proof (Z.pow_le_mono_r 2 0 (PalettedStorage.bitsPerBlock_ st) ltac:(lia) ltac:(lia)).
      by rewrite size_cons, size_nil.
    + intros p e He. rewrite (uses_const st 0) by done.
      destruct p as [|p]; [|by rewrite lookup_cons_ne_0 in He by lia]. injection He as <-. done.
  - intros i Hi. unfold entry_id. by rewrite Hc.
Qed.

Definition air_entry s : BedrockBlockState :=
  mkBlockState (airStateId_ s) "minecraft:air" 4096 (nbt_compound []) 0 false.

(** One turn of [ensureLayer]. *)
Lemma push_air_layer s :
  sub_ok s -> size (palettes_ s) < 256 ->
  exists st, (push_layer 4 ;;;
    let* s := get_st in
    addToPalette (to_u8 (size (palettes_ s) - 1)) (airStateId_ s) PalettedStorage.StorageSize) s =
    (Ok tt, set_blocks (blocks_ s ++ [st]) (set_palettes (palettes_ s ++ [[air_entry s]]) s)) /\
    PalettedStorage.wf st /\ forall i, 0 <= i < 4096 -> cell st i = 0.
Proof.
  intros Hs Hsz. destruct (PalettedStorage.make_ok 4 ltac:(lia)) as (st & E & Hst & Hb & Hc).
  set (s1 := set_blocks (blocks_ s ++ [st]) (set_palettes (palettes_ s ++ [[]]) s)).
  assert (push_layer 4 s = (Ok tt, s1)) as E1.
  { unfold push_layer, bind, get_st, put_st, lift. by rewrite E. }
  rewrite (bind_ok _ _ _ _ _ E1), (bind_ok get_st _ _ s1 s1) by done.
  pose proof (layers_size s Hs) as Hls. pose proof (size_nonneg (palettes_ s)).
  assert (size (palettes_ s1) = size (palettes_ s) + 1) as Hs1.
  { unfold s1. cbn [palettes_ set_blocks set_palettes]. rewrite size_app, size_cons, size_nil. lia. }
  rewrite Hs1. replace (size (palettes_ s) + 1 - 1) with (size (palettes_ s)) by lia.
  rewrite to_u8_id by (unfold is_u; change (2 ^ 8) with 256; lia).
  assert (Z.to_nat (size (palettes_ s)) = length (palettes_ s)) as Hlen by (unfold size; lia).
  assert (Z.to_nat (size (palettes_ s)) = length (blocks_ s)) as Hlen' by (unfold size in *; lia).
  destruct (addToPalette_ok (size (palettes_ s)) (airStateId_ s1) PalettedStorage.StorageSize [] st s1)
    as (st' & e & Ea & He & Hst' & _ & Hc').
  - lia.
  - unfold s1. cbn [palettes_ blocks_ set_blocks set_palettes]. rewrite !size_app. unfold size in *. cbn. lia.
  - unfold s1. cbn [palettes_ set_blocks set_palettes]. rewrite Hlen. by apply list_lookup_middle.
  - unfold s1. cbn [blocks_ set_blocks set_palettes]. rewrite Hlen'. by apply list_lookup_middle.
  - done.
  - done.
  - pose proof (Z.pow_le_mono_r 2 0 (PalettedStorage.bitsPerBlock_ st) ltac:(lia) ltac:(lia)).
    rewrite size_nil. lia.
  - exists st'. rewrite Ea. split_and!; [|done|].
    + unfold set_layer, s1. cbn [set_blocks set_palettes palettes_ blocks_ app]. f_equal.
      rewrite !insert_last by done. unfold set_blocks, set_palettes. cbn.
      rewrite He. unfold air_name. by rewrite Z.eqb_refl.
    + intros i Hi. by rewrite Hc'.
Qed.

(** What the block operations leave alone. *)
Definition same_header (s s' : BedrockSubChunk) : Prop :=
  y_ s' = y_ s /\ subChunkVersion_ s' = subChunkVersion_ s /\ airStateId_ s' = airStateId_ s /\
  blockLight_ s' = blockLight_ s /\ skyLight_ s' = skyLight_ s.

Lemma same_header_trans s1 s2 s3 : same_header s1 s2 -> same_header s2 s3 -> same_header s1 s3.
Proof. unfold same_header. intuition congruence. Qed.

Lemma air_layer_pushed s st :
  sub_ok s -> size (palettes_ s) < 256 -> PalettedStorage.wf st ->
  (forall i, 0 <= i < 4096 -> cell st i = 0) ->
  let s' := set_blocks (blocks_ s ++ [st]) (set_palettes (palettes_ s ++ [[air_entry s]]) s) in
  sub_ok s' /\ forall l i, 0 <= l -> 0 <= i < 4096 -> state_at s' l i = state_at s l i.
Proof.
  intros Hs Hsz Hst Hc s'. pose proof (layers_size s Hs) as Hls.
  destruct (air_layer_ok st (airStateId_ s) "minecraft:air" Hst Hc) as [Hok Hid]. split.
  - split; [| |apply Hs|apply Hs]; unfold s'; cbn [set_blocks set_palettes palettes_ blocks_].
    + apply Forall2_app; [apply Hs|]. by constructor.
    + rewrite size_app, size_cons, size_nil. lia.
  - intros l i Hl Hi. unfold state_at, s'. cbn [set_blocks set_palettes palettes_ blocks_ airStateId_].
    unfold size in *. destruct (decide (Z.to_nat l < length (palettes_ s))%nat).
    + rewrite !lookup_app_l by lia. done.
    + rewrite (lookup_ge_None_2 (palettes_ s)) by lia.
      destruct (decide (Z.to_nat l = length (palettes_ s))) as [E|].
      * rewrite E at 1. rewrite list_lookup_middle by done.
        replace (Z.to_nat l) with (length (blocks_ s)) by lia.
        rewrite list_lookup_middle by done. by apply Hid.
      * rewrite lookup_ge_None_2; [done|]. rewrite length_app. cbn. lia.
Qed.

Lemma ensureLayer_ok s layer :
  sub_ok s -> 0 <= layer <= 255 ->
  exists s', ensureLayer layer s = (Ok tt, s') /\ sub_ok s' /\ layer < size (palettes_ s') /\
    size (palettes_ s') = Z.max (size (palettes_ s)) (layer + 1) /\ same_header s s' /\
    (forall l i, 0 <= l -> 0 <= i < 4096 -> state_at s' l i = state_at s l i) /\
    (forall pal, palettes_ s' !! Z.to_nat layer = Some pal ->
       palettes_ s !! Z.to_nat layer = Some pal \/ size pal = 1).
Proof.
  intros Hs Hl. unfold ensureLayer.
  assert (layer + 1 - size (palettes_ s) <= Z.of_nat (layer_fuel layer)) as Hf.
  { unfold layer_fuel. pose proof (size_nonneg (palettes_ s)). lia. }
  revert Hf. generalize (layer_fuel layer). intros fuel. revert s Hs.
  induction fuel as [|fuel IH]; intros s Hs Hf; cbn [while_short];
    rewrite (bind_ok get_st _ _ s s) by done;
    destruct (Z.leb_spec (size (palettes_ s)) layer) as [Hle|Hgt]; try lia.
  1, 3: exists s; split_and!; [done|done|lia|lia|done|done|auto].
  destruct (push_air_layer s Hs ltac:(lia)) as (st & E & Hst & Hc).
  rewrite (bind_ok _ _ _ _ _ E).
  destruct (air_layer_pushed s st Hs ltac:(lia) Hst Hc) as [Hs1 Hv]. clear E.
  set (s1 := set_blocks _ _) in *.
  assert (size (palettes_ s1) = size (palettes_ s) + 1) as Hsz.
  { unfold s1. cbn [set_blocks set_palettes palettes_]. rewrite size_app, size_cons, size_nil. lia. }
  destruct (IH s1 Hs1 ltac:(lia)) as (s' & E & Hs' & Hlt & Hmax & Hh & Hv' & Hp).
  exists s'. split_and!; [done|done|lia|lia| | |].
  - eapply same_header_trans; [|done]. done.
  - intros l i Hl0 Hi. by rewrite Hv', Hv.
  - intros pal Hpal. apply Hp in Hpal as [Hpal|]; [|by right].
    unfold s1 in Hpal. cbn [set_blocks set_palettes palettes_] in Hpal.
    unfold size in *. destruct (decide (Z.to_nat layer < length (palettes_ s))%nat).
    + left. by rewrite lookup_app_l in Hpal by lia.
    + right. rewrite lookup_app_r in Hpal by lia. by apply list_lookup_singleton_Some in Hpal as [_ <-].
Qed.

(** ** Setting a block *)

Lemma find_state_Some id pal k i :
  find_state id k pal = Some i ->
  exists e, k <= i /\ pal !! Z.to_nat (i - k) = Some e /\ stateId e = id.
Proof.
  revert k. induction pal as [|e pal IH]; intros k H; [done|]. cbn [find_state] in H.
  destruct (Z.eqb_spec (stateId e) id) as [Ee|].
  - injection H as <-. exists e. rewrite Z.sub_diag. split_and!; [lia|done|done].
  - apply IH in H as (e' & Hk & He & ?). exists e'. split_and!; [lia| |done].
    by replace (Z.to_nat (i - k)) with (S (Z.to_nat (i - (k + 1)))) by lia.
Qed.

Lemma count_eq pal st p e :
  counts_ok pal st -> 0 <= p -> pal !! Z.to_nat p = Some e -> count e = uses st p.
Proof. intros Hc Hp He. rewrite (Hc _ _ He). by rewrite Z2Nat.id. Qed.

(** The two ways the indexed cell gets its new state: the bookkeeping of the
    old entry [c] (one use less) and of the new one [v] (one use more). *)
Lemma moved_layer_ok pal st pal' st' j v :
  layer_ok pal st -> 0 <= j < 4096 -> PalettedStorage.wf st' ->
  (forall i, 0 <= i < 4096 -> cell st' i = if i =? j then v else cell st i) ->
  0 <= v < size pal' -> size pal <= size pal' <= 2 ^ PalettedStorage.bitsPerBlock_ st' ->
  (forall p e, pal' !! p = Some e ->
     count e = uses st (Z.of_nat p) - (if decide (cell st j = Z.of_nat p) then 1 else 0)
               + (if decide (v = Z.of_nat p) then 1 else 0)) ->
  layer_ok pal' st'.
Proof.
  intros [Hwf Hcnt] Hj Hst Hc Hv Hsz Hcount. split; [split|].
  - done.
  - intros i Hi. rewrite Hc by done. destruct (i =? j); [lia|].
    pose proof (lw_cells _ _ Hwf i Hi). lia.
  - lia.
  - intros p e He. rewrite (Hcount p e He). symmetry. by apply uses_set.
Qed.

(** What the blocks are after the move. *)
Lemma moved_entry_id pal st pal' st' j v id i :
  layer_wf pal st -> 0 <= j < 4096 -> 0 <= i < 4096 ->
  (forall i, 0 <= i < 4096 -> cell st' i = if i =? j then v else cell st i) ->
  (forall p e, pal !! p = Some e -> exists e', pal' !! p = Some e' /\ stateId e' = stateId e) ->
  (exists e, pal' !! Z.to_nat v = Some e /\ stateId e = id) ->
  entry_id pal' st' i = if i =? j then id else entry_id pal st i.
Proof.
  intros Hwf Hj Hi Hc Hsame (e & He & Hid). unfold entry_id at 1. rewrite Hc by done.
  destruct (i =? j); [by rewrite He|].
  destruct (layer_entry pal st i Hwf Hi) as (f & _ & Hf & ->).
  destruct (Hsame _ _ Hf) as (f' & -> & ?). done.
Qed.

Section Move.
Context (s : BedrockSubChunk) (layer x y z id : Z).
Context (pal : list BedrockBlockState) (st : Storage).
Context (Hs : sub_ok s) (Hl : 0 <= layer < size (palettes_ s)).
Context (Hp : palettes_ s !! Z.to_nat layer = Some pal).
Context (Hst : blocks_ s !! Z.to_nat layer = Some st) (Hok : layer_ok pal st).

(** The state after a block was set. *)
Definition block_set (s' : BedrockSubChunk) : Prop :=
  sub_ok s' /\ same_header s s' /\ size (palettes_ s') = size (palettes_ s) /\
  forall l i, 0 <= l -> 0 <= i < 4096 ->
    state_at s' l i = if (l =? layer) && (i =? block_index x y z) then id else state_at s l i.

Lemma state_at_layer i : state_at s layer i = entry_id pal st i.
Proof. unfold state_at. by rewrite Hp, Hst. Qed.

Lemma move_block pal' st0 v :
  PalettedStorage.wf st0 -> (forall i, 0 <= i < 4096 -> cell st0 i = cell st i) ->
  0 <= v < size pal' -> size pal <= size pal' <= 2 ^ PalettedStorage.bitsPerBlock_ st0 ->
  (forall p e, pal' !! p = Some e ->
     count e = uses st (Z.of_nat p)
               - (if decide (cell st (block_index x y z) = Z.of_nat p) then 1 else 0)
               + (if decide (v = Z.of_nat p) then 1 else 0)) ->
  (forall p e, pal !! p = Some e -> exists e', pal' !! p = Some e' /\ stateId e' = stateId e) ->
  (exists e, pal' !! Z.to_nat v = Some e /\ stateId e = id) ->
  exists s', on_block layer (PalettedStorage.set x y z v) (set_layer layer pal' st0 s) = (Ok tt, s') /\
    block_set s'.
Proof.
  intros Hw0 Hc0 Hv Hfit Hcount Hsame Hid.
  destruct (PalettedStorage.set_ok st0 Hw0 x y z v) as (st' & E & Hw' & Hb' & Hc').
  assert (forall i, 0 <= i < 4096 -> cell st' i = if i =? block_index x y z then v else cell st i) as Hc.
  { intros i Hi. rewrite Hc' by done. destruct (i =? block_index x y z); [|by apply Hc0].
    rewrite (PalettedStorage.wf_mask _ Hw0). pose proof (PalettedStorage.wf_bits _ Hw0).
    apply PalettedStorage.land_fits; lia. }
  pose proof (layers_size s Hs) as Hsz.
  exists (set_layer layer pal' st' s). split.
  - rewrite (on_block_ok layer _ st0 st'); [|lia| |done].
    + f_equal. unfold set_layer, set_blocks, set_palettes. cbn. by rewrite list_insert_insert_eq.
    + unfold set_layer. cbn. apply list_lookup_insert_eq. unfold size in *. lia.
  - split_and!; [|done|unfold set_layer; cbn; by rewrite size_insert|].
    + apply set_layer_ok; [done|].
      apply (moved_layer_ok pal st pal' st' (block_index x y z) v); try done.
      * apply index_range.
      * by rewrite Hb'.
    + intros l i Hl0 Hi. rewrite state_at_set_layer by done.
      destruct (Z.eqb_spec l layer) as [->|]; [|done]. cbn [andb]. rewrite state_at_layer.
      apply (moved_entry_id pal st pal' st' (block_index x y z) v id); try done;
        [apply Hok|apply index_range].
Qed.

(** The old entry loses a use. *)
Definition released (e : BedrockBlockState) : list BedrockBlockState :=
  <[Z.to_nat (cell st (block_index x y z)) := set_count (count e - 1) e]> pal.

Lemma released_entry e :
  pal !! Z.to_nat (cell st (block_index x y z)) = Some e ->
  forall p f, released e !! p = Some f ->
    count f = uses st (Z.of_nat p)
              - (if decide (cell st (block_index x y z) = Z.of_nat p) then 1 else 0).
Proof.
  intros He p f Hf. unfold released in Hf.
  pose proof (PalettedStorage.cell_range st (lw_wf _ _ (proj1 Hok)) (block_index x y z)).
  destruct (decide (Z.to_nat (cell st (block_index x y z)) = p)) as [<-|Hne].
  - rewrite list_lookup_insert_eq in Hf by by eapply lookup_lt_Some. injection Hf as <-.
    rewrite Z2Nat.id, decide_True by (done || lia). cbn [set_count count].
    by rewrite (count_eq pal st (cell st (block_index x y z)) e) by (apply Hok || lia || done).
  - rewrite list_lookup_insert_ne in Hf by done. rewrite decide_False by lia.
    rewrite (proj2 Hok _ _ Hf). lia.
Qed.

Lemma released_same e :
  pal !! Z.to_nat (cell st (block_index x y z)) = Some e ->
  forall p f, pal !! p = Some f -> exists f', released e !! p = Some f' /\ stateId f' = stateId f.
Proof.
  intros He p f Hf. unfold released.
  destruct (decide (Z.to_nat (cell st (block_index x y z)) = p)) as [<-|Hne].
  - rewrite list_lookup_insert_eq by by eapply lookup_lt_Some. eexists. split; [done|].
    rewrite He in Hf. by injection Hf as <-.
  - rewrite list_lookup_insert_ne by done. eauto.
Qed.

(** The tail of [setBlockStateId] when the state is already in the palette. *)
Lemma set_known e v :
  pal !! Z.to_nat (cell st (block_index x y z)) = Some e -> stateId e <> id ->
  find_state id 0 (released e) = Some v ->
  exists f s',
    vec_at (released e) v = Ok f /\
    (let* p := lift (vec_set (released e) v (set_count (to_u32 (Z.max (count f) 0 + 1)) f)) in
     put_palette layer p ;;;
     on_block layer (PalettedStorage.set x y z v)) (set_palettes (<[Z.to_nat layer := released e]> (palettes_ s)) s)
    = (Ok tt, s') /\ block_set s'.
Proof.
  intros He Hne Hf. apply find_state_Some in Hf as (f & Hv & Hlf & Hidf). rewrite Z.sub_0_r in Hlf.
  exists f. assert (vec_at (released e) v = Ok f) as Ef by by apply vec_at_lookup.
  destruct (vec_at_inv _ _ _ Ef) as [Hvr _].
  assert (size (released e) = size pal) as Hsr by apply size_insert.
  pose proof (released_entry e He _ _ Hlf) as Hcf. rewrite Z2Nat.id in Hcf by done.
  assert (cell st (block_index x y z) <> v) as Hcv.
  { intros Ec. unfold released in Hlf. rewrite <-Ec, list_lookup_insert_eq in Hlf
      by by eapply lookup_lt_Some. injection Hlf as <-. done. }
  rewrite decide_False in Hcf by done. pose proof (uses_bounds st v).
  set (pal' := <[Z.to_nat v := set_count (to_u32 (Z.max (count f) 0 + 1)) f]> (released e)).
  destruct (move_block pal' st v) as (s' & E & Hset).
  - apply Hok.
  - done.
  - unfold pal'. rewrite size_insert. lia.
  - unfold pal'. rewrite size_insert, Hsr. split; [lia|]. apply Hok.
  - intros p g Hg. unfold pal' in Hg. destruct (decide (Z.to_nat v = p)) as [<-|Hp'].
    + rewrite list_lookup_insert_eq in Hg by by eapply lookup_lt_Some. injection Hg as <-.
      rewrite Z2Nat.id by done. cbn [set_count count].
      rewrite decide_False, decide_True by done. rewrite Z.max_l by lia.
      rewrite to_u32_id by (unfold is_u; lia). lia.
    + rewrite list_lookup_insert_ne in Hg by done. rewrite (decide_False (P := v = _)) by lia.
      rewrite (released_entry e He _ _ Hg). lia.
  - intros p g Hg. destruct (released_same e He p g Hg) as (g' & Hg' & Hid').
    unfold pal'. destruct (decide (Z.to_nat v = p)) as [<-|Hp'].
    + rewrite list_lookup_insert_eq by by eapply lookup_lt_Some. eexists. split; [done|].
      cbn [set_count stateId]. congruence.
    + rewrite list_lookup_insert_ne by done. eauto.
  - exists (set_count (to_u32 (Z.max (count f) 0 + 1)) f). split; [|done].
    apply list_lookup_insert_eq. by eapply lookup_lt_Some.
  - exists s'. split_and!; [done| |done]. rewrite vec_set_ok by done.
    unfold lift at 1. fold pal'. rewrite (bind_ok (fun s => (Ok pal', s)) _ _ pal' _ eq_refl).
    set (s1 := set_palettes _ s).
    rewrite (bind_ok _ _ s1 tt (set_palettes (<[Z.to_nat layer := pal']> (palettes_ s1)) s1))
      by (apply put_palette_ok; unfold s1; cbn; by rewrite size_insert).
    rewrite <-E. f_equal. unfold s1, set_layer, set_blocks, set_palettes. cbn.
    by rewrite list_insert_insert_eq, (list_insert_id (blocks_ s)).
Qed.

(** The tail of [setBlockStateId] when it is not. *)
Lemma set_unknown e :
  pal !! Z.to_nat (cell st (block_index x y z)) = Some e -> size pal < 2 ^ 32 ->
  exists s',
    (addToPalette layer id 1 ;;;
     let* p := palette_at layer in
     on_block layer (PalettedStorage.set x y z (to_u32 (size p - 1))))
      (set_palettes (<[Z.to_nat layer := released e]> (palettes_ s)) s)
    = (Ok tt, s') /\ block_set s'.
Proof.
  intros He Hroom. set (s1 := set_palettes _ s). pose proof (layers_size s Hs) as Hsz.
  assert (size (released e) = size pal) as Hsr by apply size_insert.
  destruct (addToPalette_ok layer id 1 (released e) st s1) as (st0 & f & E & Hf & Hw0 & Hfit & Hc0).
  - unfold s1. cbn. by rewrite size_insert.
  - unfold s1. cbn. by rewrite size_insert.
  - unfold s1. cbn. apply list_lookup_insert_eq. unfold size in *. lia.
  - done.
  - apply Hok.
  - by rewrite Hsr.
  - rewrite Hsr. apply Hok.
  - rewrite (bind_ok _ _ _ _ _ E).
    assert (set_layer layer (released e ++ [f]) st0 s1 = set_layer layer (released e ++ [f]) st0 s) as ->.
    { unfold s1, set_layer, set_blocks, set_palettes. cbn. by rewrite list_insert_insert_eq. }
    rewrite (bind_ok _ _ _ (released e ++ [f]) (set_layer layer (released e ++ [f]) st0 s))
      by (apply palette_at_ok; [lia|unfold set_layer; cbn; apply list_lookup_insert_eq; unfold size in *; lia]).
    pose proof (size_nonneg pal).
    assert (size (released e ++ [f]) = size pal + 1) as Hsf
      by (rewrite size_app, size_cons, size_nil; lia).
    rewrite Hsf in Hfit |- *. replace (size pal + 1 - 1) with (size pal) by lia.
    rewrite to_u32_id by (unfold is_u; lia).
    assert (Z.to_nat (size pal) = length (released e)) as Hlen by (unfold size in *; lia).
    apply move_block; [done..| | | | |].
    + lia.
    + lia.
    + intros p g Hg. apply lookup_snoc_Some in Hg as [[Hlt Hg]|[Hlt ->]].
      * rewrite (released_entry e He _ _ Hg). rewrite (decide_False (P := size pal = _)); [lia|].
        unfold size in *. lia.
      * rewrite Hf. cbn [count]. rewrite (decide_True (P := size pal = _)) by lia.
        replace (Z.of_nat p) with (size pal) by lia.
        rewrite decide_False.
        2:{ pose proof (lw_cells _ _ (proj1 Hok) _ (index_range x y z)). lia. }
        destruct (decide (0 < uses st (size pal))) as [Hpos|Hz].
        -- apply uses_pos_inv in Hpos as (i & Hi & Ei).
           pose proof (lw_cells _ _ (proj1 Hok) i Hi). lia.
        -- pose proof (uses_bounds st (size pal)). lia.
    + intros p g Hg. destruct (released_same e He p g Hg) as (g' & Hg' & ?).
      exists g'. split; [|done]. rewrite lookup_app_l; [done|by eapply lookup_lt_Some].
    + exists f. rewrite Hlen. split; [by apply list_lookup_middle|by rewrite Hf].
Qed.

End Move.

Lemma setBlockStateId_ok s layer x y z id :
  sub_ok s -> 0 <= layer <= 255 ->
  (forall pal, palettes_ s !! Z.to_nat layer = Some pal -> size pal < 2 ^ 32) ->
  exists s', setBlockStateId layer x y z id s = (Ok tt, s') /\ sub_ok s' /\ same_header s s' /\
    size (palettes_ s') = Z.max (size (palettes_ s)) (layer + 1) /\
    forall l i, 0 <= l -> 0 <= i < 4096 ->
      state_at s' l i = if (l =? layer) && (i =? block_index x y z) then id else state_at s l i.
Proof.
  intros Hs Hl Hroom. unfold setBlockStateId.
  destruct (ensureLayer_ok s layer Hs Hl) as (s1 & E1 & Hs1 & Hlt & Hmax & Hh & Hv & Hpal).
  rewrite (bind_ok _ _ _ _ _ E1).
  destruct (layer_lookup s1 layer Hs1 ltac:(lia)) as (pal & st & Hp & Hst & Hok).
  rewrite (bind_ok _ _ _ _ _ (block_at_ok layer st s1 ltac:(lia) Hst)).
  rewrite PalettedStorage.get_ok by apply Hok. set (j := block_index x y z).
  unfold lift at 1. rewrite (bind_ok (fun s => (Ok (cell st j), s)) _ s1 (cell st j) s1 eq_refl).
  rewrite (bind_ok _ _ _ _ _ (palette_at_ok layer pal s1 ltac:(lia) Hp)).
  destruct (layer_entry pal st j (proj1 Hok) (index_range x y z)) as (e & Ee & He & Hid).
  rewrite Ee. unfold lift at 1. rewrite (bind_ok (fun s => (Ok e, s)) _ s1 e s1 eq_refl).
  destruct (Z.eqb_spec (stateId e) id) as [Eid|Hne].
  { exists s1. split_and!; [done|done|done|done|]. intros l i Hl0 Hi. rewrite <-Hv by done.
    destruct (Z.eqb_spec l layer) as [->|]; [|done]. destruct (Z.eqb_spec i j) as [->|]; [|done].
    cbn [andb]. rewrite (state_at_layer s1 layer pal st Hp Hst). congruence. }
  assert (size pal < 2 ^ 32) as Hr by (destruct (Hpal pal Hp) as [|]; [by apply Hroom|lia]).
  pose proof (PalettedStorage.cell_range st (lw_wf _ _ (proj1 Hok)) j) as Hcr.
  pose proof (count_eq pal st (cell st j) e (proj2 Hok) ltac:(lia) He) as Hcount.
  pose proof (uses_pos st j (index_range x y z)).
  destruct (Z.gtb_spec (count e) 0); [|lia].
  rewrite vec_set_ok by (pose proof (lw_cells _ _ (proj1 Hok) j (index_range x y z)); lia).
  change (<[Z.to_nat (cell st j) := set_count (count e - 1) e]> pal) with (released x y z pal st e).
  unfold lift at 1.
  rewrite (bind_ok (fun s => (Ok (released x y z pal st e), s)) _ s1 (released x y z pal st e) s1 eq_refl).
  rewrite (bind_ok _ _ _ _ _ (put_palette_ok layer _ s1 ltac:(lia))).
  assert (forall s', block_set s1 layer x y z id s' -> sub_ok s' /\ same_header s s' /\
    size (palettes_ s') = Z.max (size (palettes_ s)) (layer + 1) /\
    forall l i, 0 <= l -> 0 <= i < 4096 ->
      state_at s' l i = if (l =? layer) && (i =? j) then id else state_at s l i) as Hdone.
  { intros s' (? & ? & Hsz & Hst'). split_and!; [done|by eapply same_header_trans|lia|].
    intros l i Hl0 Hi. rewrite Hst' by done. by rewrite Hv. }
  destruct (find_state id 0 (released x y z pal st e)) as [v|] eqn:Ef.
  - destruct (set_known s1 layer x y z id pal st Hs1 ltac:(lia) Hp Hst Hok e v He Hne Ef)
      as (f & s' & Evf & E & Hset).
    exists s'. split; [|by apply Hdone]. rewrite Evf. unfold lift at 1.
    by rewrite (bind_ok (fun s => (Ok f, s)) _ _ f _ eq_refl).
  - destruct (set_unknown s1 layer x y z id pal st Hs1 ltac:(lia) Hp Hst Hok e He Hr) as (s' & E & Hset).
    exists s'. split; [done|by apply Hdone].
Qed.

(** ** Compaction *)

Abbreviation live := (fun e => 0 < count e).

(** The new indices [compact_loop] computes, by the number of live entries so far. *)
Fixpoint remap_of (old : list BedrockBlockState) (n : Z) : list Z :=
  match old with
  | [] => []
  | e :: old' =>
      let n' := if count e >? 0 then n + 1 else n in
      to_u32 (if n' =? 0 then 0 else n' - 1) :: remap_of old' n'
  end.

Lemma compact_loop_ok old np rm :
  compact_loop old np rm = (np ++ filter live old, rm ++ remap_of old (size np)).
Proof.
  revert np rm. induction old as [|e old IH]; intros np rm.
  - cbn [compact_loop remap_of]. by rewrite list.filter_nil, !app_nil_r.
  - cbn [compact_loop remap_of]. rewrite IH, filter_cons.
    destruct (Z.gtb_spec (count e) 0).
    + assert (size (np ++ [e]) = size np + 1) as -> by (rewrite size_app, size_cons, size_nil; lia).
      rewrite decide_True by done. by rewrite <-!app_assoc.
    + rewrite decide_False by lia. by rewrite <-app_assoc.
Qed.

Lemma remap_of_length old n : length (remap_of old n) = length old.
Proof. revert n. induction old as [|e old IH]; intros n; [done|]. cbn. by rewrite IH. Qed.

(** A live entry is found again at its new index; new indices of live entries
    are distinct, and every new entry has an old index. *)
Lemma remap_live old n k e :
  0 <= n -> n + size old < 2 ^ 32 -> old !! k = Some e -> 0 < count e ->
  exists r, remap_of old n !! k = Some (n + Z.of_nat r) /\ filter live old !! r = Some e /\
    r = length (filter live (take k old)).
Proof.
  revert n k. induction old as [|f old IH]; intros n k Hn Hr Hk He; [done|].
  rewrite size_cons in Hr. pose proof (size_nonneg old). cbn [remap_of]. rewrite filter_cons.
  destruct k as [|k].
  - injection Hk as ->. destruct (Z.gtb_spec (count e) 0); [|lia]. rewrite decide_True by done.
    exists 0%nat. split_and!; [|done|done]. cbn. destruct (Z.eqb_spec (n + 1) 0); [lia|].
    rewrite to_u32_id by (unfold is_u; lia). f_equal. lia.
  - cbn [lookup list_lookup] in Hk |- *. cbn [take]. rewrite filter_cons.
    destruct (Z.gtb_spec (count f) 0).
    + rewrite !decide_True by done.
      destruct (IH (n + 1) k ltac:(lia) ltac:(lia) Hk He) as (r & H1 & H2 & H3).
      exists (S r). split_and!; [|done|by rewrite H3]. etransitivity; [exact H1|]. f_equal. lia.
    + rewrite !decide_False by lia.
      destruct (IH n k ltac:(lia) ltac:(lia) Hk He) as (r & H1 & H2 & H3). exists r. done.
Qed.

Lemma live_index_inj old k k' e e' :
  old !! k = Some e -> old !! k' = Some e' -> 0 < count e -> 0 < count e' ->
  length (filter live (take k old)) = length (filter live (take k' old)) -> k = k'.
Proof.
  assert (forall k k' e, (k < k')%nat -> old !! k = Some e -> 0 < count e ->
    (length (filter live (take k old)) < length (filter live (take k' old)))%nat) as Hlt.
  { clear. intros k k' e Hk He Hl.
    replace (take k' old) with (take (S k) old ++ take (k' - S k) (drop (S k) old))
      by (rewrite take_take_drop; f_equal; lia).
    rewrite (take_S_r old k e He), !list.filter_app, !length_app.
    rewrite filter_cons, decide_True by done. cbn. lia. }
  intros He He' Hl Hl' E. destruct (Nat.lt_trichotomy k k') as [H|[H|H]]; [|done|].
  - pose proof (Hlt k k' e H He Hl). lia.
  - pose proof (Hlt k' k e' H He' Hl'). lia.
Qed.

Lemma live_index_surj old r e :
  filter live old !! r = Some e ->
  exists k, old !! k = Some e /\ 0 < count e /\ r = length (filter live (take k old)).
Proof.
  revert r. induction old as [|f old IH]; intros r H; [done|]. rewrite filter_cons in H.
  case_decide as Hf.
  - destruct r as [|r].
    + injection H as <-. by exists 0%nat.
    + destruct (IH r H) as (k & ? & ? & ->). exists (S k). cbn [take]. rewrite filter_cons, decide_True by done. done.
  - destruct (IH r H) as (k & ? & ? & ->). exists (S k). cbn [take]. by rewrite filter_cons, decide_False by done.
Qed.

(** A palette without dead entries has at most one entry per block. *)
Lemma live_palette_size pal st :
  layer_ok pal st -> Forall live pal -> 1 <= size pal <= 4096.
Proof.
  intros [Hwf Hc] Hlive. split.
  - pose proof (lw_cells _ _ Hwf 0 ltac:(lia)).
    pose proof (PalettedStorage.cell_range st (lw_wf _ _ Hwf) 0). lia.
  - assert (length (seqZ 0 (size pal)) <= length (cell st <$> all_blocks))%nat as H.
    { apply submseteq_length, NoDup_submseteq; [apply NoDup_seqZ|].
      intros p Hp%elem_of_seqZ.
      destruct (lookup_lt_is_Some_2 pal (Z.to_nat p)) as [e He]; [unfold size in Hp; lia|].
      pose proof (Forall_lookup_1 _ _ _ _ Hlive He) as Hpos. cbv beta in Hpos.
      rewrite (count_eq pal st p e Hc) in Hpos by (done || lia).
      apply uses_pos_inv in Hpos as (i & Hi & <-).
      apply list_elem_of_fmap. exists i. split; [done|by apply elem_all_blocks]. }
    rewrite length_seqZ, length_fmap in H. assert (length all_blocks = 4096%nat) as E by done. lia.
Qed.

Lemma filter_all pal : Forall live pal -> filter live pal = pal.
Proof.
  induction 1 as [|e l He Hl IH]; [done|]. by rewrite filter_cons, decide_True, IH by done.
Qed.

Lemma filter_full pal : size pal <= size (filter live pal) -> Forall live pal.
Proof.
  induction pal as [|e l IH]; [by constructor|]. rewrite filter_cons.
  pose proof (length_filter live l). case_decide as He; rewrite ?size_cons; unfold size in *; intros H'.
  - constructor; [done|]. apply IH. lia.
  - lia.
Qed.

Lemma filter_same {A} (P Q : A -> Prop) `{!forall x, Decision (P x), !forall x, Decision (Q x)} (l : list A) :
  (forall x, x ∈ l -> (P x <-> Q x)) -> filter P l = filter Q l.
Proof.
  induction l as [|x l IH]; intros HPQ; [done|].
  rewrite !filter_cons, IH by (intros y Hy; apply HPQ; by right).
  by rewrite (decide_ext (P x) (Q x)) by (apply HPQ; by left).
Qed.

(** The storage [compact] builds, and the layer it makes. *)
Lemma compacted_layer pal st st' :
  layer_ok pal st -> size pal < 2 ^ 32 -> PalettedStorage.wf st' ->
  size (filter live pal) <= 2 ^ PalettedStorage.bitsPerBlock_ st' ->
  (forall i, 0 <= i < 4096 -> exists r, remap_of pal 0 !! Z.to_nat (cell st i) = Some r /\
     cell st' i = Z.land r (2 ^ PalettedStorage.bitsPerBlock_ st' - 1)) ->
  layer_ok (filter live pal) st' /\
  forall i, 0 <= i < 4096 -> entry_id (filter live pal) st' i = entry_id pal st i.
Proof.
  intros Hok Hroom Hw Hfit Hcell. pose proof (PalettedStorage.wf_bits _ Hw) as Hbits.
  assert (forall i, 0 <= i < 4096 -> exists e, pal !! Z.to_nat (cell st i) = Some e /\ 0 < count e /\
    cell st' i = Z.of_nat (length (filter live (take (Z.to_nat (cell st i)) pal))) /\
    filter live pal !! Z.to_nat (cell st' i) = Some e) as Hmap.
  { intros i Hi. destruct (layer_entry pal st i (proj1 Hok) Hi) as (e & _ & He & _).
    pose proof (PalettedStorage.cell_range st (lw_wf _ _ (proj1 Hok)) i).
    assert (0 < count e) as Hpos.
    { rewrite (count_eq pal st (cell st i) e (proj2 Hok)) by (done || lia).
      pose proof (uses_pos st i Hi). lia. }
    destruct (remap_live pal 0 _ e ltac:(lia) ltac:(lia) He Hpos) as (r & Hr & Hfr & Er).
    destruct (Hcell i Hi) as (r' & Hr' & Ec). rewrite Hr in Hr'. injection Hr' as <-.
    pose proof (lookup_lt_Some _ _ _ Hfr) as Hlt.
    rewrite PalettedStorage.land_fits in Ec by (unfold size in *; lia).
    exists e. rewrite Ec, <-Er. split_and!; [done|done|lia|]. by replace (Z.to_nat (0 + Z.of_nat r)) with r by lia. }
  split; [split; [split|]|].
  - done.
  - intros i Hi. destruct (Hmap i Hi) as (e & _ & _ & Ec & Hl).
    apply lookup_lt_Some in Hl. unfold size. lia.
  - done.
  - intros p e He. destruct (live_index_surj pal p e He) as (k & Hk & Hpos & Ep).
    rewrite (proj2 Hok k e Hk). unfold uses, occurrences. f_equal.
    apply filter_same. intros i Hi%elem_all_blocks.
    destruct (Hmap i Hi) as (f & Hf & Hfpos & Ec & _).
    pose proof (PalettedStorage.cell_range st (lw_wf _ _ (proj1 Hok)) i). rewrite Ec, Ep. split.
    + intros E. do 2 f_equal. by rewrite E, Nat2Z.id.
    + intros E. apply Nat2Z.inj in E.
      pose proof (live_index_inj pal _ _ f e Hf Hk Hfpos Hpos E). lia.
  - intros i Hi. destruct (Hmap i Hi) as (e & He & _ & _ & Hl).
    unfold entry_id. by rewrite He, Hl.
Qed.

Lemma compact_ok s layer :
  sub_ok s -> 0 <= layer ->
  (forall pal, palettes_ s !! Z.to_nat layer = Some pal -> size pal < 2 ^ 32) ->
  exists s', compact layer s = (Ok tt, s') /\ sub_ok s' /\ same_header s s' /\
    size (palettes_ s') = size (palettes_ s) /\
    (forall l i, 0 <= l -> 0 <= i < 4096 -> state_at s' l i = state_at s l i) /\
    (forall l, l <> Z.to_nat layer ->
       palettes_ s' !! l = palettes_ s !! l /\ blocks_ s' !! l = blocks_ s !! l) /\
    (forall pal, palettes_ s !! Z.to_nat layer = Some pal ->
       palettes_ s' !! Z.to_nat layer = Some (filter live pal)).
Proof.
  intros Hs Hl Hroom. unfold compact. rewrite (bind_ok get_st _ s s s) by done. unfold isCompactable.
  destruct (Z.geb_spec layer (size (palettes_ s))).
  { exists s. split_and!; try done. intros pal Hp. apply lookup_lt_Some in Hp. unfold size in *. lia. }
  destruct (layer_lookup s layer Hs ltac:(lia)) as (pal & st & Hp & Hst & Hok).
  pose proof (Hroom pal Hp) as Hr. pose proof (layers_size s Hs) as Hls.
  rewrite (vec_at_lookup _ _ _ Hl Hp). cbn [rbind].
  set (used := size (filter live pal)).
  assert (0 <= used <= size pal) as Hu.
  { unfold used, size. pose proof (length_filter live pal). lia. }
  rewrite to_u32_id by (unfold is_u; lia).
  unfold lift at 1. rewrite (bind_ok (fun s0 => (Ok (used <? size pal), s0)) _ s _ s eq_refl).
  destruct (Z.ltb_spec used (size pal)) as [Hlt|Hge]; cbn [negb].
  2:{ exists s. split_and!; try done. intros pal' Hp'. rewrite Hp in Hp'. injection Hp' as <-.
      by rewrite filter_all by by apply filter_full. }
  rewrite (bind_ok _ _ _ _ _ (palette_at_ok layer pal s Hl Hp)), compact_loop_ok. cbn [app].
  fold used. change (size []) with 0.
  assert (0 < used) as Hpos.
  { destruct (layer_entry pal st 0 (proj1 Hok) ltac:(lia)) as (e & _ & He & _).
    pose proof (PalettedStorage.cell_range st (lw_wf _ _ (proj1 Hok)) 0).
    assert (0 < count e) as Hce.
    { rewrite (count_eq pal st (cell st 0) e (proj2 Hok)) by (done || lia).
      pose proof (uses_pos st 0 ltac:(lia)). lia. }
    destruct (remap_live pal 0 _ e ltac:(lia) ltac:(lia) He Hce) as (r & _ & Hfr & _).
    apply lookup_lt_Some in Hfr. unfold used, size. lia. }
  rewrite to_u32_id by (unfold is_u; lia).
  destruct (neededBits_ok (used - 1) ltac:(lia)) as [Hn1 Hn2].
  destruct (PalettedStorage.make_ok (Z.max 1 (neededBits (used - 1))) ltac:(lia)) as (st0 & E0 & Hw0 & Hb0 & _).
  rewrite E0. unfold lift at 1. rewrite (bind_ok (fun s0 => (Ok st0, s0)) _ s st0 s eq_refl).
  rewrite (bind_ok _ _ _ _ _ (block_at_ok layer st s Hl Hst)).
  set (rm := remap_of pal 0). assert (size rm = size pal) as Hrm by (unfold size, rm; by rewrite remap_of_length).
  destruct (PalettedStorage.for_xyz_cells (fun x y z =>
      let* oldIndex := lift (PalettedStorage.get x y z st) in
      let* v := lift (if oldIndex <? size rm then vec_at rm oldIndex else Ok 0) in
      PalettedStorage.set x y z v) (fun i => nth (Z.to_nat (cell st i)) rm 0) st0 Hw0)
    as (st' & E & Hw' & Hb' & Hc').
  { intros x y z t. unfold lift at 1. rewrite PalettedStorage.get_ok by apply Hok.
    rewrite (bind_ok (fun s0 => (Ok (cell st (block_index x y z)), s0)) _ t _ t eq_refl).
    pose proof (lw_cells _ _ (proj1 Hok) _ (index_range x y z)).
    pose proof (PalettedStorage.cell_range st (lw_wf _ _ (proj1 Hok)) (block_index x y z)).
    rewrite (proj2 (Z.ltb_lt _ _)) by lia.
    destruct (vec_at_ok rm (cell st (block_index x y z)) ltac:(lia)) as (r & -> & Hlr).
    by rewrite (nth_lookup_Some _ _ _ _ Hlr). }
  unfold exec at 1. rewrite E. unfold lift at 1. rewrite (bind_ok (fun s0 => (Ok st', s0)) _ s st' s eq_refl).
  rewrite (bind_ok _ _ _ _ _ (put_palette_ok layer _ s ltac:(lia))).
  rewrite put_block_ok by (cbn; lia). exists (set_layer layer (filter live pal) st' s).
  assert (used <= 2 ^ PalettedStorage.bitsPerBlock_ st') as Hfit.
  { rewrite Hb', Hb0. pose proof (Z.pow_le_mono_r 2 (neededBits (used - 1)) (Z.max 1 (Z.max 1 (neededBits (used - 1)))) ltac:(lia) ltac:(lia)). lia. }
  destruct (compacted_layer pal st st' Hok Hr Hw' Hfit) as [Hlo Hid].
  { intros i Hi. pose proof (lw_cells _ _ (proj1 Hok) i Hi).
    pose proof (PalettedStorage.cell_range st (lw_wf _ _ (proj1 Hok)) i).
    destruct (lookup_lt_is_Some_2 rm (Z.to_nat (cell st i))) as [r Hlr]; [unfold size in *; lia|].
    exists r. split; [done|]. rewrite Hc' by done. rewrite (nth_lookup_Some _ _ _ _ Hlr). by rewrite Hb'. }
  split_and!; [done|by apply set_layer_ok|done|unfold set_layer; cbn; by rewrite size_insert| | |].
  - intros l i Hl0 Hi. rewrite state_at_set_layer by (done || lia).
    destruct (Z.eqb_spec l layer) as [->|]; [|done].
    rewrite Hid by done. by rewrite (state_at_layer s layer pal st Hp Hst).
  - intros l Hne. unfold set_layer. cbn. by rewrite !list_lookup_insert_ne by done.
  - intros pal' Hp'. rewrite Hp in Hp'. injection Hp' as <-. unfold set_layer. cbn.
    apply list_lookup_insert_eq. unfold size in *. lia.
Qed.

Lemma filter_live_all pal : Forall live (filter live pal).
Proof. apply Forall_forall. intros e He%list_elem_of_In%list_elem_of_filter. apply He. Qed.

(** ** Properties *)

Lemma make_sub_ok y v : exists s, make y v = Ok s /\ sub_ok s /\ palettes_ s = [] /\ blocks_ s = [] /\
  y_ s = y /\ subChunkVersion_ s = v /\ airStateId_ s = 0.
Proof.
  destruct (PalettedStorage.make_ok 4 ltac:(lia)) as (l & E & Hl & Hb & _). unfold make. rewrite E.
  eexists. split; [done|]. split_and!; done.
Qed.

Definition air_block (air : Z) : BedrockBlockState :=
  mkBlockState air "minecraft:air" PalettedStorage.StorageSize (nbt_compound []) 0 false.

Lemma createAir_spec y air :
  exists s, createAir y air = Ok s /\ sub_ok s /\ y_ s = y /\ subChunkVersion_ s = 9 /\
    airStateId_ s = air /\ palettes_ s = [[air_block air]] /\
    forall layer x y z, 0 <= layer -> getBlockStateId layer x y z s = Ok air.
Proof.
  unfold createAir. destruct (make_sub_ok y 9) as (s & -> & Hs & Hp & Hb & Hy & Hv & _). cbn [rbind].
  set (s0 := set_air air s). unfold exec.
  assert (sub_ok s0) as Hs0.
  { destruct Hs. unfold s0. by split. }
  rewrite (bind_ok _ _ _ tt s0) by done.
  destruct (ensureLayer_ok s0 0 Hs0 ltac:(lia)) as (s1 & E1 & Hs1 & _ & Hsz & (Hy1 & Hv1 & Ha1 & _) & _).
  rewrite (bind_ok _ _ _ _ _ E1).
  assert (palettes_ s0 = []) as Hp0 by done. rewrite Hp0 in Hsz. change (Z.max (size []) (0 + 1)) with 1 in Hsz.
  pose proof (layers_size s1 Hs1) as Hls.
  rewrite (bind_ok _ _ _ _ _ (put_palette_ok 0 [] s1 ltac:(lia))).
  destruct (PalettedStorage.make_ok 1 ltac:(lia)) as (st & Est & Hst & _ & Hc). rewrite Est.
  unfold lift at 1. set (s2 := set_palettes _ s1).
  rewrite (bind_ok (fun s3 => (Ok st, s3)) _ s2 st s2 eq_refl).
  rewrite (bind_ok _ _ _ _ _ (put_block_ok 0 st s2 ltac:(unfold s2; cbn; lia))).
  set (s3 := set_blocks _ s2).
  rewrite (bind_ok _ _ s3 [] s3).
  2:{ apply palette_at_ok; [lia|]. unfold s3, s2. cbn. apply list_lookup_insert_eq. unfold size in *. lia. }
  cbn [app]. fold (air_block air). set (e := air_block air).
  rewrite (put_palette_ok 0 [e] s3) by (unfold s3, s2; cbn; rewrite size_insert; lia).
  assert (set_palettes (<[Z.to_nat 0 := [e]]> (palettes_ s3)) s3 = set_layer 0 [e] st s1) as ->.
  { unfold s3, s2, set_layer, set_blocks, set_palettes. cbn [palettes_ blocks_ y_ subChunkVersion_
      airStateId_ blockLight_ skyLight_]. by rewrite list_insert_insert_eq. }
  destruct (air_layer_ok st air "minecraft:air" Hst (fun i _ => Hc i)) as [Hlo Hid].
  assert (sub_ok (set_layer 0 [e] st s1)) as Hf by by apply set_layer_ok.
  exists (set_layer 0 [e] st s1).
  split_and!; [done|done|exact (eq_trans Hy1 Hy)|exact (eq_trans Hv1 Hv)|exact Ha1| |].
  - cbn. destruct (palettes_ s1) as [|p [|q l]]; [done|done|].
    rewrite !size_cons in Hsz. pose proof (size_nonneg l). lia.
  - intros layer x' y' z' Hl. rewrite getBlockStateId_ok by done.
    rewrite state_at_set_layer by (done || lia). destruct (Z.eqb_spec layer 0).
    + f_equal. apply Hid. apply index_range.
    + unfold state_at. rewrite lookup_ge_None_2; [|unfold size in *; lia]. by rewrite Ha1.
Qed.

Lemma air_room s air :
  palettes_ s = [[air_block air]] -> Forall (fun pal => size pal < 2 ^ 32) (palettes_ s).
Proof. intros ->. by constructor. Qed.

(** A section of air is created with one layer in which every block is the
    given air state, at the given height. *)
Theorem createAir_ok y air :
  exists s, createAir y air = Ok s /\ sub_ok s /\ y_ s = y /\ subChunkVersion_ s = 9 /\
    layerCount s = 1 /\
    forall layer x y z, 0 <= layer -> getBlockStateId layer x y z s = Ok air.
Proof.
  destruct (createAir_spec y air) as (s & E & Hs & Hy & Hv & _ & Hp & Hg). exists s.
  split_and!; try done; try apply Hs. unfold layerCount. by rewrite (layers_size s Hs), Hp.
Qed.

(** C35: [setBlockStateId] never fails on a well-formed section, keeps it
    well-formed, and changes exactly the addressed block: every other block of
    every layer, including the layers it creates on the way, reads as before. *)
Theorem subchunk_set_get s layer x y z id :
  sub_ok s -> 0 <= layer <= 255 -> Forall (fun pal => size pal < 2 ^ 32) (palettes_ s) ->
  exists s', setBlockStateId layer x y z id s = (Ok tt, s') /\ sub_ok s' /\
    forall l x' y' z', 0 <= l ->
      getBlockStateId l x' y' z' s' =
      if decide (l = layer /\ x' mod 16 = x mod 16 /\ y' mod 16 = y mod 16 /\ z' mod 16 = z mod 16)
      then Ok id else getBlockStateId l x' y' z' s.
Proof.
  intros Hs Hl Hroom.
  destruct (setBlockStateId_ok s layer x y z id Hs Hl) as (s' & E & Hs' & _ & _ & Hst).
  { intros pal Hp. exact (Forall_lookup_1 _ _ _ _ Hroom Hp). }
  exists s'. split_and!; [done|done|]. intros l x' y' z' Hl0.
  rewrite !getBlockStateId_ok by done. rewrite Hst by (done || apply index_range).
  destruct (Z.eqb_spec l layer); cbn [andb]; [|rewrite decide_False by tauto; done].
  destruct (Z.eqb_spec (block_index x' y' z') (block_index x y z)) as [Ei|Ei];
    rewrite PalettedStorage.block_index_inj in Ei; case_decide; tauto || done.
Qed.

Lemma subchunk_set_get_witness :
  exists s s', createAir 0 7 = Ok s /\ setBlockStateId 3 1 2 3 (-9) s = (Ok tt, s') /\
    getBlockStateId 3 17 2 3 s' = Ok (-9) /\ getBlockStateId 2 0 0 0 s' = Ok 7.
Proof.
  destruct (createAir_spec 0 7) as (s & E & Hs & _ & _ & _ & Hp & Hair).
  pose proof (air_room s 7 Hp) as Hroom.
  destruct (subchunk_set_get s 3 1 2 3 (-9) Hs ltac:(lia) Hroom) as (s' & E' & _ & Hg).
  exists s, s'. split; [exact E|]. split; [exact E'|].
  split; rewrite Hg by lia; [reflexivity|]. rewrite decide_False by (intros [? _]; discriminate).
  apply Hair. lia.
Defined.

(** Compaction keeps every block and the invariant, and leaves a palette in
    which every entry is used: at most 4096 entries, and nothing more to
    compact. *)
Theorem subchunk_compact s layer :
  sub_ok s -> 0 <= layer -> Forall (fun pal => size pal < 2 ^ 32) (palettes_ s) ->
  exists s', compact layer s = (Ok tt, s') /\ sub_ok s' /\
    (forall l x y z, 0 <= l -> getBlockStateId l x y z s' = getBlockStateId l x y z s) /\
    isCompactable layer s' = Ok false /\
    (forall pal, palettes_ s' !! Z.to_nat layer = Some pal -> 1 <= size pal <= 4096).
Proof.
  intros Hs Hl Hroom.
  destruct (compact_ok s layer Hs Hl) as (s' & E & Hs' & _ & Hsz & Hst & _ & Hlive).
  { intros pal Hp. exact (Forall_lookup_1 _ _ _ _ Hroom Hp). }
  exists s'. split_and!; [done|done| | |].
  - intros l x y z Hl0. rewrite !getBlockStateId_ok by done. by rewrite Hst by (done || apply index_range).
  - unfold isCompactable. destruct (Z.geb_spec layer (size (palettes_ s'))); [done|].
    destruct (layer_lookup s layer Hs ltac:(lia)) as (pal0 & _ & Hp0 & _).
    destruct (layer_lookup s' layer Hs' ltac:(lia)) as (pal & st & Hp & Hst' & Hok).
    rewrite (vec_at_lookup _ _ _ Hl Hp). cbn [rbind].
    rewrite (Hlive _ Hp0) in Hp. injection Hp as <-.
    pose proof (live_palette_size _ st Hok (filter_live_all pal0)).
    rewrite filter_all by apply filter_live_all.
    rewrite to_u32_id by (unfold is_u; lia). by rewrite Z.ltb_irrefl.
  - intros pal Hp. assert (layer < size (palettes_ s')).
    { apply lookup_lt_Some in Hp. unfold size. lia. }
    destruct (layer_lookup s' layer Hs' ltac:(lia)) as (pal' & st & Hp' & _ & Hok).
    destruct (layer_lookup s layer Hs ltac:(lia)) as (pal0 & _ & Hp0 & _).
    rewrite Hp in Hp'. injection Hp' as <-. eapply live_palette_size; [done|].
    rewrite (Hlive _ Hp0) in Hp. injection Hp as <-. apply filter_live_all.
Qed.

Lemma subchunk_compact_witness :
  exists s s', createAir 0 7 = Ok s /\ compact 0 s = (Ok tt, s') /\
    getBlockStateId 0 5 5 5 s' = Ok 7.
Proof.
  destruct (createAir_spec 0 7) as (s & E & Hs & _ & _ & _ & Hp & Hair).
  pose proof (air_room s 7 Hp) as Hroom.
  destruct (subchunk_compact s 0 Hs ltac:(lia) Hroom) as (s' & E' & _ & Hg & _).
  exists s, s'. split; [exact E|]. split; [exact E'|]. rewrite Hg by lia. apply Hair. lia.
Defined.
