(* ===== verification/SubChunkCodec.v ===== *)
(** * Sub-chunks: decoding untrusted bytes and the runtime round trip *)

From S2P Require Import Prelude MachineInt ZigZag Leb128 Endian BinaryStream GamePacket Nbt PalettedStorage StreamState SubChunk SubChunkState.
Import BedrockSubChunk.

Lemma valid_from_data data : valid (from_data data).
Proof. split; [done|]. apply size_nonneg. Qed.

(** ** The section with one more layer *)

Definition with_layer (s : BedrockSubChunk) pal st : BedrockSubChunk :=
  set_blocks (blocks_ s ++ [st]) (set_palettes (palettes_ s ++ [pal]) s).

Section WithLayer.
Context (s : BedrockSubChunk) (Hs : sub_ok s) (Hroom : size (palettes_ s) < 256).
Local Abbreviation layer := (size (palettes_ s)).

Lemma layer_nat : Z.to_nat layer = length (palettes_ s) /\ Z.to_nat layer = length (blocks_ s).
Proof. pose proof (layers_size s Hs). unfold size in *. lia. Qed.

Lemma with_layer_palette pal st : palettes_ (with_layer s pal st) !! Z.to_nat layer = Some pal.
Proof. destruct layer_nat as [E _]. rewrite E. by apply list_lookup_middle. Qed.

Lemma with_layer_block pal st : blocks_ (with_layer s pal st) !! Z.to_nat layer = Some st.
Proof. destruct layer_nat as [_ E]. rewrite E. by apply list_lookup_middle. Qed.

Lemma with_layer_sizes pal st :
  size (palettes_ (with_layer s pal st)) = layer + 1 /\
  size (blocks_ (with_layer s pal st)) = layer + 1.
Proof.
  pose proof (layers_size s Hs). unfold with_layer. cbn.
  rewrite !size_snoc. lia.
Qed.

Lemma with_layer_set_palette pal pal' st :
  set_palettes (<[Z.to_nat layer := pal']> (palettes_ (with_layer s pal st))) (with_layer s pal st)
  = with_layer s pal' st.
Proof.
  destruct layer_nat as [E _]. unfold with_layer, set_palettes, set_blocks. cbn.
  by rewrite insert_last.
Qed.

Lemma with_layer_set_block pal st st' :
  set_blocks (<[Z.to_nat layer := st']> (blocks_ (with_layer s pal st))) (with_layer s pal st)
  = with_layer s pal st'.
Proof.
  destruct layer_nat as [_ E]. unfold with_layer, set_palettes, set_blocks. cbn.
  by rewrite insert_last.
Qed.

Lemma with_layer_put_palette pal pal' st :
  put_palette layer pal' (with_layer s pal st) = (Ok tt, with_layer s pal' st).
Proof.
  pose proof (size_nonneg (palettes_ s)). destruct (with_layer_sizes pal st).
  rewrite put_palette_ok by lia. by rewrite with_layer_set_palette.
Qed.

Lemma with_layer_put_block pal st st' :
  put_block layer st' (with_layer s pal st) = (Ok tt, with_layer s pal st').
Proof.
  pose proof (size_nonneg (palettes_ s)). destruct (with_layer_sizes pal st).
  rewrite put_block_ok by lia. by rewrite with_layer_set_block.
Qed.

Lemma with_layer_on_palette {A} (m : M _ A) pal st r pal' :
  m pal = (r, pal') -> on_palette layer m (with_layer s pal st) = (r, with_layer s pal' st).
Proof.
  intros Hm. pose proof (size_nonneg (palettes_ s)). destruct (with_layer_sizes pal st).
  unfold on_palette, at_index.
  rewrite (vec_at_lookup _ _ _ (size_nonneg _) (with_layer_palette pal st)), Hm, vec_set_ok by lia.
  by rewrite with_layer_set_palette.
Qed.

Lemma with_layer_on_block_stream {A} (m : M (Storage * BinaryStream) A) pal st str r st' str' :
  m (st, str) = (r, (st', str')) ->
  on_block_stream layer m (with_layer s pal st, str) = (r, (with_layer s pal st', str')).
Proof.
  intros Hm. pose proof (size_nonneg (palettes_ s)). destruct (with_layer_sizes pal st).
  unfold on_block_stream. cbn [fst snd].
  rewrite (vec_at_lookup _ _ _ (size_nonneg _) (with_layer_block pal st)), Hm, vec_set_ok by lia.
  by rewrite with_layer_set_block.
Qed.

Lemma with_layer_block_at pal st : block_at layer (with_layer s pal st) = (Ok st, with_layer s pal st).
Proof. apply block_at_ok; [apply size_nonneg|apply with_layer_block]. Qed.

(** The layer is pushed when it is missing. *)
Lemma push_new bits st :
  PalettedStorage.make bits = Ok st ->
  while_short (layer_fuel layer) layer (push_layer bits) s = (Ok tt, with_layer s [] st).
Proof.
  intros E. unfold layer_fuel. pose proof (size_nonneg (palettes_ s)).
  replace (Z.to_nat (layer + 1)) with (S (Z.to_nat layer)) by lia.
  cbn [while_short]. rewrite (bind_ok get_st _ _ s s) by done.
  rewrite (proj2 (Z.leb_le _ _)) by lia.
  rewrite (bind_ok _ _ s tt (with_layer s [] st)).
  - destruct (with_layer_sizes [] st) as [E1 _].
    destruct (Z.to_nat layer); cbn [while_short];
      rewrite (bind_ok get_st _ _ (with_layer s [] st) (with_layer s [] st)) by done;
      rewrite E1, (proj2 (Z.leb_gt _ _)) by lia; done.
  - unfold push_layer, bind, get_st, put_st, lift. by rewrite E.
Qed.

Lemma push_new_throws bits e :
  PalettedStorage.make bits = Throw e ->
  exists s', while_short (layer_fuel layer) layer (push_layer bits) s = (Throw e, s').
Proof.
  intros E. unfold layer_fuel. pose proof (size_nonneg (palettes_ s)).
  replace (Z.to_nat (layer + 1)) with (S (Z.to_nat layer)) by lia.
  cbn [while_short]. rewrite (bind_ok get_st _ _ s s) by done.
  rewrite (proj2 (Z.leb_le _ _)) by lia. unfold push_layer, bind, get_st, put_st, lift.
  rewrite E. eauto.
Qed.

(** A finished layer makes a well-formed section. *)
Lemma with_layer_ok pal st : layer_ok pal st -> sub_ok (with_layer s pal st).
Proof.
  intros Hl. destruct (with_layer_sizes pal st) as [E _]. split; [|lia|apply Hs|apply Hs].
  unfold with_layer. cbn. apply Forall2_app; [apply Hs|]. by constructor.
Qed.

(** The one-entry form: a fresh one-bit storage, and an entry that every block
    uses. *)
Lemma zero_bits_layer :
  exists st, PalettedStorage.wf st /\ PalettedStorage.bitsPerBlock_ st = 1 /\
    (forall i, cell st i = 0) /\
    (while_short (layer_fuel layer) layer (push_layer 1) ;;;
     put_palette layer [] ;;;
     let* storage := lift (PalettedStorage.make 1) in
     put_block layer storage) s = (Ok tt, with_layer s [] st).
Proof.
  destruct (PalettedStorage.make_ok 1 ltac:(lia)) as (st & E & Hst & Hb & Hc). exists st.
  split_and!; [done|done|done|].
  rewrite (bind_ok _ _ _ _ _ (push_new _ st E)).
  rewrite (bind_ok _ _ _ _ _ (with_layer_put_palette [] [] st)). rewrite E. unfold lift at 1.
  rewrite (bind_ok (fun s0 => (Ok st, s0)) _ _ st _ eq_refl). apply with_layer_put_block.
Qed.

Lemma add_single id st :
  PalettedStorage.wf st -> PalettedStorage.bitsPerBlock_ st = 1 -> (forall i, cell st i = 0) ->
  exists pal st', addToPalette layer id PalettedStorage.StorageSize (with_layer s [] st) =
      (Ok tt, with_layer s pal st') /\
    layer_ok pal st' /\ size pal = 1 /\ forall i, 0 <= i < 4096 -> entry_id pal st' i = id.
Proof.
  intros Hst Hb Hc. pose proof (size_nonneg (palettes_ s)). destruct (with_layer_sizes [] st) as [E1 E2].
  destruct (addToPalette_ok layer id PalettedStorage.StorageSize [] st (with_layer s [] st))
    as (st' & e & Ea & He & Hst' & Hfit & Hc'); [lia|lia|apply with_layer_palette
    |apply with_layer_block|done|done|rewrite size_nil, Hb; done|].
  assert (forall i, 0 <= i < 4096 -> cell st' i = 0) as Hz by (intros i Hi; by rewrite Hc', Hc).
  exists [e], st'. subst e.
  destruct (air_layer_ok st' id (air_name id (airStateId_ (with_layer s [] st))) Hst' Hz) as [Hok Hid].
  split_and!; [|done|done|done]. rewrite Ea. f_equal. unfold set_layer. cbn [app].
  change (blocks_ (with_layer s [] st)) with (blocks_ (set_palettes
    (<[Z.to_nat layer:=[mkBlockState id (air_name id (airStateId_ (with_layer s [] st)))
       PalettedStorage.StorageSize (nbt_compound []) 0 false]]> (palettes_ (with_layer s [] st)))
    (with_layer s [] st))).
  rewrite with_layer_set_palette. apply with_layer_set_block.
Qed.

End WithLayer.

(** ** incrementPalette *)

Section Increment.
Context (st : Storage) (Hst : PalettedStorage.wf st) (pal0 : list BedrockBlockState).
Context (Hzero : Forall (fun e => count e = 0) pal0).

Definition increment_inv (todo : list Z) (pal : list BedrockBlockState) : Prop :=
  exists done_, all_blocks = done_ ++ todo /\
    set_count 0 <$> pal = set_count 0 <$> pal0 /\
    (forall i, i ∈ done_ -> cell st i < size pal) /\
    (forall p e, pal !! p = Some e -> count e = occurrences (cell st) done_ (Z.of_nat p)).

Lemma increment_start : increment_inv all_blocks pal0.
Proof.
  exists []. split_and!; [done|done| |].
  - intros i Hi. by apply not_elem_of_nil in Hi.
  - intros p e He. exact (Forall_lookup_1 _ _ _ _ Hzero He).
Qed.

Lemma increment_size todo pal : increment_inv todo pal -> size pal = size pal0.
Proof.
  intros (d & _ & E & _). apply (f_equal length) in E. rewrite !length_fmap in E. unfold size. lia.
Qed.

Lemma occurrences_le f l p : occurrences f l p <= size l.
Proof. unfold occurrences, size. pose proof (length_filter (fun i => f i = p) l). lia. Qed.

(** One turn of the loop. *)
Lemma increment_step i todo pal :
  increment_inv (i :: todo) pal ->
  let body :=
    let wordIndex := i / PalettedStorage.blocksPerWord_ st in
    let offset :=
      to_u8 ((i mod PalettedStorage.blocksPerWord_ st) * PalettedStorage.bitsPerBlock_ st) in
    let* w := lift (vec_at (PalettedStorage.words_ st) wordIndex) in
    let paletteIndex := Z.land (Z.shiftr w offset) (PalettedStorage.mask_ st) in
    let* palette := get_st in
    if paletteIndex >=? size palette then
      raise (BedrockChunkError "paletted storage index exceeds palette size")
    else
      let* e := lift (vec_at palette paletteIndex) in
      let* palette := lift (vec_set palette paletteIndex (set_count (to_u32 (count e + 1)) e)) in
      put_st palette in
  (cell st i < size pal -> exists pal', body pal = (Ok tt, pal') /\ increment_inv todo pal') /\
  (size pal <= cell st i ->
     body pal = (Throw (BedrockChunkError "paletted storage index exceeds palette size"), pal)).
Proof.
  intros (d & Hd & Hids & Hcells & Hcnt) body.
  assert (0 <= i < 4096) as Hi.
  { apply elem_all_blocks. rewrite Hd. apply elem_of_app. right. by left. }
  destruct (PalettedStorage.slot_bounds st Hst i ltac:(done)) as (Hw & Ho & Hf).
  destruct (PalettedStorage.words_nth_ok st Hst _ Hw) as [Ew _].
  pose proof (PalettedStorage.wf_bits _ Hst).
  assert (body pal = (let* palette := get_st in
    if cell st i >=? size palette then
      raise (BedrockChunkError "paletted storage index exceeds palette size")
    else
      let* e := lift (vec_at palette (cell st i)) in
      let* palette := lift (vec_set palette (cell st i) (set_count (to_u32 (count e + 1)) e)) in
      put_st palette) pal) as ->.
  { unfold body. rewrite Ew. rewrite to_u8_id by (unfold is_u; change (2 ^ 8) with 256; lia). done. }
  clear body. rewrite (bind_ok get_st _ _ pal pal) by done.
  pose proof (PalettedStorage.cell_range st Hst i) as Hcr. split; intros Hc.
  - destruct (Z.geb_spec (cell st i) (size pal)); [lia|].
    destruct (vec_at_ok pal (cell st i) ltac:(lia)) as (e & Ee & He). rewrite Ee.
    unfold lift at 1. rewrite (bind_ok (fun s => (Ok e, s)) _ pal e pal eq_refl).
    rewrite vec_set_ok by lia. eexists. split; [done|].
    exists (d ++ [i]). split_and!; [by rewrite Hd, <-app_assoc| | |].
    + rewrite list_fmap_insert, <-Hids. apply list_insert_id. rewrite list_lookup_fmap, He. done.
    + intros j Hj. rewrite size_insert. apply elem_of_app in Hj as [Hj|Hj]; [by apply Hcells|].
      apply list_elem_of_singleton in Hj as ->. lia.
    + intros p f Hp. rewrite occurrences_app, occurrences_one.
      destruct (decide (Z.to_nat (cell st i) = p)) as [<-|Hne].
      * rewrite list_lookup_insert_eq in Hp by by eapply lookup_lt_Some. injection Hp as <-.
        cbn [set_count count]. rewrite (Hcnt _ _ He), Z2Nat.id, decide_True by (done || lia).
        pose proof (occurrences_le (cell st) d (cell st i)).
        pose proof (size_nonneg (filter (fun j => cell st j = cell st i) d)).
        assert (size d <= 4096) as Hsd.
        { apply (f_equal size) in Hd. rewrite size_app in Hd. pose proof (size_nonneg (i :: todo)).
          assert (size all_blocks = 4096) by done. lia. }
        rewrite to_u32_id; [done|]. unfold is_u, occurrences in *. lia.
      * rewrite list_lookup_insert_ne in Hp by done. rewrite (Hcnt _ _ Hp), decide_False by lia. lia.
  - by destruct (Z.geb_spec (cell st i) (size pal)); [|lia].
Qed.

Lemma increment_done pal :
  increment_inv [] pal -> size pal0 <= 2 ^ PalettedStorage.bitsPerBlock_ st -> layer_ok pal st.
Proof.
  intros Hinv Hfit. pose proof (increment_size _ _ Hinv) as Hsz.
  destruct Hinv as (d & Hd & _ & Hcells & Hcnt). rewrite app_nil_r in Hd. subst d. split; [split|].
  - done.
  - intros i Hi. apply Hcells. by apply elem_all_blocks.
  - lia.
  - intros p e He. by apply Hcnt.
Qed.

Lemma increment_safe :
  size pal0 <= 2 ^ PalettedStorage.bitsPerBlock_ st ->
  runs_safe (incrementPalette st) pal0 (fun _ pal => layer_ok pal st /\ size pal = size pal0).
Proof.
  intros Hfit. unfold incrementPalette.
  eapply runs_safe_mono; [apply (for_each_runs_safe _ increment_inv)|].
  - intros i todo pal Hinv. destruct (increment_step i todo pal Hinv) as [Hok Hbad].
    unfold runs_safe. cbv zeta in Hok, Hbad.
    destruct (decide (cell st i < size pal)) as [Hlt|Hge].
    + destruct (Hok Hlt) as (pal' & E & Hinv'). by rewrite E.
    + by rewrite Hbad by lia.
  - apply increment_start.
  - intros [] pal Hinv. split; [by apply increment_done|by eapply increment_size].
Qed.

Lemma increment_ok :
  size pal0 <= 2 ^ PalettedStorage.bitsPerBlock_ st ->
  (forall i, 0 <= i < 4096 -> cell st i < size pal0) ->
  exists pal, incrementPalette st pal0 = (Ok tt, pal) /\ layer_ok pal st /\
    set_count 0 <$> pal = set_count 0 <$> pal0.
Proof.
  intros Hfit Hc. unfold incrementPalette. fold all_blocks.
  match goal with |- exists pal, for_each _ ?body _ = _ /\ _ =>
    destruct (for_each_ok body increment_inv all_blocks pal0) as (pal & E & Hinv) end.
  - intros i todo pal Hinv. pose proof (increment_size _ _ Hinv) as Hsz.
    destruct (increment_step i todo pal Hinv) as [Hok _]. apply Hok. rewrite Hsz. apply Hc.
    destruct Hinv as (d & Hd & _). apply elem_all_blocks. rewrite Hd. apply elem_of_app. right. by left.
  - apply increment_start.
  - exists pal. split; [exact E|]. split; [by apply increment_done|]. by destruct Hinv as (? & _ & ? & _).
Qed.

End Increment.

(** ** Decoding arbitrary bytes *)

(** A resolver callback that returns or throws. *)
Definition resolver_safe (resolver : BedrockBlockStateResolver) : Prop :=
  match resolver with None => True | Some f => forall n st v, safe (f n st v) end.

Lemma steps_readZigZag : steps 0 readZigZagVarInt.
Proof. apply (steps_bind 0 0); [lia|apply steps_readVarUInt|intros; apply steps_ret]. Qed.

Lemma steps_readRuntimeSingle : steps 0 readRuntimeSingleStateId.
Proof. apply (steps_bind 0 0); [lia|apply steps_readVarUInt|intros; apply steps_ret]. Qed.

Lemma persistent_entry_safe air resolver doc :
  resolver_safe resolver -> safe (persistent_entry air resolver doc) /\
  forall e, persistent_entry air resolver doc = Ok e -> count e = 0.
Proof.
  intros Hr. unfold persistent_entry.
  destruct (bool_decide _); [done|]. destruct (find _ "name") as [nt|]; [|done].
  destruct (bool_decide _); [done|].
  destruct (match find (root doc) "states" with Some t => _ | None => false end); [done|].
  destruct (find _ "version") as [vt|]; [|done]. destruct (_ || _); [done|].
  destruct resolver as [f|]; cbn [rbind].
  - pose proof (Hr (stringValue nt)
      (match find (root doc) "states" with None => nbt_compound [] | Some t => t end)
      (to_i32 (integerValue vt))) as Hs.
    destruct (f _ _ _) as [o|e]; cbn [rbind]; [|done]. split; [done|]. by intros e [= <-].
  - split; [done|]. by intros e [= <-].
Qed.

(** A parse that is wrapped in a handler that throws. *)
Lemma psafe_catch_raise {T A} (m : M (T * BinaryStream) A) (g : exn -> exn) P Q :
  psafe m P Q -> (forall e, is_stuck e = false -> is_stuck (g e) = false) ->
  psafe (catch m (fun e => raise (g e))) P Q.
Proof.
  intros Hm Hg t s Ht Hs Hb. specialize (Hm t s Ht Hs Hb). unfold runs_safe, catch in *.
  destruct (m (t, s)) as [[a|e] [t' s']]; [done|]. rewrite Hm. cbn. by apply Hg.
Qed.

(** A member of the NBT codec. *)
Lemma psafe_stream_steps {T A} (m : M BinaryStream A) (P : T -> Prop) :
  stream_steps m -> psafe (on_stream m) P (fun _ => P).
Proof.
  intros Hm t s Ht Hs Hb. specialize (Hm s Hs Hb). unfold runs_safe, on_stream, zoom. cbn [fst snd].
  destruct (m s) as [[a|e] s']; [|by destruct Hm]. destruct Hm as (? & _ & ?). by split_and!.
Qed.

Section Load.
Context (s : BedrockSubChunk) (Hs : sub_ok s) (Hroom : size (palettes_ s) < 256).
Context (resolver : BedrockBlockStateResolver) (Hres : resolver_safe resolver).
Local Abbreviation layer := (size (palettes_ s)).

Definition at_layer (R : list BedrockBlockState -> Storage -> Prop) (t : BedrockSubChunk) : Prop :=
  exists pal st, t = with_layer s pal st /\ R pal st.

Lemma psafe_on_palette {A} (m : M _ A) (R : _ -> Storage -> Prop) Q :
  (forall pal st, R pal st -> runs_safe m pal (fun a pal' => Q a pal' st)) ->
  psafe (on_object (on_palette layer m)) (at_layer R) (fun a => at_layer (Q a)).
Proof.
  intros H. apply psafe_object. intros t (pal & st & -> & HR). specialize (H pal st HR).
  unfold runs_safe in *. destruct (m pal) as [r pal'] eqn:E.
  rewrite (with_layer_on_palette s Hs m pal st r pal' E). destruct r as [a|e]; [|done].
  by exists pal', st.
Qed.

Lemma psafe_read_words b :
  psafe (on_block_stream layer PalettedStorage.read)
    (at_layer (fun _ st => PalettedStorage.wf st /\ PalettedStorage.bitsPerBlock_ st = b))
    (fun _ => at_layer (fun _ st => PalettedStorage.wf st /\ PalettedStorage.bitsPerBlock_ st = b)).
Proof.
  intros t str (pal & st & -> & HR) Hv Hb.
  pose proof (PalettedStorage.read_psafe b st str HR Hv Hb) as H. unfold runs_safe in *.
  destruct (PalettedStorage.read (st, str)) as [r [st' str']] eqn:E.
  rewrite (with_layer_on_block_stream s Hs _ pal st str r st' str' E).
  destruct r as [[]|e]; [|done]. destruct H as (H & ? & ?). cbn [fst snd] in *.
  split_and!; [by exists pal, st'|done..].
Qed.

(** Every palette entry starts unused. *)
Definition reading (b n : Z) (todo : list Z) : BedrockSubChunk -> Prop :=
  at_layer (fun pal st => (PalettedStorage.wf st /\ PalettedStorage.bitsPerBlock_ st = b) /\
    Forall (fun e => count e = 0) pal /\ size pal + size todo = n).

Lemma psafe_push_entry b n i todo e :
  count e = 0 ->
  psafe (on_object (on_palette layer (let* p := get_st in put_st (p ++ [e]))))
    (reading b n (i :: todo)) (fun _ => reading b n todo).
Proof.
  intros He. apply psafe_on_palette. intros pal st (Hst & Hz & Hn). rewrite size_cons in Hn.
  apply (runs_safe_bind _ _ _ (fun p p' => p = pal /\ p' = pal)); [by apply runs_safe_get|].
  intros ? ? [-> ->]. apply runs_safe_put. rewrite size_snoc. split; [done|]. split; [|lia].
  apply Forall_app. split; [done|]. by constructor.
Qed.

Lemma psafe_runtime_entry b n i todo :
  psafe (read_runtime_entry layer) (reading b n (i :: todo)) (fun _ => reading b n todo).
Proof.
  unfold read_runtime_entry.
  eapply (psafe_bind _ _ _ (fun _ => reading b n (i :: todo)));
    [by apply (psafe_stream _ 0); [lia|apply steps_readZigZag|]|]. intros id.
  eapply psafe_bind; [apply psafe_get|]. cbv beta. intros t.
  eapply psafe_weaken; [by apply (psafe_push_entry b n i todo)| |done]. by intros ? [_ ?].
Qed.

Lemma psafe_persistent_entry format b n i todo :
  psafe (read_persistent_entry layer format resolver i) (reading b n (i :: todo))
    (fun _ => reading b n todo).
Proof.
  unfold read_persistent_entry.
  eapply (psafe_bind _ _ _ (fun _ => reading b n (i :: todo))).
  { apply psafe_catch_raise; [|done]. apply psafe_stream_steps. apply read_safe. done. }
  intros doc. eapply psafe_bind; [apply psafe_get|]. cbv beta. intros t.
  eapply (psafe_bind _ _ _ (fun e t => count e = 0 /\ reading b n (i :: todo) t)).
  { destruct (persistent_entry_safe (airStateId_ t) resolver doc Hres) as [H1 H2].
    apply psafe_lift; [done|]. intros e u E [_ Hu]. auto. }
  intros e. cbv beta. intros u str [He Hu] Hv Hb. by apply (psafe_push_entry b n i todo e He).
Qed.

(** The last step: counting, and the finished layer. *)
Lemma psafe_count b n :
  n <= 2 ^ b -> 
  psafe (on_object (let* block := block_at layer in on_palette layer (incrementPalette block)))
    (reading b n []) (fun _ => at_layer (fun pal st => layer_ok pal st /\ size pal = n)).
Proof.
  intros Hn. apply psafe_object. intros t (pal & st & -> & (Hst & Hb) & Hz & Hsz).
  rewrite size_nil in Hsz. unfold runs_safe.
  rewrite (bind_ok _ _ _ _ _ (with_layer_block_at s Hs pal st)).
  pose proof (increment_safe st Hst pal Hz ltac:(rewrite Hb; lia)) as H. unfold runs_safe in H.
  destruct (incrementPalette st pal) as [r pal'] eqn:E.
  rewrite (with_layer_on_palette s Hs _ pal st r pal' E). destruct r as [[]|e]; [|done].
  exists pal', st. split; [done|]. destruct H. split; [done|lia].
Qed.

(** A loaded layer. *)
Definition loaded : BedrockSubChunk -> Prop :=
  at_layer (fun pal st => layer_ok pal st /\ size pal <= 4096).

Lemma push_and_put bits t :
  0 <= bits -> t = s ->
  runs_safe (while_short (layer_fuel layer) layer (push_layer (Z.max 1 bits)) ;;;
     let* storage := lift (PalettedStorage.make (Z.max 1 bits)) in
     put_block layer storage) t
    (fun _ => at_layer (fun _ st => PalettedStorage.wf st /\
       PalettedStorage.bitsPerBlock_ st = Z.max 1 bits /\ Z.max 1 bits <= 32 /\
       forall i, cell st i = 0)).
Proof.
  intros Hb ->. unfold runs_safe. destruct (decide (Z.max 1 bits <= 32)) as [Hle|Hgt].
  - destruct (PalettedStorage.make_ok (Z.max 1 bits) ltac:(lia)) as (st & E & Hst & Hbits & Hc).
    rewrite (bind_ok _ _ _ _ _ (push_new s Hs _ st E)). rewrite E. unfold lift at 1.
    rewrite (bind_ok (fun s0 => (Ok st, s0)) _ _ st _ eq_refl).
    rewrite (with_layer_put_block s Hs [] st st). exists [], st. split; [done|].
    split_and!; [done|lia|done|done].
  - pose proof (PalettedStorage.make_throws (Z.max 1 bits) ltac:(lia)) as E.
    destruct (push_new_throws s _ _ E) as (s' & Ew). by rewrite (bind_throw _ _ _ _ _ Ew).
Qed.

Lemma psafe_runtime_zero :
  psafe (on_object (
      while_short (layer_fuel layer) layer (push_layer 1) ;;;
      put_palette layer [] ;;;
      let* storage := lift (PalettedStorage.make 1) in
      put_block layer storage) ;;;
    let* id := on_stream readRuntimeSingleStateId in
    on_object (addToPalette layer id PalettedStorage.StorageSize)) (eq s) (fun _ => loaded).
Proof.
  destruct (zero_bits_layer s Hs) as (st & Hst & Hb & Hc & E).
  eapply (psafe_bind _ _ _ (fun _ => eq (with_layer s [] st))).
  { apply psafe_object. intros t <-. unfold runs_safe. by rewrite E. }
  intros _. eapply (psafe_bind _ _ _ (fun _ => eq (with_layer s [] st)));
    [by apply (psafe_stream _ 0); [lia|apply steps_readRuntimeSingle|]|]. intros id.
  apply psafe_object. intros t <-. unfold runs_safe.
  destruct (add_single s Hs id st Hst Hb Hc) as (pal & st' & -> & Hok & Hsz & _).
  exists pal, st'. split; [done|]. split; [done|lia].
Qed.

Lemma load_safe bits format :
  0 <= bits -> psafe (loadPalettedBlocks layer bits format resolver) (eq s) (fun _ => loaded).
Proof.
  intros Hb. unfold loadPalettedBlocks. destruct (_ && _); [apply psafe_runtime_zero|].
  set (b := Z.max 1 bits).
  eapply (psafe_bind _ _ _ (fun _ t => b <= 32 /\ at_layer (fun _ st => PalettedStorage.wf st /\
    PalettedStorage.bitsPerBlock_ st = b) t)).
  { apply psafe_object. intros t <-.
    eapply runs_safe_mono; [by apply push_and_put|]. intros [] t (pal & st & -> & ? & ? & ? & _).
    split; [done|]. by exists pal, st. }
  intros _. intros t str [Hb32 Ht] Hv Hbytes. revert t str Ht Hv Hbytes.
  change (psafe (on_block_stream layer PalettedStorage.read ;;;
    let* paletteSizeValue := on_stream (if bool_decide (format = LocalPersistence)
                                        then readU32LE else readZigZagVarInt) in
    if (paletteSizeValue <? 1) || (paletteSizeValue >? PalettedStorage.StorageSize) then
      raise (BedrockChunkError
        ("invalid subchunk palette size: " +:+ to_string_signed paletteSizeValue))
    else
      let paletteSize := to_u32 paletteSizeValue in
      if (bits <? 32) && (paletteSize >? to_u32 (Z.shiftl 1 b)) then
        raise (BedrockChunkError "subchunk palette does not fit bitsPerBlock")
      else
        on_object (put_palette layer []) ;;;
        for_each (seqZ 0 paletteSize) (fun i =>
          if bool_decide (format = Runtime) then read_runtime_entry layer
          else read_persistent_entry layer format resolver i) ;;;
        on_object (let* block := block_at layer in on_palette layer (incrementPalette block)))
    (at_layer (fun _ st => PalettedStorage.wf st /\ PalettedStorage.bitsPerBlock_ st = b))
    (fun _ => loaded)).
  eapply psafe_bind; [apply psafe_read_words|]. cbv beta. intros _.
  eapply (psafe_bind _ _ _ (fun _ => at_layer (fun _ st => PalettedStorage.wf st /\
    PalettedStorage.bitsPerBlock_ st = b))).
  { destruct (bool_decide _); [apply (psafe_stream _ 4)|apply (psafe_stream _ 0)];
      auto using steps_readU32LE, steps_readZigZag with lia. }
  intros n. destruct (Z.ltb_spec n 1); [by apply psafe_raise|].
  destruct (Z.gtb_spec n PalettedStorage.StorageSize) as [|Hn]; [by apply psafe_raise|]. cbn [orb].
  unfold PalettedStorage.StorageSize in Hn. rewrite to_u32_id by (unfold is_u; lia).
  destruct ((bits <? 32) && (n >? to_u32 (Z.shiftl 1 b))) eqn:Efit; [by apply psafe_raise|].
  assert (n <= 2 ^ b) as Hfit.
  { destruct (Z.ltb_spec bits 32) as [Hlt|Hge].
    - cbn [andb] in Efit. rewrite shiftl_mul, Z.mul_1_l in Efit by lia.
      assert (0 < 2 ^ b < 2 ^ 32) by (split; [apply pow2_pos; lia|apply Z.pow_lt_mono_r; lia]).
      rewrite to_u32_id in Efit by (unfold is_u; lia). lia.
    - pose proof (Z.pow_le_mono_r 2 12 b ltac:(lia) ltac:(lia)) as Hp. change (2 ^ 12) with 4096 in Hp. lia. }
  eapply (psafe_bind _ _ _ (fun _ => reading b n (seqZ 0 n))).
  { apply psafe_object. intros t (pal & st & -> & Hst). unfold runs_safe.
    rewrite (with_layer_put_palette s Hs). exists [], st. split; [done|]. split; [done|]. split; [by constructor|].
    unfold size. rewrite length_seqZ. cbn. lia. }
  intros _. eapply (psafe_bind _ _ _ (fun _ => reading b n [])).
  { apply (psafe_for_each _ _ (reading b n)). intros i todo.
    destruct (bool_decide _); [apply psafe_runtime_entry|apply psafe_persistent_entry]. }
  intros _. eapply psafe_weaken; [by apply (psafe_count b n)|done|].
  intros [] t (pal & st & -> & Hok & Hsz). exists pal, st. split; [done|]. split; [done|lia].
Qed.

End Load.

Lemma psafe_eq {T A} (m : M (T * BinaryStream) A) P Q :
  (forall t, P t -> psafe m (eq t) Q) -> psafe m P Q.
Proof. intros H t s Ht. by apply (H t Ht t s). Qed.

(** What decoding establishes. *)
Definition decoded (air : Z) (t : BedrockSubChunk) : Prop :=
  sub_ok t /\ Forall (fun pal => size pal <= 4096) (palettes_ t) /\ airStateId_ t = air /\ is_s 8 (y_ t).

Definition layers_left (air n : Z) (todo : list Z) (t : BedrockSubChunk) : Prop :=
  decoded air t /\ size (palettes_ t) + size todo = n /\
  todo = seqZ (size (palettes_ t)) (size todo).

Lemma read_layer_safe air n format resolver i todo :
  n <= 2 -> resolver_safe resolver ->
  psafe (read_layer format resolver i) (layers_left air n (i :: todo))
    (fun _ => layers_left air n todo).
Proof.
  intros Hn Hres. unfold read_layer.
  eapply (psafe_bind _ _ _ (fun _ => layers_left air n (i :: todo)));
    [by apply (psafe_stream _ 1); [lia|apply steps_readU8|]|]. intros ty.
  destruct (_ && _); [by apply psafe_raise|].
  apply psafe_eq. intros t ((Ht & Hp & Ha & Hy) & Hsz & Htodo). rewrite size_cons in Hsz, Htodo.
  pose proof (size_nonneg todo). pose proof (size_nonneg (palettes_ t)).
  rewrite seqZ_cons in Htodo by lia. injection Htodo as -> Htodo.
  replace (Z.pred (size todo + 1)) with (size todo) in Htodo by lia.
  eapply psafe_weaken; [apply (load_safe t Ht resolver Hres); apply to_u8_range|done|].
  intros [] u (pal & st & -> & Hok & Hpal). destruct (with_layer_sizes t Ht pal st) as [E _].
  split; [split_and!|split].
  - apply (with_layer_ok t Ht); [lia|done].
  - cbn. apply Forall_app. split; [done|]. by constructor.
  - done.
  - done.
  - lia.
  - by rewrite E.
Qed.

Lemma read_header_safe (P : BedrockSubChunk -> Prop) :
  (forall v t, P t -> P (set_version v t)) -> (forall y t, P t -> P (set_y (to_i8 y) t)) ->
  psafe read_header P (fun n t => 0 <= n /\ P t).
Proof.
  intros Hv Hy. unfold read_header.
  assert (forall v, psafe (on_object (let* s := get_st in put_st (set_version v s))) P (fun _ => P)) as Hset
    by (intros v; apply psafe_object; intros t Ht; by apply Hv).
  eapply (psafe_bind _ _ _ (fun _ => P)); [by apply (psafe_stream _ 1); [lia|apply steps_readU8|]|].
  intros version. eapply psafe_bind; [apply Hset|]. cbv beta. intros _.
  destruct (version =? 1).
  { eapply psafe_bind; [apply Hset|]. cbv beta. intros _. by apply psafe_ret. }
  destruct (_ || _); [|by apply psafe_raise].
  eapply (psafe_bind _ _ _ (fun n t => 0 <= n /\ P t)).
  { apply (psafe_stream _ 1); [lia|apply steps_readU8|]. intros t s n s' Ht Hs Hb E.
    split; [|done]. by eapply readU8_range. }
  intros n. eapply (psafe_bind _ _ _ (fun _ t => 0 <= n /\ P t)).
  - destruct (version >=? 9); [|by apply psafe_ret].
    eapply (psafe_bind _ _ _ (fun _ t => 0 <= n /\ P t)); [by apply (psafe_stream _ 1); [lia|apply steps_readU8|]|].
    intros y. apply psafe_object. intros t [? Ht]. split; [done|by apply Hy].
  - intros _. by apply psafe_ret.
Qed.

Lemma decodeFrom_safe format air resolver :
  resolver_safe resolver ->
  psafe (decodeFrom format air resolver) (fun t => sub_ok t /\ is_s 8 (y_ t))
    (fun _ t => decoded air t /\ 1 <= layerCount t <= 2).
Proof.
  intros Hres. unfold decodeFrom.
  set (P := fun t => decoded air t /\ palettes_ t = []).
  eapply (psafe_bind _ _ _ (fun _ => P)).
  { apply psafe_object. intros t [Ht Hy]. apply runs_safe_put. split; [|done]. split_and!; [|by constructor|done|done].
    destruct Ht. split; cbn; [constructor|done|done|done]. }
  cbv beta. intros _. eapply psafe_bind; [apply (read_header_safe P)|].
  - intros v t [(Ht & ? & ? & ?) ?]. split; [|done]. split_and!; [|done..]. by destruct Ht.
  - intros y t [(Ht & ? & ? & ?) ?]. split; [|done]. split_and!; [by destruct Ht|done|done|]. apply to_signed_range; lia.
  - cbv beta. intros n. destruct (Z.eqb_spec n 0); [by apply psafe_raise|].
    destruct (Z.gtb_spec n 2); [by apply psafe_raise|]. cbn [orb].
    apply psafe_eq. intros t (Hn & Ht & Hp).
    eapply psafe_weaken; [apply (psafe_for_each _ _ (layers_left air n)); intros i todo;
      apply read_layer_safe; [lia|done]| |].
    + intros ? <-. split; [done|]. rewrite Hp. unfold size. rewrite length_seqZ. cbn.
      split; [lia|]. by rewrite Z2Nat.id.
    + intros [] u (Hu & Hsz & _). split; [done|]. unfold layerCount. rewrite (layers_size u) by apply Hu.
      rewrite size_nil in Hsz. lia.
Qed.

(** Decoding a section from any bytes, in any of the three formats, is
    memory safe and ends: an exception of the program, or a section with one or
    two layers that satisfies the invariant, so that every block of it can be
    read and written. *)
Theorem subchunk_decode_safe format data air resolver :
  is_bytes data -> resolver_safe resolver ->
  match decode format data air resolver with
  | Ok s => sub_ok s /\ 1 <= layerCount s <= 2 /\ Forall (fun pal => size pal <= 4096) (palettes_ s) /\
      forall layer x y z, 0 <= layer -> exists id, getBlockStateId layer x y z s = Ok id
  | Throw e => is_stuck e = false
  end.
Proof.
  intros Hb Hres. unfold decode. destruct (make_sub_ok 0 9) as (s & -> & Hs & _ & _ & Hy & _). cbn [rbind].
  pose proof (decodeFrom_safe format air resolver Hres s (from_data data)) as H.
  specialize (H ltac:(split; [done|by rewrite Hy]) (valid_from_data data) Hb).
  unfold runs_safe in H. destruct (decodeFrom format air resolver (s, from_data data)) as [[[]|e] [t str]]; [|done].
  cbn [fst snd] in H. destruct H as (((Ht & Hp & _) & Hc) & _). split_and!; [done|lia|lia|done|].
  intros layer x y z Hl. eexists. by apply getBlockStateId_ok.
Qed.

Lemma subchunk_decode_safe_witness :
  match decode Runtime [9; 1; 0; 3; 255] 0 None with
  | Ok s => sub_ok s /\ 1 <= layerCount s <= 2 /\ Forall (fun pal => size pal <= 4096) (palettes_ s) /\
      forall layer x y z, 0 <= layer -> exists id, getBlockStateId layer x y z s = Ok id
  | Throw e => is_stuck e = false
  end.
Proof. apply subchunk_decode_safe; [by apply (bool_decide_unpack _)|exact I]. Defined.

(** ** The runtime encoding *)

Definition enc_zz (v : Z) : bytes := leb_encode 5 (zigzag v).

(** What the one-entry form makes of a state: the reader halves the number
    instead of undoing the zigzag. *)
Definition single_id (v : Z) : Z := if 0 <=? v then v else - v - 1.

Definition enc_layer (pal : list BedrockBlockState) (st : Storage) : bytes :=
  match pal with
  | [e] => [1] ++ enc_zz (stateId e)
  | _ => [PalettedStorage.bitsPerBlock_ st * 2 + 1] ++
         PalettedStorage.enc_words (PalettedStorage.words_ st) ++
         enc_zz (size pal) ++ (pal ≫= fun e => enc_zz (stateId e))
  end.

Lemma enc_zz_bytes v : is_s 32 v -> is_bytes (enc_zz v).
Proof. intros Hv. apply leb_encode_bytes. by apply (zigzag_range 32). Qed.

Lemma write_zz v : is_s 32 v -> oappends (writeZigZagVarInt v) (enc_zz v) tt.
Proof.
  intros Hv. unfold writeZigZagVarInt. rewrite zigzag_shift_ok by done.
  apply oappends_appends, appends_VarUInt. by apply zigzag_range.
Qed.

Lemma read_zz v : is_s 32 v -> reads readZigZagVarInt (enc_zz v) v.
Proof.
  intros Hv. pose proof (zigzag_range 32 v ltac:(lia) Hv) as Hz. unfold readZigZagVarInt.
  pose proof (consumes_bind_ret readVarUInt (unzigzag_neg 32) _ _ (reads_VarUInt _ Hz)) as H.
  by rewrite unzigzag_neg_ok, unzigzag_zigzag in H.
Qed.

Lemma to_i32_id u : 0 <= u < 2147483648 -> to_i32 u = u.
Proof.
  intros Hu. unfold to_i32, to_signed. rewrite Z.mod_small by (change (2 ^ 32) with 4294967296; lia).
  change (2 ^ (32 - 1)) with 2147483648. by rewrite (proj2 (Z.ltb_lt _ _)) by lia.
Qed.

Lemma read_single v : is_s 32 v -> reads readRuntimeSingleStateId (enc_zz v) (single_id v).
Proof.
  intros Hv. pose proof (zigzag_range 32 v ltac:(lia) Hv) as Hz. unfold readRuntimeSingleStateId.
  pose proof (consumes_bind_ret readVarUInt (fun u => to_i32 (Z.shiftr u 1)) _ _ (reads_VarUInt _ Hz)) as H.
  cbv beta in H. replace (to_i32 (Z.shiftr (zigzag v) 1)) with (single_id v) in H; [done|].
  rewrite shiftr_div by lia. change (2 ^ 1) with 2. unfold single_id, zigzag.
  unfold is_s in Hv. change (2 ^ (32 - 1)) with 2147483648 in Hv.
  destruct (Z.leb_spec 0 v).
  - rewrite Z.mul_comm, Z.div_mul by lia. by rewrite to_i32_id by lia.
  - replace ((-2 * v - 1) / 2) with (- v - 1) by (apply (Z.div_unique _ 2 (- v - 1) 1); lia).
    by rewrite to_i32_id by lia.
Qed.

(** A palette the encoder accepts. *)
Definition writable (pal : list BedrockBlockState) : Prop :=
  1 <= size pal <= 4096 /\ Forall (fun e => is_s 32 (stateId e)) pal.

Lemma size_is_s32 n : 0 <= n <= 4096 -> is_s 32 n.
Proof. intros. unfold is_s. change (2 ^ (32 - 1)) with 2147483648. lia. Qed.

Lemma enc_layer_bytes pal st : layer_wf pal st -> writable pal -> is_bytes (enc_layer pal st).
Proof.
  intros Hwf [Hsz Hids]. pose proof (PalettedStorage.wf_bits _ (lw_wf _ _ Hwf)).
  unfold enc_layer. destruct pal as [|e [|f pal]]; [rewrite size_nil in Hsz; lia| |].
  - apply is_bytes_app. split; [by apply (bool_decide_unpack _)|].
    apply Forall_cons_1 in Hids as [? _]. by apply enc_zz_bytes.
  - rewrite !is_bytes_app. split_and!.
    + constructor; [|constructor]. unfold is_u. change (2 ^ 8) with 256. lia.
    + apply PalettedStorage.enc_words_bytes.
    + apply enc_zz_bytes. apply size_is_s32. lia.
    + clear Hsz Hwf. revert Hids. generalize (e :: f :: pal). induction 1 as [|g l Hg Hl IH]; [constructor|].
      rewrite bind_cons, is_bytes_app. split; [by apply enc_zz_bytes|done].
Qed.

Lemma writeStorage_appends s layer pal st provider :
  0 <= layer -> palettes_ s !! Z.to_nat layer = Some pal -> blocks_ s !! Z.to_nat layer = Some st ->
  layer_wf pal st -> writable pal ->
  oappends (writeStorage s layer Runtime provider) (enc_layer pal st) tt.
Proof.
  intros Hl Hp Hst Hwf [Hsz Hids]. unfold writeStorage.
  pose proof (lookup_lt_Some _ _ _ Hp) as L1. pose proof (lookup_lt_Some _ _ _ Hst) as L2.
  destruct (Z.geb_spec layer (size (blocks_ s))); [unfold size in *; lia|].
  destruct (Z.geb_spec layer (size (palettes_ s))); [unfold size in *; lia|]. cbn [orb].
  rewrite (vec_at_lookup _ _ _ Hl Hp), (vec_at_lookup _ _ _ Hl Hst).
  assert (forall {A B} (a : A) (f : A -> M BinaryStream B) k b,
    oappends (f a) k b -> oappends (bind (lift (Ok a)) f) k b) as Hlift.
  { intros A B a f k b Hf str Hstr. by apply Hf. }
  apply Hlift. unfold PalettedStorage.StorageSize.
  destruct (Z.eqb_spec (size pal) 0); [lia|]. destruct (Z.gtb_spec (size pal) 4096); [lia|]. cbn [orb].
  rewrite bool_decide_true by done. cbn [andb]. rewrite (bool_decide_false (Runtime = LocalPersistence)) by done.
  pose proof (PalettedStorage.wf_bits _ (lw_wf _ _ Hwf)) as Hb.
  unfold enc_layer. destruct pal as [|e [|f pal]]; [rewrite size_nil in Hsz; lia| |].
  - change (size [e] =? 1) with true. cbn iota.
    eapply oappends_bind; [apply oappends_appends, appends_U8|]. apply Hlift.
    apply write_zz. by apply Forall_cons_1 in Hids as [? _].
  - destruct (Z.eqb_spec (size (e :: f :: pal)) 1) as [E|_].
    { rewrite !size_cons in E. pose proof (size_nonneg pal). lia. }
    apply Hlift. unfold PalettedStorage.bitsPerBlock.
    assert (Z.lor (to_u8 (Z.shiftl (PalettedStorage.bitsPerBlock_ st) 1)) 1 =
      PalettedStorage.bitsPerBlock_ st * 2 + 1) as ->.
    { rewrite shiftl_mul by lia. change (2 ^ 1) with 2.
      rewrite to_u8_id by (unfold is_u; change (2 ^ 8) with 256; lia).
      rewrite Z.lor_comm. pose proof (lor_mul_add 1 (PalettedStorage.bitsPerBlock_ st) 1) as E.
      change (2 ^ 1) with 2 in E. rewrite E by lia. lia. }
    eapply oappends_bind; [apply oappends_appends, appends_U8|].
    eapply oappends_bind; [apply PalettedStorage.write_appends|].
    eapply oappends_bind.
    + rewrite to_i32_id by lia. apply write_zz, size_is_s32. lia.
    + apply oappends_for_each. intros g Hg. apply write_zz.
      exact (proj1 (Stdlib.Lists.List.Forall_forall _ _) Hids g (proj1 (list_elem_of_In _ _) Hg)).
Qed.

(** ** The encoding loop *)

Definition written (compactStorage : bool) (pal : list BedrockBlockState) : list BedrockBlockState :=
  if compactStorage then filter live pal else pal.

Definition encodable (compactStorage : bool) (pal : list BedrockBlockState) : Prop :=
  size pal < 2 ^ 32 /\ (compactStorage = false -> size pal <= 4096) /\
  Forall (fun e => is_s 32 (stateId e)) pal.

Lemma written_writable c pal st st' :
  layer_ok pal st -> encodable c pal -> layer_ok (written c pal) st' -> writable (written c pal).
Proof.
  intros Hok (_ & Hsz & Hids) Hok'. destruct c; cbn [written] in *.
  - split; [by eapply live_palette_size, filter_live_all|].
    apply Forall_forall. intros e He%list_elem_of_In%list_elem_of_filter.
    destruct He as [_ He]. exact (proj1 (Stdlib.Lists.List.Forall_forall _ _) Hids e (proj1 (list_elem_of_In _ _) He)).
  - split; [|done]. split; [|by apply Hsz].
    pose proof (lw_cells _ _ (proj1 Hok) 0 ltac:(lia)).
    pose proof (PalettedStorage.cell_range st (lw_wf _ _ (proj1 Hok)) 0). lia.
Qed.

(** The layers of a section, and their bytes. *)
Definition layers (s : BedrockSubChunk) : list (list BedrockBlockState * Storage) :=
  zip (palettes_ s) (blocks_ s).

Definition enc_layers (l : list (list BedrockBlockState * Storage)) : bytes :=
  l ≫= fun p => enc_layer p.1 p.2.

Lemma lookup_layers s k pal st :
  palettes_ s !! k = Some pal -> blocks_ s !! k = Some st -> layers s !! k = Some (pal, st).
Proof. intros Hp Hst. apply lookup_zip_with_Some. by exists pal, st. Qed.

Lemma layers_length s : sub_ok s -> length (layers s) = length (palettes_ s).
Proof. intros Hs. apply length_zip_with_l_eq, (Forall2_length (so_layers _ Hs)). Qed.

Lemma encode_loop_ok c provider : forall fuel layer s,
  sub_ok s -> 0 <= layer <= size (palettes_ s) -> size (palettes_ s) <= 255 ->
  size (palettes_ s) - layer <= Z.of_nat fuel -> Forall (encodable c) (drop (Z.to_nat layer) (palettes_ s)) ->
  exists s', sub_ok s' /\ same_header s s' /\ size (palettes_ s') = size (palettes_ s) /\
    (forall l i, 0 <= l -> 0 <= i < 4096 -> state_at s' l i = state_at s l i) /\
    (forall l, (l < Z.to_nat layer)%nat ->
       palettes_ s' !! l = palettes_ s !! l /\ blocks_ s' !! l = blocks_ s !! l) /\
    (forall l pal, (Z.to_nat layer <= l)%nat -> palettes_ s !! l = Some pal ->
       palettes_ s' !! l = Some (written c pal) /\ writable (written c pal)) /\
    oappends (encode_loop fuel layer s Runtime c provider)
      (enc_layers (drop (Z.to_nat layer) (layers s'))) tt.
Proof.
  induction fuel as [|fuel IH]; intros layer s Hs Hl H255 Hfuel He.
  - assert (layer = size (palettes_ s)) as -> by lia. exists s.
    split_and!; [done|done|done|done|done| |].
    + intros l pal Hll Hp. apply lookup_lt_Some in Hp. unfold size in *. lia.
    + cbn [encode_loop]. rewrite (layers_size s Hs), Z.ltb_irrefl, drop_ge
        by (rewrite layers_length by done; unfold size; lia). apply oappends_ret.
  - cbn [encode_loop]. rewrite (layers_size s Hs).
    destruct (Z.ltb_spec layer (size (palettes_ s))) as [Hlt|Hge].
    2:{ assert (layer = size (palettes_ s)) as -> by lia. exists s.
        split_and!; [done|done|done|done|done| |].
        + intros l pal Hll Hp. apply lookup_lt_Some in Hp. unfold size in *. lia.
        + rewrite drop_ge by (rewrite layers_length by done; unfold size; lia). apply oappends_ret. }
    destruct (layer_lookup s layer Hs ltac:(lia)) as (pal & st & Hp & Hst & Hok).
    assert (encodable c pal) as Hepal.
    { eapply (Forall_lookup_1 _ _ 0%nat); [exact He|]. rewrite lookup_drop, Nat.add_0_r. done. }
    assert (exists s1, (if c then exec (compact layer) s else Ok s) = Ok s1 /\ sub_ok s1 /\ same_header s s1 /\
      size (palettes_ s1) = size (palettes_ s) /\
      (forall l i, 0 <= l -> 0 <= i < 4096 -> state_at s1 l i = state_at s l i) /\
      (forall l, l <> Z.to_nat layer ->
         palettes_ s1 !! l = palettes_ s !! l /\ blocks_ s1 !! l = blocks_ s !! l) /\
      palettes_ s1 !! Z.to_nat layer = Some (written c pal)) as
      (s1 & E1 & Hs1 & Hh1 & Hsz1 & Hst1 & Hsame1 & Hpal1).
    { destruct c; [|by exists s].
      destruct (compact_ok s layer Hs ltac:(lia)) as (s1 & E & ? & ? & ? & ? & ? & Hw).
      { intros pal' Hp'. rewrite Hp in Hp'. injection Hp' as <-. by destruct Hepal. }
      exists s1. unfold exec. rewrite E. split_and!; try done. by apply Hw. }
    destruct (layer_lookup s1 layer Hs1 ltac:(lia)) as (pal1 & st1 & Hp1 & Hst1' & Hok1).
    rewrite Hpal1 in Hp1. injection Hp1 as <-.
    pose proof (written_writable c pal st st1 Hok Hepal Hok1) as Hw.
    destruct (IH (layer + 1) s1 Hs1 ltac:(lia) ltac:(lia) ltac:(lia)) as
      (s' & Hs' & Hh' & Hsz' & Hst' & Hsame' & Hw' & Happ).
    { replace (Z.to_nat (layer + 1)) with (S (Z.to_nat layer)) by lia.
      assert (drop (S (Z.to_nat layer)) (palettes_ s1) = drop (S (Z.to_nat layer)) (palettes_ s)) as ->.
      { apply list_eq. intros j. rewrite !lookup_drop. apply Hsame1. lia. }
      rewrite (drop_S _ pal) in He by done. by apply Forall_cons_1 in He as [_ ?]. }
    exists s'. split_and!; [done|by eapply same_header_trans|lia| | | |].
    + intros l i Hl0 Hi. by rewrite Hst', Hst1.
    + intros l Hll. destruct (Hsame' l ltac:(lia)) as [-> ->]. apply Hsame1. lia.
    + intros l p Hll Hlp. destruct (decide (l = Z.to_nat layer)) as [->|Hne].
      * rewrite Hp in Hlp. injection Hlp as <-. split; [|done].
        destruct (Hsame' (Z.to_nat layer) ltac:(lia)) as [-> _]. done.
      * apply Hw'; [lia|]. by rewrite (proj1 (Hsame1 l Hne)).
    + rewrite E1. intros str Hstr. unfold lift at 1.
      rewrite (bind_ok (fun s0 => (Ok s1, s0)) _ str s1 str eq_refl).
      destruct (Hsame' (Z.to_nat layer) ltac:(lia)) as [Ep Eb].
      rewrite (drop_S _ (written c pal, st1)) by (apply lookup_layers; congruence).
      unfold enc_layers. rewrite bind_cons. revert str Hstr.
      replace (Z.to_nat (layer + 1)) with (S (Z.to_nat layer)) in Happ by lia.
      rewrite (to_u8_id (layer + 1)) by (unfold is_u; change (2 ^ 8) with 256; lia).
      change (oappends (writeStorage s1 layer Runtime provider;;; encode_loop fuel (layer + 1) s1 Runtime c provider)
        (enc_layer (written c pal) st1 ++ enc_layers (drop (S (Z.to_nat layer)) (layers s'))) tt).
      eapply oappends_bind; [|exact Happ].
      apply writeStorage_appends; [lia|done|done|apply Hok1|done].
Qed.

(** ** Reading the runtime encoding back *)

Definition runtime_entry (s : BedrockSubChunk) (id : Z) : BedrockBlockState :=
  mkBlockState id (air_name id (airStateId_ s)) 0 (nbt_compound []) 0 false.

Lemma wf_same_bits s1 s2 :
  PalettedStorage.wf s1 -> PalettedStorage.wf s2 ->
  PalettedStorage.bitsPerBlock_ s1 = PalettedStorage.bitsPerBlock_ s2 ->
  PalettedStorage.set_words (PalettedStorage.words_ s2) s1 = s2 /\
  size (PalettedStorage.words_ s2) = size (PalettedStorage.words_ s1).
Proof.
  intros [H1 H2 H3 H4 H5 H6] [G1 G2 G3 G4 G5 G6] E.
  destruct s1 as [b1 p1 c1 m1 w1], s2 as [b2 p2 c2 m2 w2]. unfold PalettedStorage.set_words. cbn in *.
  subst. split; congruence.
Qed.

Lemma entry_id_ids (pal pal' : list BedrockBlockState) st i :
  stateId <$> pal = stateId <$> pal' -> entry_id pal st i = entry_id pal' st i.
Proof.
  intros E. unfold entry_id. apply (f_equal (lookup (Z.to_nat (cell st i)))) in E.
  rewrite !list_lookup_fmap in E.
  destruct (pal !! _), (pal' !! _); cbn in E; congruence.
Qed.

Lemma set_count_ids (pal pal' : list BedrockBlockState) : set_count 0 <$> pal = set_count 0 <$> pal' -> stateId <$> pal = stateId <$> pal'.
Proof.
  intros E. apply (f_equal (fmap stateId)) in E. rewrite <-!list_fmap_compose in E. exact E.
Qed.

Section ReadLayer.
Context (s : BedrockSubChunk) (Hs : sub_ok s) (resolver : BedrockBlockStateResolver).
Local Abbreviation layer := (size (palettes_ s)).

Lemma read_entries_preads st ids : forall a acc,
  Forall (is_s 32) ids ->
  preads (for_each (seqZ a (size ids)) (fun i =>
      if bool_decide (Runtime = Runtime) then read_runtime_entry layer
      else read_persistent_entry layer Runtime resolver i))
    (ids ≫= enc_zz) (with_layer s acc st) tt (with_layer s (acc ++ (runtime_entry s <$> ids)) st).
Proof.
  induction ids as [|id ids IH]; intros a acc Hids.
  - cbn [seqZ for_each fmap list_fmap]. rewrite app_nil_r. apply preads_ret.
  - apply Forall_cons_1 in Hids as [Hid Hids]. rewrite size_cons, bind_cons.
    pose proof (size_nonneg ids). rewrite seqZ_cons by lia.
    replace (Z.pred (size ids + 1)) with (size ids) by lia. cbn [for_each fmap list_fmap].
    eapply (preads_bind _ _ _ _ _ _ (with_layer s (acc ++ [runtime_entry s id]) st)).
    + rewrite bool_decide_true by done. unfold read_runtime_entry. rewrite <-(app_nil_r (enc_zz id)).
      eapply preads_bind; [apply preads_stream; by apply read_zz|].
      eapply preads_bind0; [apply preads_get|]. apply preads_object.
      by apply with_layer_on_palette.
    + replace (acc ++ runtime_entry s id :: (runtime_entry s <$> ids))
        with ((acc ++ [runtime_entry s id]) ++ (runtime_entry s <$> ids)) by by rewrite <-app_assoc.
      by apply IH.
Qed.

(** A layer of several entries. *)
Lemma load_many_preads pal st :
  layer_wf pal st -> writable pal -> size pal <> 1 ->
  exists pal', layer_ok pal' st /\ stateId <$> pal' = stateId <$> pal /\
    preads (loadPalettedBlocks layer (PalettedStorage.bitsPerBlock_ st) Runtime resolver)
      (PalettedStorage.enc_words (PalettedStorage.words_ st) ++
       enc_zz (size pal) ++ (pal ≫= fun e => enc_zz (stateId e)))
      s tt (with_layer s pal' st).
Proof.
  intros Hwf [Hsz Hids] Hne. set (b := PalettedStorage.bitsPerBlock_ st).
  pose proof (PalettedStorage.wf_bits _ (lw_wf _ _ Hwf)) as Hb. fold b in Hb.
  pose proof (lw_fits _ _ Hwf) as Hfit. fold b in Hfit.
  destruct (PalettedStorage.make_ok b ltac:(lia)) as (st0 & E0 & Hst0 & Hb0 & _).
  rewrite Z.max_r in Hb0 by lia.
  destruct (wf_same_bits st0 st Hst0 (lw_wf _ _ Hwf) Hb0) as [Hw1 Hw2].
  set (pal0 := runtime_entry s <$> (stateId <$> pal)).
  assert (size pal0 = size pal) as Hsz0 by (unfold pal0, size; by rewrite !length_fmap).
  assert (Forall (fun e => count e = 0) pal0) as Hz.
  { unfold pal0. apply Forall_fmap, Forall_fmap. apply Forall_forall. done. }
  destruct (increment_ok st (lw_wf _ _ Hwf) pal0 Hz) as (pal' & Einc & Hok & Hsame);
    [by rewrite Hsz0|intros i Hi; rewrite Hsz0; by apply (lw_cells _ _ Hwf)|].
  exists pal'. split_and!; [done| |].
  { rewrite (set_count_ids _ _ Hsame). unfold pal0. rewrite <-list_fmap_compose. apply list_fmap_id. }
  unfold loadPalettedBlocks. fold b. rewrite (proj2 (Z.eqb_neq b 0)), andb_false_r by lia.
  rewrite (Z.max_r 1 b) by lia.
  eapply preads_bind0.
  { apply preads_object. rewrite (bind_ok _ _ _ _ _ (push_new s Hs _ st0 E0)). rewrite E0.
    unfold lift at 1. rewrite (bind_ok (fun s0 => (Ok st0, s0)) _ _ st0 _ eq_refl).
    apply (with_layer_put_block s Hs). }
  eapply (preads_bind _ _ _ _ _ _ (with_layer s [] st)).
  { intros str r Hv Hby Hr. apply (with_layer_on_block_stream s Hs).
    pose proof (PalettedStorage.read_preads st0 (PalettedStorage.words_ st) Hw2
      (PalettedStorage.wf_words _ (lw_wf _ _ Hwf)) str r Hv Hby Hr) as Hread.
    by rewrite Hw1 in Hread. }
  rewrite (bool_decide_false (Runtime = LocalPersistence)) by done.
  eapply preads_bind; [apply preads_stream, read_zz, size_is_s32; lia|].
  destruct (Z.ltb_spec (size pal) 1); [lia|].
  destruct (Z.gtb_spec (size pal) PalettedStorage.StorageSize) as [Hgt|]; [unfold PalettedStorage.StorageSize in Hgt; lia|].
  cbn [orb]. rewrite to_u32_id by (unfold is_u; lia).
  assert ((b <? 32) && (size pal >? to_u32 (Z.shiftl 1 b)) = false) as ->.
  { destruct (Z.ltb_spec b 32); [|done]. cbn [andb]. rewrite shiftl_mul, Z.mul_1_l by lia.
    assert (0 < 2 ^ b < 2 ^ 32) by (split; [apply pow2_pos; lia|apply Z.pow_lt_mono_r; lia]).
    rewrite to_u32_id by (unfold is_u; lia). by destruct (Z.gtb_spec (size pal) (2 ^ b)); [lia|]. }
  eapply preads_bind0.
  { apply preads_object. apply (with_layer_put_palette s Hs). }
  rewrite <-(app_nil_r (pal ≫= _)).
  eapply (preads_bind _ _ _ _ _ _ (with_layer s pal0 st)).
  { pose proof (read_entries_preads st (stateId <$> pal) 0 []) as He. cbn [app] in He. fold pal0 in He.
    replace (size (stateId <$> pal)) with (size pal) in He by (unfold size; by rewrite length_fmap).
    replace ((stateId <$> pal) ≫= enc_zz) with (pal ≫= (fun e => enc_zz (stateId e))) in He.
    - apply He. by apply Forall_fmap.
    - clear. induction pal as [|e pal IH]; [done|]. by rewrite fmap_cons, !bind_cons, IH. }
  apply preads_object. rewrite (bind_ok _ _ _ _ _ (with_layer_block_at s Hs pal0 st)).
  by apply (with_layer_on_palette s Hs).
Qed.

(** A layer of one entry. *)
Lemma load_single_preads id :
  is_s 32 id ->
  exists pal' st', layer_ok pal' st' /\ (forall i, 0 <= i < 4096 -> entry_id pal' st' i = single_id id) /\
    preads (loadPalettedBlocks layer 0 Runtime resolver) (enc_zz id) s tt (with_layer s pal' st').
Proof.
  intros Hid. destruct (zero_bits_layer s Hs) as (st & Hst & Hb & Hc & E).
  destruct (add_single s Hs (single_id id) st Hst Hb Hc) as (pal' & st' & Ea & Hok & _ & Hids).
  exists pal', st'. split; [done|]. split; [done|].
  unfold loadPalettedBlocks. rewrite bool_decide_true by done. cbn [andb Z.eqb].
  eapply preads_bind0; [by apply preads_object|].
  rewrite <-(app_nil_r (enc_zz id)).
  eapply preads_bind; [apply preads_stream; by apply read_single|].
  by apply preads_object.
Qed.

(** What a layer becomes. *)
Definition read_back (l l' : list BedrockBlockState * Storage) : Prop :=
  layer_ok l'.1 l'.2 /\
  forall i, 0 <= i < 4096 -> entry_id l'.1 l'.2 i =
    if size l.1 =? 1 then single_id (entry_id l.1 l.2 i) else entry_id l.1 l.2 i.

Lemma read_layer_preads pal st :
  layer_wf pal st -> writable pal ->
  exists pal' st', read_back (pal, st) (pal', st') /\
    preads (read_layer Runtime resolver layer) (enc_layer pal st) s tt (with_layer s pal' st').
Proof.
  intros Hwf Hw. pose proof (PalettedStorage.wf_bits _ (lw_wf _ _ Hwf)) as Hb.
  assert (forall ty k t', Z.land ty 1 = 1 ->
    preads (loadPalettedBlocks layer (to_u8 (Z.shiftr ty 1)) Runtime resolver) k s tt t' ->
    preads (read_layer Runtime resolver layer) ([ty] ++ k) s tt t') as Hstep.
  { intros ty k t' Hty Hk. unfold read_layer.
    eapply preads_bind; [apply preads_stream, reads_U8|]. by rewrite Hty. }
  unfold read_back. cbn [fst snd]. destruct (Z.eqb_spec (size pal) 1) as [E1|Hne].
  - destruct pal as [|e [|f pal]]; [done| |rewrite !size_cons in E1; pose proof (size_nonneg pal); lia].
    destruct Hw as [_ Hids]. apply Forall_cons_1 in Hids as [Hid _].
    destruct (load_single_preads (stateId e) Hid) as (pal' & st' & Hok & Hids & Hp).
    exists pal', st'. split.
    + split; [done|]. intros i Hi. rewrite Hids by done. f_equal. unfold entry_id.
      pose proof (lw_cells _ _ Hwf i Hi). rewrite size_cons, size_nil in H.
      pose proof (PalettedStorage.cell_range st (lw_wf _ _ Hwf) i).
      by replace (cell st i) with 0 by lia.
    + cbn [enc_layer]. by apply Hstep.
  - destruct (load_many_preads pal st Hwf Hw Hne) as (pal' & Hok & Hids & Hp).
    exists pal', st. split; [split; [done|]; intros i Hi; by apply entry_id_ids|].
    assert (enc_layer pal st = [PalettedStorage.bitsPerBlock_ st * 2 + 1] ++
         PalettedStorage.enc_words (PalettedStorage.words_ st) ++
         enc_zz (size pal) ++ (pal ≫= fun e => enc_zz (stateId e))) as ->.
    { destruct pal as [|e [|f pal]]; [destruct Hw as [Hsz _]; rewrite size_nil in Hsz; lia|done|done]. }
    apply Hstep.
    + rewrite land_1. rewrite Z.add_comm, Z.mod_add by lia. done.
    + rewrite shiftr_div by lia. change (2 ^ 1) with 2. rewrite Z.add_comm, Z.div_add by lia.
      change (1 / 2 + PalettedStorage.bitsPerBlock_ st) with (PalettedStorage.bitsPerBlock_ st).
      rewrite to_u8_id by (unfold is_u; change (2 ^ 8) with 256; lia). done.
Qed.

End ReadLayer.

(** The section with more layers. *)
Definition with_layers (s : BedrockSubChunk) (l : list (list BedrockBlockState * Storage)) :=
  set_blocks (blocks_ s ++ l.*2) (set_palettes (palettes_ s ++ l.*1) s).

Lemma read_layers_preads resolver l : forall s,
  sub_ok s -> size (palettes_ s) + size l <= 256 ->
  Forall (fun p => layer_wf p.1 p.2 /\ writable p.1) l ->
  exists l', Forall2 read_back l l' /\ sub_ok (with_layers s l') /\
    preads (for_each (seqZ (size (palettes_ s)) (size l)) (read_layer Runtime resolver))
      (enc_layers l) s tt (with_layers s l').
Proof.
  induction l as [|[pal st] l IH]; intros s Hs Hsz Hl.
  - exists []. assert (with_layers s [] = s) as E.
    { unfold with_layers. cbn. rewrite !app_nil_r. by destruct s. }
    rewrite E. split_and!; [constructor|done|]. apply preads_ret.
  - apply Forall_cons_1 in Hl as [[Hwf Hw] Hl]. cbn [fst snd] in *.
    destruct (read_layer_preads s Hs resolver pal st Hwf Hw) as (pal' & st' & Hrb & Hp).
    rewrite size_cons in *. pose proof (size_nonneg l). pose proof (size_nonneg (palettes_ s)).
    assert (sub_ok (with_layer s pal' st')) as Hs1 by (apply (with_layer_ok s Hs); [lia|apply Hrb]).
    destruct (with_layer_sizes s Hs pal' st') as [Esz _].
    destruct (IH (with_layer s pal' st') Hs1 ltac:(lia) Hl) as (l' & Hrel & Hok & Hps).
    exists ((pal', st') :: l').
    assert (with_layers s ((pal', st') :: l') = with_layers (with_layer s pal' st') l') as E.
    { unfold with_layers, with_layer, set_blocks, set_palettes. cbn. by rewrite <-!app_assoc. }
    rewrite E. split_and!; [by constructor|done|].
    rewrite seqZ_cons by lia. cbn [for_each]. unfold enc_layers. rewrite bind_cons. cbn [fst snd].
    eapply preads_bind; [exact Hp|].
    replace (Z.succ (size (palettes_ s))) with (size (palettes_ (with_layer s pal' st'))) by lia.
    by replace (Z.pred (size l + 1)) with (size l) by lia.
Qed.

(** ** The round trip *)

Definition header_bytes (v n y : Z) : bytes :=
  [v] ++ [n] ++ (if v >=? 9 then [to_u8 y] else []).

Definition with_header (v y : Z) (t : BedrockSubChunk) : BedrockSubChunk :=
  if v >=? 9 then set_y y (set_version v t) else set_version v t.

Lemma read_header_preads v n y t :
  v = 8 \/ v = 9 -> is_s 8 y ->
  preads read_header (header_bytes v n y) t n (with_header v y t).
Proof.
  intros Hv Hy. unfold read_header, header_bytes, with_header.
  eapply preads_bind; [apply preads_stream, reads_U8|].
  eapply preads_bind0; [by apply preads_object|].
  assert ((v =? 1) = false /\ ((v =? 8) || (v =? 9)) = true) as [-> ->] by (by destruct Hv as [-> | ->]).
  eapply preads_bind; [apply preads_stream, reads_U8|].
  rewrite <-(app_nil_r (if v >=? 9 then _ else _)). eapply preads_bind; [|apply preads_ret].
  destruct (v >=? 9); [|apply preads_ret].
  rewrite <-(app_nil_r [to_u8 y]). eapply preads_bind; [apply preads_stream, reads_U8|].
  apply preads_object. unfold to_i8, to_u8. by rewrite to_signed_mod by (lia || done).
Qed.

Lemma decodeFrom_preads resolver v y air l t :
  v = 8 \/ v = 9 -> is_s 8 y -> sub_ok t -> 1 <= size l <= 2 ->
  Forall (fun p => layer_wf p.1 p.2 /\ writable p.1) l ->
  let base := with_header v y (set_blocks [] (set_palettes [] (set_air air t))) in
  exists l', Forall2 read_back l l' /\ sub_ok (with_layers base l') /\
    preads (decodeFrom Runtime air resolver) (header_bytes v (size l) y ++ enc_layers l)
      t tt (with_layers base l').
Proof.
  intros Hv Hy Ht Hl Hw base.
  assert (sub_ok base) as Hbase.
  { unfold base, with_header. destruct Ht. destruct (v >=? 9); split; cbn; try done; constructor. }
  assert (palettes_ base = []) as Hp by (unfold base, with_header; by destruct (v >=? 9)).
  destruct (read_layers_preads resolver l base Hbase ltac:(rewrite Hp, size_nil; lia) Hw)
    as (l' & Hrel & Hok & Hps).
  exists l'. split_and!; [done|apply Hok..|]. unfold decodeFrom.
  eapply preads_bind0; [by apply preads_object|].
  eapply preads_bind; [by apply read_header_preads|]. fold base.
  destruct (Z.eqb_spec (size l) 0); [lia|]. destruct (Z.gtb_spec (size l) 2); [lia|]. cbn [orb].
  by rewrite Hp, size_nil in Hps.
Qed.

Lemma encodeTo_appends fuel c provider s :
  sub_ok s -> size (palettes_ s) <= 255 -> size (palettes_ s) <= Z.of_nat fuel ->
  Forall (encodable c) (palettes_ s) ->
  exists s1, sub_ok s1 /\ size (palettes_ s1) = size (palettes_ s) /\
    (forall l i, 0 <= l -> 0 <= i < 4096 -> state_at s1 l i = state_at s l i) /\
    (forall l pal, palettes_ s !! l = Some pal ->
       palettes_ s1 !! l = Some (written c pal) /\ writable (written c pal)) /\
    oappends (encodeTo fuel Runtime c provider s)
      (header_bytes (subChunkVersion_ s) (size (palettes_ s)) (y_ s) ++ enc_layers (layers s1)) tt.
Proof.
  intros Hs H255 Hfuel He. pose proof (size_nonneg (palettes_ s)).
  destruct (encode_loop_ok c provider fuel 0 s Hs ltac:(lia) H255 ltac:(lia)) as
    (s1 & Hs1 & _ & Hsz & Hst & _ & Hw & Happ); [done|].
  exists s1. split_and!; [apply Hs1..|done|done| |].
  - intros l pal Hp. apply Hw; [lia|done].
  - unfold encodeTo, header_bytes. rewrite (layers_size s Hs), to_u8_id
      by (unfold is_u; change (2 ^ 8) with 256; lia).
    rewrite <-!app_assoc. cbn [app].
    eapply (oappends_bind _ _ [_]); [apply oappends_appends, appends_U8|].
    eapply (oappends_bind _ _ [_]); [apply oappends_appends, appends_U8|].
    eapply oappends_bind; [|exact Happ].
    destruct (subChunkVersion_ s >=? 9); [apply oappends_appends, appends_U8|apply oappends_ret].
Qed.

(** The layers that the encoder leaves, and their bytes. *)
Lemma layers_writable s s1 c :
  sub_ok s1 -> size (palettes_ s1) = size (palettes_ s) ->
  (forall l pal, palettes_ s !! l = Some pal ->
     palettes_ s1 !! l = Some (written c pal) /\ writable (written c pal)) ->
  Forall (fun p => layer_wf p.1 p.2 /\ writable p.1) (layers s1).
Proof.
  intros Hs1 Hsz Hw. apply Forall_lookup_2. intros k [pal1 st1] Hk.
  apply lookup_zip_with_Some in Hk as (p1 & b1 & E & Hp1 & Hb1). injection E as -> ->. cbn [fst snd].
  destruct (Forall2_lookup_lr _ _ _ _ _ _ (so_layers _ Hs1) Hp1 Hb1) as [Hwf _]. split; [done|].
  destruct (lookup_lt_is_Some_2 (palettes_ s) k) as [pal Hp].
  { apply lookup_lt_Some in Hp1. unfold size in Hsz. lia. }
  destruct (Hw k pal Hp) as [Hp1' Hwr]. rewrite Hp1 in Hp1'. by injection Hp1' as ->.
Qed.

Lemma section_bytes v n y l :
  v = 8 \/ v = 9 -> 0 <= n <= 2 -> Forall (fun p => layer_wf p.1 p.2 /\ writable p.1) l ->
  is_bytes (header_bytes v n y ++ enc_layers l).
Proof.
  intros Hv Hn Hlw. unfold header_bytes. rewrite !is_bytes_app. split_and!.
  - constructor; [|constructor]. by destruct Hv as [-> | ->].
  - constructor; [|constructor]. unfold is_u. change (2 ^ 8) with 256. lia.
  - destruct (_ >=? 9); [|constructor]. constructor; [apply to_u8_range|constructor].
  - unfold enc_layers. clear -Hlw. induction Hlw as [|[p b] l [Hwf Hwr] Hl IH]; [constructor|].
    rewrite bind_cons, is_bytes_app. split; [by apply enc_layer_bytes|done].
Qed.

(** What decoding makes of an encoded section [s], starting from [t]: the states
    of a palette written with one entry are read by halving. *)
Record decoded_as (c : bool) (air : Z) (s t s' : BedrockSubChunk) : Prop := mkDecodedAs {
  da_ok : sub_ok s';
  da_layers : layerCount s' = layerCount s;
  da_version : subChunkVersion_ s' = subChunkVersion_ s;
  da_air : airStateId_ s' = air;
  da_y : y_ s' = if subChunkVersion_ s >=? 9 then y_ s else y_ t;
  da_states : forall l i pal, 0 <= l -> 0 <= i < 4096 -> palettes_ s !! Z.to_nat l = Some pal ->
    state_at s' l i = if size (written c pal) =? 1 then single_id (state_at s l i) else state_at s l i
}.

(** Encoding and decoding, whatever the signs of the states. *)
Lemma transfer c provider s :
  sub_ok s -> subChunkVersion_ s = 8 \/ subChunkVersion_ s = 9 -> 1 <= layerCount s <= 2 ->
  is_s 8 (y_ s) -> Forall (encodable c) (palettes_ s) ->
  exists data, oappends (encodeTo 255 Runtime c provider s) data tt /\ is_bytes data /\ 1 <= size data /\
    forall resolver air t, sub_ok t ->
      exists s', preads (decodeFrom Runtime air resolver) data t tt s' /\ decoded_as c air s t s'.
Proof.
  intros Hs Hv Hn Hy He. unfold layerCount in Hn. rewrite (layers_size s Hs) in Hn.
  destruct (encodeTo_appends 255 c provider s Hs ltac:(lia) ltac:(lia) He) as
    (s1 & Hs1 & Hsz & Hst & Hw & Happ).
  assert (size (layers s1) = size (palettes_ s)) as Hls.
  { unfold size at 1. rewrite layers_length by done. exact Hsz. }
  pose proof (layers_writable s s1 c Hs1 Hsz Hw) as Hlw. eexists. split; [exact Happ|].
  split; [apply section_bytes; [done|lia|done]|]. split.
  { unfold header_bytes. rewrite !size_app, size_cons.
    pose proof (size_nonneg [size (palettes_ s)]). pose proof (size_nonneg (enc_layers (layers s1))).
    pose proof (size_nonneg (if subChunkVersion_ s >=? 9 then [to_u8 (y_ s)] else [])).
    change (size (@nil Z)) with 0. lia. }
  intros resolver air t Ht.
  destruct (decodeFrom_preads resolver (subChunkVersion_ s) (y_ s) air (layers s1) t Hv Hy Ht
    ltac:(lia) Hlw) as (l' & Hrel & Hok & Hdec).
  rewrite Hls in Hdec. set (s' := with_layers _ l') in *.
  assert (palettes_ s' = l'.*1 /\ blocks_ s' = l'.*2) as [Hps' Hbs']
    by (unfold s', with_layers, with_header; by destruct (_ >=? 9)).
  exists s'. split; [exact Hdec|]. split; [done| | | | |].
  - unfold layerCount. rewrite (layers_size s Hs), (layers_size s' Hok), Hps'.
    rewrite <-Hls. unfold size. by rewrite length_fmap, (Forall2_length Hrel).
  - unfold s', with_layers, with_header. by destruct (_ >=? 9).
  - unfold s', with_layers, with_header. by destruct (_ >=? 9).
  - unfold s', with_layers, with_header. by destruct (_ >=? 9).
  - intros l i pal Hl Hi Hp. destruct (Hw _ _ Hp) as [Hp1 _].
    destruct (layer_lookup s1 l Hs1) as (pal1 & st1 & Hp1' & Hb1 & _).
    { split; [done|]. rewrite Hsz. apply lookup_lt_Some in Hp. unfold size. lia. }
    rewrite Hp1 in Hp1'. injection Hp1' as <-.
    pose proof (lookup_layers s1 _ _ _ Hp1 Hb1) as Hk.
    destruct (Forall2_lookup_l _ _ _ _ _ Hrel Hk) as ([pal' st'] & Hk' & _ & Hid).
    cbn [fst snd] in Hid. rewrite <-Hst by done.
    assert (state_at s' l i = entry_id pal' st' i) as ->.
    { unfold state_at. by rewrite Hps', Hbs', !list_lookup_fmap, Hk'. }
    rewrite Hid by done. unfold state_at. by rewrite Hp1, Hb1.
Qed.

Lemma encode_decode c provider resolver s :
  sub_ok s -> subChunkVersion_ s = 8 \/ subChunkVersion_ s = 9 -> 1 <= layerCount s <= 2 ->
  is_s 8 (y_ s) -> Forall (encodable c) (palettes_ s) ->
  exists data t s', encode Runtime c provider s = Ok data /\
    decode Runtime data (airStateId_ s) resolver = Ok s' /\ decoded_as c (airStateId_ s) s t s'.
Proof.
  intros Hs Hv Hn Hy He.
  destruct (transfer c provider s Hs Hv Hn Hy He) as (data & Happ & Hbytes & _ & Hdec).
  destruct (make_sub_ok 0 9) as (t & Et & Ht & _).
  destruct (Hdec resolver (airStateId_ s) t Ht) as (s' & Hp & Hd).
  exists data, t, s'. split_and!; [| |done].
  - unfold encode. by rewrite (Happ empty_stream eq_refl).
  - unfold decode. rewrite Et. cbn [rbind].
    by rewrite (Hp (from_data data) [] (valid_from_data data) Hbytes ltac:(by rewrite app_nil_r)).
Qed.

(** ** Properties *)

(** What arrives of a block: a state of a layer whose palette is written with
    one entry is read by halving its zigzag, which is the state itself unless
    it is negative; a layer that is not there is air to the receiver. *)
Definition received_state (c : bool) (air : Z) (s : BedrockSubChunk) (layer i : Z) : Z :=
  match palettes_ s !! Z.to_nat layer with
  | Some pal => if size (written c pal) =? 1 then single_id (state_at s layer i) else state_at s layer i
  | None => air
  end.

Lemma received_same c s layer i : sub_ok s -> 0 <= layer ->
  (forall pal, palettes_ s !! Z.to_nat layer = Some pal -> size (written c pal) = 1 -> 0 <= state_at s layer i) ->
  received_state c (airStateId_ s) s layer i = state_at s layer i.
Proof.
  intros Hs Hl Hn. unfold received_state. destruct (palettes_ s !! Z.to_nat layer) as [pal|] eqn:Ep.
  - destruct (Z.eqb_spec (size (written c pal)) 1) as [E|]; [|done]. unfold single_id.
    by rewrite (proj2 (Z.leb_le _ _)) by by apply (Hn pal).
  - unfold state_at. by rewrite Ep.
Qed.

Lemma decoded_states c air s t s' :
  sub_ok s -> decoded_as c air s t s' ->
  forall layer i, 0 <= layer -> 0 <= i < 4096 -> state_at s' layer i = received_state c air s layer i.
Proof.
  intros Hs [Hs' Hc _ Hair _ Hst] layer i Hl Hi. unfold received_state.
  destruct (palettes_ s !! Z.to_nat layer) as [pal|] eqn:Ep; [by apply Hst|].
  apply lookup_ge_None in Ep. unfold layerCount in Hc. rewrite !layers_size in Hc by done.
  unfold state_at. rewrite lookup_ge_None_2 by (unfold size in *; lia). done.
Qed.

(** C36: encoding a section for the network and decoding it again, with
    compaction and without, for every well-formed section of version 8 or 9
    with one or two layers, states of 32 bits and, without compaction, at most
    4096 palette entries: the version, the layers and every block arrive, and
    the height, which only version 9 carries.  One thing is changed: in a layer
    whose palette is written with one entry, a negative state [n] arrives as
    [- n - 1]. *)
Theorem subchunk_roundtrip c provider resolver s :
  sub_ok s -> subChunkVersion_ s = 8 \/ subChunkVersion_ s = 9 -> 1 <= layerCount s <= 2 ->
  is_s 8 (y_ s) -> Forall (encodable c) (palettes_ s) ->
  exists data s', encode Runtime c provider s = Ok data /\
    decode Runtime data (airStateId_ s) resolver = Ok s' /\ sub_ok s' /\
    layerCount s' = layerCount s /\ subChunkVersion_ s' = subChunkVersion_ s /\
    (subChunkVersion_ s = 9 -> y_ s' = y_ s) /\
    forall layer x y z, 0 <= layer -> exists id, getBlockStateId layer x y z s = Ok id /\
      getBlockStateId layer x y z s' =
        Ok (match palettes_ s !! Z.to_nat layer with
            | Some pal => if (size (written c pal) =? 1) && (id <? 0) then - id - 1 else id
            | None => id
            end).
Proof.
  intros Hs Hv Hn Hy He.
  destruct (encode_decode c provider resolver s Hs Hv Hn Hy He) as (data & t & s' & Hen & Hd & Ha).
  exists data, s'. split_and!; [done|done|by apply Ha..| |].
  - intros E. rewrite (da_y _ _ _ _ _ Ha), E. done.
  - intros layer x y z Hl. eexists. split; [by apply getBlockStateId_ok|]. rewrite getBlockStateId_ok by (done || apply Ha). f_equal.
    rewrite (decoded_states _ _ _ _ _ Hs Ha) by (done || apply index_range). unfold received_state, single_id.
    destruct (palettes_ s !! Z.to_nat layer) as [pal|] eqn:Ep; [|unfold state_at; by rewrite Ep].
    destruct (_ =? 1); [|done]. cbn [andb]. rewrite Z.ltb_antisym. by destruct (0 <=? _).
Qed.

Definition roundtrip_example : result BedrockSubChunk :=
  let! s := createAir (-4) 0 in
  exec (setBlockStateId 0 1 2 3 77 ;;; setBlockStateId 1 4 5 6 (-8)) s.

(** The conditions on the layers, decided. *)
Definition layers_check (s : BedrockSubChunk) : bool :=
  bool_decide (Forall (fun pal => size pal <= 4096 /\ Forall (fun e => is_s 32 (stateId e)) pal)
    (palettes_ s)).

Lemma layers_check_ok c s : layers_check s = true -> Forall (encodable c) (palettes_ s).
Proof.
  intros H. apply bool_decide_eq_true in H. eapply Forall_impl; [|exact H].
  intros pal [Hsz Hids]. split_and!; [lia|done|done].
Qed.

Lemma roundtrip_example_ok :
  exists s, roundtrip_example = Ok s /\ sub_ok s /\ y_ s = -4 /\ subChunkVersion_ s = 9 /\
    layerCount s = 2 /\ Forall (encodable true) (palettes_ s) /\
    Forall (fun pal => size (written true pal) <> 1) (palettes_ s) /\ getBlockStateId 1 4 5 6 s = Ok (-8).
Proof.
  destruct (createAir_spec (-4) 0) as (s0 & E0 & Hs0 & Hy0 & Hv0 & _ & Hp0 & _).
  assert (forall s layer, sub_ok s -> layers_check s = true -> forall pal,
    palettes_ s !! layer = Some pal -> size pal < 2 ^ 32) as Hroom.
  { intros s layer _ H pal Hp. apply (layers_check_ok true) in H.
    by destruct (Forall_lookup_1 _ _ _ _ H Hp). }
  destruct (setBlockStateId_ok s0 0 1 2 3 77 Hs0 ltac:(lia)) as (s1 & E1 & Hs1 & (Hy1 & Hv1 & _) & Hsz1 & _).
  { rewrite Hp0. intros pal Hp. by apply list_lookup_singleton_Some in Hp as [_ <-]. }
  assert (layers_check s1 = true /\ size (palettes_ s1) = 1) as [Hc1 Hn1].
  { assert (match (let! s := createAir (-4) 0 in exec (setBlockStateId 0 1 2 3 77) s) with
      | Ok s => layers_check s && (size (palettes_ s) =? 1) | _ => false end = true) as H by by vm_compute.
    rewrite E0 in H. cbn [rbind] in H. unfold exec in H. rewrite E1 in H.
    apply andb_true_iff in H as [? H]. split; [done|by apply Z.eqb_eq]. }
  destruct (setBlockStateId_ok s1 1 4 5 6 (-8) Hs1 ltac:(lia)) as (s2 & E2 & Hs2 & (Hy2 & Hv2 & _) & Hsz2 & Hst2).
  { by apply Hroom. }
  assert (roundtrip_example = Ok s2) as E.
  { unfold roundtrip_example. rewrite E0. cbn [rbind]. unfold exec. by rewrite (bind_ok _ _ _ _ _ E1), E2. }
  assert (match roundtrip_example with Ok s => layers_check s &&
      bool_decide (Forall (fun pal => size (written true pal) <> 1) (palettes_ s)) | _ => false end = true)
    as H by by vm_compute.
  rewrite E in H. apply andb_true_iff in H as [Hc Hn]. apply (layers_check_ok true) in Hc. apply bool_decide_eq_true in Hn.
  exists s2. split_and!; [done|apply Hs2..|congruence|congruence| |done|done|].
  - unfold layerCount. rewrite (layers_size s2 Hs2). lia.
  - rewrite getBlockStateId_ok by (done || lia). f_equal. rewrite Hst2 by (lia || apply index_range). done.
Qed.

Lemma subchunk_roundtrip_witness :
  exists s data s', roundtrip_example = Ok s /\ encode Runtime true None s = Ok data /\
    decode Runtime data (airStateId_ s) None = Ok s' /\ getBlockStateId 1 4 5 6 s' = Ok (-8).
Proof.
  destruct roundtrip_example_ok as (s & E & Hs & Hy & Hv & Hn & Hr & Hne & Hg).
  destruct (subchunk_roundtrip true None None s Hs (or_intror Hv)) as
    (data & s' & He & Hd & _ & _ & _ & _ & Hget).
  - rewrite Hn. split; discriminate.
  - rewrite Hy. by apply (bool_decide_unpack _).
  - exact Hr.
  - exists s, data, s'. split; [exact E|]. split; [exact He|]. split; [exact Hd|].
    destruct (Hget 1 4 5 6 ltac:(lia)) as (id & Hid & ->). rewrite Hg in Hid. injection Hid as <-.
    destruct (palettes_ s !! Z.to_nat 1) as [pal|] eqn:Ep; [|reflexivity].
    pose proof (Forall_lookup_1 _ _ _ _ Hne Ep) as Hp. cbv beta in Hp. by rewrite (proj2 (Z.eqb_neq _ _) Hp).
Defined.

(** A section of one negative state does not survive: the one-entry form is
    written with the zigzag of the state and read by halving it, so that every
    block comes back as [- air - 1]. *)
Theorem subchunk_negative_air air :
  - 2 ^ 31 <= air < 0 ->
  exists s data s', createAir 0 air = Ok s /\ encode Runtime true None s = Ok data /\
    decode Runtime data air None = Ok s' /\
    forall x y z, getBlockStateId 0 x y z s = Ok air /\ getBlockStateId 0 x y z s' = Ok (- air - 1).
Proof.
  intros Hair. destruct (createAir_spec 0 air) as (s & E & Hs & Hy & Hv & Ha & Hp & Hg).
  destruct (encode_decode true None None s Hs (or_intror Hv)) as
    (data & t & s' & He & Hd & [Hs' _ _ _ _ Hst]).
  - unfold layerCount. by rewrite (layers_size s Hs), Hp.
  - by rewrite Hy.
  - rewrite Hp. constructor; [|constructor]. split_and!; [done|done|].
    constructor; [|constructor]. unfold is_s, air_block. cbn [stateId]. change (2 ^ (32 - 1)) with (2 ^ 31). lia.
  - exists s, data, s'. rewrite Ha in Hd. split_and!; [done|done|done|]. intros x y z.
    split; [by apply Hg|]. rewrite getBlockStateId_ok by done. f_equal.
    rewrite (Hst 0 _ [air_block air]) by (lia || apply index_range || by rewrite Hp).
    assert (size (written true [air_block air]) = 1) as -> by done. rewrite Z.eqb_refl.
    pose proof (Hg 0 x y z ltac:(lia)) as Hg0. rewrite getBlockStateId_ok in Hg0 by done.
    injection Hg0 as ->. unfold single_id. by rewrite (proj2 (Z.leb_gt _ _)) by lia.
Qed.

Lemma subchunk_negative_air_witness :
  exists s data s', createAir 0 (-5) = Ok s /\ encode Runtime true None s = Ok data /\
    decode Runtime data (-5) None = Ok s' /\
    forall x y z, getBlockStateId 0 x y z s = Ok (-5) /\ getBlockStateId 0 x y z s' = Ok 4.
Proof. apply (subchunk_negative_air (-5)). by split. Defined.

(** The counter of the encoding loop wraps from 255 to 0. *)
Lemma encode_loop_diverges fuel : forall layer s str,
  sub_ok s -> size (palettes_ s) = 256 -> 0 <= layer <= 255 ->
  Forall (encodable true) (palettes_ s) -> view_ str = None ->
  exists str', encode_loop fuel layer s Runtime true None str = (Throw OutOfFuel, str').
Proof.
  induction fuel as [|fuel IH]; intros layer s str Hs Hsz Hl He Hstr; cbn [encode_loop];
    rewrite (layers_size s Hs), (proj2 (Z.ltb_lt _ _)) by lia; [by exists str|].
  destruct (layer_lookup s layer Hs ltac:(lia)) as (pal & st & Hp & Hst & Hok).
  destruct (compact_ok s layer Hs ltac:(lia)) as (s1 & E & Hs1 & _ & Hsz1 & _ & Hsame & Hw).
  { intros p Hlp. by destruct (Forall_lookup_1 _ _ _ _ He Hlp). }
  destruct (layer_lookup s1 layer Hs1 ltac:(lia)) as (pal1 & st1 & Hp1 & Hst1 & Hok1).
  rewrite (Hw pal Hp) in Hp1. injection Hp1 as <-.
  pose proof (Forall_lookup_1 _ _ _ _ He Hp) as Hepal.
  pose proof (written_writable true pal st st1 Hok Hepal Hok1) as Hwr.
  unfold exec. rewrite E. unfold lift at 1. rewrite (bind_ok (fun s0 => (Ok s1, s0)) _ str s1 str eq_refl).
  pose proof (writeStorage_appends s1 layer (filter live pal) st1 None ltac:(lia) (Hw pal Hp) Hst1
    (proj1 Hok1) Hwr str Hstr) as Ew.
  rewrite (bind_ok _ _ _ _ _ Ew). apply IH; [done|lia| | |by apply append_owned].
  - pose proof (to_u8_range (layer + 1)) as Hr. unfold is_u in Hr. change (2 ^ 8) with 256 in Hr. lia.
  - apply Forall_lookup_2. intros k p Hk. destruct (decide (k = Z.to_nat layer)) as [->|Hne].
    + rewrite (Hw pal Hp) in Hk. injection Hk as <-. destruct Hwr as [Hwsz Hids].
      cbn [written] in *. split_and!; [lia|done|done].
    + rewrite (proj1 (Hsame k Hne)) in Hk. exact (Forall_lookup_1 _ _ _ _ He Hk).
Qed.

(** C39: encoding a section with 256 layers does not end: the loop counter is an
    eight-bit number that never reaches 256.  No bound on the number of turns
    is enough. *)
Theorem subchunk_encode_diverges s fuel :
  sub_ok s -> layerCount s = 256 -> Forall (encodable true) (palettes_ s) ->
  exists stream, encodeTo fuel Runtime true None s empty_stream = (Throw OutOfFuel, stream).
Proof.
  intros Hs Hc He. unfold layerCount in Hc. rewrite (layers_size s Hs) in Hc. unfold encodeTo.
  rewrite (bind_ok _ _ _ _ _ (appends_U8 _ _)), (bind_ok _ _ _ _ _ (appends_U8 _ _)).
  set (str := append _ (append _ _)).
  assert (exists str', (if subChunkVersion_ s >=? 9 then writeU8 (to_u8 (y_ s)) else ret tt) str = (Ok tt, str') /\
    view_ str' = None) as (str' & Ey & Hstr).
  { destruct (_ >=? 9); [by exists (append [to_u8 (y_ s)] str)|by exists str]. }
  rewrite (bind_ok _ _ _ _ _ Ey). by apply encode_loop_diverges.
Qed.

(** One call creates the 256 layers. *)
Lemma subchunk_encode_diverges_witness :
  exists s0 s, createAir 0 0 = Ok s0 /\ setBlockStateId 255 0 0 0 5 s0 = (Ok tt, s) /\
    exists stream, encodeTo 1000 Runtime true None s empty_stream = (Throw OutOfFuel, stream).
Proof.
  destruct (createAir_spec 0 0) as (s0 & E0 & Hs0 & _ & _ & _ & Hp0 & _).
  destruct (setBlockStateId_ok s0 255 0 0 0 5 Hs0 ltac:(lia)) as (s & E & Hs & _ & Hsz & _).
  { by rewrite Hp0. }
  exists s0, s. split; [exact E0|]. split; [exact E|].
  apply (subchunk_encode_diverges s 1000 Hs).
  - unfold layerCount. rewrite (layers_size s Hs), Hsz, Hp0. reflexivity.
  - apply layers_check_ok.
    assert (match (let! s := createAir 0 0 in exec (setBlockStateId 255 0 0 0 5) s) with
      | Ok s => layers_check s | _ => false end = true) as H by (vm_compute; reflexivity).
    rewrite E0 in H. cbn [rbind] in H. unfold exec in H. rewrite E in H. exact H.
Defined.
