(* ===== verification/Encryption.v ===== *)
(** * Encryption (src/src/BedrockEncryption.cpp)

    Cipher streams, packet checksums and the encrypted channel of a session.
    OpenSSL is a record of the calls the sources make ([crypto]) and a class of
    documented laws ([CryptoLaws]), with a toy instance. *)

From S2P Require Import Prelude MachineInt Endian.

Module BedrockEncryption.

Inductive BedrockCipherMode := Encrypt | Decrypt.
Inductive BedrockCipherAlgorithm := Aes256Cfb8 | Aes256GcmNoTag.

#[export] Instance mode_eq_dec : EqDecision BedrockCipherMode.
Proof. solve_decision. Defined.

(** ** OpenSSL *)

(** [None] is a failed call.  [update m c x n] is [EVP_EncryptUpdate] or
    [EVP_DecryptUpdate] with [inl = n]: the bytes it writes and the context. *)
Record crypto := mkCrypto {
  cipher_ctx : Type;
  sha_ctx : Type;
  EVP_CIPHER_CTX_new : option cipher_ctx;
  EVP_gcm_init : BedrockCipherMode -> cipher_ctx -> option cipher_ctx;
  EVP_gcm_set_ivlen : cipher_ctx -> Z -> option cipher_ctx;
  EVP_gcm_key : BedrockCipherMode -> cipher_ctx -> bytes -> bytes -> option cipher_ctx;
  EVP_cfb8_init : BedrockCipherMode -> cipher_ctx -> bytes -> bytes -> option cipher_ctx;
  EVP_set_padding : cipher_ctx -> Z -> option cipher_ctx;
  EVP_update : BedrockCipherMode -> cipher_ctx -> bytes -> Z -> option (bytes * cipher_ctx);
  EVP_EncryptFinal : cipher_ctx -> option bytes;
  SHA256_Init : option sha_ctx;
  SHA256_Update : sha_ctx -> bytes -> option sha_ctx;
  SHA256_Final : sha_ctx -> option bytes
}.

(** [if (call != 1) throw BedrockEncryptionError(msg);] *)
Definition check {A} (r : option A) (msg : string) : result A :=
  match r with Some a => Ok a | None => Throw (BedrockEncryptionError msg) end.

Section Encryption.
Context (c : crypto).

(** ** Checksums *)

Record BedrockChecksumVerification := mkVerification {
  packetPlaintext : bytes;
  receivedChecksum : bytes;
  expectedChecksum : bytes
}.

Definition hex_digit (n : Z) : Ascii.ascii :=
  ascii_of_byte (if n <? 10 then 48 + n else 87 + n).

Definition lowerHex (b : bytes) : string :=
  String.string_of_list_ascii
    (b ≫= fun byte => [hex_digit (Z.land (Z.shiftr byte 4) 0x0f); hex_digit (Z.land byte 0x0f)]).

Definition nodeChecksumSliceBoundary (n : Z) : Z :=
  if n >=? 8 then n - 8 else if n >? 4 then 2 * n - 8 else 0.

Definition matches (v : BedrockChecksumVerification) : bool :=
  bool_decide (receivedChecksum v = expectedChecksum v).

Definition mismatchMessage (v : BedrockChecksumVerification) : string :=
  "Checksum mismatch " +:+ lowerHex (receivedChecksum v) +:+ " != " +:+ lowerHex (expectedChecksum v).

Fixpoint writeU64LE_loop (idxs : list Z) (out : bytes) (v : Z) : bytes :=
  match idxs with
  | [] => out
  | i :: idxs' => writeU64LE_loop idxs' (out ++ [to_u8 (Z.land (Z.shiftr v (8 * i)) 0xff)]) v
  end.
Definition writeU64LE (out : bytes) (v : Z) : bytes := writeU64LE_loop (seqZ 0 8) out v.

Definition computeChecksum (packetPlaintext : bytes) (sendCounter : Z) (secretKeyBytes : bytes)
    : result bytes :=
  if negb (size secretKeyBytes =? 32) then
    Throw (BedrockEncryptionError "secretKeyBytes must be 32 bytes")
  else
    let counter := writeU64LE [] sendCounter in
    let! ctx := check (SHA256_Init c) "SHA256_Init failed" in
    let! ctx := check (SHA256_Update c ctx counter) "SHA256_Update counter failed" in
    let! ctx := (if bool_decide (packetPlaintext = []) then Ok ctx
                 else check (SHA256_Update c ctx packetPlaintext) "SHA256_Update packet failed") in
    let! ctx := check (SHA256_Update c ctx secretKeyBytes) "SHA256_Update secret failed" in
    let! hash := check (SHA256_Final c ctx) "SHA256_Final failed" in
    vec_range hash 0 8.

Definition makeAesPlaintext (packetPlaintext : bytes) (sendCounter : Z) (secretKeyBytes : bytes)
    : result bytes :=
  let! checksum := computeChecksum packetPlaintext sendCounter secretKeyBytes in
  Ok (packetPlaintext ++ checksum).

(** [receiveCounter] is passed by reference: it is the state. *)
Definition verifyAesPlaintext (aesPlaintext secretKeyBytes : bytes)
    : M Z BedrockChecksumVerification :=
  let boundary := nodeChecksumSliceBoundary (size aesPlaintext) in
  let* packet := lift (vec_range aesPlaintext 0 boundary) in
  let* received := lift (vec_range aesPlaintext boundary (size aesPlaintext)) in
  let* receiveCounter := get_st in
  let* expected := lift (computeChecksum packet receiveCounter secretKeyBytes) in
  put_st (to_u64 (receiveCounter + 1)) ;;;
  ret (mkVerification packet received expected).

(** ** Cipher streams *)

Record BedrockCipherStream := mkCipherStream {
  algorithm : BedrockCipherAlgorithm;
  mode_ : BedrockCipherMode;
  ctx_ : cipher_ctx c
}.

Definition gcm_stream (secretKeyBytes iv16 : bytes) (mode : BedrockCipherMode)
    : result BedrockCipherStream :=
  if negb (size secretKeyBytes =? 32) then
    Throw (BedrockEncryptionError "BedrockAesGcmStream secretKeyBytes must be 32 bytes")
  else if size iv16 <? 12 then
    Throw (BedrockEncryptionError "BedrockAesGcmStream iv16 must contain at least 12 bytes")
  else
    let! iv12 := vec_range iv16 0 12 in
    let! ctx := check (EVP_CIPHER_CTX_new c) "EVP_CIPHER_CTX_new stream failed" in
    match mode with
    | Encrypt =>
        let! ctx := check (EVP_gcm_init c Encrypt ctx) "EVP_EncryptInit_ex stream cipher failed" in
        let! ctx := check (EVP_gcm_set_ivlen c ctx (to_i32 (size iv12)))
                      "EVP_CTRL_GCM_SET_IVLEN encrypt stream failed" in
        let! ctx := check (EVP_gcm_key c Encrypt ctx secretKeyBytes iv12)
                      "EVP_EncryptInit_ex stream key/iv failed" in
        Ok (mkCipherStream Aes256GcmNoTag Encrypt ctx)
    | Decrypt =>
        let! ctx := check (EVP_gcm_init c Decrypt ctx) "EVP_DecryptInit_ex stream cipher failed" in
        let! ctx := check (EVP_gcm_set_ivlen c ctx (to_i32 (size iv12)))
                      "EVP_CTRL_GCM_SET_IVLEN decrypt stream failed" in
        let! ctx := check (EVP_gcm_key c Decrypt ctx secretKeyBytes iv12)
                      "EVP_DecryptInit_ex decrypt stream key/iv failed" in
        Ok (mkCipherStream Aes256GcmNoTag Decrypt ctx)
    end.

Definition cfb8_stream (secretKeyBytes iv16 : bytes) (mode : BedrockCipherMode)
    : result BedrockCipherStream :=
  if negb (size secretKeyBytes =? 32) then
    Throw (BedrockEncryptionError "BedrockAesCfb8Stream secretKeyBytes must be 32 bytes")
  else if negb (size iv16 =? 16) then
    Throw (BedrockEncryptionError "BedrockAesCfb8Stream iv16 must be 16 bytes")
  else
    let! ctx := check (EVP_CIPHER_CTX_new c) "EVP_CIPHER_CTX_new CFB8 stream failed" in
    let! ctx := check (EVP_cfb8_init c mode ctx secretKeyBytes iv16)
                  "EVP CFB8 stream initialization failed" in
    let! ctx := check (EVP_set_padding c ctx 0) "EVP CFB8 stream no-padding setup failed" in
    Ok (mkCipherStream Aes256Cfb8 mode ctx).

Definition update_failed (s : BedrockCipherStream) : string :=
  match algorithm s, mode_ s with
  | Aes256GcmNoTag, Encrypt => "EVP_EncryptUpdate stream failed"
  | Aes256GcmNoTag, Decrypt => "EVP_DecryptUpdate stream failed"
  | Aes256Cfb8, _ => "EVP CFB8 stream update failed"
  end.

(** The two classes differ in their messages only.  [ctx_] is never null: a
    constructor that fails throws, and streams cannot be moved from. *)
Definition process (input : bytes) : M BedrockCipherStream bytes :=
  if bool_decide (input = []) then ret []
  else
    let* s := get_st in
    let* (out, ctx) := lift (check (EVP_update c (mode_ s) (ctx_ s) input (to_i32 (size input)))
                               (update_failed s)) in
    put_st (mkCipherStream (algorithm s) (mode_ s) ctx) ;;;
    ret out.

Definition GCM_PROTOCOL_VERSION : Z := 431.

Definition cipherAlgorithmForProtocol (protocolVersion : Z) : BedrockCipherAlgorithm :=
  if protocolVersion <? GCM_PROTOCOL_VERSION then Aes256Cfb8 else Aes256GcmNoTag.

Definition createCipherStream (protocolVersion : Z) (secretKeyBytes iv16 : bytes)
    (mode : BedrockCipherMode) : result BedrockCipherStream :=
  match cipherAlgorithmForProtocol protocolVersion with
  | Aes256Cfb8 => cfb8_stream secretKeyBytes iv16 mode
  | Aes256GcmNoTag => gcm_stream secretKeyBytes iv16 mode
  end.

Definition decryptAndVerify (encrypted secretKeyBytes : bytes)
    : M (BedrockCipherStream * Z) (option BedrockChecksumVerification) :=
  if bool_decide (encrypted = []) then ret None
  else
    let* aesPlaintext := zoom fst (fun s p => (s, p.2)) (process encrypted) in
    let* v := zoom snd (fun n p => (p.1, n)) (verifyAesPlaintext aesPlaintext secretKeyBytes) in
    ret (Some v).

(** ** One-shot GCM payloads *)

Definition aes256GcmEncryptNoTag (secretKeyBytes iv12 plaintext : bytes) : result bytes :=
  if negb (size secretKeyBytes =? 32) then
    Throw (BedrockEncryptionError "secretKeyBytes must be 32 bytes for AES-256-GCM")
  else if negb (size iv12 =? 12) then
    Throw (BedrockEncryptionError "iv12 must be 12 bytes for AES-GCM")
  else
    let! ctx := check (EVP_CIPHER_CTX_new c) "EVP_CIPHER_CTX_new encrypt failed" in
    let! ctx := check (EVP_gcm_init c Encrypt ctx) "EVP_EncryptInit_ex cipher failed" in
    let! ctx := check (EVP_gcm_set_ivlen c ctx (to_i32 (size iv12))) "EVP_CTRL_GCM_SET_IVLEN failed" in
    let! ctx := check (EVP_gcm_key c Encrypt ctx secretKeyBytes iv12)
                  "EVP_EncryptInit_ex key/iv failed" in
    let! (out, ctx) := (if bool_decide (plaintext = []) then Ok ([], ctx)
                        else check (EVP_update c Encrypt ctx plaintext (to_i32 (size plaintext)))
                               "EVP_EncryptUpdate failed") in
    let! tail := check (EVP_EncryptFinal c ctx) "EVP_EncryptFinal_ex failed" in
    Ok (out ++ tail).

Definition aes256GcmDecryptNoTag (secretKeyBytes iv12 encrypted : bytes) : result bytes :=
  if negb (size secretKeyBytes =? 32) then
    Throw (BedrockEncryptionError "secretKeyBytes must be 32 bytes for AES-256-GCM")
  else if negb (size iv12 =? 12) then
    Throw (BedrockEncryptionError "iv12 must be 12 bytes for AES-GCM")
  else
    let! ctx := check (EVP_CIPHER_CTX_new c) "EVP_CIPHER_CTX_new decrypt failed" in
    let! ctx := check (EVP_gcm_init c Decrypt ctx) "EVP_DecryptInit_ex cipher failed" in
    let! ctx := check (EVP_gcm_set_ivlen c ctx (to_i32 (size iv12)))
                  "EVP_CTRL_GCM_SET_IVLEN decrypt failed" in
    let! ctx := check (EVP_gcm_key c Decrypt ctx secretKeyBytes iv12)
                  "EVP_DecryptInit_ex key/iv decrypt failed" in
    let! (out, _) := (if bool_decide (encrypted = []) then Ok ([], ctx)
                      else check (EVP_update c Decrypt ctx encrypted (to_i32 (size encrypted)))
                             "EVP_DecryptUpdate failed") in
    Ok out.

Definition encryptMcpePayloadGcm (packetPlaintext : bytes) (sendCounter : Z)
    (secretKeyBytes iv16 : bytes) : result bytes :=
  if size iv16 <? 12 then
    Throw (BedrockEncryptionError "iv16 must contain at least 12 bytes")
  else
    let! aesPlaintext := makeAesPlaintext packetPlaintext sendCounter secretKeyBytes in
    let! iv12 := vec_range iv16 0 12 in
    let! encrypted := aes256GcmEncryptNoTag secretKeyBytes iv12 aesPlaintext in
    Ok ([0xfe] ++ encrypted).

(** Here [receiveCounter] is passed by value. *)
Definition decryptMcpePayloadGcm (encryptedMcpePayload : bytes) (receiveCounter : Z)
    (secretKeyBytes iv16 : bytes) : result bytes :=
  if bool_decide (encryptedMcpePayload = []) then
    Throw (BedrockEncryptionError "empty encrypted MCPE payload")
  else
    let! b0 := vec_at encryptedMcpePayload 0 in
    if negb (b0 =? 0xfe) then
      Throw (BedrockEncryptionError "encrypted MCPE payload missing 0xfe header")
    else if size iv16 <? 12 then
      Throw (BedrockEncryptionError "iv16 must contain at least 12 bytes")
    else
      let! encrypted := vec_range encryptedMcpePayload 1 (size encryptedMcpePayload) in
      if bool_decide (encrypted = []) then Ok []
      else
        let! iv12 := vec_range iv16 0 12 in
        let! aesPlaintext := aes256GcmDecryptNoTag secretKeyBytes iv12 encrypted in
        let! verification := fst (verifyAesPlaintext aesPlaintext secretKeyBytes receiveCounter) in
        if negb (matches verification) then
          Throw (BedrockEncryptionError (mismatchMessage verification))
        else Ok (packetPlaintext verification).

(** ** The encrypted channel of a session

    The branches of BedrockNetworkClient.cpp that send and receive while
    encryption is enabled: a cipher stream and a counter per direction. *)

Definition send_encrypted (secretKeyBytes compressionPacket : bytes)
    : M (BedrockCipherStream * Z) bytes :=
  let* p := get_st in
  let sendCounter := p.2 in
  put_st (p.1, to_u64 (sendCounter + 1)) ;;;
  let* aesPlaintext := lift (makeAesPlaintext compressionPacket sendCounter secretKeyBytes) in
  let* encryptedOnly := zoom fst (fun s p => (s, p.2)) (process aesPlaintext) in
  ret ([0xfe] ++ encryptedOnly).

(** What the receiver makes of a payload: nothing, a checksum error, or the
    compression packet that is decoded next. *)
Inductive received := Ignored | Mismatch (message : string) | Received (compressionPacket : bytes).

Definition receive_encrypted (secretKeyBytes payload : bytes) : M (BedrockCipherStream * Z) received :=
  if bool_decide (payload = []) then ret Ignored
  else
  let* b0 := lift (vec_at payload 0) in
  if negb (b0 =? 0xfe) then ret Ignored
  else
    let* encryptedOnly := lift (vec_range payload 1 (size payload)) in
    let* verification := decryptAndVerify encryptedOnly secretKeyBytes in
    match verification with
    | None => ret Ignored
    | Some v => if negb (matches v) then ret (Mismatch (mismatchMessage v))
                else ret (Received (packetPlaintext v))
    end.

Fixpoint send_all (key : bytes) (packets : list bytes) : M (BedrockCipherStream * Z) (list bytes) :=
  match packets with
  | [] => ret []
  | p :: packets' =>
      let* payload := send_encrypted key p in
      let* rest := send_all key packets' in
      ret (payload :: rest)
  end.

Fixpoint receive_all (key : bytes) (payloads : list bytes) : M (BedrockCipherStream * Z) (list received) :=
  match payloads with
  | [] => ret []
  | p :: payloads' =>
      let* r := receive_encrypted key p in
      let* rest := receive_all key payloads' in
      ret (r :: rest)
  end.

(** ** Documented behaviour

    A context that encrypts and one that decrypts are [paired] when they were
    set up with the same key and initialisation vector and have processed
    corresponding bytes; a stream cipher has as many output as input bytes. *)
Definition gcm_setup (mode : BedrockCipherMode) (key iv : bytes) : option (cipher_ctx c) :=
  match EVP_CIPHER_CTX_new c with
  | Some x =>
      match EVP_gcm_init c mode x with
      | Some x =>
          match EVP_gcm_set_ivlen c x 12 with
          | Some x => EVP_gcm_key c mode x key iv
          | None => None
          end
      | None => None
      end
  | None => None
  end.

Definition cfb8_setup (mode : BedrockCipherMode) (key iv : bytes) : option (cipher_ctx c) :=
  match EVP_CIPHER_CTX_new c with
  | Some x =>
      match EVP_cfb8_init c mode x key iv with
      | Some x => EVP_set_padding c x 0
      | None => None
      end
  | None => None
  end.

Class CryptoLaws := {
  paired : cipher_ctx c -> cipher_ctx c -> Prop;
  digest : bytes -> bytes;
  hashed : sha_ctx c -> bytes;
  digest_size : forall m, size (digest m) = 32;
  sha_init : exists s, SHA256_Init c = Some s /\ hashed s = [];
  sha_update : forall s x, exists s', SHA256_Update c s x = Some s' /\ hashed s' = hashed s ++ x;
  sha_final : forall s, SHA256_Final c s = Some (digest (hashed s));
  gcm_pair : forall key iv, size key = 32 -> size iv = 12 ->
    exists e d, gcm_setup Encrypt key iv = Some e /\ gcm_setup Decrypt key iv = Some d /\ paired e d;
  cfb8_pair : forall key iv, size key = 32 -> size iv = 16 ->
    exists e d, cfb8_setup Encrypt key iv = Some e /\ cfb8_setup Decrypt key iv = Some d /\ paired e d;
  update_pair : forall e d x, paired e d -> x <> [] -> size x < 2 ^ 31 ->
    exists y e' d', EVP_update c Encrypt e x (size x) = Some (y, e') /\ size y = size x /\
      EVP_update c Decrypt d y (size y) = Some (x, d') /\ paired e' d';
  final_empty : forall e d, paired e d -> EVP_EncryptFinal c e = Some []
}.

Context `{!CryptoLaws}.

(** ** Lemmas *)

Definition checksum (packet : bytes) (counter : Z) (key : bytes) : bytes :=
  take 8 (digest (writeU64LE [] counter ++ packet ++ key)).

Lemma checksum_size packet counter key : size (checksum packet counter key) = 8.
Proof.
  unfold checksum, size. rewrite length_take.
  pose proof (digest_size (writeU64LE [] counter ++ packet ++ key)) as Hd. unfold size in Hd. lia.
Qed.

Lemma computeChecksum_ok packet counter key :
  size key = 32 -> computeChecksum packet counter key = Ok (checksum packet counter key).
Proof.
  intros Hk. unfold computeChecksum. rewrite Hk. cbn [Z.eqb Pos.eqb negb].
  destruct sha_init as (s0 & -> & H0). cbn [check rbind].
  destruct (sha_update s0 (writeU64LE [] counter)) as (s1 & -> & H1). cbn [check rbind].
  assert (exists s2, (if bool_decide (packet = []) then Ok s1
      else check (SHA256_Update c s1 packet) "SHA256_Update packet failed") = Ok s2 /\
    hashed s2 = hashed s1 ++ packet) as (s2 & -> & H2).
  { case_bool_decide as E.
    - exists s1. by rewrite E, app_nil_r.
    - destruct (sha_update s1 packet) as (s2 & -> & H2). by exists s2. }
  cbn [rbind]. destruct (sha_update s2 key) as (s3 & -> & H3). cbn [check rbind].
  rewrite sha_final. cbn [check rbind].
  assert (hashed s3 = writeU64LE [] counter ++ packet ++ key) as ->
    by (rewrite H3, H2, H1, H0; cbn [app]; by rewrite <-app_assoc).
  pose proof (digest_size (writeU64LE [] counter ++ packet ++ key)) as Hd.
  rewrite vec_range_ok by lia. done.
Qed.

Lemma computeChecksum_safe packet counter key : safe (computeChecksum packet counter key).
Proof.
  destruct (decide (size key = 32)) as [Hk|Hk]; [by rewrite computeChecksum_ok|].
  unfold computeChecksum. by rewrite (proj2 (Z.eqb_neq _ _)).
Qed.

Lemma boundary_range n : 0 <= n -> 0 <= nodeChecksumSliceBoundary n <= n.
Proof.
  intros Hn. unfold nodeChecksumSliceBoundary.
  destruct (Z.geb_spec n 8); [lia|]. destruct (Z.gtb_spec n 4); lia.
Qed.

(** Verifying what [makeAesPlaintext] made. *)
Lemma verify_made packet counter key :
  size key = 32 ->
  verifyAesPlaintext (packet ++ checksum packet counter key) key counter =
  (Ok (mkVerification packet (checksum packet counter key) (checksum packet counter key)),
   to_u64 (counter + 1)).
Proof.
  intros Hk. unfold verifyAesPlaintext. pose proof (checksum_size packet counter key) as Hc.
  pose proof (size_nonneg packet).
  assert (nodeChecksumSliceBoundary (size (packet ++ checksum packet counter key)) = size packet) as ->.
  { rewrite size_app, Hc. unfold nodeChecksumSliceBoundary.
    destruct (Z.geb_spec (size packet + 8) 8); lia. }
  rewrite (vec_range_app [] packet (checksum packet counter key)) by done.
  rewrite (vec_range_tail packet) by done.
  unfold bind, lift, get_st, put_st, ret. by rewrite computeChecksum_ok.
Qed.

Lemma verify_safe aes key counter :
  runs_safe (verifyAesPlaintext aes key) counter (fun v n =>
    n = to_u64 (counter + 1) /\ packetPlaintext v ++ receivedChecksum v = aes).
Proof.
  unfold verifyAesPlaintext. pose proof (boundary_range (size aes) (size_nonneg aes)) as Hb.
  rewrite !vec_range_ok by lia. unfold runs_safe, bind, lift, get_st, put_st, ret.
  set (packet := take _ (drop _ aes)).
  pose proof (computeChecksum_safe packet counter key) as Hs.
  destruct (computeChecksum packet counter key) as [k|e]; [|done]. split; [done|].
  cbn [packetPlaintext receivedChecksum]. unfold packet. cbn [Z.to_nat].
  rewrite drop_0, Z.sub_0_r. rewrite (take_ge (drop _ aes)).
  - apply take_drop.
  - rewrite length_drop. unfold size in *. lia.
Qed.

Lemma check_safe {A} (r : option A) msg : safe (check r msg).
Proof. by destruct r. Qed.

Lemma process_safe input s : runs_safe (process input) s (fun _ _ => True).
Proof.
  unfold process, runs_safe, bind, get_st, lift, put_st, ret. case_bool_decide; [done|].
  by destruct (EVP_update c _ _ _ _) as [[o ?]|].
Qed.

Lemma decrypt_one_shot_safe key iv12 encrypted : safe (aes256GcmDecryptNoTag key iv12 encrypted).
Proof.
  unfold aes256GcmDecryptNoTag. destruct (negb _); [done|]. destruct (negb _); [done|].
  do 4 (apply rbind_safe; [apply check_safe|]; intros ?).
  apply rbind_safe; [case_bool_decide; [done|apply check_safe]|]. by intros [].
Qed.

Lemma to_i32_small n : 0 <= n < 2 ^ 31 -> to_i32 n = n.
Proof.
  intros Hn. unfold to_i32, to_signed. change (2 ^ (32 - 1)) with (2 ^ 31).
  rewrite Z.mod_small by lia. by rewrite (proj2 (Z.ltb_lt _ _)) by lia.
Qed.

Definition enc_stream a ctx := mkCipherStream a Encrypt ctx.
Definition dec_stream a ctx := mkCipherStream a Decrypt ctx.

Lemma process_pair a e d x :
  paired e d -> x <> [] -> size x < 2 ^ 31 ->
  exists y e' d', process x (enc_stream a e) = (Ok y, enc_stream a e') /\ y <> [] /\
    process y (dec_stream a d) = (Ok x, dec_stream a d') /\ paired e' d'.
Proof.
  intros Hp Hx Hsz. destruct (update_pair e d x Hp Hx Hsz) as (y & e' & d' & E1 & Hy & E2 & Hp').
  pose proof (size_nonneg x).
  assert (y <> []) as Hne.
  { intros ->. apply Hx, size_zero_inv. by rewrite <-Hy. }
  exists y, e', d'. unfold process. rewrite !bool_decide_false by done.
  unfold bind, get_st, lift, put_st, ret. cbn [enc_stream dec_stream mode_ ctx_ algorithm].
  rewrite !to_i32_small by lia. rewrite E1, E2. done.
Qed.

(** Both ends of a connection are created paired. *)
Lemma create_pair version key iv :
  size key = 32 -> size iv = 16 ->
  exists a e d, createCipherStream version key iv Encrypt = Ok (enc_stream a e) /\
    createCipherStream version key iv Decrypt = Ok (dec_stream a d) /\ paired e d.
Proof.
  intros Hk Hi. unfold createCipherStream. destruct (cipherAlgorithmForProtocol version).
  - destruct (cfb8_pair key iv Hk Hi) as (e & d & E1 & E2 & Hp). exists Aes256Cfb8, e, d.
    unfold cfb8_stream. rewrite Hk, Hi. cbn [Z.eqb Pos.eqb negb]. unfold cfb8_setup in *.
    destruct (EVP_CIPHER_CTX_new c) as [x|]; [|done]. cbn [check rbind].
    destruct (EVP_cfb8_init c Encrypt x key iv); [|done].
    destruct (EVP_cfb8_init c Decrypt x key iv); [|done]. cbn [check rbind]. by rewrite E1, E2.
  - assert (size (take 12 iv) = 12) as H12 by (unfold size in *; rewrite length_take; lia).
    destruct (gcm_pair key (take 12 iv) Hk H12) as (e & d & E1 & E2 & Hp). exists Aes256GcmNoTag, e, d.
    unfold gcm_stream. rewrite Hk, Hi, vec_range_ok by lia. cbn [Z.eqb Pos.eqb negb Z.ltb Z.compare Pos.compare Pos.compare_cont rbind].
    change (take (Z.to_nat (12 - 0)) (drop (Z.to_nat 0) iv)) with (take 12 iv). rewrite H12.
    change (to_i32 12) with 12. unfold gcm_setup in *.
    destruct (EVP_CIPHER_CTX_new c) as [x|]; [|done]. cbn [check rbind].
    destruct (EVP_gcm_init c Encrypt x) as [x1|]; [|done].
    destruct (EVP_gcm_init c Decrypt x) as [x2|]; [|done]. cbn [check rbind].
    destruct (EVP_gcm_set_ivlen c x1 12); [|done].
    destruct (EVP_gcm_set_ivlen c x2 12); [|done]. cbn [check rbind]. by rewrite E1, E2.
Qed.

(** One packet through a paired pair of streams. *)
Lemma channel_step key p a e d n :
  size key = 32 -> is_u 64 n -> paired e d -> size p < 2 ^ 31 - 8 ->
  exists payload e' d',
    send_encrypted key p (enc_stream a e, n) = (Ok (0xfe :: payload), (enc_stream a e', to_u64 (n + 1))) /\
    receive_encrypted key (0xfe :: payload) (dec_stream a d, n) =
      (Ok (Received p), (dec_stream a d', to_u64 (n + 1))) /\ paired e' d'.
Proof.
  intros Hk Hn Hp Hs. pose proof (checksum_size p n key) as Hc.
  destruct (process_pair a e d (p ++ checksum p n key) Hp) as (y & e1 & d1 & E1 & Hy & E2 & Hp1).
  { intros E. apply (f_equal size) in E. rewrite size_app, Hc, size_nil in E. pose proof (size_nonneg p). lia. }
  { rewrite size_app. lia. }
  exists y, e1, d1. split_and!; [| |done].
  - unfold send_encrypted, makeAesPlaintext. unfold bind, get_st, put_st, lift, ret, zoom.
    cbn [fst snd]. rewrite computeChecksum_ok by done. cbn [rbind]. by rewrite E1.
  - unfold receive_encrypted. rewrite bool_decide_false by done.
    change (vec_at (254 :: y) 0) with (Ok 254). rewrite (vec_range_tail [254] y) by done.
    unfold decryptAndVerify, bind, lift, ret, zoom. cbn [Z.eqb Pos.eqb negb fst snd].
    rewrite bool_decide_false by done. cbn [fst snd]. rewrite E2. cbn [fst snd].
    rewrite verify_made by done. unfold matches. by rewrite bool_decide_true.
Qed.

Lemma channel_ok key packets : forall a e d n,
  size key = 32 -> is_u 64 n -> paired e d -> Forall (fun p => size p < 2 ^ 31 - 8) packets ->
  exists payloads e' d', 
    send_all key packets (enc_stream a e, n) =
      (Ok payloads, (enc_stream a e', to_u64 (n + size packets))) /\
    receive_all key payloads (dec_stream a d, n) =
      (Ok (Received <$> packets), (dec_stream a d', to_u64 (n + size packets))) /\ paired e' d'.
Proof.
  induction packets as [|p packets IH]; intros a e d n Hk Hn Hp Hsz.
  - exists [], e, d. rewrite size_nil, Z.add_0_r, to_u64_id by done. done.
  - apply Forall_cons_1 in Hsz as [Hs Hsz].
    destruct (channel_step key p a e d n Hk Hn Hp Hs) as (y & e1 & d1 & E1 & E2 & Hp1).
    destruct (IH a e1 d1 (to_u64 (n + 1)) Hk (to_u_range 64 _ ltac:(lia)) Hp1 Hsz)
      as (payloads & e' & d' & Hsend & Hrecv & Hp').
    assert (to_u64 (to_u64 (n + 1) + size packets) = to_u64 (n + size (p :: packets))) as Hcount.
    { rewrite size_cons. unfold to_u64. rewrite Zplus_mod_idemp_l. f_equal. lia. }
    rewrite Hcount in Hsend, Hrecv.
    exists ((0xfe :: y) :: payloads), e', d'. cbn [send_all receive_all].
    rewrite (bind_ok _ _ _ _ _ E1), (bind_ok _ _ _ _ _ E2).
    by rewrite (bind_ok _ _ _ _ _ Hsend), (bind_ok _ _ _ _ _ Hrecv).
Qed.

(** ** Properties *)

(** A session delivers: with the two streams that are created from the same
    key and initialisation vector, for any protocol version, every packet that
    is sent arrives in order with a matching checksum, and the counters of both
    ends stay in step. *)
Theorem encrypted_session version key iv packets :
  size key = 32 -> size iv = 16 -> Forall (fun p => size p < 2 ^ 31 - 8) packets ->
  exists se sd payloads st rt,
    createCipherStream version key iv Encrypt = Ok se /\
    createCipherStream version key iv Decrypt = Ok sd /\
    send_all key packets (se, 0) = (Ok payloads, st) /\
    receive_all key payloads (sd, 0) = (Ok (Received <$> packets), rt) /\
    st.2 = to_u64 (size packets) /\ rt.2 = to_u64 (size packets).
Proof.
  intros Hk Hi Hsz. destruct (create_pair version key iv Hk Hi) as (a & e & d & E1 & E2 & Hp).
  destruct (channel_ok key packets a e d 0 Hk ltac:(by split) Hp Hsz) as (payloads & e' & d' & Es & Er & _).
  by eexists _, _, payloads, _, _.
Qed.

(** [decryptMcpePayloadGcm] undoes [encryptMcpePayloadGcm] under the same
    counter. *)
Theorem gcm_payload_roundtrip packet counter key iv :
  size key = 32 -> 12 <= size iv -> size packet < 2 ^ 31 - 8 ->
  exists payload, encryptMcpePayloadGcm packet counter key iv = Ok payload /\
    decryptMcpePayloadGcm payload counter key iv = Ok packet.
Proof.
  intros Hk Hi Hsz. set (aes := packet ++ checksum packet counter key).
  pose proof (checksum_size packet counter key) as Hc. pose proof (size_nonneg packet).
  assert (size aes = size packet + 8) as Ha by (unfold aes; by rewrite size_app, Hc).
  assert (aes <> []) as Hne by (intros E; rewrite E, size_nil in Ha; lia).
  assert (size (take 12 iv) = 12) as H12 by (unfold size in *; rewrite length_take; lia).
  destruct (gcm_pair key (take 12 iv) Hk H12) as (e & d & E1 & E2 & Hp).
  destruct (update_pair e d aes Hp Hne ltac:(lia)) as (y & e' & d' & U1 & Hy & U2 & Hp').
  assert (y <> []) as Hyne by (intros ->; rewrite size_nil in Hy; lia).
  assert (vec_range iv 0 12 = Ok (take 12 iv)) as Hiv by by rewrite vec_range_ok by lia.
  exists ([0xfe] ++ y). unfold gcm_setup in *. split.
  - unfold encryptMcpePayloadGcm, makeAesPlaintext. rewrite (proj2 (Z.ltb_ge _ _)) by lia.
    rewrite computeChecksum_ok by done. cbn [rbind]. fold aes. rewrite Hiv. cbn [rbind].
    unfold aes256GcmEncryptNoTag. rewrite Hk, H12. cbn [Z.eqb Pos.eqb negb].
    change (to_i32 12) with 12. destruct (EVP_CIPHER_CTX_new c) as [x|]; [|done].
    cbn [check rbind]. destruct (EVP_gcm_init c Encrypt x) as [x1|]; [|done]. cbn [check rbind].
    destruct (EVP_gcm_set_ivlen c x1 12); [|done]. cbn [check rbind]. rewrite E1. cbn [check rbind].
    rewrite bool_decide_false, to_i32_small, U1 by (done || lia). cbn [check rbind].
    rewrite (final_empty _ _ Hp'). cbn [check rbind]. by rewrite app_nil_r.
  - unfold decryptMcpePayloadGcm. rewrite bool_decide_false by done.
    change (vec_at ([254] ++ y) 0) with (Ok 254). cbn [rbind Z.eqb Pos.eqb negb].
    rewrite (proj2 (Z.ltb_ge _ _)) by lia. rewrite (vec_range_tail [254] y) by done. cbn [rbind].
    rewrite bool_decide_false by done. rewrite Hiv. cbn [rbind].
    unfold aes256GcmDecryptNoTag. rewrite Hk, H12. cbn [Z.eqb Pos.eqb negb].
    change (to_i32 12) with 12. destruct (EVP_CIPHER_CTX_new c) as [x|]; [|done].
    cbn [check rbind]. destruct (EVP_gcm_init c Decrypt x) as [x1|]; [|done]. cbn [check rbind].
    destruct (EVP_gcm_set_ivlen c x1 12); [|done]. cbn [check rbind]. rewrite E2. cbn [check rbind].
    rewrite bool_decide_false, to_i32_small, U2 by (done || lia). cbn [check rbind].
    unfold aes. rewrite verify_made by done. cbn [fst rbind]. unfold matches.
    by rewrite bool_decide_true.
Qed.

(** The index at which JavaScript's [Buffer.slice(k)] cuts a buffer of [n]
    bytes. *)
Definition js_slice_index (n k : Z) : Z := if k <? 0 then Z.max (n + k) 0 else Z.min k n.

(** A decrypted payload of any length, shorter than a checksum included, is
    split where [slice(length - 8)] splits it; verifying it never leaves the
    buffer and uses up exactly one counter value. *)
Theorem checksum_slice_node aes key counter :
  nodeChecksumSliceBoundary (size aes) = js_slice_index (size aes) (size aes - 8) /\
  runs_safe (verifyAesPlaintext aes key) counter (fun v n =>
    n = to_u64 (counter + 1) /\ packetPlaintext v ++ receivedChecksum v = aes).
Proof.
  split; [|apply verify_safe]. pose proof (size_nonneg aes).
  unfold nodeChecksumSliceBoundary, js_slice_index.
  destruct (Z.geb_spec (size aes) 8), (Z.ltb_spec (size aes - 8) 0); try lia.
  destruct (Z.gtb_spec (size aes) 4); lia.
Qed.

(** The receiving ends are safe on any payload, key and stream state. *)
Theorem encrypted_receive_safe key payload s counter iv :
  safe (decryptMcpePayloadGcm payload counter key iv) /\
  runs_safe (receive_encrypted key payload) (s, counter) (fun _ p =>
    p.2 = counter \/ p.2 = to_u64 (counter + 1)).
Proof.
  split.
  - unfold decryptMcpePayloadGcm. case_bool_decide as Hne; [done|].
    destruct payload as [|b payload]; [done|]. change (vec_at (b :: payload) 0) with (Ok b).
    cbn [rbind]. destruct (negb _); [done|]. destruct (Z.ltb_spec (size iv) 12); [done|].
    rewrite (vec_range_tail [b] payload) by done. cbn [rbind].
    case_bool_decide; [done|]. rewrite vec_range_ok by lia. cbn [rbind].
    apply rbind_safe; [apply decrypt_one_shot_safe|]. intros aes.
    pose proof (verify_safe aes key counter) as Hv. unfold runs_safe in Hv.
    destruct (verifyAesPlaintext aes key counter) as [[v|e] n]; [|done]. cbn [fst rbind].
    by destruct (negb _).
  - unfold receive_encrypted. case_bool_decide as Hne; [by left|].
    destruct payload as [|b payload]; [done|]. change (vec_at (b :: payload) 0) with (Ok b).
    rewrite (vec_range_tail [b] payload) by done.
    unfold runs_safe, decryptAndVerify, bind, lift, ret, zoom.
    destruct (negb (b =? 254)); [by left|]. case_bool_decide; [by left|]. cbn [fst snd].
    pose proof (process_safe payload s) as Hps. unfold runs_safe in Hps.
    destruct (process payload s) as [[aes|e] s']; [|done]. cbn [fst snd].
    pose proof (verify_safe aes key counter) as Hv. unfold runs_safe in Hv.
    destruct (verifyAesPlaintext aes key counter) as [[v|e] n]; [|done].
    destruct Hv as [-> _]. cbn [snd]. destruct (negb _); by right.
Qed.

End Encryption.

(** ** A toy instance *)

(** The identity cipher and a byte sum. *)
Definition toy_digest (m : bytes) : bytes := replicate 32 (foldr Z.add 0 m mod 256).

Definition toy_crypto : crypto :=
  mkCrypto unit bytes (Some tt) (fun _ x => Some x) (fun x _ => Some x) (fun _ x _ _ => Some x)
    (fun _ x _ _ => Some x) (fun x _ => Some x) (fun _ x input _ => Some (input, x))
    (fun _ => Some []) (Some []) (fun s x => Some (s ++ x)) (fun s => Some (toy_digest s)).

#[export] Instance toy_laws : CryptoLaws toy_crypto.
Proof.
  unshelve econstructor.
  - exact (fun _ _ => True).
  - exact toy_digest.
  - exact (fun s => s).
  - done.
  - by exists [].
  - intros s x. by exists (s ++ x).
  - done.
  - intros key iv _ _. by exists tt, tt.
  - intros key iv _ _. by exists tt, tt.
  - intros e d x _ _ _. exists x, e, d. split_and!; done.
  - done.
Defined.

Lemma encrypted_session_witness :
  exists se sd payloads st rt,
    createCipherStream toy_crypto 800 (replicate 32 7) (replicate 16 1) Encrypt = Ok se /\
    createCipherStream toy_crypto 800 (replicate 32 7) (replicate 16 1) Decrypt = Ok sd /\
    send_all toy_crypto (replicate 32 7) [[1; 2]; []; [3]] (se, 0) = (Ok payloads, st) /\
    receive_all toy_crypto (replicate 32 7) payloads (sd, 0) =
      (Ok (Received <$> [[1; 2]; []; [3]]), rt) /\
    st.2 = to_u64 (size [[1; 2]; []; [3]]) /\ rt.2 = to_u64 (size [[1; 2]; []; [3]]).
Proof.
  apply (encrypted_session toy_crypto 800 (replicate 32 7) (replicate 16 1) [[1; 2]; []; [3]]);
    [reflexivity|reflexivity|by apply (bool_decide_unpack _)].
Defined.

Lemma gcm_payload_roundtrip_witness :
  exists payload, encryptMcpePayloadGcm toy_crypto [9; 8] 5 (replicate 32 7) (replicate 16 1) = Ok payload /\
    decryptMcpePayloadGcm toy_crypto payload 5 (replicate 32 7) (replicate 16 1) = Ok [9; 8].
Proof.
  apply (gcm_payload_roundtrip toy_crypto [9; 8] 5 (replicate 32 7) (replicate 16 1));
    [reflexivity|by vm_compute|by vm_compute].
Defined.

Lemma checksum_slice_node_witness :
  nodeChecksumSliceBoundary (size [1; 2; 3; 4; 5; 6]) = js_slice_index (size [1; 2; 3; 4; 5; 6]) (size [1; 2; 3; 4; 5; 6] - 8) /\
  runs_safe (verifyAesPlaintext toy_crypto [1; 2; 3; 4; 5; 6] (replicate 32 7)) 3 (fun v n =>
    n = to_u64 (3 + 1) /\ packetPlaintext v ++ receivedChecksum v = [1; 2; 3; 4; 5; 6]).
Proof. apply (checksum_slice_node toy_crypto [1; 2; 3; 4; 5; 6] (replicate 32 7) 3). Defined.

Lemma encrypted_receive_safe_witness :
  safe (decryptMcpePayloadGcm toy_crypto [254; 1] 0 (replicate 32 7) (replicate 16 1)) /\
  runs_safe (receive_encrypted toy_crypto (replicate 32 7) [254; 1])
    (mkCipherStream toy_crypto Aes256Cfb8 Decrypt tt, 0) (fun _ p => p.2 = 0 \/ p.2 = to_u64 (0 + 1)).
Proof.
  apply (encrypted_receive_safe toy_crypto (replicate 32 7) [254; 1]
    (mkCipherStream toy_crypto Aes256Cfb8 Decrypt tt) 0 (replicate 16 1)).
Defined.

End BedrockEncryption.
