(* ===== verification/VersionedReader.v ===== *)
(** * Payloads of versioned packets (src/include/bedrock/protocol/VersionedPayloadReader.hpp)

    [VersionedPayloadCursor] and the four hand-written packet readers of
    [VersionedPayloadReader].  [float] fields are their IEEE bit patterns. *)

From S2P Require Import Prelude MachineInt Leb128 Endian ZigZag Framing Versioned.

Import VersionedPacketCodec.

Module VersionedPayloadReader.

Record VersionedPlayStatusPacket := mkPlayStatus { status : Z }.

Record VersionedTextPacket := mkText {
  type_ : Z;
  needsTranslation : bool;
  sourceName : string;
  message : string;
  parameters : list string;
  xuid : string;
  platformChatId : string;
  filteredMessage : string
}.

Record VersionedLevelChunkPacket := mkLevelChunk {
  chunkX : Z;
  chunkZ : Z;
  dimension : Z;
  subChunkCount : Z;
  cacheEnabled : bool;
  dataSize : Z;
  data : bytes
}.

Record VersionedStartGamePacket := mkStartGame {
  entityId : Z;
  runtimeEntityId : Z;
  playerGameMode : Z;
  x : Z;
  y : Z;
  z : Z
}.

(** ** class VersionedPayloadCursor *)
Section Cursor.
Context (data_ : bytes).

Definition remaining : M Z Z :=
  let* offset_ := get_st in
  ret (if offset_ >? size data_ then 0 else size data_ - offset_).
Definition eof : M Z bool := let* offset_ := get_st in ret (offset_ >=? size data_).

Definition not_enough (what : string) : exn := RuntimeError ("not enough bytes for " +:+ what).

Definition require (len : Z) (what : string) : M Z unit :=
  let* offset_ := get_st in
  if offset_ + len >? size data_ then raise (not_enough what) else ret tt.

(** [require(len, what); value = load(data_, offset_); offset_ += len;] *)
Definition load_word (len : Z) (what : string) (load : bytes -> Z -> result Z) : M Z Z :=
  require len what ;;;
  let* offset_ := get_st in
  let* value := lift (load data_ offset_) in
  put_st (offset_ + len) ;;; ret value.

Definition readU8 : M Z Z := load_word 1 "u8" vec_at.
Definition readBool : M Z bool := let* b := readU8 in ret (negb (b =? 0)).
Definition readU16LE : M Z Z := load_word 2 "u16le" load_le16.
Definition readU32LE : M Z Z := load_word 4 "u32le" load_le32.
Definition readU32BE : M Z Z := load_word 4 "u32be" load_be32.

Definition readU64LE : M Z Z := load_word 8 "u64le" load_le64.
Definition readF32LE : M Z Z := readU32LE.

Definition varuintTooLong : exn := RuntimeError "varuint too long".
Definition varulongTooLong : exn := RuntimeError "varulong too long".

Definition readVarUInt : M Z Z := varint_loop readU8 32 varuintTooLong shifts32 0.
Definition readVarULong : M Z Z := varint_loop readU8 64 varulongTooLong shifts64 0.
Definition readVarInt : M Z Z := let* raw := readVarUInt in ret (unzigzag_not 32 raw).
Definition readVarLong : M Z Z := let* raw := readVarULong in ret (unzigzag_not 64 raw).

(** [require(len, what); out = data_[offset_, offset_ + len); offset_ += len;] *)
Definition take_bytes (len : Z) (what : string) : M Z bytes :=
  require len what ;;;
  let* offset_ := get_st in
  let* out := lift (vec_range data_ offset_ (offset_ + len)) in
  put_st (offset_ + len) ;;; ret out.

Definition readString : M Z string :=
  let* size := readVarUInt in
  let* out := take_bytes size "string" in
  ret (string_of_bytes out).

Definition readBytes (size : Z) : M Z bytes := take_bytes size "bytes".
Definition readRemainingBytes : M Z bytes := let* n := remaining in readBytes n.

(** ** The bodies of the packet readers *)

Definition readPlayStatus_body : M Z VersionedPlayStatusPacket :=
  let* status := readU32BE in ret (mkPlayStatus (to_i32 status)).

(** [for (uint32_t i = 0; i < count; ++i) parameters.push_back(cursor.readString());] *)
Fixpoint read_strings (n : nat) (parameters : list string) : M Z (list string) :=
  match n with
  | O => ret parameters
  | S n' => let* s := readString in read_strings n' (parameters ++ [s])
  end.

(** [if (!cursor.eof()) field = cursor.readString();] *)
Definition optional_string : M Z string :=
  let* done := eof in if negb done then readString else ret ""%string.

Definition readText_body : M Z VersionedTextPacket :=
  let* type := readU8 in
  let* needs := readBool in
  let* source := (if (type =? 1) || (type =? 7) || (type =? 8) then readString else ret ""%string) in
  let* msg := readString in
  let* params :=
    (if (type =? 2) || (type =? 3) || (type =? 4) then
       let* count := readVarUInt in read_strings (Z.to_nat count) []
     else ret []) in
  let* xuid := optional_string in
  let* chat := optional_string in
  let* filtered := optional_string in
  ret (mkText type needs source msg params xuid chat filtered).

(** [for (uint32_t i = 0; i < blobCount; ++i) cursor.readU64LE();] *)
Fixpoint skip_blobs (n : nat) : M Z unit :=
  match n with
  | O => ret tt
  | S n' => let* _ := readU64LE in skip_blobs n'
  end.

Definition readLevelChunk_body : M Z VersionedLevelChunkPacket :=
  let* chunkX := readVarInt in
  let* chunkZ := readVarInt in
  let* dimension := readVarInt in
  let* subChunkCount := readVarInt in
  let* cacheEnabled := readBool in
  (if cacheEnabled : bool then
     let* blobCount := readVarUInt in skip_blobs (Z.to_nat blobCount)
   else ret tt) ;;;
  let* done := eof in
  if negb done then
    let* dataSize := readVarUInt in
    let* data := readBytes dataSize in
    ret (mkLevelChunk chunkX chunkZ dimension subChunkCount cacheEnabled dataSize data)
  else ret (mkLevelChunk chunkX chunkZ dimension subChunkCount cacheEnabled 0 []).

Definition readStartGame_body : M Z VersionedStartGamePacket :=
  let* entityId := readVarLong in
  let* runtimeEntityId := readVarULong in
  let* playerGameMode := readVarInt in
  let* x := readF32LE in
  let* y := readF32LE in
  let* z := readF32LE in
  ret (mkStartGame entityId runtimeEntityId playerGameMode x y z).
End Cursor.

(** ** class VersionedPayloadReader *)

Definition wrong_packet (packet : VersionedGamePacket) (expectedName : string) : exn :=
  RuntimeError ("wrong packet for payload reader: got " +:+ packet_name packet +:+ ", expected " +:+ expectedName).

Definition requirePacket (packet : VersionedGamePacket) (expectedName : string) : result unit :=
  if negb (bool_decide (packet_name packet = expectedName)) then Throw (wrong_packet packet expectedName)
  else Ok tt.

(** [requirePacket(packet, name); VersionedPayloadCursor cursor(packet.payload); ...] *)
Definition read_packet {A} (name : string) (body : bytes -> M Z A) (packet : VersionedGamePacket) : result A :=
  let! _ := requirePacket packet name in fst (body (payload packet) 0).

Definition readPlayStatus := read_packet "play_status" readPlayStatus_body.
Definition readText := read_packet "text" readText_body.
Definition readLevelChunk := read_packet "level_chunk" readLevelChunk_body.
Definition readStartGame := read_packet "start_game" readStartGame_body.

End VersionedPayloadReader.

Import VersionedPayloadReader.

(** ** The cursor as a byte source *)

(** What a load reads off the bytes at the offset. *)
Definition loads (load : bytes -> Z -> result Z) (len : Z) (f : bytes -> Z) : Prop :=
  forall d o k, is_bytes k -> stands_at d k o -> size k = len -> load d o = Ok (f k).

Lemma loads_le32 : loads load_le32 4 le_decode.
Proof. intros d o k. apply load_le32_ok. Qed.
Lemma loads_be32 : loads load_be32 4 (fun k => le_decode (reverse k)).
Proof. intros d o k. apply load_be32_ok. Qed.
Lemma loads_le64 : loads load_le64 8 le_decode.
Proof. intros d o k. apply load_le64_ok. Qed.

Section Cursor.
Context (d : bytes).

Lemma readU8_fetch o : readU8 d o = fetch_at d (not_enough "u8") o.
Proof.
  unfold readU8, load_word, fetch_at, require, bind, get_st, raise, ret.
  destruct (Z.gtb_spec (o + 1) (size d)), (Z.geb_spec o (size d)); (lia || done).
Qed.

#[export] Instance cursor_source :
  ByteSource (readU8 d) (offset_valid d) (offset_rest d) offset_skip (not_enough "u8").
Proof.
  pose proof (offset_source d (not_enough "u8")) as [H0 H1 H2 H3]. split; [done|done| |].
  - intros s b l Hs Hr. rewrite readU8_fetch. by apply H2.
  - intros s Hs Hr. rewrite readU8_fetch. by apply H3.
Qed.

Lemma cursor_stands o k r : offset_valid d o -> offset_rest d o = k ++ r ->
  stands_at d k o /\ o + size k <= size d.
Proof.
  intros Ho Hr. destruct (offset_rest_split d o Ho) as (pre & Hd & Hp). rewrite Hr in Hd. split.
  - by exists pre, r.
  - rewrite Hd, !size_app, Hp. pose proof (size_nonneg r). lia.
Qed.

Lemma cursor_require_ok n what o : o + n <= size d -> require d n what o = (Ok tt, o).
Proof.
  intros Hn. unfold require. rewrite bind_get, Z.gtb_ltb. by rewrite (proj2 (Z.ltb_ge _ _)) by lia.
Qed.

Abbreviation parses := (consumes (offset_valid d) (offset_rest d) offset_skip).

Lemma parses_word len what load f k : loads load len f -> is_bytes k -> size k = len ->
  parses (load_word d len what load) k (f k).
Proof.
  intros Hl Hk Hs o r Ho _ Hr. destruct (cursor_stands o k r Ho Hr) as [Hst Hin].
  unfold load_word. rewrite (bind_ok _ _ _ _ _ (cursor_require_ok len what o ltac:(lia))), bind_get.
  rewrite (Hl d o k Hk Hst Hs), bind_lift. by rewrite <-Hs.
Qed.

Lemma parses_f32 v : is_u 32 v -> parses (readF32LE d) (le_encode 4 v) v.
Proof.
  intros Hv. pose proof (parses_word 4 "u32le" load_le32 le_decode (le_encode 4 v) loads_le32
    (le_encode_bytes 4 v) (le_encode_size 4 v)) as H.
  by rewrite le_decode_encode, Z.mod_small in H.
Qed.

Lemma parses_varuint v : is_u 32 v -> parses (readVarUInt d) (leb_encode 5 v) v.
Proof. apply consumes_varint_32. Qed.
Lemma parses_varulong v : is_u 64 v -> parses (readVarULong d) (leb_encode 10 v) v.
Proof. apply consumes_varint_64. Qed.

Lemma parses_varint v : is_s 32 v -> parses (readVarInt d) (leb_encode 5 (zigzag v)) v.
Proof.
  intros Hv. pose proof (zigzag_range 32 v ltac:(lia) Hv) as Hz.
  pose proof (consumes_bind_ret (readVarUInt d) (unzigzag_not 32) _ _ (parses_varuint _ Hz)) as H.
  by rewrite unzigzag_not_ok, unzigzag_zigzag in H by (done || lia).
Qed.

Lemma parses_varlong v : is_s 64 v -> parses (readVarLong d) (leb_encode 10 (zigzag v)) v.
Proof.
  intros Hv. pose proof (zigzag_range 64 v ltac:(lia) Hv) as Hz.
  pose proof (consumes_bind_ret (readVarULong d) (unzigzag_not 64) _ _ (parses_varulong _ Hz)) as H.
  by rewrite unzigzag_not_ok, unzigzag_zigzag in H by (done || lia).
Qed.

(** ** Safety *)

Context (Hd : is_bytes d).

Abbreviation reads_u n m := (forall o, offset_valid d o -> runs_safe m o (fun v o' => is_u n v /\ offset_valid d o')).
Abbreviation steps m := (forall o, offset_valid d o -> runs_safe m o (fun _ => offset_valid d)).

Lemma word_safe len what load f : loads load len f -> 0 <= len -> 
  (forall k, is_bytes k -> size k = len -> is_u (8 * len) (f k)) -> reads_u (8 * len) (load_word d len what load).
Proof.
  intros Hl Hn Hf o [Ho Ho']. unfold load_word, require, runs_safe. rewrite bind_assoc, bind_get.
  destruct (Z.gtb_spec (o + len) (size d)); [done|]. rewrite bind_ret, bind_get.
  destruct (stands_at_split d o len Ho ltac:(lia) Hn) as (k & Hs & Hst).
  pose proof (stands_at_bytes d k o Hd Hst) as Hk.
  rewrite (Hl d o k Hk Hst Hs), bind_lift. cbn. split; [by apply Hf|]. split; lia.
Qed.

Lemma le_decode_u len k : is_bytes k -> size k = len -> is_u (8 * len) (le_decode k).
Proof. intros Hk <-. by apply le_decode_bound. Qed.

Lemma reads_le32 : reads_u 32 (readU32LE d).
Proof. apply (word_safe 4 "u32le" load_le32 le_decode loads_le32); [lia|apply (le_decode_u 4)]. Qed.
Lemma le64_safe : reads_u 64 (readU64LE d).
Proof. apply (word_safe 8 "u64le" load_le64 le_decode loads_le64); [lia|apply (le_decode_u 8)]. Qed.
Lemma be32_safe : reads_u 32 (readU32BE d).
Proof.
  apply (word_safe 4 "u32be" load_be32 (fun k => le_decode (reverse k)) loads_be32); [lia|].
  intros k Hk Hs. apply (le_decode_u 4); [by apply Forall_reverse|]. unfold size in *. by rewrite length_reverse.
Qed.

Lemma u8_steps : steps (readU8 d).
Proof.
  intros o [Ho Ho']. unfold runs_safe. rewrite readU8_fetch. unfold fetch_at, bind, get_st, raise, lift, put_st, ret.
  destruct (Z.geb_spec o (size d)); [done|]. destruct (vec_at_ok d o) as (b & -> & _); [lia|]. split; lia.
Qed.

Lemma outcome_safe n w tooBig o : is_stuck tooBig = false -> 0 <= w -> offset_valid d o ->
  runs_safe (leb_outcome w offset_skip (not_enough "u8") tooBig (leb_decode n (offset_rest d o))) o
    (fun v o' => is_u w v /\ offset_valid d o').
Proof.
  intros Ht Hw Ho. assert (is_bytes (offset_rest d o)) as Hr by by apply Forall_drop.
  unfold runs_safe. destruct (leb_decode n _) as [v k|k|k] eqn:E; cbn [leb_outcome]; [|done|done].
  destruct (leb_decode_value_bound _ _ _ _ Hr E) as (_ & Hk & _).
  split; [by apply Z.mod_pos_bound, pow2_pos|]. destruct Ho. unfold offset_skip, offset_valid.
  assert (size (offset_rest d o) = size d - o) by (unfold offset_rest, size in *; rewrite length_drop; lia). lia.
Qed.

Lemma reads_varuint : reads_u 32 (readVarUInt d).
Proof.
  intros o Ho. unfold runs_safe, readVarUInt. rewrite varint_loop_32 by (done || by apply Forall_drop).
  by apply outcome_safe.
Qed.
Lemma varulong_safe : reads_u 64 (readVarULong d).
Proof.
  intros o Ho. unfold runs_safe, readVarULong. rewrite varint_loop_64 by (done || by apply Forall_drop).
  by apply outcome_safe.
Qed.
Lemma varint_steps : steps (readVarInt d).
Proof. intros o Ho. eapply runs_safe_bind; [by apply reads_varuint|]. by intros ? ? [_ ?]. Qed.
Lemma varlong_steps : steps (readVarLong d).
Proof. intros o Ho. eapply runs_safe_bind; [by apply varulong_safe|]. by intros ? ? [_ ?]. Qed.
Lemma bool_steps : steps (readBool d).
Proof. intros o Ho. eapply runs_safe_bind; [by apply u8_steps|]. done. Qed.

Lemma take_steps n what : 0 <= n -> steps (take_bytes d n what).
Proof.
  intros Hn o [Ho Ho']. unfold take_bytes, require, runs_safe. rewrite bind_assoc, bind_get.
  destruct (Z.gtb_spec (o + n) (size d)); [done|]. rewrite bind_ret, bind_get, vec_range_ok by lia.
  rewrite bind_lift. split; lia.
Qed.
Lemma take_size n what o : 0 <= n -> offset_valid d o ->
  runs_safe (take_bytes d n what) o (fun k _ => size k = n).
Proof.
  intros Hn [Ho Ho']. unfold take_bytes, require, runs_safe. rewrite bind_assoc, bind_get.
  destruct (Z.gtb_spec (o + n) (size d)); [done|]. rewrite bind_ret, bind_get, vec_range_ok by lia.
  rewrite bind_lift. cbn. unfold size in *. rewrite length_take, length_drop. lia.
Qed.
Lemma string_steps : steps (readString d).
Proof.
  intros o Ho. eapply runs_safe_bind; [by apply reads_varuint|]. intros n o' [[Hn _] Ho'].
  eapply runs_safe_bind; [by apply take_steps|]. done.
Qed.
Lemma eof_steps : steps (eof d).
Proof. done. Qed.
Lemma optional_steps : steps (optional_string d).
Proof.
  intros o Ho. eapply runs_safe_bind; [by apply eof_steps|]. intros b o' Ho'.
  destruct (negb _); [by apply string_steps|done].
Qed.
Lemma strings_steps n : forall ps, steps (read_strings d n ps).
Proof.
  induction n as [|n IH]; intros ps o Ho; [done|]. cbn [read_strings].
  eapply runs_safe_bind; [by apply string_steps|]. intros s o' Ho'. by apply IH.
Qed.
Lemma blobs_steps n : steps (skip_blobs d n).
Proof.
  induction n as [|n IH]; intros o Ho; [done|]. cbn [skip_blobs].
  eapply runs_safe_bind; [by apply le64_safe|]. intros v o' [_ Ho']. by apply IH.
Qed.
End Cursor.

(** ** The packet readers *)
Section Bodies.
Context (d : bytes) (Hd : is_bytes d).

Abbreviation returns m Q := (forall o, offset_valid d o -> runs_safe m o (fun a _ => Q a)).

Lemma status_body_safe : returns (readPlayStatus_body d) (fun p => is_s 32 (status p)).
Proof.
  intros o Ho. eapply runs_safe_bind; [by apply be32_safe|]. intros v o' _. by apply (to_signed_range 32).
Qed.

Lemma start_game_body_safe : returns (readStartGame_body d) (fun p => is_u 64 (runtimeEntityId p)).
Proof.
  intros o Ho. unfold readStartGame_body. eapply runs_safe_bind; [by apply varlong_steps|]. intros v1 o1 H1.
  eapply runs_safe_bind; [by apply varulong_safe|]. intros v2 o2 [Hid H2].
  eapply runs_safe_bind; [by apply varint_steps|]. intros v3 o3 H3.
  do 3 (eapply runs_safe_bind; [by apply reads_le32|]; intros ? ? [_ ?]). done.
Qed.

Lemma text_body_safe : returns (readText_body d) (fun _ => True).
Proof.
  intros o Ho. unfold readText_body. eapply runs_safe_bind; [by apply u8_steps|]. intros type o1 H1.
  eapply runs_safe_bind; [by apply bool_steps|]. intros needs o2 H2.
  eapply (runs_safe_bind _ _ _ (fun _ => offset_valid d)); [by destruct (_ || _); [apply string_steps|]|].
  intros source o3 H3. eapply runs_safe_bind; [by apply string_steps|]. intros msg o4 H4.
  eapply (runs_safe_bind _ _ _ (fun _ => offset_valid d)).
  { destruct (_ || _); [|done]. eapply runs_safe_bind; [by apply reads_varuint|].
    intros n o5 [_ H5]. by apply strings_steps. }
  intros params o5 H5. do 3 (eapply runs_safe_bind; [by apply optional_steps|]; intros ? ? ?). done.
Qed.

Lemma level_chunk_body_safe : returns (readLevelChunk_body d) (fun p => size (data p) = dataSize p).
Proof.
  intros o Ho. unfold readLevelChunk_body. do 4 (eapply runs_safe_bind; [by apply varint_steps|]; intros ? ? ?).
  eapply runs_safe_bind; [by apply bool_steps|]. intros cache o5 H5.
  eapply (runs_safe_bind _ _ _ (fun _ => offset_valid d)).
  { destruct cache; [|done]. eapply runs_safe_bind; [by apply reads_varuint|].
    intros n o6 [_ H6]. by apply blobs_steps. }
  intros _ o6 H6. eapply runs_safe_bind; [by apply eof_steps|]. intros b o6' H6'. destruct (negb _); [|done].
  eapply runs_safe_bind; [by apply reads_varuint|]. intros n o7 [[Hn _] [Ho7 H7]].
  eapply runs_safe_bind; [by apply take_size|]. by intros k o8 Hk.
Qed.
End Bodies.

(** Every reader returns what it promises or throws one of the program's
    exceptions. *)
Lemma read_packet_safe {A} name (body : bytes -> M Z A) p (Q : A -> Prop) :
  is_bytes (payload p) -> (forall d, is_bytes d -> forall o, offset_valid d o -> runs_safe (body d) o (fun a _ => Q a)) ->
  match read_packet name body p with Ok a => Q a | Throw e => is_stuck e = false end.
Proof.
  intros Hp Hb. unfold read_packet, requirePacket. case_bool_decide; [|done]. cbn [negb rbind].
  specialize (Hb _ Hp 0 ltac:(split; [lia|apply size_nonneg])). unfold runs_safe in Hb.
  by destruct (body (payload p) 0) as [[a|e] o].
Qed.

(** The bytes of a start_game payload as far as it is read. *)
Definition start_game_bytes (p : VersionedStartGamePacket) : bytes :=
  leb_encode 10 (zigzag (entityId p)) ++ leb_encode 10 (runtimeEntityId p) ++
  leb_encode 5 (zigzag (playerGameMode p)) ++ le_encode 4 (x p) ++ le_encode 4 (y p) ++ le_encode 4 (z p).

Definition start_game_ok (p : VersionedStartGamePacket) : Prop :=
  is_s 64 (entityId p) /\ is_u 64 (runtimeEntityId p) /\ is_s 32 (playerGameMode p) /\
  is_u 32 (x p) /\ is_u 32 (y p) /\ is_u 32 (z p).

Lemma start_game_parses d p : start_game_ok p ->
  consumes (offset_valid d) (offset_rest d) offset_skip (readStartGame_body d) (start_game_bytes p) p.
Proof.
  intros (H1 & H2 & H3 & H4 & H5 & H6). unfold readStartGame_body, start_game_bytes.
  eapply consumes_bind; [by apply parses_varlong|].
  eapply consumes_bind; [by apply parses_varulong|].
  eapply consumes_bind; [by apply parses_varint|].
  do 2 (eapply consumes_bind; [by apply parses_f32|]).
  rewrite <-(app_nil_r (le_encode 4 (z p))). eapply consumes_bind; [by apply parses_f32|].
  destruct p. apply consumes_ret.
Qed.

Lemma readStartGame_ok pkt p rest : packet_name pkt = "start_game" -> start_game_ok p -> is_bytes (payload pkt) ->
  payload pkt = start_game_bytes p ++ rest -> readStartGame pkt = Ok p.
Proof.
  intros Hn Hp Hb Hr. unfold readStartGame, read_packet, requirePacket. rewrite bool_decide_true by done.
  cbn [negb rbind]. rewrite (start_game_parses _ p Hp 0 rest); [done| | |].
  - split; [lia|apply size_nonneg].
  - unfold offset_rest. by rewrite drop_0.
  - unfold offset_rest. by rewrite drop_0.
Qed.
