(* ===== verification/ClientSession.v ===== *)
(** * The versioned client session (src/include/bedrock/client/VersionedClientSession.hpp)

    A session decodes MCPE payloads, dispatches their packets to the handlers
    that the caller registered, answers some of them by itself, and queues the
    packets to send.  The handlers are the caller's code: computations on the
    session and an environment [E] of their own, which may throw.  The tables of
    handlers do not change while a packet is dispatched (pushing a handler onto
    the vector that is walked is undefined in C++). *)

From S2P Require Import Prelude MachineInt Leb128 ZigZag Endian Framing GamePacket Text Snappy Zlib Versioned VersionedCodec VersionedReader.

Import VersionedPacketCodec VersionedBatchCodec VersionedMcpeCodec.

Module VersionedClientSession.

Record VersionedClientSessionOptions := mkOptions {
  minecraftVersion : string;
  outgoingCompression : VersionedMcpeCompression;
  autoResourcePackResponses : bool;
  autoStartGameInit : bool;
  clientCacheEnabled : bool;
  chunkRadius : Z;
  localPlayerRuntimeEntityId : bytes
}.

Definition defaultLocalPlayerRuntimeEntityId : bytes :=
  [0xff; 0xff; 0xff; 0xff; 0xff; 0xff; 0xff; 0xff; 0x7f].

(** The fields of the session that change; the handlers are apart. *)
Record session := mkSession {
  options_ : VersionedClientSessionOptions;
  mcpeCodec_ : VersionedMcpeCodec;
  outgoing_ : list VersionedGamePacket;
  seenStartGame_ : bool;
  sentPostStartGameInit_ : bool
}.

Definition make (get : string -> option ProtocolVersionInfo) (options : VersionedClientSessionOptions)
    : result session :=
  let! codec := forVersion get (minecraftVersion options) in
  Ok (mkSession options codec [] false false).

Definition set_outgoing (out : list VersionedGamePacket) (s : session) : session :=
  mkSession (options_ s) (mcpeCodec_ s) out (seenStartGame_ s) (sentPostStartGameInit_ s).
Definition set_seen (s : session) : session :=
  mkSession (options_ s) (mcpeCodec_ s) (outgoing_ s) true (sentPostStartGameInit_ s).
Definition set_sent (s : session) : session :=
  mkSession (options_ s) (mcpeCodec_ s) (outgoing_ s) (seenStartGame_ s) true.
Definition set_options (o : VersionedClientSessionOptions) (s : session) : session :=
  mkSession o (mcpeCodec_ s) (outgoing_ s) (seenStartGame_ s) (sentPostStartGameInit_ s).

Definition packetDefinition (s : session) : ProtocolVersionInfo := definition (mcpeCodec_ s).

(** ** Writing *)

Definition push_outgoing (p : VersionedGamePacket) : M session VersionedGamePacket :=
  let* s := get_st in
  put_st (set_outgoing (outgoing_ s ++ [p]) s) ;;; ret p.

Definition writePacketByName (packetName : string) (payload : bytes) : M session VersionedGamePacket :=
  let* s := get_st in
  let* packet := lift (makePacketByName (packetDefinition s) packetName payload) in
  push_outgoing packet.

Definition writePacketById (packetId : Z) (payload : bytes) : M session VersionedGamePacket :=
  let* s := get_st in push_outgoing (makePacketById (packetDefinition s) packetId payload).

Definition writeNetworkSettingsRequest (protocolVersion : Z) : M session VersionedGamePacket :=
  writePacketByName "request_network_settings" (store_be32 protocolVersion).

Definition writeClientToServerHandshake : M session VersionedGamePacket :=
  writePacketByName "client_to_server_handshake" [].

Definition writeResourcePackHaveAllPacks : M session VersionedGamePacket :=
  writePacketByName "resource_pack_client_response" [0x03; 0x00; 0x00].

Definition writeResourcePackCompleted : M session VersionedGamePacket :=
  writePacketByName "resource_pack_client_response" [0x04; 0x00; 0x00].

Definition writeClientCacheStatus (enabled : bool) : M session VersionedGamePacket :=
  writePacketByName "client_cache_status" [if enabled then 1 else 0].

Definition writeRequestChunkRadius (radius : Z) : M session VersionedGamePacket :=
  if radius <? 0 then raise (RuntimeError "request_chunk_radius radius must be non-negative")
  else
    let value := Z.lxor (to_u32 (Z.shiftl (to_u32 radius) 1)) (to_u32 (Z.shiftr radius 31)) in
    let payload := write_while 5 [] value in
    let payload := payload ++ [0x00] in
    writePacketByName "request_chunk_radius" payload.

Definition writeSetLocalPlayerAsInitialized (runtimeEntityIdVarLong : bytes) : M session VersionedGamePacket :=
  writePacketByName "set_local_player_as_initialized" runtimeEntityIdVarLong.

Definition writeSetLocalPlayerAsInitializedMinusOne : M session VersionedGamePacket :=
  let* s := get_st in writeSetLocalPlayerAsInitialized (localPlayerRuntimeEntityId (options_ s)).

(** ** Taking what is queued *)

Definition takeOutgoingPackets : M session (list VersionedGamePacket) :=
  let* s := get_st in
  put_st (set_outgoing [] s) ;;; ret (outgoing_ s).

Definition drainOutgoing : M session (list VersionedGamePacket) := takeOutgoingPackets.

Definition takeOutgoingFramedBatch : M session bytes :=
  let* packets := takeOutgoingPackets in
  if bool_decide (packets = []) then ret [] else lift (encodeFramedBatch packets).

(** The compression level is the default of [encodeMcpePayload]. *)
Definition takeOutgoingMcpe_with (z : zlib) (compression : VersionedMcpeCompression) : M session bytes :=
  let* packets := takeOutgoingPackets in
  if bool_decide (packets = []) then ret []
  else
    let* s := get_st in lift (encodeMcpePayload z (mcpeCodec_ s) packets compression 7).

Definition takeOutgoingMcpe (z : zlib) : M session bytes :=
  let* s := get_st in takeOutgoingMcpe_with z (outgoingCompression (options_ s)).

Definition hasOutgoing (s : session) : bool := negb (bool_decide (outgoing_ s = [])).
Definition outgoingCount (s : session) : Z := size (outgoing_ s).

Definition setAutoResourcePackResponses (enabled : bool) : M session unit :=
  let* s := get_st in
  let o := options_ s in
  put_st (set_options (mkOptions (minecraftVersion o) (outgoingCompression o) enabled (autoStartGameInit o)
    (clientCacheEnabled o) (chunkRadius o) (localPlayerRuntimeEntityId o)) s).

Definition setAutoStartGameInit (enabled : bool) : M session unit :=
  let* s := get_st in
  let o := options_ s in
  put_st (set_options (mkOptions (minecraftVersion o) (outgoingCompression o) (autoResourcePackResponses o) enabled
    (clientCacheEnabled o) (chunkRadius o) (localPlayerRuntimeEntityId o)) s).

(** ** Answering *)

Definition autoRespond (packet : VersionedGamePacket) : M session unit :=
  let* s := get_st in
  if autoResourcePackResponses (options_ s) && bool_decide (packet_name packet = "resource_packs_info") then
    let* _ := writeResourcePackCompleted in ret tt
  else if autoResourcePackResponses (options_ s) && bool_decide (packet_name packet = "resource_pack_stack") then
    let* _ := writeResourcePackCompleted in ret tt
  else if autoStartGameInit (options_ s) && bool_decide (packet_name packet = "start_game")
          && negb (sentPostStartGameInit_ s) then
    let* _ := writeClientCacheStatus (clientCacheEnabled (options_ s)) in
    let* _ := writeRequestChunkRadius (chunkRadius (options_ s)) in
    let* _ := writeSetLocalPlayerAsInitializedMinusOne in
    let* s := get_st in
    put_st (set_sent s)
  else ret tt.

(** ** Handling *)
Section Handlers.
Context {E : Type}.

Definition PacketHandler : Type := VersionedGamePacket -> M (session * E) unit.

Record handlers := mkHandlers {
  anyHandlers_ : list PacketHandler;
  idHandlers_ : gmap Z (list PacketHandler);
  nameHandlers_ : gmap string (list PacketHandler)
}.

Definition no_handlers : handlers := mkHandlers [] ∅ ∅.

Definition onAny (handler : PacketHandler) (h : handlers) : handlers :=
  mkHandlers (anyHandlers_ h ++ [handler]) (idHandlers_ h) (nameHandlers_ h).
Definition on_name (packetName : string) (handler : PacketHandler) (h : handlers) : handlers :=
  mkHandlers (anyHandlers_ h) (idHandlers_ h)
    (<[packetName := default [] (nameHandlers_ h !! packetName) ++ [handler]]> (nameHandlers_ h)).
Definition on_id (packetId : Z) (handler : PacketHandler) (h : handlers) : handlers :=
  mkHandlers (anyHandlers_ h) (<[packetId := default [] (idHandlers_ h !! packetId) ++ [handler]]> (idHandlers_ h))
    (nameHandlers_ h).

(** [onPlayStatus], [onText], [onLevelChunk] and [onStartGame]: the packet is
    parsed before the handler is called. *)
Definition on_parsed {A} (name : string) (read : VersionedGamePacket -> result A)
    (handler : A -> VersionedGamePacket -> M (session * E) unit) : handlers -> handlers :=
  on_name name (fun packet => let* parsed := lift (read packet) in handler parsed packet).
Definition onPlayStatus := on_parsed "play_status" VersionedPayloadReader.readPlayStatus.
Definition onText := on_parsed "text" VersionedPayloadReader.readText.
Definition onLevelChunk := on_parsed "level_chunk" VersionedPayloadReader.readLevelChunk.
Definition onStartGame := on_parsed "start_game" VersionedPayloadReader.readStartGame.

(** A member function on the session. *)
Definition on_session {A} (m : M session A) : M (session * E) A := zoom fst (fun s p => (s, p.2)) m.

Context (h : handlers).

Definition dispatch (packet : VersionedGamePacket) : M (session * E) unit :=
  for_each (anyHandlers_ h) (fun handler => handler packet) ;;;
  match idHandlers_ h !! packet_id packet with
  | None => ret tt
  | Some hs => for_each hs (fun handler => handler packet)
  end ;;;
  match nameHandlers_ h !! packet_name packet with
  | None => ret tt
  | Some hs => for_each hs (fun handler => handler packet)
  end.

Definition handlePacket (packet : VersionedGamePacket) : M (session * E) unit :=
  (if bool_decide (packet_name packet = "start_game") then
     let* p := get_st in put_st (set_seen p.1, p.2)
   else ret tt) ;;;
  dispatch packet ;;;
  on_session (autoRespond packet).

Definition handleBatch (batch : list VersionedGamePacket) : M (session * E) unit :=
  for_each batch handlePacket.

Definition handleMcpePayload (z : zlib) (mcpePayload : bytes) : M (session * E) (list VersionedGamePacket) :=
  let* p := get_st in
  let* decoded := lift (decodeMcpePayload z (mcpeCodec_ p.1) mcpePayload) in
  handleBatch (batch decoded) ;;; ret (batch decoded).

End Handlers.
End VersionedClientSession.

Import VersionedClientSession.

(** ** Writing packets *)

Definition item (p : VersionedGamePacket) : string * bytes := (packet_name p, payload p).

(** What a session has queued, and that every queued packet can be sent. *)
Record queued (s : session) (items : list (string * bytes)) : Prop := mkQueued {
  qd_items : item <$> outgoing_ s = items;
  qd_ok : Forall (packet_ok (packetDefinition s)) (outgoing_ s)
}.

(** Sessions that differ in the queue only. *)
Definition same_but_queue (s s' : session) : Prop := s' = set_outgoing (outgoing_ s') s.

(** [m] queues [new] and changes nothing else. *)
Definition writes_items {A} (m : M session A) (s : session) (new : list (string * bytes)) : Prop :=
  forall items, queued s items -> exists a s', m s = (Ok a, s') /\ queued s' (items ++ new) /\ same_but_queue s s'.

Lemma writes_nil {A} (a : A) s : writes_items (ret a) s [].
Proof. intros items Hq. exists a, s. rewrite app_nil_r. split; [done|]. split; [done|]. by destruct s. Qed.

Lemma writes_then {A B} (m : M session A) (k : A -> M session B) s n1 n2 :
  writes_items m s n1 -> (forall a s', same_but_queue s s' -> writes_items (k a) s' n2) ->
  writes_items (bind m k) s (n1 ++ n2).
Proof.
  intros Hm Hk items Hq. destruct (Hm items Hq) as (a & s1 & E1 & Hq1 & H1).
  destruct (Hk a s1 H1 _ Hq1) as (b & s2 & E2 & Hq2 & H2). exists b, s2.
  rewrite (bind_ok _ _ _ _ _ E1), app_assoc. split; [done|]. split; [done|].
  unfold same_but_queue in *. rewrite H2, H1. by destruct s.
Qed.

(** A table that has the packets that the session sends by itself. *)
Definition answer_names : list string :=
  ["resource_pack_client_response"; "client_cache_status"; "request_chunk_radius"; "set_local_player_as_initialized"].

Definition answers_known (d : ProtocolVersionInfo) : Prop :=
  table_ok d /\ forall n, n ∈ answer_names ->
    exists p, p ∈ ProtocolDefinition.packets d /\ ProtocolDefinition.packet_info_name p = n.

Lemma writePacketByName_ok s name k : table_ok (packetDefinition s) -> known (packetDefinition s) (name, k) ->
  writes_items (writePacketByName name k) s [(name, k)].
Proof.
  intros Ht Hk items [Hi Ho]. destruct (make_by_name _ name k Ht Hk) as (p & E & Hp & Hn & Hpl).
  exists p, (set_outgoing (outgoing_ s ++ [p]) s). unfold writePacketByName. rewrite bind_get, E, bind_lift.
  split; [done|]. split; [|done]. split; cbn [set_outgoing outgoing_].
  - rewrite fmap_app, Hi. cbn. unfold item. by rewrite Hn, Hpl.
  - apply Forall_app. split; [done|]. by constructor.
Qed.

Lemma write_answer s name k : answers_known (packetDefinition s) -> name ∈ answer_names -> is_bytes k ->
  writes_items (writePacketByName name k) s [(name, k)].
Proof. intros [Ht Hn] Hi Hk. apply writePacketByName_ok; [done|]. split; [by apply Hn|done]. Qed.

Definition radius_payload (radius : Z) : bytes := leb_encode 5 (zigzag radius) ++ [0].

Lemma writeRequestChunkRadius_ok s radius : answers_known (packetDefinition s) -> 0 <= radius < 2 ^ 31 ->
  writes_items (writeRequestChunkRadius radius) s [("request_chunk_radius", radius_payload radius)].
Proof.
  intros Ha Hr. unfold writeRequestChunkRadius. destruct (Z.ltb_spec radius 0); [lia|].
  assert (is_s 32 radius) as Hs by (unfold is_s; change (2 ^ (32 - 1)) with (2 ^ 31); lia).
  change (Z.lxor _ _) with (zigzag_shift 32 radius). rewrite zigzag_shift_ok by (done || lia).
  pose proof (zigzag_range 32 radius ltac:(lia) Hs) as Hz.
  rewrite write_while_leb by by apply u32_fits_5. rewrite app_nil_l.
  apply write_answer; [done|by right; right; left|]. unfold radius_payload. rewrite is_bytes_app.
  split; [apply leb_encode_bytes, Hz|by apply (bool_decide_unpack _)].
Qed.

(** ** What the session answers

    The packets, by name and payload, that a session queues by itself for a
    packet it receives, and whether it has sent the start_game sequence. *)
Definition answer (o : VersionedClientSessionOptions) (sent : bool) (name : string) : list (string * bytes) * bool :=
  if autoResourcePackResponses o
     && (bool_decide (name = "resource_packs_info") || bool_decide (name = "resource_pack_stack")) then
    ([("resource_pack_client_response", [4; 0; 0])], sent)
  else if autoStartGameInit o && bool_decide (name = "start_game") && negb sent then
    ([("client_cache_status", [if clientCacheEnabled o then 1 else 0]);
      ("request_chunk_radius", radius_payload (chunkRadius o));
      ("set_local_player_as_initialized", localPlayerRuntimeEntityId o)], true)
  else ([], sent).

(** Over a whole batch. *)
Fixpoint answers (o : VersionedClientSessionOptions) (sent : bool) (names : list string)
    : list (string * bytes) * bool :=
  match names with
  | [] => ([], sent)
  | n :: names' =>
      let (out, sent) := answer o sent n in
      let (rest, sent) := answers o sent names' in (out ++ rest, sent)
  end.

Definition options_ok (o : VersionedClientSessionOptions) : Prop :=
  0 <= chunkRadius o < 2 ^ 31 /\ is_bytes (localPlayerRuntimeEntityId o).

(** The queue grew by [new]; [sent] is the flag now. *)
Definition answered (s s' : session) (items new : list (string * bytes)) (sent : bool) : Prop :=
  queued s' (items ++ new) /\
  s' = mkSession (options_ s) (mcpeCodec_ s) (outgoing_ s') (seenStartGame_ s) sent.

Lemma same_answered s s' items new : same_but_queue s s' -> queued s' (items ++ new) ->
  answered s s' items new (sentPostStartGameInit_ s).
Proof. intros Hs Hq. split; [done|]. by rewrite Hs. Qed.

Lemma completed_answer s items : answers_known (packetDefinition s) -> queued s items ->
  exists s', (let* _ := writeResourcePackCompleted in ret tt) s = (Ok tt, s') /\
    answered s s' items [("resource_pack_client_response", [4; 0; 0])] (sentPostStartGameInit_ s).
Proof.
  intros Ha Hq.
  destruct (write_answer s "resource_pack_client_response" [4; 0; 0] Ha) with (items := items)
    as (a & s' & E & Hq' & Hs); [by left|by apply (bool_decide_unpack _)|done|].
  exists s'. unfold writeResourcePackCompleted. rewrite (bind_ok _ _ _ _ _ E).
  split; [done|]. by apply same_answered.
Qed.

Lemma init_answer s items : answers_known (packetDefinition s) -> options_ok (options_ s) -> queued s items ->
  exists s', (let* _ := writeClientCacheStatus (clientCacheEnabled (options_ s)) in
      let* _ := writeRequestChunkRadius (chunkRadius (options_ s)) in
      let* _ := writeSetLocalPlayerAsInitializedMinusOne in
      let* s := get_st in put_st (set_sent s)) s = (Ok tt, s') /\
    answered s s' items
      [("client_cache_status", [if clientCacheEnabled (options_ s) then 1 else 0]);
       ("request_chunk_radius", radius_payload (chunkRadius (options_ s)));
       ("set_local_player_as_initialized", localPlayerRuntimeEntityId (options_ s))] true.
Proof.
  intros Ha [Hr Hid] Hq.
  destruct (write_answer s "client_cache_status" [if clientCacheEnabled (options_ s) then 1 else 0] Ha)
    with (items := items) as (a1 & s1 & E1 & Hq1 & Hs1);
    [by right; left|by destruct (clientCacheEnabled _); apply (bool_decide_unpack _)|done|].
  assert (packetDefinition s1 = packetDefinition s) as Hd1 by by rewrite Hs1.
  destruct (writeRequestChunkRadius_ok s1 (chunkRadius (options_ s))) with (items := items ++ [("client_cache_status", [if clientCacheEnabled (options_ s) then 1 else 0])])
    as (a2 & s2 & E2 & Hq2 & Hs2); [by rewrite Hd1|done|done|].
  assert (packetDefinition s2 = packetDefinition s) as Hd2 by by rewrite Hs2.
  destruct (write_answer s2 "set_local_player_as_initialized" (localPlayerRuntimeEntityId (options_ s)))
    with (items := (items ++ [("client_cache_status", [if clientCacheEnabled (options_ s) then 1 else 0])]) ++ [("request_chunk_radius", radius_payload (chunkRadius (options_ s)))])
    as (a3 & s3 & E3 & Hq3 & Hs3); [by rewrite Hd2|by right; right; right; left|done|done|].
  exists (set_sent s3). unfold writeClientCacheStatus. rewrite (bind_ok _ _ _ _ _ E1), (bind_ok _ _ _ _ _ E2).
  unfold writeSetLocalPlayerAsInitializedMinusOne, writeSetLocalPlayerAsInitialized. rewrite bind_assoc, bind_get.
  assert (options_ s2 = options_ s) as -> by by rewrite Hs2, Hs1. rewrite (bind_ok _ _ _ _ _ E3), bind_get.
  split; [done|]. split.
  - rewrite <-!app_assoc in Hq3. destruct Hq3 as [Hi Ho]. split; [exact Hi|exact Ho].
  - unfold same_but_queue in *. by rewrite Hs3, Hs2, Hs1.
Qed.

Lemma autoRespond_ok s p items : answers_known (packetDefinition s) -> options_ok (options_ s) -> queued s items ->
  exists s', autoRespond p s = (Ok tt, s') /\
    answered s s' items (answer (options_ s) (sentPostStartGameInit_ s) (packet_name p)).1
      (answer (options_ s) (sentPostStartGameInit_ s) (packet_name p)).2.
Proof.
  intros Ha Ho Hq. pose proof (completed_answer s items Ha Hq) as Hc. pose proof (init_answer s items Ha Ho Hq) as Hi.
  assert (exists s', (Ok tt, s) = (Ok tt, s') /\ answered s s' items [] (sentPostStartGameInit_ s)) as Hn.
  { exists s. split; [done|]. split; [by rewrite app_nil_r|by destruct s]. }
  unfold autoRespond, answer. rewrite bind_get.
  destruct (autoResourcePackResponses (options_ s)), (bool_decide (packet_name p = "resource_packs_info")),
    (bool_decide (packet_name p = "resource_pack_stack")); cbn [andb orb]; try exact Hc;
    (destruct (autoStartGameInit (options_ s) && bool_decide (packet_name p = "start_game")
       && negb (sentPostStartGameInit_ s)); [exact Hi|exact Hn]).
Qed.

(** ** Handlers that stay in their environment *)
Section Passive.
Context {E : Type}.

(** The caller's tables, as computations on the environment alone. *)
Record env_handlers := mkEnvHandlers {
  env_any : list (VersionedGamePacket -> M E unit);
  env_id : gmap Z (list (VersionedGamePacket -> M E unit));
  env_name : gmap string (list (VersionedGamePacket -> M E unit))
}.

Definition on_env (g : VersionedGamePacket -> M E unit) : PacketHandler (E := E) :=
  fun p => zoom snd (fun e q => (q.1, e)) (g p).

Definition passive (t : env_handlers) : handlers (E := E) :=
  mkHandlers (map on_env (env_any t)) (map on_env <$> env_id t) (map on_env <$> env_name t).

(** The handlers that a packet is given to, in order. *)
Definition calls (t : env_handlers) (p : VersionedGamePacket) : list (VersionedGamePacket -> M E unit) :=
  env_any t ++ default [] (env_id t !! packet_id p) ++ default [] (env_name t !! packet_name p).

Definition call_all (t : env_handlers) (batch : list VersionedGamePacket) : M E unit :=
  for_each batch (fun p => for_each (calls t p) (fun g => g p)).

Lemma for_each_env l p (s : session) e :
  for_each (map on_env l) (fun hd => hd p) (s, e) =
  (fst (for_each l (fun g => g p) e), (s, snd (for_each l (fun g => g p) e))).
Proof.
  revert e. induction l as [|g l IH]; intros e; [done|]. cbn [map for_each].
  unfold bind, on_env at 1, zoom. cbn [fst snd]. destruct (g p e) as [[[]|x] e']; [apply IH|done].
Qed.

Lemma dispatch_calls t p (s : session) e :
  dispatch (passive t) p (s, e) =
  (fst (for_each (calls t p) (fun g => g p) e), (s, snd (for_each (calls t p) (fun g => g p) e))).
Proof.
  transitivity (for_each (map on_env (calls t p)) (fun hd => hd p) (s, e)); [|apply for_each_env].
  unfold dispatch, calls. rewrite !map_app, for_each_app. cbn [anyHandlers_ idHandlers_ nameHandlers_ passive].
  unfold bind. destruct (for_each (map on_env (env_any t)) _ _) as [[[]|x] q]; [|done].
  rewrite for_each_app. unfold bind. rewrite !lookup_fmap.
  destruct (env_id t !! packet_id p), (env_name t !! packet_name p); done.
Qed.

Lemma handlePacket_ok t p s e e' items :
  answers_known (packetDefinition s) -> options_ok (options_ s) -> queued s items ->
  for_each (calls t p) (fun g => g p) e = (Ok tt, e') ->
  exists s', handlePacket (passive t) p (s, e) = (Ok tt, (s', e')) /\
    queued s' (items ++ (answer (options_ s) (sentPostStartGameInit_ s) (packet_name p)).1) /\
    s' = mkSession (options_ s) (mcpeCodec_ s) (outgoing_ s')
      (bool_decide (packet_name p = "start_game") || seenStartGame_ s)
      (answer (options_ s) (sentPostStartGameInit_ s) (packet_name p)).2.
Proof.
  intros Ha Ho Hq Hc. set (s1 := if bool_decide (packet_name p = "start_game") then set_seen s else s).
  assert (s1 = mkSession (options_ s) (mcpeCodec_ s) (outgoing_ s)
    (bool_decide (packet_name p = "start_game") || seenStartGame_ s) (sentPostStartGameInit_ s)) as Es1.
  { unfold s1. destruct (bool_decide _); [done|by destruct s]. }
  assert (queued s1 items) as Hq1 by by rewrite Es1; destruct Hq; split.
  destruct (autoRespond_ok s1 p items) as (s' & E1 & Hq' & Hs'); [by rewrite Es1|by rewrite Es1|done|].
  rewrite Es1 in Hq', Hs'. cbn [options_ sentPostStartGameInit_ mcpeCodec_ seenStartGame_] in Hq', Hs'.
  exists s'. split; [|done]. unfold handlePacket.
  assert ((if bool_decide (packet_name p = "start_game") then
     let* q := get_st in put_st (set_seen q.1, q.2) else ret tt) (s, e) = (Ok tt, (s1, e))) as E0
    by (unfold s1; by destruct (bool_decide _)).
  rewrite (bind_ok _ _ _ _ _ E0). pose proof (dispatch_calls t p s1 e) as Ed. rewrite Hc in Ed. cbn [fst snd] in Ed.
  rewrite (bind_ok _ _ _ _ _ Ed). unfold on_session, zoom. cbn [fst snd]. by rewrite E1.
Qed.

(** C27: what a session answers: for every batch whose handlers return, the
    handlers run packet by packet (those for any packet, for its id, for its
    name, each group in the order of registration), and the session queues
    exactly the answers of [answers]: a completed response for each resource
    pack packet, and for the first start_game only the cache status, the chunk
    radius and the initialised packet, in this order. *)
Theorem session_answers t batch : forall s e e' items,
  answers_known (packetDefinition s) -> options_ok (options_ s) -> queued s items ->
  call_all t batch e = (Ok tt, e') ->
  exists s', handleBatch (passive t) batch (s, e) = (Ok tt, (s', e')) /\
    queued s' (items ++ (answers (options_ s) (sentPostStartGameInit_ s) (map packet_name batch)).1) /\
    sentPostStartGameInit_ s' = (answers (options_ s) (sentPostStartGameInit_ s) (map packet_name batch)).2 /\
    seenStartGame_ s' = existsb (fun p => bool_decide (packet_name p = "start_game")) batch || seenStartGame_ s.
Proof.
  induction batch as [|p batch IH]; intros s e e' items Ha Ho Hq Hc.
  - injection Hc as <-. exists s. by rewrite app_nil_r.
  - unfold call_all in Hc. cbn [for_each] in Hc. apply bind_inv_ok in Hc as ([] & e1 & Hc1 & Hc2).
    destruct (handlePacket_ok t p s e e1 items Ha Ho Hq Hc1) as (s1 & E1 & Hq1 & Hs1).
    assert (options_ s1 = options_ s) as Hop by by rewrite Hs1.
    assert (packetDefinition s1 = packetDefinition s) as Hd by by rewrite Hs1.
    destruct (IH s1 e1 e' _ ltac:(by rewrite Hd) ltac:(by rewrite Hop) Hq1 Hc2) as (s' & E' & Hq' & Hsent & Hseen).
    exists s'. unfold handleBatch. cbn [for_each]. rewrite (bind_ok _ _ _ _ _ E1). split; [exact E'|].
    rewrite Hop in Hq', Hsent. rewrite Hs1 in Hq', Hsent, Hseen. cbn [sentPostStartGameInit_ seenStartGame_] in Hq', Hsent, Hseen.
    cbn [map answers existsb]. destruct (answer (options_ s) (sentPostStartGameInit_ s) (packet_name p)) as [out sent].
    cbn [fst snd] in *. destruct (answers (options_ s) sent _) as [rest sent'] eqn:Er.
    cbn [fst snd] in *.
    rewrite <-app_assoc in Hq'. split; [done|]. split; [done|]. rewrite Hseen.
    by rewrite orb_assoc, (orb_comm (existsb _ _)).
Qed.
End Passive.

(** ** From one session to another *)

(** C28: what a session has queued reaches another session of the version:
    [takeOutgoingMcpe] empties the queue into one payload, and
    [handleMcpePayload] on the other side handles exactly the packets that were
    queued, in order, in every compression mode of a version with the
    compression byte and with deflate on the older ones. *)
Theorem session_delivers z `{!ZlibLaws z} {E} (h : handlers (E := E)) s r e items c :
  queued s items -> items <> [] -> total items < 2 ^ 30 -> c <> Automatic ->
  mcpeCodec_ r = mcpeCodec_ s -> compressorInPacketHeader_ (mcpeCodec_ s) = true \/ c = DeflateRaw ->
  exists data s', takeOutgoingMcpe_with z c s = (Ok data, s') /\ queued s' [] /\ same_but_queue s s' /\
    exists ps, handleMcpePayload h z data (r, e) = (handleBatch h ps ;;; ret ps) (r, e) /\ item <$> ps = items.
Proof.
  intros [Hi Hok] Hne Hs Hc Hr Hmode. set (codec := mcpeCodec_ s) in *. set (ps := outgoing_ s) in *.
  assert (sendable codec ps) as Hsend.
  { split; [done|]. split; [|intros E0; by rewrite E0 in Hi].
    pose proof (framed_size _ ps Hok) as Hf. change (fun p => _) with item in Hf. rewrite Hi in Hf. lia. }
  destruct (versioned_compression z codec ps c 7 Hsend ltac:(lia) Hc) as (packet & Ee & Hpne & Hd).
  exists (0xfe :: packet), (set_outgoing [] s). split; [|split; [by split; [|constructor]|split; [done|]]].
  - unfold takeOutgoingMcpe_with, takeOutgoingPackets. rewrite bind_assoc, bind_get, bind_assoc, bind_put, bind_ret.
    fold ps. rewrite bool_decide_false by apply Hsend. rewrite bind_get. unfold lift, encodeMcpePayload.
    cbn [mcpeCodec_ set_outgoing]. fold codec. by rewrite Ee.
  - exists ps. split; [|done]. unfold handleMcpePayload. rewrite bind_get. cbn [fst]. rewrite Hr. fold codec.
    unfold decodeMcpePayload. rewrite decode_mcpe, (Hd "deflate") by (done || by destruct Hmode as [?| ->]; [left|right]).
    by rewrite bind_lift.
Qed.

(** With a negative chunk radius the sequence stops halfway: the cache status
    stays queued, the flag stays off, and the next start_game queues another
    one. *)
Lemma negative_radius s p items : answers_known (packetDefinition s) -> queued s items ->
  packet_name p = "start_game" -> autoStartGameInit (options_ s) = true -> sentPostStartGameInit_ s = false ->
  chunkRadius (options_ s) < 0 ->
  exists s', autoRespond p s = (Throw (RuntimeError "request_chunk_radius radius must be non-negative"), s') /\
    queued s' (items ++ [("client_cache_status", [if clientCacheEnabled (options_ s) then 1 else 0])]) /\
    same_but_queue s s'.
Proof.
  intros Ha Hq Hn Hi Hsent Hr.
  destruct (write_answer s "client_cache_status" [if clientCacheEnabled (options_ s) then 1 else 0] Ha)
    with (items := items) as (a1 & s1 & E1 & Hq1 & Hs1);
    [by right; left|by destruct (clientCacheEnabled _); apply (bool_decide_unpack _)|done|].
  exists s1. split; [|done]. unfold autoRespond. rewrite bind_get, Hn, Hi, Hsent.
  rewrite (bool_decide_false ("start_game" = "resource_packs_info")), (bool_decide_false ("start_game" = "resource_pack_stack")),
    (bool_decide_true ("start_game" = "start_game")) by done.
  rewrite !andb_false_r. cbn [andb negb]. unfold writeClientCacheStatus. rewrite (bind_ok _ _ _ _ _ E1).
  unfold writeRequestChunkRadius. by rewrite (proj2 (Z.ltb_lt _ _) Hr).
Qed.

(** ** Witnesses *)

Definition sample_definition : ProtocolVersionInfo :=
  ProtocolDefinition.mkVersionInfo "1.21.0" 685
    [ProtocolDefinition.mkPacketInfo 8 "resource_pack_client_response" None;
     ProtocolDefinition.mkPacketInfo 11 "start_game" None;
     ProtocolDefinition.mkPacketInfo 69 "request_chunk_radius" None;
     ProtocolDefinition.mkPacketInfo 113 "set_local_player_as_initialized" None;
     ProtocolDefinition.mkPacketInfo 129 "client_cache_status" None].

Lemma sample_answers_known : answers_known sample_definition.
Proof.
  split; [split; by apply (bool_decide_unpack _)|]. intros n Hn.
  repeat (apply elem_of_cons in Hn as [-> |Hn]); [..|by apply not_elem_of_nil in Hn].
  - eexists. split; [by left|done].
  - eexists. split; [by do 4 right; left|done].
  - eexists. split; [by do 2 right; left|done].
  - eexists. split; [by do 3 right; left|done].
Qed.

Definition sample_session : session :=
  mkSession (mkOptions "1.21.0" DeflateRaw true true false 20 defaultLocalPlayerRuntimeEntityId)
    (mkMcpeCodec sample_definition true) [] false false.

Definition sample_packet : VersionedGamePacket := makePacketById sample_definition 11 [].

(** Two start_game packets and a log of the packets that the handlers see. *)
Definition log_handlers : env_handlers (E := list Z) :=
  mkEnvHandlers [fun p => let* l := get_st in put_st (l ++ [packet_id p])] ∅ ∅.

Lemma session_answers_witness :
  exists s', handleBatch (passive log_handlers) [sample_packet; sample_packet] (sample_session, []) = (Ok tt, (s', [11; 11])) /\
    queued s' ([] ++ (answers (options_ sample_session) false ["start_game"; "start_game"]).1) /\
    sentPostStartGameInit_ s' = true /\ seenStartGame_ s' = true.
Proof.
  apply (session_answers log_handlers [sample_packet; sample_packet] sample_session [] [11; 11] []);
    [apply sample_answers_known| |by split; [|constructor]|reflexivity].
  split; [by split|by apply (bool_decide_unpack _)].
Defined.

Lemma session_delivers_witness :
  exists data s', takeOutgoingMcpe_with stored_zlib Snappy (set_outgoing [sample_packet] sample_session) = (Ok data, s') /\
    queued s' [] /\ same_but_queue (set_outgoing [sample_packet] sample_session) s' /\
    exists ps, handleMcpePayload (passive log_handlers) stored_zlib data (sample_session, []) =
      (handleBatch (passive log_handlers) ps ;;; ret ps) (sample_session, []) /\ item <$> ps = [("start_game", [])].
Proof.
  apply (session_delivers stored_zlib (passive log_handlers) (set_outgoing [sample_packet] sample_session) sample_session []
    [("start_game", [])] Snappy); [|discriminate|reflexivity|discriminate|reflexivity|by left].
  split; [reflexivity|]. constructor; [|constructor]. split; [reflexivity|by apply (bool_decide_unpack _)..].
Defined.
