(* ===== verification/ClientLink.v ===== *)
(** * The link of the network client (src/src/client/BedrockNetworkClient.cpp)

    How the client puts batches of packets on the wire and takes them off it:
    [sendPacketsLocked], [choosePlainCompression] and the decoding half of
    [handleRakNetPayload], with the fields that network_settings and the
    encryption handshake change. *)

From S2P Require Import Prelude MachineInt Leb128 Framing GamePacket Text Snappy Zlib Versioned VersionedCodec Encryption.

Import VersionedPacketCodec VersionedBatchCodec VersionedMcpeCodec BedrockEncryption.

Module BedrockNetworkLink.

(** The fields of [DerivedKeyResult] that the client uses. *)
Record DerivedKeyResult := mkKeys { secretKeyBytes : bytes; iv16 : bytes }.

Section Link.
Context (c : crypto) (z : zlib).

(** What the client is made for. *)
Record config := mkConfig {
  version : string;
  optionsProtocolVersion : Z;
  compressionLevel : Z;
  mcpeCodec : VersionedMcpeCodec
}.

Record link := mkLink {
  compressionReady_ : bool;
  compressionAlgorithm_ : string;
  compressionThreshold_ : Z;
  encryptionEnabled_ : bool;
  encryptionKeys_ : DerivedKeyResult;
  sendCounter_ : Z;
  receiveCounter_ : Z;
  encryptStream_ : option (BedrockCipherStream c);
  decryptStream_ : option (BedrockCipherStream c)
}.

(** [BedrockNetworkClient::versionAtLeast], the same text as the codec's. *)
Definition versionAtLeast : string -> Z -> Z -> Z -> result bool := VersionedMcpeCodec.versionAtLeast.

Definition make (g : config) : result link :=
  let! modern := versionAtLeast (version g) 1 19 30 in
  Ok (mkLink false (if modern then "none" else "deflate") 512 false (mkKeys [] []) 0 0 None None).

Definition set_compression ready algorithm threshold (l : link) : link :=
  mkLink ready algorithm threshold (encryptionEnabled_ l) (encryptionKeys_ l) (sendCounter_ l) (receiveCounter_ l)
    (encryptStream_ l) (decryptStream_ l).
Definition set_send stream counter (l : link) : link :=
  mkLink (compressionReady_ l) (compressionAlgorithm_ l) (compressionThreshold_ l) (encryptionEnabled_ l)
    (encryptionKeys_ l) counter (receiveCounter_ l) (Some stream) (decryptStream_ l).
Definition set_receive stream counter (l : link) : link :=
  mkLink (compressionReady_ l) (compressionAlgorithm_ l) (compressionThreshold_ l) (encryptionEnabled_ l)
    (encryptionKeys_ l) (sendCounter_ l) counter (encryptStream_ l) (Some stream).

Context (g : config).

(** ** Sending *)

Definition choosePlainCompression (packets : list VersionedGamePacket) (l : link)
    : result VersionedMcpeCompression :=
  if bool_decide (compressionAlgorithm_ l = "none") then Ok Uncompressed
  else
    let! early := (if negb (compressionReady_ l) then versionAtLeast (version g) 1 19 30 else Ok false) in
    if early : bool then Ok Uncompressed
    else
      let! framed := encodeFramedBatch packets in
      Ok (if size framed >? compressionThreshold_ l then
            (if bool_decide (compressionAlgorithm_ l = "snappy") then Snappy else DeflateRaw)
          else Uncompressed).

(** The payload that [sendPacketsLocked] hands to [sendReliablePayload]. *)
Definition sendPacketsLocked (packets : list VersionedGamePacket) : M link bytes :=
  let* l := get_st in
  if encryptionEnabled_ l then
    match encryptStream_ l with
    | None => raise (RuntimeError "encrypt stream is not initialized")
    | Some stream =>
        let* compressionPacket :=
          lift (encodeEncryptedCompressionPacket z (mcpeCodec g) packets (compressionLevel g)) in
        zoom (fun l => (stream, sendCounter_ l)) (fun p l => set_send p.1 p.2 l)
          (send_encrypted c (secretKeyBytes (encryptionKeys_ l)) compressionPacket)
    end
  else if compressorInPacketHeader_ (mcpeCodec g) && negb (compressionReady_ l) then
    let* framed := lift (encodeFramedBatch packets) in
    ret (0xfe :: framed)
  else
    let* compression := lift (choosePlainCompression packets l) in
    lift (encodeMcpePayload z (mcpeCodec g) packets compression (compressionLevel g)).

(** ** Receiving *)

(** What becomes of a payload: dropped, an error event, or packets. *)
Inductive inbound :=
| Dropped
| BadChecksum (message : string)
| UnsupportedCompressor (message : string)
| Inbound (decoded : VersionedMcpePayload).

Definition supported_compressor (compressionPacket : bytes) : bool :=
  match compressionPacket with
  | [] => false
  | b :: _ => (b =? 0x00) || (b =? 0xff)
  end.

Definition compressor_name (compressionPacket : bytes) : string :=
  match compressionPacket with [] => "undefined" | b :: _ => to_string b end.

Definition decodeRakNetPayload (payload : bytes) : M link inbound :=
  if bool_decide (payload = []) then ret Dropped
  else
    let* b0 := lift (vec_at payload 0) in
    if negb (b0 =? 0xfe) then ret Dropped
    else
      let* l := get_st in
      if encryptionEnabled_ l then
        match decryptStream_ l with
        | None => raise (RuntimeError "decrypt stream is not initialized")
        | Some stream =>
            let* verification := zoom (fun l => (stream, receiveCounter_ l)) (fun p l => set_receive p.1 p.2 l)
              (receive_encrypted c (secretKeyBytes (encryptionKeys_ l)) payload) in
            match verification with
            | Ignored => ret Dropped
            | Mismatch message => ret (BadChecksum message)
            | Received compressionPacket =>
                if compressorInPacketHeader_ (mcpeCodec g) && negb (supported_compressor compressionPacket) then
                  ret (UnsupportedCompressor ("Unsupported compressor: " +:+ compressor_name compressionPacket))
                else
                  let* decoded := lift (decodeEncryptedCompressionPacket z (mcpeCodec g) compressionPacket) in
                  ret (Inbound decoded)
            end
        end
      else
        let* decoded := lift (
          if compressorInPacketHeader_ (mcpeCodec g) && negb (compressionReady_ l) then
            decodeUncompressedMcpePayload (mcpeCodec g) payload
          else if negb (compressorInPacketHeader_ (mcpeCodec g)) && compressionReady_ l
                  && bool_decide (compressionAlgorithm_ l = "snappy") then
            decodeMcpePayload_with z (mcpeCodec g) payload "snappy"
          else decodeMcpePayload z (mcpeCodec g) payload) in
        ret (Inbound decoded).

(** ** The two changes of a link *)

(** network_settings: the threshold and the algorithm that the packet names. *)
Definition apply_settings (algorithm : string) (threshold : Z) (l : link) : link :=
  set_compression true (if bool_decide (algorithm = "") then "deflate" else algorithm) threshold l.

(** The streams and counters of the encryption handshake. *)
Definition enable_encryption (keys : DerivedKeyResult) (l : link) : result link :=
  let! encryptStream := createCipherStream c (optionsProtocolVersion g) (secretKeyBytes keys) (iv16 keys) Encrypt in
  let! decryptStream := createCipherStream c (optionsProtocolVersion g) (secretKeyBytes keys) (iv16 keys) Decrypt in
  Ok (mkLink (compressionReady_ l) (compressionAlgorithm_ l) (compressionThreshold_ l) true keys 0 0
        (Some encryptStream) (Some decryptStream)).

End Link.
End BedrockNetworkLink.

Import BedrockNetworkLink.

(** ** Two ends of a connection *)
Section Ends.
Context (c : crypto) `{!CryptoLaws c} (z : zlib) `{!ZlibLaws z} (g : config).
Let codec := mcpeCodec g.

(** [l] sends what [r] receives. *)
Record facing (l r : link c) : Prop := mkFacing {
  fc_ready : compressionReady_ c r = compressionReady_ c l;
  fc_algorithm : compressionAlgorithm_ c r = compressionAlgorithm_ c l;
  fc_snappy : compressionAlgorithm_ c l = "snappy" -> compressionReady_ c l = true;
  fc_enabled : encryptionEnabled_ c r = encryptionEnabled_ c l;
  fc_streams : encryptionEnabled_ c l = true ->
    size (secretKeyBytes (encryptionKeys_ c l)) = 32 /\
    secretKeyBytes (encryptionKeys_ c r) = secretKeyBytes (encryptionKeys_ c l) /\
    is_u 64 (sendCounter_ c l) /\ receiveCounter_ c r = sendCounter_ c l /\
    exists a e d, encryptStream_ c l = Some (enc_stream c a e) /\ decryptStream_ c r = Some (dec_stream c a d) /\ paired c e d
}.

(** A batch that both ends can carry.  On a version without the compression
    byte a plain batch must not happen to be a compressed stream, because the
    receiver tries to decompress it first. *)
Record batch_ok (ps : list VersionedGamePacket) : Prop := mkBatchOk {
  bo_sendable : sendable codec ps;
  bo_size : size (framed_of ps) < 2 ^ 29;
  bo_plain : compressorInPacketHeader_ codec = true \/
    ((exists e, undo z DeflateRaw (framed_of ps) = Throw e /\ is_stuck e = false) /\
     (exists e, undo z Snappy (framed_of ps) = Throw e /\ is_stuck e = false))
}.

Record config_ok : Prop := mkConfigOk {
  co_level : -1 <= compressionLevel g <= 9;
  co_version : exists b, versionAtLeast (version g) 1 19 30 = Ok b
}.

Context (Hg : config_ok).

Lemma choose_plain ps l : sendable codec ps ->
  (compressionAlgorithm_ c l = "snappy" -> compressionReady_ c l = true) ->
  exists m, choosePlainCompression c g ps l = Ok m /\
    (m = Uncompressed \/ (m = Snappy /\ compressionAlgorithm_ c l = "snappy") \/
     (m = DeflateRaw /\ compressionAlgorithm_ c l <> "snappy")).
Proof.
  intros (Hok & Hs & _) Hsn. unfold choosePlainCompression. case_bool_decide; [by exists Uncompressed; auto|].
  destruct (co_version Hg) as [b Hv].
  assert (exists b', (if negb (compressionReady_ c l) then versionAtLeast (version g) 1 19 30 else Ok false) = Ok b')
    as [b' ->] by (destruct (negb _); eauto).
  cbn [rbind]. destruct b'; [by exists Uncompressed; auto|]. rewrite (encode_batch _ _ Hok) by lia. cbn [rbind].
  eexists. split; [done|]. destruct (_ >? _); [|by left]. case_bool_decide; auto.
Qed.

(** The algorithm that the receiver of an unencrypted payload tries. *)
Definition tried (r : link c) : string :=
  if negb (compressorInPacketHeader_ codec) && compressionReady_ c r
     && bool_decide (compressionAlgorithm_ c r = "snappy") then "snappy" else "deflate".

Lemma receive_plain payload r : encryptionEnabled_ c r = false ->
  compressorInPacketHeader_ codec && negb (compressionReady_ c r) = false ->
  decodeRakNetPayload c z g (0xfe :: payload) r =
  (let! decoded := decodeMcpePayload_with z codec (0xfe :: payload) (tried r) in Ok (Inbound decoded), r).
Proof.
  intros He Hm. unfold decodeRakNetPayload. rewrite bool_decide_false by done.
  change (vec_at (254 :: payload) 0) with (Ok 254). rewrite bind_lift. change (negb (254 =? 254)) with false. cbv iota.
  rewrite bind_get, He. fold codec. rewrite Hm. unfold tried, decodeMcpePayload.
  destruct (negb _ && _ && _); unfold bind, lift, ret; by destruct (decodeMcpePayload_with _ _ _ _).
Qed.

Lemma plain_step ps l r : facing l r -> encryptionEnabled_ c l = false -> batch_ok ps ->
  exists payload out, sendPacketsLocked c z g ps l = (Ok payload, l) /\
    decodeRakNetPayload c z g payload r = (Ok (Inbound out), r) /\ batch out = ps.
Proof.
  intros [Hr Ha Hsn He _] Hl [Hs Hsz Hp]. pose proof Hs as (Hok & Hfs & Hne).
  unfold sendPacketsLocked. rewrite bind_get, Hl. fold codec.
  destruct (compressorInPacketHeader_ codec && negb (compressionReady_ c l)) eqn:Hm.
  - rewrite (encode_batch _ _ Hok), bind_lift by lia. eexists _, _. split; [done|].
    unfold decodeRakNetPayload. rewrite bool_decide_false by done.
    change (vec_at (254 :: framed_of ps) 0) with (Ok 254). rewrite bind_lift. change (negb (254 =? 254)) with false. cbv iota.
    rewrite bind_get, He, Hl, Hr. fold codec. rewrite Hm.
    unfold decodeUncompressedMcpePayload. rewrite strip_mcpe. cbn [rbind].
    unfold decodeUncompressedCompressionPacket. rewrite decode_batch_ok by (done || lia). by rewrite bind_lift.
  - destruct (choose_plain ps l Hs Hsn) as (m & -> & Hm'). rewrite bind_lift.
    assert (m <> Automatic) as Hna by (by destruct Hm' as [->|[[-> _]|[-> _]]]).
    destruct (versioned_compression z codec ps m _ Hs (co_level Hg) Hna) as (packet & Ee & Hpne & Hd).
    assert (decodeRakNetPayload c z g (0xfe :: packet) r =
      (let! decoded := decodeCompressionPacket_with z codec packet (tried r) in Ok (Inbound decoded), r)) as Er.
    { rewrite receive_plain by (rewrite ?He, ?Hr; done). by rewrite decode_mcpe. }
    exists (0xfe :: packet). unfold encodeMcpePayload. rewrite Ee. cbn [rbind].
    destruct (compressorInPacketHeader_ codec) eqn:Hh.
    { eexists. split; [done|]. rewrite Er, (Hd (tried r)) by by left. done. }
    assert (tried r = if bool_decide (compressionAlgorithm_ c l = "snappy") then "snappy" else "deflate") as Et.
    { unfold tried. rewrite Hh, Hr, Ha. case_bool_decide as Hsl; [by rewrite Hsn|]. by rewrite andb_false_r. }
    destruct Hm' as [->|Hm'].
    + destruct Hp as [|[(e1 & He1 & Hs1) (e2 & He2 & Hs2)]]; [done|].
      unfold encodeCompressionPacket in Ee. rewrite (encode_batch _ _ Hok) in Ee by lia. cbn [rbind encode_framed] in Ee.
      unfold encode_framed in Ee. cbn [rbind] in Ee. rewrite Hh in Ee. injection Ee as Ep. subst packet.
      eexists. split; [done|]. rewrite Er, Et.
      case_bool_decide; [rewrite (decode_legacy_reject z codec Snappy _ e2)|rewrite (decode_legacy_reject z codec DeflateRaw _ e1)];
        try done; by rewrite decode_batch_ok by (done || lia).
    + eexists. split; [done|]. rewrite Er, Et.
      destruct Hm' as [[-> Hx]|[-> Hx]]; [rewrite bool_decide_true by done|rewrite bool_decide_false by done];
        (rewrite Hd by by right); done.
Qed.

Lemma encrypted_step ps l r : facing l r -> encryptionEnabled_ c l = true -> batch_ok ps ->
  exists payload out l' r', sendPacketsLocked c z g ps l = (Ok payload, l') /\
    decodeRakNetPayload c z g payload r = (Ok (Inbound out), r') /\ batch out = ps /\ facing l' r'.
Proof.
  intros [Hr Ha Hsn He Hst] Hl [Hs Hsz _]. destruct (Hst Hl) as (Hk & Hkr & Hn & Hnr & a & e & d & Hes & Hds & Hp).
  destruct (encrypted_packet z codec ps _ Hs (co_level Hg)) as (packet & Ee & Hpsz & Hhead & Ed).
  destruct (channel_step c (secretKeyBytes (encryptionKeys_ c l)) packet a e d (sendCounter_ c l) Hk Hn Hp ltac:(lia))
    as (y & e' & d' & Esend & Erecv & Hp').
  exists (0xfe :: y). do 3 eexists. split; [|split; [|split]].
  - unfold sendPacketsLocked. rewrite bind_get, Hl, Hes. fold codec. rewrite Ee, bind_lift.
    unfold zoom. by rewrite Esend.
  - unfold decodeRakNetPayload. rewrite bool_decide_false by done.
    change (vec_at (254 :: y) 0) with (Ok 254). rewrite bind_lift. change (negb (254 =? 254)) with false. cbv iota.
    rewrite bind_get, He, Hl, Hds, Hkr. erewrite bind_ok; [|unfold zoom; rewrite Hnr; by rewrite Erecv]. cbv iota.
    fold codec. assert (compressorInPacketHeader_ codec && negb (supported_compressor packet) = false) as ->.
    { destruct (compressorInPacketHeader_ codec); [|done]. by destruct (Hhead eq_refl) as [k ->]. }
    rewrite Ed, bind_lift. done.
  - done.
  - split; cbn; [done|done|done|by rewrite He|]. intros _. split; [done|]. split; [done|].
    split; [by apply (to_u_range 64)|]. split; [done|]. by exists a, e', d'.
Qed.

(** ** A conversation

    What happens to a link over time: batches, and the two changes that both
    ends make between the same batches. *)
Inductive action :=
| Batch (packets : list VersionedGamePacket)
| Settings (algorithm : string) (threshold : Z)
| Handshake (keys : DerivedKeyResult).

Definition modify_link (f : link c -> result (link c)) : M (link c) unit :=
  let* l := get_st in let* l' := lift (f l) in put_st l'.

Fixpoint send_actions (actions : list action) : M (link c) (list bytes) :=
  match actions with
  | [] => ret []
  | Batch ps :: actions' =>
      let* payload := sendPacketsLocked c z g ps in
      let* payloads := send_actions actions' in
      ret (payload :: payloads)
  | Settings algorithm threshold :: actions' =>
      modify_link (fun l => Ok (apply_settings c algorithm threshold l)) ;;; send_actions actions'
  | Handshake keys :: actions' =>
      modify_link (enable_encryption c g keys) ;;; send_actions actions'
  end.

Fixpoint receive_actions (actions : list action) (payloads : list bytes) : M (link c) (list inbound) :=
  match actions, payloads with
  | Batch _ :: actions', payload :: payloads' =>
      let* received := decodeRakNetPayload c z g payload in
      let* rest := receive_actions actions' payloads' in
      ret (received :: rest)
  | Settings algorithm threshold :: actions', _ =>
      modify_link (fun l => Ok (apply_settings c algorithm threshold l)) ;;; receive_actions actions' payloads
  | Handshake keys :: actions', _ =>
      modify_link (enable_encryption c g keys) ;;; receive_actions actions' payloads
  | _, _ => ret []
  end.

Definition action_ok (a : action) : Prop :=
  match a with
  | Batch ps => batch_ok ps
  | Settings _ _ => True
  | Handshake keys => size (secretKeyBytes keys) = 32 /\ size (iv16 keys) = 16
  end.

Definition sent_batches (actions : list action) : list (list VersionedGamePacket) :=
  actions ≫= (fun a => match a with Batch ps => [ps] | _ => [] end).

Definition packets_of (i : inbound) : list VersionedGamePacket :=
  match i with Inbound decoded => batch decoded | _ => [] end.

Lemma settings_step algorithm threshold l r : facing l r ->
  facing (apply_settings c algorithm threshold l) (apply_settings c algorithm threshold r).
Proof. intros [Hr Ha Hsn He Hst]. by split. Qed.

Lemma handshake_step keys l r : facing l r -> size (secretKeyBytes keys) = 32 -> size (iv16 keys) = 16 ->
  exists l' r', enable_encryption c g keys l = Ok l' /\ enable_encryption c g keys r = Ok r' /\
    facing l' r' /\ facing r' l'.
Proof.
  intros [Hr Ha Hsn He Hst] Hk Hi.
  destruct (create_pair c (optionsProtocolVersion g) _ _ Hk Hi) as (a & e & d & E1 & E2 & Hp).
  do 2 eexists. unfold enable_encryption. rewrite E1. cbn [rbind]. rewrite E2. cbn [rbind]. split; [done|]. split; [done|].
  split; split; cbn; try done.
  - intros _. split; [done|]. split; [done|]. split; [by split|]. split; [done|]. by exists a, e, d.
  - rewrite Hr, Ha. done.
  - intros _. split; [done|]. split; [done|]. split; [by split|]. split; [done|]. by exists a, e, d.
Qed.

Lemma batch_step ps l r : facing l r -> batch_ok ps ->
  exists payload i l' r', sendPacketsLocked c z g ps l = (Ok payload, l') /\
    decodeRakNetPayload c z g payload r = (Ok i, r') /\ packets_of i = ps /\ facing l' r'.
Proof.
  intros Hf Hb. destruct (encryptionEnabled_ c l) eqn:He.
  - destruct (encrypted_step ps l r Hf He Hb) as (payload & out & l' & r' & E1 & E2 & E3 & Hf').
    by exists payload, (Inbound out), l', r'.
  - destruct (plain_step ps l r Hf He Hb) as (payload & out & E1 & E2 & E3). by exists payload, (Inbound out), l, r.
Qed.

(** C6: everything arrives: over any conversation, whatever batches are sent and
    wherever the network settings (any algorithm name and threshold) and
    encryption handshakes fall between them, the receiver decodes from each
    payload exactly the packets of its batch, in order, and the two ends stay
    in step. *)
Theorem link_conversation actions : forall l r, facing l r -> Forall action_ok actions ->
  exists payloads l' received r', send_actions actions l = (Ok payloads, l') /\
    receive_actions actions payloads r = (Ok received, r') /\
    map packets_of received = sent_batches actions /\ facing l' r'.
Proof.
  induction actions as [|a actions IH]; intros l r Hf Hok; [by exists [], l, [], r|].
  apply Forall_cons_1 in Hok as [Ha Hok]. destruct a as [ps|algorithm threshold|keys]; cbn [send_actions receive_actions].
  - destruct (batch_step ps l r Hf Ha) as (payload & i & l1 & r1 & E1 & E2 & E3 & Hf1).
    destruct (IH l1 r1 Hf1 Hok) as (payloads & l' & received & r' & E4 & E5 & E6 & Hf').
    exists (payload :: payloads), l', (i :: received), r'.
    rewrite (bind_ok _ _ _ _ _ E1), (bind_ok _ _ _ _ _ E2), (bind_ok _ _ _ _ _ E4), (bind_ok _ _ _ _ _ E5).
    split; [done|]. split; [done|]. split; [|done]. cbn [map]. by rewrite E3, E6.
  - unfold modify_link. destruct (IH _ _ (settings_step algorithm threshold l r Hf) Hok)
      as (payloads & l' & received & r' & E4 & E5 & E6 & Hf').
    exists payloads, l', received, r'. rewrite !bind_assoc, !bind_get. cbv beta. by rewrite !bind_assoc, !bind_lift, !bind_put.
  - destruct Ha as [Hk Hi]. destruct (handshake_step keys l r Hf Hk Hi) as (l1 & r1 & E1 & E2 & Hf1 & _).
    destruct (IH l1 r1 Hf1 Hok) as (payloads & l' & received & r' & E4 & E5 & E6 & Hf').
    exists payloads, l', received, r'. unfold modify_link. rewrite !bind_assoc, !bind_get. cbv beta.
    by rewrite E1, E2, !bind_assoc, !bind_lift, !bind_put.
Qed.
End Ends.

(** ** Arbitrary payloads *)
Section Safety.
Context (c : crypto) `{!CryptoLaws c} (z : zlib) `{!ZlibLaws z} (g : config).

(** Documented: the cipher writes bytes. *)
Context (update_bytes : forall m x input n out x', is_bytes input ->
  EVP_update c m x input n = Some (out, x') -> is_bytes out).

Lemma process_bytes input s : is_bytes input -> runs_safe (process c input) s (fun out _ => is_bytes out).
Proof.
  intros Hi. unfold process. case_bool_decide; [by constructor|]. unfold runs_safe. rewrite bind_get.
  destruct (EVP_update c (mode_ c s) (ctx_ c s) input (to_i32 (size input))) as [[out x]|] eqn:E; cbn [check]; [|done].
  rewrite bind_lift. by eapply update_bytes.
Qed.

Lemma receive_bytes key payload s : is_bytes payload -> runs_safe (receive_encrypted c key payload) s (fun r _ =>
  match r with Received packet => is_bytes packet | _ => True end).
Proof.
  intros Hb. unfold receive_encrypted. case_bool_decide; [done|]. destruct payload as [|b payload]; [done|].
  apply Forall_cons_1 in Hb as [_ Hb].
  unfold runs_safe. change (vec_at (b :: payload) 0) with (Ok b). rewrite bind_lift. destruct (negb _); [done|].
  rewrite vec_range_cons, bind_lift. unfold decryptAndVerify. case_bool_decide; [done|]. rewrite bind_assoc.
  unfold bind at 1, zoom at 1. pose proof (process_bytes payload (fst s) Hb) as Hp. unfold runs_safe in Hp.
  destruct (process c payload (fst s)) as [[out|e] s1]; [|done]. rewrite bind_assoc. unfold bind at 1, zoom. cbn [snd].
  pose proof (verify_safe c out key (snd s)) as Hv. unfold runs_safe in Hv.
  destruct (verifyAesPlaintext c out key (snd s)) as [[v|e] n]; [|done]. destruct Hv as [_ Hv]. rewrite bind_ret.
  destruct (negb (matches v)); [done|]. cbn. rewrite <-Hv in Hp. by apply Forall_app in Hp as [? _].
Qed.

(** C11: whatever bytes come from the network, in whatever state the link is,
    taking a payload off the wire ends without undefined behaviour: it is
    dropped, reported, decoded, or an exception of the program leaves. *)
Theorem link_receive_safe payload l : is_bytes payload ->
  runs_safe (decodeRakNetPayload c z g payload) l (fun _ l' => encryptionEnabled_ c l' = encryptionEnabled_ c l).
Proof.
  intros Hb. unfold decodeRakNetPayload. case_bool_decide; [done|]. destruct payload as [|b payload]; [done|].
  unfold runs_safe. change (vec_at (b :: payload) 0) with (Ok b). rewrite bind_lift. destruct (negb _); [done|].
  rewrite bind_get. destruct (encryptionEnabled_ c l) eqn:He.
  - destruct (decryptStream_ c l) as [stream|]; [|done]. unfold bind at 1, zoom.
    pose proof (receive_bytes (secretKeyBytes (encryptionKeys_ c l)) (b :: payload) (stream, receiveCounter_ c l) Hb) as Hr.
    unfold runs_safe in Hr. destruct (receive_encrypted c _ _ _) as [[r|e] s]; [|done].
    destruct r as [|msg|packet]; [done|done|]. destruct (_ && _); [done|].
    pose proof (versioned_encrypted_safe z (mcpeCodec g) packet Hr) as Hd.
    destruct (decodeEncryptedCompressionPacket z (mcpeCodec g) packet); [|done]. done.
  - assert (forall r, safe r -> match (let* decoded := lift r in ret (Inbound decoded)) l with
      | (Ok _, s') => encryptionEnabled_ c s' = false | (Throw e, _) => is_stuck e = false end) as Hlift.
    { intros [r|e]; [done|]. by intros ?. }
    apply Hlift. destruct (_ && _); [by apply versioned_uncompressed_safe|].
    unfold decodeMcpePayload. destruct (_ && _); by apply versioned_mcpe_safe.
Qed.
End Safety.

(** ** Witnesses *)

Definition sample_config : config := mkConfig "1.21.0" 685 7 (mkMcpeCodec (sample_table "1.21.0") true).

Definition sample_batch : list VersionedGamePacket := [decoded (sample_table "1.21.0") 1 [7; 8]].

(** Login, settings, a compressed batch, the handshake, two encrypted batches. *)
Definition sample_actions : list action :=
  [Batch sample_batch; Settings "snappy" 0; Batch sample_batch;
   Handshake (mkKeys (replicate 32 7) (replicate 16 1)); Batch sample_batch; Batch sample_batch].

Definition sample_link : link toy_crypto := mkLink toy_crypto false "none" 512 false (mkKeys [] []) 0 0 None None.

Lemma sample_batch_ok : batch_ok stored_zlib sample_config sample_batch.
Proof.
  split; [|reflexivity|by left]. split; [|split; [reflexivity|discriminate]].
  constructor; [|constructor]. split; [reflexivity|by apply (bool_decide_unpack _)..].
Qed.

Lemma link_conversation_witness :
  exists payloads l' received r', send_actions toy_crypto stored_zlib sample_config sample_actions sample_link = (Ok payloads, l') /\
    receive_actions toy_crypto stored_zlib sample_config sample_actions payloads sample_link = (Ok received, r') /\
    map packets_of received = [sample_batch; sample_batch; sample_batch; sample_batch] /\ facing toy_crypto l' r'.
Proof.
  apply (link_conversation toy_crypto stored_zlib sample_config); [split; [by split|exists true; by vm_compute]|by split|].
  pose proof sample_batch_ok. repeat constructor; done.
Defined.

Lemma link_receive_safe_witness :
  runs_safe (decodeRakNetPayload toy_crypto stored_zlib sample_config [0xfe; 200; 200]) sample_link
    (fun _ l' => encryptionEnabled_ toy_crypto l' = false).
Proof.
  apply (link_receive_safe toy_crypto stored_zlib sample_config); [|by apply (bool_decide_unpack _)].
  intros m x input n out x' Hi E. by injection E as <- _.
Defined.
