(* ===== verification/ProtoDefData.v ===== *)
(** * Data of the ProtoDef layer (src/include/bedrock/protodef: ProtoDefValue.hpp, ProtoDefField.hpp)

    The values that packets are built from, the fields that packets are decoded
    to, and the interface of the packet encoder and decoder, which interpret the
    generated schemas and keep variables between packets. *)

From S2P Require Import Prelude MachineInt.

(** A double is its bit pattern; an unordered_map is a list of its entries. *)
Inductive ProtoDefValue : Type :=
| Null
| Bool (v : bool)
| Int (v : Z)
| UInt (v : Z)
| Double (bits : Z)
| String_ (v : string)
| Bytes (v : bytes)
| Object (v : list (string * ProtoDefValue))
| Array (v : list ProtoDefValue).

(** [ProtoDefValue::get]. *)
Definition get_value (key : string) (v : ProtoDefValue) : option ProtoDefValue :=
  match v with
  | Object entries => snd <$> head (filter (fun e => e.1 = key) entries)
  | _ => None
  end.

Record ProtoDefField := mkField {
  path : string;
  type_ : string;
  value : string;
  offset : Z;
  size_ : Z;
  structuredValue : option ProtoDefValue
}.

(** [ProtoDefPacketEncoder] and [ProtoDefPacketDecoder], on the variables [V]
    that they share. *)
Class PacketCodecs (V : Type) := {
  encodePacket : string -> ProtoDefValue -> M V bytes;
  decodePacket : string -> bytes -> M V (list ProtoDefField)
}.
