(* ===== verification/FloatText.v ===== *)
(** * Floating-point numbers as text

    The conversions that the ProtoDef layer uses on doubles (bit patterns, as in
    FloatBits): from integers and decimal text to the nearest double, ties to
    even, towards zero to integers, [std::to_string] (six decimals), and an
    output stream with [std::setprecision(17)]. *)

From S2P Require Import Prelude MachineInt FloatBits GamePacket Text.

(** [n / d] rounded to nearest, ties to even. *)
Definition round_ratio (n d : Z) : Z :=
  let q := n / d in
  let r := n mod d in
  if 2 * r <? d then q
  else if 2 * r >? d then q + 1
  else if Z.even q then q else q + 1.

(** [n * b ^ e] as a ratio. *)
Definition scale_num (b e n : Z) : Z := n * b ^ Z.max 0 e.
Definition scale_den (b e d : Z) : Z := d * b ^ Z.max 0 (- e).

Definition f64_sign (b : Z) : Z := b / 2 ^ 63.
Definition f64_special (b : Z) : bool := (b / 2 ^ 52) mod 2 ^ 11 =? 2047.
Definition f64_infinity : Z := 2047 * 2 ^ 52.

(** A finite double is [mantissa * 2 ^ exponent], up to its sign. *)
Definition f64_mantissa (b : Z) : Z :=
  let e := (b / 2 ^ 52) mod 2 ^ 11 in
  let m := b mod 2 ^ 52 in
  if e =? 0 then m else 2 ^ 52 + m.
Definition f64_exponent (b : Z) : Z := Z.max ((b / 2 ^ 52) mod 2 ^ 11) 1 - 1075.
Definition f64_num (b : Z) : Z := scale_num 2 (f64_exponent b) (f64_mantissa b).
Definition f64_den (b : Z) : Z := scale_den 2 (f64_exponent b) 1.

(** The double nearest to [num / den], for [0 <= num] and [0 < den]. *)
Definition f64_of_ratio (negative : bool) (num den : Z) : Z :=
  let s := if negative then 2 ^ 63 else 0 in
  if num =? 0 then s
  else
    let k := Z.log2 num - Z.log2 den in
    let k := if scale_num 2 (- k) num <? scale_den 2 (- k) den then k - 1 else k in
    let t := Z.max (-1074) (k - 52) in
    let bits := (t + 1074) * 2 ^ 52 + round_ratio (scale_num 2 (- t) num) (scale_den 2 (- t) den) in
    s + Z.min f64_infinity bits.

(** [static_cast<double>] of an integer. *)
Definition f64_of_int (v : Z) : Z := f64_of_ratio (v <? 0) (Z.abs v) 1.

(** [static_cast<Integer>] of a double, when its integral part is [lo <= v < hi]. *)
Definition int_of_f64 (lo hi : Z) (b : Z) : result Z :=
  let v := (if f64_sign b =? 1 then -1 else 1) * (f64_num b / f64_den b) in
  if negb (f64_special b) && (lo <=? v) && (v <? hi) then Ok v
  else Throw (UndefinedBehaviour "conversion of a double out of the range of the integer").

(** The quotient of a finite double by a positive ratio, rounded. *)
Definition f64_div_ratio (b num den : Z) : Z :=
  if f64_special b then b
  else f64_of_ratio (f64_sign b =? 1) (f64_num b * den) (f64_den b * num).

(** ** Printing *)

Definition zeros (n : Z) : string := String.string_of_list_ascii (replicate (Z.to_nat n) (Ascii.ascii_of_nat 48)).
Definition pad_left (n : Z) (s : string) : string := zeros (n - Z.of_nat (String.length s)) +:+ s.

Definition special_text (b : Z) : string :=
  if b mod 2 ^ 52 =? 0 then "inf" else "nan".
Definition sign_text (b : Z) : string := if f64_sign b =? 1 then "-" else "".

(** [std::to_string(double)], the [%f] of the C library. *)
Definition to_string_f64 (b : Z) : string :=
  sign_text b +:+
  (if f64_special b then special_text b
   else
     let n := round_ratio (f64_num b * 10 ^ 6) (f64_den b) in
     to_string (n / 10 ^ 6) +:+ "." +:+ pad_left 6 (to_string (n mod 10 ^ 6))).

(** The decimal exponent of [num / den]. *)
Definition adjust_log10 (num den x : Z) : Z :=
  if scale_num 10 (- x) num <? scale_den 10 (- x) den then x - 1
  else if scale_num 10 (- (x + 1)) num <? scale_den 10 (- (x + 1)) den then x else x + 1.
Definition log10_ratio (num den : Z) : Z :=
  adjust_log10 num den (adjust_log10 num den ((Z.log2 num - Z.log2 den) * 30103 / 100000)).

Fixpoint strip_zeros_rev (l : list Ascii.ascii) : list Ascii.ascii :=
  match l with
  | c :: l' => if byte_of_ascii c =? 48 then strip_zeros_rev l' else l
  | [] => []
  end.
Definition strip_zeros (s : string) : string :=
  String.string_of_list_ascii (reverse (strip_zeros_rev (reverse (String.list_ascii_of_string s)))).

(** A fraction after its point, which the format drops when no digit is left. *)
Definition with_fraction (whole fraction : string) : string :=
  let fraction := strip_zeros fraction in
  if bool_decide (fraction = "") then whole else whole +:+ "." +:+ fraction.

Definition substr (s : string) (i n : Z) : string := String.substring (Z.to_nat i) (Z.to_nat n) s.

(** [std::ostringstream << std::setprecision(17) << double], the [%.17g] of the C library. *)
Definition print_g17 (b : Z) : string :=
  sign_text b +:+
  (if f64_special b then special_text b
   else if f64_mantissa b =? 0 then "0"
   else
     let x := log10_ratio (f64_num b) (f64_den b) in
     let d := round_ratio (scale_num 10 (16 - x) (f64_num b)) (scale_den 10 (16 - x) (f64_den b)) in
     let '(d, x) := if d =? 10 ^ 17 then (10 ^ 16, x + 1) else (d, x) in
     let ds := to_string d in
     if (x <? -4) || (17 <=? x) then
       with_fraction (substr ds 0 1) (substr ds 1 16) +:+ "e" +:+
       (if x <? 0 then "-" else "+") +:+ pad_left 2 (to_string (Z.abs x))
     else if x <? 0 then with_fraction "0" (zeros (- x - 1) +:+ ds)
     else with_fraction (substr ds 0 (x + 1)) (substr ds (x + 1) (16 - x))).

(** ** Reading *)

(** The digits at the start of a text, their number, and what follows. *)
Fixpoint leading_digits (l : list Ascii.ascii) (acc n : Z) : Z * Z * list Ascii.ascii :=
  match l with
  | c :: l' => if is_digit c then leading_digits l' (acc * 10 + (byte_of_ascii c - 48)) (n + 1) else (acc, n, l)
  | [] => (acc, n, [])
  end.

Definition is_char (b : Z) (c : Ascii.ascii) : bool := byte_of_ascii c =? b.

(** A minus or plus sign at the start of a text. *)
Definition leading_sign (l : list Ascii.ascii) : bool * list Ascii.ascii :=
  match l with
  | c :: l' => if is_char 45 c then (true, l') else if is_char 43 c then (false, l') else (false, l)
  | [] => (false, [])
  end.

(** [std::strtod] of a decimal number in the form that a JSON number has; the
    result is 0 when there is no digit to convert. *)
Definition strtod (s : string) : Z :=
  let '(negative, l) := leading_sign (String.list_ascii_of_string s) in
  let '(whole, n1, l) := leading_digits l 0 0 in
  let '(mantissa, n2, l) :=
    match l with
    | c :: l' => if is_char 46 c then leading_digits l' whole 0 else (whole, 0, l)
    | [] => (whole, 0, [])
    end in
  let exponent :=
    match l with
    | c :: l' =>
        if is_char 101 c || is_char 69 c then
          let '(down, l') := leading_sign l' in
          let '(e, _, _) := leading_digits l' 0 0 in if down : bool then - e else e
        else 0
    | [] => 0
    end in
  if n1 + n2 =? 0 then 0
  else f64_of_ratio negative (scale_num 10 (exponent - n2) mantissa) (scale_den 10 (exponent - n2) 1).

(** [std::stoull] and [std::stoll]. *)
Definition stoull (s : string) : result Z :=
  match number_of s with
  | None => Throw (InvalidArgument "stoull")
  | Some (neg, v) =>
      if v <? 2 ^ 64 then Ok (if neg : bool then to_u64 (- v) else v) else Throw (OutOfRange "stoull")
  end.

Definition stoll (s : string) : result Z :=
  match number_of s with
  | None => Throw (InvalidArgument "stoll")
  | Some (neg, v) =>
      let v := if neg : bool then - v else v in
      if bool_decide (is_s 64 v) then Ok v else Throw (OutOfRange "stoll")
  end.

(** They read back what [std::to_string] writes. *)
Lemma number_of_digits c l : is_digit c = true -> skip_space (c :: l) = c :: l /\
  (byte_of_ascii c =? 45) = false /\ (byte_of_ascii c =? 43) = false.
Proof. intros H. unfold is_digit in H. cbn. unfold is_space. replace (_ || _) with false by lia. split_and!; [done|lia..]. Qed.

Lemma number_of_to_string v : 0 <= v -> number_of (to_string v) = Some (false, v).
Proof.
  intros Hv. unfold number_of, to_string. destruct (pretty_first (Z.to_N v)) as (c & s & E & Hc).
  pose proof (digits_pretty (Z.to_N v)) as Hd. rewrite E in Hd |- *. cbn [String.list_ascii_of_string] in Hd |- *.
  destruct (number_of_digits c (String.list_ascii_of_string s) Hc) as (-> & -> & ->). rewrite Hd. f_equal. f_equal. lia.
Qed.

Lemma number_of_negative v : 0 <= v -> number_of ("-" +:+ to_string v) = Some (true, v).
Proof.
  intros Hv. pose proof (digits_pretty (Z.to_N v)) as Hd. fold (to_string v) in Hd.
  change (number_of ("-" +:+ to_string v)) with
    (let (v, some) := digits (String.list_ascii_of_string (to_string v)) 0 false in
     if some then Some (true, v) else None).
  rewrite Hd. f_equal. f_equal. lia.
Qed.

Lemma stoull_to_string v : is_u 64 v -> stoull (to_string v) = Ok v.
Proof. intros Hv. unfold stoull, is_u in *. rewrite number_of_to_string by lia. by rewrite (proj2 (Z.ltb_lt _ _)) by lia. Qed.

Lemma stoll_to_string v : 0 <= v -> is_s 64 v -> stoll (to_string v) = Ok v.
Proof. intros H0 Hv. unfold stoll. rewrite number_of_to_string by done. by rewrite bool_decide_true. Qed.

Lemma stoll_negative v : 0 <= v -> is_s 64 (- v) -> stoll ("-" +:+ to_string v) = Ok (- v).
Proof. intros H0 Hv. unfold stoll. rewrite number_of_negative by done. by rewrite bool_decide_true. Qed.
