(* ===== verification/FloatRoundtrip.v ===== *)
(** * The text of a double names the double

    [print_g17] writes seventeen digits, and [strtod] takes the nearest double:
    a finite double comes back bit for bit.  The numbers are compared as reals;
    nothing that the program computes is one.  The second half says what the
    text looks like: a JSON number, with a point or an exponent unless it is a
    whole number below 10 ^ 17. *)

From Stdlib Require Import Reals Lra.
From S2P Require Import Prelude MachineInt FloatBits GamePacket Text FloatText.

(** ** Powers and ratios *)

Definition pw (b e : Z) : R := powerRZ (IZR b) e.
Definition ratio (n d : Z) : R := (IZR n / IZR d)%R.

Lemma pw_pos b e : 0 < b -> (0 < pw b e)%R.
Proof. intros Hb. apply powerRZ_lt, IZR_lt. lia. Qed.

Lemma pw_add b i j : 0 < b -> (pw b (i + j) = pw b i * pw b j)%R.
Proof. intros Hb. apply powerRZ_add. apply not_0_IZR. lia. Qed.

Lemma pw_nat b e : 0 <= e -> pw b e = IZR (b ^ e).
Proof. intros He. unfold pw. rewrite <-(Z2Nat.id e) by done. rewrite <-pow_IZR, <-pow_powerRZ. by rewrite pow_IZR, <-Zpower_nat_Z, Zpower_nat_Z. Qed.

Lemma pw_split b e : 0 < b -> pw b e = ratio (b ^ Z.max 0 e) (b ^ Z.max 0 (- e)).
Proof.
  intros Hb. unfold ratio. rewrite <-!pw_nat by lia. pose proof (pw_pos b (Z.max 0 (- e)) Hb).
  apply (Rmult_eq_reg_r (pw b (Z.max 0 (- e)))); [|lra]. unfold Rdiv. rewrite Rmult_assoc, Rinv_l, Rmult_1_r by lra.
  rewrite <-pw_add by done. f_equal. lia.
Qed.

Lemma pw_le b i j : 1 < b -> i <= j -> (pw b i <= pw b j)%R.
Proof.
  intros Hb Hij. replace j with (i + (j - i)) by lia. rewrite pw_add by lia. pose proof (pw_pos b i ltac:(lia)).
  rewrite (pw_nat b (j - i)) by lia. assert (1 <= IZR (b ^ (j - i)))%R; [|nra]. apply IZR_le.
  pose proof (Z.pow_pos_nonneg b (j - i) ltac:(lia) ltac:(lia)). lia.
Qed.

Lemma pw_lt_inv b i j : 1 < b -> (pw b i < pw b j)%R -> i < j.
Proof. intros Hb H. destruct (Z.lt_ge_cases i j) as [|Hge]; [done|]. pose proof (pw_le b j i Hb Hge). lra. Qed.

Lemma ratio_scale b e n d : 0 < b -> 0 < d -> ratio (scale_num b e n) (scale_den b e d) = (ratio n d * pw b e)%R.
Proof.
  intros Hb Hd. rewrite (pw_split b e Hb). unfold ratio, scale_num, scale_den. rewrite !mult_IZR.
  assert (IZR d <> 0 /\ IZR (b ^ Z.max 0 (- e)) <> 0)%R as [H1 H2] by (split; apply not_0_IZR; [lia|apply Z.pow_nonzero; lia]).
  field. by split.
Qed.

Lemma scale_den_pos b e d : 0 < b -> 0 < d -> 0 < scale_den b e d.
Proof. intros Hb Hd. unfold scale_den. apply Z.mul_pos_pos; [done|]. apply Z.pow_pos_nonneg; lia. Qed.

Lemma ratio_lt_1 n d : 0 < d -> n < d <-> (ratio n d < 1)%R.
Proof.
  intros Hd. pose proof (IZR_lt 0 d Hd). unfold ratio. split; intros H'.
  - apply IZR_lt in H'. apply (Rmult_lt_reg_r (IZR d)); [done|]. unfold Rdiv. rewrite Rmult_assoc, Rinv_l by lra. lra.
  - apply lt_IZR. apply (Rmult_lt_compat_r (IZR d)) in H'; [|done]. unfold Rdiv in H'. rewrite Rmult_assoc, Rinv_l in H' by lra. lra.
Qed.

Lemma ratio_pos n d : 0 < n -> 0 < d -> (0 < ratio n d)%R.
Proof. intros Hn Hd. apply Rdiv_lt_0_compat; by apply IZR_lt. Qed.

(** A comparison of a scaled ratio. *)
Lemma scale_lt b e n d : 0 < b -> 0 < d -> scale_num b (- e) n < scale_den b (- e) d <-> (ratio n d < pw b e)%R.
Proof.
  intros Hb Hd. rewrite ratio_lt_1, ratio_scale by (done || by apply scale_den_pos).
  pose proof (pw_pos b e Hb). pose proof (pw_pos b (- e) Hb). assert (pw b e * pw b (- e) = 1)%R as E.
  { rewrite <-pw_add by done. by rewrite Z.add_opp_diag_r. }
  split; intros H'; nra.
Qed.

(** ** Rounding *)

Lemma round_ratio_near n d : 0 < d -> 2 * Z.abs (round_ratio n d * d - n) <= d.
Proof.
  intros Hd. unfold round_ratio. pose proof (Z.div_mod n d ltac:(lia)). pose proof (Z.mod_pos_bound n d Hd).
  destruct (Z.ltb_spec (2 * (n mod d)) d); [nia|]. rewrite Z.gtb_ltb. destruct (Z.ltb_spec d (2 * (n mod d))); [nia|].
  destruct (Z.even _); nia.
Qed.

Lemma round_unique n d q : 0 < d -> 2 * Z.abs (q * d - n) < d -> round_ratio n d = q.
Proof.
  intros Hd Hq. pose proof (round_ratio_near n d Hd). set (r := round_ratio n d) in *.
  assert (Z.abs ((r - q) * d) < d) by lia. destruct (Z.eq_dec r q); [done|]. rewrite Z.abs_mul in *. nia.
Qed.

Lemma round_near n d : 0 < d -> (Rabs (IZR (round_ratio n d) - ratio n d) <= 1 / 2)%R.
Proof.
  intros Hd. pose proof (round_ratio_near n d Hd) as H. apply IZR_le in H. rewrite mult_IZR, abs_IZR, minus_IZR, mult_IZR in H.
  pose proof (IZR_lt 0 d Hd). set (r := IZR (round_ratio n d)) in *.
  assert (r * IZR d - IZR n = (r - ratio n d) * IZR d)%R as E by (unfold ratio; field; lra).
  rewrite E, Rabs_mult, (Rabs_right (IZR d)) in H by lra. nra.
Qed.

Lemma round_is n d q : 0 < d -> (Rabs (IZR q - ratio n d) < 1 / 2)%R -> round_ratio n d = q.
Proof.
  intros Hd H. apply round_unique; [done|]. apply lt_IZR. rewrite mult_IZR, abs_IZR, minus_IZR, mult_IZR.
  pose proof (IZR_lt 0 d Hd). assert (IZR q * IZR d - IZR n = (IZR q - ratio n d) * IZR d)%R as -> by (unfold ratio; field; lra).
  rewrite Rabs_mult, (Rabs_right (IZR d)) by lra. nra.
Qed.

(** ** Exponents *)

(** The binary logarithms of the two parts bound the ratio. *)
Lemma log2_ratio n d : 0 < n -> 0 < d -> let l := Z.log2 n - Z.log2 d in (pw 2 (l - 1) < ratio n d < pw 2 (l + 1))%R.
Proof.
  intros Hn Hd l. destruct (Z.log2_spec n Hn) as [N1 N2]. destruct (Z.log2_spec d Hd) as [D1 D2].
  pose proof (Z.log2_nonneg n). pose proof (Z.log2_nonneg d).
  rewrite <-Z.add_1_r in N2, D2. apply IZR_le in N1, D1. apply IZR_lt in N2, D2. rewrite <-!pw_nat in * by lia.
  pose proof (IZR_lt 0 d Hd). pose proof (pw_pos 2 (Z.log2 n) ltac:(lia)). pose proof (pw_pos 2 (Z.log2 d) ltac:(lia)).
  assert (ratio n d * IZR d = IZR n)%R as E by (unfold ratio; field; lra).
  pose proof (pw_pos 2 (l - 1) ltac:(lia)). pose proof (pw_pos 2 (l + 1) ltac:(lia)).
  assert (pw 2 (l - 1) * pw 2 (Z.log2 d + 1) = pw 2 (Z.log2 n))%R as E1 by (rewrite <-pw_add by lia; f_equal; lia).
  assert (pw 2 (l + 1) * pw 2 (Z.log2 d) = pw 2 (Z.log2 n + 1))%R as E2 by (rewrite <-pw_add by lia; f_equal; lia).
  split; apply (Rmult_lt_reg_r (IZR d)); try done; rewrite E; nra.
Qed.

(** The exponent that [f64_of_ratio] finds. *)
Definition binary_exponent (n d : Z) : Z :=
  let k := Z.log2 n - Z.log2 d in if scale_num 2 (- k) n <? scale_den 2 (- k) d then k - 1 else k.

Lemma binary_exponent_ok n d : 0 < n -> 0 < d -> let k := binary_exponent n d in (pw 2 k <= ratio n d < pw 2 (k + 1))%R.
Proof.
  intros Hn Hd. cbv zeta. unfold binary_exponent. pose proof (log2_ratio n d Hn Hd) as H. cbv zeta in *.
  set (k := Z.log2 n - Z.log2 d) in *. destruct (Z.ltb_spec (scale_num 2 (- k) n) (scale_den 2 (- k) d)) as [Hl|Hl].
  - apply scale_lt in Hl; [|lia..]. replace (k - 1 + 1) with k by lia. lra.
  - split; [|lra]. apply Rnot_lt_le. intros Hc. apply scale_lt in Hc; lia.
Qed.

Lemma exponent_unique b i j y : 1 < b -> (pw b i <= y)%R -> (y < pw b (j + 1))%R -> i <= j.
Proof. intros Hb H1 H2. assert (i < j + 1); [|lia]. apply (pw_lt_inv b); [done|lra]. Qed.

Lemma adjust_ok n d x : 0 < n -> 0 < d -> (pw 10 (x - 1) <= ratio n d < pw 10 (x + 2))%R ->
  let y := adjust_log10 n d x in (pw 10 y <= ratio n d < pw 10 (y + 1))%R.
Proof.
  intros Hn Hd H. cbv zeta. unfold adjust_log10.
  destruct (Z.ltb_spec (scale_num 10 (- x) n) (scale_den 10 (- x) d)) as [Hl|Hl].
  - apply scale_lt in Hl; [|lia..]. replace (x - 1 + 1) with x by lia. lra.
  - assert (~ (ratio n d < pw 10 x)%R) as Hx by (intros Hc; apply scale_lt in Hc; lia).
    destruct (Z.ltb_spec (scale_num 10 (- (x + 1)) n) (scale_den 10 (- (x + 1)) d)) as [Hl2|Hl2].
    + apply scale_lt in Hl2; [|lia..]. lra.
    + assert (~ (ratio n d < pw 10 (x + 1))%R) as Hx2 by (intros Hc; apply scale_lt in Hc; lia).
      replace (x + 1 + 1) with (x + 2) by lia. lra.
Qed.

(** The guess from the binary logarithm is at most one off, for all doubles. *)
Definition guess_check (l : Z) : bool :=
  let x := l * 30103 / 100000 in
  (10 ^ Z.max 0 (x - 1) * 2 ^ Z.max 0 (- (l - 1)) <=? 2 ^ Z.max 0 (l - 1) * 10 ^ Z.max 0 (- (x - 1))) &&
  (2 ^ Z.max 0 (l + 1) * 10 ^ Z.max 0 (- (x + 2)) <=? 10 ^ Z.max 0 (x + 2) * 2 ^ Z.max 0 (- (l + 1))).

Lemma guess_checked : forallb guess_check (seqZ (-1080) 2160) = true.
Proof. vm_compute. reflexivity. Qed.

Lemma pw_cross b i c j : 0 < b -> 0 < c -> b ^ Z.max 0 i * c ^ Z.max 0 (- j) <= c ^ Z.max 0 j * b ^ Z.max 0 (- i) -> (pw b i <= pw c j)%R.
Proof.
  intros Hb Hc H. rewrite (pw_split b i), (pw_split c j) by done. unfold ratio. apply IZR_le in H. rewrite !mult_IZR in H.
  assert (0 < IZR (b ^ Z.max 0 (- i)) /\ 0 < IZR (c ^ Z.max 0 (- j)))%R as [H1 H2] by (split; apply IZR_lt, Z.pow_pos_nonneg; lia).
  apply (Rmult_le_reg_r (IZR (b ^ Z.max 0 (- i)) * IZR (c ^ Z.max 0 (- j)))); [nra|].
  replace (IZR (b ^ Z.max 0 i) / IZR (b ^ Z.max 0 (- i)) * (IZR (b ^ Z.max 0 (- i)) * IZR (c ^ Z.max 0 (- j))))%R
    with (IZR (b ^ Z.max 0 i) * IZR (c ^ Z.max 0 (- j)))%R by (field; lra).
  replace (IZR (c ^ Z.max 0 j) / IZR (c ^ Z.max 0 (- j)) * (IZR (b ^ Z.max 0 (- i)) * IZR (c ^ Z.max 0 (- j))))%R
    with (IZR (c ^ Z.max 0 j) * IZR (b ^ Z.max 0 (- i)))%R by (field; lra). lra.
Qed.

Lemma log10_ok n d : 0 < n -> 0 < d -> -1080 <= Z.log2 n - Z.log2 d < 1080 ->
  let x := log10_ratio n d in (pw 10 x <= ratio n d < pw 10 (x + 1))%R.
Proof.
  intros Hn Hd Hl. pose proof (log2_ratio n d Hn Hd) as H. cbv zeta in *. unfold log10_ratio. set (l := Z.log2 n - Z.log2 d) in *.
  assert (guess_check l = true) as Hc.
  { pose proof guess_checked as Hg. rewrite forallb_forall in Hg. apply Hg. apply list_elem_of_In, elem_of_seqZ. lia. }
  unfold guess_check in Hc. apply andb_true_iff in Hc as [C1 C2]. apply Z.leb_le in C1, C2.
  apply pw_cross in C1; [|lia..]. apply pw_cross in C2; [|lia..].
  pose proof (adjust_ok n d (l * 30103 / 100000) Hn Hd ltac:(lra)) as H1. cbv zeta in H1.
  apply adjust_ok; [done..|]. set (x := adjust_log10 n d _) in *.
  pose proof (pw_le 10 (x - 1) x ltac:(lia) ltac:(lia)). pose proof (pw_le 10 (x + 1) (x + 2) ltac:(lia) ltac:(lia)). lra.
Qed.

(** ** Finite doubles *)

Definition finite (b : Z) : Prop := is_u 64 b /\ f64_special b = false.

Lemma finite_parts b : finite b ->
  b = f64_sign b * 2 ^ 63 + ((f64_exponent b + 1074) * 2 ^ 52 + f64_mantissa b) /\ 0 <= f64_sign b <= 1 /\
  -1074 <= f64_exponent b <= 971 /\ 0 <= f64_mantissa b < 2 ^ 53 /\ (f64_exponent b = -1074 \/ 2 ^ 52 <= f64_mantissa b).
Proof.
  intros [Hb Hs]. unfold f64_special, f64_sign, f64_exponent, f64_mantissa, is_u in *. apply Z.eqb_neq in Hs.
  pose proof (Z.div_mod b (2 ^ 52) ltac:(lia)). pose proof (Z.mod_pos_bound b (2 ^ 52) ltac:(lia)).
  pose proof (Z.div_mod (b / 2 ^ 52) (2 ^ 11) ltac:(lia)). pose proof (Z.mod_pos_bound (b / 2 ^ 52) (2 ^ 11) ltac:(lia)).
  assert (b / 2 ^ 63 = b / 2 ^ 52 / 2 ^ 11) as -> by (rewrite Z.div_div by lia; done).
  set (m := b mod 2 ^ 52) in *. set (q := b / 2 ^ 52) in *. set (e := q mod 2 ^ 11) in *. set (s := q / 2 ^ 11) in *.
  change (2 ^ 52) with 4503599627370496 in *. change (2 ^ 11) with 2048 in *. change (2 ^ 53) with 9007199254740992.
  change (2 ^ 63) with 9223372036854775808. change (2 ^ 64) with 18446744073709551616 in *.
  destruct (Z.eqb_spec e 0); split_and!; lia.
Qed.

Definition f64_value (b : Z) : R := (IZR (f64_mantissa b) * pw 2 (f64_exponent b))%R.

Lemma f64_den_pos b : 0 < f64_den b.
Proof. apply scale_den_pos; lia. Qed.

Lemma f64_ratio b : ratio (f64_num b) (f64_den b) = f64_value b.
Proof. unfold f64_num, f64_den. rewrite ratio_scale by lia. unfold ratio, f64_value. lra. Qed.

(** How close a number must be to a double to be read as it: half of the
    distance to the next double, which below a power of two is half as long. *)
Definition near (b : Z) (y : R) : Prop :=
  (Rabs (y - f64_value b) < pw 2 (f64_exponent b) / 2)%R /\
  (f64_mantissa b = 2 ^ 52 -> (f64_value b - y < pw 2 (f64_exponent b) / 4)%R).

Lemma abs_bounds a r : (Rabs a < r)%R -> (- r < a < r)%R.
Proof. intros H. apply Rabs_def2 in H. lra. Qed.

Lemma abs_bounds_le a r : (Rabs a <= r)%R -> (- r <= a <= r)%R.
Proof. unfold Rabs. destruct (Rcase_abs a); lra. Qed.

Lemma round_scaled n d t q : 0 < d -> (Rabs (IZR q - ratio n d * pw 2 (- t)) < 1 / 2)%R ->
  round_ratio (scale_num 2 (- t) n) (scale_den 2 (- t) d) = q.
Proof. intros Hd H. apply round_is; [apply scale_den_pos; lia|]. by rewrite ratio_scale by lia. Qed.

Lemma f64_of_near negative n d b : finite b -> 0 < f64_mantissa b -> 0 < n -> 0 < d -> near b (ratio n d) ->
  f64_of_ratio negative n d = (if negative then 2 ^ 63 else 0) + ((f64_exponent b + 1074) * 2 ^ 52 + f64_mantissa b).
Proof.
  intros Hb HM Hn Hd [Hnear Hlow]. destruct (finite_parts b Hb) as (_ & _ & HE & HM2 & Hnorm).
  unfold f64_value in *. set (E := f64_exponent b) in *. set (M := f64_mantissa b) in *. set (y := ratio n d) in *.
  apply abs_bounds in Hnear. pose proof (pw_pos 2 E ltac:(lia)) as HpE. set (u := pw 2 E) in *.
  unfold f64_of_ratio. rewrite (proj2 (Z.eqb_neq n 0)) by lia. fold (binary_exponent n d).
  destruct (binary_exponent_ok n d Hn Hd) as [K1 K2]. fold y in K1, K2. set (k := binary_exponent n d) in *. cbv zeta.
  assert (pw 2 (E + 52) = u * IZR (2 ^ 52) /\ pw 2 (E + 53) = u * IZR (2 ^ 53) /\ pw 2 (E + 51) = u * IZR (2 ^ 51))%R as (P52 & P53 & P51)
    by (rewrite !pw_add by lia; rewrite !(pw_nat 2 51), !(pw_nat 2 52), !(pw_nat 2 53) by lia; done).
  assert (IZR (2 ^ 53) = 2 * IZR (2 ^ 52) /\ IZR (2 ^ 52) = 2 * IZR (2 ^ 51))%R as [D1 D2] by (split; rewrite <-mult_IZR; by f_equal).
  assert (M + 1 <= 2 ^ 53)%Z as HM3 by lia. apply IZR_le in HM3. rewrite plus_IZR in HM3.
  assert (k <= E + 52) as Hk.
  { apply (exponent_unique 2 k (E + 52) y); [lia|done|]. replace (E + 52 + 1) with (E + 53) by lia. rewrite P53. nra. }
  assert (forall t q, t = Z.max (-1074) (k - 52) -> (Rabs (IZR q - y * pw 2 (- t)) < 1 / 2)%R -> (t + 1074) * 2 ^ 52 + q = (E + 1074) * 2 ^ 52 + M ->
    (if negative then 2 ^ 63 else 0) + Z.min f64_infinity ((Z.max (-1074) (k - 52) + 1074) * 2 ^ 52 +
      round_ratio (scale_num 2 (- Z.max (-1074) (k - 52)) n) (scale_den 2 (- Z.max (-1074) (k - 52)) d)) =
    (if negative then 2 ^ 63 else 0) + ((E + 1074) * 2 ^ 52 + M)) as Hfin.
  { intros t q <- Hq Eq. rewrite (round_scaled n d t q Hd Hq), Eq. f_equal. unfold f64_infinity.
    change (2 ^ 52) with 4503599627370496 in *. change (2 ^ 53) with 9007199254740992 in *. lia. }
  assert (u * pw 2 (- E) = 1)%R as Hinv by (unfold u; rewrite <-pw_add by lia; by rewrite Z.add_opp_diag_r).
  pose proof (pw_pos 2 (- E) ltac:(lia)) as HpI. set (v := pw 2 (- E)) in *.
  destruct (decide (E = Z.max (-1074) (k - 52))) as [Ht|Ht].
  - apply (Hfin E M Ht); [|done]. fold v. apply Rabs_def1; nra.
  - (* just below the power of two that the double is *)
    assert (k <= E + 51 /\ -1074 < E) as [Hk51 HE2] by lia. destruct Hnorm as [?|HM4]; [lia|].
    assert (M = 2 ^ 52) as EM.
    { destruct (Z.eq_dec M (2 ^ 52)) as [|Hne]; [done|]. exfalso. assert (2 ^ 52 + 1 <= M) as H by lia. apply IZR_le in H. rewrite plus_IZR in H.
      pose proof (pw_le 2 (k + 1) (E + 52) ltac:(lia) ltac:(lia)). nra. }
    specialize (Hlow EM). rewrite EM in *.
    assert (E + 51 <= k) as Hk3.
    { apply (exponent_unique 2 (E + 51) k y); [lia| |done]. rewrite P51, D2 in *. assert (1 <= IZR (2 ^ 51))%R by (apply IZR_le; lia). nra. }
    apply (Hfin (E - 1) (2 ^ 53)); [lia| |change (2 ^ 53) with (2 * 2 ^ 52); lia].
    replace (- (E - 1)) with (- E + 1) by lia. rewrite pw_add by lia. fold v. rewrite (pw_nat 2 1) by lia. change (2 ^ 1) with 2.
    pose proof (pw_le 2 (k + 1) (E + 52) ltac:(lia) ltac:(lia)). rewrite D1. apply Rabs_def1; nra.
Qed.

(** ** Seventeen digits *)

(** The digits that are printed, and the exponent of the first. *)
Definition decimal (b : Z) : Z * Z :=
  let x := log10_ratio (f64_num b) (f64_den b) in
  let d := round_ratio (scale_num 10 (16 - x) (f64_num b)) (scale_den 10 (16 - x) (f64_den b)) in
  if d =? 10 ^ 17 then (10 ^ 16, x + 1) else (d, x).

Definition decimal_value (p : Z * Z) : R := (IZR p.1 * pw 10 (p.2 - 16))%R.

Lemma f64_num_pos b : 0 < f64_mantissa b -> 0 < f64_num b.
Proof. intros H. unfold f64_num, scale_num. apply Z.mul_pos_pos; [done|]. apply Z.pow_pos_nonneg; lia. Qed.

Lemma f64_log10 b : finite b -> 0 < f64_mantissa b ->
  let x := log10_ratio (f64_num b) (f64_den b) in (pw 10 x <= f64_value b < pw 10 (x + 1))%R.
Proof.
  intros Hb HM. rewrite <-f64_ratio. apply log10_ok; [by apply f64_num_pos|apply f64_den_pos|].
  destruct (finite_parts b Hb) as (_ & _ & HE & HM2 & _). unfold f64_num, f64_den, scale_num, scale_den.
  rewrite Z.log2_mul_pow2, Z.mul_1_l, Z.log2_pow2 by lia.
  assert (Z.log2 (f64_mantissa b) < 53) by (apply Z.log2_lt_pow2; lia). pose proof (Z.log2_nonneg (f64_mantissa b)). lia.
Qed.

(** The rounded digits, before the carry. *)
Lemma decimal_near b : finite b -> 0 < f64_mantissa b ->
  let x := log10_ratio (f64_num b) (f64_den b) in
  let d := round_ratio (scale_num 10 (16 - x) (f64_num b)) (scale_den 10 (16 - x) (f64_den b)) in
  (Rabs (IZR d - f64_value b * pw 10 (16 - x)) <= 1 / 2)%R /\ 10 ^ 16 <= d <= 10 ^ 17 /\ decimal_value (decimal b) = (IZR d * pw 10 (x - 16))%R /\
  10 ^ 16 <= (decimal b).1 < 10 ^ 17.
Proof.
  intros Hb HM x d. pose proof (f64_log10 b Hb HM) as Hx. cbv zeta in Hx. fold x in Hx.
  pose proof (round_near (scale_num 10 (16 - x) (f64_num b)) (scale_den 10 (16 - x) (f64_den b))
    (scale_den_pos 10 _ _ ltac:(lia) (f64_den_pos b))) as Hr.
  rewrite ratio_scale, f64_ratio in Hr by (apply f64_den_pos || lia). fold d in Hr. split; [exact Hr|].
  apply abs_bounds_le in Hr.
  assert (pw 10 x * pw 10 (16 - x) = IZR (10 ^ 16) /\ pw 10 (x + 1) * pw 10 (16 - x) = IZR (10 ^ 17))%R as [E1 E2]
    by (rewrite <-!pw_add, <-!pw_nat by lia; split; f_equal; lia).
  pose proof (pw_pos 10 (16 - x) ltac:(lia)).
  assert (10 ^ 16 <= d <= 10 ^ 17) as Hd.
  { assert (IZR (10 ^ 16) - 1 / 2 <= IZR d /\ IZR d <= IZR (10 ^ 17) + 1 / 2)%R as [H1 H2] by nra.
    split; apply Z.lt_succ_r, lt_IZR; unfold Z.succ; rewrite plus_IZR; lra. }
  split; [done|]. unfold decimal, decimal_value. fold x. fold d.
  destruct (Z.eqb_spec d (10 ^ 17)) as [->|]; cbn [fst snd]; (split; [|lia]); [|done].
  replace (x + 1 - 16) with (1 + (x - 16)) by lia. rewrite pw_add, (pw_nat 10 1) by lia. rewrite <-Rmult_assoc, <-mult_IZR. done.
Qed.

(** They are near enough: a unit of the last digit is less than 2 ^ 53 / 10 ^ 16
    of the distance between two doubles. *)
Lemma decimal_reads b : finite b -> 0 < f64_mantissa b -> near b (decimal_value (decimal b)).
Proof.
  intros Hb HM. destruct (decimal_near b Hb HM) as (Hr & _ & -> & _). cbv zeta in *.
  pose proof (f64_log10 b Hb HM) as Hx. cbv zeta in Hx. set (x := log10_ratio _ _) in *. set (d := round_ratio _ _) in *.
  destruct (finite_parts b Hb) as (_ & _ & _ & HM2 & _). unfold near. unfold f64_value in *. set (u := pw 2 (f64_exponent b)) in *.
  set (M := f64_mantissa b) in *. assert (0 < u)%R as Hu by (apply pw_pos; lia).
  pose proof (pw_pos 10 (x - 16) ltac:(lia)) as Hp. set (p := pw 10 (x - 16)) in *.
  assert (pw 10 x = p * IZR (10 ^ 16))%R as Ep by (unfold p; rewrite <-pw_nat, <-pw_add by lia; f_equal; lia).
  assert (p * pw 10 (16 - x) = 1)%R as Ei by (unfold p; rewrite <-pw_add by lia; by replace (x - 16 + (16 - x)) with 0 by lia).
  pose proof (pw_pos 10 (16 - x) ltac:(lia)) as Hq. set (q := pw 10 (16 - x)) in *.
  apply abs_bounds_le in Hr.
  assert (IZR M * u - p / 2 <= IZR d * p <= IZR M * u + p / 2)%R as Hd by (split; nra).
  assert (M + 1 <= 2 ^ 53) as HM3 by lia. apply IZR_le in HM3. rewrite plus_IZR in HM3. assert (2 ^ 53 < 10 ^ 16) as H16 by lia. apply IZR_lt in H16.
  assert (p * IZR (10 ^ 16) <= IZR M * u)%R as Hpm by lra. split.
  - apply Rabs_def1; nra.
  - intros EM. rewrite EM in *. assert (IZR (2 ^ 53) = 2 * IZR (2 ^ 52))%R as E2 by (rewrite <-mult_IZR; by f_equal). nra.
Qed.

(** ** Whole numbers *)

(** The double is a whole number; which one. *)
Definition f64_whole (b : Z) : bool := f64_num b mod f64_den b =? 0.
Definition f64_floor (b : Z) : Z := f64_num b / f64_den b.

Lemma f64_whole_value b : f64_whole b = true <-> f64_value b = IZR (f64_floor b).
Proof.
  unfold f64_whole, f64_floor. rewrite Z.eqb_eq, <-f64_ratio. pose proof (f64_den_pos b) as Hd. pose proof (Z.div_mod (f64_num b) (f64_den b) ltac:(lia)) as Hm.
  pose proof (IZR_lt 0 _ Hd). assert (ratio (f64_num b) (f64_den b) * IZR (f64_den b) = IZR (f64_num b))%R as E by (unfold ratio; field; lra).
  split; intros H'.
  - rewrite H', Z.add_0_r in Hm. apply (Rmult_eq_reg_r (IZR (f64_den b))); [|lra]. rewrite E, <-mult_IZR. f_equal. lia.
  - rewrite H', <-mult_IZR in E. apply eq_IZR in E. lia.
Qed.

(** Digits behind the point of a whole number below 10 ^ 17 are exact. *)
Lemma decimal_exact b n : finite b -> 0 < f64_mantissa b -> f64_value b = IZR n -> log10_ratio (f64_num b) (f64_den b) <= 16 ->
  let x := log10_ratio (f64_num b) (f64_den b) in 0 <= x /\ decimal b = (n * 10 ^ (16 - x), x).
Proof.
  intros Hb HM Hn Hle. destruct (decimal_near b Hb HM) as (Hr & _ & _ & _). pose proof (f64_log10 b Hb HM) as Hx. cbv zeta in *.
  set (x := log10_ratio _ _) in *. rewrite Hn in *.
  assert (0 < n) as Hn0 by (apply lt_IZR; pose proof (pw_pos 10 x ltac:(lia)); lra).
  assert (0 < x + 1) as Hx0. { apply (pw_lt_inv 10); [lia|]. rewrite (pw_nat 10 0) by lia. change (10 ^ 0) with 1. apply (Rle_lt_trans _ (IZR n)); [apply IZR_le; lia|lra]. }
  split; [lia|]. unfold decimal. fold x.
  assert (round_ratio (scale_num 10 (16 - x) (f64_num b)) (scale_den 10 (16 - x) (f64_den b)) = n * 10 ^ (16 - x)) as ->.
  { apply round_is; [apply scale_den_pos; [lia|apply f64_den_pos]|]. rewrite ratio_scale, f64_ratio by (apply f64_den_pos || lia).
    rewrite Hn, pw_nat, mult_IZR by lia. rewrite Rminus_diag, Rabs_R0. lra. }
  assert (n * 10 ^ (16 - x) < 10 ^ 17) as Hlt.
  { apply lt_IZR. rewrite mult_IZR, <-!pw_nat by lia. replace 17 with (x + 1 + (16 - x)) by lia. rewrite pw_add by lia.
    apply Rmult_lt_compat_r; [apply pw_pos; lia|lra]. }
  by rewrite (proj2 (Z.eqb_neq _ _)) by lia.
Qed.

(** A double near a whole number is that number. *)
Lemma near_whole b n : finite b -> 0 < f64_mantissa b -> near b (IZR n) -> f64_exponent b < 0 -> f64_value b = IZR n.
Proof.
  intros Hb HM [Hn _] HE. apply abs_bounds in Hn. unfold f64_value in *. set (E := f64_exponent b) in *. set (M := f64_mantissa b) in *.
  assert (pw 2 E * pw 2 (- E) = 1)%R as E1 by (rewrite <-pw_add by lia; by rewrite Z.add_opp_diag_r). rewrite (pw_nat 2 (- E)) in E1 by lia.
  pose proof (pw_pos 2 E ltac:(lia)) as Hu. set (u := pw 2 E) in *.
  assert (n * 2 ^ (- E) = M) as Em.
  { assert (2 * Z.abs (n * 2 ^ (- E) - M) < 1); [|lia]. apply lt_IZR. rewrite mult_IZR, abs_IZR, minus_IZR, mult_IZR.
    assert (Rabs (IZR n * IZR (2 ^ (- E)) - IZR M) < 1 / 2)%R; [|lra].
    assert (0 < IZR (2 ^ (- E)))%R as Hw by (apply IZR_lt, Z.pow_pos_nonneg; lia). set (w := IZR (2 ^ (- E))) in *.
    assert (IZR n * w - IZR M = (IZR n - IZR M * u) * w)%R as ->.
    { rewrite Rmult_minus_distr_r, Rmult_assoc, E1. lra. }
    destruct Hn as [H1 H2]. apply (Rmult_lt_compat_r w) in H1, H2; [|done..]. apply Rabs_def1; lra. }
  rewrite <-Em, mult_IZR, Rmult_assoc, (Rmult_comm _ u), E1. lra.
Qed.

(** When the digits behind the point are zeros: exactly for whole numbers below
    10 ^ 17, and the digits before it are the number. *)
Lemma decimal_whole b : finite b -> 0 < f64_mantissa b ->
  (f64_whole b = true /\ f64_floor b < 10 ^ 17 <-> 0 <= (decimal b).2 <= 16 /\ (decimal b).1 mod 10 ^ (16 - (decimal b).2) = 0) /\
  (f64_whole b = true -> f64_floor b < 10 ^ 17 -> f64_floor b = (decimal b).1 / 10 ^ (16 - (decimal b).2)).
Proof.
  intros Hb HM. pose proof (f64_log10 b Hb HM) as Hx. cbv zeta in Hx. set (x := log10_ratio (f64_num b) (f64_den b)) in *.
  assert (f64_whole b = true -> f64_floor b < 10 ^ 17 -> 0 <= x <= 16 /\ decimal b = (f64_floor b * 10 ^ (16 - x), x)) as Hw.
  { intros Hwh Hlt. apply f64_whole_value in Hwh. rewrite Hwh in Hx.
    assert (x < 17) as Hx17. { apply (pw_lt_inv 10); [lia|]. apply IZR_lt in Hlt. rewrite <-(pw_nat 10 17) in Hlt by lia. lra. }
    destruct (decimal_exact b (f64_floor b) Hb HM Hwh ltac:(fold x; lia)) as [H1 H2]. split; [|done]. fold x in H1. lia. }
  split.
  - split.
    + intros [Hwh Hlt]. destruct (Hw Hwh Hlt) as [Hr ->]. cbn [fst snd]. split; [done|]. apply Z.mod_mul. apply Z.pow_nonzero; lia.
    + intros [Hr Hm]. pose proof (decimal_reads b Hb HM) as Hnear. destruct (decimal_near b Hb HM) as (_ & _ & _ & Hd17).
      set (k := (decimal b).1 / 10 ^ (16 - (decimal b).2)).
      assert (0 < 10 ^ (16 - (decimal b).2)) as Hpos by (apply Z.pow_pos_nonneg; lia).
      assert ((decimal b).1 = k * 10 ^ (16 - (decimal b).2)) as Ed.
      { pose proof (Z.div_mod (decimal b).1 (10 ^ (16 - (decimal b).2)) ltac:(lia)) as Hdm. rewrite Hm, Z.add_0_r in Hdm. unfold k. by rewrite Z.mul_comm. }
      assert (decimal_value (decimal b) = IZR k) as Ev.
      { unfold decimal_value. rewrite Ed, mult_IZR, <-pw_nat, Rmult_assoc, <-pw_add by lia.
        replace (16 - (decimal b).2 + ((decimal b).2 - 16)) with 0 by lia. unfold pw. cbn. lra. }
      rewrite Ev in Hnear.
      assert (f64_value b = IZR k) as Ek.
      { destruct (Z.lt_ge_cases (f64_exponent b) 0) as [HE|HE]; [by apply near_whole|].
        assert (f64_value b = IZR (f64_mantissa b * 2 ^ f64_exponent b)) as Eb by (unfold f64_value; by rewrite pw_nat, mult_IZR).
        assert (x <= 16) as Hx16.
        { unfold decimal in Hr. fold x in Hr. destruct (_ =? 10 ^ 17); cbn [snd] in Hr; lia. }
        destruct (decimal_exact b _ Hb HM Eb ltac:(fold x; lia)) as [H0 E]. fold x in H0, E. rewrite Eb. f_equal.
        unfold k. rewrite E. cbn [fst snd]. symmetry. apply Z.div_mul. apply Z.pow_nonzero; lia. }
      assert (f64_floor b = k) as Ef.
      { unfold f64_floor. rewrite <-f64_ratio in Ek. pose proof (f64_den_pos b). pose proof (IZR_lt 0 _ (f64_den_pos b)).
        assert (IZR (f64_num b) = IZR k * IZR (f64_den b))%R as E by (rewrite <-Ek; unfold ratio; field; lra).
        rewrite <-mult_IZR in E. apply eq_IZR in E. rewrite E. apply Z.div_mul. lia. }
      split; [apply f64_whole_value; by rewrite Ef|]. rewrite Ef. nia.
  - intros Hwh Hlt. destruct (Hw Hwh Hlt) as [Hr ->]. cbn [fst snd]. symmetry. apply Z.div_mul. apply Z.pow_nonzero; lia.
Qed.

(** Any number equal to the printed one is read as the double. *)
Lemma decimal_strtod b digits exponent k : finite b -> 0 < f64_mantissa b -> 0 <= k ->
  (decimal b).1 = digits * 10 ^ k -> exponent - k = (decimal b).2 - 16 ->
  f64_of_ratio (f64_sign b =? 1) (scale_num 10 exponent digits) (scale_den 10 exponent 1) = b.
Proof.
  intros Hb HM Hk Hd Hx. destruct (decimal_near b Hb HM) as (_ & _ & _ & Hr). assert (0 < 10 ^ k) by (apply Z.pow_pos_nonneg; lia).
  assert (0 < digits) as Hdig by nia.
  rewrite (f64_of_near (f64_sign b =? 1) _ _ b Hb HM).
  - destruct (finite_parts b Hb) as (E & Hs & _). rewrite E at 4. f_equal. destruct (Z.eqb_spec (f64_sign b) 1); lia.
  - unfold scale_num. apply Z.mul_pos_pos; [done|]. apply Z.pow_pos_nonneg; lia.
  - apply scale_den_pos; lia.
  - rewrite ratio_scale by lia. assert (ratio digits 1 * pw 10 exponent = decimal_value (decimal b))%R as ->; [|by apply decimal_reads].
    unfold decimal_value. rewrite Hd, <-Hx, mult_IZR, <-pw_nat, Rmult_assoc, <-pw_add by lia.
    replace (k + (exponent - k)) with exponent by lia. unfold ratio. lra.
Qed.

Abbreviation chars := String.list_ascii_of_string.
Abbreviation str := String.string_of_list_ascii.

(** ** Digits *)

Definition is_digits (l : list Ascii.ascii) : Prop := Forall (fun c => is_digit c = true) l.
Definition digits_value (l : list Ascii.ascii) : Z := foldl (fun acc c => acc * 10 + (byte_of_ascii c - 48)) 0 l.

Lemma digits_value_from l : forall acc,
  foldl (fun acc c => acc * 10 + (byte_of_ascii c - 48)) acc l = acc * 10 ^ size l + digits_value l.
Proof.
  unfold digits_value. induction l as [|c l IH]; intros acc; cbn [foldl]; [change (size []) with 0; lia|].
  rewrite IH, (IH (0 * 10 + _)), size_cons. pose proof (size_nonneg l). rewrite Z.pow_add_r by lia. change (10 ^ 1) with 10. ring.
Qed.

Lemma digits_value_app l r : digits_value (l ++ r) = digits_value l * 10 ^ size r + digits_value r.
Proof. unfold digits_value at 1. rewrite foldl_app. apply digits_value_from. Qed.

Lemma digits_value_cons c l : digits_value (c :: l) = (byte_of_ascii c - 48) * 10 ^ size l + digits_value l.
Proof. unfold digits_value at 1. cbn [foldl]. rewrite digits_value_from. by rewrite Z.mul_0_l. Qed.

Lemma digit_range c : is_digit c = true -> 0 <= byte_of_ascii c - 48 < 10.
Proof. unfold is_digit. lia. Qed.

Lemma digits_value_range l : is_digits l -> 0 <= digits_value l < 10 ^ size l.
Proof.
  induction 1 as [|c l Hc _ IH]; [done|]. rewrite digits_value_cons, size_cons. apply digit_range in Hc. pose proof (size_nonneg l).
  rewrite Z.pow_add_r by lia. change (10 ^ 1) with 10. nia.
Qed.

Definition no_digit (r : list Ascii.ascii) : Prop := match r with c :: _ => is_digit c = false | [] => True end.

Lemma leading_digits_ok l r : is_digits l -> no_digit r -> forall acc n,
  leading_digits (l ++ r) acc n = (acc * 10 ^ size l + digits_value l, n + size l, r).
Proof.
  intros Hl Hr. induction Hl as [|c l Hc _ IH]; intros acc n.
  - cbn [app]. assert (leading_digits r acc n = (acc, n, r)) as -> by (destruct r as [|c r]; cbn in *; [done|by rewrite Hr]).
    change (size []) with 0. by rewrite Z.add_0_r, Z.mul_1_r, Z.add_0_r.
  - cbn [app leading_digits]. rewrite Hc, IH, digits_value_cons, size_cons. pose proof (size_nonneg l). rewrite Z.pow_add_r by lia.
    change (10 ^ 1) with 10. f_equal. f_equal; ring.
Qed.

Lemma digits_ok l : is_digits l -> forall acc b,
  digits l acc b = (acc * 10 ^ size l + digits_value l, b || negb (bool_decide (l = []))).
Proof.
  induction 1 as [|c l Hc _ IH]; intros acc b; cbn [digits].
  - change (size []) with 0. cbn. rewrite orb_false_r. f_equal. lia.
  - rewrite Hc, IH, digits_value_cons, size_cons. pose proof (size_nonneg l). rewrite Z.pow_add_r by lia. change (10 ^ 1) with 10.
    rewrite (bool_decide_false (c :: l = [])), !orb_true_r by done. f_equal. ring.
Qed.

Lemma to_string_digits n : 0 <= n -> is_digits (chars (to_string n)) /\ digits_value (chars (to_string n)) = n.
Proof.
  intros Hn. pose proof (pretty_digits (Z.to_N n)) as Hd. fold (to_string n) in Hd. split; [exact Hd|].
  pose proof (digits_pretty (Z.to_N n)) as Hp. fold (to_string n) in Hp. rewrite (digits_ok _ Hd) in Hp. injection Hp as Hp _. rewrite Z.mul_0_l, Z2N.id in Hp by done. exact Hp.
Qed.

(** A number other than 0 does not start with a 0. *)
Lemma pretty_leading n : forall s, (0 < n)%N -> exists c s', pretty_N_go n s = String c s' /\ byte_of_ascii c <> 48.
Proof.
  induction (N.lt_wf_0 n) as [n _ IH]. intros s Hn. rewrite pretty_N_go_step by lia. destruct (N.eq_dec (n / 10) 0) as [E|E].
  - rewrite E, pretty_N_go_0. do 2 eexists. split; [done|]. pose proof (N.div_mod n 10 ltac:(lia)).
    destruct (pretty_char_digit (n `mod` 10)) as [_ ->]; [by apply N.mod_lt|]. lia.
  - apply IH; [apply N.div_lt; lia|by apply N.neq_0_lt_0].
Qed.

Lemma to_string_size n k : 0 <= k -> 10 ^ k <= n < 10 ^ (k + 1) -> size (chars (to_string n)) = k + 1.
Proof.
  intros Hk Hn. assert (0 < n) as Hn0 by (pose proof (Z.pow_pos_nonneg 10 k ltac:(lia) Hk); lia).
  destruct (to_string_digits n ltac:(lia)) as [Hd Hv]. pose proof (digits_value_range _ Hd) as Hr. rewrite Hv in Hr.
  assert (exists c s, to_string n = String c s /\ byte_of_ascii c <> 48) as (c & s & E & Hc).
  { unfold to_string, pretty, pretty_N. rewrite decide_False by lia. apply pretty_leading. lia. }
  rewrite E in *. cbn [String.list_ascii_of_string] in *. rewrite digits_value_cons in Hv. apply Forall_cons_1 in Hd as [Hc2 Hd].
  apply digit_range in Hc2. pose proof (digits_value_range _ Hd). rewrite size_cons in *. pose proof (size_nonneg (chars s)) as Hs.
  assert (10 ^ size (chars s) <= n) as Hlow by nia.
  assert (k < size (chars s) + 1) by (apply (Z.pow_lt_mono_r_iff 10); lia).
  assert (size (chars s) < k + 1) by (apply (Z.pow_lt_mono_r_iff 10); lia). lia.
Qed.

(** ** Zeros *)

Definition zero_char : Ascii.ascii := Ascii.ascii_of_nat 48.

Lemma is_digits_zeros n : is_digits (replicate n zero_char).
Proof. apply Forall_replicate. done. Qed.

Lemma zeros_value n : digits_value (replicate n zero_char) = 0.
Proof. induction n as [|n IH]; [done|]. cbn [replicate]. rewrite digits_value_cons, IH. done. Qed.

Lemma strip_rev l : exists k, l = replicate k zero_char ++ strip_zeros_rev l /\
  match strip_zeros_rev l with c :: _ => byte_of_ascii c <> 48 | [] => True end.
Proof.
  induction l as [|c l IH]; [by exists O|]. cbn [strip_zeros_rev]. destruct (Z.eqb_spec (byte_of_ascii c) 48) as [E|E]; [|by exists O].
  destruct IH as (k & Hk & Hh). exists (S k). split; [|done]. cbn [replicate app]. rewrite <-Hk. f_equal.
  rewrite <-(ascii_of_byte_of_ascii c), E. done.
Qed.

Lemma replicate_snoc {A} n (x : A) : replicate n x ++ [x] = x :: replicate n x.
Proof. induction n as [|n IH]; [done|]. cbn [replicate app]. by rewrite IH. Qed.

Lemma reverse_replicate {A} n (x : A) : reverse (replicate n x) = replicate n x.
Proof. induction n as [|n IH]; [done|]. cbn [replicate]. by rewrite reverse_cons, IH, replicate_snoc. Qed.

(** What is stripped are zeros; nothing is left exactly of zeros. *)
Lemma strip_zeros_ok l : is_digits l -> exists k, l = chars (strip_zeros (str l)) ++ replicate k zero_char /\
  is_digits (chars (strip_zeros (str l))) /\ (chars (strip_zeros (str l)) = [] <-> digits_value l = 0).
Proof.
  intros Hl. unfold strip_zeros. rewrite !String.list_ascii_of_string_of_list_ascii. destruct (strip_rev (reverse l)) as (k & Hk & Hh).
  set (m := strip_zeros_rev (reverse l)) in *. exists k. assert (l = reverse m ++ replicate k zero_char) as E.
  { rewrite <-(reverse_involutive l), Hk, reverse_app, reverse_replicate. by f_equal. }
  split; [done|]. assert (is_digits (reverse m)) as Hm by (rewrite E in Hl; by apply Forall_app in Hl as [? _]). split; [done|].
  rewrite E, digits_value_app, zeros_value, Z.add_0_r. split; [by intros ->|]. intros Hz. apply Z.mul_eq_0 in Hz as [Hz|Hz].
  2:{ pose proof (Z.pow_pos_nonneg 10 (size (replicate k zero_char)) ltac:(lia) (size_nonneg _)). lia. }
  destruct m as [|c m]; [done|]. rewrite reverse_cons, digits_value_app in *. apply Forall_app in Hm as [Hm Hc]. apply Forall_cons_1 in Hc as [Hc _].
  apply digit_range in Hc. pose proof (digits_value_range _ Hm). rewrite digits_value_cons in Hz. change (size [c]) with 1 in Hz.
  change (size []) with 0 in Hz. change (digits_value []) with 0 in Hz. change (10 ^ 0) with 1 in Hz. lia.
Qed.

(** ** The shape *)

Definition minus : Ascii.ascii := ascii_of_byte 45.
Definition plus : Ascii.ascii := ascii_of_byte 43.
Definition point : Ascii.ascii := ascii_of_byte 46.
Definition exponent_mark : Ascii.ascii := ascii_of_byte 101.

(** A sign, digits, digits behind a point, and an exponent with its sign. *)
Record shape := mkShape {
  negative : bool;
  whole_part : list Ascii.ascii;
  fraction_part : list Ascii.ascii;
  exponent_part : option (bool * list Ascii.ascii)
}.

Definition sign_part (p : shape) : list Ascii.ascii := if negative p then [minus] else [].
Definition point_of (f : list Ascii.ascii) : list Ascii.ascii := match f with [] => [] | c :: f' => point :: c :: f' end.
Definition point_part (p : shape) : list Ascii.ascii := point_of (fraction_part p).
Definition scale_part (p : shape) : list Ascii.ascii :=
  match exponent_part p with None => [] | Some (down, e) => exponent_mark :: (if down : bool then minus else plus) :: e end.
Definition shape_text (p : shape) : list Ascii.ascii := sign_part p ++ whole_part p ++ point_part p ++ scale_part p.

Record shape_ok (p : shape) : Prop := mkShapeOk {
  sh_whole : is_digits (whole_part p);
  sh_nonempty : whole_part p <> [];
  sh_fraction : is_digits (fraction_part p);
  sh_exponent : match exponent_part p with None => True | Some (_, e) => is_digits e end
}.

(** The number is [shape_digits * 10 ^ shape_exponent], up to its sign. *)
Definition shape_digits (p : shape) : Z := digits_value (whole_part p ++ fraction_part p).
Definition shape_exponent (p : shape) : Z :=
  match exponent_part p with None => 0 | Some (down, e) => if down : bool then - digits_value e else digits_value e end - size (fraction_part p).
Definition shape_floating (p : shape) : bool :=
  negb (bool_decide (fraction_part p = []) && bool_decide (exponent_part p = None)).

Lemma is_digit_not c b : is_digit c = true -> ~ 48 <= b <= 57 -> is_char b c = false.
Proof. unfold is_digit, is_char. lia. Qed.

Lemma leading_sign_digits l r : is_digits l -> l <> [] -> leading_sign (l ++ r) = (false, l ++ r).
Proof. intros Hl Hn. destruct Hl as [|c l Hc _]; [done|]. cbn. by rewrite !is_digit_not by (done || lia). Qed.

Lemma leading_digits_all l : is_digits l -> leading_digits l 0 0 = (digits_value l, size l, []).
Proof. intros Hl. rewrite <-(app_nil_r l) at 1. by rewrite leading_digits_ok. Qed.

Lemma strtod_shape p : shape_ok p -> strtod (str (shape_text p)) =
  f64_of_ratio (negative p) (scale_num 10 (shape_exponent p) (shape_digits p)) (scale_den 10 (shape_exponent p) 1).
Proof.
  intros [Hw Hn Hf He]. destruct p as [neg w f e]. cbn [whole_part fraction_part exponent_part] in *.
  unfold strtod. rewrite String.list_ascii_of_string_of_list_ascii.
  set (tail := point_part (mkShape neg w f e) ++ scale_part (mkShape neg w f e)).
  assert (leading_sign (shape_text (mkShape neg w f e)) = (neg, w ++ tail)) as ->.
  { unfold shape_text, sign_part. cbn [negative whole_part]. fold tail. destruct neg; [done|]. cbn [app]. by apply leading_sign_digits. }
  assert (no_digit tail) as Ht by (unfold tail, point_part, scale_part; cbn; by destruct f, e as [[[] ?]|]).
  rewrite leading_digits_ok by done. rewrite Z.mul_0_l, !Z.add_0_l. cbv beta iota.
  pose proof (size_nonneg w) as Hsw. assert (0 < size w) as Hsw2 by (destruct w; [done|rewrite size_cons; pose proof (size_nonneg w); lia]).
  assert (match tail with c :: l' => if is_char 46 c then leading_digits l' (digits_value w) 0 else (digits_value w, 0, tail) | [] => (digits_value w, 0, []) end =
    (digits_value (w ++ f), size f, scale_part (mkShape neg w f e))) as ->.
  { unfold tail, point_part. cbn [fraction_part]. destruct f as [|c f].
    - rewrite app_nil_r. unfold scale_part. cbn [exponent_part]. by destruct e as [[[] ?]|].
    - change (point_of (c :: f) ++ ?r) with (point :: (c :: f) ++ r). change (is_char 46 point) with true. cbn iota. rewrite leading_digits_ok; [|done|unfold scale_part; cbn; by destruct e as [[[] ?]|]].
      by rewrite digits_value_app. }
  pose proof (size_nonneg f). rewrite (proj2 (Z.eqb_neq (size w + size f) 0)) by lia.
  assert (match scale_part (mkShape neg w f e) with
    | c :: l' => if is_char 101 c || is_char 69 c then
        let '(down, l') := leading_sign l' in let '(e, _, _) := leading_digits l' 0 0 in if down : bool then - e else e else 0
    | [] => 0 end = shape_exponent (mkShape neg w f e) + size f) as ->.
  { unfold scale_part, shape_exponent. cbn [exponent_part fraction_part]. destruct e as [[down l]|]; [|lia].
    change (is_char 101 exponent_mark || is_char 69 exponent_mark) with true. cbn iota.
    assert (leading_sign ((if down then minus else plus) :: l) = (down, l)) as -> by by destruct down.
    rewrite leading_digits_all by done. destruct down; lia. }
  unfold shape_digits. cbn [whole_part fraction_part negative]. by replace (shape_exponent (mkShape neg w f e) + size f - size f) with (shape_exponent (mkShape neg w f e)) by lia.
Qed.

(** ** What is printed *)

Lemma chars_app s r : chars (s +:+ r) = chars s ++ chars r.
Proof. apply list_ascii_app. Qed.

Lemma chars_take n : forall s, chars (String.substring 0 n s) = take n (chars s).
Proof. induction n as [|n IH]; intros [|c s]; cbn; [done..|]. by rewrite IH. Qed.

Lemma chars_substring i n : forall s, chars (String.substring i n s) = take n (drop i (chars s)).
Proof.
  induction i as [|i IH]; intros s; [apply chars_take|]. destruct s as [|c s]; [cbn; by rewrite take_nil|]. apply IH.
Qed.

Lemma chars_zeros n : chars (zeros n) = replicate (Z.to_nat n) zero_char.
Proof. unfold zeros. apply String.list_ascii_of_string_of_list_ascii. Qed.

(** The digits behind the point, without the zeros at their end. *)
Definition stripped (l : list Ascii.ascii) : list Ascii.ascii := chars (strip_zeros (str l)).

Lemma with_fraction_text whole fraction :
  chars (with_fraction whole fraction) = chars whole ++ point_of (stripped (chars fraction)).
Proof.
  unfold with_fraction, stripped. rewrite String.string_of_list_ascii_of_string. case_bool_decide as H; [rewrite H; cbn; by rewrite app_nil_r|].
  rewrite !chars_app. destruct (strip_zeros fraction) as [|c s]; done.
Qed.

(** A shape from digits before and behind the point: the value does not see
    the zeros that are stripped. *)
Lemma stripped_shape neg w f e : is_digits w -> w <> [] -> is_digits f -> match e with None => True | Some (_, l) => is_digits l end ->
  let p := mkShape neg w (stripped f) e in
  shape_ok p /\ (exists k, 0 <= k /\ digits_value (w ++ f) = shape_digits p * 10 ^ k /\ size f = size (stripped f) + k) /\
  (stripped f = [] <-> digits_value f = 0).
Proof.
  intros Hw Hn Hf He p. destruct (strip_zeros_ok f Hf) as (k & Ef & Hs & Hz). fold (stripped f) in Ef, Hs, Hz. split; [by split|].
  split; [|done]. exists (Z.of_nat k). split; [lia|]. assert (size f = size (stripped f) + Z.of_nat k) as Esz.
  { rewrite Ef at 1. rewrite size_app. unfold size at 2. by rewrite length_replicate. }
  split; [|done]. unfold shape_digits. cbn [p whole_part fraction_part]. rewrite Ef at 1. rewrite app_assoc, digits_value_app, zeros_value, Z.add_0_r.
  unfold size. by rewrite length_replicate.
Qed.

Lemma pad_left_digits n v : 0 <= v -> is_digits (chars (pad_left n (to_string v))) /\ digits_value (chars (pad_left n (to_string v))) = v.
Proof.
  intros Hv. destruct (to_string_digits v Hv) as [Hd Hval]. unfold pad_left. rewrite chars_app, chars_zeros, digits_value_app, zeros_value, Hval. split; [|lia].
  apply Forall_app. split; [apply is_digits_zeros|done].
Qed.

(** The text of the digits [d] and the exponent [x], as a shape: the number
    they stand for, and when it has neither a point nor an exponent. *)
Definition printed (neg : bool) (d x : Z) (p : shape) : Prop :=
  shape_ok p /\ negative p = neg /\
  (exists k, 0 <= k /\ d = shape_digits p * 10 ^ k /\ shape_exponent p - k = x - 16) /\
  (shape_floating p = false <-> 0 <= x <= 16 /\ d mod 10 ^ (16 - x) = 0) /\
  (shape_floating p = false -> digits_value (whole_part p) = d / 10 ^ (16 - x)).

Definition body_text (d x : Z) : string :=
  let ds := to_string d in
  if (x <? -4) || (17 <=? x) then
    with_fraction (substr ds 0 1) (substr ds 1 16) +:+ "e" +:+ (if x <? 0 then "-" else "+") +:+ pad_left 2 (to_string (Z.abs x))
  else if x <? 0 then with_fraction "0" (zeros (- x - 1) +:+ ds)
  else with_fraction (substr ds 0 (x + 1)) (substr ds (x + 1) (16 - x)).

Lemma take_drop_value n l : is_digits l -> is_digits (take n l) /\ is_digits (drop n l) /\
  digits_value l = digits_value (take n l) * 10 ^ size (drop n l) + digits_value (drop n l).
Proof.
  intros Hl. rewrite <-(take_drop n l) in Hl. apply Forall_app in Hl as [H1 H2]. split; [done|]. split; [done|].
  by rewrite <-digits_value_app, take_drop.
Qed.

Definition exponent_value (e : option (bool * list Ascii.ascii)) : Z :=
  match e with None => 0 | Some (down, e) => if down : bool then - digits_value e else digits_value e end.

Lemma printed_parts neg w f e d x : is_digits w -> w <> [] -> is_digits f -> match e with None => True | Some (_, l) => is_digits l end ->
  0 < d -> d = digits_value (w ++ f) -> exponent_value e - size f = x - 16 ->
  match e with Some _ => ~ 0 <= x <= 16 | None => x < 0 -> digits_value w = 0 end ->
  printed neg d x (mkShape neg w (stripped f) e).
Proof.
  intros Hw Hn Hf He Hd Ed Ex Hx. destruct (stripped_shape neg w f e Hw Hn Hf He) as (Hok & (k & Hk & Ek & Esz) & Hz).
  split; [exact Hok|]. split; [done|]. split.
  { exists k. split; [done|]. split; [by rewrite <-Ek|]. unfold shape_exponent. cbn [exponent_part fraction_part]. fold (exponent_value e). lia. }
  unfold shape_floating. cbn [exponent_part fraction_part whole_part]. destruct e as [[down l]|].
  { rewrite (bool_decide_false (Some _ = None)), andb_false_r by done. split; [|done]. split; [done|]. intros [? _]. by destruct Hx. }
  cbn [exponent_value] in Ex. rewrite digits_value_app in Ed. pose proof (digits_value_range f Hf) as Hr. pose proof (size_nonneg f).
  replace (16 - x) with (size f) by lia. rewrite (bool_decide_true (None = None)), andb_true_r by done.
  assert (0 < 10 ^ size f) by (apply Z.pow_pos_nonneg; lia).
  assert (d mod 10 ^ size f = digits_value f) as Hm by (rewrite Ed, Z.add_comm, Z.mod_add by lia; by apply Z.mod_small).
  rewrite negb_false_iff, bool_decide_eq_true, Hz, Hm. split.
  - split; [|by intros [_ ?]]. intros Hf0. split; [|done]. destruct (Z.lt_ge_cases x 0) as [Hx0|]; [|lia]. rewrite (Hx Hx0), Hf0 in Ed. lia.
  - intros Hf0. rewrite Ed, Hf0, Z.add_0_r. symmetry. apply Z.div_mul. lia.
Qed.

Lemma body_shape neg d x : 10 ^ 16 <= d < 10 ^ 17 -> exists p, printed neg d x p /\
  (if neg then [minus] else []) ++ chars (body_text d x) = shape_text p.
Proof.
  intros Hd. pose proof (to_string_size d 16 ltac:(lia) Hd) as Hsz. destruct (to_string_digits d ltac:(lia)) as [Hdig Hval].
  set (ds := chars (to_string d)) in *. assert (length ds = 17%nat) as Hlen by (unfold size in Hsz; lia). unfold body_text. cbv zeta.
  assert (forall n m, (17 <= n + m)%nat -> chars (String.substring n m (to_string d)) = drop n ds) as Hdrop.
  { intros n m Hn. rewrite chars_substring. fold ds. rewrite take_ge; [done|]. rewrite length_drop. lia. }
  destruct ((x <? -4) || (17 <=? x)) eqn:Hx; [|destruct (Z.ltb_spec x 0) as [Hx0|Hx0]].
  - destruct (take_drop_value 1 ds Hdig) as (H1 & H2 & Hv). destruct (pad_left_digits 2 (Z.abs x) ltac:(lia)) as [H3 H4].
    set (e := chars (pad_left 2 (to_string (Z.abs x)))) in *. exists (mkShape neg (take 1 ds) (stripped (drop 1 ds)) (Some (x <? 0, e))). split.
    + apply printed_parts; try done; [by destruct ds|lia|by rewrite digits_value_app, <-Hv| |lia].
      cbn [exponent_value]. rewrite H4. unfold size. rewrite length_drop, Hlen. destruct (Z.ltb_spec x 0); lia.
    + rewrite !chars_app, with_fraction_text. unfold substr. rewrite (Hdrop (Z.to_nat 1) (Z.to_nat 16)) by lia. change (Z.to_nat 1) with 1%nat. change (Z.to_nat 0) with O.
      rewrite chars_take. fold ds e. unfold shape_text, sign_part, scale_part, point_part. cbn [negative whole_part fraction_part exponent_part].
      rewrite <-!app_assoc. by destruct (x <? 0).
  - exists (mkShape neg [zero_char] (stripped (replicate (Z.to_nat (- x - 1)) zero_char ++ ds)) None). split.
    + apply printed_parts; try done; [by repeat constructor|apply Forall_app; split; [apply is_digits_zeros|done]|lia| |].
      * rewrite !digits_value_app, zeros_value, Hval. change (digits_value [zero_char]) with 0. lia.
      * cbn [exponent_value]. rewrite size_app. unfold size. rewrite length_replicate, Hlen. lia.
    + rewrite with_fraction_text, chars_app, chars_zeros. fold ds. unfold shape_text, sign_part, scale_part, point_part.
      cbn [negative whole_part fraction_part exponent_part]. by rewrite app_nil_r.
  - destruct (take_drop_value (Z.to_nat (x + 1)) ds Hdig) as (H1 & H2 & Hv).
    exists (mkShape neg (take (Z.to_nat (x + 1)) ds) (stripped (drop (Z.to_nat (x + 1)) ds)) None). split.
    + apply printed_parts; try done; [|lia|by rewrite digits_value_app, <-Hv| |lia].
      * intros E. apply (f_equal length) in E. rewrite length_take, Hlen in E. cbn in E. lia.
      * cbn [exponent_value]. unfold size. rewrite length_drop, Hlen. lia.
    + rewrite with_fraction_text. unfold substr. rewrite (Hdrop (Z.to_nat (x + 1)) (Z.to_nat (16 - x))) by lia. change (Z.to_nat 0) with O. rewrite chars_take. fold ds.
      unfold shape_text, sign_part, scale_part, point_part. cbn [negative whole_part fraction_part exponent_part]. by rewrite app_nil_r.
Qed.

Lemma print_digits b : finite b -> 0 < f64_mantissa b ->
  print_g17 b = sign_text b +:+ body_text (decimal b).1 (decimal b).2.
Proof.
  intros [_ Hs] HM. unfold print_g17. rewrite Hs, (proj2 (Z.eqb_neq _ 0)) by lia. unfold body_text, decimal. cbv zeta.
  by destruct (_ =? 10 ^ 17).
Qed.

(** A finite double that is a whole number below 10 ^ 17 is printed without a
    point and an exponent, as the number; all others have one of them. *)
Lemma double_shape b : finite b -> exists p, chars (print_g17 b) = shape_text p /\ shape_ok p /\ negative p = (f64_sign b =? 1) /\
  (shape_floating p = false <-> f64_whole b = true /\ f64_floor b < 10 ^ 17) /\
  (shape_floating p = false -> digits_value (whole_part p) = f64_floor b) /\ strtod (print_g17 b) = b.
Proof.
  intros Hb. destruct (finite_parts b Hb) as (Eb & Hsign & HE & HM & _).
  assert (chars (sign_text b) = if f64_sign b =? 1 then [minus] else []) as Es by (unfold sign_text; by destruct (_ =? 1)).
  destruct (Z.eq_dec (f64_mantissa b) 0) as [H0|H0].
  - set (p := mkShape (f64_sign b =? 1) [zero_char] [] None). assert (shape_ok p) as Hok by (split; try done; [by repeat constructor|constructor]).
    assert (chars (print_g17 b) = shape_text p) as Et.
    { unfold print_g17. rewrite (proj2 Hb), H0, chars_app, Es. done. }
    assert (f64_num b = 0) as Hn by (unfold f64_num, scale_num; by rewrite H0).
    assert (f64_whole b = true /\ f64_floor b = 0) as [Hw Hf] by (unfold f64_whole, f64_floor; by rewrite Hn, Z.mod_0_l, Z.div_0_l by (pose proof (f64_den_pos b); lia)).
    exists p. rewrite Hw, Hf. split_and!; try done. rewrite <-(String.string_of_list_ascii_of_string (print_g17 b)), Et, strtod_shape by done.
    change (shape_digits p) with 0. unfold scale_num, f64_of_ratio. rewrite Z.mul_0_l. cbn [Z.eqb negative p].
    rewrite H0 in Eb. assert (f64_exponent b = -1074) as He.
    { destruct (finite_parts b Hb) as (_ & _ & _ & _ & [?|?]); [done|lia]. }
    rewrite He in Eb. destruct (Z.eqb_spec (f64_sign b) 1); lia.
  - destruct (decimal_near b Hb ltac:(lia)) as (_ & _ & _ & Hd). destruct (decimal_whole b Hb ltac:(lia)) as [Hw Hfl].
    destruct (body_shape (f64_sign b =? 1) (decimal b).1 (decimal b).2 Hd) as (p & (Hok & Hneg & (k & Hk & Ek & Ex) & Hfloat & Hwhole) & Et).
    assert (chars (print_g17 b) = shape_text p) as Et'.
    { rewrite print_digits, chars_app, Es by (done || lia). done. }
    exists p. split; [done|]. split; [done|]. split; [done|]. split; [by rewrite Hw|]. split.
    + intros Hf. rewrite (Hwhole Hf). symmetry. apply Hfloat, Hw in Hf as [? ?]. by apply Hfl.
    + rewrite <-(String.string_of_list_ascii_of_string (print_g17 b)), Et', strtod_shape, Hneg by done. by apply (decimal_strtod b _ _ k); [|lia|..].
Qed.

(** Seventeen digits name a double: reading what was printed gives the same
    bits, the sign of a zero and subnormal numbers included. *)
Theorem double_roundtrip b : finite b -> strtod (print_g17 b) = b.
Proof. intros Hb. by destruct (double_shape b Hb) as (p & _ & _ & _ & _ & _ & H). Qed.

Example double_texts :
  map print_g17 [4607182418800017408; 4591870180066957722; 4503599627370496 - 1; 9223372036854775808; 4906019910204099648] =
    ["1"; "0.10000000000000001"; "2.2250738585072009e-308"; "-0"; "1e+20"].
Proof. vm_compute. reflexivity. Qed.
