(* ===== verification/ProtoDefJson.v ===== *)
(** * JSON text of ProtoDef values (src/include/bedrock/protodef/ProtoDefJson.hpp)

    [ProtoDefJson::stringify] and the parser behind [ProtoDefJson::parse].  The
    parser's state is the text that it has not read.  An object is the list of
    its entries in the order of iteration; a new key goes to its end. *)

From S2P Require Import Prelude MachineInt FloatBits GamePacket Text FloatText ProtoDefData.

Abbreviation text := (list Ascii.ascii).
Abbreviation chars := String.list_ascii_of_string.
Abbreviation str := String.string_of_list_ascii.

Module ProtoDefJson.

Definition json_error (msg : string) : exn := RuntimeError ("ProtoDefJson " +:+ msg).

(** ** Printing *)

Definition hex_digit (v : Z) : Ascii.ascii := ascii_of_byte (if v <? 10 then 48 + v else 87 + v).

(** [digits[(b >> 4) & 0x0f]], [digits[b & 0x0f]] of every byte. *)
Fixpoint hex (bs : bytes) : text :=
  match bs with
  | [] => []
  | b :: bs' => hex_digit (Z.land (Z.shiftr b 4) 0x0f) :: hex_digit (Z.land b 0x0f) :: hex bs'
  end.

Definition byte_chars (l : bytes) : text := map ascii_of_byte l.

Definition quote_char (c : Ascii.ascii) : text :=
  let b := byte_of_ascii c in
  if b =? 34 then byte_chars [92; 34]
  else if b =? 92 then byte_chars [92; 92]
  else if b =? 8 then byte_chars [92; 98]
  else if b =? 12 then byte_chars [92; 102]
  else if b =? 10 then byte_chars [92; 110]
  else if b =? 13 then byte_chars [92; 114]
  else if b =? 9 then byte_chars [92; 116]
  else if b <? 32 then byte_chars [92; 117; 48; 48] ++ hex [b]
  else [c].

Definition quote_mark : Ascii.ascii := ascii_of_byte 34.
Definition quote (s : string) : text := quote_mark :: (chars s ≫= quote_char) ++ [quote_mark].

Definition signed_text (v : Z) : string := if v <? 0 then "-" +:+ to_string (- v) else to_string v.

(** [out += ","] between the parts. *)
Fixpoint comma_separated (parts : list text) : text :=
  match parts with
  | [] => []
  | [p] => p
  | p :: parts' => p ++ chars "," ++ comma_separated parts'
  end.

Definition bytes_key : string := "$bytes".

Fixpoint stringify (value : ProtoDefValue) : text :=
  match value with
  | Null => chars "null"
  | Bool v => chars (if v then "true" else "false")
  | Int v => chars (signed_text v)
  | UInt v => chars (to_string v)
  | Double v => chars (print_g17 v)
  | String_ v => quote v
  | Bytes v => chars "{" ++ quote bytes_key ++ chars ":" ++ quote (str (hex v)) ++ chars "}"
  | Array v => chars "[" ++ comma_separated (map stringify v) ++ chars "]"
  | Object v =>
      chars "{" ++ comma_separated (map (fun e => quote (fst e) ++ chars ":" ++ stringify (snd e)) v) ++ chars "}"
  end.

(** ** Parsing *)

Definition hexDigit (c : Ascii.ascii) : Z :=
  let b := byte_of_ascii c in
  if (48 <=? b) && (b <=? 57) then b - 48
  else if (97 <=? b) && (b <=? 102) then b - 97 + 10
  else if (65 <=? b) && (b <=? 70) then b - 65 + 10
  else -1.

Fixpoint unhex_loop (l : text) : result bytes :=
  match l with
  | h :: o :: l' =>
      let hi := hexDigit h in
      let lo := hexDigit o in
      if (hi <? 0) || (lo <? 0) then Throw (json_error "invalid bytes hex")
      else let! out := unhex_loop l' in Ok (to_u8 (Z.lor (Z.shiftl hi 4) lo) :: out)
  | _ => Ok []
  end.

Definition unhex (s : string) : result bytes :=
  if negb (size (chars s) mod 2 =? 0) then Throw (json_error "bytes hex length must be even")
  else unhex_loop (chars s).

Definition next_char (ended : exn) : M text Ascii.ascii :=
  let* l := get_st in
  match l with c :: l' => put_st l' ;;; ret c | [] => raise ended end.

Definition skipWhitespace : M text unit := let* l := get_st in put_st (skip_space l).

(** [input_.compare(pos_, s.size(), s) != 0]. *)
Definition parseLiteral (literal : string) (value : ProtoDefValue) : M text ProtoDefValue :=
  let* l := get_st in
  let n := length (chars literal) in
  if bool_decide (take n l = chars literal) then put_st (drop n l) ;;; ret value
  else raise (json_error "invalid literal").

Fixpoint span_digits (l : text) : text * text :=
  match l with
  | c :: l' => if is_digit c then let (a, b) := span_digits l' in (c :: a, b) else ([], l)
  | [] => ([], [])
  end.

(** The character at the front when it is one of these. *)
Definition span_char (codes : list Z) (l : text) : text * text :=
  match l with
  | c :: l' => if bool_decide (byte_of_ascii c ∈ codes) then ([c], l') else ([], l)
  | [] => ([], [])
  end.

(** What is only looked for after something else was there. *)
Definition span_after (found : text) (span : text -> text * text) (l : text) : text * text :=
  match found with [] => ([], l) | _ => span l end.

Definition number_value (floating : bool) (raw : text) : result ProtoDefValue :=
  if floating then Ok (Double (strtod (str raw)))
  else match raw with
       | c :: _ => if is_char 45 c then let! v := stoll (str raw) in Ok (Int v)
                   else let! v := stoull (str raw) in Ok (UInt v)
       | [] => let! v := stoull (str raw) in Ok (UInt v)
       end.

Definition parseNumber : M text ProtoDefValue :=
  let* l := get_st in
  let (sign, l) := span_char [45] l in
  let (whole, l) := span_digits l in
  let (point, l) := span_char [46] l in
  let (fraction, l) := span_after point span_digits l in
  let (e, l) := span_char [101; 69] l in
  let (esign, l) := span_after e (span_char [43; 45]) l in
  let (exponent, l) := span_after e span_digits l in
  put_st l ;;;
  let floating := match point, e with [], [] => false | _, _ => true end in
  lift (number_value floating (sign ++ whole ++ point ++ fraction ++ e ++ esign ++ exponent)).

Fixpoint hex_unit_loop (n : nat) (value : Z) : M text Z :=
  match n with
  | O => ret value
  | S n' =>
      let* c := next_char (json_error "incomplete unicode escape") in
      let digit := hexDigit c in
      if digit <? 0 then raise (json_error "invalid unicode escape")
      else hex_unit_loop n' (Z.lor (to_u32 (Z.shiftl value 4)) digit)
  end.

Definition parseHexCodeUnit : M text Z :=
  let* l := get_st in
  if size l <? 4 then raise (json_error "incomplete unicode escape") else hex_unit_loop 4 0.

Definition parseUnicodeEscape : M text Z :=
  let* first := parseHexCodeUnit in
  if (0xd800 <=? first) && (first <=? 0xdbff) then
    let* l := get_st in
    match l with
    | a :: b :: l' =>
        if negb (is_char 92 a) || negb (is_char 117 b) then raise (json_error "missing low surrogate")
        else
          put_st l' ;;;
          let* second := parseHexCodeUnit in
          if (second <? 0xdc00) || (0xdfff <? second) then raise (json_error "invalid low surrogate")
          else ret (0x10000 + Z.shiftl (first - 0xd800) 10 + (second - 0xdc00))
    | _ => raise (json_error "missing low surrogate")
    end
  else if (0xdc00 <=? first) && (first <=? 0xdfff) then raise (json_error "unexpected low surrogate")
  else ret first.

Definition appendUtf8 (value : Z) : result text :=
  let tail s := Z.lor 0x80 (Z.land (Z.shiftr value s) 0x3f) in
  if value <=? 0x7f then Ok (byte_chars [value])
  else if value <=? 0x7ff then Ok (byte_chars [Z.lor 0xc0 (Z.shiftr value 6); tail 0])
  else if value <=? 0xffff then Ok (byte_chars [Z.lor 0xe0 (Z.shiftr value 12); tail 6; tail 0])
  else if value <=? 0x10ffff then Ok (byte_chars [Z.lor 0xf0 (Z.shiftr value 18); tail 12; tail 6; tail 0])
  else Throw (json_error "unicode code point is out of range").

(** What an escape stands for. *)
Definition parse_escape : M text text :=
  let* e := next_char (json_error "invalid escape") in
  let b := byte_of_ascii e in
  if (b =? 34) || (b =? 92) || (b =? 47) then ret [e]
  else if b =? 98 then ret (byte_chars [8])
  else if b =? 102 then ret (byte_chars [12])
  else if b =? 110 then ret (byte_chars [10])
  else if b =? 114 then ret (byte_chars [13])
  else if b =? 116 then ret (byte_chars [9])
  else if b =? 117 then let* v := parseUnicodeEscape in lift (appendUtf8 v)
  else raise (json_error "unsupported escape").

Definition unterminated_string : exn := json_error "unterminated string".

Fixpoint string_loop (fuel : nat) (out : text) : M text string :=
  match fuel with
  | O => raise OutOfFuel
  | S fuel' =>
      let* c := next_char unterminated_string in
      if is_char 34 c then ret (str out)
      else if negb (is_char 92 c) then string_loop fuel' (out ++ [c])
      else let* e := parse_escape in string_loop fuel' (out ++ e)
  end.

(** The loop reads a character in every round. *)
Definition parseString : M text string :=
  let* l := get_st in
  match l with
  | c :: l' =>
      if negb (is_char 34 c) then raise (json_error "expected string")
      else put_st l' ;;; string_loop (S (length l')) []
  | [] => raise (json_error "expected string")
  end.

(** [object[key] = value]. *)
Fixpoint set_entry {V} (key : string) (value : V) (entries : list (string * V)) : list (string * V) :=
  match entries with
  | [] => [(key, value)]
  | (k, v) :: rest => if bool_decide (k = key) then (key, value) :: rest else (k, v) :: set_entry key value rest
  end.

Definition close_object (entries : list (string * ProtoDefValue)) : result ProtoDefValue :=
  match entries with
  | [(k, String_ s)] =>
      if bool_decide (k = bytes_key) then let! b := unhex s in Ok (Bytes b) else Ok (Object entries)
  | _ => Ok (Object entries)
  end.

(** Whether the character at the front is this one. *)
Definition looking_at (code : Z) : M text bool :=
  let* l := get_st in
  match l with c :: _ => ret (is_char code c) | [] => ret false end.

Fixpoint parseValue (fuel : nat) : M text ProtoDefValue :=
  match fuel with
  | O => raise OutOfFuel
  | S fuel' =>
      skipWhitespace ;;;
      let* l := get_st in
      match l with
      | [] => raise (json_error "unexpected end")
      | c :: l' =>
          if is_char 34 c then let* s := parseString in ret (String_ s)
          else if is_char 123 c then
            put_st l' ;;;
            skipWhitespace ;;;
            let* closed := looking_at 125 in
            if closed : bool then let* _ := next_char OutOfFuel in ret (Object []) else object_loop fuel' []
          else if is_char 91 c then
            put_st l' ;;;
            skipWhitespace ;;;
            let* closed := looking_at 93 in
            if closed : bool then let* _ := next_char OutOfFuel in ret (Array []) else array_loop fuel' []
          else if is_char 116 c then parseLiteral "true" (Bool true)
          else if is_char 102 c then parseLiteral "false" (Bool false)
          else if is_char 110 c then parseLiteral "null" Null
          else if is_char 45 c || is_digit c then parseNumber
          else raise (json_error "unexpected character")
      end
  end
with array_loop (fuel : nat) (values : list ProtoDefValue) : M text ProtoDefValue :=
  match fuel with
  | O => raise OutOfFuel
  | S fuel' =>
      let* v := parseValue fuel' in
      skipWhitespace ;;;
      let* c := next_char (json_error "unterminated array") in
      if is_char 93 c then ret (Array (values ++ [v]))
      else if negb (is_char 44 c) then raise (json_error "expected comma")
      else array_loop fuel' (values ++ [v])
  end
with object_loop (fuel : nat) (object : list (string * ProtoDefValue)) : M text ProtoDefValue :=
  match fuel with
  | O => raise OutOfFuel
  | S fuel' =>
      skipWhitespace ;;;
      let* key := parseString in
      skipWhitespace ;;;
      let* c := next_char (json_error "expected colon") in
      if negb (is_char 58 c) then raise (json_error "expected colon")
      else
        let* v := parseValue fuel' in
        skipWhitespace ;;;
        let* c := next_char (json_error "unterminated object") in
        let object := set_entry key v object in
        if is_char 125 c then lift (close_object object)
        else if negb (is_char 44 c) then raise (json_error "expected comma")
        else object_loop fuel' object
  end.

(** Two units of fuel for every character of the text, and one. *)
Definition parse_fuel (l : text) : nat := S (2 * length l).

Definition parse (json : string) : result ProtoDefValue :=
  match (let* value := parseValue (parse_fuel (chars json)) in skipWhitespace ;;; ret value) (chars json) with
  | (Ok value, []) => Ok value
  | (Ok _, _ :: _) => Throw (json_error "trailing characters")
  | (Throw e, _) => Throw e
  end.

End ProtoDefJson.

(** [protoDefValueToJson] and [protoDefValueFromJson]. *)
Definition protoDefValueToJson (value : ProtoDefValue) : string := str (ProtoDefJson.stringify value).
Definition protoDefValueFromJson (json : string) : result ProtoDefValue := ProtoDefJson.parse json.

Import ProtoDefJson.

(** ** Values *)

Section Induction.
Context (P : ProtoDefValue -> Prop).
Context (HNull : P Null) (HBool : forall v, P (Bool v)) (HInt : forall v, P (Int v)) (HUInt : forall v, P (UInt v)).
Context (HDouble : forall v, P (Double v)) (HString : forall v, P (String_ v)) (HBytes : forall v, P (Bytes v)).
Context (HObject : forall v, Forall (fun e => P (snd e)) v -> P (Object v)).
Context (HArray : forall v, Forall P v -> P (Array v)).

Fixpoint value_induction (v : ProtoDefValue) : P v :=
  match v with
  | Null => HNull | Bool v => HBool v | Int v => HInt v | UInt v => HUInt v
  | Double v => HDouble v | String_ v => HString v | Bytes v => HBytes v
  | Object v => HObject v ((fix go l : Forall (fun e => P (snd e)) l :=
      match l with [] => List.Forall_nil _ | e :: l' => List.Forall_cons _ _ _ (value_induction (snd e)) (go l') end) v)
  | Array v => HArray v ((fix go l : Forall P l :=
      match l with [] => List.Forall_nil _ | e :: l' => List.Forall_cons _ _ _ (value_induction e) (go l') end) v)
  end.
End Induction.

(** ** Shared lemmas *)

Lemma str_chars s : str (chars s) = s.
Proof. apply String.string_of_list_ascii_of_string. Qed.
Lemma chars_str l : chars (str l) = l.
Proof. apply String.list_ascii_of_string_of_list_ascii. Qed.

Lemma number_text v : exists c l, chars (to_string v) = c :: l /\ is_digit c = true /\
  Forall (fun c => is_digit c = true) (chars (to_string v)).
Proof.
  unfold to_string. destruct (pretty_first (Z.to_N v)) as (c & s & E & Hc).
  exists c, (chars s). split; [by rewrite E|]. split; [done|apply pretty_digits].
Qed.

Lemma set_entry_new {V} k (v : V) l : k ∉ map fst l -> set_entry k v l = l ++ [(k, v)].
Proof.
  induction l as [|[k' v'] l IH]; cbn [map fst set_entry]; [done|]. rewrite not_elem_of_cons. intros [H1 H2].
  rewrite bool_decide_false by congruence. by rewrite IH.
Qed.

(** ** The parser ends, on every text *)

Definition shrinks {A} (m : M text A) (l : text) : Prop := runs_safe m l (fun _ l' => (length l' < length l)%nat).
Definition keeps_length {A} (m : M text A) (l : text) : Prop := runs_safe m l (fun _ l' => (length l' <= length l)%nat).

Lemma bind_get_safe {A} (k : text -> M text A) l Q : runs_safe (bind get_st k) l Q = runs_safe (k l) l Q.
Proof. done. Qed.
Lemma bind_put_safe {A} (k : unit -> M text A) l l' Q : runs_safe (bind (put_st l') k) l Q = runs_safe (k tt) l' Q.
Proof. done. Qed.

Lemma next_char_shrinks e l : is_stuck e = false -> shrinks (next_char e) l.
Proof. intros He. destruct l as [|c l]; [done|]. cbn in *; lia. Qed.

Lemma skip_space_length l : (length (skip_space l) <= length l)%nat.
Proof. induction l as [|c l IH]; cbn; [lia|]. destruct (is_space c); cbn; (cbn in *; lia). Qed.

Lemma skip_keeps l : keeps_length skipWhitespace l.
Proof. apply skip_space_length. Qed.

Lemma hex_unit_keeps n : forall v l, keeps_length (hex_unit_loop n v) l.
Proof.
  induction n as [|n IH]; intros v l; [apply le_n|]. unfold keeps_length. cbn [hex_unit_loop].
  eapply runs_safe_bind; [by apply next_char_shrinks|]. intros c l' Hl. destruct (_ <? 0); [done|].
  eapply runs_safe_mono; [apply IH|]. cbn in *; lia.
Qed.

Lemma parseHexCodeUnit_keeps l : keeps_length parseHexCodeUnit l.
Proof.
  unfold keeps_length, parseHexCodeUnit. rewrite bind_get_safe. destruct (_ <? 4); [done|]. apply hex_unit_keeps.
Qed.

Lemma parseUnicodeEscape_keeps l : keeps_length parseUnicodeEscape l.
Proof.
  unfold keeps_length, parseUnicodeEscape. eapply runs_safe_bind; [apply parseHexCodeUnit_keeps|].
  intros v l1 H1. cbn in H1. destruct (_ && _); [|destruct (_ && _); [done|apply runs_safe_ret; cbn in *; lia]].
  rewrite bind_get_safe.
  destruct l1 as [|a [|b l2]]; [done..|]. destruct (_ || _); [done|].
  rewrite bind_put_safe.
  eapply runs_safe_bind; [apply parseHexCodeUnit_keeps|]. intros w l3 H3. cbn in H3. destruct (_ || _); [done|].
  apply runs_safe_ret. cbn in H1, H3. (cbn in *; lia).
Qed.

Lemma appendUtf8_safe v : safe (appendUtf8 v).
Proof. unfold appendUtf8. by repeat (destruct (_ <=? _); [done|]). Qed.

Lemma parse_escape_keeps l : keeps_length parse_escape l.
Proof.
  unfold keeps_length, parse_escape. eapply runs_safe_bind; [by apply next_char_shrinks|]. intros e l1 H1. cbn in H1.
  assert (forall t : text, runs_safe (ret t) l1 (fun _ l' => (length l' <= length l)%nat)) as Hr.
  { intros t. apply runs_safe_ret. (cbn in *; lia). }
  destruct (_ || _); [apply Hr|]. do 5 (destruct (_ =? _); [apply Hr|]). destruct (_ =? _); [|done].
  eapply runs_safe_bind; [apply parseUnicodeEscape_keeps|]. intros v l2 H2. cbn in H2.
  apply runs_safe_lift; [apply appendUtf8_safe|]. intros _ _. (cbn in *; lia).
Qed.

Lemma string_loop_keeps fuel : forall out l, (length l < fuel)%nat -> keeps_length (string_loop fuel out) l.
Proof.
  induction fuel as [|fuel IH]; intros out l Hf; [lia|]. unfold keeps_length. cbn [string_loop].
  eapply runs_safe_bind; [by apply next_char_shrinks|]. intros c l1 H1. cbn in H1.
  destruct (is_char 34 c); [apply runs_safe_ret; lia|]. destruct (negb _).
  - eapply runs_safe_mono; [apply IH; lia|]. cbn in *; lia.
  - eapply runs_safe_bind; [apply parse_escape_keeps|]. intros e l2 H2. cbn in H2.
    eapply runs_safe_mono; [apply IH; lia|]. cbn in *; lia.
Qed.

Lemma parseString_shrinks l : shrinks parseString l.
Proof.
  unfold shrinks, parseString. rewrite bind_get_safe.
  destruct l as [|c l]; [done|]. destruct (negb _); [done|].
  rewrite bind_put_safe.
  eapply runs_safe_mono; [apply string_loop_keeps; lia|]. cbn in *; lia.
Qed.

Lemma parseLiteral_shrinks c s v l : shrinks (parseLiteral (String c s) v) l.
Proof.
  unfold shrinks, parseLiteral. rewrite bind_get_safe.
  case_bool_decide as H; [|done]. rewrite bind_put_safe.
  apply runs_safe_ret. rewrite length_drop. destruct l; [done|]. cbn in *; lia.
Qed.

Definition spans (f : text -> text * text) : Prop := forall l, (length (f l).2 <= length l)%nat.

Lemma spans_digits : spans span_digits.
Proof. intros l. induction l as [|c l IH]; cbn; [lia|]. destruct (is_digit c); [destruct (span_digits l); cbn in *; lia|cbn; lia]. Qed.
Lemma spans_char codes : spans (span_char codes).
Proof. intros [|c l]; cbn; [lia|]. case_bool_decide; cbn; lia. Qed.
Lemma spans_after found f : spans f -> spans (span_after found f).
Proof. intros H l. destruct found; [cbn; lia|apply H]. Qed.

Lemma let_span {A} f l (k : text -> text -> M text A) s Q : spans f ->
  (forall a b, (length b <= length l)%nat -> runs_safe (k a b) s Q) ->
  runs_safe (let (a, b) := f l in k a b) s Q.
Proof. intros Hf Hk. specialize (Hf l). destruct (f l) as [a b]. by apply Hk. Qed.

Lemma number_value_safe f raw : safe (number_value f raw).
Proof.
  assert (forall s, safe (stoll s)) as H1.
  { intros s. unfold stoll. destruct (number_of s) as [[[] v]|]; cbn; [by case_bool_decide..|done]. }
  assert (forall s, safe (stoull s)) as H2.
  { intros s. unfold stoull. destruct (number_of s) as [[[] v]|]; cbn; [by destruct (_ <? _)..|done]. }
  unfold number_value. destruct f; [done|]. destruct raw as [|c raw]; [|destruct (is_char 45 c)];
    by apply rbind_safe; [apply H1 || apply H2|].
Qed.

Lemma parseNumber_shrinks c l : is_char 45 c || is_digit c = true -> shrinks parseNumber (c :: l).
Proof.
  intros Hc. unfold shrinks, parseNumber. rewrite bind_get_safe.
  assert (forall sign whole k, (length k <= length l)%nat -> runs_safe (
    let (point, l) := span_char [46] k in
    let (fraction, l) := span_after point span_digits l in
    let (e, l) := span_char [101; 69] l in
    let (esign, l) := span_after e (span_char [43; 45]) l in
    let (exponent, l) := span_after e span_digits l in
    put_st l ;;;
    let floating := match point, e with [], [] => false | _, _ => true end in
    lift (number_value floating (sign ++ whole ++ point ++ fraction ++ e ++ esign ++ exponent))) (c :: l)
    (fun _ l' => (length l' < length (c :: l))%nat)) as H.
  { intros sign whole k Hk. repeat (apply let_span; [auto using spans_digits, spans_char, spans_after|]; intros ? ? ?).
    rewrite bind_put_safe. apply runs_safe_lift; [apply number_value_safe|]. intros _ _. cbn in *; lia. }
  unfold span_char at 1. case_bool_decide as H45.
  - apply let_span; [apply spans_digits|]. intros whole k Hk. by apply H.
  - cbn [span_digits]. replace (is_digit c) with true; [|].
    + pose proof (spans_digits l) as Hl. destruct (span_digits l) as [whole k]. by apply H.
    + symmetry. apply orb_true_iff in Hc as [Hc|Hc]; [|done]. unfold is_char in Hc. apply Z.eqb_eq in Hc.
      destruct H45. by rewrite Hc; left.
Qed.

Lemma close_object_safe es : safe (close_object es).
Proof.
  assert (forall l, safe (unhex_loop l)) as H.
  { fix IH 1. intros [|h [|o l]]; [done..|]. cbn. destruct (_ || _); [done|]. by apply rbind_safe; [apply IH|]. }
  destruct es as [|[k v] [|e es]]; [done| |by destruct v]. destruct v; try done. cbn. case_bool_decide; [|done].
  apply rbind_safe; [|done]. unfold unhex. destruct (negb _); [done|apply H].
Qed.

Lemma parser_shrinks fuel :
  (forall l, (2 * length l < fuel)%nat -> shrinks (parseValue fuel) l) /\
  (forall vs l, (2 * length l + 1 < fuel)%nat -> shrinks (array_loop fuel vs) l) /\
  (forall es l, (2 * length l + 1 < fuel)%nat -> shrinks (object_loop fuel es) l).
Proof.
  induction fuel as [|fuel (IHv & IHa & IHo)]; [split_and!; intros; lia|].
  assert (forall (A : Type) (m : M text A) (l k : text), shrinks m k -> (length k <= length l)%nat ->
    runs_safe m k (fun _ l' => (length l' < length l)%nat)) as Hw.
  { intros A m l k Hm Hk. eapply runs_safe_mono; [apply Hm|]. cbn. lia. }
  assert (forall v code (m : M text ProtoDefValue) (l k k0 : text), (length k < length l)%nat ->
    (forall k', (length k' <= length k)%nat -> shrinks m k') ->
    runs_safe (put_st k ;;; skipWhitespace ;;; let* closed := looking_at code in
      if closed : bool then let* _ := next_char OutOfFuel in ret v else m) k0 (fun _ l' => (length l' < length l)%nat)) as Hopen.
  { intros v code m l k k0 Hk Hm. rewrite bind_put_safe. eapply runs_safe_bind; [apply skip_keeps|]. intros [] k1 H1. cbn in H1.
    assert (looking_at code k1 = (Ok (match k1 with c :: _ => is_char code c | [] => false end), k1)) as E by by destruct k1.
    unfold runs_safe. rewrite (bind_ok _ _ _ _ _ E). fold (runs_safe (if match k1 with c :: _ => is_char code c | [] => false end
      then let* _ := next_char OutOfFuel in ret v else m) k1 (fun _ l' => (length l' < length l)%nat)).
    destruct k1 as [|c k1]; [apply Hw; [apply Hm|]; cbn in *; lia|].
    destruct (is_char code c); [apply runs_safe_ret; cbn in *; lia|]. apply Hw; [apply Hm|]; cbn in *; lia. }
  split_and!.
  - intros l Hf. unfold shrinks. cbn [parseValue]. eapply runs_safe_bind; [apply skip_keeps|]. intros [] k0 Hk.
    rewrite bind_get_safe. destruct k0 as [|c k]; [done|]. cbn in Hk.
    destruct (is_char 34 c); [|destruct (is_char 123 c); [|destruct (is_char 91 c)]].
    + eapply runs_safe_bind; [apply Hw; [apply parseString_shrinks|exact Hk]|]. intros s l1 H1. cbn in H1. by apply runs_safe_ret.
    + apply Hopen; [lia|]. intros k' Hk'. apply IHo. lia.
    + apply Hopen; [lia|]. intros k' Hk'. apply IHa. lia.
    + do 3 (destruct (is_char _ c); [apply Hw; [apply parseLiteral_shrinks|exact Hk]|]).
      destruct (_ || _) eqn:E; [|done]. apply Hw; [by apply parseNumber_shrinks|exact Hk].
  - intros vs l Hf. unfold shrinks. cbn [array_loop]. eapply runs_safe_bind; [apply IHv; lia|]. intros v l1 H1. cbn in H1.
    eapply runs_safe_bind; [apply skip_keeps|]. intros [] l2 H2. cbn in H2.
    eapply runs_safe_bind; [by apply next_char_shrinks|]. intros c l3 H3. cbn in H3.
    destruct (is_char 93 c); [apply runs_safe_ret; lia|]. destruct (negb _); [done|]. apply Hw; [apply IHa; lia|lia].
  - intros es l Hf. unfold shrinks. cbn [object_loop].
    eapply runs_safe_bind; [apply skip_keeps|]. intros [] l1 H1. cbn in H1.
    eapply runs_safe_bind; [apply parseString_shrinks|]. intros key l2 H2. cbn in H2.
    eapply runs_safe_bind; [apply skip_keeps|]. intros [] l3 H3. cbn in H3.
    eapply runs_safe_bind; [by apply next_char_shrinks|]. intros c l4 H4. cbn in H4. destruct (negb _); [done|].
    eapply runs_safe_bind; [apply IHv; lia|]. intros v l5 H5. cbn in H5.
    eapply runs_safe_bind; [apply skip_keeps|]. intros [] l6 H6. cbn in H6.
    eapply runs_safe_bind; [by apply next_char_shrinks|]. intros d l7 H7. cbn in H7.
    destruct (is_char 125 d); [apply runs_safe_lift; [apply close_object_safe|]; intros _ _; lia|].
    destruct (negb _); [done|]. apply Hw; [apply IHo; lia|lia].
Qed.

(** C32: the parser ends on every text within its bound of two steps for each
    character and one: it returns a value or throws one of its exceptions. *)
Theorem json_parse_safe s : safe (protoDefValueFromJson s).
Proof.
  unfold protoDefValueFromJson, parse.
  destruct (parser_shrinks (parse_fuel (chars s))) as (H & _ & _).
  assert (runs_safe (let* v := parseValue (parse_fuel (chars s)) in skipWhitespace ;;; ret v) (chars s) (fun _ _ => True)) as Hr.
  { eapply runs_safe_bind; [apply H; unfold parse_fuel; lia|]. intros v l _.
    eapply runs_safe_bind; [apply skip_keeps|]. done. }
  unfold runs_safe in Hr. by destruct (bind _ _ _) as [[v|e] [|c l]].
Qed.
