(* ===== verification/JsonRoundtrip.v ===== *)
(** * JSON text of ProtoDef values: what is printed is parsed back

    Numbers, doubles among them, strings, byte arrays, arrays and objects. *)

From S2P Require Import Prelude MachineInt FloatBits GamePacket Text FloatText FloatRoundtrip ProtoDefData ProtoDefJson.

Import ProtoDefJson.

(** The values whose text can be read back: integers of their width, doubles
    that are finite (the others are printed as inf and nan, which is not JSON),
    bytes, and objects with distinct keys that are not the public form of
    bytes, the one key $bytes with a string. *)
Fixpoint json_ok (v : ProtoDefValue) : Prop :=
  match v with
  | Null | Bool _ | String_ _ => True
  | Int v => is_s 64 v
  | UInt v => is_u 64 v
  | Double v => finite v
  | Bytes v => is_bytes v
  | Object v =>
      base.NoDup (map fst v) /\ (forall s, v <> [(bytes_key, String_ s)]) /\
      foldr (fun e P => json_ok (snd e) /\ P) True v
  | Array v => foldr (fun e P => json_ok e /\ P) True v
  end.

(** Integers come back by their sign, and a double that is a whole number below
    10 ^ 17 comes back as an integer, since it is printed without a point: a
    signed one when it has the sign, also for minus zero. *)
Fixpoint canonical (v : ProtoDefValue) : ProtoDefValue :=
  match v with
  | Int v => if v <? 0 then Int v else UInt v
  | Double v =>
      if f64_whole v && (f64_floor v <? 10 ^ 17) then
        if f64_sign v =? 1 then Int (- f64_floor v) else UInt (f64_floor v)
      else Double v
  | Object v => Object (map (fun e => (fst e, canonical (snd e))) v)
  | Array v => Array (map canonical v)
  | _ => v
  end.

(** ** Reading back what was printed *)

Definition delimited (r : text) : Prop :=
  match r with [] => True | c :: _ => byte_of_ascii c = 44 \/ byte_of_ascii c = 93 \/ byte_of_ascii c = 125 end.

Lemma hex_unit_ready a b c d r : parseHexCodeUnit (a :: b :: c :: d :: r) = hex_unit_loop 4 0 (a :: b :: c :: d :: r).
Proof.
  unfold parseHexCodeUnit. rewrite bind_get. rewrite (proj2 (Z.ltb_ge _ _)); [done|].
  rewrite !size_cons. pose proof (size_nonneg r). lia.
Qed.

Lemma unicode_small k r v : parseHexCodeUnit k = (Ok v, r) -> (v <? 32) = true -> parseUnicodeEscape k = (Ok v, r).
Proof.
  intros H Hv. apply Z.ltb_lt in Hv. unfold parseUnicodeEscape. rewrite (bind_ok _ _ _ _ _ H).
  rewrite !(proj2 (Z.leb_gt _ v)) by lia. done.
Qed.

Lemma escape_unit h o v r : hex_unit_loop 4 0 (byte_chars [48; 48] ++ h :: o :: r) = (Ok v, r) ->
  (v <? 32) = true -> parse_escape (byte_chars [117; 48; 48] ++ h :: o :: r) = (Ok (byte_chars [v]), r).
Proof.
  intros H Hv. change (parse_escape _) with
    ((let* v := parseUnicodeEscape in lift (appendUtf8 v)) (byte_chars [48; 48] ++ h :: o :: r)).
  rewrite (bind_ok _ _ _ _ _ (unicode_small _ _ _ (eq_trans (hex_unit_ready _ _ _ _ _) H) Hv)).
  unfold lift, appendUtf8. apply Z.ltb_lt in Hv. by rewrite (proj2 (Z.leb_le _ _)) by lia.
Qed.

Lemma string_loop_escape fuel out r c r' : parse_escape r = (Ok c, r') ->
  string_loop (S fuel) out (ascii_of_byte 92 :: r) = string_loop fuel (out ++ c) r'.
Proof.
  intros H. cbn [string_loop]. unfold bind at 1, next_char, bind, get_st, put_st, ret.
  change (is_char 34 (ascii_of_byte 92)) with false. change (is_char 92 (ascii_of_byte 92)) with true.
  cbn [negb]. by rewrite H.
Qed.

Lemma string_loop_char fuel out c r :
  string_loop (S fuel) out (quote_char c ++ r) = string_loop fuel (out ++ [c]) r.
Proof.
  destruct c as [[] [] [] [] [] [] [] []]; try reflexivity;
    apply string_loop_escape;
    (match goal with |- context [Ok [?c]] => refine (escape_unit _ _ (byte_of_ascii c) r _ _) end); reflexivity.
Qed.

Lemma quote_char_nonempty c : exists d l, quote_char c = d :: l.
Proof. unfold quote_char, byte_chars. repeat (destruct (_ =? _); [cbn; by eexists _, _|]). destruct (_ <? _); by eexists _, _. Qed.

Lemma string_loop_ok l : forall fuel out r, (length (l ≫= quote_char) < fuel)%nat ->
  string_loop fuel out ((l ≫= quote_char) ++ quote_mark :: r) = (Ok (str (out ++ l)), r).
Proof.
  induction l as [|c l IH]; intros [|fuel] out r H; try (exfalso; cbn in H; lia).
  - cbn. by rewrite app_nil_r.
  - rewrite bind_cons, <-app_assoc, string_loop_char, IH.
    + by rewrite <-app_assoc.
    + rewrite bind_cons, length_app in H. destruct (quote_char_nonempty c) as (d & k & E).
      rewrite E in H. cbn in H. lia.
Qed.

Lemma parseString_ok s r : parseString (quote s ++ r) = (Ok s, r).
Proof.
  change (quote s ++ r) with (quote_mark :: ((chars s ≫= quote_char) ++ [quote_mark]) ++ r).
  rewrite <-app_assoc. cbn [app]. unfold parseString, bind, get_st, put_st.
  change (is_char 34 quote_mark) with true. cbn [negb].
  rewrite string_loop_ok by (rewrite length_app; cbn; lia). cbn [app]. by rewrite str_chars.
Qed.

(** Numbers. *)
Lemma span_digits_ok l r : Forall (fun c => is_digit c = true) l ->
  match r with c :: _ => is_digit c = false | [] => True end -> span_digits (l ++ r) = (l, r).
Proof.
  intros Hl Hr. induction Hl as [|c l Hc _ IH]; cbn [app span_digits].
  - destruct r as [|c r]; cbn; [done|]. by rewrite Hr.
  - by rewrite Hc, IH.
Qed.

Lemma delimited_head r c : delimited (c :: r) -> is_digit c = false /\ (byte_of_ascii c ∈ [46] -> False) /\
  (byte_of_ascii c ∈ [101; 69] -> False).
Proof. unfold delimited, is_digit. intros H. split; [lia|]. rewrite !elem_of_cons, !elem_of_nil. lia. Qed.

Lemma digit_codes c : is_digit c = true -> 48 <= byte_of_ascii c <= 57.
Proof. unfold is_digit. lia. Qed.

Lemma span_char_other codes c l : (byte_of_ascii c ∈ codes -> False) -> span_char codes (c :: l) = ([], c :: l).
Proof. intros H. cbn. by rewrite bool_decide_false. Qed.

Lemma span_char_delimited r codes : delimited r -> codes = [46] \/ codes = [101; 69] -> span_char codes r = ([], r).
Proof.
  intros Hr Hc. destruct r as [|c r]; [done|]. apply span_char_other.
  destruct (delimited_head r c Hr) as (_ & H1 & H2). by destruct Hc as [-> | ->].
Qed.

(** The digits of a number, after an optional minus sign. *)
Lemma parseNumber_digits sign l r : sign = [] \/ sign = chars "-" -> Forall (fun c => is_digit c = true) l -> l <> [] ->
  delimited r -> parseNumber (sign ++ l ++ r) = (number_value false (sign ++ l), r).
Proof.
  intros Hs Hl Hn Hr. destruct l as [|d l]; [done|].
  assert (Hd := digit_codes d ltac:(by inversion Hl)).
  assert (span_char [45] (sign ++ (d :: l) ++ r) = (sign, (d :: l) ++ r)) as E.
  { destruct Hs as [-> | ->]; [|done]. apply span_char_other. rewrite elem_of_cons, elem_of_nil. lia. }
  unfold parseNumber. rewrite bind_get, E, span_digits_ok; [|done|].
  2:{ destruct r as [|c r]; [done|]. by apply (delimited_head r). }
  rewrite span_char_delimited by (by left || done). cbn [span_after]. rewrite span_char_delimited by (by right || done).
  cbn [span_after app]. by rewrite !app_nil_r.
Qed.

Lemma parseNumber_unsigned v r : is_u 64 v -> delimited r ->
  parseNumber (chars (to_string v) ++ r) = (Ok (UInt v), r).
Proof.
  intros Hv Hr. destruct (number_text v) as (c & l & E & Hc & Hl).
  pose proof (parseNumber_digits [] (chars (to_string v)) r) as H. cbn [app] in H.
  rewrite H by (by left || done || by rewrite E).
  unfold number_value. rewrite E. apply digit_codes in Hc. unfold is_char.
  rewrite (proj2 (Z.eqb_neq _ 45)) by lia. rewrite <-E, str_chars. by rewrite stoull_to_string.
Qed.

Lemma parseNumber_negative v r : v < 0 -> is_s 64 v -> delimited r ->
  parseNumber (chars ("-" +:+ to_string (- v)) ++ r) = (Ok (Int v), r).
Proof.
  intros H0 Hv Hr. destruct (number_text (- v)) as (c & l & E & Hc & Hl).
  pose proof (parseNumber_digits (chars "-") (chars (to_string (- v))) r) as H.
  rewrite list_ascii_app, <-app_assoc. rewrite H by (by right || done || by rewrite E).
  change (number_value false (chars "-" ++ chars (to_string (- v)))) with
    (let! w := stoll (str (chars "-" ++ chars (to_string (- v)))) in Ok (Int w)).
  rewrite <-list_ascii_app, str_chars, stoll_negative by (lia || by rewrite Z.opp_involutive).
  cbn [rbind]. by rewrite Z.opp_involutive.
Qed.

(** A number with everything that a number can have. *)
Lemma delimited_no_digit r : delimited r -> no_digit r.
Proof. destruct r as [|c r]; [done|]. intros H. by apply (delimited_head r c). Qed.

Lemma parseNumber_shape p r : shape_ok p -> delimited r ->
  parseNumber (shape_text p ++ r) = (number_value (shape_floating p) (shape_text p), r).
Proof.
  intros [Hw Hn Hf He] Hr. destruct p as [neg w f e]. cbn [whole_part fraction_part exponent_part] in *.
  unfold shape_text, sign_part, point_part, scale_part. cbn [negative whole_part fraction_part exponent_part]. rewrite <-!app_assoc.
  set (tail := match e with None => [] | Some (down, e) => exponent_mark :: (if down : bool then minus else plus) :: e end).
  assert (no_digit (tail ++ r)) as Ht by (unfold tail; destruct e as [[[] ?]|]; [done|done|by apply delimited_no_digit]).
  assert (span_char [45] ((if neg then [minus] else []) ++ w ++ point_of f ++ tail ++ r) = (if neg then [minus] else [], w ++ point_of f ++ tail ++ r)) as E1.
  { destruct neg; [done|]. destruct Hw as [|d w Hd _]; [done|]. apply digit_codes in Hd. apply span_char_other. rewrite elem_of_cons, elem_of_nil. lia. }
  assert (span_digits (w ++ point_of f ++ tail ++ r) = (w, point_of f ++ tail ++ r)) as E2 by (apply span_digits_ok; [done|by destruct f]).
  unfold parseNumber. rewrite bind_get, E1, E2. clear E1 E2.
  assert (exists dot, span_char [46] (point_of f ++ tail ++ r) = (dot, f ++ tail ++ r) /\ span_after dot span_digits (f ++ tail ++ r) = (f, tail ++ r) /\
    dot ++ f = point_of f /\ (dot = [] <-> f = [])) as (dot & -> & -> & Edot & Hdot).
  { destruct f as [|c f].
    - exists []. split_and!; try done. unfold tail. destruct e as [[down l]|]; [done|]. apply span_char_delimited; [done|by left].
    - exists [point]. split_and!; try done. by apply span_digits_ok. }
  assert (exists mark sgn l, span_char [101; 69] (tail ++ r) = (mark, sgn ++ l ++ r) /\ span_after mark (span_char [43; 45]) (sgn ++ l ++ r) = (sgn, l ++ r) /\
    span_after mark span_digits (l ++ r) = (l, r) /\ mark ++ sgn ++ l = tail /\ (mark = [] <-> e = None)) as (mark & sgn & l & -> & -> & -> & Emark & Hmark).
  { unfold tail. destruct e as [[down l]|].
    - exists [exponent_mark], [if down then minus else plus], l. split_and!; try done; [by destruct down|]. apply span_digits_ok; [done|by apply delimited_no_digit].
    - exists [], [], []. split_and!; try done. apply span_char_delimited; [done|by right]. }
  rewrite (bind_ok _ _ _ _ _ (eq_refl : put_st r _ = (Ok tt, r))). unfold lift. f_equal.
  assert (match dot, mark with [], [] => false | _, _ => true end = shape_floating (mkShape neg w f e)) as ->.
  { unfold shape_floating. cbn [fraction_part exponent_part]. rewrite <-(bool_decide_ext _ _ Hdot), <-(bool_decide_ext _ _ Hmark). by destruct dot, mark. }
  f_equal. rewrite <-Emark, <-Edot, <-!app_assoc. done.
Qed.

Lemma number_of_digits_value w : is_digits w -> w <> [] -> number_of (str w) = Some (false, digits_value w).
Proof.
  intros Hw Hn. unfold number_of. rewrite chars_str. destruct w as [|c w]; [done|]. pose proof Hw as [Hc _]%Forall_cons_1.
  destruct (number_of_digits c w Hc) as (-> & -> & ->). rewrite digits_ok by done. by rewrite Z.mul_0_l.
Qed.

Lemma number_of_minus_digits w : is_digits w -> w <> [] -> number_of (str (minus :: w)) = Some (true, digits_value w).
Proof.
  intros Hw Hn. change (number_of (str (minus :: w))) with
    (let (v, some) := digits (chars (str w)) 0 false in if some then Some (true, v) else None).
  rewrite chars_str, digits_ok, Z.mul_0_l by done. by rewrite (bool_decide_false (w = [])).
Qed.

(** The text of a double. *)
Lemma parseNumber_double b r : finite b -> delimited r -> parseNumber (chars (print_g17 b) ++ r) = (Ok (canonical (Double b)), r).
Proof.
  intros Hb Hr. destruct (double_shape b Hb) as (p & Et & Hok & Hneg & Hfl & Hw & Hread).
  rewrite Et, parseNumber_shape by done. f_equal. unfold canonical. destruct (shape_floating p) eqn:Ef.
  - assert (f64_whole b && (f64_floor b <? 10 ^ 17) = false) as ->.
    { destruct (f64_whole b && (f64_floor b <? 10 ^ 17)) eqn:E; [|done]. apply andb_true_iff in E as [E1 E2]. apply Z.ltb_lt in E2.
      assert (true = false) by by apply Hfl. done. }
    unfold number_value. by rewrite <-Et, str_chars, Hread.
  - destruct (proj1 Hfl eq_refl) as [-> Hlt]. rewrite (proj2 (Z.ltb_lt _ _) Hlt). cbn [andb].
    pose proof (Hw eq_refl) as Hv. pose proof Hok as [Hdig Hne _ _]. pose proof (digits_value_range _ Hdig) as Hr0. rewrite Hv in Hr0.
    assert (shape_text p = (if f64_sign b =? 1 then [minus] else []) ++ whole_part p) as ->.
    { unfold shape_text, sign_part, point_part, scale_part. rewrite Hneg. unfold shape_floating in Ef. apply negb_false_iff, andb_true_iff in Ef as [E1 E2].
      apply bool_decide_eq_true in E1, E2. rewrite E1, E2. cbn [point_of app]. by rewrite !app_nil_r. }
    destruct (f64_sign b =? 1).
    + change (number_value false ([minus] ++ whole_part p)) with (let! v := stoll (str (minus :: whole_part p)) in Ok (Int v)).
      unfold stoll. rewrite number_of_minus_digits, Hv by done. cbv zeta. rewrite bool_decide_true; [done|].
      unfold is_s. change (2 ^ (64 - 1)) with 9223372036854775808. lia.
    + unfold number_value, stoull. cbn [app]. rewrite number_of_digits_value, Hv by done.
      rewrite (proj2 (Z.ltb_lt _ (2 ^ 64))) by lia. destruct (whole_part p) as [|c w]; [done|].
      apply Forall_cons_1 in Hdig as [Hc _]. unfold is_char. apply digit_codes in Hc. by rewrite (proj2 (Z.eqb_neq _ 45)) by lia.
Qed.

(** It begins with a digit or a sign. *)
Lemma double_head b : finite b -> exists c l, chars (print_g17 b) = c :: l /\ is_char 45 c || is_digit c = true.
Proof.
  intros Hb. destruct (double_shape b Hb) as (p & -> & [Hw Hn _ _] & _). unfold shape_text, sign_part.
  destruct (negative p); [by eexists minus, _|]. destruct Hw as [|c w Hc _]; [done|]. exists c. eexists. split; [done|]. by rewrite Hc, orb_true_r.
Qed.

(** Bytes in hexadecimal. *)
Lemma hexDigit_digit v : 0 <= v < 16 -> hexDigit (hex_digit v) = v.
Proof.
  intros H. assert (Forall (fun v => hexDigit (hex_digit v) = v) (seqZ 0 16)) as Hf by (apply (bool_decide_unpack _); vm_compute; exact I).
  rewrite list.Forall_forall in Hf. apply Hf, elem_of_seqZ. lia.
Qed.

Lemma unhex_hex b : is_bytes b -> unhex (str (hex b)) = Ok b.
Proof.
  intros Hb. unfold unhex. rewrite chars_str.
  assert (size (hex b) mod 2 = 0) as ->.
  { clear Hb. induction b as [|x b IH]; [done|]. cbn [hex]. rewrite !size_cons. 
    rewrite <-(Z.mod_add _ (-1)) by lia. by replace (_ + -1 * 2) with (size (hex b)) by lia. }
  change (if negb (0 =? 0) then _ else ?x) with x. induction Hb as [|x b Hx _ IH]; [done|].
  cbn [hex unhex_loop]. assert (0 <= x < 256) as Hr by exact Hx.
  rewrite land_15, shiftr_div by lia. change (2 ^ 4) with 16. rewrite land_15.
  rewrite !hexDigit_digit by (apply Z.mod_pos_bound; lia).
  rewrite (Z.mod_small (x / 16)) by (split; [apply Z.div_pos; lia|apply Z.div_lt_upper_bound; lia]).
  rewrite !(proj2 (Z.ltb_ge _ _)) by (apply Z.mod_pos_bound || apply Z.div_pos; lia).
  cbn [orb]. rewrite IH. cbn [rbind]. f_equal. f_equal.
  assert (0 <= x mod 16 < 2 ^ 4) as Hm by (by apply Z.mod_pos_bound).
  rewrite Z.lor_comm, lor_shiftl_add, to_u8_id by (done || unfold is_u; pose proof (Z.div_mod x 16); lia).
  pose proof (Z.div_mod x 16). lia.
Qed.

(** Values. *)
Definition reads_back (v : ProtoDefValue) : Prop := forall fuel r,
  (2 * length (stringify v) < fuel)%nat -> delimited r ->
  parseValue fuel (stringify v ++ r) = (Ok (canonical v), r).

(** What a value is read by, from its first character. *)
Definition parse_as (fuel : nat) (c : Ascii.ascii) (l : text) : M text ProtoDefValue :=
  if is_char 34 c then let* s := parseString in ret (String_ s)
  else if is_char 123 c then
    put_st l ;;; skipWhitespace ;;;
    let* closed := looking_at 125 in
    if closed : bool then let* _ := next_char OutOfFuel in ret (Object []) else object_loop fuel []
  else if is_char 91 c then
    put_st l ;;; skipWhitespace ;;;
    let* closed := looking_at 93 in
    if closed : bool then let* _ := next_char OutOfFuel in ret (Array []) else array_loop fuel []
  else if is_char 116 c then parseLiteral "true" (Bool true)
  else if is_char 102 c then parseLiteral "false" (Bool false)
  else if is_char 110 c then parseLiteral "null" Null
  else if is_char 45 c || is_digit c then parseNumber
  else raise (json_error "unexpected character").

Lemma parseValue_at fuel c l : is_space c = false -> parseValue (S fuel) (c :: l) = parse_as fuel c l (c :: l).
Proof.
  intros Hc. cbn [parseValue]. unfold skipWhitespace at 1, bind at 1, bind at 1, get_st at 1, put_st at 1.
  cbn [skip_space]. rewrite Hc. reflexivity.
Qed.

Lemma parse_number_at fuel l r : match l with c :: _ => is_char 45 c || is_digit c = true | [] => False end ->
  parseValue (S fuel) (l ++ r) = parseNumber (l ++ r).
Proof.
  destruct l as [|c l]; [done|]. intros Hc. cbn [app].
  assert (forall b, b ∈ [34; 123; 91; 116; 102; 110; 32; 9; 10; 11; 12; 13] -> is_char b c = false) as Hn.
  { intros b Hb. unfold is_char, is_digit in *. repeat (apply elem_of_cons in Hb as [-> |Hb]; [lia|]). by apply elem_of_nil in Hb. }
  rewrite parseValue_at.
  2:{ unfold is_char, is_digit, is_space in *. lia. }
  unfold parse_as. rewrite !Hn by (repeat (left || right)). by rewrite Hc.
Qed.

Lemma parse_string_at fuel s r : parseValue (S fuel) (quote s ++ r) = (Ok (String_ s), r).
Proof.
  change (quote s ++ r) with (quote_mark :: ((chars s ≫= quote_char) ++ [quote_mark]) ++ r).
  rewrite parseValue_at by done. unfold parse_as. change (is_char 34 quote_mark) with true. cbn iota.
  by rewrite (bind_ok _ _ _ _ _ (parseString_ok s r)).
Qed.

Lemma skip_not_space c l : is_space c = false -> skipWhitespace (c :: l) = (Ok tt, c :: l).
Proof. intros H. unfold skipWhitespace, bind, get_st, put_st. cbn [skip_space]. by rewrite H. Qed.

Lemma skip_comma l : skipWhitespace (chars "," ++ l) = (Ok tt, chars "," ++ l).
Proof. done. Qed.
Lemma skip_bracket l : skipWhitespace (chars "]" ++ l) = (Ok tt, chars "]" ++ l).
Proof. done. Qed.
Lemma skip_brace l : skipWhitespace (chars "}" ++ l) = (Ok tt, chars "}" ++ l).
Proof. done. Qed.

Lemma delimited_comma l : delimited (chars "," ++ l).
Proof. by left. Qed.
Lemma delimited_bracket l : delimited (chars "]" ++ l).
Proof. by right; left. Qed.
Lemma delimited_brace l : delimited (chars "}" ++ l).
Proof. by right; right. Qed.

Lemma array_loop_ok v vs : Forall reads_back (v :: vs) -> forall fuel acc r,
  (2 * length (comma_separated (map stringify (v :: vs))) + 1 < fuel)%nat ->
  array_loop fuel acc (comma_separated (map stringify (v :: vs)) ++ chars "]" ++ r) =
  (Ok (Array (acc ++ map canonical (v :: vs))), r).
Proof.
  intros H. revert v H. induction vs as [|w vs IH]; intros v H [|fuel] acc r Hf; try (exfalso; lia);
    apply list.Forall_cons in H as [Hv H]; cbn [array_loop].
  - rewrite (bind_ok _ _ _ _ _ (Hv fuel (chars "]" ++ r) ltac:(cbn in Hf; lia) (delimited_bracket _))).
    by rewrite (bind_ok _ _ _ _ _ (skip_bracket _)).
  - set (rest := comma_separated (map stringify (w :: vs))) in *.
    change (comma_separated (map stringify (v :: w :: vs))) with (stringify v ++ chars "," ++ rest) in Hf |- *.
    rewrite !length_app in Hf. cbn [chars length] in Hf. rewrite <-!app_assoc.
    rewrite (bind_ok _ _ _ _ _ (Hv fuel (chars "," ++ rest ++ chars "]" ++ r) ltac:(lia) (delimited_comma _))).
    rewrite (bind_ok _ _ _ _ _ (skip_comma _)).
    change (array_loop fuel (acc ++ [canonical v]) (rest ++ chars "]" ++ r) = (Ok (Array (acc ++ map canonical (v :: w :: vs))), r)).
    unfold rest. rewrite (IH w H fuel (acc ++ [canonical v]) r ltac:(fold rest; lia)). by rewrite <-app_assoc.
Qed.

(** Objects. *)
Definition entry_text (e : string * ProtoDefValue) : text := quote (fst e) ++ chars ":" ++ stringify (snd e).
Definition canonical_entry (e : string * ProtoDefValue) : string * ProtoDefValue := (fst e, canonical (snd e)).

(** The body of the loop up to the character that follows an entry. *)
Lemma object_entry fuel acc e r : reads_back (snd e) -> (2 * length (entry_text e) < fuel)%nat -> delimited r ->
  is_space (default quote_mark (head r)) = false ->
  object_loop (S fuel) acc (entry_text e ++ r) =
  (let* c := next_char (json_error "unterminated object") in
   let object := set_entry (fst e) (canonical (snd e)) acc in
   if is_char 125 c then lift (close_object object)
   else if negb (is_char 44 c) then raise (json_error "expected comma")
   else object_loop fuel object) r.
Proof.
  intros Hv Hf Hr Hs. unfold entry_text in *. rewrite !length_app in Hf. cbn [chars length] in Hf.
  cbn [object_loop]. rewrite <-!app_assoc.
  rewrite (bind_ok skipWhitespace _ _ tt (quote (fst e) ++ chars ":" ++ stringify (snd e) ++ r)) by done.
  rewrite (bind_ok _ _ _ _ _ (parseString_ok (fst e) _)).
  rewrite (bind_ok skipWhitespace _ _ tt (chars ":" ++ stringify (snd e) ++ r)) by done.
  match goal with |- _ = ?x => change ((let* v := parseValue fuel in skipWhitespace ;;; let* c := next_char (json_error "unterminated object") in
    let object := set_entry (fst e) v acc in
    if is_char 125 c then lift (close_object object)
    else if negb (is_char 44 c) then raise (json_error "expected comma") else object_loop fuel object)
    (stringify (snd e) ++ r) = x) end.
  rewrite (bind_ok _ _ _ _ _ (Hv fuel r ltac:(lia) Hr)).
  rewrite (bind_ok skipWhitespace _ r tt r); [done|]. destruct r as [|c r]; [done|]. by apply skip_not_space.
Qed.

Lemma object_loop_ok e es : Forall (fun e => reads_back (snd e)) (e :: es) -> forall fuel acc r,
  base.NoDup (map fst (acc ++ map canonical_entry (e :: es))) ->
  (2 * length (comma_separated (map entry_text (e :: es))) + 1 < fuel)%nat ->
  object_loop fuel acc (comma_separated (map entry_text (e :: es)) ++ chars "}" ++ r) =
  (close_object (acc ++ map canonical_entry (e :: es)), r).
Proof.
  intros H. revert e H. induction es as [|w es IH]; intros e H [|fuel] acc r Hd Hf; try (exfalso; lia);
    apply list.Forall_cons in H as [Hv H];
    assert (fst e ∉ map fst acc) as Hn by
      (rewrite map_app in Hd; apply list.NoDup_app in Hd as (_ & Hd & _); intros He; by apply (Hd _ He); left).
  - change (comma_separated (map entry_text [e])) with (entry_text e) in *.
    rewrite object_entry by (done || lia || apply delimited_brace). by rewrite set_entry_new.
  - set (rest := comma_separated (map entry_text (w :: es))) in *.
    change (comma_separated (map entry_text (e :: w :: es))) with (entry_text e ++ chars "," ++ rest) in Hf |- *.
    rewrite !length_app in Hf. cbn [chars length] in Hf. rewrite <-!app_assoc.
    rewrite object_entry by (done || lia || apply delimited_comma). rewrite set_entry_new by done.
    change (object_loop fuel (acc ++ [canonical_entry e]) (rest ++ chars "}" ++ r) =
      (close_object (acc ++ map canonical_entry (e :: w :: es)), r)).
    unfold rest. rewrite (IH w H fuel (acc ++ [canonical_entry e]) r).
    + by rewrite <-app_assoc.
    + by rewrite <-app_assoc.
    + fold rest; lia.
Qed.

Lemma canonical_keys es : map fst (map canonical_entry es) = map fst es.
Proof. by rewrite map_map. Qed.

(** No other value comes back as a string. *)
Lemma canonical_string v s : canonical v = String_ s -> v = String_ s.
Proof. destruct v; cbn; try done; by repeat case_match. Qed.

(** An object is closed as it is, unless it looks like bytes. *)
Lemma close_object_ok es : (forall s, es <> [(bytes_key, String_ s)]) ->
  close_object (map canonical_entry es) = Ok (Object (map canonical_entry es)).
Proof.
  intros H. destruct es as [|[k v] [|e es]]; [done| |]; unfold canonical_entry; cbn [map fst snd close_object].
  - destruct (canonical v) eqn:E; try done. apply canonical_string in E as ->. rewrite bool_decide_false; [done|]. intros ->. by eapply H.
  - by destruct (canonical v).
Qed.

Lemma comma_head ps r : Forall (fun p => match p with c :: _ => is_space c = false | [] => False end) ps -> ps <> [] ->
  exists c l, comma_separated ps ++ r = c :: l /\ is_space c = false /\ hd_error (hd [] ps) = Some c.
Proof.
  intros H Hn. destruct ps as [|[|c p] ps]; [done|by inversion H|]. assert (is_space c = false) by by inversion H.
  exists c. destruct ps; cbn; eauto.
Qed.

Lemma skip_comma_head ps r : Forall (fun p => match p with c :: _ => is_space c = false | [] => False end) ps -> ps <> [] ->
  skipWhitespace (comma_separated ps ++ r) = (Ok tt, comma_separated ps ++ r).
Proof. intros H Hn. destruct (comma_head ps r H Hn) as (c & l & -> & Hc & _). by apply skip_not_space. Qed.

(** The first characters of a value. *)
Definition value_head (p : text) : Prop :=
  match p with c :: _ => is_space c = false /\ is_char 93 c = false | [] => False end.

Lemma stringify_head v : json_ok v -> value_head (stringify v).
Proof.
  assert (forall n, value_head (chars (to_string n))) as Hn.
  { intros n. destruct (number_text n) as (c & l & -> & Hc & _). unfold value_head, is_char, is_digit, is_space in *. lia. }
  intros Hv. destruct v as [|[]|v|v|v| | | |]; cbn [stringify]; try done.
  - unfold signed_text. destruct (_ <? _); [done|apply Hn].
  - destruct (double_head v Hv) as (c & l & -> & Hc). unfold value_head, is_char, is_digit, is_space in *. lia.
Qed.

Lemma stringify_heads (f : ProtoDefValue -> text) vs : (forall v, f v = stringify v) ->
  foldr (fun e P => json_ok e /\ P) True vs ->
  Forall (fun p => match p with c :: _ => is_space c = false | [] => False end) (map f vs).
Proof.
  intros Hf H. induction vs as [|v vs IH]; [constructor|]. destruct H as [Hv H]. constructor; [|by apply IH].
  rewrite Hf. pose proof (stringify_head v Hv) as Hh. unfold value_head in Hh.
  destruct (stringify v) as [|c l]; [done|apply Hh].
Qed.

Lemma reads_back_array vs : foldr (fun e P => json_ok e /\ P) True vs -> Forall reads_back vs -> reads_back (Array vs).
Proof.
  intros Hok H [|fuel] r Hf Hr; [exfalso; lia|]. cbn [stringify] in *. rewrite !length_app in Hf. cbn [chars length] in Hf.
  rewrite <-!app_assoc. change (chars "[" ++ ?l) with (ascii_of_byte 91 :: l). rewrite parseValue_at by done.
  destruct vs as [|v vs]; [done|].
  pose proof (skip_comma_head (map stringify (v :: vs)) (chars "]" ++ r) (stringify_heads stringify _ (fun _ => eq_refl) Hok) ltac:(done)) as Hs.
  match goal with |- parse_as _ _ ?l _ = _ => change ((skipWhitespace ;;; let* closed := looking_at 93 in
    if closed : bool then let* _ := next_char OutOfFuel in ret (Array []) else array_loop fuel []) l = (Ok (canonical (Array (v :: vs))), r)) end.
  rewrite (bind_ok _ _ _ _ _ Hs). 
  assert (looking_at 93 (comma_separated (map stringify (v :: vs)) ++ chars "]" ++ r) =
    (Ok false, comma_separated (map stringify (v :: vs)) ++ chars "]" ++ r)) as Hl.
  { destruct Hok as [Hv _]. pose proof (stringify_head v Hv) as Hh. unfold value_head in Hh.
    cbn [map comma_separated]. destruct (stringify v) as [|c l]; [done|]. destruct Hh as [_ Hh].
    destruct (map stringify vs); cbn; unfold looking_at, bind, get_st, ret; by rewrite Hh. }
  rewrite (bind_ok _ _ _ _ _ Hl). cbn iota. rewrite (array_loop_ok v vs H fuel [] r) by lia. done.
Qed.

Lemma reads_back_object es : base.NoDup (map fst es) -> (forall s, es <> [(bytes_key, String_ s)]) ->
  Forall (fun e => reads_back (snd e)) es -> reads_back (Object es).
Proof.
  intros Hd Hb H [|fuel] r Hf Hr; [exfalso; lia|]. cbn [stringify] in *. fold entry_text in *.
  rewrite !length_app in Hf. change (length (chars ?x)) with 1%nat in Hf.
  rewrite <-!app_assoc. change (chars "{" ++ ?l) with (ascii_of_byte 123 :: l). rewrite parseValue_at by done.
  destruct es as [|e es]; [done|].
  assert (exists t, comma_separated (map entry_text (e :: es)) = quote_mark :: t) as [t Et] by (destruct es; by eexists).
  transitivity (object_loop fuel [] (comma_separated (map entry_text (e :: es)) ++ chars "}" ++ r)); [by rewrite Et|].
  rewrite (object_loop_ok e es H fuel [] r); [|cbn [app]; by rewrite canonical_keys|lia].
  cbn [app]. by rewrite close_object_ok.
Qed.

Lemma reads_back_bytes b : is_bytes b -> reads_back (Bytes b).
Proof.
  intros Hb [|fuel] r Hf Hr; [exfalso; lia|].
  cbn [stringify] in Hf. rewrite !length_app in Hf. cbn [chars length] in Hf.
  change (stringify (Bytes b) ++ r) with (ascii_of_byte 123 ::
    (entry_text (bytes_key, String_ (str (hex b))) ++ chars "}") ++ r).
  rewrite parseValue_at by done. rewrite <-app_assoc.
  transitivity (object_loop fuel [] (comma_separated (map entry_text [(bytes_key, String_ (str (hex b)))]) ++ chars "}" ++ r)); [done|].
  rewrite (object_loop_ok _ [] ); [|constructor; [|constructor]| |].
  - cbn. by rewrite unhex_hex.
  - intros [|n] k Hn Hk; [exfalso; lia|]. apply parse_string_at.
  - apply NoDup_singleton.
  - cbn [map comma_separated]. unfold entry_text. cbn [fst snd stringify]. rewrite !length_app. cbn [chars length]. lia.
Qed.

Lemma json_reads_back v : json_ok v -> reads_back v.
Proof.
  induction v as [| v|v|v|v|v|v|v IH|v IH] using value_induction; cbn [json_ok]; intros Hv.
  6: { intros [|fuel] r Hf Hr; [exfalso; lia|]. apply parse_string_at. }
  6: by apply reads_back_bytes.
  - by intros [|fuel] r Hf Hr; [exfalso; lia|].
  - intros [|fuel] r Hf Hr; [exfalso; lia|]. by destruct v.
  - intros [|fuel] r Hf Hr; [exfalso; lia|]. cbn [stringify canonical]. unfold signed_text. destruct (Z.ltb_spec v 0).
    + rewrite parse_number_at by done. by apply parseNumber_negative.
    + destruct (number_text v) as (c & l & E & Hc & _).
      rewrite parse_number_at by (rewrite E, Hc; by rewrite orb_true_r). apply parseNumber_unsigned; [|done].
      unfold is_s, is_u in *. lia.
  - intros [|fuel] r Hf Hr; [exfalso; lia|]. cbn [stringify canonical]. destruct (number_text v) as (c & l & E & Hc & _).
    rewrite parse_number_at by (rewrite E, Hc; by rewrite orb_true_r). by apply parseNumber_unsigned.
  - intros [|fuel] r Hf Hr; [exfalso; lia|]. cbn [stringify]. rewrite parse_number_at by (destruct (double_head v Hv) as (c & l & -> & Hc); exact Hc).
    by apply parseNumber_double.
  - destruct Hv as (Hd & Hb & Hok). apply reads_back_object; [done|done|]. clear Hd Hb.
    induction IH as [|e es He _ IHes]; [constructor|]. destruct Hok as [Hv Hok]. constructor; auto.
  - apply reads_back_array; [done|].
    induction IH as [|e es He _ IHes]; [constructor|]. destruct Hv as [Hv Hok]. constructor; auto.
Qed.

(** C30: a value printed by [ProtoDefJson::stringify] is parsed back by
    [ProtoDefJson::parse], with nothing left over and within the parser's
    bound: strings of any bytes, byte arrays, finite doubles bit for bit, and
    nested arrays and objects in whatever order they are iterated, with
    distinct keys.  Two kinds of values come back as another kind
    ([canonical]): a non-negative signed integer as an unsigned one, and a
    double that is a whole number below 10^17 as that integer.  Not covered
    ([json_ok]): doubles that are not finite, whose text is not JSON, and an
    object with nothing but a string under $bytes, which is how bytes are
    printed. *)
Theorem json_roundtrip v : json_ok v -> protoDefValueFromJson (protoDefValueToJson v) = Ok (canonical v).
Proof.
  intros Hv. unfold protoDefValueFromJson, protoDefValueToJson, parse. rewrite chars_str.
  pose proof (json_reads_back v Hv (parse_fuel (stringify v)) []) as H. rewrite app_nil_r in H.
  by rewrite (bind_ok _ _ _ _ _ (H ltac:(unfold parse_fuel; lia) I)).
Qed.

Definition sample_value : ProtoDefValue :=
  Object [("a", Array [Null; Bool true; Int (-5); Int 7; UInt (2 ^ 64 - 1); Double 4591870180066957722; Double 4607182418800017408]);
          (string_of_bytes [34; 10; 92; 1; 200], Bytes [0; 171; 255]);
          ("o", Object [("$bytes", Array [])])].

Lemma json_roundtrip_witness :
  protoDefValueFromJson (protoDefValueToJson sample_value) = Ok (canonical sample_value).
Proof.
  refine (json_roundtrip _ _). unfold sample_value.
  repeat match goal with
    | |- json_ok (Object _) => refine (conj _ (conj _ _))
    | |- json_ok (Array _) => hnf
    | |- foldr _ _ _ => hnf
    | |- _ /\ _ => refine (conj _ _)
    | |- base.NoDup _ => apply (bool_decide_unpack _); vm_compute; exact I
    end; try done; apply (bool_decide_unpack _); vm_compute; exact I.
Defined.
