(* ===== verification/ProtoDefText.v ===== *)
(** * The text of a ProtoDef schema (src/include/bedrock/protodef)

    A schema is JSON text that the encoder and the decoder scan again at every
    use.  These are the scanning functions that [ProtoDefEncoder] and
    [ProtoDefDecoder] both have, word for word, as private members; positions
    are indices, and [std::string::npos] is [None]. *)

From S2P Require Import Prelude MachineInt GamePacket Text FloatText ProtoDefData ProtoDefJson.

Module ProtoDefText.
Import ProtoDefJson.

(** ** [std::string] *)

(** The index of the first character with a property, from an index on. *)
Fixpoint find_in (p : Ascii.ascii -> bool) (l : text) (i : nat) : option nat :=
  match l with
  | c :: l' => if p c then Some i else find_in p l' (S i)
  | [] => None
  end.
Definition find_char (code : Z) (s : text) (i : nat) : option nat := find_in (is_char code) (drop i s) i.

Fixpoint is_prefix (k l : text) : bool :=
  match k, l with
  | [], _ => true
  | a :: k', b :: l' => bool_decide (a = b) && is_prefix k' l'
  | _ :: _, [] => false
  end.

(** [std::string::find] of a string. *)
Fixpoint find_text_in (needle l : text) (i : nat) : option nat :=
  if is_prefix needle l then Some i
  else match l with _ :: l' => find_text_in needle l' (S i) | [] => None end.
Definition find_text (needle s : text) (i : nat) : option nat := find_text_in needle (drop i s) i.

(** [s[i]] within the string; the terminating null character at its end. *)
Definition char_at (s : text) (i : nat) : Ascii.ascii := default (ascii_of_byte 0) (s !! i).
Definition at_code (code : Z) (s : text) (i : nat) : bool := is_char code (char_at s i).

(** [s.substr(a, b - a)]. *)
Definition slice (s : text) (a b : nat) : text := take (b - a) (drop a s).

Definition trim_end (l : text) : text := reverse (skip_space (reverse l)).
Definition trim (s : text) : text := trim_end (skip_space s).

Definition startsWith (s : text) (prefix : text) : bool := is_prefix prefix s.
(** The text [ ["kind" ] that starts a type. *)
Definition kind_prefix (kind : string) : text := chars "[" ++ [quote_mark] ++ chars kind ++ [quote_mark].

Definition isJsonString (s : text) : bool :=
  (2 <=? size s) && at_code 34 s 0 && at_code 34 s (length s - 1).
Definition unquote (s : text) : text := if negb (isJsonString s) then s else slice s 1 (length s - 1).

(** ** Scanning JSON *)

Fixpoint match_loop (left right : Z) (l : text) (i : nat) (depth : Z) (inString esc : bool) : option nat :=
  match l with
  | [] => None
  | c :: l' =>
      if inString then
        if esc then match_loop left right l' (S i) depth true false
        else if is_char 92 c then match_loop left right l' (S i) depth true true
        else if is_char 34 c then match_loop left right l' (S i) depth false false
        else match_loop left right l' (S i) depth true false
      else if is_char 34 c then match_loop left right l' (S i) depth true esc
      else
        let depth := if is_char left c then depth + 1 else depth in
        if is_char right c then
          let depth := depth - 1 in
          if depth =? 0 then Some i else match_loop left right l' (S i) depth false esc
        else match_loop left right l' (S i) depth false esc
  end.

Definition findMatching (s : text) (open : nat) (left right : Z) : option nat :=
  match_loop left right (drop open s) open 0 false false.

Fixpoint string_end_loop (l : text) (i : nat) (esc : bool) : option nat :=
  match l with
  | [] => None
  | c :: l' =>
      if esc then string_end_loop l' (S i) false
      else if is_char 92 c then string_end_loop l' (S i) true
      else if is_char 34 c then Some i
      else string_end_loop l' (S i) false
  end.
Definition findStringEnd (s : text) (open : nat) : option nat := string_end_loop (drop (S open) s) (S open) false.

(** [while (pos < objectEnd && p(s[pos])) ++pos;] *)
Fixpoint advance (p : Ascii.ascii -> bool) (s : text) (pos n : nat) : nat :=
  match n with
  | O => pos
  | S n' => if p (char_at s pos) then advance p s (S pos) n' else pos
  end.
Definition advance_to (p : Ascii.ascii -> bool) (s : text) (pos objectEnd : nat) : nat :=
  advance p s pos (objectEnd - pos).

(** [while (pos > valueStart && isspace(s[pos - 1])) --pos;] *)
Fixpoint back_space (s : text) (pos n : nat) : nat :=
  match n with
  | O => pos
  | S n' => if is_space (char_at s (pos - 1)) then back_space s (pos - 1) n' else pos
  end.

Definition findJsonValueEnd (s : text) (valueStart objectEnd : nat) : option nat :=
  if (objectEnd <=? valueStart)%nat then None
  else if at_code 34 s valueStart then S <$> findStringEnd s valueStart
  else if at_code 91 s valueStart then S <$> findMatching s valueStart 91 93
  else if at_code 123 s valueStart then S <$> findMatching s valueStart 123 125
  else
    let pos := advance_to (fun c => negb (is_char 44 c)) s valueStart objectEnd in
    Some (back_space s pos (pos - valueStart)).

(** The loop of [readJsonValueField]; [pos] grows in every round. *)
Fixpoint field_loop (fuel : nat) (object : text) (objEnd : nat) (key : text) (pos : nat) : option text :=
  match fuel with
  | O => None
  | S fuel' =>
      if (objEnd <=? pos)%nat then None
      else
        let pos := advance_to (fun c => is_space c || is_char 44 c) object pos objEnd in
        if (objEnd <=? pos)%nat then None
        else if negb (at_code 34 object pos) then field_loop fuel' object objEnd key (S pos)
        else
          match findStringEnd object pos with
          | None => None
          | Some keyEnd =>
              if (objEnd <=? keyEnd)%nat then None
              else
                let currentKey := slice object (S pos) keyEnd in
                let pos := advance_to is_space object (S keyEnd) objEnd in
                if (objEnd <=? pos)%nat || negb (at_code 58 object pos) then None
                else
                  let pos := advance_to is_space object (S pos) objEnd in
                  if (objEnd <=? pos)%nat then None
                  else
                    match findJsonValueEnd object pos objEnd with
                    | None => None
                    | Some valueEnd =>
                        if bool_decide (currentKey = key) then Some (slice object pos valueEnd)
                        else field_loop fuel' object objEnd key valueEnd
                    end
          end
  end.

Definition readJsonValueField (json : text) (key : string) : option text :=
  let object := trim json in
  objStart ← find_char 123 object 0;
  objEnd ← findMatching object objStart 123 125;
  field_loop (S objEnd) object objEnd (chars key) (S objStart).

Definition readJsonStringField (json : text) (key : string) : option string :=
  value ← readJsonValueField json key;
  let normalized := trim value in
  if negb (isJsonString normalized) then None else Some (str (unquote normalized)).

Definition readJsonBoolField (json : text) (key : string) : option bool :=
  value ← readJsonValueField json key;
  let normalized := trim value in
  if bool_decide (normalized = chars "true") then Some true
  else if bool_decide (normalized = chars "false") then Some false
  else None.

(** [std::stoull] of the digits throws when they make more than 64 bits. *)
Definition readJsonIntegerField (json : text) (key : string) : result (option Z) :=
  match readJsonValueField json key with
  | None => Ok None
  | Some value =>
      let normalized := trim value in
      if bool_decide (normalized = []) || at_code 34 normalized 0 then Ok None
      else
        let digits := fst (span_digits normalized) in
        if bool_decide (digits = []) then Ok None
        else let! v := stoull (str digits) in Ok (Some v)
  end.

(** The bracketed or quoted text that starts at an index. *)
Definition value_at (json : text) (a : nat) : option text :=
  if at_code 34 json a then b ← find_char 34 json (S a); Some (slice json a (S b))
  else if at_code 91 json a then b ← findMatching json a 91 93; Some (slice json a (S b))
  else if at_code 123 json a then b ← findMatching json a 123 125; Some (slice json a (S b))
  else None.

Definition readSecondElement (json : text) : option text :=
  firstComma ← find_char 44 json 0;
  let a := advance_to is_space json (S firstComma) (length json) in
  if (length json <=? a)%nat then None else value_at json a.

Definition findSecondArray (json : text) : option text :=
  first ← find_char 91 json 0;
  second ← find_char 91 json (S first);
  endd ← findMatching json second 91 93;
  Some (slice json second (S endd)).

(** The next [{...}] of an array's text, and the position after it. *)
Definition next_object (what : string) (fields : text) (pos : nat) : result (option (text * nat)) :=
  match find_char 123 fields pos with
  | None => Ok None
  | Some objStart =>
      match findMatching fields objStart 123 125 with
      | None => Throw (RuntimeError (what +:+ " field object not closed"))
      | Some objEnd => Ok (Some (slice fields objStart (S objEnd), S objEnd))
      end
  end.

(** ** Switches *)

Definition after_slash (value : string) : list string :=
  match find_char 47 (chars value) 0 with
  | Some slash => if (S slash <? length (chars value))%nat then [str (drop (S slash) (chars value))] else []
  | None => []
  end.

Definition switchLookupKeys (value : string) : list string :=
  [value] ++ after_slash value ++ ["/" +:+ value] ++ map (fun v => "/" +:+ v) (after_slash value).

Definition switchValuesEqual (lhs rhs : string) : bool :=
  existsb (fun left => bool_decide (left ∈ switchLookupKeys rhs)) (switchLookupKeys lhs).

(** The first key that a lookup finds. *)
Fixpoint first_branch (lookup : string -> option text) (keys : list string) : option text :=
  match keys with
  | [] => None
  | k :: keys' => match lookup k with Some b => Some b | None => first_branch lookup keys' end
  end.

(** The keys that are tried: those of the variables that equal the value, then
    those of the value. *)
Definition branch_keys (variables_ : list (string * string)) (key : string) : list string :=
  map (fun e => "/" +:+ fst e) (List.filter (fun e => switchValuesEqual key (snd e)) variables_) ++ switchLookupKeys key.

(** ** Flags and parts of bit fields *)

Definition uint128 (v : Z) : Z := v mod 2 ^ 128.

Fixpoint parseUint128_loop (l : text) (out : Z) : Z :=
  match l with
  | [] => out
  | c :: l' =>
      parseUint128_loop l'
        (if is_digit c then uint128 (out * 10 + (byte_of_ascii c - 48)) else out)
  end.
Definition parseUint128 (l : text) : Z := parseUint128_loop l 0.

(** [out[name] = bit; bit <<= 1;] for the quoted strings of an array. *)
Fixpoint array_flags (fuel : nat) (flags : text) (pos : nat) (bit : Z) (out : list (string * Z)) : list (string * Z) :=
  match fuel with
  | O => out
  | S fuel' =>
      match find_char 34 flags pos with
      | None => out
      | Some q1 =>
          match find_char 34 flags (S q1) with
          | None => out
          | Some q2 => array_flags fuel' flags (S q2) (uint128 (Z.shiftl bit 1))
                         (set_entry (str (slice flags (S q1) q2)) bit out)
          end
      end
  end.

Fixpoint object_flags (fuel : nat) (flags : text) (pos : nat) (out : list (string * Z)) : list (string * Z) :=
  match fuel with
  | O => out
  | S fuel' =>
      match find_char 34 flags pos with
      | None => out
      | Some q1 =>
          match find_char 34 flags (S q1) with
          | None => out
          | Some q2 =>
              match find_char 58 flags (S q2) with
              | None => out
              | Some colon =>
                  let n := advance_to is_space flags (S colon) (length flags) in
                  let e := advance_to is_digit flags n (length flags) in
                  object_flags fuel' flags e
                    (set_entry (str (slice flags (S q1) q2)) (parseUint128 (slice flags n e)) out)
              end
          end
      end
  end.

(** Every round of the loops above reads two quotes. *)
Definition readBitflagValues (bitflagsJson : text) : list (string * Z) :=
  match readJsonValueField bitflagsJson "flags" with
  | None => []
  | Some flagsValue =>
      let flags := trim flagsValue in
      if bool_decide (flags = []) then []
      else if at_code 91 flags 0 then array_flags (length flags) flags 0 1 []
      else if at_code 123 flags 0 then object_flags (length flags) flags 0 []
      else []
  end.

Record BitfieldPart := mkPart { part_name : string; part_size : Z; signedValue : bool }.

Fixpoint parts_loop (fuel : nat) (fields : text) (pos : nat) (out : list BitfieldPart) : result (list BitfieldPart) :=
  match fuel with
  | O => Throw OutOfFuel
  | S fuel' =>
      let! next := next_object "bitfield" fields pos in
      match next with
      | None => Ok out
      | Some (fieldObj, pos) =>
          let name := readJsonStringField fieldObj "name" in
          let! size := readJsonIntegerField fieldObj "size" in
          let signed := default false (readJsonBoolField fieldObj "signed") in
          match name, size with
          | Some name, Some size => parts_loop fuel' fields pos (out ++ [mkPart name (to_i32 size) signed])
          | _, _ => Throw (RuntimeError "bitfield field missing name or size")
          end
      end
  end.

Definition readBitfieldParts (bitfieldJson : text) : result (list BitfieldPart) :=
  match readSecondElement bitfieldJson with
  | None => Throw (RuntimeError "bitfield fields array not found")
  | Some fields => parts_loop (S (length fields)) fields 0 []
  end.

(** ** Expressions of [compareTo] (ProtoDefCompareExpression.hpp) *)

Definition hasProtoDefLogicalOr (expression : text) : bool :=
  match find_text (chars "||") expression 0 with Some _ => true | None => false end.

(** The operands between the occurrences of [||]. *)
Fixpoint operands (l : text) (current : text) : list text :=
  match l with
  | c :: ((d :: l') as rest) =>
      if is_char 124 c && is_char 124 d then current :: operands l' [] else operands rest (current ++ [c])
  | [c] => [current ++ [c]]
  | [] => [current]
  end.

(** An atom's value as a switch key and as a truth value. *)
Record ProtoDefCompareAtom := mkAtom { switchKey : string; truthy : bool }.

Fixpoint any_operand (expression : text) (resolver : text -> result (option ProtoDefCompareAtom)) (ops : list text) :
    result (option string) :=
  match ops with
  | [] => Ok (Some "false")
  | op :: ops' =>
      let operand := trim op in
      if bool_decide (operand = []) then
        Throw (RuntimeError ("empty operand in ProtoDef compare expression: " +:+ str expression))
      else
        let! resolved := resolver operand in
        match resolved with
        | Some atom => if truthy atom then Ok (Some "true") else any_operand expression resolver ops'
        | None => any_operand expression resolver ops'
        end
  end.

Definition evaluateProtoDefCompareExpression (expression : text)
    (resolver : text -> result (option ProtoDefCompareAtom)) : result (option string) :=
  let expression := trim expression in
  if bool_decide (expression = []) then Ok None
  else if negb (hasProtoDefLogicalOr expression) then
    let! resolved := resolver expression in Ok (switchKey <$> resolved)
  else any_operand expression resolver (operands expression []).

End ProtoDefText.
