(* ===== verification/ProtoDefStream.v ===== *)
(** * The bytes of ProtoDef packets (src/include/bedrock/protodef)

    [ProtoDefWriter] (ProtoDefWriter.hpp), whose state is its [data_];
    [ProtoDefReader] (ProtoDefReader.hpp) over the cursor [PacketFieldCursor]
    (src/include/bedrock/debug/PacketFieldDecoder.hpp), whose state is the
    cursor's offset.  [float]s and [double]s are bit patterns. *)

From S2P Require Import Prelude MachineInt Leb128 Endian ZigZag FloatBits GamePacket.

Module ProtoDefWriter.

Definition bytes_ (p : bytes) : M bytes unit := let* data_ := get_st in put_st (data_ ++ p).
Definition u8 (v : Z) : M bytes unit := bytes_ [v].
Definition boolValue (v : bool) : M bytes unit := u8 (if v then 1 else 0).
Definition u16le (v : Z) : M bytes unit := bytes_ (store_le16 v).
Definition u16be (v : Z) : M bytes unit := bytes_ (reverse (store_le16 v)).
Definition u32le (v : Z) : M bytes unit := bytes_ (store_le32 v).
Definition u32be (v : Z) : M bytes unit := bytes_ (store_be32 v).
Definition u64le (v : Z) : M bytes unit := bytes_ (store_le64 v).
Definition u64be (v : Z) : M bytes unit := bytes_ (reverse (store_le64 v)).
Definition varuint32 (v : Z) : M bytes unit := let* data_ := get_st in put_st (write_while 5 data_ v).
Definition varuint64 (v : Z) : M bytes unit := let* data_ := get_st in put_st (write_while 10 data_ v).
Definition zigzag32 (v : Z) : M bytes unit := varuint32 (zigzag_shift 32 v).
Definition zigzag64 (v : Z) : M bytes unit := varuint64 (zigzag_shift 64 v).
Definition varuint128 (v : Z) : M bytes unit := let* data_ := get_st in put_st (write_while 19 data_ v).
Definition f32le (value : Z) : M bytes unit := u32le value.
Definition f32be (value : Z) : M bytes unit := u32be value.
Definition f64le (value : Z) : M bytes unit := u64le value.
Definition f64be (value : Z) : M bytes unit := u64be value.
(** The length is cast to 32, or 16, bits; the text is written whole. *)
Definition string_ (s : string) : M bytes unit :=
  varuint32 (to_u32 (size (bytes_of_string s))) ;;; bytes_ (bytes_of_string s).
Definition shortString (s : string) : M bytes unit :=
  u16le (to_u16 (size (bytes_of_string s))) ;;; bytes_ (bytes_of_string s).

End ProtoDefWriter.

Module PacketFieldCursor.
Section Cursor.
Context (data_ : bytes).

Definition remaining : M Z Z :=
  let* offset_ := get_st in ret (if offset_ <=? size data_ then size data_ - offset_ else 0).

Definition not_enough (what : string) (offset_ need : Z) : exn :=
  RuntimeError ("not enough bytes for " +:+ what +:+ " at offset " +:+ to_string offset_ +:+
    " remaining=" +:+ to_string (size data_ - offset_) +:+ " need=" +:+ to_string need).

Definition require (need : Z) (what : string) : M Z unit :=
  let* offset_ := get_st in
  if offset_ + need >? size data_ then raise (not_enough what offset_ need) else ret tt.

Definition skip (n : Z) : M Z unit := require n "skip" ;;; let* offset_ := get_st in put_st (offset_ + n).

Definition rewindTo (offset : Z) : M Z unit :=
  if offset >? size data_ then raise (RuntimeError "PacketFieldCursor::rewindTo out of bounds")
  else put_st offset.

(** [require(n, what); value = load(data_, offset_); offset_ += n;] *)
Definition load_word (n : Z) (what : string) (load : bytes -> Z -> result Z) : M Z Z :=
  require n what ;;;
  let* offset_ := get_st in
  let* value := lift (load data_ offset_) in
  put_st (offset_ + n) ;;; ret value.

Definition u8 : M Z Z := load_word 1 "u8" vec_at.
Definition boolean : M Z bool := let* b := u8 in ret (negb (b =? 0)).
Definition u16le : M Z Z := load_word 2 "u16" load_le16.
Definition u32le : M Z Z := load_word 4 "u32" load_le32.
Definition i32le : M Z Z := let* v := u32le in ret (to_i32 v).
Definition varuint32 : M Z Z := varint_loop u8 32 (RuntimeError "varuint32 too long") shifts32 0.
Definition varuint64 : M Z Z := varint_loop u8 64 (RuntimeError "varuint64 too long") shifts64 0.
Definition zigzag32 : M Z Z := let* raw := varuint32 in ret (unzigzag_not 32 raw).
Definition zigzag64 : M Z Z := let* raw := varuint64 in ret (unzigzag_not 64 raw).

Definition string_ : M Z string :=
  let* len := varuint32 in
  require len "string bytes" ;;;
  let* offset_ := get_st in
  let* value := lift (vec_range data_ offset_ (offset_ + len)) in
  put_st (offset_ + len) ;;; ret (string_of_bytes value).

End Cursor.
End PacketFieldCursor.

Module ProtoDefReader.
Section Reader.
Context (data_ : bytes).

Definition offset : M Z Z := get_st.
Definition remaining : M Z Z := PacketFieldCursor.remaining data_.

Definition u8 : M Z Z :=
  let* n := remaining in
  let* o := offset in
  if n <? 1 then raise (RuntimeError ("not enough bytes for u8 at offset " +:+ to_string o))
  else PacketFieldCursor.u8 data_.

Definition tryU8 : M Z (option Z) :=
  let* n := remaining in
  if n <? 1 then ret None else let* out := u8 in ret (Some out).

Definition u16le : M Z Z := PacketFieldCursor.u16le data_.
Definition u16be : M Z Z :=
  let* hi := u8 in let* lo := u8 in ret (to_u16 (Z.lor (Z.shiftl hi 8) lo)).
Definition u32le : M Z Z := PacketFieldCursor.u32le data_.
Definition u32be : M Z Z :=
  let* b0 := u8 in let* b1 := u8 in let* b2 := u8 in let* b3 := u8 in
  ret (Z.lor (Z.lor (Z.lor (to_u32 (Z.shiftl b0 24)) (to_u32 (Z.shiftl b1 16))) (to_u32 (Z.shiftl b2 8))) b3).

(** [for (int i = 0; i < 8; ++i) v |= u8() << (i * 8);] *)
Fixpoint u64le_loop (n : nat) (shift v : Z) : M Z Z :=
  match n with
  | O => ret v
  | S n' => let* b := u8 in u64le_loop n' (shift + 8) (Z.lor v (to_u64 (Z.shiftl b shift)))
  end.
Definition u64le : M Z Z := u64le_loop 8 0 0.

(** [for (int i = 0; i < 8; ++i) v = (v << 8) | u8();] *)
Fixpoint u64be_loop (n : nat) (v : Z) : M Z Z :=
  match n with
  | O => ret v
  | S n' => let* b := u8 in u64be_loop n' (Z.lor (to_u64 (Z.shiftl v 8)) b)
  end.
Definition u64be : M Z Z := u64be_loop 8 0.

Definition i64le : M Z Z := let* v := u64le in ret (to_i64 v).
Definition i64be : M Z Z := let* v := u64be in ret (to_i64 v).
Definition readF32LE : M Z Z := u32le.
Definition readF32BE : M Z Z := u32be.
Definition readF64LE : M Z Z := u64le.
Definition readF64BE : M Z Z := u64be.
Definition i32le : M Z Z := PacketFieldCursor.i32le data_.
Definition i32be : M Z Z := let* v := u32be in ret (to_i32 v).
Definition varuint32 : M Z Z := PacketFieldCursor.varuint32 data_.
Definition varuint64 : M Z Z := PacketFieldCursor.varuint64 data_.
Definition zigzag32 : M Z Z := PacketFieldCursor.zigzag32 data_.
Definition zigzag64 : M Z Z := PacketFieldCursor.zigzag64 data_.
Definition boolean : M Z bool := PacketFieldCursor.boolean data_.
Definition string_ : M Z string := PacketFieldCursor.string_ data_.
Definition skip (n : Z) : M Z unit := PacketFieldCursor.skip data_ n.
Definition rewindTo (o : Z) : M Z unit := PacketFieldCursor.rewindTo data_ o.

(** [for (std::size_t i = 0; i < count; ++i) out.push_back(u8());] *)
Fixpoint read_loop (get : M Z Z) (n : nat) (out : bytes) : M Z bytes :=
  match n with
  | O => ret out
  | S n' => let* b := get in read_loop get n' (out ++ [b])
  end.

Definition readBytes (count : Z) : M Z bytes :=
  let* n := remaining in
  let* o := offset in
  if count >? n then
    raise (RuntimeError ("not enough bytes at offset " +:+ to_string o +:+ " remaining=" +:+ to_string n +:+
      " need=" +:+ to_string count))
  else read_loop (PacketFieldCursor.u8 data_) (Z.to_nat count) [].

End Reader.
End ProtoDefReader.

(** ** What the writer appends *)

Definition puts (m : M bytes unit) (k : bytes) : Prop := forall out, m out = (Ok tt, out ++ k).

Lemma puts_ret : puts (ret tt) [].
Proof. intros out. by rewrite app_nil_r. Qed.
Lemma puts_bind m1 m2 k1 k2 : puts m1 k1 -> puts m2 k2 -> puts (m1 ;;; m2) (k1 ++ k2).
Proof. intros H1 H2 out. rewrite (bind_ok _ _ _ _ _ (H1 out)), H2. by rewrite app_assoc. Qed.

Lemma puts_bytes p : puts (ProtoDefWriter.bytes_ p) p.
Proof. done. Qed.
Lemma puts_u8 v : puts (ProtoDefWriter.u8 v) [v].
Proof. done. Qed.
Lemma puts_u16le v : puts (ProtoDefWriter.u16le v) (le_encode 2 v).
Proof. unfold ProtoDefWriter.u16le. rewrite store_le16_encode. apply puts_bytes. Qed.
Lemma puts_u16be v : puts (ProtoDefWriter.u16be v) (reverse (le_encode 2 v)).
Proof. unfold ProtoDefWriter.u16be. rewrite store_le16_encode. apply puts_bytes. Qed.
Lemma puts_u32le v : puts (ProtoDefWriter.u32le v) (le_encode 4 v).
Proof. unfold ProtoDefWriter.u32le. rewrite store_le32_encode. apply puts_bytes. Qed.
Lemma puts_u32be v : puts (ProtoDefWriter.u32be v) (reverse (le_encode 4 v)).
Proof. unfold ProtoDefWriter.u32be. rewrite store_be32_encode. apply puts_bytes. Qed.
Lemma puts_u64le v : puts (ProtoDefWriter.u64le v) (le_encode 8 v).
Proof. unfold ProtoDefWriter.u64le. rewrite store_le64_encode. apply puts_bytes. Qed.
Lemma puts_u64be v : puts (ProtoDefWriter.u64be v) (reverse (le_encode 8 v)).
Proof. unfold ProtoDefWriter.u64be. rewrite store_le64_encode. apply puts_bytes. Qed.

Lemma puts_varuint32 v : is_u 32 v -> puts (ProtoDefWriter.varuint32 v) (leb_encode 5 v).
Proof.
  intros Hv out. unfold ProtoDefWriter.varuint32. rewrite bind_get. unfold put_st.
  by rewrite write_while_leb by by apply u32_fits_5.
Qed.
Lemma puts_varuint64 v : is_u 64 v -> puts (ProtoDefWriter.varuint64 v) (leb_encode 10 v).
Proof.
  intros Hv out. unfold ProtoDefWriter.varuint64. rewrite bind_get. unfold put_st.
  by rewrite write_while_leb by by apply u64_fits_10.
Qed.
Lemma puts_zigzag32 v : is_s 32 v -> puts (ProtoDefWriter.zigzag32 v) (leb_encode 5 (zigzag v)).
Proof. intros Hv. unfold ProtoDefWriter.zigzag32. rewrite zigzag_shift_ok by (done || lia). apply puts_varuint32, zigzag_range; [lia|done]. Qed.
Lemma puts_zigzag64 v : is_s 64 v -> puts (ProtoDefWriter.zigzag64 v) (leb_encode 10 (zigzag v)).
Proof. intros Hv. unfold ProtoDefWriter.zigzag64. rewrite zigzag_shift_ok by (done || lia). apply puts_varuint64, zigzag_range; [lia|done]. Qed.

Definition enc_string32 (s : string) : bytes := leb_encode 5 (size (bytes_of_string s)) ++ bytes_of_string s.

Lemma puts_string s : is_u 32 (size (bytes_of_string s)) -> puts (ProtoDefWriter.string_ s) (enc_string32 s).
Proof.
  intros Hs. unfold ProtoDefWriter.string_. rewrite to_u32_id by done. by apply puts_bind; [apply puts_varuint32|].
Qed.

(** ** What the reader takes

    [takes d m k a]: where the bytes [k] stand at the offset, [m] returns [a]
    and moves the offset behind them. *)

Section Takes.
Context (d : bytes).

Instance data_source : ByteSource (fetch_at d OutOfFuel) (offset_valid d) (offset_rest d) offset_skip OutOfFuel :=
  offset_source d OutOfFuel.

Definition takes {A} (m : M Z A) (k : bytes) (a : A) : Prop :=
  consumes (offset_valid d) (offset_rest d) offset_skip m k a.

Lemma takes_ret {A} (a : A) : takes (ret a) [] a.
Proof. apply (consumes_ret (fetch := fetch_at d OutOfFuel)). Qed.
Lemma takes_bind {A B} (m : M Z A) (f : A -> M Z B) k1 k2 a b :
  takes m k1 a -> takes (f a) k2 b -> takes (bind m f) (k1 ++ k2) b.
Proof. apply (consumes_bind (fetch := fetch_at d OutOfFuel)). Qed.
Lemma takes_map {A B} (m : M Z A) (g : A -> B) k a : takes m k a -> takes (let* x := m in ret (g x)) k (g a).
Proof. apply (consumes_bind_ret (fetch := fetch_at d OutOfFuel)). Qed.

(** Steps that take no bytes. *)
Lemma takes_eq {A} (m m' : M Z A) k a :
  (forall o r, offset_valid d o -> is_bytes (offset_rest d o) -> offset_rest d o = k ++ r -> m o = m' o) ->
  takes m' k a -> takes m k a.
Proof. intros H H' o r Ho Hb Hr. rewrite (H o r) by done. by apply H' with r. Qed.

Lemma stands o k r : offset_valid d o -> offset_rest d o = k ++ r -> stands_at d k o /\ o + size k <= size d.
Proof.
  intros Ho Hr. destruct (offset_rest_split d o Ho) as (pre & Hd & Hp). rewrite Hr in Hd. split.
  - by exists pre, r.
  - rewrite Hd, !size_app, Hp. pose proof (size_nonneg r). lia.
Qed.

Lemma cursor_has n what o : o + n <= size d -> PacketFieldCursor.require d n what o = (Ok tt, o).
Proof. intros Hn. unfold PacketFieldCursor.require. rewrite bind_get, Z.gtb_ltb. by rewrite (proj2 (Z.ltb_ge _ _)) by lia. Qed.

Lemma takes_word n what load f k :
  (forall o, is_bytes k -> stands_at d k o -> load d o = Ok (f k)) -> is_bytes k -> size k = n ->
  takes (PacketFieldCursor.load_word d n what load) k (f k).
Proof.
  intros Hl Hk Hn o r Ho _ Hr. destruct (stands o k r Ho Hr) as [Hst Hin].
  unfold PacketFieldCursor.load_word. rewrite (bind_ok _ _ _ _ _ (cursor_has n what o ltac:(lia))), bind_get.
  rewrite (Hl o Hk Hst), bind_lift. by rewrite <-Hn.
Qed.

Lemma takes_cursor_u8 b : is_u 8 b -> takes (PacketFieldCursor.u8 d) [b] b.
Proof.
  intros Hb. apply (takes_word 1 "u8" vec_at (fun _ => b) [b]); [|by constructor|done].
  intros o _ Hst. pose proof (stands_at_vec d [b] o 0 b Hst eq_refl) as H. by rewrite Z.add_0_r in H.
Qed.

Lemma remaining_at o : offset_valid d o -> PacketFieldCursor.remaining d o = (Ok (size (offset_rest d o)), o).
Proof.
  intros [H0 H1]. unfold PacketFieldCursor.remaining. rewrite bind_get. unfold ret.
  rewrite (proj2 (Z.leb_le _ _)) by done. unfold offset_rest, size in *. rewrite length_drop. do 2 f_equal. lia.
Qed.

Lemma takes_u8 b : is_u 8 b -> takes (ProtoDefReader.u8 d) [b] b.
Proof.
  intros Hb. eapply takes_eq; [|by apply takes_cursor_u8]. intros o r Ho _ Hr.
  unfold ProtoDefReader.u8, ProtoDefReader.remaining, ProtoDefReader.offset.
  rewrite (bind_ok _ _ _ _ _ (remaining_at o Ho)), bind_get, Hr, size_app. pose proof (size_nonneg r).
  rewrite (proj2 (Z.ltb_ge _ _)); [done|]. rewrite size_cons, size_nil. lia.
Qed.

(** Numbers. *)
Lemma varint_agrees (f f' : M Z Z) w e : (forall o b o', f' o = (Ok b, o') -> f o = (Ok b, o')) ->
  forall l acc o v o', varint_loop f' w e l acc o = (Ok v, o') -> varint_loop f w e l acc o = (Ok v, o').
Proof.
  intros H. induction l as [|x l IH]; intros acc o v o'; [done|]. cbn [varint_loop]. intros E.
  apply bind_inv_ok in E as (b & o1 & E1 & E2). rewrite (bind_ok _ _ _ _ _ (H _ _ _ E1)).
  destruct (_ =? 0); [done|]. by apply IH.
Qed.

Lemma cursor_agrees o b o' : fetch_at d OutOfFuel o = (Ok b, o') -> PacketFieldCursor.u8 d o = (Ok b, o').
Proof.
  unfold fetch_at. rewrite bind_get. destruct (Z.geb_spec o (size d)); [done|]. intros E.
  apply bind_inv_ok in E as (b1 & o1 & E1 & E2). unfold PacketFieldCursor.u8, PacketFieldCursor.load_word.
  rewrite (bind_ok _ _ _ _ _ (cursor_has 1 "u8" o ltac:(lia))), bind_get.
  injection E1 as E1 <-. rewrite E1, bind_lift. done.
Qed.

Lemma takes_varuint32 v : is_u 32 v -> takes (ProtoDefReader.varuint32 d) (leb_encode 5 v) v.
Proof.
  intros Hv o r Ho Hb Hr. apply (varint_agrees _ _ _ _ cursor_agrees).
  by apply (consumes_varint_32 (fetch := fetch_at d OutOfFuel) _ v Hv o r).
Qed.
Lemma takes_varuint64 v : is_u 64 v -> takes (ProtoDefReader.varuint64 d) (leb_encode 10 v) v.
Proof.
  intros Hv o r Ho Hb Hr. apply (varint_agrees _ _ _ _ cursor_agrees).
  by apply (consumes_varint_64 (fetch := fetch_at d OutOfFuel) _ v Hv o r).
Qed.
Lemma takes_zigzag32 v : is_s 32 v -> takes (ProtoDefReader.zigzag32 d) (leb_encode 5 (zigzag v)) v.
Proof.
  intros Hv. pose proof (zigzag_range 32 v ltac:(lia) Hv) as Hz.
  pose proof (takes_map _ (unzigzag_not 32) _ _ (takes_varuint32 _ Hz)) as H.
  by rewrite unzigzag_not_ok, unzigzag_zigzag in H by (done || lia).
Qed.
Lemma takes_zigzag64 v : is_s 64 v -> takes (ProtoDefReader.zigzag64 d) (leb_encode 10 (zigzag v)) v.
Proof.
  intros Hv. pose proof (zigzag_range 64 v ltac:(lia) Hv) as Hz.
  pose proof (takes_map _ (unzigzag_not 64) _ _ (takes_varuint64 _ Hz)) as H.
  by rewrite unzigzag_not_ok, unzigzag_zigzag in H by (done || lia).
Qed.

Lemma takes_u16le v : is_u 16 v -> takes (ProtoDefReader.u16le d) (le_encode 2 v) v.
Proof.
  intros Hv. pose proof (takes_word 2 "u16" load_le16 le_decode (le_encode 2 v)) as H.
  rewrite le_decode_encode, Z.mod_small in H by done. apply H; [|apply le_encode_bytes|apply le_encode_size].
  intros o Hk Hst. rewrite (load_le16_ok _ o _ Hk Hst (le_encode_size 2 v)). rewrite le_decode_encode, Z.mod_small by done. done.
Qed.
Lemma takes_u32le v : is_u 32 v -> takes (ProtoDefReader.u32le d) (le_encode 4 v) v.
Proof.
  intros Hv. pose proof (takes_word 4 "u32" load_le32 le_decode (le_encode 4 v)) as H.
  rewrite le_decode_encode, Z.mod_small in H by done. apply H; [|apply le_encode_bytes|apply le_encode_size].
  intros o Hk Hst. rewrite (load_le32_ok _ o _ Hk Hst (le_encode_size 4 v)). rewrite le_decode_encode, Z.mod_small by done. done.
Qed.

Lemma takes_loop_u8 {A} (f : Z -> M Z A) b k a : is_u 8 b -> takes (f b) k a ->
  takes (bind (ProtoDefReader.u8 d) f) (b :: k) a.
Proof. intros Hb Hf. apply (takes_bind _ _ [b] k b a); [by apply takes_u8|done]. Qed.

Lemma takes_u64le_loop k : is_bytes k -> forall sh v, 0 <= sh -> sh + 8 * size k <= 64 -> 0 <= v < 2 ^ sh ->
  takes (ProtoDefReader.u64le_loop d (length k) sh v) k (v + 2 ^ sh * le_decode k).
Proof.
  induction 1 as [|b k Hb Hk IH]; intros sh v H0 Hs Hv; cbn [length ProtoDefReader.u64le_loop le_decode].
  - rewrite Z.mul_0_r, Z.add_0_r. apply takes_ret.
  - rewrite size_cons in Hs. pose proof (size_nonneg k). apply takes_loop_u8; [done|]. unfold is_u in Hb. change (2 ^ 8) with 256 in Hb.
    assert (to_u64 (Z.shiftl b sh) = b * 2 ^ sh) as ->.
    { rewrite shiftl_mul by lia. apply Z.mod_small. split; [pose proof (pow2_pos sh H0); nia|].
      apply Z.lt_le_trans with (2 ^ 8 * 2 ^ sh); [change (2 ^ 8) with 256; pose proof (pow2_pos sh H0); nia|].
      rewrite <-Z.pow_add_r by lia. apply Z.pow_le_mono_r; lia. }
    rewrite lor_mul_add by lia.
    replace (v + 2 ^ sh * (b + 256 * le_decode k)) with (v + b * 2 ^ sh + 2 ^ (sh + 8) * le_decode k)
      by (rewrite (Z.pow_add_r 2 sh 8) by lia; change (2 ^ 8) with 256; ring).
    apply IH; [lia|lia|]. rewrite (Z.pow_add_r 2 sh 8) by lia. change (2 ^ 8) with 256. pose proof (pow2_pos sh H0). nia.
Qed.

Lemma takes_u64le v : is_u 64 v -> takes (ProtoDefReader.u64le d) (le_encode 8 v) v.
Proof.
  intros Hv. pose proof (takes_u64le_loop (le_encode 8 v) (le_encode_bytes 8 v) 0 0) as H.
  rewrite le_encode_size, le_encode_length, le_decode_encode, Z.mod_small in H by done.
  rewrite Z.add_0_l, Z.mul_1_l in H. apply H; done.
Qed.

Lemma le_decode_snoc k b : le_decode (k ++ [b]) = le_decode k + 256 ^ size k * b.
Proof.
  induction k as [|c k IH]; cbn [app le_decode]; [change (256 ^ size (@nil Z)) with 1; ring|].
  rewrite IH, size_cons, Z.pow_add_r by (lia || apply size_nonneg). change (256 ^ 1) with 256. ring.
Qed.

Lemma takes_u64be_loop k : is_bytes k -> forall v, 0 <= v -> v * 256 ^ size k < 2 ^ 64 -> size k <= 8 ->
  takes (ProtoDefReader.u64be_loop d (length k) v) k (v * 256 ^ size k + le_decode (reverse k)).
Proof.
  induction 1 as [|b k Hb Hk IH]; intros v H0 Hv Hs; cbn [length ProtoDefReader.u64be_loop].
  - rewrite size_nil. change (256 ^ 0) with 1. rewrite Z.mul_1_r, Z.add_0_r. apply takes_ret.
  - rewrite size_cons in *. pose proof (size_nonneg k). apply takes_loop_u8; [done|].
    rewrite reverse_cons, le_decode_snoc.
    replace (size (reverse k)) with (size k) by (unfold size; by rewrite length_reverse).
    rewrite Z.pow_add_r in Hv |- * by lia. change (256 ^ 1) with 256 in *.
    assert (1 <= 256 ^ size k) as Hp by (pose proof (Z.pow_pos_nonneg 256 (size k)); lia).
    unfold is_u in Hb. change (2 ^ 8) with 256 in Hb.
    assert (Z.lor (to_u64 (Z.shiftl v 8)) b = v * 256 + b) as ->.
    { rewrite shiftl_mul by lia. unfold to_u64. rewrite Z.mod_small by (change (2 ^ 8) with 256; nia).
      rewrite Z.lor_comm. rewrite (lor_mul_add b v 8) by (change (2 ^ 8) with 256; lia). change (2 ^ 8) with 256. ring. }
    replace (v * (256 ^ size k * 256) + (le_decode (reverse k) + 256 ^ size k * b))
      with ((v * 256 + b) * 256 ^ size k + le_decode (reverse k)) by ring.
    apply IH; [lia| |lia].
    assert (256 ^ size k * 256 <= 2 ^ 64) as Hq.
    { change 256 with (256 ^ 1) at 2. rewrite <-Z.pow_add_r by lia. change (2 ^ 64) with (256 ^ 8). apply Z.pow_le_mono_r; lia. }
    assert (exists q, 2 ^ 64 = q * (256 ^ size k * 256)) as [q Eq].
    { exists (256 ^ (7 - size k)). change 256 with (256 ^ 1) at 3. rewrite <-!Z.pow_add_r by lia.
      change (2 ^ 64) with (256 ^ 8). f_equal. lia. }
    rewrite Eq in Hv |- *. assert (v < q) by nia. nia.
Qed.

Lemma takes_u64be v : is_u 64 v -> takes (ProtoDefReader.u64be d) (reverse (le_encode 8 v)) v.
Proof.
  intros Hv. pose proof (takes_u64be_loop (reverse (le_encode 8 v))) as H.
  assert (size (reverse (le_encode 8 v)) = 8) as Hs by (unfold size; by rewrite length_reverse, le_encode_length).
  rewrite Hs, length_reverse, le_encode_length, reverse_involutive, le_decode_encode, Z.mod_small in H by done.
  specialize (H ltac:(apply Forall_reverse, le_encode_bytes) 0 ltac:(lia) ltac:(done) ltac:(lia)). by rewrite Z.add_0_l in H.
Qed.

Lemma takes_u16be v : is_u 16 v -> takes (ProtoDefReader.u16be d) (reverse (le_encode 2 v)) v.
Proof.
  intros Hv. unfold is_u in Hv. change (2 ^ 16) with 65536 in Hv.
  change (reverse (le_encode 2 v)) with [(v / 256) mod 256; v mod 256].
  apply takes_loop_u8; [by apply (to_u_range 8)|]. apply takes_loop_u8; [by apply (to_u_range 8)|].
  replace (ret _) with (ret (S := Z) v); [apply takes_ret|]. f_equal.
  rewrite Z.lor_comm. rewrite lor_shiftl_add by (lia || (apply Z.mod_pos_bound; lia)).
  rewrite (Z.mod_small (v / 256)) by (split; [apply Z.div_pos; lia|apply Z.div_lt_upper_bound; lia]).
  pose proof (Z.div_mod v 256 ltac:(lia)). unfold to_u16. change (2 ^ 8) with 256. rewrite Z.mod_small; lia.
Qed.

Lemma takes_u32be v : is_u 32 v -> takes (ProtoDefReader.u32be d) (reverse (le_encode 4 v)) v.
Proof.
  intros Hv. pose proof (le_encode_bytes 4 v) as Hb. pose proof (le_decode_encode 4 v) as Hd. rewrite Z.mod_small in Hd by done.
  pose proof (le_encode_length 4 v) as Hl.
  destruct (le_encode 4 v) as [|b3 [|b2 [|b1 [|b0 [|? ?]]]]]; try done.
  assert (is_u 8 b0 /\ is_u 8 b1 /\ is_u 8 b2 /\ is_u 8 b3) as (H0 & H1 & H2 & H3) by (rewrite !list.Forall_cons in Hb; tauto).
  change (reverse [b3; b2; b1; b0]) with [b0; b1; b2; b3].
  do 4 (apply takes_loop_u8; [done|]). rewrite lor_be32 by (by repeat apply List.Forall_cons). rewrite Hd. apply takes_ret.
Qed.

Lemma takes_read_loop k : is_bytes k -> forall out,
  takes (ProtoDefReader.read_loop (PacketFieldCursor.u8 d) (length k) out) k (out ++ k).
Proof.
  induction 1 as [|b k Hb _ IH]; intros out; cbn [length ProtoDefReader.read_loop]; [rewrite app_nil_r; apply takes_ret|].
  apply (takes_bind _ _ [b] k b); [by apply takes_cursor_u8|]. specialize (IH (out ++ [b])). by rewrite <-app_assoc in IH.
Qed.

Lemma takes_readBytes k : is_bytes k -> takes (ProtoDefReader.readBytes d (size k)) k k.
Proof.
  intros Hk. eapply takes_eq; [|by apply (takes_read_loop k Hk [])]. intros o r Ho _ Hr.
  unfold ProtoDefReader.readBytes, ProtoDefReader.remaining, ProtoDefReader.offset.
  rewrite (bind_ok _ _ _ _ _ (remaining_at o Ho)), bind_get, Hr, size_app, Z.gtb_ltb. pose proof (size_nonneg r).
  rewrite (proj2 (Z.ltb_ge _ _)) by lia. unfold size. by rewrite Nat2Z.id.
Qed.

Lemma takes_string s : is_u 32 (size (bytes_of_string s)) -> takes (ProtoDefReader.string_ d) (enc_string32 s) s.
Proof.
  intros Hs. unfold ProtoDefReader.string_, PacketFieldCursor.string_. apply takes_bind with (size (bytes_of_string s)).
  { by apply takes_varuint32. }
  intros o r Ho _ Hr. destruct (stands o _ r Ho Hr) as [Hst Hin].
  rewrite (bind_ok _ _ _ _ _ (cursor_has _ _ o Hin)), bind_get.
  destruct Hst as (pre & post & Hd & <-). rewrite Hd. rewrite (vec_range_app pre _ post) by done.
  rewrite bind_lift, bind_put. unfold ret. by rewrite string_bytes_string.
Qed.

Lemma takes_bool b : takes (ProtoDefReader.boolean d) [if b : bool then 1 else 0] b.
Proof.
  unfold ProtoDefReader.boolean, PacketFieldCursor.boolean.
  pose proof (takes_map (PacketFieldCursor.u8 d) (fun v => negb (v =? 0)) _ _ (takes_cursor_u8 (if b then 1 else 0) ltac:(by destruct b))) as H.
  by destruct b.
Qed.

Lemma takes_signed (m : M Z Z) w v k : 0 < w -> is_s w v -> takes m k (v mod 2 ^ w) ->
  takes (let* u := m in ret (to_signed w u)) k v.
Proof. intros Hw Hv Hm. pose proof (takes_map _ (to_signed w) _ _ Hm) as H. by rewrite to_signed_mod in H. Qed.
End Takes.
