(* ===== verification/ProtoDefNbt.v ===== *)
(** * NBT as ProtoDef values (src/src/protodef/ProtoDefNbt.cpp)

    The conversions between [NbtValue] and the public shape
    [{ type, name?, value }], and the reading and writing of NBT inside a
    packet.  Doubles are bit patterns. *)

From S2P Require Import Prelude MachineInt Leb128 Endian FloatBits BinaryStream GamePacket Text FloatText Nbt ProtoDefData ProtoDefJson ProtoDefStream.

Module ProtoDefNbt.
Import ProtoDefJson.

Definition nbt_error (msg : string) : exn := BedrockNbtError msg.

Definition requiredField (object : ProtoDefValue) (key : string) : result ProtoDefValue :=
  match object with
  | Object _ =>
      match get_value key object with
      | Some v => Ok v
      | None => Throw (nbt_error ("NBT tag is missing field: " +:+ key))
      end
  | _ => Throw (nbt_error "NBT tag must be an object")
  end.

Definition string_value (value : ProtoDefValue) (what : string) : result string :=
  match value with String_ s => Ok s | _ => Throw (nbt_error (what +:+ " must be a string")) end.

Definition integer_value (value : ProtoDefValue) (what : string) : result Z :=
  match value with
  | Int v => Ok v
  | UInt v => Ok (to_i64 v)
  | Bool b => Ok (if b then 1 else 0)
  | Double d => int_of_f64 (- 2 ^ 63) (2 ^ 63) d
  | String_ s => rcatch (stoll s) (fun _ => Throw (nbt_error (what +:+ " is not a signed integer")))
  | _ => Throw (nbt_error (what +:+ " must be an integer"))
  end.

Definition floatingValue (value : ProtoDefValue) (what : string) : result Z :=
  match value with
  | Double d => Ok d
  | Int v => Ok (f64_of_int v)
  | UInt v => Ok (f64_of_int v)
  | Bool b => Ok (f64_of_int (if b then 1 else 0))
  | _ => Throw (nbt_error (what +:+ " must be numeric"))
  end.

(** [checkedInteger<intW_t>]. *)
Definition checked_integer (w : Z) (value : ProtoDefValue) (what : string) : result Z :=
  let! number := integer_value value what in
  if bool_decide (is_s w number) then Ok number else Throw (nbt_error (what +:+ " is out of range")).

Definition longValue (value : ProtoDefValue) (what : string) : result Z :=
  match value with
  | Array items =>
      match items with
      | [h; l] =>
          let! high := checked_integer 32 h what in
          let! low := checked_integer 32 l what in
          Ok (to_i64 (Z.lor (to_u64 (Z.shiftl (to_u32 high) 32)) (to_u32 low)))
      | _ => Throw (nbt_error (what +:+ " word pair must contain [high, low]"))
      end
  | _ => integer_value value what
  end.

Definition tagNameFromNode (value : ProtoDefValue) : result string :=
  match value with
  | Object _ =>
      match get_value "type" value with
      | Some t => string_value t "NBT type"
      | None =>
          match get_value "tag" value with
          | Some t => string_value t "NBT tag"
          | None => Throw (nbt_error "NBT tag is missing type")
          end
      end
  | _ => Throw (nbt_error "NBT tag must be an object")
  end.

(** The names of the tags. *)
Definition protoDefNbtTagName (t : NbtTagType) : string :=
  match t with
  | TagEnd => "end" | TagByte => "byte" | TagShort => "short" | TagInt => "int" | TagLong => "long"
  | TagFloat => "float" | TagDouble => "double" | TagByteArray => "byteArray" | TagString => "string"
  | TagList => "list" | TagCompound => "compound" | TagIntArray => "intArray" | TagLongArray => "longArray"
  end.

Definition protoDefNbtTagType (name : string) : result NbtTagType :=
  if bool_decide (name = "end") then Ok TagEnd
  else if bool_decide (name = "byte") then Ok TagByte
  else if bool_decide (name = "short") then Ok TagShort
  else if bool_decide (name = "int") then Ok TagInt
  else if bool_decide (name = "long") then Ok TagLong
  else if bool_decide (name = "float") then Ok TagFloat
  else if bool_decide (name = "double") then Ok TagDouble
  else if bool_decide (name = "byteArray") then Ok TagByteArray
  else if bool_decide (name = "string") then Ok TagString
  else if bool_decide (name = "list") then Ok TagList
  else if bool_decide (name = "compound") then Ok TagCompound
  else if bool_decide (name = "intArray") then Ok TagIntArray
  else if bool_decide (name = "longArray") then Ok TagLongArray
  else Throw (nbt_error ("unknown NBT tag type: " +:+ name)).

Definition listPayload (payload : ProtoDefValue) : result ProtoDefValue :=
  match payload with
  | Object _ => requiredField payload "value"
  | _ => Throw (nbt_error "NBT list value must be an object")
  end.

Definition list_element_type (payload : ProtoDefValue) : result NbtTagType :=
  match get_value "type" payload with
  | Some t => let! name := string_value t "NBT list type" in protoDefNbtTagType name
  | None =>
      match get_value "childTag" payload with
      | Some t => let! name := string_value t "NBT list childTag" in protoDefNbtTagType name
      | None => Throw (nbt_error "NBT list is missing element type")
      end
  end.

(** [for (const auto& item : items) out.push_back(f(item));] *)
Fixpoint collect {A B} (f : A -> result B) (items : list A) : result (list B) :=
  match items with
  | [] => Ok []
  | x :: items' => let! y := f x in let! out := collect f items' in Ok (y :: out)
  end.

Definition byte_array_value (payload : ProtoDefValue) : result bytes :=
  match payload with
  | Bytes b => Ok b
  | Array items =>
      collect (fun item => let! v := checked_integer 8 item "NBT byteArray item" in Ok (to_u8 v)) items
  | _ => Throw (nbt_error "NBT byteArray value must be bytes or an array")
  end.

Definition tagNode (type : string) (payload : ProtoDefValue) : ProtoDefValue :=
  Object [("type", String_ type); ("value", payload)].

(** The names in the order of [std::sort]. *)
Fixpoint insert_entry {V} (e : string * V) (l : list (string * V)) : list (string * V) :=
  match l with
  | [] => [e]
  | x :: l' => if String.leb (fst e) (fst x) then e :: l else x :: insert_entry e l'
  end.
Definition sorted_entries {V} (l : list (string * V)) : list (string * V) := foldr insert_entry [] l.

(** A bound on the nesting of a value. *)
Fixpoint value_height (v : ProtoDefValue) : nat :=
  match v with
  | Object es => S (foldr (fun e n => Nat.max (value_height (snd e)) n) 0%nat es)
  | Array vs => S (foldr (fun e n => Nat.max (value_height e) n) 0%nat vs)
  | _ => 1%nat
  end.

(** [protoDefValueToNbtValue]; [node] converts a nested node. *)
Section Payload.
Context (node : ProtoDefValue -> result NbtValue).

Definition named_child (e : string * ProtoDefValue) : result (string * NbtValue) :=
  let! converted := node (snd e) in
  if bool_decide (type converted = TagEnd) then Throw (nbt_error "NBT compound cannot contain a named TAG_End")
  else Ok (fst e, converted).

Definition nbt_payload (t : NbtTagType) (payload : ProtoDefValue) : result NbtValue :=
  match t with
  | TagEnd => Ok nbt_end
  | TagByte => let! v := checked_integer 8 payload "NBT byte value" in Ok (nbt_byte v)
  | TagShort => let! v := checked_integer 16 payload "NBT short value" in Ok (nbt_short v)
  | TagInt => let! v := checked_integer 32 payload "NBT int value" in Ok (nbt_int v)
  | TagLong => let! v := longValue payload "NBT long value" in Ok (nbt_long v)
  | TagFloat => let! v := floatingValue payload "NBT float value" in Ok (nbt_floating (f32_of_f64 v))
  | TagDouble => let! v := floatingValue payload "NBT double value" in Ok (nbt_double v)
  | TagByteArray => let! v := byte_array_value payload in Ok (nbt_byteArray v)
  | TagString => let! v := string_value payload "NBT string value" in Ok (nbt_string v)
  | TagList =>
      let! elementType := list_element_type payload in
      let! values := listPayload payload in
      match values with
      | Array items =>
          let! out := collect (fun item => node (tagNode (protoDefNbtTagName elementType) item)) items in
          Ok (nbt_list elementType out)
      | _ => Throw (nbt_error "NBT list items must be an array")
      end
  | TagCompound =>
      match payload with
      | Object entries => let! out := collect named_child (sorted_entries entries) in Ok (nbt_compound out)
      | _ => Throw (nbt_error "NBT compound value must be an object")
      end
  | TagIntArray =>
      match payload with
      | Array items => let! out := collect (fun i => checked_integer 32 i "NBT intArray item") items in Ok (nbt_intArray out)
      | _ => Throw (nbt_error "NBT intArray value must be an array")
      end
  | TagLongArray =>
      match payload with
      | Array items => let! out := collect (fun i => longValue i "NBT longArray item") items in Ok (nbt_longArray out)
      | _ => Throw (nbt_error "NBT longArray value must be an array")
      end
  end.
End Payload.

Fixpoint nbt_of_node (fuel : nat) (value : ProtoDefValue) : result NbtValue :=
  match fuel with
  | O => Throw OutOfFuel
  | S fuel' =>
      match value with
      | Null => Ok nbt_end
      | _ =>
          let! name := tagNameFromNode value in
          let! t := protoDefNbtTagType name in
          if bool_decide (t = TagEnd) then Ok nbt_end
          else let! payload := requiredField value "value" in nbt_payload (nbt_of_node fuel') t payload
      end
  end.

(** A nested node, made around an item of a list or not, is at most as high as
    the value it is nested in. *)
Definition protoDefValueToNbtValue (value : ProtoDefValue) : result NbtValue := nbt_of_node (value_height value) value.

Fixpoint nbtValueToProtoDefValue (value : NbtValue) : ProtoDefValue :=
  match value with
  | mkNbt t i f s ba et lv cv ia la =>
      match t with
      | TagEnd => tagNode "end" Null
      | TagByte | TagShort | TagInt | TagLong => tagNode (protoDefNbtTagName t) (Int i)
      | TagFloat | TagDouble => tagNode (protoDefNbtTagName t) (Double f)
      | TagByteArray => tagNode "byteArray" (Array (map (fun b => Int (to_i8 b)) ba))
      | TagString => tagNode "string" (String_ s)
      | TagList =>
          let values := map (fun item => default Null (get_value "value" (nbtValueToProtoDefValue item))) lv in
          tagNode "list" (Object [("type", String_ (protoDefNbtTagName et)); ("value", Array values)])
      | TagCompound =>
          tagNode "compound" (Object
            (fold_left (fun values c => set_entry (fst c) (snd c) values)
              (map (fun c => (fst c, nbtValueToProtoDefValue (snd c))) cv) []))
      | TagIntArray => tagNode "intArray" (Array (map Int ia))
      | TagLongArray => tagNode "longArray" (Array (map Int la))
      end
  end.

Definition protoDefValueToNbtDocument (value : ProtoDefValue) : result NbtDocument :=
  match value with
  | Null => Ok (mkDocument "" nbt_end)
  | _ =>
      let! name :=
        match get_value "name" value with
        | Some n => string_value n "NBT root name"
        | None => Ok ""
        end in
      let! root := protoDefValueToNbtValue value in
      Ok (mkDocument name root)
  end.

Definition nbtDocumentToProtoDefValue (document : NbtDocument) : ProtoDefValue :=
  match nbtValueToProtoDefValue (root document) with
  | Object entries => Object (set_entry "name" (String_ (doc_name document)) entries)
  | v => v
  end.

Definition writeProtoDefNbt (value : ProtoDefValue) (encoding : BedrockNbtEncoding) : M bytes unit :=
  match value with
  | Bytes b => ProtoDefWriter.bytes_ b
  | _ =>
      let* document := lift (protoDefValueToNbtDocument value) in
      if bool_decide (type (root document) = TagEnd) then
        ProtoDefWriter.u8 0 ;;;
        (if bool_decide (encoding = LittleVarInt) then ProtoDefWriter.string_ (doc_name document) else ret tt)
      else
        let* stream := lift (exec (write encoding default_limits document) empty_stream) in
        ProtoDefWriter.bytes_ (readableBuffer stream)
  end.

(** [document] is read from a view of the reader's bytes. *)
Definition read_document_at (data : bytes) (start : Z) (encoding : BedrockNbtEncoding) : result (NbtDocument * Z) :=
  let! stream := view data start in
  let! first := vec_at data start in
  let m :=
    if first =? 0 then
      let* _ := readU8 in
      let* name := (if bool_decide (encoding = LittleVarInt) then BinaryStream.readString else ret "") in
      ret (mkDocument name nbt_end)
    else read encoding default_limits in
  match m stream with
  | (Ok document, stream) => Ok (document, BinaryStream.offset stream)
  | (Throw e, _) => Throw e
  end.

Definition readProtoDefNbt (data : bytes) (encoding : BedrockNbtEncoding) : M Z ProtoDefValue :=
  let* n := ProtoDefReader.remaining data in
  if n =? 0 then raise (nbt_error "not enough bytes for NBT root tag")
  else
    let* start := ProtoDefReader.offset in
    let* (document, stop) := lift (read_document_at data start encoding) in
    ProtoDefReader.skip data (stop - start) ;;;
    ret (nbtDocumentToProtoDefValue document).

End ProtoDefNbt.

Import ProtoDefJson ProtoDefNbt.

(** ** NBT survives the conversion *)

(** The children of every compound in the order of their names, each name once. *)
Fixpoint tidy (v : NbtValue) : Prop :=
  match v with
  | mkNbt t _ _ _ _ _ lv cv _ _ =>
      match t with
      | TagList => foldr (fun x P => tidy x /\ P) True lv
      | TagCompound =>
          sorted_entries cv = cv /\ base.NoDup (map fst cv) /\ foldr (fun c P => tidy (snd c) /\ P) True cv
      | _ => True
      end
  end.

Lemma tag_name_type t : protoDefNbtTagType (protoDefNbtTagName t) = Ok t.
Proof. by destruct t. Qed.

Lemma node_shape v : exists p, nbtValueToProtoDefValue v = tagNode (protoDefNbtTagName (type v)) p.
Proof. destruct v as [t i f s ba et lv cv ia la]. destruct t; by eexists. Qed.

Lemma insert_entry_map {V W} (g : string * V -> string * W) (Hg : forall e, fst (g e) = fst e) e l :
  insert_entry (g e) (map g l) = map g (insert_entry e l).
Proof. induction l as [|x l IH]; [done|]. cbn. rewrite !Hg. destruct (String.leb _ _); [done|]. cbn. by rewrite IH. Qed.

Lemma sorted_map {V W} (g : string * V -> string * W) (Hg : forall e, fst (g e) = fst e) l :
  sorted_entries (map g l) = map g (sorted_entries l).
Proof. induction l as [|x l IH]; [done|]. cbn. unfold sorted_entries in IH |- *. by rewrite IH, insert_entry_map. Qed.

Lemma collect_ok {A B C} (f : B -> result C) (g : A -> B) (h : A -> C) l :
  (forall x, x ∈ l -> f (g x) = Ok (h x)) -> collect f (map g l) = Ok (map h l).
Proof.
  induction l as [|x l IH]; intros H; [done|]. cbn. rewrite H by left. cbn. rewrite IH; [done|].
  intros y Hy. apply H. by right.
Qed.

Lemma collect_same {A B} (f : B -> result A) (g : A -> B) l :
  (forall x, x ∈ l -> f (g x) = Ok x) -> collect f (map g l) = Ok l.
Proof. intros H. rewrite (collect_ok f g (fun x => x)) by done. by rewrite map_id. Qed.

Lemma set_entries_new {V} (l : list (string * V)) : base.NoDup (map fst l) ->
  fold_left (fun values c => set_entry (fst c) (snd c) values) l [] = l.
Proof.
  assert (forall acc, base.NoDup (map fst (acc ++ l)) ->
    fold_left (fun values c => set_entry (fst c) (snd c) values) l acc = acc ++ l) as H; [|apply (H [])].
  induction l as [|[k v] l IH]; intros acc Hd; [by rewrite app_nil_r|]. cbn [fold_left fst snd].
  rewrite set_entry_new.
  - rewrite IH; by rewrite <-app_assoc.
  - rewrite map_app in Hd. apply list.NoDup_app in Hd as (_ & Hd & _). intros Hk. by apply (Hd k Hk); left.
Qed.

Lemma height_pos v : (1 <= value_height v)%nat.
Proof. destruct v; cbn; lia. Qed.

Lemma max_elem {A B} (h : B -> nat) (f : A -> B) (l : list A) x :
  x ∈ l -> (h (f x) <= foldr (fun e n => Nat.max (h e) n) 0%nat (map f l))%nat.
Proof. induction 1; cbn; lia. Qed.

Lemma checked_int w i what : is_s w i -> checked_integer w (Int i) what = Ok i.
Proof. intros H. unfold checked_integer. cbn. by rewrite bool_decide_true. Qed.

(** A node whose type and payload are there. *)
Lemma node_step fuel t p : t <> TagEnd ->
  nbt_of_node (S fuel) (tagNode (protoDefNbtTagName t) p) = nbt_payload (nbt_of_node fuel) t p.
Proof. intros H. destruct t; first [done|reflexivity]. Qed.

Lemma foldr_elem {A} (P : A -> Prop) l x : foldr (fun e Q => P e /\ Q) True l -> x ∈ l -> P x.
Proof. intros H. apply foldr_and_Forall in H. rewrite list.Forall_forall in H. apply H. Qed.

Lemma nbt_node_back enc lim v : forall d fuel, nbt_ok enc lim d v -> tidy v ->
  (value_height (nbtValueToProtoDefValue v) <= fuel)%nat ->
  nbt_of_node fuel (nbtValueToProtoDefValue v) = Ok v.
Proof.
  induction v as [t i f s ba et lv cv ia la IHl IHc] using nbt_induction. rewrite list.Forall_forall in IHl. rewrite list.Forall_forall in IHc.
  intros d [|fuel] Hok Ht Hf; [pose proof (height_pos (nbtValueToProtoDefValue (mkNbt t i f s ba et lv cv ia la))); lia|].
  destruct Hok as [_ Hok].
  assert (forall t p, t <> TagEnd -> nbt_of_node (S fuel) (tagNode (protoDefNbtTagName t) p) =
    nbt_payload (nbt_of_node fuel) t p) as Hs by (intros; by apply node_step).
  destruct t.
  - by rewrite Hok.
  - destruct Hok as [-> Hi]. refine (eq_trans (Hs TagByte _ ltac:(done)) _). cbn [nbt_payload]. by rewrite checked_int.
  - destruct Hok as [-> Hi]. refine (eq_trans (Hs TagShort _ ltac:(done)) _). cbn [nbt_payload]. by rewrite checked_int.
  - destruct Hok as [-> Hi]. refine (eq_trans (Hs TagInt _ ltac:(done)) _). cbn [nbt_payload]. by rewrite checked_int.
  - destruct Hok as [-> Hi]. by refine (eq_trans (Hs TagLong _ ltac:(done)) _).
  - destruct Hok as (-> & _ & Hi). refine (eq_trans (Hs TagFloat _ ltac:(done)) _). cbn. unfold nbt_floating. by rewrite Hi.
  - destruct Hok as [-> Hi]. by refine (eq_trans (Hs TagDouble _ ltac:(done)) _).
  - destruct Hok as (-> & Hb & _). refine (eq_trans (Hs TagByteArray _ ltac:(done)) _). cbn [nbt_payload byte_array_value].
    rewrite (collect_same _ (fun b => Int (to_i8 b))); [done|].
    intros b Hin. rewrite list.Forall_forall in Hb. specialize (Hb b Hin).
    rewrite checked_int by (by apply to_signed_range). cbn. unfold to_u8, to_i8. rewrite mod_to_signed by lia.
    f_equal. by apply Z.mod_small.
  - destruct Hok as [-> Hi]. by refine (eq_trans (Hs TagString _ ltac:(done)) _).
  - destruct Hok as (-> & He & _ & Hok). cbn [nbt_list nbtValueToProtoDefValue] in Hf |- *.
    rewrite (Hs TagList) by done. cbn [nbt_payload].
    change (list_element_type _) with (protoDefNbtTagType (protoDefNbtTagName et)). rewrite tag_name_type. cbn [rbind].
    change (listPayload _) with (Ok (Array (map (fun item => default Null (get_value "value" (nbtValueToProtoDefValue item))) lv))).
    cbn [rbind]. rewrite collect_same; [done|]. intros x Hx.
    destruct (foldr_elem _ _ _ Hok Hx) as [Hty Hxok]. destruct (node_shape x) as [p Ep].
    assert (tagNode (protoDefNbtTagName et) (default Null (get_value "value" (nbtValueToProtoDefValue x))) =
      nbtValueToProtoDefValue x) as -> by (rewrite Ep, <-Hty; done).
    eapply (IHl x Hx); [done|exact (foldr_elem _ _ _ Ht Hx)|].
    rewrite Ep in *. cbn in Hf |- *.
    pose proof (max_elem value_height (fun item => default Null (get_value "value" (nbtValueToProtoDefValue item))) lv x Hx) as Hm.
    cbv beta in Hm. rewrite Ep in Hm. change (value_height p <= foldr (fun e n => Nat.max (value_height e) n) 0%nat
      (map (fun item => default Null (get_value "value" (nbtValueToProtoDefValue item))) lv))%nat in Hm.
    pose proof (height_pos p). lia.
  - destruct Hok as (-> & _ & Hok). destruct Ht as (Hsort & Hd & Ht). cbn [nbt_compound nbtValueToProtoDefValue] in Hf |- *.
    set (g := fun c : string * NbtValue => (fst c, nbtValueToProtoDefValue (snd c))) in *.
    rewrite set_entries_new in Hf |- * by (by rewrite map_map).
    rewrite (Hs TagCompound) by done. cbn [nbt_payload].
    rewrite (sorted_map g), Hsort by done. rewrite collect_same; [done|]. intros c Hc.
    destruct (foldr_elem _ _ _ Hok Hc) as (Hty & _ & Hcok). unfold named_child. cbn [g fst snd].
    rewrite (IHc c Hc _ fuel Hcok (foldr_elem _ _ _ Ht Hc)).
    + cbn [rbind]. rewrite bool_decide_false by done. by destruct c.
    + cbn in Hf. pose proof (max_elem (fun e => value_height (snd e)) g cv c Hc) as Hm.
      cbn in Hm. lia.
  - destruct Hok as (-> & Hi & _). refine (eq_trans (Hs TagIntArray _ ltac:(done)) _). cbn [nbt_payload].
    rewrite collect_same; [done|]. intros x Hx. rewrite list.Forall_forall in Hi. by apply checked_int, Hi.
  - destruct Hok as (-> & Hi & _). refine (eq_trans (Hs TagLongArray _ ltac:(done)) _). cbn [nbt_payload].
    by rewrite collect_same.
Qed.

Lemma named_node fuel t p n : nbt_of_node (S fuel) (Object [("type", String_ (protoDefNbtTagName t)); ("value", p); ("name", n)]) =
  nbt_of_node (S fuel) (tagNode (protoDefNbtTagName t) p).
Proof. by destruct t. Qed.

Lemma nbt_document_back enc doc : document_ok enc default_limits doc -> tidy (root doc) ->
  protoDefValueToNbtDocument (nbtDocumentToProtoDefValue doc) = Ok doc.
Proof.
  intros Hok Ht. unfold document_ok in Hok. destruct doc as [name v]. cbn [root doc_name] in *.
  assert (nbt_ok enc default_limits 0 v) as Hv.
  { destruct (type v); try apply Hok. injection Hok as -> ->. by split. }
  assert (type v = TagEnd -> name = "") as He by (intros E; rewrite E in Hok; congruence).
  clear Hok. destruct (node_shape v) as [p Ep].
  unfold nbtDocumentToProtoDefValue. cbn [root doc_name].
  pose proof (nbt_node_back enc default_limits v 0 (value_height (nbtValueToProtoDefValue v)) Hv Ht (le_n _)) as Hb.
  rewrite Ep in Hb |- *.
  set (node := Object [("type", String_ (protoDefNbtTagName (type v))); ("value", p); ("name", String_ name)]).
  transitivity (let! root := protoDefValueToNbtValue node in Ok (mkDocument name root)); [reflexivity|].
  unfold protoDefValueToNbtValue, node.
  assert (value_height (Object [("type", String_ (protoDefNbtTagName (type v))); ("value", p); ("name", String_ name)]) =
    value_height (tagNode (protoDefNbtTagName (type v)) p)) as -> by (pose proof (height_pos p); cbn; lia).
  destruct (value_height (tagNode _ p)) as [|h]; [done|]. by rewrite named_node, Hb.
Qed.

Definition packet_nbt (enc : BedrockNbtEncoding) (doc : NbtDocument) : bytes :=
  if bool_decide (type (root doc) = TagEnd) then
    match enc with LittleVarInt => [0; 0] | LittleEndian => [0] end
  else enc_document enc doc.

Lemma write_nbt_ok enc doc out : document_ok enc default_limits doc -> tidy (root doc) ->
  writeProtoDefNbt (nbtDocumentToProtoDefValue doc) enc out = (Ok tt, out ++ packet_nbt enc doc).
Proof.
  intros Hok Ht. pose proof (nbt_document_back enc doc Hok Ht) as Hb.
  assert (exists es, nbtDocumentToProtoDefValue doc = Object es) as [es Ees].
  { unfold nbtDocumentToProtoDefValue. destruct (node_shape (root doc)) as [p ->]. by eexists. }
  rewrite Ees in *. unfold writeProtoDefNbt. rewrite Hb, bind_lift. unfold packet_nbt.
  case_bool_decide as Et.
  - assert (doc = mkDocument "" nbt_end) as -> by (unfold document_ok in Hok; by rewrite Et in Hok).
    assert (forall out, (ProtoDefWriter.u8 0 ;;; ProtoDefWriter.string_ "") out = (Ok tt, out ++ [0; 0])) as H.
    { apply (puts_bind _ _ [0] [0]); [done|]. by apply (puts_string ""). }
    destruct enc; [done|apply H].
  - unfold exec. rewrite write_document by done. by rewrite bind_lift.
Qed.

Lemma read_nbt_ok d enc doc : is_bytes d -> document_ok enc default_limits doc -> tidy (root doc) ->
  takes d (readProtoDefNbt d enc) (packet_nbt enc doc) (nbtDocumentToProtoDefValue doc).
Proof.
  intros Hd Hok Ht o r Ho _ Hr. destruct (stands d o _ r Ho Hr) as [Hst Hin].
  assert (exists b k, packet_nbt enc doc = b :: k /\ (b =? 0) = bool_decide (type (root doc) = TagEnd)) as (b & k & Ek & Eb).
  { unfold packet_nbt, enc_document. destruct (type (root doc)), enc; by eexists _, _. }
  assert (0 < size (packet_nbt enc doc)) as Hpos by (rewrite Ek, size_cons; pose proof (size_nonneg k); lia).
  assert (view d o = Ok (mkBinaryStream [] (Some d) o)) as Hview.
  { unfold view. rewrite Z.gtb_ltb. by rewrite (proj2 (Z.ltb_ge _ _)) by (destruct Ho; lia). }
  assert (vec_at d o = Ok b) as Hat.
  { rewrite Ek in Hst. pose proof (stands_at_vec d _ o 0 b Hst eq_refl) as E. by rewrite Z.add_0_r in E. }
  assert (read_document_at d o enc = Ok (doc, o + size (packet_nbt enc doc))) as Hread.
  { unfold read_document_at. rewrite Hview. cbn [rbind]. rewrite Hat. cbn [rbind]. rewrite Eb.
    assert (forall m, reads m (packet_nbt enc doc) doc ->
      match m (mkBinaryStream [] (Some d) o) with
      | (Ok document, stream) => Ok (document, BinaryStream.offset stream)
      | (Throw e, _) => Throw e
      end = Ok (doc, o + size (packet_nbt enc doc))) as Hm.
    { intros m Hm. rewrite (Hm _ r); [done|done| |done]. cbn. by apply Forall_drop. }
    case_bool_decide as Et.
    - assert (doc = mkDocument "" nbt_end) as -> by (unfold document_ok in Hok; by rewrite Et in Hok).
      destruct enc; apply Hm; cbn [packet_nbt].
      + apply (consumes_bind_ret readU8 (fun _ => mkDocument "" nbt_end) [0] 0), reads_U8.
      + apply (consumes_bind _ _ [0] [0] 0 (mkDocument "" nbt_end)); [apply reads_U8|].
        by apply (consumes_bind_ret BinaryStream.readString (fun name => mkDocument name nbt_end) [0] ""), (reads_string "").
    - apply Hm. unfold packet_nbt. rewrite bool_decide_false by done. by apply read_document. }
  unfold readProtoDefNbt, ProtoDefReader.remaining, ProtoDefReader.offset.
  rewrite (bind_ok _ _ _ _ _ (remaining_at d o Ho)), Hr, size_app. pose proof (size_nonneg r).
  rewrite (proj2 (Z.eqb_neq _ _)) by lia. rewrite bind_get, Hread, bind_lift.
  replace (o + _ - o) with (size (packet_nbt enc doc)) by lia.
  unfold ProtoDefReader.skip, PacketFieldCursor.skip. rewrite bind_assoc.
  rewrite (bind_ok _ _ _ _ _ (cursor_has d _ "skip" o Hin)), bind_assoc, bind_get, bind_put. done.
Qed.

(** C31: NBT inside a packet round-trips through the public shape
    [{ type, name, value }]: a document within the limits whose compounds have
    their children by name is turned to a ProtoDef value and back unchanged;
    [writeProtoDefNbt] appends its encoding to the packet, and wherever that
    encoding stands in a packet [readProtoDefNbt] reads the same value and
    leaves the cursor just behind it.  Both encodings, TAG_End roots included. *)
Theorem nbt_value_roundtrip enc doc : document_ok enc default_limits doc -> tidy (root doc) ->
  protoDefValueToNbtDocument (nbtDocumentToProtoDefValue doc) = Ok doc /\
  exists k,
    (forall out, writeProtoDefNbt (nbtDocumentToProtoDefValue doc) enc out = (Ok tt, out ++ k)) /\
    (forall d o r, is_bytes d -> offset_valid d o -> offset_rest d o = k ++ r ->
       readProtoDefNbt d enc o = (Ok (nbtDocumentToProtoDefValue doc), o + size k)).
Proof.
  intros Hok Ht. split; [by eapply nbt_document_back|]. exists (packet_nbt enc doc). split.
  - intros out. by apply write_nbt_ok.
  - intros d o r Hd Ho Hr. apply (read_nbt_ok d enc doc Hd Hok Ht o r Ho); [by apply Forall_drop|done].
Qed.

Definition nbt_value_example : NbtDocument :=
  mkDocument "root" (nbt_compound
    [("a", nbt_longArray [2 ^ 40; -1]); ("f", nbt_floating 1078530011); ("id", nbt_short (-2));
     ("list", nbt_list TagInt [nbt_int 300; nbt_int (-1)]); ("s", nbt_string "hi")]).

Lemma nbt_value_roundtrip_witness :
  protoDefValueToNbtDocument (nbtDocumentToProtoDefValue nbt_value_example) = Ok nbt_value_example /\
  exists k,
    (forall out, writeProtoDefNbt (nbtDocumentToProtoDefValue nbt_value_example) LittleVarInt out = (Ok tt, out ++ k)) /\
    (forall d o r, is_bytes d -> offset_valid d o -> offset_rest d o = k ++ r ->
       readProtoDefNbt d LittleVarInt o = (Ok (nbtDocumentToProtoDefValue nbt_value_example), o + size k)).
Proof.
  refine (nbt_value_roundtrip LittleVarInt nbt_value_example _ _).
  - cbn [document_ok root doc_name nbt_value_example type nbt_compound]. by nbt_check.
  - cbn. split_and!; try done. apply (bool_decide_unpack _). vm_compute. exact I.
Defined.
