(* ===== verification/NbtEqual.v ===== *)
(** * Equality and simplification of NBT (src/src/nbt/BedrockNbtFile.cpp)

    [BedrockNbt::equal] and [BedrockNbt::simplify].  Both see a compound the
    way a JavaScript object holds it: the last child of a name counts, the
    order does not.  [equal] decides [same], which says so without a map and
    without counting fields, and is an equivalence but for values with a NaN. *)

From S2P Require Import Prelude FloatBits Nbt ProtoDefData ProtoDefJson.

Import ProtoDefJson.

(** The last child of each name. *)
Definition indexCompound (cv : list (string * NbtValue)) : gmap string NbtValue :=
  foldl (fun m child => <[child.1 := child.2]> m) ∅ cv.

Fixpoint simplify (value : NbtValue) : ProtoDefValue :=
  match value with
  | mkNbt t i f s ba _ lv cv ia la =>
      match t with
      | TagEnd => Null
      | TagByte | TagShort | TagInt | TagLong => Int i
      | TagFloat | TagDouble => Double f
      | TagByteArray => Bytes ba
      | TagString => String_ s
      | TagList => Array (map simplify lv)
      | TagCompound =>
          Object ((fix fields (children : list (string * NbtValue)) (result : list (string * ProtoDefValue)) :=
            match children with
            | [] => result
            | (name, v) :: children' => fields children' (set_entry name (simplify v) result)
            end) cv [])
      | TagIntArray => Array (map Int ia)
      | TagLongArray => Array (map Int la)
      end
  end.

Definition simplify_document (document : NbtDocument) : ProtoDefValue := simplify (root document).

(** The comparison of two lists, element by element. *)
Definition all2 {A B} (eqb : A -> B -> bool) : list A -> list B -> bool :=
  fix all2 (l : list A) (r : list B) : bool :=
    match l, r with
    | [], [] => true
    | x :: l', y :: r' => eqb x y && all2 l' r'
    | _, _ => false
    end.

(** A child that a later one of its name hides is not compared. *)
Fixpoint equal (left right : NbtValue) : bool :=
  match left, right with
  | mkNbt t i f s ba et lv cv ia la, mkNbt t' i' f' s' ba' et' lv' cv' ia' la' =>
      if negb (bool_decide (t = t')) then false
      else
        match t with
        | TagEnd => true
        | TagByte | TagShort | TagInt | TagLong => i =? i'
        | TagFloat | TagDouble => f64_eqb f f'
        | TagByteArray => bool_decide (ba = ba')
        | TagString => bool_decide (s = s')
        | TagList => bool_decide (et = et') && bool_decide (length lv = length lv') && all2 equal lv lv'
        | TagCompound =>
            let rightFields := indexCompound cv' in
            bool_decide (base.size (indexCompound cv) = base.size rightFields) &&
            (fix fields (children : list (string * NbtValue)) : bool :=
               match children with
               | [] => true
               | (name, v) :: children' =>
                   (existsb (fun child => bool_decide (child.1 = name)) children' ||
                    match rightFields !! name with Some other => equal v other | None => false end) && fields children'
               end) cv
        | TagIntArray => bool_decide (ia = ia')
        | TagLongArray => bool_decide (la = la')
        end
  end.

Definition equal_document (left right : NbtDocument) : bool := equal (root left) (root right).

(** ** Compounds as maps *)

Lemma index_from cv m : foldl (fun m (child : string * NbtValue) => <[child.1 := child.2]> m) m cv = indexCompound cv ∪ m.
Proof.
  unfold indexCompound. revert m. induction cv as [|[name v] cv IH]; intros m; cbn; [by rewrite (left_id_L ∅ (∪))|].
  rewrite (IH (<[name := v]> m)), (IH (<[name := v]> ∅)). rewrite <-(assoc_L (∪)). f_equal. by rewrite insert_empty, insert_union_singleton_l.
Qed.

Lemma index_cons name v cv : indexCompound ((name, v) :: cv) = indexCompound cv ∪ {[name := v]}.
Proof. unfold indexCompound at 1. cbn. by rewrite index_from, insert_empty. Qed.

Lemma index_elem cv name v : indexCompound cv !! name = Some v -> (name, v) ∈ cv.
Proof.
  induction cv as [|[n x] cv IH]; [done|]. rewrite index_cons, lookup_union_Some_raw. intros [H|[_ H]]; [right; by apply IH|].
  apply lookup_singleton_Some in H as [-> ->]. by left.
Qed.

Lemma index_hidden cv name : existsb (fun child => bool_decide (child.1 = name)) cv = true <-> is_Some (indexCompound cv !! name).
Proof.
  induction cv as [|[n x] cv IH]; [cbn; split; [done|by intros [? ?]]|]. cbn [existsb fst]. rewrite index_cons, orb_true_iff, bool_decide_eq_true, IH.
  split.
  - intros [->|[v Hv]]; [|exists v; by apply lookup_union_Some_l].
    destruct (indexCompound cv !! name) as [v|] eqn:Ev; [exists v; by apply lookup_union_Some_l|].
    exists x. by rewrite lookup_union_r, lookup_singleton_eq.
  - intros [v Hv]. apply lookup_union_Some_raw in Hv as [Hv|[_ Hv]]; [right; by eexists|]. apply lookup_singleton_Some in Hv as [-> _]. by left.
Qed.

(** ** What [equal] compares *)

(** Every field of the left compound has an equal one on the right. *)
Definition covers (l r : gmap string NbtValue) : Prop :=
  forall name v, l !! name = Some v -> exists other, r !! name = Some other /\ equal v other = true.

Lemma equal_compound i f s ba et lv cv ia la i' f' s' ba' et' lv' cv' ia' la' :
  equal (mkNbt TagCompound i f s ba et lv cv ia la) (mkNbt TagCompound i' f' s' ba' et' lv' cv' ia' la') = true <->
  base.size (indexCompound cv) = base.size (indexCompound cv') /\ covers (indexCompound cv) (indexCompound cv').
Proof.
  cbn [equal]. rewrite bool_decide_true by done. cbn [negb]. rewrite andb_true_iff, bool_decide_eq_true.
  apply and_iff_compat_l. generalize (indexCompound cv'). intros r.
  induction cv as [|[name v] cv IH]; [split; [by intros _ name v|done]|]. rewrite andb_true_iff, IH, orb_true_iff, index_hidden, index_cons. split.
  - intros [Hv Hc] n x Hn. apply lookup_union_Some_raw in Hn as [Hn|[Hnone Hn]]; [by apply Hc|].
    apply lookup_singleton_Some in Hn as [<- <-]. destruct Hv as [[y Hy]|Hv]; [congruence|]. destruct (r !! name) as [o|]; [by exists o|done].
  - intros Hc. split.
    + destruct (indexCompound cv !! name) as [y|] eqn:Ey; [left; by eexists|right].
      destruct (Hc name v) as (o & Ho & He); [by rewrite lookup_union_r, lookup_singleton_eq|]. by rewrite Ho.
    + intros n x Hn. apply Hc. by apply lookup_union_Some_l.
Qed.

(** With as many fields on both sides, the right has no others. *)
Lemma covers_dom l r : base.size l = base.size r -> covers l r -> forall name, is_Some (r !! name) -> is_Some (l !! name).
Proof.
  intros Hs Hc. assert (dom l ⊆ dom r) as Hsub.
  { intros name [v Hv]%elem_of_dom. destruct (Hc name v Hv) as (o & Ho & _). apply elem_of_dom. by eexists. }
  assert (dom l = dom r) as Hd.
  { apply leibniz_equiv, set_subseteq_size_equiv; [done|]. by rewrite !size_dom, Hs. }
  intros name. rewrite <-!elem_of_dom. by rewrite Hd.
Qed.

Lemma all2_length {A B} (eqb : A -> B -> bool) l : forall r, all2 eqb l r = true -> length l = length r.
Proof. induction l as [|x l IH]; intros [|y r]; cbn; try done. rewrite andb_true_iff. intros [_ H]. by rewrite (IH r H). Qed.

Lemma f64_eqb_sym a b : f64_eqb a b = f64_eqb b a.
Proof. unfold f64_eqb. rewrite (Z.eqb_sym a b), (andb_comm (a mod _ =? 0)). by rewrite (andb_comm (negb (f64_is_nan a))). Qed.

Lemma f64_eqb_trans a b d : f64_eqb a b = true -> f64_eqb b d = true -> f64_eqb a d = true.
Proof.
  unfold f64_eqb. rewrite !andb_true_iff, !orb_true_iff, !andb_true_iff, !Z.eqb_eq.
  intros [[H1 H2] [->|[H3 H4]]] [[H5 H6] H7]; (split; [by split|]); [done|]. destruct H7 as [<-|[H7 H8]]; auto.
Qed.

(** ** An equivalence *)

Lemma equal_sym v : forall w, equal v w = true -> equal w v = true.
Proof.
  induction v as [t i f s ba et lv cv ia la Hl Hc] using nbt_induction. intros [t' i' f' s' ba' et' lv' cv' ia' la'] H.
  assert (t = t') as <-. { cbn in H. by case_bool_decide. }
  destruct t; try (cbn in H |- *; rewrite bool_decide_true in H |- * by done; cbn [negb] in *;
    first [done | by rewrite Z.eqb_sym | by rewrite f64_eqb_sym | case_bool_decide; [subst; by rewrite bool_decide_true|done]]).
  - cbn in H |- *. rewrite bool_decide_true in H |- * by done. cbn [negb] in *.
    repeat case_bool_decide; try done; try congruence. cbn [andb] in *. clear -Hl H. revert lv' H.
    induction Hl as [|x lv Hx Hl IH]; intros [|y lv'] H; try done. cbn in H |- *. apply andb_true_iff in H as [H1 H2].
    by rewrite (Hx y H1), (IH lv' H2).
  - apply equal_compound in H as [Hs Hcov]. apply equal_compound. split; [done|]. intros name o Ho.
    destruct (covers_dom _ _ Hs Hcov name) as [v Hv]; [by eexists|]. destruct (Hcov name v Hv) as (o' & Ho' & He).
    rewrite Ho in Ho'. injection Ho' as <-. exists v. split; [done|].
    apply index_elem in Hv. rewrite list.Forall_forall in Hc. by apply (Hc (name, v) Hv).
Qed.

Lemma equal_trans v : forall w u, equal v w = true -> equal w u = true -> equal v u = true.
Proof.
  induction v as [t i f s ba et lv cv ia la Hl Hc] using nbt_induction.
  intros [t' i' f' s' ba' et' lv' cv' ia' la'] [t2 i2 f2 s2 ba2 et2 lv2 cv2 ia2 la2] H G.
  assert (t = t') as <-. { cbn in H. by case_bool_decide. }
  assert (t = t2) as <-. { cbn in G. by case_bool_decide. }
  destruct t; try (cbn in H, G |- *; rewrite bool_decide_true in H, G |- * by done; cbn [negb] in *;
    first [done | lia | by eapply f64_eqb_trans | repeat case_bool_decide; congruence]).
  - cbn in H, G |- *. rewrite bool_decide_true in H, G |- * by done. cbn [negb] in *.
    repeat case_bool_decide; try done; try congruence. cbn [andb] in *. clear -Hl H G. revert lv' lv2 H G.
    induction Hl as [|x lv Hx Hl IH]; intros [|y lv'] [|z lv2] H G; try done. cbn in H, G |- *.
    apply andb_true_iff in H as [H1 H2]. apply andb_true_iff in G as [G1 G2]. by rewrite (Hx y z H1 G1), (IH lv' lv2 H2 G2).
  - apply equal_compound in H as [Hs Hcov]. apply equal_compound in G as [Gs Gcov]. apply equal_compound. split; [congruence|].
    intros name x Hx. destruct (Hcov name x Hx) as (y & Hy & H1). destruct (Gcov name y Hy) as (z & Hz & H2). exists z. split; [done|].
    apply index_elem in Hx. rewrite list.Forall_forall in Hc. by apply (Hc (name, x) Hx y z).
Qed.

(** No number of the value is a NaN. *)
Fixpoint no_nan (v : NbtValue) : Prop :=
  match v with
  | mkNbt t i f s ba et lv cv ia la =>
      match t with
      | TagFloat | TagDouble => f64_is_nan f = false
      | TagList => foldr (fun x P => no_nan x /\ P) True lv
      | TagCompound => foldr (fun x P => no_nan (snd x) /\ P) True cv
      | _ => True
      end
  end.

Lemma equal_refl v : no_nan v -> equal v v = true.
Proof.
  induction v as [t i f s ba et lv cv ia la Hl Hc] using nbt_induction. intros Hn.
  destruct t; try (cbn in Hn |- *; repeat rewrite bool_decide_true by done; cbn [negb]; first [done | apply Z.eqb_refl | unfold f64_eqb; by rewrite Hn, Z.eqb_refl]).
  - cbn in Hn |- *. rewrite !bool_decide_true by done. cbn [negb andb]. induction Hl as [|x lv Hx Hl IH]; [done|].
    destruct Hn as [H1 H2]. cbn. by rewrite (Hx H1), (IH H2).
  - apply equal_compound. split; [done|]. intros name v Hv. exists v. split; [done|]. apply index_elem in Hv.
    cbn in Hn. clear -Hc Hn Hv. induction Hc as [|x cv Hx Hc IH]; [by apply elem_of_nil in Hv|]. destruct Hn as [H1 H2].
    apply elem_of_cons in Hv as [<-|Hv]; [by apply Hx|by apply IH].
Qed.

(** ** What [equal] means *)

Definition floatingValue (v : NbtValue) : Z := match v with mkNbt _ _ f _ _ _ _ _ _ _ => f end.
Definition byteArrayValue (v : NbtValue) : bytes := match v with mkNbt _ _ _ _ ba _ _ _ _ _ => ba end.
Definition listElementType (v : NbtValue) : NbtTagType := match v with mkNbt _ _ _ _ _ et _ _ _ _ => et end.
Definition listValue (v : NbtValue) : list NbtValue := match v with mkNbt _ _ _ _ _ _ lv _ _ _ => lv end.
Definition intArrayValue (v : NbtValue) : list Z := match v with mkNbt _ _ _ _ _ _ _ _ ia _ => ia end.
Definition longArrayValue (v : NbtValue) : list Z := match v with mkNbt _ _ _ _ _ _ _ _ _ la => la end.

(** The child that a name stands for. *)
Definition last_child (v : NbtValue) (name : string) : option NbtValue :=
  snd <$> list.last (filter (fun child => child.1 = name) (compoundValue v)).

(** The same number: no NaN, and zeros of both signs. *)
Definition same_number (a b : Z) : Prop :=
  f64_is_nan a = false /\ f64_is_nan b = false /\ (a = b \/ a mod 2 ^ 63 = 0 /\ b mod 2 ^ 63 = 0).

(** Two values with the same tag and the same data for this tag: arrays and
    lists element by element, lists with the same declared element type,
    compounds with the same names and the same last child of every name. *)
Inductive same (v w : NbtValue) : Prop :=
| same_end : type v = TagEnd -> type w = TagEnd -> same v w
| same_integer : type v ∈ [TagByte; TagShort; TagInt; TagLong] -> type w = type v ->
    integerValue v = integerValue w -> same v w
| same_floating : type v ∈ [TagFloat; TagDouble] -> type w = type v -> same_number (floatingValue v) (floatingValue w) -> same v w
| same_bytes : type v = TagByteArray -> type w = TagByteArray -> byteArrayValue v = byteArrayValue w -> same v w
| same_string : type v = TagString -> type w = TagString -> stringValue v = stringValue w -> same v w
| same_ints : type v = TagIntArray -> type w = TagIntArray -> intArrayValue v = intArrayValue w -> same v w
| same_longs : type v = TagLongArray -> type w = TagLongArray -> longArrayValue v = longArrayValue w -> same v w
| same_list : type v = TagList -> type w = TagList -> listElementType v = listElementType w ->
    Forall2 same (listValue v) (listValue w) -> same v w
| same_compound : type v = TagCompound -> type w = TagCompound ->
    (forall name, option_Forall2 same (last_child v name) (last_child w name)) -> same v w.

Lemma last_child_index cv name : snd <$> list.last (filter (fun child : string * NbtValue => child.1 = name) cv) = indexCompound cv !! name.
Proof.
  induction cv as [|[n x] cv IH]; [done|]. rewrite index_cons, filter_cons. cbn [fst].
  destruct (indexCompound cv !! name) as [y|] eqn:Ey.
  - rewrite (lookup_union_Some_l _ _ _ _ Ey). case_decide; [|done]. rewrite last_cons.
    destruct (list.last (filter _ cv)) as [z|]; [done|done].
  - rewrite lookup_union_r by done. case_decide as Hn; [|by rewrite lookup_singleton_ne].
    subst n. rewrite lookup_singleton_eq, last_cons. by destruct (list.last (filter _ cv)).
Qed.

Lemma same_number_eqb a b : f64_eqb a b = true <-> same_number a b.
Proof. unfold f64_eqb, same_number. rewrite !andb_true_iff, !negb_true_iff, orb_true_iff, andb_true_iff, !Z.eqb_eq. tauto. Qed.

Lemma all2_Forall2 (P : NbtValue -> NbtValue -> Prop) l : Forall (fun x => forall y, equal x y = true <-> P x y) l ->
  forall r, all2 equal l r = true <-> Forall2 P l r.
Proof.
  induction 1 as [|x l Hx Hl IH]; intros [|y r]; cbn.
  - by split.
  - by split; [|inversion 1].
  - by split; [|inversion 1].
  - by rewrite andb_true_iff, Hx, IH, list.Forall2_cons.
Qed.

(** Covering with as many fields is the relation of all fields. *)
Lemma covers_fields (P : NbtValue -> NbtValue -> Prop) l r :
  (forall name v, l !! name = Some v -> forall w, equal v w = true <-> P v w) ->
  base.size l = base.size r /\ covers l r <-> forall name, option_Forall2 P (l !! name) (r !! name).
Proof.
  intros HP. split.
  - intros [Hs Hc] name. destruct (l !! name) as [v|] eqn:Ev.
    + destruct (Hc name v Ev) as (o & -> & He). constructor. by apply (HP name v Ev).
    + destruct (r !! name) as [o|] eqn:Eo; [|constructor]. destruct (covers_dom l r Hs Hc name) as [v Hv]; [by eexists|congruence].
  - intros H. split.
    + rewrite <-!size_dom. f_equal. apply set_eq. intros name. rewrite !elem_of_dom. specialize (H name).
      by inversion H; split; intros [? ?].
    + intros name v Hv. specialize (H name). rewrite Hv in H. inversion H as [? o He Ho Ev|]. exists o. split; [done|]. by apply (HP name v Hv).
Qed.

Lemma equal_same v : forall w, equal v w = true <-> same v w.
Proof.
  induction v as [t i f s ba et lv cv ia la Hl Hc] using nbt_induction. intros [t' i' f' s' ba' et' lv' cv' ia' la'].
  destruct (decide (t = t')) as [<-|Ht].
  2:{ split; [cbn; by rewrite bool_decide_false|]. intros H. exfalso. apply Ht. by inversion H; cbn in *; congruence. }
  destruct t; try (cbn [equal]; rewrite bool_decide_true by done; cbn [negb]; rewrite ?Z.eqb_eq, ?bool_decide_eq_true, ?same_number_eqb;
    split; [intros H; try subst; first [by apply same_end|by apply same_integer; [set_solver|..]|by apply same_floating; [set_solver|..]
      |by apply same_bytes|by apply same_string|by apply same_ints|by apply same_longs]
    |let H := fresh in intros H; inversion H; cbn in *; first [congruence|set_solver]]).
  - cbn [equal]. rewrite !bool_decide_true by done. cbn [negb]. rewrite !andb_true_iff, !bool_decide_eq_true, (all2_Forall2 same lv Hl). split.
    + intros [[-> _] H]. by apply same_list.
    + inversion 1 as [| | | | | | |? ? He Hf|]; cbn in *; try congruence; try set_solver. split; [|done]. split; [done|by eapply Forall2_length].
  - rewrite equal_compound, (covers_fields same).
    + split; [intros H; apply same_compound; [done..|]; intros name; unfold last_child; cbn; rewrite !last_child_index; apply H|].
      inversion 1 as [| | | | | | | |? ? Hf]; cbn in *; try congruence; try set_solver.
      intros name. specialize (Hf name). unfold last_child in Hf. cbn in Hf. by rewrite !last_child_index in Hf.
    + intros name x Hx. apply index_elem in Hx. rewrite list.Forall_forall in Hc. exact (Hc _ Hx).
Qed.

(** C24: [equal] returns true exactly for [same] values: the same tag and, for
    this tag, the same number, text, bytes or elements; lists also agree on
    the type of their elements; two compounds have the same names and the same
    last child of every name, whatever the order and whatever earlier children
    of a name are.  It is symmetric, transitive, and reflexive on a value
    without a NaN. *)
Theorem nbt_equal_same u v w :
  (equal v w = true <-> same v w) /\ equal v w = equal w v /\
  (equal u v = true -> equal v w = true -> equal u w = true) /\ (no_nan u -> equal u u = true).
Proof.
  split; [apply equal_same|]. split; [|split; [apply equal_trans|apply equal_refl]].
  destruct (equal v w) eqn:E; [by rewrite (equal_sym _ _ E)|]. destruct (equal w v) eqn:E'; [|done]. by rewrite (equal_sym _ _ E') in E.
Qed.

(** Equal in spite of order and a hidden child; different in one element. *)
Lemma nbt_equal_same_witness :
  same (nbt_compound [("a", nbt_byte 1); ("b", nbt_string "x")])
    (nbt_compound [("b", nbt_int 5); ("b", nbt_string "x"); ("a", nbt_byte 1)]) /\
  ~ same (nbt_compound [("a", nbt_byte 1)]) (nbt_compound [("a", nbt_byte 1); ("b", nbt_byte 1)]).
Proof.
  split; [|intros H].
  - apply (nbt_equal_same nbt_end). vm_compute. reflexivity.
  - apply (nbt_equal_same nbt_end) in H. vm_compute in H. discriminate H.
Defined.

(** ** Simplification *)

Lemma object_set_entry key k x entries : get_value key (Object (set_entry k x entries)) =
  if bool_decide (key = k) then Some x else get_value key (Object entries).
Proof.
  unfold get_value. induction entries as [|[k' x'] entries IH]; cbn [set_entry].
  - rewrite filter_cons. cbn [fst]. case_decide; case_bool_decide; congruence || done.
  - destruct (bool_decide_reflect (k' = k)) as [H1|H1]; rewrite !filter_cons; cbn [fst].
    + subst k'. repeat case_bool_decide; repeat case_decide; subst; try done; congruence.
    + destruct (decide (k' = key)) as [H2|H2]; [|exact IH]. case_bool_decide; [congruence|done].
Qed.

(** The field of a name is the last child of that name, simplified. *)
Lemma simplify_find name cv i f s ba et lv ia la :
  get_value name (simplify (mkNbt TagCompound i f s ba et lv cv ia la)) = simplify <$> indexCompound cv !! name.
Proof.
  cbn [simplify].
  match goal with |- context [Object (?F cv [])] => assert (forall es, get_value name (Object (F cv es)) =
    match indexCompound cv !! name with Some v => Some (simplify v) | None => get_value name (Object es) end) as H end.
  { induction cv as [|[n v] cv IH]; intros es; [done|]. rewrite IH, object_set_entry, index_cons.
    destruct (indexCompound cv !! name) as [x|] eqn:Ex; [by rewrite (lookup_union_Some_l _ _ _ _ Ex)|].
    rewrite lookup_union_r by done. case_bool_decide; [subst; by rewrite lookup_singleton_eq|by rewrite lookup_singleton_ne]. }
  rewrite H. by destruct (indexCompound cv !! name).
Qed.
