(* ===== verification/ProtoDefEncoder.v ===== *)
(** * The ProtoDef encoder (src/include/bedrock/protodef/ProtoDefEncoder.hpp)

    [ProtoDefEncoder] interprets the text of a schema on a [ProtoDefValue] and
    writes the bytes.  [resolver_] is the encoder's type resolver, the table of
    generated schemas behind it is [generatedProtocolTypeJson], and
    [variables_] are its variables in the order of iteration.  A schema may
    name itself without end, so [encode] has fuel, one unit for each nested
    type. *)

From S2P Require Import Prelude MachineInt Leb128 Endian ZigZag FloatBits GamePacket Text FloatText Nbt ProtoDefData ProtoDefJson.
From S2P Require Import ProtoDefText ProtoDefStream ProtoDefNbt.

Module ProtoDefEncoder.
Import ProtoDefJson ProtoDefText ProtoDefNbt.

Definition fail {A} (msg : string) : M bytes A := raise (RuntimeError msg).

(** ** Values *)

Definition asBool (v : ProtoDefValue) : result bool :=
  match v with
  | Bool b => Ok b
  | Int i => Ok (negb (i =? 0))
  | UInt i => Ok (negb (i =? 0))
  | Double d => Ok (negb (f64_eqb d 0))
  | String_ s => Ok (bool_decide (s = "true") || bool_decide (s = "1"))
  | _ => Throw (RuntimeError "expected bool-compatible value")
  end.

Definition asInt (v : ProtoDefValue) : result Z :=
  match v with
  | Int i => Ok i
  | UInt i => Ok (to_i64 i)
  | Bool b => Ok (if b then 1 else 0)
  | Double d => int_of_f64 (- 2 ^ 63) (2 ^ 63) d
  | _ => Throw (RuntimeError "expected int-compatible value")
  end.

Definition asUInt (v : ProtoDefValue) : result Z :=
  match v with
  | UInt i => Ok i
  | Int i => Ok (to_u64 i)
  | Bool b => Ok (if b then 1 else 0)
  | Double d => int_of_f64 0 (2 ^ 64) d
  | _ => Throw (RuntimeError "expected uint-compatible value")
  end.

Definition asUInt128 (v : ProtoDefValue) : result Z :=
  match v with String_ s => Ok (parseUint128 (chars s)) | _ => asUInt v end.

Definition asDouble (v : ProtoDefValue) : result Z :=
  match v with
  | Double d => Ok d
  | Int i => Ok (f64_of_int i)
  | UInt i => Ok (f64_of_int i)
  | Bool b => Ok (f64_of_int (if b then 1 else 0))
  | _ => Throw (RuntimeError "expected numeric value")
  end.

Definition asString (v : ProtoDefValue) : result string :=
  match v with String_ s => Ok s | _ => Throw (RuntimeError "expected string value") end.

Definition valueToSwitchKey (v : ProtoDefValue) : result string :=
  match v with
  | String_ s => Ok s
  | UInt i => Ok (to_string i)
  | Int i => Ok (signed_text i)
  | Bool b => Ok (if b then "true" else "false")
  | _ => Throw (RuntimeError "switch compare value unsupported kind")
  end.

Definition valueLength (v : ProtoDefValue) : result Z :=
  match v with
  | Array items => Ok (size items)
  | Bytes b => Ok (size b)
  | String_ s => Ok (size (chars s))
  | Object entries => Ok (size entries)
  | _ => Throw (RuntimeError "count encode target has no length")
  end.

(** [copy.objectValue[".."] = parent], in every object of an array. *)
Fixpoint withParent (value parent : ProtoDefValue) : ProtoDefValue :=
  match value with
  | Object entries => Object (set_entry ".." parent entries)
  | Array items => Array (map (fun item => withParent item parent) items)
  | v => v
  end.

(** [while (current && current->get("..")) current = current->get("..");] *)
Fixpoint outermost (v : ProtoDefValue) : ProtoDefValue :=
  match v with
  | Object entries =>
      (fix go (l : list (string * ProtoDefValue)) : ProtoDefValue :=
         match l with
         | [] => v
         | (k, p) :: l' => if bool_decide (k = "..") then outermost p else go l'
         end) entries
  | _ => v
  end.

(** The parts of a path between slashes. *)
Fixpoint split_slash (l : text) : list text :=
  match l with
  | [] => [[]]
  | c :: l' =>
      if is_char 47 c then [] :: split_slash l'
      else match split_slash l' with p :: ps => (c :: p) :: ps | [] => [[c]] end
  end.

Fixpoint follow_path (current : ProtoDefValue) (parts : list text) : option ProtoDefValue :=
  match parts with
  | [] => Some current
  | part :: parts' =>
      if bool_decide (part = []) then follow_path current parts'
      else match get_value (str part) current with
           | Some v => follow_path v parts'
           | None => None
           end
  end.

Definition getPath (object : ProtoDefValue) (path : text) : option ProtoDefValue :=
  let normalized := map (fun c => if is_char 46 c then ascii_of_byte 47 else c) path in
  match normalized with
  | c :: rest =>
      if is_char 47 c then follow_path (outermost object) (split_slash rest)
      else follow_path object (split_slash normalized)
  | [] => follow_path object (split_slash [])
  end.

Definition resolveCompareValue (object : ProtoDefValue) (expression : string) : result (option string) :=
  let booleanExpression := hasProtoDefLogicalOr (chars expression) in
  evaluateProtoDefCompareExpression (chars expression) (fun atom =>
    match getPath object atom with
    | None => Ok None
    | Some value =>
        if booleanExpression then let! b := asBool value in Ok (Some (mkAtom "" b))
        else let! k := valueToSwitchKey value in Ok (Some (mkAtom k false))
    end).

(** ** Reading the schema *)

(** The value behind the first occurrence of the quoted key, wherever it is. *)
Definition readSwitchObjectField (objectJson : text) (key : string) : option text :=
  let quoted := [quote_mark] ++ chars key ++ [quote_mark] in
  k ← find_text quoted objectJson 0;
  colon ← find_char 58 objectJson (k + length quoted);
  let start := advance_to is_space objectJson (S colon) (length objectJson) in
  if (length objectJson <=? start)%nat then None else value_at objectJson start.

(** The object behind a quoted name. *)
Definition object_after (needle : string) (json : text) : option text :=
  let quoted := [quote_mark] ++ chars needle ++ [quote_mark] in
  f ← find_text quoted json 0;
  objStart ← find_char 123 json (f + length quoted);
  objEnd ← findMatching json objStart 123 125;
  Some (slice json objStart (S objEnd)).

(** The loop over the pairs of strings of the mappings. *)
Fixpoint mapper_loop (fuel : nat) (obj : text) (mappedName : string) (pos : nat) : result (option Z) :=
  match fuel with
  | O => Ok None
  | S fuel' =>
      match
        k1 ← find_char 34 obj pos;
        k2 ← find_char 34 obj (S k1);
        colon ← find_char 58 obj (S k2);
        v1 ← find_char 34 obj (S colon);
        v2 ← find_char 34 obj (S v1);
        Some (slice obj (S k1) k2, slice obj (S v1) v2, S v2)
      with
      | None => Ok None
      | Some (key, val, pos) =>
          if bool_decide (str val = mappedName) then let! n := stoull (str key) in Ok (Some n)
          else mapper_loop fuel' obj mappedName pos
      end
  end.

(** A pair has four quotes, so that there are fewer rounds than characters. *)
Definition findMapperNumericByName (mapperJson : text) (mappedName : string) : result (option Z) :=
  match object_after "mappings" mapperJson with
  | None => Ok None
  | Some obj => mapper_loop (length obj) obj mappedName 0
  end.

(** ** Writing *)

Definition writeCount (countType : string) (count : Z) : M bytes unit :=
  if bool_decide (countType ∈ ["u8"; "lu8"; "li8"]) then ProtoDefWriter.u8 (to_u8 count)
  else if bool_decide (countType ∈ ["u16"; "i16"]) then ProtoDefWriter.u16be (to_u16 count)
  else if bool_decide (countType ∈ ["lu16"; "li16"]) then ProtoDefWriter.u16le (to_u16 count)
  else if bool_decide (countType ∈ ["u32"; "i32"]) then ProtoDefWriter.u32be (to_u32 count)
  else if bool_decide (countType ∈ ["lu32"; "li32"]) then ProtoDefWriter.u32le (to_u32 count)
  else if bool_decide (countType ∈ ["varint"; "varuint"]) then ProtoDefWriter.varuint32 (to_u32 count)
  else if bool_decide (countType = "zigzag32") then ProtoDefWriter.zigzag32 (to_i32 count)
  else if bool_decide (countType = "zigzag64") then ProtoDefWriter.zigzag64 (to_i64 count)
  else if bool_decide (countType ∈ ["varint64"; "varuint64"]) then ProtoDefWriter.varuint64 (to_u64 count)
  else fail ("array encode unsupported countType: " +:+ countType).

(** [writer.u8(hexValue(hex[i]) << 4 | hexValue(hex[i + 1]))] for the digits. *)
Fixpoint uuid_loop (hex : text) : M bytes unit :=
  match hex with
  | h :: o :: hex' =>
      let hi := hexDigit h in
      let lo := hexDigit o in
      if (hi <? 0) || (lo <? 0) then fail "uuid encode invalid hex"
      else ProtoDefWriter.u8 (to_u8 (Z.lor (Z.shiftl hi 4) lo)) ;;; uuid_loop hex'
  | _ => ret tt
  end.

Definition writeUuid (value : string) : M bytes unit :=
  let hex := List.filter (fun c => negb (is_char 45 c)) (chars value) in
  if negb (size hex =? 32) then fail "uuid encode expects 32 hex digits" else uuid_loop hex.

(** The four rounds of [writeIpAddress], from the text that starts at [start]. *)
Fixpoint ip_loop (n : nat) (value : text) : M bytes text :=
  match n with
  | O => ret value
  | S n' =>
      let dot := find_char 46 value 0 in
      let part := match dot with Some d => take d value | None => value end in
      if bool_decide (part = []) then fail "ipAddress encode invalid address"
      else
        let* octet := lift (stoi (str part)) in
        if (octet <? 0) || (255 <? octet) then fail "ipAddress encode octet out of range"
        else
          ProtoDefWriter.u8 (to_u8 octet) ;;;
          match dot with
          | None => if negb (bool_decide (n' = O)) then fail "ipAddress encode expects 4 octets" else ip_loop n' []
          | Some d => ip_loop n' (drop (S d) value)
          end
  end.

Definition writeIpAddress (value : string) : M bytes unit :=
  let* rest := ip_loop 4 (chars value) in
  if (0 <? size rest) then fail "ipAddress encode expects 4 octets" else ret tt.

Section Encoder.
Context (resolver_ generatedProtocolTypeJson : string -> option string) (variables_ : list (string * string)).

Definition findSwitchBranchType (switchJson : text) (key : string) : option text :=
  obj ← object_after "fields" switchJson;
  first_branch (readSwitchObjectField obj) (branch_keys variables_ key).

Definition write_word (w : Z) (as_ : ProtoDefValue -> result Z) (put : Z -> M bytes unit) (value : ProtoDefValue) : M bytes unit :=
  let* v := lift (as_ value) in put (v mod 2 ^ w).

Definition write_nbt_item (item : ProtoDefValue) : M bytes unit :=
  (match item with
   | Bytes _ => ret tt
   | _ =>
       let* document := lift (protoDefValueToNbtDocument item) in
       if bool_decide (type (root document) = TagEnd) then fail "nbtLoop cannot contain TAG_End values" else ret tt
   end) ;;;
  writeProtoDefNbt item LittleVarInt.

Section Encode.
(** [encode] of a type nested in this one. *)
Context (encode : text -> ProtoDefValue -> M bytes unit).

Definition encodeTypeName (typeName : string) (value : ProtoDefValue) : M bytes unit :=
  if bool_decide (typeName = "void") then ret tt
  else if bool_decide (typeName = "string") then let* s := lift (asString value) in ProtoDefWriter.string_ s
  else if bool_decide (typeName = "ShortString") then let* s := lift (asString value) in ProtoDefWriter.shortString s
  else if bool_decide (typeName = "lstring") then
    let* s := lift (asString value) in
    ProtoDefWriter.u32le (to_u32 (size (bytes_of_string s))) ;;; ProtoDefWriter.bytes_ (bytes_of_string s)
  else if bool_decide (typeName = "uuid") then let* s := lift (asString value) in writeUuid s
  else if bool_decide (typeName = "ipAddress") then let* s := lift (asString value) in writeIpAddress s
  else if bool_decide (typeName ∈ ["restBuffer"; "MapInfo"]) then
    match value with
    | Bytes b => ProtoDefWriter.bytes_ b
    | _ => fail (typeName +:+ " encode expects bytes")
    end
  else if bool_decide (typeName = "byterot") then
    let* rotation := lift (asDouble value) in
    let* v := lift (int_of_f64 0 256 (f64_div_ratio rotation 45 32)) in
    ProtoDefWriter.u8 v
  else if bool_decide (typeName = "nbtLoop") then
    match value with
    | Array items => for_each items write_nbt_item ;;; ProtoDefWriter.u8 0
    | _ => fail "nbtLoop encode expects array"
    end
  else if bool_decide (typeName = "enum_size_based_on_values_len") then ret tt
  else if bool_decide (typeName ∈ ["native"; "nbt"]) then writeProtoDefNbt value LittleVarInt
  else if bool_decide (typeName = "lnbt") then writeProtoDefNbt value LittleEndian
  else if bool_decide (typeName = "bool") then let* b := lift (asBool value) in ProtoDefWriter.boolValue b
  else if bool_decide (typeName ∈ ["u8"; "lu8"; "li8"]) then write_word 8 asUInt ProtoDefWriter.u8 value
  else if bool_decide (typeName ∈ ["i8"; "byte"]) then write_word 8 asInt ProtoDefWriter.u8 value
  else if bool_decide (typeName = "u16") then write_word 16 asUInt ProtoDefWriter.u16be value
  else if bool_decide (typeName = "lu16") then write_word 16 asUInt ProtoDefWriter.u16le value
  else if bool_decide (typeName = "i16") then write_word 16 asInt ProtoDefWriter.u16be value
  else if bool_decide (typeName = "li16") then write_word 16 asInt ProtoDefWriter.u16le value
  else if bool_decide (typeName = "u32") then write_word 32 asUInt ProtoDefWriter.u32be value
  else if bool_decide (typeName = "lu32") then write_word 32 asUInt ProtoDefWriter.u32le value
  else if bool_decide (typeName = "u64") then write_word 64 asUInt ProtoDefWriter.u64be value
  else if bool_decide (typeName = "lu64") then write_word 64 asUInt ProtoDefWriter.u64le value
  else if bool_decide (typeName = "i32") then write_word 32 asInt ProtoDefWriter.u32be value
  else if bool_decide (typeName = "li32") then write_word 32 asInt ProtoDefWriter.u32le value
  else if bool_decide (typeName = "i64") then write_word 64 asInt ProtoDefWriter.u64be value
  else if bool_decide (typeName = "li64") then write_word 64 asInt ProtoDefWriter.u64le value
  else if bool_decide (typeName ∈ ["varint"; "varuint"]) then write_word 32 asUInt ProtoDefWriter.varuint32 value
  else if bool_decide (typeName ∈ ["varuint64"; "varint64"; "varlong"; "entity_runtime_id"; "actor_runtime_id"; "runtime_entity_id"]) then
    write_word 64 asUInt ProtoDefWriter.varuint64 value
  else if bool_decide (typeName = "zigzag32") then let* v := lift (asInt value) in ProtoDefWriter.zigzag32 (to_i32 v)
  else if bool_decide (typeName = "zigzag64") then let* v := lift (asInt value) in ProtoDefWriter.zigzag64 (to_i64 v)
  else if bool_decide (typeName = "varint128") then let* v := lift (asUInt value) in ProtoDefWriter.varuint128 v
  else if bool_decide (typeName = "f32") then let* v := lift (asDouble value) in ProtoDefWriter.f32be (f32_of_f64 v)
  else if bool_decide (typeName = "lf32") then let* v := lift (asDouble value) in ProtoDefWriter.f32le (f32_of_f64 v)
  else if bool_decide (typeName = "f64") then let* v := lift (asDouble value) in ProtoDefWriter.f64be v
  else if bool_decide (typeName = "lf64") then let* v := lift (asDouble value) in ProtoDefWriter.f64le v
  else
    match resolver_ typeName with
    | Some resolved => encode (chars resolved) value
    | None =>
        match generatedProtocolTypeJson typeName with
        | Some generated => encode (chars generated) value
        | None => fail ("ProtoDefEncoder unknown primitive type: " +:+ typeName)
        end
    end.

Definition encodeEncapsulated (encapsulatedJson : text) (value : ProtoDefValue) : M bytes unit :=
  match readJsonValueField encapsulatedJson "type" with
  | None => fail "encapsulated encode inner type not found"
  | Some innerType =>
      let* payload := lift (exec (encode innerType value) []) in
      let lengthType := default "varint" (readJsonStringField encapsulatedJson "lengthType") in
      writeCount lengthType (size payload) ;;; ProtoDefWriter.bytes_ payload
  end.

(** The count before an array or a buffer: none when the schema gives it. *)
Definition write_length_of (what : string) (json : text) (length : Z) : M bytes unit :=
  let* fixedCount := lift (readJsonIntegerField json "count") in
  match fixedCount, readJsonStringField json "count" with
  | Some n, _ =>
      if negb (length =? n) then
        fail (what +:+ " encode fixed count mismatch: expected " +:+ to_string n +:+ ", got " +:+ to_string length)
      else ret tt
  | None, None => writeCount (default "varint" (readJsonStringField json "countType")) length
  | None, Some _ => ret tt
  end.

Definition encodeBuffer (bufferJson : text) (value : ProtoDefValue) : M bytes unit :=
  match value with
  | Bytes b => write_length_of "buffer" bufferJson (size b) ;;; ProtoDefWriter.bytes_ b
  | _ => fail "buffer encode expects bytes"
  end.

Definition encodePString (stringJson : text) (value : ProtoDefValue) : M bytes unit :=
  let* s := lift (asString value) in
  writeCount (default "varint" (readJsonStringField stringJson "countType")) (size (bytes_of_string s)) ;;;
  ProtoDefWriter.bytes_ (bytes_of_string s).

Definition encodeOption (optionJson : text) (value : ProtoDefValue) : M bytes unit :=
  match value with
  | Null => ProtoDefWriter.u8 0
  | _ =>
      ProtoDefWriter.u8 1 ;;;
      match readSecondElement optionJson with
      | None => fail "option encode inner type not found"
      | Some innerType => encode innerType value
      end
  end.

Definition encodeCount (countJson : text) (value : ProtoDefValue) : M bytes unit :=
  match readJsonValueField countJson "type" with
  | None => fail "count encode type not found"
  | Some type =>
      let* count :=
        match readJsonStringField countJson "countFor" with
        | Some countFor =>
            match getPath value (chars countFor) with
            | None => fail ("count encode missing countFor field: " +:+ countFor)
            | Some target => lift (valueLength target)
            end
        | None => lift (asUInt value)
        end in
      encode type (UInt count)
  end.

Definition encodeArray (arrayJson : text) (value : ProtoDefValue) : M bytes unit :=
  match value with
  | Array items =>
      match readJsonValueField arrayJson "type" with
      | None => fail "array encode item type not found"
      | Some itemType => write_length_of "array" arrayJson (size items) ;;; for_each items (encode itemType)
      end
  | _ => fail "array encode expects array"
  end.

Definition encodeEndOfArray (arrayJson : text) (value : ProtoDefValue) : M bytes unit :=
  match value with
  | Array items =>
      match readJsonValueField arrayJson "type" with
      | None => fail "endOfArray encode item type not found"
      | Some itemType => for_each items (encode itemType)
      end
  | _ => fail "endOfArray encode expects array"
  end.

Definition encodeEntityMetadataLoop (metadataJson : text) (value : ProtoDefValue) : M bytes unit :=
  match value with
  | Array items =>
      let itemType := readJsonValueField metadataJson "type" in
      let* endVal := lift (readJsonIntegerField metadataJson "endVal") in
      match itemType with
      | None => fail "entityMetadataLoop encode item type not found"
      | Some itemType => for_each items (encode itemType) ;;; ProtoDefWriter.u8 (to_u8 (default 0x7f endVal))
      end
  | _ => fail "entityMetadataLoop encode expects array"
  end.

(** The branch on the value that a container put under [$value], or on the object. *)
Definition encode_branch (branch : text) (value : ProtoDefValue) : M bytes unit :=
  match get_value "$value" value with
  | Some directValue => encode branch directValue
  | None => encode branch value
  end.

Definition branch_or_default (json : text) (key : string) : option text :=
  match findSwitchBranchType json key with
  | Some b => Some b
  | None => readJsonValueField json "default"
  end.

Definition encodeSwitch (switchJson : text) (value : ProtoDefValue) : M bytes unit :=
  match value with
  | Object _ =>
      let* compareValue :=
        match readJsonStringField switchJson "compareToValue" with
        | Some v => ret v
        | None =>
            match readJsonStringField switchJson "compareTo" with
            | None => fail "switch encode compareTo not found"
            | Some compareTo =>
                let* resolved := lift (resolveCompareValue value compareTo) in
                match resolved with
                | None => fail ("switch encode missing compare field: " +:+ compareTo)
                | Some v => ret v
                end
            end
        end in
      match branch_or_default switchJson compareValue with
      | None => ret tt
      | Some branch => encode_branch branch value
      end
  | _ => fail "switch encode expects object context"
  end.

Definition encodeMapper (mapperJson : text) (value : ProtoDefValue) : M bytes unit :=
  match readJsonStringField mapperJson "type" with
  | None => fail "mapper encode base type not found"
  | Some baseType =>
      let* numeric :=
        match value with
        | String_ s =>
            let* found := lift (findMapperNumericByName mapperJson s) in
            match found with
            | None => fail ("mapper encode unknown mapped value: " +:+ s)
            | Some n => ret n
            end
        | _ => lift (asUInt value)
        end in
      encodeTypeName baseType (UInt numeric)
  end.

(** The object that a switch of a container sees. *)
Definition switch_context (value : ProtoDefValue) (name : string) : ProtoDefValue :=
  match value, get_value name value with
  | Object entries, Some child => Object (set_entry "$value" (withParent child value) entries)
  | _, _ => value
  end.

(** One field of a container. *)
Definition encode_field (name : option string) (type : text) (anon : bool) (value : ProtoDefValue) : M bytes unit :=
  if anon then encode type value
  else
    match name with
    | None => fail "container field missing name"
    | Some name =>
        let normalizedType := trim type in
        if startsWith normalizedType (kind_prefix "switch") || startsWith normalizedType (kind_prefix "entityMetadataItem") then
          encode type (switch_context value name)
        else
          match get_value name value with
          | None => fail ("container missing field: " +:+ name)
          | Some child => encode type (withParent child value)
          end
    end.

Definition field_label (name : option string) (type : text) (anon : bool) : string :=
  if anon then "<anonymous " +:+ str (take 96 (trim type)) +:+ ">" else default "<unnamed>" name.

Fixpoint fields_loop (fuel : nat) (fields : text) (value : ProtoDefValue) (pos : nat) : M bytes unit :=
  match fuel with
  | O => raise OutOfFuel
  | S fuel' =>
      let* next := lift (next_object "container" fields pos) in
      match next with
      | None => ret tt
      | Some (fieldObj, pos) =>
          let name := readJsonStringField fieldObj "name" in
          let anon := default false (readJsonBoolField fieldObj "anon") in
          match readJsonValueField fieldObj "type" with
          | None => fields_loop fuel' fields value pos
          | Some type =>
              catch (encode_field name type anon value)
                (fun error => fail ("at container field " +:+ field_label name type anon +:+ ": " +:+ what error)) ;;;
              fields_loop fuel' fields value pos
          end
      end
  end.

(** A field takes two characters at least. *)
Definition encodeContainer (containerJson : text) (value : ProtoDefValue) : M bytes unit :=
  match value with
  | Object _ =>
      match findSecondArray containerJson with
      | None => fail "container fields array not found"
      | Some fields => fields_loop (S (length fields)) fields value 0
      end
  | _ => fail "container encode expects object"
  end.

(** [mask |= bit] of the flags that are named, or that are true. *)
Fixpoint mask_of_names (flags : list (string * Z)) (items : list ProtoDefValue) (mask : Z) : result Z :=
  match items with
  | [] => Ok mask
  | item :: items' =>
      let! name := asString item in
      match head (List.filter (fun e => bool_decide (fst e = name)) flags) with
      | None => Throw (RuntimeError ("unknown bitflag: " +:+ name))
      | Some e => mask_of_names flags items' (Z.lor mask (snd e))
      end
  end.

Fixpoint mask_of_object (value : ProtoDefValue) (flags : list (string * Z)) (mask : Z) : result Z :=
  match flags with
  | [] => Ok mask
  | (name, bit) :: flags' =>
      match get_value name value with
      | None => mask_of_object value flags' mask
      | Some enabled =>
          let! b := asBool enabled in
          mask_of_object value flags' (if b : bool then Z.lor mask bit else mask)
      end
  end.

Definition bitflags_mask (bitflagsJson : text) (value : ProtoDefValue) : result Z :=
  match value with
  | UInt _ | Int _ | Bool _ | Double _ | String_ _ => asUInt128 value
  | Array items => mask_of_names (readBitflagValues bitflagsJson) items 0
  | Object _ =>
      let! raw := match get_value "_value" value with Some raw => asUInt128 raw | None => Ok 0 end in
      mask_of_object value (readBitflagValues bitflagsJson) raw
  | _ => Throw (RuntimeError "bitflags encode expects number, array, or object")
  end.

Definition encodeBitflags (bitflagsJson : text) (value : ProtoDefValue) : M bytes unit :=
  let baseType := default "varint" (readJsonStringField bitflagsJson "type") in
  let* mask := lift (bitflags_mask bitflagsJson value) in
  if bool_decide (baseType = "varint128") then ProtoDefWriter.varuint128 mask
  else if mask >? 2 ^ 64 - 1 then fail ("bitflags mask does not fit " +:+ baseType)
  else encodeTypeName baseType (UInt mask).

(** The loop that shifts [size] bits of a value into the byte being made. *)
Fixpoint bits_loop (fuel : nat) (val size toWrite bits : Z) : M bytes (Z * Z) :=
  match fuel with
  | O => raise OutOfFuel
  | S fuel' =>
      if size <=? 0 then ret (toWrite, bits)
      else
        let writeBits := Z.min (8 - bits) size in
        let mask := to_u32 (Z.shiftl 1 writeBits - 1) in
        let toWrite := Z.lor (to_u32 (Z.shiftl toWrite writeBits)) (Z.land (Z.shiftr val (size - writeBits)) mask) in
        let size := size - writeBits in
        let bits := bits + writeBits in
        if bits =? 8 then ProtoDefWriter.u8 (to_u8 toWrite) ;;; bits_loop fuel' val size 0 0
        else bits_loop fuel' val size toWrite bits
  end.

Fixpoint parts_encode (parts : list BitfieldPart) (value : ProtoDefValue) (toWrite bits : Z) : M bytes (Z * Z) :=
  match parts with
  | [] => ret (toWrite, bits)
  | part :: parts' =>
      match get_value (part_name part) value with
      | None => fail ("bitfield missing field: " +:+ part_name part)
      | Some field =>
          let* raw := lift (asInt field) in
          let n := part_size part in
          if (n <=? 0) || (31 <? n) then fail ("bitfield unsupported field size: " +:+ signed_text n)
          else
            let minValue := if signedValue part then - 2 ^ (n - 1) else 0 in
            let maxValue := if signedValue part then 2 ^ (n - 1) - 1 else 2 ^ n - 1 in
            if (raw <? minValue) || (maxValue <? raw) then fail ("bitfield field out of range: " +:+ part_name part)
            else
              let val := if signedValue part && (raw <? 0) then to_u32 (2 ^ n + raw) else to_u32 raw in
              let* (toWrite, bits) := bits_loop 32 val n toWrite bits in
              parts_encode parts' value toWrite bits
      end
  end.

Definition encodeBitfield (bitfieldJson : text) (value : ProtoDefValue) : M bytes unit :=
  match value with
  | Object _ =>
      let* parts := lift (readBitfieldParts bitfieldJson) in
      let* (toWrite, bits) := parts_encode parts value 0 0 in
      if negb (bits =? 0) then ProtoDefWriter.u8 (to_u8 (Z.shiftl toWrite (8 - bits))) else ret tt
  | _ => fail "bitfield encode expects object"
  end.

Definition entityMetadataItem_schema : option string :=
  match resolver_ "entityMetadataItem" with
  | Some s => Some s
  | None => generatedProtocolTypeJson "entityMetadataItem"
  end.

Definition encodeEntityMetadataItem (metadataItemJson : text) (value : ProtoDefValue) : M bytes unit :=
  match value with
  | Object _ =>
      let compareTo := default "type" (readJsonStringField metadataItemJson "compareTo") in
      let* compareValue := lift (resolveCompareValue value compareTo) in
      match compareValue with
      | None => fail ("entityMetadataItem missing compare field: " +:+ compareTo)
      | Some compareValue =>
          match entityMetadataItem_schema with
          | None => fail "entityMetadataItem schema not found"
          | Some switchJson =>
              match branch_or_default (chars switchJson) compareValue with
              | None => fail ("entityMetadataItem no branch for: " +:+ compareValue)
              | Some branch => encode_branch branch value
              end
          end
      end
  | _ => fail "entityMetadataItem encode expects object context"
  end.

(** The body of [encode]. *)
Definition encode_type (typeJson : text) (value : ProtoDefValue) : M bytes unit :=
  let type := trim typeJson in
  if isJsonString type then encodeTypeName (str (unquote type)) value
  else if startsWith type (kind_prefix "container") then encodeContainer type value
  else if startsWith type (kind_prefix "mapper") then encodeMapper type value
  else if startsWith type (kind_prefix "switch") then encodeSwitch type value
  else if startsWith type (kind_prefix "array") then encodeArray type value
  else if startsWith type (kind_prefix "endOfArray") then encodeEndOfArray type value
  else if startsWith type (kind_prefix "entityMetadataLoop") then encodeEntityMetadataLoop type value
  else if startsWith type (kind_prefix "count") then encodeCount type value
  else if startsWith type (kind_prefix "option") then encodeOption type value
  else if startsWith type (kind_prefix "pstring") then encodePString type value
  else if startsWith type (kind_prefix "buffer") then encodeBuffer type value
  else if startsWith type (kind_prefix "encapsulated") then encodeEncapsulated type value
  else if startsWith type (kind_prefix "bitflags") then encodeBitflags type value
  else if startsWith type (kind_prefix "bitfield") then encodeBitfield type value
  else if startsWith type (kind_prefix "entityMetadataItem") then encodeEntityMetadataItem type value
  else fail ("ProtoDefEncoder unsupported type json: " +:+ str type).

End Encode.

Fixpoint encode (fuel : nat) (typeJson : text) (value : ProtoDefValue) : M bytes unit :=
  match fuel with
  | O => raise OutOfFuel
  | S fuel' => encode_type (encode fuel') typeJson value
  end.

End Encoder.
End ProtoDefEncoder.
