(* ===== verification/ProtoDefDecoder.v ===== *)
(** * The ProtoDef decoder (src/include/bedrock/protodef/ProtoDefDecoder.hpp)

    [ProtoDefDecoder] interprets the text of a schema on the bytes of a packet
    and collects a flat list of fields, each with its path; what switches and
    counts refer to is looked up in a [ProtoDefContext] (ProtoDefContext.hpp) by
    path.  [data_] are the bytes, [order] is the order in which an
    [unordered_map] of flags is iterated, and the other parameters are those of
    the encoder.  The fuel of [decode] bounds the nesting of types and the
    rounds of the two loops that a count does not bound. *)

From S2P Require Import Prelude MachineInt Leb128 Endian ZigZag FloatBits GamePacket Text FloatText Nbt ProtoDefData ProtoDefJson.
From S2P Require Import ProtoDefText ProtoDefStream ProtoDefNbt.

Module ProtoDefContext.

Definition ProtoDefContext := gmap string string.

(** The part of a key behind its last dot, when there is one. *)
Definition short_key (key : string) : option string :=
  match rfind_char (ascii_of_byte 46) key with
  | Some dot => if (S dot <? String.length key)%nat then Some (str (drop (S dot) (chars key))) else None
  | None => None
  end.

Definition set (key value : string) (values_ : ProtoDefContext) : ProtoDefContext :=
  let values_ := <[key := value]> values_ in
  match short_key key with Some s => <[s := value]> values_ | None => values_ end.

(** [get] without a default; the empty string stands for nothing. *)
Definition get (key : string) (values_ : ProtoDefContext) : string := default "" (values_ !! key).

End ProtoDefContext.

Module ProtoDefDecoder.
Import ProtoDefJson ProtoDefText ProtoDefNbt ProtoDefContext.

(** The reader's offset, the fields and the context. *)
Record state := mkState { offset_ : Z; out : list ProtoDefField; context : ProtoDefContext }.

Definition fail {A} (msg : string) : M state A := raise (RuntimeError msg).
Definition rd {A} (m : M Z A) : M state A :=
  zoom offset_ (fun o s => mkState o (out s) (context s)) m.

Definition context_set (key value : string) : M state unit :=
  let* s := get_st in put_st (mkState (offset_ s) (out s) (set key value (context s))).
Definition context_get (key : string) : M state string :=
  let* s := get_st in ret (get key (context s)).

Definition offset : M state Z := rd ProtoDefReader.offset.

(** [path.empty() ? if_empty : path]. *)
Definition named (path if_empty : string) : string := if bool_decide (path = "") then if_empty else path.
(** [path.empty() ? name : path + "." + name]. *)
Definition child_path (path name : string) : string :=
  if bool_decide (path = "") then name else path +:+ "." +:+ name.

Definition uint128ToString (value : Z) : string := to_string value.

Definition resolveComparePath (currentPath compareTo : string) : string :=
  if is_prefix (chars "../") (chars compareTo) then
    let base := match rfind_char (ascii_of_byte 46) currentPath with
                | Some dot => str (take dot (chars currentPath))
                | None => ""
                end in
    let rest := str (drop 3 (chars compareTo)) in
    if bool_decide (base = "") then rest else base +:+ "." +:+ rest
  else
    match rfind_char (ascii_of_byte 46) currentPath with
    | Some dot => str (take (S dot) (chars currentPath)) +:+ compareTo
    | None => compareTo
    end.

Definition contextValueTruthy (value : string) : bool :=
  negb (bool_decide (value ∈ [""; "false"; "0"; "null"; "undefined"; "NaN"])).

(** A decoded [number/name] up to its slash. *)
Definition before_slash (raw : string) : string :=
  match find_char 47 (chars raw) 0 with Some slash => str (take slash (chars raw)) | None => raw end.

Definition enumSizeBasedOnValuesLen (context : ProtoDefContext) : result string :=
  let raw := get "values_len" context in
  if bool_decide (raw = "") then Throw (RuntimeError "enum_size_based_on_values_len missing values_len")
  else
    let! n := stoull (before_slash raw) in
    Ok (if n <=? 0xff then "byte" else if n <=? 0xffff then "short" else "int").

Definition readMapperValue (mapperJson : text) (numeric : string) : option string :=
  mappings ← readJsonValueField mapperJson "mappings";
  match readJsonStringField mappings numeric with
  | Some mapped => Some mapped
  | None =>
      quoted ← readJsonValueField mappings numeric;
      if isJsonString (trim quoted) then Some (str (unquote (trim quoted))) else None
  end.

Definition scalar_types : list string :=
  ["void"; "bool"; "byte"; "u8"; "lu8"; "i8"; "li8"; "u16"; "lu16"; "i16"; "li16"; "u32"; "lu32"; "i32"; "li32";
   "u64"; "lu64"; "i64"; "li64"; "varint"; "varuint"; "varint64"; "varuint64"; "varlong"; "zigzag32"; "zigzag64";
   "varint128"; "f32"; "lf32"; "f64"; "lf64"].

Definition isScalarArrayType (typeJson : text) : bool :=
  isJsonString (trim typeJson) && bool_decide (str (unquote (trim typeJson)) ∈ scalar_types).

Definition buffer_text (n : Z) : string := "<Buffer bytes:" +:+ to_string n +:+ ">".

Section Decoder.
Context (data_ : bytes) (resolver_ generatedProtocolTypeJson : string -> option string).
Context (variables_ : list (string * string)) (order : list (string * Z) -> list (string * Z)) (collectFields_ : bool).

Definition appendField (field : ProtoDefField) : M state unit :=
  let* s := get_st in
  if collectFields_ then put_st (mkState (offset_ s) (out s ++ [field]) (context s)) else ret tt.

(** [appendField(out, field); context.set(field.path, field.value);] *)
Definition emit (field : ProtoDefField) : M state unit :=
  appendField field ;;; context_set (path field) (value field).

Definition remaining : M state Z := rd (ProtoDefReader.remaining data_).
Definition u8 : M state Z := rd (ProtoDefReader.u8 data_).

(** [readVarUInt128]; 19 bytes, the last of which shifts beyond 128 bits. *)
Fixpoint varuint128_loop (n : nat) (shift result : Z) : M state Z :=
  match n with
  | O => fail "varint128 too long"
  | S n' =>
      let* byte := u8 in
      let result := Z.lor result (uint128 (Z.shiftl (Z.land byte 0x7f) shift)) in
      if Z.land byte 0x80 =? 0 then ret result
      else if shift + 7 >=? 128 then fail "varint128 too long"
      else varuint128_loop n' (shift + 7) result
  end.
Definition readVarUInt128 : M state Z := varuint128_loop 19 0 0.

(** [value.push_back(static_cast<char>(reader.u8()))], [n] times. *)
Definition read_chars (n : Z) : M state string :=
  let* b := rd (ProtoDefReader.read_loop (ProtoDefReader.u8 data_) (Z.to_nat n) []) in ret (string_of_bytes b).

Definition readShortString : M state string := let* len := rd (ProtoDefReader.u16le data_) in read_chars len.

Definition checked_unsigned (owner : string) (value : Z) : M state Z :=
  if value >? 2 ^ 63 - 1 then fail (owner +:+ " count exceeds int64") else ret value.

Definition readCount (type : string) (allowRemaining : bool) (owner : string) : M state Z :=
  if bool_decide (type ∈ ["u8"; "lu8"]) then u8
  else if bool_decide (type ∈ ["i8"; "li8"]) then let* v := u8 in ret (to_i8 v)
  else if bool_decide (type = "u16") then rd (ProtoDefReader.u16be data_)
  else if bool_decide (type = "i16") then let* v := rd (ProtoDefReader.u16be data_) in ret (to_i16 v)
  else if bool_decide (type = "lu16") then rd (ProtoDefReader.u16le data_)
  else if bool_decide (type = "li16") then let* v := rd (ProtoDefReader.u16le data_) in ret (to_i16 v)
  else if bool_decide (type = "u32") then rd (ProtoDefReader.u32be data_)
  else if bool_decide (type = "i32") then rd (ProtoDefReader.i32be data_)
  else if bool_decide (type = "lu32") then rd (ProtoDefReader.u32le data_)
  else if bool_decide (type = "li32") then rd (ProtoDefReader.i32le data_)
  else if bool_decide (type ∈ ["varint"; "varuint"]) then rd (ProtoDefReader.varuint32 data_)
  else if bool_decide (type = "zigzag32") then rd (ProtoDefReader.zigzag32 data_)
  else if bool_decide (type ∈ ["varint64"; "varuint64"]) then
    let* v := rd (ProtoDefReader.varuint64 data_) in checked_unsigned owner v
  else if bool_decide (type = "zigzag64") then rd (ProtoDefReader.zigzag64 data_)
  else if allowRemaining && bool_decide (type = "remaining") then let* v := remaining in checked_unsigned owner v
  else fail (owner +:+ " unsupported count type: " +:+ type).

Definition findSwitchBranchType (switchJson : text) (key : string) : option text :=
  fields ← readJsonValueField switchJson "fields";
  first_branch (readJsonValueField fields) (branch_keys variables_ key).

Definition branch_or_default (json : text) (key : string) : option text :=
  match findSwitchBranchType json key with
  | Some b => Some b
  | None => readJsonValueField json "default"
  end.

(** A count that refers to another field. *)
Definition count_from (raw : string) : M state Z := lift (stoll (before_slash raw)).

(** The first of the keys that the context has something other than the empty
    string for. *)
Fixpoint first_context (keys : list string) : M state string :=
  match keys with
  | [] => ret ""
  | k :: keys' => let* raw := context_get k in if bool_decide (raw = "") then first_context keys' else ret raw
  end.

Definition after_last_dot (key : string) : list string :=
  match ProtoDefContext.short_key key with Some s => [s] | None => [] end.

(** ** Values without a nested type *)

(** [nbtLoop]: values up to a tag of 0; a value takes a byte at least. *)
Fixpoint nbt_loop (fuel : nat) (values : list ProtoDefValue) : M state (list ProtoDefValue) :=
  match fuel with
  | O => raise OutOfFuel
  | S fuel' =>
      let missing := "nbtLoop is missing its TAG_End terminator" in
      let* n := remaining in
      if n >? 0 then
        let* before := offset in
        let* tag := u8 in
        if tag =? 0 then ret values
        else
          rd (ProtoDefReader.rewindTo data_ before) ;;;
          let* v := rd (readProtoDefNbt data_ LittleVarInt) in
          nbt_loop fuel' (values ++ [v])
      else fail missing
  end.

(** [std::to_string(double(float))]. *)
Definition float_text (raw : Z) : string := to_string_f64 (f64_of_f32 raw).

Fixpoint uuid_loop (n : nat) (i : Z) (hex_ : text) : M state text :=
  match n with
  | O => ret hex_
  | S n' =>
      let dash := if bool_decide (i ∈ [4; 6; 8; 10]) then chars "-" else [] in
      let* b := u8 in
      uuid_loop n' (i + 1) (hex_ ++ dash ++ hex [b])
  end.

(** The path of a varint that is an entity's runtime id. *)
Definition is_runtime_id (path : string) : bool :=
  let has s := match find_text (chars s) (chars path) 0 with Some _ => true | None => false end in
  has "runtime_id" || has "runtime_entity_id" || has "actor_runtime_id" || has "entity_runtime_id".

Definition nbt_field (encoding : BedrockNbtEncoding) : M state (string * option ProtoDefValue) :=
  let* v := rd (readProtoDefNbt data_ encoding) in ret (protoDefValueToJson v, Some v).

(** The value of a field, as text and, for some types, as it is. *)
Definition plain (m : M state string) : M state (string * option ProtoDefValue) := let* s := m in ret (s, None).
Definition unsigned (m : M Z Z) : M state (string * option ProtoDefValue) := let* v := rd m in ret (to_string v, None).
Definition signed (m : M Z Z) : M state (string * option ProtoDefValue) := let* v := rd m in ret (signed_text v, None).

Definition lstring_value : M state string :=
  let* count := rd (ProtoDefReader.i32le data_) in
  if count <? 0 then fail "lstring negative length" else read_chars count.

Definition ip_value : M state string :=
  let* a := u8 in let* b := u8 in let* c := u8 in let* d := u8 in
  ret (to_string a +:+ "." +:+ to_string b +:+ "." +:+ to_string c +:+ "." +:+ to_string d).

(** The types that [decodeTypeName] reads itself. *)
Definition primitive_value (typeName path : string) : option (M state (string * option ProtoDefValue)) :=
  if bool_decide (typeName = "void") then Some (plain (ret "<void>"))
  else if bool_decide (typeName = "string") then Some (plain (rd (ProtoDefReader.string_ data_)))
  else if bool_decide (typeName = "ShortString") then Some (plain readShortString)
  else if bool_decide (typeName = "lstring") then Some (plain lstring_value)
  else if bool_decide (typeName = "bool") then
    Some (plain (let* b := rd (ProtoDefReader.boolean data_) in ret (if b : bool then "true" else "false")))
  else if bool_decide (typeName = "uuid") then Some (plain (let* l := uuid_loop 16 0 [] in ret (str l)))
  else if bool_decide (typeName = "ipAddress") then Some (plain ip_value)
  else if bool_decide (typeName ∈ ["restBuffer"; "MapInfo"]) then
    Some (let* count := remaining in
          let* b := rd (ProtoDefReader.readBytes data_ count) in ret (buffer_text count, Some (Bytes b)))
  else if bool_decide (typeName = "byterot") then
    Some (plain (let* v := u8 in ret (to_string_f64 (f64_of_ratio false (v * 45) 32))))
  else if bool_decide (typeName = "nbtLoop") then
    Some (let* n := remaining in
          let* values := nbt_loop (S (Z.to_nat n)) [] in
          ret (protoDefValueToJson (Array values), Some (Array values)))
  else if bool_decide (typeName ∈ ["u8"; "lu8"; "byte"]) then
    Some (let* n := remaining in
          if n <? 1 then ret ("<missing:u8>", None) else unsigned (ProtoDefReader.u8 data_))
  else if bool_decide (typeName ∈ ["i8"; "li8"]) then Some (plain (let* v := u8 in ret (signed_text (to_i8 v))))
  else if bool_decide (typeName = "u16") then Some (unsigned (ProtoDefReader.u16be data_))
  else if bool_decide (typeName = "lu16") then Some (unsigned (ProtoDefReader.u16le data_))
  else if bool_decide (typeName = "i16") then
    Some (plain (let* v := rd (ProtoDefReader.u16be data_) in ret (signed_text (to_i16 v))))
  else if bool_decide (typeName = "li16") then
    Some (plain (let* v := rd (ProtoDefReader.u16le data_) in ret (signed_text (to_i16 v))))
  else if bool_decide (typeName = "u32") then Some (unsigned (ProtoDefReader.u32be data_))
  else if bool_decide (typeName = "lu32") then Some (unsigned (ProtoDefReader.u32le data_))
  else if bool_decide (typeName = "i32") then Some (signed (ProtoDefReader.i32be data_))
  else if bool_decide (typeName = "li32") then Some (signed (ProtoDefReader.i32le data_))
  else if bool_decide (typeName = "u64") then Some (unsigned (ProtoDefReader.u64be data_))
  else if bool_decide (typeName = "lu64") then Some (unsigned (ProtoDefReader.u64le data_))
  else if bool_decide (typeName = "i64") then Some (signed (ProtoDefReader.i64be data_))
  else if bool_decide (typeName = "li64") then Some (signed (ProtoDefReader.i64le data_))
  else if bool_decide (typeName ∈ ["varuint64"; "varlong"; "entity_runtime_id"; "actor_runtime_id"; "runtime_entity_id"; "varint64"]) then
    Some (unsigned (ProtoDefReader.varuint64 data_))
  else if bool_decide (typeName ∈ ["varint"; "varuint"]) then
    Some (if is_runtime_id path then unsigned (ProtoDefReader.varuint64 data_)
          else unsigned (ProtoDefReader.varuint32 data_))
  else if bool_decide (typeName = "zigzag32") then Some (signed (ProtoDefReader.zigzag32 data_))
  else if bool_decide (typeName = "zigzag64") then Some (signed (ProtoDefReader.zigzag64 data_))
  else if bool_decide (typeName = "varint128") then
    Some (plain (let* v := readVarUInt128 in ret (uint128ToString v)))
  else if bool_decide (typeName = "enum_size_based_on_values_len") then
    Some (plain (let* s := get_st in lift (enumSizeBasedOnValuesLen (context s))))
  else if bool_decide (typeName = "f32") then
    Some (plain (let* v := rd (ProtoDefReader.readF32BE data_) in ret (float_text v)))
  else if bool_decide (typeName = "lf32") then
    Some (plain (let* v := rd (ProtoDefReader.readF32LE data_) in ret (float_text v)))
  else if bool_decide (typeName = "f64") then
    Some (plain (let* v := rd (ProtoDefReader.readF64BE data_) in ret (to_string_f64 v)))
  else if bool_decide (typeName = "lf64") then
    Some (plain (let* v := rd (ProtoDefReader.readF64LE data_) in ret (to_string_f64 v)))
  else if bool_decide (typeName = "vec3i") then
    Some (plain (let* x := rd (ProtoDefReader.zigzag32 data_) in
                 let* y := rd (ProtoDefReader.zigzag32 data_) in
                 let* z := rd (ProtoDefReader.zigzag32 data_) in
                 ret (signed_text x +:+ "," +:+ signed_text y +:+ "," +:+ signed_text z)))
  else if bool_decide (typeName = "vec3f") then
    Some (plain (let* x := rd (ProtoDefReader.readF32LE data_) in
                 let* y := rd (ProtoDefReader.readF32LE data_) in
                 let* z := rd (ProtoDefReader.readF32LE data_) in
                 ret (float_text x +:+ "," +:+ float_text y +:+ "," +:+ float_text z)))
  else if bool_decide (typeName ∈ ["native"; "nbt"]) then Some (nbt_field LittleVarInt)
  else if bool_decide (typeName = "lnbt") then Some (nbt_field LittleEndian)
  else None.

(** The numeric text of a mapper's base type. *)
Definition mapper_numeric (baseType : string) : M state string :=
  if bool_decide (baseType ∈ ["u8"; "lu8"]) then
    let* v := rd (ProtoDefReader.tryU8 data_) in
    ret (match v with None => "<missing:u8>" | Some v => to_string v end)
  else if bool_decide (baseType ∈ ["i8"; "li8"]) then let* v := u8 in ret (signed_text (to_i8 v))
  else if bool_decide (baseType = "u16") then let* v := rd (ProtoDefReader.u16be data_) in ret (to_string v)
  else if bool_decide (baseType = "lu16") then let* v := rd (ProtoDefReader.u16le data_) in ret (to_string v)
  else if bool_decide (baseType = "i16") then let* v := rd (ProtoDefReader.u16be data_) in ret (signed_text (to_i16 v))
  else if bool_decide (baseType = "li16") then let* v := rd (ProtoDefReader.u16le data_) in ret (signed_text (to_i16 v))
  else if bool_decide (baseType = "u32") then let* v := rd (ProtoDefReader.u32be data_) in ret (to_string v)
  else if bool_decide (baseType = "lu32") then let* v := rd (ProtoDefReader.u32le data_) in ret (to_string v)
  else if bool_decide (baseType = "i32") then let* v := rd (ProtoDefReader.i32be data_) in ret (signed_text v)
  else if bool_decide (baseType = "li32") then let* v := rd (ProtoDefReader.i32le data_) in ret (signed_text v)
  else if bool_decide (baseType ∈ ["varint"; "varuint"]) then
    let* v := rd (ProtoDefReader.varuint32 data_) in ret (to_string v)
  else if bool_decide (baseType ∈ ["varint64"; "varuint64"]) then
    let* v := rd (ProtoDefReader.varuint64 data_) in ret (to_string v)
  else if bool_decide (baseType = "zigzag32") then let* v := rd (ProtoDefReader.zigzag32 data_) in ret (signed_text v)
  else fail ("mapper unsupported base type: " +:+ baseType).

(** The bits of a flags field, its raw value, and its text. *)
Definition raw_unsigned (m : M Z Z) : M state (Z * ProtoDefValue * string) :=
  let* raw := rd m in ret (raw, UInt raw, to_string raw).
Definition raw_signed (w : Z) (m : M Z Z) : M state (Z * ProtoDefValue * string) :=
  let* v := rd m in let raw := to_signed w v in ret (raw mod 2 ^ w, Int raw, signed_text raw).

Definition bitflags_raw (baseType : string) : M state (Z * ProtoDefValue * string) :=
  if bool_decide (baseType ∈ ["u8"; "lu8"]) then raw_unsigned (ProtoDefReader.u8 data_)
  else if bool_decide (baseType ∈ ["i8"; "li8"]) then raw_signed 8 (ProtoDefReader.u8 data_)
  else if bool_decide (baseType = "u16") then raw_unsigned (ProtoDefReader.u16be data_)
  else if bool_decide (baseType = "lu16") then raw_unsigned (ProtoDefReader.u16le data_)
  else if bool_decide (baseType = "i16") then raw_signed 16 (ProtoDefReader.u16be data_)
  else if bool_decide (baseType = "li16") then raw_signed 16 (ProtoDefReader.u16le data_)
  else if bool_decide (baseType = "u32") then raw_unsigned (ProtoDefReader.u32be data_)
  else if bool_decide (baseType = "lu32") then raw_unsigned (ProtoDefReader.u32le data_)
  else if bool_decide (baseType = "i32") then raw_signed 32 (ProtoDefReader.i32be data_)
  else if bool_decide (baseType = "li32") then raw_signed 32 (ProtoDefReader.i32le data_)
  else if bool_decide (baseType = "u64") then raw_unsigned (ProtoDefReader.u64be data_)
  else if bool_decide (baseType = "lu64") then raw_unsigned (ProtoDefReader.u64le data_)
  else if bool_decide (baseType = "i64") then raw_signed 64 (ProtoDefReader.i64be data_)
  else if bool_decide (baseType = "li64") then raw_signed 64 (ProtoDefReader.i64le data_)
  else if bool_decide (baseType ∈ ["varint"; "varuint"; "varuint32"]) then raw_unsigned (ProtoDefReader.varuint32 data_)
  else if bool_decide (baseType ∈ ["varint64"; "varuint64"; "varlong"]) then raw_unsigned (ProtoDefReader.varuint64 data_)
  else if bool_decide (baseType = "zigzag32") then raw_signed 32 (ProtoDefReader.zigzag32 data_)
  else if bool_decide (baseType = "zigzag64") then raw_signed 64 (ProtoDefReader.zigzag64 data_)
  else if bool_decide (baseType ∈ ["varint128"; "varuint128"]) then
    let* v := readVarUInt128 in
    let s := uint128ToString v in
    ret (v, if v <=? 2 ^ 64 - 1 then UInt v else String_ s, s)
  else fail ("bitflags unsupported base type: " +:+ baseType).

Definition decodeBitflags (bitflagsJson : text) (path : string) : M state unit :=
  let baseType := default "lu32" (readJsonStringField bitflagsJson "type") in
  let* start := offset in
  let* (value, rawValue, text_) := bitflags_raw baseType in
  let* stop := offset in
  appendField (mkField path "bitflags" text_ start (stop - start) (Some (Object [("_value", rawValue)]))) ;;;
  context_set path text_ ;;;
  for_each (order (readBitflagValues bitflagsJson)) (fun e =>
    let enabled := Z.land value (snd e) =? snd e in
    emit (mkField (child_path path (fst e)) "bool" (if enabled then "true" else "false") start (stop - start) None)).

(** The loop over the bits of a part: the byte being read, its unread bits. *)
Fixpoint part_bits (fuel : nat) (currentSize value currentByte remainingBits : Z) : M state (Z * Z * Z) :=
  match fuel with
  | O => raise OutOfFuel
  | S fuel' =>
      if currentSize <=? 0 then ret (value, currentByte, remainingBits)
      else
        let* (currentByte, remainingBits) :=
          (if remainingBits =? 0 then let* b := u8 in ret (b, 8) else ret (currentByte, remainingBits)) in
        let bitsToRead := Z.min currentSize remainingBits in
        let mask := to_u8 (Z.shiftl 1 remainingBits - 1) in
        let value := Z.lor (Z.shiftl value bitsToRead)
          (Z.land (Z.shiftr (Z.land currentByte mask) (remainingBits - bitsToRead)) (Z.shiftl 1 bitsToRead - 1)) in
        part_bits fuel' (currentSize - bitsToRead) value currentByte (remainingBits - bitsToRead)
  end.

Fixpoint parts_decode (parts : list BitfieldPart) (path : string) (currentByte remainingBits : Z) : M state unit :=
  match parts with
  | [] => ret tt
  | part :: parts' =>
      let* start := offset in
      let n := part_size part in
      if (n <=? 0) || (31 <? n) then fail ("bitfield unsupported field size: " +:+ signed_text n)
      else
        let* (value, currentByte, remainingBits) := part_bits 32 n 0 currentByte remainingBits in
        let value := if signedValue part && (2 ^ (n - 1) <=? value) then value - 2 ^ n else value in
        let* stop := offset in
        emit (mkField (child_path path (part_name part)) "bitfield" (signed_text value) start (stop - start) None) ;;;
        parts_decode parts' path currentByte remainingBits
  end.

Definition decodeBitfield (bitfieldJson : text) (path : string) : M state unit :=
  let* parts := lift (readBitfieldParts bitfieldJson) in parts_decode parts path 0 0.

Definition decodePString (stringJson : text) (path : string) : M state unit :=
  let countType := default "varint" (readJsonStringField stringJson "countType") in
  let encoding := default "utf8" (readJsonStringField stringJson "encoding") in
  let* start := offset in
  let* count := readCount countType false "pstring" in
  if count <? 0 then fail "pstring negative length"
  else
    let* value := read_chars count in
    let* stop := offset in
    emit (mkField (named path "$string") (if bool_decide (encoding = "latin1") then "pstring<latin1>" else "pstring")
      value start (stop - start) None).

(** The type of a counted field, by where its count is from. *)
Definition counted_type (fixed ref read : string) (fixedCount : option Z) (countRef : option string) (countType : string) : string :=
  match fixedCount, countRef with
  | Some n, _ => fixed +:+ to_string n +:+ ">"
  | None, Some r => ref +:+ r +:+ ">"
  | None, None => read +:+ countType +:+ ">"
  end.

Definition decodeBuffer (bufferJson : text) (path : string) : M state unit :=
  let* fixedCount := lift (readJsonIntegerField bufferJson "count") in
  let countRef := readJsonStringField bufferJson "count" in
  let countType := default "varint" (readJsonStringField bufferJson "countType") in
  let* start := offset in
  let* count :=
    match fixedCount, countRef with
    | Some n, _ => ret (to_i64 n)
    | None, Some r =>
        let countPath := resolveComparePath path r in
        let* raw := first_context [countPath; r] in
        if bool_decide (raw = "") then fail ("buffer count field not found: " +:+ countPath) else count_from raw
    | None, None => readCount countType true "buffer"
    end in
  if count <? 0 then fail "buffer negative count"
  else
    let* b := rd (ProtoDefReader.readBytes data_ count) in
    let* stop := offset in
    emit (mkField (named path "$buffer") (counted_type "buffer<count:" "buffer<count:" "buffer<" fixedCount countRef countType)
      (buffer_text count) start (stop - start) (Some (Bytes b))).

Definition decodeMapper (mapperJson : text) (path : string) : M state unit :=
  match readJsonStringField mapperJson "type" with
  | None => fail "mapper base type not found"
  | Some baseType =>
      let* start := offset in
      let* numeric := mapper_numeric baseType in
      let mapped := default numeric (readMapperValue mapperJson numeric) in
      let* stop := offset in
      appendField (mkField (named path "$value") ("mapper<" +:+ baseType +:+ ">") (numeric +:+ "/" +:+ mapped)
        start (stop - start) None) ;;;
      context_set (named path "$value") mapped
  end.

(** ** Values with a nested type *)

Section Decode.
(** [decode] of a type nested in this one, and a bound on the open loops. *)
Context (decode : text -> string -> M state unit) (rounds : nat).

Definition decodeTypeName (typeName path : string) : M state unit :=
  let* start := offset in
  match primitive_value typeName path with
  | Some read =>
      let* (v, structured) := read in
      let* stop := offset in
      emit (mkField (named path "$value") typeName v start (stop - start) structured)
  | None =>
      match resolver_ typeName with
      | Some resolved => decode (chars resolved) path
      | None =>
          match generatedProtocolTypeJson typeName with
          | Some generated => decode (chars generated) path
          | None => fail ("ProtoDefDecoder unknown primitive type: " +:+ typeName)
          end
      end
  end.

Definition decodeEncapsulated (encapsulatedJson : text) (path : string) : M state unit :=
  let lengthType := default "varint" (readJsonStringField encapsulatedJson "lengthType") in
  match readJsonValueField encapsulatedJson "type" with
  | None => fail "encapsulated inner type not found"
  | Some innerType =>
      let* length := readCount lengthType false "encapsulated" in
      if length <? 0 then fail "encapsulated negative length" else decode innerType path
  end.

Definition decodeCount (countJson : text) (path : string) : M state unit :=
  match readJsonValueField countJson "type" with
  | None => fail "count type not found"
  | Some type => decode type (named path "$count")
  end.

Definition decodeOption (optionJson : text) (path : string) : M state unit :=
  let* start := offset in
  let* n := remaining in
  if n <? 1 then
    appendField (mkField (path +:+ ".$present") "option_present" "<missing:u8>" 0 0 None)
  else
    let* present := u8 in
    let* stop := offset in
    emit (mkField (if bool_decide (path = "") then "$option" else path +:+ ".$present") "option_present"
      (if negb (present =? 0) then "true" else "false") start (stop - start) None) ;;;
    if present =? 0 then ret tt
    else
      match readSecondElement optionJson with
      | None => fail "option inner type not found"
      | Some innerType => decode innerType path
      end.

(** What an atom of [compareTo] stands for: the first of these keys that the
    context has. *)
Fixpoint first_present (keys : list string) (context : ProtoDefContext) : option string :=
  match keys with
  | [] => None
  | k :: keys' => match context !! k with Some v => Some v | None => first_present keys' context end
  end.

Definition compare_keys (path name : string) : list string :=
  [resolveComparePath path name] ++
  (match find_text (chars "_enum_type") (chars name) 0 with Some _ => ["_enum_type"] | None => [] end) ++
  [name] ++ (if bool_decide (path = "") then [] else [path +:+ "." +:+ name]).

Definition compare_atom (path : string) (context : ProtoDefContext) (atom : text) : result (option ProtoDefCompareAtom) :=
  Ok ((fun v => mkAtom v (contextValueTruthy v)) <$> first_present (compare_keys path (str atom)) context).

Definition decodeSwitch (switchJson : text) (path : string) : M state unit :=
  let* compareValue :=
    match readJsonStringField switchJson "compareToValue" with
    | Some v => ret v
    | None =>
        match readJsonStringField switchJson "compareTo" with
        | None => fail "switch compareTo not found"
        | Some compareTo =>
            let* s := get_st in
            let* resolved := lift (evaluateProtoDefCompareExpression (chars compareTo) (compare_atom path (context s))) in
            ret (default "" resolved)
        end
    end in
  match branch_or_default switchJson compareValue with
  | None =>
      let* start := offset in
      emit (mkField (named path "$switch") "switch" ("<no_branch:" +:+ compareValue +:+ ">") start 0 None)
  | Some branch => decode branch path
  end.

(** [for (int64_t i = 0; i < count; ++i) decode(item, path[i])]. *)
Fixpoint items_loop (n : nat) (i : Z) (itemType : text) (item_path : Z -> string) (path : string) : M state unit :=
  match n with
  | O => ret tt
  | S n' =>
      catch (decode itemType (item_path i))
        (fun e => fail ("at " +:+ path +:+ "[" +:+ to_string i +:+ "]: " +:+ what e)) ;;;
      items_loop n' (i + 1) itemType item_path path
  end.

Definition index_path (path : string) (i : Z) : string := path +:+ "[" +:+ to_string i +:+ "]".

Definition decodeArray (arrayJson : text) (path : string) : M state unit :=
  let* fixedCount := lift (readJsonIntegerField arrayJson "count") in
  let countRef := readJsonStringField arrayJson "count" in
  let countType := default "varint" (readJsonStringField arrayJson "countType") in
  match readJsonValueField arrayJson "type" with
  | None => fail "array item type not found"
  | Some itemType =>
      let* start := offset in
      let* (count, countWasRead) :=
        match fixedCount, countRef with
        | Some n, _ => ret (to_i64 n, false)
        | None, Some r =>
            let countPath := resolveComparePath path r in
            let* raw := first_context ([countPath; r] ++ after_last_dot countPath) in
            if bool_decide (raw = "") then fail ("array count field not found: " +:+ countPath +:+ " at path " +:+ path)
            else let* n := count_from raw in ret (n, false)
        | None, None => let* n := readCount countType false "array" in ret (n, true)
        end in
      if count <? 0 then fail "array negative count"
      else
        let* stop := offset in
        emit (mkField (if bool_decide (path = "") then "$count" else path +:+ ".$count")
          (counted_type "array_count_fixed<" "array_count_ref<" "array_count<" fixedCount countRef countType)
          (to_string count) start (if countWasRead : bool then stop - start else 0) None) ;;;
        let compactScalarValidation := negb collectFields_ && isScalarArrayType itemType in
        items_loop (Z.to_nat count) 0 itemType
          (fun i => if compactScalarValidation then path +:+ "[]" else index_path path i) path
  end.

Fixpoint end_loop (fuel : nat) (i : Z) (itemType : text) (path : string) : M state unit :=
  match fuel with
  | O => raise OutOfFuel
  | S fuel' =>
      let* n := remaining in
      if n >? 0 then decode itemType (index_path path i) ;;; end_loop fuel' (i + 1) itemType path else ret tt
  end.

Definition decodeEndOfArray (arrayJson : text) (path : string) : M state unit :=
  match readJsonValueField arrayJson "type" with
  | None => fail "endOfArray item type not found"
  | Some itemType => end_loop rounds 0 itemType path
  end.

Fixpoint metadata_loop (fuel : nat) (i : Z) (itemType : text) (endVal : Z) (path : string) : M state unit :=
  match fuel with
  | O => raise OutOfFuel
  | S fuel' =>
      let* before := offset in
      let* marker := u8 in
      if marker =? to_u8 endVal then
        emit (mkField (if bool_decide (path = "") then "$metadata_end" else path +:+ ".$end") "entityMetadataLoop_end"
          (to_string endVal) before 1 None)
      else
        rd (ProtoDefReader.rewindTo data_ before) ;;;
        decode itemType (index_path path i) ;;;
        metadata_loop fuel' (i + 1) itemType endVal path
  end.

Definition decodeEntityMetadataLoop (metadataJson : text) (path : string) : M state unit :=
  let itemType := readJsonValueField metadataJson "type" in
  let* endVal := lift (readJsonIntegerField metadataJson "endVal") in
  match itemType with
  | None => fail "entityMetadataLoop item type not found"
  | Some itemType => metadata_loop rounds 0 itemType (default 0x7f endVal) path
  end.

Fixpoint fields_loop (fuel : nat) (fields : text) (path : string) (pos : nat) : M state unit :=
  match fuel with
  | O => raise OutOfFuel
  | S fuel' =>
      let* next := lift (next_object "container" fields pos) in
      match next with
      | None => ret tt
      | Some (fieldObj, pos) =>
          let name := readJsonStringField fieldObj "name" in
          let anon := default false (readJsonBoolField fieldObj "anon") in
          match readJsonValueField fieldObj "type" with
          | None => fields_loop fuel' fields path pos
          | Some type =>
              let childPath := match anon, name with false, Some n => child_path path n | _, _ => path end in
              catch (decode type childPath)
                (fun e => fail ("at " +:+ named childPath "$container" +:+ ": " +:+ what e)) ;;;
              fields_loop fuel' fields path pos
          end
      end
  end.

Definition decodeContainer (containerJson : text) (path : string) : M state unit :=
  match readSecondElement containerJson with
  | None => fail "container fields array not found"
  | Some fields =>
      if negb (startsWith (trim fields) (chars "[")) then fail "container fields value is not an array"
      else fields_loop (S (length fields)) fields path 0
  end.

Definition entityMetadataItem_schema : option string :=
  match resolver_ "entityMetadataItem" with
  | Some s => Some s
  | None => generatedProtocolTypeJson "entityMetadataItem"
  end.

Definition decodeEntityMetadataItem (metadataItemJson : text) (path : string) : M state unit :=
  let compareTo := default "type" (readJsonStringField metadataItemJson "compareTo") in
  let* compareValue := first_context ([resolveComparePath path compareTo; compareTo] ++
    (if bool_decide (path = "") then [] else [path +:+ "." +:+ compareTo])) in
  if bool_decide (compareValue = "") then fail ("entityMetadataItem missing compare field: " +:+ compareTo)
  else
    match entityMetadataItem_schema with
    | None => fail "entityMetadataItem schema not found"
    | Some switchJson =>
        match branch_or_default (chars switchJson) compareValue with
        | None => fail ("entityMetadataItem no branch for: " +:+ compareValue)
        | Some branch => decode branch path
        end
    end.

(** The type [enum_size_based_on_values_len] written as a list. *)
Definition decode_enum_size (path : string) : M state unit :=
  let* valuesLen := context_get "values_len" in
  if bool_decide (valuesLen = "") then fail "enum_size_based_on_values_len missing values_len"
  else
    let n := match stoull valuesLen with Ok n => n | Throw _ => 0 end in
    let enumType := if n <=? 0xff then "byte" else if n <=? 0xffff then "short" else "int" in
    let* start := offset in
    appendField (mkField path "enum_size_based_on_values_len" enumType start 0 None) ;;;
    context_set path enumType ;;; context_set "_enum_type" enumType.

(** The body of [decode]. *)
Definition decode_type (typeJson : text) (path : string) : M state unit :=
  let type := trim typeJson in
  if isJsonString type then decodeTypeName (str (unquote type)) path
  else if startsWith type (kind_prefix "container") then decodeContainer type path
  else if startsWith type (kind_prefix "array") then decodeArray type path
  else if startsWith type (kind_prefix "endOfArray") then decodeEndOfArray type path
  else if startsWith type (kind_prefix "entityMetadataLoop") then decodeEntityMetadataLoop type path
  else if startsWith type (kind_prefix "count") then decodeCount type path
  else if startsWith type (kind_prefix "mapper") then decodeMapper type path
  else if startsWith type (kind_prefix "switch") then decodeSwitch type path
  else if startsWith type (kind_prefix "option") then decodeOption type path
  else if startsWith type (kind_prefix "pstring") then decodePString type path
  else if startsWith type (kind_prefix "buffer") then decodeBuffer type path
  else if startsWith type (kind_prefix "encapsulated") then decodeEncapsulated type path
  else if startsWith type (kind_prefix "bitflags") then decodeBitflags type path
  else if startsWith type (kind_prefix "bitfield") then decodeBitfield type path
  else if startsWith type (kind_prefix "entityMetadataItem") then decodeEntityMetadataItem type path
  else if bool_decide (type = kind_prefix "enum_size_based_on_values_len" ++ chars "]") ||
          bool_decide (type = chars "enum_size_based_on_values_len") then decode_enum_size path
  else fail ("ProtoDefDecoder unsupported type json: " +:+ str type).

End Decode.

Fixpoint decode (fuel : nat) (typeJson : text) (path : string) : M state unit :=
  match fuel with
  | O => raise OutOfFuel
  | S fuel' => decode_type (decode fuel') fuel' typeJson path
  end.

End Decoder.
End ProtoDefDecoder.
