(* ===== verification/ProtoDefPackets.v ===== *)
(** * Packets by their schemas (src/include/bedrock/protodef)

    [ProtoDefPacketEncoder] and [ProtoDefPacketDecoder] (ProtoDefPacketEncoder.hpp,
    ProtoDefPacketDecoder.hpp): the schema of a packet, found in the index of a
    TSV file (src/include/bedrock/debug/ProtocolTypeTsvIndex.hpp) or in the
    generated table, and the variables that packets keep (ProtoDefVariables.hpp,
    ProtoDefPacketVariables.hpp).  They are the packet codecs that the network
    client is given. *)

From S2P Require Import Prelude MachineInt FloatBits GamePacket Text FloatText Nbt ProtoDefData ProtoDefJson.
From S2P Require Import ProtoDefText ProtoDefStream ProtoDefNbt ProtoDefEncoder ProtoDefDecoder.

Module ProtoDefPackets.
Import ProtoDefJson ProtoDefText.

(** [ProtoDefVariableStore]; its lock makes every member atomic. *)
Definition ProtoDefVariableMap := gmap string string.
Definition setVariable (key value : string) : M ProtoDefVariableMap unit :=
  let* variables_ := get_st in put_st (<[key := value]> variables_).
Definition variable (key : string) : M ProtoDefVariableMap (option string) :=
  let* variables_ := get_st in ret (variables_ !! key).

(** ** Variables kept from packets *)

Definition packetCarriesItemPalette (packetName : string) : bool :=
  bool_decide (packetName = "item_registry") || bool_decide (packetName = "start_game").

(** [Some] of a key, none for the kinds without one. *)
Definition variableKey (value : ProtoDefValue) : result (option string) :=
  match value with
  | Int v => Ok (Some (signed_text v))
  | UInt v => Ok (Some (to_string v))
  | Double d => if f64_special d then Ok None else let! v := int_of_f64 (- 2 ^ 63) (2 ^ 63) d in Ok (Some (signed_text v))
  | Bool b => Ok (Some (if b then "true" else "false"))
  | String_ s => Ok (Some s)
  | _ => Ok None
  end.

Definition isTruthyVariableValue (value : ProtoDefValue) : bool :=
  match value with
  | Bool b => b
  | Int v | UInt v => negb (v =? 0)
  | Double d => negb (f64_eqb d 0) && negb (f64_is_nan d)
  | String_ s => negb (bool_decide (s = ""))
  | Bytes _ | Array _ | Object _ => true
  | Null => false
  end.

Definition isTruthyVariableKey (value : string) : bool :=
  if bool_decide (value = "") then false
  else match stoll value with Ok v => negb (v =? 0) | Throw _ => true end.

Definition shield : string := "minecraft:shield".

Definition updateShieldItemId (name runtimeId : string) : M ProtoDefVariableMap unit :=
  if bool_decide (name = shield) then setVariable "ShieldItemID" runtimeId else ret tt.

(** The loop over the item states, which ends at the first shield. *)
Fixpoint update_states (states : list ProtoDefValue) : M ProtoDefVariableMap unit :=
  match states with
  | [] => ret tt
  | state :: states' =>
      match get_value "name" state with
      | Some (String_ name) =>
          if bool_decide (name = shield) then
            match get_value "runtime_id" state with
            | Some runtimeId =>
                if isTruthyVariableValue runtimeId then
                  let* key := lift (variableKey runtimeId) in
                  match key with Some k => updateShieldItemId name k | None => ret tt end
                else ret tt
            | None => ret tt
            end
          else update_states states'
      | _ => update_states states'
      end
  end.

Definition updateItemPaletteVariables (palette : ProtoDefValue) : M ProtoDefVariableMap unit :=
  match palette with Array states => update_states states | _ => ret tt end.

Definition updateItemPaletteFromValue (packetName : string) (packet : ProtoDefValue) : M ProtoDefVariableMap unit :=
  if negb (packetCarriesItemPalette packetName) then ret tt
  else
    match get_value "itemstates" packet with
    | Some itemstates => updateItemPaletteVariables itemstates
    | None => ret tt
    end.

Record DecodedItemState := mkItemState { name : option string; runtimeId : option string }.

(** [states[index]] of a [std::map], in the order of its keys. *)
Fixpoint update_state (index : Z) (f : DecodedItemState -> DecodedItemState) (states : list (Z * DecodedItemState)) :
    list (Z * DecodedItemState) :=
  match states with
  | [] => [(index, f (mkItemState None None))]
  | (i, st) :: rest =>
      if index =? i then (i, f st) :: rest
      else if index <? i then (index, f (mkItemState None None)) :: states
      else (i, st) :: update_state index f rest
  end.

(** The index and the rest of a path [itemstates[index]rest]. *)
Definition item_path (p : string) : option (Z * string) :=
  let prefix := chars "itemstates[" in
  if negb (is_prefix prefix (chars p)) then None
  else
    close ← find_char 93 (chars p) (length prefix);
    match stoull (str (slice (chars p) (length prefix) close)) with
    | Ok index => Some (index, str (drop (S close) (chars p)))
    | Throw _ => None
    end.

Definition collect_state (states : list (Z * DecodedItemState)) (field : ProtoDefField) : list (Z * DecodedItemState) :=
  match item_path (path field) with
  | None => states
  | Some (index, suffix) =>
      if bool_decide (suffix = ".name") then
        update_state index (fun st => mkItemState (Some (value field)) (runtimeId st)) states
      else if bool_decide (suffix = ".runtime_id") then
        update_state index (fun st => mkItemState (name st) (Some (value field))) states
      else states
  end.

Fixpoint apply_states (states : list (Z * DecodedItemState)) : M ProtoDefVariableMap unit :=
  match states with
  | [] => ret tt
  | (_, st) :: rest =>
      match name st with
      | None => apply_states rest
      | Some n =>
          if bool_decide (n = shield) then
            match runtimeId st with
            | Some id => if isTruthyVariableKey id then updateShieldItemId n id else ret tt
            | None => ret tt
            end
          else apply_states rest
      end
  end.

Definition updateItemPaletteFromFields (packetName : string) (fields : list ProtoDefField) : M ProtoDefVariableMap unit :=
  if negb (packetCarriesItemPalette packetName) then ret tt
  else apply_states (fold_left collect_state fields []).

(** ** Schemas *)

(** The lines of a file, as [std::getline] gives them. *)
Fixpoint lines (l current : text) : list text :=
  match l with
  | [] => match current with [] => [] | _ => [current] end
  | c :: l' => if is_char 10 c then current :: lines l' [] else lines l' (current ++ [c])
  end.

Fixpoint find_line (typeName : string) (ls : list text) : option string :=
  match ls with
  | [] => None
  | line :: ls' =>
      if bool_decide (line = []) || at_code 35 line 0 then find_line typeName ls'
      else
        match find_char 9 line 0 with
        | None => find_line typeName ls'
        | Some tab =>
            if bool_decide (str (take tab line) = typeName) then Some (str (drop (S tab) line))
            else find_line typeName ls'
        end
  end.

Section Packets.
(** The TSV file of a version, if it can be opened, and the generated table;
    the order in which the variables are iterated, and the flags; the fuel of
    the interpreters. *)
Context (version_ : string) (file : string -> option text).
Context (generatedProtocolTypeJson : string -> string -> option string) (generated_default : string -> option string).
Context (variables_order : ProtoDefVariableMap -> list (string * string)) (flags_order : list (string * Z) -> list (string * Z)).
Context (fuel : nat).

Definition findTypeJson (version typeName : string) : option string :=
  content ← file version; find_line typeName (lines content []).

Definition resolveType (typeName : string) : option string :=
  match findTypeJson version_ typeName with
  | Some t => Some t
  | None => generatedProtocolTypeJson version_ typeName
  end.

Definition schema_not_found (packetName : string) : exn := RuntimeError ("packet schema not found: " +:+ packetName).

Definition encode_packet (packetName : string) (value : ProtoDefValue) : M ProtoDefVariableMap bytes :=
  updateItemPaletteFromValue packetName value ;;;
  match resolveType ("packet_" +:+ packetName) with
  | None => raise (schema_not_found packetName)
  | Some typeJson =>
      let* variables := get_st in
      lift (exec (ProtoDefEncoder.encode resolveType generated_default (variables_order variables) fuel (chars typeJson) value) [])
  end.

Definition start_state : ProtoDefDecoder.state := ProtoDefDecoder.mkState 0 [] ∅.

Definition decode_fields (typeJson : string) (payload : bytes) (variables : ProtoDefVariableMap) (collectFields : bool) :
    result unit * ProtoDefDecoder.state :=
  ProtoDefDecoder.decode payload resolveType generated_default (variables_order variables) flags_order collectFields
    fuel (chars typeJson) "" start_state.

(** The fields that a decode leaves, best effort or strict. *)
Definition fields_of (packetName : string) (payload : bytes) (bestEffort : bool)
    (r : result unit * ProtoDefDecoder.state) : result (list ProtoDefField) :=
  let (outcome, s) := r in
  if bestEffort then rcatch (let! _ := outcome in Ok (ProtoDefDecoder.out s)) (fun _ => Ok (ProtoDefDecoder.out s))
  else
    let! _ := outcome in
    let remaining := size payload - ProtoDefDecoder.offset_ s in
    if negb (remaining =? 0) then
      Throw (RuntimeError ("packet " +:+ packetName +:+ " has " +:+ to_string remaining +:+ " unread byte(s)"))
    else Ok (ProtoDefDecoder.out s).

Definition decodePacketImpl (packetName : string) (payload : bytes) (bestEffort collectFields : bool) :
    M ProtoDefVariableMap (list ProtoDefField) :=
  match resolveType ("packet_" +:+ packetName) with
  | None => if negb bestEffort then raise (schema_not_found packetName) else ret []
  | Some typeJson =>
      let* variables := get_st in
      let* fields := lift (fields_of packetName payload bestEffort (decode_fields typeJson payload variables collectFields)) in
      (if collectFields then updateItemPaletteFromFields packetName fields else ret tt) ;;;
      ret fields
  end.

Definition decode_packet (packetName : string) (payload : bytes) := decodePacketImpl packetName payload true true.
Definition decodePacketStrict (packetName : string) (payload : bytes) := decodePacketImpl packetName payload false true.
Definition validatePacketStrict (packetName : string) (payload : bytes) : M ProtoDefVariableMap unit :=
  let* _ := decodePacketImpl packetName payload false false in ret tt.

(** The codecs of the network client. *)
Instance packet_codecs : PacketCodecs ProtoDefVariableMap := {
  encodePacket := encode_packet;
  decodePacket := decode_packet
}.

End Packets.
End ProtoDefPackets.
