(* ===== verification/ProtoDefSchema.v ===== *)
(** * Schemas as trees, and scanning their text

    A schema of strings, lists and objects as a tree ([json]) and its compact
    text ([render]), in which the generated tables hold it.  The scanning
    functions of ProtoDefText are shown to find on the text what a lookup finds
    in the tree. *)

From S2P Require Import Prelude MachineInt GamePacket Text FloatText ProtoDefData ProtoDefJson ProtoDefText.

Import ProtoDefJson ProtoDefText.

Inductive json : Type :=
| JString (s : string)
| JList (l : list json)
| JObject (fields : list (string * json)).

Section JsonInd.
Context (P : json -> Prop) (HS : forall s, P (JString s)) (HL : forall l, Forall P l -> P (JList l)).
Context (HO : forall fs, Forall (fun f => P (snd f)) fs -> P (JObject fs)).

Fixpoint json_induction (j : json) : P j :=
  match j with
  | JString s => HS s
  | JList l => HL l ((fix go l : Forall P l :=
      match l with [] => List.Forall_nil _ | x :: l' => List.Forall_cons _ _ _ (json_induction x) (go l') end) l)
  | JObject fs => HO fs ((fix go l : Forall (fun f => P (snd f)) l :=
      match l with [] => List.Forall_nil _ | x :: l' => List.Forall_cons _ _ _ (json_induction (snd x)) (go l') end) fs)
  end.
End JsonInd.

(** Names: letters, digits and underscores. *)
Definition plain_char (c : Ascii.ascii) : bool :=
  let b := byte_of_ascii c in
  is_digit c || ((65 <=? b) && (b <=? 90)) || ((97 <=? b) && (b <=? 122)) || (b =? 95).
Definition plain (s : string) : bool := negb (bool_decide (s = "")) && forallb plain_char (chars s).

Definition qt (s : string) : text := quote_mark :: chars s ++ [quote_mark].

Definition bracketed (l r : Z) (body : text) : text := ascii_of_byte l :: body ++ [ascii_of_byte r].

Fixpoint render (j : json) : text :=
  match j with
  | JString s => qt s
  | JList l => bracketed 91 93 (comma_separated (map render l))
  | JObject fs => bracketed 123 125 (comma_separated (map (fun f => qt (fst f) ++ ascii_of_byte 58 :: render (snd f)) fs))
  end.
Definition render_field (f : string * json) : text := qt (fst f) ++ ascii_of_byte 58 :: render (snd f).

Fixpoint json_plain (j : json) : Prop :=
  match j with
  | JString s => plain s = true
  | JList l => foldr (fun x P => json_plain x /\ P) True l
  | JObject fs => foldr (fun f P => (plain (fst f) = true /\ json_plain (snd f)) /\ P) True fs
  end.

Fixpoint lookup_field (key : string) (fs : list (string * json)) : option json :=
  match fs with
  | [] => None
  | (k, v) :: fs' => if bool_decide (k = key) then Some v else lookup_field key fs'
  end.

(** ** Characters and positions *)

Lemma plain_chars s : plain s = true -> Forall (fun c => plain_char c = true) (chars s).
Proof. unfold plain. intros H. apply andb_true_iff in H as [_ H]. rewrite List.forallb_forall in H. by apply List.Forall_forall. Qed.

Lemma plain_not c : plain_char c = true -> forall b, b ∈ [34; 92; 91; 93; 123; 125; 44; 58; 46; 47; 124; 36; 45] -> is_char b c = false.
Proof.
  intros Hc b Hb. unfold plain_char, is_digit, is_char in *.
  repeat (apply elem_of_cons in Hb as [-> |Hb]; [lia|]). by apply elem_of_nil in Hb.
Qed.

Lemma plain_space c : plain_char c = true -> is_space c = false.
Proof. unfold plain_char, is_digit, is_space. lia. Qed.

Lemma code_char b : is_u 8 b -> is_char b (ascii_of_byte b) = true.
Proof. intros H. unfold is_char. rewrite byte_of_ascii_of_byte by done. apply Z.eqb_refl. Qed.

Lemma drop_head (s : text) i c l : drop i s = c :: l -> char_at s i = c /\ drop (S i) s = l /\ (i < length s)%nat.
Proof.
  intros H. pose proof (f_equal length H) as Hn. rewrite length_drop in Hn. cbn in Hn.
  split_and!; [|by rewrite <-Nat.add_1_r, <-drop_drop, H|lia].
  unfold char_at. rewrite <-(Nat.add_0_r i), <-lookup_drop, H. done.
Qed.

Lemma drop_past (s : text) i a b : drop i s = a ++ b -> drop (i + length a) s = b.
Proof. intros H. by rewrite <-drop_drop, H, drop_app_length. Qed.

Lemma drop_length_bound (s : text) i a b : drop i s = a ++ b -> (i + length a <= length s)%nat \/ a = [].
Proof. intros H. pose proof (f_equal length H) as Hn. rewrite length_drop, length_app in Hn. destruct a; [by right|left; cbn in *; lia]. Qed.

Lemma slice_drop (s : text) i a b : drop i s = a ++ b -> slice s i (i + length a) = a.
Proof. intros H. unfold slice. replace (i + length a - i)%nat with (length a) by lia. by rewrite H, take_app_length. Qed.

Lemma at_code_head (s : text) i c l b : drop i s = c :: l -> at_code b s i = is_char b c.
Proof. intros H. unfold at_code. by destruct (drop_head s i c l H) as [-> _]. Qed.

(** Nothing to skip. *)
Lemma advance_stop p (s : text) i c l stop : drop i s = c :: l -> p c = false -> advance_to p s i stop = i.
Proof.
  intros H Hp. unfold advance_to. destruct (stop - i)%nat; [done|]. cbn.
  destruct (drop_head s i c l H) as [-> _]. by rewrite Hp.
Qed.

Lemma advance_one p (s : text) i c d l stop : drop i s = c :: d :: l -> p c = true -> p d = false -> (i < stop)%nat ->
  advance_to p s i stop = S i.
Proof.
  intros H Hc Hd Hi. unfold advance_to. destruct (stop - i)%nat as [|n] eqn:E; [lia|]. cbn.
  destruct (drop_head s i c _ H) as (-> & H' & _). rewrite Hc. destruct n; [done|]. cbn.
  destruct (drop_head s (S i) d l H') as [-> _]. by rewrite Hd.
Qed.

Lemma find_in_app p (a : text) c l i : Forall (fun x => p x = false) a -> p c = true -> find_in p (a ++ c :: l) i = Some (i + length a)%nat.
Proof.
  intros Ha Hc. revert i. induction Ha as [|x a Hx _ IH]; intros i; cbn.
  - rewrite Hc. f_equal. lia.
  - rewrite Hx, IH. f_equal. lia.
Qed.

Lemma find_char_drop code (s : text) i a c l : drop i s = a ++ c :: l -> Forall (fun x => is_char code x = false) a ->
  is_char code c = true -> find_char code s i = Some (i + length a)%nat.
Proof. intros H Ha Hc. unfold find_char. rewrite H. by apply find_in_app. Qed.

Lemma find_in_none p (l : text) i : Forall (fun x => p x = false) l -> find_in p l i = None.
Proof. intros H. revert i. induction H as [|x l Hx _ IH]; intros i; cbn; [done|]. by rewrite Hx. Qed.

(** ** Strings and brackets *)

Lemma plain_other s code : plain s = true -> code ∈ [34; 92; 91; 93; 123; 125; 44; 58; 46; 47; 124; 36; 45] ->
  Forall (fun c => is_char code c = false) (chars s).
Proof. intros Hs Hc. induction (plain_chars s Hs); constructor; [by apply plain_not|done]. Qed.

Lemma string_end_ok (l : text) rest i : Forall (fun c => plain_char c = true) l ->
  string_end_loop (l ++ quote_mark :: rest) i false = Some (i + length l)%nat.
Proof.
  intros H. revert i. induction H as [|c l Hc _ IH]; intros i; cbn.
  - f_equal. lia.
  - rewrite (plain_not c Hc 92), (plain_not c Hc 34) by (repeat (left || right)). rewrite IH. f_equal. lia.
Qed.

Lemma match_string (L R : Z) (l : text) rest i d : Forall (fun c => plain_char c = true) l ->
  match_loop L R (l ++ quote_mark :: rest) i d true false = match_loop L R rest (i + length l + 1) d false false.
Proof.
  intros H. revert i. induction H as [|c l Hc _ IH]; intros i; cbn.
  - f_equal. lia.
  - rewrite (plain_not c Hc 92), (plain_not c Hc 34) by (repeat (left || right)). rewrite IH. f_equal. lia.
Qed.

Definition bracket_pair (L R : Z) : Prop := L = 91 /\ R = 93 \/ L = 123 /\ R = 125.

(** Scanning from depth [d] over a text leaves the depth. *)
Definition neutral (t : text) : Prop := forall L R d i rest, bracket_pair L R -> 1 <= d ->
  match_loop L R (t ++ rest) i d false false = match_loop L R rest (i + length t) d false false.

Lemma neutral_nil : neutral [].
Proof. intros L R d i rest _ _. cbn. f_equal. lia. Qed.
Lemma neutral_app a b : neutral a -> neutral b -> neutral (a ++ b).
Proof. intros Ha Hb L R d i rest HL Hd. rewrite <-app_assoc, Ha, Hb, length_app by done. f_equal. lia. Qed.

Lemma neutral_char b : b = 44 \/ b = 58 -> neutral [ascii_of_byte b].
Proof. intros H L R d i rest HL Hd. destruct H as [-> | ->], HL as [[-> ->]|[-> ->]]; cbn; f_equal; lia. Qed.

Lemma neutral_qt s : plain s = true -> neutral (qt s).
Proof.
  intros Hs L R d i rest HL Hd. unfold qt. cbn [app match_loop]. change (is_char 34 quote_mark) with true. cbn iota.
  rewrite <-app_assoc. cbn [app]. rewrite match_string by by apply plain_chars.
  f_equal. cbn [length]. rewrite length_app. cbn. lia.
Qed.

Lemma neutral_commas ts : Forall neutral ts -> neutral (comma_separated ts).
Proof.
  induction 1 as [|t ts Ht Hts IH]; [apply neutral_nil|]. destruct ts as [|u ts]; [done|].
  cbn [comma_separated]. apply neutral_app; [done|]. apply neutral_app; [apply (neutral_char 44); by left|done].
Qed.

(** Brackets around a neutral text, of the pair that is matched or not. *)
Lemma match_bracketed l r body : bracket_pair l r -> neutral body -> neutral (bracketed l r body).
Proof.
  intros Hp Hb L R d i rest HL Hd. unfold bracketed. cbn [app match_loop].
  assert (is_char 34 (ascii_of_byte l) = false /\ is_char 34 (ascii_of_byte r) = false) as [E1 E2]
    by (destruct Hp as [[-> ->]|[-> ->]]; done).
  rewrite E1. cbn iota. rewrite <-app_assoc. cbn [app].
  assert (length (ascii_of_byte l :: body ++ [ascii_of_byte r]) = S (length body + 1)) as Hlen
    by (cbn [length]; by rewrite length_app).
  destruct Hp as [[-> ->]|[-> ->]], HL as [[-> ->]|[-> ->]]; cbn [is_char];
    repeat change (is_char ?a (ascii_of_byte ?b)) with (a =? b); cbn [Z.eqb Pos.eqb];
    rewrite Hb by (lia || (by left) || (by right)); cbn [match_loop];
    repeat match goal with |- context [is_char ?a (ascii_of_byte ?b)] =>
      let v := eval vm_compute in (is_char a (ascii_of_byte b)) in change (is_char a (ascii_of_byte b)) with v end; cbn iota;
    rewrite ?(proj2 (Z.eqb_neq _ 0)) by lia; rewrite Hlen; f_equal; lia.
Qed.

Lemma neutral_render j : json_plain j -> neutral (render j).
Proof.
  induction j as [s|l IH|fs IH] using json_induction; intros Hj; cbn [render].
  - by apply neutral_qt.
  - apply match_bracketed; [by left|]. apply neutral_commas.
    induction IH as [|x l Hx _ IHl]; constructor; destruct Hj as [H1 H2]; auto.
  - apply match_bracketed; [by right|]. apply neutral_commas.
    induction IH as [|x l Hx _ IHl]; constructor; destruct Hj as [[H0 H1] H2]; auto.
    apply neutral_app; [by apply neutral_qt|]. apply (neutral_app [_]); [apply neutral_char; by right|auto].
Qed.

(** The closing bracket is found. *)
Lemma match_found l r body rest i : bracket_pair l r -> neutral body ->
  match_loop l r (bracketed l r body ++ rest) i 0 false false = Some (i + length body + 1)%nat.
Proof.
  intros Hp Hb. unfold bracketed. cbn [app match_loop]. rewrite <-app_assoc. cbn [app].
  destruct Hp as [[-> ->]|[-> ->]];
    repeat match goal with |- context [is_char ?a (ascii_of_byte ?b)] =>
      let v := eval vm_compute in (is_char a (ascii_of_byte b)) in change (is_char a (ascii_of_byte b)) with v end; cbn iota;
    rewrite Hb by (lia || (by left) || (by right)); cbn [match_loop];
    repeat match goal with |- context [is_char ?a (ascii_of_byte ?b)] =>
      let v := eval vm_compute in (is_char a (ascii_of_byte b)) in change (is_char a (ascii_of_byte b)) with v end; cbn iota;
    cbn; f_equal; lia.
Qed.

Lemma bracketed_length l r body : length (bracketed l r body) = (length body + 2)%nat.
Proof. unfold bracketed. cbn. rewrite length_app. cbn. lia. Qed.

Lemma findMatching_ok (s : text) i l r body rest : bracket_pair l r -> neutral body ->
  drop i s = bracketed l r body ++ rest -> findMatching s i l r = Some (i + length body + 1)%nat.
Proof. intros Hp Hb H. unfold findMatching. rewrite H. by apply match_found. Qed.

Lemma findStringEnd_ok (s : text) i k rest : plain k = true -> drop i s = qt k ++ rest ->
  findStringEnd s i = Some (i + length (chars k) + 1)%nat.
Proof.
  intros Hk H. unfold findStringEnd. unfold qt in H. cbn [app] in H. rewrite <-app_assoc in H.
  destruct (drop_head s i _ _ H) as (_ & -> & _). cbn [app].
  rewrite string_end_ok by by apply plain_chars. f_equal. lia.
Qed.

Lemma qt_length k : length (qt k) = (length (chars k) + 2)%nat.
Proof. unfold qt. cbn. rewrite length_app. cbn. lia. Qed.

(** The first character of a tree's text. *)
Lemma render_head j : exists c l, render j = c :: l /\
  c = match j with JString _ => ascii_of_byte 34 | JList _ => ascii_of_byte 91 | JObject _ => ascii_of_byte 123 end.
Proof. destruct j; by eexists _, _. Qed.

Definition bodies (j : json) : text :=
  match j with
  | JString s => chars s
  | JList l => comma_separated (map render l)
  | JObject fs => comma_separated (map render_field fs)
  end.

Lemma neutral_list l : json_plain (JList l) -> neutral (comma_separated (map render l)).
Proof.
  intros H. apply neutral_commas. cbn in H. induction l as [|x l IH]; constructor; destruct H; [by apply neutral_render|auto].
Qed.
Lemma neutral_object fs : json_plain (JObject fs) -> neutral (comma_separated (map render_field fs)).
Proof.
  intros H. apply neutral_commas. cbn in H. induction fs as [|x l IH]; constructor; destruct H as [[H0 H1] H2]; [|auto].
  apply neutral_app; [by apply neutral_qt|]. apply (neutral_app [_]); [apply neutral_char; by right|by apply neutral_render].
Qed.

Lemma findJsonValueEnd_ok (s : text) i objEnd j rest : json_plain j -> drop i s = render j ++ rest -> (i < objEnd)%nat ->
  findJsonValueEnd s i objEnd = Some (i + length (render j))%nat.
Proof.
  intros Hj H Hi. unfold findJsonValueEnd. rewrite (proj2 (Nat.leb_gt _ _)) by lia.
  destruct (render_head j) as (c & l & E & Ec). assert (drop i s = c :: l ++ rest) as Hc by by rewrite H, E.
  rewrite !(at_code_head s i c _ _ Hc), Ec. destruct j as [k|l'|fs].
  - change (is_char 34 _) with true. cbn iota. rewrite (findStringEnd_ok s i k rest) by done. cbn [fmap option_fmap option_map].
    f_equal. cbn [render]. rewrite qt_length. lia.
  - change (is_char 34 _) with false. change (is_char 91 _) with true. cbn iota.
    rewrite (findMatching_ok s i 91 93 _ rest (or_introl (conj eq_refl eq_refl)) (neutral_list l' Hj) H).
    cbn [fmap option_fmap option_map]. f_equal. cbn [render]. rewrite bracketed_length. lia.
  - change (is_char 34 _) with false. change (is_char 91 _) with false. change (is_char 123 _) with true. cbn iota.
    rewrite (findMatching_ok s i 123 125 _ rest (or_intror (conj eq_refl eq_refl)) (neutral_object fs Hj) H).
    cbn [fmap option_fmap option_map]. f_equal. cbn [render]. rewrite bracketed_length.
    unfold render_field. lia.
Qed.

Lemma char_here code (s : text) i c l : drop i s = c :: l -> is_char code c = true -> find_char code s i = Some i.
Proof. intros H Hc. unfold find_char. rewrite H. cbn. by rewrite Hc. Qed.

Lemma value_at_ok (s : text) i j rest : json_plain j -> drop i s = render j ++ rest -> value_at s i = Some (render j).
Proof.
  intros Hj H. unfold value_at. destruct (render_head j) as (c & l & E & Ec).
  assert (drop i s = c :: l ++ rest) as Hc by by rewrite H, E.
  rewrite !(at_code_head s i c _ _ Hc), Ec. destruct j as [k|l'|fs].
  - change (is_char 34 _) with true. cbn iota. cbn [render] in *. unfold qt in H. cbn [app] in H. rewrite <-app_assoc in H. cbn [app] in H.
    destruct (drop_head s i _ _ H) as (_ & H' & _).
    rewrite (find_char_drop 34 s (S i) (chars k) quote_mark rest) by (done || by apply plain_other; [|left]).
    cbn [mbind option_bind]. f_equal.
    replace (S (S i + length (chars k))) with (i + length (qt k))%nat by (rewrite qt_length; lia).
    apply (slice_drop s i (qt k) rest). rewrite H. unfold qt. cbn [app]. by rewrite <-app_assoc.
  - change (is_char 34 _) with false. change (is_char 91 _) with true. cbn iota.
    rewrite (findMatching_ok s i 91 93 _ rest (or_introl (conj eq_refl eq_refl)) (neutral_list l' Hj) H).
    cbn [mbind option_bind]. f_equal. replace (S (i + _ + 1)) with (i + length (render (JList l')))%nat
      by (cbn [render]; rewrite bracketed_length; lia). by apply (slice_drop s i _ rest).
  - change (is_char 34 _) with false. change (is_char 91 _) with false. change (is_char 123 _) with true. cbn iota.
    rewrite (findMatching_ok s i 123 125 _ rest (or_intror (conj eq_refl eq_refl)) (neutral_object fs Hj) H).
    cbn [mbind option_bind]. f_equal. replace (S (i + _ + 1)) with (i + length (render (JObject fs)))%nat
      by (cbn [render]; rewrite bracketed_length; unfold render_field; lia). by apply (slice_drop s i _ rest).
Qed.

(** ** Reading a field of an object *)

(** The rest of an object's text: behind the brace, or behind a field. *)
Definition fields_text (first : bool) (fs : list (string * json)) : text :=
  if first then comma_separated (map render_field fs) else fs ≫= (fun f => ascii_of_byte 44 :: render_field f).

Lemma fields_text_cons first f fs : fields_text first (f :: fs) =
  (if first then [] else [ascii_of_byte 44]) ++ render_field f ++ fields_text false fs.
Proof.
  destruct first; [|done]. cbn [fields_text map comma_separated app].
  revert f. induction fs as [|g fs IH]; intros f; [cbn; by rewrite app_nil_r|].
  cbn [map comma_separated]. f_equal. cbn [chars app fields_text]. rewrite bind_cons. cbn [app]. f_equal. apply IH.
Qed.

Lemma field_loop_ok (s : text) key fs : json_plain (JObject fs) -> forall fuel first pos objEnd rest,
  drop pos s = fields_text first fs ++ ascii_of_byte 125 :: rest -> objEnd = (pos + length (fields_text first fs))%nat ->
  (length (fields_text first fs) < fuel)%nat ->
  field_loop fuel s objEnd (chars key) pos = render <$> lookup_field key fs.
Proof.
  intros Hfs. induction fs as [|[k v] fs IH]; intros [|fuel] first pos objEnd rest Hd -> Hf; try (exfalso; lia).
  { assert (fields_text first [] = []) as E by by destruct first. rewrite E. cbn [length field_loop].
    by rewrite (proj2 (Nat.leb_le _ _)) by lia. }
  destruct Hfs as [[Hk Hv] Hfs]. cbn [fst snd] in Hk, Hv. rewrite fields_text_cons in Hd, Hf |- *.
  set (lead := if first then [] else [ascii_of_byte 44]) in *. unfold render_field in *. cbn [fst snd] in *.
  set (tail := fields_text false fs) in *. rewrite <-!app_assoc in Hd. cbn [app] in Hd.
  set (p := (pos + length lead)%nat).
  assert (drop p s = qt k ++ ascii_of_byte 58 :: render v ++ tail ++ ascii_of_byte 125 :: rest) as Hp.
  { unfold p. by rewrite (drop_past s pos lead _ Hd). }
  assert (length (lead ++ (qt k ++ ascii_of_byte 58 :: render v) ++ tail) =
    length lead + (length (chars k) + 2 + S (length (render v))) + length tail)%nat as Hl
    by (rewrite !length_app, qt_length; cbn [length]; lia).
  rewrite Hl in *. set (objEnd := (pos + _)%nat).
  assert (objEnd = p + length (chars k) + 2 + 1 + length (render v) + length tail)%nat as He by (unfold objEnd, p; lia).
  cbn [field_loop]. rewrite (proj2 (Nat.leb_gt objEnd pos)) by (unfold p in *; lia).
  assert (advance_to (fun c => is_space c || is_char 44 c) s pos objEnd = p) as ->.
  { unfold p, lead in *. destruct first.
    - cbn [length]. rewrite Nat.add_0_r. rewrite Nat.add_0_r in Hp. by eapply advance_stop; [exact Hp|].
    - cbn [length]. rewrite Nat.add_1_r. eapply advance_one; [exact Hd|done|done|lia]. }
  rewrite (proj2 (Nat.leb_gt objEnd p)) by lia.
  rewrite (at_code_head s p quote_mark _ 34 Hp). change (is_char 34 quote_mark) with true. cbn [negb].
  rewrite (findStringEnd_ok s p k _ Hk Hp). rewrite (proj2 (Nat.leb_gt objEnd _)) by lia.
  assert (slice s (S p) (p + length (chars k) + 1) = chars k) as ->.
  { pose proof Hp as Hp'. unfold qt in Hp'. cbn [app] in Hp'. rewrite <-app_assoc in Hp'.
    destruct (drop_head s p _ _ Hp') as (_ & H' & _). 
    replace (p + length (chars k) + 1)%nat with (S p + length (chars k))%nat by lia. by eapply slice_drop. }
  pose proof (drop_past s p _ _ Hp) as Hc. rewrite qt_length in Hc.
  replace (S (p + length (chars k) + 1)) with (p + (length (chars k) + 2))%nat by lia.
  rewrite (advance_stop is_space s _ _ _ objEnd Hc) by done.
  rewrite (proj2 (Nat.leb_gt objEnd _)), (at_code_head s _ _ _ 58 Hc) by lia. change (is_char 58 (ascii_of_byte 58)) with true. cbn [orb negb].
  destruct (drop_head s _ _ _ Hc) as (_ & Hv' & _).
  destruct (render_head v) as (c & l & E & Ec).
  assert (is_space c = false) as Hsp by (rewrite Ec; by destruct v).
  assert (drop (S (p + (length (chars k) + 2))) s = c :: l ++ tail ++ ascii_of_byte 125 :: rest) as Hc' by (by rewrite Hv', E).
  rewrite (advance_stop is_space s _ _ _ objEnd Hc' Hsp).
  assert (1 <= length (render v))%nat by (rewrite E; cbn; lia).
  rewrite (proj2 (Nat.leb_gt objEnd _)) by lia.
  rewrite (findJsonValueEnd_ok s _ objEnd v _ Hv Hv') by lia. cbn [lookup_field].
  destruct (decide (k = key)) as [->|Hne].
  - rewrite !bool_decide_true by done. cbn. f_equal. by apply (slice_drop s _ _ _ Hv').
  - rewrite !(bool_decide_false (k = key)) by done. rewrite bool_decide_false.
    2:{ intros Eq. apply Hne. by rewrite <-(str_chars k), Eq, str_chars. }
    pose proof (drop_past s _ _ _ Hv') as Ht. apply (IH Hfs fuel false _ objEnd rest Ht); unfold tail in *; lia.
Qed.

(** ** Trimming *)

Lemma render_last j : exists l c, render j = l ++ [c] /\ is_space c = false.
Proof. destruct j as [s|l|fs]; [exists (quote_mark :: chars s)|eexists (ascii_of_byte 91 :: _)|eexists (ascii_of_byte 123 :: _)]; by eexists. Qed.

Lemma trim_ok c l l' d : c :: l = l' ++ [d] -> is_space c = false -> is_space d = false -> trim (c :: l) = c :: l.
Proof.
  intros E Hc Hd. unfold trim, trim_end. cbn [skip_space]. rewrite Hc, E, reverse_snoc. cbn [skip_space]. rewrite Hd.
  by rewrite reverse_cons, reverse_involutive.
Qed.

Lemma trim_render j : trim (render j) = render j.
Proof.
  destruct (render_head j) as (c & l & E & Ec), (render_last j) as (l' & d & E' & Hd). rewrite E in *.
  eapply trim_ok; [done| |done]. rewrite Ec. by destruct j.
Qed.

Lemma isJsonString_render j : isJsonString (render j) = match j with JString _ => true | _ => false end.
Proof.
  unfold isJsonString. destruct (render_head j) as (c & l & E & Ec).
  rewrite (at_code_head (render j) 0 c l 34 E), Ec. destruct j as [s|l'|fs]; [|by rewrite andb_false_r|by rewrite andb_false_r].
  change (is_char 34 (ascii_of_byte 34)) with true. rewrite andb_true_r. cbn [render].
  assert (drop (length (qt s) - 1) (qt s) = [quote_mark]) as H.
  { rewrite qt_length. replace (length (chars s) + 2 - 1)%nat with (length (quote_mark :: chars s)) by (cbn; lia).
    change (qt s) with ((quote_mark :: chars s) ++ [quote_mark]). apply drop_app_length. }
  rewrite (at_code_head _ _ _ _ 34 H). change (is_char 34 quote_mark) with true. rewrite andb_true_r.
  unfold size. rewrite qt_length. apply Z.leb_le. lia.
Qed.

Lemma unquote_qt s : str (unquote (qt s)) = s.
Proof.
  unfold unquote. pose proof (isJsonString_render (JString s)) as H. cbn [render] in H. rewrite H. cbn [negb].
  rewrite qt_length. replace (length (chars s) + 2 - 1)%nat with (1 + length (chars s))%nat by lia.
  rewrite (slice_drop (qt s) 1 (chars s) [quote_mark]) by done. apply str_chars.
Qed.

(** ** What the scanning functions find *)

(** A schema that is written as its kind and its options. *)
Definition typed (kind : string) (j : json) : json := JList [JString kind; j].

Lemma typed_text kind j : render (typed kind j) =
  ascii_of_byte 91 :: quote_mark :: chars kind ++ quote_mark :: ascii_of_byte 44 :: render j ++ [ascii_of_byte 93].
Proof.
  unfold typed, bracketed, qt. cbn [render map comma_separated]. unfold bracketed, qt.
  cbn [chars app]. by rewrite <-!app_assoc.
Qed.

Lemma object_text fs : render (JObject fs) = ascii_of_byte 123 :: fields_text true fs ++ [ascii_of_byte 125].
Proof. done. Qed.

Lemma field_of_object (s pre : text) fs key rest : json_plain (JObject fs) -> trim s = s ->
  Forall (fun c => is_char 123 c = false) pre -> s = pre ++ render (JObject fs) ++ rest ->
  readJsonValueField s key = render <$> lookup_field key fs.
Proof.
  intros Hfs Ht Hpre Hs. unfold readJsonValueField. rewrite Ht.
  assert (drop 0 s = pre ++ render (JObject fs) ++ rest) as H0 by done.
  assert (drop (length pre) s = render (JObject fs) ++ rest) as H1 by apply (drop_past s 0 pre _ H0).
  pose proof H0 as H0'. rewrite object_text in H0'. cbn [app] in H0'.
  rewrite (find_char_drop 123 s 0 pre _ _ H0') by done. cbn [mbind option_bind Nat.add].
  rewrite (findMatching_ok s _ 123 125 _ rest (or_intror (conj eq_refl eq_refl)) (neutral_object fs Hfs) H1).
  cbn [mbind option_bind].
  rewrite object_text in H1. cbn [app] in H1. rewrite <-app_assoc in H1. destruct (drop_head s _ _ _ H1) as (_ & H2 & _).
  eapply field_loop_ok; [done|exact H2| |]; change (comma_separated (map render_field fs)) with (fields_text true fs); lia.
Qed.

Lemma plain_kind kind : plain kind = true -> forall code, code ∈ [92; 91; 93; 123; 125; 44; 58; 46; 47; 124; 36; 45] ->
  Forall (fun c => is_char code c = false) (quote_mark :: chars kind ++ [quote_mark]).
Proof.
  intros Hk code Hc. constructor.
  - repeat (apply elem_of_cons in Hc as [-> |Hc]; [done|]). by apply elem_of_nil in Hc.
  - apply Forall_app. split; [apply plain_other; [done|by right]|]. constructor; [|done].
    repeat (apply elem_of_cons in Hc as [-> |Hc]; [done|]). by apply elem_of_nil in Hc.
Qed.

Lemma field_of_typed kind fs key : json_plain (typed kind (JObject fs)) ->
  readJsonValueField (render (typed kind (JObject fs))) key = render <$> lookup_field key fs.
Proof.
  intros (Hk & Hfs & _).
  apply (field_of_object _ (ascii_of_byte 91 :: (quote_mark :: chars kind ++ [quote_mark]) ++ [ascii_of_byte 44]) fs key [ascii_of_byte 93] Hfs (trim_render _)).
  - constructor; [done|]. apply Forall_app. split; [|by constructor].
    apply plain_kind; [done|]. repeat (left || right).
  - rewrite typed_text. cbn [app]. by rewrite <-!app_assoc.
Qed.

Lemma field_of_record fs key : json_plain (JObject fs) ->
  readJsonValueField (render (JObject fs)) key = render <$> lookup_field key fs.
Proof.
  intros Hfs. apply (field_of_object _ [] fs key [] Hfs (trim_render _)); [constructor|]. by rewrite app_nil_r.
Qed.

(** The string among the fields. *)
Definition lookup_string (key : string) (fs : list (string * json)) : option string :=
  match lookup_field key fs with Some (JString s) => Some s | _ => None end.

Lemma string_field s fs key : readJsonValueField s key = render <$> lookup_field key fs ->
  readJsonStringField s key = lookup_string key fs.
Proof.
  intros H. unfold readJsonStringField, lookup_string. rewrite H.
  destruct (lookup_field key fs) as [j|]; [|done]. cbn [fmap option_fmap option_map mbind option_bind].
  rewrite trim_render, isJsonString_render. destruct j; cbn [negb]; [|done..]. cbn [render]. by rewrite unquote_qt.
Qed.

(** An integer or a flag is not among strings, lists and objects. *)
Lemma bool_field s fs key : readJsonValueField s key = render <$> lookup_field key fs -> readJsonBoolField s key = None.
Proof.
  intros H. unfold readJsonBoolField. rewrite H. destruct (lookup_field key fs) as [j|]; [|done].
  cbn [fmap option_fmap option_map mbind option_bind]. rewrite trim_render.
  destruct (render_head j) as (c & l & -> & ->). rewrite !bool_decide_false; [done| |]; destruct j; discriminate.
Qed.

Lemma integer_field s fs key : readJsonValueField s key = render <$> lookup_field key fs -> readJsonIntegerField s key = Ok None.
Proof.
  intros H. unfold readJsonIntegerField. rewrite H. destruct (lookup_field key fs) as [j|]; [|done].
  cbn [fmap option_fmap option_map]. rewrite trim_render. destruct (render_head j) as (c & l & E & ->).
  rewrite (at_code_head _ 0 _ _ 34 E), E. destruct j; rewrite ?orb_true_r; [done| |]; by rewrite orb_false_r.
Qed.

Lemma second_of_typed kind j : json_plain (typed kind j) -> readSecondElement (render (typed kind j)) = Some (render j).
Proof.
  intros (Hk & Hj & _). unfold readSecondElement.
  set (s := render (typed kind j)). set (pre := ascii_of_byte 91 :: quote_mark :: chars kind ++ [quote_mark]).
  assert (drop 0 s = pre ++ ascii_of_byte 44 :: render j ++ [ascii_of_byte 93]) as H0.
  { unfold s, pre. rewrite typed_text. cbn [drop app]. by rewrite <-app_assoc. }
  assert (Forall (fun c => is_char 44 c = false) pre) as Hpre.
  { constructor; [done|]. apply plain_kind; [done|]. repeat (left || right). }
  rewrite (find_char_drop 44 s 0 pre _ _ H0 Hpre) by done. cbn [mbind option_bind Nat.add].
  pose proof (drop_past s 0 pre _ H0) as H1. cbn [Nat.add] in H1. destruct (drop_head s _ _ _ H1) as (_ & H2 & _).
  destruct (render_head j) as (c & l & E & Ec). assert (drop (S (length pre)) s = c :: l ++ [ascii_of_byte 93]) as H3 by by rewrite H2, E.
  rewrite (advance_stop is_space s _ _ _ (length s) H3) by (rewrite Ec; by destruct j).
  destruct (drop_head s _ _ _ H3) as (_ & _ & Hlt). rewrite (proj2 (Nat.leb_gt _ _)) by lia.
  by apply (value_at_ok s _ j [ascii_of_byte 93]).
Qed.

Lemma second_array_of_typed kind l : json_plain (typed kind (JList l)) ->
  findSecondArray (render (typed kind (JList l))) = Some (render (JList l)).
Proof.
  intros (Hk & Hj & _). unfold findSecondArray.
  set (s := render (typed kind (JList l))). set (pre := (quote_mark :: chars kind ++ [quote_mark]) ++ [ascii_of_byte 44]).
  assert (drop 0 s = ascii_of_byte 91 :: pre ++ render (JList l) ++ [ascii_of_byte 93]) as H0.
  { unfold s, pre. rewrite typed_text. cbn [drop app]. by rewrite <-!app_assoc. }
  rewrite (char_here 91 s 0 _ _ H0) by done. cbn [mbind option_bind].
  destruct (drop_head s _ _ _ H0) as (_ & H1 & _).
  assert (Forall (fun c => is_char 91 c = false) pre) as Hpre.
  { apply Forall_app. split; [|by constructor]. apply plain_kind; [done|]. repeat (left || right). }
  rewrite (find_char_drop 91 s 1 pre _ _ H1 Hpre) by done. cbn [mbind option_bind].
  pose proof (drop_past s 1 pre _ H1) as H2.
  rewrite (findMatching_ok s _ 91 93 _ _ (or_introl (conj eq_refl eq_refl)) (neutral_list l Hj) H2).
  cbn [mbind option_bind]. f_equal. replace (S (_ + _ + 1)) with (1 + length pre + length (render (JList l)))%nat
    by (cbn [render]; rewrite bracketed_length; lia). by apply (slice_drop s _ _ _ H2).
Qed.

(** The next object of a list, behind some characters that are not braces. *)
Lemma next_object_ok what (s : text) pos lead fs rest : json_plain (JObject fs) ->
  Forall (fun c => is_char 123 c = false) lead -> drop pos s = lead ++ render (JObject fs) ++ rest ->
  next_object what s pos = Ok (Some (render (JObject fs), (pos + length lead + length (render (JObject fs)))%nat)).
Proof.
  intros Hfs Hl H. pose proof (drop_past s pos lead _ H) as H1. pose proof H as H'. rewrite object_text in H'. cbn [app] in H'.
  unfold next_object. rewrite (find_char_drop 123 s pos lead _ _ H' Hl) by done.
  rewrite (findMatching_ok s _ 123 125 _ rest (or_intror (conj eq_refl eq_refl)) (neutral_object fs Hfs) H1).
  replace (S (_ + _ + 1)) with (pos + length lead + length (render (JObject fs)))%nat
    by (cbn [render]; rewrite bracketed_length; unfold render_field; lia).
  by rewrite (slice_drop s _ _ _ H1).
Qed.

Lemma next_object_none what (s : text) pos : Forall (fun c => is_char 123 c = false) (drop pos s) -> next_object what s pos = Ok None.
Proof. intros H. unfold next_object, find_char. by rewrite find_in_none. Qed.

(** ** Searching for a quoted key *)

(** The key is not quoted anywhere in the text before it. *)
Definition first_at (key : string) (before : text) : bool :=
  bool_decide (find_text_in (qt key) (before ++ qt key) 0 = Some (length before)).

Lemma is_prefix_app (k l r : text) : (length k <= length l)%nat -> is_prefix k (l ++ r) = is_prefix k l.
Proof.
  revert l. induction k as [|a k IH]; intros [|b l] H; cbn in *; [by destruct r|done|lia|]. by rewrite IH by lia.
Qed.

Lemma is_prefix_self (k r : text) : is_prefix k (k ++ r) = true.
Proof. induction k as [|a k IH]; [by destruct r|]. cbn. by rewrite bool_decide_true, IH. Qed.

Lemma find_text_shift q l n : forall i j, find_text_in q l i = Some (i + n)%nat -> find_text_in q l j = Some (j + n)%nat.
Proof.
  assert (forall l i m, find_text_in q l i = Some m -> (i <= m)%nat) as Hge.
  { clear. induction l as [|c l IH]; intros i m; cbn; destruct (is_prefix q _); [intros [= ->]; lia|done|intros [= ->]; lia|].
    intros H. apply IH in H. lia. }
  revert n. induction l as [|c l IH]; intros n i j; cbn; destruct (is_prefix q _); intros H; try done.
  - injection H as H. f_equal. lia.
  - injection H as H. f_equal. lia.
  - pose proof (Hge _ _ _ H). destruct n as [|n]; [lia|].
    rewrite (IH n (S i) (S j)); [f_equal; lia|]. rewrite H. f_equal. lia.
Qed.

Lemma find_text_extend q before rest : q <> [] -> forall i,
  find_text_in q (before ++ q) i = Some (i + length before)%nat ->
  find_text_in q (before ++ q ++ rest) i = Some (i + length before)%nat.
Proof.
  intros Hq. induction before as [|c before IH]; intros i H.
  - destruct q as [|a q]; [done|]. cbn [app find_text_in]. change (a :: q ++ rest) with ((a :: q) ++ rest). rewrite is_prefix_self.
    cbn. f_equal. lia.
  - cbn [app find_text_in] in H |- *.
    assert (is_prefix q (c :: before ++ q ++ rest) = is_prefix q (c :: before ++ q)) as ->.
    { rewrite app_assoc. apply (is_prefix_app q (c :: before ++ q) rest). cbn. rewrite length_app. lia. }
    destruct (is_prefix q _); [cbn in H; injection H; lia|]. cbn [length] in H |- *.
    rewrite (IH (S i)); [f_equal; lia|]. rewrite H. f_equal. lia.
Qed.

Lemma find_text_first key (s before rest : text) : first_at key before = true -> s = before ++ qt key ++ rest ->
  find_text (qt key) s 0 = Some (length before).
Proof.
  intros H ->. apply bool_decide_eq_true in H. unfold find_text. cbn [drop].
  by apply (find_text_extend (qt key) before rest ltac:(done) 0).
Qed.

(** What is behind the key and its colon. *)
Lemma behind_key key (s before rest : text) j : first_at key before = true ->
  s = before ++ qt key ++ ascii_of_byte 58 :: render j ++ rest ->
  find_text (qt key) s 0 = Some (length before) /\
  drop (length before + length (qt key)) s = ascii_of_byte 58 :: render j ++ rest.
Proof.
  intros H Hs. split; [by eapply find_text_first|].
  assert (drop 0 s = (before ++ qt key) ++ ascii_of_byte 58 :: render j ++ rest) as H0 by (rewrite Hs; cbn [drop]; by rewrite <-app_assoc).
  rewrite <-(drop_past s 0 _ _ H0). by rewrite length_app.
Qed.
