(* ===== verification/ProtoDefTypes.v ===== *)
(** * Schemas by structure

    The types of a schema as an inductive type ([ptype]): its text ([schema]),
    which values fit it ([fits]), and, as reference definitions that know nothing
    of the text, the bytes of such a value ([enc]) and the fields it is decoded
    to ([flds]). *)

From S2P Require Import Prelude MachineInt Leb128 Endian ZigZag FloatBits GamePacket Text FloatText Nbt ProtoDefData ProtoDefJson.
From S2P Require Import ProtoDefText ProtoDefStream ProtoDefNbt ProtoDefEncoder ProtoDefDecoder ProtoDefSchema.

Import ProtoDefJson ProtoDefText.

(** ** Types without a nested type *)

Inductive itype :=
| U8 | LU8 | I8 | U16 | LU16 | I16 | LI16 | U32 | LU32 | I32 | LI32 | U64 | LU64 | I64 | LI64
| Varint | Varint64 | ZigZag32 | ZigZag64.

Inductive prim :=
| PVoid
| PBool
| PString
| PInt (i : itype)
| PFloat (little : bool)
| PDouble (little : bool).

Definition itype_name (i : itype) : string :=
  match i with
  | U8 => "u8" | LU8 => "lu8" | I8 => "i8" | U16 => "u16" | LU16 => "lu16" | I16 => "i16" | LI16 => "li16"
  | U32 => "u32" | LU32 => "lu32" | I32 => "i32" | LI32 => "li32" | U64 => "u64" | LU64 => "lu64" | I64 => "i64" | LI64 => "li64"
  | Varint => "varint" | Varint64 => "varint64" | ZigZag32 => "zigzag32" | ZigZag64 => "zigzag64"
  end.

Definition prim_name (p : prim) : string :=
  match p with
  | PVoid => "void" | PBool => "bool" | PString => "string" | PInt i => itype_name i
  | PFloat little => if little then "lf32" else "f32"
  | PDouble little => if little then "lf64" else "f64"
  end.

Definition in_range (i : itype) (n : Z) : Prop :=
  match i with
  | U8 | LU8 => is_u 8 n | U16 | LU16 => is_u 16 n | U32 | LU32 | Varint => is_u 32 n | U64 | LU64 | Varint64 => is_u 64 n
  | I8 => is_s 8 n | I16 | LI16 => is_s 16 n | I32 | LI32 | ZigZag32 => is_s 32 n | I64 | LI64 | ZigZag64 => is_s 64 n
  end.

Definition big (k : bytes) : bytes := reverse k.
Definition itype_enc (i : itype) (n : Z) : bytes :=
  match i with
  | U8 | LU8 | I8 => [n mod 2 ^ 8]
  | U16 | I16 => big (le_encode 2 (n mod 2 ^ 16)) | LU16 | LI16 => le_encode 2 (n mod 2 ^ 16)
  | U32 | I32 => big (le_encode 4 (n mod 2 ^ 32)) | LU32 | LI32 => le_encode 4 (n mod 2 ^ 32)
  | U64 | I64 => big (le_encode 8 (n mod 2 ^ 64)) | LU64 | LI64 => le_encode 8 (n mod 2 ^ 64)
  | Varint => leb_encode 5 n | Varint64 => leb_encode 10 n
  | ZigZag32 => leb_encode 5 (zigzag n) | ZigZag64 => leb_encode 10 (zigzag n)
  end.

(** The integer that a value stands for. *)
Definition int_value (v : ProtoDefValue) : option Z :=
  match v with
  | Int n => Some n
  | UInt n => if n <? 0 then None else Some n
  | _ => None
  end.

Definition prim_fits (p : prim) (v : ProtoDefValue) : Prop :=
  match p with
  | PVoid => True
  | PBool => match v with Bool _ => True | _ => False end
  | PString => match v with String_ s => is_u 32 (size (bytes_of_string s)) | _ => False end
  | PInt i => match int_value v with Some n => in_range i n | None => False end
  | PFloat _ => match v with Double b => is_u 32 (f32_of_f64 b) | _ => False end
  | PDouble _ => match v with Double b => is_u 64 b | _ => False end
  end.

Definition ordered (little : bool) (k : bytes) : bytes := if little then k else big k.

Definition prim_enc (p : prim) (v : ProtoDefValue) : bytes :=
  match p, v with
  | PBool, Bool b => [if b then 1 else 0]
  | PString, String_ s => enc_string32 s
  | PInt i, _ => match int_value v with Some n => itype_enc i n | None => [] end
  | PFloat little, Double b => ordered little (le_encode 4 (f32_of_f64 b))
  | PDouble little, Double b => ordered little (le_encode 8 b)
  | _, _ => []
  end.

(** The text of the field's value: of a float what is left of it. *)
Definition prim_text (p : prim) (v : ProtoDefValue) : string :=
  match p, v with
  | PVoid, _ => "<void>"
  | PBool, Bool b => if b then "true" else "false"
  | PString, String_ s => s
  | PInt _, _ => match int_value v with Some n => signed_text n | None => "" end
  | PFloat _, Double b => ProtoDefDecoder.float_text (f32_of_f64 b)
  | PDouble _, Double b => to_string_f64 b
  | _, _ => ""
  end.

(** The types of a count, and of the number of a mapper. *)
Definition counts (i : itype) : bool :=
  match i with I8 | U64 | LU64 | I64 | LI64 | Varint64 => false | _ => true end.
Definition maps (i : itype) : bool :=
  match i with U64 | LU64 | I64 | LI64 | ZigZag64 => false | _ => true end.

(** ** Types *)

Inductive ptype : Type :=
| TPrim (p : prim)
| TMapper (base : itype) (mappings : list (Z * string))
| TPString (countType : itype)
| TBuffer (countType : itype)
| TOption (t : ptype)
| TArray (countType : itype) (item : ptype)
| TContainer (fields : list (string * ptype))
| TSwitch (compareTo : string) (branches : list (string * ptype)) (default : option ptype)
| TNamed (name : string) (t : ptype).

Section TypeInd.
Context (P : ptype -> Prop).
Context (HPrim : forall p, P (TPrim p)) (HMapper : forall base ms, P (TMapper base ms)).
Context (HPString : forall ct, P (TPString ct)) (HBuffer : forall ct, P (TBuffer ct)).
Context (HOption : forall t, P t -> P (TOption t)) (HArray : forall ct t, P t -> P (TArray ct t)).
Context (HContainer : forall fs, Forall (fun f => P (snd f)) fs -> P (TContainer fs)).
Context (HSwitch : forall c bs d, Forall (fun f => P (snd f)) bs -> (forall t, d = Some t -> P t) -> P (TSwitch c bs d)).
Context (HNamed : forall n t, P t -> P (TNamed n t)).

Fixpoint type_induction (t : ptype) : P t :=
  let named_list := fix go (l : list (string * ptype)) : Forall (fun f => P (snd f)) l :=
    match l with [] => List.Forall_nil _ | x :: l' => List.Forall_cons _ _ _ (type_induction (snd x)) (go l') end in
  match t with
  | TPrim p => HPrim p
  | TMapper base ms => HMapper base ms
  | TPString ct => HPString ct
  | TBuffer ct => HBuffer ct
  | TOption t => HOption t (type_induction t)
  | TArray ct t => HArray ct t (type_induction t)
  | TContainer fs => HContainer fs (named_list fs)
  | TSwitch c bs d => HSwitch c bs d (named_list bs)
      match d as d return forall t, d = Some t -> P t with
      | Some t' => fun t E => eq_rect t' P (type_induction t') t (f_equal (default t') E)
      | None => fun t E => match E with end
      end
  | TNamed n t => HNamed n t (type_induction t)
  end.
End TypeInd.

(** ** Their text *)

Definition typed_object (kind : string) (fs : list (string * json)) : json := typed kind (JObject fs).
Definition mapping_json (ms : list (Z * string)) : list (string * json) := map (fun m => (to_string (fst m), JString (snd m))) ms.
Definition field_json (name : string) (j : json) : json := JObject [("name", JString name); ("type", j)].

Fixpoint schema (t : ptype) : json :=
  match t with
  | TPrim p => JString (prim_name p)
  | TMapper base ms => typed_object "mapper" [("type", JString (itype_name base)); ("mappings", JObject (mapping_json ms))]
  | TPString ct => typed_object "pstring" [("countType", JString (itype_name ct))]
  | TBuffer ct => typed_object "buffer" [("countType", JString (itype_name ct))]
  | TOption t => typed "option" (schema t)
  | TArray ct t => typed_object "array" [("countType", JString (itype_name ct)); ("type", schema t)]
  | TContainer fs => typed "container" (JList (map (fun f => field_json (fst f) (schema (snd f))) fs))
  | TSwitch c bs d =>
      typed_object "switch" (("compareTo", JString c) :: ("fields", JObject (map (fun b => (fst b, schema (snd b))) bs)) ::
        match d with Some t => [("default", schema t)] | None => [] end)
  | TNamed n _ => JString n
  end.

(** The nesting of the interpreters' calls. *)
Fixpoint depth (t : ptype) : nat :=
  S match t with
    | TPrim _ | TMapper _ _ | TPString _ | TBuffer _ => 0
    | TOption t | TArray _ t | TNamed _ t => depth t
    | TContainer fs => foldr (fun f n => Nat.max (depth (snd f)) n) 0%nat fs
    | TSwitch _ bs d => foldr (fun f n => Nat.max (depth (snd f)) n) (match d with Some t => depth t | None => 0%nat end) bs
    end.

(** ** Values of a type *)

Definition field_value (name : string) (v : ProtoDefValue) : ProtoDefValue := default Null (get_value name v).

(** What a switch makes of the field that it compares. *)
Definition switch_key (v : ProtoDefValue) : string :=
  match v with
  | String_ s => s
  | UInt i => to_string i
  | Int i => signed_text i
  | Bool b => if b then "true" else "false"
  | _ => ""
  end.

Fixpoint assoc {A} (key : string) (l : list (string * A)) : option A :=
  match l with
  | [] => None
  | (k, a) :: l' => if bool_decide (k = key) then Some a else assoc key l'
  end.

Definition branch_of (key : string) (bs : list (string * ptype)) (d : option ptype) : option ptype :=
  match assoc key bs with Some t => Some t | None => d end.

Definition mapped_number (name : string) (ms : list (Z * string)) : option Z :=
  fst <$> head (List.filter (fun m => bool_decide (snd m = name)) ms).

(** A field of a container has to be there, but for a switch that reads nothing. *)
Definition present (t : ptype) (parent : ProtoDefValue) (name : string) : Prop :=
  match t with
  | TSwitch c bs d =>
      match branch_of (switch_key (field_value c parent)) bs d with
      | None | Some (TPrim PVoid) => True
      | Some _ => is_Some (get_value name parent)
      end
  | _ => is_Some (get_value name parent)
  end.

(** The quoted key is nowhere in the text of the branches. *)
Definition absent (key : string) (j : json) : bool := bool_decide (find_text (qt key) (render j) 0 = None).

Fixpoint fits (t : ptype) (parent v : ProtoDefValue) : Prop :=
  match t with
  | TPrim p => prim_fits p v
  | TMapper base ms => match v with String_ s => is_Some (mapped_number s ms) | _ => False end
  | TPString ct => match v with String_ s => in_range ct (size (bytes_of_string s)) | _ => False end
  | TBuffer ct => match v with Bytes b => is_bytes b /\ in_range ct (size b) | _ => False end
  | TOption t => match v with Null => True | _ => fits t parent v end
  | TArray ct t =>
      match v with
      | Array l => in_range ct (size l) /\ foldr (fun x P => fits t parent x /\ P) True l
      | _ => False
      end
  | TContainer fs =>
      match v with
      | Object _ => foldr (fun f P => (present (snd f) v (fst f) /\ fits (snd f) v (field_value (fst f) v)) /\ P) True fs
      | _ => False
      end
  | TSwitch c bs d =>
      let key := switch_key (field_value c parent) in
      plain key = true /\
      (is_Some (assoc key bs) \/ absent key (JObject (map (fun b => (fst b, schema (snd b))) bs)) = true) /\
      (fix at_key (l : list (string * ptype)) : Prop :=
         match l with
         | [] => match d with Some t => fits t parent v | None => True end
         | (k, t) :: l' => if bool_decide (k = key) then fits t parent v else at_key l'
         end) bs
  | TNamed _ t => fits t parent v
  end.

(** ** Their bytes *)

Fixpoint enc (t : ptype) (parent v : ProtoDefValue) : bytes :=
  match t with
  | TPrim p => prim_enc p v
  | TMapper base ms => match v with String_ s => itype_enc base (default 0 (mapped_number s ms)) | _ => [] end
  | TPString ct => match v with String_ s => itype_enc ct (size (bytes_of_string s)) ++ bytes_of_string s | _ => [] end
  | TBuffer ct => match v with Bytes b => itype_enc ct (size b) ++ b | _ => [] end
  | TOption t => match v with Null => [0] | _ => 1 :: enc t parent v end
  | TArray ct t => match v with Array l => itype_enc ct (size l) ++ (l ≫= enc t parent) | _ => [] end
  | TContainer fs => fs ≫= (fun f => enc (snd f) v (field_value (fst f) v))
  | TSwitch c bs d =>
      (fix at_key (l : list (string * ptype)) : bytes :=
         match l with
         | [] => match d with Some t => enc t parent v | None => [] end
         | (k, t) :: l' => if bool_decide (k = switch_key (field_value c parent)) then enc t parent v else at_key l'
         end) bs
  | TNamed _ t => enc t parent v
  end.

(** ** Their fields *)

Section Items.
Context {A : Type} (item : A -> Z -> Z -> list ProtoDefField) (length_ : A -> Z).
Fixpoint items_fields (l : list A) (i o : Z) : list ProtoDefField :=
  match l with
  | [] => []
  | x :: l' => item x i o ++ items_fields l' (i + 1) (o + length_ x)
  end.
End Items.

Fixpoint flds (t : ptype) (parent v : ProtoDefValue) (p : string) (o : Z) : list ProtoDefField :=
  match t with
  | TPrim pr => [mkField p (prim_name pr) (prim_text pr v) o (size (prim_enc pr v)) None]
  | TMapper base ms =>
      match v with
      | String_ s =>
          let n := default 0 (mapped_number s ms) in
          [mkField p ("mapper<" +:+ itype_name base +:+ ">") (to_string n +:+ "/" +:+ s) o (size (itype_enc base n)) None]
      | _ => []
      end
  | TPString ct =>
      match v with
      | String_ s => [mkField p "pstring" s o (size (itype_enc ct (size (bytes_of_string s)) ++ bytes_of_string s)) None]
      | _ => []
      end
  | TBuffer ct =>
      match v with
      | Bytes b => [mkField p ("buffer<" +:+ itype_name ct +:+ ">") (ProtoDefDecoder.buffer_text (size b)) o
                      (size (itype_enc ct (size b) ++ b)) (Some (Bytes b))]
      | _ => []
      end
  | TOption t =>
      match v with
      | Null => [mkField (p +:+ ".$present") "option_present" "false" o 1 None]
      | _ => mkField (p +:+ ".$present") "option_present" "true" o 1 None :: flds t parent v p (o + 1)
      end
  | TArray ct t =>
      match v with
      | Array l =>
          let k := itype_enc ct (size l) in
          mkField (p +:+ ".$count") ("array_count<" +:+ itype_name ct +:+ ">") (to_string (size l)) o (size k) None ::
          items_fields (fun x i o => flds t parent x (ProtoDefDecoder.index_path p i) o) (fun x => size (enc t parent x)) l 0 (o + size k)
      | _ => []
      end
  | TContainer fs =>
      items_fields (fun f _ o => flds (snd f) v (field_value (fst f) v) (ProtoDefDecoder.child_path p (fst f)) o)
        (fun f => size (enc (snd f) v (field_value (fst f) v))) fs 0 o
  | TSwitch c bs d =>
      let key := switch_key (field_value c parent) in
      (fix at_key (l : list (string * ptype)) : list ProtoDefField :=
         match l with
         | [] =>
             match d with
             | Some t => flds t parent v p o
             | None => [mkField p "switch" ("<no_branch:" +:+ key +:+ ">") o 0 None]
             end
         | (k, t) :: l' => if bool_decide (k = key) then flds t parent v p o else at_key l'
         end) bs
  | TNamed _ t => flds t parent v p o
  end.

(** ** Schemas that the interpreters read the same way *)

(** A switch stands as a field of a container only. *)
Definition direct (t : ptype) : bool := match t with TSwitch _ _ _ => false | _ => true end.

(** What a switch may compare. *)
Fixpoint keyed (t : ptype) : bool :=
  match t with
  | TPrim PBool | TPrim PString | TPrim (PInt _) | TMapper _ _ => true
  | TNamed _ t => keyed t
  | _ => false
  end.

(** Every switch of the fields compares one of the fields before it. *)
Fixpoint compares (earlier : list string) (fs : list (string * ptype)) : bool :=
  match fs with
  | [] => true
  | (n, t) :: fs' =>
      match t with TSwitch c _ _ => bool_decide (c ∈ earlier) | _ => true end &&
      compares (if keyed t then n :: earlier else earlier) fs'
  end.

(** The first place where a branch's quoted key stands is the branch itself. *)
Fixpoint keys_first (before : text) (bs : list (string * json)) : bool :=
  match bs with
  | [] => true
  | (k, j) :: bs' => first_at k before && keys_first (before ++ render_field (k, j) ++ [ascii_of_byte 44]) bs'
  end.

(** The types that the interpreters know without a schema. *)
Definition builtin : list string :=
  ["void"; "string"; "ShortString"; "lstring"; "uuid"; "ipAddress"; "restBuffer"; "MapInfo"; "byterot"; "nbtLoop";
   "enum_size_based_on_values_len"; "native"; "nbt"; "lnbt"; "bool"; "u8"; "lu8"; "li8"; "i8"; "byte"; "u16"; "lu16"; "i16";
   "li16"; "u32"; "lu32"; "u64"; "lu64"; "i32"; "li32"; "i64"; "li64"; "varint"; "varuint"; "varuint64"; "varint64"; "varlong";
   "entity_runtime_id"; "actor_runtime_id"; "runtime_entity_id"; "zigzag32"; "zigzag64"; "varint128"; "f32"; "lf32"; "f64";
   "lf64"; "vec3i"; "vec3f"].

Definition branches_json (bs : list (string * ptype)) : list (string * json) := map (fun b => (fst b, schema (snd b))) bs.

Section Ok.
Context (resolver_ : string -> option string).

Fixpoint type_ok (t : ptype) : Prop :=
  match t with
  | TPrim _ => True
  | TMapper base ms =>
      maps base = true /\ base.NoDup (map fst ms) /\
      Forall (fun m => 0 <= fst m /\ in_range base (fst m) /\ plain (snd m) = true) ms
  | TPString ct | TBuffer ct => counts ct = true
  | TOption t => direct t = true /\ type_ok t
  | TArray ct t => counts ct = true /\ direct t = true /\ type_ok t
  | TContainer fs =>
      base.NoDup (map fst fs) /\ compares [] fs = true /\
      foldr (fun f P => (plain (fst f) = true /\ type_ok (snd f)) /\ P) True fs
  | TSwitch c bs d =>
      plain c = true /\ c <> "fields" /\ keys_first [ascii_of_byte 123] (branches_json bs) = true /\
      foldr (fun f P => (plain (fst f) = true /\ direct (snd f) = true /\ type_ok (snd f)) /\ P) True bs /\
      match d with Some t => direct t = true /\ type_ok t | None => True end
  | TNamed n t =>
      plain n = true /\ (n ∉ builtin) /\ resolver_ n = Some (str (render (schema t))) /\ direct t = true /\ type_ok t
  end.

(** The names of the fields inside a type. *)
Fixpoint names (t : ptype) : list string :=
  match t with
  | TPrim _ | TMapper _ _ | TPString _ | TBuffer _ => []
  | TOption t | TArray _ t | TNamed _ t => names t
  | TContainer fs => fs ≫= (fun f => fst f :: names (snd f))
  | TSwitch _ bs d => (bs ≫= (fun f => names (snd f))) ++ match d with Some t => names t | None => [] end
  end.

(** In a packet, no field that a switch compares is named again inside a field:
    the context keeps what is decoded last under a name. *)
Definition unshadowed (fs : list (string * ptype)) : Prop :=
  Forall (fun f => match snd f with TSwitch c _ _ => Forall (fun g => c ∉ names (snd g)) fs | _ => True end) fs.

(** ** Properties of the text *)

Lemma plain_digits n : plain (to_string n) = true.
Proof.
  destruct (number_text n) as (c & l & E & Hc & Hl). unfold plain. rewrite E in *.
  apply andb_true_iff. split; [apply negb_true_iff, bool_decide_eq_false_2; intros H; by rewrite H in E|].
  apply List.forallb_forall. intros x Hx. eapply List.Forall_forall in Hl; [|exact Hx]. unfold plain_char. by rewrite Hl.
Qed.

Lemma plain_mapping ms : Forall (fun m => plain (snd m) = true) ms -> json_plain (JObject (mapping_json ms)).
Proof.
  induction 1 as [|[n v] ms Hv _ IH]; [done|]. cbn. split; [split; [by apply plain_digits|done]|done].
Qed.

Lemma plain_prim p : plain (prim_name p) = true.
Proof. destruct p as [| | |i|b|b]; try destruct i; try destruct b; done. Qed.

Lemma schema_plain t : type_ok t -> json_plain (schema t).
Proof.
  induction t as [p|base ms|ct|ct|t IH|ct t IH|fs IH|c bs d IH IHd|n t IH] using type_induction; intros Hok.
  - apply plain_prim.
  - destruct Hok as (_ & _ & Hms). cbn. split_and!; try done; [by apply (plain_prim (PInt base))|].
    apply plain_mapping. eapply Forall_impl; [|exact Hms]. by intros m (_ & _ & H).
  - cbn. split_and!; try done. by apply (plain_prim (PInt ct)).
  - cbn. split_and!; try done. by apply (plain_prim (PInt ct)).
  - destruct Hok. cbn. split_and!; try done. by apply IH.
  - destruct Hok as (_ & _ & H). cbn. split_and!; try done; [by apply (plain_prim (PInt ct))|by apply IH].
  - destruct Hok as (_ & _ & H). cbn. split_and!; try done. induction IH as [|[n t] fs Ht _ IHfs]; [done|].
    cbn in H, Ht |- *. destruct H as [[H1 H2] H3]. split_and!; try done; [by apply Ht|by apply IHfs].
  - destruct Hok as (Hc & _ & _ & H & Hd). cbn. split_and!; try done.
    + induction IH as [|[n t] bs Ht _ IHbs]; [done|]. cbn in H, Ht |- *. destruct H as [(H1 & H2 & H3) H4].
      split_and!; try done; [by apply Ht|by apply IHbs].
    + destruct d as [t|]; [|done]. destruct Hd. cbn. split_and!; try done. by apply IHd.
  - by destruct Hok.
Qed.
End Ok.
