(* ===== verification/ProtoDefEncodes.v ===== *)
(** * The encoder on schemas by structure

    [ProtoDefEncoder::encode], given the text of a type and a value that fits it,
    appends the bytes of the reference definition [enc], whatever parents and
    direct values the encoder has put into the object ([extends]). *)

From S2P Require Import Prelude MachineInt Leb128 Endian ZigZag FloatBits GamePacket Text FloatText Nbt ProtoDefData ProtoDefJson.
From S2P Require Import ProtoDefText ProtoDefStream ProtoDefNbt ProtoDefEncoder ProtoDefDecoder ProtoDefSchema ProtoDefTypes.

Import ProtoDefJson ProtoDefText ProtoDefEncoder.

(** ** The encoder's own searches *)

Lemma object_after_ok needle (s before rest : text) fs : json_plain (JObject fs) -> first_at needle before = true ->
  s = before ++ qt needle ++ ascii_of_byte 58 :: render (JObject fs) ++ rest ->
  object_after needle s = Some (render (JObject fs)).
Proof.
  intros Hfs Hf Hs. destruct (behind_key _ _ _ _ _ Hf Hs) as [H1 H2].
  unfold object_after. change ([quote_mark] ++ chars needle ++ [quote_mark]) with (qt needle).
  rewrite H1. cbn [mbind option_bind].
  pose proof H2 as H2'. rewrite object_text in H2'. cbn [app] in H2'.
  rewrite (find_char_drop 123 s _ [ascii_of_byte 58] _ _ H2') by (done || by constructor). cbn [mbind option_bind].
  pose proof (drop_past s _ [ascii_of_byte 58] _ H2) as H3.
  rewrite (findMatching_ok s _ 123 125 _ rest (or_intror (conj eq_refl eq_refl)) (neutral_object fs Hfs) H3).
  cbn [mbind option_bind]. f_equal.
  replace (S (_ + _ + 1)) with (length before + length (qt needle) + length [ascii_of_byte 58] + length (render (JObject fs)))%nat
    by (cbn [render]; rewrite bracketed_length; unfold render_field; cbn [length]; lia). by apply (slice_drop s _ _ _ H3).
Qed.

Lemma switch_field_ok key (s before rest : text) j : json_plain j -> first_at key before = true ->
  s = before ++ qt key ++ ascii_of_byte 58 :: render j ++ rest ->
  readSwitchObjectField s key = Some (render j).
Proof.
  intros Hj Hf Hs. destruct (behind_key _ _ _ _ _ Hf Hs) as [H1 H2].
  unfold readSwitchObjectField. change ([quote_mark] ++ chars key ++ [quote_mark]) with (qt key).
  rewrite H1. cbn [mbind option_bind]. rewrite (char_here 58 s _ _ _ H2) by done. cbn [mbind option_bind].
  destruct (drop_head s _ _ _ H2) as (_ & H3 & _). destruct (render_head j) as (c & l & E & Ec).
  assert (drop (S (length before + length (qt key))) s = c :: l ++ rest) as H4 by by rewrite H3, E.
  rewrite (advance_stop is_space s _ _ _ (length s) H4) by (rewrite Ec; by destruct j).
  destruct (drop_head s _ _ _ H4) as (_ & _ & Hlt). rewrite (proj2 (Nat.leb_gt _ _)) by lia.
  by apply (value_at_ok s _ j rest).
Qed.

(** The pairs of the mappings, one by one. *)
Lemma not_quote t : Forall (fun c => is_digit c = true) t -> Forall (fun c => is_char 34 c = false) t.
Proof. intros H. induction H as [|c t Hc _ IH]; constructor; [|done]. unfold is_digit, is_char in *. lia. Qed.

Lemma mapper_pair (s : text) lead n v rest pos : plain v = true -> Forall (fun c => is_char 34 c = false) lead ->
  drop pos s = lead ++ render_field (to_string n, JString v) ++ rest ->
  exists k1 k2 colon v1 v2, find_char 34 s pos = Some k1 /\ find_char 34 s (S k1) = Some k2 /\ find_char 58 s (S k2) = Some colon /\
    find_char 34 s (S colon) = Some v1 /\ find_char 34 s (S v1) = Some v2 /\
    slice s (S k1) k2 = chars (to_string n) /\ slice s (S v1) v2 = chars v /\ drop (S v2) s = rest.
Proof.
  intros Hv Hl Hd. unfold render_field, qt in Hd. cbn [fst snd render app] in Hd. unfold qt in Hd. cbn [app] in Hd.
  rewrite <-!app_assoc in Hd. cbn [app] in Hd. rewrite <-!app_assoc in Hd. cbn [app] in Hd.
  destruct (number_text n) as (c0 & l0 & _ & _ & Hnum).
  pose proof (drop_past s pos lead _ Hd) as H1. destruct (drop_head s _ _ _ H1) as (_ & H2 & _).
  pose proof (drop_past s _ _ _ H2) as H3. destruct (drop_head s _ _ _ H3) as (_ & H4 & _).
  destruct (drop_head s _ _ _ H4) as (_ & H5 & _). destruct (drop_head s _ _ _ H5) as (_ & H6 & _).
  pose proof (drop_past s _ _ _ H6) as H7. destruct (drop_head s _ _ _ H7) as (_ & H8 & _).
  eexists _, _, _, _, _. split_and!.
  - by apply (find_char_drop 34 s pos lead _ _ Hd Hl).
  - by apply (find_char_drop 34 s _ _ _ _ H2 (not_quote _ Hnum)).
  - by apply (char_here 58 s _ _ _ H4).
  - by apply (char_here 34 s _ _ _ H5).
  - apply (find_char_drop 34 s _ _ _ _ H6); [|done]. apply plain_other; [done|by left].
  - by apply (slice_drop s _ _ _ H2).
  - by apply (slice_drop s _ _ _ H6).
  - exact H8.
Qed.

Lemma fields_text_more fs : fields_text false fs = match fs with [] => [] | _ => [ascii_of_byte 44] end ++ fields_text true fs.
Proof. destruct fs as [|f fs]; [done|]. by rewrite !fields_text_cons. Qed.

Lemma mapper_loop_ok (s : text) name ms : Forall (fun m => is_u 64 (fst m) /\ plain (snd m) = true) ms ->
  forall fuel lead pos rest, Forall (fun c => is_char 34 c = false) lead -> Forall (fun c => is_char 34 c = false) rest ->
  drop pos s = lead ++ fields_text true (mapping_json ms) ++ rest -> (length ms < fuel)%nat ->
  mapper_loop fuel s name pos = Ok (mapped_number name ms).
Proof.
  intros Hms. induction Hms as [|[n v] ms [Hn Hv] _ IH]; intros [|fuel] lead pos rest Hl Hr Hd Hf; try (exfalso; cbn in Hf; lia).
  { cbn [mapper_loop]. unfold find_char. rewrite Hd, find_in_none; [done|]. by apply Forall_app. }
  change (mapping_json ((n, v) :: ms)) with ((to_string n, JString v) :: mapping_json ms) in Hd.
  rewrite fields_text_cons, <-!app_assoc in Hd. cbn [fst snd app] in *.
  destruct (mapper_pair s lead n v _ pos Hv Hl Hd) as (k1 & k2 & colon & v1 & v2 & E1 & E2 & E3 & E4 & E5 & E6 & E7 & E8).
  cbn [mapper_loop]. rewrite E1. cbn [mbind option_bind]. rewrite E2. cbn [mbind option_bind]. rewrite E3. cbn [mbind option_bind].
  rewrite E4. cbn [mbind option_bind]. rewrite E5. cbn [mbind option_bind]. rewrite E6, E7, !str_chars. unfold mapped_number. cbn [List.filter snd].
  destruct (decide (v = name)) as [->|Hne].
  - rewrite !bool_decide_true by done. by rewrite stoull_to_string.
  - rewrite !(bool_decide_false (v = name)) by done. rewrite fields_text_more, <-app_assoc in E8.
    eapply (IH fuel _ _ rest); [|exact Hr|exact E8|cbn in Hf; lia]. by destruct (mapping_json ms); repeat constructor.
Qed.

Lemma mapping_length ms : (length ms <= length (fields_text true (mapping_json ms)))%nat.
Proof.
  induction ms as [|[n v] ms IH]; [cbn; lia|]. change (mapping_json ((n, v) :: ms)) with ((to_string n, JString v) :: mapping_json ms).
  rewrite fields_text_cons, fields_text_more. unfold render_field, qt. cbn [fst snd render length app]. rewrite !length_app. cbn [length]. lia.
Qed.

Definition mapper_json (base : itype) (ms : list (Z * string)) : json := schema (TMapper base ms).

Lemma find_mapping base ms name : Forall (fun m => is_u 64 (fst m) /\ plain (snd m) = true) ms ->
  findMapperNumericByName (render (mapper_json base ms)) name = Ok (mapped_number name ms).
Proof.
  intros Hms. unfold findMapperNumericByName.
  set (before := kind_prefix "mapper" ++ chars ",{" ++ qt "type" ++ ascii_of_byte 58 :: qt (itype_name base) ++ [ascii_of_byte 44]).
  assert (first_at "mappings" before = true) as Hf by by destruct base.
  assert (render (mapper_json base ms) = before ++ qt "mappings" ++ ascii_of_byte 58 :: render (JObject (mapping_json ms)) ++ chars "}]") as Hs.
  { unfold mapper_json, before. cbn [schema]. unfold typed_object. rewrite typed_text, object_text, fields_text_cons, fields_text_cons.
    unfold render_field, kind_prefix. cbn [fst snd render chars app fields_text]. unfold qt. cbn [app].
    by repeat first [rewrite <-app_assoc | progress cbn [app]]. }
  rewrite (object_after_ok "mappings" _ before _ _ ltac:(apply plain_mapping; eapply Forall_impl; [|exact Hms]; by intros ? []) Hf Hs).
  apply (mapper_loop_ok _ name ms Hms _ [ascii_of_byte 123] 0 [ascii_of_byte 125]); [by repeat constructor..|by rewrite object_text|].
  rewrite object_text. cbn [length]. rewrite length_app. pose proof (mapping_length ms). cbn [length]. lia.
Qed.

(** ** Keys that are not there *)

Definition no_char (code : Z) (t : text) : Prop := Forall (fun c => is_char code c = false) t.

Lemma no_slash_render j : json_plain j -> no_char 47 (render j).
Proof.
  assert (forall s, plain s = true -> no_char 47 (qt s)) as Hqt.
  { intros s Hs. constructor; [done|]. apply Forall_app. split; [|by constructor]. apply plain_other; [done|]. repeat (left || right). }
  assert (forall l, Forall (no_char 47) l -> no_char 47 (comma_separated l)) as Hc.
  { intros l H. induction H as [|x l Hx Hl IH]; [constructor|]. destruct l as [|y l]; [done|]. cbn [comma_separated].
    apply Forall_app. split; [done|]. by constructor. }
  assert (forall l r b, is_char 47 (ascii_of_byte l) = false -> is_char 47 (ascii_of_byte r) = false -> no_char 47 b ->
    no_char 47 (bracketed l r b)) as Hb.
  { intros l r b Hl Hr H. constructor; [done|]. apply Forall_app. split; [done|by constructor]. }
  induction j as [s|l IH|fs IH] using json_induction; intros Hj; cbn [render].
  - by apply Hqt.
  - apply Hb; [done|done|]. apply Hc. induction IH as [|x l Hx _ IHl]; constructor; destruct Hj; auto.
  - apply Hb; [done|done|]. apply Hc. induction IH as [|x l Hx _ IHl]; constructor; destruct Hj as [[H1 H2] H3]; [|by apply IHl].
    apply Forall_app. split; [by apply Hqt|]. constructor; [done|by apply Hx].
Qed.

Lemma prefix_elem (k l : text) code : is_prefix k l = true -> no_char code l -> no_char code k.
Proof.
  revert l. induction k as [|a k IH]; intros [|b l]; try done; cbn; intros H Hl; [by constructor|].
  apply andb_true_iff in H as [H1 H2]. apply bool_decide_eq_true in H1 as ->. inversion Hl. constructor; [done|]. by eapply IH.
Qed.

Lemma find_text_missing needle t code : ~ no_char code needle -> no_char code t -> forall i, find_text_in needle t i = None.
Proof.
  intros Hn Ht. induction Ht as [|c t Hc Ht IH]; intros i; cbn; (destruct (is_prefix needle _) eqn:E;
    [exfalso; apply Hn; eapply prefix_elem; [exact E|by constructor]|]); [done|apply IH].
Qed.

Lemma missing_slash s j : json_plain j -> readSwitchObjectField (render j) ("/" +:+ s) = None.
Proof.
  intros Hj. unfold readSwitchObjectField, find_text. cbn [drop]. rewrite (find_text_missing _ _ 47); [done| |by apply no_slash_render].
  intros H. cbn [app] in H. inversion H as [|? ? _ H']. change (chars ("/" +:+ s)) with (ascii_of_byte 47 :: chars s) in H'.
  cbn [app] in H'. by inversion H'.
Qed.

Lemma branch_keys_plain (lookup : string -> option text) vars key : plain key = true -> (forall s, lookup ("/" +:+ s) = None) ->
  first_branch lookup (branch_keys vars key) = lookup key.
Proof.
  intros Hk Hs. unfold branch_keys. assert (after_slash key = []) as Ha.
  { unfold after_slash, find_char. cbn [drop]. rewrite find_in_none; [done|]. apply plain_other; [done|]. repeat (left || right). }
  unfold switchLookupKeys. rewrite Ha. cbn [app map].
  induction (List.filter _ vars) as [|e l IH]; cbn [map app first_branch].
  - rewrite Hs. by destruct (lookup key).
  - by rewrite Hs.
Qed.

(** ** The branch of a switch *)

Lemma switch_field_found key j fs : json_plain (JObject fs) -> lookup_field key fs = Some j -> forall (s before rest : text),
  keys_first before fs = true -> s = before ++ fields_text true fs ++ rest -> readSwitchObjectField s key = Some (render j).
Proof.
  induction fs as [|[k v] fs IH]; intros Hp Hl s before rest Hf Hs; [done|].
  destruct Hp as [[Hk Hv] Hp]. cbn [fst snd keys_first lookup_field] in *. apply andb_true_iff in Hf as [Hf Hfs].
  rewrite fields_text_cons in Hs. cbn [app] in Hs. unfold render_field in Hs at 1. cbn [fst snd] in Hs. rewrite <-!app_assoc in Hs. cbn [app] in Hs.
  destruct (decide (k = key)) as [->|Hne].
  - rewrite bool_decide_true in Hl by done. injection Hl as ->.
    by apply (switch_field_ok key s before (fields_text false fs ++ rest) j Hv Hf).
  - rewrite bool_decide_false in Hl by done. destruct fs as [|g fs]; [done|].
    apply (IH Hp Hl s _ rest Hfs). rewrite Hs, (fields_text_cons true), (fields_text_cons false). unfold render_field. cbn [fst snd].
    by repeat first [rewrite <-app_assoc | progress cbn [app]].
Qed.

Lemma prefix_name a b rest : plain a = true -> plain b = true ->
  is_prefix (chars a ++ [quote_mark]) (chars b ++ quote_mark :: rest) = true -> a = b.
Proof.
  intros Ha Hb H. rewrite <-(str_chars a), <-(str_chars b). f_equal.
  pose proof (plain_other a 34 Ha ltac:(by left)) as Ha'. pose proof (plain_other b 34 Hb ltac:(by left)) as Hb'. clear Ha Hb. revert H Hb'.
  generalize (chars b). induction Ha' as [|c l Hc _ IH]; intros [|d m] H Hm; [done| | |]; cbn in H; apply andb_true_iff in H as [H1 H2];
    apply bool_decide_eq_true in H1; inversion Hm; subst; [done..|]. f_equal. by apply IH.
Qed.

Lemma find_text_skip q (l r : text) code : head q = Some (ascii_of_byte code) -> is_u 8 code -> no_char code l -> forall i,
  find_text_in q (l ++ r) i = find_text_in q r (i + length l)%nat.
Proof.
  intros Hq Hu Hl. destruct q as [|a q]; [done|]. injection Hq as ->. induction Hl as [|c l Hc _ IH]; intros i.
  - cbn [app length]. by rewrite Nat.add_0_r.
  - cbn [app find_text_in is_prefix]. rewrite bool_decide_false.
    + cbn [andb]. rewrite IH. f_equal. cbn. lia.
    + intros <-. by rewrite code_char in Hc.
Qed.

(** What is in front of the branches. *)
Definition switch_head (c : string) : text :=
  kind_prefix "switch" ++ chars ",{" ++ qt "compareTo" ++ ascii_of_byte 58 :: qt c ++ [ascii_of_byte 44].

Lemma fields_first c : plain c = true -> c <> "fields" -> first_at "fields" (switch_head c) = true.
Proof.
  intros Hc Hne. apply bool_decide_eq_true. unfold switch_head.
  change (kind_prefix "switch" ++ chars ",{" ++ qt "compareTo" ++ ascii_of_byte 58 :: qt c ++ [ascii_of_byte 44])
    with ((kind_prefix "switch" ++ chars ",{" ++ qt "compareTo" ++ [ascii_of_byte 58]) ++ qt c ++ [ascii_of_byte 44]).
  set (pre := kind_prefix "switch" ++ _).
  assert (forall r, find_text_in (qt "fields") (pre ++ quote_mark :: r) 0 = find_text_in (qt "fields") (quote_mark :: r) (length pre)) as H1.
  { intros r. reflexivity. }
  unfold qt at 2. rewrite <-!app_assoc. cbn [app]. rewrite H1. cbn [find_text_in].
  destruct (is_prefix (qt "fields") (quote_mark :: _)) eqn:E.
  { exfalso. apply Hne. symmetry. apply (prefix_name "fields" c ([ascii_of_byte 44] ++ qt "fields")); [done|done|].
    unfold qt at 1 in E. cbn [is_prefix] in E. rewrite bool_decide_true in E by done. cbn [andb] in E. rewrite <-app_assoc in E. exact E. }
  rewrite <-app_assoc. cbn [app].
  rewrite (find_text_skip (qt "fields") (chars c) _ 34) by (done || by apply plain_other; [|left]).
  assert (forall i, find_text_in (qt "fields") (quote_mark :: ascii_of_byte 44 :: qt "fields") i = Some (S (S i))) as H2 by done.
  rewrite H2. clearbody pre. unfold qt. rewrite !length_app. cbn [length]. rewrite !length_app. cbn [length]. f_equal. lia.
Qed.

Definition dispatch_json (c : string) (bs : list (string * json)) (d : list (string * json)) : json :=
  typed_object "switch" (("compareTo", JString c) :: ("fields", JObject bs) :: d).

Section Branches.
Context (variables_ : list (string * string)).

Lemma find_branch c bs d key : json_plain (JObject bs) -> plain c = true -> c <> "fields" -> plain key = true ->
  keys_first [ascii_of_byte 123] bs = true -> is_Some (lookup_field key bs) \/ absent key (JObject bs) = true ->
  findSwitchBranchType variables_ (render (dispatch_json c bs d)) key = render <$> lookup_field key bs.
Proof.
  intros Hbs Hc Hne Hk Hf Hkey. unfold findSwitchBranchType.
  assert (exists rest, render (dispatch_json c bs d) = switch_head c ++ qt "fields" ++ ascii_of_byte 58 :: render (JObject bs) ++ rest) as [rest Hr].
  { unfold dispatch_json, typed_object. rewrite typed_text, object_text, fields_text_cons, fields_text_cons. unfold render_field, switch_head, kind_prefix.
    cbn [fst snd render]. eexists. cbn [app chars]. unfold qt. cbn [app]. by repeat first [rewrite <-app_assoc | progress cbn [app]]. }
  rewrite (object_after_ok "fields" _ _ _ bs Hbs (fields_first c Hc Hne) Hr). cbn [mbind option_bind].
  rewrite branch_keys_plain by (done || (intros s; by apply missing_slash)).
  destruct (lookup_field key bs) as [j|] eqn:E.
  - apply (switch_field_found key j bs Hbs E _ [ascii_of_byte 123] [ascii_of_byte 125] Hf). rewrite object_text. done.
  - destruct Hkey as [[j Hj]|Ha]; [done|]. apply bool_decide_eq_true in Ha.
    unfold readSwitchObjectField. change ([quote_mark] ++ chars key ++ [quote_mark]) with (qt key). by rewrite Ha.
Qed.
End Branches.

(** ** What a switch compares *)

Lemma plain_ends s : plain s = true -> exists c l l' d, chars s = c :: l /\ chars s = l' ++ [d] /\ plain_char c = true /\ plain_char d = true.
Proof.
  intros Hs. pose proof (plain_chars s Hs) as H. assert (chars s <> []) as Hne.
  { intros E. apply andb_true_iff in Hs as [Hs _]. apply negb_true_iff, bool_decide_eq_false in Hs. apply Hs. by rewrite <-(str_chars s), E. }
  destruct (chars s) as [|c l] eqn:E; [done|]. destruct (exists_last Hne) as (l' & d & E'). exists c, l, l', d.
  split_and!; [done|done|by inversion H|]. rewrite E' in H. apply Forall_app in H as [_ H]. by inversion H.
Qed.

Lemma trim_plain s : plain s = true -> trim (chars s) = chars s.
Proof.
  intros Hs. destruct (plain_ends s Hs) as (c & l & l' & d & E & E' & Hc & Hd). rewrite E in E' |- *.
  by apply (trim_ok c l l' d E'); apply plain_space.
Qed.

Lemma or_plain s : plain s = true -> hasProtoDefLogicalOr (chars s) = false.
Proof.
  intros Hs. unfold hasProtoDefLogicalOr, find_text. cbn [drop]. rewrite (find_text_missing _ _ 124); [done| |].
  - intros H. by inversion H.
  - apply plain_other; [done|]. repeat (left || right).
Qed.

Lemma compare_plain c f : plain c = true ->
  evaluateProtoDefCompareExpression (chars c) f = (let! r := f (chars c) in Ok (switchKey <$> r)).
Proof.
  intros Hc. unfold evaluateProtoDefCompareExpression. rewrite trim_plain, or_plain by done.
  destruct (plain_ends c Hc) as (x & l & _ & _ & -> & _). by rewrite bool_decide_false.
Qed.

Lemma split_slash_none l : l <> [] -> no_char 47 l -> split_slash l = [l].
Proof.
  intros _ H. induction H as [|c l Hc Hl IH]; [done|]. cbn [split_slash]. by rewrite Hc, IH.
Qed.

Lemma getPath_plain object c : plain c = true -> getPath object (chars c) = get_value c object.
Proof.
  intros Hc. unfold getPath.
  assert (map (fun c => if is_char 46 c then ascii_of_byte 47 else c) (chars c) = chars c) as ->.
  { pose proof (plain_other c 46 Hc ltac:(repeat (left || right))) as H. induction H as [|x l Hx _ IH]; [done|]. cbn [map]. by rewrite Hx, IH. }
  pose proof (plain_other c 47 Hc ltac:(repeat (left || right))) as H.
  destruct (plain_ends c Hc) as (x & l & _ & _ & E & _). rewrite E in *. inversion H as [|? ? Hx _]; subst. rewrite Hx.
  rewrite split_slash_none by done. cbn [follow_path]. rewrite bool_decide_false by done. rewrite <-E, str_chars.
  by destruct (get_value c object).
Qed.

Lemma switch_key_ok v : (exists b, v = Bool b) \/ (exists s, v = String_ s) \/ is_Some (int_value v) -> valueToSwitchKey v = Ok (switch_key v).
Proof. by intros [[b ->]|[[s ->]|[n Hn]]]; [| |destruct v]. Qed.

Lemma resolve_plain object c v : plain c = true -> get_value c object = Some v ->
  (exists b, v = Bool b) \/ (exists s, v = String_ s) \/ is_Some (int_value v) ->
  resolveCompareValue object c = Ok (Some (switch_key v)).
Proof.
  intros Hc Hv Hk. unfold resolveCompareValue. rewrite compare_plain, or_plain, getPath_plain, Hv by done.
  by rewrite (switch_key_ok v Hk).
Qed.

(** ** Parents and direct values *)

(** What the encoder hands on in place of a value. *)
Inductive extends : ProtoDefValue -> ProtoDefValue -> Prop :=
| extends_same v : extends v v
| extends_object es es' : (forall n, plain n = true -> get_value n (Object es') = get_value n (Object es)) -> extends (Object es) (Object es')
| extends_array l l' : Forall2 extends l l' -> extends (Array l) (Array l').

Lemma get_cons n k v es : get_value n (Object ((k, v) :: es)) = if decide (k = n) then Some v else get_value n (Object es).
Proof. unfold get_value. rewrite filter_cons. cbn [fst]. by destruct (decide (k = n)). Qed.

Lemma get_set_entry n k v es : n <> k -> get_value n (Object (set_entry k v es)) = get_value n (Object es).
Proof.
  intros Hne. induction es as [|[k' v'] es IH]; cbn [set_entry].
  - rewrite get_cons. by rewrite decide_False.
  - destruct (bool_decide_reflect (k' = k)) as [->|Hk]; rewrite !get_cons.
    + by rewrite !decide_False.
    + by rewrite IH.
Qed.

Lemma get_set_here k v es : get_value k (Object (set_entry k v es)) = Some v.
Proof.
  induction es as [|[k' v'] es IH]; cbn [set_entry]; [by rewrite get_cons, decide_True|].
  destruct (bool_decide_reflect (k' = k)) as [->|Hk]; rewrite get_cons; [by rewrite decide_True|by rewrite decide_False].
Qed.

Lemma plain_not_special n k : plain n = true -> k ∈ [".."; "$value"] -> n <> k.
Proof. intros Hn Hk ->. repeat (apply elem_of_cons in Hk as [->|Hk]; [done|]). by apply elem_of_nil in Hk. Qed.

Lemma withParent_extends v parent : extends v (withParent v parent).
Proof.
  induction v as [|b|z|z|z|s|b|es IH|l IH] using value_induction; try by constructor.
  - constructor. intros n Hn. apply get_set_entry. apply plain_not_special; [done|by left].
  - constructor. induction IH; by constructor.
Qed.

Lemma extends_get v v' n : extends v v' -> plain n = true -> get_value n v' = get_value n v.
Proof. intros H Hn. destruct H; [done|by auto|done]. Qed.

(** ** Types without a nested type *)

Lemma to_signed_self w n : 0 < w -> is_s w n -> to_signed w n = n.
Proof. intros Hw Hn. rewrite <-(to_signed_mod w n Hw Hn) at 2. unfold to_signed. by rewrite Z.mod_mod by (apply Z.pow_nonzero; lia). Qed.

Lemma mod_narrow w n : 0 <= w <= 64 -> (n mod 2 ^ 64) mod 2 ^ w = n mod 2 ^ w.
Proof.
  intros Hw. apply Z.mod_mod_divide.
  exists (2 ^ (64 - w)). rewrite <-Z.pow_add_r by lia. f_equal. lia.
Qed.

Lemma as_uint v n w : int_value v = Some n -> 0 <= w <= 64 -> exists u, asUInt v = Ok u /\ u mod 2 ^ w = n mod 2 ^ w.
Proof.
  intros Hv Hw. destruct v; try done; cbn in Hv.
  - injection Hv as ->. eexists. split; [done|]. by apply mod_narrow.
  - destruct (_ <? 0); [done|]. injection Hv as ->. by exists n.
Qed.

Lemma as_int v n : int_value v = Some n -> is_s 64 n -> asInt v = Ok n.
Proof.
  intros Hv Hn. destruct v; try done; cbn in Hv; [by injection Hv as ->|].
  destruct (_ <? 0); [done|]. injection Hv as ->. cbn. f_equal. by apply to_signed_self.
Qed.

Lemma is_s_64 w n : 0 < w <= 64 -> is_s w n -> is_s 64 n.
Proof. intros Hw [H1 H2]. unfold is_s. assert (2 ^ (w - 1) <= 2 ^ (64 - 1)) by (apply Z.pow_le_mono_r; lia). lia. Qed.

Lemma puts_unsigned w put v n k : 0 <= w <= 64 -> int_value v = Some n -> puts (put (n mod 2 ^ w)) k -> puts (write_word w asUInt put v) k.
Proof. intros Hw Hv Hp out. destruct (as_uint v n w Hv Hw) as (u & E & Eu). unfold write_word. rewrite E, bind_lift, Eu. apply Hp. Qed.

Lemma puts_signed w put v n k : 0 < w <= 64 -> int_value v = Some n -> is_s w n -> puts (put (n mod 2 ^ w)) k -> puts (write_word w asInt put v) k.
Proof.
  intros Hw Hv Hn Hp out. unfold write_word. rewrite (as_int v n Hv) by by apply (is_s_64 w). rewrite bind_lift. apply Hp.
Qed.

Section Encodes.
Context (resolver_ generatedProtocolTypeJson : string -> option string) (variables_ : list (string * string)).

Abbreviation encodeTypeName_ := (encodeTypeName resolver_ generatedProtocolTypeJson).
Abbreviation encode_ := (encode resolver_ generatedProtocolTypeJson variables_).

Lemma puts_itype rec i v n : int_value v = Some n -> in_range i n -> puts (encodeTypeName_ rec (itype_name i) v) (itype_enc i n).
Proof.
  intros Hv Hi. destruct i; cbn [in_range] in Hi; cbn [itype_enc].
  - by apply (puts_unsigned 8 ProtoDefWriter.u8 v n _ ltac:(lia) Hv).
  - by apply (puts_unsigned 8 ProtoDefWriter.u8 v n _ ltac:(lia) Hv).
  - by apply (puts_signed 8 ProtoDefWriter.u8 v n _ ltac:(lia) Hv Hi).
  - apply (puts_unsigned 16 ProtoDefWriter.u16be v n _ ltac:(lia) Hv), puts_u16be.
  - apply (puts_unsigned 16 ProtoDefWriter.u16le v n _ ltac:(lia) Hv), puts_u16le.
  - apply (puts_signed 16 ProtoDefWriter.u16be v n _ ltac:(lia) Hv Hi), puts_u16be.
  - apply (puts_signed 16 ProtoDefWriter.u16le v n _ ltac:(lia) Hv Hi), puts_u16le.
  - apply (puts_unsigned 32 ProtoDefWriter.u32be v n _ ltac:(lia) Hv), puts_u32be.
  - apply (puts_unsigned 32 ProtoDefWriter.u32le v n _ ltac:(lia) Hv), puts_u32le.
  - apply (puts_signed 32 ProtoDefWriter.u32be v n _ ltac:(lia) Hv Hi), puts_u32be.
  - apply (puts_signed 32 ProtoDefWriter.u32le v n _ ltac:(lia) Hv Hi), puts_u32le.
  - apply (puts_unsigned 64 ProtoDefWriter.u64be v n _ ltac:(lia) Hv), puts_u64be.
  - apply (puts_unsigned 64 ProtoDefWriter.u64le v n _ ltac:(lia) Hv), puts_u64le.
  - apply (puts_signed 64 ProtoDefWriter.u64be v n _ ltac:(lia) Hv Hi), puts_u64be.
  - apply (puts_signed 64 ProtoDefWriter.u64le v n _ ltac:(lia) Hv Hi), puts_u64le.
  - apply (puts_unsigned 32 ProtoDefWriter.varuint32 v n _ ltac:(lia) Hv). rewrite Z.mod_small by done. by apply puts_varuint32.
  - apply (puts_unsigned 64 ProtoDefWriter.varuint64 v n _ ltac:(lia) Hv). rewrite Z.mod_small by done. by apply puts_varuint64.
  - intros out. change (encodeTypeName_ rec (itype_name ZigZag32) v out)
      with ((let* v := lift (asInt v) in ProtoDefWriter.zigzag32 (to_i32 v)) out).
    rewrite (as_int v n Hv), bind_lift by by apply (is_s_64 32). unfold to_i32. rewrite to_signed_self by done. by apply puts_zigzag32.
  - intros out. change (encodeTypeName_ rec (itype_name ZigZag64) v out)
      with ((let* v := lift (asInt v) in ProtoDefWriter.zigzag64 (to_i64 v)) out).
    rewrite (as_int v n Hv), bind_lift by by apply (is_s_64 64). unfold to_i64. rewrite to_signed_self by done. by apply puts_zigzag64.
Qed.

Lemma puts_count ct n : counts ct = true -> in_range ct n -> puts (writeCount (itype_name ct) n) (itype_enc ct n).
Proof.
  intros Hc Hn. destruct ct; try done; cbn [in_range] in Hn; cbn [itype_enc].
  - apply puts_u16be.
  - apply puts_u16le.
  - apply puts_u16be.
  - apply puts_u16le.
  - apply puts_u32be.
  - apply puts_u32le.
  - apply puts_u32be.
  - apply puts_u32le.
  - change (puts (ProtoDefWriter.varuint32 (to_u32 n)) (leb_encode 5 n)). rewrite to_u32_id by done. by apply puts_varuint32.
  - change (puts (ProtoDefWriter.zigzag32 (to_i32 n)) (leb_encode 5 (zigzag n))). unfold to_i32. rewrite to_signed_self by done. by apply puts_zigzag32.
  - change (puts (ProtoDefWriter.zigzag64 (to_i64 n)) (leb_encode 10 (zigzag n))). unfold to_i64. rewrite to_signed_self by done. by apply puts_zigzag64.
Qed.

Lemma puts_prim rec p v v' : prim_fits p v -> extends v v' -> puts (encodeTypeName_ rec (prim_name p) v') (prim_enc p v).
Proof.
  intros Hv Hx. destruct p as [| | |i|little|little]; cbn in Hv |- *.
  - apply puts_ret.
  - destruct v; try done. inversion Hx; subst. apply puts_u8.
  - destruct v as [| | | | |s| | |]; try done. inversion Hx; subst. by apply (puts_string s).
  - destruct (int_value v) as [n|] eqn:E; [|done]. assert (v' = v) as ->; [by destruct v; try done; inversion Hx|]. by apply puts_itype.
  - destruct v as [| | | |b| | | |]; try done. inversion Hx; subst. destruct little; [apply puts_u32le|apply puts_u32be].
  - destruct v as [| | | |b| | | |]; try done. inversion Hx; subst. destruct little; [apply puts_u64le|apply puts_u64be].
Qed.

(** ** One type *)

Definition encodes (t : ptype) : Prop := forall fuel parent v v', type_ok resolver_ t -> direct t = true -> fits t parent v ->
  extends v v' -> (depth t <= fuel)%nat -> puts (encode_ fuel (render (schema t)) v') (enc t parent v).

(** The interpreter's first steps. *)
Lemma encode_name fuel n v : encode_ (S fuel) (render (JString n)) v = encodeTypeName_ (encode_ fuel) n v.
Proof.
  cbn [encode]. unfold encode_type. rewrite trim_render, isJsonString_render. cbn [render]. by rewrite unquote_qt.
Qed.

Ltac typed_step :=
  intros; cbn [encode]; unfold encode_type; rewrite trim_render, isJsonString_render; reflexivity.

Lemma encode_mapper fuel fs v : encode_ (S fuel) (render (typed_object "mapper" fs)) v =
  encodeMapper resolver_ generatedProtocolTypeJson (encode_ fuel) (render (typed_object "mapper" fs)) v.
Proof. typed_step. Qed.
Lemma encode_pstring fuel fs v : encode_ (S fuel) (render (typed_object "pstring" fs)) v = encodePString (render (typed_object "pstring" fs)) v.
Proof. typed_step. Qed.
Lemma encode_buffer fuel fs v : encode_ (S fuel) (render (typed_object "buffer" fs)) v = encodeBuffer (render (typed_object "buffer" fs)) v.
Proof. typed_step. Qed.
Lemma encode_option fuel j v : encode_ (S fuel) (render (typed "option" j)) v = encodeOption (encode_ fuel) (render (typed "option" j)) v.
Proof. typed_step. Qed.
Lemma encode_array fuel fs v : encode_ (S fuel) (render (typed_object "array" fs)) v = encodeArray (encode_ fuel) (render (typed_object "array" fs)) v.
Proof. typed_step. Qed.
Lemma encode_container fuel l v : encode_ (S fuel) (render (typed "container" (JList l))) v =
  encodeContainer (encode_ fuel) (render (typed "container" (JList l))) v.
Proof. typed_step. Qed.
Lemma encode_switch fuel fs v : encode_ (S fuel) (render (typed_object "switch" fs)) v =
  encodeSwitch variables_ (encode_ fuel) (render (typed_object "switch" fs)) v.
Proof. typed_step. Qed.

Lemma encode_resolved rec n txt v : n ∉ builtin -> resolver_ n = Some txt -> encodeTypeName_ rec n v = rec (chars txt) v.
Proof.
  intros Hn Hr. unfold encodeTypeName.
  repeat (rewrite bool_decide_false;
    [|intros H; apply Hn; first [subst n; apply (bool_decide_unpack _); vm_compute; exact I
       |repeat (apply elem_of_cons in H as [->|H]; [apply (bool_decide_unpack _); vm_compute; exact I|]); by apply elem_of_nil in H]]).
  by rewrite Hr.
Qed.

Lemma depth_pos t : (1 <= depth t)%nat.
Proof. destruct t; cbn; lia. Qed.

Lemma encodes_prim p : encodes (TPrim p).
Proof.
  intros [|fuel] parent v v' _ _ Hv Hx Hf; [cbn in Hf; lia|]. cbn [schema enc] in *.
  intros out. rewrite encode_name. by apply puts_prim.
Qed.

Lemma encodes_named n t : encodes t -> encodes (TNamed n t).
Proof.
  intros IH [|fuel] parent v v' Hok _ Hv Hx Hf out; [cbn in Hf; lia|]. destruct Hok as (Hp & Hn & Hr & Hd & Hok). cbn [schema enc fits depth] in *.
  rewrite encode_name, (encode_resolved _ _ _ _ Hn Hr), chars_str. apply (IH fuel parent v v'); [done..|lia].
Qed.

Lemma fields_found kind fs key : json_plain (typed_object kind fs) ->
  readJsonValueField (render (typed_object kind fs)) key = render <$> lookup_field key fs.
Proof. apply field_of_typed. Qed.
Lemma string_found kind fs key : json_plain (typed_object kind fs) ->
  readJsonStringField (render (typed_object kind fs)) key = lookup_string key fs.
Proof. intros H. by apply string_field, fields_found. Qed.

Lemma mapped_in ms name n : mapped_number name ms = Some n -> (n, name) ∈ ms.
Proof.
  unfold mapped_number. induction ms as [|[m v] ms IH]; [done|]. cbn [List.filter snd].
  destruct (bool_decide_reflect (v = name)) as [->|Hne]; [intros [= <-]; by left|]. intros H. right. by apply IH.
Qed.

Lemma in_range_64 i n : 0 <= n -> in_range i n -> is_u 64 n.
Proof.
  unfold is_u. intros H0. assert (2 ^ 63 < 2 ^ 64) by done.
  destruct i; cbn [in_range]; unfold is_u, is_s; intros []; split; try done; eapply Z.lt_le_trans; [eassumption|by compute|..];
    try eassumption; try (by compute).
Qed.

Lemma encodes_mapper base ms : encodes (TMapper base ms).
Proof.
  intros [|fuel] parent v v' Hok _ Hv Hx Hf out; [cbn in Hf; lia|]. pose proof (schema_plain _ _ Hok) as Hp.
  destruct Hok as (Hm & _ & Hms). cbn [fits] in Hv. destruct v as [| | | | |s| | |]; try done. inversion Hx; subst. destruct Hv as [n Hn].
  cbn [schema enc]. rewrite encode_mapper. unfold encodeMapper. cbn [schema] in Hp. rewrite (string_found _ _ _ Hp).
  change (lookup_string "type" _) with (Some (itype_name base)). cbn iota.
  pose proof (find_mapping base ms s) as Hfind. unfold mapper_json in Hfind. cbn [schema] in Hfind. rewrite bind_assoc, Hfind, bind_lift, Hn, bind_ret.
  - apply mapped_in in Hn. rewrite list.Forall_forall in Hms. destruct (Hms _ Hn) as (H0 & H1 & _). cbn [fst] in *.
    apply puts_itype; [|done]. cbn. by rewrite (proj2 (Z.ltb_ge _ _)).
  - eapply Forall_impl; [|exact Hms]. intros m (H0 & H1 & H2). split; [by eapply in_range_64|done].
Qed.

Lemma encodes_pstring ct : encodes (TPString ct).
Proof.
  intros [|fuel] parent v v' Hok _ Hv Hx Hf out; [cbn in Hf; lia|]. pose proof (schema_plain _ _ Hok) as Hp.
  cbn [fits type_ok schema enc] in *. destruct v as [| | | | |s| | |]; try done. inversion Hx; subst.
  rewrite encode_pstring. unfold encodePString. rewrite (string_found _ _ _ Hp).
  change (lookup_string "countType" _) with (Some (itype_name ct)). cbn [asString default]. rewrite bind_lift.
  apply (puts_bind _ _ _ (bytes_of_string s)); [by apply puts_count|apply puts_bytes].
Qed.

Lemma length_of what kind ct fs n : json_plain (typed_object kind fs) -> lookup_field "count" fs = None ->
  lookup_string "countType" fs = Some (itype_name ct) -> counts ct = true -> in_range ct n ->
  puts (write_length_of what (render (typed_object kind fs)) n) (itype_enc ct n).
Proof.
  intros Hp Hc Ht Hct Hn out. unfold write_length_of. rewrite (integer_field _ fs "count" (fields_found _ _ _ Hp)), bind_lift.
  rewrite !(string_found _ _ _ Hp), Ht. unfold lookup_string. rewrite Hc. by apply puts_count.
Qed.

Lemma encodes_buffer ct : encodes (TBuffer ct).
Proof.
  intros [|fuel] parent v v' Hok _ Hv Hx Hf out; [cbn in Hf; lia|]. pose proof (schema_plain _ _ Hok) as Hp.
  cbn [fits type_ok schema enc] in *. destruct v as [| | | | | |b| |]; try done. inversion Hx; subst. destruct Hv as [Hb Hv].
  rewrite encode_buffer. unfold encodeBuffer. apply (puts_bind _ _ _ b); [|apply puts_bytes].
  by apply (length_of _ _ ct _ _ Hp).
Qed.

Lemma encodes_option t : encodes t -> encodes (TOption t).
Proof.
  intros IH [|fuel] parent v v' Hok _ Hv Hx Hf out; [cbn in Hf; lia|]. pose proof (schema_plain _ _ Hok) as Hp.
  cbn [fits type_ok schema enc depth] in *. destruct Hok as [Hd Hok]. rewrite encode_option.
  assert (v = Null \/ v <> Null) as [->|Hne] by (destruct v; [by left|by right..]); [inversion Hx; subst; apply puts_u8|].
  assert (v' <> Null) as Hne' by (by inversion Hx; subst).
  assert (encodeOption (encode_ fuel) (render (typed "option" (schema t))) v' =
    (ProtoDefWriter.u8 1 ;;; encode_ fuel (render (schema t)) v')) as ->.
  { unfold encodeOption. rewrite (second_of_typed _ _ Hp). by destruct v'. }
  assert (enc (TOption t) parent v = [1] ++ enc t parent v) as E by by destruct v.
  cbn [enc] in E. rewrite E. apply puts_bind; [apply puts_u8|]. apply IH; [done|done| |done|lia]. by destruct v.
Qed.

Lemma extends_items l v' : extends (Array l) v' -> exists l', v' = Array l' /\ Forall2 extends l l'.
Proof.
  intros H. inversion H as [|? ? H0|? l' Hl]; subst; [|by exists l']. exists l. split; [done|].
  clear H. induction l as [|x l IH]; constructor; [apply extends_same|done].
Qed.

Lemma puts_items (f : ProtoDefValue -> bytes) g (P : ProtoDefValue -> Prop) l l' : Forall2 extends l l' -> foldr (fun x Q => P x /\ Q) True l ->
  (forall x x', P x -> extends x x' -> puts (g x') (f x)) -> puts (for_each l' g) (l ≫= f).
Proof.
  intros Hl HP Hg. induction Hl as [|x x' l l' Hx Hl IH]; [apply puts_ret|]. destruct HP as [Hp HP].
  cbn [for_each]. rewrite bind_cons. apply puts_bind; [by apply Hg|by apply IH].
Qed.

Lemma encodes_array ct t : encodes t -> encodes (TArray ct t).
Proof.
  intros IH [|fuel] parent v v' Hok _ Hv Hx Hf out; [cbn in Hf; lia|]. pose proof (schema_plain _ _ Hok) as Hp.
  cbn [fits type_ok schema enc depth] in *. destruct Hok as (Hct & Hd & Hok). destruct v as [| | | | | | | |l]; try done.
  destruct (extends_items l v' Hx) as (l' & -> & Hl). destruct Hv as [Hn Hv].
  rewrite encode_array. unfold encodeArray. rewrite (fields_found _ _ _ Hp).
  change (lookup_field "type" _) with (Some (schema t)). cbn [fmap option_fmap option_map].
  assert (size l' = size l) as Hs by (unfold size; by rewrite (Forall2_length Hl)).
  apply (puts_bind _ _ (itype_enc ct (size l))).
  - rewrite Hs. by apply (length_of _ _ ct _ _ Hp).
  - apply (puts_items _ _ (fits t parent) l l' Hl Hv). intros x x' Hx' He. apply IH; [done..|lia].
Qed.

(** ** Switches *)

Definition comparable (v : ProtoDefValue) : Prop := (exists b, v = Bool b) \/ (exists s, v = String_ s) \/ is_Some (int_value v).

Definition compare_ready (t : ptype) (parent : ProtoDefValue) : Prop :=
  match t with TSwitch c _ _ => exists v, get_value c parent = Some v /\ comparable v | _ => True end.

(** What stands for a field of a container in the recursion. *)
Definition encodes_field (t : ptype) : Prop := forall fuel es parent' name, let parent := Object es in
  type_ok resolver_ t -> plain name = true -> compare_ready t parent -> present t parent name -> fits t parent (field_value name parent) ->
  extends parent parent' -> (depth t <= fuel)%nat ->
  puts (encode_field (encode_ fuel) (Some name) (render (schema t)) false parent') (enc t parent (field_value name parent)).

Lemma not_a_switch t : direct t = true ->
  startsWith (render (schema t)) (kind_prefix "switch") || startsWith (render (schema t)) (kind_prefix "entityMetadataItem") = false.
Proof. by destruct t. Qed.

Lemma encodes_direct t : direct t = true -> encodes t -> encodes_field t.
Proof.
  intros Hd IH fuel es parent' name parent Hok Hn _ Hp Hv Hx Hf. unfold encode_field. rewrite trim_render, not_a_switch by done.
  assert (is_Some (get_value name parent)) as [child Hc] by by destruct t.
  rewrite (extends_get _ _ _ Hx Hn). unfold field_value in *. rewrite Hc in Hv |- *. cbn [default] in *.
  apply IH; [done..|apply withParent_extends|done].
Qed.

Lemma assoc_schema key bs : lookup_field key (branches_json bs) = schema <$> assoc key bs.
Proof. induction bs as [|[k t] bs IH]; [done|]. cbn. by destruct (bool_decide (k = key)). Qed.

Lemma enc_switch c bs d parent v : enc (TSwitch c bs d) parent v =
  match branch_of (switch_key (field_value c parent)) bs d with Some t => enc t parent v | None => [] end.
Proof.
  cbn [enc]. unfold branch_of. induction bs as [|[k t] bs IH]; [by destruct d|]. cbn [assoc].
  by destruct (bool_decide (k = _)).
Qed.

Lemma fits_switch c bs d parent v : fits (TSwitch c bs d) parent v ->
  let key := switch_key (field_value c parent) in
  plain key = true /\ (is_Some (assoc key bs) \/ absent key (JObject (branches_json bs)) = true) /\
  match branch_of key bs d with Some t => fits t parent v | None => True end.
Proof.
  cbn [fits]. intros (H1 & H2 & H3). split_and!; [done|done|]. clear H2. unfold branch_of. induction bs as [|[k t] bs IH]; [by destruct d|].
  cbn [assoc]. by destruct (bool_decide (k = _)); [|apply IH].
Qed.

(** The branch's type among the types of a switch. *)
Lemma branch_in (P : ptype -> Prop) key bs d t : Forall (fun b => P (snd b)) bs -> (forall t, d = Some t -> P t) ->
  branch_of key bs d = Some t -> P t.
Proof.
  intros Hb Hd. unfold branch_of. induction Hb as [|[k u] bs Hu _ IH]; [apply Hd|]. cbn [assoc].
  destruct (bool_decide (k = key)); [intros [= <-]; exact Hu|apply IH].
Qed.

Lemma depth_max (bs : list (string * ptype)) z f : (foldr (fun b n => Nat.max (depth (snd b)) n) z bs <= f)%nat ->
  Forall (fun b => depth (snd b) <= f)%nat bs /\ (z <= f)%nat.
Proof.
  induction bs as [|b bs IH]; cbn; intros H; [by split|]. destruct IH as [IH Hz]; [lia|]. split; [constructor; [lia|done]|done].
Qed.

Lemma branch_depth key c bs d t fuel : branch_of key bs d = Some t -> (depth (TSwitch c bs d) <= S fuel)%nat -> (depth t <= fuel)%nat.
Proof.
  intros Ht Hf. cbn [depth] in Hf. destruct (depth_max bs (match d with Some t => depth t | None => 0%nat end) fuel) as [H1 H2]; [lia|].
  eapply (branch_in (fun t => depth t <= fuel)%nat); [exact H1| |exact Ht]. by intros u ->.
Qed.

Lemma branch_ok c bs d key t : type_ok resolver_ (TSwitch c bs d) -> branch_of key bs d = Some t -> direct t = true /\ type_ok resolver_ t.
Proof.
  intros (_ & _ & _ & Hbs & Hd). apply (branch_in (fun t => direct t = true /\ type_ok resolver_ t)).
  - induction bs as [|b bs IH]; constructor; destruct Hbs as [(_ & H1 & H2) H3]; [done|by apply IH].
  - by intros u ->.
Qed.

Lemma found_branch c bs d key : type_ok resolver_ (TSwitch c bs d) -> plain key = true ->
  is_Some (assoc key bs) \/ absent key (JObject (branches_json bs)) = true ->
  branch_or_default variables_ (render (schema (TSwitch c bs d))) key = render ∘ schema <$> branch_of key bs d.
Proof.
  intros Hok Hk Hkey. pose proof (schema_plain _ _ Hok) as Hp. destruct Hok as (Hc & Hne & Hf & _ & _).
  unfold branch_or_default. change (schema (TSwitch c bs d)) with
    (dispatch_json c (branches_json bs) (match d with Some t => [("default", schema t)] | None => [] end)) in *.
  pose proof Hp as (_ & (_ & (_ & Hbs) & _) & _).
  rewrite (find_branch variables_ c (branches_json bs) _ key Hbs Hc Hne Hk Hf) by by rewrite assoc_schema, fmap_is_Some.
  rewrite assoc_schema. unfold branch_of. destruct (assoc key bs); [done|]. cbn [fmap option_fmap option_map].
  unfold dispatch_json. rewrite (fields_found _ _ _ Hp). by destruct d.
Qed.

Lemma switch_context_get es parent' name c : extends (Object es) parent' -> plain c = true ->
  get_value c (switch_context parent' name) = get_value c (Object es).
Proof.
  intros Hx Hc. rewrite <-(extends_get _ _ c Hx Hc). unfold switch_context.
  assert (exists es', parent' = Object es') as [es' ->] by (inversion Hx; by eexists).
  destruct (get_value name (Object es')); [|done]. apply get_set_entry, plain_not_special; [done|]. right. by left.
Qed.

Lemma switch_context_object es parent' name : extends (Object es) parent' -> exists es', switch_context parent' name = Object es'.
Proof.
  intros Hx. assert (exists es', parent' = Object es') as [es' ->] by (inversion Hx; by eexists).
  unfold switch_context. destruct (get_value name (Object es')); by eexists.
Qed.

Lemma encode_void fuel v : (1 <= fuel)%nat -> puts (encode_ fuel (render (schema (TPrim PVoid))) v) [].
Proof. destruct fuel; [lia|]. intros _ out. cbn [schema prim_name]. rewrite encode_name. by rewrite app_nil_r. Qed.

(** The branch, on the value that the container put into the object. *)
Lemma encodes_branch t fuel es parent' name : let parent := Object es in encodes t -> type_ok resolver_ t -> direct t = true ->
  plain name = true -> fits t parent (field_value name parent) -> (t = TPrim PVoid \/ is_Some (get_value name parent)) ->
  extends parent parent' -> (depth t <= fuel)%nat ->
  puts (encode_branch (encode_ fuel) (render (schema t)) (switch_context parent' name)) (enc t parent (field_value name parent)).
Proof.
  intros parent IH Hok Hd Hn Hv Hp Hx Hf. unfold encode_branch.
  assert (exists es', parent' = Object es') as [es' E] by (inversion Hx; by eexists).
  pose proof (extends_get _ _ _ Hx Hn) as Hg. destruct (get_value name parent) as [child|] eqn:Hc.
  - unfold switch_context. rewrite E in *. rewrite Hg, get_set_here. unfold field_value in *. rewrite Hc in Hv |- *.
    apply IH; [done..|apply withParent_extends|done].
  - destruct Hp as [->|[? ?]]; [|done]. pose proof (depth_pos (TPrim PVoid)).
    destruct (get_value "$value" _); apply encode_void; cbn in *; lia.
Qed.

Lemma encodes_switch c bs d : Forall (fun b => encodes (snd b)) bs -> (forall t, d = Some t -> encodes t) -> encodes_field (TSwitch c bs d).
Proof.
  intros IH IHd [|fuel] es parent' name parent Hok Hn (cv & Hcv & Hk) Hp Hv Hx Hf out; [cbn in Hf; lia|].
  destruct (fits_switch _ _ _ _ _ Hv) as (Hkey & Hfound & Hfit). rewrite enc_switch.
  pose proof Hok as (Hc & _ & _ & _ & _). pose proof (schema_plain _ _ Hok) as Hpl.
  unfold encode_field. rewrite trim_render. change (startsWith (render (schema (TSwitch c bs d))) (kind_prefix "switch")) with true. cbn [orb].
  destruct (switch_context_object es parent' name Hx) as [es' Ectx].
  pose proof (switch_context_get es parent' name c Hx Hc) as Hcg. fold parent in Hcg. rewrite Hcv in Hcg.
  assert (switch_key (field_value c parent) = switch_key cv) as Ek by (unfold field_value; by rewrite Hcv).
  pose proof (found_branch c bs d _ Hok Hkey Hfound) as Hbr.
  assert (encode_ (S fuel) (render (schema (TSwitch c bs d))) (switch_context parent' name) out =
    match branch_or_default variables_ (render (schema (TSwitch c bs d))) (switch_key cv) with
    | None => ret tt | Some branch => encode_branch (encode_ fuel) branch (switch_context parent' name) end out) as ->.
  { change (schema (TSwitch c bs d)) with (typed_object "switch" (("compareTo", JString c) :: ("fields", JObject (branches_json bs)) ::
      match d with Some t => [("default", schema t)] | None => [] end)) in *. rewrite encode_switch. unfold encodeSwitch. rewrite Ectx in *.
    rewrite !(string_found _ _ _ Hpl). assert (lookup_string "compareToValue" (("compareTo", JString c) :: ("fields", JObject (branches_json bs)) ::
      match d with Some t => [("default", schema t)] | None => [] end) = None) as -> by by destruct d.
    change (lookup_string "compareTo" _) with (Some c). cbn iota.
    rewrite bind_assoc, (resolve_plain _ _ _ Hc Hcg Hk), bind_lift. by rewrite bind_ret. }
  rewrite <-Ek, Hbr. unfold present in Hp.
  destruct (branch_of _ bs d) as [t|] eqn:Eb; cbn [fmap option_fmap option_map compose]; [|by apply puts_ret].
  destruct (branch_ok _ _ _ _ _ Hok Eb) as [Hd Ht].
  apply encodes_branch; [|done..| |done|by eapply branch_depth].
  - by apply (branch_in encodes (switch_key (field_value c parent)) bs d).
  - destruct t as [[]| | | | | | | |]; (by left) || by right.
Qed.

(** ** Containers *)

Lemma keyed_comparable t parent v : keyed t = true -> fits t parent v -> comparable v.
Proof.
  induction t as [p|base ms|ct|ct|t IH|ct t IH|fs IH|c bs d IH IHd|n t IH] using type_induction; try done; cbn [keyed fits]; intros Hk Hv;
    [destruct p; try done; cbn [prim_fits] in Hv|].
  - left. destruct v; try done. by eexists.
  - right. left. destruct v; try done. by eexists.
  - right. right. destruct (int_value v); [by eexists|done].
  - right. left. destruct v; try done. by eexists.
Qed.

(** The fields of the list that is left to read, behind a bracket or a comma. *)
Definition list_text (lead : Z) (l : list json) : text :=
  match l with [] => [] | x :: l' => ascii_of_byte lead :: render x ++ (l' ≫= (fun x => ascii_of_byte 44 :: render x)) end.

Lemma list_text_next l : l ≫= (fun x => ascii_of_byte 44 :: render x) = list_text 44 l.
Proof. by destruct l. Qed.

Lemma commas_flat x l : comma_separated (map render (x :: l)) = render x ++ (l ≫= (fun x => ascii_of_byte 44 :: render x)).
Proof.
  revert x. induction l as [|y l IH]; intros x; [cbn; by rewrite app_nil_r|].
  change (comma_separated (map render (x :: y :: l))) with (render x ++ chars "," ++ comma_separated (map render (y :: l))).
  rewrite IH, bind_cons. done.
Qed.

Lemma list_start l : exists rest, render (JList l) = list_text 91 l ++ rest /\ no_char 123 rest.
Proof.
  destruct l as [|x l]; [by exists (chars "[]"); split; [|repeat constructor]|].
  exists [ascii_of_byte 93]. split; [|by repeat constructor]. cbn [render]. unfold bracketed. rewrite commas_flat. cbn [list_text app].
  by rewrite <-app_assoc.
Qed.

(** One round over the fields. *)
Lemma next_field what (s : text) pos lead x l rest : json_plain x -> (exists fs, x = JObject fs) -> lead = 91 \/ lead = 44 ->
  drop pos s = list_text lead (x :: l) ++ rest ->
  exists pos', next_object what s pos = Ok (Some (render x, pos')) /\ drop pos' s = list_text 44 l ++ rest.
Proof.
  intros Hx [fs ->] Hl Hd. cbn [list_text] in Hd. rewrite list_text_next in Hd. cbn [app] in Hd. rewrite <-app_assoc in Hd.
  eexists. split.
  - apply (next_object_ok what s pos [ascii_of_byte lead] fs (list_text 44 l ++ rest) Hx); [|exact Hd]. by destruct Hl as [->| ->]; repeat constructor.
  - pose proof (drop_past s pos [ascii_of_byte lead] _ Hd) as H1. exact (drop_past s _ _ _ H1).
Qed.

Lemma field_parts n j : plain n = true -> json_plain j ->
  readJsonStringField (render (field_json n j)) "name" = Some n /\ readJsonBoolField (render (field_json n j)) "anon" = None /\
  readJsonValueField (render (field_json n j)) "type" = Some (render j).
Proof.
  intros Hn Hj. assert (json_plain (field_json n j)) as Hp by (cbn; split_and!; done).
  unfold field_json in *. split_and!.
  - by rewrite (string_field _ _ "name" (field_of_record _ "name" Hp)).
  - by rewrite (bool_field _ _ "anon" (field_of_record _ "anon" Hp)).
  - by rewrite (field_of_record _ "type" Hp).
Qed.

Definition fields_json (fs : list (string * ptype)) : list json := map (fun f => field_json (fst f) (schema (snd f))) fs.

Lemma fields_loop_ok rec (s : text) v (f : string * ptype -> bytes) fs : forall fuel pos lead rest,
  Forall (fun g => plain (fst g) = true /\ json_plain (schema (snd g)) /\
    puts (encode_field rec (Some (fst g)) (render (schema (snd g))) false v) (f g)) fs ->
  no_char 123 rest -> lead = 91 \/ lead = 44 -> drop pos s = list_text lead (fields_json fs) ++ rest -> (length fs < fuel)%nat ->
  puts (fields_loop rec fuel s v pos) (fs ≫= f).
Proof.
  induction fs as [|g fs IH]; intros [|fuel] pos lead rest Hfs Hr Hl Hd Hf out; try (exfalso; cbn in Hf; lia); cbn [fields_loop].
  - rewrite next_object_none, bind_lift by by rewrite Hd. apply puts_ret.
  - inversion Hfs as [|? ? (Hn & Hj & Hg) Hrest]; subst.
    destruct (next_field "container" s pos lead (field_json (fst g) (schema (snd g))) (fields_json fs) rest) as (pos' & E & Hd'); [by cbn; split_and!|by eexists|done|done|].
    rewrite E, bind_lift. destruct (field_parts _ _ Hn Hj) as (-> & -> & ->). cbn [default].
    rewrite bind_cons. apply puts_bind; [|apply (IH fuel pos' 44 rest); auto; cbn in Hf; lia].
    intros out'. unfold catch. by rewrite Hg.
Qed.

Definition fields_fit (fs : list (string * ptype)) (v : ProtoDefValue) : Prop :=
  foldr (fun f P => (present (snd f) v (fst f) /\ fits (snd f) v (field_value (fst f) v)) /\ P) True fs.

Lemma compares_ready v fs : forall earlier, compares earlier fs = true -> fields_fit fs v ->
  (forall c, c ∈ earlier -> exists u, get_value c v = Some u /\ comparable u) -> Forall (fun f => compare_ready (snd f) v) fs.
Proof.
  induction fs as [|[n t] fs IH]; intros earlier Hc Hv He; [constructor|].
  cbn [compares] in Hc. apply andb_true_iff in Hc as [Hc Hcs]. destruct Hv as [[Hp Hv] Hvs]. cbn [fst snd] in *. constructor.
  - destruct t; try done. apply bool_decide_eq_true in Hc. by apply He.
  - apply (IH _ Hcs Hvs). intros c. destruct (keyed t) eqn:Hk; [|apply He]. intros Hin. apply elem_of_cons in Hin as [->|Hin]; [|by apply He].
    assert (is_Some (get_value n v)) as [u Hu] by by destruct t. exists u. split; [done|].
    unfold field_value in Hv. rewrite Hu in Hv. by eapply keyed_comparable.
Qed.

Lemma container_fields fs : type_ok resolver_ (TContainer fs) ->
  Forall (fun f => plain (fst f) = true /\ type_ok resolver_ (snd f)) fs.
Proof. intros (_ & _ & H). induction fs as [|f fs IH]; constructor; destruct H as [[H1 H2] H3]; [done|by apply IH]. Qed.

Lemma fields_length fs : (length fs <= length (render (JList (fields_json fs))))%nat.
Proof.
  destruct (list_start (fields_json fs)) as (rest & -> & _). rewrite length_app.
  enough (forall lead, length fs <= length (list_text lead (fields_json fs)))%nat as H by (specialize (H 91); lia).
  induction fs as [|f fs IH]; intros lead; [cbn; lia|]. cbn [fields_json map list_text]. rewrite list_text_next. cbn [length].
  rewrite length_app. specialize (IH 44). unfold fields_json in IH. lia.
Qed.

Lemma encodes_container fs : Forall (fun f => encodes_field (snd f)) fs -> encodes (TContainer fs).
Proof.
  intros IH [|fuel] parent v v' Hok _ Hv Hx Hf out; [cbn in Hf; lia|]. pose proof (schema_plain _ _ Hok) as Hp.
  pose proof (container_fields fs Hok) as Hfs. destruct Hok as (_ & Hcmp & _).
  cbn [fits] in Hv. destruct v as [| | | | | | |es|]; try done.
  pose proof (compares_ready _ fs [] Hcmp Hv ltac:(intros c Hc; by apply elem_of_nil in Hc)) as Hready.
  cbn [depth] in Hf. destruct (depth_max fs 0%nat fuel ltac:(lia)) as [Hdepth _].
  change (schema (TContainer fs)) with (typed "container" (JList (fields_json fs))) in *.
  cbn [enc]. rewrite encode_container.
  assert (exists es', v' = Object es') as [es' Ev] by (inversion Hx; by eexists).
  assert (encodeContainer (encode_ fuel) (render (typed "container" (JList (fields_json fs)))) v' =
    fields_loop (encode_ fuel) (S (length (render (JList (fields_json fs))))) (render (JList (fields_json fs))) v' 0) as ->.
  { unfold encodeContainer. rewrite (second_array_of_typed _ _ Hp). by rewrite Ev. }
  destruct (list_start (fields_json fs)) as (rest & Hs & Hr).
  apply (fields_loop_ok _ _ v' (fun f => enc (snd f) (Object es) (field_value (fst f) (Object es))) fs _ 0 91 rest); [|done|by left|exact Hs|].
  - rewrite list.Forall_forall in *. intros [n t] Hin. cbn [fst snd].
    destruct (Hfs _ Hin) as [Hn Ht]. split_and!; [done|by eapply schema_plain|].
    assert (present t (Object es) n /\ fits t (Object es) (field_value n (Object es))) as [Hpr Hfit].
    { clear - Hv Hin. induction fs as [|f fs IH]; [by apply elem_of_nil in Hin|]. destruct Hv as [H1 H2].
      apply elem_of_cons in Hin as [<-|Hin]; [done|by apply IH]. }
    apply (IH _ Hin fuel es v' n); [done|done|by apply (Hready _ Hin)|done|done|done|by apply (Hdepth _ Hin)].
  - pose proof (fields_length fs). lia.
Qed.

(** Every type, as a field and by itself. *)
Theorem encode_type_ok t : (direct t = true -> encodes t) /\ encodes_field t.
Proof.
  assert (forall t, encodes t -> direct t = true -> (direct t = true -> encodes t) /\ encodes_field t) as Hd.
  { intros u Hu Du. split; [done|by apply encodes_direct]. }
  induction t as [p|base ms|ct|ct|t [IH _]|ct t [IH _]|fs IH|c bs d IH IHd|n t [IH _]] using type_induction.
  - apply Hd; [apply encodes_prim|done].
  - apply Hd; [apply encodes_mapper|done].
  - apply Hd; [apply encodes_pstring|done].
  - apply Hd; [apply encodes_buffer|done].
  - apply Hd; [|done]. intros fuel parent v v' Hok. destruct (direct t) eqn:E; [by apply (encodes_option t (IH eq_refl))|].
    destruct Hok as [? _]. congruence.
  - apply Hd; [|done]. intros fuel parent v v' Hok. destruct (direct t) eqn:E; [by apply (encodes_array ct t (IH eq_refl))|].
    destruct Hok as (_ & ? & _). congruence.
  - apply Hd; [|done]. apply encodes_container. eapply Forall_impl; [|exact IH]. by intros f [].
  - split; [done|]. intros fuel es parent' name parent Hok.
    assert (Forall (fun b => encodes (snd b)) bs) as Hbs.
    { destruct Hok as (_ & _ & _ & H & _). clear - IH H. induction IH as [|b bs [Hb _] _ IHb]; constructor; destruct H as [(_ & H1 & _) H2];
        [by apply Hb|by apply IHb]. }
    apply (encodes_switch c bs d Hbs); [|done]. intros t ->. destruct Hok as (_ & _ & _ & _ & H & _). by apply (IHd t eq_refl).
  - apply Hd; [|done]. intros fuel parent v v' Hok. destruct (direct t) eqn:E; [by apply (encodes_named n t (IH eq_refl))|].
    destruct Hok as (_ & _ & _ & ? & _). congruence.
Qed.
End Encodes.
