(* ===== verification/ProtoDefDecodes.v ===== *)
(** * The decoder on schemas by structure

    Where the bytes [enc] of a value stand in a packet, [ProtoDefDecoder::decode]
    with the text of the type collects the fields [flds] of the value and stops
    behind the bytes.  The context is left alone but for the paths of the type's
    own fields and the last names of these paths ([untouched]). *)

From S2P Require Import Prelude MachineInt Leb128 Endian ZigZag FloatBits GamePacket Text FloatText Nbt ProtoDefData ProtoDefJson.
From S2P Require Import ProtoDefText ProtoDefStream ProtoDefNbt ProtoDefEncoder ProtoDefDecoder ProtoDefSchema ProtoDefTypes ProtoDefEncodes.

Import ProtoDefJson ProtoDefText ProtoDefContext ProtoDefDecoder.

(** The schema's names, not the decoder's values. *)
Abbreviation plain := ProtoDefSchema.plain.

(** ** Reading without a change of the context *)

Section Reads.
Context (d : bytes) (Hd : is_bytes d).

Definition reads_off {A} (m : M state A) (k : bytes) (a : A) : Prop := forall o fs c r,
  offset_valid d o -> offset_rest d o = k ++ r -> m (mkState o fs c) = (Ok a, mkState (o + size k) fs c).

Lemma off_next o k r : offset_valid d o -> offset_rest d o = k ++ r -> offset_valid d (o + size k) /\ offset_rest d (o + size k) = r.
Proof. intros Ho Hr. exact (skip_rest (fetch := fetch_at d OutOfFuel) (skip := offset_skip) (eof := OutOfFuel) k o r Ho Hr). Qed.

Lemma reads_rd {A} (m : M Z A) k a : takes d m k a -> reads_off (rd m) k a.
Proof.
  intros H o fs c r Ho Hr. unfold rd, zoom. cbn [offset_]. rewrite (H o r Ho ltac:(unfold offset_rest; by apply Forall_drop) Hr). done.
Qed.
Lemma reads_ret {A} (a : A) : reads_off (ret a) [] a.
Proof. intros o fs c r _ _. by rewrite size_nil, Z.add_0_r. Qed.
Lemma reads_bind {A B} (m : M state A) (f : A -> M state B) k1 k2 a b :
  reads_off m k1 a -> reads_off (f a) k2 b -> reads_off (bind m f) (k1 ++ k2) b.
Proof.
  intros H1 H2 o fs c r Ho Hr. rewrite <-app_assoc in Hr. rewrite (bind_ok _ _ _ _ _ (H1 o fs c _ Ho Hr)).
  destruct (off_next o k1 _ Ho Hr) as [Ho' Hr']. rewrite (H2 _ fs c r Ho' Hr'). by rewrite size_app, Z.add_assoc.
Qed.
Lemma reads_map {A B} (m : M state A) (g : A -> B) k a : reads_off m k a -> reads_off (let* x := m in ret (g x)) k (g a).
Proof. intros H. rewrite <-(app_nil_r k). eapply reads_bind; [exact H|apply reads_ret]. Qed.

Lemma remaining_here o fs c k r : offset_valid d o -> offset_rest d o = k ++ r ->
  remaining d (mkState o fs c) = (Ok (size k + size r), mkState o fs c).
Proof.
  intros Ho Hr. unfold remaining, rd, zoom, ProtoDefReader.remaining. cbn [offset_]. rewrite remaining_at, Hr, size_app by done. done.
Qed.

(** Past a test of what remains. *)
Lemma reads_remaining {A} (f : Z -> M state A) k a : (forall n, size k <= n -> reads_off (f n) k a) -> reads_off (bind (remaining d) f) k a.
Proof.
  intros H o fs c r Ho Hr. rewrite (bind_ok _ _ _ _ _ (remaining_here o fs c k r Ho Hr)). pose proof (size_nonneg r).
  apply (H (size k + size r) ltac:(lia) o fs c r Ho Hr).
Qed.

(** ** Integers *)

Definition itype_read (i : itype) : M Z Z :=
  match i with
  | U8 | LU8 => ProtoDefReader.u8 d
  | I8 => let* v := ProtoDefReader.u8 d in ret (to_i8 v)
  | U16 => ProtoDefReader.u16be d | LU16 => ProtoDefReader.u16le d
  | I16 => let* v := ProtoDefReader.u16be d in ret (to_i16 v)
  | LI16 => let* v := ProtoDefReader.u16le d in ret (to_i16 v)
  | U32 => ProtoDefReader.u32be d | LU32 => ProtoDefReader.u32le d
  | I32 => ProtoDefReader.i32be d | LI32 => ProtoDefReader.i32le d
  | U64 => ProtoDefReader.u64be d | LU64 => ProtoDefReader.u64le d
  | I64 => ProtoDefReader.i64be d | LI64 => ProtoDefReader.i64le d
  | Varint => ProtoDefReader.varuint32 d | Varint64 => ProtoDefReader.varuint64 d
  | ZigZag32 => ProtoDefReader.zigzag32 d | ZigZag64 => ProtoDefReader.zigzag64 d
  end.

Lemma takes_itype i n : in_range i n -> takes d (itype_read i) (itype_enc i n) n.
Proof.
  intros Hn. assert (forall w, is_u w (n mod 2 ^ w) \/ w < 0) as Hw.
  { intros w. destruct (Z.le_gt_cases 0 w); [left; by apply to_u_range|by right]. }
  destruct i; cbn [in_range itype_read itype_enc] in *; unfold big;
    try (rewrite Z.mod_small by done);
    first [by apply takes_u8|by apply takes_u16be|by apply takes_u16le|by apply takes_u32be|by apply takes_u32le
          |by apply takes_u64be|by apply takes_u64le|by apply takes_varuint32|by apply takes_varuint64|by apply takes_zigzag32
          |by apply takes_zigzag64|idtac].
  - apply (takes_signed d _ 8); [lia|done|]. apply takes_u8. by destruct (Hw 8).
  - apply (takes_signed d _ 16); [lia|done|]. apply takes_u16be. by destruct (Hw 16).
  - apply (takes_signed d _ 16); [lia|done|]. apply takes_u16le. by destruct (Hw 16).
  - apply (takes_signed d _ 32); [lia|done|]. apply takes_u32be. by destruct (Hw 32).
  - apply (takes_signed d _ 32); [lia|done|]. apply takes_u32le. by destruct (Hw 32).
  - apply (takes_signed d _ 64); [lia|done|]. apply takes_u64be. by destruct (Hw 64).
  - apply (takes_signed d _ 64); [lia|done|]. apply takes_u64le. by destruct (Hw 64).
Qed.

Lemma signed_nonneg n : 0 <= n -> signed_text n = to_string n.
Proof. intros H. unfold signed_text. by rewrite (proj2 (Z.ltb_ge _ _)). Qed.

Lemma reads_unsigned m k n : 0 <= n -> takes d m k n -> reads_off (unsigned m) k (signed_text n, None).
Proof.
  intros Hn H. rewrite signed_nonneg by done. unfold unsigned.
  apply (reads_map (rd m) (fun v => (to_string v, None)) k n). by apply reads_rd.
Qed.
Lemma reads_signed_text m k n : takes d m k n -> reads_off (signed m) k (signed_text n, None).
Proof. intros H. apply (reads_map (rd m) (fun v => (signed_text v, None)) k n). by apply reads_rd. Qed.
Lemma reads_plain m k s : reads_off m k s -> reads_off (ProtoDefDecoder.plain m) k (s, None).
Proof. intros H. by apply (reads_map m (fun s => (s, None)) k s). Qed.

(** A word whose sign is read off afterwards. *)
Lemma reads_sign w (m : M Z Z) k n : 0 < w -> is_s w n -> takes d m k (n mod 2 ^ w) ->
  reads_off (let* v := rd m in ret (signed_text (to_signed w v))) k (signed_text n).
Proof.
  intros Hw Hn H. pose proof (reads_map (rd m) (fun v => signed_text (to_signed w v)) k _ (reads_rd _ _ _ H)) as H'.
  cbn beta in H'. by rewrite to_signed_mod in H'.
Qed.

Lemma is_u_mod w n : 0 <= w -> is_u w (n mod 2 ^ w).
Proof. apply to_u_range. Qed.

Lemma leb_32_64 n : is_u 32 n -> leb_encode 5 n = leb_encode 10 n.
Proof. intros Hn. symmetry. apply (leb_encode_enough 4 5), (u32_fits_5 n Hn). Qed.

Lemma reads_itype i n path : in_range i n ->
  exists m, primitive_value d (itype_name i) path = Some m /\ reads_off m (itype_enc i n) (signed_text n, None).
Proof.
  intros Hn. pose proof (takes_itype i n Hn) as Ht.
  assert (reads_off (let* r := remaining d in if r <? 1 then ret ("<missing:u8>", None) else unsigned (ProtoDefReader.u8 d)) [n mod 2 ^ 8] (signed_text n, None)
    \/ ~ is_u 8 n) as Hu8.
  { destruct (decide (is_u 8 n)) as [H8|]; [left|by right]. apply reads_remaining. intros r Hr. rewrite size_cons, size_nil in Hr.
    rewrite (proj2 (Z.ltb_ge _ _)) by lia. rewrite Z.mod_small by done. apply reads_unsigned; [apply H8|by apply takes_u8]. }
  destruct i; cbn [in_range] in Hn; (eexists; split; [reflexivity|]); cbn [itype_enc itype_read] in *; unfold big in *.
  - by destruct Hu8.
  - by destruct Hu8.
  - apply reads_plain, (reads_sign 8); [lia|done|]. by apply takes_u8, is_u_mod.
  - by apply reads_unsigned; [apply Hn|].
  - by apply reads_unsigned; [apply Hn|].
  - apply reads_plain, (reads_sign 16); [lia|done|]. by apply takes_u16be, is_u_mod.
  - apply reads_plain, (reads_sign 16); [lia|done|]. by apply takes_u16le, is_u_mod.
  - by apply reads_unsigned; [apply Hn|].
  - by apply reads_unsigned; [apply Hn|].
  - by apply reads_signed_text.
  - by apply reads_signed_text.
  - by apply reads_unsigned; [apply Hn|].
  - by apply reads_unsigned; [apply Hn|].
  - by apply reads_signed_text.
  - by apply reads_signed_text.
  - destruct (is_runtime_id path); apply reads_unsigned; try apply Hn; [|done]. rewrite leb_32_64 by done. apply takes_varuint64.
    unfold is_u in *. change (2 ^ 32) with 4294967296 in Hn. change (2 ^ 64) with 18446744073709551616. lia.
  - by apply reads_unsigned; [apply Hn|].
  - by apply reads_signed_text.
  - by apply reads_signed_text.
Qed.

(** The number of a mapper and a count are read the same way. *)
Lemma reads_text m k n : 0 <= n -> takes d m k n -> reads_off (let* v := rd m in ret (to_string v)) k (signed_text n).
Proof. intros Hn H. rewrite signed_nonneg by done. by apply (reads_map (rd m) to_string k n), reads_rd. Qed.

Lemma reads_mapped i n : maps i = true -> in_range i n -> reads_off (mapper_numeric d (itype_name i)) (itype_enc i n) (signed_text n).
Proof.
  intros Hi Hn. pose proof (takes_itype i n Hn) as Ht.
  assert (is_u 8 n -> reads_off (let* v := rd (ProtoDefReader.tryU8 d) in ret (match v with None => "<missing:u8>" | Some v => to_string v end)) [n mod 2 ^ 8]
    (signed_text n)) as Hu8.
  { intros H8. rewrite signed_nonneg by apply H8. rewrite Z.mod_small by done.
    apply (reads_map (rd (ProtoDefReader.tryU8 d)) (fun v => match v with None => "<missing:u8>" | Some v => to_string v end) [n] (Some n)).
    apply reads_rd. intros o r Ho Hb Hr. unfold ProtoDefReader.tryU8, ProtoDefReader.remaining.
    rewrite (bind_ok _ _ _ _ _ (remaining_at d o Ho)), Hr, size_app, size_cons, size_nil. pose proof (size_nonneg r).
    rewrite (proj2 (Z.ltb_ge _ _)) by lia. by rewrite (bind_ok _ _ _ _ _ (takes_u8 d n H8 o r Ho Hb Hr)). }
  destruct i; try done; cbn [in_range] in Hn; cbn [itype_enc itype_read] in *; unfold big in *.
  - by apply Hu8.
  - by apply Hu8.
  - apply (reads_sign 8); [lia|done|]. by apply takes_u8, is_u_mod.
  - by apply reads_text; [apply Hn|].
  - by apply reads_text; [apply Hn|].
  - apply (reads_sign 16); [lia|done|]. by apply takes_u16be, is_u_mod.
  - apply (reads_sign 16); [lia|done|]. by apply takes_u16le, is_u_mod.
  - by apply reads_text; [apply Hn|].
  - by apply reads_text; [apply Hn|].
  - by apply (reads_map (rd _) signed_text _ n), reads_rd.
  - by apply (reads_map (rd _) signed_text _ n), reads_rd.
  - by apply reads_text; [apply Hn|].
  - by apply reads_text; [apply Hn|].
  - by apply (reads_map (rd _) signed_text _ n), reads_rd.
Qed.

Lemma reads_count i n b owner : counts i = true -> in_range i n -> reads_off (readCount d (itype_name i) b owner) (itype_enc i n) n.
Proof.
  intros Hi Hn. pose proof (takes_itype i n Hn) as Ht.
  assert (forall w m k, 0 < w -> is_s w n -> takes d m k (n mod 2 ^ w) -> reads_off (let* v := rd m in ret (to_signed w v)) k n) as Hs.
  { intros w m k Hw Hnw H. pose proof (reads_map (rd m) (to_signed w) k _ (reads_rd _ _ _ H)) as H'. cbn beta in H'. by rewrite to_signed_mod in H'. }
  destruct i; try done; cbn [in_range] in Hn; cbn [itype_enc itype_read] in *; unfold big in *; try by apply (reads_rd _ _ n).
  - apply (Hs 16); [lia|done|]. by apply takes_u16be, is_u_mod.
  - apply (Hs 16); [lia|done|]. by apply takes_u16le, is_u_mod.
Qed.

Lemma reads_prim p v path : prim_fits p v ->
  exists m, primitive_value d (prim_name p) path = Some m /\ reads_off m (prim_enc p v) (prim_text p v, None).
Proof.
  intros Hv. destruct p as [| | |i|little|little]; cbn [prim_fits] in Hv.
  - eexists. split; [reflexivity|]. apply reads_plain, reads_ret.
  - destruct v as [|b| | | | | | |]; try done. eexists. split; [reflexivity|]. apply reads_plain.
    apply (reads_map (rd (ProtoDefReader.boolean d)) (fun b : bool => if b then "true" else "false") _ b). by apply reads_rd, takes_bool.
  - destruct v as [| | | | |s| | |]; try done. eexists. split; [reflexivity|]. by apply reads_plain, reads_rd, takes_string.
  - destruct (int_value v) as [n|] eqn:E; [|done]. destruct (reads_itype i n path Hv) as (m & E1 & E2). exists m. split; [done|].
    unfold prim_enc, prim_text. by rewrite E.
  - destruct v as [| | | |b| | | |]; try done. destruct little; (eexists; split; [reflexivity|]); apply reads_plain;
      apply (reads_map (rd _) float_text _ (f32_of_f64 b)), reads_rd; [by apply takes_u32le|by apply takes_u32be].
  - destruct v as [| | | |b| | | |]; try done. destruct little; (eexists; split; [reflexivity|]); apply reads_plain;
      apply (reads_map (rd _) to_string_f64 _ b), reads_rd; [by apply takes_u64le|by apply takes_u64be].
Qed.
End Reads.

(** ** Paths *)

Definition dotless (s : string) : Prop := no_char 46 (chars s).

Lemma plain_dotless n : plain n = true -> dotless n.
Proof. intros H. apply plain_other; [done|]. repeat (left || right). Qed.

Lemma dot_char c : is_char 46 c = false -> c <> ascii_of_byte 46.
Proof. by intros H ->. Qed.

Lemma rfind_none d s : Forall (fun c => c <> d) (chars s) -> rfind_char d s = None.
Proof.
  induction s as [|c s IH]; [done|]. cbn [chars rfind_char]. intros H. inversion H as [|? ? Hc Hs]; subst. rewrite IH by done. by rewrite decide_False.
Qed.

Lemma rfind_last d s n : Forall (fun c => c <> d) (chars n) -> rfind_char d (s +:+ String d n) = Some (String.length s).
Proof.
  intros Hn. induction s as [|c s IH].
  - rewrite app_empty. cbn [rfind_char]. rewrite rfind_none by done. by rewrite decide_True.
  - rewrite app_cons. cbn [rfind_char]. by rewrite IH.
Qed.

Lemma rfind_behind d s i : rfind_char d s = Some i -> Forall (fun c => c <> d) (drop (S i) (chars s)).
Proof.
  assert (forall s, rfind_char d s = None -> Forall (fun c => c <> d) (chars s)) as Hnone.
  { clear. intros s. induction s as [|c s IH]; [by constructor|]. cbn [rfind_char chars]. destruct (rfind_char d s) eqn:E; [done|].
    destruct (decide (c = d)) as [|Hne]; [done|]. intros _. constructor; [done|by apply IH]. }
  revert i. induction s as [|c s IH]; intros i; [done|]. cbn [rfind_char chars]. destruct (rfind_char d s) as [j|] eqn:E.
  - intros [= <-]. by apply IH.
  - destruct (decide (c = d)); [|done]. intros [= <-]. cbn [drop]. by apply Hnone.
Qed.

Lemma dotless_iff s : dotless s <-> Forall (fun c => c <> ascii_of_byte 46) (chars s).
Proof.
  split; intros H; (eapply Forall_impl; [|exact H]); intros c Hc; [by apply dot_char|].
  unfold is_char. apply Z.eqb_neq. intros E. apply Hc. by rewrite <-E, ascii_of_byte_of_ascii.
Qed.

Lemma length_chars s : length (chars s) = String.length s.
Proof. induction s as [|c s IH]; [done|]. cbn. by rewrite IH. Qed.

Lemma drop_chars s r : drop (String.length s) (chars (s +:+ r)) = chars r.
Proof. rewrite list_ascii_app, <-length_chars. apply drop_app_length. Qed.

Lemma take_chars s r : str (take (String.length s) (chars (s +:+ r))) = s.
Proof. rewrite list_ascii_app, <-length_chars, take_app_length. apply str_chars. Qed.

Lemma short_key_last s n : dotless n -> n <> "" -> short_key (s +:+ "." +:+ n) = Some n.
Proof.
  intros Hn Hne. apply dotless_iff in Hn. unfold short_key.
  change (s +:+ "." +:+ n) with (s +:+ String (ascii_of_byte 46) n). rewrite (rfind_last _ s n Hn), length_append. cbn [String.length].
  destruct n as [|c n]; [done|]. rewrite (proj2 (Nat.ltb_lt _ _)) by (cbn [String.length]; lia).
  change (s +:+ String (ascii_of_byte 46) (String c n)) with (s +:+ "." +:+ String c n). f_equal. pose proof (drop_chars (s +:+ ".") (String c n)) as H. rewrite append_assoc in H. rewrite length_append in H. cbn [String.length] in H.
  rewrite Nat.add_1_r in H. rewrite H. apply str_chars.
Qed.

Lemma short_key_none n : dotless n -> short_key n = None.
Proof. intros H. unfold short_key. apply dotless_iff in H. by rewrite rfind_none. Qed.

Lemma short_key_spec k s : short_key k = Some s -> dotless s /\ exists q, chars k = q ++ chars s /\ s <> "".
Proof.
  unfold short_key. destruct (rfind_char _ k) as [i|] eqn:E; [|done]. destruct (Nat.ltb_spec (S i) (String.length k)) as [Hl|]; [|done].
  intros [= <-]. rewrite dotless_iff, chars_str. split; [by apply rfind_behind|]. exists (take (S i) (chars k)).
  split; [by rewrite take_drop|]. intros H. apply (f_equal chars) in H. rewrite chars_str in H. apply (f_equal length) in H.
  rewrite length_drop, length_chars in H. cbn in H. lia.
Qed.

(** [K] is the path [p] or inside it. *)
Definition under (p K : string) : Prop := exists r, K = p +:+ r /\ (r = "" \/ exists r', r = "." +:+ r' \/ r = "[" +:+ r').

Lemma under_refl p : under p p.
Proof. exists "". split; [by rewrite app_empty_r|by left]. Qed.
Lemma under_dot p r : under p (p +:+ "." +:+ r).
Proof. exists ("." +:+ r). split; [done|]. right. exists r. by left. Qed.
Lemma under_index p i : under p (index_path p i).
Proof. unfold index_path. exists ("[" +:+ to_string i +:+ "]"). split; [done|]. right. eexists. by right. Qed.
Lemma under_trans p q K : under p q -> under q K -> under p K.
Proof.
  intros (r1 & -> & H1) (r2 & -> & H2). exists (r1 +:+ r2). split; [by rewrite append_assoc|].
  destruct H1 as [->|(r' & [->| ->])]; [by rewrite app_empty|right..]; eexists; [left|right]; by rewrite append_assoc.
Qed.

Lemma append_inj p a b : p +:+ a = p +:+ b -> a = b.
Proof. intros H. apply (f_equal chars) in H. rewrite !list_ascii_app in H. apply app_inv_head in H. by rewrite <-(str_chars a), H, str_chars. Qed.

Lemma not_plain_app n r : plain (n +:+ r) = true -> ~ (exists r', r = "." +:+ r' \/ r = "[" +:+ r').
Proof.
  intros Hp (r' & [->| ->]); [pose proof (plain_other _ 46 Hp ltac:(repeat (left || right))) as H|
    pose proof (plain_other _ 91 Hp ltac:(repeat (left || right))) as H]; rewrite list_ascii_app in H; apply Forall_app in H as [_ H]; by inversion H.
Qed.

Lemma child_split p : exists pre, forall n, child_path p n = pre +:+ n.
Proof.
  unfold child_path. destruct (decide (p = "")) as [->|Hp]; [by exists ""|]. exists (p +:+ "."). intros n.
  by rewrite bool_decide_false, append_assoc.
Qed.

Lemma not_sibling p m n : plain m = true -> m <> n -> ~ under (child_path p n) (child_path p m).
Proof.
  intros Hm Hne (r & E & Hr). destruct (child_split p) as [pre Hpre]. rewrite !Hpre, append_assoc in E. apply append_inj in E. subst m.
  destruct Hr as [->|Hr]; [by rewrite app_empty_r in Hne|]. by apply (not_plain_app n r).
Qed.

Lemma child_under p n : p <> "" -> child_path p n = p +:+ "." +:+ n.
Proof. intros Hp. unfold child_path. by rewrite bool_decide_false. Qed.

(** What a type at a path leaves alone. *)
Definition untouched (t : ptype) (p K : string) : Prop :=
  ~ under p K /\ (~ dotless K \/ (plain K = true /\ (K ∉ names t) /\ short_key p <> Some K)).

Definition kept (k K : string) : Prop := K <> k /\ short_key k <> Some K.

Lemma set_lookup k v c K : set k v c !! K = if bool_decide (K = k \/ short_key k = Some K) then Some v else c !! K.
Proof.
  unfold set. unfold ProtoDefContext in *. destruct (short_key k) as [s|].
  - destruct (decide (s = K)) as [->|H1]; [rewrite bool_decide_true by (by right); apply lookup_insert_eq|].
    etrans; [by apply lookup_insert_ne|]. destruct (decide (k = K)) as [->|H2].
    + rewrite bool_decide_true by (by left). apply lookup_insert_eq.
    + rewrite bool_decide_false by (intros [->|[= ->]]; done). by apply lookup_insert_ne.
  - destruct (decide (k = K)) as [->|H2].
    + rewrite bool_decide_true by (by left). apply lookup_insert_eq.
    + rewrite bool_decide_false by (intros [->|[=]]; done). by apply lookup_insert_ne.
Qed.

Lemma set_kept k v c K : kept k K -> set k v c !! K = c !! K.
Proof. intros [H1 H2]. rewrite set_lookup. rewrite bool_decide_false; [done|]. by intros [->|H]. Qed.

Lemma set_here k v c : set k v c !! k = Some v.
Proof. rewrite set_lookup. rewrite bool_decide_true; [done|]. by left. Qed.

Lemma kept_path t p K : untouched t p K -> kept p K.
Proof.
  intros [H1 H2]. split; [intros ->; apply H1, under_refl|]. intros H. destruct H2 as [H2|(_ & _ & H2)]; [|done].
  apply H2. by apply (short_key_spec p K).
Qed.

Lemma kept_special t p K s : untouched t p K -> dotless s -> plain s = false -> s <> "" -> kept (p +:+ "." +:+ s) K.
Proof.
  intros [H1 H2] Hs Hp Hne. split; [intros ->; apply H1, under_dot|]. rewrite short_key_last by done. intros [= ->].
  destruct H2 as [H2|(H2 & _)]; [done|congruence].
Qed.

Lemma untouched_index ct t p i K : untouched (TArray ct t) p K -> untouched t (index_path p i) K.
Proof.
  intros [H1 H2]. split; [intros H; apply H1; eapply under_trans; [apply under_index|done]|].
  destruct H2 as [H2|(H2 & H3 & _)]; [by left|right]. split_and!; [done|done|]. intros H.
  destruct (short_key_spec _ _ H) as (_ & q & Hq & Hne). destruct (plain_ends K H2) as (_ & _ & l & e & _ & E & _ & He).
  unfold index_path in Hq. rewrite !list_ascii_app, E, !app_assoc in Hq.
  apply app_inj_tail in Hq as [_ Hq]. by rewrite <-Hq in He.
Qed.

Lemma untouched_child fs p n t K : p <> "" -> (n, t) ∈ fs -> plain n = true -> untouched (TContainer fs) p K -> untouched t (child_path p n) K.
Proof.
  intros Hp Hin Hn [H1 H2]. rewrite child_under by done.
  split; [intros H; apply H1; eapply under_trans; [apply under_dot|done]|].
  destruct H2 as [H2|(H2 & H3 & _)]; [by left|right]. rewrite short_key_last by (by apply plain_dotless || by intros ->).
  cbn [names] in H3. split_and!; [done| |].
  - intros H. apply H3, list_elem_of_bind. exists (n, t). split; [by right|done].
  - intros [= ->]. apply H3, list_elem_of_bind. exists (K, t). split; [by left|done].
Qed.

(** A field that a switch compares is left alone by its siblings. *)
Lemma untouched_sibling p m n t : plain m = true -> plain n = true -> m <> n -> (p = "" -> m ∉ names t) ->
  untouched t (child_path p n) (child_path p m).
Proof.
  intros Hm Hn Hne Hs. split; [by apply not_sibling|]. destruct (decide (p = "")) as [->|Hp].
  - right. change (child_path "" ?n) with n. split_and!; [done|by apply Hs|]. by rewrite short_key_none by by apply plain_dotless.
  - left. rewrite child_under by done. unfold dotless. rewrite !list_ascii_app. intros H.
    apply Forall_app in H as [_ H]. by inversion H.
Qed.

Lemma compare_path q n c : plain n = true -> plain c = true -> resolveComparePath (child_path q n) c = child_path q c.
Proof.
  intros Hn Hc. unfold resolveComparePath.
  assert (is_prefix (chars "../") (chars c) = false) as ->.
  { destruct (plain_ends c Hc) as (x & l & _ & _ & -> & _ & Hx & _). cbn [is_prefix chars]. rewrite bool_decide_false; [done|].
    intros <-. pose proof (plain_not _ Hx 46 ltac:(repeat (left || right))) as H; discriminate H. }
  pose proof (plain_dotless n Hn) as Hd. apply dotless_iff in Hd. destruct (decide (q = "")) as [->|Hq].
  - change (child_path "" ?n) with n. by rewrite rfind_none.
  - rewrite !child_under by done. change (q +:+ "." +:+ n) with (q +:+ String (ascii_of_byte 46) n). rewrite (rfind_last _ q n Hd).
    change (q +:+ String (ascii_of_byte 46) n) with (q +:+ "." +:+ n). rewrite <-!append_assoc. f_equal.
    replace (S (String.length q)) with (String.length (q +:+ ".")) by (rewrite length_append; cbn; lia). apply take_chars.
Qed.

(** ** One type *)

Section Decodes.
Context (d : bytes) (Hd : is_bytes d) (resolver_ generatedProtocolTypeJson : string -> option string).
Context (variables_ : list (string * string)) (order : list (string * Z) -> list (string * Z)).

Abbreviation decode_ := (decode d resolver_ generatedProtocolTypeJson variables_ order true).

Definition context_ready (t : ptype) (parent : ProtoDefValue) (p : string) (c : ProtoDefContext) : Prop :=
  match t with TSwitch cmp _ _ => c !! resolveComparePath p cmp = Some (switch_key (field_value cmp parent)) | _ => True end.

(** What a run from [o], [fs] and [c] leaves. *)
Definition lands (m : M state unit) (t : ptype) (parent v : ProtoDefValue) (p : string) (o : Z) (fs : list ProtoDefField) (c : ProtoDefContext) : Prop :=
  exists c', m (mkState o fs c) = (Ok tt, mkState (o + size (enc t parent v)) (fs ++ flds t parent v p o) c') /\
    (forall K, untouched t p K -> c' !! K = c !! K) /\ (keyed t = true -> c' !! p = Some (switch_key v)).

Definition decodes (t : ptype) : Prop := forall fuel parent v p o fs c r,
  type_ok resolver_ t -> fits t parent v -> p <> "" -> context_ready t parent p c -> (depth t <= fuel)%nat ->
  offset_valid d o -> offset_rest d o = enc t parent v ++ r -> lands (decode_ fuel (render (schema t)) p) t parent v p o fs c.

Lemma named_path p s : p <> "" -> named p s = p.
Proof. intros Hp. unfold named. by rewrite bool_decide_false. Qed.

Lemma bind_offset {A} (k : Z -> M state A) o fs c : bind offset k (mkState o fs c) = k o (mkState o fs c).
Proof. done. Qed.

Lemma bind_emit {A} (f : ProtoDefField) (k : unit -> M state A) o fs c :
  bind (emit true f) k (mkState o fs c) = k tt (mkState o (fs ++ [f]) (set (path f) (value f) c)).
Proof. done. Qed.

Lemma emit_ok f o fs c : emit true f (mkState o fs c) = (Ok tt, mkState o (fs ++ [f]) (set (path f) (value f) c)).
Proof. done. Qed.

Lemma decode_name fuel n p : decode_ (S fuel) (render (JString n)) p =
  decodeTypeName d resolver_ generatedProtocolTypeJson true (decode_ fuel) n p.
Proof. cbn [decode]. unfold decode_type. rewrite trim_render, isJsonString_render. cbn [render]. by rewrite unquote_qt. Qed.

Ltac typed_step := intros; cbn [decode]; unfold decode_type; rewrite trim_render, isJsonString_render; reflexivity.

Lemma decode_mapper fuel fs p : decode_ (S fuel) (render (typed_object "mapper" fs)) p = decodeMapper d true (render (typed_object "mapper" fs)) p.
Proof. typed_step. Qed.
Lemma decode_pstring fuel fs p : decode_ (S fuel) (render (typed_object "pstring" fs)) p = decodePString d true (render (typed_object "pstring" fs)) p.
Proof. typed_step. Qed.
Lemma decode_buffer fuel fs p : decode_ (S fuel) (render (typed_object "buffer" fs)) p = decodeBuffer d true (render (typed_object "buffer" fs)) p.
Proof. typed_step. Qed.
Lemma decode_option fuel j p : decode_ (S fuel) (render (typed "option" j)) p = decodeOption d true (decode_ fuel) (render (typed "option" j)) p.
Proof. typed_step. Qed.
Lemma decode_array fuel fs p : decode_ (S fuel) (render (typed_object "array" fs)) p = decodeArray d true (decode_ fuel) (render (typed_object "array" fs)) p.
Proof. typed_step. Qed.
Lemma decode_container fuel l p : decode_ (S fuel) (render (typed "container" (JList l))) p =
  decodeContainer (decode_ fuel) (render (typed "container" (JList l))) p.
Proof. typed_step. Qed.
Lemma decode_switch fuel fs p : decode_ (S fuel) (render (typed_object "switch" fs)) p =
  decodeSwitch variables_ true (decode_ fuel) (render (typed_object "switch" fs)) p.
Proof. typed_step. Qed.

Lemma prim_keyed p v : keyed (TPrim p) = true -> prim_fits p v -> prim_text p v = switch_key v.
Proof.
  destruct p as [| | |i|b|b]; try done; cbn [prim_fits prim_text]; intros _; destruct v; try done. cbn [int_value].
  destruct (Z.ltb_spec v 0); [done|]. intros _. by apply signed_nonneg.
Qed.

Lemma decodes_prim p : decodes (TPrim p).
Proof.
  intros [|fuel] parent v pa o fs c r _ Hv Hp _ Hf Ho Hr; [cbn in Hf; lia|]. cbn [schema enc fits] in *.
  destruct (reads_prim d Hd p v pa Hv) as (m & E & Hm). unfold lands. rewrite decode_name. unfold decodeTypeName. rewrite E, bind_offset.
  rewrite (bind_ok _ _ _ _ _ (Hm o fs c r Ho Hr)), bind_offset, named_path by done.
  eexists. split_and!.
  - rewrite emit_ok, Z.add_simpl_l. done.
  - intros K HK. apply set_kept. by eapply kept_path.
  - intros Hk. cbn. by rewrite set_here, prim_keyed.
Qed.

Lemma lookup_mapping n name ms : Forall (fun m => 0 <= fst m) ms -> base.NoDup (map fst ms) -> (n, name) ∈ ms ->
  lookup_string (to_string n) (mapping_json ms) = Some name.
Proof.
  unfold lookup_string. induction 1 as [|[m v] ms Hm Hms IH]; intros Hnd Hin; [by apply elem_of_nil in Hin|].
  cbn [map fst] in Hnd. apply list.NoDup_cons in Hnd as [Hni Hnd]. cbn [mapping_json map fst snd lookup_field].
  apply elem_of_cons in Hin as [[= -> ->]|Hin]; [by rewrite bool_decide_true|].
  rewrite bool_decide_false; [by apply IH|]. intros E. apply Hni.
  assert (0 <= n) as Hn by (rewrite list.Forall_forall in Hms; by apply (Hms _ Hin)).
  assert (m = n) as ->. { cbn in Hm. pose proof (number_of_to_string m Hm) as H. rewrite E, number_of_to_string in H by done. congruence. }
  apply list_elem_of_fmap. by exists (n, name).
Qed.

Lemma decodes_mapper base ms : decodes (TMapper base ms).
Proof.
  intros [|fuel] parent v p o fs c r Hok Hv Hp _ Hf Ho Hr; [cbn in Hf; lia|]. pose proof (schema_plain _ _ Hok) as Hpl.
  destruct Hok as (Hm & Hnd & Hms). cbn [fits] in Hv. destruct v as [| | | | |s| | |]; try done. destruct Hv as [n Hn].
  pose proof (mapped_in _ _ _ Hn) as Hin. pose proof Hms as Hms'. rewrite list.Forall_forall in Hms'. destruct (Hms' _ Hin) as (H0 & H1 & _). cbn [fst] in *.
  unfold lands. cbn [schema enc flds] in *. rewrite Hn in *. cbn [default] in *.
  rewrite decode_mapper. unfold decodeMapper. rewrite (string_found _ _ _ Hpl). change (lookup_string "type" _) with (Some (itype_name base)). cbn iota.
  rewrite bind_offset, (bind_ok _ _ _ _ _ (reads_mapped d Hd base n Hm H1 o fs c r Ho Hr)), bind_offset, named_path by done.
  assert (readMapperValue (render (typed_object "mapper" [("type", JString (itype_name base)); ("mappings", JObject (mapping_json ms))]))
    (signed_text n) = Some s) as ->.
  { unfold readMapperValue. rewrite (fields_found _ _ _ Hpl). change (lookup_field "mappings" _) with (Some (JObject (mapping_json ms))).
    cbn [fmap option_fmap option_map mbind option_bind]. rewrite signed_nonneg by done.
    assert (json_plain (JObject (mapping_json ms))) as Hj by by destruct Hpl as (_ & (_ & (_ & H) & _) & _).
    rewrite (string_field _ _ _ (field_of_record _ (to_string n) Hj)), (lookup_mapping n s ms); [done| |done|done].
    eapply Forall_impl; [|exact Hms]. by intros m (H & _). }
  cbn [default]. rewrite signed_nonneg, Z.add_simpl_l by done.
  eexists. split_and!; [done| |].
  - intros K HK. apply set_kept. by eapply kept_path.
  - intros _. by rewrite set_here.
Qed.

Lemma reads_loop k out : is_bytes k -> takes d (ProtoDefReader.read_loop (ProtoDefReader.u8 d) (length k) out) k (out ++ k).
Proof.
  intros Hk. revert out. induction Hk as [|b k Hb _ IH]; intros out; cbn [length ProtoDefReader.read_loop]; [rewrite app_nil_r; apply takes_ret|].
  apply (takes_bind d _ _ [b] k b); [by apply takes_u8|]. specialize (IH (out ++ [b])). by rewrite <-app_assoc in IH.
Qed.

Lemma reads_chars s : reads_off d (read_chars d (size (bytes_of_string s))) (bytes_of_string s) s.
Proof.
  unfold read_chars, size. rewrite Nat2Z.id.
  pose proof (reads_map d (rd (ProtoDefReader.read_loop (ProtoDefReader.u8 d) (length (bytes_of_string s)) [])) string_of_bytes _ _
    (reads_rd d Hd _ _ _ (reads_loop _ [] (bytes_of_string_bytes s)))) as H. cbn [app] in H. by rewrite string_bytes_string in H.
Qed.

Lemma in_range_size ct n : 0 <= n -> counts ct = true -> in_range ct n -> (n <? 0) = false.
Proof. intros H _ _. by apply Z.ltb_ge. Qed.

Lemma decodes_pstring ct : decodes (TPString ct).
Proof.
  intros [|fuel] parent v p o fs c r Hok Hv Hp _ Hf Ho Hr; [cbn in Hf; lia|]. pose proof (schema_plain _ _ Hok) as Hpl.
  cbn [fits type_ok] in *. destruct v as [| | | | |s| | |]; try done. unfold lands. cbn [schema enc flds] in *.
  rewrite decode_pstring. unfold decodePString. rewrite !(string_found _ _ _ Hpl).
  change (lookup_string "countType" _) with (Some (itype_name ct)). change (lookup_string "encoding" _) with (@None string). cbn [default].
  rewrite <-app_assoc in Hr. pose proof (size_nonneg (bytes_of_string s)).
  rewrite bind_offset, (bind_ok _ _ _ _ _ (reads_count d Hd ct _ false "pstring" Hok Hv o fs c _ Ho Hr)).
  destruct (off_next d o _ _ Ho Hr) as [Ho' Hr']. rewrite (proj2 (Z.ltb_ge _ _)) by done.
  rewrite (bind_ok _ _ _ _ _ (reads_chars s _ fs c r Ho' Hr')), bind_offset, named_path, emit_ok by done.
  rewrite <-Z.add_assoc, <-size_app, Z.add_simpl_l.
  eexists. split_and!; [done|intros K HK; apply set_kept; by eapply kept_path|done].
Qed.

Lemma no_count kind fs : json_plain (typed_object kind fs) -> lookup_field "count" fs = None ->
  readJsonIntegerField (render (typed_object kind fs)) "count" = Ok None /\ readJsonStringField (render (typed_object kind fs)) "count" = None.
Proof.
  intros Hp Hc. rewrite (integer_field _ fs "count" (fields_found _ _ _ Hp)), (string_found _ _ _ Hp). unfold lookup_string. by rewrite Hc.
Qed.

Lemma decodes_buffer ct : decodes (TBuffer ct).
Proof.
  intros [|fuel] parent v p o fs c r Hok Hv Hp _ Hf Ho Hr; [cbn in Hf; lia|]. pose proof (schema_plain _ _ Hok) as Hpl.
  cbn [fits type_ok] in *. destruct v as [| | | | | |b| |]; try done. destruct Hv as [Hb Hv]. unfold lands. cbn [schema enc flds] in *.
  rewrite decode_buffer. unfold decodeBuffer. destruct (no_count _ _ Hpl eq_refl) as [-> ->]. rewrite bind_lift, (string_found _ _ _ Hpl).
  change (lookup_string "countType" _) with (Some (itype_name ct)). cbn [default].
  rewrite <-app_assoc in Hr. pose proof (size_nonneg b).
  rewrite bind_offset, (bind_ok _ _ _ _ _ (reads_count d Hd ct _ true "buffer" Hok Hv o fs c _ Ho Hr)).
  destruct (off_next d o _ _ Ho Hr) as [Ho' Hr']. rewrite (proj2 (Z.ltb_ge _ _)) by done.
  rewrite (bind_ok _ _ _ _ _ (reads_rd d Hd _ _ _ (takes_readBytes d b Hb) _ fs c r Ho' Hr')), bind_offset, named_path, emit_ok by done.
  rewrite <-Z.add_assoc, <-size_app, Z.add_simpl_l.
  eexists. split_and!; [done|intros K HK; apply set_kept; by eapply kept_path|done].
Qed.

(** ** Types around another *)

Lemma direct_ready t parent p c : direct t = true -> context_ready t parent p c.
Proof. by destruct t. Qed.

Lemma primitive_none n p : n ∉ builtin -> primitive_value d n p = None.
Proof.
  intros Hn. unfold primitive_value.
  repeat (rewrite bool_decide_false;
    [|intros H; apply Hn; first [subst n; apply (bool_decide_unpack _); vm_compute; exact I
       |repeat (apply elem_of_cons in H as [->|H]; [apply (bool_decide_unpack _); vm_compute; exact I|]); by apply elem_of_nil in H]]).
  done.
Qed.

Lemma decodes_named n t : decodes t -> decodes (TNamed n t).
Proof.
  intros IH [|fuel] parent v p o fs c r Hok Hv Hp _ Hf Ho Hr; [cbn in Hf; lia|]. destruct Hok as (Hpl & Hn & Hres & Hdir & Hok).
  cbn [fits enc depth] in *. pose proof (IH fuel parent v p o fs c r Hok Hv Hp (direct_ready t parent p c Hdir) ltac:(lia) Ho Hr) as (c' & H1 & H2 & H3).
  unfold lands. cbn [schema enc flds]. rewrite decode_name. unfold decodeTypeName. rewrite bind_offset, primitive_none, Hres, chars_str by done.
  exists c'. split_and!; [done|exact H2|exact H3].
Qed.

Lemma u8_here b o fs c r : is_u 8 b -> offset_valid d o -> offset_rest d o = b :: r -> u8 d (mkState o fs c) = (Ok b, mkState (o + 1) fs c).
Proof. intros Hb Ho Hr. by apply (reads_rd d Hd _ _ _ (takes_u8 d b Hb) o fs c r Ho). Qed.

Lemma decodes_option t : decodes t -> decodes (TOption t).
Proof.
  intros IH [|fuel] parent v p o fs c r Hok Hv Hp _ Hf Ho Hr; [cbn in Hf; lia|]. pose proof (schema_plain _ _ Hok) as Hpl.
  destruct Hok as [Hdir Hok]. cbn [depth] in Hf. unfold lands. cbn [schema] in *. rewrite decode_option.
  assert (forall b r', is_u 8 b -> offset_rest d o = b :: r' -> decodeOption d true (decode_ fuel) (render (typed "option" (schema t))) p (mkState o fs c) =
    (if b =? 0 then ret tt else decode_ fuel (render (schema t)) p)
      (mkState (o + 1) (fs ++ [mkField (p +:+ ".$present") "option_present" (if negb (b =? 0) then "true" else "false") o 1 None])
        (set (p +:+ ".$present") (if negb (b =? 0) then "true" else "false") c))) as Hstep.
  { intros b r' Hb Hb'. unfold decodeOption. rewrite bind_offset, (bind_ok _ _ _ _ _ (remaining_here d o fs c [b] r' Ho Hb')).
    pose proof (size_nonneg r'). rewrite (proj2 (Z.ltb_ge _ _)) by (rewrite size_cons, size_nil; lia).
    rewrite (bind_ok _ _ _ _ _ (u8_here b o fs c r' Hb Ho Hb')), bind_offset, (bool_decide_false (p = "")), Z.add_simpl_l by done.
    rewrite bind_emit, (second_of_typed _ _ Hpl). done. }
  assert (forall K s, untouched (TOption t) p K -> set (p +:+ ".$present") s c !! K = c !! K) as Hset.
  { intros K s HK. apply set_kept, (kept_special (TOption t) p K "$present"); [done|by repeat constructor|done|done]. }
  assert (v = Null \/ v <> Null) as [->|Hne] by (destruct v; [by left|by right..]).
  - cbn [enc flds] in *. rewrite (Hstep 0 r ltac:(by split) Hr). eexists. split_and!; [done|by intros K; apply Hset|done].
  - assert (enc (TOption t) parent v = 1 :: enc t parent v /\ fits t parent v /\
      flds (TOption t) parent v p o = mkField (p +:+ ".$present") "option_present" "true" o 1 None :: flds t parent v p (o + 1)) as (E1 & E2 & E3) by by destruct v.
    rewrite E1 in Hr |- *. rewrite E3. cbn [app] in Hr. rewrite (Hstep 1 _ ltac:(by split) Hr). cbn [Z.eqb negb].
    destruct (off_next d o [1] _ Ho Hr) as [Ho' Hr']. change (size [1]) with 1 in *.
    destruct (IH fuel parent v p (o + 1) (fs ++ [mkField (p +:+ ".$present") "option_present" "true" o 1 None]) (set (p +:+ ".$present") "true" c) r
      Hok E2 Hp (direct_ready t parent p _ Hdir) ltac:(lia) Ho' Hr') as (c' & H1 & H2 & H3).
    exists c'. split_and!; [|intros K HK; by rewrite (H2 K HK), Hset|done].
    etrans; [exact H1|]. rewrite size_cons, (Z.add_comm (size _) 1), Z.add_assoc, <-app_assoc. done.
Qed.

(** The items of an array. *)
Lemma items_ok ct t parent p fuel : decodes t -> type_ok resolver_ t -> direct t = true -> (depth t <= fuel)%nat -> forall l i o fs c r,
  foldr (fun x P => fits t parent x /\ P) True l -> offset_valid d o -> offset_rest d o = (l ≫= enc t parent) ++ r ->
  exists c', items_loop (decode_ fuel) (length l) i (render (schema t)) (index_path p) p (mkState o fs c) =
    (Ok tt, mkState (o + size (l ≫= enc t parent))
       (fs ++ items_fields (fun x i o => flds t parent x (index_path p i) o) (fun x => size (enc t parent x)) l i o) c') /\
    forall K, untouched (TArray ct t) p K -> c' !! K = c !! K.
Proof.
  intros IH Hok Hdir Hf. induction l as [|x l IHl]; intros i o fs c r Hv Ho Hr; cbn [length items_loop items_fields].
  - exists c. split; [|done]. change ([] ≫= enc t parent) with (@nil Z). change (size (@nil Z)) with 0. by rewrite Z.add_0_r, app_nil_r.
  - destruct Hv as [Hx Hv]. rewrite bind_cons in Hr |- *. rewrite <-app_assoc in Hr.
    assert (index_path p i <> "") as Hne.
    { unfold index_path. intros E. apply (f_equal String.length) in E. rewrite !length_append in E. cbn in E. lia. }
    destruct (IH fuel parent x (index_path p i) o fs c _ Hok Hx Hne (direct_ready t parent _ c Hdir) Hf Ho Hr) as (c1 & H1 & H2 & _).
    destruct (off_next d o _ _ Ho Hr) as [Ho' Hr'].
    destruct (IHl (i + 1) (o + size (enc t parent x)) (fs ++ flds t parent x (index_path p i) o) c1 r Hv Ho' Hr') as (c2 & H3 & H4).
    exists c2. split.
    + unfold bind, catch at 1. rewrite H1. change (fun s => items_loop ?a ?b ?c ?e ?f ?g s) with (items_loop a b c e f g). rewrite H3, size_app, <-app_assoc, Z.add_assoc. done.
    + intros K HK. rewrite (H4 K HK). apply H2. by eapply untouched_index.
Qed.

Lemma decodes_array ct t : decodes t -> decodes (TArray ct t).
Proof.
  intros IH [|fuel] parent v p o fs c r Hok Hv Hp _ Hf Ho Hr; [cbn in Hf; lia|]. pose proof (schema_plain _ _ Hok) as Hpl.
  destruct Hok as (Hct & Hdir & Hok). cbn [depth fits] in *. destruct v as [| | | | | | | |l]; try done. destruct Hv as [Hn Hv].
  unfold lands. cbn [schema enc flds] in *. rewrite decode_array. unfold decodeArray. destruct (no_count _ _ Hpl eq_refl) as [-> ->].
  rewrite bind_lift, (fields_found _ _ _ Hpl), (string_found _ _ _ Hpl). change (lookup_field "type" _) with (Some (schema t)).
  change (lookup_string "countType" _) with (Some (itype_name ct)). cbn [fmap option_fmap option_map default].
  rewrite <-app_assoc in Hr. pose proof (size_nonneg l). rewrite bind_offset.
  assert (reads_off d (let* n := readCount d (itype_name ct) false "array" in ret (n, true)) (itype_enc ct (size l)) (size l, true)) as Hcount.
  { apply (reads_map d _ (fun n => (n, true)) _ (size l)). by apply reads_count. }
  rewrite (bind_ok _ _ _ _ _ (Hcount o fs c _ Ho Hr)). cbn beta iota. rewrite (proj2 (Z.ltb_ge _ _)) by done.
  rewrite bind_offset, (bool_decide_false (p = "")), bind_emit, Z.add_simpl_l by done. cbn [path value negb andb].
  destruct (off_next d o _ _ Ho Hr) as [Ho' Hr'].
  replace (Z.to_nat (size l)) with (length l) by (unfold size; by rewrite Nat2Z.id).
  pose proof (fun fs c => items_ok ct t parent p fuel IH Hok Hdir ltac:(lia) l 0 _ fs c r Hv Ho' Hr') as Hitems.
  match goal with |- exists c', _ (mkState _ ?fs ?c) = _ /\ _ => destruct (Hitems fs c) as (c' & H1 & H2) end.
  exists c'. split_and!.
  - etrans; [exact H1|]. rewrite size_app, <-app_assoc, Z.add_assoc. done.
  - intros K HK. rewrite (H2 K HK). apply set_kept, (kept_special (TArray ct t) p K "$count"); [done|by repeat constructor|done|done].
  - done.
Qed.
(** ** Switches *)

Lemma lookup_slash bs s : json_plain (JObject bs) -> lookup_field ("/" +:+ s) bs = None.
Proof.
  induction bs as [|[k j] bs IH]; [done|]. intros [[Hk _] Hb]. cbn [lookup_field]. rewrite bool_decide_false; [by apply IH|].
  intros ->. pose proof (plain_other _ 47 Hk ltac:(repeat (left || right))) as H. by inversion H.
Qed.

Definition switch_json (c : string) (bs : list (string * ptype)) (dt : option ptype) : list (string * json) :=
  ("compareTo", JString c) :: ("fields", JObject (branches_json bs)) :: match dt with Some t => [("default", schema t)] | None => [] end.

Lemma decoder_branch c bs dt key : type_ok resolver_ (TSwitch c bs dt) -> plain key = true ->
  branch_or_default variables_ (render (schema (TSwitch c bs dt))) key = render ∘ schema <$> branch_of key bs dt.
Proof.
  intros Hok Hk. pose proof (schema_plain _ _ Hok) as Hp. pose proof Hp as (_ & (_ & (_ & Hbs) & _) & _).
  change (schema (TSwitch c bs dt)) with (typed_object "switch" (switch_json c bs dt)) in *.
  unfold branch_or_default, findSwitchBranchType. rewrite !(fields_found _ _ _ Hp).
  change (lookup_field "fields" _) with (Some (JObject (branches_json bs))). cbn [fmap option_fmap option_map mbind option_bind].
  rewrite branch_keys_plain; [|done|intros s; by rewrite (field_of_record _ _ Hbs), lookup_slash].
  rewrite (field_of_record _ _ Hbs), assoc_schema. unfold branch_of. destruct (assoc key bs); [done|]. by destruct dt.
Qed.

Lemma flds_switch c bs dt parent v p o : flds (TSwitch c bs dt) parent v p o =
  let key := switch_key (field_value c parent) in
  match branch_of key bs dt with
  | Some t => flds t parent v p o
  | None => [mkField p "switch" ("<no_branch:" +:+ key +:+ ">") o 0 None]
  end.
Proof.
  cbn [flds]. unfold branch_of. induction bs as [|[k t] bs IH]; [by destruct dt|]. cbn [assoc].
  by destruct (bool_decide (k = _)).
Qed.

Lemma untouched_branch c bs dt key t p K : branch_of key bs dt = Some t -> untouched (TSwitch c bs dt) p K -> untouched t p K.
Proof.
  intros Ht [H1 H2]. split; [done|]. destruct H2 as [H2|(H2 & H3 & H4)]; [by left|right]. split_and!; [done| |done].
  intros Hin. apply H3. cbn [names]. revert Ht. unfold branch_of. clear -Hin. induction bs as [|[k u] bs IH]; cbn [assoc].
  - intros ->. apply elem_of_app. by right.
  - rewrite bind_cons, <-app_assoc. destruct (bool_decide (k = key)); [intros [= ->]|intros Ht]; apply elem_of_app; [by left|right; by apply IH].
Qed.

Lemma decodes_switch c bs dt : Forall (fun b => decodes (snd b)) bs -> (forall t, dt = Some t -> decodes t) -> decodes (TSwitch c bs dt).
Proof.
  intros IH IHd [|fuel] parent v p o fs ctx r Hok Hv Hp Hctx Hf Ho Hr; [cbn in Hf; lia|]. pose proof (schema_plain _ _ Hok) as Hpl.
  destruct (fits_switch _ _ _ _ _ Hv) as (Hkey & _ & Hfit). pose proof (decoder_branch c bs dt _ Hok Hkey) as Hbr.
  pose proof Hok as (Hc & _). cbn [context_ready] in Hctx. unfold lands. rewrite enc_switch, flds_switch in *. cbn zeta in *.
  assert (decode_ (S fuel) (render (schema (TSwitch c bs dt))) p (mkState o fs ctx) =
    match branch_or_default variables_ (render (schema (TSwitch c bs dt))) (switch_key (field_value c parent)) with
    | None => emit true (mkField p "switch" ("<no_branch:" +:+ switch_key (field_value c parent) +:+ ">") o 0 None)
    | Some branch => decode_ fuel branch p
    end (mkState o fs ctx)) as ->.
  { change (schema (TSwitch c bs dt)) with (typed_object "switch" (switch_json c bs dt)) in *. rewrite decode_switch. unfold decodeSwitch.
    rewrite !(string_found _ _ _ Hpl). assert (lookup_string "compareToValue" (switch_json c bs dt) = None) as -> by by destruct dt.
    change (lookup_string "compareTo" _) with (Some c). cbn iota. rewrite bind_assoc. unfold get_st.
    rewrite (bind_ok _ _ _ _ _ (eq_refl : get_st (mkState o fs ctx) = (Ok (mkState o fs ctx), mkState o fs ctx))). cbn [context].
    rewrite compare_plain by done. unfold compare_atom, compare_keys. cbn [app first_present]. rewrite str_chars, Hctx.
    cbn [fmap option_fmap option_map rbind switchKey]. rewrite bind_assoc, bind_lift, bind_ret. cbn [default].
    destruct (branch_or_default _ _ _); [done|]. rewrite bind_offset, named_path by done. done. }
  rewrite Hbr. destruct (branch_of _ bs dt) as [t|] eqn:Eb; cbn [fmap option_fmap option_map compose].
  - destruct (branch_ok resolver_ _ _ _ _ _ Hok Eb) as [Hdir Ht].
    assert (decodes t) as Hdec by by apply (branch_in decodes _ bs dt t IH IHd Eb).
    destruct (Hdec fuel parent v p o fs ctx r Ht Hfit Hp (direct_ready t parent p ctx Hdir) ltac:(by eapply branch_depth) Ho Hr) as (c' & H1 & H2 & _).
    exists c'. split_and!; [exact H1| |done]. intros K HK. apply H2. by eapply untouched_branch.
  - rewrite emit_ok. change (size (@nil Z)) with 0. rewrite Z.add_0_r. eexists. split_and!; [done| |done].
    intros K HK. apply set_kept. by eapply kept_path.
Qed.
(** ** Containers *)

Section Container.
(** The fields, the object, the path of the container, and the fuel of its fields. *)
Context (all : list (string * ptype)) (v : ProtoDefValue) (p : string) (fuel : nat).

Abbreviation field_enc := (fun f => enc (snd f) v (field_value (fst f) v)).
Abbreviation field_flds := (fun f (_ : Z) o => flds (snd f) v (field_value (fst f) v) (child_path p (fst f)) o).

(** At the top of a packet, no field has the name inside. *)
Definition unnamed (c : string) : Prop := p = "" -> forall g, g ∈ all -> c ∉ names (snd g).

Definition field_ok (f : string * ptype) : Prop :=
  plain (fst f) = true /\ type_ok resolver_ (snd f) /\ fits (snd f) v (field_value (fst f) v) /\ decodes (snd f) /\ (depth (snd f) <= fuel)%nat /\
  match snd f with TSwitch c _ _ => unnamed c | _ => True end.

(** The context has the fields that a switch may compare. *)
Definition context_has (earlier : list string) (c : ProtoDefContext) : Prop :=
  forall n, n ∈ earlier -> plain n = true -> unnamed n -> c !! child_path p n = Some (switch_key (field_value n v)).

Lemma child_nonempty n : plain n = true -> child_path p n <> "".
Proof.
  intros Hn. destruct (decide (p = "")) as [E|E]; [unfold child_path; rewrite bool_decide_true by done; by intros ->|].
  rewrite child_under by done. intros H. apply (f_equal String.length) in H. rewrite !length_append in H. cbn in H. lia.
Qed.

Lemma field_step n type s pos lead l rest fuel' : plain n = true -> json_plain type -> lead = 91 \/ lead = 44 ->
  drop pos s = list_text lead (field_json n type :: l) ++ rest ->
  exists pos', drop pos' s = list_text 44 l ++ rest /\
    forall st, ProtoDefDecoder.fields_loop (decode_ fuel) (S fuel') s p pos st =
    (catch (decode_ fuel (render type) (child_path p n))
      (fun e => ProtoDefDecoder.fail ("at " +:+ named (child_path p n) "$container" +:+ ": " +:+ what e)) ;;;
     ProtoDefDecoder.fields_loop (decode_ fuel) fuel' s p pos') st.
Proof.
  intros Hn Hj Hl Hd'. destruct (next_field "container" s pos lead (field_json n type) l rest) as (pos' & E & Hpos); [by cbn; split_and!|by eexists|done|done|].
  exists pos'. split; [done|]. intros st. cbn [ProtoDefDecoder.fields_loop]. rewrite E, bind_lift.
  destruct (field_parts n type Hn Hj) as (-> & -> & ->). done.
Qed.

Lemma fields_ok fs : forall fuel' s pos lead rest earlier i o out_ c r,
  Forall field_ok fs -> base.NoDup (map fst fs) -> (forall n, n ∈ earlier -> n ∉ map fst fs) -> compares earlier fs = true ->
  (forall f, f ∈ fs -> f ∈ all) -> context_has earlier c ->
  no_char 123 rest -> lead = 91 \/ lead = 44 -> drop pos s = list_text lead (fields_json fs) ++ rest -> (length fs < fuel')%nat ->
  offset_valid d o -> offset_rest d o = (fs ≫= field_enc) ++ r ->
  exists c', ProtoDefDecoder.fields_loop (decode_ fuel) fuel' s p pos (mkState o out_ c) =
    (Ok tt, mkState (o + size (fs ≫= field_enc)) (out_ ++ items_fields field_flds (fun f => size (field_enc f)) fs i o) c') /\
    forall K, Forall (fun f => untouched (snd f) (child_path p (fst f)) K) fs -> c' !! K = c !! K.
Proof.
  induction fs as [|[n t] fs IH]; intros [|fuel'] s pos lead rest earlier i o out_ c r Hfs Hnd He Hcmp Hun Hctx Hrest Hl Hpos Hf Ho Hr;
    try (exfalso; cbn in Hf; lia).
  - cbn [ProtoDefDecoder.fields_loop]. rewrite next_object_none, bind_lift by by rewrite Hpos. exists c. split; [|done].
    change (size ([] ≫= field_enc)) with 0. cbn [items_fields]. by rewrite Z.add_0_r, app_nil_r.
  - inversion Hfs as [|? ? (Hn & Hok & Hv & Hdec & Hdep & Hsw) Hfs']; subst. cbn [fst snd] in *.
    cbn [map fst] in Hnd, He. apply list.NoDup_cons in Hnd as [Hni Hnd].
    cbn [compares] in Hcmp. apply andb_true_iff in Hcmp as [Hcmp Hcmps].
    rewrite bind_cons in Hr |- *. cbn [fst snd] in *. rewrite <-app_assoc in Hr.
    destruct (field_step n (schema t) s pos lead (fields_json fs) rest fuel' Hn (schema_plain _ _ Hok) Hl Hpos) as (pos' & Hpos' & Hstep). rewrite Hstep. clear Hstep.
    assert (context_ready t v (child_path p n) c) as Hready.
    { destruct t as [| | | | | | |cmp bs dt|]; try done. cbn [context_ready]. apply bool_decide_eq_true in Hcmp.
      pose proof Hok as (Hc & _). rewrite compare_path by done. by apply Hctx. }
    destruct (Hdec fuel v _ _ o out_ c _ Hok Hv (child_nonempty n Hn) Hready Hdep Ho Hr) as (c1 & H1 & H2 & H3).
    destruct (off_next d o _ _ Ho Hr) as [Ho' Hr'].
    destruct (IH fuel' s pos' 44 rest (if keyed t then n :: earlier else earlier) (i + 1)
      (o + size (enc t v (field_value n v))) (out_ ++ flds t v (field_value n v) (child_path p n) o) c1 r) as (c2 & H4 & H5);
      [done|done| |done| | |done|by right|done|cbn in Hf; lia|done|done|].
    + intros m Hm. destruct (keyed t); [apply elem_of_cons in Hm as [->|Hm]; [done|]|]; intros Hin; apply (He m Hm); by right.
    + intros f Hin. apply Hun. by right.
    + intros m Hm Hpl Hmn. destruct (decide (m = n)) as [->|Hne].
      { destruct (keyed t) eqn:Hk; [by apply H3|]. exfalso. apply (He n Hm). by left. }
      assert (m ∈ earlier) as Hme by (destruct (keyed t); [apply elem_of_cons in Hm as [->|Hm]; done|done]).
      rewrite H2; [by apply Hctx|]. apply untouched_sibling; [done..|]. intros Ep. apply (Hmn Ep (n, t)), Hun. by left.
    + exists c2. split.
      * unfold bind at 1, catch. rewrite H1. etrans; [exact H4|]. rewrite size_app, Z.add_assoc. cbn [items_fields fst snd].
        by rewrite <-app_assoc.
      * intros K HK. inversion HK; subst. rewrite H5 by done. by apply H2.
Qed.
End Container.
Lemma names_field fs K : (K ∉ names (TContainer fs)) -> forall f, f ∈ fs -> K ∉ names (snd f).
Proof. intros HK f Hf Hin. apply HK. cbn [names]. apply list_elem_of_bind. exists f. split; [by right|done]. Qed.

(** A container at any path; at the top of a packet under [unshadowed]. *)
Lemma container_runs fs fuel parent v p o out_ c r : Forall (fun f => decodes (snd f)) fs -> (p = "" -> unshadowed fs) ->
  type_ok resolver_ (TContainer fs) -> fits (TContainer fs) parent v -> (depth (TContainer fs) <= S fuel)%nat ->
  offset_valid d o -> offset_rest d o = enc (TContainer fs) parent v ++ r ->
  exists c', decode_ (S fuel) (render (schema (TContainer fs))) p (mkState o out_ c) =
    (Ok tt, mkState (o + size (enc (TContainer fs) parent v)) (out_ ++ flds (TContainer fs) parent v p o) c') /\
    forall K, Forall (fun f => untouched (snd f) (child_path p (fst f)) K) fs -> c' !! K = c !! K.
Proof.
  intros IH Hun Hok Hv Hf Ho Hr. pose proof (schema_plain _ _ Hok) as Hpl. pose proof (container_fields resolver_ fs Hok) as Hfs.
  destruct Hok as (Hnd & Hcmp & _). cbn [fits] in Hv. destruct v as [| | | | | | |es|]; try done.
  cbn [depth] in Hf. destruct (depth_max fs 0%nat fuel ltac:(lia)) as [Hdepth _].
  change (schema (TContainer fs)) with (typed "container" (JList (fields_json fs))) in *.
  assert (decode_ (S fuel) (render (typed "container" (JList (fields_json fs)))) p (mkState o out_ c) =
    ProtoDefDecoder.fields_loop (decode_ fuel) (S (length (render (JList (fields_json fs))))) (render (JList (fields_json fs))) p 0 (mkState o out_ c)) as ->.
  { rewrite decode_container. unfold decodeContainer. rewrite (second_of_typed _ _ Hpl), trim_render. done. }
  destruct (list_start (fields_json fs)) as (rest & Hs & Hrest). cbn [enc flds] in *.
  apply (fields_ok fs (Object es) p fuel fs _ _ 0 91 rest [] 0 o out_ c r); [|done| |done|done| |done|by left|exact Hs| |done|done].
  - rewrite list.Forall_forall in *. intros f Hin. destruct (Hfs _ Hin) as [Hn Ht]. split_and!; [done|done| |by apply IH|by apply Hdepth|].
    + clear - Hv Hin. induction fs as [|g fs IH]; [by apply elem_of_nil in Hin|]. destruct Hv as [[_ H1] H2].
      apply elem_of_cons in Hin as [<-|Hin]; [done|by apply IH].
    + destruct (snd f) eqn:E; try done. intros Ep g Hg. specialize (Hun Ep). unfold unshadowed in Hun. rewrite list.Forall_forall in Hun.
      specialize (Hun _ Hin). rewrite E in Hun. rewrite list.Forall_forall in Hun. by apply Hun.
  - intros n Hn. by apply elem_of_nil in Hn.
  - intros n Hn. by apply elem_of_nil in Hn.
  - pose proof (fields_length fs). lia.
Qed.

Lemma decodes_container fs : Forall (fun f => decodes (snd f)) fs -> decodes (TContainer fs).
Proof.
  intros IH [|fuel] parent v p o out_ c r Hok Hv Hp _ Hf Ho Hr; [cbn in Hf; lia|].
  destruct (container_runs fs fuel parent v p o out_ c r IH ltac:(done) Hok Hv Hf Ho Hr) as (c' & H1 & H2).
  exists c'. split_and!; [done| |done]. intros K HK. apply H2. pose proof (container_fields resolver_ fs Hok) as Hfs.
  rewrite list.Forall_forall in *. intros [n t] Hin. destruct (Hfs _ Hin) as [Hn _]. by apply (untouched_child fs p n t K).
Qed.

(** Every type. *)
Lemma decode_type_ok t : decodes t.
Proof.
  induction t as [p|base ms|ct|ct|t IH|ct t IH|fs IH|c bs dt IH IHd|n t IH] using type_induction.
  - apply decodes_prim.
  - apply decodes_mapper.
  - apply decodes_pstring.
  - apply decodes_buffer.
  - by apply decodes_option.
  - by apply decodes_array.
  - by apply decodes_container.
  - by apply decodes_switch.
  - by apply decodes_named.
Qed.

(** A packet: the fields, the end, at the top of the paths. *)
Theorem decode_packet_ok fs fuel parent v o out_ c r : unshadowed fs ->
  type_ok resolver_ (TContainer fs) -> fits (TContainer fs) parent v -> (depth (TContainer fs) <= fuel)%nat ->
  offset_valid d o -> offset_rest d o = enc (TContainer fs) parent v ++ r ->
  exists c', decode_ fuel (render (schema (TContainer fs))) "" (mkState o out_ c) =
    (Ok tt, mkState (o + size (enc (TContainer fs) parent v)) (out_ ++ flds (TContainer fs) parent v "" o) c').
Proof.
  destruct fuel as [|fuel]; [cbn; lia|]. intros Hun Hok Hv Hf Ho Hr.
  destruct (container_runs fs fuel parent v "" o out_ c r) as (c' & H & _); [|done..|by exists c'].
  apply list.Forall_forall. intros f _. apply decode_type_ok.
Qed.
End Decodes.
