(* ===== verification/ProtoDefRoundtrip.v ===== *)
(** * Packets by schemas, there and back

    The interpreters put together at [ProtoDefPacketEncoder] and
    [ProtoDefPacketDecoder]: for a packet whose schema is the text of a container
    of [ProtoDefTypes], what the encoder writes is the reference definition
    [enc], and the strict decoder makes the reference fields [flds] of it; of
    bytes behind the packet the strict decoder complains and the lenient one
    says nothing. *)

From S2P Require Import Prelude MachineInt Leb128 Endian ZigZag FloatBits GamePacket Text FloatText Nbt ProtoDefData ProtoDefJson.
From S2P Require Import ProtoDefText ProtoDefStream ProtoDefNbt ProtoDefEncoder ProtoDefDecoder ProtoDefPackets ProtoDefSchema ProtoDefTypes ProtoDefEncodes ProtoDefDecodes.

Import ProtoDefJson ProtoDefText ProtoDefPackets.

(** ** The reference encoding consists of bytes *)

Lemma reverse_bytes k : is_bytes k -> is_bytes (big k).
Proof. unfold big. rewrite !list.Forall_forall. intros H b Hb. apply H. by apply elem_of_reverse. Qed.

Lemma itype_enc_bytes i n : in_range i n -> is_bytes (itype_enc i n).
Proof.
  intros Hn. assert (is_bytes [n mod 2 ^ 8]) as H8 by (constructor; [by apply (to_u_range 8)|constructor]).
  destruct i; cbn [itype_enc in_range] in *;
    first [exact H8|apply le_encode_bytes|apply reverse_bytes, le_encode_bytes|apply leb_encode_bytes, Hn|apply leb_encode_bytes].
  - by apply (zigzag_range 32 n).
  - by apply (zigzag_range 64 n).
Qed.

Lemma prim_enc_bytes p v : prim_fits p v -> is_bytes (prim_enc p v).
Proof.
  intros Hv. destruct p as [| | |i|b|b]; cbn [prim_fits prim_enc] in Hv |- *; [constructor| | | | |].
  - destruct v as [|[]| | | | | | |]; try done; repeat constructor; done.
  - destruct v; try done. unfold enc_string32. apply is_bytes_app. split; [apply leb_encode_bytes, size_nonneg|apply bytes_of_string_bytes].
  - destruct (int_value v); [by apply itype_enc_bytes|done].
  - destruct v; try done. destruct b; cbn [ordered]; [|apply reverse_bytes]; apply le_encode_bytes.
  - destruct v; try done. destruct b; cbn [ordered]; [|apply reverse_bytes]; apply le_encode_bytes.
Qed.

Lemma bind_bytes {A} (f : A -> bytes) l : Forall (fun x => is_bytes (f x)) l -> is_bytes (l ≫= f).
Proof. induction 1 as [|x l Hx _ IH]; [constructor|]. rewrite bind_cons. by apply is_bytes_app. Qed.

Lemma enc_bytes resolver_ t : forall parent v, type_ok resolver_ t -> fits t parent v -> is_bytes (enc t parent v).
Proof.
  induction t as [p|base ms|ct|ct|t IH|ct t IH|fs IH|c bs d IH IHd|n t IH] using type_induction; intros parent v Hok Hv.
  - by apply prim_enc_bytes.
  - destruct Hok as (_ & _ & Hms). cbn [fits enc] in *. destruct v as [| | | | |s| | |]; try done. destruct Hv as [n Hn]. rewrite Hn.
    rewrite list.Forall_forall in Hms. apply itype_enc_bytes. by apply (Hms (n, s)), mapped_in.
  - cbn [fits enc] in *. destruct v; try done. apply is_bytes_app. split; [by apply itype_enc_bytes|apply bytes_of_string_bytes].
  - cbn [fits enc] in *. destruct v; try done. destruct Hv. apply is_bytes_app. split; [by apply itype_enc_bytes|done].
  - destruct Hok as [_ Hok]. cbn [fits enc] in *.
    destruct v; [constructor; [done|constructor]|constructor; [done|by apply IH]..].
  - destruct Hok as (_ & _ & Hok). cbn [fits enc] in *. destruct v as [| | | | | | | |l]; try done. destruct Hv as [Hn Hv].
    apply is_bytes_app. split; [by apply itype_enc_bytes|]. apply bind_bytes.
    clear Hn. induction l as [|x l IHl]; constructor; destruct Hv as [H1 H2]; [by apply IH|by apply IHl].
  - pose proof (container_fields resolver_ fs Hok) as Hfs. cbn [fits enc] in *. destruct v as [| | | | | | |es|]; try done. apply bind_bytes.
    clear Hok. induction IH as [|f fs Hf _ IHfs]; constructor; inversion Hfs as [|? ? [_ H1] H2]; subst; destruct Hv as [[_ H3] H4].
    + by apply Hf.
    + by apply IHfs.
  - rewrite enc_switch. destruct (fits_switch _ _ _ _ _ Hv) as (_ & _ & Hfit). destruct (branch_of _ bs d) as [t|] eqn:E; [|constructor].
    destruct (branch_ok resolver_ _ _ _ _ _ Hok E) as [_ Ht].
    exact (branch_in (fun t => forall parent v, type_ok resolver_ t -> fits t parent v -> is_bytes (enc t parent v)) _ _ _ _ IH IHd E _ _ Ht Hfit).
  - destruct Hok as (_ & _ & _ & _ & Hok). by apply IH.
Qed.

(** ** Packets *)

Section Roundtrip.
Context (version_ : string) (file : string -> option text).
Context (generatedProtocolTypeJson : string -> string -> option string) (generated_default : string -> option string).
Context (variables_order : ProtoDefVariableMap -> list (string * string)) (flags_order : list (string * Z) -> list (string * Z)).
Context (fuel : nat).

Abbreviation resolve := (resolveType version_ file generatedProtocolTypeJson).
Abbreviation encode_packet_ := (encode_packet version_ file generatedProtocolTypeJson generated_default variables_order fuel).
Abbreviation strict := (decodePacketStrict version_ file generatedProtocolTypeJson generated_default variables_order flags_order fuel).
Abbreviation lenient := (decode_packet version_ file generatedProtocolTypeJson generated_default variables_order flags_order fuel).

(** A packet of the schema, which carries no item palette. *)
Definition packet_ok (packetName : string) (fs : list (string * ptype)) : Prop :=
  resolve ("packet_" +:+ packetName) = Some (str (render (schema (TContainer fs)))) /\
  packetCarriesItemPalette packetName = false /\ type_ok resolve (TContainer fs) /\ unshadowed fs /\ (depth (TContainer fs) <= fuel)%nat.

Definition packet_bytes (fs : list (string * ptype)) (v : ProtoDefValue) : bytes := enc (TContainer fs) v v.
Definition packet_fields (fs : list (string * ptype)) (v : ProtoDefValue) : list ProtoDefField := flds (TContainer fs) v v "" 0.

Lemma packet_encoded packetName fs v variables : packet_ok packetName fs -> fits (TContainer fs) v v ->
  encode_packet_ packetName v variables = (Ok (packet_bytes fs v), variables).
Proof.
  intros (Hs & Hp & Hok & _ & Hf) Hv. unfold encode_packet, updateItemPaletteFromValue. rewrite Hp. cbn [negb].
  rewrite bind_ret, Hs, chars_str.
  rewrite (bind_ok _ _ _ _ _ (eq_refl : get_st variables = (Ok variables, variables))). unfold exec.
  destruct (encode_type_ok resolve generated_default (variables_order variables) (TContainer fs)) as [H _].
  by rewrite (H eq_refl fuel v v v Hok eq_refl Hv (extends_same v) Hf []).
Qed.

Lemma packet_decoded packetName fs v r variables : packet_ok packetName fs -> fits (TContainer fs) v v -> is_bytes r ->
  exists c, decode_fields version_ file generatedProtocolTypeJson generated_default variables_order flags_order fuel
    (str (render (schema (TContainer fs)))) (packet_bytes fs v ++ r) variables true =
    (Ok tt, ProtoDefDecoder.mkState (size (packet_bytes fs v)) (packet_fields fs v) c).
Proof.
  intros (Hs & Hp & Hok & Hun & Hf) Hv Hr. unfold decode_fields, start_state. rewrite chars_str.
  assert (is_bytes (packet_bytes fs v ++ r)) as Hd by (apply is_bytes_app; split; [by eapply enc_bytes|done]).
  destruct (decode_packet_ok _ Hd resolve generated_default (variables_order variables) flags_order fs fuel v v 0 [] ∅ r Hun Hok Hv Hf) as [c Hc].
  - pose proof (size_nonneg (packet_bytes fs v ++ r)). split; [done|]. done.
  - unfold offset_rest. rewrite drop_0. done.
  - exists c. exact Hc.
Qed.

Lemma decoded_variables packetName fs v variables : packet_ok packetName fs ->
  updateItemPaletteFromFields packetName (packet_fields fs v) variables = (Ok tt, variables).
Proof. intros (_ & Hp & _). unfold updateItemPaletteFromFields. by rewrite Hp. Qed.

(** C5: For a packet whose schema, in a file or a generated table, is the text of
    a container (of fields, mappers, counted strings, buffers and arrays,
    options, named types and switches over earlier fields), and an object that
    fits it, [encodePacket] writes the reference encoding, whatever the
    variables, and [decodePacketStrict] makes exactly the reference fields, with
    their paths, types, texts, offsets and sizes, of these bytes. *)
Theorem protodef_packet_roundtrip packetName fs v variables variables' : packet_ok packetName fs -> fits (TContainer fs) v v ->
  encode_packet_ packetName v variables = (Ok (packet_bytes fs v), variables) /\
  strict packetName (packet_bytes fs v) variables' = (Ok (packet_fields fs v), variables').
Proof.
  intros Hok Hv. split; [by apply packet_encoded|]. pose proof Hok as (Hs & _).
  unfold decodePacketStrict, decodePacketImpl. rewrite Hs.
  rewrite (bind_ok _ _ _ _ _ (eq_refl : get_st variables' = (Ok variables', variables'))).
  destruct (packet_decoded packetName fs v [] variables' Hok Hv (List.Forall_nil _)) as [c Hc]. rewrite app_nil_r in Hc. rewrite Hc.
  cbn [fields_of]. cbn [rbind ProtoDefDecoder.offset_ ProtoDefDecoder.out]. rewrite Z.sub_diag. cbn [Z.eqb negb]. rewrite bind_lift.
  by rewrite (bind_ok _ _ _ _ _ (decoded_variables packetName fs v variables' Hok)).
Qed.

(** C29: Of bytes that a packet is followed by, [decodePacketStrict] complains
    with their number and leaves the variables alone; [decodePacket], which does
    its best, returns the fields all the same. *)
Theorem protodef_unread packetName fs v r variables : packet_ok packetName fs -> fits (TContainer fs) v v -> is_bytes r -> r <> [] ->
  strict packetName (packet_bytes fs v ++ r) variables =
    (Throw (RuntimeError ("packet " +:+ packetName +:+ " has " +:+ to_string (size r) +:+ " unread byte(s)")), variables) /\
  lenient packetName (packet_bytes fs v ++ r) variables = (Ok (packet_fields fs v), variables).
Proof.
  intros Hok Hv Hr Hne. pose proof Hok as (Hs & _). destruct (packet_decoded packetName fs v r variables Hok Hv Hr) as [c Hc].
  unfold decodePacketStrict, decode_packet, decodePacketImpl. rewrite Hs.
  rewrite !(bind_ok _ _ _ _ _ (eq_refl : get_st variables = (Ok variables, variables))). rewrite Hc.
  cbn [fields_of]. cbn [rbind rcatch ProtoDefDecoder.offset_ ProtoDefDecoder.out]. split.
  - rewrite size_app, Z.add_simpl_l. assert (size r <> 0) as Hz by (destruct r; [done|unfold size; cbn; lia]).
    rewrite (proj2 (Z.eqb_neq _ _) Hz). done.
  - rewrite bind_lift. by rewrite (bind_ok _ _ _ _ _ (decoded_variables packetName fs v variables Hok)).
Qed.
End Roundtrip.

(** ** A packet with every kind of type *)

Definition item_type : ptype := TContainer [("id", TPrim (PInt Varint)); ("on", TPrim PBool)].
Definition sample_fields : list (string * ptype) :=
  [("kind", TMapper U8 [(0, "none"); (1, "item"); (2, "block")]);
   ("body", TSwitch "kind" [("item", TNamed "Item" item_type); ("none", TPrim PVoid)] (Some (TPrim (PInt ZigZag32))));
   ("tags", TArray LI16 (TPString Varint));
   ("extra", TOption (TContainer [("x", TPrim (PDouble true)); ("raw", TBuffer U8)]))].

Definition sample_table (version typeName : string) : option string :=
  if bool_decide (typeName = "packet_sample") then Some (str (render (schema (TContainer sample_fields))))
  else if bool_decide (typeName = "Item") then Some (str (render (schema item_type)))
  else None.

Definition sample_value : ProtoDefValue :=
  Object [("kind", String_ "item"); ("body", Object [("id", UInt 300); ("on", Bool true)]);
          ("tags", Array [String_ "a"; String_ "bc"]); ("extra", Object [("x", Double 4607182418800017408); ("raw", Bytes [7; 8])])].

Lemma sample_ok version : packet_ok version (fun _ => None) sample_table 20 "sample" sample_fields.
Proof.
  unfold packet_ok. split_and!; [done|done| | |by apply (bool_decide_unpack _)].
  - cbn [type_ok sample_fields item_type foldr fst snd]. split_and!; try done; try (by apply (bool_decide_unpack _));
      repeat constructor; try done; by apply (bool_decide_unpack _).
  - repeat constructor; cbn; by apply (bool_decide_unpack _).
Qed.

Lemma sample_fits : fits (TContainer sample_fields) sample_value sample_value.
Proof. cbn. split_and!; try done; try (by eexists); try (left; by eexists); repeat constructor; done. Qed.

Abbreviation sample_strict := (decodePacketStrict "1.21.0" (fun _ => None) sample_table (fun _ => None) (fun _ => []) (fun l => l) 20).
Abbreviation sample_lenient := (decode_packet "1.21.0" (fun _ => None) sample_table (fun _ => None) (fun _ => []) (fun l => l) 20).

Lemma protodef_packet_roundtrip_witness :
  encode_packet "1.21.0" (fun _ => None) sample_table (fun _ => None) (fun _ => []) 20 "sample" sample_value ∅ =
    (Ok [1; 172; 2; 1; 2; 0; 1; 97; 2; 98; 99; 1; 0; 0; 0; 0; 0; 0; 240; 63; 2; 7; 8], ∅) /\
  sample_strict "sample" (packet_bytes sample_fields sample_value) ∅ = (Ok (packet_fields sample_fields sample_value), ∅).
Proof.
  exact (protodef_packet_roundtrip "1.21.0" (fun _ => None) sample_table (fun _ => None) (fun _ => []) (fun l => l) 20 "sample"
    sample_fields sample_value ∅ ∅ (sample_ok "1.21.0") sample_fits).
Defined.

Lemma protodef_unread_witness :
  sample_strict "sample" (packet_bytes sample_fields sample_value ++ [9; 9]) ∅ =
    (Throw (RuntimeError "packet sample has 2 unread byte(s)"), ∅) /\
  sample_lenient "sample" (packet_bytes sample_fields sample_value ++ [9; 9]) ∅ = (Ok (packet_fields sample_fields sample_value), ∅).
Proof.
  refine (protodef_unread "1.21.0" (fun _ => None) sample_table (fun _ => None) (fun _ => []) (fun l => l) 20 "sample"
    sample_fields sample_value [9; 9] ∅ (sample_ok "1.21.0") sample_fits _ _); [repeat constructor; done|done].
Defined.

(** ** Where the conditions matter

    The encoder takes the first place where a branch's quoted key stands, be it
    inside another branch: then it writes one type and the decoder reads
    another ([keys_first]). *)

Definition nested_key : ptype :=
  TSwitch "kind" [("a", TOption (TNamed "b" (TPrim PBool))); ("c", TPrim (PInt U8)); ("b", TPrim (PInt U16))] None.

Lemma switch_key_inside_branch :
  ProtoDefEncoder.findSwitchBranchType [] (render (schema nested_key)) "b" = Some (qt "u8") /\
  ProtoDefDecoder.findSwitchBranchType [] (render (schema nested_key)) "b" = Some (qt "u16").
Proof. split; vm_compute; reflexivity. Qed.

(** A field inside a field overwrites the context's entry of a top-level field
    of the same name, and a switch over the latter takes another branch
    ([unshadowed]). *)

Definition alias_fields : list (string * ptype) :=
  [("k", TPrim PString); ("o", TContainer [("k", TPrim PString)]);
   ("s", TSwitch "k" [("x", TPrim (PInt U8)); ("y", TPrim (PInt U16))] None)].
Definition alias_value : ProtoDefValue := Object [("k", String_ "x"); ("o", Object [("k", String_ "y")]); ("s", UInt 5)].
Definition alias_table (version typeName : string) : option string :=
  if bool_decide (typeName = "packet_alias") then Some (str (render (schema (TContainer alias_fields)))) else None.

Lemma context_alias_misreads :
  fst (encode_packet "1.21.0" (fun _ => None) alias_table (fun _ => None) (fun _ => []) 9 "alias" alias_value ∅) = Ok [1; 120; 1; 121; 5] /\
  fst (decodePacketStrict "1.21.0" (fun _ => None) alias_table (fun _ => None) (fun _ => []) (fun l => l) 9 "alias" [1; 120; 1; 121; 5] ∅) =
    Throw (RuntimeError "at s: not enough bytes for u8 at offset 5").
Proof. split; vm_compute; reflexivity. Qed.

(** The count of an array is cut to the width of its type ([in_range]). *)
Lemma count_truncated :
  exec (ProtoDefEncoder.encode (fun _ => None) (fun _ => None) [] 3 (render (schema (TArray U8 (TPrim PVoid)))) (Array (repeat Null 256))) [] =
    Ok [0].
Proof. vm_compute. reflexivity. Qed.

(** An address may end in a dot. *)
Lemma address_trailing_dot : exec (ProtoDefEncoder.writeIpAddress "1.2.3.4.") [] = Ok [1; 2; 3; 4].
Proof. vm_compute. reflexivity. Qed.

(** An infinite double has a text that is not JSON. *)
Lemma infinite_unreadable :
  protoDefValueToJson (Double (2047 * 2 ^ 52)) = "inf" /\
  protoDefValueFromJson "inf" = Throw (RuntimeError "ProtoDefJson unexpected character").
Proof. split; vm_compute; reflexivity. Qed.
