(* ===== verification/NetworkClient.v ===== *)
(** * The network client (src/src/client/BedrockNetworkClient.cpp)

    The client from the transport callbacks down to the wire: connection,
    negotiation, encryption handshake, the built-in answers, the queue of
    packets, closing.  Events go to the caller's listeners [listen], which are
    computations on the client: they may call any of its operations.  The
    threads and locks are not modelled: an operation is one atomic step, which
    is what [sendMutex_] makes of a send and [queueMutex_] of a queue access.
    [events_] and [wire_] record what the listeners and the transport are
    given, in order.  Parameters: the packet codecs, the login packet (it is
    made by the authentication code), the key derivation (OpenSSL), the
    clocks, the tracking of the world and the handlers on the session. *)

From S2P Require Import Prelude MachineInt Leb128 Endian Framing GamePacket Text Snappy Zlib Versioned VersionedCodec VersionedReader ClientSession Encryption ClientLink ProtoDefData.

Import VersionedPacketCodec VersionedBatchCodec VersionedMcpeCodec BedrockEncryption BedrockNetworkLink.

Module BedrockNetworkClient.

Inductive BedrockNetworkClientStatus := Disconnected | Connecting | Authenticating | Initializing | Initialized.

#[export] Instance status_eq_dec : EqDecision BedrockNetworkClientStatus.
Proof. solve_decision. Defined.

(** What the listeners are called with. *)
Inductive event :=
| EvPacket (packet : VersionedGamePacket)
| EvNamed (name : string) (packet : VersionedGamePacket)
| EvError (message : string)
| EvStatus (status : BedrockNetworkClientStatus)
| EvLoggingIn
| EvJoin
| EvSpawn
| EvHeartbeat (tick : Z)
| EvClose (reason : string).

Record BedrockNetworkClientOptions := mkOptions {
  link_config : config;
  autoInitPlayer : bool;
  autoResourcePackResponses : bool;
  trackWorld : bool;
  clientCacheEnabled : bool;
  chunkRadius : Z
}.

(** A client in the environment [E] of its listeners, with the packet variables
    [V] and the tracked world [T].  [transport] is [raknet_]: null, or connected
    or not. *)
Record client {c : crypto} {V T E : Type} := mkClient {
  link_ : link c;
  session_ : VersionedClientSession.session;
  variables_ : V;
  tracked_ : T;
  status_ : BedrockNetworkClientStatus;
  runtimeEntityId_ : option Z;
  startGameData_ : option VersionedGamePacket;
  initializeOnNextStartGame_ : bool;
  resourcePacksInfoHandled_ : bool;
  resourcePackStackHandlerArmed_ : bool;
  queuedPackets_ : list VersionedGamePacket;
  chunkRadiusDue_ : option Z;
  keepAliveDue_ : option Z;
  tick_ : Z;
  stopQueue_ : bool;
  rakNetStopRequested_ : bool;
  rakNetCallbackDepth_ : Z;
  listening_ : bool;
  transport_ : option bool;
  wire_ : list bytes;
  events_ : list event;
  env_ : E
}.
Arguments client : clear implicits.

(** ** Field updates *)
Section Fields.
Context {c : crypto} {V T E : Type}.

Definition set_link l (s : client c V T E) : client c V T E :=
  mkClient c V T E l (session_ s) (variables_ s) (tracked_ s) (status_ s) (runtimeEntityId_ s) (startGameData_ s)
    (initializeOnNextStartGame_ s) (resourcePacksInfoHandled_ s) (resourcePackStackHandlerArmed_ s) (queuedPackets_ s)
    (chunkRadiusDue_ s) (keepAliveDue_ s) (tick_ s) (stopQueue_ s) (rakNetStopRequested_ s) (rakNetCallbackDepth_ s)
    (listening_ s) (transport_ s) (wire_ s) (events_ s) (env_ s).
Definition set_session x (s : client c V T E) : client c V T E :=
  mkClient c V T E (link_ s) x (variables_ s) (tracked_ s) (status_ s) (runtimeEntityId_ s) (startGameData_ s)
    (initializeOnNextStartGame_ s) (resourcePacksInfoHandled_ s) (resourcePackStackHandlerArmed_ s) (queuedPackets_ s)
    (chunkRadiusDue_ s) (keepAliveDue_ s) (tick_ s) (stopQueue_ s) (rakNetStopRequested_ s) (rakNetCallbackDepth_ s)
    (listening_ s) (transport_ s) (wire_ s) (events_ s) (env_ s).
Definition set_variables x (s : client c V T E) : client c V T E :=
  mkClient c V T E (link_ s) (session_ s) x (tracked_ s) (status_ s) (runtimeEntityId_ s) (startGameData_ s)
    (initializeOnNextStartGame_ s) (resourcePacksInfoHandled_ s) (resourcePackStackHandlerArmed_ s) (queuedPackets_ s)
    (chunkRadiusDue_ s) (keepAliveDue_ s) (tick_ s) (stopQueue_ s) (rakNetStopRequested_ s) (rakNetCallbackDepth_ s)
    (listening_ s) (transport_ s) (wire_ s) (events_ s) (env_ s).
Definition set_tracked x (s : client c V T E) : client c V T E :=
  mkClient c V T E (link_ s) (session_ s) (variables_ s) x (status_ s) (runtimeEntityId_ s) (startGameData_ s)
    (initializeOnNextStartGame_ s) (resourcePacksInfoHandled_ s) (resourcePackStackHandlerArmed_ s) (queuedPackets_ s)
    (chunkRadiusDue_ s) (keepAliveDue_ s) (tick_ s) (stopQueue_ s) (rakNetStopRequested_ s) (rakNetCallbackDepth_ s)
    (listening_ s) (transport_ s) (wire_ s) (events_ s) (env_ s).
Definition set_status x (s : client c V T E) : client c V T E :=
  mkClient c V T E (link_ s) (session_ s) (variables_ s) (tracked_ s) x (runtimeEntityId_ s) (startGameData_ s)
    (initializeOnNextStartGame_ s) (resourcePacksInfoHandled_ s) (resourcePackStackHandlerArmed_ s) (queuedPackets_ s)
    (chunkRadiusDue_ s) (keepAliveDue_ s) (tick_ s) (stopQueue_ s) (rakNetStopRequested_ s) (rakNetCallbackDepth_ s)
    (listening_ s) (transport_ s) (wire_ s) (events_ s) (env_ s).
Definition set_start id data next (s : client c V T E) : client c V T E :=
  mkClient c V T E (link_ s) (session_ s) (variables_ s) (tracked_ s) (status_ s) id data
    next (resourcePacksInfoHandled_ s) (resourcePackStackHandlerArmed_ s) (queuedPackets_ s)
    (chunkRadiusDue_ s) (keepAliveDue_ s) (tick_ s) (stopQueue_ s) (rakNetStopRequested_ s) (rakNetCallbackDepth_ s)
    (listening_ s) (transport_ s) (wire_ s) (events_ s) (env_ s).
Definition set_packs handled armed (s : client c V T E) : client c V T E :=
  mkClient c V T E (link_ s) (session_ s) (variables_ s) (tracked_ s) (status_ s) (runtimeEntityId_ s) (startGameData_ s)
    (initializeOnNextStartGame_ s) handled armed (queuedPackets_ s)
    (chunkRadiusDue_ s) (keepAliveDue_ s) (tick_ s) (stopQueue_ s) (rakNetStopRequested_ s) (rakNetCallbackDepth_ s)
    (listening_ s) (transport_ s) (wire_ s) (events_ s) (env_ s).
Definition set_queue packets radius alive tick stop (s : client c V T E) : client c V T E :=
  mkClient c V T E (link_ s) (session_ s) (variables_ s) (tracked_ s) (status_ s) (runtimeEntityId_ s) (startGameData_ s)
    (initializeOnNextStartGame_ s) (resourcePacksInfoHandled_ s) (resourcePackStackHandlerArmed_ s) packets
    radius alive tick stop (rakNetStopRequested_ s) (rakNetCallbackDepth_ s)
    (listening_ s) (transport_ s) (wire_ s) (events_ s) (env_ s).
Definition set_stop requested depth listening transport (s : client c V T E) : client c V T E :=
  mkClient c V T E (link_ s) (session_ s) (variables_ s) (tracked_ s) (status_ s) (runtimeEntityId_ s) (startGameData_ s)
    (initializeOnNextStartGame_ s) (resourcePacksInfoHandled_ s) (resourcePackStackHandlerArmed_ s) (queuedPackets_ s)
    (chunkRadiusDue_ s) (keepAliveDue_ s) (tick_ s) (stopQueue_ s) requested depth
    listening transport (wire_ s) (events_ s) (env_ s).
Definition set_output wire events env (s : client c V T E) : client c V T E :=
  mkClient c V T E (link_ s) (session_ s) (variables_ s) (tracked_ s) (status_ s) (runtimeEntityId_ s) (startGameData_ s)
    (initializeOnNextStartGame_ s) (resourcePacksInfoHandled_ s) (resourcePackStackHandlerArmed_ s) (queuedPackets_ s)
    (chunkRadiusDue_ s) (keepAliveDue_ s) (tick_ s) (stopQueue_ s) (rakNetStopRequested_ s) (rakNetCallbackDepth_ s)
    (listening_ s) (transport_ s) wire events env.

Definition set_packets x s := set_queue x (chunkRadiusDue_ s) (keepAliveDue_ s) (tick_ s) (stopQueue_ s) s.
Definition set_env e s := set_output (wire_ s) (events_ s) e s.
Definition push_event ev s := set_output (wire_ s) (events_ s ++ [ev]) (env_ s) s.
Definition push_wire payload s := set_output (wire_ s ++ [payload]) (events_ s) (env_ s) s.
Definition set_depth n s := set_stop (rakNetStopRequested_ s) n (listening_ s) (transport_ s) s.
Definition set_requested s := set_stop true (rakNetCallbackDepth_ s) (listening_ s) (transport_ s) s.
Definition clear_listeners s := set_stop (rakNetStopRequested_ s) (rakNetCallbackDepth_ s) false (transport_ s) s.
Definition set_transport t s := set_stop (rakNetStopRequested_ s) (rakNetCallbackDepth_ s) (listening_ s) t s.
End Fields.

(** ** Helpers of the file *)

Definition dot : Ascii.ascii := Ascii.ascii_of_nat 46.
Definition slash : Ascii.ascii := Ascii.ascii_of_nat 47.

(** [field.path == name], or what follows the last dot of the path is. *)
Definition field_named (name : string) (field : ProtoDefField) : bool :=
  bool_decide (path field = name)
  || match rfind_char dot (path field) with
     | None => false
     | Some i => bool_decide (String.substring (S i) (String.length (path field) - S i) (path field) = name)
     end.

Definition findFieldValue (fields : list ProtoDefField) (name : string) : string :=
  match ProtocolDefinition.find_first (field_named name) fields with
  | Some field => value field
  | None => ""
  end.

(** [std::stoul] wraps a negative number; the cast keeps the low 16 bits. *)
Definition parseU16Field (fields : list ProtoDefField) (name : string) (fallback : Z) : result Z :=
  let v := findFieldValue fields name in
  if bool_decide (v = "") then Ok fallback
  else rcatch (let! n := stoul v in Ok (to_u16 n)) (fun _ => Ok fallback).

Definition playStatusCode (packet : VersionedGamePacket) : result Z :=
  if negb (bool_decide (packet_name packet = "play_status")) || (size (payload packet) <? 4) then Ok (-1)
  else
    let! b0 := vec_at (payload packet) 0 in
    let! b1 := vec_at (payload packet) 1 in
    let! b2 := vec_at (payload packet) 2 in
    let! b3 := vec_at (payload packet) 3 in
    Ok (Z.lor (Z.lor (Z.lor (to_i32 (Z.shiftl b0 24)) (Z.shiftl b1 16)) (Z.shiftl b2 8)) b3).

Definition readI64LE (data : bytes) (offset : Z) : result Z :=
  if offset + 8 >? size data then Throw (RuntimeError "not enough bytes for li64")
  else let! raw := load_le64 data offset in Ok (to_i64 raw).

(** The result of a 64-bit addition. *)
Definition i64 (v : Z) : result Z :=
  if bool_decide (is_s 64 v) then Ok v else Throw (UndefinedBehaviour "signed overflow").

Definition versionAtMost (get : string -> option ProtocolVersionInfo) (version maximum : string) : result bool :=
  let! a := ProtocolDefinition.forVersion get version in
  let! b := ProtocolDefinition.forVersion get maximum in
  Ok (ProtocolDefinition.protocolVersion a <=? ProtocolDefinition.protocolVersion b).

(** ** What the client is given

    Its options, its listeners and the code that is not part of the model. *)
Class Surroundings (c : crypto) (V T E : Type) := mkSurroundings {
  zlib_ : zlib;
  options_ : BedrockNetworkClientOptions;
  (** [GeneratedProtocolRegistry::get]. *)
  registry : string -> option ProtocolVersionInfo;
  (** The listeners of an event, and whether there is one for errors. *)
  listen : event -> M (client c V T E) unit;
  error_listener : bool;
  (** The login packet, from the caller's accounts and keys. *)
  prepareLoginPacket : M E bytes;
  (** [deriveFromServerHandshakeJwtAndPrivateKeyPem] with the client's key. *)
  deriveKeys : string -> E -> result DerivedKeyResult;
  (** [steady_clock::now()] and [unixTimeMillis()], in milliseconds. *)
  steady_now : E -> Z;
  unixTimeMillis : E -> Z;
  (** The handlers that keep the tracked world. *)
  handleLevelChunk : VersionedGamePacket -> M (client c V T E) unit;
  handleSubChunk : VersionedGamePacket -> M (client c V T E) unit;
  handleClientCacheMissResponse : VersionedGamePacket -> M (client c V T E) unit;
  (** The handlers registered on the session. *)
  session_handlers : VersionedClientSession.handlers (E := E)
}.

(** ** Operations *)
Section Client.
Context {c : crypto} {V T E : Type} `{!PacketCodecs V} `{!Surroundings c V T E}.

Abbreviation St := (client c V T E).

Definition linkConfig : config := link_config options_.
Definition packetDefinition : ProtocolVersionInfo := definition (mcpeCodec linkConfig).

Definition modify (f : St -> St) : M St unit := fun s => (Ok tt, f s).
Definition on_link {A} (m : M (link c) A) : M St A := zoom link_ set_link m.
Definition on_session {A} (m : M VersionedClientSession.session A) : M St A := zoom session_ set_session m.
Definition on_variables {A} (m : M V A) : M St A := zoom variables_ set_variables m.
Definition on_env {A} (m : M E A) : M St A := zoom env_ set_env m.

(** *** Events *)

(** After [clearEventHandlers] there is no listener to call. *)
Definition emit (ev : event) : M St unit :=
  let* s := get_st in
  if listening_ s then modify (push_event ev) ;;; listen ev else ret tt.

Definition emitError (message : string) : M St unit :=
  let* s := get_st in
  if listening_ s && error_listener then emit (EvError message) else raise (UnhandledError message).

Definition setStatus (status : BedrockNetworkClientStatus) : M St unit :=
  emit (EvStatus status) ;;;
  let* s := get_st in
  if rakNetStopRequested_ s && bool_decide (status_ s = Disconnected) && negb (bool_decide (status = Disconnected))
  then ret tt
  else modify (set_status status).

Definition emitAnyPacket (packet : VersionedGamePacket) : M St unit := emit (EvPacket packet).
Definition emitNamedEvent (eventName : string) (packet : VersionedGamePacket) : M St unit :=
  emit (EvNamed eventName packet).
Definition emitNamedPacket (packet : VersionedGamePacket) : M St unit :=
  emitNamedEvent (packet_name packet) packet.
Definition emitLoggingIn : M St unit := emit EvLoggingIn.
Definition emitJoin : M St unit := emit EvJoin.
Definition emitSpawn : M St unit := emit EvSpawn.
Definition emitHeartbeat (tick : Z) : M St unit := emit (EvHeartbeat tick).

(** *** Sending *)

(** A transport that is not connected drops the payload. *)
Definition sendReliablePayload (payload : bytes) : M St unit :=
  let* s := get_st in
  match transport_ s with
  | Some true => modify (push_wire payload)
  | _ => ret tt
  end.

Definition sendPacketsLocked (packets : list VersionedGamePacket) : M St unit :=
  let* s := get_st in
  if bool_decide (packets = []) || bool_decide (transport_ s = None) then ret tt
  else
    let* payload := on_link (BedrockNetworkLink.sendPacketsLocked c zlib_ linkConfig packets) in
    sendReliablePayload payload.

(** A packet of these two sets variables of the schemas. *)
Definition sets_variables (packet : VersionedGamePacket) : bool :=
  bool_decide (packet_name packet = "start_game") || bool_decide (packet_name packet = "item_registry").

Definition learn (packet : VersionedGamePacket) : M St unit :=
  if sets_variables packet then
    let* _ := on_variables (decodePacket (packet_name packet) (payload packet)) in ret tt
  else ret tt.

Definition sendPackets (packets : list VersionedGamePacket) : M St unit :=
  for_each packets learn ;;; sendPacketsLocked packets.

Definition sendPacket (packet : VersionedGamePacket) : M St unit := sendPackets [packet].

Definition send (packetName : string) (value : ProtoDefValue) : M St unit :=
  let* payload := on_variables (encodePacket packetName value) in
  let* packet := lift (makePacketByName packetDefinition packetName payload) in
  sendPacket packet.

Definition write (packetName : string) (value : ProtoDefValue) : M St unit := send packetName value.

Definition queue_packet (packet : VersionedGamePacket) : M St unit :=
  modify (fun s => set_packets (queuedPackets_ s ++ [packet]) s).

Definition queue (packetName : string) (value : ProtoDefValue) : M St unit :=
  let* payload := on_variables (encodePacket packetName value) in
  let* packet := lift (makePacketByName packetDefinition packetName payload) in
  queue_packet packet.

Definition sendQueued : M St unit :=
  let* s := get_st in
  modify (set_packets []) ;;;
  sendPackets (queuedPackets_ s).

Definition sendBuffer (buffer : bytes) (immediate : bool) : M St unit :=
  let* packet := lift (decodeFullPacket packetDefinition buffer) in
  learn packet ;;;
  if immediate then sendPacket packet else queue_packet packet.

Definition drainSessionOutgoing : M St unit :=
  let* outgoing := on_session VersionedClientSession.takeOutgoingPackets in
  if bool_decide (outgoing = []) then ret tt else sendPackets outgoing.

(** *** Closing *)

Definition stopQueue : M St unit :=
  modify (fun s => set_queue [] None None (tick_ s) true s).

Definition onRakNetCallbackThread (s : St) : bool := 0 <? rakNetCallbackDepth_ s.

(** Without the waiting for other threads that close at the same time. *)
Definition emitClose (reason : string) (closeTransport : bool) : M St unit :=
  let* s := get_st in
  (if negb (bool_decide (status_ s = Disconnected)) then emit (EvClose reason) else ret tt) ;;;
  modify set_requested ;;;
  stopQueue ;;;
  (if closeTransport then
     modify (fun s => set_transport
       (match transport_ s with
        | Some _ => if onRakNetCallbackThread s then Some false else None
        | None => None
        end) s)
   else ret tt) ;;;
  modify clear_listeners ;;;
  setStatus Disconnected.

Definition close (reason : string) : M St unit := emitClose reason true.

Definition sendDisconnectPacket (reason : string) : M St bool :=
  let* s := get_st in
  if bool_decide (status_ s = Disconnected) then ret false
  else
    write "disconnect" (Object [("reason", String_ "unknown"); ("hide_disconnect_reason", Bool false);
                                ("message", String_ reason); ("filtered_message", String_ "")]) ;;;
    ret true.

Definition disconnect (reason : string) : M St unit :=
  let* sent := sendDisconnectPacket reason in
  if negb sent then ret tt else close reason.

(** [RakNetCallbackScope]: left on an exception too. *)
Definition in_callback {A} (m : M St A) : M St A := fun s =>
  match m (set_depth (rakNetCallbackDepth_ s + 1) s) with
  | (r, s') => (r, set_depth (rakNetCallbackDepth_ s' - 1) s')
  end.

(** The transport's own close callback; it has dropped its connection before. *)
Definition onTransportClose (reason : string) : M St unit :=
  modify (fun s => set_transport (match transport_ s with Some _ => Some false | None => None end) s) ;;;
  in_callback (emitClose reason false).

(** *** Connecting *)

Definition sendLogin : M St unit :=
  setStatus Authenticating ;;;
  let* loginPacket := on_env prepareLoginPacket in
  let* packet := lift (decodeFullPacket packetDefinition loginPacket) in
  sendPackets [packet] ;;;
  emitLoggingIn.

Definition handleRakNetConnected : M St unit :=
  setStatus Connecting ;;;
  let* modern := lift (versionAtLeast (version linkConfig) 1 19 30) in
  if modern && ProtocolDefinition.hasPacket_name "request_network_settings" packetDefinition then
    let* request := on_session (VersionedClientSession.writeNetworkSettingsRequest
      (ProtocolDefinition.protocolVersion packetDefinition)) in
    sendPackets [request] ;;;
    let* _ := on_session VersionedClientSession.takeOutgoingPackets in
    ret tt
  else sendLogin.

Definition startEncryptionFromServerHandshake (token : string) : M St unit :=
  if bool_decide (token = "") then raise (RuntimeError "server_to_client_handshake has no token")
  else
    let* s := get_st in
    let* keys := lift (deriveKeys token (env_ s)) in
    let* streams := lift (enable_encryption c linkConfig keys (link_ s)) in
    let* handshake := on_session VersionedClientSession.writeClientToServerHandshake in
    modify (set_link streams) ;;;
    sendPacketsLocked [handshake] ;;;
    let* _ := on_session VersionedClientSession.takeOutgoingPackets in
    emitJoin ;;;
    setStatus Initializing.

(** *** The built-in answers *)

Definition completed_response : ProtoDefValue :=
  Object [("response_status", String_ "completed"); ("resourcepackids", Array [])].

(** Versions of the older tick synchronisation. *)
Definition uses_tick_sync : result bool :=
  let! old := versionAtMost registry (version linkConfig) "1.20.80" in
  Ok (old && ProtocolDefinition.hasPacket_name "tick_sync" packetDefinition).

Definition set_radius_due due (s : St) : St :=
  set_queue (queuedPackets_ s) due (keepAliveDue_ s) (tick_ s) (stopQueue_ s) s.
Definition set_alive due tick (s : St) : St :=
  set_queue (queuedPackets_ s) (chunkRadiusDue_ s) due tick (stopQueue_ s) s.

Definition handleResourcePacksInfo : M St unit :=
  let* s := get_st in
  if negb (autoResourcePackResponses options_) || resourcePacksInfoHandled_ s then ret tt
  else
    modify (set_packs true true) ;;;
    write "resource_pack_client_response" completed_response ;;;
    queue "client_cache_status" (Object [("enabled", Bool false)]) ;;;
    let* ticks := lift uses_tick_sync in
    (if ticks : bool then
       let* s := get_st in
       queue "tick_sync" (Object [("request_time", Int (unixTimeMillis (env_ s))); ("response_time", Int 0)])
     else ret tt) ;;;
    modify (fun s => set_radius_due (Some (steady_now (env_ s) + 500)) s).

Definition handleResourcePackStack : M St unit :=
  let* s := get_st in
  if negb (autoResourcePackResponses options_) || negb (resourcePackStackHandlerArmed_ s) then ret tt
  else
    modify (fun s => set_packs (resourcePacksInfoHandled_ s) false s) ;;;
    write "resource_pack_client_response" completed_response.

Definition sendLocalPlayerInitialized (runtimeEntityId : Z) : M St unit :=
  write "set_local_player_as_initialized" (Object [("runtime_entity_id", UInt runtimeEntityId)]).

Definition handleStartGame (packet : VersionedGamePacket) : M St unit :=
  let* startGame := lift (VersionedPayloadReader.readStartGame packet) in
  let id := VersionedPayloadReader.runtimeEntityId startGame in
  modify (fun s => set_start (Some id) (Some packet) (initializeOnNextStartGame_ s) s) ;;;
  let* s := get_st in
  if initializeOnNextStartGame_ s then sendLocalPlayerInitialized id else ret tt.

(** [runtimeEntityId_.has_value() && *runtimeEntityId_ != 0]. *)
Definition known_entity (s : St) : option Z :=
  match runtimeEntityId_ s with
  | Some id => if id =? 0 then None else Some id
  | None => None
  end.

Definition handlePlayStatus (packet : VersionedGamePacket) : M St unit :=
  let* code := lift (playStatusCode packet) in
  let* s := get_st in
  (if (code =? 0) && bool_decide (status_ s = Authenticating) then
     emitJoin ;;; setStatus Initializing
   else ret tt) ;;;
  let* s := get_st in
  if negb (code =? 3) || negb (bool_decide (status_ s = Initializing)) || negb (autoInitPlayer options_) then ret tt
  else
    setStatus Initialized ;;;
    let* s := get_st in
    (match known_entity s with
     | Some id => sendLocalPlayerInitialized id
     | None => modify (fun s => set_start (runtimeEntityId_ s) (startGameData_ s) true s)
     end) ;;;
    let* ticks := lift uses_tick_sync in
    (if ticks : bool then modify (fun s => set_alive (Some (steady_now (env_ s) + 500)) 0 s) else ret tt) ;;;
    emitSpawn.

Definition handleTickSync (packet : VersionedGamePacket) : M St unit :=
  let* s := get_st in
  if bool_decide (keepAliveDue_ s = None) then ret tt
  else
    let* responseTime := lift (readI64LE (payload packet) 8) in
    emitHeartbeat responseTime ;;;
    modify (fun s => set_alive (keepAliveDue_ s) responseTime s).

(** *** Packets and payloads *)

(** The parsers that run before the packet is announced. *)
Definition parse_packet (packet : VersionedGamePacket) : M St (list ProtoDefField) :=
  let name := packet_name packet in
  let* decodedFields :=
    (if bool_decide (name = "network_settings") || bool_decide (name = "server_to_client_handshake")
        || bool_decide (name = "start_game") || bool_decide (name = "item_registry")
     then on_variables (decodePacket name (payload packet)) else ret []) in
  (if bool_decide (name = "start_game") then
     let* _ := lift (VersionedPayloadReader.readStartGame packet) in ret tt
   else if bool_decide (name = "play_status") then
     let* _ := lift (VersionedPayloadReader.readPlayStatus packet) in ret tt
   else if bool_decide (name = "tick_sync") then
     let* _ := lift (readI64LE (payload packet) 0) in
     let* _ := lift (readI64LE (payload packet) 8) in ret tt
   else ret tt) ;;;
  ret decodedFields.

(** What follows the slash of a mapped value. *)
Definition mapped (value : string) : string :=
  match find_char slash value with
  | Some i => String.substring (S i) (String.length value - S i) value
  | None => value
  end.

Definition handle_network_settings (packet : VersionedGamePacket) (decodedFields : list ProtoDefField)
    : M St unit :=
  let* s := get_st in
  let* threshold := lift (parseU16Field decodedFields "compression_threshold" (compressionThreshold_ c (link_ s))) in
  let algorithm := mapped (findFieldValue decodedFields "compression_algorithm") in
  modify (fun s => set_link (apply_settings c algorithm threshold (link_ s)) s) ;;;
  let* s := get_st in
  (if bool_decide (status_ s = Connecting) then sendLogin else ret tt) ;;;
  emitNamedPacket packet.

(** The packets with a handler of their own after the session. *)
Definition handle_built_in (packet : VersionedGamePacket) : M St unit :=
  let name := packet_name packet in
  if bool_decide (name = "resource_packs_info") then handleResourcePacksInfo
  else if bool_decide (name = "resource_pack_stack") then handleResourcePackStack
  else if bool_decide (name = "start_game") then handleStartGame packet
  else if bool_decide (name = "play_status") then handlePlayStatus packet
  else if bool_decide (name = "tick_sync") then handleTickSync packet
  else ret tt.

Definition session_handlePacket (packet : VersionedGamePacket) : M St unit :=
  zoom (fun s => (session_ s, env_ s)) (fun p s => set_session p.1 (set_env p.2 s))
    (VersionedClientSession.handlePacket session_handlers packet).

Definition handle_parsed (packet : VersionedGamePacket) (decodedFields : list ProtoDefField) : M St unit :=
  let name := packet_name packet in
  emitAnyPacket packet ;;;
  if bool_decide (name = "network_settings") then handle_network_settings packet decodedFields
  else if bool_decide (name = "server_to_client_handshake") then
    startEncryptionFromServerHandshake (findFieldValue decodedFields "token") ;;;
    emitNamedEvent "client.server_handshake" packet ;;;
    emitNamedPacket packet
  else if bool_decide (name = "disconnect") then
    emitNamedPacket packet ;;;
    emitNamedEvent "kick" packet ;;;
    close "Server requested disconnect"
  else
    (if bool_decide (name = "level_chunk") && trackWorld options_ then handleLevelChunk packet else ret tt) ;;;
    (if bool_decide (name = "subchunk") && trackWorld options_ then handleSubChunk packet else ret tt) ;;;
    (if bool_decide (name = "client_cache_miss_response") && trackWorld options_
     then handleClientCacheMissResponse packet else ret tt) ;;;
    session_handlePacket packet ;;;
    handle_built_in packet ;;;
    emitNamedPacket packet.

(** Only what [parse_packet] throws is caught. *)
Definition handlePacket (packet : VersionedGamePacket) : M St unit := fun s =>
  match parse_packet packet s with
  | (Ok decodedFields, s') => handle_parsed packet decodedFields s'
  | (Throw e, s') => if is_stuck e then (Throw e, s') else emitError (what e) s'
  end.

Definition handleRakNetPayload (payload : bytes) : M St unit :=
  let* received := on_link (decodeRakNetPayload c zlib_ linkConfig payload) in
  match received with
  | Dropped => ret tt
  | BadChecksum message => emitError message ;;; disconnect "disconnectionScreen.badPacket"
  | UnsupportedCompressor message =>
      emitError message ;;; raise (RuntimeError "unsupported compressor produced no decrypted buffer")
  | Inbound decoded => for_each (batch decoded) handlePacket ;;; drainSessionOutgoing
  end.

(** [connect] installs the transport unless the client has been closed. *)
Definition installTransport : M St unit :=
  modify (fun s => if rakNetStopRequested_ s then s else set_transport (Some true) s).
Definition onConnected : M St unit := in_callback handleRakNetConnected.
Definition onEncapsulated (payload : bytes) : M St unit := in_callback (handleRakNetPayload payload).

(** *** The queue thread *)

(** [options_.chunkRadius] is due. *)
Definition due (d : option Z) (now : Z) : bool := match d with Some t => now >=? t | None => false end.

(** One tick of [queueLoop] that finds the pump enabled. *)
Definition queueTick : M St unit :=
  let* s := get_st in
  if stopQueue_ s then ret tt
  else
    let now := steady_now (env_ s) in
    (if due (chunkRadiusDue_ s) now then
       queue "request_chunk_radius" (Object [("chunk_radius", Int (chunkRadius options_)); ("max_radius", UInt 0)]) ;;;
       modify (set_radius_due None)
     else ret tt) ;;;
    let* s := get_st in
    (if due (keepAliveDue_ s) now then
       queue "tick_sync" (Object [("request_time", Int (tick_ s)); ("response_time", Int 0)]) ;;;
       let* tick := lift (i64 (tick_ s + 10)) in
       modify (set_alive (Some (now + 500)) tick)
     else ret tt) ;;;
    sendQueued.

End Client.

(** A client before it connects; its session answers nothing by itself. *)
Definition session_options (o : BedrockNetworkClientOptions) : VersionedClientSession.VersionedClientSessionOptions :=
  VersionedClientSession.mkOptions (version (link_config o)) DeflateRaw false false (clientCacheEnabled o) (chunkRadius o)
    VersionedClientSession.defaultLocalPlayerRuntimeEntityId.

Definition make {c : crypto} {V T E : Type} (get : string -> option ProtocolVersionInfo)
    (o : BedrockNetworkClientOptions) (variables : V) (tracked : T) (env : E) : result (client c V T E) :=
  let! session := VersionedClientSession.make get (session_options o) in
  let! l := BedrockNetworkLink.make c (link_config o) in
  Ok (mkClient c V T E l session variables tracked Disconnected None None false false false [] None None 0 true false 0
        true None [] [] env).

End BedrockNetworkClient.
