(* ===== verification/ClientSample.v ===== *)
(** * A sample client

    Concrete surroundings for the witnesses: a small packet table, an encoder
    of empty packets, a decoder of the two packets whose fields the client
    reads, listeners that do nothing, clocks that stand still. *)

From S2P Require Import Prelude MachineInt Leb128 Framing GamePacket Text Snappy Zlib Versioned VersionedCodec VersionedReader ClientSession Encryption ClientLink ProtoDefData NetworkClient.

Import VersionedPacketCodec VersionedBatchCodec VersionedMcpeCodec BedrockEncryption BedrockNetworkLink BedrockNetworkClient.

Definition client_table (version : string) : ProtocolVersionInfo :=
  ProtocolDefinition.mkVersionInfo version 685
    (map (fun p => ProtocolDefinition.mkPacketInfo p.1 p.2 None)
       [(1, "login"); (2, "play_status"); (3, "server_to_client_handshake"); (4, "client_to_server_handshake");
        (5, "disconnect"); (6, "resource_packs_info"); (7, "resource_pack_stack"); (8, "resource_pack_client_response");
        (11, "start_game"); (69, "request_chunk_radius"); (113, "set_local_player_as_initialized");
        (129, "client_cache_status"); (143, "network_settings"); (193, "request_network_settings")]).

Definition client_config : config := mkConfig "1.21.0" 685 7 (mkMcpeCodec (client_table "1.21.0") true).

Definition client_options : BedrockNetworkClientOptions := mkOptions client_config true true false false 10.

#[export] Instance sample_codecs : PacketCodecs unit := {
  encodePacket _ _ := ret [];
  decodePacket name _ :=
    if bool_decide (name = "network_settings") then
      ret [mkField "compression_threshold" "lu16" "512" 0 2 None;
           mkField "compression_algorithm" "mapper" "0/deflate" 2 2 None]
    else if bool_decide (name = "server_to_client_handshake") then ret [mkField "token" "string" "jwt" 0 4 None]
    else ret []
}.

Definition sample_keys : DerivedKeyResult := mkKeys (replicate 32 7) (replicate 16 1).

#[export] Instance sample_surroundings : Surroundings toy_crypto unit unit unit := {
  zlib_ := stored_zlib;
  options_ := client_options;
  registry version := Some (client_table version);
  listen _ := ret tt;
  error_listener := true;
  prepareLoginPacket := ret [1; 7; 7];
  deriveKeys _ _ := Ok sample_keys;
  steady_now _ := 0;
  unixTimeMillis _ := 0;
  handleLevelChunk _ := ret tt;
  handleSubChunk _ := ret tt;
  handleClientCacheMissResponse _ := ret tt;
  session_handlers := VersionedClientSession.no_handlers
}.

Abbreviation sample_client := (client toy_crypto unit unit unit).

Definition sample_session : VersionedClientSession.session :=
  VersionedClientSession.mkSession (session_options client_options) (mcpeCodec client_config) [] false false.

(** A client with the given transport, status and stop request. *)
Definition client_with (status : BedrockNetworkClientStatus) (requested listening : bool) (transport : option bool)
    : sample_client :=
  mkClient toy_crypto unit unit unit sample_link sample_session tt tt status None None false false false [] None None 0
    true requested 0 listening transport [] [] tt.

(** It is what the constructor makes, with the transport installed. *)
Definition sample_start : sample_client := client_with Disconnected false true (Some true).

Lemma sample_made : exists s : sample_client, make (fun v => Some (client_table v)) client_options tt tt tt = Ok s /\
  snd (installTransport s) = sample_start.
Proof. eexists. by split. Qed.

(** What a server sends before encryption: network_settings, then the handshake. *)
Definition settings_payload : bytes := [254; 2; 143; 1].
Definition handshake_payload : bytes := [254; 255; 1; 3].
Definition play_status_payload (code : Z) : bytes := [254; 255; 5; 2; 0; 0; 0; code].
