(* ===== verification/ClientSteps.v ===== *)
(** * What the operations of the client keep

    A relation between the states before and after that the primitive steps
    keep is kept by every operation, exceptions included.  The safety theorems
    of the client are instances. *)

From S2P Require Import Prelude MachineInt Framing GamePacket Text Snappy Zlib Versioned VersionedCodec VersionedReader ClientSession Encryption ClientLink ProtoDefData NetworkClient.

Import VersionedPacketCodec VersionedBatchCodec VersionedMcpeCodec BedrockEncryption BedrockNetworkLink BedrockNetworkClient.

Section Operations.
Context {c : crypto} {V T E : Type} `{!PacketCodecs V} `{!Surroundings c V T E}.
Abbreviation St := (client c V T E).

(** ** The operations *)

(** What the transport, the queue thread and the caller do with a client; in
    between, the environment and its clocks change. *)
Inductive op :=
| Connected
| Encapsulated (payload : bytes)
| TransportClosed (reason : string)
| Tick
| Elapse (env : E)
| Write (name : string) (value : ProtoDefValue)
| Queue (name : string) (value : ProtoDefValue)
| SendQueued
| SendBuffer (buffer : bytes) (immediate : bool)
| Disconnect (reason : string)
| Close (reason : string).

Definition step (x : op) : M St unit :=
  match x with
  | Connected => onConnected
  | Encapsulated payload => onEncapsulated payload
  | TransportClosed reason => onTransportClose reason
  | Tick => queueTick
  | Elapse env => modify (set_env env)
  | Write name value => write name value
  | Queue name value => queue name value
  | SendQueued => sendQueued
  | SendBuffer buffer immediate => sendBuffer buffer immediate
  | Disconnect reason => disconnect reason
  | Close reason => close reason
  end.

(** An exception ends the operation, not the client. *)
Definition run (ops : list op) (s : St) : St := foldl (fun s x => snd (step x s)) s ops.

(** What [emitClose] does after the close event. *)
Definition shut (closeTransport : bool) : M St unit :=
  modify set_requested ;;;
  stopQueue ;;;
  (if closeTransport then
     modify (fun s => set_transport
       (match transport_ s with
        | Some _ => if onRakNetCallbackThread s then Some false else None
        | None => None
        end) s)
   else ret tt) ;;;
  modify clear_listeners ;;;
  setStatus Disconnected.

Lemma emitClose_shut reason closeTransport : emitClose reason closeTransport =
  let* s := get_st in
  (if negb (bool_decide (status_ s = Disconnected)) then emit (EvClose reason) else ret tt) ;;; shut closeTransport.
Proof. done. Qed.

(** ** What every operation keeps *)

(** A relation that the steps below a send keep: the fields that no theorem is
    about, and a send. *)
Class KeptSends (R : St -> St -> Prop) : Prop := mkKeptSends {
  kept_preorder :: PreOrder R;
  kept_session : forall s x, R s (set_session x s);
  kept_variables : forall s x, R s (set_variables x s);
  kept_env : forall s x, R s (set_env x s);
  kept_start : forall s id data next, R s (set_start id data next s);
  kept_packs : forall s handled armed, R s (set_packs handled armed s);
  kept_queue : forall s packets radius alive tick stop, R s (set_queue packets radius alive tick stop s);
  kept_depth : forall s n, R s (set_depth n s);
  kept_send : forall packets, keeps R (sendPacketsLocked packets)
}.

(** One that the other primitive steps keep, too: a payload taken off the wire,
    the changes of the link, the events, the status, and what closing does. *)
Class Kept (R : St -> St -> Prop) : Prop := mkKept {
  kept_sends :: KeptSends R;
  kept_receive : forall payload, keeps R (on_link (decodeRakNetPayload c zlib_ linkConfig payload));
  kept_settings : forall s algorithm threshold, R s (set_link (apply_settings c algorithm threshold (link_ s)) s);
  kept_encryption : forall s keys l, enable_encryption c linkConfig keys (link_ s) = Ok l -> R s (set_link l s);
  kept_emit : forall ev, ev <> EvJoin -> ev <> EvSpawn -> keeps R (emit ev);
  kept_status : forall status, status <> Initializing -> keeps R (setStatus status);
  kept_joined : keeps R (emitJoin ;;; setStatus Initializing);
  kept_play : forall packet, keeps R (handlePlayStatus packet);
  kept_shut : forall closeTransport, keeps R (shut closeTransport);
  kept_transport : forall s t, t <> Some true -> R s (set_transport t s);
  kept_tracking : forall packet, keeps R (handleLevelChunk packet) /\ keeps R (handleSubChunk packet) /\
    keeps R (handleClientCacheMissResponse packet)
}.

Section Sends.
Context (R : St -> St -> Prop) `{HR : !KeptSends R}.

Lemma keeps_modify f : (forall s, R s (f s)) -> keeps R (modify f).
Proof. intros Hf s. apply Hf. Qed.
Lemma keeps_on_session {A} (m : M _ A) : keeps R (on_session m).
Proof. apply keeps_zoom, kept_session. Qed.
Lemma keeps_on_variables {A} (m : M _ A) : keeps R (on_variables m).
Proof. apply keeps_zoom, kept_variables. Qed.
Lemma keeps_on_env {A} (m : M _ A) : keeps R (on_env m).
Proof. apply keeps_zoom, kept_env. Qed.
Lemma keeps_set_packets x s : R s (set_packets x s).
Proof. apply kept_queue. Qed.

#[local] Hint Extern 0 (R _ _) => first [apply kept_session | apply kept_variables | apply kept_env | apply kept_start
  | apply kept_packs | apply kept_queue
  | apply keeps_set_packets] : keeps.
#[local] Hint Resolve keeps_modify keeps_on_session keeps_on_variables keeps_on_env : keeps.
#[local] Hint Extern 0 (keeps R _) => first [apply kept_send] : keeps.

Lemma keeps_learn packet : keeps R (learn packet).
Proof. unfold learn. keep. Qed.
#[local] Hint Resolve keeps_learn : keeps.

Lemma keeps_sendPackets packets : keeps R (sendPackets packets).
Proof. unfold sendPackets. keep. Qed.
#[local] Hint Resolve keeps_sendPackets : keeps.

Lemma keeps_write name value : keeps R (write name value).
Proof. unfold write, send, sendPacket. keep. Qed.

Lemma keeps_queue_packet packet : keeps R (queue_packet packet).
Proof. unfold queue_packet. apply keeps_modify. intros s. apply kept_queue. Qed.
#[local] Hint Resolve keeps_write keeps_queue_packet : keeps.

Lemma keeps_queue name value : keeps R (queue name value).
Proof. unfold queue. keep. Qed.

Lemma keeps_sendQueued : keeps R sendQueued.
Proof. unfold sendQueued. keep. Qed.

Lemma keeps_sendBuffer buffer immediate : keeps R (sendBuffer buffer immediate).
Proof. unfold sendBuffer, sendPacket. keep. Qed.
#[local] Hint Resolve keeps_queue keeps_sendQueued keeps_sendBuffer : keeps.

Lemma keeps_drain : keeps R drainSessionOutgoing.
Proof. unfold drainSessionOutgoing. keep. Qed.
#[local] Hint Resolve keeps_drain : keeps.


(** Where its parts keep the relation, shutting does. *)
Lemma keeps_shut closeTransport : (forall s, R s (set_requested s)) -> (forall s, R s (clear_listeners s)) ->
  (forall s t, t <> Some true -> R s (set_transport t s)) -> keeps R (setStatus Disconnected) -> keeps R (shut closeTransport).
Proof.
  intros Hr Hc Ht Hs. unfold shut, stopQueue. keep; try (apply keeps_modify; intros st; auto).
  apply Ht. destruct (transport_ st); [by case_match|done].
Qed.

(** Where events and statuses keep the relation, the play status does. *)
Lemma keeps_play packet : (forall ev, keeps R (emit ev)) -> (forall status, keeps R (setStatus status)) ->
  keeps R (handlePlayStatus packet).
Proof. intros He Hs. unfold handlePlayStatus, sendLocalPlayerInitialized, emitJoin, emitSpawn, set_alive. keep. Qed.
End Sends.

Section Keeping.
Context (R : St -> St -> Prop) `{HR : !Kept R}.

#[local] Hint Extern 0 (R _ _) => first [apply kept_session | apply kept_variables | apply kept_env | apply kept_start
  | apply kept_packs | apply kept_queue | apply kept_settings
  | apply keeps_set_packets] : keeps.
#[local] Hint Extern 0 (KeptSends R) => apply kept_sends : keeps.
#[local] Hint Resolve keeps_modify keeps_on_session keeps_on_variables keeps_on_env keeps_learn keeps_sendPackets
  keeps_write keeps_queue_packet keeps_queue keeps_sendQueued keeps_sendBuffer keeps_drain : keeps.
#[local] Hint Extern 0 (keeps R _) => first [apply kept_send | apply kept_receive | apply kept_play] : keeps.

Lemma keeps_emitError message : keeps R (emitError message).
Proof. unfold emitError. keep. by apply kept_emit. Qed.

Lemma keeps_emitNamedEvent name packet : keeps R (emitNamedEvent name packet).
Proof. by apply kept_emit. Qed.
Lemma keeps_emitNamedPacket packet : keeps R (emitNamedPacket packet).
Proof. by apply kept_emit. Qed.
#[local] Hint Resolve keeps_emitError keeps_emitNamedEvent keeps_emitNamedPacket : keeps.

Lemma keeps_emitClose reason transport : keeps R (emitClose reason transport).
Proof.
  rewrite emitClose_shut. keep; [by apply kept_emit|apply kept_shut].
Qed.
#[local] Hint Resolve keeps_emitClose : keeps.

Lemma keeps_close reason : keeps R (close reason).
Proof. apply keeps_emitClose. Qed.
#[local] Hint Resolve keeps_close : keeps.

Lemma keeps_disconnect reason : keeps R (disconnect reason).
Proof. unfold disconnect, sendDisconnectPacket. keep. Qed.
#[local] Hint Resolve keeps_disconnect : keeps.

Lemma keeps_callback {A} (m : M St A) : keeps R m -> keeps R (in_callback m).
Proof.
  intros Hm s. unfold in_callback. specialize (Hm (set_depth (rakNetCallbackDepth_ s + 1) s)).
  destruct (m _) as [r s']. cbn [snd] in *. etransitivity; [apply kept_depth|]. etransitivity; [exact Hm|apply kept_depth].
Qed.

Lemma keeps_sendLogin : keeps R sendLogin.
Proof. unfold sendLogin, emitLoggingIn. keep; [by apply kept_status|by apply kept_emit]. Qed.
#[local] Hint Resolve keeps_sendLogin : keeps.

Lemma keeps_connected : keeps R handleRakNetConnected.
Proof. unfold handleRakNetConnected. keep. by apply kept_status. Qed.

Lemma keeps_handshake token : keeps R (startEncryptionFromServerHandshake token).
Proof.
  unfold startEncryptionFromServerHandshake. destruct (bool_decide _); [keep|]. intros s. rewrite bind_get.
  unfold bind at 1, lift at 1. destruct (deriveKeys token (env_ s)) as [keys|e]; [|by cbn].
  unfold bind at 1, lift at 1. destruct (enable_encryption c linkConfig keys (link_ s)) as [l|e] eqn:El; [|by cbn].
  unfold bind at 1, on_session at 1, zoom. destruct (VersionedClientSession.writeClientToServerHandshake _) as [[p|e] x];
    [|apply kept_session].
  etransitivity; [apply (kept_session s x)|]. set (s1 := set_session x s).
  assert (enable_encryption c linkConfig keys (link_ s1) = Ok l) as El1 by exact El.
  change (R s1 (snd ((sendPacketsLocked [p] ;;; let* _ := on_session VersionedClientSession.takeOutgoingPackets in
    emitJoin ;;; setStatus Initializing) (set_link l s1)))).
  etransitivity; [by eapply kept_encryption|]. generalize (set_link l s1).
  apply keeps_bind; [apply _|keep|intros _]. apply keeps_bind; [apply _|keep|intros _]. apply kept_joined.
Qed.
#[local] Hint Resolve keeps_handshake : keeps.

Lemma keeps_packs_info : keeps R handleResourcePacksInfo.
Proof. unfold handleResourcePacksInfo. keep. Qed.
Lemma keeps_packs_stack : keeps R handleResourcePackStack.
Proof. unfold handleResourcePackStack. keep. Qed.
Lemma keeps_start_game packet : keeps R (handleStartGame packet).
Proof. unfold handleStartGame, sendLocalPlayerInitialized. keep. Qed.
Lemma keeps_tick_sync packet : keeps R (handleTickSync packet).
Proof.
  unfold handleTickSync. keep. by apply kept_emit.
Qed.
#[local] Hint Resolve keeps_packs_info keeps_packs_stack keeps_start_game keeps_tick_sync : keeps.

Lemma keeps_settings packet fields : keeps R (handle_network_settings packet fields).
Proof. unfold handle_network_settings. keep. Qed.
#[local] Hint Resolve keeps_settings : keeps.

Lemma keeps_session_handle packet : keeps R (session_handlePacket packet).
Proof.
  apply keeps_zoom. intros s [x e]. etransitivity; [apply kept_env|apply kept_session].
Qed.
#[local] Hint Resolve keeps_session_handle : keeps.

Lemma keeps_built_in packet : keeps R (handle_built_in packet).
Proof. unfold handle_built_in. keep. Qed.
#[local] Hint Resolve keeps_built_in : keeps.

Lemma keeps_parsed packet fields : keeps R (handle_parsed packet fields).
Proof.
  destruct (kept_tracking packet) as (H1 & H2 & H3). unfold handle_parsed, emitAnyPacket. keep. by apply kept_emit.
Qed.

Lemma keeps_parse packet : keeps R (parse_packet packet).
Proof. unfold parse_packet. keep. Qed.

Lemma keeps_handlePacket packet : keeps R (handlePacket packet).
Proof.
  intros s. unfold handlePacket. pose proof (keeps_parse packet s) as Hp.
  destruct (parse_packet packet s) as [[fields|e] s']; cbn [snd] in Hp; [|destruct (is_stuck e); [done|]];
    (etransitivity; [exact Hp|]); [apply keeps_parsed|apply keeps_emitError].
Qed.
#[local] Hint Resolve keeps_handlePacket : keeps.

Lemma keeps_payload payload : keeps R (handleRakNetPayload payload).
Proof. unfold handleRakNetPayload. keep. Qed.

Lemma keeps_tick : keeps R queueTick.
Proof. unfold queueTick. keep; apply keeps_modify; intros; apply kept_queue. Qed.

(** Every operation keeps the relation. *)
Lemma keeps_step x : keeps R (step x).
Proof.
  destruct x; cbn [step]; [apply keeps_callback, keeps_connected|apply keeps_callback, keeps_payload| |apply keeps_tick|apply keeps_modify; intros s; apply kept_env|keep..].
  unfold onTransportClose. apply keeps_bind; [apply _| |intros _; apply keeps_callback, keeps_emitClose].
  apply keeps_modify. intros s. apply kept_transport. by destruct (transport_ s).
Qed.

Lemma keeps_run ops s : R s (run ops s).
Proof.
  revert s. induction ops as [|x ops IH]; intros s; [done|]. etransitivity; [apply (keeps_step x)|apply IH].
Qed.
End Keeping.
End Operations.
