(* ===== verification/ClientSafety.v ===== *)
(** * The network client: safety

    What every run of the client keeps, whatever the server sends, whatever
    throws, and whatever the listeners do: a closed client stays closed and
    silent. *)

From S2P Require Import Prelude MachineInt Framing GamePacket Text Snappy Zlib Versioned VersionedCodec VersionedReader ClientSession Encryption ClientLink ProtoDefData NetworkClient ClientSteps ClientSample.

Import VersionedPacketCodec VersionedBatchCodec VersionedMcpeCodec BedrockEncryption BedrockNetworkLink BedrockNetworkClient.

Section Safety.
Context {c : crypto} {V T E : Type} `{!PacketCodecs V} `{!Surroundings c V T E}.
Abbreviation St := (client c V T E).

(** ** Closed clients *)

(** What [close] leaves. *)
Record closed (s : St) : Prop := mkClosed {
  cl_requested : rakNetStopRequested_ s = true;
  cl_status : status_ s = Disconnected;
  cl_listening : listening_ s = false;
  cl_transport : transport_ s <> Some true
}.

Definition stays_closed (s s' : St) : Prop :=
  closed s -> closed s' /\ wire_ s' = wire_ s /\ events_ s' = events_ s.

#[export] Instance stays_closed_preorder : PreOrder stays_closed.
Proof.
  split; [by intros s Hs|]. intros s1 s2 s3 H12 H23 H1. destruct (H12 H1) as (H2 & W2 & V2).
  destruct (H23 H2) as (H3 & W3 & V3). split; [done|]. by rewrite W3, V3.
Qed.

Lemma closed_field (f : St -> St) :
  (forall s, rakNetStopRequested_ (f s) = rakNetStopRequested_ s) -> (forall s, status_ (f s) = status_ s) ->
  (forall s, listening_ (f s) = listening_ s) -> (forall s, transport_ (f s) = transport_ s) ->
  (forall s, wire_ (f s) = wire_ s) -> (forall s, events_ (f s) = events_ s) -> forall s, stays_closed s (f s).
Proof.
  intros H1 H2 H3 H4 H5 H6 s [C1 C2 C3 C4]. split; [|by rewrite H5, H6].
  split; [by rewrite H1|by rewrite H2|by rewrite H3|by rewrite H4].
Qed.

Lemma closed_emit ev : keeps stays_closed (emit ev).
Proof.
  intros s Hs. unfold emit. rewrite bind_get, (cl_listening s Hs). cbn [ret snd]. by apply (reflexivity (R := stays_closed)).
Qed.

Lemma closed_status status : keeps stays_closed (setStatus status).
Proof.
  intros s Hs. unfold setStatus, emit. rewrite bind_assoc, bind_get, (cl_listening s Hs), bind_ret.
  rewrite bind_get, (cl_requested s Hs), (cl_status s Hs), bool_decide_true by done. cbn [andb].
  case_bool_decide as Hst; cbn [negb]; [|by apply (reflexivity (R := stays_closed))].
  subst. destruct Hs. by repeat split.
Qed.

Lemma closed_send packets : keeps stays_closed (sendPacketsLocked packets).
Proof.
  intros s. unfold sendPacketsLocked. rewrite bind_get. destruct (_ || _); [done|].
  unfold bind, on_link, zoom.
  destruct (BedrockNetworkLink.sendPacketsLocked c zlib_ linkConfig packets (link_ s)) as [[p|e] l];
    [|by apply (closed_field (set_link l))].
  intros Hs. unfold sendReliablePayload. rewrite bind_get. pose proof (cl_transport s Hs) as Ht.
  change (transport_ (set_link l s)) with (transport_ s).
  destruct (transport_ s) as [[|]|]; [done| |]; by apply (closed_field (set_link l)).
Qed.

#[local] Instance closed_kept_sends : KeptSends stays_closed.
Proof.
  split; [apply _|..|exact closed_send].
  - intros s x. by apply (closed_field (set_session x)).
  - intros s x. by apply (closed_field (set_variables x)).
  - intros s x. by apply (closed_field (set_env x)).
  - intros s id data next. by apply (closed_field (set_start id data next)).
  - intros s handled armed. by apply (closed_field (set_packs handled armed)).
  - intros s packets radius alive tick stop. by apply (closed_field (set_queue packets radius alive tick stop)).
  - intros s n. by apply (closed_field (set_depth n)).
Qed.

Lemma closed_transport (s : St) t : t <> Some true -> stays_closed s (set_transport t s).
Proof. intros Ht [H1 H2 H3 H4]. by repeat split. Qed.

Context (closed_tracking : forall packet, keeps stays_closed (handleLevelChunk packet) /\
  keeps stays_closed (handleSubChunk packet) /\ keeps stays_closed (handleClientCacheMissResponse packet)).

#[local] Instance closed_kept : Kept stays_closed.
Proof.
  split; [apply _|..|exact closed_tracking].
  - intros payload. apply keeps_zoom. intros s x. by apply (closed_field (set_link x)).
  - intros s algorithm threshold. by apply (closed_field (fun s => set_link (apply_settings c algorithm threshold (link_ s)) s)).
  - intros s keys l _. by apply (closed_field (set_link l)).
  - intros ev _ _. apply closed_emit.
  - intros status _. apply closed_status.
  - apply keeps_bind; [apply _|apply closed_emit|intros _; apply closed_status].
  - intros packet. apply keeps_play; [apply _|apply closed_emit|apply closed_status].
  - intros b. apply keeps_shut; [apply _|..|apply closed_status].
    + intros s [H1 H2 H3 H4]. by repeat split.
    + intros s [H1 H2 H3 H4]. by repeat split.
    + apply closed_transport.
  - apply closed_transport.
Qed.

(** C9: a closed client stays closed: after [close] has returned, no payload,
    callback, tick or call brings the client out of Disconnected, puts a byte on
    the wire or reaches a listener, whatever the listeners are. *)
Theorem closed_forever s ops : closed s ->
  closed (run ops s) /\ wire_ (run ops s) = wire_ s /\ events_ (run ops s) = events_ s.
Proof. intros Hs. by apply (keeps_run stays_closed ops s). Qed.
End Safety.

(** ** The tick

    A keepalive answer sets the next request time to whatever the server sent,
    and the addition that follows the next keepalive overflows near the end of
    the range. *)
Section Ticks.
Context {c : crypto} {V T E : Type} `{!PacketCodecs V} `{!Surroundings c V T E}.

Lemma tick_sync_sets packet time s : keepAliveDue_ s <> None -> readI64LE (payload packet) 8 = Ok time ->
  listening_ s = false -> tick_ (snd (handleTickSync packet s)) = time.
Proof.
  intros Hd Ht Hl. unfold handleTickSync. rewrite bind_get, bool_decide_false, Ht, bind_lift by done.
  unfold emitHeartbeat, emit. by rewrite bind_assoc, bind_get, Hl.
Qed.

Lemma tick_overflows (s s1 : client c V T E) t : stopQueue_ s = false -> chunkRadiusDue_ s = None ->
  keepAliveDue_ s = Some t -> t <= steady_now (env_ s) -> 2 ^ 63 - 10 <= tick_ s ->
  queue "tick_sync" (Object [("request_time", Int (tick_ s)); ("response_time", Int 0)]) s = (Ok tt, s1) ->
  fst (queueTick s) = Throw (UndefinedBehaviour "signed overflow").
Proof.
  intros Hq Hr Ha Ht Hmax Hs. unfold queueTick. rewrite bind_get, Hq, Hr. cbn [due]. rewrite bind_ret, bind_get, Ha. cbn [due].
  rewrite Z.geb_leb, (proj2 (Z.leb_le _ _)) by done.
  rewrite (bind_assoc (queue _ _)), (bind_ok _ _ _ _ _ Hs). unfold i64. rewrite bool_decide_false; [done|].
  unfold is_s. change (2 ^ (64 - 1)) with (2 ^ 63). lia.
Qed.
End Ticks.

(** After a close the transport may still hand over payloads that it had
    received, and the caller may still write. *)
Lemma closed_forever_witness :
  let s := run [Connected; Close "bye"] sample_start in
  let ops := [Encapsulated settings_payload; Write "disconnect" Null; Tick; Connected; Close "again"] in
  closed s /\ events_ s = [EvStatus Connecting; EvClose "bye"] /\
  (closed (run ops s) /\ wire_ (run ops s) = wire_ s /\ events_ (run ops s) = events_ s).
Proof.
  intros s ops. assert (closed s) as Hs by by split. split; [exact Hs|]. split; [reflexivity|].
  apply closed_forever; [|exact Hs]. intros packet.
  split; [|split]; intros st Hc; exact (conj Hc (conj eq_refl eq_refl)).
Defined.
