(* ===== verification/ClientWire.v ===== *)
(** * The network client: the wire refines the link

    Seen from the wire, a run of the client is a run of its link: the payloads
    it has put on the wire are the ones that the link sends, in order, and so a
    peer that is in step decodes the batches, whatever the server sends and
    whatever the listeners do. *)

From S2P Require Import Prelude MachineInt Leb128 Framing GamePacket Text Snappy Zlib Versioned VersionedCodec VersionedReader ClientSession Encryption ClientLink ProtoDefData NetworkClient ClientSteps ClientSample.

Import VersionedPacketCodec VersionedBatchCodec VersionedMcpeCodec BedrockEncryption BedrockNetworkLink BedrockNetworkClient.

(** ** Runs of a link *)
Section Moves.
Context (c : crypto) (z : zlib) (g : config).

(** A send that throws leaves the link as it was, unless the cipher failed. *)
Inductive move :=
| Sends (packets : list VersionedGamePacket) (payload : bytes)
| Fails (packets : list VersionedGamePacket)
| Breaks (packets : list VersionedGamePacket)
| Receives (payload : bytes)
| Applies (algorithm : string) (threshold : Z)
| Enables (keys : DerivedKeyResult).

Inductive moves : link c -> move -> link c -> Prop :=
| moves_send l packets payload l' : BedrockNetworkLink.sendPacketsLocked c z g packets l = (Ok payload, l') -> moves l (Sends packets payload) l'
| moves_fail l packets e : BedrockNetworkLink.sendPacketsLocked c z g packets l = (Throw e, l) -> moves l (Fails packets) l
| moves_break l packets packet e l' : BedrockNetworkLink.sendPacketsLocked c z g packets l = (Throw e, l') ->
    encryptionEnabled_ c l = true -> encodeEncryptedCompressionPacket z (mcpeCodec g) packets (compressionLevel g) = Ok packet ->
    moves l (Breaks packets) l'
| moves_receive l payload : moves l (Receives payload) (snd (decodeRakNetPayload c z g payload l))
| moves_apply l algorithm threshold : moves l (Applies algorithm threshold) (apply_settings c algorithm threshold l)
| moves_enable l keys l' : enable_encryption c g keys l = Ok l' -> moves l (Enables keys) l'.

Inductive trace : link c -> list move -> link c -> Prop :=
| trace_nil l : trace l [] l
| trace_cons l m l1 t l2 : moves l m l1 -> trace l1 t l2 -> trace l (m :: t) l2.

Definition payloads (t : list move) : list bytes :=
  t ≫= (fun m => match m with Sends _ payload => [payload] | _ => [] end).

(** What the peer has to follow. *)
Definition actions (t : list move) : list action :=
  t ≫= (fun m => match m with
                | Sends packets _ => [Batch packets]
                | Applies algorithm threshold => [Settings algorithm threshold]
                | Enables keys => [Handshake keys]
                | _ => []
                end).

Lemma trace_app l1 t1 l2 t2 l3 : trace l1 t1 l2 -> trace l2 t2 l3 -> trace l1 (t1 ++ t2) l3.
Proof. intros H1 H2. induction H1; [done|]. cbn. econstructor; [done|auto]. Qed.

Lemma payloads_app t1 t2 : payloads (t1 ++ t2) = payloads t1 ++ payloads t2.
Proof. apply bind_app. Qed.

Lemma trace_one l m l' : moves l m l' -> trace l [m] l'.
Proof. intros Hm. econstructor; [done|constructor]. Qed.

(** A send is a move. *)
Lemma send_moves packets l : match BedrockNetworkLink.sendPacketsLocked c z g packets l with
  | (Ok payload, l') => moves l (Sends packets payload) l'
  | (Throw _, l') => exists m, moves l m l' /\ payloads [m] = []
  end.
Proof.
  destruct (BedrockNetworkLink.sendPacketsLocked c z g packets l) as [[payload|e] l'] eqn:E; [by constructor|].
  pose proof E as E'. unfold BedrockNetworkLink.sendPacketsLocked in E'. rewrite bind_get in E'.
  assert (l' = l -> exists m, moves l m l' /\ payloads [m] = []) as Hfail.
  { intros ->. exists (Fails packets). split; [by econstructor|done]. }
  destruct (encryptionEnabled_ c l) eqn:He.
  - destruct (encryptStream_ c l) as [stream|]; [|apply Hfail; by injection E' as _ <-].
    destruct (encodeEncryptedCompressionPacket z (mcpeCodec g) packets (compressionLevel g)) as [packet|] eqn:Ee;
      [|apply Hfail; by injection E' as _ <-].
    exists (Breaks packets). split; [by econstructor|done].
  - apply Hfail. destruct (_ && _); [destruct (encodeFramedBatch packets)|destruct (choosePlainCompression c g packets l)];
      unfold bind, lift, ret in E'; by injection E'.
Qed.
End Moves.

Arguments move : clear implicits.

(** ** The peer *)
Section Peer.
Context (c : crypto) `{!CryptoLaws c} (z : zlib) `{!ZlibLaws z} (g : config) (Hg : config_ok g).

Definition move_ok (m : move) : Prop :=
  match m with
  | Sends packets _ => batch_ok z g packets
  | Breaks _ => False
  | Enables keys => size (secretKeyBytes keys) = 32 /\ size (iv16 keys) = 16
  | _ => True
  end.

(** Receiving does not touch what the peer is in step with. *)
Lemma receive_step payload l r : facing c l r -> facing c (snd (decodeRakNetPayload c z g payload l)) r.
Proof.
  intros Hf. unfold decodeRakNetPayload. case_bool_decide; [done|]. destruct payload as [|b payload]; [done|].
  change (vec_at (b :: payload) 0) with (Ok b). rewrite bind_lift. destruct (negb (b =? 254)); [done|].
  rewrite bind_get. destruct (encryptionEnabled_ c l) eqn:He.
  - destruct (decryptStream_ c l) as [stream|]; [|done].
    assert (forall p, facing c (set_receive c p.1 p.2 l) r) as Hset by (intros p; destruct Hf; by split).
    unfold bind at 1, zoom. destruct (receive_encrypted c _ _ _) as [[v|e] p]; [|apply Hset]. specialize (Hset p).
    destruct v as [| |packet]; [done|done|]. destruct (_ && _); [done|].
    destruct (decodeEncryptedCompressionPacket z (mcpeCodec g) packet); done.
  - unfold bind, lift, ret. by case_match; case_match; simplify_eq.
Qed.

Lemma peer_decodes t : forall l l' r, trace c z g l t l' -> facing c l r -> Forall move_ok t ->
  exists received r', receive_actions c z g (actions t) (payloads t) r = (Ok received, r') /\
    map packets_of received = sent_batches (actions t) /\ facing c l' r'.
Proof.
  induction t as [|m t IH]; intros l l' r Ht Hf Hok; [inversion Ht; subst; exists [], r; by split|].
  inversion_clear Ht as [|? ? l1 ? ? Hm Ht']. apply Forall_cons_1 in Hok as [Hm' Hok].
  destruct m as [ps payload|ps|ps|payload|algorithm threshold|keys]; cbn [move_ok] in Hm'; [|..|].
  - inversion_clear Hm as [? ? ? ? Es| | | | |].
    destruct (batch_step c z g Hg ps l r Hf Hm') as (y & i & l2 & r1 & E1 & E2 & E3 & Hf1).
    rewrite E1 in Es. injection Es as -> ->. rewrite <-E3 in *.
    destruct (IH l1 l' r1 Ht' Hf1 Hok) as (received & r' & E4 & E5 & Hf'). exists (i :: received), r'.
    change (actions (Sends (packets_of i) payload :: t)) with (Batch (packets_of i) :: actions t).
    change (payloads (Sends (packets_of i) payload :: t)) with (payload :: payloads t). cbn [receive_actions].
    rewrite (bind_ok _ _ _ _ _ E2), (bind_ok _ _ _ _ _ E4). split; [done|]. split; [|done].
    cbn [map]. by rewrite E5.
  - inversion Hm; subst. apply (IH l1 l' r Ht' Hf Hok).
  - done.
  - inversion Hm; subst. apply (IH _ l' r Ht' (receive_step payload l r Hf) Hok).
  - inversion Hm; subst. destruct (IH _ l' _ Ht' (settings_step c algorithm threshold l r Hf) Hok) as (received & r' & E4 & E5 & Hf').
    exists received, r'. split; [|done].
    change (actions (Applies algorithm threshold :: t)) with (Settings algorithm threshold :: actions t).
    cbn [receive_actions]. unfold modify_link. rewrite !bind_assoc, !bind_get. cbv beta. by rewrite !bind_assoc, !bind_lift, !bind_put.
  - inversion_clear Hm as [| | | | |? ? ? Ee]. destruct Hm' as [Hk Hi].
    destruct (handshake_step c g keys l r Hf Hk Hi) as (l2 & r1 & E1 & E2 & Hf1 & _).
    rewrite E1 in Ee. injection Ee as ->. destruct (IH l1 l' r1 Ht' Hf1 Hok) as (received & r' & E4 & E5 & Hf'). exists received, r'. split; [|done].
    change (actions (Enables keys :: t)) with (Handshake keys :: actions t).
    cbn [receive_actions]. unfold modify_link. rewrite !bind_assoc, !bind_get. cbv beta.
    by rewrite E2, !bind_assoc, !bind_lift, !bind_put.
Qed.
End Peer.

(** ** The client *)
Section Wire.
Context {c : crypto} {V T E : Type} `{!PacketCodecs V} `{!Surroundings c V T E}.
Abbreviation St := (client c V T E).

Definition up (s : St) : Prop := transport_ s = Some true.

(** While the transport is up, the wire gets what the link sends; then nothing. *)
Definition follows (s s' : St) : Prop :=
  (up s -> exists t l, trace c zlib_ linkConfig (link_ s) t l /\ wire_ s' = wire_ s ++ payloads t /\
             (up s' -> l = link_ s')) /\
  (~ up s -> ~ up s' /\ wire_ s' = wire_ s).

Lemma follows_same (s s' : St) : link_ s' = link_ s -> transport_ s' = transport_ s -> wire_ s' = wire_ s -> follows s s'.
Proof.
  intros Hl Ht Hw. split; intros Hu.
  - exists [], (link_ s). split; [constructor|]. rewrite app_nil_r. by split.
  - split; [|done]. unfold up. by rewrite Ht.
Qed.


#[export] Instance follows_preorder : PreOrder follows.
Proof.
  split; [intros s; by apply follows_same|]. intros s1 s2 s3 [U12 D12] [U23 D23]. split; [|intros Hn].
  - intros Hu. destruct (U12 Hu) as (t1 & l1 & T1 & W1 & L1). destruct (decide (up s2)) as [H2|H2].
    + destruct (U23 H2) as (t2 & l2 & T2 & W2 & L2). exists (t1 ++ t2), l2.
      split; [eapply trace_app; [exact T1|by rewrite L1]|]. split; [|done]. by rewrite W2, W1, payloads_app, app_assoc.
    + destruct (D23 H2) as [N3 W3]. exists t1, l1. rewrite W3. by split.
  - destruct (D12 Hn) as [N2 W2]. destruct (D23 N2) as [N3 W3]. by rewrite W3.
Qed.

#[local] Hint Extern 0 (follows _ _) => by apply follows_same : core.

Lemma follows_set_link (s : St) l m : moves c zlib_ linkConfig (link_ s) m l -> payloads [m] = [] -> follows s (set_link l s).
Proof.
  intros Hm Hp. split; [intros Hu|done]. exists [m], l. split; [by apply trace_one|]. by rewrite Hp, app_nil_r.
Qed.

Lemma follows_send packets : keeps follows (sendPacketsLocked packets).
Proof.
  intros s. unfold sendPacketsLocked. rewrite bind_get. destruct (_ || _); [done|].
  unfold bind, on_link, zoom. pose proof (send_moves c zlib_ linkConfig packets (link_ s)) as Hm.
  destruct (BedrockNetworkLink.sendPacketsLocked c zlib_ linkConfig packets (link_ s)) as [[payload|e] l].
  - unfold sendReliablePayload. rewrite bind_get. change (transport_ (set_link l s)) with (transport_ s).
    destruct (transport_ s) as [[|]|] eqn:Ht; split; unfold up; intros Hu; cbn in *; try congruence; try by split.
    exists [Sends packets payload], l. split; [by apply trace_one|]. by split.
  - destruct Hm as (m & Hm & Hp). by eapply follows_set_link.
Qed.

#[local] Instance follows_kept_sends : KeptSends follows.
Proof. split; [apply _|..|exact follows_send]; intros; by apply follows_same. Qed.

Context (listen_follows : forall ev, keeps follows (listen ev)).
Context (tracking_follows : forall packet, keeps follows (handleLevelChunk packet) /\
  keeps follows (handleSubChunk packet) /\ keeps follows (handleClientCacheMissResponse packet)).

Lemma follows_emit ev : keeps follows (emit ev).
Proof.
  unfold emit. apply keeps_get. intros s. apply keeps_if; [|apply keeps_ret, _].
  apply keeps_bind; [apply _| |intros _; apply listen_follows]. apply keeps_modify. intros s'. by apply follows_same.
Qed.

Lemma follows_status status : keeps follows (setStatus status).
Proof.
  unfold setStatus. apply keeps_bind; [apply _|apply follows_emit|intros _]. apply keeps_get. intros s.
  apply keeps_if; [apply keeps_ret, _|]. apply keeps_modify. intros s'. by apply follows_same.
Qed.

Lemma follows_transport (s : St) t : t <> Some true -> follows s (set_transport t s).
Proof.
  intros Ht. split; intros Hu; [|done]. exists [], (link_ s). split; [constructor|]. rewrite app_nil_r. by split.
Qed.

#[local] Instance follows_kept : Kept follows.
Proof.
  split; [apply _|..|exact tracking_follows].
  - intros payload s. unfold on_link, zoom.
    pose proof (moves_receive c zlib_ linkConfig (link_ s) payload) as Hm.
    destruct (decodeRakNetPayload c zlib_ linkConfig payload (link_ s)) as [r l]. by eapply follows_set_link.
  - intros s algorithm threshold. eapply follows_set_link; [constructor|done].
  - intros s keys l He. eapply follows_set_link; [by constructor|done].
  - intros ev _ _. apply follows_emit.
  - intros status _. apply follows_status.
  - apply keeps_bind; [apply _|apply follows_emit|intros _; apply follows_status].
  - intros packet. apply keeps_play; [apply _|apply follows_emit|apply follows_status].
  - intros b. apply keeps_shut; [apply _|..|apply follows_status].
    + intros s. by apply follows_same.
    + intros s. by apply follows_same.
    + apply follows_transport.
  - apply follows_transport.
Qed.

Lemma run_follows ops s : follows s (run ops s).
Proof. apply (keeps_run follows). Qed.

(** C1: the wire of a client refines its link: whatever the server, the caller
    and the clock make of a connected client, and whatever its listeners do
    through its operations, there is a run of the link whose payloads are exactly
    what the client puts on the wire, in order; if the cipher did not fail and
    the sent batches fit, a peer that was in step and follows the run's settings
    and handshakes decodes from these payloads exactly the packets of every
    batch, in order. *)
Theorem wire_decodes `{!CryptoLaws c} `{!ZlibLaws zlib_} (Hg : config_ok linkConfig) ops s r :
  up s -> facing c (link_ s) r ->
  exists t l, trace c zlib_ linkConfig (link_ s) t l /\ wire_ (run ops s) = wire_ s ++ payloads t /\
    (up (run ops s) -> link_ (run ops s) = l) /\
    (Forall (move_ok zlib_ linkConfig) t ->
     exists received r', receive_actions c zlib_ linkConfig (actions t) (payloads t) r = (Ok received, r') /\
       map packets_of received = sent_batches (actions t) /\ facing c l r').
Proof.
  intros Hu Hf. destruct (run_follows ops s) as [Hup _]. destruct (Hup Hu) as (t & l & Ht & Hw & Hl).
  exists t, l. split; [done|]. split; [done|]. split; [intros H; by rewrite Hl|]. intros Hok.
  by apply (peer_decodes c zlib_ linkConfig Hg t (link_ s) l r).
Qed.
End Wire.

Lemma wire_decodes_witness :
  let ops := [Connected; Encapsulated settings_payload; Encapsulated handshake_payload;
              Queue "request_chunk_radius" Null; SendQueued] in
  length (wire_ (run ops sample_start)) = 4%nat /\
  exists t l, trace toy_crypto stored_zlib client_config sample_link t l /\
    wire_ (run ops sample_start) = wire_ sample_start ++ payloads t /\
    (up (run ops sample_start) -> link_ (run ops sample_start) = l) /\
    (Forall (move_ok stored_zlib client_config) t ->
     exists received r', receive_actions toy_crypto stored_zlib client_config (actions t) (payloads t) sample_link =
         (Ok received, r') /\
       map packets_of received = sent_batches (actions t) /\ facing toy_crypto l r').
Proof.
  intros ops. split; [vm_compute; reflexivity|].
  refine (wire_decodes (Surroundings0 := sample_surroundings) _ _ _ ops sample_start sample_link _ _).
  - intros ev. apply (keeps_ret follows).
  - intros packet. split; [|split]; apply (keeps_ret follows).
  - split; [by split|]. exists true. by vm_compute.
  - reflexivity.
  - by split.
Defined.
