(* ===== verification/ClientJoin.v ===== *)
(** * The network client: a spawn follows a join

    The order of the events that tell a caller where its player is: the client
    announces a spawn only for a join that it announced before, and goes
    through Initializing in between. *)

From S2P Require Import Prelude MachineInt Framing GamePacket Text Snappy Zlib Versioned VersionedCodec VersionedReader ClientSession Encryption ClientLink ProtoDefData NetworkClient ClientSteps ClientSample.

Import VersionedPacketCodec VersionedBatchCodec VersionedMcpeCodec BedrockEncryption BedrockNetworkLink BedrockNetworkClient.

(** ** Counting events *)

Definition is_join (ev : event) : bool := match ev with EvJoin => true | _ => false end.
Definition is_spawn (ev : event) : bool := match ev with EvSpawn => true | _ => false end.
Definition joins (evs : list event) : nat := length (List.filter is_join evs).
Definition spawns (evs : list event) : nat := length (List.filter is_spawn evs).

(** At every moment there were at least as many joins as spawns. *)
Definition ordered (evs : list event) : Prop := forall p, p `prefix_of` evs -> (spawns p <= joins p)%nat.

Lemma joins_app l k : joins (l ++ k) = (joins l + joins k)%nat.
Proof. unfold joins. by rewrite List.filter_app, length_app. Qed.
Lemma spawns_app l k : spawns (l ++ k) = (spawns l + spawns k)%nat.
Proof. unfold spawns. by rewrite List.filter_app, length_app. Qed.

Lemma ordered_all evs : ordered evs -> (spawns evs <= joins evs)%nat.
Proof. intros H. by apply H. Qed.

Lemma ordered_snoc evs ev : ordered evs -> (spawns (evs ++ [ev]) <= joins (evs ++ [ev]))%nat -> ordered (evs ++ [ev]).
Proof.
  intros H Hl p [k Hk]. destruct k as [|x k _] using rev_ind; [rewrite app_nil_r in Hk; by subst|].
  apply H. exists k. rewrite app_assoc in Hk. by apply app_inj_2 in Hk as [-> _].
Qed.

Lemma ordered_app evs k : ordered evs -> spawns k = 0%nat -> ordered (evs ++ k).
Proof.
  revert evs. induction k as [|ev k IH]; intros evs H Hk; [by rewrite app_nil_r|].
  change (ev :: k) with ([ev] ++ k) in *. rewrite spawns_app in Hk. rewrite app_assoc. apply IH; [|lia].
  apply ordered_snoc; [done|]. rewrite spawns_app, joins_app. pose proof (ordered_all evs H). lia.
Qed.

Section Join.
Context {c : crypto} {V T E : Type} `{!PacketCodecs V} `{!Surroundings c V T E}.
Abbreviation St := (client c V T E).

(** A client that has lost its listeners has been closed. *)
Definition deaf_closed (s : St) : Prop :=
  listening_ s = false -> rakNetStopRequested_ s = true /\ status_ s = Disconnected.

(** What a caller's listener may do: the status stays, unless it closes the
    client, and no join or spawn is announced. *)
Record quiet (s s' : St) : Prop := mkQuiet {
  qt_status : status_ s' = status_ s \/ status_ s' = Disconnected;
  qt_events : exists evs, events_ s' = events_ s ++ evs /\ joins evs = 0%nat /\ spawns evs = 0%nat;
  qt_closed : deaf_closed s -> deaf_closed s'
}.

#[export] Instance quiet_preorder : PreOrder quiet.
Proof.
  split; [intros s; split; [by left|exists []; by rewrite app_nil_r|done]|].
  intros s1 s2 s3 [S12 (e1 & E12 & J1 & P1) D12] [S23 (e2 & E23 & J2 & P2) D23]. split; [| |by auto].
  - destruct S23 as [->| ->]; [done|by right].
  - exists (e1 ++ e2). rewrite E23, E12, app_assoc, joins_app, spawns_app, J1, J2, P1, P2. done.
Qed.

Lemma quiet_same (s s' : St) : status_ s' = status_ s -> events_ s' = events_ s -> listening_ s' = listening_ s ->
  (rakNetStopRequested_ s = true -> rakNetStopRequested_ s' = true) -> quiet s s'.
Proof.
  intros Hs He Hl Hr. split; [by left|exists []; by rewrite app_nil_r|]. unfold deaf_closed. rewrite Hl, Hs. intros H Hd.
  destruct (H Hd). auto.
Qed.

#[local] Instance quiet_kept_sends : KeptSends quiet.
Proof.
  split; [apply _|try (intros; by apply quiet_same)..]. intros packets s. unfold sendPacketsLocked.
  rewrite bind_get. destruct (_ || _); [by apply quiet_same|]. unfold bind, on_link, zoom.
  destruct (BedrockNetworkLink.sendPacketsLocked c zlib_ linkConfig packets (link_ s)) as [[p|e] l]; [|by apply quiet_same].
  unfold sendReliablePayload. rewrite bind_get. destruct (transport_ (set_link l s)) as [[|]|]; by apply quiet_same.
Qed.

Context (listen_quiet : forall ev, keeps quiet (listen ev)).

(** The invariant: while the player is being initialized a join is open. *)
Record join_open (s : St) : Prop := mkJoinOpen {
  jo_ordered : ordered (events_ s);
  jo_open : status_ s = Initializing -> (spawns (events_ s) < joins (events_ s))%nat;
  jo_closed : deaf_closed s
}.

Definition keeps_open (s s' : St) : Prop := join_open s -> join_open s'.

#[export] Instance keeps_open_preorder : PreOrder keeps_open.
Proof. split; [by intros s Hs|]. intros s1 s2 s3 H12 H23 H1. auto. Qed.

Lemma quiet_open s s' : quiet s s' -> keeps_open s s'.
Proof.
  intros [Hs (evs & He & Hj & Hp) Hd] [Ho Hi Hc]. split; [..|by auto].
  - rewrite He. by apply ordered_app.
  - intros Hst. rewrite He, joins_app, spawns_app. destruct Hs as [Hs|Hs]; rewrite Hs in Hst; [|done]. specialize (Hi Hst). lia.
Qed.

Lemma open_quiet {A} (m : M St A) : keeps quiet m -> keeps keeps_open m.
Proof. intros Hm s. apply quiet_open, Hm. Qed.

Lemma quiet_emit ev : ev <> EvJoin -> ev <> EvSpawn -> keeps quiet (emit ev).
Proof.
  intros Hj Hp. unfold emit. apply keeps_get. intros s. apply keeps_if; [|apply keeps_ret, _].
  apply keeps_bind; [apply _| |intros _; apply listen_quiet]. apply keeps_modify. intros s'. split; [by left| |done].
  exists [ev]. split; [done|]. by destruct ev.
Qed.

(** A status is announced, then set unless the client has been closed. *)
Lemma quiet_status status s : exists s1, quiet s s1 /\
  (snd (setStatus status s) = s1 /\ (fst (setStatus status s) = Ok tt -> status_ s1 = Disconnected) \/
   snd (setStatus status s) = set_status status s1 /\ (status = Disconnected \/ (deaf_closed s1 -> listening_ s1 = true))).
Proof.
  pose proof (quiet_emit (EvStatus status) ltac:(done) ltac:(done) s) as Hq. unfold setStatus, bind.
  destruct (emit (EvStatus status) s) as [[[]|e] s1]; exists s1; (split; [exact Hq|]); [|by left].
  unfold get_st. destruct (rakNetStopRequested_ s1 && _ && _) eqn:Hr; [left; split; [done|]|right].
  { intros _. apply andb_prop in Hr as [Hr _]. apply andb_prop in Hr as [_ Hr]. by apply bool_decide_eq_true in Hr. } split; [done|].
  destruct (decide (status = Disconnected)) as [|Hst]; [by left|right]. intros Hd.
  destruct (listening_ s1) eqn:Hl; [done|]. destruct (Hd Hl) as [H1 H2]. rewrite H1, H2 in Hr.
  by rewrite bool_decide_true, bool_decide_false in Hr.
Qed.

Lemma open_set_status status s : join_open s -> (status = Disconnected \/ (deaf_closed s -> listening_ s = true)) ->
  (status = Initializing -> (spawns (events_ s) < joins (events_ s))%nat) -> join_open (set_status status s).
Proof.
  intros [Ho Hi Hc] Hl Hst. split; [done|done|]. intros Hd. destruct (Hc Hd) as [Hr _]. split; [done|].
  destruct Hl as [->|Hl]; [done|]. specialize (Hl Hc). unfold deaf_closed in Hd. cbn in *. congruence.
Qed.

Lemma open_status status : status <> Initializing -> keeps keeps_open (setStatus status).
Proof.
  intros Hst s Hs. destruct (quiet_status status s) as (s1 & Hq & [[-> _]|[-> Hl]]); pose proof (quiet_open s s1 Hq Hs) as Hs1; [done|].
  by apply open_set_status.
Qed.

(** A join, or a spawn, is announced to a listener that stays quiet. *)
Lemma emit_push ev s : listening_ s = true ->
  quiet (push_event ev s) (snd (emit ev s)).
Proof. intros Hl. unfold emit. rewrite bind_get, Hl. apply listen_quiet. Qed.

Lemma emit_deaf ev s : listening_ s = false -> emit ev s = (Ok tt, s).
Proof. intros Hl. unfold emit. by rewrite bind_get, Hl. Qed.

Lemma open_joined : keeps keeps_open (emitJoin ;;; setStatus Initializing).
Proof.
  intros s Hs. unfold emitJoin, bind. destruct (listening_ s) eqn:Hl.
  - pose proof (emit_push EvJoin s Hl) as Hq. set (s1 := push_event EvJoin s) in *.
    assert (ordered (events_ s1) /\ (spawns (events_ s1) < joins (events_ s1))%nat) as [Ho Hlt].
    { change (events_ s1) with (events_ s ++ [EvJoin]). rewrite spawns_app, joins_app. pose proof (ordered_all _ (jo_ordered s Hs)). cbn. split; [|lia].
      by apply ordered_app; [apply Hs|]. }
    assert (join_open s1) as Hs1 by (split; [done|done|apply Hs]).
    destruct (emit EvJoin s) as [[[]|e] s2]; [|by apply (quiet_open s1 s2)]. cbn [snd] in Hq.
    destruct (quiet_status Initializing s2) as (s3 & Hq3 & Hs3). assert (quiet s1 s3) as Hq13 by by transitivity s2.
    pose proof (quiet_open s1 s3 Hq13 Hs1) as Ho3. destruct Hs3 as [[-> _]|[-> Hlis]]; [done|]. apply open_set_status; [done|done|].
    intros _. destruct Hq13 as [_ (evs & -> & Hj & Hp) _]. rewrite joins_app, spawns_app. lia.
  - rewrite emit_deaf by done. destruct (jo_closed s Hs Hl) as [Hr Hst]. unfold setStatus, bind. rewrite emit_deaf by done.
    cbn. by rewrite Hr, Hst, bool_decide_true by done.
Qed.

Context (tracking_quiet : forall packet, keeps quiet (handleLevelChunk packet) /\ keeps quiet (handleSubChunk packet) /\
  keeps quiet (handleClientCacheMissResponse packet)).

(** After the join of code 0, code 3 ends the initialization and spawns. *)
Lemma open_spawn (s : St) : join_open s -> status_ s <> Initializing -> (spawns (events_ s) < joins (events_ s))%nat ->
  join_open (snd (emitSpawn s)).
Proof.
  intros Hs Hst Hlt. unfold emitSpawn. destruct (listening_ s) eqn:Hl; [|by rewrite emit_deaf].
  apply (quiet_open _ _ (emit_push EvSpawn s Hl)). destruct Hs as [Ho Hi Hc]. split; [|done|done].
  change (events_ (push_event EvSpawn s)) with (events_ s ++ [EvSpawn]). apply ordered_snoc; [done|]. rewrite spawns_app, joins_app. cbn. lia.
Qed.

(** What comes between the announcement of Initialized and the spawn. *)
Definition initialize : M St unit :=
  let* s := get_st in
  (match known_entity s with
   | Some id => sendLocalPlayerInitialized id
   | None => modify (fun s => set_start (runtimeEntityId_ s) (startGameData_ s) true s)
   end) ;;;
  let* ticks := lift uses_tick_sync in
  (if ticks : bool then modify (fun s => set_alive (Some (steady_now (env_ s) + 500)) 0 s) else ret tt).

Lemma quiet_initialize : keeps quiet initialize.
Proof.
  unfold initialize, sendLocalPlayerInitialized, set_alive.
  assert (forall name value, keeps quiet (write name value)) by (intros; apply keeps_write, _).
  keep; apply keeps_modify; intros; by apply quiet_same.
Qed.

Lemma bind_ext {S A B} (m : M S A) (k k' : A -> M S B) s : (forall a s', k a s' = k' a s') -> bind m k s = bind m k' s.
Proof. intros H. unfold bind. by destruct (m s) as [[a|e] s']. Qed.

Lemma play_status_initializes packet s : handlePlayStatus packet s =
  (let* code := lift (playStatusCode packet) in
   let* s := get_st in
   (if (code =? 0) && bool_decide (status_ s = Authenticating) then emitJoin ;;; setStatus Initializing else ret tt) ;;;
   let* s := get_st in
   if negb (code =? 3) || negb (bool_decide (status_ s = Initializing)) || negb (autoInitPlayer options_) then ret tt
   else setStatus Initialized ;;; initialize ;;; emitSpawn) s.
Proof.
  unfold handlePlayStatus. apply bind_ext; intros code s1. apply bind_ext; intros s2 s3. apply bind_ext; intros [] s4.
  apply bind_ext; intros s5 s6. destruct (_ || _); [done|]. apply bind_ext; intros [] s7.
  unfold initialize, bind, get_st, lift. destruct (known_entity s7) as [id|];
    [destruct (sendLocalPlayerInitialized id s7) as [[[]|e] s8]; [|done]|]; by destruct uses_tick_sync.
Qed.

Lemma open_play packet : keeps keeps_open (handlePlayStatus packet).
Proof.
  intros s. rewrite play_status_initializes. revert s. apply keeps_bind; [apply _|apply keeps_lift, _|intros code].
  apply keeps_get. intros s0. apply keeps_bind; [apply _|apply keeps_if; [apply open_joined|apply keeps_ret, _]|intros _].
  intros s Hs. rewrite bind_get. destruct (negb (code =? 3) || negb (bool_decide (status_ s = Initializing)) || _) eqn:Hi; [done|].
  apply orb_false_elim in Hi as [Hi _]. apply orb_false_elim in Hi as [_ Hi].
  rewrite negb_false_iff, bool_decide_eq_true in Hi. pose proof (jo_open s Hs Hi) as Hlt.
  destruct (quiet_status Initialized s) as (s1 & Hq & Hs1).
  pose proof (open_status Initialized ltac:(done) s Hs) as Ho. unfold bind at 1.
  destruct (setStatus Initialized s) as [[[]|e] s2]; cbn [snd] in Hs1, Ho; [|done].
  pose proof (quiet_initialize s2) as Hq2. unfold bind. destruct (initialize s2) as [[[]|e] s3]; [|by apply (quiet_open s2 s3)].
  apply open_spawn; [by apply (quiet_open s2 s3)|..].
  - assert (status_ s2 <> Initializing) as Hn2 by (destruct Hs1 as [[-> H1]|[-> _]]; [by rewrite H1|done]).
    destruct Hq2 as [Hst _ _]. cbn [snd] in Hst. by destruct Hst as [->| ->].
  - assert (events_ s2 = events_ s1) as He2 by (by destruct Hs1 as [[-> _]|[-> _]]).
    destruct Hq as [_ (e1 & E1 & J1 & P1) _]. destruct Hq2 as [_ (e2 & E2 & J2 & P2) _]. cbn [snd] in E2.
    rewrite E2, He2, E1, !joins_app, !spawns_app. lia.
Qed.

Lemma shut_state b (s : St) : exists s', shut b s = (Ok tt, s') /\ status_ s' = Disconnected /\ events_ s' = events_ s /\
  rakNetStopRequested_ s' = true.
Proof.
  unfold shut, stopQueue, modify, setStatus, emit, bind, get_st, ret.
  destruct b; cbn -[bool_decide]; rewrite (bool_decide_true (Disconnected = Disconnected)) by done;
    cbn [negb]; rewrite andb_false_r; eexists; by repeat split.
Qed.

Lemma shut_open b s : join_open s -> join_open (snd (shut b s)).
Proof.
  intros [Ho Hi Hc]. destruct (shut_state b s) as (s' & -> & Hst & He & Hr). split; cbn [snd].
  - by rewrite He.
  - by rewrite Hst.
  - by intros _.
Qed.

#[local] Instance open_kept_sends : KeptSends keeps_open.
Proof.
  split; [apply _|intros; apply quiet_open..|intros packets; apply open_quiet, kept_send]; apply quiet_kept_sends.
Qed.

#[local] Instance open_kept : Kept keeps_open.
Proof.
  split; [apply _|..].
  - intros payload. apply keeps_zoom. intros s x. by apply quiet_open, quiet_same.
  - intros s algorithm threshold. by apply quiet_open, quiet_same.
  - intros s keys l _. by apply quiet_open, quiet_same.
  - intros ev Hj Hp. by apply open_quiet, quiet_emit.
  - apply open_status.
  - apply open_joined.
  - apply open_play.
  - intros b s [Ho Hi Hc]. by apply shut_open.
  - intros s t _. by apply quiet_open, quiet_same.
  - intros packet. destruct (tracking_quiet packet) as (H1 & H2 & H3). split; [|split]; by apply open_quiet.
Qed.

(** C10: a spawn follows a join: in any run of a fresh client, whatever the
    server sends and the caller does, and with listeners that may use the client
    but do not announce joins or spawns themselves, the events that have been
    announced at any moment have no more spawns than joins; and while the
    client is initializing, a join is still without its spawn. *)
Theorem spawn_after_join ops (s : St) : events_ s = [] -> status_ s = Disconnected -> (listening_ s = false -> rakNetStopRequested_ s = true) ->
  ordered (events_ (run ops s)) /\
  (status_ (run ops s) = Initializing -> (spawns (events_ (run ops s)) < joins (events_ (run ops s)))%nat).
Proof.
  intros He Hst Hl. assert (join_open s) as Hs.
  { split; [rewrite He; by intros p ->%prefix_nil_inv|by rewrite Hst|]. intros Hd. auto. }
  by destruct (keeps_run keeps_open ops s Hs).
Qed.
End Join.


Lemma spawn_after_join_witness :
  let ops := [Connected; Encapsulated settings_payload; Encapsulated (play_status_payload 0);
              Encapsulated (play_status_payload 3); Encapsulated (play_status_payload 3); Tick] in
  spawns (events_ (run ops sample_start)) = 1%nat /\
  (ordered (events_ (run ops sample_start)) /\
   (status_ (run ops sample_start) = Initializing ->
    (spawns (events_ (run ops sample_start)) < joins (events_ (run ops sample_start)))%nat)).
Proof.
  intros ops. split; [vm_compute; reflexivity|].
  refine (spawn_after_join (Surroundings0 := sample_surroundings) _ _ ops sample_start _ _ _); [| |done..].
  - intros ev. apply (keeps_ret quiet).
  - intros packet. split; [|split]; apply (keeps_ret quiet).
Defined.
