(* ===== verification/BedrockServer.v ===== *)
(** * The server (src/include/bedrock/server/BedrockServer.hpp,
    src/src/server/RakNetServer.cpp)

    The server from the native transport's messages down to the payloads it
    hands back: connections, sessions, negotiation, login, the built-in
    answers, the queues, closing.  [connections_] and [sessions_] are maps over
    the endpoints; a session is a shared object in [heap_], since handlers may
    close and reopen an endpoint while an operation holds its session.
    Listeners are computations on the server: they may call any of its
    operations.  Threads and locks are not modelled: an operation is one atomic
    step, which is what the locks make of it.  [wire_], [native_closes_] and
    [events_] record what the native transport and the listeners are given, in
    order.  Parameters: the verification of the login chain and the key exchange
    (JWT and OpenSSL), the schemas, the order in which an [unordered_map] is
    iterated. *)

From S2P Require Import Prelude MachineInt Leb128 Endian Framing GamePacket Text Snappy Zlib Versioned Encryption ClientLink LoginPacket ProtoDefData.
From S2P Require Import ProtoDefJson ProtoDefText ProtoDefDecoder ProtoDefPackets.

Import VersionedPacketCodec VersionedBatchCodec VersionedMcpeCodec BedrockEncryption BedrockNetworkLink ProtoDefJson ProtoDefText ProtoDefPackets.

Module RakNetServer.

Record RakNetServerPeer := mkPeer { address : string; port : Z; clientGuid : Z }.

Definition peerKey (peer : RakNetServerPeer) : string := address peer +:+ ":" +:+ to_string (port peer).

(** The native transport behind it is given what [wire_] and [native_closes_]
    say; the deadline of a scheduled close is the delay it was given. *)
Record raknet := mkRaknet {
  running_ : bool;
  peers_ : gmap string RakNetServerPeer;
  scheduledPeerCloses_ : list (RakNetServerPeer * Z);
  shutdownScheduled_ : bool;
  wire_ : list (RakNetServerPeer * bytes);
  native_closes_ : list RakNetServerPeer
}.

(** The peer is the one that the endpoint belongs to. *)
Definition known (peer : RakNetServerPeer) (r : raknet) : bool :=
  match peers_ r !! peerKey peer with
  | Some found => clientGuid found =? clientGuid peer
  | None => false
  end.

(** The start of the native peer, which succeeds, is left out. *)
Definition listen : M raknet unit :=
  let* r := get_st in
  if running_ r then ret tt else put_st (mkRaknet true ∅ [] false (wire_ r) (native_closes_ r)).

Definition closeAfter : M raknet unit :=
  let* r := get_st in
  if running_ r then put_st (mkRaknet true (peers_ r) (scheduledPeerCloses_ r) true (wire_ r) (native_closes_ r)) else ret tt.

Definition closePeerAfter (peer : RakNetServerPeer) (delay : Z) : M raknet unit :=
  let* r := get_st in
  if negb (running_ r) then ret tt
  else put_st (mkRaknet true (peers_ r) (scheduledPeerCloses_ r ++ [(peer, delay)]) (shutdownScheduled_ r) (wire_ r) (native_closes_ r)).

(** A known peer's address parses and the native peer is connected to it. *)
Definition sendReliable (peer : RakNetServerPeer) (payload : bytes) : M raknet unit :=
  let* r := get_st in
  if bool_decide (payload = []) || negb (running_ r) then ret tt
  else if negb (known peer r) then ret tt
  else put_st (mkRaknet true (peers_ r) (scheduledPeerCloses_ r) (shutdownScheduled_ r) (wire_ r ++ [(peer, payload)]) (native_closes_ r)).

(** The peer that is erased, which the close handler is called with. *)
Definition erase_peer (peer : RakNetServerPeer) : M raknet (option RakNetServerPeer) :=
  let* r := get_st in
  if known peer r then
    put_st (mkRaknet (running_ r) (delete (peerKey peer) (peers_ r)) (scheduledPeerCloses_ r) (shutdownScheduled_ r) (wire_ r) (native_closes_ r)) ;;;
    ret (peers_ r !! peerKey peer)
  else ret None.

(** [closePeerNow] up to the handler. *)
Definition closePeerNow (peer : RakNetServerPeer) : M raknet (option RakNetServerPeer) :=
  let* closedPeer := erase_peer peer in
  match closedPeer with
  | Some _ =>
      let* r := get_st in
      put_st (mkRaknet (running_ r) (peers_ r) (scheduledPeerCloses_ r) (shutdownScheduled_ r) (wire_ r) (native_closes_ r ++ [peer])) ;;;
      ret closedPeer
  | None => ret None
  end.

(** Whether a new connection is the endpoint's, or replaces another. *)
Definition insert_peer (peer : RakNetServerPeer) : M raknet bool :=
  let* r := get_st in
  if known peer r then ret false
  else
    put_st (mkRaknet (running_ r) (<[peerKey peer := peer]> (peers_ r)) (scheduledPeerCloses_ r) (shutdownScheduled_ r) (wire_ r) (native_closes_ r)) ;;;
    ret true.

Definition finishShutdown : M raknet unit :=
  let* r := get_st in put_st (mkRaknet false ∅ [] false (wire_ r) (native_closes_ r)).

(** Native message ids. *)
Definition ID_NEW_INCOMING_CONNECTION : Z := 19.
Definition ID_USER_PACKET_ENUM : Z := 134.
Definition isDisconnectMessage (id : Z) : bool := bool_decide (id ∈ [21; 22; 25]).

End RakNetServer.

Module BedrockServer.
Export RakNetServer.

Inductive BedrockServerClientStatus := Disconnected | Connecting | Authenticating | Initializing | Initialized.

#[export] Instance server_status_eq_dec : EqDecision BedrockServerClientStatus.
Proof. solve_decision. Defined.

(** The peer's fields are copied into the connection; [playerEvents] is the
    identity of the listeners' object that its copies share. *)
Record BedrockServerConnection := mkConnection { peer : RakNetServerPeer; playerEvents : positive }.

Record BedrockLoginVerificationResult := mkVerified {
  key : string;
  userData : ProtoDefValue;
  skinData : ProtoDefValue;
  verified_version : Z;
  didVerify : bool;
  disconnectNotAuthenticated : bool
}.

Record BedrockClientKeyPair := mkKeyPair { privateKeyPem : string; publicKeyDerBase64 : string }.

Record BedrockServerOptions := mkServerOptions {
  version : string;
  offline : bool;
  autoLogin : bool;
  autoResourcePacks : bool;
  codec : VersionedMcpeCodec
}.

(** The three options that [setCompressor] changes. *)
Record compressor := mkCompressor { compressionAlgorithm : string; compressionLevel : Z; compressionThreshold : Z }.

Inductive event :=
| EvConnect (connection : BedrockServerConnection)
| EvLoggingIn (connection : BedrockServerConnection) (packet : VersionedGamePacket) (login : LoginPacketCodec.LoginPacketData)
| EvClientHandshake (connection : BedrockServerConnection) (key : string)
| EvLogin (connection : BedrockServerConnection) (packet : VersionedGamePacket)
| EvJoin (connection : BedrockServerConnection)
| EvSpawn (connection : BedrockServerConnection)
| EvStatus (connection : BedrockServerConnection) (status : BedrockServerClientStatus)
| EvNamed (connection : BedrockServerConnection) (packet : VersionedGamePacket)
| EvAny (connection : BedrockServerConnection) (packet : VersionedGamePacket)
| EvError (connection : BedrockServerConnection) (message : string)
| EvClose (connection : BedrockServerConnection).

Record SessionState {c : crypto} := mkSession {
  serverKeys : BedrockClientKeyPair;
  salt : bytes;
  clientPublicKeyDerBase64 : string;
  encryptionKeys : DerivedKeyResult;
  encryptStream : option (BedrockCipherStream c);
  decryptStream : option (BedrockCipherStream c);
  hasEncryptionKeys : bool;
  encryptionEnabled : bool;
  compressionReady : bool;
  networkSettingsSent : bool;
  resourcePacksInfoSent : bool;
  resourcePackStackSent : bool;
  loginVerification : option BedrockLoginVerificationResult;
  status : BedrockServerClientStatus;
  session_level : Z;
  sendCounter : Z;
  receiveCounter : Z;
  protoDefVariables : ProtoDefVariableMap;
  queuedPackets : list (VersionedGamePacket * VersionedMcpeCompression)
}.
Arguments SessionState : clear implicits.

Record server {c : crypto} {E : Type} := mkServer {
  compressor_ : compressor;
  connections_ : gmap string BedrockServerConnection;
  sessions_ : gmap string positive;
  heap_ : gmap positive (SessionState c);
  clientCount_ : Z;
  closing_ : bool;
  closedPlayers_ : gset string;
  detachedPlayerStatuses_ : gmap string BedrockServerClientStatus;
  scheduledPlayerCloses_ : list (BedrockServerConnection * Z);
  raknet_ : raknet;
  next_ : positive;
  events_ : list event;
  env_ : E
}.
Arguments server : clear implicits.

(** ** Field updates *)
Section Fields.
Context {c : crypto} {E : Type}.
Abbreviation St := (server c E).

Definition set_compressor x (s : St) : St :=
  mkServer c E x (connections_ s) (sessions_ s) (heap_ s) (clientCount_ s) (closing_ s) (closedPlayers_ s) (detachedPlayerStatuses_ s)
    (scheduledPlayerCloses_ s) (raknet_ s) (next_ s) (events_ s) (env_ s).
Definition set_tables connections sessions count (s : St) : St :=
  mkServer c E (compressor_ s) connections sessions (heap_ s) count (closing_ s) (closedPlayers_ s) (detachedPlayerStatuses_ s)
    (scheduledPlayerCloses_ s) (raknet_ s) (next_ s) (events_ s) (env_ s).
Definition set_heap x (s : St) : St :=
  mkServer c E (compressor_ s) (connections_ s) (sessions_ s) x (clientCount_ s) (closing_ s) (closedPlayers_ s) (detachedPlayerStatuses_ s)
    (scheduledPlayerCloses_ s) (raknet_ s) (next_ s) (events_ s) (env_ s).
Definition set_closing x (s : St) : St :=
  mkServer c E (compressor_ s) (connections_ s) (sessions_ s) (heap_ s) (clientCount_ s) x (closedPlayers_ s) (detachedPlayerStatuses_ s)
    (scheduledPlayerCloses_ s) (raknet_ s) (next_ s) (events_ s) (env_ s).
Definition set_lifecycle closed detached scheduled (s : St) : St :=
  mkServer c E (compressor_ s) (connections_ s) (sessions_ s) (heap_ s) (clientCount_ s) (closing_ s) closed detached
    scheduled (raknet_ s) (next_ s) (events_ s) (env_ s).
Definition set_raknet x (s : St) : St :=
  mkServer c E (compressor_ s) (connections_ s) (sessions_ s) (heap_ s) (clientCount_ s) (closing_ s) (closedPlayers_ s) (detachedPlayerStatuses_ s)
    (scheduledPlayerCloses_ s) x (next_ s) (events_ s) (env_ s).
Definition set_next x (s : St) : St :=
  mkServer c E (compressor_ s) (connections_ s) (sessions_ s) (heap_ s) (clientCount_ s) (closing_ s) (closedPlayers_ s) (detachedPlayerStatuses_ s)
    (scheduledPlayerCloses_ s) (raknet_ s) x (events_ s) (env_ s).
Definition set_output events env (s : St) : St :=
  mkServer c E (compressor_ s) (connections_ s) (sessions_ s) (heap_ s) (clientCount_ s) (closing_ s) (closedPlayers_ s) (detachedPlayerStatuses_ s)
    (scheduledPlayerCloses_ s) (raknet_ s) (next_ s) events env.
Definition push_event ev (s : St) : St := set_output (events_ s ++ [ev]) (env_ s) s.
Definition set_env env (s : St) : St := set_output (events_ s) env s.

Definition set_status x (p : SessionState c) : SessionState c :=
  mkSession c (serverKeys p) (salt p) (clientPublicKeyDerBase64 p) (encryptionKeys p) (encryptStream p) (decryptStream p) (hasEncryptionKeys p)
    (encryptionEnabled p) (compressionReady p) (networkSettingsSent p) (resourcePacksInfoSent p) (resourcePackStackSent p) (loginVerification p)
    x (session_level p) (sendCounter p) (receiveCounter p) (protoDefVariables p) (queuedPackets p).
Definition set_keys serverKeys salt client keys encrypt decrypt has (p : SessionState c) : SessionState c :=
  mkSession c serverKeys salt client keys encrypt decrypt has
    (encryptionEnabled p) (compressionReady p) (networkSettingsSent p) (resourcePacksInfoSent p) (resourcePackStackSent p) (loginVerification p)
    (status p) (session_level p) (sendCounter p) (receiveCounter p) (protoDefVariables p) (queuedPackets p).
Definition set_streams encrypt decrypt enabled send receive (p : SessionState c) : SessionState c :=
  mkSession c (serverKeys p) (salt p) (clientPublicKeyDerBase64 p) (encryptionKeys p) encrypt decrypt (hasEncryptionKeys p)
    enabled (compressionReady p) (networkSettingsSent p) (resourcePacksInfoSent p) (resourcePackStackSent p) (loginVerification p)
    (status p) (session_level p) send receive (protoDefVariables p) (queuedPackets p).
Definition set_settings ready sent level (p : SessionState c) : SessionState c :=
  mkSession c (serverKeys p) (salt p) (clientPublicKeyDerBase64 p) (encryptionKeys p) (encryptStream p) (decryptStream p) (hasEncryptionKeys p)
    (encryptionEnabled p) ready sent (resourcePacksInfoSent p) (resourcePackStackSent p) (loginVerification p)
    (status p) level (sendCounter p) (receiveCounter p) (protoDefVariables p) (queuedPackets p).
Definition set_packs info stack (p : SessionState c) : SessionState c :=
  mkSession c (serverKeys p) (salt p) (clientPublicKeyDerBase64 p) (encryptionKeys p) (encryptStream p) (decryptStream p) (hasEncryptionKeys p)
    (encryptionEnabled p) (compressionReady p) (networkSettingsSent p) info stack (loginVerification p)
    (status p) (session_level p) (sendCounter p) (receiveCounter p) (protoDefVariables p) (queuedPackets p).
Definition set_verification x (p : SessionState c) : SessionState c :=
  mkSession c (serverKeys p) (salt p) (clientPublicKeyDerBase64 p) (encryptionKeys p) (encryptStream p) (decryptStream p) (hasEncryptionKeys p)
    (encryptionEnabled p) (compressionReady p) (networkSettingsSent p) (resourcePacksInfoSent p) (resourcePackStackSent p) x
    (status p) (session_level p) (sendCounter p) (receiveCounter p) (protoDefVariables p) (queuedPackets p).
Definition set_variables x (p : SessionState c) : SessionState c :=
  mkSession c (serverKeys p) (salt p) (clientPublicKeyDerBase64 p) (encryptionKeys p) (encryptStream p) (decryptStream p) (hasEncryptionKeys p)
    (encryptionEnabled p) (compressionReady p) (networkSettingsSent p) (resourcePacksInfoSent p) (resourcePackStackSent p) (loginVerification p)
    (status p) (session_level p) (sendCounter p) (receiveCounter p) x (queuedPackets p).
Definition set_queue x (p : SessionState c) : SessionState c :=
  mkSession c (serverKeys p) (salt p) (clientPublicKeyDerBase64 p) (encryptionKeys p) (encryptStream p) (decryptStream p) (hasEncryptionKeys p)
    (encryptionEnabled p) (compressionReady p) (networkSettingsSent p) (resourcePacksInfoSent p) (resourcePackStackSent p) (loginVerification p)
    (status p) (session_level p) (sendCounter p) (receiveCounter p) (protoDefVariables p) x.

(** A new [SessionState], with the server's compression level. *)
Definition fresh_session (level : Z) : SessionState c :=
  mkSession c (mkKeyPair "" "") [] "" (mkKeys [] []) None None false false false false false false None
    Authenticating level 0 0 ∅ [].
End Fields.

(** ** What the server is given *)

Class ServerSurroundings (c : crypto) (E : Type) := mkServerSurroundings {
  zlib_ : zlib;
  options_ : BedrockServerOptions;
  (** The schemas: TSV files and generated tables. *)
  file : string -> option text;
  generatedProtocolTypeJson : string -> string -> option string;
  generated_default : string -> option string;
  (** The orders in which the unordered maps are iterated. *)
  variables_order : ProtoDefVariableMap -> list (string * string);
  flags_order : list (string * Z) -> list (string * Z);
  connections_order : gmap string BedrockServerConnection -> list BedrockServerConnection;
  (** The nesting of the schemas' types. *)
  fuel : nat;
  (** The listeners of a player and of the server. *)
  player_listen : BedrockServerConnection -> event -> M (server c E) unit;
  server_listen : event -> M (server c E) unit;
  clear_listeners : positive -> E -> E;
  error_listener : positive -> E -> bool;
  (** [BedrockLoginVerifier::verify], and the key exchange. *)
  verify : LoginPacketCodec.LoginPacketData -> bool -> result BedrockLoginVerificationResult;
  generateP384KeyPair : M E BedrockClientKeyPair;
  deriveKeys : string -> string -> bytes -> result DerivedKeyResult;
  base64 : bytes -> string;
  signEs384Jwt : string -> string -> string -> M E string
}.

(** ** Operations *)
Section Server.
Context {c : crypto} {E : Type} `{!ServerSurroundings c E}.
Abbreviation St := (server c E).

Definition mcpeCodec : VersionedMcpeCodec := codec options_.
Definition packetDefinition : ProtocolVersionInfo := definition mcpeCodec.

Definition modify (f : St -> St) : M St unit := fun s => (Ok tt, f s).
Definition on_raknet {A} (m : M raknet A) : M St A := zoom raknet_ set_raknet m.
Definition on_env {A} (m : M E A) : M St A := zoom env_ set_env m.

(** A computation on the session that a shared pointer refers to. *)
Definition on_session {A} (p : positive) (m : M (SessionState c) A) : M St A := fun s =>
  match heap_ s !! p with
  | Some x => match m x with (r, x') => (r, set_heap (<[p := x']> (heap_ s)) s) end
  | None => (Throw (UndefinedBehaviour "dangling session"), s)
  end.
Definition get_session (p : positive) : M St (SessionState c) := on_session p get_st.
Definition modify_session (p : positive) (f : SessionState c -> SessionState c) : M St unit :=
  on_session p (fun x => (Ok tt, f x)).
Definition on_variables {A} (p : positive) (m : M ProtoDefVariableMap A) : M St A :=
  on_session p (zoom protoDefVariables set_variables m).

Definition connectionKey (peer : RakNetServerPeer) : string := peerKey peer.
Definition playerKey (connection : BedrockServerConnection) : string :=
  connectionKey (peer connection) +:+ "#" +:+ to_string (clientGuid (peer connection)).

Definition player_of (guid : Z) (key : string) (s : St) : option (BedrockServerConnection * positive) :=
  connection ← connections_ s !! key;
  if negb (clientGuid (peer connection) =? guid) then None
  else session ← sessions_ s !! key; Some (connection, session).

Definition sessionSnapshot (connection : BedrockServerConnection) (s : St) : option positive :=
  snd <$> player_of (clientGuid (peer connection)) (connectionKey (peer connection)) s.
Definition playerSnapshot (peer : RakNetServerPeer) (s : St) : option (BedrockServerConnection * positive) :=
  player_of (clientGuid peer) (connectionKey peer) s.

(** *** Events *)

Definition emit_player (connection : BedrockServerConnection) (ev : event) : M St unit := player_listen connection ev.
Definition emit (connection : BedrockServerConnection) (ev : event) : M St unit :=
  modify (push_event ev) ;;; emit_player connection ev ;;; server_listen ev.

Definition emitPlayerError (connection : BedrockServerConnection) (message : string) : M St unit :=
  let* s := get_st in
  if negb (error_listener (playerEvents connection) (env_ s)) then raise (UnhandledError message)
  else modify (push_event (EvError connection message)) ;;; emit_player connection (EvError connection message).

Definition emitPlayerClose (connection : BedrockServerConnection) : M St unit := emit connection (EvClose connection).
Definition emitJoin (connection : BedrockServerConnection) : M St unit := emit connection (EvJoin connection).
Definition emitSpawn (connection : BedrockServerConnection) : M St unit := emit connection (EvSpawn connection).

Definition clearPlayerListeners (connection : BedrockServerConnection) : M St unit :=
  modify (fun s => set_env (clear_listeners (playerEvents connection) (env_ s)) s).

(** *** Status *)

Definition hasWritablePlayer (connection : BedrockServerConnection) : M St bool :=
  let* s := get_st in
  match sessionSnapshot connection s with
  | None => ret false
  | Some session =>
      let* x := get_session session in ret (negb (bool_decide (status x = Disconnected)))
  end.

Definition hasActivePlayer (connection : BedrockServerConnection) : M St bool :=
  let* writable := hasWritablePlayer connection in
  if writable : bool then
    let* s := get_st in ret (bool_decide (playerKey connection ∉ closedPlayers_ s))
  else ret false.

Definition statusOf (connection : BedrockServerConnection) : M St BedrockServerClientStatus :=
  let* s := get_st in
  match sessionSnapshot connection s with
  | None => ret (default Disconnected (detachedPlayerStatuses_ s !! playerKey connection))
  | Some session => let* x := get_session session in ret (status x)
  end.

(** The listeners still see the old status. *)
Definition transitionStatus (connection : BedrockServerConnection) (nextStatus : BedrockServerClientStatus) : M St unit :=
  emit connection (EvStatus connection nextStatus) ;;;
  let* s := get_st in
  match sessionSnapshot connection s with
  | Some session => modify_session session (set_status nextStatus)
  | None => ret tt
  end.
Definition setStatus := transitionStatus.

Definition updateItemPalette (connection : BedrockServerConnection) (palette : ProtoDefValue) : M St unit :=
  let* s := get_st in
  match sessionSnapshot connection s with
  | None => raise (RuntimeError "player session not found")
  | Some session => on_variables session (updateItemPaletteVariables palette)
  end.

Definition loginVerificationOf (connection : BedrockServerConnection) : M St (option BedrockLoginVerificationResult) :=
  let* s := get_st in
  match sessionSnapshot connection s with
  | None => ret None
  | Some session => let* x := get_session session in ret (loginVerification x)
  end.

Definition setCompressor (algorithm : string) (level threshold : Z) : M St unit :=
  let* s := get_st in
  if bool_decide (algorithm = "none") then
    modify (set_compressor (mkCompressor "none" 0 (compressionThreshold (compressor_ s))))
  else if bool_decide (algorithm = "deflate") || bool_decide (algorithm = "snappy") then
    modify (set_compressor (mkCompressor algorithm level threshold))
  else raise (RuntimeError ("Unknown compression algorithm: " +:+ algorithm)).

(** *** Closing a player *)

Definition erase_player (peer : RakNetServerPeer) : M St unit :=
  modify (fun s =>
    match connections_ s !! connectionKey peer with
    | Some current =>
        if clientGuid (BedrockServer.peer current) =? clientGuid peer then
          set_tables (delete (connectionKey peer) (connections_ s)) (delete (connectionKey peer) (sessions_ s)) (clientCount_ s - 1) s
        else s
    | None => s
    end).

Definition close_once (connection : BedrockServerConnection) : M St bool :=
  let* s := get_st in
  modify (set_lifecycle ({[playerKey connection]} ∪ closedPlayers_ s) (detachedPlayerStatuses_ s) (scheduledPlayerCloses_ s)) ;;;
  ret (bool_decide (playerKey connection ∉ closedPlayers_ s)).

Definition forget_detached (connection : BedrockServerConnection) : M St unit :=
  modify (fun s => set_lifecycle (closedPlayers_ s) (delete (playerKey connection) (detachedPlayerStatuses_ s)) (scheduledPlayerCloses_ s) s).

Definition handlePeerClosed (peer : RakNetServerPeer) : M St unit :=
  let* s := get_st in
  match playerSnapshot peer s with
  | None => ret tt
  | Some (connection, _) =>
      let* shouldEmitPlayerClose := close_once connection in
      (if shouldEmitPlayerClose : bool then emitPlayerClose connection ;;; clearPlayerListeners connection else ret tt) ;;;
      forget_detached connection ;;;
      erase_player peer
  end.

(** [RakNetServer::closePeerNow] with the server's close handler. *)
Definition close_peer_now (peer : RakNetServerPeer) : M St unit :=
  let* closedPeer := on_raknet (closePeerNow peer) in
  match closedPeer with Some p => handlePeerClosed p | None => ret tt end.

Definition closePeer (peer : RakNetServerPeer) : M St unit :=
  let* s := get_st in
  if negb (running_ (raknet_ s)) then ret tt else close_peer_now peer.

Definition closePlayer (connection : BedrockServerConnection) : M St unit :=
  let* first := close_once connection in
  if negb first then ret tt
  else
    emitPlayerClose connection ;;;
    closePeer (peer connection) ;;;
    clearPlayerListeners connection ;;;
    (let* s := get_st in
     match sessionSnapshot connection s with
     | Some session => modify_session session (set_status Disconnected)
     | None => ret tt
     end) ;;;
    forget_detached connection.

(** The fallback scheduler is not stopped before the server is destroyed. *)
Definition schedulePlayerClose (connection : BedrockServerConnection) (delay : Z) : M St unit :=
  let* s := get_st in
  if running_ (raknet_ s) && negb (closing_ s) then on_raknet (closePeerAfter (peer connection) delay)
  else modify (set_lifecycle (closedPlayers_ s) (detachedPlayerStatuses_ s) (scheduledPlayerCloses_ s ++ [(connection, delay)])).

Definition closeConnection (connection : BedrockServerConnection) : M St unit :=
  let* active := hasActivePlayer connection in
  if negb active then ret tt else closePlayer connection.

(** *** Sending *)

Definition encodePlayerPacket (session : positive) (packetName : string) (value : ProtoDefValue) : M St bytes :=
  on_variables session
    (encode_packet (version options_) file generatedProtocolTypeJson generated_default variables_order fuel packetName value).

Definition processOutboundPacket (session : positive) (packet : VersionedGamePacket) : M St unit :=
  if negb (bool_decide (packet_name packet = "start_game")) && negb (bool_decide (packet_name packet = "item_registry")) then ret tt
  else
    let* _ := on_variables session
      (decode_packet (version options_) file generatedProtocolTypeJson generated_default variables_order flags_order fuel
         (packet_name packet) (payload packet)) in
    ret tt.

(** The mode byte is left out before the negotiation. *)
Definition plain_packet (k : compressor) (packets : list VersionedGamePacket) (compression : VersionedMcpeCompression)
    (ready : bool) : result bytes :=
  let! compressionPacket :=
    match compression with
    | Automatic => encodeCompressionPacket_threshold zlib_ mcpeCodec packets (compressionAlgorithm k) (compressionLevel k) (compressionThreshold k)
    | _ => encodeCompressionPacket zlib_ mcpeCodec packets compression (compressionLevel k)
    end in
  if bool_decide (compression = Automatic) && compressorInPacketHeader_ mcpeCodec && negb ready then
    match compressionPacket with
    | [] => Throw (RuntimeError "modern compression packet missing mode byte")
    | _ :: rest => Ok rest
    end
  else Ok compressionPacket.

(** The payload of a batch, unless the player is disconnected. *)
Definition session_payload (k : compressor) (packets : list VersionedGamePacket) (compression : VersionedMcpeCompression) :
    M (SessionState c) (option bytes) :=
  let* x := get_st in
  if bool_decide (status x = Disconnected) then ret None
  else if encryptionEnabled x && hasEncryptionKeys x then
    match encryptStream x with
    | None => raise (RuntimeError "server encrypt stream is not initialized")
    | Some stream =>
        let* compressionPacket := lift (encodeEncryptedCompressionPacket zlib_ mcpeCodec packets (session_level x)) in
        let* mcpe := zoom (fun x => (stream, sendCounter x))
          (fun p x => set_streams (Some p.1) (decryptStream x) (encryptionEnabled x) p.2 (receiveCounter x) x)
          (send_encrypted c (secretKeyBytes (encryptionKeys x)) compressionPacket) in
        ret (Some mcpe)
    end
  else
    let* compressionPacket := lift (plain_packet k packets compression (compressionReady x)) in
    ret (Some (0xfe :: compressionPacket)).

Definition send_payload (connection : BedrockServerConnection) (mcpe : bytes) : M St unit :=
  let* writable := hasWritablePlayer connection in
  if writable : bool then on_raknet (sendReliable (peer connection) mcpe) else ret tt.

Definition sendPacketsInternal (connection : BedrockServerConnection) (packets : list VersionedGamePacket)
    (compression : VersionedMcpeCompression) (processOutbound : bool) : M St unit :=
  if bool_decide (packets = []) then ret tt
  else
    let* s := get_st in
    match sessionSnapshot connection s with
    | None => ret tt
    | Some session =>
        (if processOutbound then for_each packets (processOutboundPacket session) else ret tt) ;;;
        let* s := get_st in
        let* mcpe := on_session session (session_payload (compressor_ s) packets compression) in
        match mcpe with None => ret tt | Some mcpe => send_payload connection mcpe end
    end.

Definition sendPackets connection packets compression : M St unit := sendPacketsInternal connection packets compression true.
Definition sendPacket connection packet compression : M St unit := sendPackets connection [packet] compression.

Definition send (connection : BedrockServerConnection) (packetName : string) (value : ProtoDefValue)
    (compression : VersionedMcpeCompression) : M St unit :=
  let* s := get_st in
  match sessionSnapshot connection s with
  | None => ret tt
  | Some session =>
      let* payload := encodePlayerPacket session packetName value in
      let* packet := lift (makePacketByName packetDefinition packetName payload) in
      sendPacket connection packet compression
  end.
Definition write := send.

(** *** Queues *)

Definition queuePackets (connection : BedrockServerConnection) (packets : list VersionedGamePacket)
    (compression : VersionedMcpeCompression) : M St unit :=
  if bool_decide (packets = []) then ret tt
  else
    let* s := get_st in
    match sessionSnapshot connection s with
    | None => ret tt
    | Some session =>
        for_each packets (processOutboundPacket session) ;;;
        let* x := get_session session in
        if bool_decide (status x = Disconnected) then ret tt
        else modify_session session (fun x => set_queue (queuedPackets x ++ map (fun p => (p, compression)) packets) x)
    end.
Definition queuePacket connection packet compression : M St unit := queuePackets connection [packet] compression.

Definition queue (connection : BedrockServerConnection) (packetName : string) (value : ProtoDefValue)
    (compression : VersionedMcpeCompression) : M St unit :=
  let* s := get_st in
  match sessionSnapshot connection s with
  | None => ret tt
  | Some session =>
      let* payload := encodePlayerPacket session packetName value in
      let* packet := lift (makePacketByName packetDefinition packetName payload) in
      queuePacket connection packet compression
  end.

Definition sendBuffer (connection : BedrockServerConnection) (buffer : bytes) (immediate : bool)
    (compression : VersionedMcpeCompression) : M St unit :=
  let* packet := lift (decodeFullPacket packetDefinition buffer) in
  if immediate then sendPacket connection packet compression else queuePacket connection packet compression.

(** The longest runs of packets with one compression. *)
Fixpoint runs (queued : list (VersionedGamePacket * VersionedMcpeCompression)) : list (list VersionedGamePacket * VersionedMcpeCompression) :=
  match queued with
  | [] => []
  | (packet, compression) :: rest =>
      match runs rest with
      | (packets, compression') :: more =>
          if bool_decide (compression' = compression) then (packet :: packets, compression) :: more
          else ([packet], compression) :: (packets, compression') :: more
      | [] => [([packet], compression)]
      end
  end.

Definition sendQueued (connection : BedrockServerConnection) : M St unit :=
  let* s := get_st in
  match sessionSnapshot connection s with
  | None => ret tt
  | Some session =>
      let* x := get_session session in
      if bool_decide (status x = Disconnected) || bool_decide (queuedPackets x = []) then ret tt
      else
        modify_session session (set_queue []) ;;;
        for_each (runs (queuedPackets x)) (fun r => sendPacketsInternal connection r.1 r.2 false)
  end.

(** What the queue's thread does at every interval. *)
Definition flushOutboundQueues : M St unit :=
  let* s := get_st in
  for_each (connections_order (connections_ s)) (fun player => catch (sendQueued player) (fun _ => ret tt)).

(** *** Disconnecting *)

Definition disconnect_value (reason : string) : ProtoDefValue :=
  Object [("reason", String_ "unknown"); ("hide_disconnect_reason", Bool false); ("message", String_ reason); ("filtered_message", String_ "")].

(** A player that is gone, or a version without the packet. *)
Definition unreachable (connection : BedrockServerConnection) (packetName : string) : M St bool :=
  let* writable := hasWritablePlayer connection in
  if negb writable then ret true
  else
    let* current := statusOf connection in
    ret (bool_decide (current = Disconnected) || negb (ProtocolDefinition.hasPacket_name packetName packetDefinition)).

Definition disconnect (connection : BedrockServerConnection) (reason : string) : M St unit :=
  let* skip := unreachable connection "disconnect" in
  if skip : bool then ret tt
  else send connection "disconnect" (disconnect_value reason) Automatic ;;; schedulePlayerClose connection 100.

Definition status_value (playStatus : string) : ProtoDefValue := Object [("status", String_ playStatus)].

Definition sendDisconnectStatus (connection : BedrockServerConnection) (playStatus : string) : M St unit :=
  let* skip := unreachable connection "play_status" in
  if skip : bool then ret tt
  else send connection "play_status" (status_value playStatus) Automatic ;;; closePlayer connection.

(** *** Versions *)

Definition configuredServerProtocolVersion : result Z := ProtocolDefinition.protocolVersionFor (version options_).

Definition handleClientProtocolVersion (connection : BedrockServerConnection) (clientVersion : Z) : M St bool :=
  let* configured := lift configuredServerProtocolVersion in
  if configured <? clientVersion then sendDisconnectStatus connection "failed_spawn" ;;; ret false else ret true.

(** The server's comparisons: false of a version that is not known. *)
Definition server_compare (cmp : Z -> Z -> bool) (v : string) : result bool :=
  match ProtocolDefinition.findVersion v with
  | None => Ok false
  | Some target => let! configured := configuredServerProtocolVersion in Ok (cmp configured (ProtocolDefinition.entry_protocol target))
  end.
Definition server_compare_number (cmp : Z -> Z -> bool) (n : Z) : result bool :=
  let! configured := configuredServerProtocolVersion in Ok (cmp configured n).

Definition isObjectPrototypeVersionName (v : string) : bool :=
  bool_decide (v ∈ ["constructor"; "__defineGetter__"; "__defineSetter__"; "hasOwnProperty"; "__lookupGetter__"; "__lookupSetter__";
    "isPrototypeOf"; "propertyIsEnumerable"; "toString"; "valueOf"; "__proto__"; "toLocaleString"]).

Definition playerComparisonProtocolVersion (v : string) : result (option Z) :=
  match ProtocolDefinition.findVersion v with
  | Some entry => Ok (Some (ProtocolDefinition.entry_protocol entry))
  | None => if isObjectPrototypeVersionName v then Ok None else Throw (RuntimeError ("Unknown version: " +:+ v))
  end.

(** The player's comparisons. *)
Definition player_compare (cmp : Z -> Z -> bool) (v : string) : result bool :=
  let! target := playerComparisonProtocolVersion v in
  match target with
  | None => Ok false
  | Some target => let! configured := configuredServerProtocolVersion in Ok (cmp configured target)
  end.

(** *** Receiving *)

Definition decodeEncryptedFramedBatch (connection : BedrockServerConnection) (compressionPacket : bytes) : M St bytes :=
  if negb (compressorInPacketHeader_ mcpeCodec) then lift (inflateRaw zlib_ compressionPacket)
  else
    let unsupported name :=
      emitPlayerError connection ("Unsupported compressor: " +:+ name) ;;;
      raise (RuntimeError "Cannot read properties of undefined (reading 'byteLength')") in
    match compressionPacket with
    | [] => unsupported "undefined"
    | b :: rest =>
        if b =? 0 then lift (inflateRaw zlib_ rest)
        else if b =? 0xff then ret rest
        else unsupported (to_string b)
    end.

Definition decodeUnencryptedFramedBatch (k : compressor) (compressionReady : bool) (compressionPacket : bytes) : result bytes :=
  if compressorInPacketHeader_ mcpeCodec && compressionReady then
    match compressionPacket with
    | [] => Throw (RuntimeError "Unknown compression type undefined")
    | b :: body =>
        if b =? 0 then inflateRaw zlib_ body
        else if b =? 0xff then Ok body
        else if b =? 1 then decompress body
        else Throw (RuntimeError ("Unknown compression type " +:+ to_string b))
    end
  else if negb compressionReady && bool_decide (compressionAlgorithm k = "snappy") then Ok compressionPacket
  else if bool_decide (compressionAlgorithm k = "deflate") then rcatch (inflateRaw zlib_ compressionPacket) (fun _ => Ok compressionPacket)
  else if bool_decide (compressionAlgorithm k = "snappy") then rcatch (decompress compressionPacket) (fun _ => Ok compressionPacket)
  else Ok compressionPacket.

Definition resolvePlayerProtocolType (typeName : string) : option string :=
  match findTypeJson file (version options_) typeName with
  | Some versioned => Some versioned
  | None => generated_default typeName
  end.

Definition missing (field : ProtoDefField) : bool :=
  match find_text (chars "<missing:") (chars (value field)) 0 with Some _ => true | None => false end.

Definition validatePlayerPacket (connection : BedrockServerConnection) (packet : VersionedGamePacket) : M St unit :=
  if negb (ProtocolDefinition.hasPacket (packet_id packet) packetDefinition) then raise (RuntimeError "unknown packet id")
  else
    let typeName := if bool_decide (params_type packet = "") then "packet_" +:+ packet_name packet else params_type packet in
    match resolvePlayerProtocolType typeName with
    | None => raise (RuntimeError ("packet schema not found: " +:+ packet_name packet))
    | Some typeJson =>
        let* s := get_st in
        match sessionSnapshot connection s with
        | None => raise (RuntimeError "player session not found")
        | Some session =>
            let* x := get_session session in
            let (r, d) := ProtoDefDecoder.decode (payload packet) resolvePlayerProtocolType generated_default
              (variables_order (protoDefVariables x)) flags_order true fuel (chars typeJson) "" start_state in
            lift r ;;;
            if existsb missing (ProtoDefDecoder.out d) then raise (RuntimeError "packet field missing") else ret tt
        end
    end.

(** The packets up to the offset; a packet takes a byte at least. *)
Fixpoint framed_loop (rounds : nat) (connection : BedrockServerConnection) (framedBatch : bytes) (offset : Z)
    (packets : list VersionedGamePacket) : M St (list VersionedGamePacket) :=
  if negb (offset <? size framedBatch) then ret packets
  else
    match rounds with
    | O => raise OutOfFuel
    | S rounds' =>
        let (packetSize, offset) := readVarUInt framedBatch offset in
        let* packetSize := lift packetSize in
        if offset + packetSize >? size framedBatch then raise (RuntimeError "framed batch packet exceeds buffer size")
        else
          let* fullPacket := lift (vec_range framedBatch offset (offset + packetSize)) in
          let* packet := catch
            (let* packet := lift (decodeFullPacket packetDefinition fullPacket) in
             validatePlayerPacket connection packet ;;; ret (Some packet))
            (fun _ => disconnect connection "Server error" ;;; ret None) in
          framed_loop rounds' connection framedBatch (offset + packetSize)
            (packets ++ match packet with Some p => [p] | None => [] end)
    end.

Definition decodePlayerFramedBatch (connection : BedrockServerConnection) (framedBatch : bytes) : M St (list VersionedGamePacket) :=
  framed_loop (length framedBatch) connection framedBatch 0 [].

Definition decodeEncryptedPlayerPackets (connection : BedrockServerConnection) (compressionPacket : bytes) : M St (list VersionedGamePacket) :=
  let* framed := decodeEncryptedFramedBatch connection compressionPacket in decodePlayerFramedBatch connection framed.

(** The decryption of [handleEncapsulated], if the session is encrypted. *)
Definition session_decrypt (encrypted : bytes) : M (SessionState c) (option (option BedrockChecksumVerification)) :=
  let* x := get_st in
  if encryptionEnabled x && hasEncryptionKeys x then
    match decryptStream x with
    | None => raise (RuntimeError "server decrypt stream is not initialized")
    | Some stream =>
        let* v := zoom (fun x => (stream, receiveCounter x))
          (fun p x => set_streams (encryptStream x) (Some p.1) (encryptionEnabled x) (sendCounter x) p.2 x)
          (decryptAndVerify c encrypted (secretKeyBytes (encryptionKeys x))) in
        ret (Some v)
    end
  else ret None.

(** [handleEncapsulated] up to the packets; none when the payload is dropped. *)
Definition receive_packets (connection : BedrockServerConnection) (session : positive) (payload : bytes) :
    M St (option (list VersionedGamePacket)) :=
  let bad name := raise (RuntimeError ("Bad packet header " +:+ name)) in
  match payload with
  | [] => bad "undefined"
  | b :: body =>
      if negb (b =? 0xfe) then bad (to_string b)
      else
        let* x := get_session session in
        let* decrypted := on_session session (session_decrypt body) in
        match decrypted with
        | None =>
            let* s := get_st in
            let* framed := lift (decodeUnencryptedFramedBatch (compressor_ s) (compressionReady x) body) in
            let* packets := decodePlayerFramedBatch connection framed in ret (Some packets)
        | Some None => ret None
        | Some (Some verification) =>
            if negb (matches verification) then
              emitPlayerError connection (mismatchMessage verification) ;;;
              let* active := hasActivePlayer connection in
              (if active : bool then disconnect connection "disconnectionScreen.badPacket" else ret tt) ;;;
              ret None
            else
              let* packets := decodeEncryptedPlayerPackets connection (packetPlaintext verification) in ret (Some packets)
        end
  end.

(** *** The built-in answers *)

Definition network_settings_value (k : compressor) : ProtoDefValue :=
  Object [("compression_threshold", UInt (compressionThreshold k)); ("compression_algorithm", String_ (compressionAlgorithm k));
          ("client_throttle", Bool false); ("client_throttle_threshold", UInt 0); ("client_throttle_scalar", Double 0)].

Definition sendPreCompression (connection : BedrockServerConnection) (packetName : string) (value : ProtoDefValue) : M St unit :=
  let* active := hasActivePlayer connection in
  if negb active then ret tt
  else
    let* s := get_st in
    match sessionSnapshot connection s with
    | None => ret tt
    | Some session =>
        let* payload := encodePlayerPacket session packetName value in
        let* packet := lift (makePacketByName packetDefinition packetName payload) in
        let* framed := lift (encodeFramedBatch [packet]) in
        send_payload connection (0xfe :: framed)
    end.

Definition sendNetworkSettings (connection : BedrockServerConnection) (preLoginRequest : bool) : M St unit :=
  let* s := get_st in
  let value := network_settings_value (compressor_ s) in
  (if preLoginRequest then sendPreCompression connection "network_settings" value
   else send connection "network_settings" value Automatic) ;;;
  let* s := get_st in
  match sessionSnapshot connection s with
  | None => ret tt
  | Some session =>
      modify_session session (fun x => set_settings true true
        (if preLoginRequest then compressionLevel (compressor_ s) else session_level x) x)
  end.

Definition requestNetworkSettingsProtocol (packet : VersionedGamePacket) : result Z :=
  match payload packet with
  | b0 :: b1 :: b2 :: b3 :: _ => Ok (to_i32 (Z.lor (Z.lor (Z.lor (Z.shiftl b0 24) (Z.shiftl b1 16)) (Z.shiftl b2 8)) b3))
  | _ => Throw (RuntimeError "request_network_settings client_protocol is truncated")
  end.

Definition quoted (s : string) : string :=
  String (Ascii.ascii_of_nat 34) (s +:+ String (Ascii.ascii_of_nat 34) "").

(** The keys, the streams and the token of the handshake. *)
Definition start_encryption (session : positive) (verifiedLogin : BedrockLoginVerificationResult) : M St string :=
  let* x := get_session session in
  (if bool_decide (privateKeyPem (serverKeys x) = "") then
     let* keys := on_env generateP384KeyPair in
     modify_session session (fun x => set_keys keys (salt x) (clientPublicKeyDerBase64 x) (encryptionKeys x) (encryptStream x) (decryptStream x) (hasEncryptionKeys x) x)
   else ret tt) ;;;
  modify_session session (fun x => set_keys (serverKeys x) (if bool_decide (salt x = []) then [0xf0; 0x9f; 0xa7; 0x82] else salt x)
    (key verifiedLogin) (encryptionKeys x) (encryptStream x) (decryptStream x) (hasEncryptionKeys x) x) ;;;
  let* x := get_session session in
  let* keys := lift (deriveKeys (clientPublicKeyDerBase64 x) (privateKeyPem (serverKeys x)) (salt x)) in
  modify_session session (fun x => set_keys (serverKeys x) (salt x) (clientPublicKeyDerBase64 x) keys (encryptStream x) (decryptStream x) (hasEncryptionKeys x) x) ;;;
  let* protocolVersion := lift configuredServerProtocolVersion in
  let* encrypt := lift (createCipherStream c protocolVersion (secretKeyBytes keys) (iv16 keys) Encrypt) in
  modify_session session (fun x => set_keys (serverKeys x) (salt x) (clientPublicKeyDerBase64 x) keys (Some encrypt) (decryptStream x) (hasEncryptionKeys x) x) ;;;
  let* decrypt := lift (createCipherStream c protocolVersion (secretKeyBytes keys) (iv16 keys) Decrypt) in
  modify_session session (fun x => set_keys (serverKeys x) (salt x) (clientPublicKeyDerBase64 x) keys (Some encrypt) (Some decrypt) true x) ;;;
  let payloadJson := "{" +:+ quoted "salt" +:+ ":" +:+ quoted (base64 (salt x)) +:+ "," +:+ quoted "signedToken" +:+ ":" +:+
    quoted (publicKeyDerBase64 (serverKeys x)) +:+ "}" in
  on_env (signEs384Jwt (privateKeyPem (serverKeys x)) (publicKeyDerBase64 (serverKeys x)) payloadJson).

(** The half of [handleLogin] behind the verification. *)
Definition finish_login (connection : BedrockServerConnection) (session : positive) (packet : VersionedGamePacket)
    (verifiedLogin : BedrockLoginVerificationResult) : M St unit :=
  let* token := start_encryption session verifiedLogin in
  send connection "server_to_client_handshake" (Object [("token", String_ token)]) Automatic ;;;
  let* writable := hasWritablePlayer connection in
  if negb writable then ret tt
  else
    modify_session session (fun x => set_streams (encryptStream x) (decryptStream x) true 0 0 x) ;;;
    emit connection (EvClientHandshake connection (key verifiedLogin)) ;;;
    let* writable := hasWritablePlayer connection in
    if negb writable then ret tt
    else
      modify_session session (set_verification (Some verifiedLogin)) ;;;
      emit connection (EvLogin connection packet).

Definition handleLogin (connection : BedrockServerConnection) (packet : VersionedGamePacket) : M St unit :=
  match LoginPacketCodec.decode (fullPacket packet) with
  | Throw e => if is_stuck e then raise e else disconnect connection "Server authentication error"
  | Ok login =>
      emit connection (EvLoggingIn connection packet login) ;;;
      let* accepted := handleClientProtocolVersion connection (to_i32 (LoginPacketCodec.protocolVersion login)) in
      if negb accepted then ret tt
      else
        match verify login (offline options_) with
        | Throw e => if is_stuck e then raise e else disconnect connection "Server authentication error"
        | Ok verifiedLogin =>
            (if disconnectNotAuthenticated verifiedLogin then disconnect connection "disconnectionScreen.notAuthenticated" else ret tt) ;;;
            let* s := get_st in
            match sessionSnapshot connection s with
            | None => ret tt
            | Some session => finish_login connection session packet verifiedLogin
            end
        end
  end.

Definition resource_packs_info_value : ProtoDefValue :=
  Object [("must_accept", Bool false); ("has_addons", Bool false); ("has_scripts", Bool false); ("disable_vibrant_visuals", Bool false);
    ("force_server_packs", Bool false);
    ("world_template", Object [("uuid", String_ "00000000-0000-0000-0000-000000000000"); ("version", String_ "")]);
    ("behaviour_packs", Array []); ("texture_packs", Array []); ("resource_pack_links", Array [])].

Definition sendEmptyResourcePacksInfo (connection : BedrockServerConnection) : M St unit :=
  let* s := get_st in
  match sessionSnapshot connection s with
  | None => ret tt
  | Some _ =>
      send connection "resource_packs_info" resource_packs_info_value Automatic ;;;
      let* s := get_st in
      match sessionSnapshot connection s with
      | None => ret tt
      | Some afterSend => modify_session afterSend (fun x => set_packs true (resourcePackStackSent x) x)
      end
  end.

Definition resource_pack_stack_value : ProtoDefValue :=
  Object [("must_accept", Bool false); ("behavior_packs", Array []); ("resource_packs", Array []);
    ("game_version", String_ (version options_)); ("experiments", Array []); ("experiments_previously_used", Bool false);
    ("has_editor_packs", Bool false)].

Definition sendEmptyResourcePackStack (connection : BedrockServerConnection) : M St unit :=
  send connection "resource_pack_stack" resource_pack_stack_value Automatic.

Definition handleResourcePackClientResponse (connection : BedrockServerConnection) (packet : VersionedGamePacket) : M St unit :=
  let* s := get_st in
  match sessionSnapshot connection s with
  | None => ret tt
  | Some session =>
      let response := match payload packet with [] => 0xff | b :: _ => b end in
      let* x := get_session session in
      if ((response =? 0x03) || (response =? 0x04)) && negb (resourcePackStackSent x) then
        sendEmptyResourcePackStack connection ;;;
        let* active := hasActivePlayer connection in
        if active : bool then modify_session session (fun x => set_packs (resourcePacksInfoSent x) true x) else ret tt
      else if response =? 0x04 then emitJoin connection
      else ret tt
  end.

(** Whether the packet is kept from the listeners. *)
Definition handleBuiltInPacket (connection : BedrockServerConnection) (packet : VersionedGamePacket) : M St bool :=
  let has name := ProtocolDefinition.hasPacket_name name packetDefinition in
  if bool_decide (packet_name packet = "request_network_settings") then
    let* clientVersion := lift (requestNetworkSettingsProtocol packet) in
    let* accepted := handleClientProtocolVersion connection clientVersion in
    (if (accepted : bool) && has "network_settings" then sendNetworkSettings connection true else ret tt) ;;;
    ret true
  else if bool_decide (packet_name packet = "login") then
    (if autoLogin options_ && has "server_to_client_handshake" then handleLogin connection packet else ret tt) ;;;
    let* unsent :=
      (let* s := get_st in
       match sessionSnapshot connection s with
       | None => ret false
       | Some session => let* x := get_session session in ret (negb (networkSettingsSent x))
       end) in
    (if (unsent : bool) && has "network_settings" then sendNetworkSettings connection false else ret tt) ;;;
    ret true
  else if bool_decide (packet_name packet = "client_to_server_handshake") && has "play_status" then
    send connection "play_status" (status_value "login_success") Automatic ;;;
    transitionStatus connection Initializing ;;;
    (if autoResourcePacks options_ && has "resource_packs_info" then sendEmptyResourcePacksInfo connection else emitJoin connection) ;;;
    ret false
  else if bool_decide (packet_name packet = "set_local_player_as_initialized") then
    transitionStatus connection Initialized ;;;
    emitSpawn connection ;;;
    ret false
  else
    (if autoResourcePacks options_ && bool_decide (packet_name packet = "resource_pack_client_response")
     then handleResourcePackClientResponse connection packet else ret tt) ;;;
    ret false.

(** One packet; [true] to go on with the next. *)
Definition deliver (connection : BedrockServerConnection) (packet : VersionedGamePacket) : M St bool :=
  let* active := hasActivePlayer connection in
  if negb active then ret false
  else
    let* handled := handleBuiltInPacket connection packet in
    if handled : bool then ret true
    else
      let* current := statusOf connection in
      if bool_decide (current = Disconnected) || bool_decide (current = Authenticating) then ret true
      else
        modify (push_event (EvNamed connection packet)) ;;;
        emit_player connection (EvNamed connection packet) ;;;
        modify (push_event (EvAny connection packet)) ;;;
        emit_player connection (EvAny connection packet) ;;;
        server_listen (EvNamed connection packet) ;;;
        server_listen (EvAny connection packet) ;;;
        ret true.

Fixpoint deliver_all (connection : BedrockServerConnection) (packets : list VersionedGamePacket) : M St unit :=
  match packets with
  | [] => ret tt
  | packet :: packets' =>
      let* more := deliver connection packet in
      if more : bool then deliver_all connection packets' else ret tt
  end.

Definition handleEncapsulated (peer : RakNetServerPeer) (payload : bytes) : M St unit :=
  let* s := get_st in
  if closing_ s then ret tt
  else
    let* s := get_st in
    match playerSnapshot peer s with
    | None => ret tt
    | Some (connection, session) =>
        let* packets := receive_packets connection session payload in
        match packets with None => ret tt | Some packets => deliver_all connection packets end
    end.

(** *** The native transport's messages *)

(** The handler of a new connection, behind the check of [closing_]. *)
Definition register_player (peer : RakNetServerPeer) : M St BedrockServerConnection :=
  let* s := get_st in
  let connection := mkConnection peer (next_ s) in
  let session := Pos.succ (next_ s) in
  modify (set_next (Pos.succ session)) ;;;
  modify (fun s => set_lifecycle (closedPlayers_ s ∖ {[playerKey connection]}) (delete (playerKey connection) (detachedPlayerStatuses_ s))
    (scheduledPlayerCloses_ s) s) ;;;
  modify (fun s => set_heap (<[session := fresh_session (compressionLevel (compressor_ s))]> (heap_ s)) s) ;;;
  modify (fun s => set_tables (<[connectionKey peer := connection]> (connections_ s)) (<[connectionKey peer := session]> (sessions_ s))
    (clientCount_ s + 1) s) ;;;
  ret connection.

Definition openConnection (peer : RakNetServerPeer) : M St unit :=
  let* s := get_st in
  if closing_ s then ret tt
  else
    let* connection := register_player peer in
    modify (push_event (EvConnect connection)) ;;;
    server_listen (EvConnect connection).

(** [RakNetServer::handleNativePacket] with the server's handlers. *)
Definition handleNativePacket (packetPeer : RakNetServerPeer) (packet : bytes) : M St unit :=
  match packet with
  | [] => ret tt
  | id :: _ =>
      if id =? ID_NEW_INCOMING_CONNECTION then
        let* inserted := on_raknet (insert_peer packetPeer) in
        if inserted : bool then openConnection packetPeer else ret tt
      else if isDisconnectMessage id then
        let* closedPeer := on_raknet (erase_peer packetPeer) in
        match closedPeer with Some p => handlePeerClosed p | None => ret tt end
      else
        let* s := get_st in
        if negb (known packetPeer (raknet_ s)) then ret tt
        else if id <? ID_USER_PACKET_ENUM then ret tt
        else handleEncapsulated packetPeer packet
  end.

(** The peers whose deadline is over, in the order of the deadlines. *)
Definition processPeerCloses (due : list RakNetServerPeer) (left_ : list (RakNetServerPeer * Z)) : M St unit :=
  on_raknet (let* r := get_st in
    put_st (mkRaknet (running_ r) (peers_ r) left_ (shutdownScheduled_ r) (wire_ r) (native_closes_ r))) ;;;
  for_each due close_peer_now.

Definition shutdown : M St unit := on_raknet finishShutdown.

(** The fallback scheduler takes what is due and closes the player. *)
Definition processPlayerClose (connection : BedrockServerConnection) (left_ : list (BedrockServerConnection * Z)) : M St unit :=
  modify (fun s => set_lifecycle (closedPlayers_ s) (detachedPlayerStatuses_ s) left_ s) ;;;
  closePlayer connection.

(** *** The life of the server *)

(** The checks of the options that the model has. *)
Definition normalizeOptions (k : compressor) : result compressor :=
  let! _ := ProtocolDefinition.validateVersion (version options_) in
  if bool_decide (compressionAlgorithm k = "none") then Ok (mkCompressor "none" 0 (compressionThreshold k))
  else if negb (bool_decide (compressionAlgorithm k = "deflate")) && negb (bool_decide (compressionAlgorithm k = "snappy")) then
    Throw (RuntimeError ("Unknown compression algorithm: " +:+ compressionAlgorithm k))
  else Ok k.

Definition make (k : compressor) (env : E) : result St :=
  let! k := normalizeOptions k in
  Ok (mkServer c E k ∅ ∅ ∅ 0 false ∅ ∅ [] (mkRaknet false ∅ [] false [] []) 1 [] env).

(** Without the advertisement. *)
Definition listen : M St unit := modify (set_closing false) ;;; on_raknet RakNetServer.listen.

(** The statuses of the players that [close] detaches. *)
Fixpoint detach (clients : list BedrockServerConnection) (s : St) : gmap string BedrockServerClientStatus :=
  match clients with
  | [] => detachedPlayerStatuses_ s
  | client :: clients' =>
      match sessions_ s !! connectionKey (peer client) with
      | Some p =>
          match heap_ s !! p with
          | Some x =>
              if bool_decide (playerKey client ∉ closedPlayers_ s) then
                <[playerKey client := status x]> (detach clients' s)
              else detach clients' s
          | None => detach clients' s
          end
      | None => detach clients' s
      end
  end.

(** The waiting for the worker is left out. *)
Definition close (disconnectReason : string) : M St unit :=
  modify (set_closing true) ;;;
  let* s := get_st in
  let clients := connections_order (connections_ s) in
  for_each clients (fun client => disconnect client disconnectReason) ;;;
  modify (fun s => set_lifecycle (closedPlayers_ s) (detach clients s) (scheduledPlayerCloses_ s) (set_tables ∅ ∅ 0 s)) ;;;
  on_raknet closeAfter.

End Server.
End BedrockServer.
