(* ===== verification/ServerSample.v ===== *)
(** * A sample server

    Concrete surroundings for the witnesses and the computed scenarios: a small
    packet table, schemas without fields, listeners that do nothing, a login
    chain that is always accepted. *)

From S2P Require Import Prelude MachineInt Framing GamePacket Text Snappy Zlib Versioned VersionedCodec Encryption ClientLink LoginPacket ProtoDefData.
From S2P Require Import ProtoDefJson ProtoDefText ProtoDefDecoder ProtoDefPackets BedrockServer.

Import VersionedPacketCodec VersionedMcpeCodec BedrockEncryption BedrockNetworkLink ProtoDefPackets BedrockServer.

Definition server_table : ProtocolVersionInfo :=
  ProtocolDefinition.mkVersionInfo "1.21.0" 685
    (map (fun p => ProtocolDefinition.mkPacketInfo p.1 p.2 None)
       [(1, "login"); (2, "play_status"); (3, "server_to_client_handshake"); (4, "client_to_server_handshake");
        (5, "disconnect"); (6, "resource_packs_info"); (7, "resource_pack_stack"); (8, "resource_pack_client_response");
        (11, "start_game"); (113, "set_local_player_as_initialized"); (143, "network_settings"); (193, "request_network_settings")]).

Definition server_options : BedrockServerOptions := mkServerOptions "1.21.0" false true false (mkMcpeCodec server_table true).

#[export] Instance sample_server_surroundings : ServerSurroundings toy_crypto unit := {
  zlib_ := stored_zlib;
  options_ := server_options;
  file _ := None;
  generatedProtocolTypeJson _ _ := Some (quoted "void");
  generated_default _ := Some (quoted "void");
  variables_order := map_to_list;
  flags_order l := l;
  connections_order m := (map_to_list m).*2;
  fuel := 4;
  player_listen _ _ := ret tt;
  server_listen _ := ret tt;
  clear_listeners _ e := e;
  error_listener _ _ := true;
  verify _ _ := Ok (mkVerified "key" (Object []) (Object []) 685 true false);
  generateP384KeyPair := ret (mkKeyPair "private" "public");
  deriveKeys _ _ _ := Ok (mkKeys (replicate 32 7) (replicate 16 1));
  base64 _ := "8J+nsg==";
  signEs384Jwt _ _ _ := ret "token"
}.

Abbreviation sample_server := (server toy_crypto unit).

Definition server_compressor : compressor := mkCompressor "deflate" 7 512.

(** What [listen] makes of a new server. *)
Definition server_start : sample_server :=
  mkServer toy_crypto unit server_compressor ∅ ∅ ∅ 0 false ∅ ∅ [] (mkRaknet true ∅ [] false [] []) 1 [] tt.

Lemma sample_server_made : exists s : sample_server, make server_compressor tt = Ok s /\ snd (listen s) = server_start.
Proof. eexists. by split. Qed.

Definition alice : RakNetServerPeer := mkPeer "10.0.0.1" 4000 7.
Definition bob : RakNetServerPeer := mkPeer "10.0.0.2" 4000 8.
