(* ===== verification/ServerIsolation.v ===== *)
(** * What one player can do to the server

    The tables of the server stay consistent ([wf]), and an operation for one
    endpoint leaves the connections and sessions of all the others alone and
    puts nothing on their wires ([frame]), as long as the listeners do.  Both
    are one judgement on computations, [isolated], which every operation is
    shown to satisfy for the endpoints [K] that it may touch. *)

From S2P Require Import Prelude MachineInt Framing GamePacket Text Snappy Zlib Versioned Encryption ClientLink LoginPacket ProtoDefData.
From S2P Require Import ProtoDefJson ProtoDefText ProtoDefDecoder ProtoDefPackets BedrockServer ServerSample.

Import VersionedPacketCodec VersionedMcpeCodec BedrockEncryption BedrockNetworkLink ProtoDefPackets BedrockServer.

Section Isolation.
Context {c : crypto} {E : Type} `{!ServerSurroundings c E}.
Abbreviation St := (server c E).

Record wf (s : St) : Prop := mkWf {
  wf_tables : forall k, is_Some (connections_ s !! k) <-> is_Some (sessions_ s !! k);
  wf_keys : forall k x, connections_ s !! k = Some x -> connectionKey (peer x) = k;
  wf_shared : forall k k' p, sessions_ s !! k = Some p -> sessions_ s !! k' = Some p -> k = k';
  wf_heap : forall k p, sessions_ s !! k = Some p -> is_Some (heap_ s !! p);
  wf_next : forall p, is_Some (heap_ s !! p) -> (p < next_ s)%positive;
  wf_peers : forall k x, peers_ (raknet_ s) !! k = Some x -> peerKey x = k;
  wf_count : Z.of_nat (base.size (connections_ s)) <= clientCount_ s
}.

Section Keys.
(** The endpoints that may be touched. *)
Context (K : string -> Prop).

(** What becomes of the others. *)
Record frame (s s' : St) : Prop := mkFrame {
  fr_connections : forall k, ~ K k -> connections_ s' !! k = connections_ s !! k;
  fr_sessions : forall k, ~ K k -> sessions_ s' !! k = sessions_ s !! k;
  fr_heap : forall k p, ~ K k -> sessions_ s !! k = Some p -> heap_ s' !! p = heap_ s !! p;
  fr_wire : exists l, wire_ (raknet_ s') = wire_ (raknet_ s) ++ l /\ Forall (fun w => K (peerKey w.1)) l
}.

#[export] Instance frame_preorder : PreOrder frame.
Proof.
  split.
  - intros s. split; try done. exists []. by rewrite app_nil_r.
  - intros a b d [H1 H2 H3 (l1 & H4 & H5)] [G1 G2 G3 (l2 & G4 & G5)]. split.
    + intros k Hk. by rewrite G1, H1.
    + intros k Hk. by rewrite G2, H2.
    + intros k p Hk Hp. rewrite (G3 k), (H3 k) by (done || by rewrite H2). done.
    + exists (l1 ++ l2). rewrite G4, H4, <-app_assoc. split; [done|]. by apply Forall_app.
Qed.

(** The sessions [ps] belong to nobody else. *)
Definition own (ps : list positive) (s : St) : Prop := forall p k, p ∈ ps -> ~ K k -> sessions_ s !! k <> Some p.

Definition isolated {A} (ps : list positive) (m : M St A) : Prop := forall s, wf s -> own ps s ->
  wf (snd (m s)) /\ frame s (snd (m s)).

Lemma own_frame ps s s' : own ps s -> frame s s' -> own ps s'.
Proof. intros Ho Hf p k Hp Hk. rewrite (fr_sessions _ _ Hf k Hk). by apply Ho. Qed.

Lemma own_nil s : own [] s.
Proof. intros p k Hp. by apply elem_of_nil in Hp. Qed.

(** ** The structure of computations *)

Lemma iso_same {A} ps (m : M St A) : (forall s, snd (m s) = s) -> isolated ps m.
Proof. intros H s Hs _. rewrite H. split; [done|reflexivity]. Qed.
Lemma iso_ret {A} ps (a : A) : isolated ps (ret a).
Proof. by apply iso_same. Qed.
Lemma iso_raise {A} ps e : isolated (A := A) ps (raise e).
Proof. by apply iso_same. Qed.
Lemma iso_lift {A} ps (r : result A) : isolated ps (lift r).
Proof. by apply iso_same. Qed.
Lemma iso_bind {A B} ps (m : M St A) (f : A -> M St B) : isolated ps m -> (forall a, isolated ps (f a)) -> isolated ps (bind m f).
Proof.
  intros Hm Hf s Hs Ho. unfold bind. destruct (Hm s Hs Ho) as [H1 H2]. destruct (m s) as [[a|e] s1]; [|done]. cbn [snd] in *.
  destruct (Hf a s1 H1 (own_frame _ _ _ Ho H2)) as [H3 H4]. split; [done|]. by etrans.
Qed.
Lemma iso_get {B} ps (f : St -> M St B) : (forall s, isolated ps (f s)) -> isolated ps (bind get_st f).
Proof. intros Hf s. apply Hf. Qed.
Lemma iso_if {A} ps (b : bool) (m n : M St A) : isolated ps m -> isolated ps n -> isolated ps (if b then m else n).
Proof. by destruct b. Qed.
Lemma iso_for_each {A} ps (l : list A) (f : A -> M St unit) : (forall a, isolated ps (f a)) -> isolated ps (for_each l f).
Proof. intros Hf. induction l as [|a l IH]; [apply iso_ret|]. cbn [for_each]. by apply iso_bind. Qed.
Lemma iso_catch {A} ps (m : M St A) h : isolated ps m -> (forall e, isolated ps (h e)) -> isolated ps (catch m h).
Proof.
  intros Hm Hh s Hs Ho. unfold catch. destruct (Hm s Hs Ho) as [H1 H2]. destruct (m s) as [[a|e] s1]; [done|]. cbn [snd] in *.
  destruct (is_stuck e); [done|]. destruct (Hh e s1 H1 (own_frame _ _ _ Ho H2)) as [H3 H4]. split; [done|]. by etrans.
Qed.
Lemma iso_weaken {A} ps (m : M St A) : isolated [] m -> isolated ps m.
Proof. intros H s Hs _. apply H; [done|apply own_nil]. Qed.

(** The session of a connection to one of the endpoints. *)
Lemma iso_snapshot {A} ps connection (f : St -> positive -> M St A) (g : St -> M St A) : K (connectionKey (peer connection)) ->
  (forall s p, isolated (p :: ps) (f s p)) -> (forall s, isolated ps (g s)) ->
  isolated ps (bind get_st (fun s => match sessionSnapshot connection s with None => g s | Some p => f s p end)).
Proof.
  intros HK Hf Hg s Hs Ho. unfold bind, get_st. destruct (sessionSnapshot connection s) as [p|] eqn:Es; [|by apply Hg].
  apply Hf; [done|]. intros q k Hq Hk. apply elem_of_cons in Hq as [->|Hq]; [|by apply Ho].
  intros Hp. apply Hk. unfold sessionSnapshot, player_of in Es. destruct (connections_ s !! _) as [x|]; [|done]. cbn in Es.
  destruct (negb _); [done|]. destruct (sessions_ s !! connectionKey _) as [q|] eqn:Eq; [|done]. injection Es as ->.
  by rewrite (wf_shared s Hs _ _ _ Hp Eq).
Qed.

(** ** The primitive steps *)

Lemma iso_modify ps (f : St -> St) : (forall s, connections_ (f s) = connections_ s /\ sessions_ (f s) = sessions_ s /\ heap_ (f s) = heap_ s /\
  clientCount_ (f s) = clientCount_ s /\ next_ (f s) = next_ s /\ raknet_ (f s) = raknet_ s) -> isolated ps (modify f).
Proof.
  intros Hf s Hs _. destruct (Hf s) as (H1 & H2 & H3 & H4 & H5 & H6). destruct Hs as [W1 W2 W3 W4 W5 W7 W6]. cbn. split.
  - split; rewrite ?H1, ?H2, ?H3, ?H4, ?H5, ?H6; done.
  - split; rewrite ?H1, ?H2, ?H3, ?H6; try done. exists []. by rewrite app_nil_r.
Qed.

Lemma iso_session {A} ps p (m : M (SessionState c) A) : p ∈ ps -> isolated ps (on_session p m).
Proof.
  intros Hp s Hs Ho. unfold on_session. destruct (heap_ s !! p) as [x|] eqn:Ex; [|split; [done|reflexivity]].
  destruct (m x) as [r x']. cbn [snd]. destruct Hs as [W1 W2 W3 W4 W5 W7 W6]. split.
  - split; cbn; try done.
    + intros k q Hq. destruct (decide (q = p)) as [->|Hne]; [rewrite lookup_insert_eq; by eexists|rewrite lookup_insert_ne by done; by eapply W4].
    + intros q Hq. apply W5. destruct (decide (q = p)) as [->|Hne]; [by eexists|]. by rewrite lookup_insert_ne in Hq.
  - split; cbn; try done.
    + intros k q Hk Hq. apply lookup_insert_ne. intros ->. by apply (Ho q k Hp Hk).
    + exists []. by rewrite app_nil_r.
Qed.

(** A step of the transport, with what its result says. *)
Definition transport_ok {A} (m : M raknet A) (Q : A -> Prop) : Prop := forall r,
  (forall k x, peers_ r !! k = Some x -> peerKey x = k) ->
  (forall k x, peers_ (snd (m r)) !! k = Some x -> peerKey x = k) /\
  (exists l, wire_ (snd (m r)) = wire_ r ++ l /\ Forall (fun w => K (peerKey w.1)) l) /\
  (forall a, fst (m r) = Ok a -> Q a).

Lemma iso_bind_raknet {A B} ps (m : M raknet A) (Q : A -> Prop) (f : A -> M St B) :
  transport_ok m Q -> (forall a, Q a -> isolated ps (f a)) -> isolated ps (bind (on_raknet m) f).
Proof.
  intros Hm Hf s Hs Ho. unfold bind, on_raknet, zoom. destruct Hs as [W1 W2 W3 W4 W5 W7 W6].
  destruct (Hm (raknet_ s) W7) as (H1 & H2 & H3). destruct (m (raknet_ s)) as [a r]. cbn [fst snd] in *.
  assert (wf (set_raknet r s)) as Hw by by split.
  assert (frame s (set_raknet r s)) as Hfr by by split.
  destruct a as [a|e]; [|done]. destruct (Hf a (H3 a eq_refl) _ Hw (own_frame _ _ _ Ho Hfr)). split; [done|]. by etrans.
Qed.

Lemma iso_raknet {A} ps (m : M raknet A) : transport_ok m (fun _ => True) -> isolated ps (on_raknet m).
Proof.
  intros Hm s Hs _. unfold on_raknet, zoom. destruct Hs as [W1 W2 W3 W4 W5 W7 W6].
  destruct (Hm (raknet_ s) W7) as (H1 & H2 & _). destruct (m (raknet_ s)) as [a r]. cbn [fst snd] in *. by split; split.
Qed.

Lemma transport_quiet {A} (m : M raknet A) (Q : A -> Prop) : (forall r, wire_ (snd (m r)) = wire_ r) ->
  (forall r, (forall k x, peers_ r !! k = Some x -> peerKey x = k) ->
     (forall k x, peers_ (snd (m r)) !! k = Some x -> peerKey x = k) /\ (forall a, fst (m r) = Ok a -> Q a)) -> transport_ok m Q.
Proof. intros Hw Hp r Hr. destruct (Hp r Hr) as [H1 H2]. split_and!; [done| |done]. exists []. by rewrite Hw, app_nil_r. Qed.

Lemma transport_erase who : K (peerKey who) ->
  transport_ok (erase_peer who) (fun closed => match closed with Some x => K (peerKey x) | None => True end).
Proof.
  intros HK. apply transport_quiet; intros r; unfold erase_peer, bind, get_st; destruct (known who r); try done; intros Hr; cbn.
  - split; [|intros a [= <-]; destruct (peers_ r !! peerKey who) as [x|] eqn:Ex; [by rewrite (Hr _ _ Ex)|done]].
    intros k x Hx. apply lookup_delete_Some in Hx as [_ Hx]. by apply Hr.
  - split; [done|]. by intros a [= <-].
Qed.

Lemma transport_close who : K (peerKey who) ->
  transport_ok (closePeerNow who) (fun closed => match closed with Some x => K (peerKey x) | None => True end).
Proof.
  intros HK r Hr. destruct (transport_erase who HK r Hr) as (H1 & H2 & H3). unfold closePeerNow, bind.
  destruct (erase_peer who r) as [[[x|]|e] r']; cbn in *; split_and!; try done; intros a [= <-]; by apply H3.
Qed.

Lemma transport_insert who : transport_ok (insert_peer who) (fun _ => True).
Proof.
  apply transport_quiet; intros r; unfold insert_peer, bind, get_st; destruct (known who r); try done; intros Hr; cbn; split; try done.
  intros k x Hx. apply lookup_insert_Some in Hx as [[<- <-]|[_ Hx]]; [done|by apply Hr].
Qed.

Lemma transport_send who payload : K (peerKey who) -> transport_ok (sendReliable who payload) (fun _ => True).
Proof.
  intros HK r Hr. unfold sendReliable, bind, get_st. assert (exists l, wire_ r = wire_ r ++ l /\ Forall (fun w => K (peerKey w.1)) l) as Hn
    by (exists []; by rewrite app_nil_r).
  destruct (_ || _); [by split_and!|]. destruct (negb (known who r)); [by split_and!|]. cbn. split_and!; [done| |done].
  eexists. split; [done|]. by constructor.
Qed.

Lemma iso_env {A} ps (m : M E A) : isolated ps (on_env m).
Proof.
  intros s Hs _. unfold on_env, zoom. destruct (m (env_ s)) as [a e]. cbn [snd]. destruct Hs as [W1 W2 W3 W4 W5 W7 W6]. split; [by split|].
  split; try done. exists []. by rewrite app_nil_r.
Qed.

(** ** A player's operations *)

Lemma iso_player {A} ps who (f : St -> BedrockServerConnection -> positive -> M St A) (g : St -> M St A) : K (connectionKey who) ->
  (forall s x p, K (connectionKey (peer x)) -> isolated (p :: ps) (f s x p)) -> (forall s, isolated ps (g s)) ->
  isolated ps (bind get_st (fun s => match playerSnapshot who s with None => g s | Some (x, p) => f s x p end)).
Proof.
  intros HK Hf Hg s Hs Ho. unfold bind, get_st. destruct (playerSnapshot who s) as [[x p]|] eqn:Es; [|by apply Hg].
  unfold playerSnapshot, player_of in Es. destruct (connections_ s !! _) as [y|] eqn:Ey; [|done]. cbn in Es.
  destruct (negb _); [done|]. destruct (sessions_ s !! connectionKey _) as [q|] eqn:Eq; [|done]. injection Es as -> ->.
  apply Hf; [by rewrite (wf_keys s Hs _ _ Ey)|done|]. intros q k Hq Hk. apply elem_of_cons in Hq as [->|Hq]; [|by apply Ho].
  intros Hp. apply Hk. by rewrite (wf_shared s Hs _ _ _ Hp Eq).
Qed.

Lemma iso_variables {A} ps p (m : M ProtoDefVariableMap A) : p ∈ ps -> isolated ps (on_variables p m).
Proof. apply iso_session. Qed.
Lemma iso_get_session ps p : p ∈ ps -> isolated ps (get_session p).
Proof. apply iso_session. Qed.
Lemma iso_modify_session ps p f : p ∈ ps -> isolated ps (modify_session p f).
Proof. apply iso_session. Qed.
End Keys.

Create HintDb isolated.
#[local] Hint Resolve iso_ret iso_raise iso_lift iso_env : isolated.
#[local] Hint Extern 1 (isolated _ _ (modify _)) => (apply iso_modify; done) : isolated.
#[local] Hint Extern 1 (isolated _ _ (on_variables _ _)) => (apply iso_variables; set_solver) : isolated.
#[local] Hint Extern 1 (isolated _ _ (get_session _)) => (apply iso_get_session; set_solver) : isolated.
#[local] Hint Extern 1 (isolated _ _ (modify_session _ _)) => (apply iso_modify_session; set_solver) : isolated.
#[local] Hint Extern 1 (isolated _ _ (on_session _ _)) => (apply iso_session; set_solver) : isolated.

Ltac iso1 :=
  match goal with
  | |- isolated _ _ (bind get_st (fun s => match sessionSnapshot _ s with _ => _ end)) => apply iso_snapshot; [done|intros ? ?|intros ?]
  | |- isolated _ _ (bind get_st (fun s => match playerSnapshot _ s with _ => _ end)) => apply iso_player; [done|intros ? ? ? ?|intros ?]
  | |- isolated _ _ (bind get_st _) => apply iso_get; intros ?
  | |- isolated _ _ (bind _ _) => apply iso_bind; [|intros ?]
  | |- isolated _ _ (if _ then _ else _) => apply iso_if
  | |- isolated _ _ (for_each _ _) => apply iso_for_each; intros ?
  | |- isolated _ _ (catch _ _) => apply iso_catch; [|intros ?]
  | |- isolated _ _ (match ?x with _ => _ end) => destruct x
  end.
Ltac iso := repeat (first [solve [eauto 2 with isolated] | iso1]).

Section Operations.
Context (K : string -> Prop).
(** The listeners touch no other endpoint. *)
Context (player_ok : forall x ev ps, K (connectionKey (peer x)) -> isolated K ps (player_listen x ev)).
Context (server_ok : forall ev ps, isolated K ps (server_listen ev)).

Abbreviation mine x := (K (connectionKey (peer x))).

Lemma iso_emit_player ps x ev : mine x -> isolated K ps (emit_player x ev).
Proof. apply player_ok. Qed.
Lemma iso_emit ps x ev : mine x -> isolated K ps (emit x ev).
Proof. intros HK. unfold emit, emit_player. iso. Qed.
Lemma iso_error ps x m : mine x -> isolated K ps (emitPlayerError x m).
Proof. intros HK. unfold emitPlayerError, emit_player. iso. Qed.
Lemma iso_clear ps x : isolated K ps (clearPlayerListeners x).
Proof. unfold clearPlayerListeners. iso. Qed.
Lemma iso_writable ps x : mine x -> isolated K ps (hasWritablePlayer x).
Proof. intros HK. unfold hasWritablePlayer. iso. Qed.
Lemma iso_active ps x : mine x -> isolated K ps (hasActivePlayer x).
Proof. intros HK. unfold hasActivePlayer. iso; by apply iso_writable. Qed.
Lemma iso_status ps x : mine x -> isolated K ps (statusOf x).
Proof. intros HK. unfold statusOf. iso. Qed.
#[local] Hint Resolve iso_emit iso_error iso_clear iso_writable iso_active iso_status iso_emit_player : isolated.
#[local] Hint Extern 1 (isolated _ _ (emitPlayerClose _)) => (apply iso_emit; done) : isolated.
#[local] Hint Extern 1 (isolated _ _ (emitJoin _)) => (apply iso_emit; done) : isolated.
#[local] Hint Extern 1 (isolated _ _ (emitSpawn _)) => (apply iso_emit; done) : isolated.
#[local] Hint Extern 1 (isolated _ _ (server_listen _)) => (apply server_ok) : isolated.

Lemma iso_transition ps x st : mine x -> isolated K ps (transitionStatus x st).
Proof. intros HK. unfold transitionStatus. iso. Qed.
Lemma iso_close_once ps x : isolated K ps (close_once x).
Proof. unfold close_once. iso. Qed.
Lemma iso_forget ps x : isolated K ps (forget_detached x).
Proof. unfold forget_detached. iso. Qed.
#[local] Hint Resolve iso_transition iso_close_once iso_forget : isolated.

(** ** Closing a player *)

Lemma iso_erase ps who : K (connectionKey who) -> isolated K ps (erase_player who).
Proof.
  intros HK s Hs _. unfold erase_player, modify. cbn [snd].
  destruct (connections_ s !! connectionKey who) as [x|] eqn:Ex; [|split; [done|reflexivity]].
  destruct (_ =? _); [|split; [done|reflexivity]]. destruct Hs as [W1 W2 W3 W4 W5 W7 W6]. split.
  - split; cbn; try done.
    + intros k. destruct (decide (k = connectionKey who)) as [->|Hne]; [by rewrite !lookup_delete_eq|].
      rewrite !lookup_delete_ne by done. apply W1.
    + intros k y Hy. apply lookup_delete_Some in Hy as [_ Hy]. by apply W2.
    + intros k k' p Hp Hp'. apply lookup_delete_Some in Hp as [_ Hp]. apply lookup_delete_Some in Hp' as [_ Hp']. by eapply W3.
    + intros k p Hp. apply lookup_delete_Some in Hp as [_ Hp]. by eapply W4.
    + rewrite map_size_delete_Some by done. assert (base.size (connections_ s) <> 0%nat) as Hz.
      { intros Hz. apply map_size_empty_iff in Hz. rewrite Hz in Ex. by rewrite lookup_empty in Ex. }
      lia.
  - split; cbn; try done.
    + intros k Hk. rewrite lookup_delete_ne; [done|]. by intros <-.
    + intros k Hk. rewrite lookup_delete_ne; [done|]. by intros <-.
    + exists []. by rewrite app_nil_r.
Qed.
#[local] Hint Resolve iso_erase : isolated.

Lemma iso_peer_closed ps who : K (connectionKey who) -> isolated K ps (handlePeerClosed who).
Proof. intros HK. unfold handlePeerClosed. iso. Qed.
#[local] Hint Resolve iso_peer_closed : isolated.

Lemma iso_close_now ps who : K (connectionKey who) -> isolated K ps (close_peer_now who).
Proof.
  intros HK. unfold close_peer_now. eapply iso_bind_raknet; [by apply transport_close|]. intros [x|] Hx; iso.
Qed.
#[local] Hint Resolve iso_close_now : isolated.

Lemma iso_closePeer ps who : K (connectionKey who) -> isolated K ps (closePeer who).
Proof. intros HK. unfold closePeer. iso. Qed.
#[local] Hint Resolve iso_closePeer : isolated.

Lemma iso_closePlayer ps x : mine x -> isolated K ps (closePlayer x).
Proof. intros HK. unfold closePlayer. iso. Qed.
#[local] Hint Resolve iso_closePlayer : isolated.

Lemma iso_schedule ps x delay : isolated K ps (schedulePlayerClose x delay).
Proof.
  unfold schedulePlayerClose. iso. apply iso_raknet, transport_quiet; intros r; unfold closePeerAfter, bind, get_st; by destruct (negb _).
Qed.
Lemma iso_closeConnection ps x : mine x -> isolated K ps (closeConnection x).
Proof. intros HK. unfold closeConnection. iso. Qed.
#[local] Hint Resolve iso_schedule iso_closeConnection : isolated.

(** ** Sending *)

Lemma iso_send_payload ps x mcpe : mine x -> isolated K ps (send_payload x mcpe).
Proof. intros HK. unfold send_payload. iso. by apply iso_raknet, transport_send. Qed.
#[local] Hint Resolve iso_send_payload : isolated.
Lemma iso_outbound ps p packet : p ∈ ps -> isolated K ps (processOutboundPacket p packet).
Proof. intros Hp. unfold processOutboundPacket. iso. Qed.
Lemma iso_encode ps p name v : p ∈ ps -> isolated K ps (encodePlayerPacket p name v).
Proof. intros Hp. unfold encodePlayerPacket. iso. Qed.
#[local] Hint Extern 1 (isolated _ _ (processOutboundPacket _ _)) => (apply iso_outbound; set_solver) : isolated.
#[local] Hint Extern 1 (isolated _ _ (encodePlayerPacket _ _ _)) => (apply iso_encode; set_solver) : isolated.

Lemma iso_internal ps x packets k b : mine x -> isolated K ps (sendPacketsInternal x packets k b).
Proof. intros HK. unfold sendPacketsInternal. iso. Qed.
#[local] Hint Resolve iso_internal : isolated.
Lemma iso_send ps x name v k : mine x -> isolated K ps (send x name v k).
Proof. intros HK. unfold send, sendPacket, sendPackets. iso. Qed.
#[local] Hint Resolve iso_send : isolated.
Lemma iso_queuePackets ps x packets k : mine x -> isolated K ps (queuePackets x packets k).
Proof. intros HK. unfold queuePackets. iso. Qed.
#[local] Hint Resolve iso_queuePackets : isolated.
Lemma iso_queue ps x name v k : mine x -> isolated K ps (queue x name v k).
Proof. intros HK. unfold queue, queuePacket. iso. Qed.
Lemma iso_sendBuffer ps x buffer b k : mine x -> isolated K ps (sendBuffer x buffer b k).
Proof. intros HK. unfold sendBuffer, sendPacket, sendPackets, queuePacket. iso. Qed.
Lemma iso_sendQueued ps x : mine x -> isolated K ps (sendQueued x).
Proof. intros HK. unfold sendQueued. iso. Qed.
#[local] Hint Resolve iso_queue iso_sendBuffer iso_sendQueued : isolated.

Lemma iso_unreachable ps x name : mine x -> isolated K ps (unreachable x name).
Proof. intros HK. unfold unreachable. iso. Qed.
#[local] Hint Resolve iso_unreachable : isolated.
Lemma iso_disconnect ps x reason : mine x -> isolated K ps (disconnect x reason).
Proof. intros HK. unfold disconnect. iso. Qed.
Lemma iso_status_disconnect ps x reason : mine x -> isolated K ps (sendDisconnectStatus x reason).
Proof. intros HK. unfold sendDisconnectStatus. iso. Qed.
#[local] Hint Resolve iso_disconnect iso_status_disconnect : isolated.
Lemma iso_version ps x n : mine x -> isolated K ps (handleClientProtocolVersion x n).
Proof. intros HK. unfold handleClientProtocolVersion. iso. Qed.
#[local] Hint Resolve iso_version : isolated.

(** ** Receiving *)

Lemma iso_decompress ps x packet : mine x -> isolated K ps (decodeEncryptedFramedBatch x packet).
Proof. intros HK. unfold decodeEncryptedFramedBatch. cbn zeta. iso. Qed.
Lemma iso_validate ps x packet : mine x -> isolated K ps (validatePlayerPacket x packet).
Proof. intros HK. unfold validatePlayerPacket. cbn zeta. iso. Qed.
#[local] Hint Resolve iso_decompress iso_validate : isolated.
Lemma iso_framed ps x framed rounds : mine x -> forall offset packets, isolated K ps (framed_loop rounds x framed offset packets).
Proof.
  intros HK. induction rounds as [|rounds IH]; intros offset packets; cbn [framed_loop]; iso.
Qed.
#[local] Hint Resolve iso_framed : isolated.
Lemma iso_receive ps x p payload : mine x -> p ∈ ps -> isolated K ps (receive_packets x p payload).
Proof.
  intros HK Hp. unfold receive_packets, decodeEncryptedPlayerPackets, decodePlayerFramedBatch. cbn zeta. iso.
Qed.
#[local] Hint Extern 1 (isolated _ _ (receive_packets _ _ _)) => (apply iso_receive; [done|set_solver]) : isolated.

(** ** The built-in answers *)

Lemma iso_precompression ps x name v : mine x -> isolated K ps (sendPreCompression x name v).
Proof. intros HK. unfold sendPreCompression. iso. Qed.
#[local] Hint Resolve iso_precompression : isolated.
Lemma iso_settings ps x b : mine x -> isolated K ps (sendNetworkSettings x b).
Proof. intros HK. unfold sendNetworkSettings. cbn zeta. iso. Qed.
#[local] Hint Resolve iso_settings : isolated.
Lemma iso_encryption ps p v : p ∈ ps -> isolated K ps (start_encryption p v).
Proof. intros Hp. unfold start_encryption. cbn zeta. iso. Qed.
#[local] Hint Extern 1 (isolated _ _ (start_encryption _ _)) => (apply iso_encryption; set_solver) : isolated.
Lemma iso_finish ps x p packet v : mine x -> p ∈ ps -> isolated K ps (finish_login x p packet v).
Proof. intros HK Hp. unfold finish_login. iso. Qed.
#[local] Hint Extern 1 (isolated _ _ (finish_login _ _ _ _)) => (apply iso_finish; [done|set_solver]) : isolated.
Lemma iso_login ps x packet : mine x -> isolated K ps (handleLogin x packet).
Proof. intros HK. unfold handleLogin. iso. Qed.
Lemma iso_packs_info ps x : mine x -> isolated K ps (sendEmptyResourcePacksInfo x).
Proof. intros HK. unfold sendEmptyResourcePacksInfo. iso. Qed.
Lemma iso_pack_stack ps x : mine x -> isolated K ps (sendEmptyResourcePackStack x).
Proof. intros HK. unfold sendEmptyResourcePackStack. iso. Qed.
#[local] Hint Resolve iso_login iso_packs_info iso_pack_stack : isolated.
Lemma iso_pack_response ps x packet : mine x -> isolated K ps (handleResourcePackClientResponse x packet).
Proof. intros HK. unfold handleResourcePackClientResponse. cbn zeta. iso. Qed.
#[local] Hint Resolve iso_pack_response : isolated.
Lemma iso_builtin ps x packet : mine x -> isolated K ps (handleBuiltInPacket x packet).
Proof. intros HK. unfold handleBuiltInPacket. cbn zeta. iso. Qed.
#[local] Hint Resolve iso_builtin : isolated.
Lemma iso_deliver ps x packet : mine x -> isolated K ps (deliver x packet).
Proof. intros HK. unfold deliver. iso. Qed.
#[local] Hint Resolve iso_deliver : isolated.
Lemma iso_deliver_all ps x packets : mine x -> isolated K ps (deliver_all x packets).
Proof. intros HK. induction packets as [|packet packets IH]; cbn [deliver_all]; iso. Qed.
#[local] Hint Resolve iso_deliver_all : isolated.

Lemma iso_encapsulated ps who payload : K (connectionKey who) -> isolated K ps (handleEncapsulated who payload).
Proof.
  intros HK. unfold handleEncapsulated. iso.
Qed.

(** ** The transport's messages *)

Lemma iso_register {A} ps who (f : BedrockServerConnection -> M St A) : K (connectionKey who) ->
  (forall x, mine x -> isolated K ps (f x)) -> isolated K ps (let* x := register_player who in f x).
Proof.
  intros HK Hf s Hs Ho. unfold register_player. rewrite bind_assoc.
  set (x := mkConnection who (next_ s)). set (p := Pos.succ (next_ s)).
  set (s' := set_tables (<[connectionKey who := x]> (connections_ s)) (<[connectionKey who := p]> (sessions_ s)) (clientCount_ s + 1)
    (set_heap (<[p := fresh_session (compressionLevel (compressor_ s))]> (heap_ s))
      (set_lifecycle (closedPlayers_ s ∖ {[playerKey x]}) (delete (playerKey x) (detachedPlayerStatuses_ s)) (scheduledPlayerCloses_ s)
        (set_next (Pos.succ p) s)))).
  change (wf (snd (f x s')) /\ frame K s (snd (f x s'))).
  destruct Hs as [W1 W2 W3 W4 W5 W7 W6].
  assert (heap_ s !! p = None) as Hp.
  { destruct (heap_ s !! p) eqn:Ep; [|done]. exfalso. assert (p < next_ s)%positive by (apply W5; by eexists). unfold p in *. lia. }
  assert (forall k, sessions_ s !! k <> Some p) as Hnew.
  { intros k Hk. destruct (W4 _ _ Hk) as [y Hy]. congruence. }
  assert (wf s') as Hw.
  { split; cbn.
    - intros k. destruct (decide (k = connectionKey who)) as [->|Hne].
      + rewrite !lookup_insert_eq. split; by eexists.
      + rewrite !lookup_insert_ne by done. apply W1.
    - intros k y Hy. apply lookup_insert_Some in Hy as [[<- <-]|[_ Hy]]; [done|by apply W2].
    - intros k k' q Hq Hq'. apply lookup_insert_Some in Hq as [[<- <-]|[_ Hq]]; apply lookup_insert_Some in Hq' as [[<- H]|[_ Hq']];
        [done|by destruct (Hnew k')|subst; by destruct (Hnew k)|by eapply W3].
    - intros k q Hq. apply lookup_insert_Some in Hq as [[<- <-]|[_ Hq]]; [rewrite lookup_insert_eq; by eexists|].
      rewrite lookup_insert_ne; [by eapply W4|]. intros <-. by destruct (Hnew k).
    - intros q Hq. destruct (decide (q = p)) as [->|Hne]; [lia|]. rewrite lookup_insert_ne in Hq by done.
      apply W5 in Hq. unfold p. lia.
    - exact W7.
    - destruct (connections_ s !! connectionKey who) eqn:El; [rewrite map_size_insert_Some by (by eexists)|rewrite map_size_insert_None by done]; lia. }
  assert (frame K s s') as Hfr.
  { split; cbn.
    - intros k Hk. apply lookup_insert_ne. by intros <-.
    - intros k Hk. apply lookup_insert_ne. by intros <-.
    - intros k q _ Hq. apply lookup_insert_ne. intros <-. by destruct (Hnew k).
    - exists []. by rewrite app_nil_r. }
  destruct (Hf x ltac:(done) s' Hw (own_frame _ _ _ _ Ho Hfr)). split; [done|]. by etrans.
Qed.

Lemma iso_open ps who : K (connectionKey who) -> isolated K ps (openConnection who).
Proof.
  intros HK. unfold openConnection. apply iso_get. intros s. apply iso_if; [iso|]. apply iso_register; [done|]. intros x Hx. iso.
Qed.

Lemma iso_native ps who packet : K (connectionKey who) -> isolated K ps (handleNativePacket who packet).
Proof.
  intros HK. unfold handleNativePacket. destruct packet as [|id packet]; [iso|]. apply iso_if; [|apply iso_if].
  - eapply iso_bind_raknet; [by apply transport_insert|]. intros [] _; [by apply iso_open|iso].
  - eapply iso_bind_raknet; [by apply transport_erase|]. intros [x|] Hx; iso.
  - apply iso_get. intros s. iso. by apply iso_encapsulated.
Qed.

(** ** Everything that happens to a server *)

Lemma iso_peer_closes ps due left_ : (forall who, who ∈ due -> K (connectionKey who)) -> isolated K ps (processPeerCloses due left_).
Proof.
  intros HK. unfold processPeerCloses. apply iso_bind; [by apply iso_raknet, transport_quiet|]. intros _.
  induction due as [|who due IH]; [iso|]. cbn [for_each]. apply iso_bind; [apply iso_close_now, HK; by left|]. intros _. apply IH.
  intros x Hx. apply HK. by right.
Qed.

Lemma iso_player_close ps x left_ : mine x -> isolated K ps (processPlayerClose x left_).
Proof. intros HK. unfold processPlayerClose. iso. Qed.

Lemma iso_palette ps x palette : mine x -> isolated K ps (updateItemPalette x palette).
Proof. intros HK. unfold updateItemPalette. iso. Qed.

Lemma iso_compressor ps a l t : isolated K ps (setCompressor a l t).
Proof. unfold setCompressor. iso. Qed.

Lemma iso_quiet_raknet ps : isolated K ps shutdown /\ isolated K ps listen.
Proof.
  split; unfold shutdown, listen; iso; apply iso_raknet, transport_quiet; intros r; unfold finishShutdown, RakNetServer.listen, bind, get_st;
    try destruct (running_ r); done.
Qed.
End Operations.

Inductive op :=
| NativePacket (who : RakNetServerPeer) (packet : bytes)
| PeerCloses (due : list RakNetServerPeer) (left_ : list (RakNetServerPeer * Z))
| PlayerClose (connection : BedrockServerConnection) (left_ : list (BedrockServerConnection * Z))
| Shutdown
| Flush
| Listen
| Close (reason : string)
| Write (connection : BedrockServerConnection) (name : string) (value : ProtoDefValue) (k : VersionedMcpeCompression)
| Queue (connection : BedrockServerConnection) (name : string) (value : ProtoDefValue) (k : VersionedMcpeCompression)
| Buffer (connection : BedrockServerConnection) (buffer : bytes) (immediate : bool) (k : VersionedMcpeCompression)
| Disconnect (connection : BedrockServerConnection) (reason : string)
| CloseConnection (connection : BedrockServerConnection)
| SetStatus (connection : BedrockServerConnection) (st : BedrockServerClientStatus)
| SetCompressor (algorithm : string) (level threshold : Z)
| UpdatePalette (connection : BedrockServerConnection) (palette : ProtoDefValue).

Definition run_op (o : op) : M St unit :=
  match o with
  | NativePacket who packet => handleNativePacket who packet
  | PeerCloses due left_ => processPeerCloses due left_
  | PlayerClose connection left_ => processPlayerClose connection left_
  | Shutdown => shutdown
  | Flush => flushOutboundQueues
  | Listen => listen
  | Close reason => close reason
  | Write connection name v k => write connection name v k
  | Queue connection name v k => queue connection name v k
  | Buffer connection buffer immediate k => sendBuffer connection buffer immediate k
  | Disconnect connection reason => disconnect connection reason
  | CloseConnection connection => closeConnection connection
  | SetStatus connection st => setStatus connection st
  | SetCompressor a l t => setCompressor a l t
  | UpdatePalette connection palette => updateItemPalette connection palette
  end.

Section Reachable.
Context (player_ok : forall x ev ps, isolated (fun _ => True) ps (player_listen x ev)).
Context (server_ok : forall ev ps, isolated (fun _ => True) ps (server_listen ev)).

Lemma iso_clear_tables ps clients : isolated (fun _ => True) ps
  (modify (fun s : St => set_lifecycle (closedPlayers_ s) (detach clients s) (scheduledPlayerCloses_ s) (set_tables ∅ ∅ 0 s))).
Proof.
  intros s [W1 W2 W3 W4 W5 W7 W6] _. split; [split; cbn; try done|split; cbn; try done].
  - intros k. by rewrite !lookup_empty.
  - exists []. by rewrite app_nil_r.
Qed.

Lemma iso_op o : isolated (fun _ => True) [] (run_op o).
Proof.
  assert (forall x ev ps, True -> isolated (fun _ => True) ps (player_listen x ev)) as Hp by (intros; apply player_ok).
  destruct o; cbn [run_op]; unfold write, setStatus.
  - by apply iso_native.
  - by apply iso_peer_closes.
  - by apply iso_player_close.
  - by apply iso_quiet_raknet.
  - unfold flushOutboundQueues. iso. by apply iso_sendQueued.
  - by apply iso_quiet_raknet.
  - unfold close. iso; [by apply iso_disconnect|by apply iso_clear_tables|].
    apply iso_raknet, transport_quiet; intros r; unfold closeAfter, bind, get_st; by destruct (running_ r).
  - by apply iso_send.
  - by apply iso_queue.
  - by apply iso_sendBuffer.
  - by apply iso_disconnect.
  - by apply iso_closeConnection.
  - by apply iso_transition.
  - apply iso_compressor.
  - by apply iso_palette.
Qed.

(** The states of a server that was made, whatever happens to it and whatever
    throws on the way. *)
Inductive reachable : St -> Prop :=
| reach_make k env s : make k env = Ok s -> reachable s
| reach_op o s : reachable s -> reachable (snd (run_op o s)).

(** C4: in every state of the server, the endpoints with a connection are the
    endpoints with a session, no two of them share a session, every connection
    is filed under its own endpoint, and there are at most [clientCount]
    connections. *)
Theorem server_tables s : reachable s ->
  (forall k, is_Some (connections_ s !! k) <-> is_Some (sessions_ s !! k)) /\
  (forall k x, connections_ s !! k = Some x -> connectionKey (peer x) = k) /\
  (forall k k' p, sessions_ s !! k = Some p -> sessions_ s !! k' = Some p -> k = k' /\ is_Some (heap_ s !! p)) /\
  Z.of_nat (base.size (connections_ s)) <= clientCount_ s.
Proof.
  intros Hr. assert (wf s) as [W1 W2 W3 W4 W5 W7 W6].
  { induction Hr as [k env s Hmake|o s _ IH].
    - unfold make in Hmake. destruct (normalizeOptions k) as [k'|]; [|done]. cbn in Hmake. injection Hmake as <-.
      split; cbn; try done; intros *; rewrite ?lookup_empty; try done.
    - destruct (iso_op o s IH) as [H _]; [apply own_nil|done]. }
  split_and!; [done..| |done]. intros k k' p Hp Hp'. split; [by eapply W3|by eapply W4].
Qed.
End Reachable.

(** C3: what the transport delivers from one endpoint, a new connection, a
    disconnection or any payload, touches no other player: the connections and
    sessions of the other endpoints are as before, and every payload that goes
    out goes to that endpoint; this holds even when an exception leaves, as long
    as the listeners of the endpoint leave the other players alone. *)
Theorem server_isolation who packet s : wf s ->
  (forall x ev ps, connectionKey (peer x) = connectionKey who -> isolated (fun k => k = connectionKey who) ps (player_listen x ev)) ->
  (forall ev ps, isolated (fun k => k = connectionKey who) ps (server_listen ev)) ->
  let s' := snd (handleNativePacket who packet s) in
  (forall k, k <> connectionKey who -> connections_ s' !! k = connections_ s !! k /\ sessions_ s' !! k = sessions_ s !! k /\
     forall p, sessions_ s !! k = Some p -> heap_ s' !! p = heap_ s !! p) /\
  (exists l, wire_ (raknet_ s') = wire_ (raknet_ s) ++ l /\ Forall (fun w => peerKey w.1 = connectionKey who) l) /\ wf s'.
Proof.
  intros Hs Hp Hl s'. destruct (iso_native (fun k => k = connectionKey who) Hp Hl [] who packet eq_refl s Hs (own_nil _ s))
    as [Hw [F1 F2 F3 F4]]. split_and!; [|done|done]. intros k Hk. split_and!; [by apply F1|by apply F2|]. intros p Hpk. by eapply F3.
Qed.
End Isolation.

(** ** The sample server *)

Lemma sample_player_ok K x ev ps : isolated K ps (player_listen (ServerSurroundings := sample_server_surroundings) x ev).
Proof. apply iso_ret. Qed.
Lemma sample_server_ok K ev ps : isolated K ps (server_listen (ServerSurroundings := sample_server_surroundings) ev).
Proof. apply iso_ret. Qed.

(** Alice connects and asks for the settings; then the server is closed. *)
Definition sample_history : sample_server :=
  snd (run_op (Close "bye") (snd (run_op (NativePacket alice [254; 6; 193; 1; 0; 0; 2; 173])
    (snd (run_op (NativePacket alice [19]) (snd (run_op Listen
      (mkServer toy_crypto unit server_compressor ∅ ∅ ∅ 0 false ∅ ∅ [] (mkRaknet false ∅ [] false [] []) 1 [] tt)))))))).

Lemma sample_history_reachable : reachable sample_history.
Proof. repeat apply reach_op. by apply (reach_make server_compressor tt). Qed.

Lemma server_tables_witness : Z.of_nat (base.size (connections_ sample_history)) <= clientCount_ sample_history.
Proof.
  apply (server_tables (ServerSurroundings0 := sample_server_surroundings)
    (sample_player_ok _) (sample_server_ok _) _ sample_history_reachable).
Defined.

(** Alice and Bob are connected. *)
Definition sample_two : sample_server := snd (run_op (NativePacket bob [19]) (snd (run_op (NativePacket alice [19]) server_start))).

Lemma sample_two_wf : wf sample_two.
Proof.
  apply iso_op; [apply sample_player_ok|apply sample_server_ok| |apply own_nil].
  apply iso_op; [apply sample_player_ok|apply sample_server_ok| |apply own_nil].
  split; cbn; try done; intros *; rewrite ?lookup_empty; try done.
Qed.

(** Alice sends client_to_server_handshake; Bob's session is as it was. *)
Lemma server_isolation_witness :
  let s' := snd (handleNativePacket alice [254; 1; 4] sample_two) in
  sessions_ s' !! "10.0.0.2:4000" = sessions_ sample_two !! "10.0.0.2:4000" /\ s' <> sample_two.
Proof.
  split.
  - apply (server_isolation (ServerSurroundings0 := sample_server_surroundings) alice [254; 1; 4] sample_two sample_two_wf
      (fun x ev ps _ => sample_player_ok _ x ev ps) (sample_server_ok _)).
    by apply (bool_decide_unpack _).
  - intros H. apply (f_equal (fun s => length (events_ s))) in H. by vm_compute in H.
Defined.

(** ** Scenarios *)

(** A single game payload that is no batch throws, and nothing above
    [handleNativePacket] on the transport's thread catches it. *)
Example foreign_payload_throws :
  fst (handleNativePacket alice [200; 1; 4] sample_two) = Throw (RuntimeError "Bad packet header 200").
Proof. by vm_compute. Qed.

(** A player that never sent a login joins by claiming the handshake. *)
Example join_without_login :
  let s' := snd (handleNativePacket alice [254; 1; 4] sample_two) in
  existsb (fun ev => match ev with EvJoin x => clientGuid (peer x) =? 7 | _ => false end) (events_ s') = true /\
  existsb (fun ev => match ev with EvLogin _ _ | EvLoggingIn _ _ _ => true | _ => false end) (events_ s') = false /\
  fst (loginVerificationOf (mkConnection alice 1) s') = Ok None /\ offline options_ = false.
Proof. by vm_compute. Qed.

(** An endpoint that reconnects with another guid is counted twice and given
    back once. *)
Example reconnection_leaks_count :
  let again := mkPeer "10.0.0.1" 4000 9 in
  let s' := snd (close_peer_now again (snd (handleNativePacket again [19] (snd (handleNativePacket alice [19] server_start))))) in
  clientCount_ s' = 1 /\ base.size (connections_ s') = 0%nat.
Proof. by vm_compute. Qed.

(** Before the negotiation a batch above the threshold is compressed without
    the byte that says so, and the client takes it for packets. *)
Example unnegotiated_batch_unreadable :
  let batch := 2 :: List.repeat 0 600 in
  let s' := snd (sendBuffer (mkConnection alice 1) batch true Automatic (snd (setCompressor "snappy" 7 512 sample_two))) in
  match wire_ (raknet_ s') with
  | [(to_alice, packet)] =>
      match fst (decodeRakNetPayload toy_crypto stored_zlib (mkConfig "1.21.0" 685 7 (mkMcpeCodec server_table true)) packet sample_link) with
      | Throw e => is_stuck e = false
      | Ok _ => False
      end
  | _ => False
  end.
Proof. by vm_compute. Qed.
