(* ===== verification/ServerWire.v ===== *)
(** * A client and its session

    What [BedrockNetworkClient] puts on the wire is what the server takes off
    it, and the other way round, over a whole conversation: before the network
    settings, after them, and encrypted.  For the versions whose batches carry
    the byte of their compressor. *)

From S2P Require Import Prelude MachineInt Leb128 Framing GamePacket Text Snappy Zlib Versioned VersionedCodec Encryption ClientLink LoginPacket ProtoDefData.
From S2P Require Import ProtoDefJson ProtoDefText ProtoDefDecoder ProtoDefPackets BedrockServer ServerSample.

Import VersionedPacketCodec VersionedBatchCodec VersionedMcpeCodec BedrockEncryption BedrockNetworkLink ProtoDefPackets BedrockServer.

Section Wire.
Context {c : crypto} {E : Type} `{!ServerSurroundings c E, !CryptoLaws c, !ZlibLaws zlib_}.
Abbreviation St := (server c E).

(** ** Computations on a session *)

Lemma set_heap_same (s : St) p x : heap_ s !! p = Some x -> set_heap (<[p := x]> (heap_ s)) s = s.
Proof. intros H. destruct s. cbn in *. by rewrite insert_id. Qed.

Lemma on_session_ok {A} p (m : M (SessionState c) A) (s : St) x r x' : heap_ s !! p = Some x -> m x = (r, x') ->
  on_session p m s = (r, set_heap (<[p := x']> (heap_ s)) s).
Proof. intros Hx Hm. unfold on_session. by rewrite Hx, Hm. Qed.

Lemma get_session_ok p (s : St) x : heap_ s !! p = Some x -> get_session p s = (Ok x, s).
Proof. intros Hx. unfold get_session. rewrite (on_session_ok p _ s x (Ok x) x) by done. by rewrite set_heap_same. Qed.

Lemma modify_session_ok p f (s : St) x : heap_ s !! p = Some x -> modify_session p f s = (Ok tt, set_heap (<[p := f x]> (heap_ s)) s).
Proof. intros Hx. unfold modify_session. by rewrite (on_session_ok p _ s x (Ok tt) (f x)). Qed.

(** ** A batch at the server *)

(** The schema of the packet reads its payload. *)
Definition schema_accepts (variables : ProtoDefVariableMap) (p : VersionedGamePacket) : Prop :=
  ProtocolDefinition.hasPacket (packet_id p) packetDefinition = true /\
  exists typeJson d,
    resolvePlayerProtocolType (if bool_decide (params_type p = "") then "packet_" +:+ packet_name p else params_type p) = Some typeJson /\
    ProtoDefDecoder.decode (payload p) resolvePlayerProtocolType generated_default (variables_order variables) flags_order true fuel
      (chars typeJson) "" start_state = (Ok tt, d) /\
    existsb missing (ProtoDefDecoder.out d) = false.

Context (connection : BedrockServerConnection) (session : positive).

Lemma validate_ok p (s : St) x : sessionSnapshot connection s = Some session -> heap_ s !! session = Some x ->
  schema_accepts (protoDefVariables x) p -> validatePlayerPacket connection p s = (Ok tt, s).
Proof.
  intros Hs Hx (Hp & typeJson & d & Hr & Hd & Hm). unfold validatePlayerPacket. rewrite Hp. cbn [negb]. cbv zeta. rewrite Hr, bind_get, Hs.
  rewrite (bind_ok _ _ _ _ _ (get_session_ok _ _ _ Hx)), Hd, bind_lift. by rewrite Hm.
Qed.

Lemma framed_loop_ok ps (s : St) : Forall (fun p => validatePlayerPacket connection p s = (Ok tt, s)) ps ->
  Forall (packet_ok packetDefinition) ps -> forall pre acc rounds data, data = pre ++ framed_of ps -> is_bytes pre ->
  Forall small (fullPacket <$> ps) -> (length ps <= rounds)%nat ->
  framed_loop rounds connection data (size pre) acc s = (Ok (acc ++ ps), s).
Proof.
  intros Hv Hok. induction Hok as [|p ps Hp Hok IH]; intros pre acc rounds data Ed Hb Hs Hf.
  - assert (negb (size pre <? size data) = true) as Hz.
    { rewrite Ed. unfold framed_of, frames. cbn [fmap list_fmap map concat]. by rewrite app_nil_r, Z.ltb_irrefl. }
    destruct rounds; cbn [framed_loop]; rewrite Hz; by rewrite app_nil_r.
  - apply Forall_cons_1 in Hv as [Hvp Hv]. rewrite fmap_cons in Hs. apply Forall_cons_1 in Hs as [Hsp Hs].
    destruct rounds as [|rounds]; [cbn in Hf; lia|]. cbn [framed_loop].
    destruct (packet_ok_full _ p Hp) as (_ & Hfb & _ & Hdec).
    assert (data = pre ++ frame1 (fullPacket p) ++ framed_of ps) as Ed' by (by rewrite Ed).
    assert (is_bytes (frame1 (fullPacket p))) as Hb1.
    { unfold frame1. rewrite is_bytes_app. split; [apply leb_encode_bytes, size_nonneg|done]. }
    assert (is_bytes data) as Hdb by (rewrite Ed', !is_bytes_app; split_and!; [done..|by eapply framed_bytes]).
    destruct (frame_at readVarUInt writeVarUInt (HC := versioned_length_codec) data pre _ _ Ed' Hdb Hsp) as (next & Er & Ev & En & Hlt).
    pose proof (size_nonneg (fullPacket p)). rewrite (proj2 (Z.ltb_lt _ _)) by lia. cbn [negb].
    rewrite Er, bind_lift, Z.gtb_ltb, (proj2 (Z.ltb_ge _ _)), Ev, bind_lift by lia.
    erewrite bind_ok; [|unfold catch; by rewrite Hdec, bind_lift, (bind_ok _ _ _ _ _ Hvp)].
    rewrite En. rewrite (IH Hv (pre ++ frame1 (fullPacket p)) (acc ++ [p]) rounds data).
    + by rewrite <-app_assoc.
    + by rewrite Ed', <-app_assoc.
    + by rewrite is_bytes_app.
    + done.
    + cbn in Hf. lia.
Qed.

Lemma decode_framed ps (s : St) x : sessionSnapshot connection s = Some session -> heap_ s !! session = Some x ->
  Forall (schema_accepts (protoDefVariables x)) ps -> Forall (packet_ok packetDefinition) ps -> size (framed_of ps) < 2 ^ 32 ->
  decodePlayerFramedBatch connection (framed_of ps) s = (Ok ps, s).
Proof.
  intros Hs Hx Hv Hok Hsz. unfold decodePlayerFramedBatch. apply (framed_loop_ok ps s) with (pre := []) (acc := []); try done.
  - eapply Forall_impl; [|exact Hv]. intros p Hp. by eapply validate_ok.
  - by apply frames_small.
  - pose proof (frames_length_bound (fullPacket <$> ps)) as H. by rewrite length_fmap in H.
Qed.

(** ** In step *)

Context (g : config).
(** The client speaks the server's version, with the same codec. *)
Context (same_codec : BedrockNetworkLink.mcpeCodec g = mcpeCodec) (modern : compressorInPacketHeader_ mcpeCodec = true).
Context (good_level : -1 <= BedrockNetworkLink.compressionLevel g <= 9).

Abbreviation enabled x := (encryptionEnabled x && hasEncryptionKeys x).

Definition compressor_good (k : compressor) : Prop :=
  compressionAlgorithm k ∈ ["none"; "deflate"; "snappy"] /\ -1 <= compressionLevel k <= 9.

(** The streams and the counter of one direction. *)
Definition channel (out in_ : option (BedrockCipherStream c)) (sent received : Z) : Prop :=
  is_u 64 sent /\ received = sent /\ exists a e d, out = Some (enc_stream c a e) /\ in_ = Some (dec_stream c a d) /\ paired c e d.

(** The client's link [l] and the session [x] of the server [s], whose
    compressor is [k] and whose player has seen [variables]. *)
Record meets (k : compressor) (variables : ProtoDefVariableMap) (l : link c) (s : St) (x : SessionState c) : Prop := mkMeets {
  mt_session : sessionSnapshot connection s = Some session;
  mt_heap : heap_ s !! session = Some x;
  mt_variables : protoDefVariables x = variables;
  mt_writable : status x <> Disconnected;
  mt_running : running_ (raknet_ s) = true;
  mt_known : known (peer connection) (raknet_ s) = true;
  mt_compressor : compressor_ s = k;
  mt_level : -1 <= session_level x <= 9;
  mt_ready : compressionReady_ c l = compressionReady x;
  mt_snappy : compressionAlgorithm_ c l = "snappy" -> compressionReady_ c l = true;
  mt_enabled : encryptionEnabled_ c l = enabled x;
  mt_keys : enabled x = true -> size (secretKeyBytes (encryptionKeys x)) = 32 /\
    secretKeyBytes (encryptionKeys_ c l) = secretKeyBytes (encryptionKeys x) /\
    channel (encryptStream_ c l) (decryptStream x) (sendCounter_ c l) (receiveCounter x) /\
    channel (encryptStream x) (decryptStream_ c l) (sendCounter x) (receiveCounter_ c l)
}.

(** A batch from the client, before the negotiation when [plain] is set: the
    server tries to inflate it then. *)
Record up_ok (k : compressor) (variables : ProtoDefVariableMap) (plain : bool) (ps : list VersionedGamePacket) : Prop := mkUp {
  up_sendable : sendable mcpeCodec ps;
  up_size : size (framed_of ps) < 2 ^ 29;
  up_accepted : Forall (schema_accepts variables) ps;
  up_plain : plain = true -> compressionAlgorithm k = "deflate" ->
    exists e, undo zlib_ DeflateRaw (framed_of ps) = Throw e /\ is_stuck e = false
}.

(** What a mode makes of a batch, with the byte of the mode. *)
Lemma encode_modern ps m level : sendable mcpeCodec ps -> -1 <= level <= 9 -> m <> Automatic ->
  exists body, encodeCompressionPacket zlib_ mcpeCodec ps m level = Ok (compression_byte m :: body) /\ undo zlib_ m body = Ok (framed_of ps).
Proof.
  intros (Hok & Hs & _) Hl Hm. unfold encodeCompressionPacket. rewrite (encode_batch _ _ Hok) by lia. cbn [rbind].
  destruct (encode_framed_ok zlib_ mcpeCodec (framed_of ps) m level) as (body & Ee & Hu & _); [by eapply framed_bytes|lia|done|done|].
  rewrite modern in Ee. by exists body.
Qed.

Lemma server_inflates k m body framed : m <> Automatic -> undo zlib_ m body = Ok framed ->
  decodeUnencryptedFramedBatch k true (compression_byte m :: body) = Ok framed.
Proof.
  intros Hm Hu. unfold decodeUnencryptedFramedBatch. rewrite modern. cbn [andb]. destruct m; try done; exact Hu.
Qed.

Lemma server_takes_plain k framed : compressor_good k ->
  (compressionAlgorithm k = "deflate" -> exists e, undo zlib_ DeflateRaw framed = Throw e /\ is_stuck e = false) ->
  decodeUnencryptedFramedBatch k false framed = Ok framed.
Proof.
  intros [Hk _] Hp. unfold decodeUnencryptedFramedBatch. rewrite andb_false_r. cbn [negb andb].
  rewrite !elem_of_cons, elem_of_nil in Hk. destruct Hk as [->|[Ha|[->|[]]]]; [done| |done].
  rewrite Ha. repeat first [rewrite bool_decide_false by done | rewrite bool_decide_true by done].
  destruct (Hp Ha) as (e & Eu & He). cbn in Eu. rewrite Eu. unfold rcatch. by rewrite He.
Qed.

(** *** From the client to the server *)

Lemma up_plain_step k variables ps l s x : meets k variables l s x -> compressor_good k -> enabled x = false ->
  up_ok k variables (negb (compressionReady x)) ps ->
  exists payload, sendPacketsLocked c zlib_ g ps l = (Ok payload, l) /\
    receive_packets connection session payload s = (Ok (Some ps), s).
Proof.
  intros [Hs Hx Hv Hst Hrun Hkn Hk Hlv Hr Hsn He _] Hgood Hen [Hsend Hsz Hacc Hp]. pose proof Hsend as (Hok & _ & _).
  assert (exists body, sendPacketsLocked c zlib_ g ps l = (Ok (0xfe :: body), l) /\
    decodeUnencryptedFramedBatch k (compressionReady x) body = Ok (framed_of ps)) as (body & Esend & Edec).
  { unfold sendPacketsLocked. rewrite bind_get, He, Hen, same_codec, modern, Hr. destruct (compressionReady x); cbn [andb negb] in *.
    - assert (sendable (BedrockNetworkLink.mcpeCodec g) ps) as Hsend' by by rewrite same_codec.
      assert (exists m, choosePlainCompression c g ps l = Ok m /\ m <> Automatic) as (m & -> & Hm).
      { unfold choosePlainCompression. case_bool_decide; [by exists Uncompressed|]. rewrite Hr. cbn [negb rbind].
        rewrite (encode_batch _ _ Hok) by lia. cbn [rbind]. eexists. split; [done|]. destruct (_ >? _); [by case_bool_decide|done]. }
      destruct (encode_modern ps m (BedrockNetworkLink.compressionLevel g) Hsend good_level Hm) as (body & Ee & Hu).
      rewrite bind_lift. unfold encodeMcpePayload. rewrite Ee. cbn [rbind]. eexists. split; [done|]. by apply server_inflates.
    - rewrite (encode_batch _ _ Hok) by lia. rewrite bind_lift. eexists. split; [done|].
      apply server_takes_plain; [done|]. by apply Hp. }
  exists (0xfe :: body). split; [done|]. unfold receive_packets. cbv zeta. change (negb (254 =? 254)) with false. cbv iota.
  rewrite (bind_ok _ _ _ _ _ (get_session_ok _ _ _ Hx)).
  erewrite bind_ok; [|apply (on_session_ok session _ s x (Ok None) x Hx); unfold session_decrypt; by rewrite bind_get, Hen].
  rewrite set_heap_same by done. rewrite bind_get, Hk, Edec, bind_lift.
  rewrite (bind_ok _ _ _ _ _ (decode_framed ps s x Hs Hx ltac:(by rewrite Hv) Hok ltac:(lia))). done.
Qed.

Lemma decrypt_received key payload s n p r : payload <> [] ->
  receive_encrypted c key (0xfe :: payload) (s, n) = (Ok (Received p), r) ->
  exists v, decryptAndVerify c payload key (s, n) = (Ok (Some v), r) /\ matches v = true /\ packetPlaintext v = p.
Proof.
  intros Hne. unfold receive_encrypted. rewrite bool_decide_false by done. change (vec_at (254 :: payload) 0) with (Ok 254).
  rewrite bind_lift. change (negb (254 =? 254)) with false. cbv iota. rewrite vec_range_cons, bind_lift. unfold bind.
  destruct (decryptAndVerify c payload key (s, n)) as [[[v|]|e] r']; [|done|done].
  destruct (matches v) eqn:Em; cbn; [|done]. intros [= <- <-]. by exists v.
Qed.

Lemma up_encrypted_step k variables ps l s x : meets k variables l s x -> enabled x = true -> up_ok k variables false ps ->
  exists payload l' s' x', sendPacketsLocked c zlib_ g ps l = (Ok payload, l') /\
    receive_packets connection session payload s = (Ok (Some ps), s') /\ meets k variables l' s' x' /\
    enabled x' = true /\ compressionReady x' = compressionReady x.
Proof.
  intros [Hs Hx Hv Hst Hrun Hkn Hk Hlv Hr Hsn He Hkeys] Hen [Hsend Hsz Hacc _]. pose proof Hsend as (Hok & Hfs & _).
  destruct (Hkeys Hen) as (H32 & Hkey & (Hn & Hnr & a & e & d & Hes & Hds & Hp) & Hdown).
  assert (exists packet body, encodeEncryptedCompressionPacket zlib_ mcpeCodec ps (BedrockNetworkLink.compressionLevel g) = Ok packet /\
    size packet < 2 ^ 31 - 8 /\ packet = 0 :: body /\ inflateRaw zlib_ body = Ok (framed_of ps)) as (packet & body & Ee & Hpsz & -> & Hi).
  { unfold encodeEncryptedCompressionPacket. rewrite (encode_batch _ _ Hok), modern by lia. cbn [rbind negb].
    destruct (versioned_deflate zlib_ (framed_of ps) _ Hfs good_level) as (body & -> & Hbs & Hi & _). cbn [rbind].
    eexists _, body. split; [done|]. split; [rewrite size_cons; lia|done]. }
  destruct (channel_step c (secretKeyBytes (encryptionKeys x)) (0 :: body) a e d (sendCounter_ c l) H32 Hn Hp Hpsz)
    as (y & e' & d' & Esend & Erecv & Hp').
  assert (y <> []) as Hy by (intros ->; discriminate).
  destruct (decrypt_received _ _ _ _ _ _ Hy Erecv) as (v & Ev & Hm & Hpl).
  set (x' := set_streams (encryptStream x) (Some (dec_stream c a d')) (encryptionEnabled x) (sendCounter x) (to_u64 (sendCounter_ c l + 1)) x).
  set (s' := set_heap (<[session := x']> (heap_ s)) s).
  assert (heap_ s' !! session = Some x') as Hx' by (cbn; by rewrite lookup_insert_eq).
  exists (0xfe :: y), (set_send c (enc_stream c a e') (to_u64 (sendCounter_ c l + 1)) l), s', x'. split_and!.
  - unfold sendPacketsLocked. rewrite bind_get, He, Hen, Hes, same_codec, Ee, bind_lift. unfold zoom. by rewrite Hkey, Esend.
  - unfold receive_packets. cbv zeta. change (negb (254 =? 254)) with false. cbv iota.
    rewrite (bind_ok _ _ _ _ _ (get_session_ok _ _ _ Hx)).
    erewrite bind_ok; [|apply (on_session_ok session _ s x (Ok (Some (Some v))) x' Hx); unfold session_decrypt; rewrite bind_get, Hen, Hds;
      erewrite bind_ok; [|unfold zoom; rewrite Hnr; by rewrite Ev]; done].
    cbv beta iota. rewrite Hm. cbn [negb]. unfold decodeEncryptedPlayerPackets, decodeEncryptedFramedBatch. rewrite modern. cbn [negb]. cbv zeta.
    rewrite Hpl. cbn [Z.eqb]. rewrite Hi, bind_assoc, bind_lift. fold s'.
    rewrite (bind_ok _ _ _ _ _ (decode_framed ps s' x' Hs Hx' ltac:(cbn; by rewrite Hv) Hok ltac:(lia))). done.
  - split; try done. intros _. split; [done|]. split; [done|]. split; [|exact Hdown].
    split; [by apply (to_u_range 64)|]. split; [done|]. by exists a, e', d'.
  - exact Hen.
  - done.
Qed.

(** *** From the server to the client *)

(** The variables of the player behind a packet that is sent to it. *)
Definition outbound_packet (variables : ProtoDefVariableMap) (p : VersionedGamePacket) : option ProtoDefVariableMap :=
  if negb (bool_decide (packet_name p = "start_game")) && negb (bool_decide (packet_name p = "item_registry")) then Some variables
  else match decode_packet (BedrockServer.version options_) file generatedProtocolTypeJson generated_default variables_order flags_order fuel
         (packet_name p) (payload p) variables with
       | (Ok _, variables') => Some variables'
       | (Throw _, _) => None
       end.
Fixpoint outbound_variables (variables : ProtoDefVariableMap) (ps : list VersionedGamePacket) : option ProtoDefVariableMap :=
  match ps with
  | [] => Some variables
  | p :: ps' => match outbound_packet variables p with Some variables' => outbound_variables variables' ps' | None => None end
  end.

(** A batch from the server, which leaves the player's variables as
    [variables']; before the negotiation it must not be compressed. *)
Record down_ok (k : compressor) (variables variables' : ProtoDefVariableMap) (plain : bool) (ps : list VersionedGamePacket) : Prop := mkDown {
  down_sendable : sendable mcpeCodec ps;
  down_size : size (framed_of ps) < 2 ^ 29;
  down_variables : outbound_variables variables ps = Some variables';
  down_plain : plain = true -> compressionAlgorithm k = "none" \/ size (framed_of ps) <= compressionThreshold k
}.

(** What of this matters once the packets are processed. *)
Definition batch_down (k : compressor) (plain : bool) (ps : list VersionedGamePacket) : Prop :=
  sendable mcpeCodec ps /\ size (framed_of ps) < 2 ^ 29 /\
  (plain = true -> compressionAlgorithm k = "none" \/ size (framed_of ps) <= compressionThreshold k).

(** The server when a payload has gone out. *)
Definition sent (payload : bytes) (x' : SessionState c) (s : St) : St :=
  let r := raknet_ s in
  set_raknet (mkRaknet true (peers_ r) (scheduledPeerCloses_ r) (shutdownScheduled_ r) (wire_ r ++ [(peer connection, payload)]) (native_closes_ r))
    (set_heap (<[session := x']> (heap_ s)) s).

Definition with_variables (x : SessionState c) (variables : ProtoDefVariableMap) (s : St) : St :=
  set_heap (<[session := set_variables variables x]> (heap_ s)) s.

Lemma outbound_ok ps : forall (s : St) x variables', heap_ s !! session = Some x ->
  outbound_variables (protoDefVariables x) ps = Some variables' ->
  for_each ps (processOutboundPacket session) s = (Ok tt, with_variables x variables' s).
Proof.
  induction ps as [|p ps IH]; intros s x variables' Hx Ho.
  - cbn in Ho. injection Ho as <-. cbn [for_each]. unfold with_variables. rewrite set_heap_same; [done|]. rewrite Hx. by destruct x.
  - cbn [outbound_variables] in Ho. destruct (outbound_packet (protoDefVariables x) p) as [v|] eqn:Ep; [|done].
    assert (processOutboundPacket session p s = (Ok tt, with_variables x v s)) as E1.
    { unfold processOutboundPacket, outbound_packet in *. destruct (_ && _).
      - injection Ep as <-. unfold with_variables. rewrite set_heap_same; [done|]. rewrite Hx. by destruct x.
      - destruct (decode_packet _ _ _ _ _ _ _ _ _ _) as [[fields|e] v'] eqn:Ed; [|done]. injection Ep as <-.
        erewrite bind_ok; [done|]. unfold on_variables. apply (on_session_ok session _ s x (Ok fields) _ Hx). unfold zoom. by rewrite Ed. }
    cbn [for_each]. rewrite (bind_ok _ _ _ _ _ E1). rewrite (IH _ (set_variables v x) variables').
    + unfold with_variables. cbn. by rewrite insert_insert_eq.
    + cbn. by rewrite lookup_insert_eq.
    + done.
Qed.

(** Sending is processing, and then sending what is processed. *)
Lemma send_processed k variables variables' ps l s x : meets k variables l s x -> ps <> [] -> outbound_variables variables ps = Some variables' ->
  sendPackets connection ps Automatic s = sendPacketsInternal connection ps Automatic false (with_variables x variables' s) /\
  meets k variables' l (with_variables x variables' s) (set_variables variables' x).
Proof.
  intros [Hs Hx Hv Hst Hrun Hkn Hk Hlv Hr Hsn He Hkeys] Hne Ho. rewrite <-Hv in Ho. split.
  - unfold sendPackets, sendPacketsInternal. rewrite !bool_decide_false by done. rewrite !bind_get.
    change (sessionSnapshot connection (with_variables x variables' s)) with (sessionSnapshot connection s). rewrite Hs.
    by rewrite (bind_ok _ _ _ _ _ (outbound_ok ps s x variables' Hx Ho)).
  - split; try done. cbn. by rewrite lookup_insert_eq.
Qed.

Lemma send_ok k variables ps l s x payload x' : meets k variables l s x -> ps <> [] ->
  session_payload k ps Automatic x = (Ok (Some payload), x') -> status x' <> Disconnected -> payload <> [] ->
  sendPacketsInternal connection ps Automatic false s = (Ok tt, sent payload x' s).
Proof.
  intros Hmt Hne Hpay Hst' Hpne. pose proof (mt_heap _ _ _ _ _ Hmt) as Hx. pose proof (mt_session _ _ _ _ _ Hmt) as Hs.
  unfold sendPacketsInternal. rewrite bool_decide_false by done. rewrite bind_get, Hs.
  rewrite (bind_ok (ret tt) _ s tt s eq_refl), bind_get, (mt_compressor _ _ _ _ _ Hmt).
  rewrite (bind_ok _ _ _ _ _ (on_session_ok session _ s x _ x' Hx Hpay)). set (s1 := set_heap _ s).
  assert (heap_ s1 !! session = Some x') as Hx' by (cbn; by rewrite lookup_insert_eq).
  assert (sessionSnapshot connection s1 = Some session) as Hs1 by exact Hs.
  assert (hasWritablePlayer connection s1 = (Ok true, s1)) as Hw.
  { unfold hasWritablePlayer. rewrite bind_get, Hs1, (bind_ok _ _ _ _ _ (get_session_ok _ _ _ Hx')). by rewrite bool_decide_false. }
  unfold send_payload. rewrite (bind_ok _ _ _ _ _ Hw). unfold on_raknet, zoom, sendReliable.
  change (raknet_ s1) with (raknet_ s). rewrite bind_get, bool_decide_false by done.
  by rewrite (mt_running _ _ _ _ _ Hmt), (mt_known _ _ _ _ _ Hmt).
Qed.

Lemma meets_sent k variables l l' s x x' payload : meets k variables l s x ->
  compressionReady_ c l' = compressionReady_ c l -> compressionAlgorithm_ c l' = compressionAlgorithm_ c l ->
  encryptionEnabled_ c l' = encryptionEnabled_ c l -> encryptionKeys_ c l' = encryptionKeys_ c l ->
  compressionReady x' = compressionReady x -> enabled x' = enabled x -> encryptionKeys x' = encryptionKeys x ->
  protoDefVariables x' = protoDefVariables x -> status x' = status x -> session_level x' = session_level x ->
  (enabled x = true -> channel (encryptStream_ c l') (decryptStream x') (sendCounter_ c l') (receiveCounter x') /\
     channel (encryptStream x') (decryptStream_ c l') (sendCounter x') (receiveCounter_ c l')) ->
  meets k variables l' (sent payload x' s) x'.
Proof.
  intros [Hs Hx Hv Hst Hrun Hkn Hk Hlv Hr Hsn He Hkeys] R1 R2 R3 R4 R5 R6 R7 R8 R9 R10 Hch.
  split; rewrite ?R1, ?R2, ?R3, ?R4, ?R5, ?R6, ?R7, ?R8, ?R9, ?R10; try done; [cbn; by rewrite lookup_insert_eq|].
  intros Hen. destruct (Hkeys Hen) as (H1 & H2 & _). by destruct (Hch Hen).
Qed.

(** The mode of a batch by the server's threshold. *)
Lemma threshold_mode k ps : compressor_good k -> sendable mcpeCodec ps -> exists m body,
  encodeCompressionPacket_threshold zlib_ mcpeCodec ps (compressionAlgorithm k) (compressionLevel k) (compressionThreshold k) =
    Ok (compression_byte m :: body) /\ m <> Automatic /\ undo zlib_ m body = Ok (framed_of ps) /\
  encodeCompressionPacket zlib_ mcpeCodec ps m (compressionLevel k) = Ok (compression_byte m :: body) /\
  (compressionAlgorithm k = "none" \/ size (framed_of ps) <= compressionThreshold k -> m = Uncompressed).
Proof.
  intros [Ha Hl] Hsend. pose proof Hsend as (Hok & Hs & _). unfold encodeCompressionPacket_threshold.
  rewrite (encode_batch _ _ Hok) by lia. cbn [rbind].
  assert (exists m, chooseCompression (compressionAlgorithm k) (size (framed_of ps) >? compressionThreshold k) = Ok m /\ m <> Automatic /\
    (compressionAlgorithm k = "none" \/ size (framed_of ps) <= compressionThreshold k -> m = Uncompressed)) as (m & -> & Hm & Hmu).
  { rewrite !elem_of_cons, elem_of_nil in Ha. destruct Ha as [->|[->|[->|[]]]]; unfold chooseCompression;
      repeat first [rewrite bool_decide_false by done | rewrite bool_decide_true by done]; [by exists Uncompressed| |];
      destruct (Z.gtb_spec (size (framed_of ps)) (compressionThreshold k)); eexists; (split; [done|]); (split; [done|]); intros [|]; done || lia. }
  cbn [rbind]. destruct (encode_modern ps m (compressionLevel k) Hsend Hl Hm) as (body & Ee & Hu).
  exists m, body. pose proof Ee as Ee'. unfold encodeCompressionPacket in Ee'. rewrite (encode_batch _ _ Hok) in Ee' by lia. cbn [rbind] in Ee'.
  by rewrite Ee'.
Qed.

Lemma down_plain_step k variables ps l s x : meets k variables l s x -> compressor_good k -> enabled x = false ->
  batch_down k (negb (compressionReady x)) ps ->
  exists payload out, sendPacketsInternal connection ps Automatic false s = (Ok tt, sent payload x s) /\
    decodeRakNetPayload c zlib_ g payload l = (Ok (Inbound out), l) /\ batch out = ps /\ meets k variables l (sent payload x s) x.
Proof.
  intros Hmt Hgood Hen (Hsend & Hsz & Hp). pose proof Hsend as (Hok & Hs & Hne). pose proof Hmt as [_ _ _ Hst _ _ _ _ Hr _ He _].
  destruct (threshold_mode k ps Hgood Hsend) as (m & body & Et & Hm & Hu & Ee & Hmu).
  assert (exists payload out, session_payload k ps Automatic x = (Ok (Some (0xfe :: payload)), x) /\
    decodeRakNetPayload c zlib_ g (0xfe :: payload) l = (Ok (Inbound out), l) /\ batch out = ps) as (payload & out & Esend & Erecv & Hout).
  { assert (forall packet, plain_packet k ps Automatic (compressionReady x) = Ok packet ->
      session_payload k ps Automatic x = (Ok (Some (0xfe :: packet)), x)) as Hpay.
    { intros packet Epl. unfold session_payload. rewrite bind_get, bool_decide_false, Hen by done. by rewrite Epl, bind_lift. }
    destruct (compressionReady x) eqn:Ex; cbn [negb] in Hp.
    - exists (compression_byte m :: body). destruct (versioned_compression zlib_ mcpeCodec ps m (compressionLevel k) Hsend (proj2 Hgood) Hm)
        as (packet & Ee' & Hpne & Hd). rewrite Ee in Ee'. injection Ee' as <-. eexists. split; [|split].
      + apply Hpay. unfold plain_packet. rewrite Et. cbn [rbind negb]. by rewrite andb_false_r.
      + unfold decodeRakNetPayload. rewrite bool_decide_false by done. change (vec_at (254 :: ?b) 0) with (Ok 254). rewrite bind_lift.
        change (negb (254 =? 254)) with false. cbv iota. rewrite bind_get, He, Hen, same_codec, modern, Hr. cbn [andb negb].
        unfold decodeMcpePayload. rewrite decode_mcpe, (Hd "deflate") by (done || by left). by rewrite bind_lift.
      + done.
    - rewrite (Hmu (Hp eq_refl)) in *. cbn in Hu. injection Hu as ->. exists (framed_of ps). eexists. split; [|split].
      + apply Hpay. unfold plain_packet. rewrite Et. cbn [rbind negb]. by rewrite bool_decide_true, modern by done.
      + unfold decodeRakNetPayload. rewrite bool_decide_false by done. change (vec_at (254 :: ?b) 0) with (Ok 254). rewrite bind_lift.
        change (negb (254 =? 254)) with false. cbv iota. rewrite bind_get, He, Hen, same_codec, modern, Hr. cbn [andb negb].
        unfold decodeUncompressedMcpePayload. rewrite strip_mcpe. cbn [rbind]. unfold decodeUncompressedCompressionPacket.
        rewrite decode_batch_ok by (done || lia). by rewrite bind_lift.
      + done. }
  exists (0xfe :: payload), out. split; [|split; [done|split; [done|]]].
  - eapply send_ok; [done|done|done|done|done].
  - eapply meets_sent; try done. by rewrite Hen.
Qed.

Lemma down_encrypted_step k variables ps l s x : meets k variables l s x -> enabled x = true -> batch_down k false ps ->
  exists payload out l' x', sendPacketsInternal connection ps Automatic false s = (Ok tt, sent payload x' s) /\
    decodeRakNetPayload c zlib_ g payload l = (Ok (Inbound out), l') /\ batch out = ps /\ meets k variables l' (sent payload x' s) x' /\
    enabled x' = true /\ compressionReady x' = compressionReady x.
Proof.
  intros Hmt Hen (Hsend & Hsz & _). pose proof Hsend as (Hok & Hfs & Hne).
  pose proof Hmt as [_ _ _ Hst _ _ _ Hlv Hr _ He Hkeys].
  destruct (Hkeys Hen) as (H32 & Hkey & Hup & (Hn & Hnr & a & e & d & Hes & Hds & Hpair)).
  destruct (encrypted_packet zlib_ mcpeCodec ps _ Hsend Hlv) as (packet & Ee & Hpsz & Hhead & Ed).
  destruct (channel_step c (secretKeyBytes (encryptionKeys x)) packet a e d (sendCounter x) H32 Hn Hpair ltac:(lia))
    as (y & e' & d' & Esend & Erecv & Hp').
  eexists (0xfe :: y), _, (set_receive c (dec_stream c a d') (to_u64 (sendCounter x + 1)) l),
    (set_streams (Some (enc_stream c a e')) (decryptStream x) (encryptionEnabled x) (to_u64 (sendCounter x + 1)) (receiveCounter x) x).
  split_and!; [| | | |exact Hen|done].
  - eapply send_ok; [done|done| |done|done]. unfold session_payload. rewrite bind_get, bool_decide_false, Hen, Hes by done.
    rewrite Ee, bind_lift. erewrite bind_ok; [done|]. unfold zoom. by rewrite Esend.
  - unfold decodeRakNetPayload. rewrite bool_decide_false by done. change (vec_at (254 :: y) 0) with (Ok 254). rewrite bind_lift.
    change (negb (254 =? 254)) with false. cbv iota. rewrite bind_get, He, Hen, Hds, Hkey.
    erewrite bind_ok; [|unfold zoom; rewrite Hnr; by rewrite Erecv]. cbv iota. rewrite same_codec, modern.
    destruct (Hhead modern) as [b ->]. cbn [supported_compressor negb andb orb Z.eqb]. rewrite Ed, bind_lift. done.
  - done.
  - eapply meets_sent; try done. intros _. split; [exact Hup|]. split; [by apply (to_u_range 64)|]. split; [done|]. by exists a, e', d'.
Qed.

(** *** The two changes of a session *)

Lemma negotiated_step k variables l s x : meets k variables l s x -> compressor_good k ->
  let x' := set_settings true true (compressionLevel k) x in
  let s' := set_heap (<[session := x']> (heap_ s)) s in
  modify_session session (set_settings true true (compressionLevel k)) s = (Ok tt, s') /\
  meets k variables (apply_settings c (compressionAlgorithm k) (compressionThreshold k) l) s' x'.
Proof.
  intros [Hs Hx Hv Hst Hrun Hkn Hk Hlv Hr Hsn He Hkeys] [_ Hlevel] x' s'. split.
  - by apply modify_session_ok.
  - split; try done. cbn. by rewrite lookup_insert_eq.
Qed.

(** [s] is [s0] but for the session, which is [x], and the world of the keys. *)
Record at_ (s0 : St) (x : SessionState c) (s : St) : Prop := mkAt {
  at_heap : heap_ s !! session = Some x;
  at_snapshot : sessionSnapshot connection s = sessionSnapshot connection s0;
  at_raknet : raknet_ s = raknet_ s0;
  at_compressor : compressor_ s = compressor_ s0
}.

Definition leads {A} (s0 : St) (x : SessionState c) (m : M St A) (Q : A -> SessionState c -> Prop) : Prop :=
  forall s, at_ s0 x s -> exists a x' s', m s = (Ok a, s') /\ at_ s0 x' s' /\ Q a x'.

Lemma leads_bind {A B} s0 x (m : M St A) (f : A -> M St B) Q : leads s0 x m (fun a x1 => leads s0 x1 (f a) Q) -> leads s0 x (bind m f) Q.
Proof.
  intros Hm s Hs. destruct (Hm s Hs) as (a & x1 & s1 & E1 & H1 & Hf). destruct (Hf s1 H1) as (b & x2 & s2 & E2 & H2). exists b, x2, s2.
  by rewrite (bind_ok _ _ _ _ _ E1).
Qed.
Lemma leads_ret {A} s0 x (a : A) (Q : A -> SessionState c -> Prop) : Q a x -> leads s0 x (ret a) Q.
Proof. intros HQ s Hs. by exists a, x, s. Qed.
Lemma leads_lift {A} s0 x (r : result A) a (Q : A -> SessionState c -> Prop) : r = Ok a -> Q a x -> leads s0 x (lift r) Q.
Proof. intros -> HQ s Hs. by exists a, x, s. Qed.
Lemma leads_get s0 x (Q : SessionState c -> SessionState c -> Prop) : Q x x -> leads s0 x (get_session session) Q.
Proof. intros HQ s Hs. exists x, x, s. by rewrite (get_session_ok _ _ _ (at_heap _ _ _ Hs)). Qed.
Lemma leads_modify s0 x f (Q : unit -> SessionState c -> Prop) : Q tt (f x) -> leads s0 x (modify_session session f) Q.
Proof.
  intros HQ s [H1 H2 H3 H4]. do 3 eexists. rewrite (modify_session_ok session f s x H1).
  split; [done|]. split; [|exact HQ]. split; try done. cbn. by rewrite lookup_insert_eq.
Qed.
Lemma leads_env {A} s0 x (m : M E A) (Q : A -> SessionState c -> Prop) : (forall e, exists a e', m e = (Ok a, e') /\ Q a x) ->
  leads s0 x (on_env m) Q.
Proof.
  intros Hm s [H1 H2 H3 H4]. destruct (Hm (env_ s)) as (a & e' & Ea & Ha). do 3 eexists. unfold on_env, zoom. rewrite Ea.
  split; [done|]. split; [|exact Ha]. by split.
Qed.

(** The key pairs and the signatures can be made. *)
Context (generate_ok : forall e, exists keys e', generateP384KeyPair e = (Ok keys, e')).
Context (sign_ok : forall key public body e, exists token e', signEs384Jwt key public body e = (Ok token, e')).
Context (same_version : configuredServerProtocolVersion = Ok (optionsProtocolVersion g)).

(** The key of a verified login agrees on a secret with any private key. *)
Definition agrees (v : BedrockLoginVerificationResult) : Prop := forall private salt, exists keys,
  deriveKeys (key v) private salt = Ok keys /\ size (secretKeyBytes keys) = 32 /\ size (iv16 keys) = 16.

(** What the session knows after [start_encryption]. *)
Record keyed (v : BedrockLoginVerificationResult) (x x' : SessionState c) : Prop := mkKeyed {
  ky_key : size (secretKeyBytes (encryptionKeys x')) = 32;
  ky_iv : size (iv16 (encryptionKeys x')) = 16;
  ky_session : exists keys salt encrypt decrypt,
    createCipherStream c (optionsProtocolVersion g) (secretKeyBytes (encryptionKeys x')) (iv16 (encryptionKeys x')) Encrypt = Ok encrypt /\
    createCipherStream c (optionsProtocolVersion g) (secretKeyBytes (encryptionKeys x')) (iv16 (encryptionKeys x')) Decrypt = Ok decrypt /\
    x' = set_keys keys salt (key v) (encryptionKeys x') (Some encrypt) (Some decrypt) true x
}.

Lemma start_encryption_ok s0 x v : agrees v -> leads s0 x (start_encryption session v) (fun _ x' => keyed v x x').
Proof.
  intros Hv. unfold start_encryption. apply leads_bind, leads_get, leads_bind.
  assert (forall (Q : unit -> SessionState c -> Prop), (forall keys, Q tt (set_keys keys (salt x) (clientPublicKeyDerBase64 x) (encryptionKeys x)
      (encryptStream x) (decryptStream x) (hasEncryptionKeys x) x)) ->
    leads s0 x (if bool_decide (privateKeyPem (serverKeys x) = "") then
     let* keys := on_env generateP384KeyPair in
     modify_session session (fun x => set_keys keys (salt x) (clientPublicKeyDerBase64 x) (encryptionKeys x) (encryptStream x) (decryptStream x) (hasEncryptionKeys x) x)
     else ret tt) Q) as Hgen.
  { intros Q HQ. case_bool_decide.
    - apply leads_bind, leads_env. intros e. destruct (generate_ok e) as (keys & e' & Ek). exists keys, e'. split; [done|]. apply leads_modify, HQ.
    - apply leads_ret. specialize (HQ (serverKeys x)). by destruct x. }
  apply Hgen. intros keys. apply leads_bind, leads_modify, leads_bind, leads_get, leads_bind.
  match goal with |- context [deriveKeys _ (privateKeyPem ?p) ?t] => destruct (Hv (privateKeyPem p) t) as (derived & Ed & Hk & Hi) end.
  destruct (create_pair c (optionsProtocolVersion g) _ _ Hk Hi) as (a & e & d & Ee & Edec & Hp).
  eapply leads_lift; [exact Ed|]. apply leads_bind, leads_modify, leads_bind. eapply leads_lift; [exact same_version|].
  apply leads_bind. eapply leads_lift; [exact Ee|]. apply leads_bind, leads_modify, leads_bind. eapply leads_lift; [exact Edec|].
  apply leads_bind, leads_modify. cbv zeta. apply leads_env. intros e'.
  match goal with |- context [signEs384Jwt ?p ?q ?b] => destruct (sign_ok p q b e') as (token & e'' & Et) end.
  exists token, e''. split; [exact Et|]. split; [done|done|]. eexists keys, _, _, _. split; [exact Ee|]. split; [exact Edec|reflexivity].
Qed.

(** ** A conversation *)

(** In step, before or after the negotiation and the handshake. *)
Definition in_step (k : compressor) (variables : ProtoDefVariableMap) (ready enc : bool) (l : link c) (s : St) : Prop := exists x,
  meets k variables l s x /\ compressionReady x = ready /\ enabled x = enc /\ (encryptionEnabled x = true -> hasEncryptionKeys x = true).

(** What client and server do in turn.  The handshake is a login: the keys, the
    packet with the token, which is still plain, and the encryption of both. *)
Inductive exchange :=
| Up (packets : list VersionedGamePacket)
| Down (packets : list VersionedGamePacket)
| Negotiated
| Encrypted (verified : BedrockLoginVerificationResult) (handshake : list VersionedGamePacket).

Abbreviation World := (link c * St)%type.
Definition on_client {A} (m : M (link c) A) : M World A := zoom fst (fun l w => (l, snd w)) m.
Definition on_server {A} (m : M St A) : M World A := zoom snd (fun s w => (fst w, s)) m.

(** The one payload that the server puts on the wire is the client's. *)
Definition down (packets : list VersionedGamePacket) : M World (list VersionedGamePacket) :=
  let* before := get_st in
  on_server (sendPackets connection packets Automatic) ;;;
  let* after := get_st in
  match drop (length (wire_ (raknet_ (snd before)))) (wire_ (raknet_ (snd after))) with
  | [(to, payload)] =>
      if bool_decide (peerKey to = connectionKey (peer connection)) then
        let* i := on_client (decodeRakNetPayload c zlib_ g payload) in ret (packets_of i)
      else raise (RuntimeError "another peer's payload")
  | _ => raise (RuntimeError "not one payload")
  end.

Definition run_exchange (k : compressor) (x : exchange) : M World (list (list VersionedGamePacket)) :=
  match x with
  | Up ps =>
      let* payload := on_client (sendPacketsLocked c zlib_ g ps) in
      let* got := on_server (receive_packets connection session payload) in ret [default [] got]
  | Down ps => let* got := down ps in ret [got]
  | Negotiated =>
      on_server (modify_session session (set_settings true true (BedrockServer.compressionLevel k))) ;;;
      on_client (modify_link c (fun l => Ok (apply_settings c (compressionAlgorithm k) (compressionThreshold k) l))) ;;;
      ret []
  | Encrypted v handshake =>
      let* _ := on_server (start_encryption session v) in
      let* got := down handshake in
      on_server (modify_session session (fun x => set_streams (encryptStream x) (decryptStream x) true 0 0 x)) ;;;
      let* x := on_server (get_session session) in
      on_client (modify_link c (enable_encryption c g (encryptionKeys x))) ;;;
      ret [got]
  end.

Fixpoint run (k : compressor) (exchanges : list exchange) : M World (list (list VersionedGamePacket)) :=
  match exchanges with
  | [] => ret []
  | x :: exchanges' => let* got := run_exchange k x in let* rest := run k exchanges' in ret (got ++ rest)
  end.

Definition exchange_ok (k : compressor) (variables variables' : ProtoDefVariableMap) (ready enc : bool) (x : exchange) : Prop :=
  match x with
  | Up ps => up_ok k variables (negb ready && negb enc) ps /\ variables' = variables
  | Down ps => down_ok k variables variables' (negb ready && negb enc) ps
  | Negotiated => variables' = variables
  | Encrypted v handshake => enc = false /\ agrees v /\ down_ok k variables variables (negb ready) handshake /\ variables' = variables
  end.
Definition after (ready enc : bool) (x : exchange) : bool * bool :=
  match x with Negotiated => (true, enc) | Encrypted _ _ => (ready, true) | _ => (ready, enc) end.
Fixpoint exchanges_ok (k : compressor) (variables : ProtoDefVariableMap) (ready enc : bool) (exchanges : list exchange) : Prop :=
  match exchanges with
  | [] => True
  | x :: exchanges' => exists variables', exchange_ok k variables variables' ready enc x /\
      exchanges_ok k variables' (after ready enc x).1 (after ready enc x).2 exchanges'
  end.

Definition batches (x : exchange) : list (list VersionedGamePacket) :=
  match x with Up ps | Down ps | Encrypted _ ps => [ps] | Negotiated => [] end.

Lemma on_client_ok {A} (m : M (link c) A) l s r l' : m l = (r, l') -> on_client m (l, s) = (r, (l', s)).
Proof. intros H. unfold on_client, zoom. cbn. by rewrite H. Qed.
Lemma on_server_ok {A} (m : M St A) l s r s' : m s = (r, s') -> on_server m (l, s) = (r, (l, s')).
Proof. intros H. unfold on_server, zoom. cbn. by rewrite H. Qed.

Lemma down_step k variables variables' ready enc ps l s : in_step k variables ready enc l s -> compressor_good k ->
  down_ok k variables variables' (negb ready && negb enc) ps ->
  exists l' s', down ps (l, s) = (Ok ps, (l', s')) /\ in_step k variables' ready enc l' s' /\
    (enc = false -> forall x, heap_ s !! session = Some x -> l' = l /\ exists payload, s' = sent payload (set_variables variables' x) s).
Proof.
  intros (x & Hmt & Hrd & Hen & Hco) Hgood [Hsend Hsz Hvar Hp]. pose proof (mt_heap _ _ _ _ _ Hmt) as Hx.
  destruct (send_processed k variables variables' ps l s x Hmt (proj2 (proj2 Hsend)) Hvar) as [E0 Hmt0].
  set (s0 := with_variables x variables' s) in *. set (x0 := set_variables variables' x) in *.
  assert (forall payload x', sent payload x' s0 = sent payload x' s) as Hs0.
  { intros payload x'. unfold sent, s0, with_variables. cbn. by rewrite insert_insert_eq. }
  assert (exists payload out l' x', sendPacketsInternal connection ps Automatic false s0 = (Ok tt, sent payload x' s0) /\
    decodeRakNetPayload c zlib_ g payload l = (Ok (Inbound out), l') /\ batch out = ps /\ meets k variables' l' (sent payload x' s0) x' /\
    enabled x' = enc /\ compressionReady x' = ready /\ (encryptionEnabled x' = true -> hasEncryptionKeys x' = true) /\ (enc = false -> l' = l /\ x' = x0))
    as (payload & out & l' & x' & E1 & E2 & E3 & Hmt' & Hen' & Hrd' & Hco' & Hsame).
  { destruct enc.
    - destruct (down_encrypted_step k variables' ps l s0 x0 Hmt0 Hen ltac:(by split)) as (payload & out & l' & x' & E1 & E2 & E3 & H1 & H2 & H3).
      exists payload, out, l', x'. split_and!; try done; [by rewrite H3|]. intros _. by apply andb_true_iff in H2 as [_ ?].
    - rewrite andb_true_r, <-Hrd in Hp.
      destruct (down_plain_step k variables' ps l s0 x0 Hmt0 Hgood Hen ltac:(by split)) as (payload & out & E1 & E2 & E3 & H1).
      by exists payload, out, l, x0. }
  rewrite Hs0 in E1, Hmt'. rewrite <-E0 in E1. exists l', (sent payload x' s). split; [|split; [by exists x'|]].
  - unfold down. rewrite bind_get, (bind_ok _ _ _ _ _ (on_server_ok _ l s _ _ E1)), bind_get. cbn [snd sent raknet_ set_raknet wire_].
    rewrite drop_app_length, bool_decide_true by done. rewrite (bind_ok _ _ _ _ _ (on_client_ok _ l _ _ _ E2)). by cbn; rewrite E3.
  - intros He y Hy. destruct (Hsame He) as [-> ->]. rewrite Hx in Hy. injection Hy as <-. split; [done|]. by exists payload.
Qed.

Lemma up_step k variables ready enc ps l s : in_step k variables ready enc l s -> compressor_good k ->
  up_ok k variables (negb ready && negb enc) ps ->
  exists l' s', run_exchange k (Up ps) (l, s) = (Ok [ps], (l', s')) /\ in_step k variables ready enc l' s'.
Proof.
  intros (x & Hmt & Hrd & Hen & Hco) Hgood Hok.
  assert (exists payload l' s', sendPacketsLocked c zlib_ g ps l = (Ok payload, l') /\
    receive_packets connection session payload s = (Ok (Some ps), s') /\ in_step k variables ready enc l' s')
    as (payload & l' & s' & E1 & E2 & H).
  { destruct enc.
    - rewrite andb_false_r in Hok. destruct (up_encrypted_step k variables ps l s x Hmt Hen Hok) as (payload & l' & s' & x' & E1 & E2 & H1 & H2 & H3).
      exists payload, l', s'. split; [done|]. split; [done|]. exists x'. split_and!; try done; [by rewrite H3|]. intros _. by apply andb_true_iff in H2 as [_ ?].
    - rewrite andb_true_r, <-Hrd in Hok. destruct (up_plain_step k variables ps l s x Hmt Hgood Hen Hok) as (payload & E1 & E2).
      exists payload, l, s. split; [done|]. split; [done|]. by exists x. }
  exists l', s'. split; [|done]. cbn [run_exchange].
  by rewrite (bind_ok _ _ _ _ _ (on_client_ok _ l s _ _ E1)), (bind_ok _ _ _ _ _ (on_server_ok _ l' s _ _ E2)).
Qed.

Lemma negotiated_exchange k variables ready enc l s : in_step k variables ready enc l s -> compressor_good k ->
  exists l' s', run_exchange k Negotiated (l, s) = (Ok [], (l', s')) /\ in_step k variables true enc l' s'.
Proof.
  intros (x & Hmt & Hrd & Hen & Hco) Hgood. destruct (negotiated_step k variables l s x Hmt Hgood) as [E1 Hmt'].
  do 2 eexists. split; [|by eexists]. cbn [run_exchange]. rewrite (bind_ok _ _ _ _ _ (on_server_ok _ l s _ _ E1)).
  erewrite bind_ok; [|by apply on_client_ok]. done.
Qed.

(** The keys of the session do not reach the client's link before it has the token. *)
Lemma meets_keyed k variables l s x s1 x' v : meets k variables l s x -> enabled x = false -> encryptionEnabled x = false ->
  at_ s x' s1 -> keyed v x x' -> meets k variables l s1 x' /\ encryptionEnabled x' = false /\ compressionReady x' = compressionReady x.
Proof.
  intros [Hs Hx Hv Hst Hrun Hkn Hk Hlv Hr Hsn He Hkeys] Hen Hoff [A1 A2 A3 A4] [_ _ (keys & salt_ & encrypt & decrypt & _ & _ & Ex)].
  assert (protoDefVariables x' = protoDefVariables x /\ status x' = status x /\ session_level x' = session_level x /\
    compressionReady x' = compressionReady x /\ encryptionEnabled x' = false) as (P1 & P2 & P3 & P4 & P5) by by rewrite Ex.
  split; [|done]. split; rewrite ?P1, ?P2, ?P3, ?P4, ?A2, ?A3, ?A4, ?P5; try done. by rewrite He, Hen.
Qed.

Lemma meets_enabled k variables l s x v : meets k variables l s x -> keyed v x x ->
  let x' := set_streams (encryptStream x) (decryptStream x) true 0 0 x in
  exists l', enable_encryption c g (encryptionKeys x) l = Ok l' /\ meets k variables l' (set_heap (<[session := x']> (heap_ s)) s) x' /\ enabled x' = true.
Proof.
  intros [Hs Hx Hv Hst Hrun Hkn Hk Hlv Hr Hsn He Hkeys] [H32 H16 (keys & salt_ & encrypt & decrypt & Ee & Ed & Ex)] x'.
  destruct (create_pair c (optionsProtocolVersion g) _ _ H32 H16) as (a & e & d & Ee' & Ed' & Hp).
  rewrite Ee in Ee'. rewrite Ed in Ed'. injection Ee' as ->. injection Ed' as ->.
  assert (encryptStream x = Some (enc_stream c a e) /\ decryptStream x = Some (dec_stream c a d) /\ hasEncryptionKeys x = true) as (X1 & X2 & X3)
    by by rewrite Ex.
  unfold enable_encryption. rewrite Ee. cbn [rbind]. rewrite Ed. cbn [rbind]. eexists. split; [done|].
  assert (enabled x' = true) as Hen by (cbn; by rewrite X3). split; [|done].
  split; try done; [cbn; by rewrite lookup_insert_eq|].
  intros _. cbn. rewrite X1, X2. split; [done|]. split; [done|]. split; (split; [done|]; split; [done|]; by exists a, e, d).
Qed.

Lemma encrypted_exchange k variables ready v handshake l s : in_step k variables ready false l s -> compressor_good k ->
  agrees v -> down_ok k variables variables (negb ready) handshake ->
  exists l' s', run_exchange k (Encrypted v handshake) (l, s) = (Ok [handshake], (l', s')) /\ in_step k variables ready true l' s'.
Proof.
  intros (x & Hmt & Hrd & Hen & Hco) Hgood Hv Hok.
  assert (encryptionEnabled x = false) as Hoff.
  { destruct (encryptionEnabled x) eqn:Ex; [|done]. by rewrite Hco in Hen. }
  destruct (start_encryption_ok s x v Hv s) as (token & x1 & s1 & E1 & H1 & Hky); [by split; [apply (mt_heap _ _ _ _ _ Hmt)|..]|].
  destruct (meets_keyed k variables l s x s1 x1 v Hmt Hen Hoff H1 Hky) as (Hmt1 & Hoff1 & Hr1).
  assert (in_step k variables ready false l s1) as Hin1.
  { exists x1. split_and!; [done|by rewrite Hr1|by rewrite Hoff1|by rewrite Hoff1]. }
  destruct (down_step k variables variables ready false handshake l s1 Hin1 Hgood) as (l2 & s2 & E2 & _ & Hsame); [by rewrite andb_true_r|].
  destruct (Hsame eq_refl x1 (mt_heap _ _ _ _ _ Hmt1)) as [-> [payload ->]].
  assert (set_variables variables x1 = x1) as Ex1 by (rewrite <-(mt_variables _ _ _ _ _ Hmt1); by destruct x1). rewrite Ex1 in E2.
  assert (meets k variables l (sent payload x1 s1) x1) as Hmt2.
  { eapply meets_sent; try done. by rewrite Hoff1. }
  assert (keyed v x1 x1) as Hky1.
  { destruct Hky as [K1 K2 (keys & salt_ & encrypt & decrypt & K3 & K4 & K5)]. split; [done|done|].
    exists keys, salt_, encrypt, decrypt. split; [done|]. split; [done|]. by rewrite K5. }
  destruct (meets_enabled k variables l _ x1 v Hmt2 Hky1) as (l' & El & Hmt3 & Hen3).
  do 2 eexists. split.
  - cbn [run_exchange]. rewrite (bind_ok _ _ _ _ _ (on_server_ok _ l s _ _ E1)), (bind_ok _ _ _ _ _ E2).
    rewrite (bind_ok _ _ _ _ _ (on_server_ok _ l _ _ _ (modify_session_ok session _ _ x1 (mt_heap _ _ _ _ _ Hmt2)))).
    rewrite (bind_ok _ _ _ _ _ (on_server_ok _ l _ _ _ (get_session_ok _ _ _ (mt_heap _ _ _ _ _ Hmt3)))).
    erewrite bind_ok; [done|]. apply on_client_ok. unfold modify_link. rewrite bind_get. cbv beta.
    change (encryptionKeys (set_streams _ _ _ _ _ x1)) with (encryptionKeys x1). by rewrite El, bind_lift.
  - eexists. split; [exact Hmt3|]. split_and!; [cbn; by rewrite Hr1|done|]. intros _. by apply andb_true_iff in Hen3 as [_ ?].
Qed.

(** C2: what a client and its session send each other arrives, over any
    conversation: batches up and down, the negotiation, and the handshake, in
    any order, before, between and after one another.  The server decodes and
    validates exactly the packets of every batch the client sends, against the
    variables that its own start_game and item_registry packets have left;
    what the server sends is one payload on that client's wire, which it
    decodes as exactly those packets; both stay in step.  This is for the
    versions whose batches carry the byte of their compressor and batches below
    2^29 bytes.  Before the negotiation a batch from the server must not exceed
    the threshold, unless compression is off (a larger one cannot be read, [unnegotiated_batch_unreadable]),
    and with deflate a batch from the client must not be a deflate stream by
    itself, which the server tries first.  What goes up has to fit the schema of
    its packet, and the start_game and item_registry packets that go down too;
    the handshake batch leaves the variables alone, and the login's key agrees
    on a secret with the server's. *)
Theorem server_conversation k exchanges : compressor_good k -> forall variables ready enc l s,
  in_step k variables ready enc l s -> exchanges_ok k variables ready enc exchanges ->
  exists l' s' variables' ready' enc', run k exchanges (l, s) = (Ok (exchanges ≫= batches), (l', s')) /\ in_step k variables' ready' enc' l' s'.
Proof.
  intros Hgood. induction exchanges as [|x exchanges IH]; intros variables ready enc l s Hin Hok; [by exists l, s, variables, ready, enc|].
  destruct Hok as (variables1 & Hx & Hok).
  assert (exists l1 s1, run_exchange k x (l, s) = (Ok (batches x), (l1, s1)) /\
    in_step k variables1 (after ready enc x).1 (after ready enc x).2 l1 s1) as (l1 & s1 & E1 & Hin1).
  { destruct x as [ps|ps| |v handshake]; cbn [after fst snd batches exchange_ok] in *.
    - destruct Hx as [Hx ->]. by apply up_step.
    - destruct (down_step k variables variables1 ready enc ps l s Hin Hgood Hx) as (l1 & s1 & E1 & H1 & _). exists l1, s1. split; [|done].
      cbn [run_exchange]. by rewrite (bind_ok _ _ _ _ _ E1).
    - subst variables1. by eapply negotiated_exchange.
    - destruct Hx as (-> & Hv & Hd & ->). by apply encrypted_exchange. }
  destruct (IH variables1 _ _ l1 s1 Hin1 Hok) as (l' & s' & variables' & ready' & enc' & E2 & Hin').
  exists l', s', variables', ready', enc'. split; [|done].
  cbn [run]. by rewrite (bind_ok _ _ _ _ _ E1), (bind_ok _ _ _ _ _ E2).
Qed.
End Wire.

(** ** The sample conversation *)

Definition wire_config : config := mkConfig "1.21.0" 685 7 (mkMcpeCodec server_table true).
Definition wire_compressor : compressor := mkCompressor "snappy" 7 512.
Definition wire_alice : BedrockServerConnection := mkConnection alice 1.
Definition wire_start : sample_server := snd (handleNativePacket alice [19] (set_compressor wire_compressor server_start)).
Definition wire_login : BedrockLoginVerificationResult := mkVerified "key" (ProtoDefData.Object []) (ProtoDefData.Object []) 685 true false.
Definition wire_packet (id : Z) : list VersionedGamePacket := [decoded server_table id []].

(** Settings are asked for and sent; the login is answered by the handshake;
    then both talk under the keys. *)
Definition wire_exchanges : list exchange :=
  [Up (wire_packet 193); Down (wire_packet 143); Negotiated; Up (wire_packet 1); Encrypted wire_login (wire_packet 3);
   Up (wire_packet 4); Down (wire_packet 2); Down (wire_packet 11); Up (wire_packet 8)].

Lemma wire_sendable id : id ∈ [1; 2; 3; 4; 8; 11; 143; 193] ->
  sendable (mkMcpeCodec server_table true) (wire_packet id) /\ size (framed_of (wire_packet id)) < 2 ^ 29 /\
  size (framed_of (wire_packet id)) <= 512 /\
  outbound_variables ∅ (wire_packet id) = Some ∅ /\
  Forall (schema_accepts ∅) (wire_packet id).
Proof.
  intros H. assert (is_u 32 id) by (apply list_elem_of_In in H; cbn in H; unfold is_u; lia).
  assert (size (framed_of (wire_packet id)) <= 3) as Hs by (apply list_elem_of_In in H; cbn in H; repeat destruct H as [<-|H]; by vm_compute).
  split_and!; [|lia|lia| |].
  - split; [|split; [lia|done]]. apply Forall_cons_2; [|constructor]. split; [done|done|constructor].
  - apply list_elem_of_In in H. cbn in H. repeat destruct H as [<-|H]; [..|destruct H]; vm_compute; reflexivity.
  - apply list_elem_of_In in H. cbn in H. apply Forall_cons_2; [|constructor].
    repeat destruct H as [<-|H]; [..|destruct H]; (split; [vm_compute; reflexivity|]; exists (quoted "void"); eexists;
      split; [vm_compute; reflexivity|split; vm_compute; reflexivity]).
Qed.

Lemma wire_up id plain : id ∈ [1; 2; 3; 4; 8; 11; 143; 193] ->
  up_ok (ServerSurroundings0 := sample_server_surroundings) wire_compressor ∅ plain (wire_packet id).
Proof. intros H. by destruct (wire_sendable id H) as (H1 & H2 & _ & _ & H5). Qed.

Lemma wire_down id plain : id ∈ [1; 2; 3; 4; 8; 11; 143; 193] ->
  down_ok (ServerSurroundings0 := sample_server_surroundings) wire_compressor ∅ ∅ plain (wire_packet id).
Proof. intros H. destruct (wire_sendable id H) as (H1 & H2 & H3 & H4 & _). split; [done..|]. by right. Qed.

Lemma wire_in_step : in_step wire_alice 2 wire_compressor ∅ false false sample_link wire_start.
Proof. eexists. split_and!; [split; try reflexivity; try done|done..]. Qed.

Lemma server_conversation_witness :
  exists l' s' variables' ready' enc', run wire_alice 2 wire_config wire_compressor wire_exchanges (sample_link, wire_start) =
      (Ok [wire_packet 193; wire_packet 143; wire_packet 1; wire_packet 3; wire_packet 4; wire_packet 2;
           wire_packet 11; wire_packet 8], (l', s')) /\
    in_step wire_alice 2 wire_compressor variables' ready' enc' l' s'.
Proof.
  refine (server_conversation (ServerSurroundings0 := sample_server_surroundings) wire_alice 2 wire_config eq_refl eq_refl _ _ _ _
    wire_compressor wire_exchanges _ ∅ false false sample_link wire_start wire_in_step _).
  - cbn. lia.
  - intros e. by do 2 eexists.
  - intros key public body e. by do 2 eexists.
  - reflexivity.
  - split; [apply list_elem_of_In; cbn; auto|cbn; lia].
  - cbn [exchanges_ok exchange_ok after wire_exchanges fst snd andb negb].
    exists ∅. split; [split; [apply wire_up; set_solver|reflexivity]|].
    exists ∅. split; [apply wire_down; set_solver|].
    exists ∅. split; [reflexivity|].
    exists ∅. split; [split; [apply wire_up; set_solver|reflexivity]|].
    exists ∅. split; [split_and!; [reflexivity|intros private salt; by eexists|apply wire_down; set_solver|reflexivity]|].
    exists ∅. split; [split; [apply wire_up; set_solver|reflexivity]|].
    exists ∅. split; [apply wire_down; set_solver|].
    exists ∅. split; [apply wire_down; set_solver|].
    exists ∅. split; [split; [apply wire_up; set_solver|reflexivity]|].
    exact I.
Defined.
