(* ===== verification/BiomeSection.v ===== *)
(** * Biome sections (src/src/world/BedrockChunk.cpp, BedrockBiomeSection)

    A palette of biome ids and a [PalettedStorage] of indices into it, or a
    proxy for the section below.  [biome_wf] holds of every section, read from
    any bytes; [biome_ok] of those whose storage is as wide as the palette
    needs, which setting biomes keeps and the encoder relies on. *)

From S2P Require Import Prelude MachineInt ZigZag Leb128 Endian BinaryStream StreamState PalettedStorage SubChunk SubChunkState SubChunkCodec.

Module BedrockBiomeSection.

Abbreviation ChunkStorageType := BedrockSubChunk.ChunkStorageType.
Abbreviation LocalPersistence := BedrockSubChunk.LocalPersistence.
Abbreviation NetworkPersistence := BedrockSubChunk.NetworkPersistence.
Abbreviation Runtime := BedrockSubChunk.Runtime.

#[export] Instance storage_type_dec : EqDecision ChunkStorageType := BedrockSubChunk.storage_type_eq_dec.

Record BedrockBiomeSection := mkBiomeSection {
  y_ : Z;
  proxy_ : bool;
  biomes_ : PalettedStorage.PalettedStorage;
  palette_ : list Z
}.

Definition set_proxy p s := mkBiomeSection (y_ s) p (biomes_ s) (palette_ s).
Definition set_biomes b s := mkBiomeSection (y_ s) (proxy_ s) b (palette_ s).
Definition set_palette p s := mkBiomeSection (y_ s) (proxy_ s) (biomes_ s) p.

(** ** Construction and access *)

Definition make (y : Z) : result BedrockBiomeSection :=
  let! storage := PalettedStorage.make 1 in
  Ok (mkBiomeSection y false storage [0]).

Definition proxyToPrevious (y : Z) : result BedrockBiomeSection :=
  let! section := make y in Ok (set_proxy true section).

Definition y (s : BedrockBiomeSection) : Z := y_ s.
Definition proxy (s : BedrockBiomeSection) : bool := proxy_ s.
Definition setProxy (p : bool) : M BedrockBiomeSection unit :=
  let* s := get_st in put_st (set_proxy p s).
Definition palette (s : BedrockBiomeSection) : list Z := palette_ s.

Definition getBiomeId (x y z : Z) (s : BedrockBiomeSection) : result Z :=
  if bool_decide (palette_ s = []) then Ok 0
  else
    let! index := PalettedStorage.get x y z (biomes_ s) in
    if index >=? size (palette_ s) then Throw (BedrockChunkError "biome palette index out of range")
    else vec_at (palette_ s) index.

Definition neededBits (value : Z) : Z := BedrockSubChunk.neededBits value.

(** [std::find]: the distance from the beginning, or the size. *)
Fixpoint find_index (id : Z) (l : list Z) : Z :=
  match l with
  | [] => 0
  | x :: l' => if x =? id then 0 else find_index id l' + 1
  end.

Definition ensureBiome (biomeId : Z) : M BedrockBiomeSection unit :=
  let* s := get_st in
  if negb (find_index biomeId (palette_ s) =? size (palette_ s)) then ret tt
  else
    put_st (set_palette (palette_ s ++ [biomeId]) s) ;;;
    let* s := get_st in
    let minBits := neededBits (to_u32 (size (palette_ s) - 1)) in
    if minBits >? PalettedStorage.bitsPerBlock (biomes_ s) then
      let* storage := lift (PalettedStorage.resize minBits (biomes_ s)) in
      put_st (set_biomes storage s)
    else ret tt.

Definition setBiomeId (x y z biomeId : Z) : M BedrockBiomeSection unit :=
  setProxy false ;;;
  ensureBiome biomeId ;;;
  let* s := get_st in
  zoom biomes_ set_biomes
    (PalettedStorage.set x y z (to_u32 (find_index biomeId (palette_ s)))).

(** ** The 16x16 form *)

Definition readLegacy2D : M (BedrockBiomeSection * BinaryStream) unit :=
  on_object (setProxy false) ;;;
  for_each (seqZ 0 16) (fun x => for_each (seqZ 0 16) (fun z =>
    let* biomeId := on_stream readU8 in
    for_each (seqZ 0 16) (fun y => on_object (setBiomeId x y z biomeId)))).

Definition exportLegacy2D (s : BedrockBiomeSection) : M BinaryStream unit :=
  for_each (seqZ 0 16) (fun x => for_each (seqZ 0 16) (fun z =>
    let* id := lift (getBiomeId x 0 z s) in writeU8 (to_u8 id))).

(** ** The 3D form *)

Definition readRuntimeBiomeId : M BinaryStream Z :=
  let* v := readVarUInt in ret (Z.shiftr v 1).
Definition writeRuntimeBiomeId (value : Z) : M BinaryStream unit :=
  writeVarUInt (to_u32 (Z.shiftl value 1)).

Definition push_biome (id : Z) : M BedrockBiomeSection unit :=
  let* s := get_st in put_st (set_palette (palette_ s ++ [id]) s).

Definition read (type : ChunkStorageType) : M (BedrockBiomeSection * BinaryStream) unit :=
  on_object (let* s := get_st in put_st (set_palette [] (set_proxy false s))) ;;;
  let* paletteType := on_stream readU8 in
  if paletteType =? 0xff then on_object (setProxy true)
  else
    let runtimeIds := negb (Z.land paletteType 1 =? 0) in
    if negb runtimeIds then raise (BedrockChunkError "biome palette type must use runtime IDs")
    else
      let bitsPerBlock := to_u8 (Z.shiftr paletteType 1) in
      if bitsPerBlock =? 0 then
        let* id := on_stream (if bool_decide (type = LocalPersistence)
                              then (let* v := readI32LE in ret (to_u32 v))
                              else readRuntimeBiomeId) in
        on_object (push_biome id) ;;;
        let* storage := lift (PalettedStorage.make 1) in
        on_object (let* s := get_st in put_st (set_biomes storage s))
      else
        let* storage := lift (PalettedStorage.make bitsPerBlock) in
        on_object (let* s := get_st in put_st (set_biomes storage s)) ;;;
        on_field biomes_ set_biomes PalettedStorage.read ;;;
        let* paletteLength := on_stream (if bool_decide (type = Runtime)
                                         then readRuntimeBiomeId else readU32LE) in
        read_times paletteLength (
          let* id := on_stream (if bool_decide (type = Runtime)
                                then readRuntimeBiomeId else readU32LE) in
          on_object (push_biome id)).

Definition exportTo (type : ChunkStorageType) (s : BedrockBiomeSection) : M BinaryStream unit :=
  if proxy_ s then writeU8 0xff
  else
    let bitsPerBlock := neededBits (to_u32 (size (palette_ s) - 1)) in
    let paletteType := to_u8 (Z.lor (to_u32 (Z.shiftl bitsPerBlock 1))
                                (if bool_decide (type = Runtime) then 1 else 0)) in
    writeU8 paletteType ;;;
    if bitsPerBlock =? 0 then
      let* biome := lift (if bool_decide (palette_ s = []) then Ok 0 else vec_at (palette_ s) 0) in
      if bool_decide (type = LocalPersistence) then writeI32LE (to_i32 biome)
      else writeRuntimeBiomeId biome
    else
      PalettedStorage.write (biomes_ s) ;;;
      if bool_decide (type = Runtime) then
        writeRuntimeBiomeId (to_u32 (size (palette_ s))) ;;;
        for_each (palette_ s) writeRuntimeBiomeId
      else
        writeU32LE (to_u32 (size (palette_ s))) ;;;
        for_each (palette_ s) writeU32LE.

(** ** Invariants and the abstract view *)

Definition biome_wf (s : BedrockBiomeSection) : Prop := PalettedStorage.wf (biomes_ s).

(** The width of a storage for a palette of [n] entries. *)
Definition width (n : Z) : Z := Z.max 1 (neededBits (to_u32 (n - 1))).

Record biome_ok (s : BedrockBiomeSection) : Prop := mkBiomeOk {
  bo_wf : PalettedStorage.wf (biomes_ s);
  bo_size : 1 <= size (palette_ s) <= 2 ^ 31;
  bo_cells : forall i, 0 <= i < 4096 -> cell (biomes_ s) i < size (palette_ s);
  bo_width : PalettedStorage.bitsPerBlock_ (biomes_ s) = width (size (palette_ s))
}.

Definition biome_at (s : BedrockBiomeSection) (i : Z) : Z :=
  nth (Z.to_nat (cell (biomes_ s) i)) (palette_ s) 0.

Lemma neededBits_log2 n : 0 < n < 2 ^ 32 -> neededBits n = Z.log2 n + 1.
Proof.
  intros Hn. unfold neededBits, BedrockSubChunk.neededBits. rewrite (proj2 (Z.eqb_neq _ _)) by lia.
  assert (Z.log2 n < 32) by (apply Z.log2_lt_pow2; lia). pose proof (Z.log2_nonneg n).
  rewrite neededBits_loop_ok; [lia|change (Z.of_nat 32) with 32; lia..].
Qed.

Lemma width_bounds n : 1 <= n <= 2 ^ 32 -> 1 <= width n <= 32 /\ n <= 2 ^ width n.
Proof.
  intros Hn. unfold width. rewrite to_u32_id by (unfold is_u; lia).
  destruct (neededBits_ok (n - 1) ltac:(lia)) as [Hb Hp]. unfold neededBits.
  split; [lia|]. pose proof (Z.pow_le_mono_r 2 (BedrockSubChunk.neededBits (n - 1))
    (Z.max 1 (BedrockSubChunk.neededBits (n - 1))) ltac:(lia) ltac:(lia)). lia.
Qed.

Lemma width_succ n : 1 <= n < 2 ^ 32 -> width (n + 1) = Z.max (width n) (neededBits (to_u32 n)).
Proof.
  intros Hn. unfold width. replace (n + 1 - 1) with n by lia.
  rewrite !to_u32_id by (unfold is_u; lia). destruct (decide (n = 1)) as [->|]; [done|].
  rewrite !neededBits_log2 by lia. pose proof (Z.log2_le_mono (n - 1) n ltac:(lia)). lia.
Qed.

Lemma getBiomeId_ok s x y z :
  biome_ok s -> getBiomeId x y z s = Ok (biome_at s (block_index x y z)).
Proof.
  intros [Hw Hs Hc _]. unfold getBiomeId. rewrite bool_decide_false by (intros E; rewrite E, size_nil in Hs; lia).
  rewrite PalettedStorage.get_ok by done. cbn [rbind].
  specialize (Hc _ (index_range x y z)). pose proof (PalettedStorage.cell_range _ Hw (block_index x y z)).
  destruct (Z.geb_spec (cell (biomes_ s) (block_index x y z)) (size (palette_ s))); [lia|].
  destruct (vec_at_ok (palette_ s) (cell (biomes_ s) (block_index x y z)) ltac:(lia)) as (b & -> & Hb).
  unfold biome_at. by rewrite (nth_lookup_Some _ _ _ _ Hb).
Qed.

Lemma getBiomeId_safe s x y z : biome_wf s -> safe (getBiomeId x y z s).
Proof.
  intros Hw. unfold getBiomeId. case_bool_decide; [done|]. rewrite PalettedStorage.get_ok by done.
  cbn [rbind]. pose proof (PalettedStorage.cell_range _ Hw (block_index x y z)).
  destruct (Z.geb_spec (cell (biomes_ s) (block_index x y z)) (size (palette_ s))); [done|].
  apply vec_at_safe. lia.
Qed.

(** ** Setting a biome *)

Lemma find_index_range id l : 0 <= find_index id l <= size l.
Proof.
  induction l as [|x l IH]; [done|]. cbn [find_index]. rewrite size_cons.
  destruct (x =? id); lia.
Qed.

Lemma find_index_nth id l :
  find_index id l < size l -> nth (Z.to_nat (find_index id l)) l 0 = id.
Proof.
  induction l as [|x l IH]; [done|]. cbn [find_index]. rewrite size_cons.
  destruct (Z.eqb_spec x id) as [->|]; [done|]. intros H. pose proof (find_index_range id l).
  replace (Z.to_nat (find_index id l + 1)) with (S (Z.to_nat (find_index id l))) by lia.
  apply IH. lia.
Qed.

Lemma find_index_snoc id l : find_index id l = size l -> find_index id (l ++ [id]) = size l.
Proof.
  induction l as [|x l IH]; [by cbn; rewrite Z.eqb_refl|]. cbn [app find_index]. rewrite size_cons.
  pose proof (find_index_range id l). destruct (Z.eqb_spec x id); [lia|]. intros. rewrite IH; lia.
Qed.

Lemma nth_snoc_low (l : list Z) x k : 0 <= k < size l -> nth (Z.to_nat k) (l ++ [x]) 0 = nth (Z.to_nat k) l 0.
Proof. intros Hk. apply app_nth1. unfold size in Hk. lia. Qed.

(** What [ensureBiome] leaves: the palette has the biome, nothing else moved. *)
Lemma ensureBiome_ok s id :
  biome_ok s -> size (palette_ s) < 2 ^ 31 ->
  exists s', ensureBiome id s = (Ok tt, s') /\ biome_ok s' /\ y_ s' = y_ s /\ proxy_ s' = proxy_ s /\
    size (palette_ s) <= size (palette_ s') <= size (palette_ s) + 1 /\
    find_index id (palette_ s') < size (palette_ s') /\
    (Forall (is_u 31) (palette_ s) -> is_u 31 id -> Forall (is_u 31) (palette_ s')) /\
    forall i, 0 <= i < 4096 -> biome_at s' i = biome_at s i.
Proof.
  intros [Hw Hs Hc Hb] Hlt. unfold ensureBiome, bind, get_st, put_st, ret, lift.
  pose proof (find_index_range id (palette_ s)).
  destruct (Z.eqb_spec (find_index id (palette_ s)) (size (palette_ s))) as [E|E]; cbn [negb].
  2:{ exists s. split_and!; try done; lia. }
  set (s1 := set_palette (palette_ s ++ [id]) s). cbn [palette_ biomes_ s1 set_palette].
  rewrite size_snoc. replace (size (palette_ s) + 1 - 1) with (size (palette_ s)) by lia.
  pose proof (width_succ (size (palette_ s)) ltac:(lia)) as Hws.
  pose proof (width_bounds (size (palette_ s) + 1) ltac:(lia)) as [Hwb _].
  assert (forall b, PalettedStorage.wf b ->
    PalettedStorage.bitsPerBlock_ b = width (size (palette_ s) + 1) ->
    (forall i, 0 <= i < 4096 -> cell b i = cell (biomes_ s) i) ->
    let s' := set_biomes b s1 in
    biome_ok s' /\ y_ s' = y_ s /\ proxy_ s' = proxy_ s /\
    size (palette_ s) <= size (palette_ s') <= size (palette_ s) + 1 /\
    find_index id (palette_ s') < size (palette_ s') /\
    (Forall (is_u 31) (palette_ s) -> is_u 31 id -> Forall (is_u 31) (palette_ s')) /\
    forall i, 0 <= i < 4096 -> biome_at s' i = biome_at s i) as Hdone.
  { intros b Hbw Hbb Hbc s'. cbn [s' s1 set_biomes set_palette y_ proxy_ palette_].
    rewrite size_snoc. split_and!; try done; try lia.
    - split; cbn [s' s1 set_biomes set_palette biomes_ palette_]; rewrite ?size_snoc; [done|lia| |done].
      intros i Hi. rewrite Hbc by done. specialize (Hc i Hi). lia.
    - rewrite find_index_snoc by done. lia.
    - intros. by apply Forall_app_2; [|constructor].
    - intros i Hi. unfold biome_at. cbn [s' s1 set_biomes set_palette biomes_ palette_].
      rewrite Hbc by done. apply nth_snoc_low.
      pose proof (PalettedStorage.cell_range _ Hw i). specialize (Hc i Hi). lia. }
  destruct (Z.gtb_spec (neededBits (to_u32 (size (palette_ s)))) (PalettedStorage.bitsPerBlock (biomes_ s)))
    as [Hg|Hg]; unfold PalettedStorage.bitsPerBlock in Hg.
  - destruct (PalettedStorage.resize_grow (neededBits (to_u32 (size (palette_ s)))) (biomes_ s) Hw ltac:(lia))
      as (b & -> & Hbw & Hbb & Hbc). cbn [rbind]. exists (set_biomes b s1).
    split; [done|]. apply Hdone; [done|lia|done].
  - exists s1. split; [done|]. replace s1 with (set_biomes (biomes_ s) s1) by done.
    apply Hdone; [done|lia|done].
Qed.

Lemma setBiomeId_ok s x y z id :
  biome_ok s -> size (palette_ s) < 2 ^ 31 ->
  exists s', setBiomeId x y z id s = (Ok tt, s') /\ biome_ok s' /\ y_ s' = y_ s /\ proxy_ s' = false /\
    size (palette_ s') <= size (palette_ s) + 1 /\
    (Forall (is_u 31) (palette_ s) -> is_u 31 id -> Forall (is_u 31) (palette_ s')) /\
    forall i, 0 <= i < 4096 ->
      biome_at s' i = if i =? block_index x y z then id else biome_at s i.
Proof.
  intros Hs Hlt. unfold setBiomeId.
  assert (biome_ok (set_proxy false s)) as Hs0 by (destruct Hs; by split).
  destruct (ensureBiome_ok (set_proxy false s) id Hs0 Hlt) as (s1 & E1 & Hok & Hy & Hp & Hsz & Hf & Hu & Hat).
  unfold setProxy. unfold bind at 1 2, get_st at 1, put_st at 1. rewrite (bind_ok _ _ _ _ _ E1).
  unfold bind, get_st, zoom. destruct Hok as [Hw Hn Hc Hb].
  pose proof (find_index_range id (palette_ s1)).
  destruct (PalettedStorage.set_ok (biomes_ s1) Hw x y z (to_u32 (find_index id (palette_ s1))))
    as (b & -> & Hbw & Hbb & Hbc).
  assert (Z.land (to_u32 (find_index id (palette_ s1))) (PalettedStorage.mask_ (biomes_ s1)) =
    find_index id (palette_ s1)) as Hmask.
  { rewrite to_u32_id by (unfold is_u; lia). rewrite (PalettedStorage.wf_mask _ Hw).
    pose proof (width_bounds (size (palette_ s1)) ltac:(lia)). rewrite Hb. apply PalettedStorage.land_fits; lia. }
  rewrite Hmask in Hbc. eexists. split; [done|].
  cbn [set_biomes set_proxy y_ proxy_ palette_] in *. split_and!; try done; [|lia|].
  - split; cbn [set_biomes biomes_ palette_]; [done|done| |congruence].
    intros i Hi. rewrite Hbc by done. destruct (i =? _); [done|]. by apply Hc.
  - intros i Hi. unfold biome_at at 1. cbn [set_biomes biomes_ palette_]. rewrite Hbc by done.
    destruct (i =? block_index x y z); [by apply find_index_nth|]. by apply (Hat i Hi).
Qed.

(** ** The runtime encoding *)

Definition enc_id (v : Z) : bytes := leb_encode 5 (2 * v).

Definition enc_biome (s : BedrockBiomeSection) : bytes :=
  if proxy_ s then [0xff]
  else if size (palette_ s) =? 1 then [1] ++ (palette_ s ≫= enc_id)
  else [PalettedStorage.bitsPerBlock_ (biomes_ s) * 2 + 1] ++
       PalettedStorage.enc_words (PalettedStorage.words_ (biomes_ s)) ++
       enc_id (size (palette_ s)) ++ (palette_ s ≫= enc_id).

Lemma size_one {A} (l : list A) : size l = 1 -> exists x, l = [x].
Proof.
  destruct l as [|x [|? l]]; [done|by exists x|]. rewrite !size_cons. pose proof (size_nonneg l). lia.
Qed.

Lemma write_id v : is_u 31 v -> oappends (writeRuntimeBiomeId v) (enc_id v) tt.
Proof.
  intros Hv. unfold is_u in Hv. unfold writeRuntimeBiomeId. rewrite shiftl_mul, Z.mul_comm by lia.
  rewrite to_u32_id by (unfold is_u; lia). apply oappends_appends, appends_VarUInt. unfold is_u. lia.
Qed.

Lemma read_id v : is_u 31 v -> reads readRuntimeBiomeId (enc_id v) v.
Proof.
  intros Hv. unfold is_u in Hv. unfold readRuntimeBiomeId.
  replace v with (Z.shiftr (2 * v) 1) at 2 by (rewrite shiftr_div by lia; change (2 ^ 1) with 2; rewrite Z.mul_comm; apply Z.div_mul; lia).
  apply (consumes_bind_ret _ (fun u => Z.shiftr u 1)). apply reads_VarUInt. unfold is_u. lia.
Qed.

Lemma enc_id_size v : 1 <= size (enc_id v).
Proof.
  destruct (enc_id v) as [|b l] eqn:E; [by apply leb_encode_nonempty in E|].
  rewrite size_cons. pose proof (size_nonneg l). lia.
Qed.

(** The width that the encoder announces is the width of the storage. *)
Lemma announced_width s :
  biome_ok s -> size (palette_ s) <> 1 ->
  neededBits (to_u32 (size (palette_ s) - 1)) = PalettedStorage.bitsPerBlock_ (biomes_ s) /\
  1 <= PalettedStorage.bitsPerBlock_ (biomes_ s) <= 32.
Proof.
  intros [Hw Hs _ Hb] Hne. rewrite Hb. unfold width.
  rewrite to_u32_id by (unfold is_u; lia). rewrite neededBits_log2 by lia.
  pose proof (Z.log2_nonneg (size (palette_ s) - 1)).
  assert (Z.log2 (size (palette_ s) - 1) < 32) by (apply Z.log2_lt_pow2; lia). lia.
Qed.

Lemma exportTo_appends s :
  biome_ok s -> size (palette_ s) < 2 ^ 31 -> Forall (is_u 31) (palette_ s) ->
  oappends (exportTo Runtime s) (enc_biome s) tt.
Proof.
  intros Hok Hlt Hu. unfold exportTo, enc_biome. destruct (proxy_ s); [apply oappends_appends, appends_U8|].
  pose proof (bo_size s Hok). destruct (decide (size (palette_ s) = 1)) as [E|E].
  - destruct (size_one _ E) as [id Ep]. rewrite Ep in *. change (neededBits _) with 0.
    rewrite E. cbn [Z.eqb Pos.eqb mbind list_bind].
    apply oappends_bind with (a := tt); [apply oappends_appends, appends_U8|].
    rewrite bool_decide_false by done. change (vec_at [id] 0) with (Ok id). rewrite app_nil_r.
    apply Forall_cons_1 in Hu as [Hid _]. intros st Hst. by apply write_id.
  - destruct (announced_width s Hok E) as [-> Hbits].
    assert (to_u8 (Z.lor (to_u32 (Z.shiftl (PalettedStorage.bitsPerBlock_ (biomes_ s)) 1))
      (if bool_decide (Runtime = Runtime) then 1 else 0)) = PalettedStorage.bitsPerBlock_ (biomes_ s) * 2 + 1) as ->.
    { rewrite bool_decide_true, shiftl_mul by (done || lia).
      rewrite to_u32_id by (unfold is_u; lia). rewrite Z.lor_comm.
      rewrite (lor_mul_add 1 _ 1 ltac:(done) ltac:(done)). change (2 ^ 1) with 2. rewrite to_u8_id by (unfold is_u; lia). lia. }
    rewrite (proj2 (Z.eqb_neq _ _)) by lia. rewrite bool_decide_true by done.
    rewrite (proj2 (Z.eqb_neq _ _)) by lia.
    apply oappends_bind with (a := tt); [apply oappends_appends, appends_U8|].
    apply oappends_bind with (a := tt); [apply PalettedStorage.write_appends|].
    apply oappends_bind with (a := tt).
    + rewrite to_u32_id by (unfold is_u; lia). apply write_id. unfold is_u. lia.
    + apply oappends_for_each. intros id Hid. apply write_id.
      by apply (proj1 (Forall_forall _ _) Hu), list_elem_of_In.
Qed.

Lemma enc_id_bytes v : 0 <= v -> is_bytes (enc_id v).
Proof. intros. apply leb_encode_bytes. lia. Qed.

Lemma enc_biome_bytes s : biome_ok s -> Forall (is_u 31) (palette_ s) -> is_bytes (enc_biome s).
Proof.
  intros Hok Hu. unfold enc_biome. destruct (proxy_ s); [by repeat constructor|].
  assert (is_bytes (palette_ s ≫= enc_id)) as Hp.
  { induction Hu as [|id l Hid _ IH]; [constructor|]. rewrite bind_cons. apply is_bytes_app.
    split; [|done]. apply enc_id_bytes. unfold is_u in Hid. lia. }
  destruct (Z.eqb_spec (size (palette_ s)) 1) as [|E]; [by constructor|].
  destruct (announced_width s Hok E) as [_ Hb].
  constructor; [unfold is_u; lia|]. apply is_bytes_app. split; [apply PalettedStorage.enc_words_bytes|].
  apply is_bytes_app. split; [apply enc_id_bytes, size_nonneg|done].
Qed.

(** What a section becomes on the way through the wire. *)
Definition same_biomes (s s' : BedrockBiomeSection) : Prop :=
  proxy_ s' = proxy_ s /\ biome_wf s' /\
  (proxy_ s = false -> biome_ok s' /\ Forall (is_u 31) (palette_ s') /\ size (palette_ s') = size (palette_ s) /\
    forall i, 0 <= i < 4096 -> biome_at s' i = biome_at s i).

Definition push_id (t : BedrockBiomeSection) (id : Z) : BedrockBiomeSection :=
  set_palette (palette_ t ++ [id]) t.

Lemma foldl_push l : forall t, foldl push_id t l = set_palette (palette_ t ++ l) t.
Proof.
  induction l as [|id l IH]; intros t; [rewrite app_nil_r; by destruct t|].
  cbn [foldl]. rewrite IH. unfold push_id. cbn [set_palette palette_]. by rewrite <-app_assoc.
Qed.

Lemma read_palette_preads l t :
  Forall (is_u 31) l ->
  preads (read_times (size l) (
    let* id := on_stream (if bool_decide (Runtime = Runtime) then readRuntimeBiomeId else readU32LE) in
    on_object (push_biome id))) (l ≫= enc_id) t tt (set_palette (palette_ t ++ l) t).
Proof.
  intros Hl. rewrite <-foldl_push. apply read_times_preads. intros id u Hid. split; [|apply enc_id_size].
  rewrite bool_decide_true by done. rewrite <-(app_nil_r (enc_id id)).
  eapply preads_bind; [apply preads_stream, read_id|by apply preads_object].
  by apply (proj1 (Forall_forall _ _) Hl), list_elem_of_In.
Qed.

Lemma lor_type b : 1 <= b <= 32 ->
  (b * 2 + 1 =? 255) = false /\ negb (Z.land (b * 2 + 1) 1 =? 0) = true /\ to_u8 (Z.shiftr (b * 2 + 1) 1) = b.
Proof.
  intros Hb. split_and!; [lia| |].
  - rewrite land_1. replace (b * 2 + 1) with (1 + b * 2) by lia. by rewrite Z_mod_plus_full.
  - rewrite shiftr_div, Z.add_comm, Z.div_add by lia. apply to_u8_id. unfold is_u. change (1 / 2 ^ 1) with 0. lia.
Qed.

Lemma biome_read_preads s t :
  biome_ok s -> size (palette_ s) < 2 ^ 31 -> Forall (is_u 31) (palette_ s) -> biome_wf t ->
  exists s', preads (read Runtime) (enc_biome s) t tt s' /\ same_biomes s s' /\ y_ s' = y_ t.
Proof.
  intros Hok Hlt Hu Ht. unfold enc_biome, read. pose proof (bo_size s Hok) as Hs.
  set (t0 := set_palette [] (set_proxy false t)).
  destruct (proxy_ s) eqn:Epr.
  { exists (set_proxy true t0). split.
    - eapply preads_bind0; [by apply preads_object|]. rewrite <-(app_nil_r [255]).
      eapply preads_bind; [apply preads_stream, reads_U8|]. by apply preads_object.
    - unfold same_biomes. rewrite Epr. split_and!; done. }
  destruct (Z.eqb_spec (size (palette_ s)) 1) as [E|E].
  - destruct (size_one _ E) as [id Ep]. rewrite Ep in Hu |- *. apply Forall_cons_1 in Hu as [Hid _].
    destruct (PalettedStorage.make_ok 1 ltac:(lia)) as (b & Eb & Hbw & Hbb & Hbc).
    exists (set_biomes b (push_id t0 id)). split.
    + eapply preads_bind0; [by apply preads_object|].
      eapply preads_bind; [apply preads_stream, reads_U8|]. cbn [mbind list_bind].
      change (1 =? 255) with false. cbn [negb Z.land Z.eqb Pos.eqb].
      change (to_u8 (Z.shiftr 1 1)) with 0. cbn [Z.eqb]. rewrite (bool_decide_false (Runtime = _)) by done.
      eapply preads_bind; [by apply preads_stream, read_id|].
      eapply preads_bind0; [by apply preads_object|].
      eapply preads_bind0; [by apply preads_lift|]. by apply preads_object.
    + unfold same_biomes. rewrite Epr, Ep. split; [|done]. split_and!; [done|done|]. intros _.
      split_and!; [|by constructor|done|].
      * split; cbn [set_biomes push_id set_palette biomes_ palette_ t0 app]; [done|done| |done].
        intros i Hi. rewrite Hbc. done.
      * intros i Hi. unfold biome_at. cbn [set_biomes push_id set_palette biomes_ palette_ t0 app].
        rewrite Hbc, Ep. pose proof (bo_cells s Hok i Hi) as Hc. rewrite E in Hc.
        pose proof (PalettedStorage.cell_range _ (bo_wf s Hok) i).
        by replace (cell (biomes_ s) i) with 0 by lia.
  - destruct (announced_width s Hok E) as [_ Hbits].
    destruct (lor_type _ Hbits) as (El1 & El2 & El3).
    destruct (PalettedStorage.make_ok (PalettedStorage.bitsPerBlock_ (biomes_ s)) ltac:(lia))
      as (b & Eb & Hbw & Hbb & Hbc).
    destruct (wf_same_bits b (biomes_ s) Hbw (bo_wf s Hok) ltac:(lia)) as [Ewb Hws].
    exists (set_palette (palette_ s) (set_biomes (biomes_ s) t0)). split.
    + eapply preads_bind0; [by apply preads_object|].
      eapply preads_bind; [apply preads_stream, reads_U8|]. cbv beta. rewrite El1, El2, El3. cbn [negb].
      rewrite (proj2 (Z.eqb_neq _ _)) by lia.
      eapply preads_bind0; [by apply preads_lift|].
      eapply preads_bind0; [by apply preads_object|].
      eapply preads_bind.
      { apply preads_field. cbn [biomes_ set_biomes]. apply PalettedStorage.read_preads; [done|].
        apply (PalettedStorage.wf_words _ (bo_wf s Hok)). }
      eapply preads_bind; [apply preads_stream; rewrite bool_decide_true by done; apply read_id; unfold is_u; lia|].
      cbn [biomes_ set_biomes]. rewrite Ewb. by apply read_palette_preads.
    + unfold same_biomes. rewrite Epr. split_and!; [done|apply (bo_wf s Hok)| |done]. intros _.
      split_and!; [|done|done|done].
      destruct Hok. by split.
Qed.

(** ** Arbitrary input *)

Lemma make_biome_ok y :
  exists s, make y = Ok s /\ biome_ok s /\ y_ s = y /\ proxy_ s = false /\ palette_ s = [0] /\
    forall i, biome_at s i = 0.
Proof.
  unfold make. destruct (PalettedStorage.make_ok 1 ltac:(lia)) as (b & -> & Hbw & Hbb & Hbc).
  eexists. split; [done|]. cbn [biomes_ palette_ y_ proxy_]. split_and!; try done.
  - split; cbn [biomes_ palette_]; [done|done|intros i _; by rewrite Hbc|done].
  - intros i. unfold biome_at. cbn [biomes_ palette_]. by rewrite Hbc.
Qed.

Lemma neededBits_u32 n : 0 <= neededBits (to_u32 n) <= 32.
Proof. apply neededBits_ok. apply (to_u_range 32). lia. Qed.

Lemma setBiomeId_wf s x y z id :
  biome_wf s -> exists s', setBiomeId x y z id s = (Ok tt, s') /\ biome_wf s' /\ y_ s' = y_ s.
Proof.
  intros Hw. unfold setBiomeId, setProxy, ensureBiome, bind, get_st, put_st, ret, lift, zoom, biome_wf in *.
  assert (forall t : BedrockBiomeSection, PalettedStorage.wf (biomes_ t) -> y_ t = y_ s ->
    exists s', (let (r, u) := PalettedStorage.set x y z (to_u32 (find_index id (palette_ t))) (biomes_ t) in
      (r, set_biomes u t)) = (Ok tt, s') /\ PalettedStorage.wf (biomes_ s') /\ y_ s' = y_ s) as Hset.
  { intros t Ht Hy. destruct (PalettedStorage.set_ok _ Ht x y z (to_u32 (find_index id (palette_ t))))
      as (b & -> & Hb & _). by exists (set_biomes b t). }
  destruct (negb _); [by apply Hset|]. set (s1 := set_palette _ _).
  destruct (Z.gtb_spec (neededBits (to_u32 (size (palette_ s1) - 1))) (PalettedStorage.bitsPerBlock (biomes_ s1)))
    as [Hg|Hg]; [|by apply Hset].
  pose proof (neededBits_u32 (size (palette_ s1) - 1)). unfold PalettedStorage.bitsPerBlock in Hg.
  destruct (PalettedStorage.resize_grow (neededBits (to_u32 (size (palette_ s1) - 1))) (biomes_ s1) Hw ltac:(lia))
    as (b & -> & Hb & _). by apply Hset.
Qed.

Lemma read_item_moves y0 n type :
  n = readRuntimeBiomeId \/ n = readU32LE ->
  pmoves 1 (let* id := on_stream n in on_object (push_biome id))
    (fun t => biome_wf t /\ y_ t = y0) (fun _ t => biome_wf t /\ y_ t = y0) /\
  steps 1 (if bool_decide (type = Runtime) then readRuntimeBiomeId else readU32LE).
Proof.
  intros Hn. assert (steps 1 readRuntimeBiomeId) as H1.
  { apply (steps_bind 1 0); [lia|apply steps_readVarUInt1|intros; apply steps_ret]. }
  assert (steps 1 readU32LE) as H2 by (eapply steps_weaken; [|apply steps_readU32LE]; lia).
  split; [|by case_bool_decide].
  apply (pmoves_bind 1 0 _ _ _ (fun _ t => biome_wf t /\ y_ t = y0)).
  - apply pmoves_stream; [destruct Hn as [->| ->]; done|done].
  - intros id. apply pmoves_object. by intros t (Ht & Hy).
Qed.

Lemma biome_read_psafe type y0 :
  psafe (read type) (fun t => biome_wf t /\ y_ t = y0) (fun _ t => biome_wf t /\ y_ t = y0).
Proof.
  unfold read. set (P := fun t : BedrockBiomeSection => biome_wf t /\ y_ t = y0).
  assert (forall (f : BedrockBiomeSection -> BedrockBiomeSection), (forall t, P t -> P (f t)) ->
    psafe (on_object (let* s := get_st in put_st (f s))) P (fun _ => P)) as Hput.
  { intros f Hf. apply psafe_object. intros t Ht. by apply Hf. }
  assert (forall (A : Type) (m : M BinaryStream A), steps 0 m -> psafe (on_stream m) P (fun _ => P)) as Hstr.
  { intros A m Hm. by apply (psafe_stream m 0). }
  assert (steps 0 readRuntimeBiomeId) as Hid.
  { apply (steps_bind 0 0); [lia|apply steps_readVarUInt|intros; apply steps_ret]. }
  assert (steps 0 readU32LE) as H32 by (eapply steps_weaken; [|apply steps_readU32LE]; lia).
  eapply psafe_bind; [by apply Hput|]. intros [].
  eapply psafe_bind; [apply Hstr; eapply steps_weaken; [|apply steps_readU8]; lia|]. intros paletteType.
  destruct (paletteType =? 255); [by apply Hput|].
  destruct (negb _); [by apply psafe_raise|].
  set (bits := to_u8 _). assert (0 <= bits) by apply (to_u_range 8 _ ltac:(lia)).
  destruct (bits =? 0).
  - eapply psafe_bind.
    { apply Hstr. case_bool_decide; [|done]. apply (steps_bind 0 0); [lia| |intros; apply steps_ret].
      eapply steps_weaken; [|apply steps_readI32LE]; lia. }
    intros id. eapply psafe_bind; [by apply Hput|]. intros [].
    eapply (psafe_bind _ _ _ (fun st t => P t /\ PalettedStorage.wf st)).
    + apply psafe_lift; [by apply PalettedStorage.make_safe|]. intros st t E Ht.
      destruct (PalettedStorage.make_ok 1 ltac:(lia)) as (b & Eb & Hb & _). rewrite Eb in E. by injection E as <-.
    + intros st. apply psafe_object. intros t [[Ht Hy] Hst]. by split.
  - eapply (psafe_bind _ _ _ (fun st t => P t /\ PalettedStorage.wf st)).
    { apply psafe_lift; [by apply PalettedStorage.make_safe|]. intros st t E Ht. split; [done|].
      destruct (decide (bits <= 32)) as [Hle|Hgt].
      - destruct (PalettedStorage.make_ok bits ltac:(lia)) as (b & Eb & Hb & _). rewrite Eb in E. by injection E as <-.
      - by rewrite PalettedStorage.make_throws in E by lia. }
    intros st. eapply (psafe_bind _ _ _ (fun _ => P)).
    { apply psafe_object. intros t [[Ht Hy] Hst]. by split. }
    intros []. eapply (psafe_bind _ _ _ (fun _ => P)).
    { apply (psafe_field biomes_ set_biomes _ _ _ _ _ PalettedStorage.read_psafe_wf); [by intros t []|].
      intros _ b t [_ Hy] Hb. by split. }
    intros []. eapply psafe_bind.
    { apply Hstr. by case_bool_decide. }
    intros n. apply (read_times_psafe n _ P). case_bool_decide; apply (read_item_moves y0 _ Runtime); auto.
Qed.

(** ** The 16x16 form *)

Definition xz_pairs : list (Z * Z) := x ← seqZ 0 16; (fun z => (x, z)) <$> seqZ 0 16.

Lemma xz_pairs_flat {S} (body : Z -> Z -> M S unit) s :
  for_each (seqZ 0 16) (fun x => for_each (seqZ 0 16) (fun z => body x z)) s =
  for_each xz_pairs (fun p => body p.1 p.2) s.
Proof.
  unfold xz_pairs. rewrite for_each_bind. apply for_each_ext. intros x t _. by rewrite for_each_fmap.
Qed.

Lemma elem_xz_pairs p : p ∈ xz_pairs <-> 0 <= p.1 < 16 /\ 0 <= p.2 < 16.
Proof.
  destruct p as [x z]. cbn [fst snd]. unfold xz_pairs. rewrite list_elem_of_bind. split.
  - intros (a & H & Ha%elem_of_seqZ). apply list_elem_of_fmap in H as (b & [= -> ->] & Hb%elem_of_seqZ). lia.
  - intros [Hx Hz]. exists x. split; [|apply elem_of_seqZ; lia]. apply list_elem_of_fmap. exists z.
    split; [done|]. apply elem_of_seqZ. lia.
Qed.

Lemma seqZ_nth (k : bytes) : ((fun i => nth (Z.to_nat i) k 0) <$> seqZ 0 (size k)) = k.
Proof.
  apply list_eq. intros i. rewrite list_lookup_fmap. destruct (decide (Z.of_nat i < size k)) as [Hi|Hi].
  - rewrite (lookup_seqZ_lt 0 (size k) i) by done. cbn [fmap option_fmap option_map].
    rewrite Z.add_0_l, Nat2Z.id. unfold size in Hi. rewrite nth_lookup.
    destruct (lookup_lt_is_Some_2 k i ltac:(lia)) as [b ->]. done.
  - rewrite lookup_seqZ_ge by lia. symmetry. apply lookup_ge_None_2. unfold size in Hi. lia.
Qed.

Lemma xz_bytes k : size k = 256 -> (xz_pairs ≫= fun p => [nth (Z.to_nat (p.1 * 16 + p.2)) k 0]) = k.
Proof.
  intros Hk. transitivity ((fun i => nth (Z.to_nat i) k 0) <$> seqZ 0 256); [|by rewrite <-Hk; apply seqZ_nth].
  assert (seqZ 0 256 = (fun p : Z * Z => p.1 * 16 + p.2) <$> xz_pairs) as -> by (by vm_compute).
  generalize xz_pairs as l. intros l. induction l as [|p l IH]; [done|]. rewrite bind_cons.
  cbn [fmap list_fmap]. by rewrite <-IH.
Qed.

(** The blocks of one column. *)
Lemma set_column_preads s x z id :
  biome_ok s -> size (palette_ s) + 16 < 2 ^ 31 ->
  exists s', preads (for_each (seqZ 0 16) (fun y => on_object (setBiomeId x y z id))) [] s tt s' /\
    biome_ok s' /\ y_ s' = y_ s /\ proxy_ s' = false /\ size (palette_ s') <= size (palette_ s) + 16 /\
    (Forall (is_u 31) (palette_ s) -> is_u 31 id -> Forall (is_u 31) (palette_ s')) /\
    (forall y, 0 <= y < 16 -> biome_at s' (block_index x y z) = id) /\
    forall x' y z', x' mod 16 <> x mod 16 \/ z' mod 16 <> z mod 16 ->
      biome_at s' (block_index x' y z') = biome_at s (block_index x' y z').
Proof.
  intros Hs Hlt.
  set (J := fun (l : list Z) (t : BedrockBiomeSection) =>
    biome_ok t /\ y_ t = y_ s /\ (proxy_ t = false \/ l = seqZ 0 16) /\
    (size (palette_ t) + size l <= size (palette_ s) + 16) /\
    (Forall (is_u 31) (palette_ s) -> is_u 31 id -> Forall (is_u 31) (palette_ t)) /\
    (exists d, seqZ 0 16 = d ++ l /\ forall y, y ∈ d -> biome_at t (block_index x y z) = id) /\
    forall x' y z', x' mod 16 <> x mod 16 \/ z' mod 16 <> z mod 16 ->
      biome_at t (block_index x' y z') = biome_at s (block_index x' y z')).
  destruct (preads_for_each (fun _ => []) (fun y => on_object (setBiomeId x y z id)) J (seqZ 0 16) s)
    as (s' & E & Hok & Hy & Hp & Hsz & Hu & (d & Hd & Hin) & Hout).
  - intros y l t (Hok & Hy & _ & Hsz & Hu & (d & Hd & Hin) & Hout). rewrite size_cons in Hsz.
    pose proof (size_nonneg l).
    destruct (setBiomeId_ok t x y z id Hok ltac:(lia)) as (t' & E & Hok' & Hy' & Hp' & Hsz' & Hu' & Hat).
    exists t'. split; [by apply preads_object|]. split_and!; [done|congruence|by left|lia|auto| |].
    + exists (d ++ [y]). split; [by rewrite Hd, <-app_assoc|]. intros w Hw.
      rewrite Hat by apply index_range. destruct (Z.eqb_spec (block_index x w z) (block_index x y z)); [done|].
      apply elem_of_app in Hw as [Hw|Hw]; [by apply Hin|]. apply list_elem_of_singleton in Hw as ->. done.
    + intros x' w z' Hne. rewrite Hat by apply index_range.
      destruct (Z.eqb_spec (block_index x' w z') (block_index x y z)) as [Ei|]; [|by apply Hout].
      apply PalettedStorage.block_index_inj in Ei as (? & ? & ?). tauto.
  - split_and!; [done|done|by right|done|done| |done]. exists []. split; [done|].
    intros y Hy. by apply not_elem_of_nil in Hy.
  - exists s'. rewrite app_nil_r in Hd. split.
    { assert (forall l : list Z, (l ≫= fun _ => []) = ([] : bytes)) as En by (induction l; done).
      by rewrite En in E. }
    split_and!; [done|done|by destruct Hp|rewrite size_nil in Hsz; lia|done| |done].
    intros y Hy'. apply Hin. rewrite <-Hd. apply elem_of_seqZ. lia.
Qed.

Lemma readLegacy2D_preads k t :
  is_bytes k -> size k = 256 -> biome_ok t -> size (palette_ t) + 4096 < 2 ^ 31 ->
  exists s', preads readLegacy2D k t tt s' /\ biome_ok s' /\ y_ s' = y_ t /\ proxy_ s' = false /\
    size (palette_ s') <= size (palette_ t) + 4096 /\
    (Forall (is_u 31) (palette_ t) -> Forall (is_u 31) (palette_ s')) /\
    forall x y z, 0 <= x < 16 -> 0 <= y < 16 -> 0 <= z < 16 ->
      biome_at s' (block_index x y z) = nth (Z.to_nat (x * 16 + z)) k 0.
Proof.
  intros Hb Hk Ht Hlt. unfold readLegacy2D.
  set (enc := fun p : Z * Z => [nth (Z.to_nat (p.1 * 16 + p.2)) k 0]).
  set (body := fun p : Z * Z => let* biomeId := on_stream readU8 in
    for_each (seqZ 0 16) (fun y => on_object (setBiomeId p.1 y p.2 biomeId))).
  set (t0 := set_proxy false t).
  set (J := fun (l : list (Z * Z)) (u : BedrockBiomeSection) =>
    biome_ok u /\ y_ u = y_ t /\ proxy_ u = false /\
    size (palette_ u) + 16 * size l <= size (palette_ t) + 4096 /\
    (Forall (is_u 31) (palette_ t) -> Forall (is_u 31) (palette_ u)) /\
    exists d, xz_pairs = d ++ l /\ forall x y z, (x, z) ∈ d -> 0 <= y < 16 ->
      biome_at u (block_index x y z) = nth (Z.to_nat (x * 16 + z)) k 0).
  destruct (preads_for_each enc body J xz_pairs t0) as (s' & E & Hok & Hy & Hp & Hsz & Hu & d & Hd & Hin).
  - intros [x z] l u (Hok & Hy & Hp & Hsz & Hu & d & Hd & Hin). rewrite size_cons in Hsz.
    pose proof (size_nonneg l). set (b := nth (Z.to_nat (x * 16 + z)) k 0).
    destruct (set_column_preads u x z b Hok ltac:(lia)) as (u' & E & Hok' & Hy' & Hp' & Hsz' & Hu' & Hcol & Hout).
    exists u'. split; [|split_and!; [done|congruence|done|lia| |]].
    + unfold body, enc. cbn [fst snd]. fold b. rewrite <-(app_nil_r [b]).
      eapply preads_bind; [apply preads_stream, reads_U8|done].
    + intros HF. apply Hu'; [by apply Hu|]. unfold b.
      assert ((x, z) ∈ xz_pairs) as Hxz by (rewrite Hd; apply elem_of_app; right; by left).
      apply elem_xz_pairs in Hxz. cbn [fst snd] in Hxz. rewrite nth_lookup. unfold size in Hk.
      destruct (lookup_lt_is_Some_2 k (Z.to_nat (x * 16 + z)) ltac:(lia)) as [v Hv]. rewrite Hv. cbn [default].
      eapply is_u_weaken; [|by eapply (Forall_lookup_1 (is_u 8))]. done.
    + exists (d ++ [(x, z)]). split; [by rewrite Hd, <-app_assoc|]. intros x' y z' Hxz Hy0.
      assert ((x', z') ∈ xz_pairs) as Hr.
      { rewrite Hd. apply elem_of_app. apply elem_of_app in Hxz as [?|Hxz]; [by left|].
        apply list_elem_of_singleton in Hxz as ->. right. by left. }
      apply elem_xz_pairs in Hr. cbn [fst snd] in Hr.
      destruct (decide (x' = x /\ z' = z)) as [[-> ->]|Hne]; [by apply Hcol|].
      assert ((x, z) ∈ xz_pairs) as Hr2 by (rewrite Hd; apply elem_of_app; right; by left).
      apply elem_xz_pairs in Hr2. cbn [fst snd] in Hr2.
      rewrite Hout by (rewrite !Z.mod_small by lia; lia).
      apply elem_of_app in Hxz as [Hxz|Hxz]; [by apply Hin|].
      apply list_elem_of_singleton in Hxz as [= -> ->]. tauto.
  - split_and!; try done.
    + by destruct Ht; split.
    + exists []. split; [done|]. intros x y z Hxz. by apply not_elem_of_nil in Hxz.
  - exists s'. split_and!; [|done|done|done|change (size []) with 0 in Hsz; lia|done|].
    + eapply preads_bind0; [by apply preads_object|]. cbv beta. rewrite <-(xz_bytes k Hk).
      intros st r Hst Hbs Hr. rewrite xz_pairs_flat. exact (E st r Hst Hbs Hr).
    + rewrite app_nil_r in Hd. intros x y z Hx Hy0 Hz. apply Hin; [|done].
      rewrite <-Hd. by apply elem_xz_pairs.
Qed.

Lemma exportLegacy2D_appends s :
  biome_ok s -> oappends (exportLegacy2D s)
    (xz_pairs ≫= fun p => [to_u8 (biome_at s (block_index p.1 0 p.2))]) tt.
Proof.
  intros Hs st Hst. unfold exportLegacy2D. rewrite xz_pairs_flat. revert st Hst.
  apply oappends_for_each. intros [x z] _. cbn [fst snd]. intros st Hst.
  rewrite getBiomeId_ok by done. unfold lift. rewrite (bind_ok _ _ _ _ _ eq_refl). apply appends_U8.
Qed.

Lemma readLegacy2D_psafe y0 :
  psafe readLegacy2D (fun t => biome_wf t /\ y_ t = y0) (fun _ t => biome_wf t /\ y_ t = y0).
Proof.
  unfold readLegacy2D. set (P := fun t : BedrockBiomeSection => biome_wf t /\ y_ t = y0).
  eapply (psafe_bind _ _ _ (fun _ => P)); [by apply psafe_object|]. intros [].
  apply (psafe_for_each _ _ (fun _ => P)). intros x _. apply (psafe_for_each _ _ (fun _ => P)). intros z _.
  eapply (psafe_bind _ _ _ (fun _ => P)); [by apply (psafe_stream _ 1); [|apply steps_readU8|]|].
  intros b. apply (psafe_for_each _ _ (fun _ => P)). intros y _. apply psafe_object. intros t [Ht Hy].
  destruct (setBiomeId_wf t x y z b Ht) as (t' & E & ? & ?). unfold runs_safe. rewrite E. split; congruence || done.
Qed.

(** ** Properties *)

Lemma read_fresh s t :
  make (y_ s) = Ok t -> biome_ok t /\ biome_wf t /\ y_ t = y_ s.
Proof.
  intros E. destruct (make_biome_ok (y_ s)) as (u & Eu & Hu & Hy & _). rewrite Eu in E.
  injection E as <-. split_and!; [done|apply (bo_wf _ Hu)|done].
Qed.

(** A biome section that is exported for the network and read into a fresh
    section is a proxy again, or has the same biome in every block, and the
    reader stops where the section ends. *)
Theorem biome_roundtrip s t r :
  biome_ok s -> size (palette_ s) < 2 ^ 31 -> Forall (is_u 31) (palette_ s) ->
  make (y_ s) = Ok t -> is_bytes r ->
  exists st s' st', exportTo Runtime s empty_stream = (Ok tt, st) /\
    read Runtime (t, from_data (readableBuffer st ++ r)) = (Ok tt, (s', st')) /\ rest st' = r /\
    proxy s' = proxy s /\ y s' = y s /\
    (proxy s = false -> forall x y z, getBiomeId x y z s' = getBiomeId x y z s).
Proof.
  intros Hok Hlt Hu Et Hr. destruct (read_fresh s t Et) as (_ & Hwf & Hy).
  destruct (biome_read_preads s t Hok Hlt Hu Hwf) as (s' & E & (Hp & _ & Hsame) & Hy').
  exists (append (enc_biome s) empty_stream), s', (skip (size (enc_biome s)) (from_data (enc_biome s ++ r))).
  split; [by apply exportTo_appends|]. rewrite readable_append. cbn [readableBuffer empty_stream view_ data_ app].
  pose proof (enc_biome_bytes s Hok Hu) as Hb.
  split_and!; [|apply rest_after|done|by unfold y; congruence|].
  - apply (E (from_data (enc_biome s ++ r)) r); [by split; [|apply size_nonneg]| |done].
    by apply Forall_app.
  - intros Epr x y z. destruct (Hsame Epr) as (Hok' & _ & _ & Hat).
    rewrite !getBiomeId_ok by done. rewrite Hat by apply index_range. done.
Qed.

Definition biome_example : result BedrockBiomeSection :=
  let! s := make (-4) in exec (setBiomeId 1 2 3 77 ;;; setBiomeId 4 5 6 190) s.

Lemma biome_example_ok :
  exists s, biome_example = Ok s /\ biome_ok s /\ size (palette_ s) < 2 ^ 31 /\
    Forall (is_u 31) (palette_ s) /\ proxy_ s = false /\ y_ s = -4 /\ getBiomeId 4 5 6 s = Ok 190.
Proof.
  unfold biome_example. destruct (make_biome_ok (-4)) as (s0 & -> & H0 & Hy0 & _ & Hp & _). cbn [rbind].
  assert (Forall (is_u 31) (palette_ s0)) as Hu by (rewrite Hp; by constructor).
  destruct (setBiomeId_ok s0 1 2 3 77 H0) as (s1 & E1 & H1 & Hy1 & _ & Hs1 & Hu1 & _); [by rewrite Hp|].
  rewrite Hp in Hs1. change (size [0]) with 1 in Hs1.
  destruct (setBiomeId_ok s1 4 5 6 190 H1) as (s2 & E2 & H2 & Hy2 & Hpr & Hs2 & Hu2 & Hat); [lia|].
  exists s2. unfold exec. rewrite (bind_ok _ _ _ _ _ E1), E2.
  split_and!; [done|done|lia|by apply Hu2; [apply Hu1|]|done|congruence|].
  by rewrite getBiomeId_ok, Hat by (done || apply index_range).
Qed.

Lemma biome_roundtrip_witness :
  exists s t st s' st', biome_example = Ok s /\ make (-4) = Ok t /\
    exportTo Runtime s empty_stream = (Ok tt, st) /\
    read Runtime (t, from_data (readableBuffer st ++ [9])) = (Ok tt, (s', st')) /\ rest st' = [9] /\
    getBiomeId 4 5 6 s' = Ok 190.
Proof.
  destruct biome_example_ok as (s & Es & Hok & Hlt & Hu & Hpr & Hy & Hg).
  destruct (make_biome_ok (-4)) as (t & Et & _).
  destruct (biome_roundtrip s t [9] Hok Hlt Hu) as (st & s' & st' & E1 & E2 & E4 & _ & _ & E3);
    [rewrite Hy; exact Et|by repeat constructor|].
  exists s, t, st, s', st'. split; [exact Es|]. split; [exact Et|]. split; [exact E1|]. split; [exact E2|]. split; [exact E4|].
  rewrite (E3 Hpr). exact Hg.
Defined.

(** A section that is exported in a persistence format cannot be read back:
    the writer clears the runtime bit of the palette type and the reader
    requires it in every format. *)
Theorem biome_persistence_unreadable type s t :
  type <> Runtime -> biome_ok s -> size (palette_ s) < 2 ^ 31 -> proxy s = false ->
  exists st t' st', exportTo type s empty_stream = (Ok tt, st) /\
    read type (t, from_data (readableBuffer st)) =
      (Throw (BedrockChunkError "biome palette type must use runtime IDs"), (t', st')).
Proof.
  intros Hty Hok Hlt Hpr. set (bits := neededBits (to_u32 (size (palette_ s) - 1))).
  pose proof (neededBits_u32 (size (palette_ s) - 1)) as Hbits. fold bits in Hbits.
  assert (exists k, oappends (exportTo type s) ([bits * 2] ++ k) tt) as [k Hk].
  { unfold exportTo. unfold proxy in Hpr. rewrite Hpr. fold bits. rewrite (bool_decide_false (type = Runtime)) by done.
    assert (to_u8 (Z.lor (to_u32 (Z.shiftl bits 1)) 0) = bits * 2) as ->.
    { rewrite Z.lor_0_r, shiftl_mul by lia. change (2 ^ 1) with 2.
      rewrite to_u32_id by (unfold is_u; lia). apply to_u8_id. unfold is_u. lia. }
    assert (forall v, exists k, oappends (writeRuntimeBiomeId v) k tt) as Hid.
    { intros v. eexists. apply oappends_appends, appends_VarUInt. apply (to_u_range 32). lia. }
    enough (exists k, oappends (if bits =? 0 then
      let* biome := lift (if bool_decide (palette_ s = []) then Ok 0 else vec_at (palette_ s) 0) in
      if bool_decide (type = LocalPersistence) then writeI32LE (to_i32 biome) else writeRuntimeBiomeId biome
      else PalettedStorage.write (biomes_ s) ;;; writeU32LE (to_u32 (size (palette_ s))) ;;;
        for_each (palette_ s) writeU32LE) k tt) as [k Hk].
    { exists k. eapply oappends_bind; [apply oappends_appends, appends_U8|done]. }
    destruct (bits =? 0).
    - assert (exists b, (if bool_decide (palette_ s = []) then Ok 0 else vec_at (palette_ s) 0) = Ok b) as [b Hb].
      { case_bool_decide; [by exists 0|]. destruct (palette_ s) as [|b l]; [done|]. by exists b. }
      rewrite Hb. destruct (bool_decide (type = LocalPersistence)).
      + eexists. intros st Hst. exact (appends_U32LE (to_u32 (to_i32 b)) st).
      + destruct (Hid b) as [k' Hk']. exists k'. intros st Hst. exact (Hk' st Hst).
    - eexists. eapply oappends_bind; [apply PalettedStorage.write_appends|].
      eapply oappends_bind; [apply oappends_appends, appends_U32LE|].
      apply oappends_for_each. intros v _. apply oappends_appends, appends_U32LE. }
  exists (append ([bits * 2] ++ k) empty_stream). rewrite readable_append.
  cbn [readableBuffer empty_stream view_ data_ app].
  do 2 eexists. split; [by apply Hk|]. unfold read.
  unfold bind, on_object, on_stream, zoom, get_st, put_st. cbn [fst snd].
  destruct (fetch_some (from_data (bits * 2 :: k)) (bits * 2) k) as [-> _]; [by split; [|apply size_nonneg]|done|].
  rewrite (proj2 (Z.eqb_neq _ _)) by lia. rewrite land_1, Z_mod_mult. done.
Qed.

Lemma biome_persistence_unreadable_witness :
  exists s st t' st', biome_example = Ok s /\ exportTo LocalPersistence s empty_stream = (Ok tt, st) /\
    read LocalPersistence (s, from_data (readableBuffer st)) =
      (Throw (BedrockChunkError "biome palette type must use runtime IDs"), (t', st')).
Proof.
  destruct biome_example_ok as (s & Es & Hok & Hlt & _ & Hpr & _).
  destruct (biome_persistence_unreadable LocalPersistence s s) as (st & t' & st' & E1 & E2);
    [discriminate|exact Hok|exact Hlt|exact Hpr|].
  exists s, st, t', st'. split; [exact Es|]. split; [exact E1|exact E2].
Defined.

End BedrockBiomeSection.
