(* ===== verification/XxHash64.v ===== *)
(** * XXH64 (src/src/util/XxHash64.cpp)

    The content hash of cached chunk blobs.  [xxHash64] follows the pointer
    loops over the input; [xxh64] is the block-wise reference.  The input is a
    buffer, so that the branch for a null pointer does not arise. *)

From S2P Require Import Prelude MachineInt Endian.

Module XxHash64.

Definition Prime1 : Z := 11400714785074694791.
Definition Prime2 : Z := 14029467366897019727.
Definition Prime3 : Z := 1609587929392839161.
Definition Prime4 : Z := 9650029242287828579.
Definition Prime5 : Z := 2870177450012600261.

(** [memcpy] of a native little-endian word from [data + cursor]. *)
Definition readU32LE (data : bytes) (cursor : Z) : result Z :=
  let! k := vec_range data cursor (cursor + 4) in Ok (le_decode k).
Definition readU64LE (data : bytes) (cursor : Z) : result Z :=
  let! k := vec_range data cursor (cursor + 8) in Ok (le_decode k).

Definition round (accumulator input : Z) : Z :=
  let accumulator := to_u64 (accumulator + to_u64 (input * Prime2)) in
  let accumulator := rotl64 accumulator 31 in
  to_u64 (accumulator * Prime1).

Definition mergeRound (accumulator value : Z) : Z :=
  let accumulator := Z.lxor accumulator (round 0 value) in
  to_u64 (to_u64 (accumulator * Prime1) + Prime4).

(** [do { four rounds } while (cursor <= limit)]; [fuel] turns at most. *)
Fixpoint stripe_loop (fuel : nat) (data : bytes) (limit cursor v1 v2 v3 v4 : Z)
    : result (Z * (Z * Z * Z * Z)) :=
  match fuel with
  | O => Throw OutOfFuel
  | S fuel' =>
      let! w1 := readU64LE data cursor in
      let v1 := round v1 w1 in
      let cursor := cursor + 8 in
      let! w2 := readU64LE data cursor in
      let v2 := round v2 w2 in
      let cursor := cursor + 8 in
      let! w3 := readU64LE data cursor in
      let v3 := round v3 w3 in
      let cursor := cursor + 8 in
      let! w4 := readU64LE data cursor in
      let v4 := round v4 w4 in
      let cursor := cursor + 8 in
      if cursor <=? limit then stripe_loop fuel' data limit cursor v1 v2 v3 v4
      else Ok (cursor, (v1, v2, v3, v4))
  end.

(** [while (cursor + 8 <= end)] *)
Fixpoint lane_loop (fuel : nat) (data : bytes) (end_ cursor hash : Z) : result (Z * Z) :=
  if cursor + 8 <=? end_ then
    match fuel with
    | O => Throw OutOfFuel
    | S fuel' =>
        let! w := readU64LE data cursor in
        let lane := round 0 w in
        let hash := Z.lxor hash lane in
        let hash := to_u64 (to_u64 (rotl64 hash 27 * Prime1) + Prime4) in
        lane_loop fuel' data end_ (cursor + 8) hash
    end
  else Ok (cursor, hash).

(** [while (cursor < end)] *)
Fixpoint byte_loop (fuel : nat) (data : bytes) (end_ cursor hash : Z) : result Z :=
  if cursor <? end_ then
    match fuel with
    | O => Throw OutOfFuel
    | S fuel' =>
        let! b := vec_at data cursor in
        let hash := Z.lxor hash (to_u64 (b * Prime5)) in
        let hash := to_u64 (rotl64 hash 11 * Prime1) in
        byte_loop fuel' data end_ (cursor + 1) hash
    end
  else Ok hash.

(** The final mix. *)
Definition avalanche (hash : Z) : Z :=
  let hash := Z.lxor hash (Z.shiftr hash 33) in
  let hash := to_u64 (hash * Prime2) in
  let hash := Z.lxor hash (Z.shiftr hash 29) in
  let hash := to_u64 (hash * Prime3) in
  Z.lxor hash (Z.shiftr hash 32).

Definition xxHash64 (data : bytes) (seed : Z) : result Z :=
  let end_ := size data in
  let! (cursor, hash) := (
    if end_ >=? 32 then
      let v1 := to_u64 (to_u64 (seed + Prime1) + Prime2) in
      let v2 := to_u64 (seed + Prime2) in
      let v3 := seed in
      let v4 := to_u64 (seed - Prime1) in
      let! (cursor, (v1, v2, v3, v4)) := stripe_loop (length data) data (end_ - 32) 0 v1 v2 v3 v4 in
      let hash := to_u64 (to_u64 (to_u64 (rotl64 v1 1 + rotl64 v2 7) + rotl64 v3 12) + rotl64 v4 18) in
      let hash := mergeRound hash v1 in
      let hash := mergeRound hash v2 in
      let hash := mergeRound hash v3 in
      let hash := mergeRound hash v4 in
      Ok (cursor, hash)
    else Ok (0, to_u64 (seed + Prime5))) in
  let hash := to_u64 (hash + to_u64 end_) in
  let! (cursor, hash) := lane_loop (length data) data end_ cursor hash in
  let! (cursor, hash) := (
    if cursor + 4 <=? end_ then
      let! w := readU32LE data cursor in
      let hash := Z.lxor hash (to_u64 (w * Prime1)) in
      Ok (cursor + 4, to_u64 (to_u64 (rotl64 hash 23 * Prime2) + Prime3))
    else Ok (cursor, hash)) in
  let! hash := byte_loop (length data) data end_ cursor hash in
  Ok (avalanche hash).

Example xxh_empty : xxHash64 [] 0 = Ok 0xEF46DB3751D8E999.
Proof. by vm_compute. Qed.
Example xxh_abc : xxHash64 (bytes_of_string "abc") 0 = Ok 0x44BC2CF5AD770999.
Proof. by vm_compute. Qed.
Example xxh_39 : xxHash64 (bytes_of_string "Nobody inspects the spammish repetition") 0 = Ok 0xFBCEA83C8A378BF1.
Proof. by vm_compute. Qed.

(** ** The reference *)

(** The first [n] blocks of [k] bytes. *)
Fixpoint chunks (n k : nat) (l : bytes) : list bytes :=
  match n with O => [] | S n' => take k l :: chunks n' k (drop k l) end.

Definition word (i : nat) (block : bytes) : Z := le_decode (take 8 (drop (8 * i) block)).

Definition stripe (v : Z * Z * Z * Z) (block : bytes) : Z * Z * Z * Z :=
  match v with
  | (v1, v2, v3, v4) =>
      (round v1 (word 0 block), round v2 (word 1 block), round v3 (word 2 block), round v4 (word 3 block))
  end.

Definition lane (hash : Z) (block : bytes) : Z :=
  to_u64 (to_u64 (rotl64 (Z.lxor hash (round 0 (le_decode block))) 27 * Prime1) + Prime4).

Definition half_lane (hash : Z) (block : bytes) : Z :=
  to_u64 (to_u64 (rotl64 (Z.lxor hash (to_u64 (le_decode block * Prime1))) 23 * Prime2) + Prime3).

Definition tail_byte (hash b : Z) : Z :=
  to_u64 (rotl64 (Z.lxor hash (to_u64 (b * Prime5))) 11 * Prime1).

Definition converge (v : Z * Z * Z * Z) : Z :=
  match v with
  | (v1, v2, v3, v4) =>
      foldl mergeRound
        (to_u64 (to_u64 (to_u64 (rotl64 v1 1 + rotl64 v2 7) + rotl64 v3 12) + rotl64 v4 18))
        [v1; v2; v3; v4]
  end.

Definition start (seed : Z) : Z * Z * Z * Z :=
  (to_u64 (to_u64 (seed + Prime1) + Prime2), to_u64 (seed + Prime2), seed, to_u64 (seed - Prime1)).

(** Stripes of 32 bytes, then lanes of 8, a half lane of 4, and single bytes. *)
Definition xxh64 (data : bytes) (seed : Z) : Z :=
  let stripes := (length data / 32)%nat in
  let hash := if (stripes =? 0)%nat then to_u64 (seed + Prime5)
              else converge (foldl stripe (start seed) (chunks stripes 32 data)) in
  let hash := to_u64 (hash + to_u64 (size data)) in
  let r := drop (32 * stripes) data in
  let lanes := (length r / 8)%nat in
  let hash := foldl lane hash (chunks lanes 8 r) in
  let r := drop (8 * lanes) r in
  let halves := (length r / 4)%nat in
  let hash := foldl half_lane hash (chunks halves 4 r) in
  avalanche (foldl tail_byte hash (drop (4 * halves) r)).

Lemma readU64LE_ok data c :
  0 <= c -> c + 8 <= size data -> readU64LE data c = Ok (le_decode (take 8 (drop (Z.to_nat c) data))).
Proof.
  intros. unfold readU64LE. rewrite vec_range_ok by lia. cbn [rbind]. by replace (c + 8 - c) with 8 by lia.
Qed.

Lemma word_ok data c i :
  0 <= c -> c + 8 * Z.of_nat i + 8 <= size data -> (i < 4)%nat ->
  readU64LE data (c + 8 * Z.of_nat i) = Ok (word i (take 32 (drop (Z.to_nat c) data))).
Proof.
  intros Hc Hs Hi. rewrite readU64LE_ok by lia. unfold word. do 2 f_equal.
  replace (Z.to_nat (c + 8 * Z.of_nat i)) with (Z.to_nat c + 8 * i)%nat by lia.
  rewrite <-drop_drop. generalize (drop (Z.to_nat c) data) as l. intros l.
  rewrite !take_drop_commute, take_take. by rewrite Nat.min_l by lia.
Qed.

Lemma stripe_loop_ok data : forall n fuel c v,
  0 <= c -> (n < fuel)%nat -> 32 * Z.of_nat (S n) <= size data - c < 32 * Z.of_nat (S n) + 32 ->
  (let '(v1, v2, v3, v4) := v in stripe_loop fuel data (size data - 32) c v1 v2 v3 v4) =
  Ok (c + 32 * Z.of_nat (S n), foldl stripe v (chunks (S n) 32 (drop (Z.to_nat c) data))).
Proof.
  induction n as [|n IH]; intros [|fuel] c [[[v1 v2] v3] v4] Hc Hf Hs; try lia; cbn [stripe_loop].
  all: replace (readU64LE data c) with (readU64LE data (c + 8 * Z.of_nat 0)) by (f_equal; lia).
  all: replace (c + 8 + 8 + 8) with (c + 8 * Z.of_nat 3) by lia.
  all: replace (c + 8 + 8) with (c + 8 * Z.of_nat 2) by lia.
  all: replace (readU64LE data (c + 8)) with (readU64LE data (c + 8 * Z.of_nat 1)) by (f_equal; lia).
  all: rewrite !word_ok by lia; cbn [rbind].
  - rewrite (proj2 (Z.leb_gt _ _)) by lia. do 2 f_equal. lia.
  - rewrite (proj2 (Z.leb_le _ _)) by lia.
    rewrite (IH fuel (c + 8 * Z.of_nat 3 + 8) (_, _, _, _)) by lia.
    f_equal. f_equal; [lia|]. cbn [chunks foldl].
    replace (Z.to_nat (c + 8 * Z.of_nat 3 + 8)) with (Z.to_nat c + 32)%nat by lia. by rewrite <-!drop_drop.
Qed.

Lemma lane_loop_ok data : forall n fuel c h,
  0 <= c -> (n <= fuel)%nat -> 8 * Z.of_nat n <= size data - c < 8 * Z.of_nat n + 8 ->
  lane_loop fuel data (size data) c h =
  Ok (c + 8 * Z.of_nat n, foldl lane h (chunks n 8 (drop (Z.to_nat c) data))).
Proof.
  induction n as [|n IH]; intros [|fuel] c h Hc Hf Hs; try lia; cbn [lane_loop].
  1, 2: rewrite (proj2 (Z.leb_gt _ _)) by lia; do 2 f_equal; lia.
  rewrite (proj2 (Z.leb_le _ _)), readU64LE_ok by lia. cbn [rbind].
  rewrite IH by lia. f_equal. f_equal; [lia|]. cbn [chunks foldl].
  replace (Z.to_nat (c + 8)) with (Z.to_nat c + 8)%nat by lia. by rewrite <-!drop_drop.
Qed.

Lemma byte_loop_ok data : forall n fuel c h,
  0 <= c -> (n <= fuel)%nat -> size data - c = Z.of_nat n ->
  byte_loop fuel data (size data) c h = Ok (foldl tail_byte h (drop (Z.to_nat c) data)).
Proof.
  induction n as [|n IH]; intros [|fuel] c h Hc Hf Hs; try lia; cbn [byte_loop].
  1, 2: rewrite (proj2 (Z.ltb_ge _ _)) by lia; rewrite drop_ge by (unfold size in Hs; lia); done.
  rewrite (proj2 (Z.ltb_lt _ _)) by lia. destruct (vec_at_ok data c ltac:(lia)) as (b & -> & Hb).
  cbn [rbind]. rewrite IH by lia. rewrite (drop_S _ _ _ Hb). cbn [foldl].
  by replace (Z.to_nat (c + 1)) with (S (Z.to_nat c)) by lia.
Qed.

(** C37: XXH64 of any input is the block-wise reference: the pointer loops never
    read outside the buffer and always end. *)
Theorem xxHash64_reference data seed : xxHash64 data seed = Ok (xxh64 data seed).
Proof.
  unfold xxHash64, xxh64. set (n := (length data / 32)%nat).
  assert (size data = Z.of_nat (length data)) as Hsz by done.
  pose proof (Nat.div_mod_eq (length data) 32) as Hd.
  pose proof (Nat.mod_upper_bound (length data) 32 ltac:(lia)) as Hm. fold n in Hd.
  match goal with |- rbind ?m _ = _ => assert (m = Ok (32 * Z.of_nat n,
    if (n =? 0)%nat then to_u64 (seed + Prime5) else converge (foldl stripe (start seed) (chunks n 32 data)))) as -> end.
  { destruct n as [|n'] eqn:En.
    - rewrite Z.geb_leb, (proj2 (Z.leb_gt _ _)) by lia. done.
    - rewrite Z.geb_leb, (proj2 (Z.leb_le _ _)) by lia. cbn [Nat.eqb].
      pose proof (stripe_loop_ok data n' (length data) 0 (start seed) ltac:(lia) ltac:(lia) ltac:(lia)) as Hst.
      unfold start at 1 in Hst. rewrite Hst. cbn [rbind]. change (drop (Z.to_nat 0) data) with data.
      generalize (foldl stripe (start seed) (chunks (S n') 32 data)) as v. intros [[[w1 w2] w3] w4]. rewrite Z.add_0_l. unfold converge. cbn [foldl]. reflexivity. }
  cbn [rbind]. set (h0 := to_u64 (_ + to_u64 (size data))).
  set (r := drop (32 * n) data). assert (length r = length data - 32 * n)%nat as Hr by apply length_drop.
  pose proof (Nat.div_mod_eq (length r) 8) as Hd8. pose proof (Nat.mod_upper_bound (length r) 8 ltac:(lia)) as Hm8.
  set (m := (length r / 8)%nat) in *.
  rewrite (lane_loop_ok data m) by lia. cbn [rbind].
  replace (Z.to_nat (32 * Z.of_nat n)) with (32 * n)%nat by lia. fold r.
  set (h1 := foldl lane h0 _). set (r' := drop (8 * m) r).
  assert (length r' = length r - 8 * m)%nat as Hr' by apply length_drop.
  set (c := 32 * Z.of_nat n + 8 * Z.of_nat m).
  assert (r' = drop (Z.to_nat c) data) as Er' by (unfold r', r, c; rewrite drop_drop; f_equal; lia).
  pose proof (Nat.div_mod_eq (length r') 4) as Hd4. pose proof (Nat.mod_upper_bound (length r') 4 ltac:(lia)) as Hm4.
  set (k := (length r' / 4)%nat) in *.
  assert (k = 0 \/ k = 1)%nat as Hk by lia.
  match goal with |- rbind ?q _ = _ => assert (q = Ok (c + 4 * Z.of_nat k, foldl half_lane h1 (chunks k 4 r'))) as -> end.
  { destruct Hk as [-> | ->].
    - rewrite (proj2 (Z.leb_gt _ _)) by lia. do 2 f_equal. lia.
    - rewrite (proj2 (Z.leb_le _ _)) by lia. unfold readU32LE. rewrite vec_range_ok by lia.
      cbn [rbind chunks foldl]. rewrite Er'. by replace (c + 4 - c) with 4 by lia. }
  cbn [rbind]. rewrite (byte_loop_ok data (length data - Z.to_nat (c + 4 * Z.of_nat k))) by lia.
  cbn [rbind]. do 2 f_equal. rewrite Er', drop_drop. do 2 f_equal. lia.
Qed.

End XxHash64.
