(* ===== verification/WorldIterators.v ===== *)
(** * World iterators (src/src/world/WorldIterators.cpp)

    The walks over block positions around a start: [ManhattanIterator],
    [OctahedronIterator], [SpiralIterator2d].  A position is its offset from the
    start, in blocks; adding it to the start, in floating point, is left out,
    and [maxDistance] is the floor of the parameter: a whole number is beyond
    the one exactly if it is beyond the other.  [RaycastIterator], which
    computes in floating point, is left out.  The 64-bit counters are integers:
    a walk would have to go on for years to reach their limit. *)

From S2P Require Import Prelude.

(** ** Iterators *)

(** The values that an iterator returns from a state on, and where it is then. *)
Section Emits.
Context {S A : Type} (next : S -> option A * S).

Inductive emits : S -> list A -> S -> Prop :=
| emits_nil s : emits s [] s
| emits_cons s a s1 l s' : next s = (Some a, s1) -> emits s1 l s' -> emits s (a :: l) s'.

Lemma emits_one s a s' : next s = (Some a, s') -> emits s [a] s'.
Proof. intros H. by eapply emits_cons; [|constructor]. Qed.

Lemma emits_app s l s1 l' s' : emits s l s1 -> emits s1 l' s' -> emits s (l ++ l') s'.
Proof. induction 1; intros H2; [done|]. cbn. by eapply emits_cons; [|apply IHemits]. Qed.

(** A walk of [n] steps along which a state is known. *)
Lemma emits_walk (st : Z -> S) (out : Z -> A) n : 0 <= n -> (forall i, 1 <= i <= n -> next (st (i - 1)) = (Some (out i), st i)) ->
  emits (st 0) (out <$> seqZ 1 n) (st n).
Proof.
  intros Hn. revert n Hn. refine (natlike_ind _ _ _); [intros _; constructor|]. intros n Hn IH Hs.
  rewrite <-Z.add_1_r, (seqZ_app 1 n 1), fmap_app by lia. eapply emits_app; [apply IH; intros i Hi; apply Hs; lia|].
  rewrite (seqZ_cons (1 + n) 1) by lia. change (Z.pred 1) with 0. cbn. apply emits_one.
  specialize (Hs (1 + n) ltac:(lia)). replace (1 + n - 1) with n in Hs by lia. by replace (n + 1) with (1 + n) by lia.
Qed.

Lemma emits_along (st : Z -> S) (out : Z -> A) n s s' : s = st 0 -> s' = st n -> 0 <= n ->
  (forall i, 1 <= i <= n -> next (st (i - 1)) = (Some (out i), st i)) -> emits s (out <$> seqZ 1 n) s'.
Proof. intros -> ->. apply emits_walk. Qed.

(** Laps, each of which ends where the next one begins. *)
Lemma emits_laps (st : Z -> S) (lap : Z -> list A) n : 0 <= n ->
  (forall k, 1 <= k <= n -> emits (st k) (lap k) (st (k + 1))) -> emits (st 1) (concat (lap <$> seqZ 1 n)) (st (n + 1)).
Proof.
  intros Hn. revert n Hn. refine (natlike_ind _ _ _); [intros _; constructor|]. intros n Hn IH Hs.
  rewrite <-Z.add_1_r, (seqZ_app 1 n 1), fmap_app, concat_app by lia. eapply emits_app; [apply IH; intros k Hk; apply Hs; lia|].
  rewrite (seqZ_cons (1 + n) 1) by lia. change (Z.pred 1) with 0. cbn. rewrite app_nil_r.
  replace (n + 1) with (1 + n) by lia. apply Hs. lia.
Qed.

(** Laps, behind each of which the iterator goes on as from the start of the
    next one. *)
Lemma emits_resume s l s1 s2 l' s' : emits s l s1 -> next s1 = next s2 -> l' <> [] -> emits s2 l' s' -> emits s (l ++ l') s'.
Proof.
  intros H1 Hn Hne H2. eapply emits_app; [exact H1|]. destruct H2 as [s2|s2 a s3 l' s' Ha H2]; [done|]. eapply emits_cons; [|exact H2]. by rewrite Hn.
Qed.

Lemma emits_rounds (st en : Z -> S) (lap : Z -> list A) n : 0 <= n ->
  (forall k, 1 <= k <= n + 1 -> lap k <> [] /\ emits (st k) (lap k) (en k)) -> (forall k, 1 <= k <= n -> next (en k) = next (st (k + 1))) ->
  emits (st 1) (concat (lap <$> seqZ 1 (n + 1))) (en (n + 1)).
Proof.
  intros Hn. revert n Hn. refine (natlike_ind _ _ _).
  - intros Hl _. change (0 + 1) with 1 at 1. rewrite (seqZ_cons 1 1) by lia. change (Z.pred 1) with 0. cbn. rewrite app_nil_r. apply Hl. lia.
  - intros n Hn IH Hl Hg. rewrite <-Z.add_1_r, (seqZ_app 1 (n + 1) 1), fmap_app, concat_app by lia.
    rewrite (seqZ_cons (1 + (n + 1)) 1) by lia. change (Z.pred 1) with 0. cbn. rewrite app_nil_r.
    replace (1 + (n + 1)) with (n + 1 + 1) by lia.
    eapply emits_resume; [apply IH; [intros k Hk; apply Hl; lia|intros k Hk; apply Hg; lia]|apply (Hg (n + 1)); lia|apply Hl; lia|apply Hl; lia].
Qed.
End Emits.

Lemma elem_rounds {A} (lap : Z -> list A) n p : p ∈ concat (lap <$> seqZ 1 n) <-> exists k, 1 <= k <= n /\ p ∈ lap k.
Proof.
  rewrite list_elem_of_In, in_concat. setoid_rewrite <-list_elem_of_In. setoid_rewrite list_elem_of_fmap. setoid_rewrite elem_of_seqZ. split.
  - intros (l & (k & -> & Hk) & Hp). exists k. split; [lia|done].
  - intros (k & Hk & Hp). exists (lap k). split; [|done]. exists k. split; [done|lia].
Qed.

(** Laps over different levels have no position in common. *)
Lemma concat_levels {A} (level : A -> Z) (lap : Z -> list A) n : 0 <= n ->
  (forall k, 1 <= k <= n -> base.NoDup (lap k) /\ forall p, p ∈ lap k <-> level p = k) ->
  base.NoDup (concat (lap <$> seqZ 1 n)) /\ forall p, p ∈ concat (lap <$> seqZ 1 n) <-> 1 <= level p <= n.
Proof.
  intros Hn. revert n Hn. refine (natlike_ind _ _ _).
  - intros _. split; [constructor|]. intros p. cbn. rewrite elem_of_nil. lia.
  - intros n Hn IH Hl. destruct IH as [IH1 IH2]; [intros k Hk; apply Hl; lia|]. destruct (Hl (n + 1) ltac:(lia)) as [H1 H2].
    rewrite <-Z.add_1_r, (seqZ_app 1 n 1), fmap_app, concat_app by lia.
    rewrite (seqZ_cons (1 + n) 1) by lia. change (Z.pred 1) with 0. replace (1 + n) with (n + 1) by lia. cbn. rewrite app_nil_r. split.
    + apply list.NoDup_app. split_and!; [done| |done]. intros p Hp. rewrite H2. apply IH2 in Hp. lia.
    + intros p. rewrite elem_of_app, IH2, H2. lia.
Qed.

Module ManhattanIterator.

Record iterator := mkIterator { x_ : Z; z_ : Z; layer_ : Z; leg_ : Z }.

Definition start : iterator := mkIterator 2 (-1) 1 (-1).

(** It can be called again after it has returned nothing. *)
Definition next (maxDistance_ : Z) (s : iterator) : option (Z * Z) * iterator :=
  if leg_ s =? -1 then (Some (0, 0), mkIterator (x_ s) (z_ s) (layer_ s) 0)
  else if leg_ s =? 0 then
    if maxDistance_ <=? 1 then (None, s)
    else
      let x := x_ s - 1 in let z := z_ s + 1 in
      (Some (x, z), mkIterator x z (layer_ s) (if x =? 0 then 1 else 0))
  else if leg_ s =? 1 then
    let x := x_ s - 1 in let z := z_ s - 1 in
    (Some (x, z), mkIterator x z (layer_ s) (if z =? 0 then 2 else 1))
  else if leg_ s =? 2 then
    let x := x_ s + 1 in let z := z_ s - 1 in
    (Some (x, z), mkIterator x z (layer_ s) (if x =? 0 then 3 else 2))
  else if leg_ s =? 3 then
    let x := x_ s + 1 in let z := z_ s + 1 in
    if z =? 0 then
      let x := x + 1 in let layer := layer_ s + 1 in
      (if layer =? maxDistance_ then None else Some (x, z), mkIterator x z layer 0)
    else (Some (x, z), mkIterator x z (layer_ s) 3)
  else (Some (x_ s, z_ s), s).

End ManhattanIterator.

(** ** Diamonds *)

Section Manhattan.
Import ManhattanIterator.
Context (maxDistance_ : Z) (Hd : 2 <= maxDistance_).
Abbreviation next_ := (next maxDistance_).

(** Four legs of a diamond, behind its first position. *)
Definition legs (k : Z) : list (Z * Z) :=
  ((fun i => (k - i, i)) <$> seqZ 1 k) ++ ((fun i => (- i, k - i)) <$> seqZ 1 k) ++
  ((fun i => (i - k, - i)) <$> seqZ 1 k) ++ ((fun i => (i, i - k)) <$> seqZ 1 (k - 1)).
Definition diamond (k : Z) : list (Z * Z) := (k, 0) :: legs k.

Definition at_layer (k : Z) : iterator := mkIterator k 0 k 0.

(** Decides the comparisons of a step. *)
Ltac decide_step :=
  unfold next; cbn [x_ z_ layer_ leg_];
  repeat match goal with
  | |- context [?a =? ?b] => destruct (Z.eqb_spec a b); try lia; cbn [x_ z_ layer_ leg_]
  | |- context [?a <=? ?b] => destruct (Z.leb_spec a b); try lia; cbn [x_ z_ layer_ leg_]
  end; repeat match goal with |- @eq Z _ _ => lia | |- _ => f_equal end.

Lemma emits_legs k : 1 <= k -> emits next_ (at_layer k) (legs k) (mkIterator (k - 1) (-1) k 3).
Proof.
  intros Hk. unfold legs.
  apply (emits_app _ _ _ (mkIterator 0 k k 1)); [|apply (emits_app _ _ _ (mkIterator (- k) 0 k 2)); [|apply (emits_app _ _ _ (mkIterator 0 (- k) k 3))]].
  - apply (emits_along _ (fun i => mkIterator (k - i) i k (if k - i =? 0 then 1 else 0))); [unfold at_layer; decide_step|decide_step|lia|].
    intros i Hi. destruct (Z.eqb_spec (k - (i - 1)) 0); [lia|]. decide_step.
  - apply (emits_along _ (fun i => mkIterator (- i) (k - i) k (if k - i =? 0 then 2 else 1))); [decide_step|decide_step|lia|].
    intros i Hi. destruct (Z.eqb_spec (k - (i - 1)) 0); [lia|]. decide_step.
  - apply (emits_along _ (fun i => mkIterator (i - k) (- i) k (if i - k =? 0 then 3 else 2))); [decide_step|decide_step|lia|].
    intros i Hi. destruct (Z.eqb_spec (i - 1 - k) 0); [lia|]. decide_step.
  - apply (emits_along _ (fun i => mkIterator i (i - k) k 3)); [decide_step|decide_step|lia|]. intros i Hi. decide_step.
Qed.

(** Behind a diamond comes the first position of the next one, or the end. *)
Lemma next_layer k : 1 <= k -> next_ (mkIterator (k - 1) (-1) k 3) =
  (if k + 1 =? maxDistance_ then None else Some (k + 1, 0), at_layer (k + 1)).
Proof. intros Hk. unfold at_layer. decide_step. Qed.

Lemma emits_diamond k : 1 <= k < maxDistance_ - 1 -> emits next_ (at_layer k) (legs k ++ [(k + 1, 0)]) (at_layer (k + 1)).
Proof.
  intros Hk. eapply emits_app; [apply emits_legs; lia|]. apply emits_one. rewrite next_layer by lia.
  by destruct (Z.eqb_spec (k + 1) maxDistance_); [lia|].
Qed.

Lemma shift_first n : 0 <= n -> (1, 0) :: concat ((fun k => legs k ++ [(k + 1, 0)]) <$> seqZ 1 n) = concat (diamond <$> seqZ 1 n) ++ [(n + 1, 0)].
Proof.
  revert n. refine (natlike_ind _ _ _); [done|]. intros n Hn IH. rewrite <-Z.add_1_r, (seqZ_app 1 n 1), !fmap_app, !concat_app by lia.
  rewrite (seqZ_cons (1 + n) 1) by lia. change (Z.pred 1) with 0. cbn. rewrite !app_nil_r. change ((1, 0) :: ?l ++ ?r) with (((1, 0) :: l) ++ r).
  rewrite IH, <-!app_assoc. cbn. unfold diamond. cbn. replace (n + 1) with (1 + n) by lia. by replace (1 + n + 1) with (1 + (1 + n)) by lia.
Qed.

Lemma elem_legs k x z : 1 <= k -> (x, z) ∈ diamond k <-> Z.abs x + Z.abs z = k.
Proof.
  intros Hk. unfold diamond, legs. rewrite elem_of_cons, !elem_of_app, !list_elem_of_fmap. setoid_rewrite elem_of_seqZ. split.
  - intros [[= -> ->]|[(i & [= -> ->] & Hi)|[(i & [= -> ->] & Hi)|[(i & [= -> ->] & Hi)|(i & [= -> ->] & Hi)]]]]; lia.
  - intros H. destruct (decide (z = 0 /\ 0 < x)) as [[-> Hx]|Hz]; [left; f_equal; lia|]. right.
    destruct (decide (0 <= x /\ 0 < z)); [left; exists z; split; [f_equal; lia|lia]|right].
    destruct (decide (x < 0 /\ 0 <= z)); [left; exists (- x); split; [f_equal; lia|lia]|right].
    destruct (decide (x <= 0 /\ z < 0)); [left; exists (- z); split; [f_equal; lia|lia]|right]. exists x. split; [f_equal; lia|lia].
Qed.

Lemma nodup_walk (out : Z -> Z * Z) n : (forall i j, out i = out j -> i = j) -> base.NoDup (out <$> seqZ 1 n).
Proof. intros H. apply NoDup_fmap_2; [exact H|apply NoDup_seqZ]. Qed.

Lemma nodup_diamond k : 1 <= k -> base.NoDup (diamond k).
Proof.
  intros Hk. unfold diamond, legs. rewrite list.NoDup_cons, !list.NoDup_app, !elem_of_app, !list_elem_of_fmap.
  split_and!; [|apply nodup_walk; intros i j [=]; lia| |apply nodup_walk; intros i j [=]; lia| |apply nodup_walk; intros i j [=]; lia| |apply nodup_walk; intros i j [=]; lia].
  - setoid_rewrite elem_of_seqZ. intros [(i & [= ? ?] & Hi)|[(i & [= ? ?] & Hi)|[(i & [= ? ?] & Hi)|(i & [= ? ?] & Hi)]]]; lia.
  - intros p. rewrite !elem_of_app, !list_elem_of_fmap. setoid_rewrite elem_of_seqZ. intros (i & -> & Hi) [(j & [= ? ?] & Hj)|[(j & [= ? ?] & Hj)|(j & [= ? ?] & Hj)]]; lia.
  - intros p. rewrite !elem_of_app, !list_elem_of_fmap. setoid_rewrite elem_of_seqZ. intros (i & -> & Hi) [(j & [= ? ?] & Hj)|(j & [= ? ?] & Hj)]; lia.
  - intros p. rewrite !list_elem_of_fmap. setoid_rewrite elem_of_seqZ. intros (i & -> & Hi) (j & [= ? ?] & Hj); lia.
Qed.

Lemma manhattan_diamond : exists l s, emits next_ start l s /\ fst (next_ s) = None /\ base.NoDup l /\
  forall x z, (x, z) ∈ l <-> Z.abs x + Z.abs z < maxDistance_.
Proof.
  set (n := maxDistance_ - 1). exists ((0, 0) :: concat (diamond <$> seqZ 1 n)), (mkIterator (n - 1) (-1) n 3).
  destruct (concat_levels (fun p => Z.abs p.1 + Z.abs p.2) diamond n ltac:(lia)) as [H1 H2].
  { intros k Hk. split; [apply nodup_diamond; lia|]. intros [x z]. apply elem_legs. lia. }
  split_and!.
  - replace (concat (diamond <$> seqZ 1 n)) with (((1, 0) :: concat ((fun k => legs k ++ [(k + 1, 0)]) <$> seqZ 1 (n - 1))) ++ legs n).
    + cbn [app]. eapply emits_cons; [done|]. eapply emits_cons; [|eapply emits_app; [apply (emits_laps next_ at_layer); [lia|]|]].
      * unfold at_layer, start. decide_step.
      * intros k Hk. apply emits_diamond. lia.
      * replace (n - 1 + 1) with n by lia. apply emits_legs. lia.
    + rewrite shift_first by lia. replace n with (n - 1 + 1) at 4 by lia. rewrite (seqZ_app 1 (n - 1) 1), fmap_app, concat_app by lia.
      rewrite (seqZ_cons (1 + (n - 1)) 1) by lia. change (Z.pred 1) with 0. cbn. rewrite app_nil_r, <-app_assoc.
      by replace (1 + (n - 1)) with n by lia; replace (n - 1 + 1) with n by lia.
  - rewrite next_layer by lia. by destruct (Z.eqb_spec (n + 1) maxDistance_); [|lia].
  - apply list.NoDup_cons. split; [|done]. rewrite H2. cbn. lia.
  - intros x z. rewrite elem_of_cons, H2. cbn. split; [intros [[= -> ->]|H]; lia|]. intros H.
    destruct (decide (x = 0 /\ z = 0)) as [[-> ->]|Hne]; [by left|right; lia].
Qed.
End Manhattan.

(** A Manhattan iterator comes to an end, and has then returned every
    position whose distance from the start, in steps, is below [maxDistance],
    each exactly once; the start is always returned. *)
Theorem manhattan_positions maxDistance_ : exists l s, emits (ManhattanIterator.next maxDistance_) ManhattanIterator.start l s /\
  fst (ManhattanIterator.next maxDistance_ s) = None /\ base.NoDup l /\
  forall x z, (x, z) ∈ l <-> Z.abs x + Z.abs z < Z.max 1 maxDistance_.
Proof.
  destruct (decide (2 <= maxDistance_)) as [Hd|Hd].
  - destruct (manhattan_diamond maxDistance_ Hd) as (l & s & H1 & H2 & H3 & H4). exists l, s. split_and!; [done..|].
    intros x z. rewrite H4. lia.
  - exists [(0, 0)], (ManhattanIterator.mkIterator 2 (-1) 1 0). split_and!; [by apply emits_one| |apply NoDup_singleton|].
    + unfold ManhattanIterator.next. cbn. by destruct (Z.leb_spec maxDistance_ 1); [|lia].
    + intros x z. rewrite list_elem_of_singleton. split; [intros [= -> ->]; lia|]. intros H. f_equal; lia.
Qed.

Module SpiralIterator2d.

Record iterator := mkIterator { di_ : Z; dj_ : Z; segmentLength_ : Z; i_ : Z; j_ : Z; segmentPassed_ : Z; iteration_ : Z }.

Definition start : iterator := mkIterator 1 0 1 0 0 0 0.

(** The side is twice the distance less one, squared. *)
Definition numberOfPoints (maxDistance : Z) : Z := (2 * maxDistance - 1) * (2 * maxDistance - 1).

Definition next (numberOfPoints_ : Z) (s : iterator) : option (Z * Z) * iterator :=
  if iteration_ s >=? numberOfPoints_ then (None, s)
  else
    let i := i_ s + di_ s in let j := j_ s + dj_ s in
    let passed := segmentPassed_ s + 1 in
    (Some (i_ s, j_ s),
     if passed =? segmentLength_ s then
       let di := - dj_ s in let dj := di_ s in
       mkIterator di dj (if dj =? 0 then segmentLength_ s + 1 else segmentLength_ s) i j 0 (iteration_ s + 1)
     else mkIterator (di_ s) (dj_ s) (segmentLength_ s) i j passed (iteration_ s + 1)).

End SpiralIterator2d.

Module OctahedronIterator.

Record iterator := mkIterator { apothem_ : Z; x_ : Z; y_ : Z; z_ : Z; left_ : Z; right_ : Z }.

Definition start : iterator := mkIterator 1 (-1) (-1) (-1) 1 2.

(** The corner behind one, and the apothem behind the last. *)
Definition corner (s : iterator) : iterator :=
  let z := z_ s + 2 in
  if z >? 1 then
    let y := y_ s + 2 in
    if y >? 1 then
      let x := x_ s + 2 in
      if x >? 1 then mkIterator (apothem_ s + 1) (-1) (-1) (-1) (left_ s) (right_ s)
      else mkIterator (apothem_ s) x (-1) (-1) (left_ s) (right_ s)
    else mkIterator (apothem_ s) (x_ s) y (-1) (left_ s) (right_ s)
  else mkIterator (apothem_ s) (x_ s) (y_ s) z (left_ s) (right_ s).

Definition set_left_right left right (s : iterator) : iterator := mkIterator (apothem_ s) (x_ s) (y_ s) (z_ s) left right.

Definition advance (s : iterator) : iterator :=
  let right := right_ s - 1 in
  if right <? 0 then
    let left := left_ s - 1 in
    if left <? 0 then
      let s := corner s in set_left_right (apothem_ s) (apothem_ s) s
    else set_left_right left left s
  else set_left_right (left_ s) right s.

Definition position (s : iterator) : Z * Z * Z :=
  let x := x_ s * right_ s in
  let y := y_ s * (apothem_ s - left_ s) in
  (x, y, z_ s * (apothem_ s - (Z.abs x + Z.abs y))).

Definition next (maxDistance_ : Z) (s : iterator) : option (Z * Z * Z) * iterator :=
  if apothem_ s >? maxDistance_ then (None, s)
  else let s := advance s in (Some (position s), s).

End OctahedronIterator.

(** ** Squares *)

Section Spiral.
Import SpiralIterator2d.
Context (numberOfPoints_ : Z).
Abbreviation next_ := (next numberOfPoints_).

(** A side of the spiral, and the turn at its end. *)
Lemma emits_side di dj len i j it : 1 <= len -> it + len <= numberOfPoints_ ->
  emits next_ (mkIterator di dj len i j 0 it) ((fun n => (i + (n - 1) * di, j + (n - 1) * dj)) <$> seqZ 1 len)
    (mkIterator (- dj) di (if di =? 0 then len + 1 else len) (i + len * di) (j + len * dj) 0 (it + len)).
Proof.
  intros Hl Hit.
  apply (emits_along _ (fun n => if n =? len then mkIterator (- dj) di (if di =? 0 then len + 1 else len) (i + len * di) (j + len * dj) 0 (it + len)
    else mkIterator di dj len (i + n * di) (j + n * dj) n (it + n))); [|by rewrite Z.eqb_refl|lia|].
  - destruct (Z.eqb_spec 0 len); [lia|]. f_equal; lia.
  - intros n Hn. destruct (Z.eqb_spec (n - 1) len); [lia|]. unfold next. cbn [iteration_ i_ j_ di_ dj_ segmentPassed_ segmentLength_].
    rewrite Z.geb_leb. destruct (Z.leb_spec numberOfPoints_ (it + (n - 1))); [lia|]. f_equal.
    destruct (Z.eqb_spec (n - 1 + 1) len); destruct (Z.eqb_spec n len); try lia; f_equal; try lia; subst; ring.
Qed.

(** The four sides of the square of radius [k]. *)
Definition square (k : Z) : list (Z * Z) :=
  ((fun n => (k, 1 - k + (n - 1))) <$> seqZ 1 (2 * k - 1)) ++ ((fun n => (k - (n - 1), k)) <$> seqZ 1 (2 * k)) ++
  ((fun n => (- k, k - (n - 1))) <$> seqZ 1 (2 * k)) ++ ((fun n => (- k + (n - 1), - k)) <$> seqZ 1 (2 * k + 1)).

Definition at_square (k : Z) : iterator := mkIterator 0 1 (2 * k - 1) k (1 - k) 0 ((2 * k - 1) * (2 * k - 1)).

Lemma emits_square k : 1 <= k -> (2 * k + 1) * (2 * k + 1) <= numberOfPoints_ -> emits next_ (at_square k) (square k) (at_square (k + 1)).
Proof.
  intros Hk Hn. unfold square, at_square. set (it := (2 * k - 1) * (2 * k - 1)).
  assert (it + 8 * k <= numberOfPoints_) by (unfold it; lia).
  assert (forall f g n, (forall i, f i = g i) -> f <$> seqZ 1 n = g <$> seqZ 1 n :> list (Z * Z)) as Hext by (intros f g n H'; by apply list_fmap_ext).
  apply (emits_app _ _ _ (mkIterator (-1) 0 (2 * k) k k 0 (it + (2 * k - 1)))).
  { pose proof (emits_side 0 1 (2 * k - 1) k (1 - k) it ltac:(lia) ltac:(lia)) as H1. cbn [Z.eqb] in H1.
    rewrite (Hext _ (fun n => (k, 1 - k + (n - 1)))) in H1 by (intros n; f_equal; lia).
    replace (2 * k - 1 + 1) with (2 * k) in H1 by lia. replace (k + (2 * k - 1) * 0) with k in H1 by lia.
    by replace (1 - k + (2 * k - 1) * 1) with k in H1 by lia. }
  apply (emits_app _ _ _ (mkIterator 0 (-1) (2 * k) (- k) k 0 (it + (4 * k - 1)))).
  { pose proof (emits_side (-1) 0 (2 * k) k k (it + (2 * k - 1)) ltac:(lia) ltac:(lia)) as H1. cbn [Z.eqb Z.opp] in H1.
    rewrite (Hext _ (fun n => (k - (n - 1), k))) in H1 by (intros n; f_equal; lia).
    replace (k + 2 * k * -1) with (- k) in H1 by lia. replace (k + 2 * k * 0) with k in H1 by lia.
    by replace (it + (2 * k - 1) + 2 * k) with (it + (4 * k - 1)) in H1 by lia. }
  apply (emits_app _ _ _ (mkIterator 1 0 (2 * k + 1) (- k) (- k) 0 (it + (6 * k - 1)))).
  { pose proof (emits_side 0 (-1) (2 * k) (- k) k (it + (4 * k - 1)) ltac:(lia) ltac:(lia)) as H1. cbn [Z.eqb Z.opp] in H1.
    rewrite (Hext _ (fun n => (- k, k - (n - 1)))) in H1 by (intros n; f_equal; lia).
    replace (- k + 2 * k * 0) with (- k) in H1 by lia. replace (k + 2 * k * -1) with (- k) in H1 by lia.
    by replace (it + (4 * k - 1) + 2 * k) with (it + (6 * k - 1)) in H1 by lia. }
  pose proof (emits_side 1 0 (2 * k + 1) (- k) (- k) (it + (6 * k - 1)) ltac:(lia) ltac:(lia)) as H1. cbn [Z.eqb Z.opp] in H1.
  rewrite (Hext _ (fun n => (- k + (n - 1), - k))) in H1 by (intros n; f_equal; lia).
  replace (- k + (2 * k + 1) * 1) with (k + 1) in H1 by lia. replace (- k + (2 * k + 1) * 0) with (1 - (k + 1)) in H1 by lia.
  replace (it + (6 * k - 1) + (2 * k + 1)) with ((2 * (k + 1) - 1) * (2 * (k + 1) - 1)) in H1 by (unfold it; lia).
  replace (2 * (k + 1) - 1) with (2 * k + 1) in H1 |- * by lia. exact H1.
Qed.

Lemma elem_square k i j : 1 <= k -> (i, j) ∈ square k <-> Z.max (Z.abs i) (Z.abs j) = k.
Proof.
  intros Hk. unfold square. rewrite !elem_of_app, !list_elem_of_fmap. setoid_rewrite elem_of_seqZ. split.
  - intros [(n & [= -> ->] & Hn)|[(n & [= -> ->] & Hn)|[(n & [= -> ->] & Hn)|(n & [= -> ->] & Hn)]]]; lia.
  - intros H. destruct (decide (i = k /\ - k < j < k)); [left; exists (j + k); split; [f_equal; lia|lia]|right].
    destruct (decide (j = k /\ - k < i)); [left; exists (k - i + 1); split; [f_equal; lia|lia]|right].
    destruct (decide (i = - k /\ - k < j)); [left; exists (k - j + 1); split; [f_equal; lia|lia]|right].
    exists (i + k + 1). split; [f_equal; lia|lia].
Qed.

Lemma nodup_square k : 1 <= k -> base.NoDup (square k).
Proof.
  intros Hk. unfold square. rewrite !list.NoDup_app.
  split_and!; [apply nodup_walk; intros i j [=]; lia| |apply nodup_walk; intros i j [=]; lia| |apply nodup_walk; intros i j [=]; lia| |apply nodup_walk; intros i j [=]; lia];
    intros p; rewrite ?elem_of_app, !list_elem_of_fmap; setoid_rewrite elem_of_seqZ; intros (i & -> & Hi).
  - intros [(j & [= ? ?] & Hj)|[(j & [= ? ?] & Hj)|(j & [= ? ?] & Hj)]]; lia.
  - intros [(j & [= ? ?] & Hj)|(j & [= ? ?] & Hj)]; lia.
  - intros (j & [= ? ?] & Hj); lia.
Qed.
End Spiral.

(** A spiral iterator with [maxDistance] at least one comes to an end, and
    has then returned every position of the square less than [maxDistance]
    away, each exactly once, in squares of growing radius. *)
Theorem spiral_positions maxDistance : 1 <= maxDistance ->
  let next_ := SpiralIterator2d.next (SpiralIterator2d.numberOfPoints maxDistance) in
  exists l s, emits next_ SpiralIterator2d.start l s /\ fst (next_ s) = None /\
    l = (0, 0) :: concat (square <$> seqZ 1 (maxDistance - 1)) /\ base.NoDup l /\
    forall i j, (i, j) ∈ l <-> Z.max (Z.abs i) (Z.abs j) < maxDistance.
Proof.
  intros Hd next_. set (n := maxDistance - 1). exists ((0, 0) :: concat (square <$> seqZ 1 n)), (at_square (n + 1)).
  destruct (concat_levels (fun p => Z.max (Z.abs p.1) (Z.abs p.2)) square n ltac:(lia)) as [H1 H2].
  { intros k Hk. split; [apply nodup_square; lia|]. intros [i j]. apply elem_square. lia. }
  unfold next_, SpiralIterator2d.numberOfPoints. split_and!; [| |done| |].
  - eapply emits_cons.
    + unfold SpiralIterator2d.next. cbn. rewrite Z.geb_leb. by destruct (Z.leb_spec ((2 * maxDistance - 1) * (2 * maxDistance - 1)) 0); [nia|].
    + apply (emits_laps _ at_square); [lia|]. intros k Hk. apply emits_square; nia.
  - unfold SpiralIterator2d.next, at_square. cbn [SpiralIterator2d.iteration_]. rewrite Z.geb_leb. by destruct (Z.leb_spec ((2 * maxDistance - 1) * (2 * maxDistance - 1))
      ((2 * (n + 1) - 1) * (2 * (n + 1) - 1))); [|nia].
  - apply list.NoDup_cons. split; [|done]. rewrite H2. cbn. lia.
  - intros i j. rewrite elem_of_cons, H2. cbn. split; [intros [[= -> ->]|H]; lia|]. intros H.
    destruct (decide (i = 0 /\ j = 0)) as [[-> ->]|Hne]; [by left|right; lia].
Qed.

(** ** Octahedra *)

Section Octahedron.
Import OctahedronIterator.
Context (maxDistance_ : Z).
Abbreviation next_ := (next maxDistance_).

(** The signs of the corners, in order. *)
Definition corner_x (o : Z) : Z := if o <=? 4 then -1 else 1.
Definition corner_y (o : Z) : Z := if (o - 1) mod 4 <? 2 then -1 else 1.
Definition corner_z (o : Z) : Z := if (o - 1) mod 2 <? 1 then -1 else 1.

Definition at_ (a o left right : Z) : iterator := mkIterator a (corner_x o) (corner_y o) (corner_z o) left right.

Definition point (a o b r : Z) : Z * Z * Z := (corner_x o * r, corner_y o * b, corner_z o * (a - (r + b))).
Definition row (a o b : Z) : list (Z * Z * Z) := (fun m => point a o b (a - b - (m - 1))) <$> seqZ 1 (a - b + 1).
Definition octant (a o : Z) : list (Z * Z * Z) := concat ((fun m => row a o (m - 1)) <$> seqZ 1 (a + 1)).
Definition surface (a : Z) : list (Z * Z * Z) := concat (octant a <$> seqZ 1 8).

Lemma position_at a o left right : 0 <= right -> left <= a -> position (at_ a o left right) = point a o (a - left) right.
Proof.
  intros Hr Hl. unfold position, point, at_. cbn. assert (Z.abs (corner_x o * right) = right /\ Z.abs (corner_y o * (a - left)) = a - left) as [-> ->]; [|done].
  unfold corner_x, corner_y. split; [destruct (o <=? 4)|destruct (_ <? 2)]; lia.
Qed.

Lemma emits_row a o b : a <= maxDistance_ -> 0 <= b <= a -> emits next_ (at_ a o (a - b) (a - b + 1)) (row a o b) (at_ a o (a - b) 0).
Proof.
  intros Ha Hb. apply (emits_along _ (fun m => at_ a o (a - b) (a - b + 1 - m))); [f_equal; lia|f_equal; lia|lia|].
  intros m Hm. unfold next. cbn [apothem_ at_]. rewrite Z.gtb_ltb. destruct (Z.ltb_spec maxDistance_ a); [lia|].
  assert (advance (at_ a o (a - b) (a - b + 1 - (m - 1))) = at_ a o (a - b) (a - b + 1 - m)) as ->.
  { unfold advance. cbn [at_ right_ left_ set_left_right apothem_ x_ y_ z_]. destruct (Z.ltb_spec (a - b + 1 - (m - 1) - 1) 0); [lia|]. unfold at_, set_left_right. cbn. f_equal. lia. }
  rewrite position_at by lia. replace (a - (a - b)) with b by lia. by replace (a - b + 1 - m) with (a - b - (m - 1)) by lia.
Qed.

Lemma row_nonempty a o b : b <= a -> row a o b <> [].
Proof. intros H E. apply (f_equal length) in E. unfold row in E. rewrite length_fmap, length_seqZ in E. cbn in E. lia. Qed.

Lemma emits_octant a o : 0 <= a <= maxDistance_ -> emits next_ (at_ a o a (a + 1)) (octant a o) (at_ a o 0 0).
Proof.
  intros Ha.
  pose proof (emits_rounds next_ (fun m => at_ a o (a - (m - 1)) (a - (m - 1) + 1)) (fun m => at_ a o (a - (m - 1)) 0) (fun m => row a o (m - 1)) a) as H.
  cbn beta in H. replace (a - (1 - 1)) with a in H by lia. replace (a - (a + 1 - 1)) with 0 in H by lia. apply H; [lia| |].
  - intros m Hm. split; [apply row_nonempty; lia|apply emits_row; lia].
  - intros m Hm. unfold next. cbn [at_ apothem_]. rewrite Z.gtb_ltb. destruct (Z.ltb_spec maxDistance_ a); [lia|].
    assert (advance (at_ a o (a - (m - 1)) 0) = advance (at_ a o (a - (m + 1 - 1)) (a - (m + 1 - 1) + 1))) as ->; [|done].
    unfold advance. cbn [at_ right_ left_ set_left_right apothem_ x_ y_ z_].
    destruct (Z.ltb_spec (0 - 1) 0); [|lia]. destruct (Z.ltb_spec (a - (m - 1) - 1) 0); [lia|].
    destruct (Z.ltb_spec (a - (m + 1 - 1) + 1 - 1) 0); [lia|]. unfold set_left_right. cbn. f_equal; lia.
Qed.

Lemma octant_nonempty a o : 0 <= a -> octant a o <> [].
Proof.
  intros Ha E. assert (point a o 0 0 ∈ octant a o) as H; [|by rewrite E in H; apply elem_of_nil in H].
  unfold octant. apply elem_rounds. exists 1. split; [lia|]. unfold row. apply list_elem_of_fmap. exists (a + 1). split; [unfold point; do 2 f_equal; lia|].
  apply elem_of_seqZ. lia.
Qed.

(** What comes behind an octant. *)
Lemma advance_corner a o : 1 <= o <= 8 -> advance (at_ a o 0 0) = if o =? 8 then at_ (a + 1) 1 (a + 1) (a + 1) else at_ a (o + 1) a a.
Proof.
  intros Ho. assert (o = 1 \/ o = 2 \/ o = 3 \/ o = 4 \/ o = 5 \/ o = 6 \/ o = 7 \/ o = 8) as H by lia.
  by repeat destruct H as [->|H]; [..|subst o].
Qed.

Lemma advance_first a o : 0 <= a -> advance (at_ a o a (a + 1)) = at_ a o a a.
Proof.
  intros Ha. unfold advance. cbn [at_ right_ left_ apothem_ x_ y_ z_]. destruct (Z.ltb_spec (a + 1 - 1) 0); [lia|]. unfold at_, set_left_right. cbn. f_equal. lia.
Qed.

Lemma emits_surface a : 0 <= a <= maxDistance_ -> emits next_ (at_ a 1 a (a + 1)) (surface a) (at_ a 8 0 0).
Proof.
  intros Ha. unfold surface. apply (emits_rounds next_ (fun o => at_ a o a (a + 1)) (fun o => at_ a o 0 0) (octant a) 7); [lia| |].
  - intros o Ho. split; [apply octant_nonempty; lia|by apply emits_octant].
  - intros o Ho. unfold next. cbn [at_ apothem_]. rewrite Z.gtb_ltb. destruct (Z.ltb_spec maxDistance_ a); [lia|].
    fold (at_ a o 0 0) (at_ a (o + 1) a (a + 1)). rewrite advance_corner, advance_first by lia. by destruct (Z.eqb_spec o 8); [lia|].
Qed.

Lemma elem_surface a x y z : 0 <= a -> (x, y, z) ∈ surface a <-> Z.abs x + Z.abs y + Z.abs z = a.
Proof.
  intros Ha. unfold surface, octant. rewrite elem_rounds. split.
  - intros (o & Ho & Hp). apply elem_rounds in Hp as (m & Hm & Hp). unfold row in Hp. apply list_elem_of_fmap in Hp as (i & [= -> -> ->] & Hi).
    apply elem_of_seqZ in Hi. unfold corner_x, corner_y, corner_z. destruct (o <=? 4), (_ <? 2), (_ <? 1); lia.
  - intros H. set (o := 1 + (if x <? 0 then 0 else 4) + (if y <? 0 then 0 else 2) + (if z <? 0 then 0 else 1)).
    assert (corner_x o = (if x <? 0 then -1 else 1) /\ corner_y o = (if y <? 0 then -1 else 1) /\ corner_z o = (if z <? 0 then -1 else 1) /\ 1 <= o <= 8)
      as (E1 & E2 & E3 & Ho) by (unfold o; destruct (x <? 0), (y <? 0), (z <? 0); repeat split; cbn; lia).
    exists o. split; [done|]. apply elem_rounds. exists (Z.abs y + 1). split; [lia|]. unfold row. apply list_elem_of_fmap.
    exists (a - Z.abs y - Z.abs x + 1). split; [|apply elem_of_seqZ; lia]. unfold point. rewrite E1, E2, E3.
    destruct (Z.ltb_spec x 0), (Z.ltb_spec y 0), (Z.ltb_spec z 0); f_equal; [f_equal| |f_equal| |f_equal| |f_equal| |f_equal| |f_equal| |f_equal| |f_equal|]; lia.
Qed.
End Octahedron.

(** C40: an octahedron iterator comes to an end, and has then returned every
    position that is between one and [maxDistance] steps away, and exactly one
    position that is further: it notices only with the next call that the
    apothem has passed [maxDistance]. *)
Theorem octahedron_positions maxDistance_ : exists l s,
  emits (OctahedronIterator.next maxDistance_) OctahedronIterator.start l s /\ fst (OctahedronIterator.next maxDistance_ s) = None /\
  forall x y z, (x, y, z) ∈ l <-> 1 <= Z.abs x + Z.abs y + Z.abs z <= maxDistance_ \/ (1 <= maxDistance_ /\ (x, y, z) = (- (maxDistance_ + 1), 0, 0)).
Proof.
  destruct (decide (1 <= maxDistance_)) as [Hd|Hd].
  - exists (concat (surface <$> seqZ 1 (maxDistance_ - 1 + 1)) ++ [(- (maxDistance_ + 1), 0, 0)]), (at_ (maxDistance_ + 1) 1 (maxDistance_ + 1) (maxDistance_ + 1)).
    split_and!.
    + eapply emits_app.
      * apply (emits_rounds _ (fun a => at_ a 1 a (a + 1)) (fun a => at_ a 8 0 0) surface (maxDistance_ - 1)); [lia| |].
        -- intros a Ha. split; [|apply emits_surface; lia]. intros E. assert ((a, 0, 0) ∈ surface a) as H by (apply elem_surface; lia).
           rewrite E in H. by apply elem_of_nil in H.
        -- intros a Ha. unfold OctahedronIterator.next. cbn [at_ OctahedronIterator.apothem_]. rewrite !Z.gtb_ltb.
           destruct (Z.ltb_spec maxDistance_ a); [lia|]. destruct (Z.ltb_spec maxDistance_ (a + 1)); [lia|].
           fold (at_ a 8 0 0) (at_ (a + 1) 1 (a + 1) (a + 1 + 1)). by rewrite advance_corner, advance_first by lia.
      * replace (maxDistance_ - 1 + 1) with maxDistance_ by lia. apply emits_one. unfold OctahedronIterator.next. cbn [at_ OctahedronIterator.apothem_].
        rewrite Z.gtb_ltb, Z.ltb_irrefl. fold (at_ maxDistance_ 8 0 0). rewrite advance_corner by lia. cbn [Z.eqb Pos.eqb].
        rewrite position_at by lia. do 2 f_equal. unfold point. f_equal; [f_equal|]; cbn; lia.
    + unfold OctahedronIterator.next. cbn [at_ OctahedronIterator.apothem_]. rewrite Z.gtb_ltb. by destruct (Z.ltb_spec maxDistance_ (maxDistance_ + 1)); [|lia].
    + intros x y z. rewrite elem_of_app, elem_rounds, list_elem_of_singleton. replace (maxDistance_ - 1 + 1) with maxDistance_ by lia. split.
      * intros [(a & Ha & Hp)|Hp]; [|by right]. apply elem_surface in Hp; [left; lia|lia].
      * intros [H|[_ H]]; [left|by right]. exists (Z.abs x + Z.abs y + Z.abs z). split; [done|]. apply elem_surface; lia.
  - exists [], OctahedronIterator.start. split_and!; [constructor| |].
    + unfold OctahedronIterator.next. cbn [OctahedronIterator.apothem_ OctahedronIterator.start]. rewrite Z.gtb_ltb. by destruct (Z.ltb_spec maxDistance_ 1); [|lia].
    + intros x y z. rewrite elem_of_nil. split; [done|]. intros [H|[H _]]; lia.
Qed.

(** ** Concrete walks *)

(** The values of the first calls, up to the end or [n] of them. *)
Fixpoint collect {S A} (next : S -> option A * S) (n : nat) (s : S) : list A :=
  match n with
  | O => []
  | Datatypes.S n => match next s with (Some a, s) => a :: collect next n s | (None, _) => [] end
  end.

Example manhattan_two : collect (ManhattanIterator.next 2) 100 ManhattanIterator.start = [(0, 0); (1, 0); (0, 1); (-1, 0); (0, -1)].
Proof. vm_compute. reflexivity. Qed.

Example octahedron_two : let l := collect (OctahedronIterator.next 2) 100 OctahedronIterator.start in
  length l = 73%nat /\ take 4 l = [(-1, 0, 0); (0, 0, -1); (0, -1, 0); (-1, 0, 0)] /\ list.last l = Some (-3, 0, 0).
Proof. vm_compute. done. Qed.

Example spiral_two : collect (SpiralIterator2d.next (SpiralIterator2d.numberOfPoints 2)) 100 SpiralIterator2d.start =
  [(0, 0); (1, 0); (1, 1); (0, 1); (-1, 1); (-1, 0); (-1, -1); (0, -1); (1, -1)].
Proof. vm_compute. reflexivity. Qed.
