(* ===== verification/ChunkColumn.v ===== *)
(** * Chunk columns (src/src/world/BedrockChunk.cpp, BedrockChunkColumn)

    A column of sections and biome sections between two section heights, with
    the block entities and entities it holds.  String-keyed maps are [gmap]s:
    the functions that write them out sort the keys first, so that the order
    of an unordered_map never shows. *)

From stdpp Require Import sorting.
From S2P Require Import Prelude MachineInt ZigZag Leb128 Endian BinaryStream GamePacket Text Nbt PalettedStorage SubChunk BiomeSection XxHash64 StreamState.

(** ** Keys and numbers *)

(** [std::sort] of distinct keys. *)
Definition string_le (a b : string) : Prop := String.leb a b = true.
#[export] Instance string_le_dec : RelDecision string_le.
Proof. unfold RelDecision, string_le. apply _. Defined.
Definition sort_keys (l : list string) : list string := merge_sort string_le l.

(** A signed 32-bit operation; overflow is undefined. *)
Definition i32 (v : Z) : result Z :=
  if bool_decide (is_s 32 v) then Ok v else Throw (UndefinedBehaviour "signed overflow").

(** ** Blobs *)

Module BedrockBlobStore.

Inductive BlobType := ChunkSection | Biomes.

Record BlobEntry := mkBlob {
  blob_x : Z;
  blob_y : Z;
  blob_z : Z;
  blob_type : BlobType;
  buffer : bytes
}.

Definition BedrockBlobStore : Type := gmap Z BlobEntry.

Definition has (hash : Z) (s : BedrockBlobStore) : bool :=
  match s !! hash with Some _ => true | None => false end.
Definition get (hash : Z) (s : BedrockBlobStore) : option BlobEntry := s !! hash.
Definition set (hash : Z) (entry : BlobEntry) : M BedrockBlobStore unit :=
  let* s := get_st in put_st (<[hash := entry]> s).
Definition erase (hash : Z) : M BedrockBlobStore unit :=
  let* s := get_st in put_st (delete hash s).
Definition size (s : BedrockBlobStore) : Z := Z.of_nat (base.size s).

End BedrockBlobStore.

Module BedrockChunkColumn.

Abbreviation BedrockSubChunk := BedrockSubChunk.BedrockSubChunk.
Abbreviation BedrockBiomeSection := BedrockBiomeSection.BedrockBiomeSection.

Record BlockPosition := mkPos { px : Z; py : Z; pz : Z; layer : option Z }.

(** The fields of [struct BedrockBlock] that a column stores: the state, the
    lights, the block entity, and the state of [superimposed]. *)
Record BlockData := mkBlock {
  stateId : Z;
  light : Z;
  skyLight : Z;
  entity : option NbtDocument;
  superimposed : option Z
}.

Record BedrockChunkColumn := mkColumn {
  x_ : Z;
  z_ : Z;
  minCY_ : Z;
  maxCY_ : Z;
  minY_ : Z;
  maxY_ : Z;
  worldHeight_ : Z;
  co_ : Z;
  sections_ : list (option BedrockSubChunk);
  biomes_ : list BedrockBiomeSection;
  blockEntities_ : gmap string bytes;
  blockEntityNbt_ : gmap string NbtDocument;
  entities_ : gmap string NbtDocument;
  heights_ : option (list Z)
}.

Definition set_dims minCY maxCY minY maxY height co c :=
  mkColumn (x_ c) (z_ c) minCY maxCY minY maxY height co (sections_ c) (biomes_ c)
    (blockEntities_ c) (blockEntityNbt_ c) (entities_ c) (heights_ c).
Definition set_sections s c :=
  mkColumn (x_ c) (z_ c) (minCY_ c) (maxCY_ c) (minY_ c) (maxY_ c) (worldHeight_ c) (co_ c) s (biomes_ c)
    (blockEntities_ c) (blockEntityNbt_ c) (entities_ c) (heights_ c).
Definition set_biomes b c :=
  mkColumn (x_ c) (z_ c) (minCY_ c) (maxCY_ c) (minY_ c) (maxY_ c) (worldHeight_ c) (co_ c) (sections_ c) b
    (blockEntities_ c) (blockEntityNbt_ c) (entities_ c) (heights_ c).
Definition set_block_entities raw nbt c :=
  mkColumn (x_ c) (z_ c) (minCY_ c) (maxCY_ c) (minY_ c) (maxY_ c) (worldHeight_ c) (co_ c) (sections_ c) (biomes_ c)
    raw nbt (entities_ c) (heights_ c).
Definition set_entities e c :=
  mkColumn (x_ c) (z_ c) (minCY_ c) (maxCY_ c) (minY_ c) (maxY_ c) (worldHeight_ c) (co_ c) (sections_ c) (biomes_ c)
    (blockEntities_ c) (blockEntityNbt_ c) e (heights_ c).
Definition set_heights h c :=
  mkColumn (x_ c) (z_ c) (minCY_ c) (maxCY_ c) (minY_ c) (maxY_ c) (worldHeight_ c) (co_ c) (sections_ c) (biomes_ c)
    (blockEntities_ c) (blockEntityNbt_ c) (entities_ c) h.

(** ** Bounds *)

Definition push_biome_section (y : Z) : M BedrockChunkColumn unit :=
  let* section := lift (BedrockBiomeSection.make y) in
  let* c := get_st in put_st (set_biomes (biomes_ c ++ [section]) c).

Definition setBounds (minCY maxCY : Z) : M BedrockChunkColumn unit :=
  if maxCY <=? minCY then raise (BedrockChunkError "maxCY must be greater than minCY")
  else
    let* minY := lift (i32 (minCY * 16)) in
    let* maxY := lift (i32 (maxCY * 16)) in
    let* absY := lift (i32 (Z.abs minY)) in
    let* worldHeight := lift (i32 (maxY + absY)) in
    let* co := lift (i32 (Z.abs minCY)) in
    let* n := lift (i32 (maxCY - minCY)) in
    let* c := get_st in
    put_st (set_biomes [] (set_sections (replicate (Z.to_nat n) None)
      (set_dims minCY maxCY minY maxY worldHeight co c))) ;;;
    for_each (seqZ minCY n) push_biome_section.

Definition make (x z : Z) : result BedrockChunkColumn :=
  exec (setBounds 0 16) (mkColumn x z 0 16 0 256 256 0 [] [] ∅ ∅ ∅ None).

Definition x c : Z := x_ c.
Definition z c : Z := z_ c.
Definition minCY c : Z := minCY_ c.
Definition maxCY c : Z := maxCY_ c.
Definition minY c : Z := minY_ c.
Definition maxY c : Z := maxY_ c.
Definition worldHeight c : Z := worldHeight_ c.

(** ** Sections *)

Definition localCoord (value : Z) : Z := to_u8 (Z.land value 0x0f).
Definition sectionIndexForBlockY (y : Z) (c : BedrockChunkColumn) : result Z :=
  i32 (co_ c + Z.shiftr y 4).

(** The section a pointer to an element of [sections_] refers to, if any. *)
Definition section_at (index : Z) (c : BedrockChunkColumn) : option BedrockSubChunk :=
  if (index <? 0) || (index >=? size (sections_ c)) then None
  else match sections_ c !! Z.to_nat index with Some s => s | None => None end.

Definition getSection (blockY : Z) (c : BedrockChunkColumn) : result (option BedrockSubChunk) :=
  let! index := sectionIndexForBlockY blockY c in Ok (section_at index c).
Definition getSectionAtIndex (sectionY : Z) (c : BedrockChunkColumn) : result (option BedrockSubChunk) :=
  let! index := i32 (co_ c + sectionY) in Ok (section_at index c).

(** [section->f(...)] through the pointer to [sections_[index]]. *)
Definition on_section {A} (index : Z) (m : M BedrockSubChunk A) : M BedrockChunkColumn A :=
  fun c =>
    match section_at index c with
    | None => (Throw (UndefinedBehaviour "empty section"), c)
    | Some s =>
        match m s with
        | (r, s') => (r, set_sections (<[Z.to_nat index := Some s']> (sections_ c)) c)
        end
    end.

Definition put_section (index : Z) (s : BedrockSubChunk) : M BedrockChunkColumn unit :=
  let* c := get_st in put_st (set_sections (<[Z.to_nat index := Some s]> (sections_ c)) c).

(** Returns the index of the section whose reference the code returns. *)
Definition ensureSection (blockY : Z) : M BedrockChunkColumn Z :=
  let sectionY := Z.shiftr blockY 4 in
  let* c := get_st in
  let* index := lift (i32 (co_ c + sectionY)) in
  if (index <? 0) || (index >=? size (sections_ c)) then
    raise (BedrockChunkError "block Y outside chunk bounds")
  else
    match section_at index c with
    | Some _ => ret index
    | None =>
        let* s := lift (BedrockSubChunk.make (to_i8 sectionY) 9) in
        put_section index s ;;;
        ret index
    end.

Definition newSection (sectionY : Z) : M BedrockChunkColumn Z :=
  let* c := get_st in
  let* index := lift (i32 (co_ c + sectionY)) in
  if (index <? 0) || (index >=? size (sections_ c)) then
    raise (BedrockChunkError "section Y outside chunk bounds")
  else
    let* s := lift (BedrockSubChunk.make (to_i8 sectionY) 9) in
    put_section index s ;;;
    ret index.

Definition setSection (sectionY : Z) (section : BedrockSubChunk) : M BedrockChunkColumn unit :=
  let* c := get_st in
  let* index := lift (i32 (co_ c + sectionY)) in
  if (index <? 0) || (index >=? size (sections_ c)) then
    raise (BedrockChunkError "section Y outside chunk bounds")
  else put_section index (BedrockSubChunk.set_y (to_i8 sectionY) section).

(** ** Blocks *)

Definition layer_of (pos : BlockPosition) : Z := match layer pos with Some l => l | None => 0 end.

Definition getBlockStateId (pos : BlockPosition) (c : BedrockChunkColumn) : result Z :=
  let! section := getSection (py pos) c in
  match section with
  | None => Ok 0
  | Some s => BedrockSubChunk.getBlockStateId (layer_of pos) (localCoord (px pos))
                (localCoord (py pos)) (localCoord (pz pos)) s
  end.

Definition setBlockStateId (pos : BlockPosition) (id : Z) : M BedrockChunkColumn unit :=
  let* section := ensureSection (py pos) in
  on_section section (BedrockSubChunk.setBlockStateId (layer_of pos) (localCoord (px pos))
    (localCoord (py pos)) (localCoord (pz pos)) id).

(** [byStateId] after a section's palette. *)
Definition collect_blocks (byStateId : gmap Z BedrockSubChunk.BedrockBlockState)
    (blocks : list BedrockSubChunk.BedrockBlockState) : gmap Z BedrockSubChunk.BedrockBlockState :=
  foldl (fun m b => <[BedrockSubChunk.stateId b := b]> m) byStateId blocks.

Fixpoint getBlocks_loop (sections : list (option BedrockSubChunk))
    (byStateId : gmap Z BedrockSubChunk.BedrockBlockState) : result (gmap Z BedrockSubChunk.BedrockBlockState) :=
  match sections with
  | [] => Ok byStateId
  | None :: sections' => getBlocks_loop sections' byStateId
  | Some s :: sections' =>
      let! palette := BedrockSubChunk.getPalette 0 s in
      getBlocks_loop sections' (collect_blocks byStateId palette)
  end.

Definition state_le (a b : BedrockSubChunk.BedrockBlockState) : Prop :=
  BedrockSubChunk.stateId a <= BedrockSubChunk.stateId b.
#[export] Instance state_le_dec : RelDecision state_le.
Proof. unfold RelDecision, state_le. apply _. Defined.

Definition getBlocks (c : BedrockChunkColumn) : result (list BedrockSubChunk.BedrockBlockState) :=
  let! byStateId := getBlocks_loop (sections_ c) ∅ in
  Ok (merge_sort state_le (map_to_list byStateId).*2).

(** ** Light *)

Definition loaded_section (what : string) (pos : BlockPosition) (c : BedrockChunkColumn)
    : result BedrockSubChunk :=
  let! section := getSection (py pos) c in
  match section with
  | None => Throw (BedrockChunkError (what +:+ " section is not loaded"))
  | Some s => Ok s
  end.

Definition getBlockLight (pos : BlockPosition) (c : BedrockChunkColumn) : result Z :=
  let! s := loaded_section "block-light" pos c in
  BedrockSubChunk.getBlockLight (localCoord (px pos)) (localCoord (py pos)) (localCoord (pz pos)) s.
Definition getSkyLight (pos : BlockPosition) (c : BedrockChunkColumn) : result Z :=
  let! s := loaded_section "sky-light" pos c in
  BedrockSubChunk.getSkyLight (localCoord (px pos)) (localCoord (py pos)) (localCoord (pz pos)) s.

Definition setBlockLight (pos : BlockPosition) (value : Z) : M BedrockChunkColumn unit :=
  let* c := get_st in
  lift (loaded_section "block-light" pos c) ;;;
  let* index := lift (sectionIndexForBlockY (py pos) c) in
  on_section index (BedrockSubChunk.setBlockLight (localCoord (px pos)) (localCoord (py pos))
    (localCoord (pz pos)) value).
Definition setSkyLight (pos : BlockPosition) (value : Z) : M BedrockChunkColumn unit :=
  let* c := get_st in
  lift (loaded_section "sky-light" pos c) ;;;
  let* index := lift (sectionIndexForBlockY (py pos) c) in
  on_section index (BedrockSubChunk.setSkyLight (localCoord (px pos)) (localCoord (py pos))
    (localCoord (pz pos)) value).

(** ** Block entities *)

Definition to_string_signed (v : Z) : string := BedrockSubChunk.to_string_signed v.

Definition blockEntityKey (pos : BlockPosition) : string :=
  to_string_signed (Z.land (px pos) 0x0f) +:+ "," +:+ to_string_signed (py pos) +:+ "," +:+
  to_string_signed (Z.land (pz pos) 0x0f).

(** The [coordinate] lambda. *)
Definition coordinate (tag : NbtDocument) (name : string) : result Z :=
  let missing := Throw (BedrockChunkError ("block-entity NBT is missing int " +:+ name)) in
  match Nbt.find (root tag) name with
  | None => missing
  | Some value =>
      if negb (bool_decide (type value ∈ [TagByte; TagShort; TagInt; TagLong]))
         || (integerValue value <? - 2 ^ 31) || (integerValue value >? 2 ^ 31 - 1) then missing
      else Ok (to_i32 (integerValue value))
  end.

Definition blockEntityPosition (tag : NbtDocument) : result BlockPosition :=
  if bool_decide (type (root tag) <> TagCompound) then
    Throw (BedrockChunkError "block-entity NBT root must be a compound")
  else
    let! x := coordinate tag "x" in
    let! y := coordinate tag "y" in
    let! z := coordinate tag "z" in
    Ok (mkPos x y z None).

Definition put_raw (key : string) (tag : bytes) : M BedrockChunkColumn unit :=
  let* c := get_st in put_st (set_block_entities (<[key := tag]> (blockEntities_ c)) (blockEntityNbt_ c) c).
Definition put_nbt (key : string) (tag : NbtDocument) : M BedrockChunkColumn unit :=
  let* c := get_st in put_st (set_block_entities (blockEntities_ c) (<[key := tag]> (blockEntityNbt_ c)) c).

Definition setBlockEntity (pos : BlockPosition) (tag : bytes) : M BedrockChunkColumn unit :=
  let key := blockEntityKey pos in
  put_raw key tag ;;;
  catch (
    let (document, stream) := Nbt.read LittleVarInt default_limits (from_data tag) in
    let* document := lift document in
    if negb (eof stream) then raise (BedrockChunkError "block entity contains trailing bytes")
    else put_nbt key document)
  (fun _ => let* c := get_st in
    put_st (set_block_entities (blockEntities_ c) (delete key (blockEntityNbt_ c)) c)).

(** A document written to a fresh stream. *)
Definition write_document (encoding : BedrockNbtEncoding) (tag : NbtDocument) : result bytes :=
  match Nbt.write encoding default_limits tag empty_stream with
  | (Ok _, stream) => Ok (readableBuffer stream)
  | (Throw e, _) => Throw e
  end.

Definition setBlockEntityNbt (pos : BlockPosition) (tag : NbtDocument) : M BedrockChunkColumn unit :=
  let key := blockEntityKey pos in
  let* raw := lift (write_document LittleVarInt tag) in
  put_raw key raw ;;;
  put_nbt key tag.

Definition addBlockEntity (tag : NbtDocument) : M BedrockChunkColumn unit :=
  let* pos := lift (blockEntityPosition tag) in setBlockEntityNbt pos tag.

Definition getBlockEntity (pos : BlockPosition) (c : BedrockChunkColumn) : option bytes :=
  blockEntities_ c !! blockEntityKey pos.
Definition getBlockEntityNbt (pos : BlockPosition) (c : BedrockChunkColumn) : option NbtDocument :=
  blockEntityNbt_ c !! blockEntityKey pos.

Definition removeBlockEntity (pos : BlockPosition) : M BedrockChunkColumn unit :=
  let key := blockEntityKey pos in
  let* c := get_st in
  put_st (set_block_entities (delete key (blockEntities_ c)) (delete key (blockEntityNbt_ c)) c).

Definition moveBlockEntity (pos newPos : BlockPosition) : M BedrockChunkColumn bool :=
  let oldKey := blockEntityKey pos in
  let newKey := blockEntityKey newPos in
  let* c := get_st in
  let raw := blockEntities_ c !! oldKey in
  let document := blockEntityNbt_ c !! oldKey in
  let found := negb (bool_decide (raw = None)) || match document with Some _ => true | None => false end in
  if bool_decide (oldKey = newKey) then ret found
  else
    let raws := delete oldKey (blockEntities_ c) in
    let nbts := delete oldKey (blockEntityNbt_ c) in
    if negb found then put_st (set_block_entities raws nbts c) ;;; ret false
    else
      let raws := delete newKey raws in
      let nbts := delete newKey nbts in
      let raws := match raw with Some r => <[newKey := r]> raws | None => raws end in
      let nbts := match document with Some d => <[newKey := d]> nbts | None => nbts end in
      put_st (set_block_entities raws nbts c) ;;; ret true.

Definition blockEntityCount (c : BedrockChunkColumn) : Z := Z.of_nat (base.size (blockEntities_ c)).

(** The height that a key names. *)
Definition key_y (key : string) : result Z :=
  let invalid := Throw (BedrockChunkError "invalid block-entity position key") in
  match String.index 0 "," key with
  | None => invalid
  | Some firstComma =>
      match String.index (firstComma + 1) "," key with
      | None => invalid
      | Some secondComma => stoi (String.substring (firstComma + 1) (secondComma - firstComma - 1) key)
      end
  end.

(** The keys of the section, or all of them. *)
Fixpoint section_keys (sectionY : option Z) (keys : list string) : result (list string) :=
  match keys with
  | [] => Ok []
  | key :: keys' =>
      match sectionY with
      | None => let! rest := section_keys sectionY keys' in Ok (key :: rest)
      | Some sy =>
          let! y := key_y key in
          let! rest := section_keys sectionY keys' in
          Ok (if Z.shiftr y 4 =? sy then key :: rest else rest)
      end
  end.

Definition getSectionBlockEntities (sectionY : Z) (c : BedrockChunkColumn) : result (list NbtDocument) :=
  let! keys := section_keys (Some sectionY) (map_to_list (blockEntityNbt_ c)).*1 in
  Ok (omap (fun key => blockEntityNbt_ c !! key) (sort_keys keys)).

(** ** Block entities on a stream *)

(** [while (!stream.eof() && stream.buffer()[stream.offset()] == Compound)];
    every turn reads a byte. *)
Fixpoint compound_loop {T} (fuel : nat) (body : M (T * BinaryStream) unit) : M (T * BinaryStream) unit :=
  let* s := on_stream get_st in
  if eof s then ret tt
  else
    let* tag := lift (vec_at (readableBuffer s) (offset s)) in
    if tag =? tag_byte TagCompound then
      match fuel with
      | O => raise OutOfFuel
      | S fuel' => body ;;; compound_loop fuel' body
      end
    else ret tt.

Definition compounds {T} (body : M (T * BinaryStream) unit) : M (T * BinaryStream) unit :=
  fun p => compound_loop (Z.to_nat (remaining p.2 + 1)) body p.

Definition decode_block_entity (encoding : BedrockNbtEncoding) : M (BedrockChunkColumn * BinaryStream) unit :=
  let* s := on_stream get_st in
  let start := offset s in
  let* document := catch (on_stream (Nbt.read encoding default_limits))
    (fun error => raise (BedrockChunkError ("invalid block-entity NBT: " +:+ what error))) in
  let* s := on_stream get_st in
  let end_ := offset s in
  let* pos := lift (blockEntityPosition document) in
  let key := blockEntityKey pos in
  on_object (put_nbt key document) ;;;
  let* raw := lift (if bool_decide (encoding = LittleVarInt)
                    then vec_range (readableBuffer s) start end_
                    else write_document LittleVarInt document) in
  on_object (put_raw key raw).

Definition decodeBlockEntities (encoding : BedrockNbtEncoding) : M (BedrockChunkColumn * BinaryStream) unit :=
  compounds (decode_block_entity encoding).

Definition encode_block_entity (encoding : BedrockNbtEncoding) (c : BedrockChunkColumn) (key : string)
    : M BinaryStream unit :=
  match blockEntities_ c !! key, bool_decide (encoding = LittleVarInt) with
  | Some raw, true => writeBytes raw
  | raw, _ =>
      match blockEntityNbt_ c !! key with
      | Some document => Nbt.write encoding default_limits document
      | None =>
          match raw with
          | None => raise (BedrockChunkError "block-entity storage is inconsistent")
          | Some raw =>
              let (document, rawStream) := Nbt.read LittleVarInt default_limits (from_data raw) in
              let* document := lift document in
              if negb (eof rawStream) then
                raise (BedrockChunkError "raw block entity contains trailing bytes")
              else Nbt.write encoding default_limits document
          end
      end
  end.

Definition encodeBlockEntities (encoding : BedrockNbtEncoding) (sectionY : option Z)
    (c : BedrockChunkColumn) : M BinaryStream unit :=
  let* keys := lift (section_keys sectionY (map_to_list (blockEntities_ c)).*1) in
  for_each (sort_keys keys) (encode_block_entity encoding c).

(** What a function that writes to a fresh stream returns. *)
Definition buffer_of (m : M BinaryStream unit) : result bytes :=
  match m empty_stream with
  | (Ok _, stream) => Ok (readableBuffer stream)
  | (Throw e, _) => Throw e
  end.
(** A member function that reads from a fresh stream over [data]. *)
Definition reading {T A} (data : bytes) (m : M (T * BinaryStream) A) : M T A :=
  fun t => match m (t, from_data data) with (r, (t', _)) => (r, t') end.

Definition diskEncodeBlockEntities (c : BedrockChunkColumn) : result bytes :=
  buffer_of (encodeBlockEntities LittleEndian None c).
Definition diskDecodeBlockEntities (data : bytes) : M BedrockChunkColumn unit :=
  reading data (decodeBlockEntities LittleEndian).

(** ** Entities *)

Definition entityKey (tag : NbtDocument) : result string :=
  if bool_decide (type (root tag) <> TagCompound) then
    Throw (BedrockChunkError "entity NBT root must be a compound")
  else
    let missing := Throw (BedrockChunkError "entity NBT is missing integer UniqueID") in
    match Nbt.find (root tag) "UniqueID" with
    | None => missing
    | Some uniqueId =>
        if negb (bool_decide (type uniqueId ∈ [TagByte; TagShort; TagInt; TagLong])) then missing
        else Ok (to_string_signed (integerValue uniqueId))
    end.

Definition addEntity (entityTag : NbtDocument) : M BedrockChunkColumn unit :=
  let* key := lift (entityKey entityTag) in
  let* c := get_st in put_st (set_entities (<[key := entityTag]> (entities_ c)) c).

Definition removeEntity (id : string) : M BedrockChunkColumn bool :=
  let* c := get_st in
  put_st (set_entities (delete id (entities_ c)) c) ;;;
  ret (match entities_ c !! id with Some _ => true | None => false end).

Definition getEntities (c : BedrockChunkColumn) : gmap string NbtDocument := entities_ c.
Definition loadEntities (entities : gmap string NbtDocument) : M BedrockChunkColumn unit :=
  let* c := get_st in put_st (set_entities entities c).
Definition loadEntities_list (entities : list NbtDocument) : M BedrockChunkColumn unit :=
  (let* c := get_st in put_st (set_entities ∅ c)) ;;;
  for_each entities addEntity.
Definition entityCount (c : BedrockChunkColumn) : Z := Z.of_nat (base.size (entities_ c)).

Definition encode_entity (c : BedrockChunkColumn) (key : string) : M BinaryStream unit :=
  match entities_ c !! key with
  | Some entity => Nbt.write LittleEndian default_limits entity
  | None => raise (OutOfRange "unordered_map::at")
  end.

Definition diskEncodeEntities (c : BedrockChunkColumn) : result bytes :=
  buffer_of (for_each (sort_keys (map_to_list (entities_ c)).*1) (encode_entity c)).

Definition decode_entity : M (BedrockChunkColumn * BinaryStream) unit :=
  catch (
    let* document := on_stream (Nbt.read LittleEndian default_limits) in
    on_object (addEntity document))
  (fun error => raise (BedrockChunkError ("invalid entity NBT: " +:+ what error))).

Definition diskDecodeEntities (data : bytes) : M BedrockChunkColumn unit :=
  reading data (compounds decode_entity).

(** ** Heights *)

Definition loadHeights (heights : list Z) : M BedrockChunkColumn unit :=
  let* c := get_st in put_st (set_heights (Some heights) c).
Definition getHeights (c : BedrockChunkColumn) : option (list Z) := heights_ c.

Definition writeHeightMap : M (BedrockChunkColumn * BinaryStream) unit :=
  on_object (let* c := get_st in
    match heights_ c with
    | Some _ => ret tt
    | None => put_st (set_heights (Some (replicate 256 0)) c)
    end) ;;;
  let* c := get_object in
  match heights_ c with
  | Some heights => for_each heights (fun height => on_stream (writeU16LE height))
  | None => raise (UndefinedBehaviour "bad optional access")
  end.

(** ** Biomes *)

(** [while (index > 0 && biomes_[index].proxy()) --index;] *)
Fixpoint proxy_loop (fuel : nat) (index : Z) (c : BedrockChunkColumn) : result Z :=
  if index >? 0 then
    let! b := vec_at (biomes_ c) index in
    if BedrockBiomeSection.proxy b then
      match fuel with O => Throw OutOfFuel | S fuel' => proxy_loop fuel' (index - 1) c end
    else Ok index
  else Ok index.

Definition getBiomeId (pos : BlockPosition) (c : BedrockChunkColumn) : result Z :=
  let sectionY := Z.shiftr (py pos) 4 in
  let! index := i32 (co_ c + sectionY) in
  if (index <? 0) || (index >=? size (biomes_ c)) then Ok 0
  else
    let! index := proxy_loop (Z.to_nat index) index c in
    let! section := vec_at (biomes_ c) index in
    BedrockBiomeSection.getBiomeId (localCoord (px pos)) (localCoord (py pos)) (localCoord (pz pos)) section.

(** [biomes_[index].f(...)]. *)
Definition on_biome {A} (index : Z) (m : M BedrockBiomeSection A) : M BedrockChunkColumn A :=
  BedrockSubChunk.at_index biomes_ set_biomes index m.

Definition setBiomeId (pos : BlockPosition) (biomeId : Z) : M BedrockChunkColumn unit :=
  let sectionY := Z.shiftr (py pos) 4 in
  let* c := get_st in
  let* index := lift (i32 (co_ c + sectionY)) in
  if (index <? 0) || (index >=? size (biomes_ c)) then
    raise (BedrockChunkError "biome Y outside chunk bounds")
  else
    let* b := lift (vec_at (biomes_ c) index) in
    (if BedrockBiomeSection.proxy b && (index >? 0) then
       let* previous := lift (vec_at (biomes_ c) (index - 1)) in
       on_biome index (put_st previous) ;;;
       on_biome index (BedrockBiomeSection.setProxy false)
     else ret tt) ;;;
    on_biome index (BedrockBiomeSection.setBiomeId (localCoord (px pos)) (localCoord (py pos))
      (localCoord (pz pos)) biomeId).

(** [biomes_[index].f(stream)]. *)
Definition on_biome_stream (index : Z) (m : M (BedrockBiomeSection * BinaryStream) unit)
    : M (BedrockChunkColumn * BinaryStream) unit :=
  fun p =>
    match vec_at (biomes_ p.1) index with
    | Throw e => (Throw e, p)
    | Ok b =>
        match m (b, p.2) with
        | (r, (b', str)) =>
            match vec_set (biomes_ p.1) index b' with
            | Ok l => (r, (set_biomes l p.1, str))
            | Throw e => (Throw e, p)
            end
        end
    end.

Definition put_proxy (i : Z) : M BedrockChunkColumn unit :=
  let* c := get_st in
  let* y := lift (i32 (minCY_ c + to_i32 i)) in
  let* section := lift (BedrockBiomeSection.proxyToPrevious y) in
  on_biome i (put_st section).

Definition loadLegacyBiomes_from : M (BedrockChunkColumn * BinaryStream) unit :=
  on_object (let* c := get_st in
    if size (biomes_ c) =? 0 then push_biome_section 0 else ret tt) ;;;
  on_biome_stream 0 BedrockBiomeSection.readLegacy2D ;;;
  let* c := get_object in
  for_each (seqZ 1 (size (biomes_ c) - 1)) (fun i => on_object (put_proxy i)).

Definition loadLegacyBiomes (data : bytes) : M BedrockChunkColumn unit :=
  reading data loadLegacyBiomes_from.

Definition dumpLegacyBiomes (c : BedrockChunkColumn) : result bytes :=
  let! section := (if size (biomes_ c) =? 0 then BedrockBiomeSection.make 0 else vec_at (biomes_ c) 0) in
  buffer_of (BedrockBiomeSection.exportLegacy2D section).

Definition push_section (section : BedrockBiomeSection) : M BedrockChunkColumn unit :=
  let* c := get_st in put_st (set_biomes (biomes_ c ++ [section]) c).

(** One turn of the first loop of [loadBiomes]; returns [hasLast]. *)
Definition load_biome (type : BedrockSubChunk.ChunkStorageType) (y : Z) (hasLast : bool)
    : M (BedrockChunkColumn * BinaryStream) bool :=
  let* s := on_stream get_st in
  let oldOffset := offset s in
  let* next := on_stream readU8 in
  on_stream (seek oldOffset) ;;;
  if next =? 0xff then
    on_stream readU8 ;;;
    if negb hasLast then raise (BedrockChunkError "proxy biome section has no previous section")
    else
      let* proxy := lift (BedrockBiomeSection.proxyToPrevious y) in
      on_object (push_section proxy) ;;;
      ret hasLast
  else
    let* section := lift (BedrockBiomeSection.make y) in
    let* section := on_local section (BedrockBiomeSection.read type) in
    on_object (push_section section) ;;;
    ret true.

Fixpoint load_loop (type : BedrockSubChunk.ChunkStorageType) (ys : list Z) (hasLast : bool)
    : M (BedrockChunkColumn * BinaryStream) bool :=
  match ys with
  | [] => ret hasLast
  | y :: ys' =>
      let* s := on_stream get_st in
      if eof s then ret hasLast
      else
        let* hasLast := load_biome type y hasLast in
        load_loop type ys' hasLast
  end.

(** [while (biomes_.size() < maxCY_ - minCY_)]: the sections that are missing. *)
Definition fill_biome (hasLast : bool) : M BedrockChunkColumn unit :=
  let* c := get_st in
  let* y := lift (i32 (minCY_ c + to_i32 (size (biomes_ c)))) in
  let* section := lift (if hasLast then BedrockBiomeSection.proxyToPrevious y
                        else BedrockBiomeSection.make y) in
  push_section section.

Fixpoint fill_loop (fuel : nat) (hasLast : bool) : M BedrockChunkColumn unit :=
  let* c := get_st in
  let* n := lift (i32 (maxCY_ c - minCY_ c)) in
  if size (biomes_ c) <? n then
    match fuel with
    | O => raise OutOfFuel
    | S fuel' => fill_biome hasLast ;;; fill_loop fuel' hasLast
    end
  else ret tt.

Definition loadBiomes (type : BedrockSubChunk.ChunkStorageType) : M (BedrockChunkColumn * BinaryStream) unit :=
  on_object (let* c := get_st in put_st (set_biomes [] c)) ;;;
  let* c := get_object in
  let* hasLast := load_loop type (seqZ (minCY_ c) (maxCY_ c - minCY_ c)) false in
  on_object (fill_loop (Z.to_nat (maxCY_ c - minCY_ c)) hasLast).

Definition writeBiomes (c : BedrockChunkColumn) : M BinaryStream unit :=
  for_each (biomes_ c) (BedrockBiomeSection.exportTo BedrockSubChunk.Runtime).

(** ** The network form *)

(** One section; it starts as the [i]-th of the column. *)
Definition decode_section (i : Z) : M (BedrockChunkColumn * BinaryStream) unit :=
  let* section := lift (BedrockSubChunk.make (to_i8 i) 9) in
  let* section := on_local section (BedrockSubChunk.decodeFrom BedrockSubChunk.Runtime 0 None) in
  on_object (setSection (BedrockSubChunk.y_ section) section).

(** [for (i = 0; i < sectionCount; ++i)]: every section takes a byte. *)
Fixpoint decode_sections (fuel : nat) (i sectionCount : Z) : M (BedrockChunkColumn * BinaryStream) unit :=
  if i <? sectionCount then
    match fuel with
    | O => raise OutOfFuel
    | S fuel' => decode_section i ;;; decode_sections fuel' (i + 1) sectionCount
    end
  else ret tt.

(** The border blocks: a signed length that has to be zero. *)
Definition read_border (message : string) : M (BedrockChunkColumn * BinaryStream) unit :=
  let* encodedLength := on_stream readVarUInt in
  let borderBlocksLength := unzigzag_neg 32 encodedLength in
  let* s := on_stream get_st in
  if (borderBlocksLength <? 0) || (to_u64 borderBlocksLength >? remaining s) then
    raise (BedrockChunkError message)
  else
    let* borderBlocks := on_stream (readBytes (to_u64 borderBlocksLength)) in
    if negb (bool_decide (borderBlocks = [])) then
      raise (BedrockChunkError "border blocks are not supported yet")
    else ret tt.

Definition clear_sections : M BedrockChunkColumn unit :=
  let* c := get_st in
  let* n := lift (i32 (maxCY_ c - minCY_ c)) in
  put_st (set_sections (replicate (Z.to_nat n) None) c).

Definition networkDecodeNoCache_from (sectionCount : Z) (use3DBiomes : bool)
    : M (BedrockChunkColumn * BinaryStream) unit :=
  (if negb (sectionCount =? -1) && negb (sectionCount =? -2) then
     on_object clear_sections ;;;
     let* s := on_stream get_st in
     decode_sections (Z.to_nat (remaining s + 1)) 0 sectionCount
   else ret tt) ;;;
  (if use3DBiomes then loadBiomes BedrockSubChunk.Runtime
   else
     let* s := on_stream get_st in
     if remaining s <? 256 then raise (BedrockChunkError "legacy biome data is truncated")
     else
       let* data := on_stream (readBytes 256) in
       on_object (loadLegacyBiomes data)) ;;;
  let* s := on_stream get_st in
  (if negb (eof s) then read_border "invalid border block length" else ret tt) ;;;
  decodeBlockEntities LittleVarInt.

Definition networkDecodeNoCache (payload : bytes) (sectionCount : Z) (use3DBiomes : bool)
    : M BedrockChunkColumn unit :=
  reading payload (networkDecodeNoCache_from sectionCount use3DBiomes).

(** The overloads that take the biome format from the bounds. *)
Definition caves_and_cliffs (c : BedrockChunkColumn) : bool := (minCY_ c <? 0) || (maxCY_ c >? 16).

Definition networkDecodeNoCache_auto (payload : bytes) (sectionCount : Z) : M BedrockChunkColumn unit :=
  let* c := get_st in networkDecodeNoCache payload sectionCount (caves_and_cliffs c).

Definition encode_sections (compactStorage : bool) (c : BedrockChunkColumn) : M BinaryStream unit :=
  for_each (sections_ c) (fun section =>
    match section with
    | Some s => BedrockSubChunk.encodeTo 255 BedrockSubChunk.Runtime compactStorage None s
    | None => ret tt
    end).

Definition networkEncodeNoCache_to (use3DBiomes : bool) (c : BedrockChunkColumn) : M BinaryStream unit :=
  encode_sections true c ;;;
  (if use3DBiomes then writeBiomes c
   else let* data := lift (dumpLegacyBiomes c) in writeBytes data) ;;;
  writeVarUInt 0 ;;;
  encodeBlockEntities LittleVarInt None c.

Definition networkEncodeNoCache (use3DBiomes : bool) (c : BedrockChunkColumn) : result bytes :=
  buffer_of (networkEncodeNoCache_to use3DBiomes c).
Definition networkEncodeNoCache_auto (c : BedrockChunkColumn) : result bytes :=
  networkEncodeNoCache (caves_and_cliffs c) c.

Definition networkDecodeSubChunkNoCache (sectionY : Z) (payload : bytes) : M BedrockChunkColumn unit :=
  reading payload (decode_section sectionY ;;; decodeBlockEntities LittleVarInt).

Definition networkEncodeSubChunkNoCache (sectionY : Z) (compactStorage : bool) (c : BedrockChunkColumn)
    : result bytes :=
  let! section := getSectionAtIndex sectionY c in
  match section with
  | None => Throw (BedrockChunkError "subchunk section is not loaded")
  | Some s =>
      buffer_of (
        BedrockSubChunk.encodeTo 255 BedrockSubChunk.Runtime compactStorage None s ;;;
        encodeBlockEntities LittleVarInt (Some sectionY) c)
  end.

(** ** The cached network form *)

Record BedrockEncodedChunkCache := mkEncoded { blobHashes : list Z; cache_payload : bytes }.
Record BedrockEncodedSubChunkCache := mkEncodedSub { blobHash : Z; sub_payload : bytes }.

Definition store_blob (y : Z) (t : BedrockBlobStore.BlobType) (buffer : bytes) (c : BedrockChunkColumn)
    : M BedrockBlobStore.BedrockBlobStore Z :=
  let* hash := lift (XxHash64.xxHash64 buffer 0) in
  BedrockBlobStore.set hash (BedrockBlobStore.mkBlob (x_ c) y (z_ c) t buffer) ;;;
  ret hash.

Fixpoint store_sections (sections : list (option BedrockSubChunk))
    (provider : BedrockSubChunk.BedrockBlockStateProvider) (c : BedrockChunkColumn)
    : M BedrockBlobStore.BedrockBlobStore (list Z) :=
  match sections with
  | [] => ret []
  | None :: sections' => store_sections sections' provider c
  | Some s :: sections' =>
      let* buffer := lift (BedrockSubChunk.encode BedrockSubChunk.NetworkPersistence true provider s) in
      let* hash := store_blob (BedrockSubChunk.y_ s) BedrockBlobStore.ChunkSection buffer c in
      let* hashes := store_sections sections' provider c in
      ret (hash :: hashes)
  end.

Definition networkEncodeCached (use3DBiomes : bool) (provider : BedrockSubChunk.BedrockBlockStateProvider)
    (c : BedrockChunkColumn) : M BedrockBlobStore.BedrockBlobStore BedrockEncodedChunkCache :=
  let* hashes := (
    if negb use3DBiomes then
      let* hashes := store_sections (sections_ c) provider c in
      let* biomeBuffer := lift (dumpLegacyBiomes c) in
      let* biomeHash := store_blob 0 BedrockBlobStore.Biomes biomeBuffer c in
      ret (hashes ++ [biomeHash])
    else
      let* biomeBuffer := lift (buffer_of (writeBiomes c)) in
      let* biomeHash := store_blob 0 BedrockBlobStore.Biomes biomeBuffer c in
      ret [biomeHash]) in
  let* payload := lift (buffer_of (
    writeVarUInt 0 ;;;
    if negb use3DBiomes then encodeBlockEntities LittleVarInt None c else ret tt)) in
  ret (mkEncoded hashes payload).

Definition networkEncodeSubChunkCached (sectionY : Z) (compactStorage : bool) (c : BedrockChunkColumn)
    : M BedrockBlobStore.BedrockBlobStore BedrockEncodedSubChunkCache :=
  let* section := lift (getSectionAtIndex sectionY c) in
  match section with
  | None => raise (BedrockChunkError "subchunk section is not loaded")
  | Some s =>
      let* terrain := lift (BedrockSubChunk.encode BedrockSubChunk.Runtime compactStorage None s) in
      let* hash := store_blob sectionY BedrockBlobStore.ChunkSection terrain c in
      let* payload := lift (buffer_of (encodeBlockEntities LittleVarInt (Some sectionY) c)) in
      ret (mkEncodedSub hash payload)
  end.

Definition is_section_blob (store : BedrockBlobStore.BedrockBlobStore) (hash : Z) : bool :=
  match BedrockBlobStore.get hash store with
  | Some entry =>
      match BedrockBlobStore.blob_type entry with
      | BedrockBlobStore.ChunkSection => true
      | BedrockBlobStore.Biomes => false
      end
  | None => false
  end.

Definition decode_blob (resolver : BedrockSubChunk.BedrockBlockStateResolver) (hasSectionBlobs : bool)
    (entry : BedrockBlobStore.BlobEntry) : M BedrockChunkColumn unit :=
  match BedrockBlobStore.blob_type entry with
  | BedrockBlobStore.Biomes =>
      if hasSectionBlobs then loadLegacyBiomes (BedrockBlobStore.buffer entry)
      else reading (BedrockBlobStore.buffer entry) (loadBiomes BedrockSubChunk.NetworkPersistence)
  | BedrockBlobStore.ChunkSection =>
      let* section := lift (BedrockSubChunk.make (to_i8 (BedrockBlobStore.blob_y entry)) 8) in
      match BedrockSubChunk.decodeFrom BedrockSubChunk.NetworkPersistence 0 resolver
              (section, from_data (BedrockBlobStore.buffer entry)) with
      | (Throw e, _) => raise e
      | (Ok _, (section, stream)) =>
          if negb (eof stream) then
            raise (BedrockChunkError "cached chunk-section blob has trailing bytes")
          else setSection (BedrockSubChunk.y_ section) section
      end
  end.

(** Past the test every hash is in the store, so that no more misses are added. *)
Definition networkDecodeCached (hashes : list Z) (store : BedrockBlobStore.BedrockBlobStore)
    (payload : bytes) (resolver : BedrockSubChunk.BedrockBlockStateResolver) : M BedrockChunkColumn (list Z) :=
  (if bool_decide (payload = []) then ret tt
   else reading payload (
     read_border "invalid cached border block length" ;;;
     decodeBlockEntities LittleVarInt)) ;;;
  let misses := filter (fun hash => BedrockBlobStore.has hash store = false) hashes in
  if negb (bool_decide (misses = [])) then ret misses
  else
    clear_sections ;;;
    for_each hashes (fun hash =>
      match BedrockBlobStore.get hash store with
      | None => ret tt
      | Some entry => decode_blob resolver (existsb (is_section_blob store) hashes) entry
      end) ;;;
    ret [].

(** ** Blocks with their data *)

(** [setBlock(pos, block)]. *)
Definition setBlock (pos : BlockPosition) (block : BlockData) : M BedrockChunkColumn unit :=
  let* section := ensureSection (py pos) in
  let x := localCoord (px pos) in
  let y := localCoord (py pos) in
  let z := localCoord (pz pos) in
  (match layer pos with
   | Some l => on_section section (BedrockSubChunk.setBlockStateId l x y z (stateId block))
   | None =>
       on_section section (BedrockSubChunk.setBlockStateId 0 x y z (stateId block)) ;;;
       match superimposed block with
       | Some id => on_section section (BedrockSubChunk.setBlockStateId 1 x y z id)
       | None => ret tt
       end
   end) ;;;
  on_section section (BedrockSubChunk.setBlockLight x y z (light block)) ;;;
  on_section section (BedrockSubChunk.setSkyLight x y z (skyLight block)) ;;;
  match entity block with
  | Some tag => setBlockEntityNbt pos tag
  | None => ret tt
  end.

(** [setBlock(pos, block, registry)]; [air] is the default state of
    [registry.blockByName("air")]. *)
Definition setBlock_registry (air : option Z) (pos : BlockPosition) (block : BlockData)
    : M BedrockChunkColumn unit :=
  let* c := get_st in
  let* section := lift (getSection (py pos) c) in
  (match section with
   | Some _ => ret tt
   | None =>
       match air with
       | None => raise (BedrockChunkError "Bedrock block registry does not contain air")
       | Some defaultState =>
           let sectionY := Z.shiftr (py pos) 4 in
           let* s := lift (BedrockSubChunk.createAir (to_i8 sectionY) defaultState) in
           setSection sectionY s
       end
   end) ;;;
  setBlock pos block.

Definition initialize (air : option Z) (initializer : option (Z -> Z -> Z -> result (option BlockData)))
    : M BedrockChunkColumn unit :=
  match initializer with
  | None => raise (BedrockChunkError "chunk initializer must not be empty")
  | Some init =>
      let* c := get_st in
      for_each (seqZ (minY_ c) (maxY_ c - minY_ c)) (fun y =>
        for_each (seqZ 0 16) (fun z => for_each (seqZ 0 16) (fun x =>
          let* block := lift (init x y z) in
          match block with
          | Some b => setBlock_registry air (mkPos x y z None) b
          | None => ret tt
          end)))
  end.

End BedrockChunkColumn.
