(* ===== verification/ColumnState.v ===== *)
(** * Chunk columns: the invariant and the block operations

    [col_ok] says that the bounds agree with the containers and that every
    section and biome section satisfies its own invariant; [block_at] is the
    abstract view of the blocks. *)

From S2P Require Import Prelude MachineInt BinaryStream Nbt PalettedStorage SubChunk SubChunkState SubChunkCodec BiomeSection ChunkColumn StreamState.
Import BedrockChunkColumn.

Abbreviation biome_wf := BedrockBiomeSection.biome_wf.

(** ** The invariant *)

Definition section_ok (s : option BedrockSubChunk) : Prop :=
  match s with Some s => sub_ok s | None => True end.

Record col_ok (c : BedrockChunkColumn) : Prop := mkColOk {
  ck_order : minCY_ c < maxCY_ c;
  ck_min : is_s 28 (minCY_ c);
  ck_max : is_s 28 (maxCY_ c);
  ck_minY : minY_ c = minCY_ c * 16;
  ck_maxY : maxY_ c = maxCY_ c * 16;
  ck_co : co_ c = Z.abs (minCY_ c);
  ck_size : size (sections_ c) = maxCY_ c - minCY_ c;
  ck_sections : Forall section_ok (sections_ c);
  ck_biomes_size : size (biomes_ c) = maxCY_ c - minCY_ c;
  ck_biomes : Forall biome_wf (biomes_ c)
}.

(** ** Construction *)

Lemma i32_ok v : is_s 32 v -> i32 v = Ok v.
Proof. intros Hv. unfold i32. by rewrite bool_decide_true. Qed.

Lemma push_biomes_ok n y c :
  0 <= n -> exists bs, for_each (seqZ y n) push_biome_section c = (Ok tt, set_biomes (biomes_ c ++ bs) c) /\
    size bs = n /\ Forall BedrockBiomeSection.biome_ok bs /\
    Forall (fun b => BedrockBiomeSection.proxy_ b = false /\ BedrockBiomeSection.palette_ b = [0] /\
      forall i, BedrockBiomeSection.biome_at b i = 0) bs.
Proof.
  intros Hn. revert y c. pattern n. apply natlike_ind; [| |done].
  - intros y c. exists []. rewrite app_nil_r. split; [by destruct c|]. by repeat constructor.
  - clear n Hn. intros n Hn IH y c. rewrite seqZ_cons by lia. rewrite Z.pred_succ. cbn [for_each].
    destruct (BedrockBiomeSection.make_biome_ok y) as (b & Eb & Hb & _ & Hp & Hpal & Hat).
    destruct (IH (Z.succ y) (set_biomes (biomes_ c ++ [b]) c)) as (bs & E & Hs & Hbs & Hd).
    exists (b :: bs). rewrite (bind_ok _ _ _ tt (set_biomes (biomes_ c ++ [b]) c)).
    + rewrite E. cbn [biomes_ set_biomes]. rewrite <-app_assoc. split; [done|].
      rewrite size_cons, Hs. split_and!; [lia|by constructor|by constructor].
    + unfold push_biome_section. unfold bind, lift, get_st, put_st. by rewrite Eb.
Qed.

(** Bounds that do not overflow. *)
Definition bounds_ok (minCY maxCY : Z) : Prop :=
  minCY < maxCY /\ is_s 27 minCY /\ is_s 27 maxCY.

Lemma setBounds_ok minCY maxCY c :
  bounds_ok minCY maxCY ->
  exists bs, setBounds minCY maxCY c = (Ok tt, set_biomes bs (set_sections (replicate (Z.to_nat (maxCY - minCY)) None)
      (set_dims minCY maxCY (minCY * 16) (maxCY * 16) (maxCY * 16 + Z.abs (minCY * 16)) (Z.abs minCY) c))) /\
    size bs = maxCY - minCY /\ Forall BedrockBiomeSection.biome_ok bs /\
    Forall (fun b => BedrockBiomeSection.proxy_ b = false /\ BedrockBiomeSection.palette_ b = [0] /\
      forall i, BedrockBiomeSection.biome_at b i = 0) bs.
Proof.
  intros (Hlt & Hmin & Hmax). unfold is_s in Hmin, Hmax. change (2 ^ (27 - 1)) with 67108864 in *.
  unfold setBounds. rewrite (proj2 (Z.leb_gt _ _)) by lia.
  assert (forall v, - 2147483648 <= v < 2147483648 -> i32 v = Ok v) as Hi by (intros; by apply i32_ok).
  do 6 (rewrite Hi by lia; rewrite bind_lift). rewrite bind_get, bind_put.
  destruct (push_biomes_ok (maxCY - minCY) minCY (set_biomes [] (set_sections (replicate (Z.to_nat (maxCY - minCY)) None)
      (set_dims minCY maxCY (minCY * 16) (maxCY * 16) (maxCY * 16 + Z.abs (minCY * 16)) (Z.abs minCY) c)))
      ltac:(lia)) as (bs & E & Hs).
  exists bs. by rewrite E.
Qed.

Lemma setBounds_col_ok minCY maxCY c :
  bounds_ok minCY maxCY -> exists c', setBounds minCY maxCY c = (Ok tt, c') /\ col_ok c'.
Proof.
  intros Hb. destruct (setBounds_ok minCY maxCY c Hb) as (bs & -> & Hs & Hok & _).
  destruct Hb as (Hlt & Hmin & Hmax). eexists. split; [done|].
  assert (forall v, is_s 27 v -> is_s 28 v) as Hw by (unfold is_s; intros v; change (2 ^ (28 - 1)) with 134217728; change (2 ^ (27 - 1)) with 67108864; lia).
  split; cbn [set_biomes set_sections set_dims minCY_ maxCY_ minY_ maxY_ co_ sections_ biomes_]; auto.
  - unfold size. rewrite length_replicate. lia.
  - by apply Forall_replicate.
  - eapply Forall_impl; [|exact Hok]. intros b Hb. apply (BedrockBiomeSection.bo_wf b Hb).
Qed.

Lemma column_make_ok x z : exists c, make x z = Ok c /\ col_ok c.
Proof.
  unfold make, exec.
  destruct (setBounds_col_ok 0 16 (mkColumn x z 0 16 0 256 256 0 [] [] ∅ ∅ ∅ None)) as (c & -> & Hc).
  - by apply (bool_decide_unpack (bounds_ok 0 16)).
  - by exists c.
Qed.

(** ** Sections *)

Definition sec (y : Z) : Z := Z.shiftr y 4.

Lemma sec_range y : is_s 32 y -> is_s 28 (sec y).
Proof.
  unfold is_s, sec. change (2 ^ (32 - 1)) with 2147483648. change (2 ^ (28 - 1)) with 134217728.
  intros Hy. rewrite shiftr_div by lia. change (2 ^ 4) with 16.
  split; [apply Z.div_le_lower_bound|apply Z.div_lt_upper_bound]; lia.
Qed.

Lemma index_i32 c v : col_ok c -> is_s 28 v -> i32 (co_ c + v) = Ok (co_ c + v).
Proof.
  intros Hc Hv. apply i32_ok. rewrite (ck_co c Hc). pose proof (ck_min c Hc) as Hm. unfold is_s in *.
  change (2 ^ (28 - 1)) with 134217728 in *. change (2 ^ (32 - 1)) with 2147483648. lia.
Qed.

Lemma section_at_Some c i s :
  section_at i c = Some s <-> 0 <= i < size (sections_ c) /\ sections_ c !! Z.to_nat i = Some (Some s).
Proof.
  unfold section_at. split.
  - destruct (_ || _) eqn:E; [done|]. apply orb_false_iff in E as [E1 E2].
    apply Z.ltb_ge in E1. rewrite Z.geb_leb in E2. apply Z.leb_gt in E2.
    destruct (sections_ c !! Z.to_nat i) as [[t|]|]; [|done..]. intros [= ->]. split; [lia|done].
  - intros [Hi ->]. destruct (_ || _) eqn:E; [|done]. apply orb_true_iff in E as [E|E].
    + apply Z.ltb_lt in E. lia.
    + rewrite Z.geb_leb in E. apply Z.leb_le in E. lia.
Qed.

Lemma section_at_ok c i s : col_ok c -> section_at i c = Some s -> sub_ok s.
Proof.
  intros Hc [_ Hs]%section_at_Some. by apply (Forall_lookup_1 _ _ _ _ (ck_sections c Hc) Hs).
Qed.

(** Writing a section back. *)
Definition with_section (i : Z) (s : BedrockSubChunk) (c : BedrockChunkColumn) : BedrockChunkColumn :=
  set_sections (<[Z.to_nat i := Some s]> (sections_ c)) c.

Lemma with_section_ok i s c : col_ok c -> sub_ok s -> col_ok (with_section i s c).
Proof.
  intros [] Hs. split; cbn [with_section set_sections minCY_ maxCY_ minY_ maxY_ co_ sections_ biomes_];
    rewrite ?size_insert; try done. by apply Forall_insert.
Qed.

Lemma section_at_with i s c j :
  0 <= i < size (sections_ c) ->
  section_at j (with_section i s c) = if j =? i then Some s else section_at j c.
Proof.
  intros Hi. unfold section_at. cbn [with_section set_sections sections_]. rewrite size_insert.
  destruct (Z.eqb_spec j i) as [->|Hne].
  - rewrite (proj2 (Z.ltb_ge _ _)) by lia. destruct (Z.geb_spec i (size (sections_ c))); [lia|].
    cbn [orb]. rewrite list_lookup_insert_eq by (unfold size in Hi; lia). done.
  - destruct (_ || _) eqn:E; [done|]. apply orb_false_iff in E as [E1 E2]. apply Z.ltb_ge in E1.
    by rewrite list_lookup_insert_ne by lia.
Qed.

Lemma on_section_ok {A} i (m : M BedrockSubChunk A) s a s' c :
  section_at i c = Some s -> m s = (Ok a, s') -> on_section i m c = (Ok a, with_section i s' c).
Proof. intros Hs Hm. unfold on_section. by rewrite Hs, Hm. Qed.

(** ** The abstract view *)

Definition in_bounds (c : BedrockChunkColumn) (y : Z) : Prop :=
  0 <= co_ c + sec y < size (sections_ c).
#[export] Instance in_bounds_dec c y : Decision (in_bounds c y).
Proof. unfold in_bounds. apply _. Defined.

Definition block_at (c : BedrockChunkColumn) (l x y z : Z) : Z :=
  match section_at (co_ c + sec y) c with
  | None => 0
  | Some s => state_at s l (block_index x y z)
  end.

Lemma localCoord_mod v : localCoord v = v mod 16.
Proof.
  unfold localCoord. rewrite land_15. apply to_u8_id. unfold is_u. change (2 ^ 8) with 256.
  pose proof (Z.mod_pos_bound v 16 ltac:(lia)). lia.
Qed.

Lemma block_index_local x y z :
  block_index (localCoord x) (localCoord y) (localCoord z) = block_index x y z.
Proof. unfold block_index, PalettedStorage.block_index. rewrite !localCoord_mod. by rewrite !Z.mod_mod. Qed.

Definition pos_ok (pos : BlockPosition) : Prop :=
  is_s 32 (py pos) /\ match layer pos with Some l => is_u 8 l | None => True end.

Lemma layer_of_range pos : pos_ok pos -> 0 <= layer_of pos <= 255.
Proof. intros [_ H]. unfold layer_of, is_u in *. destruct (layer pos); lia. Qed.

Lemma getSection_ok c y : col_ok c -> is_s 32 y -> getSection y c = Ok (section_at (co_ c + sec y) c).
Proof.
  intros Hc Hy. unfold getSection, sectionIndexForBlockY. fold (sec y).
  by rewrite (index_i32 c _ Hc (sec_range y Hy)).
Qed.

Lemma getBlockStateId_at c pos :
  col_ok c -> pos_ok pos ->
  getBlockStateId pos c = Ok (block_at c (layer_of pos) (px pos) (py pos) (pz pos)).
Proof.
  intros Hc Hp. unfold getBlockStateId, block_at. rewrite getSection_ok by (done || apply Hp). cbn [rbind].
  destruct (section_at (co_ c + sec (py pos)) c) as [s|] eqn:E; [|done].
  rewrite (getBlockStateId_ok s) by (by eapply section_at_ok || apply layer_of_range).
  by rewrite block_index_local.
Qed.

(** ** Setting a block *)

Definition palettes_small (s : BedrockSubChunk) : Prop :=
  Forall (fun pal => size pal < 2 ^ 32) (BedrockSubChunk.palettes_ s).

Lemma fresh_section y v :
  exists s, BedrockSubChunk.make y v = Ok s /\ sub_ok s /\ palettes_small s /\
    BedrockSubChunk.palettes_ s = [] /\ BedrockSubChunk.airStateId_ s = 0 /\
    BedrockSubChunk.y_ s = y /\ BedrockSubChunk.subChunkVersion_ s = v.
Proof.
  destruct (make_sub_ok y v) as (s & E & Hs & Hp & _ & Hy & Hv & Ha). exists s.
  split_and!; try done. unfold palettes_small. rewrite Hp. by apply Forall_nil.
Qed.

Lemma state_at_fresh s l i :
  BedrockSubChunk.palettes_ s = [] -> BedrockSubChunk.airStateId_ s = 0 -> state_at s l i = 0.
Proof. intros Hp Ha. unfold state_at. by rewrite Hp, lookup_nil. Qed.

Lemma ensureSection_ok c y :
  col_ok c -> is_s 32 y -> in_bounds c y ->
  (forall s, section_at (co_ c + sec y) c = Some s -> palettes_small s) ->
  exists c' s, ensureSection y c = (Ok (co_ c + sec y), c') /\ col_ok c' /\
    section_at (co_ c + sec y) c' = Some s /\ sub_ok s /\ palettes_small s /\
    co_ c' = co_ c /\ biomes_ c' = biomes_ c /\ size (sections_ c') = size (sections_ c) /\
    (forall j, j <> co_ c + sec y -> section_at j c' = section_at j c) /\
    (forall l i, match section_at (co_ c + sec y) c with
                 | Some t => state_at s l i = state_at t l i
                 | None => state_at s l i = 0
                 end).
Proof.
  intros Hc Hy Hin Hsm. unfold ensureSection. fold (sec y). rewrite bind_get.
  rewrite (index_i32 c _ Hc (sec_range y Hy)), bind_lift. unfold in_bounds in Hin.
  rewrite (proj2 (Z.ltb_ge _ _)) by lia. destruct (Z.geb_spec (co_ c + sec y) (size (sections_ c))); [lia|].
  cbn [orb]. destruct (section_at (co_ c + sec y) c) as [s|] eqn:E.
  - exists c, s. split_and!; try done; [by eapply section_at_ok|by apply Hsm].
  - destruct (fresh_section (to_i8 (sec y)) 9) as (s & Es & Hs & Hps & Hpal & Hair & _).
    rewrite Es, bind_lift. exists (with_section (co_ c + sec y) s c), s.
    split_and!; try done; [by apply with_section_ok| | | |].
    + by rewrite section_at_with, Z.eqb_refl.
    + cbn [with_section set_sections sections_]. by rewrite size_insert.
    + intros j Hj. rewrite section_at_with by done. by rewrite (proj2 (Z.eqb_neq _ _)).
    + intros l i. by apply state_at_fresh.
Qed.

Lemma ensureSection_throws c y :
  col_ok c -> is_s 32 y -> ~ in_bounds c y ->
  ensureSection y c = (Throw (BedrockChunkError "block Y outside chunk bounds"), c).
Proof.
  intros Hc Hy Hin. unfold ensureSection. fold (sec y). rewrite bind_get.
  rewrite (index_i32 c _ Hc (sec_range y Hy)), bind_lift. unfold in_bounds in Hin.
  destruct (Z.ltb_spec (co_ c + sec y) 0); [done|].
  destruct (Z.geb_spec (co_ c + sec y) (size (sections_ c))); [done|lia].
Qed.

(** The same block: the same layer and height, the same column of the chunk. *)
Definition same_block (p q : BlockPosition) : Prop :=
  layer_of p = layer_of q /\ py p = py q /\ px p mod 16 = px q mod 16 /\ pz p mod 16 = pz q mod 16.
#[export] Instance same_block_dec p q : Decision (same_block p q).
Proof. unfold same_block. apply _. Defined.

Lemma same_block_index y y' :
  sec y = sec y' -> y mod 16 = y' mod 16 -> y = y'.
Proof.
  unfold sec. rewrite !shiftr_div by lia. change (2 ^ 4) with 16. intros.
  pose proof (Z.div_mod y 16 ltac:(lia)). pose proof (Z.div_mod y' 16 ltac:(lia)). lia.
Qed.

Lemma setBlockStateId_at c pos id :
  col_ok c -> pos_ok pos -> in_bounds c (py pos) ->
  (forall s, section_at (co_ c + sec (py pos)) c = Some s -> palettes_small s) ->
  exists c', setBlockStateId pos id c = (Ok tt, c') /\ col_ok c' /\ co_ c' = co_ c /\
    size (sections_ c') = size (sections_ c) /\ biomes_ c' = biomes_ c /\
    forall q, pos_ok q ->
      block_at c' (layer_of q) (px q) (py q) (pz q) =
      if decide (same_block q pos) then id else block_at c (layer_of q) (px q) (py q) (pz q).
Proof.
  intros Hc Hp Hin Hsm. unfold setBlockStateId.
  destruct (ensureSection_ok c (py pos) Hc (proj1 Hp) Hin Hsm)
    as (c1 & s & E1 & Hc1 & Hs & Hok & Hps & Hco & Hb & Hsz & Hother & Hst).
  rewrite (bind_ok _ _ _ _ _ E1). set (i := co_ c + sec (py pos)) in *.
  destruct (setBlockStateId_ok s (layer_of pos) (localCoord (px pos)) (localCoord (py pos))
    (localCoord (pz pos)) id Hok (layer_of_range pos Hp)) as (s' & E2 & Hok' & _ & _ & Hat).
  { intros pal Hpal. by apply (Forall_lookup_1 _ _ _ _ Hps Hpal). }
  rewrite block_index_local in Hat.
  rewrite (on_section_ok i _ s tt s' c1 Hs E2). exists (with_section i s' c1).
  split_and!; [done|by apply with_section_ok|done| |done|].
  { cbn [with_section set_sections sections_]. by rewrite size_insert. }
  intros q Hq. unfold block_at. change (co_ (with_section i s' c1)) with (co_ c1). rewrite Hco.
  rewrite section_at_with by (rewrite Hsz; apply Hin).
  pose proof (layer_of_range q Hq) as Hlq.
  destruct (Z.eqb_spec (co_ c + sec (py q)) i) as [Ei|Hne].
  - rewrite Ei, Hat by (lia || apply index_range). specialize (Hst (layer_of q) (block_index (px q) (py q) (pz q))).
    destruct (Z.eqb_spec (layer_of q) (layer_of pos)) as [El|El]; cbn [andb].
    2:{ rewrite decide_False by (intros (? & _); done). destruct (section_at i c); done. }
    destruct (Z.eqb_spec (block_index (px q) (py q) (pz q)) (block_index (px pos) (py pos) (pz pos))) as [Eb|Eb];
      unfold block_index in Eb.
    + apply PalettedStorage.block_index_inj in Eb as (? & ? & ?).
      rewrite decide_True; [done|]. split_and!; [done| |done|done].
      apply same_block_index; [unfold i in Ei; lia|done].
    + rewrite decide_False by (intros (_ & Ey & ? & ?); apply Eb; apply PalettedStorage.block_index_inj; by rewrite Ey).
      destruct (section_at i c); done.
  - rewrite decide_False by (intros (_ & Ey & _); apply Hne; unfold i; by rewrite Ey).
    by rewrite Hother.
Qed.

(** ** Properties *)

(** C21: on a well-formed column, [setBlockStateId] inside the bounds creates
    the section if need be, keeps the invariant and changes exactly the
    addressed block, in every layer from 0 to 255; outside the bounds it throws
    and changes nothing; every read returns. *)
Theorem column_set_get c pos id :
  col_ok c -> pos_ok pos ->
  (forall s, section_at (co_ c + sec (py pos)) c = Some s -> palettes_small s) ->
  (in_bounds c (py pos) ->
     exists c', setBlockStateId pos id c = (Ok tt, c') /\ col_ok c' /\
       forall q, pos_ok q ->
         getBlockStateId q c' = if decide (same_block q pos) then Ok id else getBlockStateId q c) /\
  (~ in_bounds c (py pos) ->
     setBlockStateId pos id c = (Throw (BedrockChunkError "block Y outside chunk bounds"), c) /\
     getBlockStateId pos c = Ok 0).
Proof.
  intros Hc Hp Hsm. split.
  - intros Hin. destruct (setBlockStateId_at c pos id Hc Hp Hin Hsm) as (c' & E & Hc' & _ & _ & _ & Hat).
    exists c'. split_and!; [done|done|]. intros q Hq.
    rewrite !getBlockStateId_at, Hat by done. by case_decide.
  - intros Hin. split.
    + unfold setBlockStateId. by rewrite (bind_throw _ _ _ _ _ (ensureSection_throws c (py pos) Hc (proj1 Hp) Hin)).
    + rewrite getBlockStateId_at by done. unfold block_at.
      destruct (section_at (co_ c + sec (py pos)) c) as [s|] eqn:E; [|done].
      apply section_at_Some in E as [E _]. by destruct Hin.
Qed.

Lemma column_set_get_witness :
  exists c c', make 3 4 = Ok c /\ setBlockStateId (mkPos 17 70 (-1) None) 55 c = (Ok tt, c') /\
    getBlockStateId (mkPos 1 70 15 (Some 0)) c' = Ok 55 /\
    getBlockStateId (mkPos 1 71 15 (Some 0)) c' = getBlockStateId (mkPos 1 71 15 (Some 0)) c.
Proof.
  destruct (setBounds_ok 0 16 (mkColumn 3 4 0 16 0 256 256 0 [] [] ∅ ∅ ∅ None)) as (bs & E & _);
    [by apply (bool_decide_unpack (bounds_ok 0 16))|].
  destruct (column_make_ok 3 4) as (c & Ec & Hc). pose proof Ec as Ec'. unfold make, exec in Ec'. rewrite E in Ec'.
  assert (pos_ok (mkPos 17 70 (-1) None)) as Hp by (split; [by apply (bool_decide_unpack _)|exact I]).
  assert (pos_ok (mkPos 1 70 15 (Some 0)) /\ pos_ok (mkPos 1 71 15 (Some 0))) as [H1 H2]
    by (split; split; by apply (bool_decide_unpack _)).
  destruct (column_set_get c (mkPos 17 70 (-1) None) 55 Hc Hp) as [Hin _].
  { intros s Hs. injection Ec' as <-. vm_compute in Hs. discriminate. }
  destruct Hin as (c' & Es & _ & Hg).
  { injection Ec' as <-. by vm_compute. }
  exists c, c'. split; [exact Ec|]. split; [exact Es|]. rewrite !Hg by assumption.
  split; reflexivity.
Defined.
