(* ===== verification/ColumnCodec.v ===== *)
(** * Chunk columns: the network form

    Decoding any payload keeps the invariant of the column or throws; decoding
    what a column was encoded to gives the same blocks, biomes and block
    entities. *)

From S2P Require Import Prelude MachineInt ZigZag Leb128 Endian BinaryStream Nbt PalettedStorage SubChunk SubChunkState SubChunkCodec BiomeSection ChunkColumn ColumnState StreamState.
Import BedrockChunkColumn.

(** ** Progress of the section and biome readers *)

#[export] Hint Resolve steps_readU8 steps_readVarUInt steps_readU32LE steps_readZigZag
  steps_readRuntimeSingle : forwards.

Lemma forwards_storage_read : forwards 0 PalettedStorage.read.
Proof. unfold PalettedStorage.read, PalettedStorage.read_word. forwards_tac. Qed.

Lemma forwards_on_block_stream {A} layer (m : M (PalettedStorage.PalettedStorage * BinaryStream) A) :
  forwards 0 m -> forwards 0 (BedrockSubChunk.on_block_stream layer m).
Proof.
  intros H t s a t' s' Hs Hb E. unfold BedrockSubChunk.on_block_stream in E. cbn [fst snd] in E.
  destruct (vec_at _ _) as [b|]; [|done]. destruct (m (b, s)) as [r [b' str]] eqn:Em.
  destruct (vec_set _ _ _) as [l|]; [|done]. injection E as -> _ <-. by eapply H.
Qed.
#[export] Hint Resolve forwards_storage_read forwards_on_block_stream : forwards.

Lemma forwards_nbt {T} encoding limits :
  0 <= maxDepth limits -> forwards (T := T) 1 (on_stream (Nbt.read encoding limits)).
Proof.
  intros Hl t s a t' s' Hs Hb E. destruct (read_advances encoding limits Hl) as [H _].
  unfold on_stream, zoom in E. cbn [fst snd] in E. specialize (H s Hs Hb).
  destruct (Nbt.read encoding limits s) as [r s1]. injection E as -> _ <-. exact H.
Qed.
Lemma forwards_nbt0 {T} encoding : forwards (T := T) 0 (on_stream (Nbt.read encoding default_limits)).
Proof. apply (forwards_weaken 1); [lia|by apply forwards_nbt]. Qed.
#[export] Hint Resolve forwards_nbt0 : forwards.

Lemma forwards_load layer bits format resolver :
  forwards 0 (BedrockSubChunk.loadPalettedBlocks layer bits format resolver).
Proof.
  unfold BedrockSubChunk.loadPalettedBlocks, BedrockSubChunk.read_runtime_entry,
    BedrockSubChunk.read_persistent_entry. forwards_tac.
Qed.
#[export] Hint Resolve forwards_load : forwards.

Lemma forwards_decodeFrom format air resolver : forwards 1 (BedrockSubChunk.decodeFrom format air resolver).
Proof.
  unfold BedrockSubChunk.decodeFrom. apply forwards_then; [auto with forwards|]. intros _.
  apply forwards_first.
  - unfold BedrockSubChunk.read_header. apply forwards_first; [by apply forwards_stream, steps_readU8|].
    intros v. forwards_tac.
  - unfold BedrockSubChunk.read_layer. intros n. forwards_tac.
Qed.

(** ** Decoding any payload *)

(** A column with the given position and bounds. *)
Definition dims (c : BedrockChunkColumn) : Z * Z * Z * Z := (x_ c, z_ c, minCY_ c, maxCY_ c).
Definition column_in (d : Z * Z * Z * Z) (c : BedrockChunkColumn) : Prop := col_ok c /\ dims c = d.

Lemma column_in_width d c : column_in d c -> i32 (maxCY_ c - minCY_ c) = Ok (maxCY_ c - minCY_ c).
Proof.
  intros [Hc _]. apply i32_ok. pose proof (ck_min c Hc) as H1. pose proof (ck_max c Hc) as H2. unfold is_s in *.
  change (2 ^ (28 - 1)) with 134217728 in *. change (2 ^ (32 - 1)) with 2147483648. lia.
Qed.

Lemma setSection_safe d sectionY s c :
  column_in d c -> is_s 8 sectionY -> sub_ok s ->
  runs_safe (setSection sectionY s) c (fun _ => column_in d).
Proof.
  intros [Hc Hd] Hy Hs. unfold setSection, runs_safe. rewrite bind_get.
  rewrite (index_i32 c sectionY Hc), bind_lift.
  2:{ unfold is_s in *. change (2 ^ (8 - 1)) with 128 in Hy. change (2 ^ (28 - 1)) with 134217728. lia. }
  destruct (_ || _); [done|]. unfold put_section. rewrite bind_get. cbn [put_st]. split; [|done].
  apply (with_section_ok (co_ c + sectionY) (BedrockSubChunk.set_y (to_i8 sectionY) s) c Hc). by destruct Hs.
Qed.

Lemma decode_section_moves d i :
  pmoves 1 (decode_section i) (column_in d) (fun _ => column_in d).
Proof.
  unfold decode_section. destruct (make_sub_ok (to_i8 i) 9) as (s & -> & Hs & _ & _ & Hy & _).
  apply forwards_pmoves.
  2:{ apply forwards_then; [auto with forwards|]. intros t. apply forwards_first; [|auto with forwards].
      apply forwards_local, forwards_decodeFrom. }
  apply psafe_lift_bind, psafe_eq. intros t Ht. eapply psafe_bind.
  - eapply pmoves_psafe, (pmoves_local s _ 1 (eq t) (fun t => sub_ok t /\ is_s 8 (BedrockSubChunk.y_ t)));
      [|split; [done|rewrite Hy; by apply to_signed_range]].
    apply forwards_pmoves; [by apply (decodeFrom_safe _ 0 None)|apply forwards_decodeFrom].
  - cbv beta. intros s'. apply psafe_object. intros u [<- [(Hs' & _ & _ & Hy') _]]. by apply setSection_safe.
Qed.

Lemma decode_sections_safe d : forall fuel i n t s,
  column_in d t -> valid s -> is_bytes (readableBuffer s) -> size (rest s) < Z.of_nat fuel ->
  runs_safe (decode_sections fuel i n) (t, s)
    (fun _ p => column_in d p.1 /\ valid p.2 /\ readableBuffer p.2 = readableBuffer s).
Proof.
  induction fuel as [|fuel IH]; intros i n t s Ht Hs Hb Hf; cbn [decode_sections].
  - pose proof (size_nonneg (rest s)). lia.
  - destruct (i <? n); [|by apply runs_safe_ret].
    eapply runs_safe_bind; [by apply decode_section_moves|]. cbv beta. intros [] [t1 s1] (Ht1 & Hadv). pose proof Hadv as (Hr & Ho & Hv1).
    cbn [fst snd] in *. eapply runs_safe_mono; [apply IH; [done|done|by rewrite Hr|]|].
    + by apply (advances_fuel s).
    + intros _ p (? & ? & ?). split_and!; congruence || done.
Qed.

(** ** Biomes of any payload *)

(** The biome sections are being read: [k] of them so far. *)
Definition loading (d : Z * Z * Z * Z) (k : Z) (c : BedrockChunkColumn) : Prop :=
  (exists bs, column_in d (set_biomes bs c)) /\ Forall biome_wf (biomes_ c) /\ size (biomes_ c) = k.

Lemma column_loading d c : column_in d c -> loading d 0 (set_biomes [] c).
Proof. intros Hc. split_and!; [|constructor|done]. exists (biomes_ c). by destruct c. Qed.

Lemma loading_column d k c : loading d k c -> k = maxCY_ c - minCY_ c -> column_in d c.
Proof.
  intros ((bs & [[] Hd]) & Hb & <-) Hk. split; [|by destruct c]. split; by destruct c.
Qed.

Lemma loading_bounds d k c : loading d k c -> is_s 28 (minCY_ c) /\ is_s 28 (maxCY_ c) /\ minCY_ c < maxCY_ c.
Proof. intros ((bs & [[] _]) & _). split_and!; by destruct c. Qed.

Lemma loading_push d k c b : loading d k c -> biome_wf b -> loading d (k + 1) (set_biomes (biomes_ c ++ [b]) c).
Proof.
  intros ((bs & Hc) & Hb & <-) Hw. split_and!.
  - exists bs. by destruct c.
  - cbn. apply Forall_app. split; [done|]. by constructor.
  - cbn. by rewrite size_snoc.
Qed.

Lemma push_section_safe d k b c :
  loading d k c -> biome_wf b -> runs_safe (push_section b) c (fun _ => loading d (k + 1)).
Proof. intros Hc Hb. unfold push_section, runs_safe. rewrite bind_get. by apply loading_push. Qed.

Lemma proxyToPrevious_ok y :
  exists b, BedrockBiomeSection.proxyToPrevious y = Ok b /\ biome_wf b /\ BedrockBiomeSection.proxy_ b = true.
Proof.
  unfold BedrockBiomeSection.proxyToPrevious. destruct (BedrockBiomeSection.make_biome_ok y) as (b & -> & Hb & _).
  eexists. split; [done|]. split; [apply (BedrockBiomeSection.bo_wf b Hb)|done].
Qed.

Lemma make_biome_wf y : exists b, BedrockBiomeSection.make y = Ok b /\ biome_wf b.
Proof.
  destruct (BedrockBiomeSection.make_biome_ok y) as (b & -> & Hb & _). exists b.
  split; [done|apply (BedrockBiomeSection.bo_wf b Hb)].
Qed.

Lemma load_biome_safe d k type y h :
  psafe (load_biome type y h) (loading d k) (fun _ => loading d (k + 1)).
Proof.
  intros t s Ht Hs Hb. unfold load_biome.
  eapply (runs_safe_bind _ _ _ (fun a p => a = s /\ p = (t, s))); [done|]. cbv beta. intros ? ? [-> ->]. cbv zeta.
  eapply (runs_safe_bind _ _ _ (fun _ p => p.1 = t /\ valid p.2 /\ readableBuffer p.2 = readableBuffer s)).
  { apply (psafe_stream readU8 1 (eq t) (fun _ u => u = t) ltac:(lia) steps_readU8); [|done..]. by intros. }
  cbv beta. intros next [t1 s1] (E1 & Hs1 & Hb1). cbn [fst snd] in *. subst t1.
  eapply (runs_safe_bind _ _ _ (fun _ p => p.1 = t /\ valid p.2 /\ readableBuffer p.2 = readableBuffer s)).
  { unfold runs_safe, on_stream, zoom, seek, bind, get_st. cbn [fst snd].
    destruct (_ >? _) eqn:E; [done|]. cbn. unfold valid, offset in *. rewrite Z.gtb_ltb in E. apply Z.ltb_ge in E.
    split; [done|]. split; [|done].
    change (0 <= offset_ s <= size (readableBuffer s1)). lia. }
  cbv beta. intros [] [t2 s2] (E2 & Hs2 & Hb2). cbn [fst snd] in *. subst t2. rewrite <-Hb2.
  assert (is_bytes (readableBuffer s2)) as Hbs2 by by rewrite Hb2. clear Hb1 Hb2 Hs1 s1 Hs Hb s.
  revert t s2 Ht Hs2 Hbs2. match goal with |- forall t s, _ -> _ -> _ -> runs_safe ?m _ _ =>
    change (psafe m (loading d k) (fun _ => loading d (k + 1))) end.
  destruct (next =? 255).
  - eapply (psafe_bind _ _ _ (fun _ => loading d k)); [by apply (psafe_stream _ 1); [|apply steps_readU8|]|].
    intros _. destruct h; cbn [negb]; [|by apply psafe_raise].
    destruct (proxyToPrevious_ok y) as (b & -> & Hb & _).
    apply psafe_lift_bind, psafe_eq. intros t Ht. apply (psafe_bind _ _ _ (fun _ => loading d (k + 1))); [|intros _; by apply psafe_ret].
    apply psafe_object. intros ? <-. by apply push_section_safe.
  - destruct (make_biome_wf y) as (b & -> & Hb).
    apply psafe_lift_bind, psafe_eq. intros t Ht. eapply psafe_bind.
    { eapply psafe_local; [apply (BedrockBiomeSection.biome_read_psafe type (BedrockBiomeSection.y_ b))|done]. }
    cbv beta. intros b'. apply (psafe_bind _ _ _ (fun _ => loading d (k + 1))); [|intros _; by apply psafe_ret].
    apply psafe_object. intros ? [<- [Hb' _]]. by apply push_section_safe.
Qed.

Lemma load_loop_safe d type ys : forall k h,
  psafe (load_loop type ys h) (loading d k) (fun _ t => exists k', loading d k' t /\ k <= k' <= k + size ys).
Proof.
  induction ys as [|y ys IH]; intros k h; cbn [load_loop].
  - apply psafe_ret. intros t Ht. exists k. rewrite size_nil. split; [done|lia].
  - rewrite size_cons. pose proof (size_nonneg ys).
    eapply (psafe_bind _ _ _ (fun _ => loading d k)); [by intros t s Ht Hs Hb|]. intros s.
    destruct (eof s).
    + apply psafe_ret. intros t Ht. exists k. split; [done|lia].
    + eapply psafe_bind; [apply load_biome_safe|]. cbv beta. intros h'.
      eapply psafe_weaken; [apply IH|done|]. cbv beta. intros _ t (k' & Ht & Hk). exists k'. split; [done|lia].
Qed.

Lemma fill_biome_safe d k h c :
  loading d k c -> k < maxCY_ c - minCY_ c -> runs_safe (fill_biome h) c (fun _ => loading d (k + 1)).
Proof.
  intros Hc Hk. pose proof (loading_bounds d k c Hc) as (H1 & H2 & H3). pose proof Hc as (_ & _ & Hs).
  pose proof (size_nonneg (biomes_ c)).
  unfold is_s in *. change (2 ^ (28 - 1)) with 134217728 in *. unfold fill_biome, runs_safe. rewrite bind_get.
  rewrite to_i32_id, i32_ok, bind_lift by (unfold is_s; change (2 ^ (32 - 1)) with 2147483648; lia).
  destruct h.
  - destruct (proxyToPrevious_ok (minCY_ c + size (biomes_ c))) as (b & -> & Hb & _). rewrite bind_lift.
    by apply push_section_safe.
  - destruct (make_biome_wf (minCY_ c + size (biomes_ c))) as (b & -> & Hb). rewrite bind_lift.
    by apply push_section_safe.
Qed.

Lemma loading_dims d k c : loading d k c -> dims c = d.
Proof. intros ((bs & _ & <-) & _). by destruct c. Qed.

(** [n] sections in all: the fuel is as many as are missing. *)
Lemma fill_loop_safe d h : forall fuel k c,
  loading d k c -> k <= maxCY_ c - minCY_ c <= k + Z.of_nat fuel ->
  runs_safe (fill_loop fuel h) c (fun _ => column_in d).
Proof.
  induction fuel as [|fuel IH]; intros k c Hc Hk; cbn [fill_loop];
    pose proof (loading_bounds d k c Hc) as (H1 & H2 & H3); pose proof Hc as (_ & _ & Hs);
    unfold is_s in *; change (2 ^ (28 - 1)) with 134217728 in *; unfold runs_safe;
    rewrite bind_get, i32_ok, bind_lift by (unfold is_s; change (2 ^ (32 - 1)) with 2147483648; lia);
    rewrite Hs.
  - rewrite (proj2 (Z.ltb_ge _ _)) by lia. apply (loading_column d k c Hc). lia.
  - destruct (Z.ltb_spec k (maxCY_ c - minCY_ c)); [|apply (loading_column d k c Hc); lia].
    eapply (runs_safe_bind _ _ _ _ _ (fill_biome_safe d k h c Hc ltac:(lia))).
    cbv beta. intros [] c' Hc'. apply (IH (k + 1)); [done|].
    pose proof (loading_dims _ _ _ Hc) as Hd. pose proof (loading_dims _ _ _ Hc') as Hd'.
    unfold dims in *. rewrite <-Hd in Hd'. injection Hd' as _ _ -> ->. lia.
Qed.

Lemma loadBiomes_safe d type : psafe (loadBiomes type) (column_in d) (fun _ => column_in d).
Proof.
  unfold loadBiomes. eapply (psafe_bind _ _ _ (fun _ => loading d 0)).
  { apply psafe_object. intros t Ht. unfold runs_safe. rewrite bind_get. by apply column_loading. }
  intros _. eapply psafe_bind; [apply psafe_get|]. cbv beta. intros c. apply psafe_eq. intros t [-> Ht].
  pose proof (loading_dims _ _ _ Ht) as Hd. pose proof (loading_bounds d 0 t Ht) as (_ & _ & Hlt).
  eapply psafe_bind.
  - eapply psafe_weaken; [apply (load_loop_safe d type _ 0)|by intros ? <-|by intros].
  - cbv beta. intros h. apply psafe_object. intros u (k' & Hu & Hk).
    apply (fill_loop_safe d h _ k' u Hu). pose proof (loading_dims _ _ _ Hu) as Hd'.
    unfold size in Hk. rewrite length_seqZ in Hk.
    unfold dims in *. rewrite <-Hd in Hd'. injection Hd' as _ _ -> ->. lia.
Qed.

(** ** Legacy biomes *)

Definition with_biome (i : Z) (b : BedrockBiomeSection) (c : BedrockChunkColumn) : BedrockChunkColumn :=
  set_biomes (<[Z.to_nat i := b]> (biomes_ c)) c.

Lemma with_biome_ok d i b c : column_in d c -> biome_wf b -> column_in d (with_biome i b c).
Proof.
  intros [[] Hd] Hb. split; [|by destruct c]. split; cbn [with_biome set_biomes minCY_ maxCY_ minY_ maxY_ co_ sections_ biomes_];
    rewrite ?size_insert; try done. by apply Forall_insert.
Qed.

Lemma biome_lookup d c i : column_in d c -> 0 <= i < size (biomes_ c) ->
  exists b, vec_at (biomes_ c) i = Ok b /\ biomes_ c !! Z.to_nat i = Some b /\ biome_wf b.
Proof.
  intros [Hc _] Hi. destruct (vec_at_ok _ i Hi) as (b & E & Hb). exists b. split_and!; [done..|].
  exact (Forall_lookup_1 _ _ _ _ (ck_biomes c Hc) Hb).
Qed.

Lemma on_biome_run {A} (m : M BedrockBiomeSection A) i c b r b' :
  0 <= i < size (biomes_ c) -> vec_at (biomes_ c) i = Ok b -> m b = (r, b') ->
  on_biome i m c = (r, with_biome i b' c).
Proof.
  intros Hi Hb Hm. unfold on_biome, BedrockSubChunk.at_index. by rewrite Hb, Hm, vec_set_ok by done.
Qed.

Lemma on_biome_stream_run m i c s b r b' s' :
  0 <= i < size (biomes_ c) -> vec_at (biomes_ c) i = Ok b -> m (b, s) = (r, (b', s')) ->
  on_biome_stream i m (c, s) = (r, (with_biome i b' c, s')).
Proof.
  intros Hi Hb Hm. unfold on_biome_stream. cbn [fst snd]. by rewrite Hb, Hm, vec_set_ok by done.
Qed.

Lemma on_biome_stream_safe d i m :
  psafe m biome_wf (fun _ => biome_wf) ->
  psafe (on_biome_stream i m) (fun t => column_in d t /\ 0 <= i < size (biomes_ t)) (fun _ => column_in d).
Proof.
  intros Hm t s [Ht Hi] Hs Hb. destruct (biome_lookup d t i Ht Hi) as (b & E & _ & Hw).
  specialize (Hm b s Hw Hs Hb). unfold runs_safe in *. destruct (m (b, s)) as [r [b' s']] eqn:Em.
  rewrite (on_biome_stream_run m i t s b r b' s' Hi E Em). destruct r as [a|e]; [|done].
  cbn [fst snd] in *. destruct Hm as (? & ? & ?). split_and!; [by apply with_biome_ok|done..].
Qed.

Lemma put_proxy_safe d i c :
  column_in d c -> 0 <= i < size (biomes_ c) -> runs_safe (put_proxy i) c (fun _ => column_in d).
Proof.
  intros Hc Hi. pose proof (proj1 Hc) as Hk. unfold put_proxy, runs_safe. rewrite bind_get.
  pose proof (ck_biomes_size c Hk) as Hs. pose proof (ck_min c Hk) as H1. pose proof (ck_max c Hk) as H2.
  unfold is_s in *. change (2 ^ (28 - 1)) with 134217728 in *.
  rewrite to_i32_id, i32_ok, bind_lift by (unfold is_s; change (2 ^ (32 - 1)) with 2147483648; lia).
  destruct (proxyToPrevious_ok (minCY_ c + i)) as (b & -> & Hb & _). rewrite bind_lift.
  destruct (biome_lookup d c i Hc Hi) as (b0 & E & _ & _).
  rewrite (on_biome_run (put_st b) i c b0 (Ok tt) b Hi E eq_refl). by apply with_biome_ok.
Qed.

Lemma column_size d c : column_in d c -> size (biomes_ c) = d.2 - d.1.2 /\ 0 < size (biomes_ c).
Proof.
  intros [Hc <-]. rewrite (ck_biomes_size c Hc). cbn [dims fst snd]. pose proof (ck_order c Hc). lia.
Qed.

Lemma loadLegacy_safe d : psafe loadLegacyBiomes_from (column_in d) (fun _ => column_in d).
Proof.
  unfold loadLegacyBiomes_from. eapply (psafe_bind _ _ _ (fun _ => column_in d)).
  { apply psafe_object. intros t Ht. unfold runs_safe. rewrite bind_get.
    destruct (column_size d t Ht). by rewrite (proj2 (Z.eqb_neq _ _)) by lia. }
  intros _. eapply (psafe_bind _ _ _ (fun _ => column_in d)).
  { eapply psafe_weaken; [apply (on_biome_stream_safe d 0)| |by intros].
    - intros t s Ht Hs Hb. eapply runs_safe_mono;
        [by apply (BedrockBiomeSection.readLegacy2D_psafe (BedrockBiomeSection.y_ t))|]. by intros _ p ([? _] & ?).
    - intros t Ht. destruct (column_size d t Ht). split; [done|lia]. }
  intros _. eapply psafe_bind; [apply psafe_get|]. cbv beta. intros c. apply psafe_eq. intros t [-> Ht].
  eapply psafe_weaken; [apply (psafe_for_each _ _ (fun l u => column_in d u /\
    forall i, i ∈ l -> 0 <= i < d.2 - d.1.2))| |by intros ? ? [? _]].
  - intros i l. apply psafe_object. intros u [Hu Hl]. eapply runs_safe_mono; [apply put_proxy_safe; [exact Hu|]|].
    + destruct (column_size d u Hu) as [-> _]. apply Hl. by left.
    + intros ? v Hv. split; [done|]. intros j Hj. apply Hl. by right.
  - intros u <-. split; [done|]. intros i Hi%elem_of_seqZ. destruct (column_size d t Ht). lia.
Qed.

Lemma reading_safe {T} data (m : M (T * BinaryStream) unit) t P Q :
  is_bytes data -> psafe m P (fun _ => Q) -> P t -> runs_safe (reading data m) t (fun _ => Q).
Proof.
  intros Hb Hm Ht. specialize (Hm t (from_data data) Ht (valid_from_data data) Hb).
  unfold runs_safe, reading in *. destruct (m (t, from_data data)) as [[a|e] [t' s']]; [|done]. by destruct Hm.
Qed.

Lemma loadLegacyBiomes_safe d data c :
  is_bytes data -> column_in d c -> runs_safe (loadLegacyBiomes data) c (fun _ => column_in d).
Proof. intros Hb Hc. by apply (reading_safe data _ c _ _ Hb (loadLegacy_safe d)). Qed.

(** ** Block entities *)

Lemma read_border_safe {P} message : psafe (read_border message) P (fun _ => P).
Proof.
  unfold read_border. eapply (psafe_bind _ _ _ (fun _ => P)); [by apply (psafe_stream _ 0); [|apply steps_readVarUInt|]|].
  intros len. eapply (psafe_bind _ _ _ (fun _ => P)); [by intros t s Ht Hs Hb|]. intros s.
  destruct (_ || _); [by apply psafe_raise|].
  assert (0 <= to_u64 (unzigzag_neg 32 len)) as Hn by (unfold to_u64; apply Z.mod_pos_bound; lia).
  eapply (psafe_bind _ _ _ (fun _ => P)); [by apply (psafe_stream _ (to_u64 (unzigzag_neg 32 len))); [|apply steps_readBytes|]|].
  intros k. case_bool_decide; [by apply psafe_ret|by apply psafe_raise].
Qed.

Lemma column_in_entities d raw nbt c : column_in d c -> column_in d (set_block_entities raw nbt c).
Proof. intros [[] Hd]. split; [split; by destruct c|by destruct c]. Qed.

Lemma put_nbt_safe d key doc c : column_in d c -> runs_safe (put_nbt key doc) c (fun _ => column_in d).
Proof. intros Hc. unfold put_nbt, runs_safe. rewrite bind_get. by apply column_in_entities. Qed.
Lemma put_raw_safe d key raw c : column_in d c -> runs_safe (put_raw key raw) c (fun _ => column_in d).
Proof. intros Hc. unfold put_raw, runs_safe. rewrite bind_get. by apply column_in_entities. Qed.

Lemma blockEntityPosition_safe doc : safe (blockEntityPosition doc).
Proof.
  unfold blockEntityPosition. case_bool_decide; [done|].
  assert (forall name, safe (coordinate doc name)) as Hco.
  { intros name. unfold coordinate. destruct (Nbt.find _ _); [|done]. by destruct (_ || _). }
  apply rbind_safe; [apply Hco|]. intros x. apply rbind_safe; [apply Hco|]. intros y.
  apply rbind_safe; [apply Hco|]. by intros z.
Qed.

Lemma decode_block_entity_moves d :
  pmoves 1 (decode_block_entity LittleVarInt) (column_in d) (fun _ => column_in d).
Proof.
  intros t s Ht Hs Hb. unfold decode_block_entity.
  eapply (runs_safe_bind _ _ _ (fun a p => a = s /\ p = (t, s))); [done|]. cbv beta. intros ? ? [-> ->]. cbv zeta.
  eapply (runs_safe_bind _ _ _ (fun _ p => p.1 = t /\ advances 1 s p.2)).
  { destruct (read_advances LittleVarInt default_limits) as [H _]; [done|]. specialize (H s Hs Hb).
    unfold runs_safe, catch, on_stream, zoom. cbn [fst snd].
    destruct (Nbt.read LittleVarInt default_limits s) as [[a|e] s']; [done|]. by destruct H as [-> _]. }
  cbv beta. intros doc [t1 s1] (E1 & Ha). cbn [fst snd] in *. subst t1. pose proof Ha as (Hb1 & Ho & Hv).
  eapply (runs_safe_bind _ _ _ (fun a p => a = s1 /\ p = (t, s1))); [done|]. cbv beta. intros ? ? [-> ->]. cbv zeta.
  eapply (runs_safe_bind _ _ _ (fun a p => p = (t, s1))); [by apply runs_safe_lift; [apply blockEntityPosition_safe|]|].
  cbv beta. intros pos ? ->.
  eapply (runs_safe_bind _ _ _ (fun a p => column_in d p.1 /\ p.2 = s1)).
  { pose proof (put_nbt_safe d (blockEntityKey pos) doc t Ht) as H. unfold runs_safe, on_object, zoom in *. cbn [fst snd].
    by destruct (put_nbt _ _ _) as [[a|e] u]. }
  cbv beta. intros [] [u s2] [Hu E2]. cbn [fst snd] in *. subst s2.
  rewrite bool_decide_true by done. unfold valid, offset in *. rewrite vec_range_ok by lia.
  unfold runs_safe. rewrite bind_lift.
  pose proof (put_raw_safe d (blockEntityKey pos) (take (Z.to_nat (offset_ s1 - offset_ s))
    (drop (Z.to_nat (offset_ s)) (readableBuffer s1))) u Hu) as H. unfold runs_safe, on_object, zoom in *. cbn [fst snd].
  by destruct (put_raw _ _ _) as [[a|e] v].
Qed.

Lemma compound_loop_safe {T} (body : M (T * BinaryStream) unit) P : pmoves 1 body P (fun _ => P) -> forall fuel t s,
  P t -> valid s -> is_bytes (readableBuffer s) -> size (rest s) < Z.of_nat fuel ->
  runs_safe (compound_loop fuel body) (t, s)
    (fun _ p => P p.1 /\ valid p.2 /\ readableBuffer p.2 = readableBuffer s).
Proof.
  intros Hbody. induction fuel as [|fuel IH]; intros t s Ht Hs Hb Hf; [pose proof (size_nonneg (rest s)); lia|].
  cbn [compound_loop]. eapply (runs_safe_bind _ _ _ (fun a p => a = s /\ p = (t, s))); [done|].
  cbv beta. intros ? ? [-> ->]. destruct (eof s) eqn:Ee; [by apply runs_safe_ret|].
  eapply (runs_safe_bind _ _ _ (fun _ p => p = (t, s))).
  { apply runs_safe_lift; [|done]. apply vec_at_safe. unfold eof, valid, offset in *.
    rewrite Z.geb_leb in Ee. apply Z.leb_gt in Ee. lia. }
  cbv beta. intros tag ? ->. destruct (tag =? _); [|by apply runs_safe_ret].
  eapply runs_safe_bind; [by apply Hbody|]. cbv beta. intros [] [t1 s1] (Ht1 & Hadv). pose proof Hadv as (Hr & Ho & Hv1).
  cbn [fst snd] in *. eapply runs_safe_mono; [apply IH; [done|done|by rewrite Hr|]|].
  - by apply (advances_fuel s).
  - intros _ p (? & ? & ?). split_and!; congruence || done.
Qed.

Lemma compounds_safe {T} (body : M (T * BinaryStream) unit) P :
  pmoves 1 body P (fun _ => P) -> psafe (compounds body) P (fun _ => P).
Proof.
  intros Hbody t s Ht Hs Hb. apply (compound_loop_safe body P Hbody); [done..|]. cbn [snd].
  rewrite remaining_rest by done. pose proof (size_nonneg (rest s)). lia.
Qed.

(** ** The whole payload *)

Lemma clear_sections_safe d c : column_in d c -> runs_safe clear_sections c (fun _ => column_in d).
Proof.
  intros Hc. unfold clear_sections, runs_safe. rewrite bind_get, (column_in_width d c Hc), bind_lift.
  destruct Hc as [[] Hd]. split; [|by destruct c]. split; cbn [set_sections minCY_ maxCY_ minY_ maxY_ co_ sections_ biomes_];
    try done; [|by apply Forall_replicate]. unfold size. rewrite length_replicate. lia.
Qed.

Lemma networkDecode_psafe d n use3D :
  psafe (networkDecodeNoCache_from n use3D) (column_in d) (fun _ => column_in d).
Proof.
  unfold networkDecodeNoCache_from. eapply (psafe_bind _ _ _ (fun _ => column_in d)).
  { destruct (_ && _); [|by apply psafe_ret].
    eapply (psafe_bind _ _ _ (fun _ => column_in d)); [apply psafe_object; intros; by apply clear_sections_safe|].
    intros _ t s Ht Hs Hb. eapply (runs_safe_bind _ _ _ (fun a p => a = s /\ p = (t, s))); [done|].
    cbv beta. intros ? ? [-> ->]. apply decode_sections_safe; [done..|].
    rewrite remaining_rest by done. pose proof (size_nonneg (rest s)). lia. }
  intros _. eapply (psafe_bind _ _ _ (fun _ => column_in d)).
  { destruct use3D; [apply loadBiomes_safe|].
    eapply (psafe_bind _ _ _ (fun _ => column_in d)); [by intros t s Ht Hs Hb|]. intros s.
    destruct (_ <? _); [by apply psafe_raise|].
    eapply (psafe_bind _ _ _ (fun k t => column_in d t /\ is_bytes k)).
    { apply (psafe_stream _ 256); [lia|by apply steps_readBytes|]. intros t s' k s'' Ht Hs Hb E.
      split; [done|]. apply (readBytes_is_bytes 256 s' k s''); [lia|done..]. }
    intros k. apply psafe_object. intros t [Ht Hk]. by apply loadLegacyBiomes_safe. }
  intros _. eapply (psafe_bind _ _ _ (fun _ => column_in d)); [by intros t s Ht Hs Hb|]. intros s.
  eapply (psafe_bind _ _ _ (fun _ => column_in d)).
  { destruct (eof s); [by apply psafe_ret|apply read_border_safe]. }
  intros _. apply compounds_safe, decode_block_entity_moves.
Qed.

(** The payload of one sub-chunk. *)
Lemma networkDecodeSubChunk_safe d sectionY payload c :
  is_bytes payload -> column_in d c ->
  runs_safe (networkDecodeSubChunkNoCache sectionY payload) c (fun _ => column_in d).
Proof.
  intros Hb Hc. apply (reading_safe _ _ _ (column_in d)); [done| |done].
  eapply psafe_bind; [eapply pmoves_psafe, decode_section_moves|]. cbv beta. intros [].
  apply compounds_safe, decode_block_entity_moves.
Qed.

(** ** Reading the result *)

Lemma proxy_loop_ok c : forall fuel i,
  0 <= i < size (biomes_ c) -> i <= Z.of_nat fuel ->
  exists j b, proxy_loop fuel i c = Ok j /\ 0 <= j <= i /\ biomes_ c !! Z.to_nat j = Some b.
Proof.
  induction fuel as [|fuel IH]; intros i Hi Hf; cbn [proxy_loop];
    (destruct (vec_at_ok (biomes_ c) i Hi) as (b & E & Hb)).
  - destruct (Z.gtb_spec i 0); [lia|]. exists i, b. split_and!; [done|lia|lia|done].
  - destruct (Z.gtb_spec i 0); [|exists i, b; split_and!; [done|lia|lia|done]].
    rewrite E. cbn [rbind]. destruct (BedrockBiomeSection.proxy b).
    + destruct (IH (i - 1) ltac:(lia) ltac:(lia)) as (j & b' & E' & Hj & Hb'). exists j, b'.
      split_and!; [done|lia|lia|done].
    + exists i, b. split_and!; [done|lia|lia|done].
Qed.

Lemma column_getBiomeId_safe c pos : col_ok c -> is_s 32 (py pos) -> safe (getBiomeId pos c).
Proof.
  intros Hc Hy. unfold getBiomeId. fold (sec (py pos)). rewrite (index_i32 c _ Hc (sec_range _ Hy)). cbn [rbind].
  destruct (_ || _) eqn:E; [done|]. apply orb_false_iff in E as [E1 E2].
  apply Z.ltb_ge in E1. rewrite Z.geb_leb in E2. apply Z.leb_gt in E2.
  destruct (proxy_loop_ok c (Z.to_nat (co_ c + sec (py pos))) _ (conj E1 E2) ltac:(lia)) as (j & b & -> & Hj & Hb).
  cbn [rbind]. rewrite (vec_at_lookup _ j b) by (lia || done). cbn [rbind].
  apply BedrockBiomeSection.getBiomeId_safe. exact (Forall_lookup_1 _ _ _ _ (ck_biomes c Hc) Hb).
Qed.

(** C13: decoding any payload into a column, whatever the declared number of
    sections and biome format, is memory safe and ends: an exception of the
    program, or a column with the same position and bounds that satisfies the
    invariant, so that every block can be read and every biome read returns or
    throws an exception of the program. *)
Theorem column_decode_safe c payload sectionCount use3DBiomes :
  col_ok c -> is_bytes payload ->
  match networkDecodeNoCache payload sectionCount use3DBiomes c with
  | (Ok _, c') => col_ok c' /\ dims c' = dims c /\
      forall pos, pos_ok pos -> (exists id, getBlockStateId pos c' = Ok id) /\ safe (getBiomeId pos c')
  | (Throw e, _) => is_stuck e = false
  end.
Proof.
  intros Hc Hb. unfold networkDecodeNoCache.
  pose proof (reading_safe payload _ c _ _ Hb (networkDecode_psafe (dims c) sectionCount use3DBiomes)
    (conj Hc eq_refl)) as H. unfold runs_safe in H.
  destruct (reading _ _ c) as [[[]|e] c']; [|done]. destruct H as [Hc' Hd]. split_and!; [done..|].
  intros pos Hp. split; [eexists; by apply getBlockStateId_at|]. apply column_getBiomeId_safe; [done|apply Hp].
Qed.

Lemma column_decode_safe_witness :
  exists c, make 3 4 = Ok c /\
  match networkDecodeNoCache [9; 1; 0; 3; 255] 1 false c with
  | (Ok _, c') => col_ok c' /\ dims c' = dims c /\
      forall pos, pos_ok pos -> (exists id, getBlockStateId pos c' = Ok id) /\ safe (getBiomeId pos c')
  | (Throw e, _) => is_stuck e = false
  end.
Proof.
  destruct (column_make_ok 3 4) as (c & Ec & Hc). exists c. split; [exact Ec|].
  apply (column_decode_safe c [9; 1; 0; 3; 255] 1 false Hc). by apply (bool_decide_unpack _).
Defined.
