(* ===== verification/ColumnRoundtrip.v ===== *)
(** * Chunk columns: the network round trip

    What [networkEncodeNoCache] writes is read back by [networkDecodeNoCache]
    as a column with the same biomes and block entities and the blocks
    [received_block]: the same ones, but for negative states in palettes of one
    entry. *)

From stdpp Require Import sorting.
From S2P Require Import Prelude MachineInt ZigZag Leb128 Endian BinaryStream Nbt NbtFile PalettedStorage SubChunk SubChunkState SubChunkCodec BiomeSection ChunkColumn ColumnState ColumnCodec StreamState.
Import BedrockChunkColumn.

(** ** Sections *)

(** A section that is read back from the network at height [y]. *)
Record section_sent (y : Z) (s : BedrockSubChunk) : Prop := mkSent {
  ss_ok : sub_ok s;
  ss_version : BedrockSubChunk.subChunkVersion_ s = 9;
  ss_layers : 1 <= BedrockSubChunk.layerCount s <= 2;
  ss_y : BedrockSubChunk.y_ s = y;
  ss_range : is_s 8 y;
  ss_palettes : Forall (encodable true) (BedrockSubChunk.palettes_ s)
}.

(** What the receiver has of a section; its own air is the state 0. *)
Definition same_section (s s' : BedrockSubChunk) : Prop :=
  sub_ok s' /\ forall l i, 0 <= l -> 0 <= i < 4096 -> state_at s' l i = received_state true 0 s l i.
Definition same_opt (o o' : option BedrockSubChunk) : Prop :=
  match o, o' with
  | None, None => True
  | Some s, Some s' => same_section s s'
  | _, _ => False
  end.

Definition encode_section (s : BedrockSubChunk) : M BinaryStream unit :=
  BedrockSubChunk.encodeTo 255 BedrockSubChunk.Runtime true None s.

Lemma column_in_dims d t : column_in d t ->
  co_ t = Z.abs d.1.2 /\ size (sections_ t) = d.2 - d.1.2 /\ minCY_ t = d.1.2 /\ maxCY_ t = d.2.
Proof. intros [[] <-]. by split_and!. Qed.

Lemma section_transfer y s :
  section_sent y s ->
  exists k, oappends (encode_section s) k tt /\ is_bytes k /\ 1 <= size k /\
    forall i t, 0 <= co_ t + y < size (sections_ t) -> col_ok t ->
      exists s', preads (decode_section i) k t tt (with_section (co_ t + y) s' t) /\ same_section s s'.
Proof.
  intros [Hs Hv Hl Hy Hr Hp].
  destruct (transfer true None s Hs (or_intror Hv) Hl ltac:(by rewrite Hy) Hp) as (k & Hk & Hb & Hsz & Hd).
  exists k. split_and!; [done..|]. intros i t Hi Ht.
  destruct (make_sub_ok (to_i8 i) 9) as (u & Eu & Hu & _).
  destruct (Hd None 0 u Hu) as (s1 & Hread & Has).
  exists (BedrockSubChunk.set_y (to_i8 y) s1). pose proof (da_ok _ _ _ _ _ Has) as Hok.
  split; [|split; [by destruct Hok|intros l j Hl' Hj; by apply (decoded_states true 0 s u s1)]].
  unfold decode_section. eapply preads_bind0; [by apply preads_lift|].
  rewrite <-(app_nil_r k). eapply preads_bind; [by apply preads_local|]. apply preads_object.
  rewrite (da_y _ _ _ _ _ Has), Hv, Hy. cbn [Z.geb Z.compare Pos.compare Pos.compare_cont].
  unfold setSection. rewrite bind_get, (index_i32 t y Ht), bind_lift.
  2:{ unfold is_s in *. change (2 ^ (8 - 1)) with 128 in Hr. change (2 ^ (28 - 1)) with 134217728. lia. }
  rewrite (proj2 (Z.ltb_ge _ _)) by lia. destruct (Z.geb_spec (co_ t + y) (size (sections_ t))); [lia|].
  reflexivity.
Qed.

Section Sections.
Context (c : BedrockChunkColumn) (d : Z * Z * Z * Z) (Hc : column_in d c).
Context (Hsent : forall j s, section_at j c = Some s -> section_sent (j - co_ c) s).

(** The first [k] sections of [c] have arrived. *)
Definition arrived (k : Z) (t : BedrockChunkColumn) : Prop :=
  column_in d t /\ forall j,
    (0 <= j < k -> same_opt (section_at j c) (section_at j t)) /\ (k <= j -> section_at j t = None).

Lemma arrived_skip k t : arrived k t -> section_at k c = None -> arrived (k + 1) t.
Proof.
  intros [Ht Ha] Hk. split; [done|]. intros j. destruct (Ha j) as [H1 H2]. split; [|intros; apply H2; lia].
  intros Hj. destruct (decide (j = k)) as [->|]; [|apply H1; lia]. by rewrite Hk, H2.
Qed.

Lemma arrived_next k s s' t :
  0 <= k < size (sections_ c) -> arrived k t -> section_at k c = Some s -> same_section s s' ->
  arrived (k + 1) (with_section k s' t).
Proof.
  intros Hk [Ht Ha] Es Hs. destruct (column_in_dims d t Ht) as (_ & Hn & _ & _).
  destruct (column_in_dims d c Hc) as (_ & Hn' & _ & _). split.
  - destruct Ht as [Ht Hd]. split; [apply with_section_ok; [done|apply Hs]|done].
  - intros j. destruct (Ha j) as [H1 H2]. rewrite section_at_with by lia. split; intros Hj.
    + destruct (Z.eqb_spec j k) as [->|]; [by rewrite Es|apply H1; lia].
    + rewrite (proj2 (Z.eqb_neq _ _)) by lia. apply H2. lia.
Qed.

Definition present (l : list (option BedrockSubChunk)) : list BedrockSubChunk := omap id l.

Lemma sections_transfer l : forall k pre,
  sections_ c = pre ++ l -> size pre = k ->
  exists data, oappends (for_each l (fun section => match section with Some s => encode_section s | None => ret tt end))
      data tt /\ is_bytes data /\ size (present l) <= size data /\
    forall i t, arrived k t -> exists t',
        (forall fuel, size (present l) <= Z.of_nat fuel ->
           preads (decode_sections fuel i (i + size (present l))) data t tt t') /\
        arrived (size (sections_ c)) t' /\ t' = set_sections (sections_ t') t.
Proof.
  induction l as [|[s|] l IH]; intros k pre Hpre Hk.
  - exists []. split_and!; [apply oappends_ret|constructor|done|]. intros i t Ht. exists t.
    rewrite Hpre, app_nil_r, Hk. split_and!; [|done|by destruct t]. intros fuel _.
    change (size (present [])) with 0.
    destruct fuel; cbn [decode_sections]; rewrite (proj2 (Z.ltb_ge _ _)) by lia; apply preads_ret.
  - assert (section_at k c = Some s) as Es.
    { apply section_at_Some. pose proof (size_nonneg pre). pose proof (size_nonneg l).
      rewrite Hpre, size_app, size_cons. split; [lia|]. subst k. unfold size. by rewrite Nat2Z.id, list_lookup_middle. }
    pose proof (proj1 (proj1 (section_at_Some c k s) Es)) as Hrange.
    destruct (section_transfer _ s (Hsent k s Es)) as (k1 & Happ & Hb1 & Hsz1 & Hdec).
    destruct (IH (k + 1) (pre ++ [Some s])) as (k2 & Happ2 & Hb2 & Hsz2 & Hdec2);
      [by rewrite Hpre, <-app_assoc|by rewrite size_snoc, Hk|].
    assert (size (present (Some s :: l)) = size (present l) + 1) as Hn by (cbn [present omap list_omap id]; by rewrite size_cons).
    exists (k1 ++ k2). split_and!; [by eapply oappends_bind|by apply is_bytes_app|rewrite Hn, size_app; lia|].
    intros i t Ht. rewrite Hn in *. pose proof (size_nonneg (present l)).
    pose proof Ht as [Htin _]. destruct (column_in_dims d t Htin) as (Hco & Hn1 & _ & _).
    destruct (column_in_dims d c Hc) as (Hco' & Hn2 & _ & _).
    destruct (Hdec i t) as (s' & Hread & Hsame); [rewrite Hco, Hn1; lia|apply Htin|].
    replace (co_ t + (k - co_ c)) with k in Hread by lia.
    destruct (Hdec2 (i + 1) (with_section k s' t)) as (t' & Hread2 & Harr & Et); [by eapply arrived_next|].
    exists t'. replace (i + (size (present l) + 1)) with (i + 1 + size (present l)) by lia.
    split_and!; [|done|by destruct t]. intros fuel Hf.
    destruct fuel as [|fuel]; [lia|]. cbn [decode_sections]. rewrite (proj2 (Z.ltb_lt _ _)) by lia.
    eapply preads_bind; [exact Hread|]. apply Hread2. lia.
  - assert (section_at k c = None) as Es.
    { unfold section_at. destruct (_ || _); [done|]. subst k. unfold size.
      by rewrite Hpre, Nat2Z.id, list_lookup_middle. }
    destruct (IH (k + 1) (pre ++ [None])) as (k2 & Happ2 & Hb2 & Hsz2 & Hdec2);
      [by rewrite Hpre, <-app_assoc|by rewrite size_snoc, Hk|].
    exists ([] ++ k2). split_and!; [by eapply oappends_bind; [apply oappends_ret|]|done|done|].
    intros i t Ht. apply (Hdec2 i t). by apply arrived_skip.
Qed.

End Sections.

(** ** Biomes *)

Definition biome_sent (b : BedrockBiomeSection) : Prop :=
  BedrockBiomeSection.proxy_ b = false ->
  BedrockBiomeSection.biome_ok b /\ size (BedrockBiomeSection.palette_ b) < 2 ^ 31 /\
  Forall (is_u 31) (BedrockBiomeSection.palette_ b).

Abbreviation same_biomes := BedrockBiomeSection.same_biomes.
Abbreviation enc_biome := BedrockBiomeSection.enc_biome.

(** The byte that tells proxies from sections. *)
Lemma enc_biome_head b : biome_sent b ->
  exists x k, enc_biome b = x :: k /\ is_bytes (enc_biome b) /\ (x =? 255) = BedrockBiomeSection.proxy_ b.
Proof.
  intros Hb. destruct (BedrockBiomeSection.proxy_ b) eqn:E.
  - exists 255, []. unfold enc_biome, BedrockBiomeSection.enc_biome. rewrite E. split_and!; [done| |done]. by repeat constructor.
  - destruct (Hb E) as (Hok & Hsz & Hu). pose proof (BedrockBiomeSection.enc_biome_bytes b Hok Hu) as Hby.
    pose proof (PalettedStorage.wf_bits _ (BedrockBiomeSection.bo_wf b Hok)) as Hbits.
    unfold enc_biome, BedrockBiomeSection.enc_biome in *. rewrite E in *.
    destruct (_ =? 1); cbn [app]; eexists _, _; split_and!; try done. lia.
Qed.

Lemma export_appends b : biome_sent b ->
  oappends (BedrockBiomeSection.exportTo BedrockSubChunk.Runtime b) (enc_biome b) tt.
Proof.
  intros Hb. destruct (BedrockBiomeSection.proxy_ b) eqn:E.
  - unfold enc_biome, BedrockBiomeSection.exportTo, BedrockBiomeSection.enc_biome. rewrite E.
    apply oappends_appends, appends_U8.
  - destruct (Hb E) as (Hok & Hsz & Hu). by apply BedrockBiomeSection.exportTo_appends.
Qed.

(** Looking at the next byte without taking it. *)
Lemma preads_peek {T A} (f : Z -> M (T * BinaryStream) A) x k t a t' :
  preads (f x) (x :: k) t a t' ->
  preads (let* s := on_stream get_st in
          let* next := on_stream readU8 in
          on_stream (seek (offset s)) ;;; f next) (x :: k) t a t'.
Proof.
  intros H s r Hs Hb Hr. rewrite (bind_ok (on_stream get_st) _ (t, s) s (t, s) eq_refl).
  pose proof (preads_stream (T := T) readU8 [x] x t (reads_U8 x) s (k ++ r) Hs Hb Hr) as E.
  rewrite (bind_ok _ _ _ _ _ E). clear E.
  assert (on_stream (seek (offset s)) (t, skip 1 s) = (Ok tt, (t, s))) as E.
  { unfold on_stream, zoom, seek, bind, get_st, put_st, offset, skip. cbn [fst snd].
    destruct s as [dt v o]. unfold valid in Hs. cbn in *. destruct v; cbn in *.
    all: match goal with |- context [?a >? ?b] => destruct (Z.gtb_spec a b) end; [lia|done]. }
  change (size [x]) with 1. rewrite (bind_ok _ _ _ _ _ E). exact (H s r Hs Hb Hr).
Qed.

Lemma load_biome_preads y h b t :
  biome_sent b -> (BedrockBiomeSection.proxy_ b = true -> h = true) ->
  exists b', preads (load_biome BedrockSubChunk.Runtime y h) (enc_biome b) t true
      (set_biomes (biomes_ t ++ [b']) t) /\ same_biomes b b'.
Proof.
  intros Hb Hh. destruct (enc_biome_head b Hb) as (x & k & Ek & Hby & Hx).
  assert (forall b', preads (on_object (push_section b') ;;; ret true) [] t true (set_biomes (biomes_ t ++ [b']) t)) as Hpush.
  { intros b'. eapply preads_bind0; [by apply preads_object|apply preads_ret]. }
  destruct (BedrockBiomeSection.proxy_ b) eqn:Ep.
  - rewrite (Hh eq_refl). destruct (proxyToPrevious_ok y) as (b' & Eb & Hw & Hp').
    exists b'. split; [|split_and!; [congruence|done|congruence]].
    unfold load_biome. rewrite Ek. apply preads_peek. rewrite Hx.
    assert (k = []) as ->. { unfold enc_biome, BedrockBiomeSection.enc_biome in Ek. rewrite Ep in Ek. by injection Ek as _ <-. }
    rewrite <-(app_nil_r [x]). eapply preads_bind; [apply preads_stream, reads_U8|]. cbn [negb].
    eapply preads_bind0; [by apply preads_lift|]. apply Hpush.
  - destruct (Hb Ep) as (Hok & Hsz & Hu).
    destruct (make_biome_wf y) as (u & Eu & Hw).
    destruct (BedrockBiomeSection.biome_read_preads b u Hok Hsz Hu Hw) as (b' & Hread & Hsame & _).
    exists b'. split; [|done]. unfold load_biome. rewrite Ek. apply preads_peek. rewrite Hx, <-Ek.
    eapply preads_bind0; [by apply preads_lift|].
    rewrite <-(app_nil_r (enc_biome b)). eapply preads_bind; [by apply preads_local|]. apply Hpush.
Qed.

(** The bytes of the sections in turn: none of them is the end of the stream. *)
Lemma load_loop_preads : forall bs ys h t,
  length ys = length bs -> Forall biome_sent bs ->
  (forall b, head bs = Some b -> BedrockBiomeSection.proxy_ b = true -> h = true) ->
  exists bs' h', preads (load_loop BedrockSubChunk.Runtime ys h) (bs ≫= enc_biome) t h'
      (set_biomes (biomes_ t ++ bs') t) /\ Forall2 same_biomes bs bs'.
Proof.
  induction bs as [|b bs IH]; intros ys h t Hl Hb Hh.
  - destruct ys; [|done]. exists [], h. split; [|constructor]. rewrite app_nil_r. cbn [load_loop].
    assert (set_biomes (biomes_ t) t = t) as -> by by destruct t. apply preads_ret.
  - destruct ys as [|y ys]; [done|]. apply Forall_cons_1 in Hb as [Hb0 Hb].
    destruct (load_biome_preads y h b t Hb0 ltac:(by apply Hh)) as (b' & Hread & Hsame).
    destruct (IH ys true (set_biomes (biomes_ t ++ [b']) t)) as (bs' & h' & Hread' & Hsame');
      [by injection Hl|done|done|].
    exists (b' :: bs'), h'. split; [|by constructor].
    rewrite bind_cons. cbn [load_loop]. intros s r Hs Hbs Hr.
    rewrite (bind_ok (on_stream get_st) _ (t, s) s (t, s) eq_refl).
    destruct (enc_biome_head b Hb0) as (x & k & Ek & _). rewrite <-app_assoc in Hr.
    assert (eof s = false) as ->.
    { unfold eof. destruct (Z.geb_spec (offset_ s) (size (readableBuffer s))) as [Hge|]; [|done].
      unfold rest in Hr. rewrite drop_ge in Hr by (unfold size in *; lia). by rewrite Ek in Hr. }
    assert (biomes_ t ++ b' :: bs' = (biomes_ t ++ [b']) ++ bs') as -> by by rewrite <-app_assoc.
    exact (preads_bind _ _ _ _ _ _ _ _ _ Hread Hread' s r Hs Hbs ltac:(by rewrite <-app_assoc)).
Qed.

Definition head_sent (bs : list BedrockBiomeSection) : Prop :=
  forall b, head bs = Some b -> BedrockBiomeSection.proxy_ b = false.

Lemma column_with_biomes d t bs :
  column_in d t -> Forall biome_wf bs -> size bs = d.2 - d.1.2 -> column_in d (set_biomes bs t).
Proof. intros [[] <-] Hb Hs. split; [|by destruct t]. split; by destruct t. Qed.

Lemma loadBiomes_preads d c t :
  column_in d c -> column_in d t -> Forall biome_sent (biomes_ c) -> head_sent (biomes_ c) ->
  exists bs', preads (loadBiomes BedrockSubChunk.Runtime) (biomes_ c ≫= enc_biome) t tt (set_biomes bs' t) /\
    Forall2 same_biomes (biomes_ c) bs' /\ column_in d (set_biomes bs' t).
Proof.
  intros Hc Ht Hb Hh. destruct (column_in_dims d t Ht) as (_ & _ & Hmin & Hmax).
  destruct (column_size d c Hc) as [Hn Hpos].
  destruct (load_loop_preads (biomes_ c) (seqZ (minCY_ t) (maxCY_ t - minCY_ t)) false (set_biomes [] t))
    as (bs' & h & Hread & Hsame).
  { rewrite length_seqZ, Hmin, Hmax, <-Hn. unfold size. by rewrite Nat2Z.id. }
  { done. }
  { intros b Hb' Hp. by rewrite (Hh b Hb') in Hp. }
  assert (size bs' = d.2 - d.1.2) as Hs'.
  { rewrite <-Hn. unfold size. by rewrite (Forall2_length Hsame). }
  assert (column_in d (set_biomes bs' t)) as Hcol.
  { apply column_with_biomes; [done| |done]. apply Forall_lookup_2. intros i b' Hi.
    destruct (Forall2_lookup_r _ _ _ _ _ Hsame Hi) as (b & _ & _ & Hw & _). done. }
  exists bs'. split_and!; [|done|done]. unfold loadBiomes.
  eapply preads_bind0; [by apply preads_object|]. eapply preads_bind0; [apply preads_get|].
  rewrite <-(app_nil_r (biomes_ c ≫= enc_biome)). eapply preads_bind; [exact Hread|].
  apply preads_object. destruct (column_in_dims d _ Hcol) as (_ & _ & Hmin' & Hmax').
  generalize (Z.to_nat (maxCY_ (set_biomes [] t) - minCY_ (set_biomes [] t))) as fuel. intros fuel.
  change (set_biomes (biomes_ (set_biomes [] t) ++ bs') (set_biomes [] t)) with (set_biomes bs' t).
  destruct fuel; cbn [fill_loop]; rewrite bind_get, (column_in_width d _ Hcol), bind_lift, Hmin', Hmax';
    cbn [biomes_ set_biomes]; by rewrite (proj2 (Z.ltb_ge _ _)) by lia.
Qed.

Lemma proxy_loop_same c c' :
  Forall2 (fun b b' => BedrockBiomeSection.proxy_ b' = BedrockBiomeSection.proxy_ b) (biomes_ c) (biomes_ c') ->
  forall fuel i, 0 <= i < size (biomes_ c) -> proxy_loop fuel i c' = proxy_loop fuel i c.
Proof.
  intros Hp. induction fuel as [|fuel IH]; intros i Hi; cbn [proxy_loop];
    (destruct (i >? 0) eqn:Ei; [|done]); rewrite Z.gtb_ltb in Ei; apply Z.ltb_lt in Ei;
    destruct (vec_at_ok (biomes_ c) i Hi) as (b & -> & Hb);
    destruct (Forall2_lookup_l _ _ _ _ _ Hp Hb) as (b' & Hb' & E);
    rewrite (vec_at_lookup _ i b') by (lia || done); cbn [rbind]; unfold BedrockBiomeSection.proxy; rewrite E.
  - by destruct (BedrockBiomeSection.proxy_ b).
  - destruct (BedrockBiomeSection.proxy_ b); [|done]. apply IH. lia.
Qed.

(** The loop ends at a section of its own, unless it reaches the first one. *)
Lemma proxy_loop_own c : forall fuel i j b,
  proxy_loop fuel i c = Ok j -> biomes_ c !! Z.to_nat j = Some b -> head_sent (biomes_ c) -> 0 <= i ->
  BedrockBiomeSection.proxy_ b = false.
Proof.
  assert (forall i b, i <= 0 -> 0 <= i -> biomes_ c !! Z.to_nat i = Some b -> head_sent (biomes_ c) ->
    BedrockBiomeSection.proxy_ b = false) as H0.
  { intros i b Hi Hi' Hb Hh. apply Hh. replace (Z.to_nat i) with O in Hb by lia. by destruct (biomes_ c). }
  induction fuel as [|fuel IH]; intros i j b E Hb Hh Hi; cbn [proxy_loop] in E;
    (destruct (i >? 0) eqn:Ei; rewrite Z.gtb_ltb in Ei; [apply Z.ltb_lt in Ei|apply Z.ltb_ge in Ei; injection E as <-; by eapply H0]);
    (destruct (vec_at (biomes_ c) i) as [b0|] eqn:Eb; [|done]); cbn [rbind] in E;
    apply vec_at_inv in Eb as [_ Eb]; destruct (BedrockBiomeSection.proxy b0) eqn:Ep.
  - done.
  - injection E as <-. rewrite Eb in Hb. by injection Hb as <-.
  - eapply IH; [exact E|done|done|lia].
  - injection E as <-. rewrite Eb in Hb. by injection Hb as <-.
Qed.

Lemma getBiomeId_same d c c' pos :
  column_in d c -> column_in d c' -> Forall biome_sent (biomes_ c) -> head_sent (biomes_ c) ->
  Forall2 same_biomes (biomes_ c) (biomes_ c') -> is_s 32 (py pos) ->
  getBiomeId pos c' = getBiomeId pos c /\ exists id, getBiomeId pos c = Ok id.
Proof.
  intros Hc Hc' Hb Hh Hsame Hy. unfold getBiomeId. fold (sec (py pos)).
  destruct (column_in_dims d c Hc) as (Hco & _). destruct (column_in_dims d c' Hc') as (Hco' & _).
  rewrite !index_i32 by (apply Hc || apply Hc' || by apply sec_range). cbn [rbind]. rewrite Hco, Hco'.
  destruct (column_size d c Hc) as [Hn _]. destruct (column_size d c' Hc') as [Hn' _]. rewrite Hn, Hn'.
  destruct (_ || _) eqn:E; [by eauto|]. apply orb_false_iff in E as [E1 E2].
  apply Z.ltb_ge in E1. rewrite Z.geb_leb in E2. apply Z.leb_gt in E2. set (i := Z.abs d.1.2 + sec (py pos)) in *.
  rewrite (proxy_loop_same c c'); [|eapply Forall2_impl; [|exact Hsame]; by intros ? ? []|lia].
  destruct (proxy_loop_ok c (Z.to_nat i) i) as (j & b & Ej & Hj & Eb); [lia|lia|]. rewrite Ej. cbn [rbind].
  destruct (Forall2_lookup_l _ _ _ _ _ Hsame Eb) as (b' & Eb' & _ & _ & Hown).
  pose proof (proxy_loop_own c _ _ _ _ Ej Eb Hh E1) as Hp. destruct (Hown Hp) as (Hok' & _ & _ & Hat).
  destruct (Forall_lookup_1 _ _ _ _ Hb Eb Hp) as (Hok & _).
  rewrite (vec_at_lookup (biomes_ c) j b), (vec_at_lookup (biomes_ c') j b') by (lia || done). cbn [rbind].
  rewrite !BedrockBiomeSection.getBiomeId_ok by done. rewrite Hat by apply index_range. eauto.
Qed.

(** ** Block entities *)

(** Every raw block entity is the encoding of the document under the same key,
    and the key is the one that the coordinates in the document give. *)
Record entities_sent (c : BedrockChunkColumn) : Prop := mkEntitiesSent {
  es_raw : forall key raw, blockEntities_ c !! key = Some raw -> exists doc pos,
    blockEntityNbt_ c !! key = Some doc /\ document_ok LittleVarInt default_limits doc /\
    write_document LittleVarInt doc = Ok raw /\ blockEntityPosition doc = Ok pos /\ blockEntityKey pos = key;
  es_nbt : forall key doc, blockEntityNbt_ c !! key = Some doc -> is_Some (blockEntities_ c !! key)
}.

Definition raw_of (c : BedrockChunkColumn) (key : string) : bytes := default [] (blockEntities_ c !! key).

(** What arrives under [key]. *)
Definition receive (c t : BedrockChunkColumn) (key : string) : BedrockChunkColumn :=
  match blockEntityNbt_ c !! key with
  | Some doc => set_block_entities (<[key := raw_of c key]> (blockEntities_ t)) (<[key := doc]> (blockEntityNbt_ t)) t
  | None => t
  end.

Lemma compound_position doc pos : blockEntityPosition doc = Ok pos -> type (root doc) = TagCompound.
Proof.
  unfold blockEntityPosition. destruct (decide (type (root doc) = TagCompound)); [done|].
  by rewrite bool_decide_true.
Qed.

Lemma entities_empty c : blockEntities_ c = ∅ -> blockEntityNbt_ c = ∅ -> entities_sent c.
Proof. intros Hr Hn. split; intros k v Hk; rewrite ?Hr, ?Hn, lookup_empty in Hk; done. Qed.

Lemma written_raw doc raw : document_ok LittleVarInt default_limits doc ->
  write_document LittleVarInt doc = Ok raw -> raw = enc_document LittleVarInt doc.
Proof. intros Hok Hw. unfold write_document in Hw. rewrite Nbt.write_document in Hw by done. by injection Hw as <-. Qed.

(** [addBlockEntity] keeps the block entities fit for the network. *)
Lemma addBlockEntity_sent c doc pos :
  entities_sent c -> document_ok LittleVarInt default_limits doc -> blockEntityPosition doc = Ok pos ->
  exists c', addBlockEntity doc c = (Ok tt, c') /\ entities_sent c' /\
    getBlockEntityNbt pos c' = Some doc /\ c' = set_block_entities (blockEntities_ c') (blockEntityNbt_ c') c.
Proof.
  intros [Hr Hn] Hok Hpos. unfold addBlockEntity, setBlockEntityNbt. rewrite Hpos, bind_lift.
  assert (write_document LittleVarInt doc = Ok (enc_document LittleVarInt doc)) as Hw
    by (unfold write_document; by rewrite Nbt.write_document).
  rewrite Hw, bind_lift. set (key := blockEntityKey pos). set (raw := enc_document LittleVarInt doc) in *.
  exists (set_block_entities (<[key := raw]> (blockEntities_ c)) (<[key := doc]> (blockEntityNbt_ c)) c).
  split; [done|]. split; [|split; [apply lookup_insert_eq|done]].
  split; cbn [set_block_entities blockEntities_ blockEntityNbt_].
  - intros k r. destruct (decide (key = k)) as [<-|Hne].
    + rewrite !lookup_insert_eq. intros [= <-]. by exists doc, pos.
    + rewrite !lookup_insert_ne by done. apply Hr.
  - intros k e. destruct (decide (key = k)) as [<-|Hne]; [rewrite !lookup_insert_eq; by eexists|].
    rewrite !lookup_insert_ne by done. apply Hn.
Qed.

Lemma receive_preads c t key raw :
  entities_sent c -> blockEntities_ c !! key = Some raw ->
  preads (decode_block_entity LittleVarInt) raw t tt (receive c t key) /\ head raw = Some (tag_byte TagCompound).
Proof.
  intros Hc Hraw. destruct (es_raw c Hc key raw Hraw) as (doc & pos & Hdoc & Hok & Hw & Hpos & Hkey).
  pose proof (compound_position doc pos Hpos) as Hty.
  assert (raw = enc_document LittleVarInt doc) as Eraw by by apply written_raw.
  split; [|rewrite Eraw; unfold enc_document; by rewrite Hty].
  intros s r Hs Hbs Hr. unfold decode_block_entity.
  rewrite (bind_ok (on_stream get_st) _ (t, s) s (t, s) eq_refl). cbv zeta.
  pose proof (read_document LittleVarInt default_limits doc ltac:(done) Hok) as Hread. rewrite <-Eraw in Hread.
  assert (forall h, catch (on_stream (Nbt.read LittleVarInt default_limits)) h (t, s) =
    (Ok doc, (t, skip (size raw) s))) as E.
  { intros h. unfold catch. by rewrite (preads_stream _ raw doc t Hread s r Hs Hbs Hr). }
  rewrite (bind_ok _ _ _ _ _ (E _)). clear E.
  rewrite (bind_ok (on_stream get_st) _ (t, skip (size raw) s) (skip (size raw) s) (t, skip (size raw) s) eq_refl). cbv zeta.
  rewrite Hpos, bind_lift, Hkey. rewrite (bind_ok _ _ _ tt (set_block_entities (blockEntities_ t)
    (<[key := doc]> (blockEntityNbt_ t)) t, skip (size raw) s)) by done.
  rewrite bool_decide_true by done.
  assert (vec_range (readableBuffer (skip (size raw) s)) (offset s) (offset (skip (size raw) s)) = Ok raw) as ->.
  { change (readableBuffer (skip (size raw) s)) with (readableBuffer s).
    change (offset (skip (size raw) s)) with (offset_ s + size raw). unfold offset, rest, valid in *.
    pose proof (size_nonneg raw). assert (size raw <= size (readableBuffer s) - offset_ s) as Hsz.
    { apply (f_equal size) in Hr. rewrite size_app in Hr. pose proof (size_nonneg r).
      unfold size in *. rewrite length_drop in Hr. lia. }
    rewrite vec_range_ok by lia. rewrite Hr. f_equal. rewrite take_app_length'; [done|]. unfold size. lia. }
  rewrite bind_lift. unfold receive, raw_of. rewrite Hdoc, Hraw. by destruct t.
Qed.

Lemma compound_loop_reads {T A} (body : M (T * BinaryStream) unit) (enc : A -> bytes) (step : T -> A -> T) :
  forall l t fuel s,
  (forall x t, x ∈ l -> preads body (enc x) t tt (step t x) /\ head (enc x) = Some (tag_byte TagCompound)) ->
  valid s -> is_bytes (rest s) -> rest s = l ≫= enc -> (length l <= fuel)%nat ->
  exists s', compound_loop fuel body (t, s) = (Ok tt, (foldl step t l, s')).
Proof.
  induction l as [|x l IH]; intros t fuel s Hl Hs Hb Hr Hf.
  - exists s. assert (eof s = true) as E.
    { apply (f_equal length) in Hr. unfold rest in Hr. rewrite length_drop in Hr. cbn in Hr.
      unfold eof, offset, valid, size in *. apply Z.geb_le. lia. }
    destruct fuel; cbn [compound_loop]; rewrite (bind_ok (on_stream get_st) _ (t, s) s (t, s) eq_refl); by rewrite E.
  - destruct fuel as [|fuel]; [cbn in Hf; lia|]. cbn [compound_loop].
    rewrite (bind_ok (on_stream get_st) _ (t, s) s (t, s) eq_refl).
    destruct (Hl x t ltac:(by left)) as [Hbody Hh]. rewrite bind_cons in Hr.
    destruct (enc x) as [|b k] eqn:Ek; [done|]. injection Hh as ->.
    assert (eof s = false /\ vec_at (readableBuffer s) (offset s) = Ok (tag_byte TagCompound)) as [-> ->].
    { unfold rest, valid in *. split.
      - apply (f_equal length) in Hr. rewrite length_drop in Hr. cbn in Hr. unfold eof, offset, size in *.
        destruct (Z.geb_spec (offset_ s) (Z.of_nat (length (readableBuffer s)))); [lia|done].
      - apply vec_at_lookup; [unfold offset; lia|]. unfold offset. rewrite <-(Nat.add_0_r (Z.to_nat (offset_ s))).
        rewrite <-lookup_drop, Hr. done. }
    rewrite bind_lift, Z.eqb_refl. rewrite (bind_ok _ _ _ _ _ (Hbody s (l ≫= enc) Hs Hb Hr)).
    destruct (skip_rest (HS := stream_source) _ s _ Hs Hr) as [Hs' Hr'].
    apply IH; [intros y u Hy; apply Hl; by right|done|rewrite Hr'|done|cbn in Hf; lia].
    rewrite Hr in Hb. by apply Forall_app in Hb as [_ Hb].
Qed.

Lemma receive_frame c t key :
  exists raws nbts, receive c t key = set_block_entities raws nbts t.
Proof. unfold receive. destruct (blockEntityNbt_ c !! key); [by eexists _, _|]. exists (blockEntities_ t), (blockEntityNbt_ t). by destruct t. Qed.

Lemma receive_all_frame c keys : forall t,
  exists raws nbts, foldl (receive c) t keys = set_block_entities raws nbts t.
Proof.
  induction keys as [|key keys IH]; intros t; cbn [foldl].
  - exists (blockEntities_ t), (blockEntityNbt_ t). by destruct t.
  - destruct (receive_frame c t key) as (r1 & n1 & ->). destruct (IH (set_block_entities r1 n1 t)) as (r & n & ->).
    exists r, n. by destruct t.
Qed.

(** The entries of [c] under the keys that have arrived. *)
Lemma receive_all_lookup c keys : entities_sent c -> forall t,
  (forall key, key ∈ keys -> is_Some (blockEntities_ c !! key)) -> forall key,
  blockEntities_ (foldl (receive c) t keys) !! key =
    (if decide (key ∈ keys) then blockEntities_ c !! key else blockEntities_ t !! key) /\
  blockEntityNbt_ (foldl (receive c) t keys) !! key =
    (if decide (key ∈ keys) then blockEntityNbt_ c !! key else blockEntityNbt_ t !! key).
Proof.
  intros Hc. induction keys as [|k keys IH]; intros t Hk key; cbn [foldl];
    [by rewrite !decide_False by (by intros ?%elem_of_nil)|].
  destruct (IH (receive c t k) ltac:(intros; apply Hk; by right) key) as [-> ->].
  destruct (Hk k ltac:(by left)) as [raw Hraw]. destruct (es_raw c Hc k raw Hraw) as (doc & _ & Hdoc & _).
  unfold receive. rewrite Hdoc. cbn [set_block_entities blockEntities_ blockEntityNbt_].
  destruct (decide (key ∈ keys)) as [Hin|Hin]; [by rewrite !decide_True by by right|].
  destruct (decide (k = key)) as [->|Hne].
  - rewrite !decide_True by by left. rewrite !lookup_insert_eq. unfold raw_of. by rewrite Hraw, Hdoc.
  - rewrite !decide_False by (intros [->|]%elem_of_cons; done). by rewrite !lookup_insert_ne.
Qed.

Definition entity_keys (c : BedrockChunkColumn) : list string := sort_keys (map_to_list (blockEntities_ c)).*1.

Lemma elem_entity_keys c key : key ∈ entity_keys c <-> is_Some (blockEntities_ c !! key).
Proof.
  unfold entity_keys, sort_keys. rewrite merge_sort_Permutation, list_elem_of_fmap. split.
  - intros ([k v] & -> & H%elem_of_map_to_list). by exists v.
  - intros [v H]. exists (key, v). split; [done|]. by apply elem_of_map_to_list.
Qed.

Lemma section_keys_all keys : section_keys None keys = Ok keys.
Proof. induction keys as [|k keys IH]; [done|]. cbn [section_keys]. by rewrite IH. Qed.

Lemma encodeBlockEntities_appends c :
  oappends (encodeBlockEntities LittleVarInt None c) (entity_keys c ≫= raw_of c) tt.
Proof.
  intros s Hs. unfold encodeBlockEntities. rewrite section_keys_all, bind_lift. fold (entity_keys c).
  revert s Hs. apply oappends_for_each. intros key Hk%elem_entity_keys. destruct Hk as [raw Hraw].
  unfold encode_block_entity, raw_of. rewrite Hraw, bool_decide_true by done.
  apply oappends_appends, appends_bytes.
Qed.

Lemma raw_bytes c keys : entities_sent c -> (forall key, key ∈ keys -> is_Some (blockEntities_ c !! key)) ->
  is_bytes (keys ≫= raw_of c).
Proof.
  intros Hc. induction keys as [|key keys IH]; intros Hk; [constructor|]. rewrite bind_cons, is_bytes_app.
  split; [|apply IH; intros; apply Hk; by right]. destruct (Hk key ltac:(by left)) as [raw Hraw].
  destruct (es_raw c Hc key raw Hraw) as (doc & _ & _ & Hok & Hw & _).
  unfold raw_of. rewrite Hraw, (written_raw doc raw Hok Hw). by eapply enc_document_bytes.
Qed.

Lemma biomes_bytes bs : Forall biome_sent bs -> is_bytes (bs ≫= enc_biome).
Proof.
  induction 1 as [|b bs Hb _ IH]; [constructor|]. rewrite bind_cons, is_bytes_app.
  split; [|done]. by destruct (enc_biome_head b Hb) as (_ & _ & _ & ? & _).
Qed.

Lemma border_preads (t : BedrockChunkColumn) :
  preads (let* s := on_stream get_st in
          if negb (eof s) then read_border "invalid border block length" else ret tt) [0] t tt t.
Proof.
  intros s r Hs Hb Hr. rewrite (bind_ok (on_stream get_st) _ (t, s) s (t, s) eq_refl).
  assert (eof s = false) as ->.
  { apply (f_equal length) in Hr. unfold rest, eof, offset, valid, size in *. rewrite length_drop in Hr. cbn in Hr.
    destruct (Z.geb_spec (offset_ s) (Z.of_nat (length (readableBuffer s)))); [lia|done]. }
  revert s r Hs Hb Hr. change (preads (read_border "invalid border block length") [0] t tt t).
  unfold read_border. change [0] with ([0] ++ []). eapply preads_bind.
  - apply preads_stream, (reads_VarUInt 0). by apply (bool_decide_unpack _).
  - cbv zeta. intros s r Hs Hb Hr. rewrite (bind_ok (on_stream get_st) _ (t, s) s (t, s) eq_refl).
    assert (remaining s >= 0) by (rewrite remaining_rest by done; pose proof (size_nonneg (rest s)); lia).
    change (unzigzag_neg 32 0) with 0. change (to_u64 0) with 0. cbn [Z.ltb Z.compare orb].
    destruct (Z.gtb_spec 0 (remaining s)); [lia|].
    rewrite (bind_ok _ _ _ _ _ (preads_stream _ [] [] t (reads_bytes []) s r Hs Hb Hr)).
    rewrite bool_decide_true by done. cbn [negb ret]. done.
Qed.

(** The sections, through the loop that is bounded by the bytes that are left. *)
Lemma decode_all_preads (n : Z) data t t' :
  n <= size data ->
  (forall fuel, n <= Z.of_nat fuel -> preads (decode_sections fuel 0 n) data t tt t') ->
  preads (let* s := on_stream get_st in decode_sections (Z.to_nat (remaining s + 1)) 0 n) data t tt t'.
Proof.
  intros Hn H s r Hs Hb Hr. rewrite (bind_ok (on_stream get_st) _ (t, s) s (t, s) eq_refl).
  refine (H (Z.to_nat (remaining s + 1)) _ s r Hs Hb Hr). rewrite remaining_rest by done. rewrite Hr, size_app.
  pose proof (size_nonneg r). lia.
Qed.

Lemma column_with_entities d raw nbt t : column_in d t -> column_in d (set_block_entities raw nbt t).
Proof. apply column_in_entities. Qed.

(** A column that survives the network. *)
Record column_sent (c : BedrockChunkColumn) : Prop := mkColumnSent {
  cs_ok : col_ok c;
  cs_sections : forall j s, section_at j c = Some s -> section_sent (j - co_ c) s;
  cs_entities : entities_sent c
}.

(** The bytes of the biomes in one of the two formats. *)
Definition write_biomes (use3D : bool) (c : BedrockChunkColumn) : M BinaryStream unit :=
  if use3D then writeBiomes c else let* data := lift (dumpLegacyBiomes c) in writeBytes data.
Definition read_biomes (use3D : bool) : M (BedrockChunkColumn * BinaryStream) unit :=
  if use3D then loadBiomes BedrockSubChunk.Runtime
  else
    let* s := on_stream get_st in
    if remaining s <? 256 then raise (BedrockChunkError "legacy biome data is truncated")
    else
      let* data := on_stream (readBytes 256) in
      on_object (loadLegacyBiomes data).

Lemma encode_column use3D bio c : column_sent c -> oappends (write_biomes use3D c) bio tt ->
  exists data, oappends (networkEncodeNoCache_to use3D c)
      (data ++ bio ++ [0] ++ (entity_keys c ≫= raw_of c)) tt /\
    is_bytes data /\ size (present (sections_ c)) <= size data /\
    forall t, column_in (dims c) t -> exists t',
      preads (let* s := on_stream get_st in
              decode_sections (Z.to_nat (remaining s + 1)) 0 (size (present (sections_ c)))) data
        (set_sections (replicate (Z.to_nat (maxCY_ t - minCY_ t)) None) t) tt t' /\
      column_in (dims c) t' /\ t' = set_sections (sections_ t') t /\
      forall j, same_opt (section_at j c) (section_at j t').
Proof.
  intros [Hc Hs He] Hbio. assert (column_in (dims c) c) as Hin by done.
  destruct (sections_transfer c (dims c) Hin Hs (sections_ c) 0 []) as (data & Happ & Hby & Hsz & Hdec); [done..|].
  exists data. split; [|split; [done|split; [done|]]].
  - unfold networkEncodeNoCache_to. eapply oappends_bind; [exact Happ|].
    eapply oappends_bind; [exact Hbio|]. eapply oappends_bind; [|apply encodeBlockEntities_appends].
    apply oappends_appends, (appends_VarUInt 0). by apply (bool_decide_unpack _).
  - intros t Ht. destruct (column_in_dims _ t Ht) as (_ & Hn & Hmin & Hmax).
    set (t0 := set_sections (replicate (Z.to_nat (maxCY_ t - minCY_ t)) None) t).
    assert (arrived c (dims c) 0 t0) as Harr.
    { split.
      - pose proof (clear_sections_safe (dims c) t Ht) as H. unfold clear_sections, runs_safe in H.
        rewrite bind_get, (column_in_width _ t Ht), bind_lift in H. exact H.
      - intros j. split; [lia|]. intros Hj. unfold section_at, t0. cbn [set_sections sections_].
        destruct (_ || _); [done|]. by destruct (replicate _ _ !! _) eqn:E; [apply lookup_replicate in E as [-> _]|]. }
    destruct (Hdec 0 t0 Harr) as (t' & Hp & Ha & Et). rewrite Z.add_0_l in Hp.
    exists t'. split; [by apply decode_all_preads|]. destruct Ha as [Hin' Ha]. split_and!; [done|by rewrite Et|].
    intros j. destruct (decide (0 <= j < size (sections_ c))) as [Hj|Hj]; [by apply Ha|].
    destruct (column_in_dims _ t' Hin') as (_ & Hn' & _ & _). destruct (column_in_dims _ c Hin) as (_ & Hn2 & _ & _).
    destruct (section_at j c) eqn:E1; [apply section_at_Some in E1 as [? _]; lia|].
    destruct (section_at j t') eqn:E2; [apply section_at_Some in E2 as [? _]; lia|]. done.
Qed.

(** The state that arrives for a block of the column. *)
Definition received_block (c : BedrockChunkColumn) (pos : BlockPosition) : Z :=
  match section_at (co_ c + sec (py pos)) c with
  | None => 0
  | Some s => received_state true 0 s (layer_of pos) (block_index (px pos) (py pos) (pz pos))
  end.

(** It is the state that was sent, unless that is negative and alone in the
    palette of its layer, or the layer is missing in a section with an air of
    its own. *)
Lemma received_block_same c pos id : column_in (dims c) c -> pos_ok pos -> getBlockStateId pos c = Ok id -> 0 <= id ->
  (forall j s, section_at j c = Some s -> BedrockSubChunk.airStateId_ s = 0) -> received_block c pos = id.
Proof.
  intros [Hc _] Hp Hg Hid Ha. rewrite getBlockStateId_at in Hg by done. injection Hg as <-. unfold received_block, block_at in *.
  pose proof (layer_of_range pos Hp). destruct (section_at _ c) as [s|] eqn:Es; [|done].
  rewrite <-(Ha _ s Es). apply received_same; [by eapply section_at_ok|lia|done].
Qed.

(** The state of every block, seen through the sections. *)
Lemma blocks_same c c' pos :
  col_ok c -> col_ok c' -> co_ c' = co_ c -> (forall j, same_opt (section_at j c) (section_at j c')) -> pos_ok pos ->
  getBlockStateId pos c' = Ok (received_block c pos).
Proof.
  intros Hc Hc' Hco Hs Hp. rewrite !getBlockStateId_at by done. f_equal. unfold block_at, received_block. rewrite Hco.
  specialize (Hs (co_ c + sec (py pos))). pose proof (layer_of_range pos Hp).
  destruct (section_at _ c) as [s|], (section_at _ c') as [s'|]; try done.
  destruct Hs as [_ Hs]. apply Hs; [lia|apply index_range].
Qed.

Lemma raw_count {A} (enc : A -> bytes) l :
  (forall x, x ∈ l -> enc x <> []) -> (length l <= Z.to_nat (size (l ≫= enc) + 1))%nat.
Proof.
  intros H. assert (length l <= length (l ≫= enc))%nat; [|unfold size; lia].
  induction l as [|x l IH]; [done|]. rewrite bind_cons, length_app. cbn [length].
  specialize (IH ltac:(intros; apply H; by right)). pose proof (H x ltac:(by left)).
  destruct (enc x); [done|]. cbn [length]. lia.
Qed.

(** The decoder on the bytes of [c]. *)
Lemma decode_column use3D bio c t data payload t1 bs' :
  column_in (dims c) t -> entities_sent c -> is_bytes payload ->
  payload = data ++ bio ++ [0] ++ (entity_keys c ≫= raw_of c) ->
  preads (let* s := on_stream get_st in
          decode_sections (Z.to_nat (remaining s + 1)) 0 (size (present (sections_ c)))) data
    (set_sections (replicate (Z.to_nat (maxCY_ t - minCY_ t)) None) t) tt t1 ->
  preads (read_biomes use3D) bio t1 tt (set_biomes bs' t1) ->
  networkDecodeNoCache payload (size (present (sections_ c))) use3D t =
    (Ok tt, foldl (receive c) (set_biomes bs' t1) (entity_keys c)).
Proof.
  intros Ht He Hb Erest Hsec Hbio. unfold read_biomes in Hbio. unfold networkDecodeNoCache, reading, networkDecodeNoCache_from.
  pose proof (size_nonneg (present (sections_ c))).
  rewrite !(proj2 (Z.eqb_neq (size (present (sections_ c))) _)) by lia. cbn [negb andb].
  assert (preads (on_object clear_sections ;;;
    let* s := on_stream get_st in decode_sections (Z.to_nat (remaining s + 1)) 0 (size (present (sections_ c))))
    data t tt t1) as H1.
  { eapply preads_bind0; [|exact Hsec]. apply preads_object. unfold clear_sections.
    by rewrite bind_get, (column_in_width _ t Ht), bind_lift. }
  match goal with |- context [bind _ ?f (t, from_data payload)] =>
    destruct (preads_next _ f data t tt t1 (from_data payload) _ H1 (valid_from_data payload) Hb Erest)
      as (s1 & -> & V1 & B1 & E1) end.
  match goal with |- context [bind _ ?f (t1, s1)] =>
    destruct (preads_next _ f _ t1 tt _ s1 _ Hbio V1 B1 E1) as (s2 & -> & V2 & B2 & E2) end.
  rewrite <-(bind_assoc (on_stream get_st)
    (fun s => if negb (eof s) then read_border "invalid border block length" else ret tt)
    (fun _ => decodeBlockEntities LittleVarInt)).
  destruct (preads_next _ (fun _ => decodeBlockEntities LittleVarInt) [0] _ tt _ s2 _
    (border_preads (set_biomes bs' t1)) V2 B2 E2) as (s3 & -> & V3 & B3 & E3).
  unfold decodeBlockEntities, compounds. cbn [snd].
  destruct (compound_loop_reads (decode_block_entity LittleVarInt) (raw_of c) (receive c) (entity_keys c)
    (set_biomes bs' t1) (Z.to_nat (remaining s3 + 1)) s3) as (s4 & ->); [|done..| |done].
  - intros key u Hk. apply elem_entity_keys in Hk as [raw Hraw]. unfold raw_of. rewrite Hraw.
    by apply receive_preads.
  - rewrite remaining_rest, E3 by done. apply raw_count. intros key Hk.
    apply elem_entity_keys in Hk as [raw Hraw]. unfold raw_of. rewrite Hraw.
    destruct (receive_preads c t key raw He Hraw) as [_ Hh]. by destruct raw.
Qed.

(** The transfer of a column, whatever the format of the biomes: [bio] are the
    bytes that carry them, [R] what the receiver makes of them. *)
Lemma column_transfer use3D bio (R : list BedrockBiomeSection -> Prop) c t :
  column_sent c -> col_ok t -> dims t = dims c -> blockEntities_ t = ∅ -> blockEntityNbt_ t = ∅ ->
  is_bytes bio -> oappends (write_biomes use3D c) bio tt ->
  (forall t1, column_in (dims c) t1 -> biomes_ t1 = biomes_ t ->
     exists bs', preads (read_biomes use3D) bio t1 tt (set_biomes bs' t1) /\
       column_in (dims c) (set_biomes bs' t1) /\ R bs') ->
  exists payload t', networkEncodeNoCache use3D c = Ok payload /\ is_bytes payload /\
    networkDecodeNoCache payload (size (present (sections_ c))) use3D t = (Ok tt, t') /\
    column_in (dims c) t' /\ (forall pos, pos_ok pos -> getBlockStateId pos t' = Ok (received_block c pos)) /\
    R (biomes_ t') /\
    blockEntities_ t' = blockEntities_ c /\ blockEntityNbt_ t' = blockEntityNbt_ c.
Proof.
  intros Hsent Ht Hd Hr0 Hn0 Hbb Hbio Hread. pose proof Hsent as [Hc _ He].
  assert (column_in (dims c) c /\ column_in (dims c) t) as [Hin Hint] by done.
  destruct (encode_column use3D bio c Hsent Hbio) as (data & Happ & Hby & Hsz & Hdec).
  destruct (Hdec t Hint) as (t1 & Hp & Hin1 & Et1 & Hsame).
  assert (biomes_ t1 = biomes_ t) as Ebio by by rewrite Et1.
  destruct (Hread t1 Hin1 Ebio) as (bs' & Hload & Hin2 & HR).
  set (payload := data ++ _) in Happ. exists payload, (foldl (receive c) (set_biomes bs' t1) (entity_keys c)).
  destruct (receive_all_frame c (entity_keys c) (set_biomes bs' t1)) as (raws & nbts & Ef).
  assert (column_in (dims c) (foldl (receive c) (set_biomes bs' t1) (entity_keys c))) as Hin3
    by (rewrite Ef; by apply column_in_entities).
  assert (is_bytes payload) as Hpb.
  { unfold payload. rewrite !is_bytes_app. split_and!; [done|done|by repeat constructor|].
    apply raw_bytes; [done|]. intros key. by rewrite elem_entity_keys. }
  split; [unfold networkEncodeNoCache, buffer_of; by rewrite (Happ empty_stream eq_refl)|].
  split; [done|]. split; [by apply (decode_column use3D bio c t data payload t1 bs' Hint He Hpb eq_refl)|].
  pose proof (fun key => receive_all_lookup c (entity_keys c) He (set_biomes bs' t1)
    (fun k => proj1 (elem_entity_keys c k)) key) as Hlook.
  split; [done|]. split; [|split; [by rewrite Ef|split; apply map_eq; intros key; specialize (Hlook key)]].
  - intros pos Hpos. apply blocks_same; [done|apply Hin3| |by rewrite Ef|done].
    destruct (column_in_dims _ _ Hin3) as [-> _]. by destruct (column_in_dims _ _ Hin) as [-> _].
  - destruct Hlook as [-> _]. rewrite Et1. cbn [set_biomes set_sections blockEntities_]. rewrite Hr0.
    destruct (decide (key ∈ entity_keys c)) as [|Hk]; [done|]. rewrite elem_entity_keys in Hk.
    destruct (blockEntities_ c !! key) eqn:E; [|by rewrite lookup_empty]. destruct Hk. by eexists.
  - destruct Hlook as [_ ->]. rewrite Et1. cbn [set_biomes set_sections blockEntityNbt_]. rewrite Hn0.
    destruct (decide (key ∈ entity_keys c)) as [|Hk]; [done|]. rewrite elem_entity_keys in Hk.
    destruct (blockEntityNbt_ c !! key) as [doc|] eqn:E; [|by rewrite lookup_empty].
    destruct Hk. by apply (es_nbt c He key doc).
Qed.

(** Biomes that survive the 3D format. *)
Definition biomes_sent (c : BedrockChunkColumn) : Prop :=
  Forall biome_sent (biomes_ c) /\ head_sent (biomes_ c).

Lemma column_transfer_3D c t :
  column_sent c -> biomes_sent c -> col_ok t -> dims t = dims c -> blockEntities_ t = ∅ -> blockEntityNbt_ t = ∅ ->
  exists payload t', networkEncodeNoCache true c = Ok payload /\ is_bytes payload /\
    networkDecodeNoCache payload (size (present (sections_ c))) true t = (Ok tt, t') /\
    column_in (dims c) t' /\
    (forall pos, pos_ok pos ->
       getBlockStateId pos t' = Ok (received_block c pos) /\ getBiomeId pos t' = getBiomeId pos c) /\
    blockEntities_ t' = blockEntities_ c /\ blockEntityNbt_ t' = blockEntityNbt_ c.
Proof.
  intros Hsent [Hb Hh] Ht Hd Hr0 Hn0. assert (column_in (dims c) c) as Hin by (split; [apply Hsent|done]).
  destruct (column_transfer true (biomes_ c ≫= enc_biome) (Forall2 same_biomes (biomes_ c)) c t Hsent Ht Hd Hr0 Hn0)
    as (payload & t' & E1 & Hpb & E2 & Hin' & Hblk & Hsame & Er & En).
  - by apply biomes_bytes.
  - apply oappends_for_each. intros b Hbin. apply export_appends.
    apply (proj1 (Forall_forall _ _) Hb). by apply list_elem_of_In.
  - intros t1 Hin1 _. destruct (loadBiomes_preads _ c t1 Hin Hin1 Hb Hh) as (bs' & Hload & Hs & Hin2). by exists bs'.
  - exists payload, t'. split_and!; try done; [apply Hin'..|]. intros pos Hpos. split; [by apply Hblk|].
    eapply getBiomeId_same; try done. apply Hpos.
Qed.

(** A sign at (3, -60, 5) of the column. *)
Definition sign_entity : NbtDocument :=
  mkDocument "" (nbt_compound [("id", nbt_string "Sign"); ("x", nbt_int 3); ("y", nbt_int (-60)); ("z", nbt_int 5)]).

Lemma sign_ok : document_ok LittleVarInt default_limits sign_entity.
Proof. cbn [document_ok root doc_name sign_entity type nbt_compound]. nbt_check. Qed.

Definition overworld : result BedrockChunkColumn :=
  let! s := roundtrip_example in
  exec (setBounds (-4) 20 ;;; setSection (-4) s ;;; addBlockEntity sign_entity)
    (mkColumn 3 4 0 16 0 256 256 0 [] [] ∅ ∅ ∅ None).

Lemma overworld_sent : exists c, overworld = Ok c /\ dims c = (3, 4, -4, 20) /\ column_sent c /\ biomes_sent c.
Proof.
  destruct roundtrip_example_ok as (s & Es & Hs & Hy & Hv & Hl & Hp & _).
  unfold overworld, exec. rewrite Es. cbn [rbind]. clear Es.
  set (c0 := mkColumn 3 4 0 16 0 256 256 0 [] [] ∅ ∅ ∅ None).
  assert (bounds_ok (-4) 20) as Hb by by apply (bool_decide_unpack _).
  destruct (setBounds_ok (-4) 20 c0 Hb) as (bs & E0 & Hbs & Hbok & Hbd).
  destruct (setBounds_col_ok (-4) 20 c0 Hb) as (c1 & E & Hc1). rewrite (bind_ok _ _ _ _ _ E).
  rewrite E0 in E. apply (f_equal snd) in E. cbn [snd] in E.
  assert (sections_ c1 = replicate 24 None /\ co_ c1 = 4 /\ biomes_ c1 = bs /\
    blockEntities_ c1 = ∅ /\ blockEntityNbt_ c1 = ∅ /\ dims c1 = (3, 4, -4, 20)) as (Hsec & Hco & Hbio & Hraw & Hnbt & Hdim)
    by (rewrite <-E; split_and!; reflexivity).
  clear E E0 c0.
  assert (setSection (-4) s c1 = (Ok tt, with_section 0 s c1)) as E2.
  { unfold setSection. rewrite bind_get, Hco. change (i32 (4 + -4)) with (Ok 0 : result Z). rewrite bind_lift, Hsec.
    change (to_i8 (-4)) with (-4). rewrite <-Hy. by destruct s. }
  rewrite (bind_ok _ _ _ _ _ E2).
  assert (section_at 0 (with_section 0 s c1) = Some s /\ forall j, j <> 0 -> section_at j (with_section 0 s c1) = None)
    as [Hat0 Hat].
  { assert (0 <= 0 < size (sections_ c1)) as Hi by by rewrite Hsec. split; [by rewrite section_at_with|].
    intros j Hj. rewrite section_at_with, (proj2 (Z.eqb_neq _ _)) by done.
    destruct (section_at j c1) eqn:E; [|done]. apply section_at_Some in E as [_ E]. rewrite Hsec in E.
    by apply lookup_replicate in E as [? _]. }
  destruct (addBlockEntity_sent (with_section 0 s c1) sign_entity (mkPos 3 (-60) 5 None)) as (c & E3 & He & _ & Ec).
  { apply entities_empty; [exact Hraw|exact Hnbt]. }
  { exact sign_ok. }
  { by vm_compute. }
  rewrite E3. exists c. split; [done|]. clear E2 E3.
  assert (sections_ c = sections_ (with_section 0 s c1) /\ co_ c = 4 /\ biomes_ c = bs /\ dims c = (3, 4, -4, 20))
    as (Hsc & Hcc & Hbc & Hdc) by (rewrite Ec; split_and!; [reflexivity|exact Hco|exact Hbio|exact Hdim]).
  assert (forall j, section_at j c = section_at j (with_section 0 s c1)) as Hsame
    by (intros j; unfold section_at; by rewrite Hsc).
  assert (col_ok c) as Hc.
  { rewrite Ec. apply (column_in_entities (dims (with_section 0 s c1))). split; [by apply with_section_ok|done]. }
  split; [done|]. split; [split; [done| |done]|split].
  - intros j t Ht. rewrite Hsame in Ht. destruct (decide (j = 0)) as [->|Hj]; [|by rewrite Hat in Ht].
    rewrite Hat0 in Ht. injection Ht as <-. rewrite Hcc.
    split; [done|done|by rewrite Hl|done|by apply (bool_decide_unpack _)|done].
  - rewrite Hbc. apply Forall_lookup_2. intros i b Hi _. pose proof (Forall_lookup_1 _ _ _ _ Hbok Hi).
    destruct (Forall_lookup_1 _ _ _ _ Hbd Hi) as (_ & -> & _).
    split_and!; [done|done|by apply (bool_decide_unpack _)].
  - intros b Hh. rewrite Hbc in Hh. destruct bs as [|b0 bs]; [done|]. injection Hh as ->.
    by apply Forall_cons_1 in Hbd as [[? _] _].
Qed.

(** ** The legacy biomes

    One byte per column of blocks: reading them fills the first biome section
    and makes every other one a proxy, so that the biome no longer depends on
    the height. *)

(** The first section holds the biomes, the others refer to it. *)
Definition legacy (k : bytes) (bs : list BedrockBiomeSection) : Prop :=
  (exists b, bs !! O = Some b /\ BedrockBiomeSection.biome_ok b /\ forall x y z, 0 <= x < 16 -> 0 <= y < 16 -> 0 <= z < 16 ->
     BedrockBiomeSection.biome_at b (block_index x y z) = nth (Z.to_nat (x * 16 + z)) k 0) /\
  forall i b, (0 < i)%nat -> bs !! i = Some b -> BedrockBiomeSection.proxy_ b = true.

(** The first [i] sections are as they should be. *)
Definition legacy_upto (b0 : BedrockBiomeSection) (i : Z) (c : BedrockChunkColumn) : Prop :=
  biomes_ c !! O = Some b0 /\
  forall j b, (0 < j)%nat -> Z.of_nat j < i -> biomes_ c !! j = Some b -> BedrockBiomeSection.proxy_ b = true.

Lemma put_proxy_run d i c :
  column_in d c -> 0 <= i < size (biomes_ c) ->
  exists b, put_proxy i c = (Ok tt, with_biome i b c) /\ BedrockBiomeSection.proxy_ b = true /\ biome_wf b.
Proof.
  intros Hc Hi. pose proof (proj1 Hc) as Hk. pose proof (ck_biomes_size c Hk) as Hs.
  pose proof (ck_min c Hk) as H1. pose proof (ck_max c Hk) as H2.
  unfold is_s in *. change (2 ^ (28 - 1)) with 134217728 in *. unfold put_proxy. rewrite bind_get.
  rewrite to_i32_id, i32_ok, bind_lift by (unfold is_s; change (2 ^ (32 - 1)) with 2147483648; lia).
  destruct (proxyToPrevious_ok (minCY_ c + i)) as (b & -> & Hb & Hp). rewrite bind_lift. exists b.
  destruct (biome_lookup d c i Hc Hi) as (b0 & E & _ & _).
  by rewrite (on_biome_run (put_st b) i c b0 (Ok tt) b Hi E eq_refl).
Qed.

Lemma put_proxies d b0 : forall n i t s,
  column_in d t -> legacy_upto b0 i t -> 1 <= i -> i + Z.of_nat n = size (biomes_ t) ->
  exists t', for_each (seqZ i (Z.of_nat n)) (fun i => on_object (put_proxy i)) (t, s) = (Ok tt, (t', s)) /\
    column_in d t' /\ legacy_upto b0 (size (biomes_ t)) t' /\ t' = set_biomes (biomes_ t') t.
Proof.
  induction n as [|n IH]; intros i t s Ht Hl Hi Hn.
  - exists t. rewrite seqZ_nil by lia. replace (size (biomes_ t)) with i by lia.
    split; [done|]. split; [done|]. split; [done|]. by destruct t.
  - rewrite seqZ_cons by lia. cbn [for_each]. replace (Z.pred (Z.of_nat (S n))) with (Z.of_nat n) by lia.
    destruct (put_proxy_run d i t Ht ltac:(lia)) as (b & E & Hp & Hw).
    assert (on_object (put_proxy i) (t, s) = (Ok tt, (with_biome i b t, s))) as E'
      by (unfold on_object, zoom; cbn [fst snd]; by rewrite E).
    rewrite (bind_ok _ _ _ _ _ E').
    assert (size (biomes_ (with_biome i b t)) = size (biomes_ t)) as Hsz by (cbn [with_biome set_biomes biomes_]; by rewrite size_insert).
    destruct (IH (Z.succ i) (with_biome i b t) s) as (t' & E2 & Hin & Hl' & Et).
    + by apply with_biome_ok.
    + destruct Hl as [H0 Hl]. split; cbn [with_biome set_biomes biomes_].
      * by rewrite list_lookup_insert_ne by lia.
      * intros j bj Hj Hji Hb. destruct (decide (Z.to_nat i = j)) as [<-|Hne].
        -- rewrite list_lookup_insert_eq in Hb by (unfold size in Hn; lia). by injection Hb as <-.
        -- rewrite list_lookup_insert_ne in Hb by done. apply (Hl j); [done|lia|done].
    + lia.
    + rewrite Hsz. lia.
    + exists t'. rewrite Hsz in Hl'. split; [done|]. split; [done|]. split; [done|]. rewrite Et. by destruct t.
Qed.

(** The receiver's first section has room for the biomes. *)
Definition first_ok (bs : list BedrockBiomeSection) : Prop :=
  exists b, bs !! O = Some b /\ BedrockBiomeSection.biome_ok b /\ size (BedrockBiomeSection.palette_ b) + 4096 < 2 ^ 31.

Lemma loadLegacyBiomes_ok d k t :
  is_bytes k -> size k = 256 -> column_in d t -> first_ok (biomes_ t) ->
  exists bs, loadLegacyBiomes k t = (Ok tt, set_biomes bs t) /\ column_in d (set_biomes bs t) /\ legacy k bs.
Proof.
  intros Hk Hn Ht (b & Hb & Hok & Hroom). destruct (column_size d t Ht) as [Hsz Hpos].
  destruct (BedrockBiomeSection.readLegacy2D_preads k b Hk Hn Hok Hroom) as (b' & Hread & Hok' & _ & _ & _ & _ & Hat).
  set (s0 := from_data k).
  pose proof (Hread s0 [] (valid_from_data k) Hk ltac:(by rewrite app_nil_r)) as E.
  assert (vec_at (biomes_ t) 0 = Ok b) as Hvec by by apply vec_at_lookup.
  unfold loadLegacyBiomes, reading, loadLegacyBiomes_from. fold s0.
  assert (on_object (let* c := get_st in if size (biomes_ c) =? 0 then push_biome_section 0 else ret tt) (t, s0) =
    (Ok tt, (t, s0))) as E0.
  { unfold on_object, zoom. cbn [fst snd]. rewrite bind_get, (proj2 (Z.eqb_neq _ _)) by lia. done. }
  rewrite (bind_ok _ _ _ _ _ E0).
  rewrite (bind_ok _ _ _ _ _ (on_biome_stream_run _ 0 t s0 b _ _ _ ltac:(lia) Hvec E)).
  set (t1 := with_biome 0 b' t). set (s1 := skip (size k) s0).
  rewrite (bind_ok get_object _ (t1, s1) t1 (t1, s1) eq_refl).
  assert (column_in d t1) as Ht1 by (apply with_biome_ok; [done|apply (BedrockBiomeSection.bo_wf b' Hok')]).
  assert (biomes_ t1 !! O = Some b') as H0.
  { unfold t1. cbn [with_biome set_biomes biomes_]. apply list_lookup_insert_eq. unfold size in Hpos. lia. }
  assert (size (biomes_ t1) = size (biomes_ t)) as Hs1 by (unfold t1; cbn [with_biome set_biomes biomes_]; by rewrite size_insert).
  destruct (put_proxies d b' (Z.to_nat (size (biomes_ t1) - 1)) 1 t1 s1 Ht1) as (t' & Ef & Hin & [Hl0 Hl] & Et).
  { split; [done|]. intros. lia. }
  { lia. }
  { lia. }
  rewrite Z2Nat.id in Ef by lia. rewrite Ef. exists (biomes_ t').
  assert (set_biomes (biomes_ t') t = t') as Et' by (rewrite Et; by destruct t).
  rewrite Et'. split; [done|]. split; [done|]. split; [by exists b'|].
  intros i bi Hi Hbi. apply (Hl i); [done| |done]. apply lookup_lt_Some in Hbi.
  destruct (column_size d t' Hin) as [Hsz' _]. unfold size in *. lia.
Qed.

(** ** Writing and reading in the network form *)

Definition legacy_bytes (b : BedrockBiomeSection) : bytes :=
  BedrockBiomeSection.xz_pairs ≫= fun p => [to_u8 (BedrockBiomeSection.biome_at b (block_index p.1 0 p.2))].

Lemma legacy_bytes_ok b : is_bytes (legacy_bytes b) /\ size (legacy_bytes b) = 256.
Proof.
  unfold legacy_bytes. split.
  - induction BedrockBiomeSection.xz_pairs as [|p l IH]; [constructor|]. rewrite bind_cons. constructor; [apply to_u8_range|done].
  - reflexivity.
Qed.

Lemma legacy_bytes_nth b x z : 0 <= x < 16 -> 0 <= z < 16 ->
  nth (Z.to_nat (x * 16 + z)) (legacy_bytes b) 0 = to_u8 (BedrockBiomeSection.biome_at b (block_index x 0 z)).
Proof.
  intros Hx Hz. unfold legacy_bytes.
  assert (BedrockBiomeSection.xz_pairs !! Z.to_nat (x * 16 + z) = Some (x, z)) as E.
  { assert (forallb (fun p => bool_decide (BedrockBiomeSection.xz_pairs !! Z.to_nat (p.1 * 16 + p.2) = Some p))
      BedrockBiomeSection.xz_pairs = true) as H by by vm_compute.
    assert ((x, z) ∈ BedrockBiomeSection.xz_pairs) as Hin by by apply BedrockBiomeSection.elem_xz_pairs.
    pose proof (proj1 (forallb_forall _ _) H (x, z) ltac:(by apply list_elem_of_In)) as Hp.
    by apply bool_decide_eq_true in Hp. }
  revert E. generalize (Z.to_nat (x * 16 + z)) as i. induction BedrockBiomeSection.xz_pairs as [|p l IH]; [done|].
  intros [|i] E; rewrite bind_cons; cbn [lookup list_lookup app nth] in *; [by injection E as ->|by apply IH].
Qed.

Lemma read_legacy_preads d k t :
  is_bytes k -> size k = 256 -> column_in d t -> first_ok (biomes_ t) ->
  exists bs, preads (read_biomes false) k t tt (set_biomes bs t) /\ column_in d (set_biomes bs t) /\ legacy k bs.
Proof.
  intros Hk Hn Ht Hf. destruct (loadLegacyBiomes_ok d k t Hk Hn Ht Hf) as (bs & E & Hin & Hl).
  exists bs. split; [|by split]. intros s r Hs Hb Hr. unfold read_biomes.
  rewrite (bind_ok (on_stream get_st) _ (t, s) s (t, s) eq_refl).
  assert (remaining s = 256 + size r) as Hrem by (rewrite remaining_rest, Hr, size_app, Hn by done; done).
  pose proof (size_nonneg r). destruct (Z.ltb_spec (remaining s) 256); [lia|].
  pose proof (reads_bytes k) as Hread. rewrite Hn in Hread.
  rewrite (bind_ok _ _ _ _ _ (preads_stream _ k k t Hread s r Hs Hb Hr)).
  unfold on_object, zoom. cbn [fst snd]. by rewrite E.
Qed.

(** The biome of a block in a column of legacy biomes. *)
Lemma getBiomeId_legacy d k c pos :
  column_in d c -> legacy k (biomes_ c) -> is_s 32 (py pos) -> 0 <= co_ c + sec (py pos) < size (biomes_ c) ->
  getBiomeId pos c = Ok (nth (Z.to_nat (px pos mod 16 * 16 + pz pos mod 16)) k 0).
Proof.
  intros Hc [(b & Hb & Hok & Hat) Hp] Hy Hi. unfold getBiomeId. fold (sec (py pos)).
  rewrite (index_i32 c _ (proj1 Hc) (sec_range _ Hy)). cbn [rbind].
  rewrite (proj2 (Z.ltb_ge _ _)) by lia. destruct (Z.geb_spec (co_ c + sec (py pos)) (size (biomes_ c))); [lia|].
  cbn [orb]. set (i := co_ c + sec (py pos)) in *.
  assert (forall fuel j, 0 <= j <= i -> j <= Z.of_nat fuel -> proxy_loop fuel j c = Ok 0) as Hloop.
  { induction fuel as [|fuel IH]; intros j Hj Hf; cbn [proxy_loop]; (destruct (Z.gtb_spec j 0); [|f_equal; lia]); [lia|].
    destruct (vec_at_ok (biomes_ c) j ltac:(lia)) as (bj & -> & Hbj). cbn [rbind].
    unfold BedrockBiomeSection.proxy. rewrite (Hp (Z.to_nat j) bj ltac:(lia) Hbj). apply IH; lia. }
  rewrite Hloop by lia. cbn [rbind]. rewrite (vec_at_lookup _ 0 b) by done. cbn [rbind].
  rewrite BedrockBiomeSection.getBiomeId_ok by done. rewrite !localCoord_mod.
  pose proof (Z.mod_pos_bound (px pos) 16 ltac:(lia)). pose proof (Z.mod_pos_bound (py pos) 16 ltac:(lia)).
  pose proof (Z.mod_pos_bound (pz pos) 16 ltac:(lia)). by rewrite Hat.
Qed.

(** What the legacy format keeps of the biomes of [c]: the lowest layer of the
    first section, modulo 256. *)
Definition legacy_of (c : BedrockChunkColumn) (pos : BlockPosition) : Z :=
  match biomes_ c !! O with
  | Some b => to_u8 (BedrockBiomeSection.biome_at b (block_index (px pos) 0 (pz pos)))
  | None => 0
  end.

Lemma column_transfer_2D c t b :
  column_sent c -> biomes_ c !! O = Some b -> BedrockBiomeSection.biome_ok b ->
  col_ok t -> dims t = dims c -> first_ok (biomes_ t) -> blockEntities_ t = ∅ -> blockEntityNbt_ t = ∅ ->
  exists payload t', networkEncodeNoCache false c = Ok payload /\ is_bytes payload /\
    networkDecodeNoCache payload (size (present (sections_ c))) false t = (Ok tt, t') /\
    column_in (dims c) t' /\
    (forall pos, pos_ok pos -> getBlockStateId pos t' = Ok (received_block c pos) /\
       (in_bounds c (py pos) -> getBiomeId pos t' = Ok (legacy_of c pos))) /\
    blockEntities_ t' = blockEntities_ c /\ blockEntityNbt_ t' = blockEntityNbt_ c.
Proof.
  intros Hsent Hb Hok Ht Hd Hf Hr0 Hn0. destruct (legacy_bytes_ok b) as [Hbb Hbs].
  assert (column_in (dims c) c) as Hin by (split; [apply Hsent|done]). destruct (column_size _ _ Hin) as [Hsz Hpos].
  destruct (column_transfer false (legacy_bytes b) (legacy (legacy_bytes b)) c t Hsent Ht Hd Hr0 Hn0 Hbb)
    as (payload & t' & E1 & Hpb & E2 & Hin' & Hblk & Hleg & Er & En).
  - unfold write_biomes, dumpLegacyBiomes. rewrite (proj2 (Z.eqb_neq _ _)) by lia.
    rewrite (vec_at_lookup _ 0 b) by done. cbn [rbind]. unfold buffer_of.
    rewrite (BedrockBiomeSection.exportLegacy2D_appends b Hok empty_stream eq_refl).
    intros s Hs. rewrite bind_lift. by apply oappends_appends; [apply appends_bytes|].
  - intros t1 Hin1 Hbio. destruct (read_legacy_preads (dims c) (legacy_bytes b) t1 Hbb Hbs Hin1) as (bs & Hread & Hin2 & Hl);
      [by rewrite Hbio|by exists bs].
  - exists payload, t'. split; [done|]. split; [done|]. split; [done|]. split; [done|].
    split; [|by split]. intros pos Hp. split; [by apply Hblk|]. intros Hbd.
    destruct (column_in_dims _ _ Hin') as (Hco & _). destruct (column_in_dims _ _ Hin) as (Hco2 & Hns & _).
    destruct (column_size _ _ Hin') as [Hsz' _].
    rewrite (getBiomeId_legacy _ _ t' pos Hin' Hleg); [|apply Hp|unfold in_bounds in Hbd; lia].
    pose proof (Z.mod_pos_bound (px pos) 16 ltac:(lia)). pose proof (Z.mod_pos_bound (pz pos) 16 ltac:(lia)).
    rewrite legacy_bytes_nth by done. unfold legacy_of. rewrite Hb. do 2 f_equal.
    unfold block_index, PalettedStorage.block_index. by rewrite !Z.mod_mod.
Qed.
