(* ===== verification/PayloadParser.v ===== *)
(** * Parsers of packet payloads

    What the codecs that read one packet payload share: a local stream over the
    payload that must be used up, length-prefixed blocks of bytes and counted
    lists, with their judgements on encodings ([pends]) and on arbitrary bytes
    ([psafe_fact], [reads_value]). *)

From S2P Require Import Prelude MachineInt ZigZag Leb128 Endian BinaryStream SubChunkCodec StreamState.

Definition push_back {A} (x : A) : M (list A) unit := let* l := get_st in put_st (l ++ [x]).

(** [for (i = 0; i < n; ++i) v.push_back(item)] into a fresh vector. *)
Definition read_list {A} (n : Z) (item : M BinaryStream A) : M (unit * BinaryStream) (list A) :=
  on_local [] (read_times n (let* x := on_stream item in on_object (push_back x))).

(** A function that reads a whole payload through a local stream. *)
Definition parse {A} (payload : bytes) (m : M (unit * BinaryStream) A) : result A :=
  match m (tt, from_data payload) with
  | (Ok a, _) => Ok a
  | (Throw e, _) => Throw e
  end.

(** [if (!stream.eof()) throw] before [return out]. *)
Definition finish {A} (e : exn) (a : A) : M (unit * BinaryStream) A :=
  let* s := on_stream get_st in
  if negb (eof s) then raise e else ret a.

(** A block of bytes that must not be longer than what is left. *)
Definition read_sized (e : exn) (n : Z) : M BinaryStream bytes :=
  let* s := get_st in
  if n >? remaining s then raise e else readBytes n.

(** ** Reading encodings *)

Definition enc_u32 (v : Z) : bytes := leb_encode 5 v.

Lemma read_sized_reads e k : reads (read_sized e (size k)) k k.
Proof.
  intros s r Hs Hb Hr. unfold read_sized. rewrite bind_get.
  assert (remaining s = size k + size r) as E by (rewrite remaining_rest, Hr, size_app by done; lia).
  pose proof (size_nonneg r). destruct (Z.gtb_spec (size k) (remaining s)); [lia|].
  exact (reads_bytes k s r Hs Hb Hr).
Qed.

Lemma foldl_snoc {A} (l : list A) : forall m, foldl (fun (v : list A) x => v ++ [x]) m l = m ++ l.
Proof. induction l as [|x l IH]; intros m; [by rewrite app_nil_r|]. cbn [foldl]. by rewrite IH, <-app_assoc. Qed.

Lemma read_list_preads {A} (enc : A -> bytes) (item : M BinaryStream A) l t :
  (forall x, x ∈ l -> reads item (enc x) x /\ 1 <= size (enc x)) ->
  preads (read_list (size l) item) (l ≫= enc) t l t.
Proof.
  intros Hl. apply preads_local. change (preads (read_times (size l) (let* x := on_stream item in on_object (push_back x))) (l ≫= enc) [] tt ([] ++ l)).
  rewrite <-foldl_snoc.
  apply (read_times_preads enc (fun v x => v ++ [x])). intros x v Hx.
  destruct (Hl x Hx) as [Hr Hs]. split; [|done]. rewrite <-(app_nil_r (enc x)).
  eapply preads_bind; [by apply preads_stream|]. by apply preads_object.
Qed.

Lemma pends_finish {A} e (a : A) : pends (finish e a) [] tt a tt.
Proof.
  intros s Hs _ Hr. exists s. unfold finish. rewrite (bind_ok (on_stream get_st) _ (tt, s) s (tt, s) eq_refl).
  assert (eof s = true) as ->; [|done].
  apply (f_equal length) in Hr. unfold rest in Hr. rewrite length_drop in Hr. cbn in Hr.
  unfold eof, offset, valid, size in *. apply Z.geb_le. lia.
Qed.

Lemma pends_last {A B} (m : M (unit * BinaryStream) A) (f : A -> M _ B) k a b :
  preads m k tt a tt -> pends (f a) [] tt b tt -> pends (bind m f) k tt b tt.
Proof. intros H1 H2. rewrite <-(app_nil_r k). by eapply pends_bind. Qed.

Lemma parse_all {A} (m : M (unit * BinaryStream) A) k a : is_bytes k -> pends m k tt a tt -> parse k m = Ok a.
Proof. intros Hb H. unfold parse. by destruct (H (from_data k) (valid_from_data k) Hb eq_refl) as (s' & ->). Qed.

Lemma size_u32 {A} (l : list A) : size l < 2 ^ 32 -> is_u 32 (size l) /\ to_u32 (size l) = size l.
Proof. intros H. pose proof (size_nonneg l). split; [|apply to_u32_id]; unfold is_u; lia. Qed.

(** ** Arbitrary payloads *)

Abbreviation any := (fun _ : unit => True).

(** A stream read in the parser of a payload, and what is known of its value. *)
Lemma psafe_value {A} (m : M BinaryStream A) n (R : A -> Prop) :
  0 <= n -> steps n m ->
  (forall s a s', valid s -> is_bytes (readableBuffer s) -> m s = (Ok a, s') -> R a) ->
  psafe (on_stream m) any (fun a _ => R a).
Proof. intros Hn Hm HR. apply (psafe_stream m n); [done|done|]. intros t s a s' _ Hs Hb E. by eapply HR. Qed.

(** Facts about the values read so far are kept outside the triple. *)
Lemma psafe_fact {A B} (m : M (unit * BinaryStream) A) (f : A -> M _ B) (R : A -> Prop) Q :
  psafe m any (fun a _ => R a) -> (forall a, R a -> psafe (f a) any Q) -> psafe (bind m f) any Q.
Proof.
  intros Hm Hf. eapply psafe_bind; [exact Hm|]. cbv beta. intros a t s Ha Hs Hb. by apply (Hf a Ha t s).
Qed.

Lemma read_sized_steps e n : is_stuck e = false -> 0 <= n -> steps 0 (read_sized e n).
Proof.
  intros He Hn s Hs. unfold read_sized. rewrite bind_get. destruct (_ >? _); [split; [done|by apply advances_refl]|].
  pose proof (steps_readBytes n Hn s Hs) as H. destruct (readBytes n s) as [[a|e'] s']; [|done].
  by eapply advances_weaken.
Qed.

Lemma read_sized_value e n s k s' :
  0 <= n -> valid s -> is_bytes (readableBuffer s) -> read_sized e n s = (Ok k, s') ->
  is_bytes k /\ size k = n.
Proof.
  intros Hn Hs Hb E. unfold read_sized in E. rewrite bind_get in E. destruct (Z.gtb_spec n (remaining s)); [done|].
  split; [by eapply (readBytes_is_bytes n)|].
  assert (n = size (take (Z.to_nat n) (rest s))) as Hsz.
  { rewrite remaining_rest in * by done. unfold size in *. rewrite length_take. lia. }
  assert (is_bytes (rest s)) as Hr by by apply Forall_drop.
  rewrite Hsz in E. rewrite (reads_bytes _ s (drop (Z.to_nat n) (rest s)) Hs Hr) in E by by rewrite take_drop.
  injection E as <- _. by rewrite <-Hsz.
Qed.

(** A value read from the stream that takes [n] bytes at least. *)
Definition reads_value {A} (n : Z) (m : M BinaryStream A) (R : A -> Prop) : Prop :=
  forall s, valid s -> is_bytes (readableBuffer s) -> runs_safe m s (fun a s' => R a /\ advances n s s').

Lemma steps_value {A} n (m : M BinaryStream A) (R : A -> Prop) :
  steps n m -> (forall s a s', valid s -> is_bytes (readableBuffer s) -> m s = (Ok a, s') -> R a) ->
  reads_value n m R.
Proof.
  intros Hm HR s Hs Hb. specialize (Hm s Hs). unfold runs_safe. destruct (m s) as [[a|e] s'] eqn:E; [|by destruct Hm].
  split; [by eapply HR|done].
Qed.

Lemma reads_value_bind {A B} m n (f : M BinaryStream A) (k : A -> M BinaryStream B) R Q :
  reads_value m f R -> (forall a, R a -> reads_value n (k a) Q) -> reads_value (m + n) (bind f k) Q.
Proof.
  intros Hf Hk s Hs Hb. eapply runs_safe_bind; [by apply Hf|]. cbv beta. intros a s1 [Ha Hadv].
  pose proof Hadv as (Hr & _ & Hs1). eapply runs_safe_mono; [apply (Hk a Ha s1 Hs1); by rewrite Hr|].
  intros b s2 [Hb2 Hadv2]. split; [done|]. by eapply advances_trans.
Qed.

(** Pushing one item. *)
Lemma push_item_moves {A} (item : M BinaryStream A) R (P P' : list A -> Prop) :
  reads_value 1 item R -> (forall l a, P l -> R a -> P' (l ++ [a])) ->
  pmoves 1 (let* x := on_stream item in on_object (push_back x)) P (fun _ => P').
Proof.
  intros Hm HP. change 1 with (1 + 0). eapply (pmoves_bind _ _ _ _ _ (fun a l => P l /\ R a)).
  - intros t s Ht Hs Hb. specialize (Hm s Hs Hb). unfold runs_safe, on_stream, zoom in *. cbn [fst snd].
    destruct (item s) as [[a|e] s']; [|done]. by destruct Hm.
  - intros a. apply pmoves_object. intros l [Hl Ha]. by apply HP.
Qed.

Lemma read_list_safe {A} n (item : M BinaryStream A) (R : A -> Prop) :
  reads_value 1 item R -> psafe (read_list n item) any (fun l _ => Forall R l).
Proof.
  intros Hm. unfold read_list.
  eapply psafe_weaken; [eapply (psafe_local [] _ any (Forall R)); [|constructor]|done|by intros ? ? [_ ?]].
  apply read_times_psafe, (push_item_moves item R); [done|]. intros l a Hl Ha.
  apply Forall_app. split; [done|]. by constructor.
Qed.

Lemma finish_safe {A} e (a : A) Q : is_stuck e = false -> Q a -> psafe (finish e a) any (fun a _ => Q a).
Proof.
  intros He HQ. unfold finish. eapply (psafe_bind _ _ _ (fun _ => any)); [by intros t s|]. intros s.
  destruct (negb _); [by apply psafe_raise|by apply psafe_ret].
Qed.

Lemma parse_safe {A} data (m : M (unit * BinaryStream) A) Q :
  is_bytes data -> psafe m any (fun a _ => Q a) ->
  match parse data m with Ok a => Q a | Throw e => is_stuck e = false end.
Proof.
  intros Hb H. specialize (H tt (from_data data) I (valid_from_data data) Hb). unfold parse, runs_safe in *.
  destruct (m (tt, from_data data)) as [[a|e] p]; [|done]. by destruct H.
Qed.

(** ** Writers that may refuse

    [writes m k ok]: on a stream that owns its buffer, [m] appends [k] when
    [ok], and otherwise throws an exception of the program. *)
Definition writes (m : M BinaryStream unit) (k : bytes) (ok : bool) : Prop :=
  forall s, view_ s = None ->
    if ok then m s = (Ok tt, append k s)
    else exists e s', m s = (Throw e, s') /\ is_stuck e = false.

Lemma writes_ok m k : oappends m k tt -> writes m k true.
Proof. done. Qed.

Lemma writes_appends m k : appends m k tt -> writes m k true.
Proof. intros H. by apply writes_ok, oappends_appends. Qed.

Lemma writes_ret : writes (ret tt) [] true.
Proof. apply oappends_ret. Qed.

Lemma writes_raise e k : is_stuck e = false -> writes (raise e) k false.
Proof. intros He s _. by eexists _, _. Qed.

Lemma writes_bind m f k1 k2 b1 b2 :
  writes m k1 b1 -> writes f k2 b2 -> writes (m ;;; f) (k1 ++ k2) (b1 && b2).
Proof.
  intros H1 H2 s Hs. specialize (H1 s Hs). destruct b1; cbn [andb].
  - rewrite (bind_ok _ _ _ _ _ H1), <-append_append. apply H2. by apply append_owned.
  - destruct H1 as (e & s' & E & He). exists e, s'. by rewrite (bind_throw _ _ _ _ _ E).
Qed.

Lemma writes_for_each {A} (l : list A) body (enc : A -> bytes) (ok : A -> bool) :
  (forall x, x ∈ l -> writes (body x) (enc x) (ok x)) -> writes (for_each l body) (l ≫= enc) (forallb ok l).
Proof.
  induction l as [|x l IH]; intros H; [apply writes_ret|]. rewrite bind_cons. cbn [for_each forallb].
  apply writes_bind; [apply H; by left|]. apply IH. intros y Hy. apply H. by right.
Qed.

(** ** Values read from arbitrary bytes *)

Lemma value_then {A B} n (m : M BinaryStream A) (f : A -> M BinaryStream B) R Q :
  reads_value n m R -> (forall a, R a -> reads_value 0 (f a) Q) -> reads_value n (bind m f) Q.
Proof. intros Hm Hf. rewrite <-(Z.add_0_r n). by eapply reads_value_bind. Qed.

Lemma value_ret {A} (a : A) (Q : A -> Prop) : Q a -> reads_value 0 (ret a) Q.
Proof. intros HQ. apply steps_value; [apply steps_ret|]. by intros s b s' _ _ [= <- _]. Qed.

Lemma value_raise {A} e (Q : A -> Prop) : is_stuck e = false -> reads_value 0 (raise e) Q.
Proof. intros He s _ _. done. Qed.

Lemma value_weaken {A} n (m : M BinaryStream A) Q : 0 <= n -> reads_value n m Q -> reads_value 0 m Q.
Proof.
  intros Hn H s Hs Hb. eapply runs_safe_mono; [by apply H|]. intros a s' [HQ Ha]. split; [done|].
  by eapply advances_weaken.
Qed.

Lemma value_I8 : reads_value 1 readI8 (is_s 8).
Proof.
  apply steps_value; [apply steps_readI8|]. intros s v s' _ _ E. unfold readI8 in E.
  apply bind_inv_ok in E as (u & s1 & _ & [= <- _]). by apply to_signed_range.
Qed.

Lemma value_U8 : reads_value 0 readU8 (is_u 8).
Proof. apply (value_weaken 1); [lia|]. apply steps_value; [apply steps_readU8|intros; by eapply readU8_range]. Qed.

Lemma psafe_reads {A} n (m : M BinaryStream A) R :
  0 <= n -> reads_value n m R -> psafe (on_stream m) any (fun a _ => R a).
Proof.
  intros Hn Hm t s _ Hs Hb. specialize (Hm s Hs Hb). unfold runs_safe, on_stream, zoom in *. cbn [fst snd].
  destruct (m s) as [[a|e] s']; [|done]. destruct Hm as [HR (? & _ & ?)]. done.
Qed.

Lemma psafe_read {A B} n (m : M BinaryStream A) (f : A -> M _ B) R Q :
  reads_value n m R -> 0 <= n -> (forall a, R a -> psafe (f a) any Q) -> psafe (bind (on_stream m) f) any Q.
Proof. intros Hm Hn. apply psafe_fact. by apply (psafe_reads n). Qed.

(** The list has as many items as the count. *)
Lemma read_list_sized {A} n (item : M BinaryStream A) (R : A -> Prop) :
  0 <= n -> reads_value 1 item R -> psafe (read_list n item) any (fun l _ => Forall R l /\ size l = n).
Proof.
  intros Hn Hm. unfold read_list. set (P := fun k (l : list A) => Forall R l /\ size l = n - k).
  eapply psafe_weaken; [eapply (psafe_local [] _ any (P n) (P 0))|done|].
  - apply read_times_counted; [done|]. intros k Hk. apply (push_item_moves item R); [done|].
    intros l a [Hl Hsz] Ha. unfold P. rewrite size_app. change (size [a]) with 1. split; [|lia].
    apply Forall_app. split; [done|]. by constructor.
  - split; [constructor|]. by rewrite size_nil, Z.sub_diag.
  - intros l t [_ [Hl Hsz]]. split; [done|lia].
Qed.
