(* ===== verification/LevelChunk.v ===== *)
(** * Level chunk packets (src/src/world/BedrockChunk.cpp, BedrockLevelChunkCodec)

    The payload of the level chunk packet and of the two client cache packets,
    and the passage between a packet and a column. *)

From S2P Require Import Prelude MachineInt ZigZag Leb128 Endian BinaryStream Nbt PalettedStorage SubChunk SubChunkState SubChunkCodec BiomeSection ChunkColumn ColumnState ColumnCodec ColumnRoundtrip PayloadParser StreamState.
Import BedrockChunkColumn.

Module BedrockLevelChunkCodec.

Record BedrockLevelChunkPacket := mkLevelChunk {
  lc_x : Z;
  lc_z : Z;
  lc_dimension : Z;
  subChunkCount : Z;
  highestSubChunkCount : option Z;
  cacheEnabled : bool;
  lc_blobHashes : list Z;
  lc_payload : bytes
}.

Record BedrockCacheBlob := mkCacheBlob { blob_hash : Z; blob_payload : bytes }.
Record BedrockClientCacheBlobStatus := mkBlobStatus { missing : list Z; have : list Z }.

(** ** Numbers and lists *)

Definition readZigZag32 : M BinaryStream Z :=
  let* value := readVarUInt in ret (unzigzag_neg 32 value).
Definition writeZigZag32 (value : Z) : M BinaryStream unit :=
  writeVarUInt (zigzag_shift 32 value).

(** ** The level chunk packet *)

Definition decode_level_chunk : M (unit * BinaryStream) BedrockLevelChunkPacket :=
  let* x := on_stream readZigZag32 in
  let* z := on_stream readZigZag32 in
  let* dimension := on_stream readZigZag32 in
  let* count := on_stream readVarInt in
  let* highest := (if count =? -2 then let* v := on_stream readU16LE in ret (Some v) else ret None) in
  let* cache := on_stream readU8 in
  let* hashes := (if negb (cache =? 0) then
                    let* hashCount := on_stream readVarUInt in
                    read_list hashCount readU64LE
                  else ret []) in
  let* payloadSize := on_stream readVarUInt in
  let* payload := on_stream (read_sized (BedrockChunkError "level_chunk payload size exceeds packet payload") payloadSize) in
  finish (BedrockChunkError "level_chunk packet has trailing bytes")
    (mkLevelChunk x z dimension count highest (negb (cache =? 0)) hashes payload).

Definition decodePacketPayload (payload : bytes) : result BedrockLevelChunkPacket :=
  parse payload decode_level_chunk.

Definition encode_level_chunk (packet : BedrockLevelChunkPacket) : M BinaryStream unit :=
  writeZigZag32 (lc_x packet) ;;;
  writeZigZag32 (lc_z packet) ;;;
  writeZigZag32 (lc_dimension packet) ;;;
  writeVarInt (subChunkCount packet) ;;;
  (if subChunkCount packet =? -2 then writeU16LE (default 0 (highestSubChunkCount packet)) else ret tt) ;;;
  writeU8 (if cacheEnabled packet then 1 else 0) ;;;
  (if cacheEnabled packet then
     writeVarUInt (to_u32 (size (lc_blobHashes packet))) ;;;
     for_each (lc_blobHashes packet) writeU64LE
   else ret tt) ;;;
  writeVarUInt (to_u32 (size (lc_payload packet))) ;;;
  writeBytes (lc_payload packet).

Definition encodePacketPayload (packet : BedrockLevelChunkPacket) : result bytes :=
  buffer_of (encode_level_chunk packet).

(** ** Columns *)

Definition decodeNoCacheColumn (packet : BedrockLevelChunkPacket) (useCavesAndCliffsBounds : bool)
    : result BedrockChunkColumn :=
  if cacheEnabled packet then
    Throw (BedrockChunkError "decodeNoCacheColumn requires cacheEnabled=false")
  else
    let! column := make (lc_x packet) (lc_z packet) in
    exec (
      (if useCavesAndCliffsBounds then setBounds (-4) 20 else ret tt) ;;;
      networkDecodeNoCache (lc_payload packet) (subChunkCount packet) useCavesAndCliffsBounds) column.

Definition count_sections (sections : list (option BedrockSubChunk)) : Z :=
  foldl (fun count section => match section with Some _ => count + 1 | None => count end) 0 sections.

Definition encodeNoCacheColumn (column : BedrockChunkColumn) (dimension : Z) : result BedrockLevelChunkPacket :=
  let! payload := networkEncodeNoCache_auto column in
  Ok (mkLevelChunk (x column) (z column) dimension (count_sections (sections_ column)) None false [] payload).

(** ** The client cache packets *)

Definition read_blob : M BinaryStream BedrockCacheBlob :=
  let* hash := readU64LE in
  let* n := readVarUInt in
  let* payload := read_sized (BedrockChunkError "cache blob payload exceeds packet size") n in
  ret (mkCacheBlob hash payload).

Definition decodeClientCacheMissResponsePayload (payload : bytes) : result (list BedrockCacheBlob) :=
  parse payload (
    let* count := on_stream readVarUInt in
    let* blobs := read_list count read_blob in
    finish (BedrockChunkError "client_cache_miss_response has trailing bytes") blobs).

Definition encodeClientCacheBlobStatusPayload (status : BedrockClientCacheBlobStatus) : result bytes :=
  buffer_of (
    writeVarUInt (to_u32 (size (missing status))) ;;;
    writeVarUInt (to_u32 (size (have status))) ;;;
    for_each (missing status) writeU64LE ;;;
    for_each (have status) writeU64LE).

End BedrockLevelChunkCodec.

Import BedrockLevelChunkCodec.

(** ** Reading and writing the parts *)

Definition enc_hash (h : Z) : bytes := le_encode 8 h.
Definition enc_i32 (v : Z) : bytes := leb_encode 5 (to_u32 v).

Lemma read_i32 v : is_s 32 v -> reads readVarInt (enc_i32 v) v.
Proof.
  intros Hv. apply reads_signed; [lia|done|]. apply reads_VarUInt. by apply to_u_range.
Qed.

(** ** The level chunk packet *)

(** What the wire carries of a packet. *)
Definition on_wire (p : BedrockLevelChunkPacket) : BedrockLevelChunkPacket :=
  mkLevelChunk (lc_x p) (lc_z p) (lc_dimension p) (subChunkCount p)
    (if subChunkCount p =? -2 then Some (default 0 (highestSubChunkCount p)) else None)
    (cacheEnabled p) (if cacheEnabled p then lc_blobHashes p else []) (lc_payload p).

Record packet_ok (p : BedrockLevelChunkPacket) : Prop := mkPacketOk {
  po_x : is_s 32 (lc_x p);
  po_z : is_s 32 (lc_z p);
  po_dimension : is_s 32 (lc_dimension p);
  po_count : is_s 32 (subChunkCount p);
  po_highest : forall v, highestSubChunkCount p = Some v -> is_u 16 v;
  po_hashes : Forall (is_u 64) (lc_blobHashes p) /\ size (lc_blobHashes p) < 2 ^ 32;
  po_payload : is_bytes (lc_payload p) /\ size (lc_payload p) < 2 ^ 32
}.

Definition enc_level_chunk (p : BedrockLevelChunkPacket) : bytes :=
  enc_zz (lc_x p) ++ enc_zz (lc_z p) ++ enc_zz (lc_dimension p) ++ enc_i32 (subChunkCount p) ++
  (if subChunkCount p =? -2 then le_encode 2 (default 0 (highestSubChunkCount p)) else []) ++
  [if cacheEnabled p then 1 else 0] ++
  (if cacheEnabled p then enc_u32 (size (lc_blobHashes p)) ++ (lc_blobHashes p ≫= enc_hash) else []) ++
  enc_u32 (size (lc_payload p)) ++ lc_payload p.

Lemma encode_level_chunk_appends p :
  packet_ok p -> oappends (encode_level_chunk p) (enc_level_chunk p) tt.
Proof.
  intros [Hx Hz Hd Hc _ [_ Hhs] [_ Hps]]. destruct (size_u32 _ Hhs) as [Hh1 Hh2]. destruct (size_u32 _ Hps) as [Hp1 Hp2].
  unfold encode_level_chunk, enc_level_chunk. rewrite Hh2, Hp2.
  do 3 (eapply oappends_bind; [by apply write_zz|]).
  eapply oappends_bind; [apply oappends_appends, appends_VarUInt; by apply to_u_range|].
  eapply oappends_bind; [destruct (_ =? -2); [apply oappends_appends, appends_U16LE|apply oappends_ret]|].
  eapply oappends_bind; [apply oappends_appends, appends_U8|].
  eapply oappends_bind.
  { destruct (cacheEnabled p); [|apply oappends_ret].
    eapply oappends_bind; [by apply oappends_appends, appends_VarUInt|].
    apply oappends_for_each. intros h _. apply oappends_appends, appends_U64LE. }
  eapply oappends_bind; [by apply oappends_appends, appends_VarUInt|]. apply oappends_appends, appends_bytes.
Qed.

Lemma enc_hash_size h : 1 <= size (enc_hash h).
Proof. unfold enc_hash. by rewrite le_encode_size. Qed.

Lemma decode_level_chunk_pends p :
  packet_ok p -> pends decode_level_chunk (enc_level_chunk p) tt (on_wire p) tt.
Proof.
  intros [Hx Hz Hd Hc Hh [Hhu Hhs] [Hpb Hps]].
  destruct (size_u32 _ Hhs) as [Hh1 _]. destruct (size_u32 _ Hps) as [Hp1 _].
  unfold decode_level_chunk, enc_level_chunk.
  eapply pends_bind; [apply preads_stream; by apply read_zz|].
  eapply pends_bind; [apply preads_stream; by apply read_zz|].
  eapply pends_bind; [apply preads_stream; by apply read_zz|].
  eapply pends_bind; [apply preads_stream; by apply read_i32|].
  eapply (pends_bind _ _ _ _ _ (if subChunkCount p =? -2 then Some (default 0 (highestSubChunkCount p)) else None)).
  { destruct (subChunkCount p =? -2); [|apply preads_ret].
    rewrite <-(app_nil_r (le_encode 2 _)). eapply preads_bind; [|apply preads_ret].
    apply preads_stream, reads_U16LE. destruct (highestSubChunkCount p); [by apply Hh|done]. }
  eapply pends_bind; [apply preads_stream, reads_U8|].
  assert (negb ((if cacheEnabled p then 1 else 0) =? 0) = cacheEnabled p) as -> by by destruct (cacheEnabled p).
  eapply (pends_bind _ _ _ _ _ (if cacheEnabled p then lc_blobHashes p else [])).
  { destruct (cacheEnabled p); [|apply preads_ret].
    eapply preads_bind; [by apply preads_stream, reads_VarUInt|]. apply read_list_preads. intros h Hin.
    split; [|apply enc_hash_size]. apply reads_U64LE. apply (proj1 (Forall_forall _ _) Hhu). by apply list_elem_of_In. }
  eapply pends_bind; [by apply preads_stream, reads_VarUInt|].
  eapply pends_last; [apply preads_stream, read_sized_reads|].
  apply pends_finish.
Qed.

Lemma steps_readZigZag32 : steps 0 readZigZag32.
Proof. exact steps_readZigZag. Qed.

Lemma zigzag_value s v s' : readZigZag32 s = (Ok v, s') -> is_s 32 v.
Proof.
  unfold readZigZag32, bind. destruct (readVarUInt s) as [[u|e] s1]; [|done]. intros [= <- _].
  by apply to_signed_range.
Qed.

Lemma varint_value s v s' : readVarInt s = (Ok v, s') -> is_s 32 v.
Proof.
  unfold readVarInt, bind. destruct (readVarUInt s) as [[u|e] s1]; [|done]. intros [= <- _].
  by apply to_signed_range.
Qed.

(** What a decoded packet looks like. *)
Definition packet_read (p : BedrockLevelChunkPacket) : Prop :=
  is_s 32 (lc_x p) /\ is_s 32 (lc_z p) /\ is_s 32 (lc_dimension p) /\ is_s 32 (subChunkCount p) /\
  (forall v, highestSubChunkCount p = Some v -> is_u 16 v) /\
  (highestSubChunkCount p = None <-> subChunkCount p <> -2) /\
  Forall (is_u 64) (lc_blobHashes p) /\ (cacheEnabled p = false -> lc_blobHashes p = []) /\
  is_bytes (lc_payload p) /\ size (lc_payload p) < 2 ^ 32.

Lemma decode_level_chunk_safe : psafe decode_level_chunk any (fun p _ => packet_read p).
Proof.
  unfold decode_level_chunk.
  do 3 (eapply (psafe_fact _ _ (is_s 32)); [eapply (psafe_value _ 0); [lia|apply steps_readZigZag32|intros; by eapply zigzag_value]|intros ? ?]).
  eapply (psafe_fact _ _ (is_s 32)); [eapply (psafe_value _ 0); [lia|apply steps_readVarInt|intros; by eapply varint_value]|].
  intros n Hn.
  eapply (psafe_fact _ _ (fun h => (forall v, h = Some v -> is_u 16 v) /\ (h = None <-> n <> -2))).
  { destruct (Z.eqb_spec n (-2)) as [->|Hne]; [|by apply psafe_ret].
    eapply (psafe_fact _ _ (is_u 16)); [eapply (psafe_value _ 2); [lia|apply steps_readU16LE|intros; by eapply readU16LE_range]|].
    intros v Hv. apply psafe_ret. intros _ _. split; [by intros ? [= <-]|]. by split. }
  intros h Hh. eapply (psafe_fact _ _ (is_u 8)); [eapply (psafe_value _ 1); [lia|apply steps_readU8|intros; by eapply readU8_range]|].
  intros cache _. eapply (psafe_fact _ _ (fun l => Forall (is_u 64) l /\ (negb (cache =? 0) = false -> l = []))).
  { destruct (negb (cache =? 0)); [|by apply psafe_ret].
    eapply (psafe_fact _ _ (is_u 32)); [eapply (psafe_value _ 0); [lia|apply steps_readVarUInt|intros; by eapply readVarUInt_range]|].
    intros m _. eapply psafe_weaken; [apply (read_list_safe m readU64LE (is_u 64))|done|by intros].
    apply steps_value; [by apply (steps_weaken 8), steps_readU64LE|]. intros. by eapply readU64LE_range. }
  intros l [Hl Hl']. eapply (psafe_fact _ _ (is_u 32)); [eapply (psafe_value _ 0); [lia|apply steps_readVarUInt|intros; by eapply readVarUInt_range]|].
  intros m [Hm Hm']. eapply (psafe_fact _ _ (fun k => is_bytes k /\ size k = m)).
  { eapply (psafe_value _ 0); [lia|by apply read_sized_steps|]. intros. by eapply read_sized_value. }
  intros k [Hk Hs]. apply finish_safe; [done|]. unfold packet_read. cbn. rewrite Hs.
  split_and!; try done; apply Hh.
Qed.

Lemma enc_level_chunk_bytes p : packet_ok p -> is_bytes (enc_level_chunk p).
Proof.
  intros [Hx Hz Hd Hc _ [Hhu Hhs] [Hpb Hps]]. unfold enc_level_chunk, enc_u32, enc_i32.
  pose proof (size_nonneg (lc_blobHashes p)). pose proof (size_nonneg (lc_payload p)).
  rewrite !is_bytes_app. split_and!; try done; try (by apply enc_zz_bytes).
  - apply leb_encode_bytes. by apply to_u_range.
  - destruct (_ =? _); [apply le_encode_bytes|constructor].
  - constructor; [by destruct (cacheEnabled p)|constructor].
  - destruct (cacheEnabled p); [|constructor]. rewrite is_bytes_app. split; [by apply leb_encode_bytes|].
    clear. induction (lc_blobHashes p) as [|h l IH]; [constructor|]. rewrite bind_cons, is_bytes_app.
    split; [apply le_encode_bytes|done].
  - by apply leb_encode_bytes.
Qed.

Lemma level_decode_encode p : packet_ok p ->
  encodePacketPayload p = Ok (enc_level_chunk p) /\ decodePacketPayload (enc_level_chunk p) = Ok (on_wire p).
Proof.
  intros Hp. split.
  - unfold encodePacketPayload, buffer_of. by rewrite (encode_level_chunk_appends p Hp empty_stream eq_refl).
  - apply parse_all; [by apply enc_level_chunk_bytes|by apply decode_level_chunk_pends].
Qed.

(** ** Columns *)

Lemma count_present l : count_sections l = size (present l).
Proof.
  unfold count_sections. assert (forall n, foldl (fun count (section : option BedrockSubChunk) =>
    match section with Some _ => count + 1 | None => count end) n l = n + size (present l)) as H; [|by rewrite H].
  induction l as [|[s|] l IH]; intros n; cbn [foldl].
  - change (size (present [])) with 0. lia.
  - rewrite IH. change (present (Some s :: l)) with (s :: present l). rewrite size_cons. lia.
  - by rewrite IH.
Qed.

(** The column that a packet is decoded into. *)
Lemma fresh_column x z (caves : bool) :
  exists c0 t, make x z = Ok c0 /\ (if caves then setBounds (-4) 20 else ret tt) c0 = (Ok tt, t) /\ col_ok t /\
    dims t = (x, z, if caves then -4 else 0, if caves then 20 else 16) /\
    blockEntities_ t = ∅ /\ blockEntityNbt_ t = ∅ /\ first_ok (biomes_ t).
Proof.
  assert (forall bs, size bs > 0 -> Forall BedrockBiomeSection.biome_ok bs ->
    Forall (fun b => BedrockBiomeSection.proxy_ b = false /\ BedrockBiomeSection.palette_ b = [0] /\
      forall i, BedrockBiomeSection.biome_at b i = 0) bs -> first_ok bs) as Hfirst.
  { intros bs Hs Hok Hd. destruct bs as [|b bs]; [done|]. apply Forall_cons_1 in Hok as [Hok _].
    apply Forall_cons_1 in Hd as [(_ & Hp & _) _]. exists b. rewrite Hp. by split_and!. }
  set (c00 := mkColumn x z 0 16 0 256 256 0 [] [] ∅ ∅ ∅ None).
  assert (bounds_ok 0 16 /\ bounds_ok (-4) 20) as [B1 B2] by (split; by apply (bool_decide_unpack _)).
  destruct (setBounds_ok 0 16 c00 B1) as (bs & E & Hs & Hok & Hd).
  destruct (setBounds_col_ok 0 16 c00 B1) as (c0 & E0 & Hc0).
  exists c0. unfold make, exec. fold c00. rewrite E0. pose proof E0 as E0'. rewrite E in E0'.
  apply (f_equal snd) in E0'. cbn [snd] in E0'.
  assert (dims c0 = (x, z, 0, 16) /\ blockEntities_ c0 = ∅ /\ blockEntityNbt_ c0 = ∅ /\ biomes_ c0 = bs /\ x_ c0 = x /\ z_ c0 = z)
    as (D0 & R0 & N0 & S0 & X0 & Z0) by (rewrite <-E0'; split_and!; reflexivity).
  clear E E0 E0'. clearbody c00. destruct caves.
  - destruct (setBounds_ok (-4) 20 c0 B2) as (bs' & E & Hs' & Hok' & Hd').
    destruct (setBounds_col_ok (-4) 20 c0 B2) as (t & Et & Ht). exists t. pose proof Et as Et'. rewrite E in Et'.
    apply (f_equal snd) in Et'. cbn [snd] in Et'. split; [done|]. split; [exact Et|]. split; [done|].
    clear Et E. rewrite <-Et'. split_and!; [by rewrite <-X0, <-Z0|exact R0|exact N0|].
    apply Hfirst; [|exact Hok'|exact Hd']. cbn [biomes_ set_biomes]. rewrite Hs'. lia.
  - exists c0. split_and!; [done|done|done|done|done|done|]. rewrite S0. apply Hfirst; [lia|done|done].
Qed.

(** Fit for the biome format that the bounds select. *)
Definition level_bounds (c : BedrockChunkColumn) : Prop :=
  if caves_and_cliffs c then (minCY_ c, maxCY_ c) = (-4, 20) /\ biomes_sent c
  else (minCY_ c, maxCY_ c) = (0, 16) /\
    exists b, biomes_ c !! O = Some b /\ BedrockBiomeSection.biome_ok b.

(** ** Properties *)

(** C12: a column of the overworld bounds (with 3D biomes) or of the old bounds
    (with 2D biomes) is encoded as a level chunk packet, the packet as a
    payload, the payload decoded as the same packet, and the packet as a
    column.  Its sections have version 9, one or two layers and states of 32
    bits.  What arrives of a block is [received_block]: its state, but [- n - 1]
    for a negative state [n] that is alone in the palette of its layer, and 0
    for a layer that its section does not have.  3D biomes arrive as they are;
    of 2D biomes the lowest layer arrives, modulo 256, and stands for every
    height.  Block entities and their NBT arrive as they are; each is the
    encoding of its NBT, under the key of its position ([entities_sent]).  The
    first biome section is not a proxy, and 3D biomes are numbers of 31 bits. *)
Theorem level_chunk_column c dimension :
  column_sent c -> is_s 32 (x_ c) -> is_s 32 (z_ c) -> is_s 32 dimension -> level_bounds c ->
  exists p, encodeNoCacheColumn c dimension = Ok p /\
    (size (lc_payload p) < 2 ^ 32 ->
     exists data c', encodePacketPayload p = Ok data /\ decodePacketPayload data = Ok p /\
       decodeNoCacheColumn p (caves_and_cliffs c) = Ok c' /\ col_ok c' /\ dims c' = dims c /\
       (forall pos, pos_ok pos ->
          getBlockStateId pos c' = Ok (received_block c pos) /\
          if caves_and_cliffs c then getBiomeId pos c' = getBiomeId pos c
          else in_bounds c (py pos) -> getBiomeId pos c' = Ok (legacy_of c pos)) /\
       blockEntities_ c' = blockEntities_ c /\ blockEntityNbt_ c' = blockEntityNbt_ c).
Proof.
  intros Hsent Hx Hz Hdim Hb. destruct (fresh_column (x_ c) (z_ c) (caves_and_cliffs c))
    as (c0 & t & Emake & Ebounds & Ht & Hd & Hr0 & Hn0 & Hf).
  assert (forall payload n t', networkDecodeNoCache payload n (caves_and_cliffs c) t = (Ok tt, t') ->
    decodeNoCacheColumn (mkLevelChunk (x_ c) (z_ c) dimension n None false [] payload) (caves_and_cliffs c) = Ok t') as Hdec.
  { intros payload n t' E. unfold decodeNoCacheColumn. cbn [cacheEnabled lc_x lc_z lc_payload subChunkCount].
    rewrite Emake. cbn [rbind]. unfold exec. rewrite (bind_ok _ _ _ _ _ Ebounds). by rewrite E. }
  clear Emake Ebounds c0.
  assert (dims t = dims c) as Hdims.
  { rewrite Hd. unfold level_bounds in Hb. unfold dims.
    destruct (caves_and_cliffs c); destruct Hb as [[= -> ->] _]; done. }
  assert (exists payload t', networkEncodeNoCache_auto c = Ok payload /\ is_bytes payload /\
    networkDecodeNoCache payload (size (present (sections_ c))) (caves_and_cliffs c) t = (Ok tt, t') /\
    column_in (dims c) t' /\
    (forall pos, pos_ok pos -> getBlockStateId pos t' = Ok (received_block c pos) /\
       if caves_and_cliffs c then getBiomeId pos t' = getBiomeId pos c
       else in_bounds c (py pos) -> getBiomeId pos t' = Ok (legacy_of c pos)) /\
    blockEntities_ t' = blockEntities_ c /\ blockEntityNbt_ t' = blockEntityNbt_ c)
    as (payload & t' & E1 & Hpb & E2 & [Hok Hdt] & Hget & Hr & Hn).
  { unfold networkEncodeNoCache_auto, level_bounds in *. destruct (caves_and_cliffs c).
    - exact (column_transfer_3D c t Hsent (proj2 Hb) Ht Hdims Hr0 Hn0).
    - destruct Hb as [_ (b & Hb & Hbok)]. exact (column_transfer_2D c t b Hsent Hb Hbok Ht Hdims Hf Hr0 Hn0). }
  assert (is_s 32 (size (present (sections_ c)))) as Hcount.
  { assert (size (sections_ c) <= 24) as H24.
    { rewrite (ck_size c (cs_ok c Hsent)). unfold level_bounds in Hb.
      destruct (caves_and_cliffs c); destruct Hb as [[= -> ->] _]; lia. }
    assert (size (present (sections_ c)) <= size (sections_ c)) as Hle.
    { unfold size, present. clear. induction (sections_ c) as [|[s|] l IH]; cbn [omap list_omap id length]; lia. }
    pose proof (size_nonneg (present (sections_ c))). unfold is_s. change (2 ^ (32 - 1)) with 2147483648. lia. }
  unfold encodeNoCacheColumn. rewrite E1. cbn [rbind]. rewrite count_present. eexists. split; [done|].
  cbn [lc_payload]. intros Hsz. set (p := mkLevelChunk _ _ _ _ _ _ _ _).
  assert (packet_ok p) as Hp by (split; try done; by split).
  destruct (level_decode_encode p Hp) as [He Hde]. exists (enc_level_chunk p), t'.
  assert (on_wire p = p) as Ew.
  { unfold on_wire, p. cbn. rewrite (proj2 (Z.eqb_neq _ _)); [done|]. pose proof (size_nonneg (present (sections_ c))). lia. }
  rewrite Ew in Hde. split; [exact He|]. split; [exact Hde|]. split; [exact (Hdec _ _ _ E2)|].
  split; [exact Hok|]. split; [exact Hdt|]. split; [exact Hget|]. by split.
Qed.

(** The block that was set and one that was not, before and after. *)
Lemma overworld_blocks c : overworld = Ok c ->
  let air := mkPos 1 (-63) 2 None in let block := mkPos 1 (-62) 3 None in
  getBlockStateId air c = Ok 0 /\ received_block c air = 0 /\ getBlockStateId block c = Ok 77 /\ received_block c block = 77.
Proof.
  intros Eo air block.
  assert (match overworld with
    | Ok c => getBlockStateId air c = Ok 0 /\ received_block c air = 0 /\ getBlockStateId block c = Ok 77 /\ received_block c block = 77
    | Throw _ => False end) as H by (vm_compute; by split_and!).
  by rewrite Eo in H.
Qed.

Lemma level_chunk_column_witness :
  exists c p, overworld = Ok c /\ encodeNoCacheColumn c 0 = Ok p /\
    (size (lc_payload p) < 2 ^ 32 ->
     exists data c', encodePacketPayload p = Ok data /\ decodePacketPayload data = Ok p /\
       decodeNoCacheColumn p true = Ok c' /\ blockEntityNbt_ c' = blockEntityNbt_ c /\
       getBlockStateId (mkPos 1 (-63) 2 None) c = Ok 0 /\ getBlockStateId (mkPos 1 (-63) 2 None) c' = Ok 0 /\
       getBlockStateId (mkPos 1 (-62) 3 None) c = Ok 77 /\ getBlockStateId (mkPos 1 (-62) 3 None) c' = Ok 77).
Proof.
  destruct overworld_sent as (c & Eo & Hd & Hc & Hb). injection Hd as Hx Hz Hmin Hmax.
  assert (caves_and_cliffs c = true) as Hcaves by (unfold caves_and_cliffs; rewrite Hmin; reflexivity).
  destruct (level_chunk_column c 0 Hc) as (p & Ep & H).
  - rewrite Hx. by apply (bool_decide_unpack _).
  - rewrite Hz. by apply (bool_decide_unpack _).
  - by apply (bool_decide_unpack _).
  - unfold level_bounds. rewrite Hcaves, Hmin, Hmax. split; [reflexivity|exact Hb].
  - exists c, p. split; [exact Eo|]. split; [exact Ep|]. intros Hs.
    destruct (H Hs) as (data & c' & E1 & E2 & E3 & _ & _ & Hg & _ & Hn). rewrite Hcaves in E3.
    exists data, c'. split; [exact E1|]. split; [exact E2|]. split; [exact E3|]. split; [exact Hn|].
    destruct (overworld_blocks c Eo) as (A1 & A2 & A3 & A4).
    destruct (Hg (mkPos 1 (-63) 2 None)) as [B1 _]; [split; [by apply (bool_decide_unpack _)|exact I]|].
    destruct (Hg (mkPos 1 (-62) 3 None)) as [B2 _]; [split; [by apply (bool_decide_unpack _)|exact I]|].
    rewrite A2 in B1. rewrite A4 in B2. by split_and!.
Defined.

(** A level chunk packet is encoded, and its encoding decoded as the same
    packet, up to what the wire does not carry: the highest sub-chunk is sent
    exactly with the count -2 (as 0 when it is absent), the hashes only with
    the cache flag. *)
Theorem level_chunk_roundtrip p :
  packet_ok p ->
  exists data, encodePacketPayload p = Ok data /\ decodePacketPayload data = Ok (on_wire p).
Proof. intros Hp. exists (enc_level_chunk p). by apply level_decode_encode. Qed.

Lemma level_chunk_roundtrip_witness :
  exists data, encodePacketPayload (mkLevelChunk (-3) 7 0 (-2) (Some 9) true [1; 2 ^ 63] [8; 9]) = Ok data /\
    decodePacketPayload data = Ok (mkLevelChunk (-3) 7 0 (-2) (Some 9) true [1; 2 ^ 63] [8; 9]).
Proof.
  apply (level_chunk_roundtrip (mkLevelChunk (-3) 7 0 (-2) (Some 9) true [1; 2 ^ 63] [8; 9])).
  split; cbn [lc_x lc_z lc_dimension subChunkCount highestSubChunkCount lc_blobHashes lc_payload];
    try (by apply (bool_decide_unpack _)).
  intros v [= <-]. by apply (bool_decide_unpack _).
Defined.

(** Decoding any payload of a level chunk packet is memory safe and ends: an
    exception of the program, or a packet whose fields are in range, which
    carries the highest sub-chunk exactly with the count -2, and which is
    encoded and decoded again as itself. *)
Theorem level_chunk_decode_safe data :
  is_bytes data ->
  match decodePacketPayload data with
  | Ok p => packet_read p /\ (size (lc_blobHashes p) < 2 ^ 32 ->
      exists data', encodePacketPayload p = Ok data' /\ decodePacketPayload data' = Ok p)
  | Throw e => is_stuck e = false
  end.
Proof.
  intros Hb. pose proof (parse_safe data decode_level_chunk packet_read Hb decode_level_chunk_safe) as H.
  unfold decodePacketPayload at 1. destruct (parse data decode_level_chunk) as [p|e]; [|done].
  split; [done|]. intros Hsz. destruct H as (Hx & Hz & Hd & Hc & Hh & Hi & Hu & He & Hpb & Hps).
  assert (packet_ok p) as Hp by by split.
  assert (on_wire p = p) as Ew.
  { destruct p as [x z d n h c hs k]. unfold on_wire. cbn in *. f_equal.
    - destruct (Z.eqb_spec n (-2)) as [->|Hne]; [|symmetry; by apply Hi].
      destruct h; [done|]. exfalso. by apply (proj1 Hi eq_refl).
    - destruct c; [done|]. symmetry. by apply He. }
  exists (enc_level_chunk p). pose proof (level_decode_encode p Hp) as Hde. by rewrite Ew in Hde.
Qed.

Lemma level_chunk_decode_safe_witness :
  match decodePacketPayload [2; 4; 0; 1; 1; 255; 255; 255; 255; 15; 1] with
  | Ok p => packet_read p /\ (size (lc_blobHashes p) < 2 ^ 32 ->
      exists data', encodePacketPayload p = Ok data' /\ decodePacketPayload data' = Ok p)
  | Throw e => is_stuck e = false
  end.
Proof. apply (level_chunk_decode_safe [2; 4; 0; 1; 1; 255; 255; 255; 255; 15; 1]). by apply (bool_decide_unpack _). Defined.

(** The encodings of the two cache packets. *)
Definition enc_blob (b : BedrockCacheBlob) : bytes :=
  enc_hash (blob_hash b) ++ enc_u32 (size (blob_payload b)) ++ blob_payload b.

Definition blob_ok (b : BedrockCacheBlob) : Prop :=
  is_u 64 (blob_hash b) /\ is_bytes (blob_payload b) /\ size (blob_payload b) < 2 ^ 32.

Lemma read_blob_reads b : blob_ok b -> reads read_blob (enc_blob b) b.
Proof.
  intros (Hh & Hb & Hs). destruct (size_u32 _ Hs) as [Hu _]. unfold read_blob, enc_blob.
  eapply consumes_bind; [by apply reads_U64LE|]. eapply consumes_bind; [by apply reads_VarUInt|].
  destruct b as [h k]. cbn [blob_hash blob_payload] in *.
  apply (consumes_bind_ret _ (mkCacheBlob h)). apply read_sized_reads.
Qed.

Lemma read_blob_value : reads_value 1 read_blob blob_ok.
Proof.
  intros s Hs Hb. apply (runs_safe_mono _ _ (fun b s' => blob_ok b /\ advances (8 + (0 + (0 + 0))) s s')).
  2:{ intros b s' [H1 H2]. split; [exact H1|]. by apply (advances_weaken (8 + (0 + (0 + 0))) 1 s s' ltac:(lia) H2). }
  revert s Hs Hb. change (reads_value (8 + (0 + (0 + 0))) read_blob blob_ok). unfold read_blob.
  eapply (reads_value_bind _ _ _ _ (is_u 64)); [apply steps_value; [apply steps_readU64LE|intros; by eapply readU64LE_range]|].
  intros h Hh.
  eapply (reads_value_bind _ _ _ _ (is_u 32)); [apply steps_value; [apply steps_readVarUInt|intros; by eapply readVarUInt_range]|].
  intros n [Hn Hn']. eapply (reads_value_bind _ _ _ _ (fun k => is_bytes k /\ size k = n)).
  { apply steps_value; [by apply read_sized_steps|intros; by eapply read_sized_value]. }
  intros k [Hk Hs]. apply steps_value; [apply steps_ret|]. intros s a s' _ _ [= <- _].
  unfold blob_ok. cbn [blob_hash blob_payload]. by rewrite Hs.
Qed.

(** A client cache miss response with the given blobs is decoded as them, in
    order, and decoding any payload of one ends in blobs with 64-bit hashes or
    in an exception of the program; the blob status packet lists the missing
    hashes before the present ones, after both counts. *)
Theorem cache_packets blobs status data :
  Forall blob_ok blobs -> size blobs < 2 ^ 32 ->
  size (missing status) < 2 ^ 32 -> size (have status) < 2 ^ 32 -> is_bytes data ->
  decodeClientCacheMissResponsePayload (enc_u32 (size blobs) ++ (blobs ≫= enc_blob)) = Ok blobs /\
  match decodeClientCacheMissResponsePayload data with
  | Ok l => Forall blob_ok l
  | Throw e => is_stuck e = false
  end /\
  encodeClientCacheBlobStatusPayload status =
    Ok (enc_u32 (size (missing status)) ++ enc_u32 (size (have status)) ++
        (missing status ≫= enc_hash) ++ (have status ≫= enc_hash)).
Proof.
  intros Hb Hs Hm Hh Hd. destruct (size_u32 _ Hs) as [Hu _]. split; [|split].
  - apply parse_all.
    { rewrite is_bytes_app. split; [apply leb_encode_bytes, size_nonneg|]. clear -Hb.
      induction Hb as [|b l (H1 & H2 & H3) _ IH]; [constructor|]. rewrite bind_cons, is_bytes_app. split; [|done].
      unfold enc_blob, enc_hash, enc_u32. rewrite !is_bytes_app.
      split_and!; [apply le_encode_bytes|apply leb_encode_bytes, size_nonneg|done]. }
    eapply pends_bind; [by apply preads_stream, reads_VarUInt|]. eapply pends_last; [|apply pends_finish].
    apply read_list_preads. intros b Hin. split; [|].
    + apply read_blob_reads. apply (proj1 (Forall_forall _ _) Hb). by apply list_elem_of_In.
    + unfold enc_blob. rewrite size_app. pose proof (enc_hash_size (blob_hash b)).
      pose proof (size_nonneg (enc_u32 (size (blob_payload b)) ++ blob_payload b)). lia.
  - apply parse_safe; [done|].
    eapply (psafe_fact _ _ (is_u 32)); [eapply (psafe_value _ 0); [lia|apply steps_readVarUInt|intros; by eapply readVarUInt_range]|].
    intros n _. eapply (psafe_fact _ _ (Forall blob_ok)); [by apply read_list_safe, read_blob_value|].
    intros l Hl. by apply finish_safe.
  - destruct (size_u32 _ Hm) as [Hm1 Hm2]. destruct (size_u32 _ Hh) as [Hh1 Hh2].
    unfold encodeClientCacheBlobStatusPayload, buffer_of. rewrite Hm2, Hh2.
    erewrite (oappends_bind _ _ _ _ _ tt (oappends_appends _ _ _ (appends_VarUInt _ Hm1))); [| |done].
    2:{ eapply oappends_bind; [by apply oappends_appends, appends_VarUInt|].
        eapply oappends_bind; apply oappends_for_each; intros h _; apply oappends_appends, appends_U64LE. }
    done.
Qed.

Lemma cache_packets_witness :
  decodeClientCacheMissResponsePayload (enc_u32 2 ++ ([mkCacheBlob 5 [1; 2]; mkCacheBlob 6 []] ≫= enc_blob)) =
    Ok [mkCacheBlob 5 [1; 2]; mkCacheBlob 6 []].
Proof.
  apply (cache_packets [mkCacheBlob 5 [1; 2]; mkCacheBlob 6 []] (mkBlobStatus [] []) []);
    [|reflexivity|reflexivity|reflexivity|constructor].
  repeat constructor; by apply (bool_decide_unpack _).
Defined.
