(* ===== verification/SubChunkPacket.v ===== *)
(** * Sub-chunk packets (src/src/world/BedrockSubChunkPacket.cpp)

    The payload of the subchunk packet, in the single-entry schema of 1.18.0
    and in the schema of the later versions, which has a second height map
    from 1.21.90 on. *)

From S2P Require Import Prelude MachineInt ZigZag Leb128 Endian BinaryStream GamePacket Text SubChunk SubChunkCodec ChunkColumn PayloadParser StreamState.

Module BedrockSubChunkPacketCodec.

(** ** Data *)

Inductive BedrockSubChunkResult :=
| Undefined | Success | ChunkNotFound | InvalidDimension | PlayerNotFound | YIndexOutOfBounds
| SuccessAllAir.

Inductive BedrockHeightMapType := NoData | HasData | TooHigh | TooLow.

#[export] Instance result_code_eq_dec : EqDecision BedrockSubChunkResult.
Proof. solve_decision. Defined.
#[export] Instance height_type_eq_dec : EqDecision BedrockHeightMapType.
Proof. solve_decision. Defined.

Record BedrockSubChunkPacketEntry := mkEntry {
  dx : Z;
  dy : Z;
  dz : Z;
  entry_result : BedrockSubChunkResult;
  entry_payload : bytes;
  heightMapType : BedrockHeightMapType;
  heightMap : list Z;
  renderHeightMapType : BedrockHeightMapType;
  renderHeightMap : list Z;
  blobId : option Z
}.

Record BedrockSubChunkPacket := mkPacket {
  cacheEnabled : bool;
  dimension : Z;
  originX : Z;
  originY : Z;
  originZ : Z;
  entries : list BedrockSubChunkPacketEntry
}.

(** The underlying values of the two enumerations. *)
Definition result_code (r : BedrockSubChunkResult) : Z :=
  match r with
  | Undefined => 0 | Success => 1 | ChunkNotFound => 2 | InvalidDimension => 3
  | PlayerNotFound => 4 | YIndexOutOfBounds => 5 | SuccessAllAir => 6
  end.
Definition result_of (v : Z) : BedrockSubChunkResult :=
  nth (Z.to_nat v) [Undefined; Success; ChunkNotFound; InvalidDimension; PlayerNotFound; YIndexOutOfBounds]
    SuccessAllAir.
Definition type_code (t : BedrockHeightMapType) : Z :=
  match t with NoData => 0 | HasData => 1 | TooHigh => 2 | TooLow => 3 end.
Definition type_of (v : Z) : BedrockHeightMapType := nth (Z.to_nat v) [NoData; HasData; TooHigh] TooLow.

Definition error (message : string) : exn := BedrockSubChunkPacketError message.

(** ** Versions *)

Definition legacySingleEntrySchema (version : string) : bool := bool_decide (version = "1.18.0").

Definition dot : Ascii.ascii := Ascii.ascii_of_nat 46.

(** The loop of [parseVersion]: [rest] is [version.substr(offset)], [left]
    counts the parts to come. *)
Fixpoint parse_parts (left : nat) (version rest : string) : result (list Z) :=
  let invalid : result (list Z) := Throw (error ("invalid Minecraft version: " +:+ version)) in
  match left with
  | O => Ok []
  | S left' =>
      let end_ := match find_char dot rest with Some d => d | None => String.length rest end in
      if bool_decide (end_ = O) then invalid
      else
        match stoi (String.substring 0 end_ rest) with
        | Throw e => if is_stuck e then Throw e else invalid
        | Ok part =>
            match find_char dot rest with
            | None => if bool_decide (left' <> O) then invalid else Ok [part]
            | Some d =>
                let! parts := parse_parts left' version
                  (String.substring (S d) (String.length rest - S d) rest) in
                Ok (part :: parts)
            end
        end
  end.

Definition parseVersion (version : string) : result (list Z) := parse_parts 3 version version.

(** [operator<] of [std::array]. *)
Fixpoint array_lt (a b : list Z) : bool :=
  match a, b with
  | x :: a', y :: b' => if x <? y then true else if y <? x then false else array_lt a' b'
  | _, _ => false
  end.

Definition hasRenderHeightMap (version : string) : result bool :=
  let! parts := parseVersion version in Ok (negb (array_lt parts [1; 21; 90])).

(** ** Parts of a packet *)

Definition readZigZag32 : M BinaryStream Z :=
  let* value := readVarUInt in ret (unzigzag_neg 32 value).
Definition writeZigZag32 (value : Z) : M BinaryStream unit :=
  writeVarUInt (zigzag_shift 32 value).

Definition readByteArray : M BinaryStream bytes :=
  let* n := readVarUInt in
  read_sized (error "subchunk byte array exceeds packet payload") n.
Definition writeByteArray (value : bytes) : M BinaryStream unit :=
  if size value >? 2 ^ 32 - 1 then raise (error "subchunk byte array is too large")
  else writeVarUInt (to_u32 (size value)) ;;; writeBytes value.

Definition readResultU8 : M BinaryStream BedrockSubChunkResult :=
  let* value := readU8 in
  if value >? result_code SuccessAllAir then
    raise (error ("invalid subchunk result: " +:+ to_string value))
  else ret (result_of value).

Definition readHeightMapType : M BinaryStream BedrockHeightMapType :=
  let* value := readU8 in
  if value >? type_code TooLow then
    raise (error ("invalid subchunk heightmap type: " +:+ to_string value))
  else ret (type_of value).

Fixpoint read_heights (n : nat) : M BinaryStream (list Z) :=
  match n with
  | O => ret []
  | S n' => let* v := readI8 in let* l := read_heights n' in ret (v :: l)
  end.

Definition readHeightMap (type : BedrockHeightMapType) : M BinaryStream (list Z) :=
  if bool_decide (type <> HasData) then ret []
  else
    let* s := get_st in
    if remaining s <? 256 then raise (error "truncated subchunk heightmap")
    else read_heights 256.

Definition writeHeightMap (type : BedrockHeightMapType) (value : list Z) : M BinaryStream unit :=
  writeU8 (type_code type) ;;;
  if bool_decide (type <> HasData) then
    if negb (bool_decide (value = [])) then
      raise (error "heightmap data supplied for a non-data type")
    else ret tt
  else if negb (size value =? 256) then raise (error "subchunk heightmap must contain 256 bytes")
  else for_each value writeI8.

Definition readModernEntry (cacheEnabled renderHeightMap : bool) : M BinaryStream BedrockSubChunkPacketEntry :=
  let* dx := readI8 in
  let* dy := readI8 in
  let* dz := readI8 in
  let* result := readResultU8 in
  let* payload := (if negb cacheEnabled || bool_decide (result <> SuccessAllAir) then readByteArray
                   else ret []) in
  let* type := readHeightMapType in
  let* heights := readHeightMap type in
  let* render := (if renderHeightMap then
                    let* type := readHeightMapType in
                    let* heights := readHeightMap type in
                    ret (type, heights)
                  else ret (NoData, [])) in
  let* blob := (if cacheEnabled then let* id := readU64LE in ret (Some id) else ret None) in
  ret (mkEntry dx dy dz result payload type heights render.1 render.2 blob).

Definition writeModernEntry (cacheEnabled render : bool) (entry : BedrockSubChunkPacketEntry)
    : M BinaryStream unit :=
  writeI8 (dx entry) ;;;
  writeI8 (dy entry) ;;;
  writeI8 (dz entry) ;;;
  writeU8 (result_code (entry_result entry)) ;;;
  (if negb cacheEnabled || bool_decide (entry_result entry <> SuccessAllAir) then
     writeByteArray (entry_payload entry)
   else if negb (bool_decide (entry_payload entry = [])) then
     raise (error "cached all-air subchunk cannot carry a payload")
   else ret tt) ;;;
  writeHeightMap (heightMapType entry) (heightMap entry) ;;;
  (if render then writeHeightMap (renderHeightMapType entry) (renderHeightMap entry)
   else if bool_decide (renderHeightMapType entry <> NoData) || negb (bool_decide (renderHeightMap entry = [])) then
     raise (error "render heightmap is unavailable in this protocol version")
   else ret tt) ;;;
  (if cacheEnabled then
     match blobId entry with
     | None => raise (error "cached subchunk entry is missing blob id")
     | Some id => writeU64LE id
     end
   else if bool_decide (is_Some (blobId entry)) then
     raise (error "uncached subchunk entry cannot carry a blob id")
   else ret tt).

(** ** Packets *)

Definition decode_legacy : M (unit * BinaryStream) BedrockSubChunkPacket :=
  let* dimension := on_stream readZigZag32 in
  let* originX := on_stream readZigZag32 in
  let* originY := on_stream readZigZag32 in
  let* originZ := on_stream readZigZag32 in
  let* payload := on_stream readByteArray in
  let* result := on_stream readZigZag32 in
  (if (result <? 0) || (result >? result_code YIndexOutOfBounds) then
     raise (error "invalid legacy subchunk result")
   else ret tt) ;;;
  let* type := on_stream readHeightMapType in
  let* heights := on_stream (readHeightMap type) in
  let* cache := on_stream readU8 in
  let* blob := (if negb (cache =? 0) then let* id := on_stream readU64LE in ret (Some id) else ret None) in
  ret (mkPacket (negb (cache =? 0)) dimension originX originY originZ
         [mkEntry 0 0 0 (result_of result) payload type heights NoData [] blob]).

Definition decode_modern (minecraftVersion : string) : M (unit * BinaryStream) BedrockSubChunkPacket :=
  let* cache := on_stream readU8 in
  let* dimension := on_stream readZigZag32 in
  let* originX := on_stream readZigZag32 in
  let* originY := on_stream readZigZag32 in
  let* originZ := on_stream readZigZag32 in
  let* count := on_stream readU32LE in
  if count >? 4096 then raise (error "subchunk entry count exceeds safety limit")
  else
    let* renderHeightMap := lift (hasRenderHeightMap minecraftVersion) in
    let* entries := read_list count (readModernEntry (negb (cache =? 0)) renderHeightMap) in
    ret (mkPacket (negb (cache =? 0)) dimension originX originY originZ entries).

Definition decodePacketPayload (payload : bytes) (minecraftVersion : string) : result BedrockSubChunkPacket :=
  parse payload (
    let* packet := (if legacySingleEntrySchema minecraftVersion then decode_legacy
                    else decode_modern minecraftVersion) in
    finish (error "subchunk packet has trailing bytes") packet).

Definition encode_legacy (packet : BedrockSubChunkPacket) : M BinaryStream unit :=
  match entries packet with
  | [entry] =>
      if bool_decide (entry_result entry = SuccessAllAir) then
        raise (error "all-air result is unavailable in Minecraft 1.18.0")
      else
        writeZigZag32 (dimension packet) ;;;
        writeZigZag32 (originX packet) ;;;
        writeZigZag32 (originY packet) ;;;
        writeZigZag32 (originZ packet) ;;;
        writeByteArray (entry_payload entry) ;;;
        writeZigZag32 (result_code (entry_result entry)) ;;;
        writeHeightMap (heightMapType entry) (heightMap entry) ;;;
        writeU8 (if cacheEnabled packet then 1 else 0) ;;;
        if cacheEnabled packet then
          match blobId entry with
          | None => raise (error "cached subchunk entry is missing blob id")
          | Some id => writeU64LE id
          end
        else ret tt
  | _ => raise (error "Minecraft 1.18.0 requires one subchunk entry")
  end.

Definition encode_modern (packet : BedrockSubChunkPacket) (minecraftVersion : string) : M BinaryStream unit :=
  if size (entries packet) >? 2 ^ 32 - 1 then raise (error "too many subchunk packet entries")
  else
    writeU8 (if cacheEnabled packet then 1 else 0) ;;;
    writeZigZag32 (dimension packet) ;;;
    writeZigZag32 (originX packet) ;;;
    writeZigZag32 (originY packet) ;;;
    writeZigZag32 (originZ packet) ;;;
    writeU32LE (to_u32 (size (entries packet))) ;;;
    let* renderHeightMap := lift (hasRenderHeightMap minecraftVersion) in
    for_each (entries packet) (writeModernEntry (cacheEnabled packet) renderHeightMap).

Definition encodePacketPayload (packet : BedrockSubChunkPacket) (minecraftVersion : string) : result bytes :=
  BedrockChunkColumn.buffer_of (if legacySingleEntrySchema minecraftVersion then encode_legacy packet
             else encode_modern packet minecraftVersion).

End BedrockSubChunkPacketCodec.

Import BedrockSubChunkPacketCodec.

(** ** What a packet may hold, and its bytes *)

Record entry_typed (e : BedrockSubChunkPacketEntry) : Prop := mkEntryTyped {
  et_offsets : is_s 8 (dx e) /\ is_s 8 (dy e) /\ is_s 8 (dz e);
  et_payload : is_bytes (entry_payload e);
  et_heights : Forall (is_s 8) (heightMap e) /\ Forall (is_s 8) (renderHeightMap e);
  et_blob : forall id, blobId e = Some id -> is_u 64 id
}.

Record packet_typed (p : BedrockSubChunkPacket) : Prop := mkPacketTyped {
  pt_origin : is_s 32 (dimension p) /\ is_s 32 (originX p) /\ is_s 32 (originY p) /\ is_s 32 (originZ p);
  pt_entries : Forall entry_typed (entries p)
}.

Definition has_payload (cache : bool) (e : BedrockSubChunkPacketEntry) : bool :=
  negb cache || bool_decide (entry_result e <> SuccessAllAir).

Definition heights_ok (t : BedrockHeightMapType) (l : list Z) : bool :=
  if bool_decide (t <> HasData) then bool_decide (l = []) else size l =? 256.

Definition blob_ok (cache : bool) (blob : option Z) : bool :=
  if cache then bool_decide (is_Some blob) else negb (bool_decide (is_Some blob)).

(** Entries that the encoder accepts. *)
Definition entry_ok (cache render : bool) (e : BedrockSubChunkPacketEntry) : bool :=
  (if has_payload cache e then size (entry_payload e) <=? 2 ^ 32 - 1 else bool_decide (entry_payload e = [])) &&
  (heights_ok (heightMapType e) (heightMap e) &&
   ((if render then heights_ok (renderHeightMapType e) (renderHeightMap e)
     else bool_decide (renderHeightMapType e = NoData) && bool_decide (renderHeightMap e = [])) &&
    blob_ok cache (blobId e))).

Definition legacy_ok (cache : bool) (e : BedrockSubChunkPacketEntry) : bool :=
  bool_decide (entry_result e <> SuccessAllAir) &&
  ((size (entry_payload e) <=? 2 ^ 32 - 1) &&
   (heights_ok (heightMapType e) (heightMap e) && (negb cache || bool_decide (is_Some (blobId e))))).

Definition accepted (version : string) (p : BedrockSubChunkPacket) : bool :=
  if legacySingleEntrySchema version then
    match entries p with [e] => legacy_ok (cacheEnabled p) e | _ => false end
  else
    match hasRenderHeightMap version with
    | Ok render => (size (entries p) <=? 2 ^ 32 - 1) && forallb (entry_ok (cacheEnabled p) render) (entries p)
    | Throw _ => false
    end.

Definition enc_bytes (k : bytes) : bytes := enc_u32 (size k) ++ k.
Definition enc_heights (t : BedrockHeightMapType) (l : list Z) : bytes :=
  [type_code t] ++ (l ≫= fun v => [to_u8 v]).
Definition enc_blob (cache : bool) (blob : option Z) : bytes :=
  if cache then match blob with Some id => le_encode 8 id | None => [] end else [].

Definition enc_entry (cache render : bool) (e : BedrockSubChunkPacketEntry) : bytes :=
  [to_u8 (dx e)] ++ [to_u8 (dy e)] ++ [to_u8 (dz e)] ++ [result_code (entry_result e)] ++
  (if has_payload cache e then enc_bytes (entry_payload e) else []) ++
  enc_heights (heightMapType e) (heightMap e) ++
  (if render then enc_heights (renderHeightMapType e) (renderHeightMap e) else []) ++
  enc_blob cache (blobId e).

Definition enc_origin (p : BedrockSubChunkPacket) : bytes :=
  enc_zz (dimension p) ++ enc_zz (originX p) ++ enc_zz (originY p) ++ enc_zz (originZ p).
Definition enc_cache (cache : bool) : bytes := [if cache then 1 else 0].

Definition enc_legacy (p : BedrockSubChunkPacket) (e : BedrockSubChunkPacketEntry) : bytes :=
  enc_origin p ++ enc_bytes (entry_payload e) ++ enc_zz (result_code (entry_result e)) ++
  enc_heights (heightMapType e) (heightMap e) ++ enc_cache (cacheEnabled p) ++
  enc_blob (cacheEnabled p) (blobId e).

Definition enc_packet (version : string) (p : BedrockSubChunkPacket) : bytes :=
  if legacySingleEntrySchema version then
    match entries p with [e] => enc_legacy p e | _ => [] end
  else
    match hasRenderHeightMap version with
    | Ok render => enc_cache (cacheEnabled p) ++ enc_origin p ++ le_encode 4 (size (entries p)) ++
                   (entries p ≫= enc_entry (cacheEnabled p) render)
    | Throw _ => []
    end.

(** ** The encoder *)

Lemma writes_I8 v : is_s 8 v -> writes (writeI8 v) [to_u8 v] true.
Proof. intros _. apply writes_appends. exact (appends_U8 _). Qed.

Lemma writes_array k : writes (writeByteArray k) (enc_bytes k) (size k <=? 2 ^ 32 - 1).
Proof.
  unfold writeByteArray, enc_bytes. rewrite Z.gtb_ltb, Z.leb_antisym. destruct (Z.ltb_spec (2 ^ 32 - 1) (size k)).
  - by apply writes_raise.
  - destruct (size_u32 k) as [Hu E]; [lia|]. rewrite E.
    apply (writes_bind _ _ _ _ true true); apply writes_appends; [by apply appends_VarUInt|apply appends_bytes].
Qed.

Lemma writes_heights t l : Forall (is_s 8) l -> writes (writeHeightMap t l) (enc_heights t l) (heights_ok t l).
Proof.
  intros Hl. unfold writeHeightMap, enc_heights, heights_ok.
  apply (writes_bind _ _ _ _ true); [apply writes_appends, appends_U8|].
  case_bool_decide.
  - case_bool_decide; cbn [negb]; [subst; apply writes_ret|by apply writes_raise].
  - destruct (size l =? 256); cbn [negb]; [|by apply writes_raise]. apply writes_ok, oappends_for_each.
    intros v Hv. apply (writes_I8 v). apply (proj1 (Forall_forall _ _) Hl). by apply list_elem_of_In.
Qed.

Lemma writes_blob (blob : option Z) e : is_stuck e = false ->
  writes (match blob with None => raise e | Some id => writeU64LE id end) (enc_blob true blob) (bool_decide (is_Some blob)).
Proof.
  intros He. destruct blob as [id|]; cbn [enc_blob].
  - rewrite bool_decide_true by eauto. apply writes_appends, appends_U64LE.
  - rewrite bool_decide_false by by intros [? ?]. by apply writes_raise.
Qed.

Lemma writes_entry cache render e : entry_typed e ->
  writes (writeModernEntry cache render e) (enc_entry cache render e) (entry_ok cache render e).
Proof.
  intros [(Hx & Hy & Hz) _ [Hh Hr] _]. unfold writeModernEntry, enc_entry, entry_ok.
  do 3 (apply (writes_bind _ _ _ _ true); [by apply writes_I8|]).
  apply (writes_bind _ _ _ _ true); [apply writes_appends, appends_U8|].
  apply writes_bind.
  { fold (has_payload cache e). destruct (has_payload cache e); [apply writes_array|].
    case_bool_decide; [apply writes_ret|by apply writes_raise]. }
  apply writes_bind; [by apply writes_heights|]. apply writes_bind.
  { destruct render; [by apply writes_heights|].
    destruct (renderHeightMapType e), (bool_decide (renderHeightMap e = []));
      first [exact writes_ret | by apply writes_raise]. }
  unfold blob_ok. destruct cache; [by apply writes_blob|].
  case_bool_decide; [by apply writes_raise|apply writes_ret].
Qed.

Lemma writes_zz v : is_s 32 v -> writes (writeZigZag32 v) (enc_zz v) true.
Proof. intros Hv. apply writes_ok. by apply write_zz. Qed.

Lemma result_code_range r : is_s 32 (result_code r).
Proof. by destruct r; apply (bool_decide_unpack _). Qed.

(** What follows the dimension and the origin. *)
Lemma writes_origin p m k b : packet_typed p -> writes m k b ->
  writes (writeZigZag32 (dimension p) ;;; writeZigZag32 (originX p) ;;; writeZigZag32 (originY p) ;;;
          writeZigZag32 (originZ p) ;;; m) (enc_origin p ++ k) b.
Proof.
  intros [(Hd & Hx & Hy & Hz) _] Hm. unfold enc_origin. rewrite <-!app_assoc.
  by do 4 (apply (writes_bind _ _ _ _ true); [by apply writes_zz|]).
Qed.

Lemma writes_legacy p : packet_typed p ->
  writes (encode_legacy p) (match entries p with [e] => enc_legacy p e | _ => [] end)
    (match entries p with [e] => legacy_ok (cacheEnabled p) e | _ => false end).
Proof.
  intros Hp. pose proof Hp as [_ He]. unfold encode_legacy.
  destruct (entries p) as [|e [|? ?]]; [by apply writes_raise| |by apply writes_raise].
  apply Forall_cons_1 in He as [[_ _ [Hh _] _] _]. unfold legacy_ok.
  destruct (decide (entry_result e = SuccessAllAir)) as [E|E].
  { rewrite bool_decide_true, bool_decide_false by tauto. by apply writes_raise. }
  rewrite bool_decide_false, bool_decide_true by done. cbn [andb]. apply writes_origin; [done|].
  apply writes_bind; [apply writes_array|].
  apply (writes_bind _ _ _ _ true); [apply writes_zz, result_code_range|].
  apply writes_bind; [by apply writes_heights|].
  apply (writes_bind _ _ _ _ true); [apply writes_appends, appends_U8|].
  destruct (cacheEnabled p); cbn [negb orb]; [by apply writes_blob|exact writes_ret].
Qed.

Lemma parse_parts_safe left version : forall rest, safe (parse_parts left version rest).
Proof.
  induction left as [|left IH]; intros rest; [done|]. cbn [parse_parts].
  case_bool_decide; [done|]. pose proof (stoi_safe (String.substring 0
    match find_char dot rest with Some d => d | None => String.length rest end rest)) as Hs.
  destruct (stoi _) as [part|e]; [|cbn in Hs; by rewrite Hs]. destruct (find_char dot rest) as [d|].
  - specialize (IH (String.substring (S d) (String.length rest - S d) rest)).
    by destruct (parse_parts left version _).
  - by case_bool_decide.
Qed.

Lemma hasRenderHeightMap_safe version : safe (hasRenderHeightMap version).
Proof.
  unfold hasRenderHeightMap, parseVersion. pose proof (parse_parts_safe 3 version version).
  by destruct (parse_parts 3 version version).
Qed.

Lemma writes_modern p version : packet_typed p -> legacySingleEntrySchema version = false ->
  writes (encode_modern p version) (enc_packet version p) (accepted version p).
Proof.
  intros Hp Hv. unfold encode_modern, enc_packet, accepted. rewrite Hv, Z.gtb_ltb, Z.leb_antisym.
  destruct (Z.ltb_spec (2 ^ 32 - 1) (size (entries p))) as [Hs|Hs].
  { destruct (hasRenderHeightMap version); by apply writes_raise. }
  destruct (size_u32 (entries p)) as [_ ->]; [lia|]. cbn [negb].
  assert (forall m k b, writes m k b ->
    writes (writeU8 (if cacheEnabled p then 1 else 0) ;;; writeZigZag32 (dimension p) ;;; writeZigZag32 (originX p) ;;;
      writeZigZag32 (originY p) ;;; writeZigZag32 (originZ p) ;;; writeU32LE (size (entries p)) ;;; m)
      (enc_cache (cacheEnabled p) ++ enc_origin p ++ le_encode 4 (size (entries p)) ++ k) b) as Hhead.
  { intros m k b Hm. apply (writes_bind _ _ _ _ true); [apply writes_appends, appends_U8|].
    apply writes_origin; [done|]. apply (writes_bind _ _ _ _ true); [apply writes_appends, appends_U32LE|done]. }
  destruct (hasRenderHeightMap version) as [render|e] eqn:E.
  - apply (Hhead _ _ (forallb _ _)). apply writes_for_each. intros e He. apply writes_entry.
    apply (proj1 (Forall_forall _ _) (pt_entries p Hp)). by apply list_elem_of_In.
  - apply (Hhead _ [] false). apply writes_raise. pose proof (hasRenderHeightMap_safe version) as H.
    by rewrite E in H.
Qed.

Lemma encode_packet p version : packet_typed p ->
  if accepted version p then encodePacketPayload p version = Ok (enc_packet version p)
  else exists e, encodePacketPayload p version = Throw e /\ is_stuck e = false.
Proof.
  intros Hp. assert (writes (if legacySingleEntrySchema version then encode_legacy p else encode_modern p version)
    (enc_packet version p) (accepted version p)) as H.
  { destruct (legacySingleEntrySchema version) eqn:E; [|by apply writes_modern].
    unfold enc_packet, accepted. rewrite E. by apply writes_legacy. }
  specialize (H empty_stream eq_refl). unfold encodePacketPayload, BedrockChunkColumn.buffer_of.
  destruct (accepted version p); [by rewrite H|]. destruct H as (e & s' & -> & He). by exists e.
Qed.

(** ** The decoder on encodings *)

Lemma reads_array k : size k <= 2 ^ 32 - 1 -> reads readByteArray (enc_bytes k) k.
Proof.
  intros Hs. destruct (size_u32 k) as [Hu _]; [lia|]. unfold readByteArray, enc_bytes.
  eapply consumes_bind; [by apply reads_VarUInt|]. apply read_sized_reads.
Qed.

Lemma reads_result r : reads readResultU8 [result_code r] r.
Proof.
  unfold readResultU8. rewrite <-(app_nil_r [result_code r]). eapply consumes_bind; [apply reads_U8|].
  destruct r; apply consumes_ret.
Qed.

Lemma reads_type t : reads readHeightMapType [type_code t] t.
Proof.
  unfold readHeightMapType. rewrite <-(app_nil_r [type_code t]). eapply consumes_bind; [apply reads_U8|].
  destruct t; apply consumes_ret.
Qed.

Lemma reads_heights l : Forall (is_s 8) l -> reads (read_heights (length l)) (l ≫= fun v => [to_u8 v]) l.
Proof.
  induction 1 as [|v l Hv _ IH]; [apply consumes_ret|]. rewrite bind_cons. cbn [length read_heights].
  eapply consumes_bind; [by apply reads_I8|]. by apply (consumes_bind_ret _ (cons v)).
Qed.

(** The list that [readHeightMap] reads after its type. *)
Lemma reads_height_map t l : heights_ok t l = true -> Forall (is_s 8) l ->
  reads (readHeightMap t) (l ≫= fun v => [to_u8 v]) l.
Proof.
  intros Hok Hl. unfold readHeightMap, heights_ok in *. case_bool_decide.
  { apply bool_decide_eq_true in Hok. subst. apply consumes_ret. }
  apply Z.eqb_eq in Hok. intros s r Hs Hb Hr. rewrite bind_get.
  assert (size (l ≫= fun v => [to_u8 v]) = size l) as Hsz.
  { clear. induction l as [|v l IH]; [done|]. rewrite bind_cons, size_app, IH. unfold size. cbn [length]. lia. }
  assert ((remaining s <? 256) = false) as ->.
  { rewrite remaining_rest, Hr, size_app, Hsz by done. pose proof (size_nonneg r). lia. }
  replace 256%nat with (length l) by (unfold size in Hok; lia). exact (reads_heights l Hl s r Hs Hb Hr).
Qed.

(** A height map with its type, as two reads in a row. *)
Lemma reads_typed_heights {B} t l (f : BedrockHeightMapType -> list Z -> M BinaryStream B) k b :
  heights_ok t l = true -> Forall (is_s 8) l -> reads (f t l) k b ->
  reads (let* t := readHeightMapType in let* l := readHeightMap t in f t l) (enc_heights t l ++ k) b.
Proof.
  intros Hok Hl Hf. unfold enc_heights. rewrite <-!app_assoc. eapply consumes_bind; [apply reads_type|].
  eapply consumes_bind; [by apply reads_height_map|done].
Qed.

Lemma reads_blob cache blob : blob_ok cache blob = true -> (forall id, blob = Some id -> is_u 64 id) ->
  reads (if cache then let* id := readU64LE in ret (Some id) else ret None) (enc_blob cache blob) blob.
Proof.
  intros Hok Hu. unfold blob_ok, enc_blob in *. destruct cache.
  - apply bool_decide_eq_true in Hok as [id ->]. apply (consumes_bind_ret _ Some), reads_U64LE. by apply Hu.
  - apply negb_true_iff, bool_decide_eq_false in Hok. destruct blob; [by destruct Hok; eauto|apply consumes_ret].
Qed.

Lemma reads_entry cache render e : entry_typed e -> entry_ok cache render e = true ->
  reads (readModernEntry cache render) (enc_entry cache render e) e.
Proof.
  intros [(Hx & Hy & Hz) Hp [Hh Hr] Hu] Hok. unfold entry_ok in Hok.
  apply andb_true_iff in Hok as [Hpay [Hhok [Hrok Hblob]%andb_true_iff]%andb_true_iff].
  unfold readModernEntry, enc_entry.
  do 3 (eapply consumes_bind; [by apply reads_I8|]). eapply consumes_bind; [apply reads_result|].
  eapply (consumes_bind _ _ _ _ (entry_payload e)).
  { fold (has_payload cache e). destruct (has_payload cache e); [apply reads_array; lia|].
    apply bool_decide_eq_true in Hpay as ->. apply consumes_ret. }
  apply reads_typed_heights; [done|done|].
  eapply (consumes_bind _ _ _ _ (renderHeightMapType e, renderHeightMap e)).
  { destruct render.
    - rewrite <-(app_nil_r (enc_heights _ _)).
      by apply (reads_typed_heights _ _ (fun t l => ret (t, l))); [done|done|apply consumes_ret].
    - apply andb_true_iff in Hrok as [->%bool_decide_eq_true ->%bool_decide_eq_true]. apply consumes_ret. }
  destruct e as [x y z r k t l rt rl blob]. cbn [fst snd blobId dx dy dz] in *.
  by apply (consumes_bind_ret _ (mkEntry x y z r k t l rt rl)), reads_blob.
Qed.

(** What the wire carries of a packet. *)
Definition on_wire (version : string) (p : BedrockSubChunkPacket) : BedrockSubChunkPacket :=
  if legacySingleEntrySchema version then
    mkPacket (cacheEnabled p) (dimension p) (originX p) (originY p) (originZ p)
      ((fun e => mkEntry 0 0 0 (entry_result e) (entry_payload e) (heightMapType e) (heightMap e) NoData []
                   (if cacheEnabled p then blobId e else None)) <$> entries p)
  else p.

Lemma preads_origin {B} p (f : Z -> Z -> Z -> Z -> M (unit * BinaryStream) B) k b : packet_typed p ->
  preads (f (dimension p) (originX p) (originY p) (originZ p)) k tt b tt ->
  preads (let* d := on_stream readZigZag32 in let* x := on_stream readZigZag32 in
          let* y := on_stream readZigZag32 in let* z := on_stream readZigZag32 in f d x y z)
    (enc_origin p ++ k) tt b tt.
Proof.
  intros [(Hd & Hx & Hy & Hz) _] Hf. unfold enc_origin. rewrite <-!app_assoc.
  by do 4 (eapply preads_bind; [apply preads_stream; by apply read_zz|]).
Qed.

Lemma cache_flag cache : negb ((if cache : bool then 1 else 0) =? 0) = cache.
Proof. by destruct cache. Qed.

Lemma preads_blob {B} cache blob (f : option Z -> M (unit * BinaryStream) B) b :
  blob_ok cache blob = true -> (forall id, blob = Some id -> is_u 64 id) ->
  preads (f blob) [] tt b tt ->
  preads (let* blob := (if cache : bool then let* id := on_stream readU64LE in ret (Some id) else ret None) in f blob)
    (enc_blob cache blob) tt b tt.
Proof.
  intros Hok Hu Hf. rewrite <-(app_nil_r (enc_blob _ _)). eapply preads_bind; [|exact Hf].
  unfold blob_ok, enc_blob in *. destruct cache.
  - apply bool_decide_eq_true in Hok as [id ->]. rewrite <-(app_nil_r (le_encode 8 id)).
    eapply preads_bind; [apply preads_stream, reads_U64LE; by apply Hu|apply preads_ret].
  - apply negb_true_iff, bool_decide_eq_false in Hok. destruct blob; [by destruct Hok; eauto|apply preads_ret].
Qed.

Lemma decode_legacy_reads p e : packet_typed p -> entries p = [e] -> legacy_ok (cacheEnabled p) e = true ->
  preads decode_legacy (enc_legacy p e) tt (on_wire "1.18.0" p) tt.
Proof.
  intros Hp Ee Hok. pose proof Hp as [_ He]. rewrite Ee in He. apply Forall_cons_1 in He as [[_ Hk [Hh _] Hu] _].
  unfold legacy_ok in Hok.
  apply andb_true_iff in Hok as [Hr%bool_decide_eq_true [Hs [Hhok Hb]%andb_true_iff]%andb_true_iff].
  unfold decode_legacy, enc_legacy. apply preads_origin; [done|].
  eapply preads_bind; [apply preads_stream, reads_array; lia|].
  eapply preads_bind; [apply preads_stream, read_zz, result_code_range|]. rewrite <-(app_nil_l (enc_heights _ _ ++ _)).
  eapply (preads_bind _ _ [] _ _ tt); [destruct (entry_result e); (done || apply preads_ret)|].
  unfold enc_heights. rewrite <-!app_assoc. eapply preads_bind; [apply preads_stream, reads_type|].
  eapply preads_bind; [by apply preads_stream, reads_height_map|].
  eapply preads_bind; [apply preads_stream, reads_U8|]. rewrite cache_flag.
  set (blob := if cacheEnabled p then blobId e else None).
  assert (enc_blob (cacheEnabled p) (blobId e) = enc_blob (cacheEnabled p) blob) as ->
    by (unfold blob; by destruct (cacheEnabled p)).
  apply preads_blob.
  { unfold blob, blob_ok. destruct (cacheEnabled p); [exact Hb|done]. }
  { unfold blob. destruct (cacheEnabled p); [exact Hu|done]. }
  unfold on_wire. rewrite Ee. cbn [fmap list_fmap]. fold blob.
  assert (result_of (result_code (entry_result e)) = entry_result e) as -> by by destruct (entry_result e).
  apply preads_ret.
Qed.

Lemma enc_entry_size cache render e : 1 <= size (enc_entry cache render e).
Proof. unfold enc_entry. rewrite size_app. match goal with |- context [_ + size ?l] => pose proof (size_nonneg l) end. change (size [to_u8 (dx e)]) with 1. lia. Qed.

Lemma decode_modern_reads p version render : packet_typed p -> hasRenderHeightMap version = Ok render ->
  size (entries p) <= 4096 -> forallb (entry_ok (cacheEnabled p) render) (entries p) = true ->
  preads (decode_modern version) (enc_cache (cacheEnabled p) ++ enc_origin p ++ le_encode 4 (size (entries p)) ++
    (entries p ≫= enc_entry (cacheEnabled p) render)) tt p tt.
Proof.
  intros Hp Hv Hn Hok. pose proof (size_nonneg (entries p)).
  unfold decode_modern. eapply preads_bind; [apply preads_stream, reads_U8|]. rewrite cache_flag.
  apply preads_origin; [done|].
  eapply preads_bind; [apply preads_stream, reads_U32LE; unfold is_u; change (2 ^ 32) with 4294967296; lia|].
  rewrite Z.gtb_ltb, (proj2 (Z.ltb_ge _ _)) by lia. rewrite Hv.
  rewrite <-(app_nil_l (entries p ≫= enc_entry (cacheEnabled p) render)).
  eapply preads_bind; [by apply preads_lift|].
  rewrite <-(app_nil_r (entries p ≫= enc_entry (cacheEnabled p) render)). eapply preads_bind.
  { apply read_list_preads. intros e He. split; [|apply enc_entry_size]. apply reads_entry.
    - apply (proj1 (Forall_forall _ _) (pt_entries p Hp)). by apply list_elem_of_In.
    - apply (proj1 (forallb_forall _ _) Hok). by apply list_elem_of_In. }
  destruct p. apply preads_ret.
Qed.

(** ** Arbitrary payloads *)

Lemma value_array : reads_value 0 readByteArray (fun k => is_bytes k /\ size k <= 2 ^ 32 - 1).
Proof.
  apply (value_then 0 _ _ (is_u 32)); [apply steps_value; [apply steps_readVarUInt|intros; by eapply readVarUInt_range]|].
  intros n [Hn Hn']. apply steps_value; [by apply read_sized_steps|]. intros s k s' Hs Hb E.
  destruct (read_sized_value _ n s k s' Hn Hs Hb E) as [Hk <-]. split; [done|lia].
Qed.

Lemma value_result : reads_value 0 readResultU8 (fun _ => True).
Proof.
  apply (value_then 0 _ _ (is_u 8)); [apply value_U8|]. intros v _.
  destruct (_ >? _); [by apply value_raise|by apply value_ret].
Qed.

Lemma value_type : reads_value 0 readHeightMapType (fun _ => True).
Proof.
  apply (value_then 0 _ _ (is_u 8)); [apply value_U8|]. intros v _.
  destruct (_ >? _); [by apply value_raise|by apply value_ret].
Qed.

Lemma value_read_heights n : reads_value 0 (read_heights n) (fun l => length l = n /\ Forall (is_s 8) l).
Proof.
  induction n as [|n IH]; cbn [read_heights]; [by apply value_ret|].
  apply (value_then 0 _ _ (is_s 8)); [by apply (value_weaken 1), value_I8|]. intros v Hv.
  eapply value_then; [exact IH|]. cbv beta. intros l [Hl Hf]. apply value_ret. split; [cbn; lia|by constructor].
Qed.

Lemma value_heights t : reads_value 0 (readHeightMap t) (fun l => heights_ok t l = true /\ Forall (is_s 8) l).
Proof.
  unfold readHeightMap, heights_ok. case_bool_decide; [apply value_ret; by rewrite bool_decide_true|].
  intros s Hs Hb. unfold runs_safe. rewrite bind_get. destruct (_ <? 256); [done|].
  eapply runs_safe_mono; [by apply value_read_heights|]. intros l s' [[Hl Hf] Ha]. split; [|done]. split; [|done].
  apply Z.eqb_eq. unfold size. lia.
Qed.

Lemma value_blob cache :
  reads_value 0 (if cache : bool then let* id := readU64LE in ret (Some id) else ret None)
    (fun blob => blob_ok cache blob = true /\ forall id, blob = Some id -> is_u 64 id).
Proof.
  destruct cache; [|by apply value_ret]. apply (value_then 0 _ _ (is_u 64)).
  - apply (value_weaken 8); [lia|]. apply steps_value; [apply steps_readU64LE|intros; by eapply readU64LE_range].
  - intros v Hv. apply value_ret. unfold blob_ok. rewrite bool_decide_true by eauto.
    split; [done|]. by intros id [= <-].
Qed.

Lemma value_entry cache render :
  reads_value 1 (readModernEntry cache render) (fun e => entry_typed e /\ entry_ok cache render e = true).
Proof.
  unfold readModernEntry. eapply value_then; [exact value_I8|]. intros x Hx.
  do 2 (eapply value_then; [apply (value_weaken 1), value_I8; lia|intros ? ?]).
  eapply value_then; [exact value_result|]. intros r _.
  eapply (value_then _ _ _ (fun k => is_bytes k /\
    (if negb cache || bool_decide (r <> SuccessAllAir) then size k <=? 2 ^ 32 - 1 else bool_decide (k = [])) = true)).
  { destruct (negb cache || _); [|apply value_ret; split; [constructor|by rewrite bool_decide_true]].
    intros s Hs Hb. eapply runs_safe_mono; [by apply value_array|]. cbv beta.
    intros k s' [[Hk Hn] Ha]. split; [|done]. split; [done|]. by apply Z.leb_le. }
  intros k [Hk Hkn]. eapply value_then; [exact value_type|]. intros t _.
  eapply value_then; [apply value_heights|]. cbv beta. intros l [Hlok Hl].
  eapply (value_then _ _ _ (fun q => Forall (is_s 8) q.2 /\ (if render then heights_ok q.1 q.2
    else bool_decide (q.1 = NoData) && bool_decide (q.2 = [])) = true)).
  { destruct render; [|apply value_ret; by split; [constructor|]].
    eapply value_then; [exact value_type|]. intros t' _. eapply value_then; [apply value_heights|].
    cbv beta. intros l' [Hok' Hl']. by apply value_ret. }
  intros [rt rl] [Hrl Hrok]. eapply value_then; [apply value_blob|]. cbv beta. intros blob [Hb Hu].
  apply value_ret. cbn [fst snd] in *. split; [split; cbn; split_and?; done|].
  unfold entry_ok, has_payload. cbn. by rewrite Hkn, Hlok, Hrok, Hb.
Qed.

Definition packet_decoded (version : string) (p : BedrockSubChunkPacket) : Prop :=
  packet_typed p /\ accepted version p = true /\ on_wire version p = p /\ size (entries p) <= 4096.

Lemma value_zz : reads_value 0 readZigZag32 (is_s 32).
Proof. apply steps_value; [exact steps_readZigZag|]. intros s v s' _ _ E. unfold readZigZag32 in E.
  apply bind_inv_ok in E as (u & s1 & _ & [= <- _]). by apply to_signed_range. Qed.

Lemma psafe_blob cache Q (f : option Z -> M (unit * BinaryStream) BedrockSubChunkPacket) :
  (forall blob, blob_ok cache blob = true -> (forall id, blob = Some id -> is_u 64 id) -> psafe (f blob) any Q) ->
  psafe (let* blob := (if cache : bool then let* id := on_stream readU64LE in ret (Some id) else ret None) in f blob) any Q.
Proof.
  intros H. eapply (psafe_fact _ _ (fun blob => blob_ok cache blob = true /\ forall id, blob = Some id -> is_u 64 id));
    [|by intros blob [? ?]; apply H].
  destruct cache; [|by apply psafe_ret]. eapply (psafe_fact _ _ (is_u 64)).
  { apply (psafe_reads 8); [lia|]. apply steps_value; [apply steps_readU64LE|intros; by eapply readU64LE_range]. }
  intros v Hv. apply psafe_ret. intros _ _. unfold blob_ok. rewrite bool_decide_true by eauto.
  split; [done|]. by intros id [= <-].
Qed.

Lemma decode_legacy_safe : psafe decode_legacy any (fun p _ => packet_decoded "1.18.0" p).
Proof.
  unfold decode_legacy. do 4 (eapply psafe_read; [exact value_zz|done|intros ? ?]).
  eapply psafe_read; [exact value_array|done|]. cbv beta. intros k [Hk Hn].
  eapply psafe_read; [exact value_zz|done|intros r _].
  eapply (psafe_fact _ _ (fun _ => 0 <= r <= 5)).
  { destruct (Z.ltb_spec r 0); [by apply psafe_raise|]. cbn [orb].
    destruct (Z.gtb_spec r (result_code YIndexOutOfBounds)); [by apply psafe_raise|].
    apply psafe_ret. cbn in *. intros _ _. lia. }
  intros _ Hr. eapply psafe_read; [exact value_type|done|]. cbv beta. intros t _.
  eapply psafe_read; [apply value_heights|done|]. cbv beta. intros l [Hlok Hl].
  eapply psafe_read; [exact value_U8|done|]. cbv beta. intros cache _.
  apply psafe_blob. intros blob Hb Hu. apply psafe_ret. intros _ _.
  assert (result_of r <> SuccessAllAir) as Hres.
  { assert (r = 0 \/ r = 1 \/ r = 2 \/ r = 3 \/ r = 4 \/ r = 5) as Hr6 by lia.
    by destruct Hr6 as [->|[->|[->|[->|[->| ->]]]]]. }
  unfold packet_decoded, accepted, on_wire, legacy_ok. cbn. rewrite bool_decide_true by done.
  rewrite (proj2 (Z.leb_le _ _)) by lia. rewrite Hlok. split; [|split; [|split]].
  - split; cbn; [done|]. apply Forall_singleton. split; cbn; [by split_and!|done|by split; [|constructor]|done].
  - unfold blob_ok in Hb. by destruct (negb (cache =? 0)).
  - unfold blob_ok in Hb. destruct (negb (cache =? 0)); [done|]. by destruct blob.
  - done.
Qed.

Lemma decode_modern_safe version : legacySingleEntrySchema version = false ->
  psafe (decode_modern version) any (fun p _ => packet_decoded version p).
Proof.
  intros Hv. unfold decode_modern.
  eapply psafe_read; [exact value_U8|done|]. cbv beta. intros cache _.
  do 4 (eapply psafe_read; [exact value_zz|done|intros ? ?]).
  eapply (psafe_fact _ _ (is_u 32)).
  { apply (psafe_reads 4); [lia|]. apply steps_value; [apply steps_readU32LE|intros; by eapply readU32LE_range]. }
  intros n Hn. destruct (Z.gtb_spec n 4096) as [|Hn']; [by apply psafe_raise|].
  eapply (psafe_fact _ _ (fun render => hasRenderHeightMap version = Ok render)).
  { apply psafe_lift; [apply hasRenderHeightMap_safe|done]. }
  intros render Hr. eapply psafe_fact; [apply read_list_sized, value_entry; apply Hn|]. cbv beta. intros l [Hl Hs].
  apply psafe_ret. intros _ _. unfold packet_decoded, accepted, on_wire. rewrite Hv, Hr. cbn.
  assert (Forall entry_typed l /\ forallb (entry_ok (negb (cache =? 0)) render) l = true) as [Hent Hacc].
  { clear -Hl. induction Hl as [|e l [Hent Hacc] _ [IH1 IH2]]; [done|]. split; [by constructor|]. cbn. by rewrite Hacc. }
  rewrite Hacc, (proj2 (Z.leb_le _ _)) by lia. split_and!; [by split|done|done|lia].
Qed.

Lemma legacy_version version : legacySingleEntrySchema version = true -> version = "1.18.0".
Proof. apply bool_decide_eq_true. Qed.

Lemma decode_packet p version : packet_typed p -> accepted version p = true -> size (entries p) <= 4096 ->
  is_bytes (enc_packet version p) -> decodePacketPayload (enc_packet version p) version = Ok (on_wire version p).
Proof.
  intros Hp Ha Hn Hb. unfold decodePacketPayload. apply parse_all; [done|]. clear Hb.
  eapply pends_last; [|apply pends_finish].
  destruct (legacySingleEntrySchema version) eqn:Hv.
  - apply legacy_version in Hv as ->. unfold accepted, enc_packet in *. cbn in *.
    destruct (entries p) as [|e [|? ?]] eqn:Ee; [done| |done]. by apply decode_legacy_reads.
  - unfold on_wire. rewrite Hv. unfold accepted, enc_packet in *. rewrite Hv in *.
    destruct (hasRenderHeightMap version) as [render|] eqn:Hr; [|done].
    apply andb_true_iff in Ha as [_ Ha]. by apply decode_modern_reads.
Qed.

(** ** The encodings are bytes *)

Lemma heights_bytes l : is_bytes (l ≫= fun v => [to_u8 v]).
Proof.
  induction l as [|v l IH]; [constructor|]. rewrite bind_cons, is_bytes_app. split; [|done].
  apply Forall_singleton. apply to_u_range; lia.
Qed.

Lemma enc_heights_bytes t l : is_bytes (enc_heights t l).
Proof.
  unfold enc_heights. rewrite is_bytes_app. split; [|apply heights_bytes].
  by destruct t; apply (bool_decide_unpack _).
Qed.

Lemma enc_blob_bytes cache blob : is_bytes (enc_blob cache blob).
Proof. destruct cache, blob; [apply le_encode_bytes|constructor..]. Qed.

Lemma enc_array_bytes k : is_bytes k -> is_bytes (enc_bytes k).
Proof. intros Hk. unfold enc_bytes. rewrite is_bytes_app. split; [apply leb_encode_bytes, size_nonneg|done]. Qed.

Lemma byte_of_i8 v : is_bytes [to_u8 v].
Proof. apply Forall_singleton. apply to_u_range; lia. Qed.

Lemma enc_entry_bytes cache render e : entry_typed e -> is_bytes (enc_entry cache render e).
Proof.
  intros [_ Hk _ _]. unfold enc_entry. rewrite !is_bytes_app. split_and!; try apply byte_of_i8.
  - by destruct (entry_result e); apply (bool_decide_unpack _).
  - destruct (has_payload cache e); [by apply enc_array_bytes|constructor].
  - apply enc_heights_bytes.
  - destruct render; [apply enc_heights_bytes|constructor].
  - apply enc_blob_bytes.
Qed.

Lemma enc_origin_bytes p : packet_typed p -> is_bytes (enc_origin p).
Proof. intros [(Hd & Hx & Hy & Hz) _]. unfold enc_origin. rewrite !is_bytes_app. by split_and!; apply enc_zz_bytes. Qed.

Lemma enc_packet_bytes version p : packet_typed p -> is_bytes (enc_packet version p).
Proof.
  intros Hp. pose proof Hp as [_ He]. unfold enc_packet.
  assert (is_bytes (enc_cache (cacheEnabled p))) as Hc by by destruct (cacheEnabled p); apply (bool_decide_unpack _).
  destruct (legacySingleEntrySchema version).
  - destruct (entries p) as [|e [|? ?]]; [constructor| |constructor]. apply Forall_cons_1 in He as [He _].
    unfold enc_legacy. rewrite !is_bytes_app. split_and!; [by apply enc_origin_bytes|apply enc_array_bytes, He| | |done|].
    + apply enc_zz_bytes, result_code_range.
    + apply enc_heights_bytes.
    + apply enc_blob_bytes.
  - destruct (hasRenderHeightMap version) as [render|]; [|constructor]. rewrite !is_bytes_app.
    split_and!; [done|by apply enc_origin_bytes|apply le_encode_bytes|].
    induction He as [|e l He _ IH]; [constructor|]. rewrite bind_cons, is_bytes_app.
    split; [by apply enc_entry_bytes|done].
Qed.

(** ** Properties *)

(** C38: what the encoder makes of a packet, on every version: it throws an
    exception of the program, or it returns a payload that, with at most 4096
    entries, is decoded as the same packet, up to what the 1.18.0 schema does
    not carry (offsets, the second height map, an uncached blob id).  It
    returns exactly for the packets that [accepted] describes: payloads,
    height maps and blob ids that are there when their flags say so, and
    nothing where the version has no room for it. *)
Theorem subchunk_packet_roundtrip p version : packet_typed p ->
  if accepted version p then
    exists data, encodePacketPayload p version = Ok data /\
      (size (entries p) <= 4096 -> decodePacketPayload data version = Ok (on_wire version p))
  else exists e, encodePacketPayload p version = Throw e /\ is_stuck e = false.
Proof.
  intros Hp. pose proof (encode_packet p version Hp) as H. destruct (accepted version p) eqn:Ha; [|done].
  exists (enc_packet version p). split; [done|]. intros Hn. apply decode_packet; try done.
  by apply enc_packet_bytes.
Qed.

(** One entry with both height maps of a cached packet. *)
Definition sample_packet : BedrockSubChunkPacket :=
  mkPacket true 0 (-3) 4 7
    [mkEntry (-1) 0 1 Success [8; 9] HasData (replicate 256 (-5)) TooLow [] (Some 77);
     mkEntry 0 0 0 SuccessAllAir [] NoData [] NoData [] (Some 78)].

Lemma subchunk_packet_roundtrip_witness :
  exists data, encodePacketPayload sample_packet "1.21.90" = Ok data /\
    decodePacketPayload data "1.21.90" = Ok sample_packet /\
    exists e, encodePacketPayload sample_packet "1.21.80" = Throw e /\ is_stuck e = false.
Proof.
  assert (packet_typed sample_packet) as Hp.
  { split; [by apply (bool_decide_unpack _)|].
    apply Forall_cons_2; [|apply Forall_cons_2; [|constructor]]; split; try (by apply (bool_decide_unpack _));
      intros id [= <-]; by apply (bool_decide_unpack _). }
  pose proof (subchunk_packet_roundtrip sample_packet "1.21.90" Hp) as H1.
  pose proof (subchunk_packet_roundtrip sample_packet "1.21.80" Hp) as H2.
  assert (accepted "1.21.90" sample_packet = true) as E1 by (vm_compute; reflexivity).
  assert (accepted "1.21.80" sample_packet = false) as E2 by (vm_compute; reflexivity).
  rewrite E1 in H1. rewrite E2 in H2. destruct H1 as (data & Ee & Ed). exists data.
  split; [exact Ee|]. split; [apply Ed; by apply (bool_decide_unpack _)|exact H2].
Defined.

(** Decoding any payload under any version string is memory safe and
    ends: an exception of the program, or a packet whose fields are in range,
    which the encoder accepts for that version, and which is encoded and
    decoded again as itself. *)
Theorem subchunk_packet_decode_safe data version : is_bytes data ->
  match decodePacketPayload data version with
  | Ok p => packet_typed p /\ size (entries p) <= 4096 /\
      exists data', encodePacketPayload p version = Ok data' /\ decodePacketPayload data' version = Ok p
  | Throw e => is_stuck e = false
  end.
Proof.
  intros Hb. assert (psafe (let* packet := (if legacySingleEntrySchema version then decode_legacy
      else decode_modern version) in finish (error "subchunk packet has trailing bytes") packet)
    any (fun p _ => packet_decoded version p)) as Hsafe.
  { eapply (psafe_fact _ _ (packet_decoded version)); [|intros q Hq; by apply finish_safe].
    destruct (legacySingleEntrySchema version) eqn:Hv; [|by apply decode_modern_safe].
    apply legacy_version in Hv as ->. exact decode_legacy_safe. }
  pose proof (parse_safe data _ _ Hb Hsafe) as H. unfold decodePacketPayload at 1.
  destruct (parse _ _) as [p|e]; [|done]. destruct H as (Hp & Ha & Hw & Hn).
  split; [done|]. split; [done|]. exists (enc_packet version p). split.
  - pose proof (encode_packet p version Hp) as He. by rewrite Ha in He.
  - rewrite <-Hw at 2. apply decode_packet; try done. by apply enc_packet_bytes.
Qed.

Lemma subchunk_packet_decode_safe_witness :
  match decodePacketPayload [0; 0; 0; 0; 0; 1; 0; 0; 0; 1; 2; 3; 6; 0; 0; 0] "1.21.90" with
  | Ok p => packet_typed p /\ size (entries p) <= 4096 /\
      exists data', encodePacketPayload p "1.21.90" = Ok data' /\ decodePacketPayload data' "1.21.90" = Ok p
  | Throw e => is_stuck e = false
  end.
Proof.
  apply (subchunk_packet_decode_safe [0; 0; 0; 0; 0; 1; 0; 0; 0; 1; 2; 3; 6; 0; 0; 0] "1.21.90").
  by apply (bool_decide_unpack _).
Defined.

(** ** Versions *)

Lemma to_string_part v r : 0 <= v -> is_s 32 v ->
  find_char dot (to_string v +:+ String dot r) = Some (String.length (to_string v)) /\
  find_char dot (to_string v) = None /\ String.length (to_string v) <> O /\ stoi (to_string v) = Ok v.
Proof.
  intros H0 Hv. assert (find_char dot (to_string v) = None) as Hn by by apply find_char_pretty.
  split_and!; [by apply find_char_app|done| |by apply stoi_unsigned].
  unfold to_string. by destruct (pretty_first (Z.to_N v)) as (c & s & -> & _).
Qed.

Lemma parse_part left version v r : 0 <= v -> is_s 32 v ->
  parse_parts (S left) version (to_string v +:+ String dot r) =
    (let! parts := parse_parts left version r in Ok (v :: parts)).
Proof.
  intros H0 Hv. destruct (to_string_part v r H0 Hv) as (Hd & _ & Hl & Hs). cbn [parse_parts].
  rewrite Hd, bool_decide_false, substring_prefix, Hs by done.
  f_equal. f_equal. change (String dot r) with ("." +:+ r). rewrite <-append_assoc, !length_append.
  replace (S (String.length (to_string v))) with (String.length (to_string v +:+ "."))
    by (rewrite length_append; cbn; lia).
  apply substring_suffix. rewrite length_append. cbn. lia.
Qed.

Lemma parse_last version v : 0 <= v -> is_s 32 v -> parse_parts 1 version (to_string v) = Ok [v].
Proof.
  intros H0 Hv. destruct (to_string_part v "" H0 Hv) as (_ & Hn & Hl & Hs). cbn [parse_parts].
  by rewrite Hn, bool_decide_false, substring_all, Hs.
Qed.

(** The second height map is there exactly from version 1.21.90 on, in the
    order of version numbers. *)
Theorem render_height_map_versions major minor patch :
  0 <= major -> is_s 32 major -> 0 <= minor -> is_s 32 minor -> 0 <= patch -> is_s 32 patch ->
  exists b, hasRenderHeightMap (version_string major minor patch) = Ok b /\
    (b = true <-> 1 < major \/ major = 1 /\ (21 < minor \/ minor = 21 /\ 90 <= patch)).
Proof.
  intros Ha Ha' Hb Hb' Hc Hc'. unfold hasRenderHeightMap, parseVersion, version_string. change (Ascii.ascii_of_nat 46) with dot.
  rewrite !parse_part, parse_last by done. cbn [rbind]. eexists. split; [done|].
  cbn [array_lt]. destruct (Z.ltb_spec major 1), (Z.ltb_spec 1 major), (Z.ltb_spec minor 21),
    (Z.ltb_spec 21 minor), (Z.ltb_spec patch 90), (Z.ltb_spec 90 patch); cbn [negb]; split; (lia || discriminate || done).
Qed.

Lemma render_height_map_versions_witness :
  exists b, hasRenderHeightMap "1.21.100" = Ok b /\ (b = true <-> True).
Proof.
  destruct (render_height_map_versions 1 21 100) as (b & Hb & Hi);
    [lia|by apply (bool_decide_unpack _)|lia|by apply (bool_decide_unpack _)|lia|by apply (bool_decide_unpack _)|].
  exists b. split; [exact Hb|]. rewrite Hi. lia.
Defined.
