(* ===== verification/ColumnBiomes.v ===== *)
(** * Chunk columns: setting biomes

    A section that is a proxy has the biomes of the closest section below that
    is not.  [setBiomeId] makes the section its own, starting from the contents
    stored in the section just below it. *)

From S2P Require Import Prelude MachineInt Leb128 BinaryStream Nbt PalettedStorage SubChunk SubChunkState SubChunkCodec BiomeSection ChunkColumn ColumnState ColumnCodec ColumnRoundtrip StreamState.
Import BedrockChunkColumn.

Abbreviation proxy_ := BedrockBiomeSection.proxy_.
Abbreviation biome_at := BedrockBiomeSection.biome_at.
Abbreviation biome_ok := BedrockBiomeSection.biome_ok.

(** [biomes_[i]] and the index that [getBiomeId] reads for section [j]. *)
Definition biome_sec (c : BedrockChunkColumn) (i : Z) : option BedrockBiomeSection := biomes_ c !! Z.to_nat i.
Definition resolved (c : BedrockChunkColumn) (j : Z) : result Z := proxy_loop (Z.to_nat j) j c.

(** What [setBiomeId] starts from at section [i]. *)
Definition base_index (c : BedrockChunkColumn) (i : Z) : Z :=
  match biome_sec c i with
  | Some b => if proxy_ b && (i >? 0) then i - 1 else i
  | None => i
  end.

Lemma proxy_loop_le c : forall fuel i j, proxy_loop fuel i c = Ok j -> 0 <= i -> 0 <= j <= i.
Proof.
  induction fuel as [|fuel IH]; intros i j E Hi; cbn [proxy_loop] in E;
    (destruct (Z.gtb_spec i 0); [|injection E as <-; lia]);
    (destruct (vec_at (biomes_ c) i) as [b|]; [|done]); cbn [rbind] in E;
    destruct (BedrockBiomeSection.proxy b); try done; [injection E as <-; lia| |injection E as <-; lia].
  specialize (IH _ _ E). lia.
Qed.

(** Making section [i] its own: lower sections are read as before, higher ones
    that were read through [i] stop there. *)
Lemma proxy_loop_own_at c c' i :
  0 <= i < size (biomes_ c) ->
  (forall j, 0 <= j -> j <> i -> biome_sec c' j = biome_sec c j) ->
  (exists b, biome_sec c' i = Some b /\ proxy_ b = false) ->
  forall fuel j k, 0 <= j < size (biomes_ c) -> proxy_loop fuel j c = Ok k ->
    proxy_loop fuel j c' = Ok (if (i <=? j) && (k <=? i) then i else k).
Proof.
  intros Hi Hother (b & Hb & Hp).
  assert (forall j k (rec rec' : result Z), 0 < j < size (biomes_ c) -> k <= j ->
    (let! b := vec_at (biomes_ c) j in if BedrockBiomeSection.proxy b then rec else Ok j) = Ok k ->
    (rec = Ok k -> rec' = Ok (if (i <=? j - 1) && (k <=? i) then i else k)) ->
    (let! b := vec_at (biomes_ c') j in
     if BedrockBiomeSection.proxy b then rec' else Ok j) = Ok (if (i <=? j) && (k <=? i) then i else k)) as Hstep.
  { intros j k rec rec' Hj Hk E Hrec. destruct (decide (j = i)) as [->|Hne].
    - rewrite (vec_at_lookup _ i b) by (done || lia). cbn [rbind]. unfold BedrockBiomeSection.proxy. rewrite Hp.
      by rewrite Z.leb_refl, (proj2 (Z.leb_le _ _)) by lia.
    - destruct (vec_at_ok (biomes_ c) j ltac:(lia)) as (bj & Ej & Hbj). rewrite Ej in E. cbn [rbind] in E.
      rewrite (vec_at_lookup _ j bj) by (lia || (unfold biome_sec in Hother; rewrite Hother by lia; done)). cbn [rbind].
      destruct (BedrockBiomeSection.proxy bj).
      + rewrite Hrec by done. replace (i <=? j) with (i <=? j - 1) by lia. done.
      + injection E as <-. destruct (Z.leb_spec i j), (Z.leb_spec j i); cbn [andb]; try done. lia. }
  induction fuel as [|fuel IH]; intros j k Hj E;
    pose proof (proxy_loop_le _ _ _ _ E (proj1 Hj)) as Hk; cbn [proxy_loop] in *;
    (destruct (Z.gtb_spec j 0);
     [|injection E as <-; destruct (Z.leb_spec i j), (Z.leb_spec j i); cbn [andb]; by (f_equal; lia)]).
  - by eapply Hstep; [lia| |exact E|]; [lia|].
  - eapply Hstep; [lia|lia|exact E|]. intros E'. apply IH; [lia|done].
Qed.

(** The read, through the resolved section. *)
Lemma getBiomeId_resolved c pos j k b :
  col_ok c -> is_s 32 (py pos) -> j = co_ c + sec (py pos) -> 0 <= j < size (biomes_ c) ->
  resolved c j = Ok k -> biome_sec c k = Some b ->
  getBiomeId pos c = BedrockBiomeSection.getBiomeId (localCoord (px pos)) (localCoord (py pos)) (localCoord (pz pos)) b.
Proof.
  intros Hc Hy Hj Hr Hk Hb. unfold getBiomeId. fold (sec (py pos)).
  rewrite (index_i32 c _ Hc (sec_range _ Hy)). cbn [rbind]. rewrite <-Hj.
  rewrite (proj2 (Z.ltb_ge _ _)) by lia. destruct (Z.geb_spec j (size (biomes_ c))); [lia|]. cbn [orb].
  unfold resolved in Hk. rewrite Hk. cbn [rbind]. pose proof (proxy_loop_le _ _ _ _ Hk ltac:(lia)).
  by rewrite (vec_at_lookup _ k b) by (lia || done).
Qed.

(** [setBiomeId] in section [i], which starts from [base]. *)
Lemma setBiomeId_run d c pos id i base :
  column_in d c -> is_s 32 (py pos) -> i = co_ c + sec (py pos) -> 0 <= i < size (biomes_ c) ->
  biome_sec c (base_index c i) = Some base -> biome_ok base -> size (BedrockBiomeSection.palette_ base) < 2 ^ 31 ->
  exists b', setBiomeId pos id c = (Ok tt, with_biome i b' c) /\ column_in d (with_biome i b' c) /\
    proxy_ b' = false /\ biome_ok b' /\
    forall x y z, biome_at b' (block_index x y z) =
      if block_index x y z =? block_index (px pos) (py pos) (pz pos) then id else biome_at base (block_index x y z).
Proof.
  intros Hc Hy Hi Hr Hbase Hok Hroom. unfold setBiomeId. fold (sec (py pos)).
  rewrite bind_get, (index_i32 c _ (proj1 Hc) (sec_range _ Hy)), bind_lift, <-Hi.
  rewrite (proj2 (Z.ltb_ge _ _)) by lia. destruct (Z.geb_spec i (size (biomes_ c))); [lia|]. cbn [orb].
  destruct (biome_lookup d c i Hc Hr) as (b & Eb & Hb & Hw). rewrite Eb, bind_lift.
  set (x := localCoord (px pos)). set (y := localCoord (py pos)). set (z := localCoord (pz pos)).
  assert (forall u, biome_ok u -> size (BedrockBiomeSection.palette_ u) < 2 ^ 31 ->
    (forall j, biome_at u j = biome_at base j) -> exists u',
    BedrockBiomeSection.setBiomeId x y z id u = (Ok tt, u') /\ biome_ok u' /\ proxy_ u' = false /\
    forall x y z, biome_at u' (block_index x y z) =
      if block_index x y z =? block_index (px pos) (py pos) (pz pos) then id else biome_at base (block_index x y z)) as Hset.
  { intros u Hu Hur Hub. destruct (BedrockBiomeSection.setBiomeId_ok u x y z id Hu Hur)
      as (u' & E & Hu' & _ & Hp & _ & _ & Hat). exists u'. split_and!; [done|done|done|].
    intros x' y' z'. rewrite Hat by apply index_range. unfold x, y, z. by rewrite block_index_local, Hub. }
  assert (forall u' c1, size (biomes_ c1) = size (biomes_ c) -> (forall v, with_biome i v c1 = with_biome i v c) ->
    biome_ok u' -> proxy_ u' = false -> forall u, vec_at (biomes_ c1) i = Ok u ->
    BedrockBiomeSection.setBiomeId x y z id u = (Ok tt, u') ->
    on_biome i (BedrockBiomeSection.setBiomeId x y z id) c1 = (Ok tt, with_biome i u' c) /\
    column_in d (with_biome i u' c)) as Hfin.
  { intros u' c1 Hs Hcc Hu' Hp u Eu E. rewrite (on_biome_run _ i c1 u (Ok tt) u') by (done || lia).
    rewrite Hcc. split; [done|]. apply with_biome_ok; [done|apply (BedrockBiomeSection.bo_wf u' Hu')]. }
  unfold base_index, biome_sec in Hbase. rewrite Hb in Hbase. unfold BedrockBiomeSection.proxy.
  destruct (proxy_ b && (i >? 0)) eqn:Eg.
  - apply andb_true_iff in Eg as [_ Eg]. rewrite Z.gtb_ltb in Eg. apply Z.ltb_lt in Eg.
    destruct (Hset (BedrockBiomeSection.set_proxy false base)) as (u' & E & Hu' & Hp & Hat);
      [by destruct Hok|done|done|].
    exists u'. set (c1 := with_biome i base c). set (c2 := with_biome i (BedrockBiomeSection.set_proxy false base) c1).
    assert (size (biomes_ c1) = size (biomes_ c)) as S1 by (unfold c1; cbn [with_biome set_biomes biomes_]; by rewrite size_insert).
    assert (size (biomes_ c2) = size (biomes_ c)) as S2 by (unfold c2; cbn [with_biome set_biomes biomes_]; by rewrite size_insert).
    assert (forall v, with_biome i v c2 = with_biome i v c) as W2
      by (intros v; unfold c2, c1, with_biome; cbn [set_biomes biomes_]; by rewrite !list_insert_insert_eq).
    assert (biomes_ c1 !! Z.to_nat i = Some base /\ biomes_ c2 !! Z.to_nat i = Some (BedrockBiomeSection.set_proxy false base)) as [L1 L2].
    { unfold size in *. split; [unfold c1|unfold c2]; cbn [with_biome set_biomes biomes_]; by rewrite list_lookup_insert_eq by lia. }
    assert ((let* previous := lift (vec_at (biomes_ c) (i - 1)) in
       on_biome i (put_st previous);;; on_biome i (BedrockBiomeSection.setProxy false)) c = (Ok tt, c2)) as E2.
    { rewrite (vec_at_lookup _ (i - 1) base) by (lia || done). rewrite bind_lift.
      rewrite (bind_ok _ _ _ _ _ (on_biome_run (put_st base) i c b (Ok tt) base Hr Eb eq_refl)).
      apply (on_biome_run _ i c1 base); [lia|by apply vec_at_lookup; [lia|]|done]. }
    rewrite (bind_ok _ _ _ _ _ E2).
    destruct (Hfin u' c2 S2 W2 Hu' Hp (BedrockBiomeSection.set_proxy false base)) as [-> Hin];
      [by apply vec_at_lookup; [lia|]|done|]. by split_and!.
  - rewrite Hb in Hbase. injection Hbase as <-. rewrite bind_ret.
    destruct (Hset b Hok Hroom ltac:(done)) as (u' & E & Hu' & Hp & Hat). exists u'.
    destruct (Hfin u' c eq_refl ltac:(done) Hu' Hp b Eb E) as [-> Hin]. by split_and!.
Qed.

Lemma resolved_own c i b : 0 <= i -> biome_sec c i = Some b -> proxy_ b = false -> resolved c i = Ok i.
Proof.
  intros Hi Hb Hp. unfold resolved. destruct (Z.to_nat i) eqn:E; cbn [proxy_loop];
    (destruct (Z.gtb_spec i 0); [|done]); [lia|].
  rewrite (vec_at_lookup _ i b) by done. cbn [rbind]. unfold BedrockBiomeSection.proxy. by rewrite Hp.
Qed.

(** ** Properties *)

(** C22: on a well-formed column, [setBiomeId] inside the bounds returns, keeps
    the invariant and makes the section of the block its own: a block whose
    biome is afterwards read in that section - one of the section itself, or of
    a proxy above it with only proxies in between - has the new biome where the
    coordinates agree and otherwise the biome stored in the section the new one
    started from (itself, or for a proxy the section just below); every other
    biome is read as before. *)
Theorem column_biome_set c pos id i base :
  col_ok c -> is_s 32 (py pos) -> i = co_ c + sec (py pos) -> 0 <= i < size (biomes_ c) ->
  biome_sec c (base_index c i) = Some base -> biome_ok base -> size (BedrockBiomeSection.palette_ base) < 2 ^ 31 ->
  exists c', setBiomeId pos id c = (Ok tt, c') /\ col_ok c' /\ dims c' = dims c /\
    (forall l, pos_ok l -> getBlockStateId l c' = getBlockStateId l c) /\
    forall q j k, is_s 32 (py q) -> j = co_ c + sec (py q) -> 0 <= j < size (biomes_ c) -> resolved c j = Ok k ->
      getBiomeId q c' =
        if (i <=? j) && (k <=? i)
        then Ok (if block_index (px q) (py q) (pz q) =? block_index (px pos) (py pos) (pz pos) then id
                 else biome_at base (block_index (px q) (py q) (pz q)))
        else getBiomeId q c.
Proof.
  intros Hc Hy Hi Hr Hbase Hok Hroom. assert (column_in (dims c) c) as Hin by done.
  destruct (setBiomeId_run (dims c) c pos id i base Hin Hy Hi Hr Hbase Hok Hroom)
    as (b' & E & Hin' & Hp' & Hok' & Hat).
  exists (with_biome i b' c). split; [exact E|]. split; [apply Hin'|]. split; [apply Hin'|].
  split; [intros l Hl; by rewrite !getBlockStateId_at by (done || apply Hin')|].
  intros q j k Hq Hj Hjr Hk.
  assert (size (biomes_ (with_biome i b' c)) = size (biomes_ c)) as Hsz by (cbn [with_biome set_biomes biomes_]; by rewrite size_insert).
  assert (biome_sec (with_biome i b' c) i = Some b') as Hsec.
  { unfold biome_sec. cbn [with_biome set_biomes biomes_]. apply list_lookup_insert_eq. unfold size in Hr. lia. }
  assert (forall m, 0 <= m -> m <> i -> biome_sec (with_biome i b' c) m = biome_sec c m) as Hother.
  { intros m Hm0 Hm. unfold biome_sec. cbn [with_biome set_biomes biomes_]. apply list_lookup_insert_ne. lia. }
  assert (resolved (with_biome i b' c) j = Ok (if (i <=? j) && (k <=? i) then i else k)) as Hres.
  { unfold resolved. apply (proxy_loop_own_at c _ i Hr); [|by exists b'|done|done]. exact Hother. }
  pose proof (proxy_loop_le _ _ _ _ Hk (proj1 Hjr)) as Hkj.
  destruct ((i <=? j) && (k <=? i)) eqn:Eg.
  - rewrite (getBiomeId_resolved _ q j i b'); [|apply Hin'|done|done|by rewrite Hsz|done|done].
    rewrite BedrockBiomeSection.getBiomeId_ok, block_index_local by done. by rewrite Hat.
  - destruct (lookup_lt_is_Some_2 (biomes_ c) (Z.to_nat k)) as [bk Hbk]; [unfold size in Hjr; lia|].
    assert (k <> i) as Hne.
    { intros ->. rewrite Z.leb_refl, andb_true_r in Eg. apply Z.leb_gt in Eg. lia. }
    rewrite (getBiomeId_resolved c q j k bk Hc Hq Hj Hjr Hk Hbk).
    rewrite (getBiomeId_resolved _ q j k bk); [done|apply Hin'|done|done|by rewrite Hsz|done|].
    rewrite Hother; [done|lia|done].
Qed.

Lemma column_biome_set_witness :
  exists c c', make 3 4 = Ok c /\ setBiomeId (mkPos 1 8 2 None) 7 c = (Ok tt, c') /\
    getBiomeId (mkPos 17 8 18 None) c' = Ok 7.
Proof.
  destruct (setBounds_ok 0 16 (mkColumn 3 4 0 16 0 256 256 0 [] [] ∅ ∅ ∅ None)) as (bs & E & Hs & Hok & Hd);
    [by apply (bool_decide_unpack (bounds_ok 0 16))|].
  destruct (column_make_ok 3 4) as (c & Ec & Hc). pose proof Ec as Ec'. unfold make, exec in Ec'. rewrite E in Ec'.
  injection Ec' as Ec'. assert (biomes_ c = bs /\ co_ c = 0) as [Hb Hco] by (rewrite <-Ec'; split; reflexivity).
  clear E Ec'. destruct bs as [|b bs]; [discriminate Hs|].
  apply Forall_cons_1 in Hok as [Hok _]. apply Forall_cons_1 in Hd as [(Hp & Hpal & _) _].
  assert (biome_sec c 0 = Some b) as Hsec by (unfold biome_sec; rewrite Hb; reflexivity).
  assert (pos_ok (mkPos 1 8 2 None) /\ pos_ok (mkPos 17 8 18 None)) as [H1 H2]
    by (split; split; by apply (bool_decide_unpack _)).
  destruct (column_biome_set c (mkPos 1 8 2 None) 7 0 b Hc (proj1 H1)) as (c' & E & _ & _ & _ & Hget).
  - rewrite Hco. reflexivity.
  - rewrite Hb, Hs. split; [discriminate|reflexivity].
  - unfold base_index. rewrite Hsec, Hp. exact Hsec.
  - exact Hok.
  - rewrite Hpal. reflexivity.
  - exists c, c'. split; [exact Ec|]. split; [exact E|].
    rewrite (Hget (mkPos 17 8 18 None) 0 0 (proj1 H2)); [reflexivity|rewrite Hco; reflexivity|
      rewrite Hb, Hs; split; [discriminate|reflexivity]|].
    by apply (resolved_own c 0 b).
Defined.

(** Four sections: biome 5 at the bottom, three proxies above. *)
Definition proxied : result BedrockChunkColumn :=
  let! c := make 0 0 in exec (setBounds 0 4 ;;; loadLegacyBiomes (replicate 256 5)) c.

(** The biomes at two blocks before and after one of them is set. *)
Definition proxied_set : result (list (result Z)) :=
  let! c := proxied in
  let! c' := exec (setBiomeId (mkPos 1 40 2 None) 7) c in
  Ok [getBiomeId (mkPos 1 41 2 None) c; getBiomeId (mkPos 1 60 2 None) c;
      getBiomeId (mkPos 1 40 2 None) c'; getBiomeId (mkPos 1 41 2 None) c'; getBiomeId (mkPos 1 60 2 None) c'].

(** In a column of legacy biomes, all 5, setting one block of the third
    section to 7 turns every other block of that section, and of the section
    above, into biome 0: the section is copied from the proxy below it, not
    from the section that the proxy stands for. *)
Theorem biome_proxy_chain_lost : proxied_set = Ok [Ok 5; Ok 5; Ok 7; Ok 0; Ok 0].
Proof. vm_compute. reflexivity. Qed.

(** A column sent through the blob store and back. *)
Definition through_cache (use3DBiomes : bool) (c : BedrockChunkColumn) : result BedrockChunkColumn :=
  match networkEncodeCached use3DBiomes None c ∅ with
  | (Throw e, _) => Throw e
  | (Ok encoded, store) =>
      match networkDecodeCached (blobHashes encoded) store (cache_payload encoded) None c with
      | (Ok _, c') => Ok c'
      | (Throw e, _) => Throw e
      end
  end.

Definition empty_column : result BedrockChunkColumn := make 0 0.
Definition two_biomes : result BedrockChunkColumn :=
  let! c := empty_column in exec (setBiomeId (mkPos 1 8 2 None) 7) c.

(** The cached form of a column cannot be decoded when its biomes are 3D with
    two in one section (they are written with varints and read with 32-bit
    words), nor when they are 2D and it has no section (the legacy bytes are
    then read as 3D biomes); with 3D biomes of one kind it can. *)
Theorem cached_biomes_unreadable :
  (let! c := two_biomes in through_cache true c) = Throw (BinaryStreamError "not enough bytes in BinaryStream") /\
  (let! c := empty_column in through_cache false c) =
    Throw (BedrockChunkError "biome palette type must use runtime IDs") /\
  (let! c := empty_column in let! c' := through_cache true c in getBiomeId (mkPos 1 8 2 None) c') = Ok 0.
Proof. vm_compute. auto. Qed.
