(* ===== verification/World.v ===== *)
(** * The world (src/src/world/BedrockChunk.cpp, BedrockWorld)

    The loaded columns by key, the queue of columns to save and the queue of
    columns to unload once saved.  The generator, the loader, the saver and the
    handlers are the caller's functions: each is a computation on an
    environment [E] of the caller's own (its disk, its log) that may throw and
    does not call back into the world.  The order in which an unordered_map is
    walked is the parameter [MapOrder].  [raycast] (floating-point iterators)
    and [getBlock] with a registry are left out; neither changes the world.
    [getColumn] returns a pointer to the column in the code; here it is the
    column, and what a caller writes through the pointer, behind the world's
    back, is not an operation. *)

From S2P Require Import Prelude MachineInt ZigZag Leb128 Endian BinaryStream GamePacket Text Nbt PalettedStorage SubChunk BiomeSection ChunkColumn StreamState.

(** The order in which the elements of an unordered_map come. *)
Class MapOrder := elements : forall A : Type, gmap string A -> list (string * A).
Arguments elements {_ A} m.

(** Every element comes once. *)
Class MapOrderLaws `{MapOrder} : Prop :=
  elements_perm : forall (A : Type) (m : gmap string A), elements m ≡ₚ map_to_list m.

#[export] Instance tree_order : MapOrder := fun A m => map_to_list m.
#[export] Instance tree_order_laws : MapOrderLaws.
Proof. by intros A m. Qed.

Module BedrockWorld.

Import BedrockChunkColumn.

(** ** Keys and coordinates *)

Definition key (chunkX chunkZ : Z) : string :=
  to_string_signed chunkX +:+ "," +:+ to_string_signed chunkZ.

Definition blockKey (pos : BlockPosition) : string :=
  to_string_signed (px pos) +:+ "," +:+ to_string_signed (py pos) +:+ "," +:+
  to_string_signed (pz pos).

Definition chunkCoord (blockCoord : Z) : result Z :=
  if blockCoord >=? 0 then Ok (Z.quot blockCoord 16)
  else
    let! negated := i32 (- blockCoord) in
    let! sum := i32 (negated + 15) in
    Ok (- Z.quot sum 16).

Definition comma : Ascii.ascii := Ascii.ascii_of_nat 44.

(** The coordinates that [getColumns] reads off a key; [npos + 1] is 0. *)
Definition parse_key (k : string) : result (Z * Z) :=
  let at_comma := find_char comma k in
  let! x := stoi (match at_comma with Some i => String.substring 0 i k | None => k end) in
  let! z := stoi (match at_comma with
                  | Some i => String.substring (S i) (String.length k - S i) k
                  | None => k
                  end) in
  Ok (x, z).

(** ** Data *)

Record BedrockWorldColumnEntry := mkEntry {
  chunkX : Z;
  chunkZ : Z;
  column : BedrockChunkColumn
}.

Record BedrockWorldBlockSnapshot := mkSnapshot {
  position : BlockPosition;
  snapshot_stateId : Z;
  snapshot_blockLight : Z;
  snapshot_skyLight : Z;
  biomeId : Z;
  blockEntity : option NbtDocument
}.

Section World.
Context {E : Type}.

(** [std::function]s that may be empty. *)
Record BedrockWorldOptions := mkOptions {
  chunkGenerator : option (Z -> Z -> M E BedrockChunkColumn);
  loadColumn : option (Z -> Z -> M E (option BedrockChunkColumn));
  saveColumn : option (Z -> Z -> BedrockChunkColumn -> M E unit)
}.

Definition ColumnHandler : Type := BedrockWorldColumnEntry -> M E unit.
Definition BlockUpdateHandler : Type :=
  BedrockWorldBlockSnapshot -> BedrockWorldBlockSnapshot -> M E unit.
Definition VoidHandler : Type := M E unit.

Record BedrockWorld := mkWorld {
  options_ : BedrockWorldOptions;
  columns_ : gmap string BedrockChunkColumn;
  savingQueue_ : gmap string (Z * Z);
  unloadQueue_ : gmap string (Z * Z);
  loadHandlers_ : list ColumnHandler;
  unloadHandlers_ : list ColumnHandler;
  blockUpdateHandlers_ : list BlockUpdateHandler;
  positionedBlockUpdateHandlers_ : gmap string (list BlockUpdateHandler);
  doneSavingHandlers_ : list VoidHandler
}.

Definition make (options : BedrockWorldOptions) : BedrockWorld :=
  mkWorld options ∅ ∅ ∅ [] [] [] ∅ [].

Definition set_maps columns saving unload (w : BedrockWorld) : BedrockWorld :=
  mkWorld (options_ w) columns saving unload (loadHandlers_ w) (unloadHandlers_ w)
    (blockUpdateHandlers_ w) (positionedBlockUpdateHandlers_ w) (doneSavingHandlers_ w).
Definition set_columns columns w := set_maps columns (savingQueue_ w) (unloadQueue_ w) w.
Definition set_saving saving w := set_maps (columns_ w) saving (unloadQueue_ w) w.
Definition set_unload unload w := set_maps (columns_ w) (savingQueue_ w) unload w.

(** A call of the caller's code, and an assignment to the world. *)
Definition on_env {A} (m : M E A) : M (BedrockWorld * E) A :=
  fun s => match m (snd s) with (r, e) => (r, (fst s, e)) end.
Definition modify (f : BedrockWorld -> BedrockWorld) : M (BedrockWorld * E) unit :=
  fun s => (Ok tt, (f (fst s), snd s)).
Definition world : M (BedrockWorld * E) BedrockWorld := fun s => (Ok (fst s), s).

(** A member function called through the pointer to [columns_[k]]. *)
Definition on_column {A} (k : string) (m : M BedrockChunkColumn A) : M (BedrockWorld * E) A :=
  fun s => match columns_ (fst s) !! k with
           | None => (Throw (UndefinedBehaviour "dangling column"), s)
           | Some c => match m c with
                       | (r, c') => (r, (set_columns (<[k := c']> (columns_ (fst s))) (fst s), snd s))
                       end
           end.

(** ** Handlers *)

Definition onColumnLoad (handler : ColumnHandler) : M (BedrockWorld * E) unit :=
  modify (fun w => mkWorld (options_ w) (columns_ w) (savingQueue_ w) (unloadQueue_ w)
    (loadHandlers_ w ++ [handler]) (unloadHandlers_ w) (blockUpdateHandlers_ w)
    (positionedBlockUpdateHandlers_ w) (doneSavingHandlers_ w)).
Definition onColumnUnload (handler : ColumnHandler) : M (BedrockWorld * E) unit :=
  modify (fun w => mkWorld (options_ w) (columns_ w) (savingQueue_ w) (unloadQueue_ w)
    (loadHandlers_ w) (unloadHandlers_ w ++ [handler]) (blockUpdateHandlers_ w)
    (positionedBlockUpdateHandlers_ w) (doneSavingHandlers_ w)).
Definition onBlockUpdate (handler : BlockUpdateHandler) : M (BedrockWorld * E) unit :=
  modify (fun w => mkWorld (options_ w) (columns_ w) (savingQueue_ w) (unloadQueue_ w)
    (loadHandlers_ w) (unloadHandlers_ w) (blockUpdateHandlers_ w ++ [handler])
    (positionedBlockUpdateHandlers_ w) (doneSavingHandlers_ w)).
Definition onBlockUpdate_at (pos : BlockPosition) (handler : BlockUpdateHandler)
    : M (BedrockWorld * E) unit :=
  modify (fun w => mkWorld (options_ w) (columns_ w) (savingQueue_ w) (unloadQueue_ w)
    (loadHandlers_ w) (unloadHandlers_ w) (blockUpdateHandlers_ w)
    (let handlers := positionedBlockUpdateHandlers_ w in
     <[blockKey pos := default [] (handlers !! blockKey pos) ++ [handler]]> handlers)
    (doneSavingHandlers_ w)).
Definition onDoneSaving (handler : VoidHandler) : M (BedrockWorld * E) unit :=
  modify (fun w => mkWorld (options_ w) (columns_ w) (savingQueue_ w) (unloadQueue_ w)
    (loadHandlers_ w) (unloadHandlers_ w) (blockUpdateHandlers_ w)
    (positionedBlockUpdateHandlers_ w) (doneSavingHandlers_ w ++ [handler])).

(** ** Loaded columns *)

Definition hasColumn (chunkX chunkZ : Z) (w : BedrockWorld) : bool :=
  bool_decide (is_Some (columns_ w !! key chunkX chunkZ)).

(** The column the returned pointer refers to. *)
Definition getLoadedColumn (chunkX chunkZ : Z) (w : BedrockWorld) : option BedrockChunkColumn :=
  columns_ w !! key chunkX chunkZ.
Definition getLoadedColumnAt (pos : BlockPosition) (w : BedrockWorld)
    : result (option BedrockChunkColumn) :=
  let! x := chunkCoord (px pos) in
  let! z := chunkCoord (pz pos) in
  Ok (getLoadedColumn x z w).

(** ** The queues *)

Definition queueSaving (chunkX chunkZ : Z) : M (BedrockWorld * E) unit :=
  let* w := world in
  if bool_decide (saveColumn (options_ w) = None) || negb (hasColumn chunkX chunkZ w) then ret tt
  else modify (fun w => set_saving (<[key chunkX chunkZ := (chunkX, chunkZ)]> (savingQueue_ w)) w).

Definition saveAt (pos : BlockPosition) : M (BedrockWorld * E) unit :=
  let* x := lift (chunkCoord (px pos)) in
  let* z := lift (chunkCoord (pz pos)) in
  queueSaving x z.

Definition forceUnloadColumn (chunkX chunkZ : Z) : M (BedrockWorld * E) unit :=
  let columnKey := key chunkX chunkZ in
  let* w := world in
  match columns_ w !! columnKey with
  | None =>
      modify (fun w => set_unload (delete columnKey (unloadQueue_ w)) w) ;;;
      modify (fun w => set_saving (delete columnKey (savingQueue_ w)) w)
  | Some c =>
      let entry := mkEntry chunkX chunkZ c in
      modify (fun w => set_columns (delete columnKey (columns_ w)) w) ;;;
      modify (fun w => set_unload (delete columnKey (unloadQueue_ w)) w) ;;;
      modify (fun w => set_saving (delete columnKey (savingQueue_ w)) w) ;;;
      for_each (unloadHandlers_ w) (fun handler => on_env (handler entry))
  end.

Definition unloadColumn (chunkX chunkZ : Z) : M (BedrockWorld * E) unit :=
  let columnKey := key chunkX chunkZ in
  let* w := world in
  match columns_ w !! columnKey with
  | None => ret tt
  | Some _ =>
      if negb (bool_decide (saveColumn (options_ w) = None))
         && bool_decide (is_Some (savingQueue_ w !! columnKey)) then
        modify (fun w => set_unload (<[columnKey := (chunkX, chunkZ)]> (unloadQueue_ w)) w)
      else forceUnloadColumn chunkX chunkZ
  end.

(** ** Loading *)

Definition setLoadedColumn (chunkX chunkZ : Z) (column : BedrockChunkColumn) (save : bool)
    : M (BedrockWorld * E) unit :=
  modify (fun w => set_columns (<[key chunkX chunkZ := column]> (columns_ w)) w) ;;;
  let* w := world in
  let* stored := lift (match columns_ w !! key chunkX chunkZ with
                       | Some c => Ok c
                       | None => Throw (OutOfRange "unordered_map::at")
                       end) in
  let entry := mkEntry chunkX chunkZ stored in
  for_each (loadHandlers_ w) (fun handler => on_env (handler entry)) ;;;
  if save && negb (bool_decide (saveColumn (options_ w) = None)) then queueSaving chunkX chunkZ
  else ret tt.

Definition setColumn (chunkX chunkZ : Z) (column : BedrockChunkColumn) (save : bool)
    : M (BedrockWorld * E) unit :=
  setLoadedColumn chunkX chunkZ column save.

Definition getColumn (chunkX chunkZ : Z) : M (BedrockWorld * E) (option BedrockChunkColumn) :=
  let* w := world in
  match getLoadedColumn chunkX chunkZ w with
  | Some loaded => ret (Some loaded)
  | None =>
      let* column := match loadColumn (options_ w) with
                     | Some load => on_env (load chunkX chunkZ)
                     | None => ret None
                     end in
      let loadedFromStorage := negb (bool_decide (column = None)) in
      let* column := match column, chunkGenerator (options_ w) with
                     | None, Some generate => let* c := on_env (generate chunkX chunkZ) in ret (Some c)
                     | _, _ => ret column
                     end in
      match column with
      | None => ret None
      | Some c =>
          setLoadedColumn chunkX chunkZ c (negb loadedFromStorage) ;;;
          let* w := world in
          ret (getLoadedColumn chunkX chunkZ w)
      end
  end.

Definition getColumnAt (pos : BlockPosition) : M (BedrockWorld * E) (option BedrockChunkColumn) :=
  let* x := lift (chunkCoord (px pos)) in
  let* z := lift (chunkCoord (pz pos)) in
  getColumn x z.

(** ** Saving *)

Definition save_item (save : Z -> Z -> BedrockChunkColumn -> M E unit) (item : string * (Z * Z))
    : M (BedrockWorld * E) unit :=
  let* w := world in
  match columns_ w !! item.1 with
  | None => ret tt
  | Some c => on_env (save item.2.1 item.2.2 c)
  end.

Definition saveNow `{MapOrder} : M (BedrockWorld * E) unit :=
  let* w := world in
  match saveColumn (options_ w) with
  | None => ret tt
  | Some save =>
      if bool_decide (savingQueue_ w = ∅) then ret tt
      else
        let queue := elements (savingQueue_ w) in
        for_each queue (save_item save) ;;;
        for_each queue (fun item =>
          modify (fun w => set_saving (delete item.1 (savingQueue_ w)) w)) ;;;
        let* w := world in
        for_each (elements (unloadQueue_ w)) (fun item => forceUnloadColumn item.2.1 item.2.2) ;;;
        let* w := world in
        for_each (doneSavingHandlers_ w) on_env
  end.

Definition waitSaving `{MapOrder} : M (BedrockWorld * E) unit := saveNow.

Definition savingQueueSize (w : BedrockWorld) : Z := Z.of_nat (base.size (savingQueue_ w)).
Definition unloadQueueSize (w : BedrockWorld) : Z := Z.of_nat (base.size (unloadQueue_ w)).
Definition columnCount (w : BedrockWorld) : Z := Z.of_nat (base.size (columns_ w)).

Fixpoint entries (items : list (string * BedrockChunkColumn)) : result (list BedrockWorldColumnEntry) :=
  match items with
  | [] => Ok []
  | (k, c) :: items' =>
      let! p := parse_key k in
      let! out := entries items' in
      Ok (mkEntry p.1 p.2 c :: out)
  end.
Definition getColumns `{MapOrder} (w : BedrockWorld) : result (list BedrockWorldColumnEntry) :=
  entries (elements (columns_ w)).

(** ** Blocks *)

Definition column_snapshot (pos : BlockPosition) (c : BedrockChunkColumn)
    : result BedrockWorldBlockSnapshot :=
  let! stateId := BedrockChunkColumn.getBlockStateId pos c in
  let! biome := BedrockChunkColumn.getBiomeId pos c in
  let! section := getSection (py pos) c in
  let entity := getBlockEntityNbt pos c in
  match section with
  | None => Ok (mkSnapshot pos stateId 0 0 biome entity)
  | Some _ =>
      let! blockLight := BedrockChunkColumn.getBlockLight pos c in
      let! skyLight := BedrockChunkColumn.getSkyLight pos c in
      Ok (mkSnapshot pos stateId blockLight skyLight biome entity)
  end.

Definition getBlock (pos : BlockPosition) (w : BedrockWorld)
    : result (option BedrockWorldBlockSnapshot) :=
  let! column := getLoadedColumnAt pos w in
  match column with
  | None => Ok None
  | Some c => let! block := column_snapshot pos c in Ok (Some block)
  end.

Definition emitBlockUpdate (oldBlock newBlock : BedrockWorldBlockSnapshot) : M (BedrockWorld * E) unit :=
  let* w := world in
  for_each (blockUpdateHandlers_ w) (fun handler => on_env (handler oldBlock newBlock)) ;;;
  let* w := world in
  match positionedBlockUpdateHandlers_ w !! blockKey (position newBlock) with
  | None => ret tt
  | Some handlers => for_each handlers (fun handler => on_env (handler oldBlock newBlock))
  end.

(** Dereferences an optional. *)
Definition deref {A} (o : option A) : result A :=
  match o with Some a => Ok a | None => Throw (UndefinedBehaviour "empty optional") end.

(** What the six setters share: the change [f] of the column, between two
    snapshots of the block. *)
Definition update_block (pos : BlockPosition) (f : M BedrockChunkColumn unit) : M (BedrockWorld * E) unit :=
  let* w := world in
  let* column := lift (getLoadedColumnAt pos w) in
  match column with
  | None => ret tt
  | Some _ =>
      let* x := lift (chunkCoord (px pos)) in
      let* z := lift (chunkCoord (pz pos)) in
      let* oldBlock := lift (getBlock pos w) in
      on_column (key x z) f ;;;
      saveAt pos ;;;
      let* w := world in
      let* newBlock := lift (getBlock pos w) in
      let* oldBlock := lift (deref oldBlock) in
      let* newBlock := lift (deref newBlock) in
      emitBlockUpdate oldBlock newBlock
  end.

Definition setBlock (pos : BlockPosition) (block : BlockData) : M (BedrockWorld * E) unit :=
  update_block pos (BedrockChunkColumn.setBlock pos block).
Definition setBlock_registry (air : option Z) (pos : BlockPosition) (block : BlockData)
    : M (BedrockWorld * E) unit :=
  update_block pos (BedrockChunkColumn.setBlock_registry air pos block).
Definition setBlockStateId (pos : BlockPosition) (stateId : Z) : M (BedrockWorld * E) unit :=
  update_block pos (BedrockChunkColumn.setBlockStateId pos stateId).
Definition setBlockLight (pos : BlockPosition) (value : Z) : M (BedrockWorld * E) unit :=
  update_block pos (BedrockChunkColumn.setBlockLight pos value).
Definition setSkyLight (pos : BlockPosition) (value : Z) : M (BedrockWorld * E) unit :=
  update_block pos (BedrockChunkColumn.setSkyLight pos value).
Definition setBiomeId (pos : BlockPosition) (biomeId : Z) : M (BedrockWorld * E) unit :=
  update_block pos (BedrockChunkColumn.setBiomeId pos biomeId).

Definition read_column (f : BedrockChunkColumn -> result Z) (pos : BlockPosition) (w : BedrockWorld)
    : result Z :=
  let! column := getLoadedColumnAt pos w in
  match column with Some c => f c | None => Ok 0 end.
Definition getBlockStateId (pos : BlockPosition) (w : BedrockWorld) : result Z :=
  read_column (BedrockChunkColumn.getBlockStateId pos) pos w.
Definition getBlockLight (pos : BlockPosition) (w : BedrockWorld) : result Z :=
  read_column (BedrockChunkColumn.getBlockLight pos) pos w.
Definition getSkyLight (pos : BlockPosition) (w : BedrockWorld) : result Z :=
  read_column (BedrockChunkColumn.getSkyLight pos) pos w.
Definition getBiomeId (pos : BlockPosition) (w : BedrockWorld) : result Z :=
  read_column (BedrockChunkColumn.getBiomeId pos) pos w.

End World.

Arguments BedrockWorldOptions E : clear implicits.
Arguments BedrockWorld E : clear implicits.

End BedrockWorld.
