(* ===== verification/WorldKeys.v ===== *)
(** * Keys and coordinates of the world

    Decimal strings and std::stoi, injectivity of the keys of the maps, and
    block to chunk coordinates. *)

From S2P Require Import Prelude MachineInt ZigZag GamePacket Text SubChunk ChunkColumn ColumnState World StreamState.
Import BedrockWorld BedrockChunkColumn.

(** ** Decimal strings *)

Lemma to_string_no_comma v : find_char comma (to_string_signed v) = None.
Proof.
  assert (forall n : N, find_char comma (pretty n) = None) as H by by intros; apply find_char_pretty.
  unfold to_string_signed, BedrockSubChunk.to_string_signed, to_string.
  destruct (v <? 0); [|done].
  trans (S <$> find_char comma (pretty (Z.to_N (- v)))); [by apply find_char_cons|by rewrite H].
Qed.

(** [std::stoi] reads back what [std::to_string] writes. *)
Lemma stoi_to_string v : is_s 32 v -> stoi (to_string_signed v) = Ok v.
Proof.
  intros Hv. unfold to_string_signed, BedrockSubChunk.to_string_signed, to_string. destruct (Z.ltb_spec v 0).
  - unfold stoi. set (n := pretty (Z.to_N (- v)) : string).
    change (String.list_ascii_of_string ("-" +:+ n))
      with (Ascii.ascii_of_nat 45 :: String.list_ascii_of_string n).
    cbn [skip_space]. change (is_space (Ascii.ascii_of_nat 45)) with false. cbn iota.
    change (byte_of_ascii (Ascii.ascii_of_nat 45) =? 45) with true. cbn iota.
    unfold n. rewrite digits_pretty. cbn [negb].
    replace (- Z.of_N (Z.to_N (- v))) with v by lia. by rewrite bool_decide_true.
  - exact (stoi_unsigned v ltac:(lia) Hv).
Qed.

(** ** Keys *)

Lemma to_string_inj v w : to_string_signed v = to_string_signed w -> v = w.
Proof.
  unfold to_string_signed, BedrockSubChunk.to_string_signed, to_string.
  assert (forall (n : N) s, pretty n <> "-" +:+ s) as Hd.
  { intros n s E. destruct (pretty_first n) as (c & r & E' & Hc). rewrite E' in E.
    injection E as -> _. by vm_compute in Hc. }
  destruct (Z.ltb_spec v 0), (Z.ltb_spec w 0); intros Eq.
  - rewrite !app_cons, !app_empty in Eq. injection Eq as Eq. apply (inj (pretty (A := N))) in Eq. lia.
  - by symmetry in Eq; apply Hd in Eq.
  - by apply Hd in Eq.
  - apply (inj (pretty (A := N))) in Eq. lia.
Qed.

Lemma key_inj x z x' z' : key x z = key x' z' -> x = x' /\ z = z'.
Proof.
  unfold key. intros Eq. apply split_inj in Eq as [Ex Ez]; try apply to_string_no_comma.
  split; by apply to_string_inj.
Qed.

Lemma blockKey_inj p q : blockKey p = blockKey q -> px p = px q /\ py p = py q /\ pz p = pz q.
Proof.
  unfold blockKey. intros Eq. apply split_inj in Eq as [Ex Eq]; try apply to_string_no_comma.
  apply split_inj in Eq as [Ey Ez]; try apply to_string_no_comma. split_and!; by apply to_string_inj.
Qed.

Lemma key_split x z : key x z = to_string_signed x +:+ String comma (to_string_signed z).
Proof. reflexivity. Qed.

Lemma parse_key_key x z : is_s 32 x -> is_s 32 z -> parse_key (key x z) = Ok (x, z).
Proof.
  intros Hx Hz. unfold parse_key. rewrite key_split, find_char_app by apply to_string_no_comma.
  rewrite substring_prefix, stoi_to_string by done. cbn [rbind].
  set (a := to_string_signed x). set (t := to_string_signed z).
  assert (a +:+ String comma t = (a +:+ ",") +:+ t) as -> by (symmetry; exact (append_assoc a "," t)).
  assert (S (String.length a) = String.length (a +:+ ",")) as -> by (rewrite length_append; cbn; lia).
  rewrite substring_suffix; [by unfold t; rewrite stoi_to_string|]. rewrite (length_append (a +:+ ",")). lia.
Qed.

(** ** Block to chunk coordinates *)

Lemma chunkCoord_ok b : - 2 ^ 31 + 16 <= b < 2 ^ 31 -> chunkCoord b = Ok (b / 16).
Proof.
  intros Hb. unfold chunkCoord. destruct (Z.geb_spec b 0).
  - by rewrite Z.quot_div_nonneg by lia.
  - unfold i32, is_s. rewrite bool_decide_true by lia. cbn [rbind].
    rewrite bool_decide_true by lia. cbn [rbind]. rewrite Z.quot_div_nonneg by lia. f_equal.
    pose proof (Z.div_mod b 16 ltac:(lia)). pose proof (Z.mod_pos_bound b 16 ltac:(lia)).
    apply Z.opp_inj. rewrite Z.opp_involutive. symmetry. apply Z.div_unique_pos with (15 - b mod 16); lia.
Qed.

(** [chunkCoord] is division by 16 rounded down, and the block coordinate
    is 16 times the chunk's plus what [localCoord] keeps; on the sixteen lowest
    coordinates of an int32_t the negation and the rounding overflow. *)
Theorem chunkCoord_floor b :
  is_s 32 b ->
  chunkCoord b = (if decide (- 2147483632 <= b) then Ok (b / 16)
                  else Throw (UndefinedBehaviour "signed overflow")) /\
  (forall c, chunkCoord b = Ok c -> b = 16 * c + localCoord b /\ is_s 28 c).
Proof.
  intros Hb. unfold is_s in Hb. change (2 ^ (32 - 1)) with 2147483648 in Hb.
  assert (chunkCoord b = (if decide (- 2147483632 <= b) then Ok (b / 16)
                  else Throw (UndefinedBehaviour "signed overflow"))) as Ec.
  { case_decide; [by apply chunkCoord_ok; lia|]. unfold chunkCoord, i32.
    destruct (Z.geb_spec b 0); [lia|]. case_bool_decide as H1; [|done]. cbn [rbind].
    rewrite bool_decide_false; [done|]. unfold is_s. lia. }
  split; [done|]. intros c. rewrite Ec. case_decide; [|done]. intros [= <-].
  rewrite localCoord_mod. split; [apply Z.div_mod; lia|]. unfold is_s.
  split; [apply Z.div_le_lower_bound; lia|apply Z.div_lt_upper_bound; lia].
Qed.

Lemma chunkCoord_floor_witness :
  chunkCoord (-17) = Ok (-2) /\ chunkCoord (- 2 ^ 31) = Throw (UndefinedBehaviour "signed overflow").
Proof.
  destruct (chunkCoord_floor (-17) ltac:(unfold is_s; lia)) as [E1 _].
  destruct (chunkCoord_floor (- 2 ^ 31) ltac:(unfold is_s; lia)) as [E2 _].
  rewrite E1, E2. by split.
Defined.

(** ** The loaded columns *)

(** Every key of the map is the key of its 32-bit coordinates. *)
Definition keyed {A} (m : gmap string A) : Prop :=
  forall k a, m !! k = Some a -> exists x z, k = key x z /\ is_s 32 x /\ is_s 32 z.

Lemma entries_ok items :
  Forall (fun item => exists x z, item.1 = key x z /\ is_s 32 x /\ is_s 32 z) items ->
  exists out, entries items = Ok out /\
    items = (fun entry => (key (chunkX entry) (chunkZ entry), column entry)) <$> out.
Proof.
  induction 1 as [|[k c] items (x & z & Hkx & Hx & Hz) _ (out & E & ->)]; [by exists []|].
  cbn in Hkx. subst k. cbn [entries]. rewrite parse_key_key by done. cbn [rbind]. rewrite E. by exists (mkEntry x z c :: out).
Qed.

(** [getColumns] reads the coordinates of every column back from its key:
    it lists each loaded column once, under its coordinates, in the order of the
    map, and throws for none. *)
Theorem getColumns_loaded `{MapOrderLaws} {E} (w : BedrockWorld E) :
  keyed (columns_ w) ->
  exists out, getColumns w = Ok out /\
    NoDup ((fun entry => (chunkX entry, chunkZ entry)) <$> out) /\
    size out = columnCount w /\
    forall x z c, mkEntry x z c ∈ out <-> getLoadedColumn x z w = Some c.
Proof.
  intros Hk. unfold getColumns. pose proof (elements_perm _ (columns_ w)) as Hp.
  destruct (entries_ok (elements (columns_ w))) as (out & Eo & Hit).
  { rewrite Hp. apply Forall_forall. intros [k c] Hin%list_elem_of_In. apply elem_of_map_to_list in Hin. by apply (Hk k c). }
  rewrite Hit in Hp. exists out. split; [done|]. split_and!.
  - assert (NoDup (((fun entry => (key (chunkX entry) (chunkZ entry), column entry)) <$> out).*1)) as Hnd.
    { rewrite Hp. apply NoDup_fst_map_to_list. }
    rewrite <- list_fmap_compose in Hnd. apply (NoDup_fmap_1 (fun p => key p.1 p.2)).
    by rewrite <- list_fmap_compose.
  - unfold columnCount, size. rewrite <- (length_fmap (fun entry => (key (chunkX entry) (chunkZ entry), column entry)) out).
    rewrite Hp. by rewrite length_map_to_list.
  - intros x z c. unfold getLoadedColumn. rewrite <- elem_of_map_to_list, <- Hp, list_elem_of_fmap. split.
    + intros Hin. by exists (mkEntry x z c).
    + intros ([x' z' c'] & Hkey & Hin). injection Hkey as Hkey ->. by apply key_inj in Hkey as [-> ->].
Qed.

Lemma getColumns_loaded_witness (w := set_columns
    (<[key 3 (-4) := mkColumn 3 (-4) 0 1 0 16 16 0 [None] [] ∅ ∅ ∅ None]> ∅)
    (BedrockWorld.make (E := unit) (mkOptions None None None))) :
  exists out, getColumns w = Ok out /\ size out = 1 /\ exists c, mkEntry 3 (-4) c ∈ out.
Proof.
  destruct (getColumns_loaded w) as (out & Eo & _ & Hn & Hin).
  - intros k a Hk. unfold w in Hk. cbn [columns_ set_columns set_maps] in Hk. exists 3, (-4). apply lookup_insert_Some in Hk as [[<- _]|[_ Hk]]; [|done].
    split; [done|]. split; by apply (bool_decide_unpack _).
  - exists out. split; [exact Eo|]. split; [exact Hn|]. eexists. apply Hin. by vm_compute.
Defined.
