(* ===== verification/WorldState.v ===== *)
(** * The world's operations on its maps

    The exact effect of each operation of World.v on the three maps, the
    operations as steps, and the invariant of every reachable world, also after
    an exception. *)

From S2P Require Import Prelude MachineInt ZigZag GamePacket Text SubChunk ChunkColumn ColumnState World WorldKeys StreamState.
Import BedrockWorld BedrockChunkColumn.

Section World.
Context {E : Type} `{MapOrder}.
Implicit Types (w : BedrockWorld E) (e : E).

(** ** Effects *)

Definition with_column (x z : Z) (c : BedrockChunkColumn) w : BedrockWorld E :=
  set_columns (<[key x z := c]> (columns_ w)) w.
Definition queued (x z : Z) w : BedrockWorld E :=
  set_saving (<[key x z := (x, z)]> (savingQueue_ w)) w.
Definition leaving (x z : Z) w : BedrockWorld E :=
  set_unload (<[key x z := (x, z)]> (unloadQueue_ w)) w.
Definition forget (x z : Z) w : BedrockWorld E :=
  set_maps (delete (key x z) (columns_ w)) (delete (key x z) (savingQueue_ w))
    (delete (key x z) (unloadQueue_ w)) w.

Definition has_saver w : bool := negb (bool_decide (saveColumn (options_ w) = None)).

(** The caller's code leaves the world alone. *)
Lemma on_env_each {A} (l : list A) (f : A -> M E unit) w e :
  for_each l (fun a => on_env (f a)) (w, e) = on_env (for_each l f) (w, e).
Proof.
  revert e. induction l as [|a l IH]; intros e; [done|]. cbn [for_each].
  unfold bind, on_env at 1. cbn [fst snd]. destruct (f a e) as [[[]|x] e'] eqn:Ef.
  - rewrite IH. unfold on_env. cbn [fst snd]. by rewrite Ef.
  - unfold on_env. cbn [fst snd]. by rewrite Ef.
Qed.

Lemma queueSaving_eq x z w e :
  queueSaving x z (w, e) =
  (Ok tt, (if has_saver w && hasColumn x z w then queued x z w else w, e)).
Proof.
  unfold queueSaving, has_saver, bind, world, modify. cbn [fst snd].
  by case_bool_decide; cbn; destruct (hasColumn x z w).
Qed.

Lemma forceUnloadColumn_eq x z w e :
  forceUnloadColumn x z (w, e) =
  on_env (match columns_ w !! key x z with
          | Some c => for_each (unloadHandlers_ w) (fun handler => handler (mkEntry x z c))
          | None => ret tt
          end) (forget x z w, e).
Proof.
  unfold forceUnloadColumn, bind at 1, world. cbn [fst snd].
  destruct (columns_ w !! key x z) as [c|] eqn:Ec.
  - unfold bind, modify. cbn [fst snd]. rewrite on_env_each. done.
  - unfold bind, modify, on_env, ret, forget. cbn [fst snd].
    rewrite (delete_id (columns_ w)) by done. done.
Qed.

Lemma unloadColumn_eq x z w e :
  unloadColumn x z (w, e) =
  match columns_ w !! key x z, savingQueue_ w !! key x z with
  | None, _ => (Ok tt, (w, e))
  | Some _, Some _ => if has_saver w then (Ok tt, (leaving x z w, e)) else forceUnloadColumn x z (w, e)
  | Some _, None => forceUnloadColumn x z (w, e)
  end.
Proof.
  unfold unloadColumn, has_saver. unfold bind at 1, world. cbn [fst snd].
  destruct (columns_ w !! key x z); [|done]. destruct (savingQueue_ w !! key x z) eqn:Es.
  - rewrite (bool_decide_true (is_Some _)) by done. rewrite andb_true_r. by destruct (negb _).
  - rewrite (bool_decide_false (is_Some _)) by (intros [? ?]; done). by rewrite andb_false_r.
Qed.

Lemma setLoadedColumn_eq x z c save w e :
  setLoadedColumn x z c save (w, e) =
  (let w1 := with_column x z c w in
   match for_each (loadHandlers_ w) (fun handler => handler (mkEntry x z c)) e with
   | (Ok _, e') => (Ok tt, (if save && has_saver w then queued x z w1 else w1, e'))
   | (Throw t, e') => (Throw t, (w1, e'))
   end).
Proof.
  unfold setLoadedColumn. unfold bind, world, modify, lift. cbn [fst snd].
  fold (with_column x z c w). cbn [columns_ with_column set_columns set_maps].
  rewrite lookup_insert_eq. change (loadHandlers_ (with_column x z c w)) with (loadHandlers_ w).
  rewrite on_env_each. unfold on_env. cbn [fst snd].
  destruct (for_each _ _ e) as [[[]|t] e']; [|done].
  change (options_ (with_column x z c w)) with (options_ w). fold (has_saver w).
  destruct (save && has_saver w) eqn:Es; [|done]. rewrite queueSaving_eq.
  change (has_saver (with_column x z c w)) with (has_saver w).
  apply andb_true_iff in Es as [_ ->]. unfold hasColumn.
  cbn [columns_ with_column set_columns set_maps]. rewrite lookup_insert_eq. by rewrite bool_decide_true.
Qed.

(** The two places a column may come from; [true] when it is the storage. *)
Definition source_column (options : BedrockWorldOptions E) (x z : Z) : M E (option (BedrockChunkColumn * bool)) :=
  let* stored := match loadColumn options with Some load => load x z | None => ret None end in
  match stored, chunkGenerator options with
  | Some c, _ => ret (Some (c, true))
  | None, Some generate => let* c := generate x z in ret (Some (c, false))
  | None, None => ret None
  end.

Lemma getColumn_eq x z w e :
  getColumn x z (w, e) =
  match columns_ w !! key x z with
  | Some c => (Ok (Some c), (w, e))
  | None =>
      match source_column (options_ w) x z e with
      | (Throw t, e') => (Throw t, (w, e'))
      | (Ok None, e') => (Ok None, (w, e'))
      | (Ok (Some (c, stored)), e') =>
          match setLoadedColumn x z c (negb stored) (w, e') with
          | (Ok _, s') => (Ok (columns_ (fst s') !! key x z), s')
          | (Throw t, s') => (Throw t, s')
          end
      end
  end.
Proof.
  unfold getColumn, getLoadedColumn, source_column. unfold bind at 1, world at 1. cbn [fst].
  destruct (columns_ w !! key x z) as [c|]; [done|].
  unfold bind, on_env, ret, world. cbn [fst snd].
  destruct (loadColumn (options_ w)) as [load|].
  all: cbn [fst snd].
  1: destruct (load x z e) as [[[c|]|t] e1].
  all: rewrite ?(bool_decide_true (None = None)), ?(bool_decide_false (Some _ = None)) by done.
  all: try done; destruct (chunkGenerator (options_ w)) as [gen|]; try done; cbn [fst snd].
  1: destruct (gen x z e1) as [[c|t] e2]; done.
  destruct (gen x z e) as [[c|t] e2]; done.
Qed.

(** The handlers that [emitBlockUpdate] calls. *)
Definition listeners (pos : BlockPosition) w : list BlockUpdateHandler :=
  blockUpdateHandlers_ w ++ default [] (positionedBlockUpdateHandlers_ w !! blockKey pos).

Lemma emitBlockUpdate_eq old new w e :
  emitBlockUpdate old new (w, e) =
  on_env (for_each (listeners (position new) w) (fun handler => handler old new)) (w, e).
Proof.
  unfold emitBlockUpdate, listeners. unfold bind at 1, world at 1. cbn [fst]. unfold bind at 1.
  rewrite on_env_each. unfold on_env at 1 3. cbn [fst snd]. rewrite for_each_app.
  unfold bind at 2. destruct (for_each _ _ e) as [[[]|t] e1]; [|done].
  unfold bind, world. cbn [fst snd].
  destruct (positionedBlockUpdateHandlers_ w !! blockKey (position new)) as [handlers|]; [|done].
  cbn [default]. by rewrite on_env_each.
Qed.

Lemma update_block_eq pos f w e :
  update_block pos f (w, e) =
  match chunkCoord (px pos), chunkCoord (pz pos) with
  | Throw t, _ => (Throw t, (w, e))
  | Ok _, Throw t => (Throw t, (w, e))
  | Ok x, Ok z =>
      match columns_ w !! key x z with
      | None => (Ok tt, (w, e))
      | Some c =>
          match column_snapshot pos c, f c with
          | Throw t, _ => (Throw t, (w, e))
          | Ok _, (Throw t, c') => (Throw t, (with_column x z c' w, e))
          | Ok old, (Ok _, c') =>
              let w1 := with_column x z c' w in
              let w2 := if has_saver w then queued x z w1 else w1 in
              match column_snapshot pos c' with
              | Throw t => (Throw t, (w2, e))
              | Ok new => on_env (for_each (listeners pos w) (fun handler => handler old new)) (w2, e)
              end
          end
      end
  end.
Proof.
  unfold update_block, getBlock, getLoadedColumnAt, getLoadedColumn. unfold bind at 1, world at 1. cbn [fst].
  destruct (chunkCoord (px pos)) as [x|t] eqn:Ex; [|done].
  destruct (chunkCoord (pz pos)) as [z|t] eqn:Ez; [|done]. cbn [rbind]. rewrite bind_lift.
  destruct (columns_ w !! key x z) as [c|] eqn:Ec; [|done]. rewrite !bind_lift.
  destruct (column_snapshot pos c) as [old|t]; [|done]. cbn [rbind]. rewrite bind_lift.
  unfold bind at 1, on_column. cbn [fst snd]. rewrite Ec.
  destruct (f c) as [[[]|t] c']; [|done]. fold (with_column x z c' w).
  unfold bind at 1, saveAt. rewrite Ex, Ez, !bind_lift, queueSaving_eq.
  change (has_saver (with_column x z c' w)) with (has_saver w).
  assert (hasColumn x z (with_column x z c' w) = true) as ->.
  { unfold hasColumn, with_column, set_columns. cbn. rewrite lookup_insert_eq. by apply bool_decide_true. }
  rewrite andb_true_r. set (w2 := if has_saver w then _ else _).
  assert (columns_ w2 !! key x z = Some c') as E2.
  { unfold w2. destruct (has_saver w); cbn; by rewrite lookup_insert_eq. }
  unfold bind at 1, world. cbn [fst]. rewrite E2.
  destruct (column_snapshot pos c') as [new|t] eqn:En; [|done]. cbn [rbind deref]. rewrite !bind_lift.
  cbn [deref]. rewrite bind_lift, emitBlockUpdate_eq.
  assert (position new = pos) as ->.
  { unfold column_snapshot in En. repeat apply rbind_inv_ok in En as (? & _ & En). case_match; [|by injection En as <-].
    repeat apply rbind_inv_ok in En as (? & _ & En). by injection En as <-. }
  unfold w2. by destruct (has_saver w).
Qed.
End World.
