(* ===== verification/WorldInvariant.v ===== *)
(** * Steps and invariant of the world

    What [saveNow] does to the maps, the operations of the world as steps, and
    the properties of every world that can be reached: keys and queues agree
    with the columns, and an unload that was put off happens at the next save. *)

From S2P Require Import Prelude MachineInt ZigZag GamePacket Text SubChunk ChunkColumn ColumnState World WorldKeys WorldState StreamState.
Import BedrockWorld BedrockChunkColumn.

Section World.
Context {E : Type} `{MapOrderLaws}.
Implicit Types (w : BedrockWorld E) (e : E).

(** ** Saving and unloading *)

(** A property [D] of the environment that every call of a list keeps. *)
Lemma each_ends {A} (D X : E -> Prop) (l : list A) (f : A -> M E unit) e :
  (forall a e', a ∈ l -> D e' -> ends (f a) e' (fun _ => D) X) -> D e ->
  ends (for_each l f) e (fun _ => D) X.
Proof.
  revert e. induction l as [|a l IH]; intros e Hf He; [done|]. cbn [for_each].
  eapply ends_bind; [apply Hf; [by left|done]|]. cbv beta. intros [] e' He'. apply IH; [|done].
  intros b e2 Hb. apply Hf. by right.
Qed.

Definition save_one w (save : Z -> Z -> BedrockChunkColumn -> M E unit) (item : string * (Z * Z)) : M E unit :=
  match columns_ w !! item.1 with
  | None => ret tt
  | Some c => save item.2.1 item.2.2 c
  end.

Lemma save_items_eq w save items e :
  for_each items (save_item save) (w, e) = on_env (for_each items (save_one w save)) (w, e).
Proof.
  assert (forall item e, save_item save item (w, e) = on_env (save_one w save item) (w, e)) as Hi.
  { intros item e'. unfold save_item, save_one, bind, world, on_env. cbn [fst snd].
    by destruct (columns_ w !! item.1). }
  revert e. induction items as [|item items IH]; intros e; [done|]. cbn [for_each]. unfold bind.
  rewrite Hi. unfold on_env. cbn [fst snd]. destruct (save_one w save item e) as [[[]|t] e']; [|done].
  exact (IH e').
Qed.

Lemma erase_items_eq items w e :
  exists m, for_each items (fun item : string * (Z * Z) =>
    modify (fun w => set_saving (delete item.1 (savingQueue_ w)) w)) (w, e) = (Ok tt, (set_saving m w, e)) /\
  forall k, m !! k = if decide (k ∈ items.*1) then None else savingQueue_ w !! k.
Proof.
  revert w. induction items as [|item items IH]; intros w.
  { exists (savingQueue_ w). split; [by destruct w|]. intros k. by rewrite decide_False by apply not_elem_of_nil. }
  cbn [for_each]. unfold bind, modify. cbn [fst snd].
  destruct (IH (set_saving (delete item.1 (savingQueue_ w)) w)) as (m & Em & Hm). exists m. split; [exact Em|].
  intros k. rewrite Hm. cbn [savingQueue_ set_saving set_maps]. cbn [fmap list_fmap].
  destruct (decide (k = item.1)) as [->|Hne].
  - rewrite lookup_delete_eq. rewrite (decide_True (P := item.1 ∈ item.1 :: _)) by (by left). by case_decide.
  - rewrite lookup_delete_ne by done. apply decide_ext. split; [by right|].
    by intros [->|?]%elem_of_cons.
Qed.

Lemma saveNow_eq w e :
  saveNow (w, e) =
  match saveColumn (options_ w) with
  | None => (Ok tt, (w, e))
  | Some save =>
      if bool_decide (savingQueue_ w = ∅) then (Ok tt, (w, e))
      else
        match for_each (elements (savingQueue_ w)) (save_one w save) e with
        | (Throw t, e1) => (Throw t, (w, e1))
        | (Ok _, e1) =>
            (for_each (elements (unloadQueue_ w)) (fun item => forceUnloadColumn item.2.1 item.2.2) ;;;
             let* w2 := world in
             for_each (doneSavingHandlers_ w2) on_env) (set_saving ∅ w, e1)
        end
  end.
Proof.
  unfold saveNow. unfold bind at 1, world at 1. cbn [fst].
  destruct (saveColumn (options_ w)) as [save|]; [|done]. case_bool_decide; [done|].
  unfold bind at 1. rewrite save_items_eq. unfold on_env at 1. cbn [fst snd].
  destruct (for_each _ (save_one w save) e) as [[[]|t] e1]; [|done].
  destruct (erase_items_eq (elements (savingQueue_ w)) w e1) as (m & Em & Hm).
  rewrite (bind_ok _ _ _ _ _ Em). assert (m = ∅) as ->; [|done].
  apply map_eq. intros k. rewrite Hm, lookup_empty. case_decide as Hk; [done|].
  apply eq_None_not_Some. intros [p Hp]. apply Hk. rewrite (elements_perm _ (savingQueue_ w)).
  apply list_elem_of_fmap. exists (k, p). split; [done|]. by apply elem_of_map_to_list.
Qed.

Definition forget_all (items : list (string * (Z * Z))) w : BedrockWorld E :=
  foldl (fun w item => forget item.2.1 item.2.2 w) w items.
Definition item_keys (items : list (string * (Z * Z))) : list string :=
  (fun item => key item.2.1 item.2.2) <$> items.

(** The maps after a list of unloads; the rest of the world does not change. *)
Lemma forget_all_spec items : forall w,
  let w' := forget_all items w in
  w' = set_maps (columns_ w') (savingQueue_ w') (unloadQueue_ w') w /\
  (forall k, columns_ w' !! k = if decide (k ∈ item_keys items) then None else columns_ w !! k) /\
  (forall k, savingQueue_ w' !! k = if decide (k ∈ item_keys items) then None else savingQueue_ w !! k) /\
  (forall k, unloadQueue_ w' !! k = if decide (k ∈ item_keys items) then None else unloadQueue_ w !! k).
Proof.
  induction items as [|item items IH]; intros w; cbv zeta.
  { split; [by destruct w|]. by split_and!; intros k; rewrite decide_False by apply not_elem_of_nil. }
  destruct (IH (forget item.2.1 item.2.2 w)) as (Hw & Hc & Hs & Hu).
  change (forget_all (item :: items) w) with (forget_all items (forget item.2.1 item.2.2 w)).
  set (w' := forget_all items _) in *. split; [exact Hw|].
  assert (forall {A} (m m1 : gmap string A), (forall k, m !! k =
    if decide (k ∈ item_keys items) then None else delete (key item.2.1 item.2.2) m1 !! k) ->
    forall k, m !! k = if decide (k ∈ item_keys (item :: items)) then None else m1 !! k) as Hl.
  { intros A m m1 Hm k. rewrite Hm. unfold item_keys. cbn [fmap list_fmap].
    destruct (decide (k = key item.2.1 item.2.2)) as [->|Hne].
    - rewrite lookup_delete_eq. rewrite (decide_True (P := _ ∈ _ :: _)) by (by left). by case_decide.
    - rewrite lookup_delete_ne by done. apply decide_ext. split; [by right|]. by intros [->|?]%elem_of_cons. }
  split_and!; [exact (Hl _ _ _ Hc)|exact (Hl _ _ _ Hs)|exact (Hl _ _ _ Hu)].
Qed.

(** A list of unloads: the handlers keep [D] or leave by an exception, after
    some of the unloads. *)
Lemma unload_all_ends (D X : E -> Prop) items w e :
  (forall handler entry e', handler ∈ unloadHandlers_ w -> D e' -> ends (handler entry) e' (fun _ => D) X) ->
  D e ->
  ends (for_each items (fun item : string * (Z * Z) => forceUnloadColumn item.2.1 item.2.2)) (w, e)
    (fun _ s => fst s = forget_all items w /\ D (snd s))
    (fun s => (exists n, fst s = forget_all (take n items) w) /\ X (snd s)).
Proof.
  revert w e. induction items as [|item items IH]; intros w e Hh He; [done|]. cbn [for_each].
  eapply (ends_bind _ _ _ (fun _ s => fst s = forget item.2.1 item.2.2 w /\ D (snd s))).
  - unfold ends. rewrite forceUnloadColumn_eq. unfold on_env. cbn [fst snd].
    set (calls := match columns_ w !! _ with Some _ => _ | None => _ end).
    assert (ends calls e (fun _ => D) X) as Hcalls.
    { unfold calls. destruct (columns_ w !! _) as [c|]; [|done].
      apply (each_ends D X); [|done]. intros h e' Hin. by apply Hh. }
    unfold ends in Hcalls. destruct (calls e) as [[[]|t] e'] eqn:Ecalls; [done|].
    split; [|done]. by exists 1%nat.
  - cbv beta. intros [] [w' e'] [Hw' He']. cbn [fst snd] in *. subst w'.
    eapply ends_mono; [apply IH; [exact Hh|exact He']|done|]. cbv beta.
    intros [w2 e2] [[n Hn] Hx]. split; [|done]. by exists (S n).
Qed.

(** ** Steps *)

Inductive world_op : Type :=
| OnColumnLoad (handler : ColumnHandler (E := E))
| OnColumnUnload (handler : ColumnHandler (E := E))
| OnBlockUpdate (handler : BlockUpdateHandler (E := E))
| OnBlockUpdateAt (pos : BlockPosition) (handler : BlockUpdateHandler (E := E))
| OnDoneSaving (handler : VoidHandler (E := E))
| GetColumn (x z : Z)
| SetColumn (x z : Z) (c : BedrockChunkColumn) (save : bool)
| UnloadColumn (x z : Z)
| QueueSaving (x z : Z)
| SaveAt (pos : BlockPosition)
| SaveNow
| UpdateBlock (pos : BlockPosition) (f : M BedrockChunkColumn unit).

Definition run (op : world_op) : M (BedrockWorld E * E) unit :=
  match op with
  | OnColumnLoad h => onColumnLoad h
  | OnColumnUnload h => onColumnUnload h
  | OnBlockUpdate h => onBlockUpdate h
  | OnBlockUpdateAt pos h => onBlockUpdate_at pos h
  | OnDoneSaving h => onDoneSaving h
  | GetColumn x z => let* _ := getColumn x z in ret tt
  | SetColumn x z c save => setColumn x z c save
  | UnloadColumn x z => unloadColumn x z
  | QueueSaving x z => queueSaving x z
  | SaveAt pos => saveAt pos
  | SaveNow => saveNow
  | UpdateBlock pos f => update_block pos f
  end.

(** Coordinates are int32_t. *)
Definition op_typed (op : world_op) : Prop :=
  match op with
  | GetColumn x z | SetColumn x z _ _ | UnloadColumn x z | QueueSaving x z => is_s 32 x /\ is_s 32 z
  | SaveAt pos | UpdateBlock pos _ => is_s 32 (px pos) /\ is_s 32 (pz pos)
  | _ => True
  end.

(** A world in use: operations that return, and operations that throw. *)
Inductive reachable : BedrockWorld E * E -> Prop :=
| reach_new options e : reachable (BedrockWorld.make options, e)
| reach_step s op r s' : reachable s -> op_typed op -> run op s = (r, s') -> reachable s'.

(** ** The invariant *)

Definition queue_ok (columns : gmap string BedrockChunkColumn) (queue : gmap string (Z * Z)) : Prop :=
  forall k p, queue !! k = Some p -> k = key p.1 p.2 /\ is_Some (columns !! k).

Record world_ok w : Prop := mkWorldOk {
  ok_keys : keyed (columns_ w);
  ok_saving : queue_ok (columns_ w) (savingQueue_ w);
  ok_unload : queue_ok (columns_ w) (unloadQueue_ w);
  ok_no_saver : has_saver w = false -> savingQueue_ w = ∅ /\ unloadQueue_ w = ∅
}.

Lemma with_column_ok x z c w :
  world_ok w -> is_s 32 x -> is_s 32 z -> world_ok (with_column x z c w).
Proof.
  intros [Hk Hs Hu Hn] Hx Hz. split; cbn [with_column set_columns set_maps columns_ savingQueue_ unloadQueue_]; [| | |done].
  - intros k a Hk'. destruct (decide (k = key x z)) as [->|Hne]; [by exists x, z|].
    rewrite lookup_insert_ne in Hk' by done. by apply (Hk k a).
  - intros k p Hp. destruct (Hs k p Hp) as [-> Hc]. split; [done|]. by apply lookup_insert_is_Some'; right.
  - intros k p Hp. destruct (Hu k p Hp) as [-> Hc]. split; [done|]. by apply lookup_insert_is_Some'; right.
Qed.

Lemma queue_ok_insert columns queue x z :
  queue_ok columns queue -> is_Some (columns !! key x z) -> queue_ok columns (<[key x z := (x, z)]> queue).
Proof.
  intros Hq Hc k p. destruct (decide (k = key x z)) as [->|Hne].
  - rewrite lookup_insert_eq. by intros [= <-].
  - rewrite lookup_insert_ne by done. apply Hq.
Qed.

Lemma queue_ok_delete columns queue k :
  queue_ok columns queue -> queue_ok (delete k columns) (delete k queue).
Proof.
  intros Hq k' p Hp. apply lookup_delete_Some in Hp as [Hne Hp]. destruct (Hq k' p Hp) as [-> Hc].
  split; [done|]. by rewrite lookup_delete_ne.
Qed.

Lemma queued_ok x z w :
  world_ok w -> has_saver w = true -> is_Some (columns_ w !! key x z) -> world_ok (queued x z w).
Proof.
  intros [Hk Hs Hu Hn] Hsv Hc. split; cbn [queued set_saving set_maps columns_ savingQueue_ unloadQueue_]; [done| |done|].
  - by apply queue_ok_insert.
  - change (has_saver (queued x z w)) with (has_saver w). congruence.
Qed.

Lemma leaving_ok x z w :
  world_ok w -> has_saver w = true -> is_Some (columns_ w !! key x z) -> world_ok (leaving x z w).
Proof.
  intros [Hk Hs Hu Hn] Hsv Hc. split; cbn [leaving set_unload set_maps columns_ savingQueue_ unloadQueue_]; [done|done| |].
  - by apply queue_ok_insert.
  - change (has_saver (leaving x z w)) with (has_saver w). congruence.
Qed.

Lemma forget_ok x z w : world_ok w -> world_ok (forget x z w).
Proof.
  intros [Hk Hs Hu Hn]. split; cbn [forget set_maps columns_ savingQueue_ unloadQueue_].
  - intros k a Hd. apply lookup_delete_Some in Hd as [_ Hd]. by apply (Hk k a).
  - by apply queue_ok_delete.
  - by apply queue_ok_delete.
  - intros Hsv. destruct (Hn Hsv) as [-> ->]. by rewrite !delete_empty.
Qed.

Lemma forget_all_ok items w : world_ok w -> world_ok (forget_all items w).
Proof. revert w. induction items as [|item items IH]; intros w Hw; [done|]. by apply IH, forget_ok. Qed.

Lemma saved_ok w : world_ok w -> world_ok (set_saving ∅ w).
Proof. intros [Hk Hs Hu Hn]. split; [done|by intros k p|done|]. intros Hsv. by destruct (Hn Hsv). Qed.

Lemma ends_any {S A} (m : M S A) s : ends m s (fun _ _ => True) (fun _ => True).
Proof. unfold ends. by destruct (m s) as [[]]. Qed.

(** The caller's code cannot break the invariant. *)
Lemma on_env_ends {A} (m : M E A) w e (P : BedrockWorld E -> Prop) :
  P w -> ends (on_env m) (w, e) (fun _ s => P (fst s)) (fun s => P (fst s)).
Proof. intros HP. unfold ends, on_env. cbn [fst snd]. by destruct (m e) as [[]]. Qed.

(** Every way out keeps the invariant. *)
Abbreviation stays m s := (ends m s (fun _ s' => world_ok (fst s')) (fun s' => world_ok (fst s'))).

Lemma forceUnload_stays x z w e : world_ok w -> stays (forceUnloadColumn x z) (w, e).
Proof.
  intros Hw. unfold ends. rewrite forceUnloadColumn_eq. apply (on_env_ends _ _ _ world_ok). by apply forget_ok.
Qed.

Lemma setLoaded_stays x z c save w e :
  world_ok w -> is_s 32 x -> is_s 32 z -> stays (setLoadedColumn x z c save) (w, e).
Proof.
  intros Hw Hx Hz. unfold ends. rewrite setLoadedColumn_eq. cbv zeta.
  pose proof (with_column_ok x z c w Hw Hx Hz) as H1.
  destruct (for_each _ _ e) as [[[]|t] e']; [|done]. cbn [fst].
  destruct (save && has_saver w) eqn:Es; [|done]. apply andb_true_iff in Es as [_ Es].
  apply queued_ok; [done|done|]. cbn. rewrite lookup_insert_eq. by eexists.
Qed.

Lemma queueSaving_stays x z w e : world_ok w -> stays (queueSaving x z) (w, e).
Proof.
  intros Hw. unfold ends. rewrite queueSaving_eq. cbn [fst].
  destruct (has_saver w && hasColumn x z w) eqn:Eq; [|done]. apply andb_true_iff in Eq as [Es Ec].
  apply queued_ok; [done|done|]. by apply bool_decide_eq_true in Ec.
Qed.

Lemma unload_stays x z w e : world_ok w -> stays (unloadColumn x z) (w, e).
Proof.
  intros Hw. unfold ends. rewrite unloadColumn_eq.
  destruct (columns_ w !! key x z) as [c|] eqn:Ec; [|done].
  destruct (savingQueue_ w !! key x z); [|by apply forceUnload_stays].
  destruct (has_saver w) eqn:Es; [|by apply forceUnload_stays].
  apply leaving_ok; [done|done|]. by rewrite Ec.
Qed.

Lemma getColumn_stays x z w e :
  world_ok w -> is_s 32 x -> is_s 32 z -> stays (getColumn x z) (w, e).
Proof.
  intros Hw Hx Hz. unfold ends. rewrite getColumn_eq. destruct (columns_ w !! key x z); [done|].
  destruct (source_column (options_ w) x z e) as [[[[c stored]|]|t] e']; [|done|done].
  pose proof (setLoaded_stays x z c (negb stored) w e' Hw Hx Hz) as Hs. unfold ends in Hs.
  by destruct (setLoadedColumn x z c (negb stored) (w, e')) as [[] s'].
Qed.

Lemma saveNow_stays w e : world_ok w -> stays saveNow (w, e).
Proof.
  intros Hw. unfold ends. rewrite saveNow_eq. destruct (saveColumn (options_ w)) as [save|]; [|done].
  case_bool_decide; [done|]. destruct (for_each _ _ e) as [[[]|t] e1]; [|done].
  apply saved_ok in Hw. revert Hw. generalize (set_saving ∅ w). intros w1 Hw.
  eapply (ends_bind _ _ _ (fun _ s => world_ok (fst s))).
  - eapply ends_mono; [apply (unload_all_ends (fun _ => True) (fun _ => True)); [|exact I]| |]; cbv beta.
    + intros. apply ends_any.
    + intros _ s [-> _]. by apply forget_all_ok.
    + intros s [[n ->] _]. by apply forget_all_ok.
  - cbv beta. intros [] [w2 e2] Hw2. unfold ends, bind, world. cbn [fst].
    rewrite on_env_each. by apply (on_env_ends _ _ _ world_ok).
Qed.

(** A chunk coordinate of a block is an int32_t. *)
Lemma chunkCoord_typed b x : is_s 32 b -> chunkCoord b = Ok x -> is_s 32 x.
Proof.
  unfold chunkCoord, i32, is_s. change (2 ^ (32 - 1)) with 2147483648. intros Hb.
  destruct (Z.geb_spec b 0).
  - intros [= <-]. rewrite Z.quot_div_nonneg by lia.
    split; [apply Z.div_le_lower_bound; lia|apply Z.div_lt_upper_bound; lia].
  - case_bool_decide; [|done]. cbn [rbind]. case_bool_decide as Hsum; [|done]. intros [= <-].
    rewrite Z.quot_div_nonneg by lia.
    assert (0 <= (- b + 15) / 16 < 2147483648); [|lia].
    split; [apply Z.div_le_lower_bound; lia|apply Z.div_lt_upper_bound; lia].
Qed.

Lemma update_stays pos f w e :
  world_ok w -> is_s 32 (px pos) -> is_s 32 (pz pos) -> stays (update_block pos f) (w, e).
Proof.
  intros Hw Hx Hz. unfold ends. rewrite update_block_eq.
  destruct (chunkCoord (px pos)) as [x|] eqn:Ex; [|done]. destruct (chunkCoord (pz pos)) as [z|] eqn:Ez; [|done].
  apply chunkCoord_typed in Ex, Ez; [|done..].
  destruct (columns_ w !! key x z) as [c|]; [|done]. destruct (column_snapshot pos c); [|done].
  destruct (f c) as [[[]|t] c']; [|by apply with_column_ok]. cbv zeta.
  set (w2 := if has_saver w then _ else _). assert (world_ok w2) as Hw2.
  { pose proof (with_column_ok x z c' w Hw Ex Ez) as H1. unfold w2. destruct (has_saver w) eqn:Es; [|done].
    apply queued_ok; [done|done|]. cbn. rewrite lookup_insert_eq. by eexists. }
  destruct (column_snapshot pos c'); [|done]. by apply (on_env_ends _ _ _ world_ok).
Qed.

Lemma run_stays op w e : world_ok w -> op_typed op -> stays (run op) (w, e).
Proof.
  intros Hw Ht. destruct op; cbn [run op_typed] in *; try (by destruct Hw; split).
  - eapply ends_bind; [apply getColumn_stays; tauto|]. by intros [c|] [w' e'].
  - destruct Ht. by apply setLoaded_stays.
  - by apply unload_stays.
  - by apply queueSaving_stays.
  - unfold saveAt. destruct (chunkCoord (px pos)) as [x|], (chunkCoord (pz pos)) as [z|]; try done.
    unfold ends. rewrite !bind_lift. by apply queueSaving_stays.
  - by apply saveNow_stays.
  - destruct Ht. by apply update_stays.
Qed.

Lemma reachable_ok s : reachable s -> world_ok (fst s).
Proof.
  induction 1 as [options e|[w e] op r s' _ IH Ht Er].
  - split; cbn; try (by intros k a Hk); done.
  - pose proof (run_stays op w e IH Ht) as Hs. unfold ends in Hs. rewrite Er in Hs. by destruct r.
Qed.

(** C18: in every reachable world, after returns and exceptions alike, each
    column sits under the key of its 32-bit coordinates; each queued entry sits
    under its own key and names a loaded column, so that no queue outgrows the
    world; without a saver nothing is queued. *)
Theorem world_keys w e :
  reachable (w, e) ->
  keyed (columns_ w) /\
  (forall k x z, savingQueue_ w !! k = Some (x, z) \/ unloadQueue_ w !! k = Some (x, z) ->
     k = key x z /\ hasColumn x z w = true) /\
  (saveColumn (options_ w) = None -> savingQueueSize w = 0 /\ unloadQueueSize w = 0) /\
  savingQueueSize w <= columnCount w /\ unloadQueueSize w <= columnCount w.
Proof.
  intros Hr%reachable_ok. destruct Hr as [Hk Hs Hu Hn]. cbn [fst] in *. split_and!.
  - exact Hk.
  - intros k x z Hq. unfold hasColumn. destruct Hq as [Hq|Hq]; [apply Hs in Hq|apply Hu in Hq].
    all: destruct Hq as [-> Hc]; split; [done|by apply bool_decide_true].
  - intros E0. unfold savingQueueSize, unloadQueueSize. destruct Hn as [-> ->]; [|done].
    unfold has_saver. by rewrite E0.
  - apply inj_le. rewrite <- !size_dom. apply subseteq_size. intros k [p Hp]%elem_of_dom.
    apply elem_of_dom. by apply (Hs k p).
  - apply inj_le. rewrite <- !size_dom. apply subseteq_size. intros k [p Hp]%elem_of_dom.
    apply elem_of_dom. by apply (Hu k p).
Qed.

(** ** What a save leaves *)

Record saved w (w' : BedrockWorld E) : Prop := mkSaved {
  saved_rest : w' = set_maps (columns_ w') ∅ ∅ w;
  saved_columns k : columns_ w' !! k = if decide (is_Some (unloadQueue_ w !! k)) then None else columns_ w !! k
}.

Lemma saveNow_ends (D X : E -> Prop) w e :
  world_ok w -> (savingQueue_ w = ∅ -> D e) ->
  (forall save, saveColumn (options_ w) = Some save ->
     ends (for_each (elements (savingQueue_ w)) (save_one w save)) e (fun _ => D) X) ->
  (forall handler entry e', handler ∈ unloadHandlers_ w -> D e' -> ends (handler entry) e' (fun _ => D) X) ->
  (forall handler e', handler ∈ doneSavingHandlers_ w -> D e' -> ends handler e' (fun _ => D) X) ->
  ends saveNow (w, e)
    (fun _ s => (if bool_decide (savingQueue_ w = ∅) then fst s = w else saved w (fst s)) /\ D (snd s))
    (fun s => X (snd s)).
Proof.
  intros Hw He Hsave Hunload Hdone. unfold ends. rewrite saveNow_eq.
  destruct (saveColumn (options_ w)) as [save|] eqn:Esave.
  2:{ destruct (ok_no_saver w Hw) as [Hq _]; [unfold has_saver; by rewrite Esave|].
      rewrite bool_decide_true by done. split; [done|]. by apply He. }
  case_bool_decide as Hq; [split; [done|by apply He]|]. specialize (Hsave save eq_refl). unfold ends in Hsave.
  destruct (for_each _ (save_one w save) e) as [[[]|t] e1]; [|done].
  set (items := elements (unloadQueue_ w)).
  eapply (ends_bind _ _ _ (fun _ s => fst s = forget_all items (set_saving ∅ w) /\ D (snd s))).
  { eapply ends_mono; [by apply (unload_all_ends D X)|done|]. cbv beta. by intros s [_ Hx]. }
  cbv beta. intros [] [w2 e2] [Hw2 He2]. cbn [fst snd] in Hw2, He2. unfold ends, bind, world. cbn [fst].
  destruct (forget_all_spec items (set_saving ∅ w)) as (Hr & Hc & Hs & Hu). rewrite <- Hw2 in *.
  rewrite on_env_each. unfold on_env. cbn [fst snd].
  assert (doneSavingHandlers_ w2 = doneSavingHandlers_ w) as -> by (by rewrite Hr).
  pose proof (each_ends D X (doneSavingHandlers_ w) id e2 Hdone He2) as Hd. unfold ends in Hd.
  change (for_each (doneSavingHandlers_ w) (fun a => a)) with (for_each (doneSavingHandlers_ w) id).
  destruct (for_each (doneSavingHandlers_ w) id e2) as [[[]|t] e3]; [|done]. split; [|done].
  assert (forall k, k ∈ item_keys items <-> is_Some (unloadQueue_ w !! k)) as Hin.
  { intros k. unfold item_keys, items. rewrite (elements_perm _ (unloadQueue_ w)), list_elem_of_fmap. split.
    - intros ([k' p] & -> & Hp%elem_of_map_to_list). destruct (ok_unload w Hw k' p Hp) as [-> _]. by exists p.
    - intros [p Hp]. exists (k, p). split; [by destruct (ok_unload w Hw k p Hp)|by apply elem_of_map_to_list]. }
  split.
  - cbn [fst]. rewrite Hr at 1.
    assert (savingQueue_ w2 = ∅) as -> by (apply map_eq; intros k; rewrite Hs; by case_decide).
    assert (unloadQueue_ w2 = ∅) as ->; [|done].
    apply map_eq. intros k. rewrite Hu, lookup_empty. case_decide as Hk; [done|]. rewrite Hin in Hk.
    by apply eq_None_not_Some.
  - intros k. cbn [fst]. rewrite Hc. by apply decide_ext.
Qed.
End World.

Lemma world_keys_witness (w := with_column 3 4 (mkColumn 3 4 0 1 0 16 16 0 [None] [] ∅ ∅ ∅ None)
    (BedrockWorld.make (E := unit) (mkOptions None None None))) :
  reachable (w, tt) /\ savingQueueSize w <= columnCount w.
Proof.
  assert (reachable (w, tt)) as Hr.
  { eapply (reach_step _ (SetColumn 3 4 _ true)); [apply (reach_new (mkOptions None None None) tt)| |by vm_compute].
    split; by apply (bool_decide_unpack _). }
  split; [exact Hr|]. by destruct (world_keys w tt Hr) as (_ & _ & _ & Hn & _).
Defined.
