(* ===== verification/WorldUnload.v ===== *)
(** * Unloads that are put off

    [unloadColumn] leaves a column with unsaved changes in place; the column
    goes with the next save.  What can go wrong is an unload handler that
    throws in the middle of it. *)

From S2P Require Import Prelude MachineInt ZigZag GamePacket Text SubChunk ChunkColumn ColumnState World WorldKeys WorldState WorldInvariant StreamState.
Import BedrockWorld BedrockChunkColumn.

Section World.
Context {E : Type} `{MapOrderLaws}.
Implicit Types (w : BedrockWorld E) (e : E).

(** A column waits to be unloaded only while it waits to be saved. *)
Definition deferred w : Prop :=
  forall k, is_Some (unloadQueue_ w !! k) -> is_Some (savingQueue_ w !! k).

(** The column is not loaded, or waits to be unloaded. *)
Definition settled (k : string) w : Prop := columns_ w !! k = None \/ is_Some (unloadQueue_ w !! k).

(** What an operation that does not load column [k] does to both. *)
Definition settles (k : string) w w' : Prop :=
  (deferred w -> deferred w') /\ (deferred w -> settled k w -> settled k w').

Lemma settles_refl k w : settles k w w.
Proof. by split. Qed.
Lemma settles_maps k w w' : columns_ w' = columns_ w -> savingQueue_ w' = savingQueue_ w ->
  unloadQueue_ w' = unloadQueue_ w -> settles k w w'.
Proof. unfold settles, deferred, settled. by intros -> -> ->. Qed.
Lemma settles_trans k w1 w2 w3 : settles k w1 w2 -> settles k w2 w3 -> settles k w1 w3.
Proof. intros [D1 S1] [D2 S2]. split; auto. Qed.

Lemma settles_with_column k x z c w :
  key x z <> k \/ is_Some (columns_ w !! key x z) -> settles k w (with_column x z c w).
Proof.
  intros Hk. split; [done|]. intros _ [Hn|Hs]; [|by right]. left. cbn.
  destruct Hk as [Hne|[c' Hc]]; [by rewrite lookup_insert_ne|].
  rewrite lookup_insert_ne; [done|]. congruence.
Qed.

Lemma settles_queued k x z w : settles k w (queued x z w).
Proof.
  split; [|done]. intros Hd k' Hk'. cbn. apply lookup_insert_is_Some'. right. by apply Hd.
Qed.

Lemma settles_leaving k x z w : is_Some (savingQueue_ w !! key x z) -> settles k w (leaving x z w).
Proof.
  intros Hs. split.
  - intros Hd k' Hk'. cbn in *. destruct (decide (k' = key x z)) as [->|Hne]; [done|].
    rewrite lookup_insert_ne in Hk' by done. by apply Hd.
  - intros _ [Hn|Hu]; [by left|]. right. apply lookup_insert_is_Some'. by right.
Qed.

Lemma settles_forget k x z w : settles k w (forget x z w).
Proof.
  split.
  - intros Hd k' Hk'. cbn in *. destruct (decide (k' = key x z)) as [->|Hne].
    + rewrite lookup_delete_eq in Hk'. by destruct Hk'.
    + rewrite lookup_delete_ne in * by done. by apply Hd.
  - intros _ Hs. unfold settled. cbn. destruct (decide (k = key x z)) as [->|Hne].
    + left. apply lookup_delete_eq.
    + by rewrite !lookup_delete_ne by done.
Qed.

Lemma settles_saved k w w' : saved w w' -> settles k w w' /\ (settled k w -> columns_ w' !! k = None).
Proof.
  intros [Hr Hc]. assert (settled k w -> columns_ w' !! k = None) as Hgone.
  { intros Hs. rewrite Hc. case_decide; [done|]. by destruct Hs. }
  split; [|done]. split.
  - intros _ k' Hk'. rewrite Hr in Hk'. by destruct Hk'.
  - intros _ Hs. left. by apply Hgone.
Qed.

(** Operations that may bring column [k] in. *)
Definition loads (k : string) (op : world_op (E := E)) : bool :=
  match op with
  | GetColumn x z | SetColumn x z _ _ => bool_decide (key x z = k)
  | _ => false
  end.

Lemma forceUnload_settles k x z w e : ends (forceUnloadColumn x z) (w, e) (fun _ s => settles k w (fst s)) (fun _ => True).
Proof.
  unfold ends. rewrite forceUnloadColumn_eq. unfold on_env. cbn [fst snd].
  destruct (_ e) as [[[]|t] e']; [|done]. apply settles_forget.
Qed.

Lemma setLoaded_settles k x z c save w e : key x z <> k ->
  ends (setLoadedColumn x z c save) (w, e) (fun _ s => settles k w (fst s)) (fun _ => True).
Proof.
  intros Hk. unfold ends. rewrite setLoadedColumn_eq. cbv zeta. destruct (for_each _ _ e) as [[[]|t] e']; [|done].
  cbn [fst]. pose proof (settles_with_column k x z c w (or_introl Hk)). destruct (save && has_saver w); [|done].
  eapply settles_trans; [done|]. apply settles_queued.
Qed.

Lemma saveNow_settles k w e : world_ok w ->
  ends saveNow (w, e) (fun _ s => settles k w (fst s) /\ (deferred w -> settled k w -> columns_ (fst s) !! k = None))
    (fun _ => True).
Proof.
  intros Hw. eapply ends_mono; [apply (saveNow_ends (fun _ => True) (fun _ => True) w e Hw (fun _ => I))| |done].
  1-3: intros; apply ends_any.
  cbv beta. intros _ s [Hs _]. case_bool_decide as Hq.
  - rewrite Hs. split; [apply settles_refl|]. intros Hd [Hn|Hu]; [done|]. apply Hd in Hu. rewrite Hq in Hu.
    by destruct Hu.
  - destruct (settles_saved k w _ Hs). by split.
Qed.

Lemma run_settles k op w e : world_ok w -> loads k op = false ->
  ends (run op) (w, e) (fun _ s => settles k w (fst s)) (fun _ => True).
Proof.
  intros Hw Hl. destruct op as [h|h|h|pos h|h|x z|x z c save|x z|x z|pos| |pos f]; cbn [run loads] in *; try by apply settles_maps.
  - apply bool_decide_eq_false in Hl. eapply ends_bind; [|by intros o s' Hs; exact Hs]. unfold ends.
    rewrite getColumn_eq. destruct (columns_ w !! key x z); [apply settles_refl|].
    destruct (source_column (options_ w) x z e) as [[[[c stored]|]|t] e']; [|apply settles_refl|done].
    pose proof (setLoaded_settles k x z c (negb stored) w e' Hl) as Hs. unfold ends in Hs.
    by destruct (setLoadedColumn x z c (negb stored) (w, e')) as [[] s'].
  - apply bool_decide_eq_false in Hl. by apply setLoaded_settles.
  - unfold ends. rewrite unloadColumn_eq. destruct (columns_ w !! key x z); [|apply settles_refl].
    destruct (savingQueue_ w !! key x z) as [p|] eqn:Es; [|apply forceUnload_settles].
    destruct (has_saver w); [|apply forceUnload_settles]. apply settles_leaving. by rewrite Es.
  - unfold ends. rewrite queueSaving_eq. cbn [fst]. destruct (_ && _); [apply settles_queued|apply settles_refl].
  - unfold saveAt. destruct (chunkCoord (px pos)) as [x|], (chunkCoord (pz pos)) as [z|]; try done.
    unfold ends. rewrite !bind_lift, queueSaving_eq. cbn [fst].
    destruct (_ && _); [apply settles_queued|apply settles_refl].
  - eapply ends_mono; [by apply (saveNow_settles k)|by intros _ s [Hs _]|done].
  - unfold ends. rewrite update_block_eq.
    destruct (chunkCoord (px pos)) as [x|], (chunkCoord (pz pos)) as [z|]; try done.
    destruct (columns_ w !! key x z) as [c|] eqn:Ec; [|apply settles_refl]. destruct (column_snapshot pos c); [|done].
    destruct (f c) as [[[]|t] c']; [|done]. cbv zeta. destruct (column_snapshot pos c'); [|done].
    unfold on_env. cbn [fst snd]. destruct (for_each _ _ e) as [[[]|t] e']; [|done]. cbn [fst].
    assert (settles k w (with_column x z c' w)) by (apply settles_with_column; right; by rewrite Ec).
    destruct (has_saver w); [|done]. eapply settles_trans; [done|]. apply settles_queued.
Qed.

(** ** Runs that return *)

Fixpoint runs (ops : list (world_op (E := E))) (s s' : BedrockWorld E * E) : Prop :=
  match ops with
  | [] => s = s'
  | op :: ops' => exists s1, run op s = (Ok tt, s1) /\ runs ops' s1 s'
  end.

Lemma loads_none op : loads "" op = false.
Proof.
  assert (forall x z, key x z <> "") as Hne.
  { intros x z Hk. rewrite key_split in Hk. by destruct (to_string_signed x). }
  destruct op as [h|h|h|pos h|h|x z|x z c save|x z|x z|pos| |pos f]; cbn [loads]; try done; by apply bool_decide_eq_false.
Qed.

Lemma runs_settled k ops : forall s s',
  runs ops s s' -> Forall op_typed ops -> reachable s -> deferred (fst s) ->
  reachable s' /\ deferred (fst s') /\
  (Forall (fun op => loads k op = false) ops -> settled k (fst s) -> settled k (fst s')).
Proof.
  induction ops as [|op ops IH]; intros [w e] s'; cbn [runs].
  { intros <- _ Hr Hd. done. }
  intros (s1 & Er & Hrest) [Ht Hts]%Forall_cons_1 Hr Hd.
  pose proof (reachable_ok _ Hr) as Hw. cbn [fst] in Hw, Hd.
  assert (reachable s1) as Hr1 by (by eapply reach_step).
  assert (deferred (fst s1)) as Hd1.
  { pose proof (run_settles "" op w e Hw (loads_none op)) as Hs. unfold ends in Hs. rewrite Er in Hs. by apply Hs. }
  destruct (IH s1 s' Hrest Hts Hr1 Hd1) as (Hr' & Hd' & Hs'). split; [exact Hr'|]. split; [exact Hd'|].
  intros [Hl Hls]%Forall_cons_1 Hset. apply Hs'; [done|].
  pose proof (run_settles k op w e Hw Hl) as Hs. unfold ends in Hs. rewrite Er in Hs. by apply Hs.
Qed.

(** The caller's code always returns. *)
Definition returns {A} (m : M E A) : Prop := forall e, ends m e (fun _ _ => True) (fun _ => False).
Record callers_return w : Prop := mkReturn {
  save_returns save x z c : saveColumn (options_ w) = Some save -> returns (save x z c);
  unload_returns handler entry : handler ∈ unloadHandlers_ w -> returns (handler entry);
  done_returns handler : handler ∈ doneSavingHandlers_ w -> returns handler
}.

Lemma saveNow_returns w e : world_ok w -> callers_return w ->
  ends saveNow (w, e)
    (fun _ s => if bool_decide (savingQueue_ w = ∅) then fst s = w else saved w (fst s)) (fun _ => False).
Proof.
  intros Hw [Hsv Huh Hdn].
  eapply ends_mono; [apply (saveNow_ends (fun _ => True) (fun _ => False) w e Hw (fun _ => I))|by intros _ s [Hs _]|done].
  - intros save Es. apply (each_ends (fun _ => True)); [|done]. intros item e' _ _.
    unfold save_one. destruct (columns_ w !! _); [|done]. by apply (Hsv save).
  - intros h en e' Hh _. by apply (Huh h en Hh).
  - intros h e' Hh _. by apply (Hdn h Hh).
Qed.

(** One save finishes what was put off. *)
Lemma saveNow_settled k w e :
  world_ok w -> deferred w -> settled k w -> callers_return w ->
  exists w' e', saveNow (w, e) = (Ok tt, (w', e')) /\ columns_ w' !! k = None /\
    savingQueueSize w' = 0 /\ unloadQueueSize w' = 0 /\
    (forall k, columns_ w' !! k = if decide (is_Some (unloadQueue_ w !! k)) then None else columns_ w !! k).
Proof.
  intros Hw Hd Hs Hc. pose proof (saveNow_returns w e Hw Hc) as Hn. pose proof (saveNow_settles k w e Hw) as Hk.
  unfold ends in Hn, Hk. destruct (saveNow (w, e)) as [[[]|t] [w' e']]; [|done]. cbn [fst] in *.
  exists w', e'. split; [done|]. split; [by apply Hk|]. unfold savingQueueSize, unloadQueueSize.
  case_bool_decide as Hq.
  - subst w'. assert (unloadQueue_ w = ∅) as Hu.
    { apply map_eq. intros k'. rewrite lookup_empty. apply eq_None_not_Some. intros Hk'.
      apply Hd in Hk'. rewrite Hq in Hk'. by destruct Hk'. }
    rewrite Hq, Hu. split_and!; [done|done|]. intros k'. by rewrite decide_False by (by intros []).
  - destruct Hn as [Hr Hcol]. by rewrite Hr.
Qed.

Lemma unloadColumn_settled x z w e w1 e1 :
  unloadColumn x z (w, e) = (Ok tt, (w1, e1)) -> settled (key x z) w1.
Proof.
  rewrite unloadColumn_eq. set (k := key x z).
  assert (forceUnloadColumn x z (w, e) = (Ok tt, (w1, e1)) -> settled k w1) as Hf.
  { rewrite forceUnloadColumn_eq. unfold on_env. cbn [fst snd]. destruct (_ e) as [[[]|t] e']; [|done].
    intros [= <- _]. left. apply lookup_delete_eq. }
  destruct (columns_ w !! k) eqn:Ec; [|intros [= <- _]; by left].
  destruct (savingQueue_ w !! k); [|done]. destruct (has_saver w); [|done].
  intros [= <- _]. right. cbn. by rewrite lookup_insert_eq.
Qed.

(** C17: an unload that was requested happens, at once or at the next save:
    whatever operations come in between, short of loading the column again,
    [saveNow] returns when the caller's functions do, the column is gone, both
    queues are empty and no column leaves that was not to be unloaded. *)
Theorem unload_eventually options e0 before w e x z w1 e1 after w2 e2 :
  Forall op_typed before -> runs before (BedrockWorld.make options, e0) (w, e) ->
  is_s 32 x -> is_s 32 z -> run (UnloadColumn x z) (w, e) = (Ok tt, (w1, e1)) ->
  Forall op_typed after -> runs after (w1, e1) (w2, e2) ->
  Forall (fun op => loads (key x z) op = false) after ->
  callers_return w2 ->
  exists w3 e3, run SaveNow (w2, e2) = (Ok tt, (w3, e3)) /\ hasColumn x z w3 = false /\
    savingQueueSize w3 = 0 /\ unloadQueueSize w3 = 0 /\
    (forall k, columns_ w3 !! k = if decide (is_Some (unloadQueue_ w2 !! k)) then None else columns_ w2 !! k).
Proof.
  intros Htb Hb Hx Hz Hu Hta Ha Hl Hc. set (k := key x z).
  destruct (runs_settled k before _ _ Hb Htb) as (Hr & Hd & _); [apply reach_new|by intros k' []|].
  assert (reachable (w1, e1)) as Hr1 by (by eapply (reach_step _ (UnloadColumn x z))).
  assert (deferred w1) as Hd1.
  { pose proof (run_settles k (UnloadColumn x z) w e (reachable_ok _ Hr) eq_refl) as Hs. unfold ends in Hs.
    rewrite Hu in Hs. by apply Hs. }
  destruct (runs_settled k after _ _ Ha Hta Hr1 Hd1) as (Hr2 & Hd2 & Hs2).
  specialize (Hs2 Hl (unloadColumn_settled _ _ _ _ _ _ Hu)).
  destruct (saveNow_settled k w2 e2 (reachable_ok _ Hr2) Hd2 Hs2 Hc) as (w3 & e3 & Es & Hk & Hq).
  exists w3, e3. split; [done|]. split; [|done].
  unfold hasColumn. fold k. rewrite Hk. by apply bool_decide_eq_false; intros [? ?].
Qed.
End World.

(** A column, and a world with a saver. *)
Definition some_column (x z : Z) : BedrockChunkColumn := mkColumn x z 0 1 0 16 16 0 [None] [] ∅ ∅ ∅ None.
Definition saving_options {E} (save : Z -> Z -> BedrockChunkColumn -> M E unit) : BedrockWorldOptions E :=
  mkOptions None None (Some save).

Lemma unload_eventually_witness :
  exists w3 : BedrockWorld unit, hasColumn 3 4 w3 = false /\ hasColumn 3 5 w3 = true /\ unloadQueueSize w3 = 0.
Proof.
  set (o := saving_options (fun _ _ _ => ret tt) : BedrockWorldOptions unit).
  set (ops := [SetColumn 3 4 (some_column 3 4) true; SetColumn 3 5 (some_column 3 5) true] : list (world_op (E := unit))).
  assert (is_s 32 3 /\ is_s 32 4 /\ is_s 32 5) as (H3 & H4 & H5) by (by split_and!; apply (bool_decide_unpack _)).
  destruct (unload_eventually o tt ops _ tt 3 4 _ tt [QueueSaving 3 5] _ tt
    ltac:(by repeat constructor) ltac:(eexists; split; [by vm_compute|eexists; split; [by vm_compute|done]])
    H3 H4 ltac:(by vm_compute) ltac:(by repeat constructor) ltac:(eexists; split; [by vm_compute|done])
    ltac:(constructor; [by vm_compute|done])) as (w3 & e3 & _ & Hg & _ & Hu & Hc).
  - split; [by intros save x z c [= <-]|by intros ? ? []%not_elem_of_nil|by intros ? []%not_elem_of_nil].
  - exists w3. split; [done|]. split; [|done]. unfold hasColumn. rewrite Hc. by vm_compute.
Defined.

(** An unload handler that throws strands the columns behind it: the save
    has emptied the saving queue by then, and [saveNow] returns at once when
    that queue is empty, so that a column waits to be unloaded with no save to
    wait for. *)
Theorem unload_stranded :
  exists (w : BedrockWorld unit) x z, reachable (w, tt) /\ hasColumn x z w = true /\
    is_Some (unloadQueue_ w !! key x z) /\ run SaveNow (w, tt) = (Ok tt, (w, tt)).
Proof.
  set (o := saving_options (fun _ _ _ => ret tt) : BedrockWorldOptions unit).
  set (ops := [OnColumnUnload (fun _ => raise (RuntimeError "handler"));
    SetColumn 3 4 (some_column 3 4) true; SetColumn 3 5 (some_column 3 5) true;
    UnloadColumn 3 4; UnloadColumn 3 5] : list (world_op (E := unit))).
  assert (exists s, runs ops (BedrockWorld.make o, tt) s /\ exists r w, run SaveNow s = (r, (w, tt)) /\
    hasColumn 3 4 w = true /\ is_Some (unloadQueue_ w !! key 3 4) /\ run SaveNow (w, tt) = (Ok tt, (w, tt)))
    as (s & Hr & r & w & Es & Hc & Hu & Hn).
  { eexists. split; [do 5 (eexists; split; [by vm_compute|]); done|].
    eexists _, _. split; [by vm_compute|]. split; [by vm_compute|]. split; [by eexists; vm_compute|by vm_compute]. }
  destruct (runs_settled "" ops _ s Hr) as (Hs & _); [|apply reach_new|by intros k []|].
  { repeat constructor; by apply (bool_decide_unpack _). }
  exists w, 3, 4. split; [|done]. by eapply (reach_step _ SaveNow).
Qed.
