(* ===== verification/WorldCache.v ===== *)
(** * The world as a write-back cache

    Over a storage that keeps what is saved ([StoreLaws]), with handlers that
    leave it alone, the world refines a plain map of columns: loading, saving
    and unloading never change what a chunk coordinate stands for. *)

From S2P Require Import Prelude MachineInt ZigZag GamePacket Text SubChunk ChunkColumn ColumnState World WorldKeys WorldState WorldInvariant WorldUnload StreamState.
Import BedrockWorld BedrockChunkColumn.

(** The columns that an environment stores. *)
Class ColumnStore (E : Type) := disk : E -> gmap (Z * Z) BedrockChunkColumn.

Section Cache.
Context {E : Type} `{MapOrderLaws} `{ColumnStore E}.
Implicit Types (w : BedrockWorld E) (e : E).

(** Code that returns and leaves the storage alone. *)
Definition quiet {A} (m : M E A) : Prop :=
  forall e, ends m e (fun _ e' => disk e' = disk e) (fun _ => False).

(** A saver that stores, a loader that reads the storage. *)
Class StoreLaws (options : BedrockWorldOptions E) : Prop := {
  law_save : exists save, saveColumn options = Some save /\
    forall x z c e, ends (save x z c) e (fun _ e' => disk e' = <[(x, z) := c]> (disk e)) (fun _ => False);
  law_load : exists load, loadColumn options = Some load /\
    forall x z e, ends (load x z) e (fun c e' => c = disk e !! (x, z) /\ disk e' = disk e) (fun _ => False);
  law_generate generate x z : chunkGenerator options = Some generate -> quiet (generate x z)
}.

Record quiet_world w : Prop := mkQuiet {
  quiet_load handler entry : handler ∈ loadHandlers_ w -> quiet (handler entry);
  quiet_unload handler entry : handler ∈ unloadHandlers_ w -> quiet (handler entry);
  quiet_update pos handler old new : handler ∈ listeners pos w -> quiet (handler old new);
  quiet_done handler : handler ∈ doneSavingHandlers_ w -> quiet handler
}.

(** Quiet handlers, and columns that are set to be saved. *)
Definition op_quiet (op : world_op (E := E)) : Prop :=
  match op with
  | OnColumnLoad h | OnColumnUnload h => forall entry, quiet (h entry)
  | OnBlockUpdate h | OnBlockUpdateAt _ h => forall old new, quiet (h old new)
  | OnDoneSaving h => quiet h
  | SetColumn _ _ _ save => save = true
  | _ => True
  end.

(** ** The abstract world: a column per chunk, and which ones are resident *)

Definition content (s : BedrockWorld E * E) (p : Z * Z) : option BedrockChunkColumn :=
  match columns_ (fst s) !! key p.1 p.2 with Some c => Some c | None => disk (snd s) !! p end.
Definition resident (s : BedrockWorld E * E) (p : Z * Z) : bool := hasColumn p.1 p.2 (fst s).

Record map_world := mkMap { value : Z * Z -> option BedrockChunkColumn; here : Z * Z -> bool }.
Definition view (s : BedrockWorld E * E) : map_world := mkMap (content s) (resident s).

Definition same_map (a a' : map_world) : Prop := forall p, value a' p = value a p /\ here a' p = here a p.
Definition map_set (p : Z * Z) (c : BedrockChunkColumn) (a a' : map_world) : Prop :=
  forall q, value a' q = (if decide (q = p) then Some c else value a q) /\
    here a' q = (if decide (q = p) then true else here a q).

(** What an operation that returns does to the map of columns. *)
Definition spec_step (op : world_op (E := E)) (a a' : map_world) : Prop :=
  match op with
  | SetColumn x z c _ => map_set (x, z) c a a'
  | GetColumn x z =>
      match value a (x, z) with
      | Some c => map_set (x, z) c a a'
      | None => same_map a a' \/ exists c, map_set (x, z) c a a'
      end
  | UpdateBlock pos f =>
      exists x z, chunkCoord (px pos) = Ok x /\ chunkCoord (pz pos) = Ok z /\
      if here a (x, z) then
        exists c c', value a (x, z) = Some c /\ f c = (Ok tt, c') /\ map_set (x, z) c' a a'
      else same_map a a'
  | UnloadColumn x z =>
      forall p, value a' p = value a p /\ (here a' p = here a p \/ p = (x, z) /\ here a' p = false)
  | SaveNow => forall p, value a' p = value a p /\ (here a' p = here a p \/ here a' p = false)
  | _ => same_map a a'
  end.

Fixpoint spec_runs (ops : list (world_op (E := E))) (a a' : map_world) : Prop :=
  match ops with
  | [] => same_map a a'
  | op :: ops' => exists a1, spec_step op a a1 /\ spec_runs ops' a1 a'
  end.

(** ** The invariant of the cache *)

(** A column that is not waiting to be saved is the stored one. *)
Definition clean (s : BedrockWorld E * E) : Prop :=
  forall x z c, columns_ (fst s) !! key x z = Some c -> savingQueue_ (fst s) !! key x z = None ->
    disk (snd s) !! (x, z) = Some c.

Record cache_ok (s : BedrockWorld E * E) : Prop := mkCacheOk {
  cache_world : world_ok (fst s);
  cache_laws : StoreLaws (options_ (fst s));
  cache_quiet : quiet_world (fst s);
  cache_clean : clean s
}.

Lemma cache_saver s : cache_ok s -> has_saver (fst s) = true.
Proof. intros [_ [[save [Hs _]] _ _] _ _]. unfold has_saver. by rewrite Hs. Qed.

Lemma cache_step s s' : cache_ok s ->
  fst s' = set_maps (columns_ (fst s')) (savingQueue_ (fst s')) (unloadQueue_ (fst s')) (fst s) ->
  world_ok (fst s') -> clean s' -> cache_ok s'.
Proof.
  intros [_ Hl [Q1 Q2 Q3 Q4] _] Hr Hw Hc. split; [done| | |done]; rewrite Hr; [done|].
  split; [exact Q1|exact Q2|exact Q3|exact Q4].
Qed.

Lemma key_eq (p : Z * Z) x z : key p.1 p.2 = key x z -> p = (x, z).
Proof. destruct p as [a b]. by intros [<- <-]%key_inj. Qed.

Lemma content_insert x z c w e e' : disk e' = disk e ->
  forall p, content (with_column x z c w, e') p = if decide (p = (x, z)) then Some c else content (w, e) p.
Proof.
  intros Hd p. unfold content. cbn [fst snd with_column set_columns set_maps columns_]. rewrite Hd.
  case_decide as Hp; [subst p; by rewrite lookup_insert_eq|].
  rewrite lookup_insert_ne; [done|]. intros Hk. by apply Hp, key_eq.
Qed.

Lemma resident_insert x z c w e e' p :
  resident (with_column x z c w, e') p = if decide (p = (x, z)) then true else resident (w, e) p.
Proof.
  unfold resident, hasColumn. cbn [fst with_column set_columns set_maps columns_].
  case_decide as Hp; [subst p; rewrite lookup_insert_eq; by apply bool_decide_true|].
  rewrite lookup_insert_ne; [done|]. intros Hk. by apply Hp, key_eq.
Qed.

(** The view does not read the queues. *)
Lemma view_columns w w' e e' : columns_ w' = columns_ w -> disk e' = disk e -> same_map (view (w, e)) (view (w', e')).
Proof. intros Hc Hd p. unfold view, content, resident, hasColumn. cbn. by rewrite Hc, Hd. Qed.

Lemma view_insert x z c w w' e e' : columns_ w' = columns_ (with_column x z c w) -> disk e' = disk e ->
  map_set (x, z) c (view (w, e)) (view (w', e')).
Proof.
  intros Hc Hd p. destruct (view_columns (with_column x z c w) w' e e' Hc Hd p) as [Hv Hh].
  rewrite Hv, Hh. cbn [view value here]. by rewrite (content_insert x z c w e e eq_refl), (resident_insert x z c w e e).
Qed.

Lemma clean_env w e e' : disk e' = disk e -> clean (w, e) -> clean (w, e').
Proof. intros Hd Hc x z c. cbn [fst snd]. rewrite Hd. apply Hc. Qed.

Lemma clean_queued x z c w e : clean (w, e) -> clean (queued x z (with_column x z c w), e).
Proof.
  intros Hc x' z' c'. cbn. destruct (decide (key x' z' = key x z)) as [Hk|Hne].
  - rewrite Hk, !lookup_insert_eq. done.
  - rewrite !lookup_insert_ne by done. apply Hc.
Qed.

Lemma clean_stored x z c w e : disk e !! (x, z) = Some c -> clean (w, e) -> clean (with_column x z c w, e).
Proof.
  intros Hd Hc x' z' c'. cbn. destruct (decide (key x' z' = key x z)) as [Hk|Hne].
  - rewrite Hk, lookup_insert_eq. apply key_inj in Hk as [-> ->]. by intros [= <-].
  - rewrite lookup_insert_ne by done. apply Hc.
Qed.

Lemma clean_requeued x z w e : clean (w, e) -> clean (queued x z w, e).
Proof.
  intros Hc x' z' c' Hl Hs. cbn in *. destruct (decide (key x' z' = key x z)) as [Hk|Hne].
  - by rewrite Hk, lookup_insert_eq in Hs.
  - rewrite lookup_insert_ne in Hs by done. by apply Hc.
Qed.

Lemma clean_forget x z w e : clean (w, e) -> clean (forget x z w, e).
Proof.
  intros Hc x' z' c' Hl Hs. cbn in *. apply lookup_delete_Some in Hl as [Hne Hl].
  rewrite lookup_delete_ne in Hs by done. by apply Hc.
Qed.

(** Unloading a clean column leaves the storage to answer for it. *)
Lemma view_forget x z w e e' : clean (w, e) -> savingQueue_ w !! key x z = None -> disk e' = disk e ->
  forall p, content (forget x z w, e') p = content (w, e) p /\
    (resident (forget x z w, e') p = resident (w, e) p \/ p = (x, z) /\ resident (forget x z w, e') p = false).
Proof.
  intros Hc Hs Hd p. unfold content, resident, hasColumn. cbn. rewrite Hd.
  destruct (decide (p = (x, z))) as [->|Hp].
  - cbn. rewrite lookup_delete_eq. split; [|by right; split; [|apply bool_decide_false; intros []]].
    destruct (columns_ w !! key x z) as [c|] eqn:Ec; [|done]. by apply Hc.
  - rewrite lookup_delete_ne; [by split; [|left]|]. intros Hk. by apply Hp, key_eq.
Qed.

(** ** Operations *)

Lemma quiet_each {A} (l : list A) (f : A -> M E unit) :
  (forall a, a ∈ l -> quiet (f a)) -> quiet (for_each l f).
Proof.
  intros Hf e. apply (each_ends (fun e' => disk e' = disk e)); [|done].
  intros a e' Ha He'. eapply ends_mono; [by apply Hf|cbv beta; congruence|done].
Qed.

Lemma setLoaded_caches x z c save w e :
  cache_ok (w, e) -> is_s 32 x -> is_s 32 z -> save = true \/ disk e !! (x, z) = Some c ->
  ends (setLoadedColumn x z c save) (w, e)
    (fun _ s' => cache_ok s' /\ map_set (x, z) c (view (w, e)) (view s')) (fun _ => False).
Proof.
  intros Hok Hx Hz Hsv. pose proof (setLoaded_stays x z c save w e (cache_world _ Hok) Hx Hz) as Hst.
  pose proof (cache_saver _ Hok) as Hs. cbn [fst] in Hs.
  unfold ends in *. rewrite setLoadedColumn_eq in *. cbv zeta in *. rewrite Hs, andb_true_r in *.
  pose proof (quiet_each (loadHandlers_ w) (fun h => h (mkEntry x z c))
    (fun h Hh => quiet_load _ (cache_quiet _ Hok) h _ Hh) e) as Hq. unfold ends in Hq.
  destruct (for_each _ _ e) as [[[]|t] e']; [|done]. cbn [fst] in Hst. split.
  - eapply cache_step; [exact Hok|by destruct save|exact Hst|]. apply (clean_env _ e); [done|].
    destruct save; [apply clean_queued|apply clean_stored; [by destruct Hsv|]]; apply (cache_clean _ Hok).
  - apply view_insert; [by destruct save|done].
Qed.

Lemma source_caches options x z e : StoreLaws options ->
  ends (source_column options x z) e
    (fun o e' => disk e' = disk e /\ match disk e !! (x, z) with
       | Some c => o = Some (c, true)
       | None => match o with Some (_, stored) => stored = false | None => True end
       end) (fun _ => False).
Proof.
  intros [_ (load & Hload & Hl) Hg]. unfold source_column. rewrite Hload.
  eapply ends_bind; [apply Hl|]. cbv beta. intros o e1 [-> Hd1]. destruct (disk e !! (x, z)) as [c|]; [done|].
  destruct (chunkGenerator options) as [gen|] eqn:Eg; [|done].
  eapply ends_bind; [by apply (Hg gen)|]. cbv beta. intros c e2 Hd2. split; [congruence|done].
Qed.

Lemma getColumn_caches x z w e : cache_ok (w, e) -> is_s 32 x -> is_s 32 z ->
  ends (getColumn x z) (w, e)
    (fun _ s' => cache_ok s' /\ spec_step (GetColumn x z) (view (w, e)) (view s')) (fun _ => False).
Proof.
  intros Hok Hx Hz. unfold ends. rewrite getColumn_eq. cbn [spec_step view value].
  unfold content at 1. cbn [fst snd].
  destruct (columns_ w !! key x z) as [c|] eqn:Ec.
  { split; [done|]. intros q. cbn [value here]. case_decide as Hq; [|done]. subst q.
    cbn [view value here]. unfold content, resident, hasColumn. cbn [fst snd]. rewrite Ec. split; [done|by apply bool_decide_true]. }
  pose proof (source_caches (options_ w) x z e (cache_laws _ Hok)) as Hs. unfold ends in Hs.
  destruct (source_column (options_ w) x z e) as [[o|t] e']; [|done]. destruct Hs as [Hd Ho].
  assert (cache_ok (w, e')) as Hok'.
  { eapply (cache_step (w, e)); [done|by destruct w|apply (cache_world _ Hok)|].
    apply (clean_env _ e); [done|apply (cache_clean _ Hok)]. }
  destruct o as [[c stored]|].
  - assert (negb stored = true \/ disk e' !! (x, z) = Some c) as Hsv.
    { rewrite Hd. destruct (disk e !! (x, z)); [by injection Ho as -> ->; right|by subst stored; left]. }
    pose proof (setLoaded_caches x z c (negb stored) w e' Hok' Hx Hz Hsv) as Hset. unfold ends in Hset.
    destruct (setLoadedColumn x z c (negb stored) (w, e')) as [[[]|t] s']; [|done].
    destruct Hset as [Hok2 Hset]. split; [done|].
    assert (map_set (x, z) c (view (w, e)) (view s')) as Hset'.
    { intros q. destruct (view_columns w w e e' eq_refl Hd q) as [Hv Hh]. rewrite <- Hv, <- Hh. apply Hset. }
    destruct (disk e !! (x, z)) as [c0|]; [injection Ho as -> _; exact Hset'|]. right. by exists c.
  - destruct (disk e !! (x, z)); [done|]. split; [done|]. left. by apply view_columns.
Qed.

Lemma forceUnload_caches x z w e : cache_ok (w, e) -> savingQueue_ w !! key x z = None ->
  ends (forceUnloadColumn x z) (w, e)
    (fun _ s' => cache_ok s' /\ spec_step (UnloadColumn x z) (view (w, e)) (view s')) (fun _ => False).
Proof.
  intros Hok Hs. pose proof (forceUnload_stays x z w e (cache_world _ Hok)) as Hst.
  unfold ends in *. rewrite forceUnloadColumn_eq in *. unfold on_env in *. cbn [fst snd] in *.
  set (calls := match columns_ w !! _ with Some _ => _ | None => _ end) in *.
  assert (quiet calls) as Hq.
  { unfold calls. destruct (columns_ w !! _); [|done]. apply quiet_each. intros h Hh.
    by apply (quiet_unload _ (cache_quiet _ Hok)). }
  specialize (Hq e). unfold ends in Hq. destruct (calls e) as [[[]|t] e']; [|done].
  pose proof (cache_clean _ Hok) as Hc. split.
  - eapply cache_step; [exact Hok|done|exact Hst|]. apply (clean_env _ e); [done|]. by apply clean_forget.
  - intros p. by apply view_forget.
Qed.

Lemma unload_caches x z w e : cache_ok (w, e) ->
  ends (unloadColumn x z) (w, e)
    (fun _ s' => cache_ok s' /\ spec_step (UnloadColumn x z) (view (w, e)) (view s')) (fun _ => False).
Proof.
  intros Hok. pose proof (unload_stays x z w e (cache_world _ Hok)) as Hst. unfold ends in *.
  rewrite unloadColumn_eq in *. destruct (columns_ w !! key x z) as [c|]; [|by split; [|intros p; split; [|left]]].
  destruct (savingQueue_ w !! key x z) eqn:Es; [|by apply forceUnload_caches].
  pose proof (cache_saver _ Hok) as Hs. cbn [fst] in Hs. rewrite Hs in *. split.
  - eapply cache_step; [exact Hok|done|exact Hst|]. apply (cache_clean _ Hok).
  - intros q. by split; [|left].
Qed.

Lemma queueSaving_caches x z w e : cache_ok (w, e) ->
  ends (queueSaving x z) (w, e) (fun _ s' => cache_ok s' /\ same_map (view (w, e)) (view s')) (fun _ => False).
Proof.
  intros Hok. pose proof (queueSaving_stays x z w e (cache_world _ Hok)) as Hst. unfold ends in *.
  rewrite queueSaving_eq in *. destruct (has_saver w && hasColumn x z w); [|done]. split.
  - eapply cache_step; [exact Hok|done|exact Hst|]. apply clean_requeued, (cache_clean _ Hok).
  - by apply view_columns.
Qed.

(** Saving stores every queued column, so that the storage holds what the
    world stood for. *)
Lemma save_all w save items : forall e,
  (forall x z c e, ends (save x z c) e (fun _ e' => disk e' = <[(x, z) := c]> (disk e)) (fun _ => False)) ->
  Forall (fun item => item.1 = key item.2.1 item.2.2 /\ is_Some (columns_ w !! item.1)) items ->
  ends (for_each items (save_one w save)) e
    (fun _ e' => forall p, disk e' !! p = if decide (key p.1 p.2 ∈ items.*1) then columns_ w !! key p.1 p.2
                                          else disk e !! p) (fun _ => False).
Proof.
  induction items as [|[k [x z]] items IH]; intros e Hsv Hit.
  { intros p. by rewrite decide_False by apply not_elem_of_nil. }
  apply Forall_cons_1 in Hit as [[Hk [c Hc]] Hit]. cbn [fst snd] in Hk, Hc. subst k. cbn [for_each].
  eapply ends_bind; [unfold save_one; cbn [fst snd]; rewrite Hc; apply Hsv|]. cbv beta. intros [] e1 He1.
  eapply ends_mono; [by apply (IH e1 Hsv)| |done]. cbv beta. intros _ e2 He2 p. rewrite He2, He1. cbn [fmap list_fmap fst].
  destruct (decide (p = (x, z))) as [->|Hp].
  - cbn [fst snd]. rewrite (decide_True (P := _ ∈ _ :: _)) by (by left). rewrite lookup_insert_eq, Hc. by case_decide.
  - rewrite lookup_insert_ne by done. apply decide_ext. rewrite elem_of_cons. split; [by right|].
    intros [Hk|]; [|done]. by destruct Hp; apply key_eq.
Qed.

Lemma saved_disk w e : cache_ok (w, e) -> forall save, saveColumn (options_ w) = Some save ->
  ends (for_each (elements (savingQueue_ w)) (save_one w save)) e
    (fun _ e' => forall p, disk e' !! p = content (w, e) p) (fun _ => False).
Proof.
  intros Hok save Es. destruct (law_save (StoreLaws := cache_laws _ Hok)) as (save' & Es' & Hsv). cbn [fst] in Es'.
  rewrite Es in Es'. injection Es' as <-.
  pose proof (cache_world _ Hok) as Hw. cbn [fst] in Hw.
  eapply ends_mono; [apply (save_all w save _ e Hsv)| |done].
  - rewrite (elements_perm _ (savingQueue_ w)). apply Forall_forall. intros [k p] Hin%list_elem_of_In%elem_of_map_to_list.
    by apply (ok_saving w Hw).
  - cbv beta. intros _ e' He' p. rewrite He'. unfold content. cbn [fst snd].
    assert (key p.1 p.2 ∈ (elements (savingQueue_ w)).*1 <-> is_Some (savingQueue_ w !! key p.1 p.2)) as Hin.
    { rewrite (elements_perm _ (savingQueue_ w)), list_elem_of_fmap. split.
      - intros ([k q] & -> & Hq%elem_of_map_to_list). by exists q.
      - intros [q Hq]. exists (key p.1 p.2, q). split; [done|by apply elem_of_map_to_list]. }
    case_decide as Hd.
    + apply Hin in Hd as [q Hq]. by destruct (ok_saving w Hw _ _ Hq) as [_ [c ->]].
    + destruct (columns_ w !! key p.1 p.2) as [c|] eqn:Ec; [|done]. destruct p as [x z].
      apply (cache_clean _ Hok x z c Ec). cbn [fst]. apply eq_None_not_Some. by rewrite <- Hin.
Qed.

Lemma saveNow_caches w e : cache_ok (w, e) ->
  ends saveNow (w, e)
    (fun _ s' => cache_ok s' /\ spec_step SaveNow (view (w, e)) (view s') /\
       forall p, disk (snd s') !! p = content (w, e) p) (fun _ => False).
Proof.
  intros Hok. pose proof (cache_world _ Hok) as Hw. cbn [fst] in Hw.
  pose proof (saveNow_stays w e Hw) as Hst.
  assert (savingQueue_ w = ∅ -> forall p, disk e !! p = content (w, e) p) as He.
  { intros Hq [x z]. unfold content. cbn [fst snd]. destruct (columns_ w !! key x z) as [c|] eqn:Ec; [|done].
    apply (cache_clean _ Hok x z c Ec). cbn [fst]. by rewrite Hq. }
  assert (forall A (m : M E A) e', quiet m -> (forall p, disk e' !! p = content (w, e) p) ->
    ends m e' (fun _ e2 => forall p, disk e2 !! p = content (w, e) p) (fun _ => False)) as Hquiet.
  { intros A m e' Hm He'. eapply ends_mono; [apply Hm|cbv beta; by intros _ e2 ->|done]. }
  pose proof (saveNow_ends (fun e' => forall p, disk e' !! p = content (w, e) p) (fun _ => False) w e Hw He
    (saved_disk w e Hok)
    (fun h entry e' Hh => Hquiet _ _ e' (quiet_unload _ (cache_quiet _ Hok) h entry Hh))
    (fun h e' Hh => Hquiet _ _ e' (quiet_done _ (cache_quiet _ Hok) h Hh))) as Hs.
  unfold ends in *. destruct (saveNow (w, e)) as [[[]|t] [w' e']]; [|done]. cbn [fst snd] in *.
  destruct Hs as [Hs Hd]. case_bool_decide as Hq.
  - subst w'. assert (forall p, content (w, e') p = content (w, e) p) as Hc.
    { intros p. unfold content at 1. cbn [fst snd]. rewrite Hd. unfold content. cbn [fst snd].
      by destruct (columns_ w !! _). }
    split; [|split; [|exact Hd]].
    + eapply (cache_step (w, e)); [exact Hok|by destruct w|exact Hst|].
      intros x z c Hl _. cbn [fst snd] in *. rewrite Hd. unfold content. cbn [fst snd]. by rewrite Hl.
    + intros p. split; [apply Hc|by left].
  - destruct Hs as [Hr Hcol]. split; [|split; [|exact Hd]].
    + eapply (cache_step (w, e)); [exact Hok|by rewrite Hr|exact Hst|].
      intros x z c Hl _. cbn [fst snd] in *. rewrite Hd. unfold content. cbn [fst snd].
      rewrite Hcol in Hl. case_decide; [done|]. by rewrite Hl.
    + intros p. cbn [view value here]. unfold content at 1, resident, hasColumn. cbn [fst snd]. rewrite Hcol.
      case_decide; [split; [apply Hd|by right; apply bool_decide_false; intros []]|].
      split; [|by left]. rewrite Hd. unfold content. cbn [fst snd]. by destruct (columns_ w !! _).
Qed.

Lemma update_caches pos f w e : cache_ok (w, e) -> is_s 32 (px pos) -> is_s 32 (pz pos) ->
  ends (update_block pos f) (w, e)
    (fun _ s' => cache_ok s' /\ spec_step (UpdateBlock pos f) (view (w, e)) (view s')) (fun _ => True).
Proof.
  intros Hok Hx Hz. pose proof (update_stays pos f w e (cache_world _ Hok) Hx Hz) as Hst.
  pose proof (cache_saver _ Hok) as Hs. cbn [fst] in Hs. unfold ends in *. rewrite update_block_eq in *.
  cbn [spec_step]. destruct (chunkCoord (px pos)) as [x|]; [|done]. destruct (chunkCoord (pz pos)) as [z|]; [|done].
  cbn [view value here]. unfold resident at 1, hasColumn, content at 1. cbn [fst snd].
  destruct (columns_ w !! key x z) as [c|] eqn:Ec.
  2:{ split; [done|]. exists x, z. split; [done|]. split; [done|].
      by rewrite Ec, bool_decide_false by (by intros []). }
  destruct (column_snapshot pos c) as [old|]; [|done]. destruct (f c) as [[[]|t] c'] eqn:Ef; [|done].
  rewrite Hs in *. cbv zeta in *. destruct (column_snapshot pos c') as [new|]; [|done].
  unfold on_env in *. cbn [fst snd] in *.
  pose proof (quiet_each (listeners pos w) (fun h => h old new)
    (fun h Hh => quiet_update _ (cache_quiet _ Hok) pos h old new Hh) e) as Hq. unfold ends in Hq.
  destruct (for_each _ _ e) as [[[]|t] e']; [|done]. split.
  - eapply cache_step; [exact Hok|done|exact Hst|]. apply (clean_env _ e); [done|].
    apply clean_queued, (cache_clean _ Hok).
  - exists x, z. split; [done|]. split; [done|]. rewrite Ec, bool_decide_true by done.
    exists c, c'. split; [done|]. split; [done|]. by apply view_insert.
Qed.

(** Registering a quiet handler. *)
Lemma handlers_caches op w e : cache_ok (w, e) -> op_quiet op ->
  match op with OnColumnLoad _ | OnColumnUnload _ | OnBlockUpdate _ | OnBlockUpdateAt _ _ | OnDoneSaving _ => True
           | _ => False end ->
  ends (run op) (w, e) (fun _ s' => cache_ok s' /\ same_map (view (w, e)) (view s')) (fun _ => False).
Proof.
  intros [Hw Hl [Q1 Q2 Q3 Q4] Hc] Hq Hop.
  destruct op as [h|h|h|pos h|h|x z|x z c save|x z|x z|pos| |pos f]; try done.
  all: split; [|by apply view_columns]; split; [by destruct Hw|exact Hl| |exact Hc]; split.
  all: cbn [fst loadHandlers_ unloadHandlers_ doneSavingHandlers_] in *; try assumption.
  - by intros g entry [Hg| ->%list_elem_of_singleton]%elem_of_app; [apply Q1|].
  - by intros g entry [Hg| ->%list_elem_of_singleton]%elem_of_app; [apply Q2|].
  - intros pos g old new. unfold listeners. cbn. rewrite !elem_of_app, list_elem_of_singleton.
    intros [[Hg| ->]|Hg]; [|done|]; apply (Q3 pos); unfold listeners; rewrite elem_of_app; first [by left|by right].
  - intros pos' g old new. unfold listeners. cbn. rewrite elem_of_app. intros [Hg|Hg].
    { apply (Q3 pos'). unfold listeners. rewrite elem_of_app. by left. }
    destruct (decide (blockKey pos' = blockKey pos)) as [Hk|Hne].
    + rewrite Hk, lookup_insert_eq in Hg. cbn in Hg. apply elem_of_app in Hg as [Hg| ->%list_elem_of_singleton]; [|done].
      apply (Q3 pos'). unfold listeners. rewrite elem_of_app, Hk. by right.
    + rewrite lookup_insert_ne in Hg by done. apply (Q3 pos'). unfold listeners. rewrite elem_of_app. by right.
  - by intros g [Hg| ->%list_elem_of_singleton]%elem_of_app; [apply Q4|].
Qed.

(** Only block updates can throw, and coordinates that overflow. *)
Definition may_throw (op : world_op (E := E)) : Prop :=
  match op with UpdateBlock _ _ | SaveAt _ => True | _ => False end.

Lemma run_caches op s : cache_ok s -> op_typed op -> op_quiet op ->
  ends (run op) s (fun _ s' => cache_ok s' /\ spec_step op (view s) (view s')) (fun _ => may_throw op).
Proof.
  intros Hok Ht Hq. destruct s as [w e].
  destruct op as [h|h|h|pos h|h|x z|x z c save|x z|x z|pos| |pos f].
  1-5: by apply handlers_caches.
  - destruct Ht. eapply ends_bind; [by apply getColumn_caches|]. by intros o s' Hs.
  - destruct Ht. apply setLoaded_caches; [done..|]. by left.
  - by apply unload_caches.
  - by apply queueSaving_caches.
  - cbn [run]. unfold saveAt. destruct (chunkCoord (px pos)) as [x|]; [|done]. destruct (chunkCoord (pz pos)) as [z|]; [|done].
    unfold ends. rewrite !bind_lift. eapply ends_mono; [by apply queueSaving_caches|done|done].
  - eapply ends_mono; [by apply saveNow_caches|by intros _ s' (? & ? & _)|done].
  - destruct Ht. eapply ends_mono; [by apply update_caches|done|done].
Qed.

Lemma cache_new options e : StoreLaws options -> cache_ok (BedrockWorld.make options, e).
Proof.
  intros Hl. split; [apply (reachable_ok (_, e)), reach_new|done| |by intros x z c Hc].
  split; [by intros ? ? []%not_elem_of_nil..|intros pos h old new []%not_elem_of_nil|by intros ? []%not_elem_of_nil].
Qed.

Lemma runs_caches ops : forall s s', cache_ok s -> Forall op_typed ops -> Forall op_quiet ops -> runs ops s s' ->
  cache_ok s' /\ spec_runs ops (view s) (view s').
Proof.
  induction ops as [|op ops IH]; intros s s' Hok Ht Hq; cbn [runs].
  { intros <-. split; [done|]. by intros p. }
  apply Forall_cons_1 in Ht as [Ht Hts], Hq as [Hq Hqs]. intros (s1 & Er & Hrest).
  pose proof (run_caches op s Hok Ht Hq) as Hs. unfold ends in Hs. rewrite Er in Hs. destruct Hs as [Hok1 Hs1].
  destruct (IH s1 s' Hok1 Hts Hqs Hrest) as [Hok' Hs']. split; [done|]. by exists (view s1).
Qed.

(** ** Properties *)

(** C14: over a storage that keeps what is saved, with handlers that leave it
    alone and [setColumn] always asked to save, the world refines a plain map of columns with a residence flag: any
    sequence of operations that returns is a run of [spec_step], in which
    saving, unloading and queueing leave every column as it is, [getColumn]
    brings in the stored column or a generated one, and a block update changes
    its own column alone, when it is resident; and the only operations that can
    throw are those that address a block. *)
Theorem world_refines options e ops s' :
  StoreLaws options -> Forall op_typed ops -> Forall op_quiet ops ->
  runs ops (BedrockWorld.make options, e) s' ->
  spec_runs ops (view (BedrockWorld.make options, e)) (view s') /\
  forall op, op_typed op -> op_quiet op ->
    ends (run op) s' (fun _ s2 => spec_step op (view s') (view s2)) (fun _ => may_throw op).
Proof.
  intros Hl Ht Hq Hr.
  destruct (runs_caches ops (BedrockWorld.make options, e) s' (cache_new options e Hl) Ht Hq Hr) as [Hok Hs].
  split; [done|]. intros op Hto Hqo. eapply ends_mono; [by apply run_caches| |done]. by intros _ s2 [_ H2].
Qed.

(** C15: [saveNow] is durable: after any sequence of operations, with handlers
    that leave the storage alone and [setColumn] always asked to save, it
    returns, and then the storage holds, for every chunk, exactly the column that the world
    stood for; what it unloads is still there to be loaded. *)
Theorem saveNow_durable options e ops s :
  StoreLaws options -> Forall op_typed ops -> Forall op_quiet ops ->
  runs ops (BedrockWorld.make options, e) s ->
  exists s', run SaveNow s = (Ok tt, s') /\ savingQueueSize (fst s') = 0 /\
    forall p, disk (snd s') !! p = content s p /\ content s' p = content s p.
Proof.
  intros Hl Ht Hq Hr.
  destruct (runs_caches ops (BedrockWorld.make options, e) s (cache_new options e Hl) Ht Hq Hr) as [Hok _].
  destruct s as [w e1]. pose proof (saveNow_caches w e1 Hok) as Hs. pose proof (cache_world _ Hok) as Hw.
  pose proof (saveNow_ends (fun _ => True) (fun _ => True) w e1 Hw (fun _ => I)
    (fun _ _ => ends_any _ _) (fun _ _ _ _ _ => ends_any _ _) (fun _ _ _ _ => ends_any _ _)) as Hn.
  unfold ends in *. cbn [run]. destruct (saveNow (w, e1)) as [[[]|t] s']; [|done].
  exists s'. destruct Hs as (_ & Hv & Hd). split; [done|]. split.
  - destruct Hn as [Hn _]. unfold savingQueueSize. case_bool_decide as Hsq; [by rewrite Hn, Hsq|].
    destruct Hn as [-> _]. done.
  - intros p. split; [apply Hd|apply Hv].
Qed.
End Cache.

(** ** A storage *)

#[export] Instance map_store : ColumnStore (gmap (Z * Z) BedrockChunkColumn) := fun e => e.
Definition map_options : BedrockWorldOptions (gmap (Z * Z) BedrockChunkColumn) :=
  mkOptions None (Some (fun x z e => (Ok (e !! (x, z)), e))) (Some (fun x z c e => (Ok tt, <[(x, z) := c]> e))).

Lemma map_store_laws : StoreLaws map_options.
Proof. split; [by eexists|by eexists|by intros]. Qed.

(** A column that is set, unloaded, saved and loaded again. *)
Definition cache_ops : list (world_op (E := gmap (Z * Z) BedrockChunkColumn)) :=
  [SetColumn 3 4 (some_column 3 4) true; UnloadColumn 3 4; SaveNow; GetColumn 3 4].

Lemma cache_ops_typed : Forall op_typed cache_ops /\ Forall op_quiet cache_ops.
Proof. split; repeat constructor; by apply (bool_decide_unpack _). Qed.

Lemma cache_ops_run : exists s, runs cache_ops (BedrockWorld.make map_options, ∅) s /\
  content s (3, 4) = Some (some_column 3 4).
Proof. eexists. split; [do 4 (eexists; split; [by vm_compute|]); done|by vm_compute]. Qed.

Lemma world_refines_witness :
  exists s, spec_runs cache_ops (view (BedrockWorld.make map_options, ∅)) (view s).
Proof.
  destruct cache_ops_run as (s & Hr & _). exists s.
  by apply (world_refines map_options ∅ cache_ops s map_store_laws (proj1 cache_ops_typed) (proj2 cache_ops_typed) Hr).
Defined.

Lemma saveNow_durable_witness :
  exists s s', run SaveNow s = (Ok tt, s') /\ disk (snd s') !! (3, 4) = Some (some_column 3 4).
Proof.
  destruct cache_ops_run as (s & Hr & Hc). exists s.
  destruct (saveNow_durable map_options ∅ cache_ops s map_store_laws (proj1 cache_ops_typed)
    (proj2 cache_ops_typed) Hr) as (s' & Es & _ & Hd).
  exists s'. split; [exact Es|]. destruct (Hd (3, 4)) as [Hd1 _]. exact (eq_trans Hd1 Hc).
Defined.
