(* ===== verification/WorldBlocks.v ===== *)
(** * Blocks of the world

    [setBlockStateId] addressed by world coordinates, against
    [getBlockStateId]: the change of one column lifted to all of them. *)

From S2P Require Import Prelude MachineInt ZigZag GamePacket Text PalettedStorage SubChunk SubChunkState BiomeSection ChunkColumn ColumnState World WorldKeys WorldState WorldInvariant WorldUnload StreamState.
Import BedrockChunkColumn BedrockWorld.

(** Positions whose chunk coordinates are defined. *)
Definition world_pos (pos : BlockPosition) : Prop :=
  pos_ok pos /\ - 2147483632 <= px pos < 2147483648 /\ - 2147483632 <= pz pos < 2147483648.

(** The same block of the world. *)
Definition same_position (p q : BlockPosition) : Prop :=
  layer_of p = layer_of q /\ px p = px q /\ py p = py q /\ pz p = pz q.
#[export] Instance same_position_dec p q : Decision (same_position p q).
Proof. unfold same_position. apply _. Defined.

Lemma same_position_iff p q :
  same_position p q <-> (px p / 16 = px q / 16 /\ pz p / 16 = pz q / 16) /\ same_block p q.
Proof.
  unfold same_position, same_block. split.
  - intros (-> & -> & -> & ->). done.
  - intros ((Hx & Hz) & -> & -> & Hmx & Hmz). split_and!; [done| |done|].
    + pose proof (Z.div_mod (px p) 16). pose proof (Z.div_mod (px q) 16). lia.
    + pose proof (Z.div_mod (pz p) 16). pose proof (Z.div_mod (pz q) 16). lia.
Qed.

(** ** Snapshots *)

Lemma proxy_loop_biomes c c' : biomes_ c' = biomes_ c ->
  forall fuel i, proxy_loop fuel i c' = proxy_loop fuel i c.
Proof.
  intros Hb fuel. induction fuel as [|fuel IH]; intros i; cbn [proxy_loop]; rewrite Hb; [done|].
  destruct (i >? 0); [|done]. destruct (vec_at _ i); [|done]. cbn [rbind].
  destruct (BedrockBiomeSection.proxy _); [apply IH|done].
Qed.

Lemma getBiomeId_biomes pos c c' : biomes_ c' = biomes_ c -> co_ c' = co_ c ->
  BedrockChunkColumn.getBiomeId pos c' = BedrockChunkColumn.getBiomeId pos c.
Proof.
  intros Hb Hco. unfold BedrockChunkColumn.getBiomeId. rewrite Hco, Hb.
  destruct (i32 _) as [i|]; [|done]. cbn [rbind]. destruct (_ || _); [done|].
  by rewrite (proxy_loop_biomes c c' Hb).
Qed.

Lemma column_snapshot_ok c pos b :
  col_ok c -> pos_ok pos -> BedrockChunkColumn.getBiomeId pos c = Ok b ->
  exists bl sl entity, column_snapshot pos c =
    Ok (mkSnapshot pos (block_at c (layer_of pos) (px pos) (py pos) (pz pos)) bl sl b entity).
Proof.
  intros Hc Hp Hb. unfold column_snapshot. rewrite getBlockStateId_at by done. cbn [rbind]. rewrite Hb. cbn [rbind].
  rewrite (getSection_ok c (py pos) Hc (proj1 Hp)). cbn [rbind].
  destruct (section_at (co_ c + sec (py pos)) c) as [s|] eqn:Es; [|by eexists _, _, _].
  pose proof (section_at_ok c _ s Hc Es) as Hs.
  unfold BedrockChunkColumn.getBlockLight, BedrockChunkColumn.getSkyLight, loaded_section.
  rewrite !(getSection_ok c (py pos) Hc (proj1 Hp)), Es. cbn [rbind].
  unfold BedrockSubChunk.getBlockLight, BedrockSubChunk.getSkyLight.
  rewrite !PalettedStorage.get_ok by apply Hs. cbn [rbind]. by eexists _, _, _.
Qed.

Section World.
Context {E : Type} `{MapOrder}.
Implicit Types (w : BedrockWorld E) (e : E).

Lemma getBlockStateId_world q w : world_pos q ->
  getBlockStateId q w =
  match columns_ w !! key (px q / 16) (pz q / 16) with
  | Some c => BedrockChunkColumn.getBlockStateId q c
  | None => Ok 0
  end.
Proof.
  intros (_ & Hx & Hz). unfold getBlockStateId, read_column, getLoadedColumnAt.
  by rewrite !chunkCoord_ok by lia.
Qed.

(** C16: [setBlockStateId] by world coordinates changes exactly the addressed
    block of the whole world, queues its chunk for saving when there is a
    saver, and calls the general handlers and then those of the position with
    the block before and after; above or below the column it throws and
    changes nothing; in a chunk that is not loaded it does nothing. *)
Theorem world_set_get w e pos id :
  world_pos pos ->
  let x := px pos / 16 in let z := pz pos / 16 in
  match columns_ w !! key x z with
  | None => setBlockStateId pos id (w, e) = (Ok tt, (w, e)) /\ getBlockStateId pos w = Ok 0
  | Some c =>
      col_ok c ->
      (forall s, section_at (co_ c + sec (py pos)) c = Some s -> palettes_small s) ->
      (exists b, BedrockChunkColumn.getBiomeId pos c = Ok b) ->
      (in_bounds c (py pos) ->
         exists w1 old new,
           setBlockStateId pos id (w, e) =
             on_env (for_each (listeners pos w) (fun handler => handler old new)) (w1, e) /\
           position old = pos /\ position new = pos /\
           getBlockStateId pos w = Ok (snapshot_stateId old) /\ snapshot_stateId new = id /\
           (has_saver w = true -> savingQueue_ w1 !! key x z = Some (x, z)) /\
           forall q, world_pos q ->
             getBlockStateId q w1 = if decide (same_position q pos) then Ok id else getBlockStateId q w) /\
      (~ in_bounds c (py pos) ->
         setBlockStateId pos id (w, e) = (Throw (BedrockChunkError "block Y outside chunk bounds"), (w, e)))
  end.
Proof.
  intros Hp x z. pose proof Hp as (Hpo & Hx & Hz). unfold setBlockStateId. rewrite update_block_eq.
  rewrite !chunkCoord_ok by lia. fold x z. rewrite getBlockStateId_world by done. fold x z.
  destruct (columns_ w !! key x z) as [c|] eqn:Ec; [|done]. intros Hc Hsm (b & Hb).
  destruct (column_snapshot_ok c pos b Hc Hpo Hb) as (bl & sl & ent & Eold). rewrite Eold. split.
  - intros Hin. destruct (setBlockStateId_at c pos id Hc Hpo Hin Hsm) as (c' & Es & Hc' & Hco & _ & Hbs & Hat).
    rewrite Es. cbv zeta.
    destruct (column_snapshot_ok c' pos b Hc' Hpo) as (bl' & sl' & ent' & Enew).
    { by rewrite (getBiomeId_biomes pos c c'). }
    rewrite Enew. eexists _, _, _. split; [done|]. split; [done|]. split; [done|].
    split; [by rewrite getBlockStateId_at|]. split; [cbn; rewrite Hat by done; by rewrite decide_True|].
    split; [intros ->; cbn; apply lookup_insert_eq|].
    intros q Hq. rewrite !getBlockStateId_world by done. set (w1 := if has_saver w then _ else _).
    assert (columns_ w1 = <[key x z := c']> (columns_ w)) as -> by (by unfold w1; destruct (has_saver w)).
    destruct (decide (px q / 16 = x /\ pz q / 16 = z)) as [[Hqx Hqz]|Hne].
    + rewrite Hqx, Hqz, lookup_insert_eq, Ec, !getBlockStateId_at, Hat by (done || apply Hq).
      destruct (decide (same_block q pos)) as [Hs|Hs].
      all: destruct (decide (same_position q pos)) as [Hs'|Hs']; rewrite same_position_iff in Hs'; first [done|exfalso; tauto].
    + rewrite decide_False; [|rewrite same_position_iff; tauto].
      rewrite lookup_insert_ne; [done|]. intros Hk. apply Hne. by apply key_inj in Hk as [<- <-].
  - intros Hin. unfold BedrockChunkColumn.setBlockStateId.
    rewrite (bind_throw _ _ _ _ _ (ensureSection_throws c (py pos) Hc (proj1 Hpo) Hin)).
    unfold with_column. rewrite insert_id by done. by destruct w.
Qed.
End World.

(** A fresh column, as the constructor leaves it. *)
Lemma fresh_world_column : exists c, col_ok c /\
  (exists b, BedrockChunkColumn.getBiomeId (mkPos 49 70 65 None) c = Ok b) /\ in_bounds c 70 /\
  section_at (co_ c + sec 70) c = None.
Proof.
  destruct (column_make_ok 3 4) as (c & Ec & Hc). exists c. split; [exact Hc|].
  assert (match BedrockChunkColumn.make 3 4 with Ok c => (exists b, BedrockChunkColumn.getBiomeId (mkPos 49 70 65 None) c = Ok b) /\
    in_bounds c 70 /\ section_at (co_ c + sec 70) c = None | Throw _ => True end) as Hm.
  { vm_compute. split; [eexists; reflexivity|]. split; [split; [discriminate|reflexivity]|reflexivity]. }
  rewrite Ec in Hm. exact Hm.
Qed.

Lemma world_pos_examples px l : px = 49 \/ px = 33 -> l = None \/ l = Some 0 -> world_pos (mkPos px 70 65 l).
Proof. intros [-> | ->] [-> | ->]; by apply (bool_decide_unpack _). Qed.
Lemma world_set_get_witness :
  exists (w w1 : BedrockWorld unit), setBlockStateId (mkPos 49 70 65 None) 55 (w, tt) = (Ok tt, (w1, tt)) /\
    getBlockStateId (mkPos 49 70 65 (Some 0)) w1 = Ok 55 /\
    getBlockStateId (mkPos 33 70 65 (Some 0)) w1 = Ok 0.
Proof.
  destruct fresh_world_column as (c & Hc & Hb & Hin & Hs).
  set (w := with_column 3 4 c (BedrockWorld.make (E := unit) (mkOptions None None None))).
  pose proof (world_set_get w tt (mkPos 49 70 65 None) 55
    (world_pos_examples 49 None (or_introl eq_refl) (or_introl eq_refl))) as Hw.
  cbv zeta in Hw.
  assert (columns_ w !! key (px (mkPos 49 70 65 None) / 16) (pz (mkPos 49 70 65 None) / 16) = Some c) as Hl.
  { apply lookup_insert_eq. }
  rewrite Hl in Hw. destruct Hw as [Hw _]; [exact Hc|intros s Hs'; cbn [py] in Hs'; rewrite Hs in Hs'; discriminate|exact Hb|].
  destruct (Hw Hin) as (w1 & old & new & Es & _ & _ & _ & _ & _ & Hg).
  exists w, w1. split; [exact Es|]. rewrite !Hg by (apply world_pos_examples; tauto). split; [reflexivity|].
  rewrite decide_False by (intros (_ & Hx & _); discriminate Hx).
  rewrite getBlockStateId_world by (apply world_pos_examples; tauto).
  assert (columns_ w !! key (33 / 16) (65 / 16) = None) as Hn by (apply lookup_insert_None; split; [reflexivity|];
    intros Hk; apply key_inj in Hk as [Hk _]; discriminate Hk).
  cbn [px pz]. rewrite Hn. reflexivity.
Defined.
