(* ===== verification/LegacyChunk.v ===== *)
(** * Legacy chunks (src/src/world/BedrockLegacyChunk.cpp)

    The flat chunk of Bedrock 0.14, the 4096-block section and the chunk of
    sixteen sections of Bedrock 1.0: buffers of bytes and nibbles at fixed
    offsets.  [getBlock], which asks a block registry, is left out; of a block
    [setBlock] reads the fields of [LegacyBlock]. *)

From S2P Require Import Prelude MachineInt GamePacket SubChunk ChunkColumn.

Abbreviation BlockPosition := BedrockChunkColumn.BlockPosition.
Abbreviation px := BedrockChunkColumn.px.
Abbreviation py := BedrockChunkColumn.py.
Abbreviation pz := BedrockChunkColumn.pz.

(** ** Buffers *)

Definition Flat014BlockSize : Z := 16 * 16 * 128.
Definition Flat014NibbleSize : Z := Flat014BlockSize / 2.
Definition Flat014HeightOffset : Z := Flat014BlockSize + Flat014NibbleSize * 3.
Definition Flat014BiomeOffset : Z := Flat014HeightOffset + 256.

Definition Sub10BlockSize : Z := 16 * 16 * 16.
Definition Sub10NibbleSize : Z := Sub10BlockSize / 2.

Definition requireHorizontalPosition (pos : BlockPosition) : result unit :=
  if (px pos <? 0) || (px pos >=? 16) || (pz pos <? 0) || (pz pos >=? 16) then
    Throw (BedrockChunkError "legacy chunk x/z coordinate outside 0..15")
  else Ok tt.

Definition requireLocalSubChunkPosition (pos : BlockPosition) : result unit :=
  let! _ := requireHorizontalPosition pos in
  if (py pos <? 0) || (py pos >=? 16) then
    Throw (BedrockChunkError "legacy subchunk y coordinate outside 0..15")
  else Ok tt.

Definition requireNibble (value : Z) (field : string) : result unit :=
  if value >=? 16 then Throw (BedrockChunkError (field +:+ " must be below 16")) else Ok tt.

Definition readNibble (data : bytes) (nibbleIndex : Z) : result Z :=
  let byteIndex := nibbleIndex / 2 in
  if byteIndex >=? size data then
    Throw (BedrockChunkError "legacy chunk nibble offset outside buffer")
  else
    let! b := vec_at data byteIndex in
    Ok (if Z.land nibbleIndex 1 =? 0 then to_u8 (Z.land b 0x0f) else to_u8 (Z.shiftr b 4)).

(** [data[i] = v]. *)
Definition assign (i v : Z) : M bytes unit :=
  let* data := get_st in let* data := lift (vec_set data i v) in put_st data.

Definition writeNibble (nibbleIndex value : Z) (field : string) : M bytes unit :=
  lift (requireNibble value field) ;;;
  let byteIndex := nibbleIndex / 2 in
  let* data := get_st in
  if byteIndex >=? size data then
    raise (BedrockChunkError "legacy chunk nibble offset outside buffer")
  else
    let* b := lift (vec_at data byteIndex) in
    if Z.land nibbleIndex 1 =? 0 then assign byteIndex (to_u8 (Z.lor (Z.land b 0xf0) value))
    else assign byteIndex (to_u8 (Z.lor (Z.land b 0x0f) (Z.shiftl value 4))).

Definition readU32BE (data : bytes) (offset : Z) : result Z :=
  if offset + 4 >? size data then
    Throw (BedrockChunkError "legacy chunk uint32 offset outside buffer")
  else
    let! b0 := vec_at data offset in
    let! b1 := vec_at data (offset + 1) in
    let! b2 := vec_at data (offset + 2) in
    let! b3 := vec_at data (offset + 3) in
    Ok (Z.lor (Z.lor (Z.lor (Z.shiftl b0 24) (Z.shiftl b1 16)) (Z.shiftl b2 8)) b3).

Definition writeU32BE (offset value : Z) : M bytes unit :=
  let* data := get_st in
  if offset + 4 >? size data then
    raise (BedrockChunkError "legacy chunk uint32 offset outside buffer")
  else
    assign offset (to_u8 (Z.shiftr value 24)) ;;;
    assign (offset + 1) (to_u8 (Z.shiftr value 16)) ;;;
    assign (offset + 2) (to_u8 (Z.shiftr value 8)) ;;;
    assign (offset + 3) (to_u8 value).

Definition flat014Index (pos : BlockPosition) : Z := px pos + 16 * (pz pos + 16 * py pos).

Definition column2dIndex (pos : BlockPosition) : result Z :=
  let! _ := requireHorizontalPosition pos in Ok (pz pos * 16 + px pos).

Definition sub10Index (pos : BlockPosition) : result Z :=
  let! _ := requireLocalSubChunkPosition pos in Ok (1 + px pos * 256 + pz pos * 16 + py pos).

Definition localSubChunkPosition (pos : BlockPosition) : BlockPosition :=
  BedrockChunkColumn.mkPos (px pos) (Z.land (py pos) 0x0f) (pz pos) (BedrockChunkColumn.layer pos).

Definition checkedLegacyType (type : Z) : result Z :=
  if type >? 255 then Throw (BedrockChunkError "legacy block type must fit in one byte")
  else Ok (to_u8 type).

(** The fields of [struct BedrockBlock] that a legacy chunk stores. *)
Record LegacyBlock := mkLegacyBlock {
  type : Z;
  metadata : Z;
  biomeId : Z;
  block_skyLight : Z;
  block_light : Z
}.

(** [initializer], or nothing. *)
Definition BedrockLegacyChunkInitializer : Type := option (Z -> Z -> Z -> result (option LegacyBlock)).

Definition initialize_loop {C} (height : Z) (setBlock : BlockPosition -> LegacyBlock -> M C unit)
    (initializer : BedrockLegacyChunkInitializer) : M C unit :=
  match initializer with
  | None => ret tt
  | Some init =>
      for_each (seqZ 0 height) (fun y => for_each (seqZ 0 16) (fun z => for_each (seqZ 0 16) (fun x =>
        let* block := lift (init x y z) in
        match block with
        | Some b => setBlock (BedrockChunkColumn.mkPos x y z None) b
        | None => ret tt
        end)))
  end.

Record BedrockBiomeColor := mkColor { r : Z; g : Z; b : Z }.

(** ** The flat chunk of 0.14 *)

Module BedrockChunk014.

Definition BedrockChunk014 : Type := bytes.
Definition Height : Z := 128.
Definition BufferSize : Z := 83200.

Definition make : BedrockChunk014 := replicate (Z.to_nat BufferSize) 0.

Definition outside (pos : BlockPosition) : bool := (py pos <? 0) || (py pos >=? Height).

Definition getBlockType (pos : BlockPosition) (data : BedrockChunk014) : result Z :=
  if outside pos then Ok 0
  else
    let! _ := requireHorizontalPosition pos in
    vec_at data (flat014Index pos).
Definition setBlockType (pos : BlockPosition) (type : Z) : M BedrockChunk014 unit :=
  if outside pos then ret tt
  else
    lift (requireHorizontalPosition pos) ;;;
    let* v := lift (checkedLegacyType type) in
    assign (flat014Index pos) v.

Definition getBlockData (pos : BlockPosition) (data : BedrockChunk014) : result Z :=
  if outside pos then Ok 0
  else
    let! _ := requireHorizontalPosition pos in
    readNibble data (Flat014BlockSize * 2 + flat014Index pos).
Definition setBlockData (pos : BlockPosition) (value : Z) : M BedrockChunk014 unit :=
  if outside pos then ret tt
  else
    lift (requireHorizontalPosition pos) ;;;
    writeNibble (Flat014BlockSize * 2 + flat014Index pos) value "block data".

Definition getBlockLight (pos : BlockPosition) (data : BedrockChunk014) : result Z :=
  if outside pos then Ok 0
  else
    let! _ := requireHorizontalPosition pos in
    readNibble data ((Flat014BlockSize + Flat014NibbleSize) * 2 + flat014Index pos).
Definition setBlockLight (pos : BlockPosition) (light : Z) : M BedrockChunk014 unit :=
  if outside pos then ret tt
  else
    lift (requireHorizontalPosition pos) ;;;
    writeNibble ((Flat014BlockSize + Flat014NibbleSize) * 2 + flat014Index pos) light "block light".

Definition getSkyLight (pos : BlockPosition) (data : BedrockChunk014) : result Z :=
  if outside pos then Ok 0
  else
    let! _ := requireHorizontalPosition pos in
    readNibble data ((Flat014BlockSize + Flat014NibbleSize * 2) * 2 + flat014Index pos).
Definition setSkyLight (pos : BlockPosition) (light : Z) : M BedrockChunk014 unit :=
  if outside pos then ret tt
  else
    lift (requireHorizontalPosition pos) ;;;
    writeNibble ((Flat014BlockSize + Flat014NibbleSize * 2) * 2 + flat014Index pos) light "sky light".

Definition biome_offset (pos : BlockPosition) : result Z :=
  let! i := column2dIndex pos in Ok (Flat014BiomeOffset + i * 4).

Definition getBiomeColor (pos : BlockPosition) (data : BedrockChunk014) : result BedrockBiomeColor :=
  let! offset := biome_offset pos in
  let! value := readU32BE data offset in
  Ok (mkColor (to_u8 (Z.shiftr value 16)) (to_u8 (Z.shiftr value 8)) (to_u8 value)).
Definition setBiomeColor (pos : BlockPosition) (r g b : Z) : M BedrockChunk014 unit :=
  let* offset := lift (biome_offset pos) in
  let* data := get_st in
  let* old := lift (readU32BE data offset) in
  writeU32BE offset (Z.lor (Z.lor (Z.lor (Z.land old 0xff000000) (Z.shiftl r 16)) (Z.shiftl g 8)) b).

Definition getBiome (pos : BlockPosition) (data : BedrockChunk014) : result Z :=
  let! offset := biome_offset pos in
  let! value := readU32BE data offset in
  Ok (to_i8 (Z.shiftr value 24)).
Definition setBiome (pos : BlockPosition) (id : Z) : M BedrockChunk014 unit :=
  let* offset := lift (biome_offset pos) in
  let* data := get_st in
  let* old := lift (readU32BE data offset) in
  writeU32BE offset (Z.lor (Z.land old 0x00ffffff) (to_u32 (Z.shiftl (Z.land (to_u32 id) 0xff) 24))).

Definition getHeight (pos : BlockPosition) (data : BedrockChunk014) : result Z :=
  let! i := column2dIndex pos in vec_at data (Flat014HeightOffset + i).
Definition setHeight (pos : BlockPosition) (value : Z) : M BedrockChunk014 unit :=
  let* i := lift (column2dIndex pos) in assign (Flat014HeightOffset + i) value.

Definition setBlock (pos : BlockPosition) (block : LegacyBlock) : M BedrockChunk014 unit :=
  setBlockType pos (type block) ;;;
  setBlockData pos (to_u8 (metadata block)) ;;;
  setBiome pos (biomeId block) ;;;
  setSkyLight pos (block_skyLight block) ;;;
  setBlockLight pos (block_light block).

Definition initialize (initializer : BedrockLegacyChunkInitializer) : M BedrockChunk014 unit :=
  initialize_loop Height setBlock initializer.

Definition load (data : bytes) : M BedrockChunk014 unit :=
  if negb (size data =? BufferSize) then
    raise (BedrockChunkError ("Bedrock 0.14 chunk buffer has size " +:+ to_string (size data) +:+
      ", expected " +:+ to_string BufferSize))
  else put_st data.
Definition dump (data : BedrockChunk014) : bytes := data.
Definition getMask : Z := 0xffff.

End BedrockChunk014.

(** ** The section of 1.0 *)

Module BedrockSubChunk10.

Definition BedrockSubChunk10 : Type := bytes.
Definition BufferSize : Z := 10241.

Definition make : BedrockSubChunk10 := replicate (Z.to_nat BufferSize) 0.

Definition getBlockType (pos : BlockPosition) (data : BedrockSubChunk10) : result Z :=
  let! i := sub10Index pos in vec_at data i.
(** The right-hand side of an assignment is evaluated first. *)
Definition setBlockType (pos : BlockPosition) (type : Z) : M BedrockSubChunk10 unit :=
  let* v := lift (checkedLegacyType type) in
  let* i := lift (sub10Index pos) in
  assign i v.

Definition getBlockData (pos : BlockPosition) (data : BedrockSubChunk10) : result Z :=
  let! i := sub10Index pos in readNibble data (Sub10BlockSize * 2 + i).
Definition setBlockData (pos : BlockPosition) (value : Z) : M BedrockSubChunk10 unit :=
  let* i := lift (sub10Index pos) in
  writeNibble (Sub10BlockSize * 2 + i) value "block data".

Definition getBlockLight (pos : BlockPosition) (data : BedrockSubChunk10) : result Z :=
  let! i := sub10Index pos in readNibble data ((Sub10BlockSize + Sub10NibbleSize * 2) * 2 + i).
Definition setBlockLight (pos : BlockPosition) (light : Z) : M BedrockSubChunk10 unit :=
  let* i := lift (sub10Index pos) in
  writeNibble ((Sub10BlockSize + Sub10NibbleSize * 2) * 2 + i) light "block light".

Definition getSkyLight (pos : BlockPosition) (data : BedrockSubChunk10) : result Z :=
  let! i := sub10Index pos in readNibble data ((Sub10BlockSize + Sub10NibbleSize) * 2 + i).
Definition setSkyLight (pos : BlockPosition) (light : Z) : M BedrockSubChunk10 unit :=
  let* i := lift (sub10Index pos) in
  writeNibble ((Sub10BlockSize + Sub10NibbleSize) * 2 + i) light "sky light".

Definition load (data : bytes) : M BedrockSubChunk10 unit :=
  if negb (size data =? BufferSize) then
    raise (BedrockChunkError ("Bedrock 1.0 subchunk buffer has size " +:+ to_string (size data) +:+
      ", expected " +:+ to_string BufferSize))
  else put_st data.
Definition dump (data : BedrockSubChunk10) : bytes := data.

End BedrockSubChunk10.

(** ** The chunk of 1.0 *)

Module BedrockChunk10.

Record BedrockChunk10 := mkChunk10 {
  sections_ : list BedrockSubChunk10.BedrockSubChunk10;
  data_ : bytes
}.
Definition Height : Z := 256.
Definition BufferSize : Z := 164627.

(** The biomes start as 1. *)
Definition make : BedrockChunk10 :=
  mkChunk10 (replicate 16 BedrockSubChunk10.make) (replicate 256 1 ++ replicate 512 0).

Definition set_sections s c : BedrockChunk10 := mkChunk10 s (data_ c).
Definition set_data d c : BedrockChunk10 := mkChunk10 (sections_ c) d.

(** [getSection]: the section the pointer refers to, if any. *)
Definition getSection (sectionY : Z) (c : BedrockChunk10) : option BedrockSubChunk10.BedrockSubChunk10 :=
  if (sectionY <? 0) || (sectionY >=? size (sections_ c)) then None
  else sections_ c !! Z.to_nat sectionY.

(** [section == nullptr ? absent : section->f(localSubChunkPosition(pos))]. *)
Definition read_section (absent : Z) (f : BlockPosition -> BedrockSubChunk10.BedrockSubChunk10 -> result Z)
    (pos : BlockPosition) (c : BedrockChunk10) : result Z :=
  match getSection (Z.shiftr (py pos) 4) c with
  | None => Ok absent
  | Some section => f (localSubChunkPosition pos) section
  end.

(** [if (section != nullptr) section->f(localSubChunkPosition(pos), value)]. *)
Definition write_section (f : BlockPosition -> Z -> M BedrockSubChunk10.BedrockSubChunk10 unit)
    (pos : BlockPosition) (value : Z) : M BedrockChunk10 unit :=
  fun c =>
    match getSection (Z.shiftr (py pos) 4) c with
    | None => (Ok tt, c)
    | Some section =>
        match f (localSubChunkPosition pos) value section with
        | (res, section') =>
            (res, set_sections (<[Z.to_nat (Z.shiftr (py pos) 4) := section']> (sections_ c)) c)
        end
    end.

Definition getBlockType : BlockPosition -> BedrockChunk10 -> result Z :=
  read_section 0 BedrockSubChunk10.getBlockType.
Definition setBlockType : BlockPosition -> Z -> M BedrockChunk10 unit :=
  write_section BedrockSubChunk10.setBlockType.
Definition getBlockData : BlockPosition -> BedrockChunk10 -> result Z :=
  read_section 0 BedrockSubChunk10.getBlockData.
Definition setBlockData : BlockPosition -> Z -> M BedrockChunk10 unit :=
  write_section BedrockSubChunk10.setBlockData.
Definition getBlockLight : BlockPosition -> BedrockChunk10 -> result Z :=
  read_section 0 BedrockSubChunk10.getBlockLight.
Definition setBlockLight : BlockPosition -> Z -> M BedrockChunk10 unit :=
  write_section BedrockSubChunk10.setBlockLight.
Definition getSkyLight : BlockPosition -> BedrockChunk10 -> result Z :=
  read_section 15 BedrockSubChunk10.getSkyLight.
Definition setSkyLight : BlockPosition -> Z -> M BedrockChunk10 unit :=
  write_section BedrockSubChunk10.setSkyLight.

Definition getBiomeColor (pos : BlockPosition) (c : BedrockChunk10) : BedrockBiomeColor := mkColor 0 0 0.
Definition setBiomeColor (pos : BlockPosition) (r g b : Z) : M BedrockChunk10 unit := ret tt.

Definition getBiome (pos : BlockPosition) (c : BedrockChunk10) : result Z :=
  let! i := column2dIndex pos in vec_at (data_ c) i.
Definition setBiome (pos : BlockPosition) (id : Z) : M BedrockChunk10 unit :=
  let* i := lift (column2dIndex pos) in zoom data_ set_data (assign i id).
Definition getHeight (pos : BlockPosition) (c : BedrockChunk10) : result Z :=
  let! i := column2dIndex pos in vec_at (data_ c) i.
Definition setHeight (pos : BlockPosition) (height : Z) : M BedrockChunk10 unit :=
  let* i := lift (column2dIndex pos) in zoom data_ set_data (assign i height).

Definition setBlock (pos : BlockPosition) (block : LegacyBlock) : M BedrockChunk10 unit :=
  setBlockType pos (type block) ;;;
  setBlockData pos (to_u8 (metadata block)) ;;;
  setBiome pos (to_u8 (biomeId block)) ;;;
  setSkyLight pos (block_skyLight block) ;;;
  setBlockLight pos (block_light block).

Definition initialize (initializer : BedrockLegacyChunkInitializer) : M BedrockChunk10 unit :=
  initialize_loop Height setBlock initializer.

(** [sections_[i].load(...)] for the sections that the buffer declares. *)
Fixpoint load_sections (n : nat) (i offset : Z) (data : bytes) : M BedrockChunk10 unit :=
  match n with
  | O => ret tt
  | S n' =>
      let* part := lift (vec_range data offset (offset + BedrockSubChunk10.BufferSize)) in
      let* c := get_st in
      let* section := lift (vec_at (sections_ c) i) in
      let* section := lift (exec (BedrockSubChunk10.load part) section) in
      let* sections := lift (vec_set (sections_ c) i section) in
      put_st (set_sections sections c) ;;;
      load_sections n' (i + 1) (offset + BedrockSubChunk10.BufferSize) data
  end.

Definition load (data : bytes) : M BedrockChunk10 unit :=
  let* c := get_st in
  if bool_decide (data = []) then raise (BedrockChunkError "Bedrock 1.0 chunk buffer is empty")
  else
    let* sectionCount := lift (vec_at data 0) in
    let required := 1 + sectionCount * BedrockSubChunk10.BufferSize in
    if (sectionCount >? size (sections_ c)) || (required >? size data) then
      raise (BedrockChunkError ("Bedrock 1.0 chunk buffer has size " +:+ to_string (size data) +:+
        ", expected at least " +:+ to_string required))
    else load_sections (Z.to_nat sectionCount) 0 1 data.

Definition dump (c : BedrockChunk10) : bytes :=
  [to_u8 (size (sections_ c))] ++ concat (BedrockSubChunk10.dump <$> sections_ c) ++ data_ c ++ [0; 0].

Definition getMask : Z := 0xffff.

End BedrockChunk10.
