(* ===== verification/LegacyState.v ===== *)
(** * Nibbles and bytes of the legacy chunks

    A buffer seen as an array of nibbles; every field of LegacyChunk.v is a
    range of one or two nibbles, and its setter writes that range alone. *)

From S2P Require Import Prelude MachineInt GamePacket SubChunk ChunkColumn LegacyChunk.

(** ** The views *)

Definition byte_at (d : bytes) (k : Z) : Z := default 0 (d !! Z.to_nat k).
Definition nib (d : bytes) (i : Z) : Z :=
  if i mod 2 =? 0 then byte_at d (i / 2) mod 16 else byte_at d (i / 2) / 16.

Lemma byte_at_range d k : is_bytes d -> 0 <= byte_at d k < 256.
Proof.
  intros Hd. unfold byte_at. destruct (d !! Z.to_nat k) as [b|] eqn:E; [|cbn; lia].
  pose proof (Forall_lookup_1 _ _ _ _ Hd E) as Hb. unfold is_u in Hb. change (2 ^ 8) with 256 in Hb. exact Hb.
Qed.

Lemma vec_at_byte d k : 0 <= k < size d -> vec_at d k = Ok (byte_at d k).
Proof. intros Hk. destruct (vec_at_ok d k Hk) as (b & -> & Hb). unfold byte_at. by rewrite Hb. Qed.

Lemma byte_nibs d k : is_bytes d -> byte_at d k = nib d (2 * k) + 16 * nib d (2 * k + 1).
Proof.
  intros Hd. unfold nib. pose proof (byte_at_range d k Hd).
  replace ((2 * k) mod 2) with 0 by (rewrite Z.mul_comm, Z.mod_mul by lia; done).
  replace (2 * k / 2) with k by (rewrite Z.mul_comm, Z.div_mul by lia; done).
  replace ((2 * k + 1) mod 2) with 1 by (apply (Z.mod_unique_pos _ 2 k); lia).
  replace ((2 * k + 1) / 2) with k by (apply (Z.div_unique_pos _ 2 k 1); lia). cbn [Z.eqb].
  pose proof (Z.div_mod (byte_at d k) 16 ltac:(lia)). lia.
Qed.

Lemma nib_range d i : is_bytes d -> 0 <= nib d i < 16.
Proof.
  intros Hd. pose proof (byte_at_range d (i / 2) Hd). unfold nib. destruct (_ =? 0).
  - apply Z.mod_pos_bound. lia.
  - split; [apply Z.div_pos; lia|apply Z.div_lt_upper_bound; lia].
Qed.

(** ** One byte *)

Lemma vec_set_byte d k v : 0 <= k < size d ->
  exists d', vec_set d k v = Ok d' /\ size d' = size d /\ (is_bytes d -> is_u 8 v -> is_bytes d') /\
    forall j, 0 <= j -> byte_at d' j = if j =? k then v else byte_at d j.
Proof.
  intros Hk. exists (<[Z.to_nat k := v]> d). unfold vec_set.
  rewrite (proj2 (Z.leb_le _ _)), (proj2 (Z.ltb_lt _ _)) by lia. cbn [andb]. split; [done|].
  split; [unfold size; by rewrite length_insert|]. split; [intros; by apply Forall_insert|].
  intros j Hj. unfold byte_at, size in *. destruct (Z.eqb_spec j k) as [->|Hne].
  - rewrite list_lookup_insert_eq by lia. done.
  - by rewrite list_lookup_insert_ne by lia.
Qed.

Lemma assign_byte d k v : 0 <= k < size d ->
  exists d', assign k v d = (Ok tt, d') /\ size d' = size d /\ (is_bytes d -> is_u 8 v -> is_bytes d') /\
    forall j, 0 <= j -> byte_at d' j = if j =? k then v else byte_at d j.
Proof.
  intros Hk. destruct (vec_set_byte d k v Hk) as (d' & Ed & H). exists d'. split; [|exact H].
  unfold assign. rewrite bind_get, Ed, bind_lift. done.
Qed.

(** ** Nibble ranges *)

(** The nibbles from [a], of one or two. *)
Record place := mkPlace { from : Z; wide : bool }.
#[export] Instance place_eq_dec : EqDecision place.
Proof. solve_decision. Defined.

Definition value_at (d : bytes) (p : place) : Z :=
  if wide p then nib d (from p) + 16 * nib d (from p + 1) else nib d (from p).
Definition limit (p : place) : Z := if wide p then 256 else 16.
Definition covers (p : place) (i : Z) : Prop := i = from p \/ wide p = true /\ i = from p + 1.
Definition apart (p q : place) : Prop := forall i, covers p i -> covers q i -> False.

(** A buffer with [v] at [p]. *)
Record wrote (p : place) (v : Z) (d d' : bytes) : Prop := mkWrote {
  wrote_size : size d' = size d;
  wrote_bytes : is_bytes d';
  wrote_value : value_at d' p = v;
  wrote_rest i : 0 <= i -> ~ covers p i -> nib d' i = nib d i
}.

Lemma wrote_apart p v d d' q : wrote p v d d' -> apart p q -> 0 <= from q -> value_at d' q = value_at d q.
Proof.
  intros [_ _ _ Hr] Ha Hq. unfold value_at. destruct (wide q) eqn:Ew.
  - rewrite !Hr; [done|lia| |lia|]; intros Hc; apply (Ha _ Hc); [by right|by left].
  - rewrite Hr; [done|lia|]. intros Hc; apply (Ha _ Hc). by left.
Qed.

Lemma half k i : i / 2 = k <-> i = 2 * k \/ i = 2 * k + 1.
Proof. pose proof (Z.div_mod i 2 ltac:(lia)). pose proof (Z.mod_pos_bound i 2 ltac:(lia)). lia. Qed.

Lemma nib_other d d' i : byte_at d' (i / 2) = byte_at d (i / 2) -> nib d' i = nib d i.
Proof. unfold nib. by intros ->. Qed.

Lemma assign_wrote d k v :
  is_bytes d -> 0 <= k < size d -> is_u 8 v ->
  exists d', assign k v d = (Ok tt, d') /\ wrote (mkPlace (2 * k) true) v d d'.
Proof.
  intros Hd Hk Hv. destruct (assign_byte d k v Hk) as (d' & Ed & Hs & Hb & Hj). exists d'. split; [done|].
  specialize (Hb Hd Hv). split; [done|done| |].
  - unfold value_at. cbn [wide from]. rewrite <- byte_nibs by done. rewrite Hj by lia. by rewrite Z.eqb_refl.
  - intros i Hi Hc. apply nib_other. rewrite Hj by (apply Z.div_pos; lia).
    destruct (Z.eqb_spec (i / 2) k) as [He|]; [|done]. destruct Hc. apply half in He. unfold covers. cbn. tauto.
Qed.

(** The high bits of a byte. *)
Lemma land_shifted x a m : 0 <= a -> 0 <= m -> Z.land x (Z.shiftl (Z.ones m) a) = ((x / 2 ^ a) mod 2 ^ m) * 2 ^ a.
Proof.
  intros Ha Hm. rewrite <- Z.shiftl_mul_pow2, <- Z.land_ones, <- Z.shiftr_div_pow2 by done.
  apply Z.bits_inj'. intros n Hn. rewrite Z.land_spec, !Z.shiftl_spec by done.
  destruct (decide (n < a)).
  - rewrite (Z.testbit_neg_r (Z.ones m)), (Z.testbit_neg_r (Z.land _ _)) by lia. by rewrite andb_false_r.
  - rewrite Z.land_spec, Z.shiftr_spec by lia. by replace (n - a + a) with n by lia.
Qed.

Lemma writeNibble_wrote d i v f :
  is_bytes d -> 0 <= i < 2 * size d -> 0 <= v < 16 ->
  exists d', writeNibble i v f d = (Ok tt, d') /\ wrote (mkPlace i false) v d d'.
Proof.
  intros Hd Hi Hv. assert (0 <= i / 2 < size d) as Hk.
  { split; [apply Z.div_pos; lia|apply Z.div_lt_upper_bound; lia]. }
  unfold writeNibble, requireNibble. destruct (Z.geb_spec v 16); [lia|]. rewrite bind_lift, bind_get.
  destruct (Z.geb_spec (i / 2) (size d)); [lia|]. rewrite vec_at_byte, bind_lift by done.
  pose proof (byte_at_range d (i / 2) Hd) as Hb. rewrite land_1.
  destruct (Z.eqb_spec (i mod 2) 0) as [Ei|Ei].
  - assert (to_u8 (Z.lor (Z.land (byte_at d (i / 2)) 0xf0) v) = 16 * (byte_at d (i / 2) / 16) + v) as ->.
    { change 0xf0 with (Z.shiftl (Z.ones 4) 4). rewrite land_shifted by lia. rewrite Z.lor_comm, lor_mul_add by lia.
      change (2 ^ 4) with 16. rewrite Z.mod_small by (split; [apply Z.div_pos; lia|apply Z.div_lt_upper_bound; lia]).
      unfold to_u8. change (2 ^ 8) with 256. rewrite (Z.add_comm v), (Z.mul_comm _ 16). pose proof (Z.div_mod (byte_at d (i / 2)) 16 ltac:(lia)). apply Z.mod_small.
      pose proof (Z.mod_pos_bound (byte_at d (i / 2)) 16 ltac:(lia)). lia. }
    set (w := 16 * _ + v). assert (is_u 8 w) as Hw.
    { unfold w, is_u. change (2 ^ 8) with 256. pose proof (Z.div_mod (byte_at d (i / 2)) 16 ltac:(lia)).
      pose proof (Z.mod_pos_bound (byte_at d (i / 2)) 16 ltac:(lia)). lia. }
    destruct (assign_byte d (i / 2) w Hk) as (d' & Ed & Hs & Hbs & Hj). exists d'. split; [done|].
    split; [done|by apply Hbs| |].
    + unfold value_at, nib. cbn [wide from]. rewrite Hj, Z.eqb_refl, Ei by lia. cbn [Z.eqb]. unfold w.
      symmetry. apply (Z.mod_unique_pos _ 16 (byte_at d (i / 2) / 16)); lia.
    + intros j Hj0 Hc. unfold nib. rewrite Hj by (apply Z.div_pos; lia).
      destruct (Z.eqb_spec (j / 2) (i / 2)) as [He|]; [|done]. rewrite He.
      destruct (Z.eqb_spec (j mod 2) 0) as [Ej|Ej].
      { destruct Hc. left. cbn. pose proof (Z.div_mod j 2 ltac:(lia)). pose proof (Z.div_mod i 2 ltac:(lia)). lia. }
      unfold w. symmetry. apply (Z.div_unique_pos _ 16 _ v); lia.
  - assert (to_u8 (Z.lor (Z.land (byte_at d (i / 2)) 0x0f) (Z.shiftl v 4)) = byte_at d (i / 2) mod 16 + v * 16) as ->.
    { pose proof (Z.mod_pos_bound (byte_at d (i / 2)) 16 ltac:(lia)). rewrite land_15, lor_shiftl_add by lia.
      unfold to_u8. apply Z.mod_small. change (2 ^ 4) with 16. change (2 ^ 8) with 256. lia. }
    set (w := _ + v * 16). pose proof (Z.mod_pos_bound (byte_at d (i / 2)) 16 ltac:(lia)).
    assert (is_u 8 w) as Hw by (unfold w, is_u; change (2 ^ 8) with 256; lia).
    destruct (assign_byte d (i / 2) w Hk) as (d' & Ed & Hs & Hbs & Hj). exists d'. split; [done|].
    split; [done|by apply Hbs| |].
    + unfold value_at, nib. cbn [wide from]. rewrite Hj, Z.eqb_refl by lia. rewrite (proj2 (Z.eqb_neq _ _) Ei).
      unfold w. symmetry. apply (Z.div_unique_pos _ 16 _ (byte_at d (i / 2) mod 16)); lia.
    + intros j Hj0 Hc. unfold nib. rewrite Hj by (apply Z.div_pos; lia).
      destruct (Z.eqb_spec (j / 2) (i / 2)) as [He|]; [|done]. rewrite He.
      destruct (Z.eqb_spec (j mod 2) 0) as [Ej|Ej].
      2:{ destruct Hc. left. cbn. pose proof (Z.div_mod j 2 ltac:(lia)). pose proof (Z.div_mod i 2 ltac:(lia)).
          pose proof (Z.mod_pos_bound j 2 ltac:(lia)). pose proof (Z.mod_pos_bound i 2 ltac:(lia)). lia. }
      unfold w. symmetry. apply (Z.mod_unique_pos _ 16 v); lia.
Qed.

(** ** Reading *)

Lemma read_nibble d i : is_bytes d -> 0 <= i < 2 * size d -> readNibble d i = Ok (value_at d (mkPlace i false)).
Proof.
  intros Hd Hi. assert (0 <= i / 2 < size d) as Hk.
  { split; [apply Z.div_pos; lia|apply Z.div_lt_upper_bound; lia]. }
  unfold readNibble. destruct (Z.geb_spec (i / 2) (size d)); [lia|]. rewrite vec_at_byte by done. cbn [rbind].
  pose proof (byte_at_range d (i / 2) Hd). rewrite land_1, land_15, shiftr_div by lia.
  unfold value_at, nib, to_u8. cbn [wide from]. change (2 ^ 4) with 16. change (2 ^ 8) with 256.
  destruct (i mod 2 =? 0); rewrite Z.mod_small; try done.
  - pose proof (Z.mod_pos_bound (byte_at d (i / 2)) 16 ltac:(lia)). lia.
  - split; [apply Z.div_pos; lia|apply Z.div_lt_upper_bound; lia].
Qed.

Lemma read_byte d k : is_bytes d -> 0 <= k < size d -> vec_at d k = Ok (value_at d (mkPlace (2 * k) true)).
Proof. intros Hd Hk. rewrite vec_at_byte by done. unfold value_at. cbn [wide from]. by rewrite <- byte_nibs. Qed.

(** Two ranges one before the other. *)
Lemma apart_before p q : from p + (if wide p then 2 else 1) <= from q -> apart p q.
Proof. intros Hle i [->|[Hw ->]] [Hi|[_ Hi]]; destruct (wide p); lia || done. Qed.
Lemma apart_sym p q : apart p q -> apart q p.
Proof. intros Ha i Hq Hp. by apply (Ha i). Qed.

(** ** Positions *)

Definition flat_ok (pos : BlockPosition) : Prop := 0 <= px pos < 16 /\ 0 <= pz pos < 16.
#[export] Instance flat_ok_dec pos : Decision (flat_ok pos).
Proof. unfold flat_ok. apply _. Defined.
Definition same_cell (p q : BlockPosition) : Prop := px p = px q /\ py p = py q /\ pz p = pz q.
#[export] Instance same_cell_dec p q : Decision (same_cell p q).
Proof. unfold same_cell. apply _. Defined.
Definition same_column (p q : BlockPosition) : Prop := px p = px q /\ pz p = pz q.
#[export] Instance same_column_dec p q : Decision (same_column p q).
Proof. unfold same_column. apply _. Defined.

Lemma horizontal_ok pos : flat_ok pos -> requireHorizontalPosition pos = Ok tt.
Proof.
  intros [Hx Hz]. unfold requireHorizontalPosition.
  destruct (Z.ltb_spec (px pos) 0), (Z.geb_spec (px pos) 16), (Z.ltb_spec (pz pos) 0), (Z.geb_spec (pz pos) 16);
    try lia. done.
Qed.

Lemma horizontal_throws pos : ~ flat_ok pos ->
  requireHorizontalPosition pos = Throw (BedrockChunkError "legacy chunk x/z coordinate outside 0..15").
Proof.
  intros Hf. unfold requireHorizontalPosition.
  destruct (Z.ltb_spec (px pos) 0), (Z.geb_spec (px pos) 16), (Z.ltb_spec (pz pos) 0), (Z.geb_spec (pz pos) 16);
    try done. destruct Hf. split; lia.
Qed.

Lemma writeNibble_throws i v f d : 16 <= v ->
  writeNibble i v f d = (Throw (BedrockChunkError (f +:+ " must be below 16")), d).
Proof. intros Hv. unfold writeNibble, requireNibble. by destruct (Z.geb_spec v 16); [|lia]. Qed.
