(* ===== verification/Legacy014.v ===== *)
(** * The flat chunk of 0.14 is an array of fields

    Block type, data, lights, biome and height are independent arrays in one
    buffer. *)

From S2P Require Import Prelude MachineInt GamePacket SubChunk ChunkColumn LegacyChunk LegacyState.
Import BedrockChunk014.

Record wf014 (d : bytes) : Prop := mkWf014 { wf014_bytes : is_bytes d; wf014_size : size d = BufferSize }.

(** ** Fields *)

Inductive field014 := Kind | Data | BlockLight | SkyLight | Biome | Height_.
#[export] Instance field014_eq_dec : EqDecision field014.
Proof. solve_decision. Defined.

Definition get014 (f : field014) : BlockPosition -> bytes -> result Z :=
  match f with
  | Kind => getBlockType | Data => getBlockData | BlockLight => getBlockLight
  | SkyLight => getSkyLight | Biome => getBiome | Height_ => getHeight
  end.
Definition set014 (f : field014) : BlockPosition -> Z -> M bytes unit :=
  match f with
  | Kind => setBlockType | Data => setBlockData | BlockLight => setBlockLight
  | SkyLight => setSkyLight | Biome => setBiome | Height_ => setHeight
  end.

(** One value per column, or per block. *)
Definition per_column (f : field014) : bool := match f with Biome | Height_ => true | _ => false end.

Definition in014 (f : field014) (pos : BlockPosition) : Prop :=
  flat_ok pos /\ (per_column f = true \/ 0 <= py pos < 128).

(** What the field can hold. *)
Definition fits014 (f : field014) (v : Z) : Prop :=
  match f with Kind | Height_ => is_u 8 v | Biome => is_s 8 v | _ => 0 <= v < 16 end.

Definition same_field (f g : field014) (p q : BlockPosition) : Prop :=
  f = g /\ px p = px q /\ pz p = pz q /\ (per_column f = true \/ py p = py q).
#[export] Instance same_field_dec f g p q : Decision (same_field f g p q).
Proof. unfold same_field. apply _. Defined.

Definition place014 (f : field014) (pos : BlockPosition) : place :=
  let i := flat014Index pos in
  let column := pz pos * 16 + px pos in
  match f with
  | Kind => mkPlace (2 * i) true
  | Data => mkPlace (65536 + i) false
  | BlockLight => mkPlace (98304 + i) false
  | SkyLight => mkPlace (131072 + i) false
  | Height_ => mkPlace (2 * (81920 + column)) true
  | Biome => mkPlace (2 * (82176 + column * 4)) true
  end.

Lemma outside_false pos : 0 <= py pos < 128 -> outside pos = false.
Proof.
  intros Hy. unfold outside, Height. destruct (Z.ltb_spec (py pos) 0), (Z.geb_spec (py pos) 128); lia || done.
Qed.

Lemma index014_range pos : flat_ok pos -> 0 <= py pos < 128 -> 0 <= flat014Index pos < 32768.
Proof. unfold flat_ok, flat014Index. lia. Qed.

Lemma place014_apart f g p q : in014 f p -> in014 g q -> ~ same_field f g p q ->
  apart (place014 f p) (place014 g q).
Proof.
  intros [Hp Hyp] [Hq Hyq] Hne i Hi Hj. unfold flat_ok in *. apply Hne.
  assert (per_column f = per_column g /\ f = g) as [_ <-].
  { destruct f, g; cbn in *; unfold covers, flat014Index in *; cbn in *; try done; exfalso;
      destruct Hyp, Hyq; try done; lia. }
  split; [done|]. unfold covers in *. destruct f; cbn in *; unfold flat014Index in *; destruct Hyp, Hyq; try done.
  all: first [assert (py p = py q) by lia|idtac]; assert (px p = px q /\ pz p = pz q) by lia; tauto.
Qed.

(** ** Big-endian words *)

Lemma readU32BE_bytes d o : is_bytes d -> 0 <= o -> o + 4 <= size d ->
  readU32BE d o = Ok (byte_at d o * 2 ^ 24 + byte_at d (o + 1) * 2 ^ 16 + byte_at d (o + 2) * 2 ^ 8 + byte_at d (o + 3)).
Proof.
  intros Hd Ho Hs. unfold readU32BE. destruct (Z.gtb_spec (o + 4) (size d)); [lia|].
  rewrite !vec_at_byte by lia. cbn [rbind]. f_equal.
  pose proof (byte_at_range d o Hd). pose proof (byte_at_range d (o + 1) Hd).
  pose proof (byte_at_range d (o + 2) Hd). pose proof (byte_at_range d (o + 3) Hd).
  rewrite !(Z.lor_comm (Z.lor _ _)), (Z.lor_comm (Z.shiftl _ 24)).
  rewrite !shiftl_mul by lia.
  rewrite (lor_mul_add (byte_at d (o + 1) * 2 ^ 16) (byte_at d o) 24) by lia.
  replace (byte_at d (o + 1) * 2 ^ 16 + byte_at d o * 2 ^ 24) with ((byte_at d (o + 1) + byte_at d o * 2 ^ 8) * 2 ^ 16) by lia.
  rewrite (lor_mul_add (byte_at d (o + 2) * 2 ^ 8) _ 16) by lia.
  replace (byte_at d (o + 2) * 2 ^ 8 + (byte_at d (o + 1) + byte_at d o * 2 ^ 8) * 2 ^ 16)
    with ((byte_at d (o + 2) + (byte_at d (o + 1) + byte_at d o * 2 ^ 8) * 2 ^ 8) * 2 ^ 8) by lia.
  rewrite (lor_mul_add (byte_at d (o + 3)) _ 8) by lia. lia.
Qed.

Lemma writeU32BE_bytes d o v : is_bytes d -> 0 <= o -> o + 4 <= size d ->
  exists d', writeU32BE o v d = (Ok tt, d') /\ size d' = size d /\ is_bytes d' /\
    forall j, 0 <= j -> byte_at d' j =
      if j =? o then (v / 2 ^ 24) mod 2 ^ 8 else if j =? o + 1 then (v / 2 ^ 16) mod 2 ^ 8
      else if j =? o + 2 then (v / 2 ^ 8) mod 2 ^ 8 else if j =? o + 3 then v mod 2 ^ 8 else byte_at d j.
Proof.
  intros Hd Ho Hs. unfold writeU32BE. rewrite bind_get. destruct (Z.gtb_spec (o + 4) (size d)); [lia|].
  assert (forall z, is_u 8 (to_u8 z)) as Hu by (intros z; apply Z.mod_pos_bound; lia).
  destruct (assign_byte d o (to_u8 (Z.shiftr v 24)) ltac:(lia)) as (d1 & E1 & Hs1 & Hb1 & Hj1).
  destruct (assign_byte d1 (o + 1) (to_u8 (Z.shiftr v 16)) ltac:(lia)) as (d2 & E2 & Hs2 & Hb2 & Hj2).
  destruct (assign_byte d2 (o + 2) (to_u8 (Z.shiftr v 8)) ltac:(lia)) as (d3 & E3 & Hs3 & Hb3 & Hj3).
  destruct (assign_byte d3 (o + 3) (to_u8 v) ltac:(lia)) as (d4 & E4 & Hs4 & Hb4 & Hj4).
  exists d4. rewrite (bind_ok _ _ _ _ _ E1), (bind_ok _ _ _ _ _ E2), (bind_ok _ _ _ _ _ E3).
  split; [done|]. split; [lia|]. split; [auto|]. intros j Hj. rewrite Hj4, Hj3, Hj2, Hj1 by done.
  unfold to_u8. rewrite !shiftr_div by lia.
  destruct (Z.eqb_spec j (o + 3)), (Z.eqb_spec j (o + 2)), (Z.eqb_spec j (o + 1)), (Z.eqb_spec j o); lia || done.
Qed.

(** ** Reading and writing a field *)

(** The value of a field from the bits of its place. *)
Definition decode014 (f : field014) (v : Z) : Z := match f with Biome => to_i8 v | _ => v end.

Lemma column2d_ok pos : flat_ok pos -> column2dIndex pos = Ok (pz pos * 16 + px pos).
Proof. intros Hp. unfold column2dIndex. by rewrite horizontal_ok. Qed.

Lemma get014_at f pos d : wf014 d -> in014 f pos ->
  get014 f pos d = Ok (decode014 f (value_at d (place014 f pos))).
Proof.
  intros [Hd Hs] [Hp Hy]. unfold BufferSize in Hs. pose proof Hp as [Hx Hz].
  assert (f <> Biome -> f <> Height_ -> outside pos = false /\ 0 <= flat014Index pos < 32768) as Hin.
  { intros H1 H2. destruct Hy as [Hy|Hy]; [by destruct f|]. split; [by apply outside_false|by apply index014_range]. }
  destruct f; cbn [get014 decode014 place014].
  1-4: destruct Hin as [Ho Hi]; [done|done|];
    unfold getBlockType, getBlockData, getBlockLight, getSkyLight; rewrite Ho, horizontal_ok by done; cbn [rbind].
  - by rewrite read_byte by (done || lia).
  - by rewrite read_nibble by (done || (change (Flat014BlockSize * 2) with 65536; lia)).
  - by rewrite read_nibble by (done || (change ((Flat014BlockSize + Flat014NibbleSize) * 2) with 98304; lia)).
  - by rewrite read_nibble by (done || (change ((Flat014BlockSize + Flat014NibbleSize * 2) * 2) with 131072; lia)).
  - unfold getBiome, biome_offset. rewrite column2d_ok by done. cbn [rbind].
    change Flat014BiomeOffset with 82176. set (o := 82176 + _). rewrite readU32BE_bytes by (done || lia). cbn [rbind].
    rewrite shiftr_div by lia. pose proof (byte_at_range d (o + 1) Hd).
    pose proof (byte_at_range d (o + 2) Hd). pose proof (byte_at_range d (o + 3) Hd).
    rewrite <- (Z.div_unique_pos _ (2 ^ 24) (byte_at d o) (byte_at d (o + 1) * 2 ^ 16 + byte_at d (o + 2) * 2 ^ 8 + byte_at d (o + 3)))
      by lia.
    f_equal. unfold value_at. cbn [wide from]. by rewrite <- byte_nibs.
  - unfold getHeight. rewrite column2d_ok by done. cbn [rbind]. change Flat014HeightOffset with 81920.
    by rewrite read_byte by (done || lia).
Qed.

Lemma setBiome_wrote pos id d : wf014 d -> flat_ok pos ->
  exists d', setBiome pos id d = (Ok tt, d') /\ wrote (place014 Biome pos) (id mod 256) d d'.
Proof.
  intros [Hd Hs] Hp. unfold BufferSize in Hs. pose proof Hp as [Hx Hz].
  unfold setBiome, biome_offset. rewrite column2d_ok by done. cbn [rbind]. rewrite bind_lift, bind_get.
  cbn [place014]. change Flat014BiomeOffset with 82176. set (o := 82176 + _).
  rewrite readU32BE_bytes, bind_lift by (done || lia).
  pose proof (byte_at_range d o Hd). pose proof (byte_at_range d (o + 1) Hd).
  pose proof (byte_at_range d (o + 2) Hd). pose proof (byte_at_range d (o + 3) Hd).
  set (rest := byte_at d (o + 1) * 2 ^ 16 + byte_at d (o + 2) * 2 ^ 8 + byte_at d (o + 3)).
  assert (Z.land (byte_at d o * 2 ^ 24 + byte_at d (o + 1) * 2 ^ 16 + byte_at d (o + 2) * 2 ^ 8 + byte_at d (o + 3)) 0x00ffffff
    = rest) as ->.
  { rewrite (land_ones_mod _ 24) by lia. symmetry. apply (Z.mod_unique_pos _ (2 ^ 24) (byte_at d o)); unfold rest; lia. }
  assert (to_u32 (Z.shiftl (Z.land (to_u32 id) 255) 24) = id mod 256 * 2 ^ 24) as ->.
  { rewrite land_255, shiftl_mul by lia. unfold to_u32. pose proof (Z.mod_pos_bound (id mod 2 ^ 32) 256 ltac:(lia)).
    rewrite (Z.mod_small (_ * 2 ^ 24)) by lia. f_equal.
    apply Z.mod_mod_divide. by exists (2 ^ 24). }
  rewrite lor_mul_add by (unfold rest; lia).
  destruct (writeU32BE_bytes d o (rest + id mod 256 * 2 ^ 24) Hd ltac:(lia) ltac:(lia)) as (d' & Ed & Hs' & Hb' & Hj).
  pose proof (Z.mod_pos_bound id 256 ltac:(lia)).
  assert (forall j, 0 <= j -> byte_at d' j = if j =? o then id mod 256 else byte_at d j) as Hj'.
  { intros j Hj0. rewrite Hj by done. unfold rest.
    destruct (Z.eqb_spec j o) as [->|]; [|destruct (Z.eqb_spec j (o + 1)) as [->|]; [|destruct (Z.eqb_spec j (o + 2)) as [->|];
      [|destruct (Z.eqb_spec j (o + 3)) as [->|]; [|done]]]].
    - rewrite <- (Z.div_unique_pos _ (2 ^ 24) (id mod 256) rest) by (unfold rest; lia). apply Z.mod_small. lia.
    - rewrite <- (Z.div_unique_pos _ (2 ^ 16) (byte_at d (o + 1) + id mod 256 * 2 ^ 8)
        (byte_at d (o + 2) * 2 ^ 8 + byte_at d (o + 3))) by lia. rewrite Z.mod_add, Z.mod_small by lia. done.
    - rewrite <- (Z.div_unique_pos _ (2 ^ 8) (byte_at d (o + 2) + (byte_at d (o + 1) + id mod 256 * 2 ^ 8) * 2 ^ 8)
        (byte_at d (o + 3))) by lia. rewrite Z.mod_add, Z.mod_small by lia. done.
    - symmetry. apply (Z.mod_unique_pos _ (2 ^ 8) (byte_at d (o + 2) + (byte_at d (o + 1) + id mod 256 * 2 ^ 8) * 2 ^ 8)); lia. }
  exists d'. split; [done|]. split; [done|done| |].
  - unfold value_at. cbn [wide from]. rewrite <- byte_nibs by done. rewrite Hj' by lia. by rewrite Z.eqb_refl.
  - intros i Hi Hc. apply nib_other. rewrite Hj' by (apply Z.div_pos; lia).
    destruct (Z.eqb_spec (i / 2) o) as [He|]; [|done]. destruct Hc. apply half in He. unfold covers. cbn. tauto.
Qed.

Lemma to_i8_mod v : is_s 8 v -> to_i8 (v mod 256) = v.
Proof.
  unfold is_s, to_i8, to_signed. change (2 ^ (8 - 1)) with 128. change (2 ^ 8) with 256. intros Hv.
  rewrite Z.mod_mod by lia. destruct (decide (0 <= v)).
  - rewrite Z.mod_small by lia. destruct (Z.ltb_spec v 128); lia.
  - rewrite <- (Z.mod_unique_pos v 256 (-1) (v + 256)) by lia. destruct (Z.ltb_spec (v + 256) 128); lia.
Qed.

Lemma set014_at f pos v d : wf014 d -> in014 f pos -> fits014 f v ->
  exists d' w, set014 f pos v d = (Ok tt, d') /\ wrote (place014 f pos) w d d' /\ decode014 f w = v.
Proof.
  intros Hd [Hp Hy] Hv. pose proof (wf014_bytes d Hd) as Hb. pose proof (wf014_size d Hd) as Hs. unfold BufferSize in Hs.
  pose proof Hp as [Hx Hz].
  assert (f <> Biome -> f <> Height_ -> outside pos = false /\ 0 <= flat014Index pos < 32768) as Hin.
  { intros H1 H2. destruct Hy as [Hy|Hy]; [by destruct f|]. split; [by apply outside_false|by apply index014_range]. }
  destruct f; cbn [set014 decode014 place014 fits014] in *.
  1-4: destruct Hin as [Ho Hi]; [done|done|];
    unfold setBlockType, setBlockData, setBlockLight, setSkyLight; rewrite Ho, horizontal_ok, bind_lift by done.
  - pose proof Hv as Hv'. unfold is_u in Hv'. change (2 ^ 8) with 256 in Hv'. unfold checkedLegacyType.
    destruct (Z.gtb_spec v 255); [lia|]. rewrite bind_lift. unfold to_u8. rewrite Z.mod_small by (change (2 ^ 8) with 256; lia).
    destruct (assign_wrote d (flat014Index pos) v Hb ltac:(lia) Hv) as (d' & Ed & Hw). by exists d', v.
  - destruct (writeNibble_wrote d (65536 + flat014Index pos) v "block data" Hb ltac:(lia) Hv) as (d' & Ed & Hw).
    by exists d', v.
  - destruct (writeNibble_wrote d (98304 + flat014Index pos) v "block light" Hb ltac:(lia) Hv) as (d' & Ed & Hw).
    by exists d', v.
  - destruct (writeNibble_wrote d (131072 + flat014Index pos) v "sky light" Hb ltac:(lia) Hv) as (d' & Ed & Hw).
    by exists d', v.
  - destruct (setBiome_wrote pos v d Hd Hp) as (d' & Ed & Hw). exists d', (v mod 256). split; [done|].
    split; [done|by apply to_i8_mod].
  - unfold setHeight. rewrite column2d_ok, bind_lift by done. change Flat014HeightOffset with 81920.
    destruct (assign_wrote d (81920 + (pz pos * 16 + px pos)) v Hb ltac:(lia) Hv) as (d' & Ed & Hw). by exists d', v.
Qed.

Lemma same_field_place f p q : in014 f p -> in014 f q -> same_field f f p q -> place014 f p = place014 f q.
Proof.
  intros _ _ (_ & Hx & Hz & Hy). destruct f; cbn in *; unfold flat014Index; rewrite Hx, Hz; try done.
  all: destruct Hy as [Hy|Hy]; [done|by rewrite Hy].
Qed.

(** ** Properties *)

(** In a 0.14 chunk the block types, data, block lights, sky lights, biomes
    and heights are independent arrays: setting a value that fits changes
    exactly the addressed element of its field.  Above and below the chunk the
    block fields read 0 and ignore what is set, beside it every access throws,
    and a value that does not fit is refused; none of these changes the chunk. *)
Theorem legacy014_set_get d f pos v :
  wf014 d ->
  (in014 f pos -> fits014 f v ->
     exists d', set014 f pos v d = (Ok tt, d') /\ wf014 d' /\
       forall g q, in014 g q -> get014 g q d' = if decide (same_field f g pos q) then Ok v else get014 g q d) /\
  (per_column f = false -> ~ 0 <= py pos < 128 -> set014 f pos v d = (Ok tt, d) /\ get014 f pos d = Ok 0) /\
  (~ flat_ok pos -> per_column f = true \/ 0 <= py pos < 128 ->
     let e := BedrockChunkError "legacy chunk x/z coordinate outside 0..15" in
     set014 f pos v d = (Throw e, d) /\ get014 f pos d = Throw e) /\
  (in014 f pos -> per_column f = false -> 256 <= v -> exists e, set014 f pos v d = (Throw (BedrockChunkError e), d)).
Proof.
  intros Hd. split_and!.
  - intros Hin Hv. destruct (set014_at f pos v d Hd Hin Hv) as (d' & w & Es & Hw & Hdec). exists d'.
    assert (wf014 d') as Hd' by (split; [apply Hw|rewrite (wrote_size _ _ _ _ Hw); apply Hd]).
    split; [done|]. split; [done|]. intros g q Hq. rewrite !get014_at by done. case_decide as Hsame.
    + pose proof Hsame as (<- & _). rewrite <- (same_field_place f pos q Hin Hq Hsame).
      by rewrite (wrote_value _ _ _ _ Hw), Hdec.
    + f_equal. f_equal. apply (wrote_apart (place014 f pos) w d d'); [done|by apply place014_apart|].
      destruct Hq as [[Hx Hz] Hy]. destruct g; cbn in *; unfold flat014Index; destruct Hy; try done; lia.
  - intros Hf Hy. assert (outside pos = true) as Ho.
    { unfold outside, Height. destruct (Z.ltb_spec (py pos) 0); [done|]. destruct (Z.geb_spec (py pos) 128); [done|lia]. }
    destruct f; try done; cbn [set014 get014];
      unfold setBlockType, setBlockData, setBlockLight, setSkyLight, getBlockType, getBlockData, getBlockLight, getSkyLight;
      by rewrite Ho.
  - intros Hf Hy e. pose proof (horizontal_throws pos Hf) as Ht.
    assert (per_column f = true \/ outside pos = false) as Ho by (destruct Hy; [by left|right; by apply outside_false]).
    destruct f; cbn [set014 get014]; destruct Ho as [Ho|Ho]; try done.
    all: unfold setBlockType, setBlockData, setBlockLight, setSkyLight, getBlockType, getBlockData, getBlockLight, getSkyLight,
      setBiome, getBiome, setHeight, getHeight, biome_offset, column2dIndex; rewrite ?Ho, Ht; done.
  - intros [Hp Hy] Hf Hv. destruct Hy as [Hy|Hy]; [congruence|]. pose proof (outside_false pos Hy) as Ho.
    destruct f; try done; cbn [set014]; unfold setBlockType, setBlockData, setBlockLight, setSkyLight;
      rewrite Ho, horizontal_ok, bind_lift by done.
    1: unfold checkedLegacyType; destruct (Z.gtb_spec v 255); [by eexists|lia].
    all: rewrite writeNibble_throws by lia; by eexists.
Qed.

Lemma legacy014_set_get_witness (d := BedrockChunk014.make) (pos := BedrockChunkColumn.mkPos 3 5 7 None) :
  exists d', set014 Data pos 9 d = (Ok tt, d') /\ get014 Data pos d' = Ok 9 /\ get014 Kind pos d' = get014 Kind pos d.
Proof.
  assert (wf014 d) as Hd.
  { split; [apply Forall_replicate; by apply (bool_decide_unpack _)|]. unfold d, BedrockChunk014.make, size.
    rewrite length_replicate. by vm_compute. }
  assert (forall f, in014 f pos) as Hin by (intros f; split; [split|right]; cbn; lia).
  destruct (legacy014_set_get d Data pos 9 Hd) as [Hs _].
  destruct (Hs (Hin Data) ltac:(cbn; lia)) as (d' & Es & _ & Hg). exists d'. split; [exact Es|].
  rewrite !Hg by apply Hin. split; [reflexivity|]. rewrite decide_False by (intros (Hk & _); discriminate Hk). reflexivity.
Defined.
