(* ===== verification/Legacy10.v ===== *)
(** * The sections and the chunk of 1.0

    The nibbles of a section start one nibble late, so that one pair of fields
    meets; everything else is independent, for the chunk of sixteen sections
    too.  The chunk's buffer round trips except for its biomes. *)

From S2P Require Import Prelude MachineInt GamePacket SubChunk ChunkColumn LegacyChunk LegacyState.

(** ** Sections *)

Inductive field10 := Kind | Data | BlockLight | SkyLight.
#[export] Instance field10_eq_dec : EqDecision field10.
Proof. solve_decision. Defined.

Definition sub_get (f : field10) : BlockPosition -> bytes -> result Z :=
  match f with
  | Kind => BedrockSubChunk10.getBlockType | Data => BedrockSubChunk10.getBlockData
  | BlockLight => BedrockSubChunk10.getBlockLight | SkyLight => BedrockSubChunk10.getSkyLight
  end.
Definition sub_set (f : field10) : BlockPosition -> Z -> M bytes unit :=
  match f with
  | Kind => BedrockSubChunk10.setBlockType | Data => BedrockSubChunk10.setBlockData
  | BlockLight => BedrockSubChunk10.setBlockLight | SkyLight => BedrockSubChunk10.setSkyLight
  end.

Record wf_sub10 (d : bytes) : Prop := mkWfSub10 {
  sub10_bytes : is_bytes d;
  sub10_size : size d = BedrockSubChunk10.BufferSize
}.
Definition in_sub10 (pos : BlockPosition) : Prop := flat_ok pos /\ 0 <= py pos < 16.
Definition fits10 (f : field10) (v : Z) : Prop := match f with Kind => is_u 8 v | _ => 0 <= v < 16 end.

Definition index10 (pos : BlockPosition) : Z := 1 + px pos * 256 + pz pos * 16 + py pos.
Definition place10 (f : field10) (pos : BlockPosition) : place :=
  match f with
  | Kind => mkPlace (2 * index10 pos) true
  | Data => mkPlace (8192 + index10 pos) false
  | SkyLight => mkPlace (12288 + index10 pos) false
  | BlockLight => mkPlace (16384 + index10 pos) false
  end.

(** The data of the first block lies in the type of the last. *)
Definition clash (f g : field10) (p q : BlockPosition) : Prop :=
  f = Kind /\ g = Data /\ index10 p = 4096 /\ index10 q = 1 \/ f = Data /\ g = Kind /\ index10 p = 1 /\ index10 q = 4096.

Lemma index10_range pos : in_sub10 pos -> 1 <= index10 pos <= 4096.
Proof. unfold in_sub10, flat_ok, index10. lia. Qed.

Lemma index10_inj p q : in_sub10 p -> in_sub10 q -> index10 p = index10 q -> same_cell p q.
Proof. unfold in_sub10, flat_ok, index10, same_cell. lia. Qed.

Lemma place10_apart f g p q : in_sub10 p -> in_sub10 q -> ~ (f = g /\ same_cell p q) -> ~ clash f g p q ->
  apart (place10 f p) (place10 g q).
Proof.
  intros Hp Hq Hne Hcl i Hi Hj. pose proof (index10_range p Hp). pose proof (index10_range q Hq).
  pose proof (index10_inj p q Hp Hq) as Hinj. unfold covers, clash in *.
  destruct f, g; cbn in Hi, Hj; try (apply Hne; split; [done|apply Hinj; lia]); try lia; apply Hcl;
    [left|right]; (split; [done|split; [done|lia]]).
Qed.

Lemma sub10_index pos : in_sub10 pos -> sub10Index pos = Ok (index10 pos).
Proof.
  intros [Hp Hy]. unfold sub10Index, requireLocalSubChunkPosition. rewrite horizontal_ok by done. cbn [rbind].
  destruct (Z.ltb_spec (py pos) 0), (Z.geb_spec (py pos) 16); lia || done.
Qed.

Lemma sub_get_at f pos d : wf_sub10 d -> in_sub10 pos -> sub_get f pos d = Ok (value_at d (place10 f pos)).
Proof.
  intros [Hd Hs] Hp. unfold BedrockSubChunk10.BufferSize in Hs. pose proof (index10_range pos Hp) as Hi.
  destruct f; cbn [sub_get place10];
    unfold BedrockSubChunk10.getBlockType, BedrockSubChunk10.getBlockData, BedrockSubChunk10.getBlockLight,
      BedrockSubChunk10.getSkyLight; rewrite sub10_index by done; cbn [rbind].
  - by rewrite read_byte by (done || lia).
  - by rewrite read_nibble by (done || (change (Sub10BlockSize * 2) with 8192; lia)).
  - by rewrite read_nibble by (done || (change ((Sub10BlockSize + Sub10NibbleSize * 2) * 2) with 16384; lia)).
  - by rewrite read_nibble by (done || (change ((Sub10BlockSize + Sub10NibbleSize) * 2) with 12288; lia)).
Qed.

Lemma sub_set_at f pos v d : wf_sub10 d -> in_sub10 pos -> fits10 f v ->
  exists d', sub_set f pos v d = (Ok tt, d') /\ wrote (place10 f pos) v d d'.
Proof.
  intros [Hd Hs] Hp Hv. unfold BedrockSubChunk10.BufferSize in Hs. pose proof (index10_range pos Hp) as Hi.
  destruct f; cbn [sub_set place10 fits10] in *;
    unfold BedrockSubChunk10.setBlockType, BedrockSubChunk10.setBlockData, BedrockSubChunk10.setBlockLight,
      BedrockSubChunk10.setSkyLight; rewrite ?sub10_index, ?bind_lift by done.
  - pose proof Hv as Hv'. unfold is_u in Hv'. change (2 ^ 8) with 256 in Hv'. unfold checkedLegacyType.
    destruct (Z.gtb_spec v 255); [lia|]. rewrite bind_lift. unfold to_u8. rewrite Z.mod_small by (change (2 ^ 8) with 256; lia).
    rewrite bind_lift. apply assign_wrote; [done|lia|done].
  - apply (writeNibble_wrote d (8192 + index10 pos)); [done|lia|done].
  - apply (writeNibble_wrote d (16384 + index10 pos)); [done|lia|done].
  - apply (writeNibble_wrote d (12288 + index10 pos)); [done|lia|done].
Qed.

Lemma wrote_wf_sub10 p v d d' : wf_sub10 d -> wrote p v d d' -> wf_sub10 d'.
Proof. intros [_ Hs] Hw. split; [apply Hw|]. by rewrite (wrote_size _ _ _ _ Hw). Qed.

Lemma sub_set_get d f pos v : wf_sub10 d -> in_sub10 pos -> fits10 f v ->
  exists d', sub_set f pos v d = (Ok tt, d') /\ wf_sub10 d' /\
    forall g q, in_sub10 q -> ~ clash f g pos q ->
      sub_get g q d' = if decide (f = g /\ same_cell pos q) then Ok v else sub_get g q d.
Proof.
  intros Hd Hp Hv. destruct (sub_set_at f pos v d Hd Hp Hv) as (d' & Es & Hw). exists d'. split; [done|].
  pose proof (wrote_wf_sub10 _ _ _ _ Hd Hw) as Hd'. split; [done|]. intros g q Hq Hcl. rewrite !sub_get_at by done.
  case_decide as Hsame.
  - destruct Hsame as (<- & Hx & Hy & Hz). assert (place10 f q = place10 f pos) as ->.
    { destruct f; cbn; unfold index10; by rewrite Hx, Hy, Hz. }
    by rewrite (wrote_value _ _ _ _ Hw).
  - f_equal. apply (wrote_apart (place10 f pos) v d d'); [done|by apply place10_apart|].
    pose proof (index10_range q Hq). destruct g; cbn; lia.
Qed.

(** The two fields that meet: the data nibble of the block at 0,0,0 is the
    high half of the type byte of the block at 15,15,15, so that setting one
    changes the other. *)
Theorem legacy10_clash d v (first := BedrockChunkColumn.mkPos 0 0 0 None)
    (last := BedrockChunkColumn.mkPos 15 15 15 None) :
  wf_sub10 d -> 0 <= v < 16 ->
  exists d' old, BedrockSubChunk10.setBlockData first v d = (Ok tt, d') /\
    BedrockSubChunk10.getBlockType last d = Ok old /\
    BedrockSubChunk10.getBlockType last d' = Ok (old mod 16 + 16 * v).
Proof.
  intros Hd Hv. assert (in_sub10 first /\ in_sub10 last) as [Hf Hl].
  { unfold first, last, in_sub10, flat_ok. cbn. lia. }
  destruct (sub_set_at Data first v d Hd Hf Hv) as (d' & Es & Hw). exists d'.
  pose proof (wrote_wf_sub10 _ _ _ _ Hd Hw) as Hd'.
  exists (value_at d (place10 Kind last)). split; [exact Es|]. split; [exact (sub_get_at Kind last d Hd Hl)|].
  rewrite (sub_get_at Kind last d' Hd' Hl : BedrockSubChunk10.getBlockType last d' = _). f_equal.
  pose proof (wrote_value _ _ _ _ Hw) as Hval. unfold value_at in *. cbn in Hval. unfold value_at. cbn.
  change (2 * index10 last) with 8192. change (index10 first) with 1 in Hval. change (8192 + 1) with 8193 in *.
  rewrite Hval. rewrite (wrote_rest _ _ _ _ Hw 8192) by (lia || (intros [Hc|[Hc _]]; cbn in Hc; [change (index10 first) with 1 in Hc; lia|done])).
  pose proof (nib_range d 8192 (sub10_bytes d Hd)). pose proof (nib_range d 8193 (sub10_bytes d Hd)).
  by rewrite <- (Z.mod_unique_pos (nib d 8192 + 16 * nib d 8193) 16 (nib d 8193) (nib d 8192)) by lia.
Qed.

Lemma sub10_make_wf : wf_sub10 BedrockSubChunk10.make.
Proof.
  split; [apply Forall_replicate; by apply (bool_decide_unpack _)|].
  unfold BedrockSubChunk10.make, size. rewrite length_replicate. by vm_compute.
Qed.

Lemma legacy10_clash_witness :
  exists d', BedrockSubChunk10.setBlockData (BedrockChunkColumn.mkPos 0 0 0 None) 3 BedrockSubChunk10.make = (Ok tt, d') /\
    BedrockSubChunk10.getBlockType (BedrockChunkColumn.mkPos 15 15 15 None) d' = Ok 48.
Proof.
  destruct (legacy10_clash BedrockSubChunk10.make 3 sub10_make_wf ltac:(lia)) as (d' & old & Es & Eo & Eg).
  exists d'. split; [exact Es|]. assert (old = 0) as -> by (vm_compute in Eo; congruence). exact Eg.
Defined.

(** ** The chunk *)

Import BedrockChunk10.

Record wf10 (c : BedrockChunk10) : Prop := mkWf10 {
  wf10_count : size (sections_ c) = 16;
  wf10_sections : Forall wf_sub10 (sections_ c);
  wf10_data : size (data_ c) = 768 /\ is_bytes (data_ c)
}.

Definition get10 (f : field10) : BlockPosition -> BedrockChunk10 -> result Z :=
  match f with Kind => getBlockType | Data => getBlockData | BlockLight => getBlockLight | SkyLight => getSkyLight end.
Definition set10 (f : field10) : BlockPosition -> Z -> M BedrockChunk10 unit :=
  match f with Kind => setBlockType | Data => setBlockData | BlockLight => setBlockLight | SkyLight => setSkyLight end.

(** What a field reads where there is no section. *)
Definition absent (f : field10) : Z := match f with SkyLight => 15 | _ => 0 end.

Lemma get10_section f : get10 f = read_section (absent f) (sub_get f).
Proof. by destruct f. Qed.
Lemma set10_section f : set10 f = write_section (sub_set f).
Proof. by destruct f. Qed.

Definition local (pos : BlockPosition) : BlockPosition := localSubChunkPosition pos.

Lemma local_in pos : flat_ok pos -> in_sub10 (local pos).
Proof.
  intros Hp. split; [exact Hp|]. unfold local, localSubChunkPosition. cbn. rewrite land_15. apply Z.mod_pos_bound. lia.
Qed.

Lemma getSection_in y c : wf10 c -> 0 <= y < 256 ->
  exists s, getSection (Z.shiftr y 4) c = Some s /\ wf_sub10 s /\ sections_ c !! Z.to_nat (Z.shiftr y 4) = Some s /\
    0 <= Z.shiftr y 4 < 16.
Proof.
  intros Hc Hy. rewrite shiftr_div by lia. change (2 ^ 4) with 16. assert (0 <= y / 16 < 16) as Hr.
  { split; [apply Z.div_pos; lia|apply Z.div_lt_upper_bound; lia]. }
  pose proof (wf10_count c Hc) as Hs. unfold getSection.
  destruct (vec_at_ok (sections_ c) (y / 16) ltac:(lia)) as (s & _ & Hl).
  destruct (Z.ltb_spec (y / 16) 0), (Z.geb_spec (y / 16) (size (sections_ c))); try lia. cbn [orb].
  exists s. split; [done|]. split; [exact (Forall_lookup_1 _ _ _ _ (wf10_sections c Hc) Hl)|done].
Qed.

Lemma getSection_out y c : wf10 c -> ~ 0 <= y < 256 -> getSection (Z.shiftr y 4) c = None.
Proof.
  intros Hc Hy. rewrite shiftr_div by lia. change (2 ^ 4) with 16. unfold getSection. rewrite (wf10_count c Hc).
  destruct (Z.ltb_spec (y / 16) 0); [done|]. destruct (Z.geb_spec (y / 16) 16); [done|].
  destruct Hy. pose proof (Z.div_mod y 16 ltac:(lia)). pose proof (Z.mod_pos_bound y 16 ltac:(lia)). lia.
Qed.

Lemma same_height y y' : Z.shiftr y 4 = Z.shiftr y' 4 -> Z.land y 15 = Z.land y' 15 -> y = y'.
Proof.
  rewrite !land_15, !shiftr_div by lia. change (2 ^ 4) with 16. intros.
  pose proof (Z.div_mod y 16 ltac:(lia)). pose proof (Z.div_mod y' 16 ltac:(lia)). lia.
Qed.

(** C23: in a 1.0 chunk setting a type, data or light that fits keeps the
    invariant and changes exactly the addressed element of its field, apart
    from the one pair that meets in each section; above and below the chunk
    nothing is set and the absent value is read. *)
Theorem legacy10_set_get c f pos v :
  wf10 c -> flat_ok pos ->
  (0 <= py pos < 256 -> fits10 f v ->
     exists c', set10 f pos v c = (Ok tt, c') /\ wf10 c' /\ data_ c' = data_ c /\
       forall g q, flat_ok q -> 0 <= py q < 256 ->
         ~ (Z.shiftr (py pos) 4 = Z.shiftr (py q) 4 /\ clash f g (local pos) (local q)) ->
         get10 g q c' = if decide (f = g /\ same_cell pos q) then Ok v else get10 g q c) /\
  (~ 0 <= py pos < 256 -> set10 f pos v c = (Ok tt, c) /\ get10 f pos c = Ok (absent f)).
Proof.
  intros Hc Hp. rewrite set10_section. split.
  - intros Hy Hv. destruct (getSection_in (py pos) c Hc Hy) as (s & Es & Hs & Hl & Hr).
    destruct (sub_set_get s f (local pos) v Hs (local_in pos Hp) Hv) as (s' & Ed & Hs' & Hg).
    set (i := Z.shiftr (py pos) 4) in *.
    set (c' := set_sections (<[Z.to_nat i := s']> (sections_ c)) c). exists c'.
    split; [unfold write_section; fold i; rewrite Es; fold (local pos); by rewrite Ed|].
    assert (wf10 c') as Hc'.
    { split; [rewrite <- (wf10_count c Hc); unfold size; cbn; by rewrite length_insert|by apply Forall_insert; [apply Hc|]|apply Hc]. }
    split; [done|]. split; [done|]. intros g q Hq Hyq Hcl. rewrite get10_section. unfold read_section.
    destruct (getSection_in (py q) c Hc Hyq) as (t & Et & Ht & Hlt & Hrt).
    destruct (getSection_in (py q) c' Hc' Hyq) as (t' & Et' & Ht' & Hlt' & _). rewrite Et, Et'.
    fold (local q). unfold c' in Hlt'. cbn [sections_ set_sections] in Hlt'.
    destruct (decide (i = Z.shiftr (py q) 4)) as [Hi|Hi].
    + rewrite <- Hi in *. rewrite list_lookup_insert_eq in Hlt' by (by eapply lookup_lt_Some).
      injection Hlt' as <-. assert (t = s) as -> by congruence.
      rewrite Hg by (apply local_in || (intros Hc0; apply Hcl; by split); done).
      assert (same_cell (local pos) (local q) <-> same_cell pos q) as Hsame.
      { unfold same_cell, local, localSubChunkPosition. cbn. split; intros (? & Hyy & ?); split_and!; try done; [|by rewrite Hyy].
        by apply same_height. }
      apply decide_ext. by rewrite Hsame.
    + rewrite list_lookup_insert_ne in Hlt' by lia. assert (t' = t) as -> by congruence.
      rewrite decide_False; [done|]. intros (_ & _ & Hyy & _). apply Hi. unfold i. by rewrite Hyy.
  - intros Hy. unfold write_section. rewrite get10_section. unfold read_section. by rewrite !getSection_out.
Qed.

Lemma make10_wf : wf10 BedrockChunk10.make.
Proof.
  split; [done| |split; [done|]].
  - apply Forall_replicate, sub10_make_wf.
  - apply Forall_app. split; apply Forall_replicate; by apply (bool_decide_unpack _).
Qed.

Lemma legacy10_set_get_witness (pos := BedrockChunkColumn.mkPos 3 77 7 None) :
  exists c', set10 Kind pos 200 BedrockChunk10.make = (Ok tt, c') /\ get10 Kind pos c' = Ok 200.
Proof.
  assert (flat_ok pos) as Hp by (split; cbn; lia).
  destruct (legacy10_set_get BedrockChunk10.make Kind pos 200 make10_wf Hp) as [Hs _].
  destruct (Hs ltac:(cbn; lia) ltac:(by apply (bool_decide_unpack (is_u 8 200)))) as (c' & Es & _ & _ & Hg). exists c'.
  split; [exact Es|]. rewrite Hg; [reflexivity|exact Hp|cbn; lia|]. intros (_ & [(_ & Hk & _)|(Hk & _)]); discriminate Hk.
Defined.

(** ** The buffer *)

Lemma size_concat_sections (l : list BedrockSubChunk10.BedrockSubChunk10) : Forall wf_sub10 l -> size (concat l) = size l * 10241.
Proof.
  induction 1 as [|s l Hs _ IH]; [done|]. cbn [concat]. rewrite size_app, size_cons, IH, (sub10_size s Hs).
  unfold BedrockSubChunk10.BufferSize. lia.
Qed.

(** Loading sections one after the other into the places from [i]. *)
Lemma load_sections_ok (parts : list BedrockSubChunk10.BedrockSubChunk10) : forall i offset data c,
  0 <= i -> 0 <= offset -> i + size parts <= size (sections_ c) ->
  Forall (fun p => size p = BedrockSubChunk10.BufferSize) parts ->
  offset + size (concat parts) <= size data ->
  take (length (concat parts)) (drop (Z.to_nat offset) data) = concat parts ->
  load_sections (length parts) i offset data c =
    (Ok tt, set_sections (take (Z.to_nat i) (sections_ c) ++ parts ++ drop (Z.to_nat i + length parts) (sections_ c)) c).
Proof.
  induction parts as [|p parts IH]; intros i offset data c Hi Ho Hn Hp Hd Ht; cbn [length load_sections].
  { rewrite Nat.add_0_r. cbn [app]. rewrite take_drop. by destruct c. }
  apply Forall_cons_1 in Hp as [Hps Hp]. unfold BedrockSubChunk10.BufferSize in Hps. cbn [concat] in *.
  rewrite size_app in Hd. rewrite size_cons in Hn. pose proof (size_nonneg parts). pose proof (size_nonneg (concat parts)).
  rewrite length_app in Ht.
  assert (vec_range data offset (offset + BedrockSubChunk10.BufferSize) = Ok p) as ->.
  { unfold BedrockSubChunk10.BufferSize. rewrite vec_range_ok by lia. f_equal.
    replace (Z.to_nat (offset + 10241 - offset)) with (length p) by (unfold size in Hps; lia).
    apply (f_equal (take (length p))) in Ht. rewrite take_take, take_app_length in Ht.
    by replace (length p `min` (length p + length (concat parts)))%nat with (length p) in Ht by lia. }
  rewrite bind_lift, bind_get. destruct (vec_at_ok (sections_ c) i ltac:(lia)) as (s & -> & Hs). rewrite bind_lift.
  unfold exec, BedrockSubChunk10.load. rewrite Hps. cbn [negb BedrockSubChunk10.BufferSize Z.eqb Pos.eqb]. cbn iota.
  change (put_st p s) with (Ok tt, p). cbn iota. rewrite bind_lift.
  unfold vec_set. rewrite (proj2 (Z.leb_le _ _)), (proj2 (Z.ltb_lt _ _)) by lia. cbn [andb]. rewrite bind_lift, bind_put.
  rewrite IH; cbn [sections_ set_sections data_]; [|lia|unfold BedrockSubChunk10.BufferSize; lia| |done| |].
  - unfold set_sections. cbn [sections_ data_]. f_equal. f_equal.
    replace (Z.to_nat (i + 1)) with (S (Z.to_nat i)) by lia.
    rewrite (insert_take_drop (sections_ c)) by (unfold size in *; lia).
    assert (length (take (Z.to_nat i) (sections_ c)) = Z.to_nat i) as Hlen by (rewrite length_take; unfold size in *; lia).
    rewrite take_app_ge, drop_app_ge by lia. rewrite Hlen.
    replace (S (Z.to_nat i) - Z.to_nat i)%nat with 1%nat by lia.
    replace (S (Z.to_nat i) + length parts - Z.to_nat i)%nat with (S (length parts)) by lia.
    cbn [take drop]. rewrite take_0, drop_drop, <- app_assoc. cbn [app]. by rewrite Nat.add_succ_comm.
  - unfold size in *. rewrite length_insert. lia.
  - unfold BedrockSubChunk10.BufferSize. lia.
  - unfold BedrockSubChunk10.BufferSize.
    replace (Z.to_nat (offset + 10241)) with (Z.to_nat offset + length p)%nat by (unfold size in Hps; lia).
    rewrite <- drop_drop, take_drop_commute, Ht. apply drop_app_length.
Qed.

(** C25: the buffer of a 1.0 chunk has the fixed size the code reserves, and
    loading it into any chunk brings back every section; the biomes that the
    buffer carries are dropped, the loading chunk keeps its own. *)
Theorem legacy10_dump_load c c' :
  wf10 c -> wf10 c' ->
  size (dump c) = BufferSize /\ is_bytes (dump c) /\
  exists c2, load (dump c) c' = (Ok tt, c2) /\ wf10 c2 /\ data_ c2 = data_ c' /\
    forall f pos, flat_ok pos -> get10 f pos c2 = get10 f pos c.
Proof.
  intros Hc Hc'. pose proof (wf10_count c Hc) as Hn. pose proof (wf10_count c' Hc') as Hn'.
  destruct (wf10_data c Hc) as [Hds Hdb]. 
  assert (size (concat (sections_ c)) = 16 * 10241) as Hcs.
  { rewrite <- Hn. exact (size_concat_sections _ (wf10_sections c Hc)). }
  unfold dump. rewrite list_fmap_id. rewrite Hn. change (to_u8 16) with 16.
  split; [rewrite !size_app, Hcs, Hds; reflexivity|]. split.
  { repeat (apply Forall_app; split); [by repeat constructor; apply (bool_decide_unpack _)| |done|].
    - apply Forall_concat. eapply Forall_impl; [|exact (wf10_sections c Hc)]. by intros s [].
    - repeat constructor; by apply (bool_decide_unpack _). }
  exists (set_sections (sections_ c) c'). split; [|split; [|split; [done|]]].
  - unfold load. rewrite bind_get, bool_decide_false by done. cbn [app vec_at]. change (vec_at (16 :: _) 0) with (Ok 16).
    rewrite bind_lift, Hn'. rewrite !size_cons, !size_app, Hcs, Hds.
    change (16 >? 16) with false. cbn [orb]. destruct (Z.gtb_spec (1 + 16 * BedrockSubChunk10.BufferSize) (16 * 10241 + (768 + size [0; 0]) + 1)) as [Hgt|_].
    { exfalso. revert Hgt. by vm_compute. }
    assert (length (sections_ c) = 16%nat) as Hlen by (unfold size in Hn; lia).
    change (Z.to_nat 16) with 16%nat. assert (0 + size (sections_ c) <= size (sections_ c')) as Hle by lia.
    rewrite <- Hlen at 1. rewrite load_sections_ok; [|lia|lia|exact Hle| | |].
    + change (Z.to_nat 0) with 0%nat. rewrite take_0, Nat.add_0_l, Hlen. cbn [app].
      rewrite drop_ge by (unfold size in Hn'; lia). by rewrite app_nil_r.
    + eapply Forall_impl; [|exact (wf10_sections c Hc)]. by intros s [].
    + rewrite size_cons, !size_app, Hcs. pose proof (size_nonneg (data_ c)). pose proof (size_nonneg [0; 0]). lia.
    + change (Z.to_nat 1) with 1%nat. cbn [drop]. exact (take_app_length (concat (sections_ c)) _).
  - split; [done|exact (wf10_sections c Hc)|exact (wf10_data c' Hc')].
  - intros f pos Hp. by rewrite get10_section.
Qed.

Lemma legacy10_dump_load_witness :
  exists c2, load (dump BedrockChunk10.make) BedrockChunk10.make = (Ok tt, c2) /\ wf10 c2.
Proof.
  destruct (legacy10_dump_load BedrockChunk10.make BedrockChunk10.make make10_wf make10_wf) as (_ & _ & c2 & El & Hw & _).
  exists c2. split; [exact El|exact Hw].
Defined.

Lemma load_sections_safe n : forall i offset data c,
  wf10 c -> is_bytes data -> 0 <= i -> i + Z.of_nat n <= 16 -> 0 <= offset ->
  offset + Z.of_nat n * 10241 <= size data ->
  exists c', load_sections n i offset data c = (Ok tt, c') /\ wf10 c' /\ data_ c' = data_ c.
Proof.
  induction n as [|n IH]; intros i offset data c Hc Hd Hi Hn Ho Hs; cbn [load_sections]; [by exists c|].
  unfold BedrockSubChunk10.BufferSize. rewrite vec_range_ok, bind_lift, bind_get by lia.
  set (p := take _ (drop _ data)).
  assert (size p = 10241) as Hp by (unfold p, size in *; rewrite length_take, length_drop; lia).
  pose proof (wf10_count c Hc) as Hcount.
  destruct (vec_at_ok (sections_ c) i ltac:(lia)) as (s & -> & Hl). rewrite bind_lift.
  unfold exec, BedrockSubChunk10.load. rewrite Hp. cbn [negb BedrockSubChunk10.BufferSize Z.eqb Pos.eqb]. cbn iota.
  change (put_st p s) with (Ok tt, p). cbn iota. rewrite bind_lift.
  unfold vec_set. rewrite (proj2 (Z.leb_le _ _)), (proj2 (Z.ltb_lt _ _)) by lia. cbn [andb]. rewrite bind_lift, bind_put.
  destruct (IH (i + 1) (offset + 10241) data (set_sections (<[Z.to_nat i := p]> (sections_ c)) c)) as (c' & El & Hw & Hdc);
    try lia; [|done|by exists c'].
  split; [|apply Forall_insert; [apply Hc|]|apply Hc].
  - rewrite <- Hcount. unfold size. cbn. by rewrite length_insert.
  - split; [|exact Hp]. by apply Forall_take, Forall_drop.
Qed.

(** Loading any bytes into a 1.0 chunk either throws a [BedrockChunkError]
    and leaves the chunk as it was, or keeps its invariant and its biomes; no
    access leaves the buffer. *)
Theorem legacy10_load_safe data c :
  wf10 c -> is_bytes data ->
  (exists c', load data c = (Ok tt, c') /\ wf10 c' /\ data_ c' = data_ c) \/
  (exists e, load data c = (Throw (BedrockChunkError e), c)).
Proof.
  intros Hc Hd. unfold load. rewrite bind_get. case_bool_decide as He; [right; by eexists|].
  destruct data as [|n rest]; [done|]. change (vec_at (n :: rest) 0) with (Ok n). rewrite bind_lift.
  apply Forall_cons_1 in Hd as Hn. destruct Hn as [Hn _]. unfold is_u in Hn.
  rewrite (wf10_count c Hc). destruct (Z.gtb_spec n 16); [right; by eexists|].
  destruct (Z.gtb_spec (1 + n * BedrockSubChunk10.BufferSize) (size (n :: rest))); [right; by eexists|].
  left. unfold BedrockSubChunk10.BufferSize in *. apply load_sections_safe; [done|done|lia|lia|lia|].
  rewrite Z2Nat.id by lia. lia.
Qed.

Lemma legacy10_load_safe_witness : exists e, load [1; 2; 3] BedrockChunk10.make = (Throw (BedrockChunkError e), BedrockChunk10.make).
Proof.
  destruct (legacy10_load_safe [1; 2; 3] BedrockChunk10.make make10_wf) as [(c' & El & _)|He].
  - by repeat constructor; apply (bool_decide_unpack _).
  - exfalso. unfold load in El. cbn in El. discriminate El.
  - exact He.
Defined.
